(* ===== verification/_CoqProject ===== *)
-Q . S2P
Prelude.v
Validate.v
CmdArgs.v
Task.v
Pool.v
PoolSlots.v
PoolPersist.v
Double.v
Exchange.v
WarmChain.v
CmdTree.v
CmdDispatch.v
Plugin.v
Sse.v
Util.v
CurlFlight.v
MathExpr.v
Kv.v
KvPersist.v
KvApi.v
IrcParse.v
IrcChannel.v
Irc.v
IrcStream.v
IrcSend.v
IrcRoster.v
IrcNet.v
Conc.v
Sock.v
SockOk.v
SockSafe.v
IrcLife.v
IrcSafe.v
Bot.v
BotOk.v
BotSafe.v
IrcRuns.v
BotRuns.v
Mfa.v
Logins.v
LoginsOk.v
LoginRuns.v
When.v
WhenOk.v
