(* ===== verification/Prelude.v ===== *)
(** * BotManager: a verification library

    BotManager is a daemon that runs chat bots. Bots speak through methods (IRC and
    others), users talk to them in commands, plugins add both, and everything
    asynchronous runs as a task on one scheduler. The library models, from the C
    sources under src/, the parts whose correctness is their own logic rather than
    a third party's, and proves what each promises.

    ** The files and the code they model

    - [Prelude] (this file): characters, C strings, machine integers and the decimal
      conversions of the C library, with their lemmas and the tactics of the
      development. A C string is the list of its characters before the NUL; a
      pointer into it is a suffix. Characters are those of the C locale, which the
      program never leaves.
    - [Validate]: core/validate.c, the predicates on names, ports and hosts.
    - [CmdArgs]: the argument parser of core/cmd.c ([reg_validate_args],
      [cmd_parse_args] and their helpers).
    - [CmdTree]: the command registry of core/cmd.c: lookup, registration with its
      collision checks, unregistration of a subtree, the sweep that reclaims what an
      unloaded object registered, and the resolution of subcommands.
    - [CmdDispatch]: core/cmd.c from a message to a submitted task: prefixes,
      permissions, [cmd_dispatch], [cmd_dispatch_as], the run of the task, the reply
      sinks and the in-flight accounting.
    - [Task]: core/task.c, the scheduler: ready, timer and running queues,
      continuations, cancellation, promotion, statistics.
    - [Pool], [PoolSlots], [PoolPersist]: core/pool.c, the elastic workers, their slots
      and shutdown, and the threads of persistent tasks, as step systems over [Task].
    - [Double]: the C type double, binary64.
    - [Exchange]: plugins/feature/exchange, the dispatch of requests: queue, token
      bucket, retries, the stall pump, as a step system.
    - [WarmChain]: plugins/extension/whenmoon/warm_chain.c, the deferred tasks that
      re-arm themselves and the drain that ends them.
    - [Plugin]: core/plugin.c: validation, dependency order, lifecycle sweeps,
      unloading, the closure of a reload and its cascade.
    - [CurlFlight]: core/curl_flight.c, the set of requests a plugin has in the air
      and the drain its stop() waits in.
    - [MathExpr]: core/math_expr.c, the expression evaluator.
    - [Kv], [KvPersist], [KvApi]: core/kv.c, the configuration store in memory, its
      registration and database, and whole calls with their interleavings.
    - [IrcParse], [IrcChannel], [Irc]: plugins/method/irc, the line parser and the
      identity projection, the table of channels and members, the driver's handlers.
      [IrcStream], [IrcSend], [IrcRoster] and [IrcNet] hold its theorems: lines out of
      the stream, what goes on the wire, the members against the network they are on.
    - [Conc]: C functions as programs of atomic actions, the machine that interleaves
      them and the rule that proves an invariant of it, with the references a thread
      holds as tokens.
    - [Sock]: core/sock.c, every function that touches a session. [SockOk] is its
      invariant, against a class of what the service's user keeps; [SockSafe] has a rule
      for each function.
    - [IrcLife]: the lifetime of the driver's state: references, session, reconnects,
      with the method instances of core/method.c that own drivers and their subscribers.
      [IrcSafe] is its invariant and rules.
    - [Bot]: core/bot.c, the life of a bot, its driver and its bindings, the delivery of a
      message to it and what a plugin reload takes away and gives back. [BotOk] is its
      invariant, [BotSafe] joins it with [IrcSafe]'s and has a rule for each function.
    - [IrcRuns], [BotRuns]: what these rules say of whole runs of the program that [Bot]'s
      entry points make of all the above, and runs in particular that show what its code
      does not exclude.
    - [Mfa]: core/userns_mfa.c and core/userns_cache.c, the patterns that say who a sender
      is, their cache and the match.
    - [Logins]: core/userns_tmfa.c and the parts of core/userns.c, core/bot.c and
      plugins/bot/chat/dispatch.c around it: users, temporary logins, and whom a message is
      acted on as. [LoginsOk] reads the history of logins as their specification and has a
      rule for each function; [LoginRuns] says what holds of a namespace in every run.
    - [When]: plugins/bot/chat/when.c, the grammar of moments ("in 20m", "every mon,wed at
      3pm paris time") and the words a repeat is said back in. [WhenOk] has its theorems.
    - [Sse]: core/sse.c, the parser of streamed responses.
    - [Util]: core/util.c: hashes, Base64, and the URL helpers (search, redaction,
      the check against internal addresses, canonicalization).

    The parts meet as they do in the program. [CmdArgs] validates tokens with
    [Validate]. A definition of [CmdTree] holds descriptors of [CmdArgs].
    [CmdDispatch] looks a command up in [CmdTree], parses with [CmdArgs] and submits
    to [Task]. The workers of [Pool] take from, run and finish the tasks of [Task], on its
    own state. [Irc] reads its configuration from the store of [Kv], with the getters of
    that file, and answers the context [CmdDispatch] matches permissions on. [WarmChain] is
    proved against the class [Task.DeferredQueue], the contract of deferred tasks, and [Task]
    gives the instance that discharges it. A connect leg, an epoll event or a deadline of
    [Sock] runs the callback of the session's user; the driver of [IrcLife] is that user,
    [IrcSafe] gives the instance [SockSafe] is proved against, and its backoff waits in the
    queues of [Task]. A bot of [Bot] finds, makes, connects and retires the method instances
    of [IrcLife], and is called back with what they deliver; [Conc] lifts the programs of a
    part into the memory of the whole, and with them their rules. [Logins] matches with [Mfa],
    and is a machine of [Conc] by itself: the instances of a method are to it their kind and
    the key they make of an identity.

    ** How the state corresponds

    State is passed explicitly: an operation takes the state and returns the new one
    with its result and, where it acts on other parts of the program, the list of
    those effects in order. An operation under a mutex is one step. Intrusive lists
    are lists of their nodes in order ([sched], the plugin list); where nodes point
    at each other, as command definitions do, there is a heap of records by address
    ([registry]) and the lists hold addresses. Counters and hashes are kept at their
    width: [wrap 32] and [wrap 64] are written where the C type wraps. What lies
    behind an interface the library does not model is an argument that answers for
    it: the clock, the other tables the dispatcher consults, the plugin callbacks and
    the dynamic linker ([plugin_env]), the C library's address parser and mathematical
    functions ([Libm]), its text of a floating-point number ([CFloat]), the program's
    version string.

    Threads are program counters in [Pool], [PoolPersist] and [Exchange], and the rest
    of their program in [Conc]. A step is one critical section, one access outside of a
    lock or one call out of the module; an event names the thread and what the
    environment answered it, and a theorem holds of every list of events. In [Conc]
    pointers are indexes into memory in which a freed object is None; to go through one
    is a [Fault], as is a system call on a descriptor that is not open, a call through a
    vtable that is not mapped, or a call into a driver with a state it has destroyed.

    [Logins] has the tables of one namespace as lists of rows. A statement of SQL is one action
    that is executed, refused, or executed without an answer. Beside the memory it keeps the
    history of what was proved, minted, renewed, seen, ended and answered, which the code does
    not keep: no action reads it, and the theorems are about it.

    A run of [IrcRuns] is a sequence of phases, because bot_find() gives no reference: in a
    phase either bots are destroyed or they are started, stopped and bound by name, and
    everything else happens in both. Two entry points of [Bot] are in no phase, a send
    through an instance found by name and the unmapping of a driver the loader believes
    unused: [method_send_race] and [bot_inflight_early] are what they can do.

    ** What is proved

    - Invariants over all reachable states: [task_sched_invariant] (queues sorted,
      states and statistics right), [cmd_registry_invariant] (the tree and its two
      lists agree), [cmd_siblings_unambiguous], [kv_typed_invariant] (a value has the
      type it was registered with), [pool_slots_exclusive], [pool_bg_within_budget],
      [persist_joined_once], [wm_warm_drain_frees_idle] (no chain is freed under a
      thread, whatever the interleaving), [curl_flight_drain_sound] (no callback outlives
      a drain that returns zero), [sse_buffers_in_bounds], [sock_sessions_sound],
      [sock_bytes_in_order] (what was accepted is sent, in order), [irc_references],
      [bots_settled] (no bot is half started), [bot_states_owned], [bot_drain_count],
      [logins_follow_history] (the logins in memory are those the history says).
    - Liveness: [exchange_never_parks] (a waiting request always has someone who will
      dispatch it), [pool_shutdown_drains], [kv_flush_finishes], [irc_nothing_left] (the
      last one out has freed everything).
    - Safety: [irc_runs_never_fault] (no freed session, driver, instance or bot is touched in
      any interleaving), [cmd_dispatch_safe] and [creds_only_control_admin] (nothing runs and no
      secret is shown without the permission), [message_identity] (nobody is taken for a user
      but by a login that stands or a pattern that was granted), [login_has_password],
      [gone_ends_logins], [mfa_pattern_strength], [kv_secrets_redacted],
      [kv_untouched_row_survives], [kv_str_immortal], [exchange_request_once],
      [irc_one_command_a_line] (no text of a peer becomes a command),
      [irc_identity_exact], [cmd_parse_args_sound], [util_redact_url_noninterference],
      [util_url_canon_fits], [plugin_reload_cascade_unblocked].
    - Refinement and equivalence with a specification: [irc_roster_sound] (every member
      the driver lists is there, under that user and host, on the network as it is),
      [irc_stream_reassembled], [math_eval_grammar] (the evaluator computes what the
      grammar says), [plugin_resolve_correct] (an order is found exactly when one
      exists), [plugin_closure_least], [cmd_dispatch_iff_permits],
      [cmd_unregister_exact], [cmd_prefix_refines] (prefix sets against a map),
      [util_url_canon_equiv], [timer_promote_exact], [task_assign_best],
      [task_cancel_correct], [task_finish_periodic], [kv_set_numbers_exact],
      [irc_privmsg_whole], [fn_ncr_exact], [userns_mfa_match_correct],
      [when_parse_duration_exact], [validate_port_correct],
      [validate_alnum_correct]; the form of what is read, [when_parse_sound]; and what one operation does while others run, as rules with
      its conditions before and after: [bot_start_spec], [bot_stop_spec].
    - Round trips: [cmd_parse_args_roundtrip], [kv_text_roundtrip], [irc_parse_format],
      [sse_stream_delivered], [util_b64_roundtrip], [when_weekly_reads_back],
      [when_every_reads_back], [when_restore_exact].
    - Termination: [math_eval_stack_bounded], [cmd_reclaim_complete],
      [resolve_subcmd_complete].
    - Behaviour the comments of the code do not announce, stated as it is:
      [task_cancel_loses_continuations], [cmd_register_long_twins],
      [cmd_dispatch_abbrev_shadowed], [check_permission_owner],
      [plugin_unload_clears_zombie], [util_url_is_safe_userinfo], [curl_flight_cancels_once],
      [validate_irc_channel_high_byte], [exchange_build_failure_parks],
      [irc_trailing_cut], [irc_read_splices], [irc_emote_cut], [irc_emote_lost],
      [irc_kick_message_gone], [sock_send_lost_wake], [sock_adopt_leaks], [sock_tls_null],
      [irc_reconnect_lost], [method_send_race], [bot_teardown_lost], [bot_teardown_late],
      [bot_inflight_early], [bot_inflight_doomed], [bot_find_race], [bot_reload_both],
      [mfa_brackets_pass], [mfa_user_globs], [discovery_repeats], [login_after_quit],
      [deleted_user_acts], [sweep_ends_the_wrong_login], [when_slash_is_a_zone],
      [when_ninety_seconds]; and the error paths
      [cmd_parse_args_overlong], [kv_flush_loses_set] and [wm_warm_drain_refused].

    ** Fuel

    Loops over lists recurse on the list. The others count down a bound the theorems
    show to be enough: collecting a subtree and resolving a subcommand go at most as
    deep as there are definitions; the dependency and closure loops place or add a
    plugin each turn, so the number of plugins bounds them; reclaiming removes at
    least one definition a turn; redaction consumes a character a turn; 64
    doublings of a buffer exceed every length of 63 bits; the decimal conversion
    gives a digit per bit of the number; the evaluator's depth limit keeps it within
    193 frames, and its loops consume a character a turn; a flush of the configuration
    store looks at each entry once; the loops over the words of a phrase consume one a
    turn and find at most three parts; the read and send loops of the IRC driver consume
    their text. The read loop and the deadline scan of [Sock] are bounded by a number
    their entry point is given, and the theorems hold for every number; a thread past its
    bound waits, as does a thread of [Logins] that drops more logins than its bound. A
    driver's on_message() runs for as many actions as the environment says.
    The machine of [IrcLife] ends when the scheduler's 64-bit ids do.

    ** What is not modelled

    The time a thread waits, allocation failure (the allocator aborts), formatting of
    listings and help, and whatever only wraps a library: HTTP, SQL, JSON, audio,
    terminals. Of sockets and TLS the calls are actions whose result is the answer of the
    environment. In [IrcLife] only reconnect tasks are in the scheduler, the walk of the
    sessions on a wake is one action, and what the handlers of server lines do to the
    roster is [Irc]'s. In [Bot] the loader is an entry point that maps a vtable, what a
    plugin's driver does with its state is opaque, and the keys and personas of a bot are left
    out; reference counts are not wrapped at their 32 bits. In [Logins] the idle windows, the
    password policy, the hash of a password and the presence of a sender are answers of the
    environment, fnmatch() is a class, and groups, profiles, the owner account and the
    end of a namespace are left out. The chat bot's policies, the configuration commands and
    the order state machine of whenmoon are within reach of the same approach and are the
    next parts to model. *)

From Stdlib Require Export ZArith Lia Ascii String.
From stdpp Require Export base list strings gmap numbers.

#[global] Open Scope Z_scope.

(** ** Characters and C strings *)

(** The text of a C string up to its terminating NUL. A pointer into the string
    is the suffix that starts there, so [p + n] is [drop n p] and the character
    under a pointer at the end is NUL. *)
Notation cstr := (list ascii).

Declare Scope c_scope.
Delimit Scope c_scope with c.

Definition lit (s : string) : cstr := list_ascii_of_string s.

Definition NUL : ascii := Ascii.zero.

(** [*p] *)
Definition deref (p : cstr) : ascii :=
  match p with [] => NUL | c :: _ => c end.

Notation "*[ p ]" := (deref p) (at level 0, format "*[ p ]") : c_scope.
Notation "p +> n" := (drop n p) (at level 50, left associativity) : c_scope.

(** [(unsigned char)c] and back; [scode] is the value of a plain [char], which
    is signed on the program's targets. *)
Definition code (c : ascii) : Z := Z.of_N (N_of_ascii c).

Definition scode (c : ascii) : Z := if code c <? 128 then code c else code c - 256.

Definition chr (z : Z) : ascii := ascii_of_N (Z.to_N (z mod 256)).

Definition ceqb (a b : ascii) : bool := bool_decide (a = b).

Definition seqb (a b : cstr) : bool := bool_decide (a = b).

(** [<ctype.h>] in the C locale (the program never calls setlocale). *)
Definition in_range (lo hi z : Z) : bool := (lo <=? z) && (z <=? hi).

Definition isdigit (c : ascii) : bool := in_range 48 57 (code c).
Definition isupper (c : ascii) : bool := in_range 65 90 (code c).
Definition islower (c : ascii) : bool := in_range 97 122 (code c).
Definition isalpha (c : ascii) : bool := isupper c || islower c.
Definition isalnum (c : ascii) : bool := isalpha c || isdigit c.
Definition isspace (c : ascii) : bool := (code c =? 32) || in_range 9 13 (code c).

Definition tolower (c : ascii) : ascii :=
  if isupper c then chr (code c + 32) else c.

(** A NUL-free text: what a NUL-terminated buffer can hold. *)
Definition nul_free (s : cstr) : Prop := NUL ∉ s.

(** ** <string.h>, on the text of the strings *)

Fixpoint strchr (s : cstr) (c : ascii) : option nat :=
  match s with
  | [] => None
  | x :: s' => if ceqb x c then Some 0%nat else S <$> strchr s' c
  end.

(** [strrchr]: the last occurrence. *)
Fixpoint strrchr (s : cstr) (c : ascii) : option nat :=
  match s with
  | [] => None
  | x :: s' =>
      match strrchr s' c with
      | Some i => Some (S i)
      | None => if ceqb x c then Some 0%nat else None
      end
  end.

Definition starts_with (s p : cstr) : bool := seqb (take (length p) s) p.

(** [strstr] for a non-empty needle: index of the first occurrence. *)
Fixpoint strstr (s needle : cstr) : option nat :=
  if starts_with s needle then Some 0%nat
  else match s with
       | [] => None
       | _ :: s' => S <$> strstr s' needle
       end.

(** Equality tests: [strcmp == 0], [strncmp == 0], [strcasecmp == 0],
    [strncasecmp == 0]. *)
Definition strneq (n : nat) (a b : cstr) : bool := seqb (take n a) (take n b).

Definition strcaseeq (a b : cstr) : bool := seqb (map tolower a) (map tolower b).

Definition strncaseeq (n : nat) (a b : cstr) : bool :=
  seqb (map tolower (take n a)) (map tolower (take n b)).

(** What [strlcpy] (or [snprintf "%s"]) leaves in a buffer of [sz] bytes. *)
Definition strlcpy (sz : nat) (src : cstr) : cstr := take (sz - 1) src.

Fixpoint skip_while (P : ascii -> bool) (s : cstr) : cstr :=
  match s with
  | [] => []
  | c :: s' => if P c then skip_while P s' else s
  end.

Fixpoint span (P : ascii -> bool) (s : cstr) : cstr :=
  match s with
  | [] => []
  | c :: s' => if P c then c :: span P s' else []
  end.

(** ** Machine integers *)

Definition wrap (w z : Z) : Z := z mod 2 ^ w.

Definition UINT8_MAX : Z := 2 ^ 8 - 1.
Definition UINT16_MAX : Z := 2 ^ 16 - 1.
Definition UINT32_MAX : Z := 2 ^ 32 - 1.
Definition UINT64_MAX : Z := 2 ^ 64 - 1.
Definition INT64_MAX : Z := 2 ^ 63 - 1.
Definition INT64_MIN : Z := - 2 ^ 63.

(** ** Decimal conversions of <stdlib.h> and <stdio.h> *)

Definition digit_val (c : ascii) : Z := code c - 48.

Definition digits_val (s : cstr) : Z :=
  fold_left (fun acc c => 10 * acc + digit_val c) s 0.

(** The subject sequence of [strtol(s, &end, 10)]: sign, magnitude and what
    follows, or None when no conversion is performed ([end == s]). *)
Definition strto_core (s : cstr) : option (bool * Z * cstr) :=
  let p := skip_while isspace s in
  let '(neg, q) :=
    match p with
    | c :: p' =>
        if ceqb c "-" then (true, p') else if ceqb c "+" then (false, p') else (false, p)
    | [] => (false, p)
    end in
  match span isdigit q with
  | [] => None
  | ds => Some (neg, digits_val ds, skip_while isdigit q)
  end.

(** [strtoll] / [strtol] (64-bit long): the value saturates. *)
Definition strtoll (s : cstr) : option (Z * cstr) :=
  match strto_core s with
  | None => None
  | Some (neg, mag, rest) =>
      let v := if neg then - mag else mag in
      Some (Z.max INT64_MIN (Z.min INT64_MAX v), rest)
  end.

(** [strtoull] / [strtoul]: a minus sign negates in the unsigned type; the
    boolean is [errno == ERANGE]. *)
Definition strtoull (s : cstr) : option (Z * cstr * bool) :=
  match strto_core s with
  | None => None
  | Some (neg, mag, rest) =>
      if UINT64_MAX <? mag then Some (UINT64_MAX, rest, true)
      else Some (if neg then wrap 64 (- mag) else mag, rest, false)
  end.

(** [snprintf "%d"/"%u"/"%lld"/"%llu"]. *)
Definition digit_chr (d : Z) : ascii := chr (48 + d).

Fixpoint dec_aux (fuel : nat) (n : Z) (acc : cstr) : cstr :=
  match fuel with
  | O => acc
  | S f =>
      let acc' := digit_chr (n mod 10) :: acc in
      if n <? 10 then acc' else dec_aux f (n / 10) acc'
  end.

(** One digit per unit of fuel; a number below [2 ^ (k + 1)] has at most
    [k + 1] decimal digits. *)
Definition dec_nat (n : Z) : cstr := dec_aux (S (Z.to_nat (Z.log2 n))) n [].

Definition dec (n : Z) : cstr :=
  if n <? 0 then "-"%char :: dec_nat (- n) else dec_nat n.

(** ** Steps *)

(** A step of a system either happens, or cannot happen yet (a join of a thread that
    runs), or does what C leaves undefined (it reads outside an array, or memory that
    was freed). *)
Inductive outcome (A : Type) :=
| Ok (a : A)
| Blocked
| Fault.
Arguments Ok {A} a.
Arguments Blocked {A}.
Arguments Fault {A}.

(** ** Automation *)

(** [bm]: rewriting rules that evaluate C-string operations; [bm_ok]: facts that
    hold by construction (ranges, well-formedness of built states). *)
Create HintDb bm.
Create HintDb bm_ok.

(** Case analysis on the innermost match or conditional of the goal or of a
    hypothesis, with the equation kept. *)
Ltac case_step :=
  match goal with
  | |- context [match ?x with _ => _ end] =>
      lazymatch x with
      | context [match _ with _ => _ end] => fail
      | _ => destruct x eqn:?
      end
  end.

Ltac case_step_in H :=
  match type of H with
  | context [match ?x with _ => _ end] =>
      lazymatch x with
      | context [match _ with _ => _ end] => fail
      | _ => destruct x eqn:?
      end
  end.

(** Boolean comparisons to propositions, everywhere. *)
Ltac breflect :=
  repeat match goal with
  | H : (_ <? _) = true |- _ => apply Z.ltb_lt in H
  | H : (_ <? _) = false |- _ => apply Z.ltb_ge in H
  | H : (_ <=? _) = true |- _ => apply Z.leb_le in H
  | H : (_ <=? _) = false |- _ => apply Z.leb_gt in H
  | H : (_ =? _) = true |- _ => apply Z.eqb_eq in H
  | H : (_ =? _) = false |- _ => apply Z.eqb_neq in H
  | H : (_ <? _)%nat = true |- _ => apply Nat.ltb_lt in H
  | H : (_ <? _)%nat = false |- _ => apply Nat.ltb_ge in H
  | H : (_ <=? _)%nat = true |- _ => apply Nat.leb_le in H
  | H : (_ <=? _)%nat = false |- _ => apply Nat.leb_gt in H
  | H : (_ =? _)%nat = true |- _ => apply Nat.eqb_eq in H
  | H : (_ =? _)%nat = false |- _ => apply Nat.eqb_neq in H
  | H : _ && _ = true |- _ => apply andb_true_iff in H as [? ?]
  | H : _ || _ = false |- _ => apply orb_false_iff in H as [? ?]
  | H : negb _ = true |- _ => apply negb_true_iff in H
  | H : negb _ = false |- _ => apply negb_false_iff in H
  | H : bool_decide _ = true |- _ => apply bool_decide_eq_true in H
  | H : bool_decide _ = false |- _ => apply bool_decide_eq_false in H
  end.

(** Decides by [lia] the comparisons of numbers the goal branches on. *)
Ltac zcond :=
  repeat match goal with
  | |- context [(?a =? ?b)%nat] =>
      first [rewrite (proj2 (Nat.eqb_eq a b)) by lia | rewrite (proj2 (Nat.eqb_neq a b)) by lia]
  | |- context [(?a <=? ?b)%nat] =>
      first [rewrite (proj2 (Nat.leb_le a b)) by lia | rewrite (proj2 (Nat.leb_gt a b)) by lia]
  | |- context [(?a <? ?b)%nat] =>
      first [rewrite (proj2 (Nat.ltb_lt a b)) by lia | rewrite (proj2 (Nat.ltb_ge a b)) by lia]
  | |- context [?a =? ?b] =>
      first [rewrite (proj2 (Z.eqb_eq a b)) by lia | rewrite (proj2 (Z.eqb_neq a b)) by lia]
  | |- context [?a <=? ?b] =>
      first [rewrite (proj2 (Z.leb_le a b)) by lia | rewrite (proj2 (Z.leb_gt a b)) by lia]
  | |- context [?a <? ?b] =>
      first [rewrite (proj2 (Z.ltb_lt a b)) by lia | rewrite (proj2 (Z.ltb_ge a b)) by lia]
  end; cbn [orb andb negb].

(** ** Characters *)

(** A boolean property of characters is decided by evaluating it on all 256. *)
Definition all_chars : list ascii := map (fun n => ascii_of_nat n) (seq 0 256).

Lemma all_chars_complete (c : ascii) : c ∈ all_chars.
Proof.
  unfold all_chars. apply list_elem_of_In, in_map_iff.
  exists (nat_of_ascii c). split; [apply ascii_nat_embedding|].
  apply in_seq. pose proof (nat_ascii_bounded c). lia.
Qed.

Lemma chars_forall (P : ascii -> bool) :
  forallb P all_chars = true -> forall c, P c = true.
Proof.
  intros H c. rewrite forallb_forall in H.
  apply H, list_elem_of_In, all_chars_complete.
Qed.

(** Proves [P c = true] for every [c] by evaluation. *)
Ltac by_chars P c := exact (chars_forall P eq_refl c).

Lemma code_range c : 0 <= code c < 256.
Proof.
  unfold code. pose proof (N_ascii_bounded c). lia.
Qed.
#[export] Hint Resolve code_range : bm_ok.

Lemma code_chr z : code (chr z) = z mod 256.
Proof.
  unfold code, chr. pose proof (Z.mod_pos_bound z 256 ltac:(lia)).
  rewrite N_ascii_embedding by lia. lia.
Qed.

Lemma chr_code c : chr (code c) = c.
Proof.
  unfold code, chr. rewrite Z.mod_small by apply code_range.
  rewrite N2Z.id. apply ascii_N_embedding.
Qed.

Lemma code_inj a b : code a = code b -> a = b.
Proof. intros H. by rewrite <- (chr_code a), <- (chr_code b), H. Qed.

Lemma code_chr_small z : 0 <= z < 256 -> code (chr z) = z.
Proof. intros. rewrite code_chr. by apply Z.mod_small. Qed.

Lemma ceqb_true a b : ceqb a b = true <-> a = b.
Proof. apply bool_decide_eq_true. Qed.

Lemma ceqb_false a b : ceqb a b = false <-> a <> b.
Proof. apply bool_decide_eq_false. Qed.

Lemma ceqb_refl a : ceqb a a = true.
Proof. by apply ceqb_true. Qed.

Lemma seqb_true a b : seqb a b = true <-> a = b.
Proof. apply bool_decide_eq_true. Qed.

Lemma seqb_false a b : seqb a b = false <-> a <> b.
Proof. apply bool_decide_eq_false. Qed.

Lemma seqb_refl a : seqb a a = true.
Proof. by apply seqb_true. Qed.

Ltac creflect :=
  repeat match goal with
  | H : ceqb _ _ = true |- _ => apply ceqb_true in H
  | H : ceqb _ _ = false |- _ => apply ceqb_false in H
  | H : seqb _ _ = true |- _ => apply seqb_true in H
  | H : seqb _ _ = false |- _ => apply seqb_false in H
  end.

Lemma in_range_iff lo hi z : in_range lo hi z = true <-> lo <= z <= hi.
Proof. unfold in_range. rewrite andb_true_iff, !Z.leb_le. done. Qed.

Lemma tolower_idem c : tolower (tolower c) = tolower c.
Proof. apply ceqb_true. by_chars (fun c => ceqb (tolower (tolower c)) (tolower c)) c. Qed.

(** Packing bits below a shifted value adds them. *)
Lemma lor_shift_add a k b : 0 <= k -> 0 <= b < 2 ^ k -> Z.lor (a * 2 ^ k) b = a * 2 ^ k + b.
Proof.
  intros Hk Hb. destruct (decide (b = 0)) as [->|Hb0]; [by rewrite Z.lor_0_r, Z.add_0_r|].
  symmetry. rewrite <- Z.shiftl_mul_pow2 by done. apply Z.add_nocarry_lor.
  apply Z.bits_inj'. intros i Hi. rewrite Z.land_spec, Z.bits_0.
  destruct (decide (i < k)) as [L|G].
  - by rewrite Z.shiftl_spec_low by done.
  - rewrite (Z.bits_above_log2 b), andb_false_r; [done|lia|].
    apply Z.log2_lt_pow2; [lia|].
    apply Z.lt_le_trans with (2 ^ k); [lia|]. apply Z.pow_le_mono_r; lia.
Qed.

(** ** Scanning *)

Lemma span_skip P s : span P s ++ skip_while P s = s.
Proof. induction s as [|c s IH]; simpl; [done|]. destruct (P c); simpl; congruence. Qed.

Lemma span_all P s c : c ∈ span P s -> P c = true.
Proof.
  induction s as [|x s IH]; simpl; [by intros ?%elem_of_nil|].
  destruct (P x) eqn:E; [|by intros ?%elem_of_nil].
  intros [->|H]%elem_of_cons; auto.
Qed.

Lemma skip_while_head P s c s' : skip_while P s = c :: s' -> P c = false.
Proof.
  induction s as [|x s IH]; simpl; [done|]. destruct (P x) eqn:E; [done|].
  by intros [= -> _].
Qed.

Lemma skip_while_stop P c s : P c = false -> skip_while P (c :: s) = c :: s.
Proof. intros H. simpl. by rewrite H. Qed.

Lemma span_app_stop P s t :
  Forall (fun c => P c = true) s ->
  match t with [] => True | c :: _ => P c = false end ->
  span P (s ++ t) = s /\ skip_while P (s ++ t) = t.
Proof.
  intros H Ht. induction H as [|c s Hc _ IH]; simpl.
  - destruct t as [|c t]; [done|]. simpl. by rewrite Ht.
  - rewrite Hc. destruct IH as [-> ->]. done.
Qed.

Lemma strchr_Some s c i :
  strchr s c = Some i ->
  s = take i s ++ c :: drop (S i) s /\ c ∉ take i s /\ (i < length s)%nat.
Proof.
  revert i. induction s as [|x s IH]; simpl; intros i H; [done|].
  destruct (ceqb x c) eqn:E; creflect.
  - injection H as <-. subst. simpl. split_and!; [by rewrite drop_0|set_solver|lia].
  - destruct (strchr s c) as [j|] eqn:Ej; [|done]. injection H as <-.
    destruct (IH _ eq_refl) as (H1 & H2 & H3). simpl. split_and!; [congruence|set_solver|lia].
Qed.

Lemma strchr_None s c : strchr s c = None <-> c ∉ s.
Proof.
  induction s as [|x s IH]; simpl; [set_solver|].
  destruct (ceqb x c) eqn:E; creflect.
  - subst. split; [done|set_solver].
  - rewrite not_elem_of_cons. destruct (strchr s c); simpl; split; try done.
    + intros [_ H]. apply IH in H. done.
    + intros _. split; [done|]. by apply IH.
Qed.

(** The converse direction: a decomposition determines the index. *)
Lemma strchr_app_fresh s c t : c ∉ s -> strchr (s ++ c :: t) c = Some (length s).
Proof.
  induction s as [|x s IH]; simpl; intros H.
  - by rewrite ceqb_refl.
  - apply not_elem_of_cons in H as [H1 H2]. rewrite (IH H2).
    destruct (ceqb x c) eqn:E; creflect; [congruence|done].
Qed.

Lemma strchr_app_stop s c t : c ∉ s -> strchr (s ++ t) c = Nat.add (length s) <$> strchr t c.
Proof.
  induction s as [|x s IH]; simpl; intros H.
  - by destruct (strchr t c).
  - apply not_elem_of_cons in H as [H1 H2]. rewrite (IH H2).
    destruct (ceqb x c) eqn:E; creflect; [congruence|]. by destruct (strchr t c).
Qed.

(** The text through a character and past it. *)
Lemma take_through (s : cstr) c t : take (S (length s)) (s ++ c :: t) = s ++ [c].
Proof. induction s as [|x s IH]; simpl; [by rewrite take_0|]. by rewrite <- IH. Qed.

Lemma drop_past (s : cstr) c t : drop (S (length s)) (s ++ c :: t) = t.
Proof. induction s as [|x s IH]; simpl; [by rewrite drop_0|done]. Qed.

#[export] Hint Rewrite take_through drop_past : bm.
#[export] Hint Rewrite ceqb_refl seqb_refl chr_code (@take_app_length ascii) (@drop_app_length ascii) : bm.
#[export] Hint Rewrite strchr_app_fresh using done : bm.

Lemma strlcpy_fits sz s : (length s < sz)%nat -> strlcpy sz s = s.
Proof. intros H. unfold strlcpy. apply take_ge. lia. Qed.

Lemma strlcpy_length sz s : (0 < sz)%nat -> (length (strlcpy sz s) < sz)%nat.
Proof. intros H. unfold strlcpy. rewrite length_take. lia. Qed.

(** ** Decimal conversions *)

Lemma digit_chr_digit d : 0 <= d < 10 -> isdigit (digit_chr d) = true /\ digit_val (digit_chr d) = d.
Proof.
  intros H. unfold isdigit, digit_val, digit_chr.
  rewrite code_chr_small by lia. split; [apply in_range_iff; lia|lia].
Qed.

Lemma digits_val_app s t acc :
  fold_left (fun a c => 10 * a + digit_val c) (s ++ t) acc =
  fold_left (fun a c => 10 * a + digit_val c) t
    (fold_left (fun a c => 10 * a + digit_val c) s acc).
Proof. apply fold_left_app. Qed.

(** [dec_aux] prepends the digits of [n], most significant first. *)
Lemma dec_aux_spec fuel n acc :
  0 <= n < 2 ^ Z.of_nat fuel ->
  exists ds, dec_aux fuel n acc = ds ++ acc /\
    Forall (fun c => isdigit c = true) ds /\ digits_val ds = n /\
    (fuel <> 0%nat -> ds <> []).
Proof.
  revert n acc. induction fuel as [|f IH]; intros n acc Hn.
  - exists []. simpl in *. split_and!; [done|done|unfold digits_val; simpl; lia|done].
  - simpl. destruct (digit_chr_digit (n mod 10)) as [D1 D2].
    { apply Z.mod_pos_bound. lia. }
    destruct (n <? 10) eqn:E; breflect.
    + exists [digit_chr (n mod 10)]. split_and!; [done|by repeat constructor| |done].
      unfold digits_val. simpl. rewrite D2, Z.mod_small; lia.
    + destruct (IH (n / 10) (digit_chr (n mod 10) :: acc)) as (ds & H1 & H2 & H3 & _).
      { rewrite Nat2Z.inj_succ, Z.pow_succ_r in Hn by lia.
        split; [apply Z.div_pos; lia|].
        apply Z.div_lt_upper_bound; lia. }
      exists (ds ++ [digit_chr (n mod 10)]). rewrite H1. split_and!.
      * by rewrite <- app_assoc.
      * apply Forall_app_2; [done|by repeat constructor].
      * unfold digits_val in *. rewrite digits_val_app, H3. simpl. rewrite D2.
        pose proof (Z.div_mod n 10). lia.
      * intros _. by destruct ds.
Qed.

Lemma dec_nat_spec n :
  0 <= n ->
  Forall (fun c => isdigit c = true) (dec_nat n) /\ digits_val (dec_nat n) = n /\
  dec_nat n <> [].
Proof.
  intros Hn. unfold dec_nat.
  destruct (dec_aux_spec (S (Z.to_nat (Z.log2 n))) n []) as (ds & -> & H1 & H2 & H3).
  - split; [done|]. rewrite Nat2Z.inj_succ, Z2Nat.id by apply Z.log2_nonneg.
    destruct (decide (n = 0)) as [->|]; [done|]. apply Z.log2_spec. lia.
  - rewrite app_nil_r. auto.
Qed.

(** Reading back what [snprintf "%lld"] wrote. *)
Lemma strto_core_dec n rest :
  match rest with [] => True | c :: _ => isdigit c = false end ->
  strto_core (dec n ++ rest) = Some (n <? 0, Z.abs n, rest).
Proof.
  intros Hr. unfold dec.
  assert (Hd : forall m, 0 <= m ->
    exists c s, dec_nat m = c :: s /\ isdigit c = true /\
      span isdigit (dec_nat m ++ rest) = dec_nat m /\
      skip_while isdigit (dec_nat m ++ rest) = rest /\ digits_val (dec_nat m) = m).
  { intros m Hm. destruct (dec_nat_spec m Hm) as (H1 & H2 & H3).
    destruct (span_app_stop isdigit (dec_nat m) rest H1 Hr) as [H4 H5].
    destruct (dec_nat m) as [|c s] eqn:E; [done|].
    exists c, s. split_and!; auto. by inversion H1. }
  destruct (n <? 0) eqn:En; breflect.
  - destruct (Hd (- n) ltac:(lia)) as (c & s & E & Hc & H4 & H5 & H6).
    unfold strto_core. cbn [app skip_while].
    change (isspace "-"%char) with false. cbn iota.
    change (ceqb "-"%char "-"%char) with true. cbn iota beta.
    rewrite H4, H5, E. cbn iota. rewrite <- E, H6. do 3 f_equal. lia.
  - destruct (Hd n ltac:(lia)) as (c & s & E & Hc & H4 & H5 & H6).
    unfold strto_core.
    assert (Hns : isspace c = false /\ ceqb c "-" = false /\ ceqb c "+" = false).
    { assert (H : implb (isdigit c) (negb (isspace c) && negb (ceqb c "-") && negb (ceqb c "+")) = true)
        by by_chars (fun c => implb (isdigit c)
             (negb (isspace c) && negb (ceqb c "-") && negb (ceqb c "+"))) c.
      rewrite Hc in H. cbn [implb] in H. breflect. done. }
    destruct Hns as (S1 & S2 & S3).
    replace (skip_while isspace (dec_nat n ++ rest)) with (dec_nat n ++ rest)
      by (rewrite E; simpl; by rewrite S1).
    rewrite E at 1. cbn [app]. rewrite S2, S3, H4, H5, E. cbn iota.
    rewrite <- E, H6. do 3 f_equal. lia.
Qed.

Lemma digits_val_nonneg_acc s acc :
  Forall (fun c => isdigit c = true) s -> 0 <= acc ->
  0 <= fold_left (fun a c => 10 * a + digit_val c) s acc.
Proof.
  intros H. revert acc. induction H as [|c s Hc _ IH]; intros acc Ha; simpl; [done|].
  apply IH. apply in_range_iff in Hc. unfold digit_val. lia.
Qed.

(** ** Counting *)

(** How many elements of a list satisfy a predicate. *)
Definition count {A} (f : A -> bool) (l : list A) : Z :=
  fold_right (fun x n => Z.b2z (f x) + n) 0 l.
#[global] Arguments count {A} f l : simpl never.

Section count.
  Context {A : Type} (f : A -> bool).

Lemma count_cons x l : count f (x :: l) = Z.b2z (f x) + count f l.
Proof. done. Qed.

Lemma count_nil : count f [] = 0.
Proof. done. Qed.

Lemma count_app l k : count f (l ++ k) = count f l + count f k.
Proof. induction l as [|x l IH]; [done|]. cbn [app]. rewrite !count_cons, IH. lia. Qed.

Lemma count_range l : 0 <= count f l <= Z.of_nat (length l).
Proof.
  induction l as [|x l IH]; [done|]. rewrite count_cons. cbn [length].
  destruct (f x); simpl; lia.
Qed.

Lemma count_insert l i x y :
  l !! i = Some x -> count f (<[i:=y]> l) = count f l - Z.b2z (f x) + Z.b2z (f y).
Proof.
  revert i. induction l as [|z l IH]; intros i H; [done|]. destruct i as [|i].
  - injection H as ->. change (<[0%nat:=y]> (x :: l)) with (y :: l). rewrite !count_cons. lia.
  - change (<[S i:=y]> (z :: l)) with (z :: <[i:=y]> l). rewrite !count_cons, (IH i H). lia.
Qed.

Lemma count_pos l i x : l !! i = Some x -> f x = true -> 1 <= count f l.
Proof.
  intros H Hx. pose proof (count_insert l i x x H).
  assert (E : l = take i l ++ x :: drop (S i) l) by (symmetry; by apply take_drop_middle).
  rewrite E, count_app, count_cons, Hx.
  pose proof (count_range (take i l)). pose proof (count_range (drop (S i) l)). simpl. lia.
Qed.

Lemma count_zero l : count f l = 0 -> Forall (fun x => f x = false) l.
Proof.
  induction l as [|x l IH]; [by constructor|]. rewrite count_cons. intros H.
  pose proof (count_range l). destruct (f x) eqn:E; simpl in H; [lia|].
  constructor; [done|]. apply IH. lia.
Qed.
End count.

Lemma count_mono {A} (f g : A -> bool) l :
  Forall (fun x => f x = true -> g x = true) l -> count f l <= count g l.
Proof.
  induction 1 as [|x l Hx _ IH]; [done|]. rewrite !count_cons.
  destruct (f x); [rewrite Hx by done|destruct (g x)]; simpl; lia.
Qed.

(** Elements that satisfy a predicate and are told apart by a number from 1 to [n]. *)
Lemma count_injective {A} (f : A -> bool) (g : A -> nat) l n :
  (forall i j x y, l !! i = Some x -> l !! j = Some y -> f x = true -> f y = true ->
     g x = g y -> i = j) ->
  (forall i x, l !! i = Some x -> f x = true -> (1 <= g x <= n)%nat) ->
  count f l <= Z.of_nat n.
Proof.
  intros Hinj Hb.
  assert (Hc : count f l = Z.of_nat (length (map g (List.filter f l)))).
  { clear. induction l as [|x l IH]; [done|]. rewrite count_cons. cbn [List.filter].
    destruct (f x); cbn [map length Z.b2z]; lia. }
  assert (Hn : List.NoDup (map g (List.filter f l))).
  { clear Hb Hc. revert Hinj. induction l as [|x l IH]; intros Hinj; [constructor|].
    assert (IH' := IH (fun i j a b Hi Hj Ha Hb' Hg =>
      f_equal Nat.pred (Hinj (S i) (S j) a b Hi Hj Ha Hb' Hg))).
    cbn [List.filter]. destruct (f x) eqn:E; [|done]. constructor; [|done].
    intros (y & Hg & Hy)%in_map_iff. apply filter_In in Hy as [Hy Hf].
    apply list_elem_of_In, list_elem_of_lookup_1 in Hy as [j Hj].
    by discriminate (Hinj 0%nat (S j) x y eq_refl Hj E Hf (eq_sym Hg)). }
  rewrite Hc. apply inj_le. rewrite <- (length_seq n 1).
  apply NoDup_incl_length; [done|]. intros k (x & <- & Hx)%in_map_iff.
  apply filter_In in Hx as [Hx Hf]. apply list_elem_of_In, list_elem_of_lookup_1 in Hx as [i Hi].
  apply in_seq. specialize (Hb i x Hi Hf). lia.
Qed.

Lemma wrap_range w z : 0 <= w -> 0 <= wrap w z < 2 ^ w.
Proof. intros. unfold wrap. apply Z.mod_pos_bound. lia. Qed.

Lemma wrap_small w z : 0 <= z < 2 ^ w -> wrap w z = z.
Proof. apply Z.mod_small. Qed.

Lemma wrap_add w a b : wrap w (wrap w a + b) = wrap w (a + b).
Proof. unfold wrap. apply Zplus_mod_idemp_l. Qed.

(** ** Searching *)

(** The first element of a list without repetitions of [f] that has a given [f]. *)
Lemma find_unique {A B} `{EqDecision B} (f : A -> B) (eqb : B -> B -> bool) l x k :
  (forall a b, eqb a b = true <-> a = b) ->
  NoDup (f <$> l) -> (List.find (fun y => eqb (f y) k) l = Some x <-> x ∈ l /\ f x = k).
Proof.
  intros Heq Hnd. split.
  - intros [H1 H2]%find_some. split; [by apply list_elem_of_In|by apply Heq].
  - intros [Hx <-]. induction l as [|y l IH]; [by apply not_elem_of_nil in Hx|].
    cbn in Hnd. apply list.NoDup_cons in Hnd as [Hy Hnd]. cbn [List.find].
    apply elem_of_cons in Hx as [->|Hx].
    + by rewrite (proj2 (Heq _ _) eq_refl).
    + destruct (eqb (f y) (f x)) eqn:E; [|by auto]. apply Heq in E. exfalso. apply Hy.
      rewrite E. by apply list_elem_of_fmap_2.
Qed.
