(* ===== verification/Validate.v ===== *)
(** * Input validation: core/validate.c

    The five predicates every user-supplied identifier passes through. A C
    string argument that may be NULL is an [option cstr]. *)

From S2P Require Import Prelude.

(** ** Definitions *)

Fixpoint validate_alnum_loop (maxlen len : Z) (p : cstr) : bool :=
  match p with
  | [] => true
  | c :: p' =>
      if negb (isalnum c) && negb (ceqb c "_") then false
      else
        let len := len + 1 in
        if (0 <? maxlen) && (maxlen <? len) then false
        else validate_alnum_loop maxlen len p'
  end.

Definition validate_alnum (str : option cstr) (maxlen : Z) : bool :=
  match str with
  | None | Some [] => false
  | Some s => validate_alnum_loop maxlen 0 s
  end.

(** The loop returns the length reached, or None on the early [return false]. *)
Fixpoint validate_digits_loop (maxlen len : Z) (p : cstr) : option Z :=
  match p with
  | [] => Some len
  | c :: p' =>
      if (scode c <? scode "0") || (scode "9" <? scode c) then None
      else
        let len := len + 1 in
        if (0 <? maxlen) && (maxlen <? len) then None
        else validate_digits_loop maxlen len p'
  end.

Definition validate_digits (str : option cstr) (minlen maxlen : Z) : bool :=
  match str with
  | None | Some [] => false
  | Some s =>
      match validate_digits_loop maxlen 0 s with
      | None => false
      | Some len => minlen <=? len
      end
  end.

Definition hostname_char (c : ascii) : bool :=
  isalnum c || ceqb c "." || ceqb c "-" || ceqb c ":".

Definition validate_hostname (str : option cstr) : bool :=
  match str with
  | None | Some [] => false
  | Some s => forallb hostname_char s
  end.

Definition digit_char (c : ascii) : bool :=
  negb ((scode c <? scode "0") || (scode "9" <? scode c)).

(** The result carries [*out]: None is [false]. *)
Definition validate_port (str : option cstr) : option Z :=
  match str with
  | None | Some [] => None
  | Some s =>
      if negb (forallb digit_char s) then None
      else
        let val := match strtoll s with Some (v, _) => v | None => 0 end in
        if (val <? 1) || (65535 <? val) then None
        else Some (wrap 16 val)
  end.

(** [*p <= 0x20] compares a plain, signed [char]. *)
Definition channel_char (c : ascii) : bool :=
  negb ((scode c <=? 32) || (scode c =? 7) || ceqb c ",").

Definition validate_irc_channel (str : option cstr) : bool :=
  match str with
  | None | Some [] => false
  | Some s => forallb channel_char s
  end.

(** ** Lemmas *)

Lemma digit_char_isdigit c : digit_char c = isdigit c.
Proof.
  apply eqb_prop. by_chars (fun c => Bool.eqb (digit_char c) (isdigit c)) c.
Qed.

Lemma digit_loop_isdigit c :
  (scode c <? scode "0") || (scode "9" <? scode c) = negb (isdigit c).
Proof. rewrite <- digit_char_isdigit. unfold digit_char. by rewrite negb_involutive. Qed.

Lemma forallb_Forall_true {A} (P : A -> bool) (l : list A) :
  forallb P l = true <-> Forall (fun x => P x = true) l.
Proof. etrans; [apply forallb_forall|]. symmetry. apply List.Forall_forall. Qed.

Lemma forallb_digit_char s : forallb isdigit s = forallb digit_char s.
Proof. induction s as [|c s IH]; simpl; [done|]. by rewrite digit_char_isdigit, IH. Qed.

(** Words: what an identifier is made of. *)
Definition word_char (c : ascii) : bool := isalnum c || ceqb c "_".

Lemma validate_alnum_loop_spec maxlen s len :
  0 <= len -> 0 <= maxlen ->
  validate_alnum_loop maxlen len s = true <->
  Forall (fun c => word_char c = true) s /\
  (maxlen = 0 \/ s = [] \/ len + Z.of_nat (length s) <= maxlen).
Proof.
  intros Hlen Hmax. revert len Hlen. induction s as [|c s IH]; intros len Hlen; simpl.
  - split; [intros _; split; [constructor|auto]|done].
  - unfold word_char in *. rewrite <- negb_orb, Forall_cons_iff.
    destruct (isalnum c || ceqb c "_") eqn:Ec; simpl; [|split; [done|by intros [[? _] _]]].
    destruct ((0 <? maxlen) && (maxlen <? len + 1)) eqn:E.
    + breflect. split; [done|]. intros [_ [Hx|[Hx|Hx]]]; lia || done.
    + rewrite IH by lia.
      assert (maxlen = 0 \/ len + 1 <= maxlen) by (apply andb_false_iff in E; lia).
      split; intros [H1 H2]; split_and!; auto.
      * destruct H2 as [H2|[->|H2]]; simpl; lia.
      * by destruct H1.
      * destruct H2 as [H2|[H2|H2]]; [auto|done|]. right. right. lia.
Qed.

Lemma validate_digits_loop_spec maxlen s len n :
  0 <= len -> 0 <= maxlen ->
  validate_digits_loop maxlen len s = Some n <->
  Forall (fun c => isdigit c = true) s /\ n = len + Z.of_nat (length s) /\
  (maxlen = 0 \/ s = [] \/ n <= maxlen).
Proof.
  intros Hlen Hmax. revert len Hlen. induction s as [|c s IH]; intros len Hlen; cbn [validate_digits_loop].
  - simpl. split; [intros [= ->]; split_and!; [constructor|lia|auto]|].
    intros (_ & -> & _). f_equal. lia.
  - rewrite digit_loop_isdigit, Forall_cons_iff, length_cons, Nat2Z.inj_succ.
    destruct (isdigit c) eqn:Ec; cbn [negb].
    2:{ split; [done|by intros [[? _] _]]. }
    destruct ((0 <? maxlen) && (maxlen <? len + 1)) eqn:E.
    + breflect. split; [done|]. intros (_ & -> & [Hx|[Hx|Hx]]); lia || done.
    + rewrite IH by lia.
      assert (maxlen = 0 \/ len + 1 <= maxlen) by (apply andb_false_iff in E; lia).
      split; intros (H1 & -> & H2); split_and!; auto; try lia.
      * destruct H2 as [H2|[->|H2]]; simpl; lia.
      * by destruct H1.
      * destruct H2 as [H2|[H2|H2]]; [auto|done|]. auto.
Qed.

(** On a string of digits [strtol] consumes everything and saturates. *)
Lemma strtoll_digits s :
  s <> [] -> Forall (fun c => isdigit c = true) s ->
  strtoll s = Some (Z.min INT64_MAX (digits_val s), []).
Proof.
  intros Hne Hd.
  assert (Hnn : 0 <= digits_val s) by (apply digits_val_nonneg_acc; [done|lia]).
  destruct s as [|c s]; [done|]. inversion Hd as [|? ? Hc _]; subst.
  assert (H : implb (isdigit c) (negb (isspace c) && negb (ceqb c "-") && negb (ceqb c "+")) = true)
    by by_chars (fun c => implb (isdigit c)
         (negb (isspace c) && negb (ceqb c "-") && negb (ceqb c "+"))) c.
  rewrite Hc in H. cbn [implb] in H. breflect.
  destruct (span_app_stop isdigit (c :: s) [] Hd I) as [S1 S2].
  rewrite app_nil_r in S1, S2.
  unfold strtoll, strto_core. rewrite skip_while_stop by done.
  rewrite H1, H0, S1, S2. do 2 f_equal. unfold INT64_MAX, INT64_MIN. lia.
Qed.

(** ** Properties *)

(** an identifier is accepted exactly when it is a non-empty run of letters,
    digits and underscores no longer than the bound (0 is no bound). *)
Theorem validate_alnum_correct (s : cstr) (maxlen : Z) (Hm : 0 <= maxlen) :
  validate_alnum (Some s) maxlen = true <->
  s <> [] /\ Forall (fun c => word_char c = true) s /\
  (maxlen = 0 \/ Z.of_nat (length s) <= maxlen).
Proof.
  destruct s as [|c s]; [split; [done|by intros [? _]]|].
  unfold validate_alnum. rewrite validate_alnum_loop_spec by lia.
  split; [intros [H1 [H2|[H2|H2]]]|intros (_ & H1 & [H2|H2])]; split_and!; auto; done.
Qed.

Lemma validate_alnum_correct_witness :
  validate_alnum (Some (lit "max_mfa2")) 8 = true.
Proof.
  apply (validate_alnum_correct (lit "max_mfa2") 8).
  - lia.
  - split_and!; [done|repeat constructor|right; vm_compute; discriminate].
Defined.

(** [validate_port] accepts exactly the non-empty digit strings whose value
    is 1..65535, however many digits they have ([strtol] saturates rather than
    wrapping), and hands back that value. *)
Theorem validate_port_correct (s : cstr) (port : Z) :
  validate_port (Some s) = Some port <->
  s <> [] /\ Forall (fun c => isdigit c = true) s /\
  digits_val s = port /\ 1 <= port <= 65535.
Proof.
  destruct s as [|c s]; [split; [done|by intros [? _]]|].
  unfold validate_port.
  replace (forallb digit_char (c :: s)) with (forallb isdigit (c :: s))
    by (apply forallb_digit_char).
  destruct (forallb isdigit (c :: s)) eqn:Ed; cbn [negb].
  2:{ split; [done|]. intros (_ & H & _). apply forallb_Forall_true in H. congruence. }
  apply forallb_Forall_true in Ed. rewrite strtoll_digits by done.
  set (v := digits_val (c :: s)). unfold INT64_MAX in *.
  destruct ((_ <? 1) || _) eqn:E.
  - split; [done|]. intros (_ & _ & -> & Hp). apply orb_true_iff in E as [?|?]; breflect; lia.
  - breflect. rewrite Z.min_r by lia. unfold wrap. rewrite Z.mod_small by lia.
    split; [intros [= <-]; split_and!; done || lia|by intros (_ & _ & -> & _)].
Qed.

(** a channel name holding any byte of 0x80 or above is refused, because
    the test compares a signed char; the header excludes only spaces, control
    characters and commas. *)
Theorem validate_irc_channel_high_byte (s : cstr) (c : ascii) :
  c ∈ s -> 128 <= code c -> validate_irc_channel (Some s) = false.
Proof.
  intros Hin Hc. destruct s as [|x s]; [done|]. unfold validate_irc_channel.
  destruct (forallb channel_char (x :: s)) eqn:E; [|done].
  rewrite forallb_forall in E. apply list_elem_of_In in Hin.
  apply E in Hin. unfold channel_char, scode in Hin.
  rewrite (proj2 (Z.ltb_ge (code c) 128)) in Hin by lia.
  pose proof (code_range c). breflect. lia.
Qed.

(** "caf\u00e9" in UTF-8. *)
Lemma validate_irc_channel_high_byte_witness :
  validate_irc_channel (Some (lit "caf" ++ [chr 195; chr 169])) = false.
Proof.
  apply (validate_irc_channel_high_byte _ (chr 195)).
  - apply list_elem_of_In. vm_compute. tauto.
  - vm_compute. discriminate.
Defined.
