(* ===== verification/CmdArgs.v ===== *)
(** * The command argument parser: core/cmd.c, cmd_parse_args and its helpers

    A command declares an array of argument descriptors; the parser tokenizes
    the raw argument line into one 256-byte row per descriptor and validates
    each token. The registry refuses a descriptor array that does not satisfy
    [reg_validate_args]; the parser takes that on trust. *)

From S2P Require Import Prelude Validate.

(** ** Data: include/cmd.h *)

Definition CMD_MAX_ARGS : Z := 8.
Definition CMD_ARG_SZ : Z := 256.

Inductive cmd_arg_type_t :=
  | CMD_ARG_NONE | CMD_ARG_ALNUM | CMD_ARG_DIGITS | CMD_ARG_HOSTNAME
  | CMD_ARG_PORT | CMD_ARG_CHANNEL | CMD_ARG_CUSTOM.

#[export] Instance cmd_arg_type_eq_dec : EqDecision cmd_arg_type_t.
Proof. solve_decision. Defined.

Definition CMD_ARG_OPTIONAL : Z := 1.
Definition CMD_ARG_REST : Z := 2.

Record cmd_arg_desc_t := {
  ad_name : option cstr;
  ad_type : cmd_arg_type_t;
  ad_flags : Z;
  ad_maxlen : Z;
  ad_custom : option (cstr -> bool)
}.

(** [flags & bit] as a condition. *)
Definition has_flag (d : cmd_arg_desc_t) (bit : Z) : bool :=
  negb (Z.land (ad_flags d) bit =? 0).

(** How the parser turns a command down; either way the result of the command
    is set to CMD_RESULT_REFUSED and the text goes out as the reply. *)
Inductive refusal :=
  | RefuseUsage (usage : cstr)
  | RefuseText (text : cstr).

(** [parsed->argv] holds one row per argument taken so far, in order, and
    [parsed->argc] is their number; the result is the returned bool with, on
    false, the reply that was sent. *)
Inductive parse_result :=
  | Parsed (argv : list cstr)
  | Refused (argv : list cstr) (r : refusal).

(** ** Registration-time checks *)

Fixpoint reg_validate_loop (arg_count i : Z) (seen_optional : bool)
    (arg_desc : list cmd_arg_desc_t) : bool :=
  match arg_desc with
  | [] => true
  | d :: rest =>
      if negb (has_flag d CMD_ARG_OPTIONAL) && seen_optional then false
      else
        let seen_optional := if has_flag d CMD_ARG_OPTIONAL then true else seen_optional in
        if has_flag d CMD_ARG_REST && negb (i =? arg_count - 1) then false
        else if bool_decide (ad_type d = CMD_ARG_CUSTOM)
                && match ad_custom d with None => true | Some _ => false end then false
        else if CMD_ARG_SZ <=? ad_maxlen d then false
        else reg_validate_loop arg_count (i + 1) seen_optional rest
  end.

(** The array holds [arg_count] descriptors. *)
Definition reg_validate_args (arg_desc : list cmd_arg_desc_t) : bool :=
  let arg_count := Z.of_nat (length arg_desc) in
  if CMD_MAX_ARGS <? arg_count then false
  else reg_validate_loop arg_count 0 false arg_desc.

(** ** Parsing *)

Definition cmd_arg_type_reason (type : cmd_arg_type_t) : cstr :=
  match type with
  | CMD_ARG_ALNUM => lit "alphanumeric and underscores only"
  | CMD_ARG_DIGITS => lit "digits only"
  | CMD_ARG_HOSTNAME => lit "valid hostname expected"
  | CMD_ARG_PORT => lit "must be 1-65535"
  | CMD_ARG_CHANNEL => lit "no spaces, control characters, or commas"
  | CMD_ARG_CUSTOM => lit "invalid format"
  | _ => lit "invalid"
  end.

Definition cmd_arg_maxlen (d : cmd_arg_desc_t) : Z :=
  if 0 <? ad_maxlen d then ad_maxlen d else CMD_ARG_SZ - 1.

Definition arg_display_name (d : cmd_arg_desc_t) : cstr :=
  match ad_name d with Some n => n | None => lit "argument" end.

(** [buf] is 128 bytes. *)
Definition cmd_arg_reject_long (d : cmd_arg_desc_t) (maxlen : Z) : refusal :=
  RefuseText (strlcpy 128
    (arg_display_name d ++ lit " too long (max " ++ dec maxlen ++ lit " characters)")).

(** [buf] is CMD_ARG_SZ + 64 bytes. *)
Definition cmd_arg_reject_invalid (d : cmd_arg_desc_t) : refusal :=
  RefuseText (strlcpy 320
    (lit "invalid " ++ arg_display_name d ++ lit " (" ++
     cmd_arg_type_reason (ad_type d) ++ lit ")")).

Definition cmd_arg_validate (d : cmd_arg_desc_t) (str : cstr) : bool :=
  let maxlen := cmd_arg_maxlen d in
  match ad_type d with
  | CMD_ARG_NONE => true
  | CMD_ARG_ALNUM => validate_alnum (Some str) maxlen
  | CMD_ARG_DIGITS => validate_digits (Some str) 1 maxlen
  | CMD_ARG_HOSTNAME => validate_hostname (Some str)
  | CMD_ARG_PORT => match validate_port (Some str) with Some _ => true | None => false end
  | CMD_ARG_CHANNEL => validate_irc_channel (Some str)
  | CMD_ARG_CUSTOM => match ad_custom d with Some f => f str | None => false end
  end.

Definition is_ws (c : ascii) : bool := ceqb c " " || ceqb c "009".

Definition DQUOTE : ascii := "034".

(** The copy loop: characters are taken until the end of the line, a [stop]
    character, or [maxlen] of them; the result is the characters copied and the
    pointer reached, and [room] is what is left of [maxlen]. *)
Fixpoint token_run (stop : ascii -> bool) (room : nat) (p : cstr) {struct p} : cstr * cstr :=
  match p, room with
  | c :: p', S room' =>
      if stop c then ([], p)
      else let '(tok, q) := token_run stop room' p' in (c :: tok, q)
  | _, _ => ([], p)
  end.

(** The rest-of-line token: the text between a leading quote and the last quote
    of the line when that is not empty, else the remainder literally. *)
Definition rest_token (maxlen : Z) (p : cstr) : option cstr :=
  let literal := if maxlen <? Z.of_nat (length p) then None else Some p in
  match p with
  | q :: start =>
      if ceqb q DQUOTE then
        match strrchr start DQUOTE with
        | Some len =>
            if (0 <? len)%nat then
              if maxlen <? Z.of_nat len then None else Some (take len start)
            else literal
        | None => literal
        end
      else literal
  | [] => literal
  end.

(** One whitespace- or quote-delimited token and the pointer after it; None when
    it does not fit in [maxlen] characters. *)
Definition plain_token (maxlen : Z) (p : cstr) : option (cstr * cstr) :=
  match p with
  | q :: p1 =>
      if ceqb q DQUOTE then
        let '(tok, r) := token_run (fun c => ceqb c DQUOTE) (Z.to_nat maxlen) p1 in
        match r with
        | [] => Some (tok, [])
        | c :: r' => if ceqb c DQUOTE then Some (tok, r') else None
        end
      else
        let '(tok, r) := token_run is_ws (Z.to_nat maxlen) p in
        match r with
        | [] => Some (tok, [])
        | c :: _ => if is_ws c then Some (tok, r) else None
        end
  | [] => Some ([], [])
  end.

Definition needs_validation (d : cmd_arg_desc_t) (tok : cstr) : bool :=
  negb (bool_decide (ad_type d = CMD_ARG_NONE)) && negb (cmd_arg_validate d tok).

(** The loop over the descriptors; [argv] is what was parsed before them. *)
Fixpoint cmd_parse_loop (p : cstr) (desc : list cmd_arg_desc_t)
    (argv : list cstr) (usage : cstr) : parse_result :=
  match desc with
  | [] => Parsed argv
  | d :: desc' =>
      let p := skip_while is_ws p in
      match p with
      | [] =>
          if negb (has_flag d CMD_ARG_OPTIONAL) then Refused argv (RefuseUsage usage)
          else Parsed argv
      | _ :: _ =>
          let maxlen := cmd_arg_maxlen d in
          if has_flag d CMD_ARG_REST then
            match rest_token maxlen p with
            | None => Refused argv (cmd_arg_reject_long d maxlen)
            | Some tok =>
                let argv := argv ++ [tok] in
                if needs_validation d tok then Refused argv (cmd_arg_reject_invalid d)
                else Parsed argv
            end
          else
            match plain_token maxlen p with
            | None => Refused argv (cmd_arg_reject_long d maxlen)
            | Some (tok, p) =>
                let argv := argv ++ [tok] in
                if needs_validation d tok then Refused argv (cmd_arg_reject_invalid d)
                else cmd_parse_loop p desc' argv usage
            end
      end
  end.

Definition cmd_parse_args (args : cstr) (desc : list cmd_arg_desc_t) (usage : cstr) : parse_result :=
  cmd_parse_loop args desc [] usage.

(** ** The help interception *)

Definition help_skip_ws (p : cstr) : cstr := skip_while is_ws p.

Definition args_ask_for_help (args : option cstr) : bool :=
  match args with
  | None => false
  | Some a =>
      if strneq 6 a (lit "--help")
         && (match drop 6 a with [] => true | c :: _ => is_ws c end) then true
      else if strneq 2 a (lit "-h") && seqb (help_skip_ws (drop 2 a)) [] then true
      else strncaseeq 4 a (lit "help") && seqb (help_skip_ws (drop 4 a)) []
  end.

(** ** What registration guarantees *)

Definition optional (d : cmd_arg_desc_t) : Prop := has_flag d CMD_ARG_OPTIONAL = true.

(** One descriptor, at index [i] of [n]. *)
Definition desc_ok (n i : Z) (d : cmd_arg_desc_t) : Prop :=
  (has_flag d CMD_ARG_REST = true -> i = n - 1) /\
  (ad_type d = CMD_ARG_CUSTOM -> ad_custom d <> None) /\
  ad_maxlen d < CMD_ARG_SZ.

Fixpoint descs_ok (n i : Z) (descs : list cmd_arg_desc_t) : Prop :=
  match descs with
  | [] => True
  | d :: rest => desc_ok n i d /\ (optional d -> Forall optional rest) /\ descs_ok n (i + 1) rest
  end.

Lemma reg_validate_loop_spec n i seen descs :
  reg_validate_loop n i seen descs = true <->
  (seen = true -> Forall optional descs) /\ descs_ok n i descs.
Proof.
  revert i seen. induction descs as [|d descs IH]; intros i seen; cbn [reg_validate_loop descs_ok].
  { split; [auto|done]. }
  unfold desc_ok, optional in *. rewrite Forall_cons_iff.
  destruct (has_flag d CMD_ARG_OPTIONAL) eqn:Eo; cbn [negb andb].
  2: destruct seen; cbn [negb andb]; [split; [done|]; intros [H _]; by destruct (H eq_refl)|].
  all: destruct (has_flag d CMD_ARG_REST && negb (i =? n - 1)) eqn:Er;
    [breflect; split; [done|]; intros (_ & (H1 & _) & _); destruct (H1 ltac:(done)); lia|].
  all: match goal with |- context [bool_decide ?P && ?m] => destruct (bool_decide P && m) eqn:Ec end;
    [breflect; split; [done|]; intros (_ & (_ & Hc & _) & _); by destruct (ad_custom d); [|destruct Hc]|].
  all: destruct (CMD_ARG_SZ <=? ad_maxlen d) eqn:Em;
    [breflect; split; [done|]; intros (_ & (_ & _ & Hm) & _); lia|].
  all: rewrite IH; breflect.
  all: assert (Hr : has_flag d CMD_ARG_REST = true -> i = n - 1)
    by (intros Hf; rewrite Hf in Er; cbn [andb] in Er; breflect; done).
  all: assert (Hc : ad_type d = CMD_ARG_CUSTOM -> ad_custom d <> None)
    by (intros Ht Hn; rewrite Ht, Hn in Ec; vm_compute in Ec; done).
  all: split; [intros [H1 H2]; split_and!; try done; auto|intros (H1 & _ & H2 & H3); split; auto].
Qed.

Lemma reg_validate_args_spec descs :
  reg_validate_args descs = true <->
  Z.of_nat (length descs) <= CMD_MAX_ARGS /\ descs_ok (Z.of_nat (length descs)) 0 descs.
Proof.
  unfold reg_validate_args. destruct (_ <? _) eqn:E; breflect.
  - split; [done|lia].
  - rewrite reg_validate_loop_spec. split; [intros [_ H]; split; [lia|done]|intros [_ H]; split; done].
Qed.

Lemma descs_ok_app n i used rest :
  descs_ok n i (used ++ rest) -> descs_ok n (i + Z.of_nat (length used)) rest.
Proof.
  revert i. induction used as [|d used IH]; intros i; cbn [app descs_ok length].
  - by rewrite Z.add_0_r.
  - intros (_ & _ & H). apply IH in H. by rewrite Nat2Z.inj_succ, <- Z.add_1_l, Z.add_assoc.
Qed.

Lemma cmd_arg_maxlen_lt n i d : desc_ok n i d -> cmd_arg_maxlen d < CMD_ARG_SZ.
Proof. intros (_ & _ & H). unfold cmd_arg_maxlen, CMD_ARG_SZ in *. case_step; lia. Qed.

Lemma cmd_arg_maxlen_pos d : 0 < cmd_arg_maxlen d.
Proof. unfold cmd_arg_maxlen, CMD_ARG_SZ. case_step; breflect; lia. Qed.
#[export] Hint Resolve cmd_arg_maxlen_pos : bm_ok.

(** ** Tokens *)

Lemma token_run_spec stop room p tok q :
  token_run stop room p = (tok, q) ->
  p = tok ++ q /\ (length tok <= room)%nat /\ Forall (fun c => stop c = false) tok /\
  (q = [] \/ length tok = room \/ exists c q', q = c :: q' /\ stop c = true).
Proof.
  revert room tok q. induction p as [|c p IH]; intros room tok q; cbn [token_run].
  { intros [= <- <-]. split_and!; simpl; auto using Forall_nil with lia. }
  destruct room as [|room]; [intros [= <- <-]; split_and!; simpl; by auto using Forall_nil|].
  destruct (stop c) eqn:Ec.
  { intros [= <- <-]. split_and!; simpl; eauto 10 using Forall_nil with lia. }
  destruct (token_run stop room p) as [tok' q'] eqn:E. intros [= <- <-].
  destruct (IH _ _ _ E) as (-> & H2 & H3 & H4). split_and!; simpl.
  - done.
  - lia.
  - by constructor.
  - destruct H4 as [H4|[H4|H4]]; auto.
Qed.

(** A token followed by its delimiter is taken whole when it fits. *)
Lemma token_run_fits stop room tok q :
  Forall (fun c => stop c = false) tok -> (length tok <= room)%nat ->
  match q with [] => True | c :: _ => stop c = true end ->
  token_run stop room (tok ++ q) = (tok, q).
Proof.
  intros H. revert room. induction H as [|c tok Hc _ IH]; intros room Hl Hq; cbn [app token_run].
  - destruct q as [|c q]; [done|]. cbn [token_run]. destruct room; [done|]. by rewrite Hq.
  - destruct room as [|room]; simpl in Hl; [lia|]. rewrite Hc, IH by (done || lia). done.
Qed.

Lemma token_run_long stop room tok q :
  Forall (fun c => stop c = false) tok -> (room < length tok)%nat ->
  exists t c r, token_run stop room (tok ++ q) = (t, c :: r) /\ stop c = false.
Proof.
  intros H. revert room. induction H as [|c tok Hc _ IH]; intros room Hl; [simpl in Hl; lia|].
  cbn [app token_run]. destruct room as [|room]; [eauto 10|].
  rewrite Hc. destruct (IH room) as (t & c' & r & -> & Hs); [simpl in Hl; lia|]. eauto 10.
Qed.

(** What the parser promises of a token handed to a command. *)
Definition token_ok (d : cmd_arg_desc_t) (tok : cstr) : Prop :=
  Z.of_nat (length tok) <= cmd_arg_maxlen d /\
  (ad_type d = CMD_ARG_NONE \/ cmd_arg_validate d tok = true).

Lemma plain_token_length maxlen p tok q :
  0 < maxlen -> plain_token maxlen p = Some (tok, q) -> Z.of_nat (length tok) <= maxlen.
Proof.
  intros Hm. destruct p as [|c p]; cbn [plain_token]; [intros [= <- _]; simpl; lia|].
  destruct (ceqb c DQUOTE).
  all: match goal with |- context [token_run ?st ?rm ?pp] =>
         destruct (token_run st rm pp) as [t r] eqn:E end.
  all: apply token_run_spec in E as (_ & Hl & _).
  all: destruct r as [|c' r]; [|case_step]; intros [= <- _] || intros [=]; lia.
Qed.

Lemma rest_token_length maxlen p tok :
  rest_token maxlen p = Some tok -> Z.of_nat (length tok) <= maxlen.
Proof.
  assert (L : forall p, (if maxlen <? Z.of_nat (length p) then None else Some p) = Some tok ->
              Z.of_nat (length tok) <= maxlen).
  { intros q Hq. case_step_in Hq; breflect; naive_solver. }
  unfold rest_token. destruct p as [|c p]; [apply L|].
  destruct (ceqb c DQUOTE); [|apply L].
  destruct (strrchr p DQUOTE) as [len|]; [|apply L].
  destruct (0 <? len)%nat; [|apply L].
  destruct (maxlen <? Z.of_nat len) eqn:E; [done|]. intros [= <-]. breflect.
  rewrite length_take. lia.
Qed.

Lemma needs_validation_ok d tok :
  Z.of_nat (length tok) <= cmd_arg_maxlen d -> needs_validation d tok = false -> token_ok d tok.
Proof.
  intros Hl H. split; [done|]. unfold needs_validation in H.
  apply andb_false_iff in H as [H|H]; breflect; auto.
Qed.

(** ** Soundness of the loop *)

Lemma cmd_parse_loop_sound p desc argv usage argv' :
  cmd_parse_loop p desc argv usage = Parsed argv' ->
  exists used rest new, desc = used ++ rest /\ argv' = argv ++ new /\ Forall2 token_ok used new /\
    (rest = [] \/ (exists d r, rest = d :: r /\ optional d) \/
     exists u d, used = u ++ [d] /\ has_flag d CMD_ARG_REST = true).
Proof.
  revert p argv. induction desc as [|d desc IH]; intros p argv; cbn [cmd_parse_loop].
  { intros [= <-]. exists [], [], []. rewrite (app_nil_r argv). split_and!; [done..|constructor|by left]. }
  destruct (skip_while is_ws p) as [|c q] eqn:Ep.
  { destruct (has_flag d CMD_ARG_OPTIONAL) eqn:Eo; [|done]. intros [= <-].
    exists [], (d :: desc), []. rewrite (app_nil_r argv). split_and!; [done..|constructor|]. right. left. by exists d, desc. }
  destruct (has_flag d CMD_ARG_REST) eqn:Er.
  - destruct (rest_token (cmd_arg_maxlen d) (c :: q)) as [tok|] eqn:Et; [|done].
    destruct (needs_validation d tok) eqn:En; [done|]. intros [= <-].
    exists [d], desc, [tok]. split_and!; try done.
    + constructor; [|constructor]. apply needs_validation_ok; [|done].
      by eapply rest_token_length.
    + right. right. by exists [], d.
  - destruct (plain_token (cmd_arg_maxlen d) (c :: q)) as [[tok r]|] eqn:Et; [|done].
    destruct (needs_validation d tok) eqn:En; [done|]. intros H.
    destruct (IH _ _ H) as (used & rest & new & -> & -> & H1 & H2).
    exists (d :: used), rest, (tok :: new). split_and!; [done|by rewrite <- app_assoc| |].
    + constructor; [|done].
      apply needs_validation_ok; [|done]. eapply plain_token_length; [apply cmd_arg_maxlen_pos|done].
    + destruct H2 as [->|[H2|(u & d' & -> & H3)]]; [auto|auto|].
      right. right. by exists (d :: u), d'.
Qed.

Lemma descs_ok_nth n i used d rest :
  descs_ok n i (used ++ d :: rest) ->
  desc_ok n (i + Z.of_nat (length used)) d /\ (optional d -> Forall optional rest).
Proof. intros H. apply descs_ok_app in H. by destruct H as (? & ? & _). Qed.

(** ** Properties *)


(** A descriptor array as commands declare them (the second argument of
    [note add <user> <text>] takes the rest of the line). *)
Definition sample_desc : list cmd_arg_desc_t :=
  [ {| ad_name := Some (lit "user"); ad_type := CMD_ARG_ALNUM; ad_flags := 0;
       ad_maxlen := 30; ad_custom := None |};
    {| ad_name := Some (lit "count"); ad_type := CMD_ARG_DIGITS; ad_flags := 0;
       ad_maxlen := 3; ad_custom := None |};
    {| ad_name := Some (lit "text"); ad_type := CMD_ARG_NONE; ad_flags := 3;
       ad_maxlen := 0; ad_custom := None |} ].


(** ** Writing a line that parses back *)

(** The two spellings of a token: bare, or between double quotes. *)
Inductive spells : cstr -> cstr -> Prop :=
  | spells_quoted t : DQUOTE ∉ t -> spells (DQUOTE :: t ++ [DQUOTE]) t
  | spells_bare c t : c <> DQUOTE -> Forall (fun x => is_ws x = false) (c :: t) ->
      spells (c :: t) (c :: t).

(** Spellings separated by one space. *)
Fixpoint spell_line (ss : list cstr) : cstr :=
  match ss with
  | [] => []
  | [s] => s
  | s :: ss' => s ++ " "%char :: spell_line ss'
  end.

Definition ends_token (q : cstr) : Prop :=
  match q with [] => True | c :: _ => is_ws c = true end.

Lemma not_dquote_stop t : DQUOTE ∉ t -> Forall (fun c => ceqb c DQUOTE = false) t.
Proof.
  intros H. apply List.Forall_forall. intros c Hc%list_elem_of_In.
  apply ceqb_false. by intros ->.
Qed.

Lemma spells_plain_token maxlen s t q :
  spells s t -> Z.of_nat (length t) <= maxlen -> ends_token q ->
  plain_token maxlen (s ++ q) = Some (t, q).
Proof.
  intros Hs Hl Hq. destruct Hs as [t Hn|c t Hc Hw].
  - cbn [plain_token app]. rewrite ceqb_refl, <- app_assoc.
    rewrite token_run_fits; [|by apply not_dquote_stop|lia|by apply ceqb_refl].
    cbn [app]. by rewrite ceqb_refl.
  - cbn [plain_token app]. rewrite (proj2 (ceqb_false c DQUOTE)) by done.
    change (c :: t ++ q) with ((c :: t) ++ q).
    rewrite token_run_fits; [|done|lia|done].
    destruct q as [|x q]; [done|]. simpl in Hq. by rewrite Hq.
Qed.

Lemma spells_skip_ws s t q : spells s t -> skip_while is_ws (s ++ q) = s ++ q /\ s ++ q <> [].
Proof.
  destruct 1 as [t Hn|c t Hc Hw]; [done|]. inversion Hw; subst.
  split; [|done]. cbn [app]. by rewrite skip_while_stop.
Qed.

Lemma spells_overlong maxlen s t q :
  spells s t -> 0 <= maxlen < Z.of_nat (length t) -> plain_token maxlen (s ++ q) = None.
Proof.
  intros Hs Hl. destruct Hs as [t Hd|c t Hc Hw]; cbn [plain_token app].
  - rewrite ceqb_refl, <- app_assoc.
    destruct (token_run_long (fun c => ceqb c DQUOTE) (Z.to_nat maxlen) t ([DQUOTE] ++ q))
      as (t' & c' & r & E & Hc'); [by apply not_dquote_stop|lia|].
    rewrite E, Hc'. done.
  - rewrite (proj2 (ceqb_false c DQUOTE)) by done. change (c :: t ++ q) with ((c :: t) ++ q).
    destruct (token_run_long is_ws (Z.to_nat maxlen) (c :: t) q)
      as (t' & c' & r & E & Hc'); [done|lia|].
    rewrite E, Hc'. done.
Qed.

(** A token the descriptor takes as it is. *)
Definition takes (d : cmd_arg_desc_t) (tok : cstr) : Prop :=
  has_flag d CMD_ARG_REST = false /\ token_ok d tok.

Lemma takes_valid d tok : takes d tok -> needs_validation d tok = false.
Proof.
  intros (_ & _ & [H|H]); unfold needs_validation; [by rewrite H|rewrite H; apply andb_false_r].
Qed.

Lemma skip_ws_space q : skip_while is_ws (" "%char :: q) = skip_while is_ws q.
Proof. done. Qed.

Lemma cmd_parse_loop_spelled ss toks used rest argv usage p :
  Forall2 spells ss toks -> Forall2 takes used toks ->
  match rest with [] => True | d :: _ => optional d end ->
  skip_while is_ws p = skip_while is_ws (spell_line ss) ->
  cmd_parse_loop p (used ++ rest) argv usage = Parsed (argv ++ toks).
Proof.
  intros Hs. revert used argv p. induction Hs as [|s t ss toks Hst Hs IH];
    intros used argv p Ht Hr Hp; inversion Ht as [|d ? used' ? Hd Ht']; subst; clear Ht.
  - cbn [app]. rewrite app_nil_r. destruct rest as [|d rest]; cbn [cmd_parse_loop]; [done|].
    simpl in Hr. rewrite Hp. cbn. by rewrite Hr.
  - set (q := match ss with [] => [] | _ => " "%char :: spell_line ss end).
    assert (Hline : spell_line (s :: ss) = s ++ q).
    { unfold q. destruct ss; [by rewrite app_nil_r|done]. }
    assert (Hq : ends_token q) by (unfold q; by destruct ss).
    destruct (spells_skip_ws s t q Hst) as [Hskip Hne].
    cbn [app cmd_parse_loop]. rewrite Hp, Hline, Hskip.
    destruct (s ++ q) as [|c0 p0] eqn:E; [done|]. rewrite <- E.
    destruct Hd as [Hnr Hok]. rewrite Hnr.
    rewrite (spells_plain_token _ s t q) by (done || by destruct Hok).
    rewrite (takes_valid d t) by done.
    replace (argv ++ t :: toks) with ((argv ++ [t]) ++ toks) by by rewrite <- app_assoc.
    apply IH; [done|done|]. unfold q. by destruct ss.
Qed.

(** a line of arguments, each written bare or between double quotes and
    separated by spaces, parses back to exactly those arguments, spaces inside
    quotes included, provided each argument is one its descriptor accepts and
    the first descriptor left over is optional. *)
Theorem cmd_parse_args_roundtrip (ss toks : list cstr) (used rest : list cmd_arg_desc_t) (usage : cstr) :
  Forall2 spells ss toks -> Forall2 takes used toks ->
  match rest with [] => True | d :: _ => optional d end ->
  cmd_parse_args (spell_line ss) (used ++ rest) usage = Parsed toks.
Proof.
  intros Hs Ht Hr. exact (cmd_parse_loop_spelled ss toks used rest [] usage _ Hs Ht Hr eq_refl).
Qed.

(** [gus "007"]: one bare token, one quoted. *)
Lemma cmd_parse_args_roundtrip_witness :
  cmd_parse_args (lit "gus " ++ DQUOTE :: lit "007" ++ [DQUOTE]) sample_desc (lit "note") =
  Parsed [lit "gus"; lit "007"].
Proof.
  apply (cmd_parse_args_roundtrip [lit "gus"; DQUOTE :: lit "007" ++ [DQUOTE]]
           [lit "gus"; lit "007"] (take 2 sample_desc) (drop 2 sample_desc)).
  - constructor; [|constructor; [|constructor]].
    + apply spells_bare; [done|repeat constructor].
    + apply spells_quoted. intros H. apply list_elem_of_In in H. vm_compute in H.
      repeat destruct H as [H|H]; done.
  - constructor; [|constructor; [|constructor]].
    + split; [done|]. split; [vm_compute; discriminate|right; vm_compute; reflexivity].
    + split; [done|]. split; [vm_compute; discriminate|right; vm_compute; reflexivity].
  - vm_compute. reflexivity.
Defined.

(** an argument longer than its descriptor allows is refused, however it is
    written and whatever follows it; the parser never cuts it down to fit. *)
Theorem cmd_parse_args_overlong (s t q usage : cstr) (d : cmd_arg_desc_t) (desc : list cmd_arg_desc_t) :
  spells s t -> has_flag d CMD_ARG_REST = false ->
  cmd_arg_maxlen d < Z.of_nat (length t) ->
  cmd_parse_args (s ++ q) (d :: desc) usage = Refused [] (cmd_arg_reject_long d (cmd_arg_maxlen d)).
Proof.
  intros Hs Hr Hl. unfold cmd_parse_args. cbn [cmd_parse_loop].
  destruct (spells_skip_ws s t q Hs) as [-> Hne].
  destruct (s ++ q) as [|c0 p0] eqn:E; [done|]. rewrite <- E, Hr.
  pose proof (cmd_arg_maxlen_pos d).
  by rewrite (spells_overlong _ s t q) by (auto || lia).
Qed.

Lemma cmd_parse_args_overlong_witness :
  cmd_parse_args (lit "1234" ++ lit " x") (drop 1 sample_desc) (lit "u") =
  Refused [] (RefuseText (lit "count too long (max 3 characters)")).
Proof.
  apply (cmd_parse_args_overlong (lit "1234") (lit "1234") (lit " x") (lit "u")
    {| ad_name := Some (lit "count"); ad_type := CMD_ARG_DIGITS; ad_flags := 0;
       ad_maxlen := 3; ad_custom := None |} (drop 2 sample_desc)).
  - apply spells_bare; [done|repeat constructor].
  - done.
  - done.
Defined.
