(* ===== verification/Task.v ===== *)
(** * The task scheduler: core/task.c, include/task.h

    Three intrusive lists guarded by one mutex: the ready queue sorted by
    priority, the timer queue sorted by wake time, and the running list. Each
    operation below is the body of one critical section; the clock is read
    through the [now] arguments, one per [time(NULL)] call whose value matters.
    A task object is on at most one list, so a list of objects is the list of
    their current contents and the pointer of an object is its id. *)

From Stdlib Require Import Sorted.
From S2P Require Import Prelude.

(** ** Data *)

Inductive task_state_t := TASK_WAITING | TASK_RUNNING | TASK_SLEEPING | TASK_ENDED | TASK_FATAL.
Inductive task_type_t := TASK_PARENT | TASK_THREAD | TASK_ANY.
Inductive task_lane_t := TASK_BACKGROUND | TASK_INTERACTIVE.
Inductive task_kind_t := TASK_ONCE | TASK_PERSIST | TASK_PERIODIC | TASK_DEFERRED.

#[export] Instance task_state_eq_dec : EqDecision task_state_t.
Proof. solve_decision. Defined.
#[export] Instance task_type_eq_dec : EqDecision task_type_t.
Proof. solve_decision. Defined.
#[export] Instance task_lane_eq_dec : EqDecision task_lane_t.
Proof. solve_decision. Defined.
#[export] Instance task_kind_eq_dec : EqDecision task_kind_t.
Proof. solve_decision. Defined.

Definition TASK_NAME_SZ : nat := 40.
Definition TASK_HANDLE_NONE : Z := 0.

(** The callback and its data pointer are opaque to the scheduler and left out;
    [next] is the position in the list that holds the task. *)
Inductive task_t := mk_task {
  t_name : cstr;
  t_type : task_type_t;
  t_kind : task_kind_t;
  t_lane : task_lane_t;
  t_priority : Z;
  t_state : task_state_t;
  t_sleep_until : Z;
  t_interval_ms : Z;
  t_link : option task_t;
  t_id : Z;
  t_cancelled : bool;
  t_created : Z;
  t_last_run : Z;
  t_run_count : Z
}.

Definition set_state (st : task_state_t) (t : task_t) : task_t :=
  mk_task (t_name t) (t_type t) (t_kind t) (t_lane t) (t_priority t) st (t_sleep_until t)
    (t_interval_ms t) (t_link t) (t_id t) (t_cancelled t) (t_created t) (t_last_run t) (t_run_count t).

Definition set_sleep (w : Z) (t : task_t) : task_t :=
  mk_task (t_name t) (t_type t) (t_kind t) (t_lane t) (t_priority t) (t_state t) w
    (t_interval_ms t) (t_link t) (t_id t) (t_cancelled t) (t_created t) (t_last_run t) (t_run_count t).

Definition set_link (l : option task_t) (t : task_t) : task_t :=
  mk_task (t_name t) (t_type t) (t_kind t) (t_lane t) (t_priority t) (t_state t) (t_sleep_until t)
    (t_interval_ms t) l (t_id t) (t_cancelled t) (t_created t) (t_last_run t) (t_run_count t).

Definition set_cancelled (t : task_t) : task_t :=
  mk_task (t_name t) (t_type t) (t_kind t) (t_lane t) (t_priority t) (t_state t) (t_sleep_until t)
    (t_interval_ms t) (t_link t) (t_id t) true (t_created t) (t_last_run t) (t_run_count t).

Definition set_kind (k : task_kind_t) (interval wake : Z) (t : task_t) : task_t :=
  mk_task (t_name t) (t_type t) k (t_lane t) (t_priority t) (t_state t) wake
    interval (t_link t) (t_id t) (t_cancelled t) (t_created t) (t_last_run t) (t_run_count t).

(** [t->state = TASK_RUNNING; t->last_run = now; t->run_count = n]. *)
Definition set_run (now n : Z) (t : task_t) : task_t :=
  mk_task (t_name t) (t_type t) (t_kind t) (t_lane t) (t_priority t) TASK_RUNNING (t_sleep_until t)
    (t_interval_ms t) (t_link t) (t_id t) (t_cancelled t) (t_created t) now n.

Record task_stats_t := mk_stats {
  waiting : Z; running : Z; sleeping : Z; linked : Z;
  persist : Z; periodic : Z; total : Z
}.

(** The counters are uint32_t. *)
Definition u32_add (a b : Z) : Z := wrap 32 (a + b).

Definition add_stats (w r s l pst per tot : Z) (x : task_stats_t) : task_stats_t :=
  mk_stats (u32_add (waiting x) w) (u32_add (running x) r) (u32_add (sleeping x) s)
    (u32_add (linked x) l) (u32_add (persist x) pst) (u32_add (periodic x) per)
    (u32_add (total x) tot).

Record sched := mk_sched {
  ready_head : list task_t;
  timer_head : list task_t;
  running_head : list task_t;
  stats : task_stats_t;
  task_next_id : Z
}.

(** ** Name helpers *)

Definition task_state_name (s : task_state_t) : cstr :=
  match s with
  | TASK_WAITING => lit "waiting" | TASK_RUNNING => lit "running"
  | TASK_SLEEPING => lit "sleeping" | TASK_ENDED => lit "ended" | TASK_FATAL => lit "fatal"
  end.

Definition task_type_name (t : task_type_t) : cstr :=
  match t with
  | TASK_PARENT => lit "parent" | TASK_THREAD => lit "thread" | TASK_ANY => lit "any"
  end.

Definition task_kind_name (k : task_kind_t) : cstr :=
  match k with
  | TASK_ONCE => lit "once" | TASK_PERSIST => lit "persist"
  | TASK_PERIODIC => lit "periodic" | TASK_DEFERRED => lit "deferred"
  end.

(** ** Queues *)

(** The walk both queues insert with: past every element whose key is not
    greater than the new one's. *)
Fixpoint insert_by (key : task_t -> Z) (t : task_t) (q : list task_t) : list task_t :=
  match q with
  | x :: q' => if key x <=? key t then x :: insert_by key t q' else t :: q
  | [] => [t]
  end.

Definition ready_insert (t : task_t) (q : list task_t) : list task_t := insert_by t_priority t q.

Definition timer_insert (t : task_t) (q : list task_t) : list task_t := insert_by t_sleep_until t q.

Fixpoint timer_promote_loop (now : Z) (timer ready : list task_t) (st : task_stats_t)
    : list task_t * list task_t * task_stats_t :=
  match timer with
  | t :: timer' =>
      if t_sleep_until t <=? now then
        timer_promote_loop now timer' (ready_insert (set_state TASK_WAITING t) ready)
          (add_stats 1 0 (-1) 0 0 0 0 st)
      else (timer, ready, st)
  | [] => (timer, ready, st)
  end.

Definition timer_promote (now : Z) (s : sched) : sched :=
  let '(timer, ready, st) := timer_promote_loop now (timer_head s) (ready_head s) (stats s) in
  mk_sched ready timer (running_head s) st (task_next_id s).

(** The tasks [free_chain] frees, in order. *)
Fixpoint chain (t : task_t) : list task_t :=
  t :: match t_link t with Some l => chain l | None => [] end.

Definition free_chain (t : option task_t) : list task_t :=
  match t with Some l => chain l | None => [] end.

Definition kind_is (k : task_kind_t) (t : task_t) : bool := bool_decide (t_kind t = k).

Definition b2z (b : bool) : Z := if b then 1 else 0.

Definition task_retire_locked (t : task_t) (s : sched) : sched :=
  let st := add_stats 0 0 0 0 (- b2z (kind_is TASK_PERSIST t)) (- b2z (kind_is TASK_PERIODIC t)) 0
              (stats s) in
  let '(ready, st) :=
    match t_link t with
    | Some child =>
        (ready_insert (set_state TASK_WAITING child) (ready_head s), add_stats 1 0 0 (-1) 0 0 0 st)
    | None => (ready_head s, st)
    end in
  mk_sched ready (timer_head s) (running_head s) (add_stats 0 0 0 0 0 0 (-1) st) (task_next_id s).

Definition type_matches (task_type request_type : task_type_t) : bool :=
  bool_decide (task_type = request_type) || bool_decide (task_type = TASK_ANY)
  || bool_decide (request_type = TASK_ANY).

(** The id returned and the next value of the counter. *)
Definition task_alloc_id_locked (next : Z) : Z * Z :=
  let next' := wrap 64 (next + 1) in
  (next, if next' =? 0 then 1 else next').

(** ** Creation and submission *)

Definition task_create (name : cstr) (type : task_type_t) (priority now : Z) (s : sched)
    : task_t * sched :=
  let '(id, next) := task_alloc_id_locked (task_next_id s) in
  (mk_task (strlcpy TASK_NAME_SZ name) type TASK_ONCE TASK_BACKGROUND priority TASK_WAITING
     0 0 None id false now 0 0,
   mk_sched (ready_head s) (timer_head s) (running_head s) (stats s) next).

Definition task_submit (now : Z) (t : task_t) (s : sched) : sched :=
  let t := if kind_is TASK_PERIODIC t && bool_decide (is_Some (t_link t))
           then set_link None t else t in
  let '(ready, timer, st) :=
    if kind_is TASK_DEFERRED t && (now <? t_sleep_until t) then
      (ready_head s, timer_insert (set_state TASK_SLEEPING t) (timer_head s),
       add_stats 0 0 1 0 0 0 1 (stats s))
    else
      (ready_insert (set_state TASK_WAITING t) (ready_head s), timer_head s,
       add_stats 1 0 0 0 0 0 1 (stats s)) in
  let st := add_stats 0 0 0 0 0 (b2z (kind_is TASK_PERIODIC t)) 0 st in
  let n := Z.of_nat (length (free_chain (t_link t))) in
  mk_sched ready timer (running_head s) (add_stats 0 0 0 n 0 0 n st) (task_next_id s).

Definition task_add (name : cstr) (type : task_type_t) (priority now1 now2 : Z) (s : sched) : sched :=
  let '(t, s) := task_create name type priority now1 s in
  task_submit now2 t s.

(** Removal of the first element that is the object [id]. *)
Fixpoint list_unlink (id : Z) (q : list task_t) : option (list task_t) :=
  match q with
  | [] => None
  | x :: q' => if t_id x =? id then Some q' else cons x <$> list_unlink id q'
  end.

Definition unlink_or_keep (id : Z) (q : list task_t) : list task_t :=
  match list_unlink id q with Some q' => q' | None => q end.

(** [spawned] is the answer of [pool_spawn_persist]. *)
Definition task_add_persist (name : cstr) (priority now1 now2 : Z) (spawned : bool) (s : sched)
    : sched * Z :=
  let '(t, s) := task_create name TASK_THREAD priority now1 s in
  let t := set_run now2 1 (set_kind TASK_PERSIST 0 0 t) in
  let st := add_stats 0 1 0 0 1 0 1 (stats s) in
  let run := t :: running_head s in
  if spawned then (mk_sched (ready_head s) (timer_head s) run st (task_next_id s), t_id t)
  else
    (mk_sched (ready_head s) (timer_head s) (unlink_or_keep (t_id t) run)
       (add_stats 0 (-1) 0 0 (-1) 0 (-1) st) (task_next_id s), TASK_HANDLE_NONE).

Definition task_add_periodic (name : cstr) (type : task_type_t) (priority interval_ms now1 now2 : Z)
    (s : sched) : sched * Z :=
  let '(t, s) := task_create name type priority now1 s in
  (task_submit now2 (set_kind TASK_PERIODIC interval_ms 0 t) s, t_id t).

(** Delays are whole seconds, at least one when any delay was asked for. *)
Definition deferred_wake (delay_ms now1 now2 now3 : Z) : Z :=
  let w := now1 + delay_ms / 1000 in
  if (0 <? delay_ms) && (w <=? now2) then now3 + 1 else w.

Definition task_add_deferred (name : cstr) (type : task_type_t)
    (priority delay_ms now0 now1 now2 now3 now4 : Z) (s : sched) : sched * Z :=
  let '(t, s) := task_create name type priority now0 s in
  (task_submit now4 (set_kind TASK_DEFERRED 0 (deferred_wake delay_ms now1 now2 now3) t) s, t_id t).

(** ** Cancellation *)

Definition find_id (h : Z) (q : list task_t) : option task_t :=
  List.find (fun t => t_id t =? h) q.

(** A running task is only flagged: its worker owns the object. *)
Fixpoint flag_cancelled (h : Z) (q : list task_t) : list task_t :=
  match q with
  | [] => []
  | t :: q' => if t_id t =? h then set_cancelled t :: q' else t :: flag_cancelled h q'
  end.

(** The state and the returned bool. *)
Definition task_cancel (h : Z) (s : sched) : sched * bool :=
  if h =? TASK_HANDLE_NONE then (s, false)
  else
    match find_id h (ready_head s) with
    | Some t =>
        (mk_sched (unlink_or_keep h (ready_head s)) (timer_head s) (running_head s)
           (add_stats (-1) 0 0 0 0 (- b2z (kind_is TASK_PERIODIC t)) (-1) (stats s))
           (task_next_id s), true)
    | None =>
        match find_id h (timer_head s) with
        | Some t =>
            (mk_sched (ready_head s) (unlink_or_keep h (timer_head s)) (running_head s)
               (add_stats 0 0 (-1) 0 0 (- b2z (kind_is TASK_PERIODIC t)) (-1) (stats s))
               (task_next_id s), true)
        | None =>
            (mk_sched (ready_head s) (timer_head s)
               (flag_cancelled h (running_head s))
               (stats s) (task_next_id s), false)
        end
    end.

(** ** Running *)

Definition eligible (type : task_type_t) (allow_background : bool) (t : task_t) : bool :=
  type_matches (t_type t) type
  && (allow_background || bool_decide (t_lane t = TASK_INTERACTIVE)).

Fixpoint assign_scan (type : task_type_t) (allow_background : bool) (q : list task_t)
    : option (task_t * list task_t) :=
  match q with
  | [] => None
  | t :: q' =>
      if eligible type allow_background t then Some (t, q')
      else match assign_scan type allow_background q' with
           | Some (r, q'') => Some (r, t :: q'')
           | None => None
           end
  end.

Definition task_assign (now1 now2 : Z) (type : task_type_t) (allow_background : bool) (s : sched)
    : sched * option task_t :=
  let s := timer_promote now1 s in
  match assign_scan type allow_background (ready_head s) with
  | Some (t, ready) =>
      let t := set_run now2 (wrap 32 (t_run_count t + 1)) t in
      (mk_sched ready (timer_head s) (t :: running_head s)
         (add_stats (-1) 1 0 0 0 0 0 (stats s)) (task_next_id s), Some t)
  | None => (s, None)
  end.

(** How long [task_wait] blocks, in ms; None when a timer has already expired.
    The subtraction is narrowed to uint32_t before the multiplication. *)
Definition task_wait_ms (timeout_ms now1 now2 : Z) (s : sched) : option Z :=
  match timer_head s with
  | t :: _ =>
      if t_sleep_until t <=? now1 then None
      else
        let timer_ms := wrap 32 (wrap 32 (t_sleep_until t - now2) * 1000) in
        Some (if timer_ms <? timeout_ms then timer_ms else timeout_ms)
  | [] => Some timeout_ms
  end.

(** The wait releases the lock: [woken] is the state it finds, at time [now3], when
    it has it again. *)
Definition task_wait (timeout_ms now1 now2 now3 : Z) (s woken : sched) : sched :=
  match task_wait_ms timeout_ms now1 now2 s with
  | None => timer_promote now1 s
  | Some _ => timer_promote now3 woken
  end.

(** When a periodic task whose iteration ended wakes again. *)
Definition periodic_wake (interval_ms now1 now2 : Z) : Z :=
  if (0 <? interval_ms) && (interval_ms <? 1000) then now2 + 1 else now1 + interval_ms / 1000.

(** [t] is the object as its callback left it; the result is the state, the
    returned task_state_t and whether the object was freed. *)
Definition task_finish (now1 now2 : Z) (shutting_down : bool) (t : task_t) (s : sched)
    : sched * task_state_t * bool :=
  let result := t_state t in
  let s := mk_sched (ready_head s) (timer_head s) (unlink_or_keep (t_id t) (running_head s))
             (add_stats 0 (-1) 0 0 0 0 0 (stats s)) (task_next_id s) in
  match result with
  | TASK_ENDED =>
      if kind_is TASK_PERIODIC t && negb shutting_down && negb (t_cancelled t) then
        let t := set_sleep (periodic_wake (t_interval_ms t) now1 now2) (set_state TASK_SLEEPING t) in
        (mk_sched (ready_head s) (timer_insert t (timer_head s)) (running_head s)
           (add_stats 0 0 1 0 0 0 0 (stats s)) (task_next_id s), result, false)
      else (task_retire_locked t s, result, true)
  | TASK_FATAL =>
      (mk_sched (ready_head s) (timer_head s) (running_head s)
         (add_stats 0 0 0 0 (- b2z (kind_is TASK_PERSIST t)) (- b2z (kind_is TASK_PERIODIC t)) (-1)
            (stats s)) (task_next_id s), result, true)
  | TASK_WAITING =>
      (mk_sched (ready_insert t (ready_head s)) (timer_head s) (running_head s)
         (add_stats 1 0 0 0 0 0 0 (stats s)) (task_next_id s), result, false)
  | TASK_SLEEPING =>
      (mk_sched (ready_head s) (timer_insert t (timer_head s)) (running_head s)
         (add_stats 0 0 1 0 0 0 0 (stats s)) (task_next_id s), result, false)
  | TASK_RUNNING => (task_retire_locked t s, result, true)
  end.

Definition task_get_stats (s : sched) : task_stats_t := stats s.

(** The order in which [task_iterate] reports tasks. *)
Definition task_iterate (s : sched) : list task_t :=
  running_head s ++ ready_head s ++ timer_head s.

(** The static initial values, and [task_init], which leaves the id source alone. *)
Definition task_statics : sched := mk_sched [] [] [] (mk_stats 0 0 0 0 0 0 0) 1.

Definition task_init (s : sched) : sched :=
  mk_sched [] [] [] (mk_stats 0 0 0 0 0 0 0) (task_next_id s).

(** [task_exit]: every queued task and its continuations are freed; running
    tasks are left to the workers that hold them. Nothing happens unless the
    subsystem is up ([task_ready]). *)
Definition task_exit (task_ready : bool) (s : sched) : list task_t * sched :=
  if negb task_ready then ([], s)
  else
    (concat (map (fun t => free_chain (t_link t) ++ [t]) (ready_head s ++ timer_head s)),
     mk_sched [] [] (running_head s) (stats s) (task_next_id s)).

(** ** Queue lemmas *)

Definition key_le (key : task_t -> Z) (a b : task_t) : Prop := key a <= key b.

Lemma insert_by_perm key t q : insert_by key t q ≡ₚ t :: q.
Proof.
  induction q as [|x q IH]; simpl; [done|]. case_step; [|done].
  rewrite IH. apply Permutation_swap.
Qed.

(** The new task goes behind everything that is not after it, and only that. *)
Lemma insert_by_split key t q :
  exists a b, q = a ++ b /\ insert_by key t q = a ++ t :: b /\
    Forall (fun x => key x <= key t) a /\
    match b with [] => True | x :: _ => key t < key x end.
Proof.
  induction q as [|x q IH]; simpl; [by exists [], []|].
  destruct (key x <=? key t) eqn:E; breflect.
  - destruct IH as (a & b & -> & H2 & H3 & H4). exists (x :: a), b. rewrite H2.
    split_and!; [done|done|by constructor|done].
  - by exists [], (x :: q).
Qed.

Lemma sorted_after key x (q : list task_t) :
  StronglySorted (key_le key) (x :: q) -> forall k, k < key x -> Forall (fun y => k < key y) (x :: q).
Proof.
  intros H k Hk. inversion H as [|? ? _ Hx]; subst. constructor; [done|].
  eapply Forall_impl; [|exact Hx]. unfold key_le. simpl. lia.
Qed.

Lemma insert_by_sorted key t q :
  StronglySorted (key_le key) q -> StronglySorted (key_le key) (insert_by key t q).
Proof.
  induction 1 as [|x q Hs IH Hx]; simpl; [by repeat constructor|].
  destruct (key x <=? key t) eqn:E; breflect.
  - constructor; [done|]. rewrite insert_by_perm. by constructor.
  - constructor; [by constructor|]. constructor; [unfold key_le; lia|].
    eapply Forall_impl; [|exact Hx]. unfold key_le. simpl. lia.
Qed.

#[export] Hint Resolve insert_by_sorted : bm_ok.

Lemma list_unlink_spec h q :
  match list_unlink h q with
  | Some q' => exists a t b, q = a ++ t :: b /\ q' = a ++ b /\ t_id t = h /\ find_id h q = Some t
  | None => Forall (fun t => t_id t <> h) q /\ find_id h q = None
  end.
Proof.
  induction q as [|x q IH]; simpl; [done|].
  unfold find_id in *. simpl. destruct (t_id x =? h) eqn:E; breflect.
  - by exists [], x, q.
  - destruct (list_unlink h q) as [q'|]; simpl.
    + destruct IH as (a & t & b & -> & -> & H1 & H2). by exists (x :: a), t, b.
    + destruct IH as [H1 H2]. split; [by constructor|done].
Qed.

Lemma sorted_unlink (R : task_t -> task_t -> Prop) a t b :
  StronglySorted R (a ++ t :: b) -> StronglySorted R (a ++ b).
Proof.
  induction a as [|x a IH]; simpl; intros H; inversion H as [|? ? Hs Hx]; subst; [done|].
  constructor; [by apply IH|]. apply Forall_app in Hx as [H1 H2].
  inversion H2; subst. by apply Forall_app.
Qed.

Lemma sorted_suffix (R : task_t -> task_t -> Prop) a b : StronglySorted R (a ++ b) -> StronglySorted R b.
Proof. induction a as [|x a IH]; simpl; intros H; [done|]. inversion H; subst. auto. Qed.

Lemma assign_scan_spec type bg q :
  match assign_scan type bg q with
  | Some (t, q') => exists a b, q = a ++ t :: b /\ q' = a ++ b /\ eligible type bg t = true /\
                      Forall (fun x => eligible type bg x = false) a
  | None => Forall (fun x => eligible type bg x = false) q
  end.
Proof.
  induction q as [|x q IH]; simpl; [done|]. destruct (eligible type bg x) eqn:E.
  - by exists [], q.
  - destruct (assign_scan type bg q) as [[t q']|].
    + destruct IH as (a & b & -> & -> & H1 & H2). exists (x :: a), b. split_and!; try done.
      by constructor.
    + by constructor.
Qed.

(** ** Accounting *)

(** How many continuations hang below a task. *)
Definition tail_len (t : task_t) : Z := Z.of_nat (length (free_chain (t_link t))).

Definition links (q : list task_t) : Z := foldr (fun t n => tail_len t + n) 0 q.

#[export] Instance links_proper : Proper ((≡ₚ) ==> eq) links.
Proof. intros q q' H. induction H; simpl in *; lia. Qed.

Lemma links_app a b : links (a ++ b) = links a + links b.
Proof. induction a as [|t a IH]; simpl; lia. Qed.

Lemma tail_len_child t l : t_link t = Some l -> tail_len t = 1 + tail_len l.
Proof. intros H. unfold tail_len. rewrite H.
  assert (E : free_chain (Some l) = l :: free_chain (t_link l)) by by destruct l.
  rewrite E. simpl length. lia.
Qed.

Definition len (q : list task_t) : Z := Z.of_nat (length q).

Lemma len_cons t q : len (t :: q) = 1 + len q.
Proof. unfold len. simpl. lia. Qed.

Lemma len_app a b : len (a ++ b) = len a + len b.
Proof. unfold len. rewrite length_app. lia. Qed.

#[export] Instance len_proper : Proper ((≡ₚ) ==> eq) len.
Proof. intros q q' H. unfold len. by rewrite H. Qed.

(** The counters say how many tasks each list holds, how many continuations
    hang off them, and their sum, modulo the counters' width. *)
Definition accounts (s : sched) : Prop :=
  let R := ready_head s in let T := timer_head s in let U := running_head s in
  waiting (stats s) = wrap 32 (len R) /\
  running (stats s) = wrap 32 (len U) /\
  sleeping (stats s) = wrap 32 (len T) /\
  linked (stats s) = wrap 32 (links R + links T + links U) /\
  total (stats s) = wrap 32 (len R + len T + len U + (links R + links T + links U)).

Record sched_ok (s : sched) : Prop := {
  ok_ready : StronglySorted (key_le t_priority) (ready_head s);
  ok_timer : StronglySorted (key_le t_sleep_until) (timer_head s);
  ok_counts : accounts s
}.

Lemma u32_add_wrap a b : u32_add (wrap 32 a) b = wrap 32 (a + b).
Proof. unfold u32_add, wrap. by rewrite Z.add_mod_idemp_l. Qed.

Lemma links_insert key t q : links (insert_by key t q) = tail_len t + links q.
Proof. by rewrite insert_by_perm. Qed.

Lemma len_insert key t q : len (insert_by key t q) = 1 + len q.
Proof. by rewrite insert_by_perm, len_cons. Qed.

Lemma unlink_counts h q t :
  find_id h q = Some t ->
  len (unlink_or_keep h q) = len q - 1 /\ links (unlink_or_keep h q) = links q - tail_len t.
Proof.
  intros Hf. unfold unlink_or_keep. pose proof (list_unlink_spec h q) as H.
  destruct (list_unlink h q) as [q'|]; [|destruct H; congruence].
  destruct H as (a & t' & b & -> & -> & H1 & H2).
  assert (t' = t) as -> by congruence.
  rewrite !len_app, !links_app, len_cons. simpl. lia.
Qed.

Lemma unlink_sorted key h q :
  StronglySorted (key_le key) q -> StronglySorted (key_le key) (unlink_or_keep h q).
Proof.
  intros Hs. unfold unlink_or_keep. pose proof (list_unlink_spec h q) as H.
  destruct (list_unlink h q) as [q'|]; [|done].
  destruct H as (a & t' & b & -> & -> & _). by eapply sorted_unlink.
Qed.

Lemma flag_cancelled_counts h q :
  len (flag_cancelled h q) = len q /\ links (flag_cancelled h q) = links q.
Proof.
  induction q as [|t q IH]; simpl; [done|]. destruct (t_id t =? h); simpl.
  - rewrite !len_cons. split; [lia|]. destruct t. done.
  - rewrite !len_cons. lia.
Qed.

Lemma set_state_tail st t : tail_len (set_state st t) = tail_len t.
Proof. by destruct t. Qed.
Lemma set_sleep_tail w t : tail_len (set_sleep w t) = tail_len t.
Proof. by destruct t. Qed.
Lemma set_run_tail a b t : tail_len (set_run a b t) = tail_len t.
Proof. by destruct t. Qed.
Lemma set_link_none_tail t : tail_len (set_link None t) = 0.
Proof. by destruct t. Qed.

(** ** Each operation preserves the invariant *)

Lemma timer_promote_loop_spec now timer ready st timer' ready' st' :
  StronglySorted (key_le t_sleep_until) timer ->
  timer_promote_loop now timer ready st = (timer', ready', st') ->
  exists due, timer = due ++ timer' /\
    Forall (fun t => t_sleep_until t <= now) due /\
    Forall (fun t => now < t_sleep_until t) timer' /\
    ready' ≡ₚ map (set_state TASK_WAITING) due ++ ready /\
    (StronglySorted (key_le t_priority) ready -> StronglySorted (key_le t_priority) ready') /\
    (forall n m, waiting st = wrap 32 n -> sleeping st = wrap 32 m ->
      waiting st' = wrap 32 (n + len due) /\ sleeping st' = wrap 32 (m - len due)) /\
    (forall n, (running st = wrap 32 n -> running st' = wrap 32 n) /\
               (linked st = wrap 32 n -> linked st' = wrap 32 n) /\
               (total st = wrap 32 n -> total st' = wrap 32 n)).
Proof.
  intros Hs. revert ready st. induction timer as [|t timer IH]; intros ready st; cbn [timer_promote_loop].
  { intros [= <- <- <-]. exists []. rewrite app_nil_r. split_and!; auto.
    intros n m -> ->. unfold len. simpl. rewrite Z.add_0_r, Z.sub_0_r. done. }
  destruct (t_sleep_until t <=? now) eqn:E; breflect.
  2:{ intros [= <- <- <-]. exists []. split_and!; auto.
      - apply (sorted_after t_sleep_until); done.
      - intros n m -> ->. unfold len. simpl. rewrite Z.add_0_r, Z.sub_0_r. done. }
  intros H. inversion Hs as [|? ? Hs' _]; subst.
  destruct (IH Hs' _ _ H) as (due & -> & H1 & H2 & H3 & H4 & H5 & H6).
  exists (t :: due). split_and!; auto.
  - rewrite H3. unfold ready_insert. rewrite insert_by_perm. simpl.
    by rewrite <- Permutation_middle.
  - intros Hr. apply H4. by apply insert_by_sorted.
  - intros n m Hn Hm. rewrite len_cons.
    destruct (H5 (n + 1) (m - 1)) as [-> ->]; cbn; rewrite ?Hn, ?Hm, ?u32_add_wrap;  [done..|].
    split; f_equal; lia.
  - intros n. destruct (H6 n) as (A & B & C). cbn in A, B, C.
    split_and!; intros Hn; [apply A|apply B|apply C]; by rewrite Hn, u32_add_wrap, Z.add_0_r.
Qed.

Lemma links_set_state st q : links (map (set_state st) q) = links q.
Proof. induction q as [|t q IH]; simpl; [done|]. by rewrite set_state_tail, IH. Qed.

Lemma timer_promote_ok now s : sched_ok s -> sched_ok (timer_promote now s).
Proof.
  intros [Hr Ht Hc]. unfold timer_promote.
  destruct (timer_promote_loop _ _ _ _) as [[timer ready] st] eqn:E.
  destruct (timer_promote_loop_spec _ _ _ _ _ _ _ Ht E) as (due & Eq & H1 & H2 & H3 & H4 & H5 & H6).
  unfold accounts in Hc. cbn zeta in Hc. destruct Hc as (C1 & C2 & C3 & C4 & C5).
  split; cbn [ready_head timer_head running_head stats].
  - auto.
  - rewrite Eq in Ht. by eapply sorted_suffix.
  - unfold accounts. cbn [ready_head timer_head running_head stats].
    assert (L : len ready = len due + len (ready_head s))
      by (rewrite H3, len_app; unfold len; by rewrite length_map).
    assert (K : links ready = links due + links (ready_head s))
      by (rewrite H3, links_app, links_set_state; done).
    rewrite L, K. rewrite Eq in C3, C4, C5. rewrite len_app in C3, C5. rewrite links_app in C4, C5.
    destruct (H5 _ _ C1 C3) as [-> ->].
    rewrite (proj1 (H6 _) C2), (proj1 (proj2 (H6 _)) C4), (proj2 (proj2 (H6 _)) C5).
    split_and!; f_equal; lia.
Qed.

Lemma task_retire_ok t s L :
  StronglySorted (key_le t_priority) (ready_head s) ->
  StronglySorted (key_le t_sleep_until) (timer_head s) ->
  waiting (stats s) = wrap 32 (len (ready_head s)) ->
  running (stats s) = wrap 32 (len (running_head s)) ->
  sleeping (stats s) = wrap 32 (len (timer_head s)) ->
  L = links (ready_head s) + links (timer_head s) + links (running_head s) ->
  linked (stats s) = wrap 32 (tail_len t + L) ->
  total (stats s) = wrap 32 (1 + tail_len t + len (ready_head s) + len (timer_head s)
                             + len (running_head s) + L) ->
  sched_ok (task_retire_locked t s).
Proof.
  intros Hr Ht C1 C2 C3 HL C4 C5. unfold task_retire_locked.
  destruct (t_link t) as [c|] eqn:El.
  - rewrite (tail_len_child _ _ El) in C4, C5.
    split; cbn [ready_head timer_head running_head]; [by apply insert_by_sorted|done|].
    unfold accounts. cbn [ready_head timer_head running_head stats waiting running sleeping linked total add_stats].
    unfold ready_insert.
    rewrite C1, C2, C3, C4, C5, !u32_add_wrap, len_insert, links_insert, set_state_tail by lia.
    split_and!; f_equal; lia.
  - assert (tail_len t = 0) as Hz by (unfold tail_len; by rewrite El).
    rewrite Hz in C4, C5.
    split; cbn [ready_head timer_head running_head]; [done|done|].
    unfold accounts. cbn [ready_head timer_head running_head stats waiting running sleeping linked total add_stats].
    rewrite C1, C2, C3, C4, C5, !u32_add_wrap by lia. split_and!; f_equal; lia.
Qed.

Lemma task_submit_ok now t s : sched_ok s -> sched_ok (task_submit now t s).
Proof.
  intros [Hr Ht Hc]. unfold task_submit.
  set (t' := if kind_is TASK_PERIODIC t && _ then _ else _). clearbody t'. cbn zeta.
  unfold accounts in Hc. cbn zeta in Hc. destruct Hc as (C1 & C2 & C3 & C4 & C5).
  fold (tail_len t').
  destruct (kind_is TASK_DEFERRED t' && (now <? t_sleep_until t'));
    split; cbn [ready_head timer_head running_head];
    try (by apply insert_by_sorted); try done;
    unfold accounts;
    cbn [ready_head timer_head running_head stats waiting running sleeping linked total add_stats];
    unfold ready_insert, timer_insert;
    rewrite C1, C2, C3, C4, C5, !u32_add_wrap, len_insert, links_insert, set_state_tail by lia;
    split_and!; f_equal; lia.
Qed.

Lemma task_finish_ok now1 now2 sd t t0 s :
  sched_ok s -> find_id (t_id t) (running_head s) = Some t0 -> t_link t = t_link t0 ->
  (t_state t = TASK_FATAL -> t_link t = None) ->
  sched_ok (task_finish now1 now2 sd t s).1.1.
Proof.
  intros [Hr Ht Hc] Hf Hl Hfatal. unfold task_finish.
  destruct (unlink_counts _ _ _ Hf) as [U1 U2].
  assert (Htl : tail_len t0 = tail_len t) by (unfold tail_len; by rewrite Hl).
  rewrite Htl in U2.
  unfold accounts in Hc. cbn zeta in Hc. destruct Hc as (C1 & C2 & C3 & C4 & C5).
  set (s1 := mk_sched _ _ (unlink_or_keep _ _) _ _).
  assert (R1 : sched_ok (task_retire_locked t s1)).
  { apply (task_retire_ok t s1 _) with (6 := eq_refl); unfold s1;
      cbn [ready_head timer_head running_head stats waiting running sleeping linked total add_stats];
      rewrite ?C1, ?C2, ?C3, ?C4, ?C5, ?u32_add_wrap, ?U1, ?U2 by lia; try done; f_equal; lia. }
  assert (INS : forall key u, tail_len u = tail_len t ->
    accounts (mk_sched (insert_by key u (ready_head s1)) (timer_head s1) (running_head s1)
       (add_stats 1 0 0 0 0 0 0 (stats s1)) (task_next_id s1)) /\
    accounts (mk_sched (ready_head s1) (insert_by key u (timer_head s1)) (running_head s1)
       (add_stats 0 0 1 0 0 0 0 (stats s1)) (task_next_id s1))).
  { intros key u Hu. unfold accounts, s1.
    cbn [ready_head timer_head running_head stats waiting running sleeping linked total add_stats].
    rewrite C1, C2, C3, C4, C5, !u32_add_wrap, U1, U2, !len_insert, !links_insert, Hu by lia.
    split_and!; f_equal; lia. }
  destruct (t_state t) eqn:Es; cbn [fst].
  - split; [by apply insert_by_sorted|done|by apply INS].
  - done.
  - split; [done|by apply insert_by_sorted|by apply INS].
  - destruct (kind_is TASK_PERIODIC t && negb sd && negb (t_cancelled t)); [|done].
    split; [done|by apply insert_by_sorted|].
    apply INS. by rewrite set_sleep_tail, set_state_tail.
  - split; [done|done|]. unfold accounts, s1.
    cbn [ready_head timer_head running_head stats waiting running sleeping linked total add_stats].
    assert (Hz : tail_len t = 0) by (unfold tail_len; by rewrite Hfatal).
    rewrite C1, C2, C3, C4, C5, !u32_add_wrap, U1, U2, Hz by lia. split_and!; f_equal; lia.
Qed.

Lemma task_assign_ok now1 now2 type bg s : sched_ok s -> sched_ok (task_assign now1 now2 type bg s).1.
Proof.
  intros H%(timer_promote_ok now1). unfold task_assign.
  destruct (timer_promote now1 s) as [R T U st nid]. clear s.
  destruct H as [Hr Ht (C1 & C2 & C3 & C4 & C5)]. cbn [ready_head timer_head running_head stats] in *.
  pose proof (assign_scan_spec type bg R) as Ha.
  destruct (assign_scan type bg R) as [[t R']|]; [|by split].
  destruct Ha as (a & b & -> & -> & _). rewrite len_app, len_cons in C1, C5.
  rewrite links_app in C4, C5. cbn [links foldr] in C4, C5. fold (links b) in C4, C5.
  split; cbn [fst ready_head timer_head running_head]; [by eapply sorted_unlink|done|].
  unfold accounts.
  cbn [fst ready_head timer_head running_head stats waiting running sleeping linked total add_stats].
  cbn [links foldr]. fold (links (a ++ b)) (links U).
  rewrite C1, C2, C3, C4, C5, !u32_add_wrap, len_cons, len_app, links_app, set_run_tail.
  split_and!; f_equal; lia.
Qed.

(** Cancelling keeps the counters right when the cancelled task has no
    continuation. *)
Lemma task_cancel_ok h s :
  sched_ok s ->
  (forall t, find_id h (ready_head s) = Some t \/ find_id h (timer_head s) = Some t -> t_link t = None) ->
  sched_ok (task_cancel h s).1.
Proof.
  intros [Hr Ht (C1 & C2 & C3 & C4 & C5)] Hl. unfold task_cancel.
  destruct (h =? TASK_HANDLE_NONE); [by split|].
  assert (Z0 : forall t, t_link t = None -> tail_len t = 0) by (intros t E; unfold tail_len; by rewrite E).
  destruct (find_id h (ready_head s)) as [t|] eqn:E1.
  { destruct (unlink_counts _ _ _ E1) as [U1 U2].
    rewrite (Z0 t (Hl t (or_introl eq_refl))) in U2.
    split; cbn [fst ready_head timer_head running_head]; [by apply unlink_sorted|done|].
    unfold accounts.
    cbn [fst ready_head timer_head running_head stats waiting running sleeping linked total add_stats].
    rewrite C1, C2, C3, C4, C5, !u32_add_wrap, U1, U2. split_and!; f_equal; lia. }
  destruct (find_id h (timer_head s)) as [t|] eqn:E2.
  { destruct (unlink_counts _ _ _ E2) as [U1 U2].
    rewrite (Z0 t (Hl t (or_intror eq_refl))) in U2.
    split; cbn [fst ready_head timer_head running_head]; [done|by apply unlink_sorted|].
    unfold accounts.
    cbn [fst ready_head timer_head running_head stats waiting running sleeping linked total add_stats].
    rewrite C1, C2, C3, C4, C5, !u32_add_wrap, U1, U2. split_and!; f_equal; lia. }
  destruct (flag_cancelled_counts h (running_head s)) as [F1 F2].
  split; cbn [fst ready_head timer_head running_head]; [done|done|].
  unfold accounts. cbn [fst ready_head timer_head running_head stats]. by rewrite F1, F2.
Qed.

Lemma task_add_persist_ok name prio now1 now2 spawned s :
  sched_ok s -> sched_ok (task_add_persist name prio now1 now2 spawned s).1.
Proof.
  intros [Hr Ht (C1 & C2 & C3 & C4 & C5)]. unfold task_add_persist, task_create.
  cbn [task_alloc_id_locked]. cbn zeta.
  destruct spawned; (split; cbn [fst ready_head timer_head running_head]; [done|done|]);
    unfold accounts, unlink_or_keep; cbn [list_unlink t_id set_run set_kind]; rewrite ?Z.eqb_refl;
    cbn [fst ready_head timer_head running_head stats waiting running sleeping linked total add_stats];
    cbn [links foldr]; fold (links (running_head s));
    rewrite C1, C2, C3, C4, C5, !u32_add_wrap, ?len_cons; unfold tail_len; simpl;
    split_and!; f_equal; lia.
Qed.

(** ** The scheduler as a transition system *)

(** One critical section. Cancelling a queued task that has continuations and
    failing one that has are left out: both lose count of the continuations
    (see [task_cancel_loses_continuations]). *)
Inductive task_step : sched -> sched -> Prop :=
  | step_submit now t s : task_step s (task_submit now t s)
  | step_create name type prio now s : task_step s (task_create name type prio now s).2
  | step_persist name prio now1 now2 spawned s :
      task_step s (task_add_persist name prio now1 now2 spawned s).1
  | step_assign now1 now2 type bg s : task_step s (task_assign now1 now2 type bg s).1
  | step_wait timeout now1 now2 now3 s :
      task_wait_ms timeout now1 now2 s = None -> task_step s (task_wait timeout now1 now2 now3 s s)
  | step_woken timeout now1 now2 now3 s0 s :
      task_wait_ms timeout now1 now2 s0 <> None -> task_step s (task_wait timeout now1 now2 now3 s0 s)
  | step_cancel h s :
      (forall t, find_id h (ready_head s) = Some t \/ find_id h (timer_head s) = Some t ->
        t_link t = None) ->
      task_step s (task_cancel h s).1
  | step_finish now1 now2 sd id t0 state wake s :
      (* the callback of the running task [t0] chose its next state *)
      find_id id (running_head s) = Some t0 ->
      (state = TASK_FATAL -> t_link t0 = None) ->
      task_step s (task_finish now1 now2 sd (set_sleep wake (set_state state t0)) s).1.1.

Inductive reachable : sched -> Prop :=
  | reach_init : reachable task_statics
  | reach_step s s' : reachable s -> task_step s s' -> reachable s'.

Lemma find_id_id h q t : find_id h q = Some t -> t_id t = h.
Proof. intros H%List.find_some. destruct H as [_ H]. by apply Z.eqb_eq. Qed.

Lemma task_step_ok s s' : task_step s s' -> sched_ok s -> sched_ok s'.
Proof.
  intros Hst H. destruct Hst.
  - by apply task_submit_ok.
  - by destruct H.
  - by apply task_add_persist_ok.
  - by apply task_assign_ok.
  - unfold task_wait. case_step; by apply timer_promote_ok.
  - unfold task_wait. case_step; [by apply timer_promote_ok|done].
  - by apply task_cancel_ok.
  - eapply task_finish_ok; [done| | |]; destruct t0; simpl in *.
    + pose proof (find_id_id _ _ _ H0) as Hid. simpl in Hid. subst. exact H0.
    + done.
    + done.
Qed.

(** ** Properties *)


(** Two submissions and an assignment. *)
Definition sample_task (id prio : Z) : task_t :=
  mk_task (lit "sample") TASK_ANY TASK_ONCE TASK_BACKGROUND prio TASK_WAITING 0 0 None id false 100 0 0.

Definition sample_sched : sched :=
  (task_assign 100 100 TASK_THREAD true
     (task_submit 100 (sample_task 2 10) (task_submit 100 (sample_task 1 50) task_statics))).1.


(** a worker gets the eligible task of the best priority, and among equals
    the one that has waited longest: after promoting the timers that are due,
    the task handed out is the first eligible one of the ready queue, everything
    before it is ineligible, everything eligible after it has no better
    priority, the rest of the queue keeps its order, and no task is handed out
    only when none is eligible. *)
Theorem task_assign_best (now1 now2 : Z) (type : task_type_t) (bg : bool) (s : sched)
    (Hok : sched_ok s) :
  let s1 := timer_promote now1 s in
  match task_assign now1 now2 type bg s with
  | (s', Some t') => exists a t b,
      ready_head s1 = a ++ t :: b /\ ready_head s' = a ++ b /\
      t' = set_run now2 (wrap 32 (t_run_count t + 1)) t /\
      eligible type bg t = true /\ Forall (fun x => eligible type bg x = false) a /\
      Forall (fun x => t_priority t <= t_priority x) b /\
      running_head s' = t' :: running_head s
  | (s', None) => Forall (fun x => eligible type bg x = false) (ready_head s1) /\ s' = s1
  end.
Proof.
  cbn zeta. unfold task_assign. pose proof (timer_promote_ok now1 s Hok) as [Hr _ _].
  assert (Hrun : running_head (timer_promote now1 s) = running_head s)
    by (unfold timer_promote; by destruct (timer_promote_loop _ _ _ _) as [[? ?] ?]).
  pose proof (assign_scan_spec type bg (ready_head (timer_promote now1 s))) as Ha.
  destruct (assign_scan _ _ _) as [[t R']|]; [|done].
  destruct Ha as (a & b & E & -> & H1 & H2). exists a, t, b. split_and!; try done.
  - rewrite E in Hr. apply sorted_suffix in Hr. by inversion Hr.
  - cbn [running_head]. by rewrite Hrun.
Qed.

Lemma task_assign_best_witness :
  (task_assign 100 100 TASK_THREAD false
     (task_submit 100 (sample_task 2 10) (task_submit 100 (sample_task 1 50) task_statics))).2 = None.
Proof.
  pose proof (task_assign_best 100 100 TASK_THREAD false
     (task_submit 100 (sample_task 2 10) (task_submit 100 (sample_task 1 50) task_statics))) as H.
  cbn zeta in H. destruct (task_assign _ _ _ _ _) as [s' [t'|]] eqn:E; [|reflexivity].
  destruct H as (a & t & b & _ & _ & _ & H & _).
  - apply task_submit_ok, task_submit_ok. split; [constructor|constructor|vm_compute; tauto].
  - vm_compute in E. discriminate.
Defined.

(** promotion moves exactly the tasks whose wake time has come: a sleeping
    task is never run early and never left behind, and the promoted ones are
    WAITING in the ready queue. *)
Theorem timer_promote_exact (now : Z) (s : sched) (Hok : sched_ok s) :
  timer_head (timer_promote now s) = filter (fun t => now < t_sleep_until t) (timer_head s) /\
  ready_head (timer_promote now s) ≡ₚ
    map (set_state TASK_WAITING) (filter (fun t => t_sleep_until t <= now) (timer_head s))
    ++ ready_head s.
Proof.
  destruct Hok as [_ Ht _]. unfold timer_promote.
  destruct (timer_promote_loop _ _ _ _) as [[timer ready] st] eqn:E.
  destruct (timer_promote_loop_spec _ _ _ _ _ _ _ Ht E) as (due & -> & H1 & H2 & H3 & _).
  cbn [ready_head timer_head]. rewrite H3, !list.filter_app.
  assert (F1 : forall q, Forall (fun t => t_sleep_until t <= now) q ->
     filter (fun t => now < t_sleep_until t) q = [] /\ filter (fun t => t_sleep_until t <= now) q = q).
  { induction 1 as [|t q Hq _ [IH1 IH2]]; [done|].
    rewrite !filter_cons, !decide_False, decide_True by lia. by rewrite IH1, IH2. }
  assert (F2 : forall q, Forall (fun t => now < t_sleep_until t) q ->
     filter (fun t => now < t_sleep_until t) q = q /\ filter (fun t => t_sleep_until t <= now) q = []).
  { induction 1 as [|t q Hq _ [IH1 IH2]]; [done|].
    rewrite !filter_cons, decide_True, decide_False by lia. by rewrite IH1, IH2. }
  destruct (F1 due H1) as [-> ->], (F2 timer H2) as [-> ->]. by rewrite app_nil_r.
Qed.

(** A deferred task and a sleeper: at 105 only the first is due. *)
Definition sample_sleepers : sched :=
  task_submit 100 (set_kind TASK_DEFERRED 0 110 (sample_task 4 7))
    (task_submit 100 (set_kind TASK_DEFERRED 0 103 (sample_task 3 9)) task_statics).

Lemma sched_ok_statics : sched_ok task_statics.
Proof. split; [constructor|constructor|vm_compute; tauto]. Qed.
#[export] Hint Resolve sched_ok_statics task_submit_ok : bm_ok.

Lemma timer_promote_exact_witness :
  map t_id (timer_head (timer_promote 105 sample_sleepers)) = [4] /\
  ready_head (timer_promote 105 sample_sleepers) ≡ₚ
    map (set_state TASK_WAITING) (filter (fun t => t_sleep_until t <= 105) (timer_head sample_sleepers))
    ++ ready_head sample_sleepers.
Proof.
  destruct (timer_promote_exact 105 sample_sleepers) as [-> H].
  - unfold sample_sleepers. auto with bm_ok.
  - split; [vm_compute; reflexivity|exact H].
Defined.

(** The ids on the scheduler's lists. *)
Definition ids (q : list task_t) : list Z := map t_id q.

Lemma unlink_gone h q : NoDup (ids q) -> h ∉ ids (unlink_or_keep h q).
Proof.
  intros Hn. unfold unlink_or_keep. pose proof (list_unlink_spec h q) as H.
  destruct (list_unlink h q) as [q'|].
  - destruct H as (a & t & b & -> & -> & <- & _). unfold ids in *.
    rewrite map_app in *. cbn [map] in Hn. by apply list.NoDup_app in Hn as (_ & Hd & [Hb _]%list.NoDup_cons);
      rewrite elem_of_app; intros [?|?]; [eapply Hd; [done|left]|].
  - destruct H as [H _]. unfold ids. rewrite list_elem_of_fmap. intros (t & -> & Ht).
    rewrite List.Forall_forall in H. by apply (H t); [apply list_elem_of_In|].
Qed.

Lemma find_id_None h q : find_id h q = None <-> h ∉ ids q.
Proof.
  unfold find_id, ids. split.
  - intros H. rewrite list_elem_of_fmap. intros (t & -> & Ht%list_elem_of_In).
    eapply List.find_none in H; [|done]. by rewrite Z.eqb_refl in H.
  - intros H. destruct (List.find _ _) as [t|] eqn:E; [|done].
    apply List.find_some in E as [Ht Hi]. destruct H. breflect. subst.
    apply list_elem_of_fmap. exists t. split; [done|]. by apply list_elem_of_In.
Qed.

Lemma flag_cancelled_ids h q : ids (flag_cancelled h q) = ids q.
Proof.
  induction q as [|t q IH]; simpl; [done|]. destruct (t_id t =? h); simpl; [by destruct t|].
  by f_equal.
Qed.

(** [task_cancel] answers true exactly when the handle is on the ready or
    the timer queue, and the task is then on neither: it will never run. When
    it answers false the queues are untouched and a running task with that
    handle is flagged, so its next TASK_ENDED is terminal even if it is
    periodic. *)
Theorem task_cancel_correct (h : Z) (s : sched)
    (Hn : NoDup (ids (ready_head s ++ timer_head s))) (Hh : h <> TASK_HANDLE_NONE) :
  match task_cancel h s with
  | (s', true) => h ∈ ids (ready_head s ++ timer_head s) /\
      h ∉ ids (ready_head s' ++ timer_head s') /\ running_head s' = running_head s
  | (s', false) => h ∉ ids (ready_head s ++ timer_head s) /\
      ready_head s' = ready_head s /\ timer_head s' = timer_head s /\ stats s' = stats s /\
      ids (running_head s') = ids (running_head s) /\
      forall t, find_id h (running_head s) = Some t ->
        find_id h (running_head s') = Some (set_cancelled t) /\
        forall now1 now2 sd s2, t_state t = TASK_ENDED ->
          (task_finish now1 now2 sd (set_cancelled t) s2).2 = true
  end.
Proof.
  unfold task_cancel. rewrite (proj2 (Z.eqb_neq _ _) Hh).
  unfold ids in *. rewrite !map_app in *. apply list.NoDup_app in Hn as (Hr & Hd & Ht).
  destruct (find_id h (ready_head s)) as [t|] eqn:E1.
  { assert (h ∈ ids (ready_head s)) as Hin.
    { destruct (decide (h ∈ ids (ready_head s))) as [|Hx]; [done|]. apply find_id_None in Hx. congruence. }
    cbn [ready_head timer_head running_head]. rewrite map_app, !elem_of_app. split_and!; [by left| |done].
    intros [H|H]; [by apply (unlink_gone h (ready_head s))|by apply (Hd h)]. }
  apply find_id_None in E1 as N1.
  destruct (find_id h (timer_head s)) as [t|] eqn:E2.
  { assert (h ∈ ids (timer_head s)) as Hin.
    { destruct (decide (h ∈ ids (timer_head s))) as [|Hx]; [done|]. apply find_id_None in Hx. congruence. }
    cbn [ready_head timer_head running_head]. rewrite map_app, !elem_of_app. split_and!; [by right| |done].
    intros [H|H]; [done|by apply (unlink_gone h (timer_head s))]. }
  apply find_id_None in E2 as N2.
  cbn [ready_head timer_head running_head stats]. rewrite elem_of_app.
  split_and!; try done; [by intros [?|?]|apply flag_cancelled_ids|].
  intros t Hf. split.
  - clear -Hf. induction (running_head s) as [|x q IH]; [done|].
    unfold find_id in *. simpl in *. destruct (t_id x =? h) eqn:E; simpl.
    + injection Hf as ->. destruct t. simpl in *. by rewrite E.
    + rewrite E. auto.
  - intros now1 now2 sd s2 He. unfold task_finish. destruct t. cbn in He. subst.
    cbn. by rewrite andb_false_r.
Qed.

Lemma task_cancel_correct_witness : (task_cancel 3 sample_sleepers).2 = true.
Proof.
  pose proof (task_cancel_correct 3 sample_sleepers) as H.
  destruct (task_cancel 3 sample_sleepers) as [s' [|]] eqn:E; [reflexivity|].
  destruct H as [H _].
  - apply (bool_decide_unpack (NoDup (ids (ready_head sample_sleepers ++ timer_head sample_sleepers)))).
    vm_compute. exact I.
  - discriminate.
  - destruct H. apply list_elem_of_In. vm_compute. tauto.
Defined.

(** cancelling a queued task frees its continuations without giving back
    their counts: the counters keep the k continuations as linked and total
    although no list holds them any more. *)
Theorem task_cancel_loses_continuations (h : Z) (s : sched) (t : task_t) (k : Z) :
  sched_ok s -> find_id h (ready_head s) = Some t -> h <> TASK_HANDLE_NONE ->
  tail_len t = k -> 0 < k < 2 ^ 32 ->
  let s' := (task_cancel h s).1 in
  total (stats s') = wrap 32 (len (ready_head s') + len (timer_head s') + len (running_head s')
     + (links (ready_head s') + links (timer_head s') + links (running_head s')) + k) /\
  ~ accounts s'.
Proof.
  intros [Hr Ht (C1 & C2 & C3 & C4 & C5)] Hf Hh Hk Hlt. unfold task_cancel.
  rewrite (proj2 (Z.eqb_neq _ _) Hh), Hf.
  destruct (unlink_counts _ _ _ Hf) as [U1 U2]. cbn zeta.
  unfold accounts.
  cbn [fst ready_head timer_head running_head stats waiting running sleeping linked total add_stats].
  rewrite C4, C5, !u32_add_wrap, U1, U2, Hk. split; [f_equal; lia|].
  intros (_ & _ & _ & H & _). clear -H Hlt. revert H.
  set (a := links (ready_head s)). set (b := links (timer_head s)). set (c := links (running_head s)).
  unfold wrap. intros H.
  assert (E : (a + b + c + 0 - (a - k + b + c)) mod 2 ^ 32 = 0)
    by (rewrite Zminus_mod, H, Z.sub_diag; done).
  replace (a + b + c + 0 - (a - k + b + c)) with k in E by lia.
  rewrite Z.mod_small in E; lia.
Qed.

Lemma task_cancel_loses_continuations_witness :
  ~ accounts (task_cancel 1 (task_submit 100 (set_link (Some (sample_task 2 5)) (sample_task 1 5))
                               task_statics)).1.
Proof.
  refine (proj2 (task_cancel_loses_continuations 1 _ (set_link (Some (sample_task 2 5)) (sample_task 1 5))
    1 _ _ _ _ _)).
  - auto with bm_ok.
  - vm_compute. reflexivity.
  - discriminate.
  - vm_compute. reflexivity.
  - split; reflexivity.
Defined.

(** a periodic task whose iteration ended, neither cancelled nor caught by
    shutdown, goes back to sleep and is not freed, for at least a second when
    its interval is not zero. *)
Theorem task_finish_periodic (now : Z) (t : task_t) (s : sched) :
  t_kind t = TASK_PERIODIC -> t_state t = TASK_ENDED -> t_cancelled t = false ->
  0 <= t_interval_ms t ->
  exists t', task_finish now now false t s =
    (mk_sched (ready_head s) (timer_insert t' (timer_head s)) (unlink_or_keep (t_id t) (running_head s))
       (add_stats 0 0 1 0 0 0 0 (add_stats 0 (-1) 0 0 0 0 0 (stats s))) (task_next_id s),
     TASK_ENDED, false) /\
    t_id t' = t_id t /\ t_state t' = TASK_SLEEPING /\ t_kind t' = TASK_PERIODIC /\
    (0 < t_interval_ms t ->
     t_sleep_until t' = now + Z.max 1 (t_interval_ms t / 1000)).
Proof.
  intros Hk Hs Hc Hi. unfold task_finish. rewrite Hs, Hc.
  unfold kind_is. rewrite bool_decide_eq_true_2 by done. cbn [negb andb].
  eexists. split; [reflexivity|]. split_and!; [by destruct t..|].
  intros Hp. destruct t as [? ? ? ? ? ? ? ms ? ? ? ? ? ?]. cbn in *. unfold periodic_wake.
  destruct (ms <? 1000) eqn:E; breflect.
  - zcond. cbn. rewrite Z.div_small by lia. lia.
  - rewrite andb_false_r. pose proof (Z.div_le_lower_bound ms 1000 1). lia.
Qed.

Lemma task_finish_periodic_witness :
  exists t', (task_finish 100 100 false
      (set_state TASK_ENDED (set_kind TASK_PERIODIC 250 0 (sample_task 1 5))) task_statics).1.1 =
    mk_sched [] [t'] [] (add_stats 0 0 1 0 0 0 0 (add_stats 0 (-1) 0 0 0 0 0 (stats task_statics))) 1 /\
    t_sleep_until t' = 101.
Proof.
  destruct (task_finish_periodic 100
    (set_state TASK_ENDED (set_kind TASK_PERIODIC 250 0 (sample_task 1 5))) task_statics)
    as (t' & H & _ & _ & _ & Hw); [reflexivity|reflexivity|reflexivity|vm_compute; discriminate|].
  exists t'. rewrite H. split; [reflexivity|]. apply Hw. reflexivity.
Defined.

(** ** What the scheduler promises its clients *)

(** The contract of the deferred queue: a submission returns a handle never
    issued before and queues it; a cancellation answers true exactly when the
    task was still queued, and takes it off. [dq_room n] is well-formedness with
    at least [n] handles left before the 64-bit id source wraps. *)
Class DeferredQueue (Q : Type) := {
  dq_add : cstr -> Z -> Z -> Q -> Q * Z;
  dq_cancel : Z -> Q -> Q * bool;
  dq_queued : Z -> Q -> Prop;
  dq_issued : Z -> Q -> Prop;
  dq_room : nat -> Q -> Prop;
  dq_queued_dec h q : Decision (dq_queued h q);
  dq_room_less n q : dq_room (S n) q -> dq_room n q;
  dq_issued_queued h q n : dq_room n q -> dq_queued h q -> dq_issued h q;
  dq_add_law name delay now q n : dq_room (S n) q ->
    let '(q', h) := dq_add name delay now q in
    dq_room n q' /\ h <> TASK_HANDLE_NONE /\ ~ dq_issued h q /\
    (forall h', dq_issued h' q' <-> h' = h \/ dq_issued h' q) /\
    (forall h', dq_queued h' q' <-> h' = h \/ dq_queued h' q);
  dq_cancel_law h q n : dq_room n q -> h <> TASK_HANDLE_NONE ->
    let '(q', b) := dq_cancel h q in
    dq_room n q' /\ (b = true <-> dq_queued h q) /\
    (forall h', dq_issued h' q' <-> dq_issued h' q) /\
    (forall h', dq_queued h' q' <-> h' <> h /\ dq_queued h' q)
}.

Record sched_room (n : nat) (s : sched) : Prop := {
  room_nodup : NoDup (ids (ready_head s ++ timer_head s));
  room_issued : forall h, h ∈ ids (ready_head s ++ timer_head s) -> 0 < h < task_next_id s;
  room_left : 0 < task_next_id s /\ task_next_id s + Z.of_nat n < 2 ^ 64
}.

Lemma ids_insert key t q : ids (insert_by key t q) ≡ₚ t_id t :: ids q.
Proof. unfold ids. by rewrite insert_by_perm. Qed.

Lemma ids_submit now t s :
  ids (ready_head (task_submit now t s) ++ timer_head (task_submit now t s)) ≡ₚ
  t_id t :: ids (ready_head s ++ timer_head s).
Proof.
  unfold task_submit. set (t' := if kind_is TASK_PERIODIC t && _ then _ else _).
  assert (Hid : t_id t' = t_id t) by (unfold t'; by case_step; destruct t).
  rewrite <- Hid. clearbody t'. clear Hid.
  destruct (kind_is TASK_DEFERRED t' && (now <? t_sleep_until t')); cbn [ready_head timer_head];
    unfold ids in *; rewrite !map_app; fold (ids (ready_head s)) (ids (timer_head s)).
  - unfold timer_insert. fold (ids (insert_by t_sleep_until (set_state TASK_SLEEPING t') (timer_head s))).
    rewrite ids_insert. rewrite <- Permutation_middle. by destruct t'.
  - unfold ready_insert. fold (ids (insert_by t_priority (set_state TASK_WAITING t') (ready_head s))).
    rewrite ids_insert. by destruct t'.
Qed.

Lemma unlink_ids h q : NoDup (ids q) -> forall h', h' ∈ ids (unlink_or_keep h q) <-> h' <> h /\ h' ∈ ids q.
Proof.
  intros Hn h'. pose proof (unlink_gone h q Hn) as Hg. unfold unlink_or_keep in *.
  pose proof (list_unlink_spec h q) as H. destruct (list_unlink h q) as [q'|].
  - destruct H as (a & t & b & -> & -> & <- & _). unfold ids in *.
    rewrite !map_app in *. cbn [map] in *. set_solver.
  - destruct H as [_ H]. apply find_id_None in H. set_solver.
Qed.

Lemma unlink_nodup h q : NoDup (ids q) -> NoDup (ids (unlink_or_keep h q)).
Proof.
  intros Hn. unfold unlink_or_keep. pose proof (list_unlink_spec h q) as H.
  destruct (list_unlink h q) as [q'|]; [|done].
  destruct H as (a & t & b & -> & -> & _). unfold ids in *. rewrite !map_app in *. cbn [map] in Hn.
  rewrite <- Permutation_middle in Hn. by apply list.NoDup_cons in Hn as [_ ?].
Qed.

Definition sched_add (name : cstr) (delay now : Z) (s : sched) : sched * Z :=
  task_add_deferred name TASK_ANY 200 delay now now now now now s.

Lemma ids_app a b : ids (a ++ b) = ids a ++ ids b.
Proof. apply map_app. Qed.

(** The two queues after a cancellation, by the cases of [task_cancel]. *)
Lemma task_cancel_queues h s n :
  sched_room n s -> h <> TASK_HANDLE_NONE ->
  sched_room n (task_cancel h s).1 /\
  ((task_cancel h s).2 = true <-> h ∈ ids (ready_head s ++ timer_head s)) /\
  (forall h', h' ∈ ids (ready_head (task_cancel h s).1 ++ timer_head (task_cancel h s).1) <->
     h' <> h /\ h' ∈ ids (ready_head s ++ timer_head s)) /\
  task_next_id (task_cancel h s).1 = task_next_id s.
Proof.
  intros [Hn Hi Hl] Hh. unfold task_cancel. rewrite (proj2 (Z.eqb_neq _ _) Hh).
  rewrite ids_app in *. apply list.NoDup_app in Hn as (Hr & Hd & Ht).
  assert (Hin : forall q t, find_id h q = Some t -> h ∈ ids q).
  { intros q t E. destruct (decide (h ∈ ids q)) as [|Hx]; [done|]. apply find_id_None in Hx. congruence. }
  destruct (find_id h (ready_head s)) as [t|] eqn:E1; [|destruct (find_id h (timer_head s)) as [t|] eqn:E2];
    cbn [fst snd ready_head timer_head task_next_id].
  - pose proof (Hin _ _ E1) as Hh1. pose proof (unlink_ids h _ Hr) as U.
    split; [|rewrite !ids_app; split_and!; [set_solver|set_solver|done]].
    split; cbn [ready_head timer_head task_next_id]; rewrite ?ids_app; [|set_solver|done].
    apply list.NoDup_app. split_and!; [by apply unlink_nodup|set_solver|done].
  - pose proof (Hin _ _ E2) as Hh2. pose proof (unlink_ids h _ Ht) as U. apply find_id_None in E1.
    split; [|rewrite !ids_app; split_and!; [set_solver|set_solver|done]].
    split; cbn [ready_head timer_head task_next_id]; rewrite ?ids_app; [|set_solver|done].
    apply list.NoDup_app. split_and!; [done|set_solver|by apply unlink_nodup].
  - apply find_id_None in E1, E2.
    split; [|rewrite !ids_app; split_and!; [set_solver|set_solver|done]].
    split; cbn [ready_head timer_head task_next_id]; rewrite ?ids_app; [|set_solver|done].
    by apply list.NoDup_app.
Qed.

Lemma deferred_law name type priority delay n0 n1 n2 n3 n4 s n :
  sched_room (S n) s ->
  let r := task_add_deferred name type priority delay n0 n1 n2 n3 n4 s in
  sched_room n r.1 /\ r.2 = task_next_id s /\ task_next_id r.1 = task_next_id s + 1 /\
  (forall h', h' ∈ ids (ready_head r.1 ++ timer_head r.1)
     <-> h' = task_next_id s \/ h' ∈ ids (ready_head s ++ timer_head s)).
Proof.
  intros [Hn Hi Hl]. cbn zeta. unfold task_add_deferred, task_create, task_alloc_id_locked.
  assert (Hw : wrap 64 (task_next_id s + 1) = task_next_id s + 1) by (apply Z.mod_small; lia).
  rewrite Hw, (proj2 (Z.eqb_neq _ 0)) by lia.
  set (t := set_kind _ _ _ _). set (s0 := mk_sched _ _ _ _ _).
  assert (Ht : t_id t = task_next_id s) by done.
  pose proof (ids_submit n4 t s0) as P. rewrite Ht in P.
  assert (Hnid : task_next_id (task_submit n4 t s0) = task_next_id s + 1).
  { unfold task_submit. by destruct (kind_is TASK_DEFERRED _ && _). }
  cbn [fst snd]. unfold s0 in P at 3 4. cbn [ready_head timer_head] in P.
  assert (Q : forall h', h' ∈ ids (ready_head (task_submit n4 t s0) ++ timer_head (task_submit n4 t s0))
     <-> h' = task_next_id s \/ h' ∈ ids (ready_head s ++ timer_head s)).
  { intros h'. rewrite P. apply elem_of_cons. }
  split_and!; [|done|done|exact Q]. split.
  - rewrite P. apply list.NoDup_cons. split; [|done]. intros H%Hi. lia.
  - intros h. rewrite Q, Hnid. intros [->|H%Hi]; lia.
  - rewrite Hnid. lia.
Qed.

Lemma sched_add_law name delay now s n :
  sched_room (S n) s ->
  sched_room n (sched_add name delay now s).1 /\
  (sched_add name delay now s).2 = task_next_id s /\
  task_next_id (sched_add name delay now s).1 = task_next_id s + 1 /\
  (forall h', h' ∈ ids (ready_head (sched_add name delay now s).1 ++ timer_head (sched_add name delay now s).1)
     <-> h' = task_next_id s \/ h' ∈ ids (ready_head s ++ timer_head s)).
Proof. apply deferred_law. Qed.

(** A worker takes a task off the queues, or promotes timers and takes nothing. *)
Lemma promote_ids now s :
  ids (ready_head (timer_promote now s) ++ timer_head (timer_promote now s)) ≡ₚ
  ids (ready_head s ++ timer_head s).
Proof.
  unfold timer_promote. assert (H : forall t r st, let x := timer_promote_loop now t r st in
    ids (x.1.2 ++ x.1.1) ≡ₚ ids (r ++ t)).
  { induction t as [|t q IH]; intros r st; [done|]. cbn [timer_promote_loop]. case_step; [|done].
    cbn zeta in IH |- *. rewrite IH, !ids_app. unfold ready_insert. rewrite ids_insert.
    change (ids (t :: q)) with (t_id t :: ids q). rewrite <- Permutation_middle. by destruct t. }
  specialize (H (timer_head s) (ready_head s) (stats s)).
  by destruct (timer_promote_loop _ _ _ _) as [[timer ready] st].
Qed.

Lemma assign_next now1 now2 type bg s :
  task_next_id (task_assign now1 now2 type bg s).1 = task_next_id s.
Proof.
  unfold task_assign. assert (Hid : task_next_id (timer_promote now1 s) = task_next_id s)
    by (unfold timer_promote; by destruct (timer_promote_loop _ _ _ _) as [[? ?] ?]).
  by destruct (assign_scan _ _ _) as [[t r]|].
Qed.

Lemma assign_queues now1 now2 type bg s n :
  sched_room n s ->
  let r := task_assign now1 now2 type bg s in
  sched_room n r.1 /\
  match r.2 with
  | Some t => t_id t ∈ ids (ready_head s ++ timer_head s) /\
      forall h, h ∈ ids (ready_head r.1 ++ timer_head r.1) <-> h <> t_id t /\ h ∈ ids (ready_head s ++ timer_head s)
  | None => forall h, h ∈ ids (ready_head r.1 ++ timer_head r.1) <-> h ∈ ids (ready_head s ++ timer_head s)
  end.
Proof.
  intros [Hn Hi Hl]. cbn zeta. unfold task_assign. pose proof (promote_ids now1 s) as Hp.
  assert (Hid : task_next_id (timer_promote now1 s) = task_next_id s)
    by (unfold timer_promote; by destruct (timer_promote_loop _ _ _ _) as [[? ?] ?]).
  pose proof (assign_scan_spec type bg (ready_head (timer_promote now1 s))) as Ha.
  set (s1 := timer_promote now1 s) in *. clearbody s1. rewrite <- Hp in Hn.
  destruct (assign_scan _ _ _) as [[t R']|]; cbn [fst snd].
  - destruct Ha as (a & b & E & -> & _). set (t' := set_run _ _ _). assert (Et : t_id t' = t_id t) by (by destruct t).
    cbn [ready_head timer_head task_next_id]. rewrite Et.
    assert (P : ids (ready_head s1 ++ timer_head s1) ≡ₚ t_id t :: ids ((a ++ b) ++ timer_head s1)).
    { rewrite E. unfold ids. rewrite !map_app. cbn [map]. by rewrite <- Permutation_middle. }
    rewrite P in Hn. apply list.NoDup_cons in Hn as [Hx Hn]. rewrite P in Hp.
    assert (Hq : forall h, h ∈ ids ((a ++ b) ++ timer_head s1) <-> h <> t_id t /\ h ∈ ids (ready_head s ++ timer_head s)).
    { intros h. rewrite <- Hp, elem_of_cons. split; [|tauto]. intros Hh. split; [|by right]. by intros ->. }
    split_and!; [split; cbn [ready_head timer_head task_next_id]|by rewrite <- Hp; left|done]; [done| |by rewrite Hid].
    intros h [_ Hh]%Hq. rewrite Hid. by apply Hi.
  - split; [|intros h; by rewrite Hp]. split; [done| |by rewrite Hid]. intros h Hh. rewrite Hid. apply Hi. by rewrite <- Hp.
Qed.

#[export] Program Instance sched_deferred_queue : DeferredQueue sched := {
  dq_add := sched_add;
  dq_cancel := task_cancel;
  dq_queued h s := h ∈ ids (ready_head s ++ timer_head s);
  dq_issued h s := 0 < h < task_next_id s;
  dq_room := sched_room;
  dq_queued_dec h s := decide (h ∈ ids (ready_head s ++ timer_head s))
}.
Next Obligation. intros n s [H1 H2 H3]. split; [done|done|lia]. Qed.
Next Obligation. intros h s n [_ H _] Hq. by apply H. Qed.
Next Obligation.
  intros name delay now s n H. destruct (sched_add_law name delay now s n H) as (H1 & H2 & H3 & H4).
  destruct (sched_add name delay now s) as [s' h]. cbn [fst snd] in *. subst h.
  destruct H as [_ _ Hl]. unfold TASK_HANDLE_NONE. rewrite H3. split_and!; auto; lia.
Qed.
Next Obligation.
  intros h s n H Hh. destruct (task_cancel_queues h s n H Hh) as (H1 & H2 & H3 & H4).
  destruct (task_cancel h s) as [s' b]. cbn [fst snd] in *. rewrite H4. auto.
Qed.
