(* ===== verification/Pool.v ===== *)
(** * The elastic worker pool: core/pool.c, include/pool.h

    Worker threads that take tasks from the scheduler of [Task], are spawned when
    too few of them are idle and retire when they have been idle for long. The pool
    is a step system: a thread is a program counter, and a step of it is one
    critical section (or one stretch of code without a lock), so that every
    interleaving of the workers is a list of events. What the environment answers
    a step comes with the event: the clock, the object a callback leaves, whether
    pthread_create worked. The dedicated threads of persistent tasks are in
    PoolPersist. *)

From S2P Require Import Prelude Task.

(** ** Data *)

Inductive worker_state_t := WORKER_UNUSED | WORKER_RUNNING | WORKER_RETIRING | WORKER_JOINING.

#[export] Instance worker_state_eq_dec : EqDecision worker_state_t.
Proof. solve_decision. Defined.

(** [w_thread] is the position of the thread in the list of all threads created. *)
Record worker_t := mk_worker {
  w_id : Z;
  w_thread : nat;
  w_jobs : Z;
  w_created : Z;
  w_last_active : Z;
  w_wstate : worker_state_t;
  w_idle : bool;
  w_task_id : Z
}.

Definition set_wstate (st : worker_state_t) (w : worker_t) : worker_t :=
  mk_worker (w_id w) (w_thread w) (w_jobs w) (w_created w) (w_last_active w) st (w_idle w) (w_task_id w).

Definition set_idle (b : bool) (w : worker_t) : worker_t :=
  mk_worker (w_id w) (w_thread w) (w_jobs w) (w_created w) (w_last_active w) (w_wstate w) b (w_task_id w).

(** [w->jobs++; w->last_active = now]. *)
Definition job_done (now : Z) (w : worker_t) : worker_t :=
  mk_worker (w_id w) (w_thread w) (wrap 64 (w_jobs w + 1)) (w_created w) now (w_wstate w) (w_idle w) (w_task_id w).

Record pool_cfg_t := mk_pool_cfg {
  max_threads : Z;
  min_threads : Z;
  min_spare : Z;
  max_idle_secs : Z;
  wait_ms : Z;
  reserve : Z;
  bg_budget : Z
}.

Definition pool_cfg_default : pool_cfg_t := mk_pool_cfg 64 1 1 300 1000 8 56.

(** Where a worker thread is in [worker_entry]. [W_join] and [W_rejoin] are inside
    [reap_retired_locked], which lets go of the mutex around its pthread_join:
    the retired worker in slot [k] is about to be joined, or has been. *)
Inductive wpc :=
| W_top
| W_claim
| W_assign (claimed : bool)
| W_assigned (claimed : bool) (t : option task_t)
| W_retire
| W_idle
| W_wait
| W_wake
| W_spare (background : bool) (t : task_t)
| W_join (background : bool) (t : task_t) (k : nat)
| W_rejoin (background : bool) (t : task_t) (k : nat)
| W_run (background : bool) (t : task_t)
| W_finished (background : bool) (result : task_state_t)
| W_exit
| W_gone.

(** [th_joins] counts the calls of pthread_join that returned for the thread. *)
Record thr := mk_thr { th_slot : nat; th_pc : wpc; th_joins : nat }.

(** [workers] is [[]] while the pointer is NULL. *)
Record pool := mk_pool {
  cfg : pool_cfg_t;
  workers : list worker_t;
  pool_size : Z;
  pool_idle : Z;
  pool_peak : Z;
  pool_bg : Z;
  pool_stopping : bool;
  pool_ready : bool;
  threads : list thr;
  sch : sched
}.

Definition upd_workers (f : list worker_t -> list worker_t) (s : pool) : pool :=
  mk_pool (cfg s) (f (workers s)) (pool_size s) (pool_idle s) (pool_peak s) (pool_bg s)
    (pool_stopping s) (pool_ready s) (threads s) (sch s).

Definition set_counts (size idle peak bg : Z) (s : pool) : pool :=
  mk_pool (cfg s) (workers s) size idle peak bg (pool_stopping s) (pool_ready s) (threads s) (sch s).

Definition set_threads (ts : list thr) (s : pool) : pool :=
  mk_pool (cfg s) (workers s) (pool_size s) (pool_idle s) (pool_peak s) (pool_bg s)
    (pool_stopping s) (pool_ready s) ts (sch s).

Definition set_sch (c : sched) (s : pool) : pool :=
  mk_pool (cfg s) (workers s) (pool_size s) (pool_idle s) (pool_peak s) (pool_bg s)
    (pool_stopping s) (pool_ready s) (threads s) c.

Definition set_cfg (c : pool_cfg_t) (s : pool) : pool :=
  mk_pool c (workers s) (pool_size s) (pool_idle s) (pool_peak s) (pool_bg s)
    (pool_stopping s) (pool_ready s) (threads s) (sch s).

Definition set_stopping (s : pool) : pool :=
  mk_pool (cfg s) (workers s) (pool_size s) (pool_idle s) (pool_peak s) (pool_bg s)
    true (pool_ready s) (threads s) (sch s).

(** The thread [tid] goes on at [pc]. *)
Definition goto (tid : nat) (pc : wpc) (s : pool) : pool :=
  set_threads (alter (fun t => mk_thr (th_slot t) pc (th_joins t)) tid (threads s)) s.

Definition alter_worker (i : nat) (f : worker_t -> worker_t) (s : pool) : pool :=
  upd_workers (alter f i) s.

(** ** Slots *)

Inductive scan_res := Found (i : nat) | NotFound | OutOfBounds.

(** [for(i = from; ...; i++)], [n] iterations, looking for a slot in state [st]. *)
Fixpoint scan (st : worker_state_t) (ws : list worker_t) (from n : nat) : scan_res :=
  match n with
  | O => NotFound
  | S n' =>
      match ws !! from with
      | None => OutOfBounds
      | Some w => if decide (w_wstate w = st) then Found from else scan st ws (S from) n'
      end
  end.

Definition scan_slots (st : worker_state_t) (from : nat) (s : pool) : scan_res :=
  scan st (workers s) from (S (Z.to_nat (max_threads (cfg s))) - from).

(** The second half of [spawn_worker_locked], once nothing is left to reap. *)
Definition spawn_unused (now : Z) (created : bool) (s : pool) : outcome (pool * bool) :=
  match scan_slots WORKER_UNUSED 1 s with
  | OutOfBounds => Fault
  | NotFound => Ok (s, false)
  | Found i =>
      let tid := length (threads s) in
      let started st := alter_worker i (fun w =>
        mk_worker (wrap 8 (Z.of_nat i)) (if created then tid else w_thread w) 0 now now st false
          (w_task_id w)) s in
      if created then
        let s := started WORKER_RUNNING in
        let size := wrap 16 (pool_size s + 1) in
        Ok (set_threads (threads s ++ [mk_thr i W_top 0])
              (set_counts size (pool_idle s) (Z.max (pool_peak s) size) (pool_bg s) s), true)
      else Ok (started WORKER_UNUSED, false)
  end.

(** What [spawn_worker_locked] does with the mutex held, reaping from slot [from]:
    it either ends, or must join the retired worker it found. *)
Inductive spawn_res := Spawned (s : pool) (ok : bool) | Reap (k : nat).

Definition spawn_worker_locked (from : nat) (now : Z) (created : bool) (s : pool)
    : outcome spawn_res :=
  match scan_slots WORKER_RETIRING from s with
  | OutOfBounds => Fault
  | Found k => Ok (Reap k)
  | NotFound =>
      match spawn_unused now created s with
      | Ok (s, ok) => Ok (Spawned s ok)
      | Blocked => Blocked
      | Fault => Fault
      end
  end.

(** pthread_join of the thread in slot [k], between the unlock and the lock of
    [reap_retired_locked]. *)
Definition pthread_join (k : nat) (s : pool) : outcome pool :=
  match workers s !! k with
  | None => Fault
  | Some w =>
      match threads s !! w_thread w with
      | None => Fault
      | Some t =>
          match th_pc t with
          | W_gone => Ok (set_threads (<[w_thread w := mk_thr (th_slot t) W_gone (S (th_joins t))]>
                                         (threads s)) s)
          | _ => Blocked
          end
      end
  end.

(** ** The decisions of a worker *)

Definition can_retire (s : pool) : bool :=
  (min_threads (cfg s) <? pool_size s) && (min_spare (cfg s) <=? pool_idle s).

Definition should_retire (now : Z) (w : worker_t) (s : pool) : bool :=
  if w_id w =? 0 then false
  else if negb (can_retire s) then false
  else max_idle_secs (cfg s) <? now - w_last_active w.

Definition wants_spare (s : pool) : bool :=
  (pool_idle s <? min_spare (cfg s)) && (pool_size s <? max_threads (cfg s)).

(** [check_spare], up to where it unlocks; then the worker runs its task. *)
Definition check_spare_from (tid : nat) (background : bool) (t : task_t) (from : nat) (now : Z)
    (created : bool) (s : pool) : outcome pool :=
  match spawn_worker_locked from now created s with
  | Ok (Spawned s _) => Ok (goto tid (W_run background t) s)
  | Ok (Reap k) => Ok (goto tid (W_join background t k) s)
  | Blocked => Blocked
  | Fault => Fault
  end.

Definition check_spare (tid : nat) (background : bool) (t : task_t) (now : Z) (created : bool)
    (s : pool) : outcome pool :=
  if wants_spare s then check_spare_from tid background t 1 now created s
  else Ok (goto tid (W_run background t) s).

Definition pool_bg_claim (s : pool) : pool * bool :=
  let got := pool_bg s <? bg_budget (cfg s) in
  (set_counts (pool_size s) (pool_idle s) (pool_peak s)
     (if got then wrap 16 (pool_bg s + 1) else pool_bg s) s, got).

Definition pool_bg_release (s : pool) : pool :=
  set_counts (pool_size s) (pool_idle s) (pool_peak s) (wrap 16 (pool_bg s - 1)) s.

(** [task_wake_all] only ends waits early. *)
Definition pool_shutdown (s : pool) : pool :=
  if pool_stopping s then s else set_stopping s.

Definition is_background (t : option task_t) : bool :=
  match t with Some t => bool_decide (t_lane t = TASK_BACKGROUND) | None => false end.

(** ** The worker loop *)

(** What the environment answers in one step: the clock, the task object as its
    callback left it, and whether pthread_create worked. *)
Record answer := mk_answer { a_now : Z; a_left : task_t; a_created : bool }.

(** [while(!pool_stopping)] of [worker_entry], for the worker of slot [w]. *)
Definition worker_entry (tid : nat) (a : answer) (s : pool) (t : thr) (w : worker_t) : outcome pool :=
  let now := a_now a in
  match th_pc t with
  | W_top => Ok (goto tid (if pool_stopping s then W_exit else W_claim) s)
  | W_claim => let '(s, claimed) := pool_bg_claim s in Ok (goto tid (W_assign claimed) s)
  | W_assign claimed =>
      let '(c, got) := task_assign now now (if w_id w =? 0 then TASK_PARENT else TASK_THREAD)
                         claimed (sch s) in
      Ok (goto tid (W_assigned claimed got) (set_sch c s))
  | W_assigned claimed got =>
      let background := is_background got in
      let s := if claimed && negb background then pool_bg_release s else s in
      Ok (goto tid match got with Some t => W_spare background t | None => W_retire end s)
  | W_retire => Ok (goto tid (if should_retire now w s then W_exit else W_idle) s)
  | W_idle =>
      Ok (goto tid W_wait (alter_worker (th_slot t) (set_idle true)
            (set_counts (pool_size s) (wrap 16 (pool_idle s + 1)) (pool_peak s) (pool_bg s) s)))
  | W_wait =>
      Ok (goto tid W_wake (set_sch (task_wait (wait_ms (cfg s)) now now now (sch s) (sch s)) s))
  | W_wake =>
      Ok (goto tid W_top (alter_worker (th_slot t) (set_idle false)
            (set_counts (pool_size s) (wrap 16 (pool_idle s - 1)) (pool_peak s) (pool_bg s) s)))
  | W_spare background task => check_spare tid background task now (a_created a) s
  | W_join background task k =>
      match pthread_join k s with
      | Ok s => Ok (goto tid (W_rejoin background task k) s)
      | Blocked => Blocked
      | Fault => Fault
      end
  | W_rejoin background task k =>
      match workers s !! k with
      | None => Fault
      | Some _ =>
          check_spare_from tid background task (S k) now (a_created a)
            (alter_worker k (set_wstate WORKER_UNUSED) s)
      end
  | W_run background _ =>
      let '(c, result, _) := task_finish now now (pool_stopping s) (a_left a) (sch s) in
      Ok (goto tid (W_finished background result) (set_sch c s))
  | W_finished background result =>
      let s := if background then pool_bg_release s else s in
      let s := alter_worker (th_slot t) (job_done now) s in
      Ok (if decide (result = TASK_FATAL) then goto tid W_exit (pool_shutdown s)
          else goto tid W_top s)
  | W_exit =>
      let s := set_counts (wrap 16 (pool_size s - 1))
                 (if w_idle w then wrap 16 (pool_idle s - 1) else pool_idle s)
                 (pool_peak s) (pool_bg s) s in
      Ok (goto tid W_gone (alter_worker (th_slot t)
            (fun w => set_idle false (set_wstate WORKER_RETIRING w)) s))
  | W_gone => Blocked
  end.

Definition worker_step (tid : nat) (a : answer) (s : pool) : outcome pool :=
  match threads s !! tid with
  | None => Blocked
  | Some t =>
      match th_pc t with
      | W_gone => Blocked
      | _ => match workers s !! th_slot t with
             | None => Fault
             | Some w => worker_entry tid a s t w
             end
      end
  end.

(** ** Limits *)

Definition pool_bg_budget_apply (c : pool_cfg_t) : pool_cfg_t :=
  let max := max_threads c in
  let r := if max <=? reserve c then wrap 16 (max - 1) else reserve c in
  mk_pool_cfg max (min_threads c) (min_spare c) (max_idle_secs c) (wait_ms c) r (wrap 16 (max - r)).

Definition pool_set_limits (max min spare idle : Z) (c : pool_cfg_t) : pool_cfg_t :=
  let max := if max <? 1 then 1 else max in
  let min := if min <? 1 then 1 else min in
  let min := if max <? min then max else min in
  let spare := if min <? spare then min else spare in
  pool_bg_budget_apply (mk_pool_cfg max min spare idle (wait_ms c) (reserve c) (bg_budget c)).

(** The values [kv_get_uint] returns for the six keys. *)
Record pool_kv := mk_pool_kv {
  kv_max_threads : Z; kv_min_threads : Z; kv_min_spare : Z;
  kv_max_idle_secs : Z; kv_wait_ms : Z; kv_reserve : Z
}.

Definition pool_load_config (kv : pool_kv) : pool_cfg_t :=
  let max := wrap 16 (kv_max_threads kv) in
  let min := wrap 16 (kv_min_threads kv) in
  let spare := wrap 16 (kv_min_spare kv) in
  let idle := wrap 32 (kv_max_idle_secs kv) in
  let wait := wrap 32 (kv_wait_ms kv) in
  let r := wrap 16 (kv_reserve kv) in
  let max := if max <? 1 then 1 else max in
  let max := if 256 <? max then 256 else max in
  let min := if min <? 1 then 1 else min in
  let min := if max <? min then max else min in
  let spare := if min <? spare then min else spare in
  let wait := if wait <? 100 then 100 else wait in
  let wait := if 10000 <? wait then 10000 else wait in
  pool_bg_budget_apply (mk_pool_cfg max min spare idle wait r 0).

(** The defaults [pool_register_kv] declares. *)
Definition pool_register_kv : pool_kv := mk_pool_kv 64 1 1 300 1000 8.

(** ** Start and end *)

(** Memory from the allocator: the fields [pool_init] does not write. *)
Definition fresh_worker : worker_t := mk_worker 0 0 0 0 0 WORKER_UNUSED false 0.

(** The loop that spawns the first workers; nothing is there to reap. *)
Fixpoint spawn_min (n : nat) (now : Z) (created : nat -> bool) (s : pool) : outcome pool :=
  match n with
  | O => Ok s
  | S n' =>
      match spawn_worker_locked 1 now (created n') s with
      | Ok (Spawned s true) => spawn_min n' now created s
      | Ok (Spawned s false) => Ok s
      | Ok (Reap _) => Blocked
      | Blocked => Blocked
      | Fault => Fault
      end
  end.

Definition pool_init (now : Z) (created : nat -> bool) (s : pool) : outcome pool :=
  let s := mk_pool (cfg s) (replicate (S (Z.to_nat (max_threads (cfg s)))) fresh_worker)
             0 0 (pool_peak s) (pool_bg s) false (pool_ready s) (threads s) (sch s) in
  match spawn_min (Z.to_nat (min_threads (cfg s))) now created s with
  | Ok s => Ok (mk_pool (cfg s) (workers s) (pool_size s) (pool_idle s) (pool_peak s) (pool_bg s)
                  (pool_stopping s) true (threads s) (sch s))
  | Blocked => Blocked
  | Fault => Fault
  end.

(** The statics of pool.h before [pool_init]. *)
Definition pool_statics (c : sched) : pool :=
  mk_pool pool_cfg_default [] 0 0 0 0 false false [] c.

(** The main thread: the loop of [pool_run_parent], the callback it is in, and
    [pool_exit], which looks at the slots without the mutex. *)
Inductive mpc := M_loop | M_call (t : task_t) | M_left | M_scan (i : nat) | M_join (i : nat) | M_done.

(** [signalled] answers [sig_shutdown_requested]. The fields of slot 0 the entry
    of the function writes are not read again. *)
Definition pool_run_parent (signalled : bool) (a : answer) (m : mpc) (s : pool) : outcome (mpc * pool) :=
  let now := a_now a in
  match m with
  | M_loop =>
      if pool_stopping s || signalled then Ok (M_left, s)
      else
        let '(c, got) := task_assign now now TASK_PARENT true (sch s) in
        match got with
        | Some t => Ok (M_call t, set_sch c s)
        | None => Ok (M_loop, set_sch (task_wait (wait_ms (cfg s)) now now now c c) s)
        end
  | M_call _ =>
      let '(c, result, _) := task_finish now now (pool_stopping s) (a_left a) (sch s) in
      let s := alter_worker 0 (job_done now) (set_sch c s) in
      Ok (if decide (result = TASK_FATAL) then (M_left, pool_shutdown s) else (M_loop, s))
  | _ => Blocked
  end.

Definition pool_exit (m : mpc) (s : pool) : outcome (mpc * pool) :=
  match m with
  | M_left => if pool_ready s then Ok (M_scan 1, pool_shutdown s) else Ok (M_done, s)
  | M_scan i =>
      if Z.of_nat i <=? max_threads (cfg s) then
        match workers s !! i with
        | None => Fault
        | Some w =>
            if decide (w_wstate w = WORKER_RUNNING \/ w_wstate w = WORKER_RETIRING)
            then Ok (M_join i, s) else Ok (M_scan (S i), s)
        end
      else
        Ok (M_done, mk_pool (cfg s) [] (pool_size s) (pool_idle s) (pool_peak s) (pool_bg s)
                      (pool_stopping s) false (threads s) (sch s))
  | M_join i =>
      match pthread_join i s with
      | Ok s => Ok (M_scan (S i), alter_worker i (set_wstate WORKER_UNUSED) s)
      | Blocked => Blocked
      | Fault => Fault
      end
  | _ => Blocked
  end.

(** ** Executions *)

Inductive event :=
| Ev_worker (tid : nat) (a : answer)
| Ev_sched (c : sched)
| Ev_config (kv : pool_kv)
| Ev_shutdown
| Ev_parent (signalled : bool) (a : answer)
| Ev_exit.

Definition world : Type := mpc * pool.

(** [Ev_sched] is what any other thread does to the scheduler. *)
Definition world_step (e : event) (x : world) : outcome world :=
  let '(m, s) := x in
  match e with
  | Ev_worker tid a =>
      match worker_step tid a s with Ok s => Ok (m, s) | Blocked => Blocked | Fault => Fault end
  | Ev_sched c => Ok (m, set_sch c s)
  | Ev_config kv => Ok (m, set_cfg (pool_load_config kv) s)
  | Ev_shutdown => Ok (m, pool_shutdown s)
  | Ev_parent signalled a => pool_run_parent signalled a m s
  | Ev_exit => pool_exit m s
  end.

Fixpoint run (es : list event) (x : world) : outcome world :=
  match es with
  | [] => Ok x
  | e :: es' =>
      match world_step e x with Ok x => run es' x | Blocked => Blocked | Fault => Fault end
  end.

(** ** Counting program counters *)

Definition pcs (s : pool) : list wpc := th_pc <$> threads s.

Definition alive (p : wpc) : bool := match p with W_gone => false | _ => true end.

(** The stretch of [worker_entry] over which a claimed background slot is held. *)
Definition holds (p : wpc) : bool :=
  match p with
  | W_assign b | W_assigned b _ | W_spare b _ | W_join b _ _ | W_rejoin b _ _ | W_run b _
  | W_finished b _ => b
  | _ => false
  end.

(** The worker has a background task in its hands. *)
Definition on_background (p : wpc) : bool :=
  match p with
  | W_assigned _ (Some t) | W_spare _ t | W_join _ t _ | W_rejoin _ t _ | W_run _ t =>
      is_background (Some t)
  | _ => false
  end.

Definition is_idle (p : wpc) : bool := match p with W_wait | W_wake => true | _ => false end.

Lemma pcs_goto tid pc s : pcs (goto tid pc s) = <[tid := pc]> (pcs s).
Proof.
  unfold pcs, goto, set_threads. cbn [threads].
  generalize (threads s). intros l. revert tid.
  induction l as [|x l IH]; intros [|tid]; simpl; try done. f_equal. apply IH.
Qed.

Lemma pcs_lookup s tid t : threads s !! tid = Some t -> pcs s !! tid = Some (th_pc t).
Proof. intros H. unfold pcs. by rewrite list_lookup_fmap, H. Qed.

Lemma pthread_join_pcs k s s' :
  pthread_join k s = Ok s' ->
  pcs s' = pcs s /\ cfg s' = cfg s /\ pool_size s' = pool_size s /\ pool_bg s' = pool_bg s /\
  pool_idle s' = pool_idle s /\ workers s' = workers s /\ pool_stopping s' = pool_stopping s /\
  exists w t, workers s !! k = Some w /\ threads s !! w_thread w = Some t /\ th_pc t = W_gone /\
    threads s' = <[w_thread w := mk_thr (th_slot t) W_gone (S (th_joins t))]> (threads s).
Proof.
  unfold pthread_join. destruct (workers s !! k) as [w|] eqn:Ew; [|done].
  destruct (threads s !! w_thread w) as [t|] eqn:Et; [|done].
  destruct (th_pc t) eqn:Ep; intros [= <-]. split_and!; try done; [|by exists w, t].
  unfold pcs, set_threads. cbn [threads]. rewrite list_fmap_insert. cbn [th_pc].
  apply list_insert_id. rewrite list_lookup_fmap, Et. simpl. congruence.
Qed.

(** ** The background budget *)

Definition pc_ok (p : wpc) : bool :=
  match p with
  | W_assigned false t => negb (is_background t)
  | W_spare b t | W_join b t _ | W_rejoin b t _ | W_run b t => Bool.eqb b (is_background (Some t))
  | _ => true
  end.

Section budget.
  (** No configuration ever in force allows more than [B] background workers. *)
  Context (B : Z) (HB : 0 <= B <= UINT16_MAX).

Record bg_ok (s : pool) : Prop := {
  bg_cfg : bg_budget (cfg s) <= B;
  bg_count : pool_bg s = count holds (pcs s);
  bg_bound : pool_bg s <= B;
  bg_size : pool_size s = wrap 16 (count alive (pcs s));
  bg_pcs : Forall (fun p => pc_ok p = true) (pcs s)
}.

(** The program counters, the size and the count change together. *)
Lemma bg_ok_step (s s' : pool) tid p q :
  bg_ok s -> pcs s !! tid = Some p ->
  cfg s' = cfg s -> pcs s' = <[tid := q]> (pcs s) -> pc_ok q = true ->
  pool_bg s' = pool_bg s - Z.b2z (holds p) + Z.b2z (holds q) -> pool_bg s' <= B ->
  pool_size s' = wrap 16 (pool_size s - Z.b2z (alive p) + Z.b2z (alive q)) ->
  bg_ok s'.
Proof.
  intros [H1 H2 H3 H4 H5] Hp Hc Hq Hok Hbg Hle Hsz. split.
  - by rewrite Hc.
  - rewrite Hq, (count_insert _ _ _ _ q Hp). lia.
  - done.
  - rewrite Hsz, Hq, (count_insert _ _ _ _ q Hp), H4.
    rewrite <- Z.add_sub_swap, <- Z.add_sub_assoc, wrap_add. f_equal. lia.
  - rewrite Hq. by apply Forall_insert.
Qed.

Lemma bg_ok_same s s' :
  bg_ok s -> cfg s' = cfg s -> pcs s' = pcs s -> pool_bg s' = pool_bg s ->
  pool_size s' = pool_size s -> bg_ok s'.
Proof. intros [] E1 E2 E3 E4. split; rewrite ?E1, ?E2, ?E3, ?E4; done. Qed.

Lemma bg_ok_spawn i s s' :
  bg_ok s -> cfg s' = cfg s -> threads s' = threads s ++ [mk_thr i W_top 0] ->
  pool_bg s' = pool_bg s -> pool_size s' = wrap 16 (pool_size s + 1) -> bg_ok s'.
Proof.
  intros [H1 H2 H3 H4 H5] E1 E2 E3 E4.
  assert (E : pcs s' = pcs s ++ [W_top]) by (unfold pcs; by rewrite E2, fmap_app).
  split; rewrite ?E1, ?E, ?E3, ?E4, ?count_app; try done.
  - change (count holds [W_top]) with 0. lia.
  - by rewrite H4, wrap_add.
  - apply Forall_app; split; [done|by repeat constructor].
Qed.

Lemma spawn_unused_effect now created s s' ok :
  spawn_unused now created s = Ok (s', ok) ->
  cfg s' = cfg s /\ pool_bg s' = pool_bg s /\ pool_stopping s' = pool_stopping s /\
  ((ok = false /\ threads s' = threads s /\ pool_size s' = pool_size s) \/
   (ok = true /\ pool_size s' = wrap 16 (pool_size s + 1) /\
    exists i, threads s' = threads s ++ [mk_thr i W_top 0])).
Proof.
  unfold spawn_unused. destruct (scan_slots _ _ _) as [i| |]; [|intros [= <- <-]; auto 8|done].
  destruct created; intros [= <- <-]; simpl; auto 8. split_and!; eauto 8.
Qed.

Lemma spawn_worker_locked_effect from now created s s' ok :
  spawn_worker_locked from now created s = Ok (Spawned s' ok) ->
  spawn_unused now created s = Ok (s', ok).
Proof.
  unfold spawn_worker_locked. destruct (scan_slots _ _ _); [done| |done].
  destruct (spawn_unused now created s) as [[s1 b]| |]; [|done|done]. by intros [= <- <-].
Qed.

Lemma spawn_worker_locked_bg from now created s s' ok :
  bg_ok s -> spawn_worker_locked from now created s = Ok (Spawned s' ok) -> bg_ok s'.
Proof.
  intros H E%spawn_worker_locked_effect.
  destruct (spawn_unused_effect _ _ _ _ _ E) as (E1 & E2 & _ & [(_ & E3 & E4)|(_ & E3 & i & E4)]).
  - eapply bg_ok_same; eauto. unfold pcs. congruence.
  - eapply bg_ok_spawn; eauto.
Qed.

(** The thread goes on where it holds as much as before. *)
Lemma goto_bg tid p q s :
  bg_ok s -> pcs s !! tid = Some p -> pc_ok q = true -> holds q = holds p -> alive q = alive p ->
  bg_ok (goto tid q s).
Proof.
  intros H Hp Hq Hh Ha. pose proof (bg_bound _ H). pose proof (bg_size _ H) as Hs.
  apply (bg_ok_step s _ tid p q H Hp); try done; [apply pcs_goto|..]; rewrite ?Hh, ?Ha;
    simpl; try lia.
  rewrite Z.sub_add, Hs. symmetry. unfold wrap. by rewrite Zmod_mod.
Qed.

Lemma check_spare_from_bg tid b t from now created s s' p :
  bg_ok s -> pcs s !! tid = Some p -> pc_ok (W_run b t) = true -> holds p = b -> alive p = true ->
  check_spare_from tid b t from now created s = Ok s' -> bg_ok s'.
Proof.
  intros H Hp Hq Hh Ha. unfold check_spare_from.
  destruct (spawn_worker_locked from now created s) as [[s1 ok|k]| |] eqn:E; [| |done|done];
    intros [= <-].
  - assert (H1 := spawn_worker_locked_bg _ _ _ _ _ _ H E).
    apply (goto_bg tid p); try done.
    apply spawn_worker_locked_effect, spawn_unused_effect in E as (_ & _ & _ & [(_ & E & _)|(_ & _ & i & E)]);
      unfold pcs; rewrite E; [done|]. rewrite fmap_app. by apply lookup_app_l_Some.
  - by apply (goto_bg tid p).
Qed.

Lemma assign_no_background now type s :
  is_background (task_assign now now type false s).2 = false.
Proof.
  unfold task_assign. pose proof (assign_scan_spec type false (ready_head (timer_promote now s))) as H.
  destruct (assign_scan type false _) as [[t q]|]; [|done].
  destruct H as (_ & _ & _ & _ & H & _). cbn [snd is_background set_run t_lane].
  apply bool_decide_eq_false. intros Hl. unfold eligible in H. rewrite Hl in H.
  by rewrite andb_false_r in H.
Qed.

Lemma bg_ok_frame s s' :
  cfg s' = cfg s -> pcs s' = pcs s -> pool_bg s' = pool_bg s -> pool_size s' = pool_size s ->
  bg_ok s -> bg_ok s'.
Proof. intros. by eapply bg_ok_same. Qed.

Lemma release_bg s tid p q :
  bg_ok s -> pcs s !! tid = Some p -> holds p = true -> alive p = true ->
  holds q = false -> alive q = true -> pc_ok q = true ->
  bg_ok (goto tid q (pool_bg_release s)).
Proof.
  intros H Hp Hh Ha Hh' Ha' Hq. pose proof (bg_bound _ H) as Hb. pose proof (bg_size _ H) as Hs.
  assert (1 <= pool_bg s) by (rewrite (bg_count _ H); by eapply count_pos).
  assert (Ew : wrap 16 (pool_bg s - 1) = pool_bg s - 1)
    by (apply wrap_small; unfold UINT16_MAX in HB; lia).
  apply (bg_ok_step s _ tid p q); try done; [exact (pcs_goto tid q (pool_bg_release s))|..];
    rewrite ?Hh, ?Ha, ?Hh', ?Ha'; cbn; rewrite ?Ew; try lia.
  rewrite Z.sub_add, Hs. unfold wrap. by rewrite Zmod_mod.
Qed.

(** One step of any worker. *)
Lemma worker_entry_bg tid a s t w s' :
  bg_ok s -> threads s !! tid = Some t -> worker_entry tid a s t w = Ok s' -> bg_ok s'.
Proof.
  intros H Ht%pcs_lookup. pose proof (bg_bound _ H) as Hb.
  assert (Hp : pc_ok (th_pc t) = true).
  { apply (proj1 (List.Forall_forall _ _) (bg_pcs _ H)), list_elem_of_In. by eapply list_elem_of_lookup_2. }
  unfold worker_entry. destruct (th_pc t) as [| |claimed|claimed got| | | | |b k|b k j|b k j|b k|b r| |] eqn:E.
  all: try (intros [= <-]; apply (goto_bg tid (th_pc t)); rewrite ?E;
              solve [done | by destruct (pool_stopping s) | by destruct (should_retire (a_now a) w s)
                    | by apply (bg_ok_frame s)]).
  - (* claim *)
    unfold pool_bg_claim. destruct (pool_bg s <? bg_budget (cfg s)) eqn:Eb; intros [= <-]; breflect.
    + pose proof (bg_cfg _ H). pose proof (count_range holds (pcs s)). rewrite <- (bg_count _ H) in *.
      assert (Ew : wrap 16 (pool_bg s + 1) = pool_bg s + 1)
        by (apply wrap_small; unfold UINT16_MAX in HB; lia).
      apply (bg_ok_step s _ tid W_claim (W_assign true)); try done; simpl; rewrite ?Ew; try lia.
      * exact (pcs_goto tid _ s).
      * rewrite Z.sub_add, (bg_size _ H). unfold wrap. by rewrite Zmod_mod.
    + apply (goto_bg tid W_claim); try done. by apply (bg_ok_frame s).
  - (* assign *)
    pose proof (assign_no_background (a_now a) (if w_id w =? 0 then TASK_PARENT else TASK_THREAD) (sch s))
      as Hn.
    destruct (task_assign _ _ _ claimed _) as [c got] eqn:Ea. intros [= <-].
    apply (goto_bg tid (W_assign claimed)); try done; [by apply (bg_ok_frame s)|].
    destruct claimed; [done|]. rewrite Ea in Hn. simpl in *. by rewrite Hn.
  - (* assigned *)
    intros [= <-].
    destruct claimed, (is_background got) eqn:Eg; cbn [andb negb]; try done.
    + destruct got as [k|]; [|done]. apply (goto_bg tid (W_assigned true (Some k))); simpl in *; rewrite ?Eg; done.
    + apply (release_bg s tid (W_assigned true got)); try done; destruct got; simpl in *; rewrite ?Eg; done.
    + simpl in Hp. rewrite Eg in Hp. done.
    + apply (goto_bg tid (W_assigned false got)); try done; destruct got; simpl in *; rewrite ?Eg; done.
  - unfold check_spare. destruct (wants_spare s); [|intros [= <-]; by apply (goto_bg tid (W_spare b k))].
    by apply (check_spare_from_bg tid b k 1 _ _ s s' (W_spare b k)).
  - destruct (pthread_join j s) as [s1| |] eqn:Ej; [|done|done]. intros [= <-].
    apply pthread_join_pcs in Ej as (E1 & E2 & E3 & E4 & _).
    apply (goto_bg tid (W_join b k j)); try done; [by apply (bg_ok_frame s)|by rewrite E1].
  - destruct (workers s !! j); [|done].
    apply (check_spare_from_bg tid b k (S j) _ _ _ s' (W_rejoin b k j)); try done.
    by apply (bg_ok_frame s).
  - destruct (task_finish _ _ _ _ _) as [[c r] f]. intros [= <-].
    apply (goto_bg tid (W_run b k)); try done. by apply (bg_ok_frame s).
  - (* finished *)
    intros [= <-].
    assert (Hg : forall q, holds q = false -> alive q = true -> pc_ok q = true ->
      bg_ok (goto tid q (if b then pool_bg_release s else s))).
    { intros q H1 H2 H3. destruct b; [by apply (release_bg s tid (W_finished true r))|].
      by apply (goto_bg tid (W_finished false r)). }
    destruct (decide (r = TASK_FATAL)); [apply (bg_ok_frame (goto tid W_exit (if b then pool_bg_release s else s)))
      |apply (bg_ok_frame (goto tid W_top (if b then pool_bg_release s else s)))]; auto;
      unfold pool_shutdown; by destruct (pool_stopping _).
  - intros [= <-]. apply (bg_ok_step s _ tid W_exit W_gone); try done; simpl; try lia.
    + exact (pcs_goto tid _ s).
    + by rewrite Z.add_0_r.
Qed.

Lemma worker_step_bg tid a s s' : bg_ok s -> worker_step tid a s = Ok s' -> bg_ok s'.
Proof.
  intros H. unfold worker_step. destruct (threads s !! tid) as [t|] eqn:Et; [|done].
  destruct (th_pc t) eqn:Ep; try done; (destruct (workers s !! th_slot t) as [w|]; [|done]);
    by apply worker_entry_bg.
Qed.

(** What configuration events may install. *)
Definition budget_within (e : event) : Prop :=
  match e with Ev_config kv => bg_budget (pool_load_config kv) <= B | _ => True end.

Lemma pool_exit_bg m s m' s' : bg_ok s -> pool_exit m s = Ok (m', s') -> bg_ok s'.
Proof.
  intros H. unfold pool_exit. repeat case_step; intros [=]; subst; try done.
  - apply (bg_ok_frame s); try done; unfold pool_shutdown; by destruct (pool_stopping s).
  - by apply (bg_ok_frame s).
  - match goal with E : pthread_join _ _ = _ |- _ =>
      apply pthread_join_pcs in E as (E1 & E2 & E3 & E4 & _) end.
    by apply (bg_ok_frame s).
Qed.

Lemma pool_run_parent_bg sg a m s m' s' : bg_ok s -> pool_run_parent sg a m s = Ok (m', s') -> bg_ok s'.
Proof.
  intros H. unfold pool_run_parent.
  repeat case_step; intros [=]; subst; try done; apply (bg_ok_frame s); try done;
    unfold pool_shutdown; by repeat case_step.
Qed.

Lemma world_step_bg e m s m' s' :
  budget_within e -> bg_ok s -> world_step e (m, s) = Ok (m', s') -> bg_ok s'.
Proof.
  intros He H. destruct e as [tid a|c|kv| |sg a|]; cbn [world_step].
  - destruct (worker_step tid a s) as [s1| |] eqn:E; [|done|done]. intros [= _ <-].
    by eapply worker_step_bg.
  - intros [= _ <-]. by apply (bg_ok_frame s).
  - intros [= _ <-]. destruct H. by split.
  - intros [= _ <-]. apply (bg_ok_frame s); try done; unfold pool_shutdown; by destruct (pool_stopping s).
  - by apply pool_run_parent_bg.
  - by apply pool_exit_bg.
Qed.

Lemma run_bg es : forall m s m' s',
  Forall budget_within es -> bg_ok s -> run es (m, s) = Ok (m', s') -> bg_ok s'.
Proof.
  induction es as [|e es IH]; intros m s m' s' Hes H; cbn [run]; [by intros [= <- <-]|].
  inversion_clear Hes as [|?? He Hes'].
  destruct (world_step e (m, s)) as [[m1 s1]| |] eqn:E; [|done|done].
  apply IH; [done|]. by eapply world_step_bg.
Qed.

Lemma spawn_min_bg n now created : forall s s',
  bg_ok s -> spawn_min n now created s = Ok s' -> bg_ok s'.
Proof.
  induction n as [|n IH]; intros s s' H; cbn [spawn_min]; [by intros [= <-]|].
  destruct (spawn_worker_locked 1 now (created n) s) as [[s1 [|]|k]| |] eqn:E; try done.
  - apply IH. by eapply spawn_worker_locked_bg.
  - intros [= <-]. by eapply spawn_worker_locked_bg.
Qed.

Lemma pool_init_bg now created c sc s :
  bg_budget c <= B -> pool_init now created (set_cfg c (pool_statics sc)) = Ok s -> bg_ok s.
Proof.
  intros Hc. unfold pool_init. destruct (spawn_min _ _ _ _) as [s1| |] eqn:E; [|done|done].
  intros [= <-]. apply (bg_ok_frame s1); try done. eapply spawn_min_bg; [|exact E].
  split; try done. simpl. lia.
Qed.
End budget.

(** Whatever the workers, the main thread, other users of the scheduler and live
    configuration do, at most as many workers have a background task in hand as the
    largest budget that was ever in force; the counter [pool_bg] is exactly the
    number of workers that hold a slot, and [pool_size] the number of living workers. *)
Theorem pool_bg_within_budget (B now : Z) (created : nat -> bool) (c : pool_cfg_t) (sc : sched)
    (s0 s : pool) (es : list event) (m : mpc)
    (HB : 0 <= B <= UINT16_MAX) (Hc : bg_budget c <= B)
    (Hes : Forall (budget_within B) es)
    (Hinit : pool_init now created (set_cfg c (pool_statics sc)) = Ok s0)
    (Hrun : run es (M_loop, s0) = Ok (m, s)) :
  count on_background (pcs s) <= pool_bg s /\ pool_bg s <= B /\
  pool_bg s = count holds (pcs s) /\ pool_size s = wrap 16 (count alive (pcs s)).
Proof.
  pose proof (run_bg B HB es _ _ _ _ Hes (pool_init_bg B HB _ _ _ _ _ Hc Hinit) Hrun) as [_ H2 H3 H4 H5].
  split_and!; try done. rewrite H2. apply count_mono.
  refine (List.Forall_impl _ _ H5). intros p Hp.
  destruct p as [| |[]|[] [t|]| | | | |[] t|[] t k|[] t k|[] t|[] r| |]; try done;
    cbn [pc_ok on_background holds] in *; intros E; rewrite E in Hp; done.
Qed.

(** ** Runs *)

Definition sample_task (id : Z) : task_t :=
  mk_task (lit "job") TASK_ANY TASK_ONCE TASK_BACKGROUND 10 TASK_WAITING 0 0 None id false 0 0 0.

(** Worker [tid] steps at time [now], with the object [t] left by a callback. *)
Definition by_worker (now : Z) (t : task_t) (tid : nat) : event := Ev_worker tid (mk_answer now t true).

Definition ended (id : Z) : task_t := set_state TASK_ENDED (sample_task id).

(** A scheduler with [n] tasks ready. *)
Definition with_ready (n : nat) : sched :=
  fold_right (fun i c => task_submit 0 (sample_task (Z.of_nat i)) c) task_statics (seq 1 n).

(** Up to eight workers, three at least, one spare. *)
Definition sample_cfg : pool_cfg_t := pool_load_config (mk_pool_kv 8 3 1 300 1000 0).

Definition all_created (_ : nat) : bool := true.

Definition sample_pool (c : sched) : outcome pool :=
  pool_init 0 all_created (set_cfg sample_cfg (pool_statics c)).

Definition the_pool (o : outcome pool) : pool :=
  match o with Ok s => s | _ => pool_statics task_statics end.

Definition the_world (o : outcome world) : world :=
  match o with Ok x => x | _ => (M_loop, pool_statics task_statics) end.

Definition sample_events : list event := map (by_worker 10 (ended 1)) [0; 0; 0; 0; 1; 1]%nat.

Definition sample_start : world := (M_loop, the_pool (sample_pool (with_ready 1))).

Definition sample_end : world := the_world (run sample_events sample_start).

Lemma sample_pool_Ok :
  pool_init 0 all_created (set_cfg sample_cfg (pool_statics (with_ready 1))) = Ok (sample_start.2).
Proof. vm_compute. reflexivity. Qed.

Lemma sample_run_Ok : run sample_events (M_loop, sample_start.2) = Ok (M_loop, sample_end.2).
Proof. vm_compute. reflexivity. Qed.

Lemma pool_bg_within_budget_witness :
  let s := sample_end.2 in
  count on_background (pcs s) <= pool_bg s /\ pool_bg s <= 8 /\
  pool_bg s = count holds (pcs s) /\ pool_size s = wrap 16 (count alive (pcs s)).
Proof.
  refine (pool_bg_within_budget 8 0 all_created sample_cfg (with_ready 1) (sample_start.2) (sample_end.2)
    sample_events M_loop _ _ _ sample_pool_Ok sample_run_Ok).
  - unfold UINT16_MAX. lia.
  - by vm_compute.
  - by repeat constructor.
Defined.

(** Two workers that want a spare find the same retired worker: reaping lets go of the
    mutex and leaves the slot as it is. *)
Definition reap_race : list event :=
  let w now tids := map (by_worker now (ended 1)) tids in
  w 10 [0; 0; 0; 0; 0; 0; 0]%nat ++                     (* worker 0 runs a job and spawns a fourth *)
  w 10 [1; 1; 1; 1; 1; 1]%nat ++                        (* worker 1 waits *)
  w 1000 [3; 3; 3; 3; 3; 3]%nat ++                      (* the fourth retires *)
  [Ev_sched (with_ready 2)] ++
  w 1000 [1; 1]%nat ++                                  (* worker 1 wakes *)
  w 1000 [0; 0; 0; 0; 0]%nat ++ w 1000 [1; 1; 1; 1; 1]%nat ++   (* both take a job and want a spare *)
  w 1000 [0; 1]%nat ++                                  (* both join *)
  w 1000 [0; 1]%nat.                                    (* both spawn *)

Definition reap_race_end : world := the_world (run reap_race sample_start).

(** Two workers that scale the pool up at once can both join the same retired
    worker and both put a new one in its slot: [reap_retired_locked] leaves a slot
    RETIRING while it waits without the mutex. From a pool just started there is an
    execution after which a thread was joined twice and two living workers share a
    slot. *)
Theorem pool_reap_joins_twice :
  exists es s i j d t u,
    run es sample_start = Ok (M_loop, s) /\
    (exists tid, threads s !! tid = Some d /\ th_joins d = 2%nat) /\
    i <> j /\ threads s !! i = Some t /\ threads s !! j = Some u /\
    alive (th_pc t) = true /\ alive (th_pc u) = true /\ th_slot t = th_slot u.
Proof.
  exists reap_race, (reap_race_end.2), 4%nat, 5%nat, (mk_thr 4 W_gone 2), (mk_thr 4 W_top 0), (mk_thr 4 W_top 0).
  split; [vm_compute; reflexivity|]. split; [exists 3%nat; by vm_compute|]. by vm_compute.
Qed.

(** A worker that was about to scale the pool up when the shutdown came puts a new
    worker in a slot [pool_exit] has passed: the array is freed under it. *)
Definition exit_race : list event :=
  let w tids := map (by_worker 10 (ended 1)) tids in
  w [1; 1; 1; 1]%nat ++ [Ev_parent true (mk_answer 10 (ended 1) true); Ev_exit] ++
  w [0; 0]%nat ++ [Ev_exit; Ev_exit] ++ w [1; 1; 1; 1; 1]%nat ++ w [2; 2]%nat ++
  replicate 10 Ev_exit.

Definition exit_race_end : world := the_world (run exit_race sample_start).

Lemma pool_exit_leaves_worker :
  exists es s tid t,
    run es sample_start = Ok (M_done, s) /\ workers s = [] /\
    threads s !! tid = Some t /\ alive (th_pc t) = true /\
    forall a, worker_step tid a s = Fault.
Proof.
  exists exit_race, (exit_race_end.2), 3%nat, (mk_thr 1 W_top 0).
  split; [vm_compute; reflexivity|]. split_and!; [by vm_compute..|]. intros a. by vm_compute.
Qed.

(** A larger max_threads takes effect at once, but the array of slots keeps the size it
    had when the pool was started. *)
Definition raise_max : list event :=
  map (by_worker 10 (ended 1)) [0; 0; 0; 0]%nat ++
  [Ev_config (mk_pool_kv 16 3 1 300 1000 0); by_worker 10 (ended 1) 0].

Lemma pool_config_out_of_bounds : run raise_max sample_start = Fault.
Proof. by vm_compute. Qed.

(** With 256 workers the id of the last is 0: it asks for the tasks of the parent and
    never retires. *)
Lemma pool_slot_256 (now : Z) (s s' : pool) (w : worker_t) :
  scan_slots WORKER_UNUSED 1 s = Found 256 ->
  spawn_unused now true s = Ok (s', true) -> workers s' !! 256%nat = Some w ->
  w_id w = 0 /\ forall t x, should_retire t w x = false.
Proof.
  unfold spawn_unused. intros -> [= <-]. cbn.
  destruct (workers s !! 256%nat) as [v|] eqn:E.
  - rewrite list_lookup_alter, E. intros [= <-]. by split.
  - rewrite list_lookup_alter, E. done.
Qed.

(** Whatever the configuration store holds, the limits the pool takes from it are
    well formed: between 1 and 256 workers, minimum and spare within the maximum, the
    wait between 100 ms and 10 s, and a background budget that leaves exactly the
    reserve and is never zero. *)
Theorem pool_load_config_wf (kv : pool_kv) :
  let c := pool_load_config kv in
  1 <= min_threads c <= max_threads c /\ max_threads c <= 256 /\
  0 <= min_spare c <= min_threads c /\ 100 <= wait_ms c <= 10000 /\
  0 <= reserve c < max_threads c /\ bg_budget c = max_threads c - reserve c /\ 1 <= bg_budget c.
Proof.
  cbn zeta. unfold pool_load_config.
  pose proof (wrap_range 16 (kv_max_threads kv) ltac:(lia)) as H1.
  pose proof (wrap_range 16 (kv_min_threads kv) ltac:(lia)) as H2.
  pose proof (wrap_range 16 (kv_min_spare kv) ltac:(lia)) as H3.
  pose proof (wrap_range 32 (kv_wait_ms kv) ltac:(lia)) as H4.
  pose proof (wrap_range 16 (kv_reserve kv) ltac:(lia)) as H5.
  set (max := if 256 <? _ then _ else _) in *.
  assert (Hmax : 1 <= max <= 256).
  { unfold max. destruct (wrap 16 (kv_max_threads kv) <? 1) eqn:E1; cbn -[wrap]; [lia|].
    destruct (256 <? _) eqn:E2; breflect; lia. }
  clearbody max. unfold pool_bg_budget_apply. cbn [max_threads min_threads min_spare max_idle_secs
    wait_ms reserve bg_budget].
  rewrite (wrap_small 16 (max - 1)) by lia.
  set (r := wrap 16 (kv_reserve kv)) in *. clearbody r.
  destruct (max <=? r) eqn:Er; breflect; rewrite (wrap_small 16 (max - _)) by lia;
    repeat case_step; breflect; lia.
Qed.
