(* ===== verification/PoolSlots.v ===== *)
(** * The slots of the elastic pool and its shutdown

    Over the step system of [Pool]: as long as no slot is reaped by two threads at
    once, slots and threads stay in step, no array is left and no thread is joined
    twice; after a shutdown every worker exits. *)

From S2P Require Import Prelude Task Pool.

(** ** Slots and threads *)

(** What the slots and the threads know of each other. *)
Definition key (w : worker_t) : worker_state_t * nat * bool := (w_wstate w, w_thread w, w_idle w).

Definition reap_at (p : wpc) : option nat :=
  match p with W_join _ _ k | W_rejoin _ _ k => Some k | _ => None end.

Definition rejoining (p : wpc) : option nat :=
  match p with W_rejoin _ _ k => Some k | _ => None end.

(** No two threads are reaping the same slot. *)
Definition apart (ts : list thr) : Prop :=
  forall i j t u k, ts !! i = Some t -> ts !! j = Some u ->
    reap_at (th_pc t) = Some k -> reap_at (th_pc u) = Some k -> i = j.

Definition slot_ok (ts : list thr) (i : nat) (k : worker_state_t * nat * bool) : Prop :=
  let '(st, tid, idle) := k in
  match st with
  | WORKER_UNUSED => True
  | WORKER_JOINING => False
  | WORKER_RUNNING => exists t, ts !! tid = Some t /\ th_slot t = i /\ alive (th_pc t) = true
  | WORKER_RETIRING =>
      exists t, ts !! tid = Some t /\ th_slot t = i /\ th_pc t = W_gone /\
        (th_joins t = 0%nat \/
         th_joins t = 1%nat /\
         exists tid' u, ts !! tid' = Some u /\ rejoining (th_pc u) = Some i)
  end.

Record slots_ok (ks : list (worker_state_t * nat * bool)) (ts : list thr) : Prop := {
  s_alive : forall tid t, ts !! tid = Some t -> alive (th_pc t) = true ->
    (1 <= th_slot t)%nat /\ th_joins t = 0%nat /\
    ks !! th_slot t = Some (WORKER_RUNNING, tid, is_idle (th_pc t));
  s_slot : forall i k, ks !! i = Some k -> slot_ok ts i k;
  s_reap : forall tid t k, ts !! tid = Some t -> reap_at (th_pc t) = Some k ->
    exists th b, ks !! k = Some (WORKER_RETIRING, th, b);
  s_joins : forall tid t, ts !! tid = Some t -> (th_joins t <= 1)%nat
}.

(** The thread [tid], at [q] from now on. *)
Definition at_pc (tid : nat) (t : thr) (q : wpc) (ts : list thr) : list thr :=
  <[tid := mk_thr (th_slot t) q (th_joins t)]> ts.

Lemma at_pc_lookup tid t q ts j u :
  ts !! tid = Some t -> at_pc tid t q ts !! j = Some u ->
  (j = tid /\ u = mk_thr (th_slot t) q (th_joins t)) \/ (j <> tid /\ ts !! j = Some u).
Proof.
  intros Ht. unfold at_pc. destruct (decide (j = tid)) as [->|Hne].
  - rewrite list_lookup_insert_eq by (by eapply lookup_lt_Some). intros [= <-]. by left.
  - rewrite list_lookup_insert_ne by done. by right.
Qed.

(** Slots still mean the same when a thread that goes on living moves, unless it was
    the one that joined them. *)
Lemma slot_ok_move tid t q ts i k :
  ts !! tid = Some t -> alive (th_pc t) = true -> alive q = true ->
  (rejoining (th_pc t) = Some i -> rejoining q = Some i) ->
  slot_ok ts i k -> slot_ok (at_pc tid t q ts) i k.
Proof.
  intros Ht Ha Hq Hr. destruct k as [[st th] b]. unfold slot_ok, at_pc. destruct st; try done.
  - intros (u & Hu & Hs & Hal). destruct (decide (th = tid)) as [->|Hne].
    + rewrite list_lookup_insert_eq by (by eapply lookup_lt_Some). eexists. split; [done|].
      by simplify_eq.
    + rewrite list_lookup_insert_ne by done. eauto.
  - intros (u & Hu & Hs & Hg & Hj). assert (th <> tid) by (intros ->; simplify_eq; by rewrite Hg in Ha).
    exists u. rewrite list_lookup_insert_ne by done. split_and!; try done.
    destruct Hj as [|(? & t' & v & Hv & Hvr)]; [by left|]. right. split; [done|].
    destruct (decide (t' = tid)) as [->|].
    + exists tid, (mk_thr (th_slot t) q (th_joins t)).
      rewrite list_lookup_insert_eq by (by eapply lookup_lt_Some). simplify_eq. auto.
    + exists t', v. by rewrite list_lookup_insert_ne.
Qed.

(** A thread moves and writes the idle flag of its own slot. *)
Lemma slots_move ks ts tid t q :
  slots_ok ks ts -> ts !! tid = Some t -> alive (th_pc t) = true -> alive q = true ->
  rejoining (th_pc t) = None ->
  (forall k, reap_at q = Some k -> exists th b, ks !! k = Some (WORKER_RETIRING, th, b)) ->
  slots_ok (<[th_slot t := (WORKER_RUNNING, tid, is_idle q)]> ks) (at_pc tid t q ts).
Proof.
  intros [H1 H2 H3 H4] Ht Ha Hq Hr Hk. destruct (H1 _ _ Ht Ha) as (Hs & Hj & Hw).
  assert (Hlt : (th_slot t < length ks)%nat) by (by eapply lookup_lt_Some).
  assert (Hret : forall k th b, ks !! k = Some (WORKER_RETIRING, th, b) ->
    <[th_slot t := (WORKER_RUNNING, tid, is_idle q)]> ks !! k = Some (WORKER_RETIRING, th, b)).
  { intros k th b E. rewrite list_lookup_insert_ne; [done|]. intros <-. congruence. }
  split.
  - intros j u Hu Hau. apply (at_pc_lookup _ _ _ _ _ _ Ht) in Hu as [[-> ->]|[Hne Hu]].
    + cbn [th_slot th_joins th_pc]. by rewrite list_lookup_insert_eq.
    + destruct (H1 _ _ Hu Hau) as (? & ? & Hw'). split_and!; try done.
      rewrite list_lookup_insert_ne; [done|]. intros E. rewrite E in Hw. congruence.
  - intros i k. destruct (decide (i = th_slot t)) as [->|Hne].
    + rewrite list_lookup_insert_eq by done. intros [= <-]. cbn.
      exists (mk_thr (th_slot t) q (th_joins t)). unfold at_pc.
      by rewrite list_lookup_insert_eq by (by eapply lookup_lt_Some).
    + rewrite list_lookup_insert_ne by done. intros Hi.
      apply slot_ok_move; try done; [congruence|by apply H2].
  - intros j u k Hu Hk'. apply (at_pc_lookup _ _ _ _ _ _ Ht) in Hu as [[-> ->]|[Hne Hu]].
    + destruct (Hk k Hk') as (th & b & E). exists th, b. by apply Hret.
    + destruct (H3 _ _ _ Hu Hk') as (th & b & E). exists th, b. by apply Hret.
  - intros j u Hu. apply (at_pc_lookup _ _ _ _ _ _ Ht) in Hu as [[-> ->]|[_ Hu]]; [cbn; lia|eauto].
Qed.

(** Its last step: the slot is left for a reaper. *)
Lemma slots_exit ks ts tid t :
  slots_ok ks ts -> ts !! tid = Some t -> th_pc t = W_exit ->
  slots_ok (<[th_slot t := (WORKER_RETIRING, tid, false)]> ks) (at_pc tid t W_gone ts).
Proof.
  intros [H1 H2 H3 H4] Ht Ep. destruct (H1 _ _ Ht ltac:(by rewrite Ep)) as (Hs & Hj & Hw).
  assert (Hlt : (th_slot t < length ks)%nat) by (by eapply lookup_lt_Some).
  assert (Htl : (tid < length ts)%nat) by (by eapply lookup_lt_Some).
  split.
  - intros j u Hu Hau. apply (at_pc_lookup _ _ _ _ _ _ Ht) in Hu as [[-> ->]|[Hne Hu]]; [done|].
    destruct (H1 _ _ Hu Hau) as (? & ? & Hw'). split_and!; try done.
    rewrite list_lookup_insert_ne; [done|]. intros E. rewrite E in Hw. congruence.
  - intros i k. destruct (decide (i = th_slot t)) as [->|Hne].
    + rewrite list_lookup_insert_eq by done. intros [= <-]. unfold slot_ok, at_pc.
      eexists. rewrite list_lookup_insert_eq by done. split; [done|]. cbn. auto.
    + rewrite list_lookup_insert_ne by done. intros Hi. pose proof (H2 _ _ Hi) as Hk.
      destruct k as [[st th] b]. unfold slot_ok, at_pc in *. destruct st; try done.
      * destruct Hk as (u & Hu & Hus & Hua). exists u.
        rewrite list_lookup_insert_ne; [done|]. intros <-. congruence.
      * destruct Hk as (u & Hu & Hus & Hg & Hd). exists u.
        rewrite list_lookup_insert_ne by (intros <-; congruence). split_and!; try done.
        destruct Hd as [|(? & t' & v & Hv & Hr)]; [by left|]. right. split; [done|].
        exists t', v. split; [|done]. rewrite list_lookup_insert_ne; [done|].
        intros <-. simplify_eq. by rewrite Ep in Hr.
  - intros j u k Hu Hk'. apply (at_pc_lookup _ _ _ _ _ _ Ht) in Hu as [[-> ->]|[Hne Hu]]; [done|].
    destruct (H3 _ _ _ Hu Hk') as (th & b & E). exists th, b.
    rewrite list_lookup_insert_ne; [done|]. intros <-. congruence.
  - intros j u Hu. apply (at_pc_lookup _ _ _ _ _ _ Ht) in Hu as [[-> ->]|[_ Hu]]; [cbn; lia|eauto].
Qed.

(** The thread a reaper finds in its slot has exited and was never joined. *)
Lemma reap_thread ks ts tid t bg w k :
  slots_ok ks ts -> apart ts -> ts !! tid = Some t -> th_pc t = W_join bg w k ->
  exists th b u, ks !! k = Some (WORKER_RETIRING, th, b) /\ ts !! th = Some u /\
    th_slot u = k /\ th_pc u = W_gone /\ th_joins u = 0%nat.
Proof.
  intros [H1 H2 H3 H4] Ha Ht Ep. destruct (H3 tid t k Ht ltac:(by rewrite Ep)) as (th & b & E).
  destruct (H2 _ _ E) as (u & Hu & Hs & Hg & [Hj|(_ & t' & v & Hv & Hr)]).
  - by exists th, b, u.
  - assert (t' = tid).
    { apply (Ha t' tid v t k Hv Ht); [|by rewrite Ep]. destruct (th_pc v); try done. }
    simplify_eq. by rewrite Ep in Hr.
Qed.

Lemma slots_join ks ts tid t bg w k th b u :
  slots_ok ks ts -> apart ts -> ts !! tid = Some t -> th_pc t = W_join bg w k ->
  ks !! k = Some (WORKER_RETIRING, th, b) -> ts !! th = Some u ->
  th_slot u = k -> th_pc u = W_gone -> th_joins u = 0%nat ->
  slots_ok ks (at_pc tid t (W_rejoin bg w k)
                 (<[th := mk_thr (th_slot u) W_gone (S (th_joins u))]> ts)).
Proof.
  intros [H1 H2 H3 H4] Ha Ht Ep Ek Hu Hus Hug Huj.
  assert (Hne : th <> tid) by (intros ->; congruence).
  assert (Hthl : (th < length ts)%nat) by (by eapply lookup_lt_Some).
  assert (Hl : forall j v, at_pc tid t (W_rejoin bg w k)
      (<[th := mk_thr (th_slot u) W_gone (S (th_joins u))]> ts) !! j = Some v ->
    (j = tid /\ v = mk_thr (th_slot t) (W_rejoin bg w k) (th_joins t)) \/
    (j = th /\ v = mk_thr (th_slot u) W_gone 1) \/
    (j <> tid /\ j <> th /\ ts !! j = Some v)).
  { intros j v. intros [Hx|[Hj Hx]]%at_pc_lookup; [by left| |by rewrite list_lookup_insert_ne].
    right. destruct (decide (j = th)) as [->|]; [left|right].
    - rewrite list_lookup_insert_eq in Hx by done. rewrite Huj in Hx. by simplify_eq.
    - by rewrite list_lookup_insert_ne in Hx. }
  set (ts' := at_pc _ _ _ _) in *.
  assert (Hr : exists v, ts' !! tid = Some v /\ rejoining (th_pc v) = Some k).
  { exists (mk_thr (th_slot t) (W_rejoin bg w k) (th_joins t)). split; [|done].
    apply list_lookup_insert_eq. rewrite length_insert. by eapply lookup_lt_Some. }
  assert (Hr2 : exists v, ts' !! th = Some v /\ th_slot v = k /\ th_pc v = W_gone /\ th_joins v = 1%nat).
  { exists (mk_thr k W_gone 1). unfold ts', at_pc. rewrite list_lookup_insert_ne by done.
    rewrite list_lookup_insert_eq, Huj, Hus by done. done. }
  assert (Hk : forall j v, j <> tid -> j <> th -> ts !! j = Some v -> ts' !! j = Some v).
  { intros j v N1 N2 Hv. unfold ts', at_pc. by rewrite !list_lookup_insert_ne. }
  clearbody ts'. split.
  - intros j v Hv Hav. destruct (Hl _ _ Hv) as [[-> ->]|[[-> ->]|(_ & _ & Hv')]]; [|done|by apply H1].
    destruct (H1 _ _ Ht ltac:(by rewrite Ep)) as (? & ? & E). by rewrite Ep in E.
  - intros i [[st th'] b'] Ei. pose proof (H2 _ _ Ei) as Hi. unfold slot_ok in *. destruct st; try done.
    + destruct Hi as (v & Hv & Hvs & Hva). destruct (decide (th' = tid)) as [->|].
      * destruct (ts' !! tid) as [v'|] eqn:Ev; [|by destruct Hr as (? & ? & _)].
        exists v'. destruct (Hl _ _ Ev) as [[_ ->]|[[-> _]|(? & _)]]; try done. by simplify_eq.
      * exists v. split; [apply Hk; [done| |done]|done]. intros ->. simplify_eq.
    + destruct Hi as (v & Hv & Hvs & Hg & Hd). destruct (decide (th' = th)) as [->|].
      * destruct Hr2 as (v2 & E1 & E2 & E3 & E4). exists v2. simplify_eq.
        split_and!; try done. right. split; [done|]. destruct Hr as (v3 & ? & ?). eauto.
      * exists v. split; [apply Hk; try done; intros ->; congruence|]. split_and!; try done.
        destruct Hd as [|(? & t' & v' & Hv' & Hr')]; [by left|]. right. split; [done|].
        exists t', v'. split; [|done]. apply Hk; try done; intros ->; simplify_eq.
        -- by rewrite Ep in Hr'.
        -- by rewrite Hug in Hr'.
  - intros j v k' Hv Hk'. destruct (Hl _ _ Hv) as [[-> ->]|[[-> ->]|(_ & _ & Hv')]]; [|done|by eapply H3].
    injection Hk' as <-. eauto.
  - intros j v Hv. destruct (Hl _ _ Hv) as [[-> ->]|[[-> ->]|(_ & _ & Hv')]]; [|done|by eapply H4].
    by apply H4 in Ht.
Qed.

(** Back under the mutex the reaper frees the slot and goes on. *)
Lemma slots_unreap ks ts tid t bg w k th b q :
  slots_ok ks ts -> apart ts -> ts !! tid = Some t -> th_pc t = W_rejoin bg w k ->
  ks !! k = Some (WORKER_RETIRING, th, b) ->
  alive q = true -> is_idle q = false -> rejoining q = None ->
  (forall i, reap_at q = Some i ->
     exists th' b', <[k := (WORKER_UNUSED, th, b)]> ks !! i = Some (WORKER_RETIRING, th', b')) ->
  slots_ok (<[k := (WORKER_UNUSED, th, b)]> ks) (at_pc tid t q ts).
Proof.
  intros [H1 H2 H3 H4] Ha Ht Ep Ek Hq Hqi Hqr Hqk.
  assert (Hkl : (k < length ks)%nat) by (by eapply lookup_lt_Some).
  assert (Hat : alive (th_pc t) = true) by (by rewrite Ep).
  split.
  - intros j u Hu Hau.
    assert (E : exists v, ts !! j = Some v /\ alive (th_pc v) = true /\ th_slot v = th_slot u /\
              th_joins v = th_joins u /\ is_idle (th_pc v) = is_idle (th_pc u)).
    { apply (at_pc_lookup _ _ _ _ _ _ Ht) in Hu as [[-> ->]|[_ Hu]]; [|by exists u].
      exists t. cbn. by rewrite Ep, Hqi. }
    destruct E as (v & Hv & Hva & E1 & E2 & E3). destruct (H1 _ _ Hv Hva) as (? & ? & E).
    rewrite E1, E3 in E. split_and!; [lia|congruence|].
    rewrite list_lookup_insert_ne; [done|]. intros Ex. rewrite <- Ex in E. congruence.
  - intros i kk. destruct (decide (i = k)) as [->|Hne].
    + rewrite list_lookup_insert_eq by done. by intros [= <-].
    + rewrite list_lookup_insert_ne by done. intros Hi. apply slot_ok_move; try done; [|by apply H2].
      rewrite Ep. by intros [= ->].
  - intros j u i Hu Hi. apply (at_pc_lookup _ _ _ _ _ _ Ht) in Hu as [[-> ->]|[Hne Hu]]; [by apply Hqk|].
    destruct (H3 _ _ _ Hu Hi) as (th' & b' & E). exists th', b'.
    rewrite list_lookup_insert_ne; [done|]. intros <-. apply Hne.
    apply (Ha j tid u t k Hu Ht Hi). by rewrite Ep.
  - intros j u Hu. apply (at_pc_lookup _ _ _ _ _ _ Ht) in Hu as [[-> ->]|[_ Hu]]; [cbn|]; eauto.
Qed.

Lemma slots_spawn ks ts i th b :
  slots_ok ks ts -> ks !! i = Some (WORKER_UNUSED, th, b) -> (1 <= i)%nat ->
  slots_ok (<[i := (WORKER_RUNNING, length ts, false)]> ks) (ts ++ [mk_thr i W_top 0]).
Proof.
  intros [H1 H2 H3 H4] Ei Hi. assert (Hil : (i < length ks)%nat) by (by eapply lookup_lt_Some).
  assert (Hl : forall j u, (ts ++ [mk_thr i W_top 0]) !! j = Some u ->
    ts !! j = Some u \/ (j = length ts /\ u = mk_thr i W_top 0)).
  { intros j u [?|[Hj Hu]]%lookup_app_Some; [by left|]. right.
    destruct (j - length ts)%nat eqn:E; [|done]. simpl in Hu. split; [lia|congruence]. }
  assert (Hk : forall j u, ts !! j = Some u -> (ts ++ [mk_thr i W_top 0]) !! j = Some u)
    by (intros; by apply lookup_app_l_Some).
  assert (Hne : forall j st th' b', st <> WORKER_UNUSED -> ks !! j = Some (st, th', b') ->
    <[i := (WORKER_RUNNING, length ts, false)]> ks !! j = Some (st, th', b')).
  { intros j st th' b' Hst E. rewrite list_lookup_insert_ne; [done|]. intros <-. congruence. }
  split.
  - intros j u [Hu|[-> ->]]%Hl Hau; [|by rewrite list_lookup_insert_eq].
    destruct (H1 _ _ Hu Hau) as (? & ? & E). split_and!; try done. by apply Hne.
  - intros j k. destruct (decide (j = i)) as [->|Hji].
    + rewrite list_lookup_insert_eq by done. intros [= <-]. cbn. exists (mk_thr i W_top 0).
      split; [|done]. rewrite lookup_app_r by lia. by rewrite Nat.sub_diag.
    + rewrite list_lookup_insert_ne by done. intros Ej. pose proof (H2 _ _ Ej) as Hs.
      destruct k as [[st th'] b']. unfold slot_ok in *. destruct st; try done.
      * destruct Hs as (u & ? & ? & ?). eauto.
      * destruct Hs as (u & ? & ? & ? & [|(? & t' & v & ? & ?)]); exists u; eauto 12.
  - intros j u k [Hu|[-> ->]]%Hl Hr; [|done]. destruct (H3 _ _ _ Hu Hr) as (th' & b' & E).
    exists th', b'. by apply Hne.
  - intros j u [Hu|[-> ->]]%Hl; [eauto|cbn; lia].
Qed.

(** ** The pool as a whole *)

Record pool_ok (s : pool) : Prop := {
  po_max : 1 <= max_threads (cfg s) < UINT16_MAX;
  po_len : length (workers s) = S (Z.to_nat (max_threads (cfg s)));
  po_slots : slots_ok (key <$> workers s) (threads s);
  po_size : pool_size s = count alive (pcs s);
  po_idle : pool_idle s = count is_idle (pcs s)
}.

Lemma pool_ok_alive s : pool_ok s -> count alive (pcs s) <= max_threads (cfg s).
Proof.
  intros [H1 H2 [H3 _ _ _] _ _].
  assert (E : count alive (pcs s) = count (fun t => alive (th_pc t)) (threads s)).
  { unfold pcs. clear. induction (threads s) as [|t ts IH]; [done|]. rewrite fmap_cons, !count_cons. by rewrite IH. }
  rewrite E, <- (Z2Nat.id (max_threads (cfg s))) by lia. apply (count_injective _ th_slot).
  - intros i j t u Ht Hu Hat Hau Hs. destruct (H3 _ _ Ht Hat) as (_ & _ & E1).
    destruct (H3 _ _ Hu Hau) as (_ & _ & E2). rewrite Hs in E1. congruence.
  - intros i t Ht Hat. destruct (H3 _ _ Ht Hat) as (? & _ & El).
    apply lookup_lt_Some in El. rewrite length_fmap in El. lia.
Qed.

Lemma scan_spec st ws from n :
  (from + n <= length ws)%nat ->
  match scan st ws from n with
  | Found i => exists w, ws !! i = Some w /\ w_wstate w = st /\ (from <= i)%nat
  | NotFound => True
  | OutOfBounds => False
  end.
Proof.
  revert from. induction n as [|n IH]; intros from H; simpl; [done|].
  destruct (ws !! from) as [w|] eqn:E; [|apply lookup_ge_None in E; lia].
  destruct (decide (w_wstate w = st)); [eauto|].
  specialize (IH (S from) ltac:(lia)). destruct (scan st ws (S from) n); try done.
  destruct IH as (w' & ? & ? & ?). exists w'. split_and!; try done. lia.
Qed.

Lemma scan_slots_ok st from s :
  pool_ok s -> (from <= S (Z.to_nat (max_threads (cfg s))))%nat ->
  match scan_slots st from s with
  | Found i => exists w, workers s !! i = Some w /\ w_wstate w = st /\ (from <= i)%nat
  | NotFound => True
  | OutOfBounds => False
  end.
Proof. intros H Hf. apply scan_spec. rewrite (po_len _ H). lia. Qed.

Lemma goto_threads tid q s t :
  threads s !! tid = Some t -> threads (goto tid q s) = at_pc tid t q (threads s).
Proof.
  intros Ht. unfold goto, at_pc, set_threads. cbn [threads]. revert tid Ht.
  induction (threads s) as [|x l IH]; intros [|tid] Ht; try done.
  - by injection Ht as ->.
  - simpl. f_equal. by apply IH.
Qed.

Lemma at_pc_pcs tid t q s s' :
  threads s' = at_pc tid t q (threads s) -> pcs s' = <[tid := q]> (pcs s).
Proof. intros E. unfold pcs. by rewrite E; unfold at_pc; rewrite list_fmap_insert. Qed.

(** A thread moves; what else changes is told. *)
Lemma pool_ok_moved s s' tid t q :
  pool_ok s -> threads s !! tid = Some t -> cfg s' = cfg s ->
  length (workers s') = length (workers s) ->
  threads s' = at_pc tid t q (threads s) ->
  slots_ok (key <$> workers s') (at_pc tid t q (threads s)) ->
  pool_size s' = pool_size s - Z.b2z (alive (th_pc t)) + Z.b2z (alive q) ->
  pool_idle s' = pool_idle s - Z.b2z (is_idle (th_pc t)) + Z.b2z (is_idle q) ->
  pool_ok s'.
Proof.
  intros [H1 H2 H3 H4 H5] Ht Ec El Et Hs E1 E2. pose proof (at_pc_pcs _ _ _ _ _ Et) as Ep.
  pose proof (pcs_lookup _ _ _ Ht) as Hp. split.
  - by rewrite Ec.
  - by rewrite El, Ec.
  - by rewrite Et.
  - rewrite Ep, (count_insert _ _ _ _ q Hp). lia.
  - rewrite Ep, (count_insert _ _ _ _ q Hp). lia.
Qed.

Lemma key_alter f (i : nat) (ws : list worker_t) :
  (forall w, key (f w) = key w) -> key <$> alter f i ws = key <$> ws.
Proof.
  intros Hf. revert i. induction ws as [|w ws IH]; intros [|i]; try done; simpl.
  - by rewrite Hf.
  - f_equal. apply IH.
Qed.

Lemma key_alter_at f (i : nat) (ws : list worker_t) w :
  ws !! i = Some w -> key <$> alter f i ws = <[i := key (f w)]> (key <$> ws).
Proof.
  revert i. induction ws as [|x ws IH]; intros [|i] H; try done; simpl.
  - by injection H as ->.
  - f_equal. by apply IH.
Qed.

Lemma key_lookup s i w : workers s !! i = Some w -> (key <$> workers s) !! i = Some (key w).
Proof. intros H. by rewrite list_lookup_fmap, H. Qed.

(** Moves inside the loop that touch neither slots nor counters. *)
Lemma pool_ok_goto s s1 tid t q :
  pool_ok s -> threads s !! tid = Some t -> alive (th_pc t) = true -> alive q = true ->
  rejoining (th_pc t) = None -> is_idle q = is_idle (th_pc t) ->
  (forall k, reap_at q = Some k -> exists w, workers s !! k = Some w /\ w_wstate w = WORKER_RETIRING) ->
  cfg s1 = cfg s -> key <$> workers s1 = key <$> workers s -> threads s1 = threads s ->
  pool_size s1 = pool_size s -> pool_idle s1 = pool_idle s ->
  pool_ok (goto tid q s1).
Proof.
  intros H Ht Ha Hq Hr Hi Hk E1 E2 E3 E4 E5. rewrite <- E3 in Ht.
  apply (pool_ok_moved s _ tid t q); rewrite ?Ha, ?Hq, ?Hi; try done; try (simpl; lia).
  - by rewrite <- E3.
  - apply (f_equal length) in E2. by rewrite !length_fmap in E2.
  - rewrite (goto_threads _ _ _ _ Ht). by rewrite E3.
  - rewrite E3 in Ht. change (workers (goto tid q s1)) with (workers s1). rewrite E2.
    destruct (s_alive _ _ (po_slots _ H) _ _ Ht Ha) as (_ & _ & Es).
    assert (Eid : <[th_slot t := (WORKER_RUNNING, tid, is_idle q)]> (key <$> workers s) = key <$> workers s)
      by (rewrite Hi; by apply list_insert_id).
    rewrite <- Eid. apply slots_move; try done; [apply (po_slots _ H)|].
    intros k Hqk. destruct (Hk k Hqk) as (w & Ew & Ews). exists (w_thread w), (w_idle w).
    rewrite (key_lookup _ _ _ Ew). unfold key. by rewrite Ews.
Qed.

Lemma spawn_unused_ok now created s :
  pool_ok s -> exists s' ok, spawn_unused now created s = Ok (s', ok) /\ pool_ok s'.
Proof.
  intros H. unfold spawn_unused.
  pose proof (scan_slots_ok WORKER_UNUSED 1 s H ltac:(pose proof (po_max _ H); lia)) as Hs.
  destruct (scan_slots WORKER_UNUSED 1 s) as [i| |]; [|by exists s, false|done].
  destruct Hs as (w & Ew & Hst & Hi). 
  assert (Ek : (key <$> workers s) !! i = Some (WORKER_UNUSED, w_thread w, w_idle w))
    by (rewrite (key_lookup _ _ _ Ew); unfold key; by rewrite Hst).
  pose proof H as [H1 H2 H3 H4 H5].
  destruct created; (eexists; eexists; split; [reflexivity|]).
  - assert (Hsl := slots_spawn _ _ _ _ _ H3 Ek Hi).
    match goal with |- pool_ok ?x => set (s' := x) end.
    assert (Ep : pcs s' = pcs s ++ [W_top]) by (unfold pcs; cbn; by rewrite fmap_app).
    pose proof (pool_ok_alive s H). pose proof (count_range alive (pcs s)). unfold UINT16_MAX in H1.
    split.
    + done.
    + cbn. by rewrite length_alter.
    + cbn. by rewrite (key_alter_at _ _ _ w Ew).
    + rewrite Ep, count_app. change (count alive [W_top]) with 1. cbn -[pcs]. rewrite H4, wrap_small by lia. lia.
    + rewrite Ep, count_app. change (count is_idle [W_top]) with 0. cbn -[pcs]. rewrite H5. lia.
  - split; try done; cbn; [by rewrite length_alter|].
    rewrite (key_alter_at _ _ _ w Ew). unfold key at 1. cbn.
    set (kk := (WORKER_UNUSED, w_thread w, false)).
    split; [| | |apply (s_joins _ _ H3)].
    + intros tid t Ht Hat. destruct (s_alive _ _ H3 _ _ Ht Hat) as (? & ? & E). split_and!; try done.
      rewrite list_lookup_insert_ne; [done|]. intros Ex. rewrite <- Ex in E. congruence.
    + intros j k. destruct (decide (j = i)) as [->|Hne].
      * rewrite list_lookup_insert_eq by (by eapply lookup_lt_Some). by intros [= <-].
      * rewrite list_lookup_insert_ne by done. apply (s_slot _ _ H3).
    + intros tid t k Ht Hk. destruct (s_reap _ _ H3 _ _ _ Ht Hk) as (th & b & E). exists th, b.
      rewrite list_lookup_insert_ne; [done|]. intros Ex. rewrite <- Ex in E. congruence.
Qed.

(** Spawning does not look at what the spawning thread does next. *)
Lemma goto_app tid q s i :
  (tid < length (threads s))%nat ->
  threads (goto tid q (set_threads (threads s ++ [i]) s)) = threads (goto tid q s) ++ [i].
Proof. intros H. unfold goto, set_threads. cbn [threads]. by rewrite alter_app_l. Qed.

Lemma spawn_unused_goto now created s tid q s' ok :
  (tid < length (threads s))%nat ->
  spawn_unused now created (goto tid q s) = Ok (s', ok) ->
  exists s1, spawn_unused now created s = Ok (s1, ok) /\ goto tid q s1 = s'.
Proof.
  intros Hl. unfold spawn_unused.
  change (scan_slots WORKER_UNUSED 1 (goto tid q s)) with (scan_slots WORKER_UNUSED 1 s).
  assert (El : length (threads (goto tid q s)) = length (threads s)) by apply length_alter.
  destruct (scan_slots WORKER_UNUSED 1 s) as [i| |]; [|intros [= <- <-]; eauto|done].
  rewrite El. destruct created; intros [= <- <-]; eexists; (split; [reflexivity|]); [|done].
  unfold goto, set_threads, alter_worker, upd_workers, set_counts. cbn. by rewrite alter_app_l.
Qed.

Lemma check_spare_from_ok tid b t from now created s :
  (tid < length (threads s))%nat ->
  (from <= S (Z.to_nat (max_threads (cfg s))))%nat ->
  pool_ok (goto tid (W_run b t) s) ->
  (forall k w, workers s !! k = Some w -> w_wstate w = WORKER_RETIRING ->
     pool_ok (goto tid (W_join b t k) s)) ->
  exists s', check_spare_from tid b t from now created s = Ok s' /\ pool_ok s'.
Proof.
  intros Hl Hf Hrun Hjoin. unfold check_spare_from, spawn_worker_locked.
  pose proof (scan_slots_ok WORKER_RETIRING from _ Hrun Hf) as Hs.
  change (scan_slots WORKER_RETIRING from (goto tid (W_run b t) s))
    with (scan_slots WORKER_RETIRING from s) in Hs.
  destruct (scan_slots WORKER_RETIRING from s) as [k| |]; [| |done].
  - destruct Hs as (w & Ew & Hst & _). eauto.
  - destruct (spawn_unused_ok now created _ Hrun) as (s2 & ok & E & H2).
    destruct (spawn_unused_goto _ _ _ _ _ _ _ Hl E) as (s1 & -> & E2).
    exists s2. rewrite <- E2 in *. done.
Qed.

(** A worker moves and writes its own slot: only its idle flag can change. *)
Lemma pool_ok_own s s1 tid t q f :
  pool_ok s -> threads s !! tid = Some t -> alive (th_pc t) = true -> alive q = true ->
  reap_at (th_pc t) = None -> reap_at q = None ->
  (forall w, w_wstate w = WORKER_RUNNING -> w_thread w = tid -> w_idle w = is_idle (th_pc t) ->
     key (f w) = (WORKER_RUNNING, tid, is_idle q)) ->
  cfg s1 = cfg s -> workers s1 = alter f (th_slot t) (workers s) -> threads s1 = threads s ->
  pool_size s1 = pool_size s ->
  pool_idle s1 = pool_idle s - Z.b2z (is_idle (th_pc t)) + Z.b2z (is_idle q) ->
  pool_ok (goto tid q s1).
Proof.
  intros H Ht Ha Hq Hr Hrq Hf E1 E2 E3 E4 E5.
  destruct (s_alive _ _ (po_slots _ H) _ _ Ht Ha) as (_ & _ & Es).
  rewrite list_lookup_fmap in Es. destruct (workers s !! th_slot t) as [w|] eqn:Ew; [|done].
  injection Es as Es1 Es2 Es3. rewrite <- E3 in Ht.
  apply (pool_ok_moved s _ tid t q); rewrite ?Ha, ?Hq; try done; try (simpl; lia).
  - by rewrite <- E3.
  - cbn. by rewrite E2, length_alter.
  - rewrite (goto_threads _ _ _ _ Ht). by rewrite E3.
  - cbn [workers goto set_threads]. rewrite E2, (key_alter_at _ _ _ w Ew), (Hf w Es1 Es2 Es3).
    rewrite E3 in Ht. apply slots_move; try done; [apply (po_slots _ H)|by destruct (th_pc t)|].
    intros k Hk. congruence.
Qed.

Lemma idle_bound s : pool_ok s -> 0 <= pool_idle s <= max_threads (cfg s).
Proof.
  intros H. pose proof (pool_ok_alive s H). rewrite (po_idle _ H).
  pose proof (count_range is_idle (pcs s)). split; [lia|].
  etrans; [|exact H0]. apply count_mono, List.Forall_forall. by intros [].
Qed.

Lemma idle_waits s tid t :
  pool_ok s -> threads s !! tid = Some t -> is_idle (th_pc t) = true -> 1 <= pool_idle s.
Proof.
  intros H Ht Hi. rewrite (po_idle _ H). eapply count_pos; [by apply pcs_lookup|done].
Qed.

Lemma idle_below s tid t :
  pool_ok s -> threads s !! tid = Some t -> alive (th_pc t) = true -> is_idle (th_pc t) = false ->
  pool_idle s + 1 <= max_threads (cfg s).
Proof.
  intros H Ht Ha Hi. pose proof (pool_ok_alive s H). rewrite (po_idle _ H).
  apply pcs_lookup in Ht. pose proof (count_insert is_idle _ _ _ W_wait Ht) as E1.
  pose proof (count_insert alive _ _ _ W_wait Ht) as E2. rewrite Hi in E1. rewrite Ha in E2.
  assert (count is_idle (<[tid:=W_wait]> (pcs s)) <= count alive (<[tid:=W_wait]> (pcs s)))
    by (apply count_mono, List.Forall_forall; by intros []).
  simpl in *. lia.
Qed.

Lemma exit_ok s tid t w :
  pool_ok s -> threads s !! tid = Some t -> th_pc t = W_exit -> workers s !! th_slot t = Some w ->
  w_idle w = false ->
  pool_ok (goto tid W_gone (alter_worker (th_slot t)
    (fun w => set_idle false (set_wstate WORKER_RETIRING w))
    (set_counts (wrap 16 (pool_size s - 1)) (pool_idle s) (pool_peak s) (pool_bg s) s))).
Proof.
  intros H Ht Ep Ew Hi. pose proof (pool_ok_alive s H) as Hle. pose proof (po_max _ H) as Hm.
  assert (1 <= pool_size s).
  { rewrite (po_size _ H). eapply count_pos; [by apply pcs_lookup|by rewrite Ep]. }
  unfold UINT16_MAX in Hm.
  destruct (s_alive _ _ (po_slots _ H) _ _ Ht ltac:(by rewrite Ep)) as (_ & _ & Es).
  rewrite (key_lookup _ _ _ Ew) in Es. injection Es as Es1 Es2 Es3.
  eapply (pool_ok_moved s _ tid t W_gone); rewrite ?Ep; try done.
  - cbn. by rewrite length_alter.
  - by rewrite (goto_threads tid W_gone _ t).
  - cbn [workers goto set_threads alter_worker upd_workers set_counts].
    rewrite (key_alter_at _ _ _ w Ew). unfold key at 1. cbn. rewrite Es2.
    apply slots_exit; [apply (po_slots _ H)|done|done].
  - cbn. rewrite wrap_small; [lia|]. rewrite (po_size _ H) in *. lia.
  - cbn. lia.
Qed.

Lemma join_ok s tid t b task k :
  pool_ok s -> apart (threads s) -> threads s !! tid = Some t -> th_pc t = W_join b task k ->
  exists s1, pthread_join k s = Ok s1 /\ pool_ok (goto tid (W_rejoin b task k) s1).
Proof.
  intros H Ha Ht Ep.
  destruct (reap_thread _ _ _ _ _ _ _ (po_slots _ H) Ha Ht Ep) as (th & bi & u & Ek & Hu & Hs & Hg & Hj).
  rewrite list_lookup_fmap in Ek. destruct (workers s !! k) as [w|] eqn:Ew; [|done].
  injection Ek as E1 E2 E3. unfold pthread_join. rewrite Ew, E2, Hu, Hg.
  eexists. split; [reflexivity|]. set (s1 := set_threads _ s).
  assert (Hne : tid <> th) by (intros ->; congruence).
  assert (Ht1 : threads s1 !! tid = Some t) by (unfold s1; cbn; by rewrite list_lookup_insert_ne).
  assert (Ep1 : pcs s1 = pcs s).
  { unfold pcs, s1, set_threads. cbn [threads]. rewrite list_fmap_insert. apply list_insert_id.
    by rewrite list_lookup_fmap, Hu, <- Hg. }
  assert (Ep2 : pcs (goto tid (W_rejoin b task k) s1) = <[tid := W_rejoin b task k]> (pcs s))
    by (by rewrite pcs_goto, Ep1).
  pose proof (pcs_lookup _ _ _ Ht) as Hp. rewrite Ep in Hp. split.
  - apply (po_max _ H).
  - apply (po_len _ H).
  - rewrite (goto_threads _ _ _ _ Ht1). unfold s1. cbn [workers threads set_threads goto].
    assert (Ekk : (key <$> workers s) !! k = Some (WORKER_RETIRING, th, bi))
      by (rewrite (key_lookup _ _ _ Ew); unfold key; congruence).
    by apply (slots_join _ _ _ _ _ _ _ _ _ _ (po_slots _ H) Ha Ht Ep Ekk Hu).
  - rewrite Ep2, (count_insert _ _ _ _ (W_rejoin b task k) Hp). cbn -[pcs]. rewrite (po_size _ H). lia.
  - rewrite Ep2, (count_insert _ _ _ _ (W_rejoin b task k) Hp). cbn -[pcs]. rewrite (po_idle _ H). lia.
Qed.

(** The reaper is back under the mutex. *)
Lemma rejoin_ok s tid t b task k q :
  pool_ok s -> apart (threads s) -> threads s !! tid = Some t -> th_pc t = W_rejoin b task k ->
  alive q = true -> is_idle q = false -> rejoining q = None ->
  (forall i, reap_at q = Some i -> exists w, workers (alter_worker k (set_wstate WORKER_UNUSED) s) !! i = Some w /\
     w_wstate w = WORKER_RETIRING) ->
  pool_ok (goto tid q (alter_worker k (set_wstate WORKER_UNUSED) s)).
Proof.
  intros H Ha Ht Ep Hq Hqi Hqr Hqk.
  destruct (s_reap _ _ (po_slots _ H) _ _ k Ht ltac:(by rewrite Ep)) as (th & bi & Ek).
  assert (Ek' := Ek). rewrite list_lookup_fmap in Ek. destruct (workers s !! k) as [w|] eqn:Ew; [|done].
  injection Ek as E1 E2 E3.
  assert (Eks : key <$> workers (alter_worker k (set_wstate WORKER_UNUSED) s) =
    <[k := (WORKER_UNUSED, th, bi)]> (key <$> workers s)).
  { cbn. rewrite (key_alter_at _ _ _ w Ew). unfold key at 1. cbn. by rewrite E2, E3. }
  apply (pool_ok_moved s _ tid t q); rewrite ?Ep, ?Hq, ?Hqi; try done; try (cbn; lia).
  - cbn. by rewrite length_alter.
  - rewrite (goto_threads tid q _ t); done.
  - change (workers (goto tid q (alter_worker k (set_wstate WORKER_UNUSED) s)))
      with (workers (alter_worker k (set_wstate WORKER_UNUSED) s)).
    rewrite Eks. apply (slots_unreap _ _ _ _ _ _ _ _ _ _ (po_slots _ H) Ha Ht Ep Ek' Hq Hqi Hqr).
    intros i Hi. destruct (Hqk i Hi) as (w' & Hw' & Hst). rewrite <- Eks.
    exists (w_thread w'), (w_idle w'). rewrite (key_lookup _ _ _ Hw'). unfold key. by rewrite Hst.
Qed.

(** As long as no slot is reaped by two threads, a living worker can always step, in
    bounds, and the pool stays as it should be. *)
Lemma worker_entry_ok tid a s t w :
  pool_ok s -> apart (threads s) -> threads s !! tid = Some t -> alive (th_pc t) = true ->
  workers s !! th_slot t = Some w ->
  exists s', worker_entry tid a s t w = Ok s' /\ pool_ok s'.
Proof.
  intros H Hap Ht Ha Ew.
  pose proof (idle_bound _ H). pose proof (po_max _ H) as Hm. unfold UINT16_MAX in Hm.
  assert (Hw : is_idle (th_pc t) = w_idle w).
  { destruct (s_alive _ _ (po_slots _ H) _ _ Ht Ha) as (_ & _ & Es).
    rewrite (key_lookup _ _ _ Ew) in Es. by injection Es. }
  assert (Hlt : (tid < length (threads s))%nat) by (by eapply lookup_lt_Some).
  unfold worker_entry. destruct (th_pc t) as [| |claimed|claimed got| | | | |b k|b k j|b k j|b k|b r| |] eqn:E.
  - eexists. split; [reflexivity|]. apply (pool_ok_goto s s tid t); rewrite ?E; try done; by destruct (pool_stopping s).
  - unfold pool_bg_claim. eexists. split; [reflexivity|]. by apply (pool_ok_goto s _ tid t); rewrite ?E.
  - destruct (task_assign _ _ _ _ _) as [c got]. eexists. split; [reflexivity|].
    by apply (pool_ok_goto s _ tid t); rewrite ?E.
  - eexists. split; [reflexivity|]. destruct (claimed && _), got;
      by apply (pool_ok_goto s _ tid t); rewrite ?E.
  - eexists. split; [reflexivity|]. destruct (should_retire _ _ _);
      by apply (pool_ok_goto s _ tid t); rewrite ?E.
  - (* goes idle *)
    eexists. split; [reflexivity|].
    pose proof (idle_below _ _ _ H Ht ltac:(by rewrite E) ltac:(by rewrite E)).
    apply (pool_ok_own s _ tid t _ (set_idle true)); rewrite ?E; try done.
    + intros v E1 E2 E3. unfold key. cbn. congruence.
    + cbn. rewrite wrap_small by lia. lia.
  - eexists. split; [reflexivity|]. by apply (pool_ok_goto s _ tid t); rewrite ?E.
  - (* wakes *)
    eexists. split; [reflexivity|].
    pose proof (idle_waits _ _ _ H Ht ltac:(by rewrite E)).
    apply (pool_ok_own s _ tid t _ (set_idle false)); rewrite ?E; try done.
    + intros v E1 E2 E3. unfold key. cbn. congruence.
    + cbn. rewrite wrap_small by lia. lia.
  - unfold check_spare. destruct (wants_spare s).
    + apply check_spare_from_ok; try done; [lia|by apply (pool_ok_goto s _ tid t); rewrite ?E|].
      intros i v Ei Hst. apply (pool_ok_goto s _ tid t); rewrite ?E; try done.
      intros i' [= <-]. eauto.
    + eexists. split; [reflexivity|]. by apply (pool_ok_goto s _ tid t); rewrite ?E.
  - destruct (join_ok _ _ _ _ _ _ H Hap Ht E) as (s1 & -> & H1). eauto.
  - destruct (s_reap _ _ (po_slots _ H) _ _ j Ht ltac:(by rewrite E)) as (th & bi & Ej).
    rewrite list_lookup_fmap in Ej. destruct (workers s !! j) as [v|] eqn:Ev; [|done].
    pose proof (lookup_lt_Some _ _ _ Ev) as Hj. rewrite (po_len _ H) in Hj.
    apply check_spare_from_ok; try done.
    + by apply (rejoin_ok s tid t b k j).
    + intros i v' Ei Hst. apply (rejoin_ok s tid t b k j); try done. intros i' [= <-]. eauto.
  - destruct (task_finish _ _ _ _ _) as [[c r] f]. eexists. split; [reflexivity|].
    by apply (pool_ok_goto s _ tid t); rewrite ?E.
  - (* the job is counted *)
    assert (Hg : forall q s1, alive q = true -> is_idle q = false -> reap_at q = None ->
      cfg s1 = cfg s -> workers s1 = alter (job_done (a_now a)) (th_slot t) (workers s) ->
      threads s1 = threads s -> pool_size s1 = pool_size s -> pool_idle s1 = pool_idle s ->
      pool_ok (goto tid q s1)).
    { intros q s1 Q1 Q2 Q3 C1 C2 C3 C4 C5.
      apply (pool_ok_goto s _ tid t); rewrite ?E; try done; [by rewrite Q3|].
      rewrite C2. by apply key_alter. }
    eexists. split; [reflexivity|]. unfold pool_shutdown.
    destruct b, (decide (r = TASK_FATAL)); try destruct (pool_stopping _); by apply Hg.
  - eexists. split; [reflexivity|]. rewrite <- Hw. by apply (exit_ok s tid t w).
  - done.
Qed.

Lemma worker_step_ok tid a s t :
  pool_ok s -> apart (threads s) -> threads s !! tid = Some t -> alive (th_pc t) = true ->
  exists s', worker_step tid a s = Ok s' /\ pool_ok s'.
Proof.
  intros H Hap Ht Ha. unfold worker_step. rewrite Ht.
  destruct (s_alive _ _ (po_slots _ H) _ _ Ht Ha) as (_ & _ & Es).
  rewrite list_lookup_fmap in Es. destruct (workers s !! th_slot t) as [w|] eqn:Ew; [|done].
  assert (Hstep := worker_entry_ok tid a s t w H Hap Ht Ha Ew).
  by destruct (th_pc t).
Qed.

Lemma pool_ok_frame s s' :
  cfg s' = cfg s -> key <$> workers s' = key <$> workers s -> threads s' = threads s ->
  pool_size s' = pool_size s -> pool_idle s' = pool_idle s -> pool_ok s -> pool_ok s'.
Proof.
  intros E1 E2 E3 E4 E5 [H1 H2 H3 H4 H5].
  assert (El : length (workers s') = length (workers s))
    by (apply (f_equal length) in E2; by rewrite !length_fmap in E2).
  split; rewrite ?E1, ?El, ?E2, ?E3, ?E4, ?E5; try done; unfold pcs; by rewrite E3.
Qed.

(** Executions before [pool_exit], under one configuration. *)
Definition before_exit (e : event) : Prop :=
  match e with Ev_config _ | Ev_exit => False | _ => True end.

(** Every state of the execution, but the last, has the property. *)
Fixpoint along (P : pool -> Prop) (es : list event) (x : world) : Prop :=
  match es with
  | [] => True
  | e :: es' =>
      P (x.2) /\ match world_step e x with Ok x' => along P es' x' | _ => True end
  end.

Lemma pool_run_parent_ok sg a m s :
  match pool_run_parent sg a m s with
  | Ok (_, s') => pool_ok s -> pool_ok s'
  | Blocked => True
  | Fault => False
  end.
Proof.
  unfold pool_run_parent.
  destruct m as [|t| |i|i|]; try done.
  - destruct (pool_stopping s || sg); [done|]. destruct (task_assign _ _ _ _ _) as [c [t|]];
      by apply pool_ok_frame.
  - destruct (task_finish _ _ _ _ _) as [[c r] f].
    assert (Ek : forall f, (forall w, key (f w) = key w) -> key <$> alter f 0%nat (workers s) = key <$> workers s)
      by (intros; by apply key_alter).
    destruct (decide (r = TASK_FATAL)); apply pool_ok_frame; unfold pool_shutdown;
      try destruct (pool_stopping _); try done; by apply (Ek (job_done (a_now a))).
Qed.

Lemma world_step_ok e m s :
  before_exit e -> pool_ok s -> apart (threads s) ->
  match world_step e (m, s) with
  | Ok (_, s') => pool_ok s'
  | Blocked => True
  | Fault => False
  end.
Proof.
  intros He H Hap. destruct e as [tid a|c|kv| |sg a|]; cbn [world_step]; try done.
  - destruct (worker_step tid a s) as [s'| |] eqn:E; try done;
      destruct (threads s !! tid) as [t|] eqn:Et;
      try (unfold worker_step in E; rewrite Et in E; done);
      (destruct (alive (th_pc t)) eqn:Ea;
       [destruct (worker_step_ok tid a s t H Hap Et Ea) as (s2 & E2 & ?); congruence
       |unfold worker_step in E; rewrite Et in E; destruct (th_pc t); done]).
  - by apply (pool_ok_frame s).
  - apply (pool_ok_frame s); unfold pool_shutdown; by destruct (pool_stopping s).
  - pose proof (pool_run_parent_ok sg a m s) as Hp.
    destruct (pool_run_parent sg a m s) as [[m' s']| |]; try done. by apply Hp.
Qed.

Lemma run_ok es : forall m s,
  Forall before_exit es -> pool_ok s -> along (fun s => apart (threads s)) es (m, s) ->
  match run es (m, s) with
  | Ok (_, s') => pool_ok s'
  | Blocked => True
  | Fault => False
  end.
Proof.
  induction es as [|e es IH]; intros m s Hes H Hal; cbn [run]; [done|].
  inversion_clear Hes as [|?? He Hes']. destruct Hal as [Hap Hal].
  pose proof (world_step_ok e m s He H Hap) as Hs.
  destruct (world_step e (m, s)) as [[m' s']| |] eqn:E; try done.
  by apply IH.
Qed.

Lemma spawn_min_ok n now created : forall s s',
  pool_ok s -> spawn_min n now created s = Ok s' -> pool_ok s'.
Proof.
  induction n as [|n IH]; intros s s' H; cbn [spawn_min]; [by intros [= <-]|].
  destruct (spawn_worker_locked 1 now (created n) s) as [[s1 [|]|k]| |] eqn:E; try done;
    apply spawn_worker_locked_effect in E; destruct (spawn_unused_ok now (created n) s H) as (s2 & ok & E2 & H2).
  - intros E'. apply (IH s1); [congruence|done].
  - intros [= <-]. congruence.
Qed.

Lemma pool_init_ok now created c sc s :
  1 <= max_threads c < UINT16_MAX ->
  pool_init now created (set_cfg c (pool_statics sc)) = Ok s -> pool_ok s.
Proof.
  intros Hm. unfold pool_init. destruct (spawn_min _ _ _ _) as [s1| |] eqn:E; [|done|done].
  intros [= <-]. apply (pool_ok_frame s1); try done. eapply spawn_min_ok; [|exact E].
  split; try done.
  - cbn. by rewrite length_replicate.
  - change (slots_ok (key <$> replicate (S (Z.to_nat (max_threads c))) fresh_worker) []).
    split; try (intros tid t Ht; by rewrite lookup_nil in Ht);
      try (intros tid t k Ht; by rewrite lookup_nil in Ht).
    intros i k Hk. rewrite list_lookup_fmap in Hk.
    destruct (_ !! i) as [w|] eqn:Ew; [|done]. injection Hk as <-.
    by apply lookup_replicate in Ew as [-> _].
Qed.


(** A decision procedure for [apart], for concrete executions. *)
Definition reap_slots (ts : list thr) : list nat := omap (fun t => reap_at (th_pc t)) ts.

Lemma reap_slots_in ts i t k :
  ts !! i = Some t -> reap_at (th_pc t) = Some k -> k ∈ reap_slots ts.
Proof.
  intros Hi Hk. apply list_elem_of_omap. exists t. split; [by eapply list_elem_of_lookup_2|done].
Qed.

Lemma apart_nodup ts : NoDup (reap_slots ts) -> apart ts.
Proof.
  induction ts as [|x ts IH]; intros Hn i j t u k Ht Hu Hk Hk'; [done|].
  unfold reap_slots in *. cbn [omap list_omap] in Hn.
  destruct i as [|i], j as [|j]; cbn in Ht, Hu; simplify_eq; try done.
  - rewrite Hk in Hn. apply list.NoDup_cons in Hn as [Hn _]. by destruct (Hn (reap_slots_in ts j u k Hu Hk')).
  - rewrite Hk' in Hn. apply list.NoDup_cons in Hn as [Hn _]. by destruct (Hn (reap_slots_in ts i t k Ht Hk)).
  - f_equal. assert (Hn' : NoDup (omap (fun t => reap_at (th_pc t)) ts)).
    { destruct (reap_at (th_pc x)); [by apply list.NoDup_cons in Hn as [_ Hn]|done]. }
    exact (IH Hn' i j t u k Ht Hu Hk Hk').
Qed.

Fixpoint apart_along (es : list event) (x : world) : bool :=
  match es with
  | [] => true
  | e :: es' =>
      bool_decide (NoDup (reap_slots (threads (x.2)))) &&
      match world_step e x with Ok x' => apart_along es' x' | _ => true end
  end.

Lemma apart_along_spec es x : apart_along es x = true -> along (fun s => apart (threads s)) es x.
Proof.
  revert x. induction es as [|e es IH]; intros x; cbn [apart_along along]; [done|].
  intros [H1%bool_decide_eq_true H2]%andb_true_iff. split; [by apply apart_nodup|].
  destruct (world_step e x); auto.
Qed.

(** A worker retires and another reaps its slot for a new one. *)
Definition reap_once : list event := take 29 reap_race ++ map (by_worker 1000 (ended 1)) [0; 0]%nat.

Definition reap_once_end : world := the_world (run reap_once (M_loop, sample_start.2)).

Lemma reap_once_Ok : run reap_once (M_loop, sample_start.2) = Ok (M_loop, reap_once_end.2).
Proof. vm_compute. reflexivity. Qed.

Lemma reap_once_apart : apart_along reap_once (M_loop, sample_start.2) = true.
Proof. vm_compute. reflexivity. Qed.

Lemma reap_once_events : Forall before_exit reap_once.
Proof. apply List.Forall_forall. intros e He. vm_compute in He. intuition (by subst). Qed.

Lemma sample_max : 1 <= max_threads sample_cfg < UINT16_MAX.
Proof. by vm_compute. Qed.


(** ** Shutdown *)

(** How many more steps a worker can take once the pool is stopping, those of the
    worker it may still spawn included; [M] is the last slot. *)
Definition weight (M : nat) (p : wpc) : nat :=
  match p with
  | W_gone => 0
  | W_exit => 1
  | W_top => 2
  | W_finished _ _ | W_wake => 3
  | W_run _ _ | W_wait => 4
  | W_idle => 5
  | W_retire => 6
  | W_rejoin _ _ k => 7 + 2 * (M - k)
  | W_join _ _ k => 8 + 2 * (M - k)
  | W_spare _ _ => 9 + 2 * M
  | W_assigned _ _ => 10 + 2 * M
  | W_assign _ => 11 + 2 * M
  | W_claim => 12 + 2 * M
  end.

Definition last_slot (s : pool) : nat := Z.to_nat (max_threads (cfg s)).

Definition work_left (s : pool) : nat := sum_list_with (weight (last_slot s)) (pcs s).

Lemma sum_insert {A} (f : A -> nat) l i x y :
  l !! i = Some x ->
  (sum_list_with f (<[i:=y]> l) + f x = sum_list_with f l + f y)%nat.
Proof.
  revert i. induction l as [|z l IH]; intros i H; [done|]. destruct i as [|i].
  - injection H as ->. cbn. lia.
  - change (<[S i:=y]> (z :: l)) with (z :: <[i:=y]> l). cbn [sum_list_with].
    specialize (IH i H). lia.
Qed.

Lemma work_left_move s s' tid p q :
  pcs s !! tid = Some p -> cfg s' = cfg s -> pcs s' = <[tid := q]> (pcs s) ->
  (weight (last_slot s) q < weight (last_slot s) p)%nat -> (work_left s' < work_left s)%nat.
Proof.
  intros Hp Hc Hq Hw. unfold work_left, last_slot in *. rewrite Hc, Hq.
  pose proof (sum_insert (weight (Z.to_nat (max_threads (cfg s)))) _ _ _ q Hp). lia.
Qed.

Lemma scan_bound st ws from n i : scan st ws from n = Found i -> (from <= i < from + n)%nat.
Proof.
  revert from. induction n as [|n IH]; intros from; simpl; [done|].
  destruct (ws !! from) as [w|]; [|done]. destruct (decide _); [intros [= ->]; lia|].
  intros H%IH. lia.
Qed.

(** Reaping goes up through the slots, and a spawned worker has two steps to live. *)
Lemma check_spare_from_left tid b t from now created s s' p :
  pcs s !! tid = Some p -> (1 <= from)%nat ->
  (6 < weight (last_slot s) p)%nat ->
  (forall k, (from <= k <= last_slot s)%nat -> (8 + 2 * (last_slot s - k) < weight (last_slot s) p)%nat) ->
  check_spare_from tid b t from now created s = Ok s' ->
  (work_left s' < work_left s)%nat /\ pool_stopping s' = pool_stopping s /\ cfg s' = cfg s.
Proof.
  intros Hp Hf H6 Hk. unfold check_spare_from.
  destruct (spawn_worker_locked from now created s) as [[s1 ok|k]| |] eqn:E; [| |done|done];
    intros [= <-].
  - apply spawn_worker_locked_effect, spawn_unused_effect in E as (E1 & _ & E2 & E3).
    split; [|by rewrite <- E1, <- E2].
    destruct E3 as [(_ & E3 & _)|(_ & _ & i & E3)].
    + apply (work_left_move s _ tid p (W_run b t)); try done.
      * rewrite pcs_goto. unfold pcs. by rewrite E3.
      * cbn [weight]. lia.
    + unfold work_left, last_slot in *. cbn [cfg goto set_threads]. rewrite E1.
      change (pcs (goto tid (W_run b t) s1)) with (pcs (goto tid (W_run b t) s1)).
      rewrite pcs_goto. unfold pcs at 1. rewrite E3, fmap_app. fold (pcs s).
      rewrite insert_app_l by (by eapply lookup_lt_Some).
      rewrite sum_list_with_app. cbn.
      pose proof (sum_insert (weight (Z.to_nat (max_threads (cfg s)))) _ _ _ (W_run b t) Hp) as Hs.
      cbn [weight] in Hs. lia.
  - split; [|done]. apply (work_left_move s _ tid p (W_join b t k)); try done; [apply pcs_goto|].
    unfold spawn_worker_locked in E. destruct (scan_slots _ _ _) as [j| |] eqn:Es; try done.
    + injection E as ->. apply scan_bound in Es. cbn [weight]. apply Hk.
      unfold last_slot in *. lia.
    + by destruct (spawn_unused _ _ _) as [[? ?]| |].
Qed.

Lemma worker_entry_left tid a s t w s' :
  pool_stopping s = true -> threads s !! tid = Some t -> worker_entry tid a s t w = Ok s' ->
  (work_left s' < work_left s)%nat /\ pool_stopping s' = true /\ cfg s' = cfg s.
Proof.
  intros Hst Ht%pcs_lookup.
  assert (Hm : forall q s1, cfg s1 = cfg s -> pcs s1 = pcs s -> pool_stopping s1 = true ->
    (weight (last_slot s) q < weight (last_slot s) (th_pc t))%nat ->
    (work_left (goto tid q s1) < work_left s)%nat /\ pool_stopping (goto tid q s1) = true /\
    cfg (goto tid q s1) = cfg s).
  { intros q s1 E1 E2 E3 Hw. split; [|done]. apply (work_left_move s _ tid (th_pc t) q); try done.
    by rewrite pcs_goto, E2. }
  assert (Hspare : forall b k from s1, th_pc t = W_spare b k \/ (exists j, th_pc t = W_rejoin b k j /\ from = S j) ->
    (1 <= from)%nat -> cfg s1 = cfg s -> pcs s1 = pcs s -> pool_stopping s1 = true ->
    check_spare_from tid b k from (a_now a) (a_created a) s1 = Ok s' ->
    (work_left s' < work_left s)%nat /\ pool_stopping s' = true /\ cfg s' = cfg s).
  { intros b k from s1 Hpc Hf E1 E2 E3 Hc.
    assert (El : work_left s1 = work_left s) by (unfold work_left, last_slot; by rewrite E1, E2).
    rewrite <- El, <- E1, <- E3.
    apply (check_spare_from_left tid b k from (a_now a) (a_created a) s1 s' (th_pc t)); try done;
      [by rewrite E2| |]; unfold last_slot; rewrite E1;
      destruct Hpc as [->|(j & -> & ->)]; cbn [weight]; lia. }
  unfold worker_entry. destruct (th_pc t) as [| |claimed|claimed got| | | | |b k|b k j|b k j|b k|b r| |] eqn:E.
  - intros [= <-]. rewrite Hst. apply Hm; try done. cbn. lia.
  - unfold pool_bg_claim. intros [= <-]. apply Hm; try done. cbn. lia.
  - destruct (task_assign _ _ _ _ _) as [c got]. intros [= <-]. apply Hm; try done. cbn. lia.
  - intros [= <-]. destruct (claimed && _), got; apply Hm; try done; cbn; lia.
  - intros [= <-]. destruct (should_retire _ _ _); apply Hm; try done; cbn; lia.
  - intros [= <-]. apply Hm; try done. cbn. lia.
  - intros [= <-]. apply Hm; try done. cbn. lia.
  - intros [= <-]. apply Hm; try done. cbn. lia.
  - unfold check_spare. destruct (wants_spare s).
    + apply (Hspare b k 1%nat s); auto.
    + intros [= <-]. apply Hm; try done. cbn. lia.
  - destruct (pthread_join j s) as [s1| |] eqn:Ej; [|done|done]. intros [= <-].
    apply pthread_join_pcs in Ej as (E1 & E2 & _ & _ & _ & _ & E3 & _).
    apply Hm; try done; [congruence|cbn; lia].
  - destruct (workers s !! j); [|done]. apply (Hspare b k (S j)); eauto. lia.
  - destruct (task_finish _ _ _ _ _) as [[c r] f]. intros [= <-]. apply Hm; try done. cbn. lia.
  - intros [= <-].
    assert (Hsd : forall s1, pool_stopping s1 = true -> pool_shutdown s1 = s1)
      by (intros s1 Hs1; unfold pool_shutdown; by rewrite Hs1).
    destruct b, (decide (r = TASK_FATAL)); rewrite ?Hsd by done; apply Hm; try done; cbn; lia.
  - intros [= <-]. apply Hm; try done. cbn. lia.
  - done.
Qed.

Lemma worker_step_left tid a s s' :
  pool_stopping s = true -> worker_step tid a s = Ok s' ->
  (work_left s' < work_left s)%nat /\ pool_stopping s' = true.
Proof.
  intros Hst. unfold worker_step. destruct (threads s !! tid) as [t|] eqn:Et; [|done].
  destruct (th_pc t) eqn:Ep; try done; (destruct (workers s !! th_slot t) as [w|]; [|done]);
    intros H; destruct (worker_entry_left _ _ _ _ _ _ Hst Et H) as (? & ? & _); done.
Qed.

Definition worker_event (e : event) : Prop := match e with Ev_worker _ _ => True | _ => False end.

Lemma workers_run_left es : forall m s m' s',
  Forall worker_event es -> pool_stopping s = true -> run es (m, s) = Ok (m', s') ->
  (length es + work_left s' <= work_left s)%nat /\ m' = m.
Proof.
  induction es as [|e es IH]; intros m s m' s' Hes Hst; cbn [run length]; [intros [= <- <-]; split; [lia|done]|].
  inversion_clear Hes as [|?? He Hes']. destruct e as [tid a| | | | |]; try done. cbn [world_step].
  destruct (worker_step tid a s) as [s1| |] eqn:E; [|done|done]. intros Hr.
  destruct (worker_step_left _ _ _ _ Hst E) as [Hl Hs1].
  destruct (IH _ _ _ _ Hes' Hs1 Hr) as [? ->]. split; [lia|done].
Qed.


(** The sample pool with a job in hand is told to stop; its three workers exit. *)
Definition stop_events : list event := sample_events ++ [Ev_shutdown].

Definition drain_events : list event :=
  map (by_worker 20 (ended 1)) [0; 0; 0; 0; 0; 1; 1; 1; 1; 1; 1; 1; 1; 2; 2; 3; 3]%nat.

Definition stop_end : world := the_world (run stop_events (M_loop, sample_start.2)).
Definition drain_end : world := the_world (run drain_events (M_loop, stop_end.2)).

Lemma stop_Ok : run stop_events (M_loop, sample_start.2) = Ok (M_loop, stop_end.2).
Proof. vm_compute. reflexivity. Qed.

Lemma drain_Ok : run drain_events (M_loop, stop_end.2) = Ok (M_loop, drain_end.2).
Proof. vm_compute. reflexivity. Qed.

Lemma drain_apart : apart_along (stop_events ++ drain_events) (M_loop, sample_start.2) = true.
Proof. vm_compute. reflexivity. Qed.

Lemma stop_events_before_exit : Forall before_exit stop_events.
Proof. by repeat constructor. Qed.

Lemma drain_events_workers : Forall worker_event drain_events.
Proof. by repeat constructor. Qed.

Lemma stop_stops : pool_stopping (stop_end.2) = true.
Proof. vm_compute. reflexivity. Qed.

Lemma drain_gone : Forall (fun p => alive p = false) (pcs (drain_end.2)).
Proof. vm_compute. by repeat constructor. Qed.

