(* ===== verification/PoolPersist.v ===== *)
(** * Persistent task threads: the second half of core/pool.c

    A persistent task runs on a thread of its own, in one of sixteen slots. Other
    threads spawn such threads, and a plugin that unloads joins them with a timeout
    before its code is unmapped. Both let go of the mutex around pthread_join: a slot
    is WORKER_JOINING meanwhile. Threads and callers are program counters, and a step
    is one critical section or one join, as in [Pool]; joining a thread a second time,
    which POSIX leaves undefined, is a [Fault]. *)

From S2P Require Import Prelude Task Pool PoolSlots.

(** ** Data *)

Definition POOL_MAX_PERSIST : nat := 16.

(** A persistent thread in [persist_entry]; [T_retired] is between
    [persist_retire_self] and the exit of the thread. *)
Inductive tpc := T_run (t : task_t) | T_count (result : task_state_t) | T_retire (result : task_state_t)
| T_retired | T_gone.

Record pthr := mk_pthr { pt_pc : tpc; pt_task : Z; pt_joins : nat }.

(** A caller in [pool_spawn_persist] (reaping from slot [from], joining in slot [k],
    back from the join) or in [pool_join_persist] (before its look for the id, in the
    timed join, back from it). [C_joined] keeps the thread that was waited for. *)
Inductive cpc :=
| C_spawn (t : task_t) (from : nat)
| C_reap (t : task_t) (k : nat)
| C_reaped (t : task_t) (k : nat)
| C_spawned (ok : bool)
| C_look (id : Z)
| C_wait (id : Z) (slot thread : nat) (prev : worker_state_t)
| C_waited (id : Z) (slot thread : nat) (prev : worker_state_t) (rc : bool)
| C_joined (id : Z) (thread : option nat) (ok : bool).

Record persist_pool := mk_pp {
  persist_workers : list worker_t;
  persist_count : Z;
  pthreads : list pthr;
  callers : list cpc;
  p_stopping : bool;
  p_sch : sched
}.

Definition set_slots (ws : list worker_t) (s : persist_pool) : persist_pool :=
  mk_pp ws (persist_count s) (pthreads s) (callers s) (p_stopping s) (p_sch s).
Definition set_pcount (n : Z) (s : persist_pool) : persist_pool :=
  mk_pp (persist_workers s) n (pthreads s) (callers s) (p_stopping s) (p_sch s).
Definition set_pthreads (ts : list pthr) (s : persist_pool) : persist_pool :=
  mk_pp (persist_workers s) (persist_count s) ts (callers s) (p_stopping s) (p_sch s).
Definition set_callers (cs : list cpc) (s : persist_pool) : persist_pool :=
  mk_pp (persist_workers s) (persist_count s) (pthreads s) cs (p_stopping s) (p_sch s).
Definition set_psch (b : bool) (c : sched) (s : persist_pool) : persist_pool :=
  mk_pp (persist_workers s) (persist_count s) (pthreads s) (callers s) b c.

Definition alter_slot (k : nat) (f : worker_t -> worker_t) (s : persist_pool) : persist_pool :=
  set_slots (alter f k (persist_workers s)) s.

Definition set_task (id : Z) (w : worker_t) : worker_t :=
  mk_worker (w_id w) (w_thread w) (w_jobs w) (w_created w) (w_last_active w) (w_wstate w) (w_idle w) id.

(** The first slot, from [from] on, that satisfies [P]. *)
Fixpoint first_slot (P : worker_t -> bool) (ws : list worker_t) (from : nat) : option nat :=
  match ws with
  | [] => None
  | w :: ws' =>
      match from with
      | O => if P w then Some 0%nat else S <$> first_slot P ws' 0
      | S n => S <$> first_slot P ws' n
      end
  end.

Definition in_state (st : worker_state_t) (w : worker_t) : bool := bool_decide (w_wstate w = st).

(** ** A persistent thread *)

Definition move_thread (tid : nat) (pc : tpc) (s : persist_pool) : persist_pool :=
  set_pthreads (alter (fun t => mk_pthr pc (pt_task t) (pt_joins t)) tid (pthreads s)) s.

Definition persist_retire_self (tid : nat) (s : persist_pool) : persist_pool :=
  match first_slot (fun w => in_state WORKER_RUNNING w && Nat.eqb (w_thread w) tid)
          (persist_workers s) 0 with
  | Some k => alter_slot k (set_wstate WORKER_RETIRING) s
  | None => s
  end.

(** [obj] is the task object as its callback leaves it. *)
Definition persist_entry (tid : nat) (now : Z) (obj : task_t) (s : persist_pool) : outcome persist_pool :=
  match pthreads s !! tid with
  | None => Blocked
  | Some t =>
      match pt_pc t with
      | T_run _ =>
          let '(c, _, _) := task_finish now now (p_stopping s) obj (p_sch s) in
          Ok (move_thread tid (T_count (t_state obj)) (set_psch (p_stopping s) c s))
      | T_count result =>
          Ok (move_thread tid (T_retire result) (set_pcount (wrap 16 (persist_count s - 1)) s))
      | T_retire result =>
          let s := if decide (result = TASK_FATAL) then set_psch true (p_sch s) s else s in
          Ok (move_thread tid T_retired (persist_retire_self tid s))
      | T_retired => Ok (move_thread tid T_gone s)
      | T_gone => Blocked
      end
  end.

(** [pthread_join]: waits for the exit of a thread that must not have been joined. *)
Definition join_thread (th : nat) (s : persist_pool) : outcome persist_pool :=
  match pthreads s !! th with
  | None => Fault
  | Some t =>
      match pt_joins t, pt_pc t with
      | S _, _ => Fault
      | O, T_gone => Ok (set_pthreads (<[th := mk_pthr T_gone (pt_task t) 1]> (pthreads s)) s)
      | O, _ => Blocked
      end
  end.

(** ** Callers *)

Definition move_caller (c : nat) (pc : cpc) (s : persist_pool) : persist_pool :=
  set_callers (<[c := pc]> (callers s)) s.

(** The rest of [pool_spawn_persist] after the reap: a slot for the task. *)
Definition spawn_persist_slot (t : task_t) (now : Z) (created : bool) (s : persist_pool)
    : persist_pool * bool :=
  match first_slot (in_state WORKER_UNUSED) (persist_workers s) 0 with
  | None => (s, false)
  | Some k =>
      let fill st id := alter_slot k (fun w =>
        mk_worker (wrap 8 (Z.of_nat k)) (if created then length (pthreads s) else w_thread w) 1
          now now st false id) s in
      if created then
        let s' := fill WORKER_RUNNING (t_id t) in
        (set_pthreads (pthreads s ++ [mk_pthr (T_run (set_run now (wrap 32 (t_run_count t + 1)) t)) (t_id t) 0])
           (set_pcount (wrap 16 (persist_count s + 1)) s'), true)
      else (fill WORKER_UNUSED TASK_HANDLE_NONE, false)
  end.

(** [reap_persist_locked] from slot [from], then the slot. *)
Definition pool_spawn_persist (c : nat) (t : task_t) (from : nat) (now : Z) (created : bool)
    (s : persist_pool) : persist_pool :=
  match first_slot (in_state WORKER_RETIRING) (persist_workers s) from with
  | Some k => move_caller c (C_reap t k) (alter_slot k (set_wstate WORKER_JOINING) s)
  | None =>
      let '(s, ok) := spawn_persist_slot t now created s in
      move_caller c (C_spawned ok) s
  end.

(** [pool_join_persist] up to the unlock before the timed join. *)
Definition join_persist_look (c : nat) (id : Z) (s : persist_pool) : persist_pool :=
  if id =? TASK_HANDLE_NONE then move_caller c (C_joined id None true) s
  else
    match first_slot (fun w => (w_task_id w =? id) && (in_state WORKER_RUNNING w || in_state WORKER_RETIRING w))
            (persist_workers s) 0 with
    | None => move_caller c (C_joined id None true) s
    | Some k =>
        match persist_workers s !! k with
        | None => s
        | Some w =>
            move_caller c (C_wait id k (w_thread w) (w_wstate w)) (alter_slot k (set_wstate WORKER_JOINING) s)
        end
    end.

Definition free_slot (k : nat) (s : persist_pool) : persist_pool :=
  alter_slot k (fun w => set_task TASK_HANDLE_NONE (set_wstate WORKER_UNUSED w)) s.

(** [timed_out]: the deadline lapsed before the thread was seen to exit. *)
Definition caller_step (c : nat) (now : Z) (created timed_out : bool) (s : persist_pool)
    : outcome persist_pool :=
  match callers s !! c with
  | None => Blocked
  | Some (C_spawn t from) => Ok (pool_spawn_persist c t from now created s)
  | Some (C_reap t k) =>
      match persist_workers s !! k with
      | None => Fault
      | Some w =>
          match join_thread (w_thread w) s with
          | Ok s => Ok (move_caller c (C_reaped t k) s)
          | Blocked => Blocked
          | Fault => Fault
          end
      end
  | Some (C_reaped t k) => Ok (pool_spawn_persist c t (S k) now created (free_slot k s))
  | Some (C_spawned _) => Blocked
  | Some (C_look id) => Ok (join_persist_look c id s)
  | Some (C_wait id k th prev) =>
      if timed_out then Ok (move_caller c (C_waited id k th prev false) s)
      else
        match join_thread th s with
        | Ok s => Ok (move_caller c (C_waited id k th prev true) s)
        | Blocked => Blocked
        | Fault => Fault
        end
  | Some (C_waited id k th prev rc) =>
      if rc then Ok (move_caller c (C_joined id (Some th) true) (free_slot k s))
      else
        match join_thread th s with                       (* pthread_tryjoin_np *)
        | Ok s => Ok (move_caller c (C_joined id (Some th) true) (free_slot k s))
        | Blocked => Ok (move_caller c (C_joined id (Some th) false) (alter_slot k (set_wstate prev) s))
        | Fault => Fault
        end
  | Some (C_joined _ _ _) => Blocked
  end.

(** ** Executions *)

Inductive pevent :=
| Pe_thread (tid : nat) (now : Z) (obj : task_t)
| Pe_caller (c : nat) (now : Z) (created timed_out : bool)
| Pe_spawn (t : task_t)
| Pe_join (id : Z)
| Pe_sched (stopping : bool) (c : sched).

Definition persist_step (e : pevent) (s : persist_pool) : outcome persist_pool :=
  match e with
  | Pe_thread tid now obj => persist_entry tid now obj s
  | Pe_caller c now created timed_out => caller_step c now created timed_out s
  | Pe_spawn t => Ok (set_callers (callers s ++ [C_spawn t 0]) s)
  | Pe_join id => Ok (set_callers (callers s ++ [C_look id]) s)
  | Pe_sched b c => Ok (set_psch (p_stopping s || b) c s)
  end.

Fixpoint persist_run (es : list pevent) (s : persist_pool) : outcome persist_pool :=
  match es with
  | [] => Ok s
  | e :: es' =>
      match persist_step e s with Ok s => persist_run es' s | Blocked => Blocked | Fault => Fault end
  end.

(** [pool_init]. *)
Definition persist_init (c : sched) : persist_pool :=
  mk_pp (replicate POOL_MAX_PERSIST fresh_worker) 0 [] [] false c.

(** The second loop of [pool_exit], when nobody else is left. *)
Fixpoint pool_exit_persist (n k : nat) (s : persist_pool) : outcome persist_pool :=
  match n with
  | O => Ok s
  | S n' =>
      match persist_workers s !! k with
      | None => Fault
      | Some w =>
          if in_state WORKER_RUNNING w || in_state WORKER_RETIRING w then
            match join_thread (w_thread w) s with
            | Ok s => pool_exit_persist n' (S k) (alter_slot k (set_wstate WORKER_UNUSED) s)
            | Blocked => Blocked
            | Fault => Fault
            end
          else pool_exit_persist n' (S k) s
      end
  end.

(** ** Who owns what *)

(** The slot a caller has parked, and whether its thread has been joined. *)
Definition owns (p : cpc) : option (nat * bool) :=
  match p with
  | C_reap _ k => Some (k, false)
  | C_reaped _ k => Some (k, true)
  | C_wait _ k _ _ => Some (k, false)
  | C_waited _ k _ _ rc => Some (k, rc)
  | _ => None
  end.

Definition retired (p : tpc) : bool := match p with T_retired | T_gone => true | _ => false end.

(** What a slot says of its thread. *)
Definition slot_says (ts : list pthr) (cs : list cpc) (k : nat) (w : worker_t) : Prop :=
  exists t, ts !! w_thread w = Some t /\ pt_task t = w_task_id w /\
    match w_wstate w with
    | WORKER_RUNNING => pt_joins t = 0%nat
    | WORKER_RETIRING => pt_joins t = 0%nat /\ retired (pt_pc t) = true
    | WORKER_JOINING => exists c p j, cs !! c = Some p /\ owns p = Some (k, j) /\ pt_joins t = Nat.b2n j
    | WORKER_UNUSED => True
    end.

(** What a caller that parked a slot remembers of it. *)
Definition caller_says (ts : list pthr) (w : worker_t) (p : cpc) : Prop :=
  match p with
  | C_wait id _ th prev | C_waited id _ th prev _ =>
      th = w_thread w /\ id = w_task_id w /\
      (prev = WORKER_RUNNING \/
       prev = WORKER_RETIRING /\ exists t, ts !! th = Some t /\ retired (pt_pc t) = true)
  | C_joined id (Some th) true => exists t, ts !! th = Some t /\ pt_joins t = 1%nat /\ pt_task t = id
  | _ => True
  end.

Record pinv (ws : list worker_t) (ts : list pthr) (cs : list cpc) : Prop := {
  q_slot : forall k w, ws !! k = Some w -> w_wstate w <> WORKER_UNUSED -> slot_says ts cs k w;
  q_inj : forall k k' w w', ws !! k = Some w -> ws !! k' = Some w' -> w_wstate w <> WORKER_UNUSED ->
    w_wstate w' <> WORKER_UNUSED -> w_thread w = w_thread w' -> k = k';
  q_own : forall c p k j, cs !! c = Some p -> owns p = Some (k, j) ->
    exists w, ws !! k = Some w /\ w_wstate w = WORKER_JOINING /\ caller_says ts w p;
  q_uniq : forall c c' p p' k j j', cs !! c = Some p -> cs !! c' = Some p' ->
    owns p = Some (k, j) -> owns p' = Some (k, j') -> c = c';
  q_live : forall tid t, ts !! tid = Some t -> pt_joins t = 0%nat ->
    exists k w, ws !! k = Some w /\ w_thread w = tid /\ w_wstate w <> WORKER_UNUSED;
  q_joins : forall tid t, ts !! tid = Some t ->
    (pt_joins t <= 1)%nat /\ (pt_joins t = 1%nat -> pt_pc t = T_gone);
  q_done : forall c p, cs !! c = Some p -> owns p = None -> caller_says ts fresh_worker p
}.

(** [h1 h2 ...]: a lookup in an updated list is the new element or an old one. *)
Ltac split_insert H :=
  apply list_lookup_insert_Some in H as [(? & ? & ?)|(? & H)]; subst.

Lemma alter_lookup_insert {A} (f : A -> A) (k : nat) (l : list A) x :
  l !! k = Some x -> alter f k l = <[k := f x]> l.
Proof.
  revert k. induction l as [|y l IH]; intros [|k] H; try done; cbn.
  - by injection H as ->.
  - change (y :: alter f k l = y :: <[k := f x]> l). f_equal. by apply IH.
Qed.

(** Callers that own nothing may move to where they own nothing. *)
Lemma pinv_caller ws ts cs c p q :
  pinv ws ts cs -> cs !! c = Some p -> owns p = None -> owns q = None ->
  caller_says ts fresh_worker q -> pinv ws ts (<[c := q]> cs).
Proof.
  intros [H1 H2 H3 H4 H5 H6 H7] Hc Hp Hq Hs. split; try done.
  - intros k w Hw Hu. destruct (H1 k w Hw Hu) as (t & Ht & Hi & Hm). exists t. split_and!; try done.
    destruct (w_wstate w); try done. destruct Hm as (c' & p' & j & E1 & E2 & E3).
    exists c', p', j. split; [|done]. rewrite list_lookup_insert_ne; [done|]. intros <-. congruence.
  - intros c' p' k j Hc' Ho. split_insert Hc'; [congruence|eauto].
  - intros c1 c2 p1 p2 k j j' E1 E2 O1 O2. split_insert E1; [congruence|]. split_insert E2; [congruence|eauto].
  - intros c' p' E O. split_insert E; [done|eauto].
Qed.

(** An owner moves on, still owning its slot. *)
Lemma pinv_keep ws ts cs c p q k j :
  pinv ws ts cs -> cs !! c = Some p -> owns p = Some (k, j) -> owns q = Some (k, j) ->
  (forall w, caller_says ts w p -> caller_says ts w q) -> pinv ws ts (<[c := q]> cs).
Proof.
  intros [H1 H2 H3 H4 H5 H6 H7] Hc Hp Hq Hs.
  assert (Hlc : (c < length cs)%nat) by (by eapply lookup_lt_Some). split; try done.
  - intros i w Hw Hu. destruct (H1 i w Hw Hu) as (t & Ht & Hi & Hm). exists t. split_and!; try done.
    destruct (w_wstate w); try done. destruct Hm as (c' & p' & j' & E1 & E2 & E3).
    destruct (decide (c' = c)) as [->|]; [|exists c', p', j'; by rewrite list_lookup_insert_ne].
    exists c, q, j'. rewrite list_lookup_insert_eq by done. split_and!; try done. congruence.
  - intros c' p' i j' Hc' Ho. split_insert Hc'; [|eauto].
    rewrite Hq in Ho. injection Ho as <- <-. destruct (H3 _ _ _ _ Hc Hp) as (w & ? & ? & ?). eauto.
  - intros c1 c2 p1 p2 i j1 j2 E1 E2 O1 O2. split_insert E1; split_insert E2; try done; [| |eauto];
      rewrite Hq in *; [injection O1 as <- <-|injection O2 as <- <-]; eauto.
  - intros c' p' Hc' Ho. split_insert Hc'; [congruence|eauto].
Qed.

Lemma pinv_new_caller ws ts cs q :
  pinv ws ts cs -> owns q = None -> caller_says ts fresh_worker q -> pinv ws ts (cs ++ [q]).
Proof.
  intros [H1 H2 H3 H4 H5 H6 H7] Hq Hs.
  assert (Hl : forall c p, (cs ++ [q]) !! c = Some p -> cs !! c = Some p \/ p = q).
  { intros c p [?|[_ E]]%lookup_app_Some; [by left|]. right.
    apply list_elem_of_lookup_2 in E. by apply list_elem_of_singleton in E. }
  split; try done.
  - intros k w Hw Hu. destruct (H1 k w Hw Hu) as (t & Ht & Hi & Hm). exists t. split_and!; try done.
    destruct (w_wstate w); try done. destruct Hm as (c' & p' & j & E1 & E2 & E3).
    exists c', p', j. split; [by apply lookup_app_l_Some|done].
  - intros c p k j [Hc| ->]%Hl Ho; [eauto|congruence].
  - intros c1 c2 p1 p2 k j j' E1 E2 O1 O2.
    apply lookup_app_Some in E1 as [E1|[_ E1]]; apply lookup_app_Some in E2 as [E2|[_ E2]]; [eauto|..];
      try (apply list_elem_of_lookup_2, list_elem_of_singleton in E2 as ->; congruence);
      apply list_elem_of_lookup_2, list_elem_of_singleton in E1 as ->; congruence.
  - intros c p [Hc| ->]%Hl; eauto.
Qed.

(** A thread goes on; nothing it does takes it back from retirement. *)
Lemma pinv_thread ws ts cs tid t pc :
  pinv ws ts cs -> ts !! tid = Some t -> pt_pc t <> T_gone ->
  (retired (pt_pc t) = true -> retired pc = true) ->
  pinv ws (<[tid := mk_pthr pc (pt_task t) (pt_joins t)]> ts) cs.
Proof.
  intros [H1 H2 H3 H4 H5 H6 H7] Ht Hg Hr.
  assert (Hl : forall th u, ts !! th = Some u ->
    exists u', <[tid := mk_pthr pc (pt_task t) (pt_joins t)]> ts !! th = Some u' /\
      pt_task u' = pt_task u /\ pt_joins u' = pt_joins u /\ (retired (pt_pc u) = true -> retired (pt_pc u') = true)).
  { intros th u Hu. destruct (decide (th = tid)) as [->|Hne].
    - rewrite list_lookup_insert_eq by (by eapply lookup_lt_Some). eexists. split; [done|]. by simplify_eq.
    - rewrite list_lookup_insert_ne by done. eauto. }
  assert (Hc : forall w p, caller_says ts w p -> caller_says (<[tid := mk_pthr pc (pt_task t) (pt_joins t)]> ts) w p).
  { intros w [| | | | |id k th prev|id k th prev rc|id [th|] [|]]; cbn; try done.
    1,2: intros (E1 & E2 & [E3|(E3 & u & Hu & Hru)]); split_and!; auto; right; split; [done|];
      destruct (Hl _ _ Hu) as (u' & ? & _ & _ & ?); eauto.
    intros (u & Hu & Hj & Hk). destruct (Hl _ _ Hu) as (u' & E1 & E2 & E3 & _). exists u'. by rewrite E1, E2, E3. }
  split; try done.
  - intros k w Hw Hu. destruct (H1 k w Hw Hu) as (u & Hut & Hi & Hm).
    destruct (Hl _ _ Hut) as (u' & E1 & E2 & E3 & E4). exists u'. rewrite E2, E3. split_and!; try done.
    destruct (w_wstate w); try done. split; [apply Hm|apply E4, Hm].
  - intros c p k j Hcp Ho. destruct (H3 _ _ _ _ Hcp Ho) as (w & ? & ? & ?). exists w. auto.
  - intros th u Hu Hj. split_insert Hu; [|eauto]. cbn in Hj. eauto.
  - intros th u Hu. split_insert Hu; [|eauto]. cbn. destruct (H6 _ _ Ht) as [? Hg']. split; [done|].
    intros Hj. by destruct (Hg (Hg' Hj)).
  - eauto.
Qed.

(** The slot [k] of a thread changes its mark, while its caller, if it has one, is
    somewhere else. *)
Lemma pinv_mark ws ts cs k w st :
  pinv ws ts cs -> ws !! k = Some w -> w_wstate w <> WORKER_UNUSED -> w_wstate w <> WORKER_JOINING ->
  (st = WORKER_RUNNING \/
   st = WORKER_RETIRING /\ exists t, ts !! w_thread w = Some t /\ retired (pt_pc t) = true) ->
  pinv (<[k := set_wstate st w]> ws) ts cs.
Proof.
  intros [H1 H2 H3 H4 H5 H6 H7] Hw Hu Hj Hst.
  assert (Hstu : st <> WORKER_UNUSED) by (by destruct Hst as [->|[-> _]]).
  split; try done.
  - intros i v Hv Hvu. split_insert Hv; [|eauto].
    destruct (H1 _ _ Hw Hu) as (t & Ht & Hi & Hm). exists t. cbn. split_and!; try done.
    assert (pt_joins t = 0%nat) by (destruct (w_wstate w); try done; apply Hm).
    destruct Hst as [->|[-> (t' & Ht' & Hr)]]; [done|]. by simplify_eq.
  - intros i i' v v' Hv Hv' Hvu Hvu' E. split_insert Hv; split_insert Hv'; eauto.
  - intros c p i j Hc Ho. destruct (H3 _ _ _ _ Hc Ho) as (v & Hv & Hs & Hsay).
    exists v. split; [|done]. rewrite list_lookup_insert_ne; [done|]. intros <-. congruence.
  - intros tid t Ht Hjo. destruct (H5 _ _ Ht Hjo) as (i & v & Hv & E & Hvu).
    destruct (decide (i = k)) as [->|].
    + exists k, (set_wstate st w). rewrite list_lookup_insert_eq by (by eapply lookup_lt_Some). by simplify_eq.
    + exists i, v. by rewrite list_lookup_insert_ne.
Qed.

(** A caller parks slot [k]. *)
Lemma pinv_park ws ts cs k w c p q :
  pinv ws ts cs -> ws !! k = Some w -> w_wstate w <> WORKER_UNUSED -> w_wstate w <> WORKER_JOINING ->
  cs !! c = Some p -> owns p = None -> owns q = Some (k, false) ->
  caller_says ts (set_wstate WORKER_JOINING w) q ->
  pinv (<[k := set_wstate WORKER_JOINING w]> ws) ts (<[c := q]> cs).
Proof.
  intros [H1 H2 H3 H4 H5 H6 H7] Hw Hu Hj Hc Hp Hq Hs.
  assert (Hfree : forall c' p' j, cs !! c' = Some p' -> owns p' = Some (k, j) -> False).
  { intros c' p' j Hc' Ho. destruct (H3 _ _ _ _ Hc' Ho) as (v & Hv & Hvs & _). congruence. }
  assert (Hlc : (c < length cs)%nat) by (by eapply lookup_lt_Some).
  split; try done.
  - intros i v Hv Hvu. split_insert Hv.
    + destruct (H1 _ _ Hw Hu) as (t & Ht & Hi & Hm). exists t. cbn. split_and!; try done.
      exists c, q, false. rewrite list_lookup_insert_eq by done. split_and!; try done.
      destruct (w_wstate w); try done; apply Hm.
    + destruct (H1 _ _ Hv Hvu) as (t & Ht & Hi & Hm). exists t. split_and!; try done.
      destruct (w_wstate v); try done. destruct Hm as (c' & p' & j & E1 & E2 & E3).
      exists c', p', j. rewrite list_lookup_insert_ne; [done|]. intros <-. congruence.
  - intros i i' v v' Hv Hv' Hvu Hvu' E. split_insert Hv; split_insert Hv'; eauto.
  - intros c' p' i j Hc' Ho. split_insert Hc'.
    + rewrite Hq in Ho. injection Ho as <- <-. exists (set_wstate WORKER_JOINING w).
      by rewrite list_lookup_insert_eq by (by eapply lookup_lt_Some).
    + destruct (H3 _ _ _ _ Hc' Ho) as (v & Hv & Hvs & Hsay). exists v. split; [|done].
      rewrite list_lookup_insert_ne; [done|]. intros <-. congruence.
  - intros c1 c2 p1 p2 i j j' E1 E2 O1 O2. split_insert E1; split_insert E2; try done; [| |eauto].
    + rewrite Hq in O1. injection O1 as <- <-. by destruct (Hfree _ _ _ E2 O2).
    + rewrite Hq in O2. injection O2 as <- <-. by destruct (Hfree _ _ _ E1 O1).
  - intros tid t Ht Hjo. destruct (H5 _ _ Ht Hjo) as (i & v & Hv & E & Hvu).
    destruct (decide (i = k)) as [->|].
    + exists k, (set_wstate WORKER_JOINING w). rewrite list_lookup_insert_eq by (by eapply lookup_lt_Some). by simplify_eq.
    + exists i, v. by rewrite list_lookup_insert_ne.
  - intros c' p' Hc' Ho. split_insert Hc'; [congruence|eauto].
Qed.

(** Its thread has exited and is joined. *)
Lemma pinv_join ws ts cs k w t c p q :
  pinv ws ts cs -> cs !! c = Some p -> owns p = Some (k, false) -> owns q = Some (k, true) ->
  ws !! k = Some w -> ts !! w_thread w = Some t -> pt_joins t = 0%nat -> pt_pc t = T_gone ->
  (forall ts', caller_says ts' w p -> caller_says ts' w q) ->
  pinv ws (<[w_thread w := mk_pthr T_gone (pt_task t) 1]> ts) (<[c := q]> cs).
Proof.
  intros [H1 H2 H3 H4 H5 H6 H7] Hc Hp Hq Hw Ht Hj Hg Hs.
  destruct (H3 _ _ _ _ Hc Hp) as (w' & Hw' & Hws & Hsay). simplify_eq.
  assert (Hlt : (w_thread w < length ts)%nat) by (by eapply lookup_lt_Some).
  assert (Hlc : (c < length cs)%nat) by (by eapply lookup_lt_Some).
  set (ts' := <[w_thread w := _]> ts).
  assert (Hmono : forall v r, caller_says ts v r -> caller_says ts' v r).
  { intros v [| | | | |id i th prev|id i th prev rc|id [th|] [|]]; cbn; try done.
    1,2: intros (E1 & E2 & [E3|(E3 & u & Hu & Hru)]); split_and!; auto; right; split; [done|];
      destruct (decide (th = w_thread w)) as [->|Hne]; unfold ts';
      [exists (mk_pthr T_gone (pt_task t) 1); by rewrite list_lookup_insert_eq
      |exists u; by rewrite list_lookup_insert_ne].
    intros (u & Hu & Hju & Hk). exists u. unfold ts'. rewrite list_lookup_insert_ne; [done|]. intros <-. congruence. }
  split; try done.
  - intros i v Hv Hvu. destruct (decide (i = k)) as [->|Hik].
    + simplify_eq. exists (mk_pthr T_gone (pt_task t) 1). unfold ts'. rewrite list_lookup_insert_eq by done.
      rewrite Hws. destruct (H1 _ _ Hw Hvu) as (u & Hu & Hi & _). split_and!; [done|by simplify_eq|].
      exists c, q, true. by rewrite list_lookup_insert_eq.
    + destruct (H1 _ _ Hv Hvu) as (u & Hu & Hi & Hm). exists u.
      assert (w_thread v <> w_thread w).
      { intros E. apply Hik. apply (H2 _ _ _ _ Hv Hw Hvu); [by rewrite Hws|done]. }
      unfold ts'. rewrite list_lookup_insert_ne by done. split_and!; try done.
      destruct (w_wstate v); try done. destruct Hm as (c' & p' & j & E1 & E2 & E3).
      exists c', p', j. rewrite list_lookup_insert_ne; [done|]. intros <-. congruence.
  - intros c' p' i j Hc' Ho. split_insert Hc'.
    + rewrite Hq in Ho. injection Ho as <- <-. exists w. auto.
    + destruct (H3 _ _ _ _ Hc' Ho) as (v & Hv & Hvs & Hsay'). exists v. auto.
  - intros c1 c2 p1 p2 i j j' E1 E2 O1 O2. split_insert E1; split_insert E2; try done; [| |eauto].
    + rewrite Hq in O1. injection O1 as <- <-. eauto.
    + rewrite Hq in O2. injection O2 as <- <-. eauto.
  - intros tid u Hu Hju. unfold ts' in Hu. split_insert Hu; [done|eauto].
  - intros tid u Hu. unfold ts' in Hu. split_insert Hu; [by cbn|eauto].
  - intros c' p' Hc' Ho. split_insert Hc'; [congruence|eauto].
Qed.

(** The owner of slot [k] gives it back: empty after a join, or as it was. *)
Lemma pinv_leave ws ts cs k w w' c p q j :
  pinv ws ts cs -> cs !! c = Some p -> owns p = Some (k, j) -> owns q = None ->
  ws !! k = Some w -> w_thread w' = w_thread w ->
  (j = true /\ w_wstate w' = WORKER_UNUSED \/
   j = false /\ w_task_id w' = w_task_id w /\
   (w_wstate w' = WORKER_RUNNING \/
    w_wstate w' = WORKER_RETIRING /\ exists t, ts !! w_thread w = Some t /\ retired (pt_pc t) = true)) ->
  caller_says ts fresh_worker q ->
  pinv (<[k := w']> ws) ts (<[c := q]> cs).
Proof.
  intros [H1 H2 H3 H4 H5 H6 H7] Hc Hp Hq Hw Hth Hj Hs.
  destruct (H3 _ _ _ _ Hc Hp) as (v0 & Hv0 & Hws & _). simplify_eq.
  assert (Hu : w_wstate w <> WORKER_UNUSED) by (by rewrite Hws).
  destruct (H1 _ _ Hw Hu) as (t & Ht & Hi & Hm). rewrite Hws in Hm.
  assert (Hjo : pt_joins t = Nat.b2n j).
  { destruct Hm as (c' & p' & j' & E1 & E2 & E3). assert (c' = c) as -> by eauto. by simplify_eq. }
  assert (Hlk : (k < length ws)%nat) by (by eapply lookup_lt_Some).
  split; try done.
  - intros i v Hv Hvu. split_insert Hv.
    + destruct Hj as [[-> E]|(-> & E1 & E2)]; [congruence|].
      exists t. rewrite Hth, E1. split_and!; try done.
      destruct E2 as [->|[-> (t' & Ht' & Hr)]]; [done|]. by simplify_eq.
    + destruct (H1 _ _ Hv Hvu) as (u & Hut & Hiu & Hmu). exists u. split_and!; try done.
      destruct (w_wstate v); try done. destruct Hmu as (c' & p' & j' & E1 & E2 & E3).
      exists c', p', j'. rewrite list_lookup_insert_ne; [done|]. intros <-. congruence.
  - intros i i' v v' Hv Hv' Hvu Hvu' E. split_insert Hv; split_insert Hv'; try done; [| |eauto].
    + symmetry. apply (H2 _ _ _ _ Hv' Hw); try done. congruence.
    + apply (H2 _ _ _ _ Hv Hw); try done. congruence.
  - intros c' p' i j' Hc' Ho. split_insert Hc'; [congruence|].
    destruct (H3 _ _ _ _ Hc' Ho) as (v & Hv & Hvs & Hsay). exists v. split; [|done].
    rewrite list_lookup_insert_ne; [done|]. intros <-. eauto.
  - intros c1 c2 p1 p2 i j1 j2 E1 E2 O1 O2. split_insert E1; [congruence|]. split_insert E2; [congruence|eauto].
  - intros tid u Hut Hju. destruct (H5 _ _ Hut Hju) as (i & v & Hv & E & Hvu).
    destruct (decide (i = k)) as [->|].
    + simplify_eq. exists k, w'. rewrite list_lookup_insert_eq by done. split_and!; try done.
      destruct Hj as [[-> _]|(_ & _ & [->|[-> _]])]; try done. by rewrite Hju in Hjo.
    + exists i, v. by rewrite list_lookup_insert_ne.
  - intros c' p' Hc' Ho. split_insert Hc'; [done|eauto].
Qed.

(** An unused slot keeps being one, or gets a new thread. *)
Lemma pinv_unused ws ts cs k w w' :
  pinv ws ts cs -> ws !! k = Some w -> w_wstate w = WORKER_UNUSED -> w_wstate w' = WORKER_UNUSED ->
  pinv (<[k := w']> ws) ts cs.
Proof.
  intros [H1 H2 H3 H4 H5 H6 H7] Hw Hu Hu'. split; try done.
  - intros i v Hv Hvu. split_insert Hv; [done|eauto].
  - intros i i' v v' Hv Hv' Hvu Hvu' E. split_insert Hv; [done|]. split_insert Hv'; [done|eauto].
  - intros c p i j Hc Ho. destruct (H3 _ _ _ _ Hc Ho) as (v & Hv & Hs & Hsay). exists v. split; [|done].
    rewrite list_lookup_insert_ne; [done|]. intros <-. congruence.
  - intros tid t Ht Hj. destruct (H5 _ _ Ht Hj) as (i & v & Hv & E & Hvu). exists i, v.
    rewrite list_lookup_insert_ne; [done|]. intros <-. congruence.
Qed.

Lemma pinv_create ws ts cs k w w' pc id :
  pinv ws ts cs -> ws !! k = Some w -> w_wstate w = WORKER_UNUSED ->
  w_wstate w' = WORKER_RUNNING -> w_thread w' = length ts -> w_task_id w' = id ->
  pinv (<[k := w']> ws) (ts ++ [mk_pthr pc id 0]) cs.
Proof.
  intros [H1 H2 H3 H4 H5 H6 H7] Hw Hu Hs Hth Hid.
  assert (Hk : forall th u, ts !! th = Some u -> (ts ++ [mk_pthr pc id 0]) !! th = Some u)
    by (intros; by apply lookup_app_l_Some).
  assert (Hnew : (ts ++ [mk_pthr pc id 0]) !! length ts = Some (mk_pthr pc id 0))
    by (rewrite lookup_app_r by lia; by rewrite Nat.sub_diag).
  assert (Hl : forall th u, (ts ++ [mk_pthr pc id 0]) !! th = Some u ->
    ts !! th = Some u \/ th = length ts /\ u = mk_pthr pc id 0).
  { intros th u [?|[Hge E]]%lookup_app_Some; [by left|]. right.
    destruct (th - length ts)%nat eqn:Ed; [|done]. split; [lia|by injection E]. }
  assert (Hold : forall i v, ws !! i = Some v -> w_wstate v <> WORKER_UNUSED -> w_thread v <> length ts).
  { intros i v Hv Hvu E. destruct (H1 _ _ Hv Hvu) as (u & Hut & _).
    apply lookup_lt_Some in Hut. lia. }
  assert (Hsay : forall v r, caller_says ts v r -> caller_says (ts ++ [mk_pthr pc id 0]) v r).
  { intros v [| | | | |i0 i th prev|i0 i th prev rc|i0 [th|] [|]]; cbn; try done.
    1,2: intros (E1 & E2 & [E3|(E3 & u & Hu' & Hru)]); split_and!; eauto 8.
    intros (u & Hu' & ?). eauto. }
  split; try done.
  - intros i v Hv Hvu. split_insert Hv.
    + eexists. rewrite Hth, Hs. split; [exact Hnew|done].
    + destruct (H1 _ _ Hv Hvu) as (u & Hut & Hi & Hm). exists u. auto.
  - intros i i' v v' Hv Hv' Hvu Hvu' E. split_insert Hv; split_insert Hv'; try done; [| |eauto].
    + rewrite Hth in E. by destruct (Hold _ _ Hv' Hvu').
    + rewrite Hth in E. by destruct (Hold _ _ Hv Hvu).
  - intros c p i j Hc Ho. destruct (H3 _ _ _ _ Hc Ho) as (v & Hv & Hvs & Hsay'). exists v.
    split; [|auto]. rewrite list_lookup_insert_ne; [done|]. intros <-. congruence.
  - intros th u Hut Hj. destruct (Hl _ _ Hut) as [Hut'|[-> ->]].
    + destruct (H5 _ _ Hut' Hj) as (i & v & Hv & E & Hvu). exists i, v.
      rewrite list_lookup_insert_ne; [done|]. intros <-. congruence.
    + exists k, w'. rewrite list_lookup_insert_eq by (by eapply lookup_lt_Some). by rewrite Hs.
  - intros th u Hut. destruct (Hl _ _ Hut) as [Hut'|[-> ->]]; [eauto|]. cbn. lia.
  - eauto.
Qed.

(** ** Every step keeps it *)

Definition counted (t : pthr) : bool :=
  match pt_pc t with T_run _ | T_count _ => true | _ => false end.

Record persist_ok (s : persist_pool) : Prop := {
  pp_inv : pinv (persist_workers s) (pthreads s) (callers s);
  pp_count : persist_count s = wrap 16 (count counted (pthreads s))
}.

Lemma first_slot_spec P ws from :
  match first_slot P ws from with
  | Some k => exists w, ws !! k = Some w /\ P w = true
  | None => forall k w, (from <= k)%nat -> ws !! k = Some w -> P w = false
  end.
Proof.
  revert from. induction ws as [|w ws IH]; intros from; cbn [first_slot]; [done|].
  destruct from as [|n].
  - destruct (P w) eqn:E; [by exists w|]. specialize (IH 0%nat).
    destruct (first_slot P ws 0); cbn; [done|].
    intros [|k] v _ Hv; [by injection Hv as ->|]. apply (IH k); [lia|done].
  - specialize (IH n). destruct (first_slot P ws n); cbn; [done|].
    intros [|k] v Hk Hv; [lia|]. apply (IH k); [lia|done].
Qed.

Lemma in_state_true st w : in_state st w = true <-> w_wstate w = st.
Proof. apply bool_decide_eq_true. Qed.

Lemma move_thread_ts tid pc s t :
  pthreads s !! tid = Some t ->
  pthreads (move_thread tid pc s) = <[tid := mk_pthr pc (pt_task t) (pt_joins t)]> (pthreads s).
Proof. intros Ht. unfold move_thread. cbn. by rewrite (alter_lookup_insert _ _ _ t). Qed.

(** A thread moves by one step of its own. *)
Lemma thread_moved s s1 tid t pc :
  persist_ok s -> pthreads s !! tid = Some t -> pt_pc t <> T_gone ->
  (retired (pt_pc t) = true -> retired pc = true) ->
  persist_workers s1 = persist_workers s -> pthreads s1 = pthreads s -> callers s1 = callers s ->
  persist_count s1 = wrap 16 (persist_count s - Z.b2z (counted t) + Z.b2z (counted (mk_pthr pc 0 0))) ->
  persist_ok (move_thread tid pc s1).
Proof.
  intros [H1 H2] Ht Hg Hr E1 E2 E3 E4. rewrite <- E2 in Ht. split.
  - rewrite (move_thread_ts _ _ _ _ Ht). cbn. rewrite E1, E2, E3. rewrite E2 in Ht. by apply pinv_thread.
  - rewrite (move_thread_ts _ _ _ _ Ht), (count_insert _ _ _ _ _ Ht). cbn [persist_count move_thread set_pthreads].
    rewrite E4, H2, E2, <- Z.add_sub_swap, <- Z.add_sub_assoc, wrap_add. f_equal.
    change (counted (mk_pthr pc (pt_task t) (pt_joins t))) with (counted (mk_pthr pc 0 0)). lia.
Qed.

Lemma wrap_same s : persist_ok s -> persist_count s = wrap 16 (persist_count s).
Proof. intros [_ ->]. unfold wrap. by rewrite Zmod_mod. Qed.

Lemma retire_self_ok s tid t :
  persist_ok s -> pthreads s !! tid = Some t -> retired (pt_pc t) = true ->
  persist_ok (persist_retire_self tid s).
Proof.
  intros [H1 H2] Ht Hr. unfold persist_retire_self.
  pose proof (first_slot_spec (fun w => in_state WORKER_RUNNING w && Nat.eqb (w_thread w) tid) (persist_workers s) 0) as Hf.
  destruct (first_slot _ _ _) as [k|]; [|done]. destruct Hf as (w & Hw & Hp).
  apply andb_true_iff in Hp as [Hp1%in_state_true Hp2%Nat.eqb_eq]. split; [|done]. cbn.
  rewrite (alter_lookup_insert _ _ _ w Hw). apply pinv_mark; try done; try congruence.
  right. split; [done|]. exists t. by rewrite Hp2.
Qed.

Lemma retire_self_move tid pc s :
  move_thread tid pc (persist_retire_self tid s) = persist_retire_self tid (move_thread tid pc s).
Proof.
  unfold persist_retire_self. change (persist_workers (move_thread tid pc s)) with (persist_workers s).
  by destruct (first_slot _ _ _).
Qed.

Lemma persist_entry_ok tid now obj s :
  persist_ok s ->
  match persist_entry tid now obj s with Ok s' => persist_ok s' | Blocked => True | Fault => False end.
Proof.
  intros H. pose proof (wrap_same s H) as Hw. unfold persist_entry.
  destruct (pthreads s !! tid) as [t|] eqn:Ht; [|done].
  destruct (pt_pc t) as [k|r|r| |] eqn:E; try done.
  - destruct (task_finish _ _ _ _ _) as [[c r] f]. apply (thread_moved s _ tid t); rewrite ?E; try done.
    unfold counted. rewrite E. cbn. by rewrite Z.sub_add.
  - apply (thread_moved s _ tid t); rewrite ?E; try done. unfold counted. rewrite E. cbn. by rewrite Z.add_0_r.
  - rewrite retire_self_move.
    assert (Hm : persist_ok (move_thread tid T_retired
      (if decide (r = TASK_FATAL) then set_psch true (p_sch s) s else s))).
    { destruct (decide _); apply (thread_moved s _ tid t); rewrite ?E; try done;
        unfold counted; rewrite E; cbn; by rewrite Z.sub_0_r, Z.add_0_r. }
    apply (retire_self_ok _ tid (mk_pthr T_retired (pt_task t) (pt_joins t))); try done.
    rewrite (move_thread_ts _ _ _ t) by (by destruct (decide _)).
    destruct (decide _); apply list_lookup_insert_eq; by eapply lookup_lt_Some.
  - apply (thread_moved s _ tid t); rewrite ?E; try done; unfold counted; rewrite E; cbn;
      by rewrite Z.sub_0_r, Z.add_0_r.
Qed.

Lemma spawn_slot_ok t now created s :
  persist_ok s -> persist_ok (spawn_persist_slot t now created s).1 /\
  callers (spawn_persist_slot t now created s).1 = callers s /\
  exists ts', pthreads (spawn_persist_slot t now created s).1 = pthreads s ++ ts'.
Proof.
  intros [H1 H2]. unfold spawn_persist_slot.
  pose proof (first_slot_spec (in_state WORKER_UNUSED) (persist_workers s) 0) as Hf.
  destruct (first_slot _ _ _) as [k|]; [|split_and!; try done; exists []; by rewrite app_nil_r].
  destruct Hf as (w & Hw & Hu%in_state_true).
  destruct created; split_and!; try done; [|by eexists| |exists []; by rewrite app_nil_r]; split; cbn -[count];
    rewrite ?(alter_lookup_insert _ _ _ w Hw).
  - by eapply pinv_create.
  - rewrite count_app. cbn -[count]. by rewrite H2, wrap_add.
  - by eapply pinv_unused.
  - done.
Qed.

(** The parts of a state a caller's move does not touch. *)
Lemma moved_caller s c p q :
  persist_ok s -> callers s !! c = Some p -> owns p = None -> owns q = None ->
  caller_says (pthreads s) fresh_worker q -> persist_ok (move_caller c q s).
Proof. intros [H1 H2] Hc Hp Hq Hs. split; [|done]. by eapply pinv_caller. Qed.

Lemma pool_spawn_persist_ok c t from now created s p :
  persist_ok s -> callers s !! c = Some p -> owns p = None ->
  persist_ok (pool_spawn_persist c t from now created s).
Proof.
  intros H Hc Hp. unfold pool_spawn_persist.
  pose proof (first_slot_spec (in_state WORKER_RETIRING) (persist_workers s) from) as Hf.
  destruct (first_slot _ _ _) as [k|].
  - destruct Hf as (w & Hw & Hr%in_state_true). destruct H as [H1 H2]. split; [|done]. cbn.
    rewrite (alter_lookup_insert _ _ _ w Hw). apply (pinv_park _ _ _ k w c p); try done; by rewrite Hr.
  - destruct (spawn_slot_ok t now created s H) as (Hs & Ec & _).
    destruct (spawn_persist_slot t now created s) as [s1 ok]. apply (moved_caller _ c p); try done.
    cbn in Ec. by rewrite Ec.
Qed.

(** Where the caller was does not matter to what it does next. *)
Lemma pool_spawn_persist_move c t from now created s q :
  pool_spawn_persist c t from now created (move_caller c q s) = pool_spawn_persist c t from now created s.
Proof.
  unfold pool_spawn_persist.
  change (persist_workers (move_caller c q s)) with (persist_workers s).
  assert (Hm : forall r x, move_caller c r (move_caller c q x) = move_caller c r x)
    by (intros; unfold move_caller, set_callers; cbn; by rewrite list_insert_insert_eq).
  destruct (first_slot _ _ _) as [k|].
  - exact (Hm _ (alter_slot k (set_wstate WORKER_JOINING) s)).
  - unfold spawn_persist_slot. change (persist_workers (move_caller c q s)) with (persist_workers s).
    destruct (first_slot _ _ _) as [k|]; [|apply Hm].
    destruct created; unfold move_caller, set_callers; cbn; by rewrite list_insert_insert_eq.
Qed.

(** A caller that owns slot [k] finds there a thread nobody has joined. *)
Lemma owner_thread s c p k :
  persist_ok s -> callers s !! c = Some p -> owns p = Some (k, false) ->
  exists w t, persist_workers s !! k = Some w /\ w_wstate w = WORKER_JOINING /\
    caller_says (pthreads s) w p /\ pthreads s !! w_thread w = Some t /\ pt_joins t = 0%nat /\
    pt_task t = w_task_id w.
Proof.
  intros [[H1 H2 H3 H4 H5 H6 H7] _] Hc Hp. destruct (H3 _ _ _ _ Hc Hp) as (w & Hw & Hs & Hsay).
  destruct (H1 _ _ Hw ltac:(by rewrite Hs)) as (t & Ht & Hi & Hm). rewrite Hs in Hm.
  destruct Hm as (c' & p' & j & E1 & E2 & E3). assert (c' = c) as -> by eauto. simplify_eq.
  exists w, t. done.
Qed.

(** The join itself, seen from its caller. *)
Lemma join_thread_ok s c p q k w t :
  persist_ok s -> callers s !! c = Some p -> owns p = Some (k, false) -> owns q = Some (k, true) ->
  persist_workers s !! k = Some w -> pthreads s !! w_thread w = Some t -> pt_joins t = 0%nat ->
  (forall ts', caller_says ts' w p -> caller_says ts' w q) ->
  match join_thread (w_thread w) s with
  | Ok s' => persist_ok (move_caller c q s') /\ callers s' = callers s /\ persist_workers s' = persist_workers s /\
             pthreads s' = <[w_thread w := mk_pthr T_gone (pt_task t) 1]> (pthreads s)
  | Blocked => True
  | Fault => False
  end.
Proof.
  intros [H1 H2] Hc Hp Hq Hw Ht Hj Hs. unfold join_thread. rewrite Ht, Hj.
  destruct (pt_pc t) eqn:E; try done. split; [|done]. split.
  - by eapply pinv_join.
  - cbn -[count]. rewrite (count_insert _ _ _ _ _ Ht), H2. unfold counted at 3 4. rewrite E. cbn -[count].
    f_equal. lia.
Qed.

Lemma slot_leave_ok s c p q k j w f :
  persist_ok s -> callers s !! c = Some p -> owns p = Some (k, j) -> owns q = None ->
  persist_workers s !! k = Some w -> w_thread (f w) = w_thread w ->
  (j = true /\ w_wstate (f w) = WORKER_UNUSED \/
   j = false /\ w_task_id (f w) = w_task_id w /\
   (w_wstate (f w) = WORKER_RUNNING \/
    w_wstate (f w) = WORKER_RETIRING /\ exists t, pthreads s !! w_thread w = Some t /\ retired (pt_pc t) = true)) ->
  caller_says (pthreads s) fresh_worker q ->
  persist_ok (move_caller c q (alter_slot k f s)).
Proof.
  intros [H1 H2] Hc Hp Hq Hw Hth Hj Hs. split; [|done]. cbn.
  rewrite (alter_lookup_insert _ _ _ w Hw). by eapply pinv_leave.
Qed.

(** What the owner of a joined slot knows. *)
Lemma joined_thread s c p k :
  persist_ok s -> callers s !! c = Some p -> owns p = Some (k, true) ->
  exists w t, persist_workers s !! k = Some w /\ caller_says (pthreads s) w p /\
    pthreads s !! w_thread w = Some t /\ pt_joins t = 1%nat /\ pt_task t = w_task_id w.
Proof.
  intros [[H1 H2 H3 H4 H5 H6 H7] _] Hc Hp. destruct (H3 _ _ _ _ Hc Hp) as (w & Hw & Hs & Hsay).
  destruct (H1 _ _ Hw ltac:(by rewrite Hs)) as (t & Ht & Hi & Hm). rewrite Hs in Hm.
  destruct Hm as (c' & p' & j & E1 & E2 & E3). assert (c' = c) as -> by eauto. simplify_eq.
  exists w, t. done.
Qed.

(** After the join the waiting caller frees the slot and answers. *)
Lemma finish_join s c id k th prev :
  persist_ok s -> callers s !! c = Some (C_waited id k th prev true) ->
  persist_ok (move_caller c (C_joined id (Some th) true) (free_slot k s)).
Proof.
  intros H Hc. destruct (joined_thread s c _ k H Hc eq_refl) as (w & t & Hw & Hsay & Ht & Hj & Hi).
  destruct Hsay as (-> & -> & _).
  eapply (slot_leave_ok s c _ _ k true w); try done; [by left|]. by exists t.
Qed.

Lemma move_move c q q' k f s :
  move_caller c q (alter_slot k f (move_caller c q' s)) = move_caller c q (alter_slot k f s).
Proof. unfold move_caller, alter_slot, set_callers, set_slots. cbn. by rewrite list_insert_insert_eq. Qed.

Lemma join_look_ok c id s :
  persist_ok s -> callers s !! c = Some (C_look id) -> persist_ok (join_persist_look c id s).
Proof.
  intros H Hc. unfold join_persist_look.
  destruct (id =? TASK_HANDLE_NONE); [by apply (moved_caller s c (C_look id))|].
  pose proof (first_slot_spec (fun w => (w_task_id w =? id) && (in_state WORKER_RUNNING w || in_state WORKER_RETIRING w))
    (persist_workers s) 0) as Hf.
  destruct (first_slot _ _ _) as [k|]; [|by apply (moved_caller s c (C_look id))].
  destruct Hf as (w & Hw & Hp). rewrite Hw. apply andb_true_iff in Hp as [Hid%Z.eqb_eq Hp].
  assert (Hst : w_wstate w = WORKER_RUNNING \/ w_wstate w = WORKER_RETIRING)
    by (apply orb_true_iff in Hp as [?%in_state_true|?%in_state_true]; auto).
  destruct H as [H1 H2]. split; [|done]. cbn. rewrite (alter_lookup_insert _ _ _ w Hw).
  apply (pinv_park _ _ _ k w c (C_look id)); try done; try (destruct Hst as [-> | ->]; done).
  cbn. split_and!; try done. destruct Hst as [Hst|Hst]; [by left|right]. split; [done|].
  destruct (q_slot _ _ _ H1 _ _ Hw ltac:(by rewrite Hst)) as (t & Ht & _ & Hm).
  rewrite Hst in Hm. exists t. by split; [|apply Hm].
Qed.

Lemma caller_step_ok c now created timed_out s :
  persist_ok s ->
  match caller_step c now created timed_out s with
  | Ok s' => persist_ok s' | Blocked => True | Fault => False
  end.
Proof.
  intros H. unfold caller_step. destruct (callers s !! c) as [p|] eqn:Hc; [|done].
  destruct p as [t from|t k|t k|ok|id|id k th prev|id k th prev [|]|id th ok]; try done.
  - by apply (pool_spawn_persist_ok c t from _ _ s (C_spawn t from)).
  - destruct (owner_thread s c _ k H Hc eq_refl) as (w & u & Hw & _ & _ & Hu & Hj & _). rewrite Hw.
    pose proof (join_thread_ok s c _ (C_reaped t k) k w u H Hc eq_refl eq_refl Hw Hu Hj ltac:(done)) as Hok.
    destruct (join_thread _ s); try done. apply Hok.
  - destruct (joined_thread s c _ k H Hc eq_refl) as (w & u & Hw & _).
    rewrite <- (pool_spawn_persist_move c t (S k) now created (free_slot k s) (C_spawn t (S k))).
    assert (Hlc : (c < length (callers s))%nat) by (by eapply lookup_lt_Some).
    apply (pool_spawn_persist_ok c t (S k) now created _ (C_spawn t (S k))); try done.
    + eapply (slot_leave_ok s c _ _ k true w); try done. by left.
    + cbn. by apply list_lookup_insert_eq.
  - by apply join_look_ok.
  - destruct (owner_thread s c _ k H Hc eq_refl) as (w & u & Hw & _ & (-> & Hid & Hprev) & Hu & Hj & _).
    destruct timed_out.
    + (* the deadline lapsed *)
      destruct H as [H1 H2]. split; [|done]. cbn. by apply (pinv_keep _ _ _ c _ (C_waited id k (w_thread w) prev false) k false H1 Hc eq_refl eq_refl).
    + pose proof (join_thread_ok s c _ (C_waited id k (w_thread w) prev true) k w u H Hc eq_refl eq_refl Hw Hu Hj
        ltac:(done)) as Hok. destruct (join_thread _ s); try done. apply Hok.
  - by eapply finish_join.
  - destruct (owner_thread s c _ k H Hc eq_refl) as (w & u & Hw & Hs & (-> & Hid & Hprev) & Hu & Hj & _).
    pose proof (join_thread_ok s c _ (C_waited id k (w_thread w) prev true) k w u H Hc eq_refl eq_refl Hw Hu Hj
      ltac:(done)) as Hok.
    assert (Hlc : (c < length (callers s))%nat) by (by eapply lookup_lt_Some).
    destruct (join_thread _ s) as [s'| |]; try done.
    + destruct Hok as (Hok & Ec & _). unfold free_slot.
      rewrite <- (move_move c _ (C_waited id k (w_thread w) prev true)).
      apply (finish_join _ c id k (w_thread w) prev Hok). cbn. apply list_lookup_insert_eq. by rewrite Ec.
    + eapply (slot_leave_ok s c _ _ k false w); try done. right. split_and!; try done.
Qed.

Lemma persist_step_ok e s :
  persist_ok s ->
  match persist_step e s with Ok s' => persist_ok s' | Blocked => True | Fault => False end.
Proof.
  intros H. destruct e as [tid now obj|c now created timed_out|t|id|b c]; cbn [persist_step].
  - by apply persist_entry_ok.
  - by apply caller_step_ok.
  - destruct H as [H1 H2]. split; [|done]. by apply pinv_new_caller.
  - destruct H as [H1 H2]. split; [|done]. by apply pinv_new_caller.
  - destruct H as [H1 H2]. by split.
Qed.

Lemma persist_run_ok es : forall s,
  persist_ok s ->
  match persist_run es s with Ok s' => persist_ok s' | Blocked => True | Fault => False end.
Proof.
  induction es as [|e es IH]; intros s H; cbn [persist_run]; [done|].
  pose proof (persist_step_ok e s H) as Hs. destruct (persist_step e s); try done. by apply IH.
Qed.

Lemma persist_init_ok c : persist_ok (persist_init c).
Proof.
  split; [|done]. split; cbn [persist_init persist_workers pthreads callers]; try done.
  - intros k w [-> _]%lookup_replicate. done.
  - intros k k' w w' [-> _]%lookup_replicate. done.
Qed.

(** However spawns, joins with timeouts, reaps and the threads themselves
    interleave, no persistent thread is ever joined twice or handed to pthread_join
    after its handle is dead; a joined thread has exited, and [persist_count] is the
    number of threads still in their task (as an uint16_t). *)
Theorem persist_joined_once (sc : sched) (es : list pevent) :
  match persist_run es (persist_init sc) with
  | Fault => False
  | Blocked => True
  | Ok s =>
      (forall tid t, pthreads s !! tid = Some t ->
         (pt_joins t <= 1)%nat /\ (pt_joins t = 1%nat -> pt_pc t = T_gone)) /\
      persist_count s = wrap 16 (count counted (pthreads s))
  end.
Proof.
  pose proof (persist_run_ok es _ (persist_init_ok sc)) as H.
  destruct (persist_run es (persist_init sc)); try done. split; [apply (pp_inv _ H)|apply H].
Qed.

(** What a plugin may rely on when [pool_join_persist] says yes. If it waited, the
    thread of the task has exited and is joined. If it answered at once because no
    slot holds the id, then a thread that still runs the task is in a slot that another
    caller is joining, and only then. *)
Theorem pool_join_persist_sound (sc : sched) (es : list pevent) (s : persist_pool)
    (Hrun : persist_run es (persist_init sc) = Ok s) :
  (forall c id th, callers s !! c = Some (C_joined id (Some th) true) ->
     exists t, pthreads s !! th = Some t /\ pt_task t = id /\ pt_pc t = T_gone /\ pt_joins t = 1%nat) /\
  (forall c id s', callers s !! c = Some (C_look id) -> id <> TASK_HANDLE_NONE ->
     join_persist_look c id s = s' -> callers s' !! c = Some (C_joined id None true) ->
     forall tid t, pthreads s !! tid = Some t -> pt_task t = id -> pt_pc t <> T_gone ->
       exists k w c' p j, persist_workers s !! k = Some w /\ w_thread w = tid /\
         callers s !! c' = Some p /\ c' <> c /\ owns p = Some (k, j)).
Proof.
  pose proof (persist_run_ok es _ (persist_init_ok sc)) as H. rewrite Hrun in H.
  destruct H as [[H1 H2 H3 H4 H5 H6 H7] _]. split.
  - intros c id th Hc. destruct (H7 _ _ Hc eq_refl) as (t & Ht & Hj & Hi).
    exists t. split_and!; try done. by apply (H6 _ _ Ht).
  - intros c id s' Hc Hid <- Hans tid t Ht Hti Hg.
    assert (Hj : pt_joins t = 0%nat).
    { destruct (H6 _ _ Ht) as [Hle Hg']. destruct (pt_joins t) as [|[|?]]; [done| |lia]. by destruct (Hg (Hg' eq_refl)). }
    destruct (H5 _ _ Ht Hj) as (k & w & Hw & Hth & Hu).
    destruct (H1 _ _ Hw Hu) as (t' & Ht' & Hi & Hm). rewrite Hth in Ht'. simplify_eq.
    unfold join_persist_look in Hans. apply Z.eqb_neq in Hid. rewrite Hid in Hans.
    pose proof (first_slot_spec (fun v => (w_task_id v =? pt_task t) && (in_state WORKER_RUNNING v || in_state WORKER_RETIRING v))
      (persist_workers s) 0) as Hf.
    assert (Hlc : (c < length (callers s))%nat) by (by eapply lookup_lt_Some).
    destruct (first_slot _ _ _) as [i|].
    + destruct Hf as (v & Hv & _). rewrite Hv in Hans. cbn in Hans. by rewrite list_lookup_insert_eq in Hans.
    + specialize (Hf k w ltac:(lia) Hw). rewrite Hi, Z.eqb_refl in Hf. cbn [andb] in Hf.
      apply orb_false_iff in Hf as [F1 F2]. unfold in_state in F1, F2.
      apply bool_decide_eq_false in F1, F2.
      destruct (w_wstate w) eqn:Ew; try done. destruct Hm as (c' & p & j & E1 & E2 & E3).
      exists k, w, c', p, j. split_and!; try done. intros ->. by simplify_eq.
Qed.

(** Two plugins' readers; the first is joined after it exits, the second refused. *)
Definition reader (id : Z) : task_t :=
  mk_task (lit "reader") TASK_THREAD TASK_PERSIST TASK_BACKGROUND 10 TASK_RUNNING 0 0 None id false 0 0 1.

Definition persist_events : list pevent :=
  let call c := Pe_caller c 5 true false in
  [Pe_spawn (reader 7); call 0%nat; Pe_spawn (reader 8); call 1%nat;
   Pe_join 7; call 2%nat; Pe_join 7;
   Pe_thread 0 6 (set_state TASK_ENDED (reader 7)); Pe_thread 0 6 (reader 7); Pe_thread 0 6 (reader 7);
   Pe_thread 0 6 (reader 7); call 2%nat; call 2%nat;
   Pe_join 8; call 4%nat; Pe_caller 4 9 true true; call 4%nat].

Definition persist_sample : outcome persist_pool := persist_run persist_events (persist_init task_statics).

Definition persist_sample_end : persist_pool :=
  match persist_sample with Ok s => s | _ => persist_init task_statics end.

Lemma persist_sample_Ok : persist_run persist_events (persist_init task_statics) = Ok persist_sample_end.
Proof. vm_compute. reflexivity. Qed.

Lemma persist_sample_answers :
  callers persist_sample_end !! 2%nat = Some (C_joined 7 (Some 0%nat) true) /\
  callers persist_sample_end !! 4%nat = Some (C_joined 8 (Some 1%nat) false).
Proof. vm_compute. done. Qed.

Lemma pool_join_persist_sound_witness :
  exists t, pthreads persist_sample_end !! 0%nat = Some t /\ pt_task t = 7 /\ pt_pc t = T_gone /\
    pt_joins t = 1%nat.
Proof.
  exact (proj1 (pool_join_persist_sound task_statics persist_events persist_sample_end persist_sample_Ok)
    2%nat 7 0%nat (proj1 persist_sample_answers)).
Defined.

(** ** The end of the pool *)

Lemma pinv_drop ws ts cs q : pinv ws ts (cs ++ [q]) -> owns q = None -> pinv ws ts cs.
Proof.
  intros [H1 H2 H3 H4 H5 H6 H7] Hq.
  assert (Hl : forall c p, cs !! c = Some p -> (cs ++ [q]) !! c = Some p)
    by (intros; by apply lookup_app_l_Some).
  split; try done; eauto.
  - intros k w Hw Hu. destruct (H1 k w Hw Hu) as (t & Ht & Hi & Hm). exists t. split_and!; try done.
    destruct (w_wstate w); try done. destruct Hm as (c & p & j & E1 & E2 & E3). exists c, p, j.
    split; [|done]. apply lookup_app_Some in E1 as [?|[_ E1]]; [done|].
    apply list_elem_of_lookup_2, list_elem_of_singleton in E1 as ->. congruence.
Qed.

(** Joining and freeing a slot in one go, with no caller involved. *)
Lemma pinv_exit_join ws ts k w t :
  pinv ws ts [] -> ws !! k = Some w -> w_wstate w <> WORKER_UNUSED ->
  ts !! w_thread w = Some t -> pt_joins t = 0%nat -> pt_pc t = T_gone ->
  pinv (<[k := set_wstate WORKER_UNUSED w]> ws) (<[w_thread w := mk_pthr T_gone (pt_task t) 1]> ts) [].
Proof.
  intros H Hw Hu Ht Hj Hg. set (tk := sample_task 0). set (jw := set_wstate WORKER_JOINING w).
  assert (Hlk : (k < length ws)%nat) by (by eapply lookup_lt_Some).
  assert (Hnj : w_wstate w <> WORKER_JOINING).
  { intros E. destruct (q_slot _ _ _ H _ _ Hw Hu) as (u & _ & _ & Hm). rewrite E in Hm.
    by destruct Hm as (c & p & j & E1 & _). }
  assert (A1 := pinv_new_caller _ _ _ (C_spawn tk 0) H eq_refl I).
  assert (A2 := pinv_park _ _ _ k w 0 (C_spawn tk 0) (C_reap tk k) A1 Hw Hu Hnj eq_refl eq_refl eq_refl I).
  assert (Hjw : <[k := jw]> ws !! k = Some jw) by (by apply list_lookup_insert_eq).
  assert (A3 := pinv_join _ _ _ k jw t 0 (C_reap tk k) (C_reaped tk k) A2 eq_refl eq_refl eq_refl Hjw Ht Hj Hg
    (fun _ _ => I)).
  assert (A4 := pinv_leave _ _ _ k jw (set_wstate WORKER_UNUSED w) 0 (C_reaped tk k) (C_spawned true) true
    A3 eq_refl eq_refl eq_refl Hjw eq_refl (or_introl (conj eq_refl eq_refl)) I).
  rewrite list_insert_insert_eq in A4. by apply (pinv_drop _ _ [] (C_spawned true)).
Qed.

Lemma pool_exit_persist_ok n : forall k s,
  (k + n = length (persist_workers s))%nat ->
  pinv (persist_workers s) (pthreads s) [] ->
  Forall (fun t => pt_pc t = T_gone) (pthreads s) ->
  (forall i w, (i < k)%nat -> persist_workers s !! i = Some w -> w_wstate w = WORKER_UNUSED) ->
  exists s', pool_exit_persist n k s = Ok s' /\ Forall (fun t => pt_joins t = 1%nat) (pthreads s').
Proof.
  induction n as [|n IH]; intros k s Hl H Hg Hk; cbn [pool_exit_persist].
  - exists s. split; [done|]. apply Forall_lookup_2. intros tid t Ht.
    destruct (q_joins _ _ _ H _ _ Ht) as [Hle _]. destruct (pt_joins t) as [|[|?]] eqn:Ej; [|done|lia].
    destruct (q_live _ _ _ H _ _ Ht Ej) as (i & w & Hw & _ & Hu). destruct Hu. apply (Hk i); [|done].
    apply lookup_lt_Some in Hw. lia.
  - destruct (lookup_lt_is_Some_2 (persist_workers s) k ltac:(lia)) as [w Hw]. rewrite Hw.
    destruct (in_state WORKER_RUNNING w || in_state WORKER_RETIRING w) eqn:E.
    + assert (Hst : w_wstate w = WORKER_RUNNING \/ w_wstate w = WORKER_RETIRING)
        by (apply orb_true_iff in E as [?%in_state_true|?%in_state_true]; auto).
      assert (Hu : w_wstate w <> WORKER_UNUSED) by (by destruct Hst as [-> | ->]).
      destruct (q_slot _ _ _ H _ _ Hw Hu) as (t & Ht & _ & Hm).
      assert (Hj : pt_joins t = 0%nat) by (destruct Hst as [Hst|Hst]; rewrite Hst in Hm; apply Hm).
      assert (Hgone : pt_pc t = T_gone) by (by eapply Forall_lookup_1 in Hg).
      unfold join_thread. rewrite Ht, Hj, Hgone. apply IH; cbn.
      * rewrite length_alter. lia.
      * rewrite (alter_lookup_insert _ _ _ w Hw). by apply pinv_exit_join.
      * by apply Forall_insert.
      * intros i v Hi Hv. destruct (decide (i = k)) as [->|].
        -- rewrite list_lookup_alter_eq, Hw in Hv. by simplify_eq/=.
        -- rewrite list_lookup_alter_ne in Hv by done. apply (Hk i); [lia|done].
    + apply IH; try done; [lia|]. intros i v Hi Hv. destruct (decide (i = k)) as [->|]; [|apply (Hk i); [lia|done]].
      simplify_eq. apply orb_false_iff in E as [F1 F2]. unfold in_state in F1, F2.
      apply bool_decide_eq_false in F1, F2. destruct (w_wstate w) eqn:Ev; try done.
      destruct (q_slot _ _ _ H _ _ Hw ltac:(by rewrite Ev)) as (t & _ & _ & Hm). rewrite Ev in Hm.
      by destruct Hm as (c & p & j & E1 & _).
Qed.

Lemma pinv_no_owner ws ts cs :
  pinv ws ts cs -> (forall c p, cs !! c = Some p -> owns p = None) -> pinv ws ts [].
Proof.
  intros [H1 H2 H3 H4 H5 H6 H7] Hn. split; try done.
  intros k w Hw Hu. destruct (H1 k w Hw Hu) as (t & Ht & Hi & Hm). exists t. split_and!; try done.
  destruct (w_wstate w); try done. destruct Hm as (c & p & j & E1 & E2 & _).
  rewrite (Hn _ _ E1) in E2. done.
Qed.

Lemma persist_step_length e s s' :
  persist_step e s = Ok s' -> length (persist_workers s') = length (persist_workers s).
Proof.
  assert (Hj : forall th s1 s2, join_thread th s1 = Ok s2 -> persist_workers s2 = persist_workers s1).
  { intros th s1 s2. unfold join_thread. repeat case_step; by intros [= <-]. }
  assert (Ha : forall k f s1, length (persist_workers (alter_slot k f s1)) = length (persist_workers s1))
    by (intros; apply length_alter).
  assert (Hsp : forall c t from now b s1,
    length (persist_workers (pool_spawn_persist c t from now b s1)) = length (persist_workers s1)).
  { intros. unfold pool_spawn_persist, spawn_persist_slot.
    repeat (case_step; simplify_eq; cbn; rewrite ?length_alter; try done). }
  destruct e as [tid now obj|c now b to|t|id|b c]; cbn [persist_step]; try (by intros [= <-]).
  - unfold persist_entry, persist_retire_self. repeat case_step; intros [=]; subst; cbn;
      rewrite ?length_alter; try done; by repeat case_step.
  - unfold caller_step, join_persist_look.
    repeat case_step; intros [=]; subst; unfold free_slot; cbn; rewrite ?Hsp, ?length_alter; try done;
      try (erewrite Hj by done; done); by rewrite Ha.
Qed.

Lemma persist_run_length es : forall s s',
  persist_run es s = Ok s' -> length (persist_workers s') = length (persist_workers s).
Proof.
  induction es as [|e es IH]; intros s s'; cbn [persist_run]; [by intros [= <-]|].
  destruct (persist_step e s) as [s1| |] eqn:E; [|done|done]. intros H.
  by rewrite (IH _ _ H), (persist_step_length _ _ _ E).
Qed.

(** Once every persistent thread has exited and no caller is in the middle of a
    join, [pool_exit] ends without blocking and leaves every thread ever created
    joined, exactly once. *)
Theorem pool_exit_joins_rest (sc : sched) (es : list pevent) (s : persist_pool)
    (Hrun : persist_run es (persist_init sc) = Ok s)
    (Hgone : Forall (fun t => pt_pc t = T_gone) (pthreads s))
    (Hquiet : forall c p, callers s !! c = Some p -> owns p = None) :
  exists s', pool_exit_persist POOL_MAX_PERSIST 0 s = Ok s' /\
    Forall (fun t => pt_joins t = 1%nat) (pthreads s').
Proof.
  pose proof (persist_run_ok es _ (persist_init_ok sc)) as H. rewrite Hrun in H.
  apply pool_exit_persist_ok; try done.
  - by rewrite (persist_run_length _ _ _ Hrun).
  - by apply (pinv_no_owner _ _ _ (pp_inv _ H)).
  - lia.
Qed.

(** The second reader ends too. *)
Definition quiet_events : list pevent :=
  persist_events ++ [Pe_thread 1 9 (set_state TASK_ENDED (reader 8)); Pe_thread 1 9 (reader 8);
    Pe_thread 1 9 (reader 8); Pe_thread 1 9 (reader 8)].

Definition quiet_end : persist_pool :=
  match persist_run quiet_events (persist_init task_statics) with
  | Ok s => s | _ => persist_init task_statics
  end.

Lemma quiet_Ok : persist_run quiet_events (persist_init task_statics) = Ok quiet_end.
Proof. vm_compute. reflexivity. Qed.

Lemma quiet_gone : Forall (fun t => pt_pc t = T_gone) (pthreads quiet_end).
Proof. vm_compute. by repeat constructor. Qed.

Lemma quiet_callers : forall c p, callers quiet_end !! c = Some p -> owns p = None.
Proof.
  assert (H : Forall (fun p => owns p = None) (callers quiet_end)) by (vm_compute; by repeat constructor).
  intros c p Hc. exact (Forall_lookup_1 _ _ _ _ H Hc).
Qed.

Lemma pool_exit_joins_rest_witness :
  exists s', pool_exit_persist POOL_MAX_PERSIST 0 quiet_end = Ok s' /\
    Forall (fun t => pt_joins t = 1%nat) (pthreads s').
Proof.
  exact (pool_exit_joins_rest task_statics quiet_events quiet_end quiet_Ok quiet_gone quiet_callers).
Defined.

(** ** Statistics *)

Record pool_stats_t := mk_pool_stats {
  ps_total : Z; ps_idle : Z; ps_persist : Z; ps_jobs_completed : Z;
  ps_peak_workers : Z; ps_bg_active : Z; ps_bg_budget : Z
}.

(** The sum over [workers[0 .. max_threads]], which must be there. *)
Definition sum_jobs (n : nat) (ws : list worker_t) : option Z :=
  if (n <=? length ws)%nat then Some (fold_left (fun a w => wrap 64 (a + w_jobs w)) (take n ws) 0) else None.

Definition pool_get_stats (e : pool) (p : persist_pool) : option pool_stats_t :=
  let elastic :=
    match workers e with
    | [] => Some 0
    | ws => sum_jobs (S (Z.to_nat (max_threads (cfg e)))) ws
    end in
  match elastic, sum_jobs (Z.to_nat (persist_count p)) (persist_workers p) with
  | Some a, Some b =>
      Some (mk_pool_stats (pool_size e) (pool_idle e) (persist_count p) (wrap 64 (a + b))
              (pool_peak e) (pool_bg e) (bg_budget (cfg e)))
  | _, _ => None
  end.

Lemma pool_init_stats now created c sc s :
  1 <= max_threads c < UINT16_MAX -> pool_init now created (set_cfg c (pool_statics sc)) = Ok s ->
  is_Some (pool_get_stats s (persist_init sc)).
Proof.
  intros Hm Hi. pose proof (PoolSlots.pool_init_ok _ _ _ _ _ Hm Hi) as H.
  unfold pool_get_stats, sum_jobs. pose proof (PoolSlots.po_len _ H) as El.
  destruct (workers s); [done|]. rewrite El, Nat.leb_refl. by eexists.
Qed.

(** A reader that gives its slot back while a joiner has it parked, and is not yet gone
    when the joiner's deadline lapses: the slot is marked RUNNING again, and after the
    thread has exited no reap looks at it. *)
Definition late_exit : list pevent :=
  [Pe_spawn (reader 7); Pe_caller 0 5 true false; Pe_join 7; Pe_caller 1 5 true false;
   Pe_thread 0 6 (set_state TASK_ENDED (reader 7)); Pe_thread 0 6 (reader 7);
   Pe_caller 1 6 true true; Pe_thread 0 6 (reader 7); Pe_caller 1 6 true true; Pe_thread 0 6 (reader 7)].

Lemma persist_slot_left_running :
  exists s w t, persist_run late_exit (persist_init task_statics) = Ok s /\
    persist_workers s !! 0%nat = Some w /\ w_wstate w = WORKER_RUNNING /\
    pthreads s !! w_thread w = Some t /\ pt_pc t = T_gone /\
    first_slot (in_state WORKER_RETIRING) (persist_workers s) 0 = None.
Proof.
  eexists (match persist_run late_exit (persist_init task_statics) with
           | Ok s => s | _ => persist_init task_statics end), _, _.
  split; [vm_compute; reflexivity|]. split; [vm_compute; reflexivity|]. by vm_compute.
Qed.
