(* ===== verification/Double.v ===== *)
(** * The C type double

    IEEE 754 binary64 with rounding to nearest, by the specification of the Standard
    Library: 53 bits of precision, exponents below 1024. *)

From Stdlib Require Import SpecFloat.
From S2P Require Import Prelude.

Definition double : Type := spec_float.

Declare Scope double_scope.
Delimit Scope double_scope with D.

Definition dadd : double -> double -> double := SFadd 53 1024.
Definition dsub : double -> double -> double := SFsub 53 1024.
Definition dmul : double -> double -> double := SFmul 53 1024.
Definition ddiv : double -> double -> double := SFdiv 53 1024.
Definition dleb : double -> double -> bool := SFleb.
Definition dltb : double -> double -> bool := SFltb.
Definition dopp : double -> double := SFopp.

(** The conversion of an integer, rounded; [0] is the positive zero. *)
Definition of_Z (z : Z) : double := binary_normalize 53 1024 z 0 false.

Notation "a + b" := (dadd a b) : double_scope.
Notation "a - b" := (dsub a b) : double_scope.
Notation "a * b" := (dmul a b) : double_scope.
Notation "a / b" := (ddiv a b) : double_scope.
Notation "a <=? b" := (dleb a b) : double_scope.
Notation "a <? b" := (dltb a b) : double_scope.
Notation "- a" := (dopp a) : double_scope.

Definition NAN : double := S754_nan.
Definition INFINITY : double := S754_infinity false.

(** ** strtod *)

(** The quotient of two positive integers, rounded once: enough bits of it are computed,
    and the last one tells whether anything is left. *)
Definition of_ratio (neg : bool) (num den : Z) : double :=
  let k := Z.max 0 (Z.log2 den - Z.log2 num + 66) in
  let q := num * 2 ^ k / den in
  let sticky := if (num * 2 ^ k) mod den =? 0 then 0 else 1 in
  let m := 2 * q + sticky in
  binary_normalize 53 1024 (if neg then - m else m) (- (k + 1)) neg.

(** [m * 10 ^ e] and [m * 2 ^ e] for a natural [m]. *)
Definition of_decimal (neg : bool) (m e : Z) : double :=
  if m =? 0 then S754_zero neg
  else if 0 <=? e then
    let z := m * 10 ^ e in binary_normalize 53 1024 (if neg then - z else z) 0 neg
  else of_ratio neg m (10 ^ (- e)).

Definition of_binary (neg : bool) (m e : Z) : double :=
  binary_normalize 53 1024 (if neg then - m else m) e neg.

Definition xdigit_val (c : ascii) : Z :=
  if isdigit c then code c - 48 else code (tolower c) - 87.

Definition isxdigit (c : ascii) : bool := isdigit c || in_range 97 102 (code (tolower c)).

(** The integer digits, the digits after the point and what follows. *)
Definition digits_point (isd : ascii -> bool) (s : cstr) : cstr * cstr * cstr :=
  let i := span isd s in
  match skip_while isd s with
  | c :: r => if ceqb c "." then (i, span isd r, skip_while isd r) else (i, [], c :: r)
  | [] => (i, [], [])
  end.

(** An exponent after the letter [x], if there is one with a digit. *)
Definition exponent (x : ascii) (s : cstr) : Z * cstr :=
  match s with
  | c :: r =>
      if ceqb (tolower c) x then
        let '(neg, r') := match r with
                          | d :: r' => if ceqb d "-" then (true, r') else if ceqb d "+" then (false, r') else (false, r)
                          | [] => (false, r)
                          end in
        match span isdigit r' with
        | [] => (0, s)
        | ds => ((if neg then - digits_val ds else digits_val ds), skip_while isdigit r')
        end
      else (0, s)
  | [] => (0, s)
  end.

Definition xdigits_val (s : cstr) : Z := fold_left (fun acc c => 16 * acc + xdigit_val c) s 0.

(** The conversion after the sign. *)
Definition strtod_body (neg : bool) (s : cstr) : option (double * cstr) :=
  let decimal :=
    let '(i, f, r) := digits_point isdigit s in
    match i ++ f with
    | [] => None
    | ds => let '(e, r') := exponent "e" r in Some (of_decimal neg (digits_val ds) (e - Z.of_nat (length f)), r')
    end in
  if strncaseeq 2 s (lit "0x") then
    let '(i, f, r) := digits_point isxdigit (drop 2 s) in
    match i ++ f with
    | [] => decimal
    | ds => let '(e, r') := exponent "p" r in Some (of_binary neg (xdigits_val ds) (e - 4 * Z.of_nat (length f)), r')
    end
  else if strncaseeq 8 s (lit "infinity") then Some (S754_infinity neg, drop 8 s)
  else if strncaseeq 3 s (lit "inf") then Some (S754_infinity neg, drop 3 s)
  else if strncaseeq 3 s (lit "nan") then
    match drop 3 s with
    | c :: r =>
        let body := skip_while (fun c => isalnum c || ceqb c "_") r in
        match body with
        | d :: r' => if ceqb c "(" && ceqb d ")" then Some (S754_nan, r') else Some (S754_nan, c :: r)
        | [] => Some (S754_nan, c :: r)
        end
    | [] => Some (S754_nan, [])
    end
  else decimal.

(** None when nothing converts. *)
Definition strtod (s : cstr) : option (double * cstr) :=
  match skip_while isspace s with
  | c :: s' =>
      if ceqb c "-" then strtod_body true s'
      else if ceqb c "+" then strtod_body false s'
      else strtod_body false (c :: s')
  | [] => None
  end.

(** What follows a conversion is a proper suffix. *)
Lemma span_skip_length P s : (length (skip_while P s) + length (span P s) = length s)%nat.
Proof. rewrite <- (span_skip P s) at 3. rewrite length_app. lia. Qed.

Lemma digits_point_length isd s i f r :
  digits_point isd s = (i, f, r) -> (length r + length (i ++ f) <= length s)%nat.
Proof.
  unfold digits_point. pose proof (span_skip_length isd s) as H.
  destruct (skip_while isd s) as [|c s'].
  - intros [= <- <- <-]. rewrite app_nil_r. lia.
  - pose proof (span_skip_length isd s'). destruct (ceqb c ".").
    + intros [= <- <- <-]. cbn [length] in *. rewrite length_app. lia.
    + intros [= <- <- <-]. cbn [length] in *. rewrite app_nil_r. lia.
Qed.

Lemma exponent_length x s e r : exponent x s = (e, r) -> (length r <= length s)%nat.
Proof.
  unfold exponent. destruct s as [|c s]; [by intros [= _ <-]|].
  destruct (ceqb (tolower c) x); [|by intros [= _ <-]].
  set (sr := match s with _ :: _ => _ | [] => _ end).
  assert (Hs : (length sr.2 <= length s)%nat)
    by (unfold sr; destruct s as [|d s]; cbn; [done|]; repeat (destruct (ceqb _ _)); cbn; lia).
  destruct sr as [neg r']. cbn in Hs. pose proof (span_skip_length isdigit r').
  destruct (span isdigit r'); intros [= _ <-]; cbn [length] in *; lia.
Qed.

(** A text that starts with a digit or a point: the conversion consumes something. *)
Lemma strtod_shorter s d r : strtod s = Some (d, r) -> (length r < length s)%nat.
Proof.
  assert (D : forall neg s d r,
    (let '(i, f, r) := digits_point isdigit s in
     match i ++ f with
     | [] => None
     | ds => let '(e, r') := exponent "e" r in Some (of_decimal neg (digits_val ds) (e - Z.of_nat (length f)), r')
     end) = Some (d, r) -> (length r < length s)%nat).
  { intros neg t x q H. destruct (digits_point isdigit t) as [[i f] r0] eqn:E.
    apply digits_point_length in E. destruct (i ++ f); [done|]. cbn [length] in E.
    destruct (exponent "e" r0) as [e r'] eqn:Ee. apply exponent_length in Ee. injection H as _ <-. lia. }
  assert (N : forall n t u, strncaseeq n t u = true -> length u = n -> (n <= length t)%nat).
  { intros n t u H Hu. unfold strncaseeq, strcaseeq in H. apply seqb_true in H.
    apply (f_equal length) in H. rewrite !length_map, !length_take in H. lia. }
  assert (B : forall neg t x q, strtod_body neg t = Some (x, q) -> (length q < length t)%nat).
  { intros neg t x q H. unfold strtod_body in H. cbv zeta in H.
    destruct (strncaseeq 2 t _) eqn:E2.
    { destruct (digits_point isxdigit (drop 2 t)) as [[i f] r0] eqn:E. apply digits_point_length in E.
      rewrite length_drop in E. destruct (i ++ f); [by eapply D|]. cbn [length] in E.
      destruct (exponent "p" r0) as [e r'] eqn:Ee. apply exponent_length in Ee. injection H as _ <-. lia. }
    destruct (strncaseeq 8 t _) eqn:E8.
    { apply N in E8; [|done]. injection H as _ <-. rewrite length_drop. lia. }
    destruct (strncaseeq 3 t (lit "inf")) eqn:E3.
    { apply N in E3; [|done]. injection H as _ <-. rewrite length_drop. lia. }
    destruct (strncaseeq 3 t (lit "nan")) eqn:E4; [|by eapply D].
    apply N in E4; [|done]. pose proof (length_drop t 3) as Hd.
    destruct (drop 3 t) as [|c r0]; [injection H as _ <-; cbn in *; lia|]. cbn [length] in Hd.
    pose proof (span_skip_length (fun c => isalnum c || ceqb c "_") r0).
    destruct (skip_while _ r0) as [|y r1]; [injection H as _ <-; cbn in *; lia|].
    cbn [length] in *. destruct (ceqb c "(" && ceqb y ")"); injection H as _ <-; cbn [length]; lia. }
  unfold strtod. pose proof (span_skip_length isspace s).
  destruct (skip_while isspace s) as [|c s']; [done|]. cbn [length] in *. intros Hs.
  destruct (ceqb c "-"); [apply B in Hs; lia|]. destruct (ceqb c "+"); apply B in Hs; cbn [length] in *; lia.
Qed.

(** One and a half, the largest double below one tenth's neighbour, a hexadecimal, an
    overflow and the smallest denormal. *)
Example strtod_half : strtod (lit " 1.5e0x") = Some (S754_finite false 6755399441055744 (-52), lit "x").
Proof. reflexivity. Qed.

Example strtod_tenth : strtod (lit "0.1") = Some (S754_finite false 7205759403792794 (-56), []).
Proof. reflexivity. Qed.

Example strtod_hex : strtod (lit "0x1F") = Some (of_Z 31, []).
Proof. reflexivity. Qed.

Example strtod_range : strtod (lit "1e400") = Some (S754_infinity false, []) /\
  strtod (lit "4.9e-324") = Some (S754_finite false 1 (-1074), []).
Proof. split; reflexivity. Qed.
