(* ===== verification/Exchange.v ===== *)
(** * Exchange dispatch: plugins/feature/exchange/exchange_{request,limiter,retry,registry}.c

    Requests to an exchange wait in a priority queue, take tokens from a bucket with
    reserved slots, go to the protocol driver, come back with an HTTP status and are
    retried, failed or delivered. There is no tick: a dispatch is started by a new
    request, a completion, a retry, or the stall pump, a deferred task armed when a
    non-empty queue cannot move. The model is the state of one exchange and the
    threads inside the module, one program counter each; a step is one critical
    section or one call out of the module. *)

From S2P Require Import Prelude Task Double.

(** ** The limiter: exchange_limiter.c *)

Definition EXCHANGE_PRIO_TRANSACTIONAL : Z := 0.
Definition EXCHANGE_PRIO_MARKET_BACKFILL : Z := 50.
Definition EXCHANGE_TIER_TXN : nat := 0.
Definition EXCHANGE_TIER_BACK : nat := 1.
Definition EXCHANGE_TIER_USER : nat := 2.
Definition EXCHANGE_RPS_HEADROOM : Z := 2.

Definition exchange_prio_tier (prio : Z) : nat :=
  if prio <=? EXCHANGE_PRIO_TRANSACTIONAL then EXCHANGE_TIER_TXN
  else if prio <=? EXCHANGE_PRIO_MARKET_BACKFILL then EXCHANGE_TIER_BACK
  else EXCHANGE_TIER_USER.

(** CLOCK_MONOTONIC. *)
Record timespec := mk_ts { tv_sec : Z; tv_nsec : Z }.

Record exchange_limiter := mk_limiter {
  tokens : double;
  tokens_cap : double;
  tokens_per_sec : double;
  last_refill : timespec;
  deficit : double;
  reserved : list Z;                 (* per tier *)
  in_flight : Z
}.

Definition set_tokens (t : double) (l : exchange_limiter) : exchange_limiter :=
  mk_limiter t (tokens_cap l) (tokens_per_sec l) (last_refill l) (deficit l) (reserved l) (in_flight l).

Definition set_deficit (d : double) (l : exchange_limiter) : exchange_limiter :=
  mk_limiter (tokens l) (tokens_cap l) (tokens_per_sec l) (last_refill l) d (reserved l) (in_flight l).

Definition set_in_flight (n : Z) (l : exchange_limiter) : exchange_limiter :=
  mk_limiter (tokens l) (tokens_cap l) (tokens_per_sec l) (last_refill l) (deficit l) (reserved l) n.

Definition cap_tokens (l : exchange_limiter) : exchange_limiter :=
  if (tokens_cap l <? tokens l)%D then set_tokens (tokens_cap l) l else l.

Definition exchange_limiter_init (advertised_rps advertised_burst : Z) (now : timespec) : exchange_limiter :=
  let effective_rps :=
    if EXCHANGE_RPS_HEADROOM <? advertised_rps then advertised_rps - EXCHANGE_RPS_HEADROOM else 1 in
  let burst :=
    if 0 <? advertised_burst then of_Z advertised_burst
    else (of_Z effective_rps * (of_Z 3 / of_Z 2))%D in
  mk_limiter burst burst (of_Z effective_rps) now (of_Z 0) [1; 0; 0] 0.

Definition exchange_limiter_refill_locked (now : timespec) (l : exchange_limiter) : exchange_limiter :=
  let elapsed := (of_Z (tv_sec now - tv_sec (last_refill l))
                  + of_Z (tv_nsec now - tv_nsec (last_refill l)) / of_Z 1000000000)%D in
  if (elapsed <=? of_Z 0)%D then l
  else
    let gained := (elapsed * tokens_per_sec l)%D in
    let '(gained, owed) :=
      if (of_Z 0 <? deficit l)%D then
        if (deficit l <=? gained)%D then ((gained - deficit l)%D, of_Z 0)
        else (of_Z 0, (deficit l - gained)%D)
      else (gained, deficit l) in
    let l := cap_tokens (set_deficit owed (set_tokens (tokens l + gained)%D l)) in
    mk_limiter (tokens l) (tokens_cap l) (tokens_per_sec l) now (deficit l) (reserved l) (in_flight l).

(** The tokens kept for the tiers above the request's own. *)
Definition reserved_above (tier : nat) (l : exchange_limiter) : double :=
  fold_left (fun a r => (a + of_Z r)%D) (take tier (reserved l)) (of_Z 0).

Definition exchange_limiter_take_locked (now : timespec) (prio : Z) (l : exchange_limiter)
    : exchange_limiter * bool :=
  let l := exchange_limiter_refill_locked now l in
  if ((of_Z 1 + reserved_above (exchange_prio_tier prio) l)%D <=? tokens l)%D
  then (set_tokens (tokens l - of_Z 1)%D l, true)
  else (l, false).

Definition exchange_limiter_refund_locked (l : exchange_limiter) : exchange_limiter :=
  cap_tokens (set_tokens (tokens l + of_Z 1)%D l).

(** The operator's knobs of exchange.c, where they exist in the store. *)
Definition exchange_apply_overrides_for (rps r0 r50 : option Z) (l : exchange_limiter) : exchange_limiter :=
  let l :=
    match rps with
    | Some n =>
        if 0 <? n then
          let rate := if EXCHANGE_RPS_HEADROOM <? n then (of_Z n - of_Z EXCHANGE_RPS_HEADROOM)%D else of_Z 1 in
          cap_tokens (mk_limiter (tokens l) (rate * (of_Z 3 / of_Z 2))%D rate (last_refill l) (deficit l)
                        (reserved l) (in_flight l))
        else l
    | None => l
    end in
  let set i v l := mk_limiter (tokens l) (tokens_cap l) (tokens_per_sec l) (last_refill l) (deficit l)
                     (<[i := wrap 32 v]> (reserved l)) (in_flight l) in
  let l := match r0 with Some v => set EXCHANGE_TIER_TXN v l | None => l end in
  match r50 with Some v => set EXCHANGE_TIER_BACK v l | None => l end.

Definition exchange_limiter_penalty_locked (extra : double) (l : exchange_limiter) : exchange_limiter :=
  if (extra <=? of_Z 0)%D then l
  else if (extra <=? tokens l)%D then set_tokens (tokens l - extra)%D l
  else
    let l' := set_deficit (deficit l + (extra - tokens l))%D (set_tokens (of_Z 0) l) in
    if (tokens_cap l' <? deficit l')%D then set_deficit (tokens_cap l') l' else l'.

(** ** Status and backoff: exchange_retry.c *)

Definition EXCHANGE_RETRY_MAX_ATTEMPTS : Z := 5.
Definition EXCHANGE_RETRY_BASE_MS : Z := 250.
Definition EXCHANGE_RETRY_CAP_MS : Z := 4000.

Inductive exchange_outcome_t := EXCHANGE_OUTCOME_OK | EXCHANGE_OUTCOME_RETRY | EXCHANGE_OUTCOME_FAIL.

#[export] Instance exchange_outcome_eq_dec : EqDecision exchange_outcome_t.
Proof. solve_decision. Defined.

Definition exchange_classify_status (http_status : Z) (transport_err : bool) : exchange_outcome_t :=
  if http_status <? 0 then EXCHANGE_OUTCOME_FAIL
  else if transport_err then EXCHANGE_OUTCOME_RETRY
  else if (200 <=? http_status) && (http_status <? 300) then EXCHANGE_OUTCOME_OK
  else if http_status =? 429 then EXCHANGE_OUTCOME_RETRY
  else if (500 <=? http_status) && (http_status <? 600) then EXCHANGE_OUTCOME_RETRY
  else EXCHANGE_OUTCOME_FAIL.

Fixpoint backoff_loop (n : nat) (ms : Z) : Z :=
  match n with
  | O => ms
  | S n' =>
      let ms := wrap 32 (ms * 2) in
      if EXCHANGE_RETRY_CAP_MS <=? ms then EXCHANGE_RETRY_CAP_MS else backoff_loop n' ms
  end.

Definition exchange_backoff_ms (attempt : Z) : Z := backoff_loop (Z.to_nat attempt) EXCHANGE_RETRY_BASE_MS.

Definition exchange_describe_status (http_status : Z) (transport_err : bool) (upstream_err : option cstr)
    (cap : nat) : option cstr :=
  if transport_err then
    Some (strlcpy cap (lit "exchange transport error: " ++
      match upstream_err with Some e => e | None => lit "unknown" end))
  else if existsb (Z.eqb http_status) [200; 201; 202; 204] then None
  else if http_status =? 400 then Some (lit "exchange returned 400 (bad request)")
  else if http_status =? 401 then Some (lit "exchange returned 401 (invalid credentials)")
  else if http_status =? 403 then Some (lit "exchange returned 403 (permission denied)")
  else if http_status =? 404 then Some (lit "exchange returned 404 (not found)")
  else if http_status =? 429 then Some (lit "exchange returned 429 (rate limit, retry exhausted)")
  else if existsb (Z.eqb http_status) [500; 502; 503; 504] then
    Some (strlcpy cap (lit "exchange backend error (HTTP " ++ dec http_status ++ lit ", retry exhausted)"))
  else Some (strlcpy cap (lit "exchange returned HTTP " ++ dec http_status)).

(** ** One exchange: exchange.h *)

Definition EXCHANGE_PUMP_DELAY_MS : Z := 1000.
Definition EXCHANGE_BREAKER_THRESHOLD : Z := 10.
Definition EXCHANGE_BREAKER_COOLDOWN_MS : Z := 30000.

(** [r_id] stands for the address; [r_submits] counts the driver's submits of the
    request and is not in the code. The protocol handle is there or not. *)
Record exchange_req := mk_req {
  r_id : nat;
  r_prio : Z;
  r_kind : Z;
  r_path : cstr;
  r_body : option cstr;
  r_attempts : Z;
  r_handle : bool;
  r_submits : Z
}.

Definition set_attempts (n : Z) (r : exchange_req) : exchange_req :=
  mk_req (r_id r) (r_prio r) (r_kind r) (r_path r) (r_body r) n false (r_submits r).

Definition set_handle (r : exchange_req) : exchange_req :=
  mk_req (r_id r) (r_prio r) (r_kind r) (r_path r) (r_body r) (r_attempts r) true (r_submits r).

Definition set_submitted (r : exchange_req) : exchange_req :=
  mk_req (r_id r) (r_prio r) (r_kind r) (r_path r) (r_body r) (r_attempts r) (r_handle r) (r_submits r + 1).

(** The protocol vtable: whether its two hooks are set, and what it advertises. *)
Record vtable := mk_vt { vt_hooks : bool; advertised_rps : Z; advertised_burst : Z }.

Record exchange := mk_exchange {
  e_vt : option vtable;
  e_limiter : exchange_limiter;
  q_head : list exchange_req;
  q_count : Z;
  e_dead : bool;
  ws_gen : Z;
  pump_handle : Z;
  breaker_consec_fails : Z;
  breaker_tripped_until_ms : Z
}.

Definition set_queue (q : list exchange_req) (n : Z) (e : exchange) : exchange :=
  mk_exchange (e_vt e) (e_limiter e) q n (e_dead e) (ws_gen e) (pump_handle e)
    (breaker_consec_fails e) (breaker_tripped_until_ms e).

Definition set_limiter (l : exchange_limiter) (e : exchange) : exchange :=
  mk_exchange (e_vt e) l (q_head e) (q_count e) (e_dead e) (ws_gen e) (pump_handle e)
    (breaker_consec_fails e) (breaker_tripped_until_ms e).

Definition set_pump (h : Z) (e : exchange) : exchange :=
  mk_exchange (e_vt e) (e_limiter e) (q_head e) (q_count e) (e_dead e) (ws_gen e) h
    (breaker_consec_fails e) (breaker_tripped_until_ms e).

Definition set_breaker (fails until : Z) (e : exchange) : exchange :=
  mk_exchange (e_vt e) (e_limiter e) (q_head e) (q_count e) (e_dead e) (ws_gen e) (pump_handle e) fails until.

Fixpoint insert_req (r : exchange_req) (q : list exchange_req) : list exchange_req :=
  match q with
  | x :: q' => if r_prio x <=? r_prio r then x :: insert_req r q' else r :: q
  | [] => [r]
  end.

Definition exchange_q_push_locked (r : exchange_req) (e : exchange) : exchange :=
  set_queue (insert_req r (q_head e)) (wrap 32 (q_count e + 1)) e.

(** The walk of the queue; [clk i] is the clock at the i-th take. *)
Fixpoint pop_walk (clk : nat -> timespec) (q : list exchange_req) (l : exchange_limiter)
    : exchange_limiter * option (exchange_req * list exchange_req) :=
  match q with
  | [] => (l, None)
  | r :: q' =>
      let '(l, ok) := exchange_limiter_take_locked (clk (length q')) (r_prio r) l in
      if ok then (l, Some (r, q'))
      else
        let '(l, res) := pop_walk clk q' l in
        (l, match res with Some (x, q'') => Some (x, r :: q'') | None => None end)
  end.

Definition exchange_q_pop_eligible_locked (now_ms : Z) (clk : nat -> timespec) (e : exchange)
    : exchange * option exchange_req :=
  if (0 <? breaker_tripped_until_ms e) && (now_ms <? breaker_tripped_until_ms e) then (e, None)
  else
    let '(l, res) := pop_walk clk (q_head e) (e_limiter e) in
    match res with
    | None => (set_limiter l e, None)
    | Some (r, q) =>
        (set_queue q (wrap 32 (q_count e - 1)) (set_limiter (set_in_flight (wrap 32 (in_flight l + 1)) l) e),
         Some r)
    end.

(** [handle] is what [task_add_deferred] returns; the result says whether it was called,
    and with what delay. *)
Definition exchange_arm_pump_locked (now_ms handle : Z) (e : exchange) : exchange * option Z :=
  if e_dead e then (e, None)
  else if negb (pump_handle e =? TASK_HANDLE_NONE) then (e, None)
  else
    let delay :=
      if 0 <? breaker_tripped_until_ms e then
        let remaining := breaker_tripped_until_ms e - now_ms in
        if EXCHANGE_PUMP_DELAY_MS <? remaining then wrap 32 remaining else EXCHANGE_PUMP_DELAY_MS
      else EXCHANGE_PUMP_DELAY_MS in
    (set_pump handle e, Some delay).

(** The locked section of [exchange_internal_response_cb]. *)
Definition response_locked (http_status now_ms : Z) (outcome : exchange_outcome_t) (e : exchange) : exchange :=
  let l := e_limiter e in
  let l := if 0 <? in_flight l then set_in_flight (in_flight l - 1) l else l in
  let l := if http_status =? 429 then exchange_limiter_penalty_locked (of_Z 2) l else l in
  let e := set_limiter l e in
  match outcome with
  | EXCHANGE_OUTCOME_OK => set_breaker 0 0 e
  | _ =>
      let fails := wrap 32 (breaker_consec_fails e + 1) in
      set_breaker fails
        (if EXCHANGE_BREAKER_THRESHOLD <=? fails then now_ms + EXCHANGE_BREAKER_COOLDOWN_MS
         else breaker_tripped_until_ms e) e
  end.

(** The locked section after a build or submit that failed. *)
Definition refund_locked (e : exchange) : exchange :=
  let l := e_limiter e in
  let l := if 0 <? in_flight l then set_in_flight (in_flight l - 1) l else l in
  set_limiter (exchange_limiter_refund_locked l) e.

(** [exchange_registry_add] for this name: a live one is refused. *)
Definition exchange_registry_add (vt : vtable) (now : timespec) (e : exchange) : exchange * bool :=
  if negb (e_dead e) then (e, false)
  else
    (mk_exchange (Some vt) (exchange_limiter_init (advertised_rps vt) (advertised_burst vt) now)
       (q_head e) (q_count e) false (ws_gen e) (pump_handle e) 0 0, true).

(** A first registration. *)
Definition exchange_new (vt : vtable) (now : timespec) : exchange :=
  mk_exchange (Some vt) (exchange_limiter_init (advertised_rps vt) (advertised_burst vt) now) [] 0 false 0
    TASK_HANDLE_NONE 0 0.

(** ** The module's threads *)

(** Where a thread inside the module is: entering [exchange_dispatch]; about to build or
    to submit a request it popped; about to refund (and then to dispatch again, or not);
    in the completion callback, before and after its locked section; in the pump, retry
    or enqueue section; draining the queue of an unregistration; gone. *)
Inductive agent :=
| A_top
| A_build (vt : vtable) (r : exchange_req)
| A_submit (r : exchange_req)
| A_refund (again : bool)
| A_response (http_status : Z) (err : option cstr) (r : exchange_req)
| A_outcome (http_status : Z) (err : option cstr) (outcome : exchange_outcome_t) (r : exchange_req)
| A_pump
| A_retry (r : exchange_req)
| A_enqueue (r : exchange_req)
| A_drain (q : list exchange_req)
| A_done.

(** A call of a user callback; no error is success. *)
Record delivery := mk_delivery { dl_id : nat; dl_status : Z; dl_err : option cstr; dl_submits : Z }.

(** [wire] is what drivers have accepted and not completed; [retries] and [pumps] are the
    pending deferred tasks. [accepted], [delivered] and [next_id] record the history. *)
Record system := mk_system {
  exch : exchange;
  agents : list agent;
  wire : list exchange_req;
  retries : list exchange_req;
  pumps : list Z;
  accepted : list nat;
  delivered : list delivery;
  next_id : nat
}.

Definition set_exch (e : exchange) (s : system) : system :=
  mk_system e (agents s) (wire s) (retries s) (pumps s) (accepted s) (delivered s) (next_id s).
Definition set_agent (i : nat) (a : agent) (s : system) : system :=
  mk_system (exch s) (<[i := a]> (agents s)) (wire s) (retries s) (pumps s) (accepted s) (delivered s) (next_id s).
Definition add_agent (a : agent) (s : system) : system :=
  mk_system (exch s) (agents s ++ [a]) (wire s) (retries s) (pumps s) (accepted s) (delivered s) (next_id s).
Definition set_wire (w : list exchange_req) (s : system) : system :=
  mk_system (exch s) (agents s) w (retries s) (pumps s) (accepted s) (delivered s) (next_id s).
Definition set_retries (w : list exchange_req) (s : system) : system :=
  mk_system (exch s) (agents s) (wire s) w (pumps s) (accepted s) (delivered s) (next_id s).
Definition set_pumps (h : list Z) (s : system) : system :=
  mk_system (exch s) (agents s) (wire s) (retries s) h (accepted s) (delivered s) (next_id s).
Definition accept (x : nat) (s : system) : system :=
  mk_system (exch s) (agents s) (wire s) (retries s) (pumps s) (x :: accepted s) (delivered s) (next_id s).

(** [exchange_req_succeed] and [exchange_req_fail]: the callback, once, and the request
    is gone. *)
Definition deliver (r : exchange_req) (status : Z) (err : option cstr) (s : system) : system :=
  mk_system (exch s) (agents s) (wire s) (retries s) (pumps s) (accepted s)
    (mk_delivery (r_id r) status err (r_submits r) :: delivered s) (next_id s).

Definition exchange_req_succeed (r : exchange_req) (status : Z) (s : system) : system := deliver r status None s.

Definition exchange_req_fail (r : exchange_req) (status : Z) (err : string) (s : system) : system :=
  deliver r status (Some (lit err)) s.

(** What the outside answers a step: clocks, the handle of a new deferred task (zero when
    there is none), the driver's results. *)
Record answers := mk_answers {
  x_now_ms : Z; x_clk : nat -> timespec; x_handle : Z; x_built : bool; x_submitted : bool
}.

(** ** The operations *)

Definition exchange_dispatch (i : nat) (x : answers) (s : system) : system :=
  let e := exch s in
  match e_vt e with
  | None => set_agent i A_done s
  | Some vt =>
      let '(e, r) := exchange_q_pop_eligible_locked (x_now_ms x) (x_clk x) e in
      match r with
      | Some r => set_agent i (A_build vt r) (set_exch e s)
      | None =>
          if 0 <? q_count e then
            let '(e', armed) := exchange_arm_pump_locked (x_now_ms x) (x_handle x) e in
            let s := set_exch e' s in
            set_agent i A_done
              (if armed is Some _ then
                 if x_handle x =? TASK_HANDLE_NONE then s else set_pumps (x_handle x :: pumps s) s
               else s)
          else set_agent i A_done (set_exch e s)
      end
  end.

Definition exchange_arm_retry (r : exchange_req) (x : answers) (s : system) : system :=
  let n := wrap 32 (r_attempts r + 1) in
  if EXCHANGE_RETRY_MAX_ATTEMPTS <=? n then exchange_req_fail r 0 "exchange retry attempts exhausted" s
  else if x_handle x =? TASK_HANDLE_NONE
       then exchange_req_fail r 0 "exchange retry: task_add_deferred failed" s
       else set_retries (set_attempts n r :: retries s) s.

(** The rest of a dispatch, off the lock: the build, the submit, the refund. *)
Definition dispatch_build (i : nat) (x : answers) (vt : vtable) (r : exchange_req) (s : system) : system :=
  if negb (vt_hooks vt) then
    set_agent i (A_refund false) (exchange_req_fail r 0 "exchange protocol vtable invalid" s)
  else if negb (x_built x) then
    set_agent i (A_refund false) (exchange_req_fail r 0 "exchange build_request failed" s)
  else set_agent i (A_submit (set_handle r)) s.

Definition dispatch_submit (i : nat) (x : answers) (r : exchange_req) (s : system) : system :=
  if x_submitted x then set_agent i A_top (set_wire (set_submitted r :: wire s) s)
  else set_agent i (A_refund true) (exchange_req_fail r 0 "exchange submit failed" s).

Definition dispatch_refund (i : nat) (again : bool) (s : system) : system :=
  set_agent i (if again then A_top else A_done) (set_exch (refund_locked (exch s)) s).

Definition exchange_internal_response_cb (i : nat) (x : answers) (status : Z) (err : option cstr)
    (r : exchange_req) (s : system) : system :=
  let outcome := exchange_classify_status status (status =? 0) in
  set_agent i (A_outcome status err outcome r)
    (set_exch (response_locked status (x_now_ms x) outcome (exch s)) s).

(** Its switch, after which it dispatches. *)
Definition response_switch (i : nat) (x : answers) (status : Z) (err : option cstr)
    (outcome : exchange_outcome_t) (r : exchange_req) (s : system) : system :=
  let s := set_agent i A_top s in
  match outcome with
  | EXCHANGE_OUTCOME_OK => exchange_req_succeed r status s
  | EXCHANGE_OUTCOME_RETRY => exchange_arm_retry r x s
  | EXCHANGE_OUTCOME_FAIL =>
      deliver r status
        (Some match exchange_describe_status status (status =? 0) err 160 with
              | Some m => m | None => lit "exchange request failed"
              end) s
  end.

Definition exchange_pump_cb (i : nat) (s : system) : system :=
  set_agent i A_top (set_exch (set_pump TASK_HANDLE_NONE (exch s)) s).

Definition exchange_retry_task_cb (i : nat) (r : exchange_req) (s : system) : system :=
  match e_vt (exch s) with
  | Some _ => set_agent i A_top (set_exch (exchange_q_push_locked r (exch s)) s)
  | None => set_agent i A_done (exchange_req_fail r 0 "exchange unregistered during retry" s)
  end.

(** The locked section of [exchange_request]. *)
Definition request_push (i : nat) (r : exchange_req) (s : system) : system :=
  match e_vt (exch s) with
  | Some _ => accept (r_id r) (set_agent i A_top (set_exch (exchange_q_push_locked r (exch s)) s))
  | None => set_agent i A_done s
  end.

Definition unregister_drain (i : nat) (q : list exchange_req) (s : system) : system :=
  match q with
  | r :: q => set_agent i (A_drain q) (exchange_req_fail r 0 "exchange unregistered" s)
  | [] => set_agent i A_done s
  end.

Definition exchange_step (i : nat) (x : answers) (a : agent) (s : system) : option system :=
  match a with
  | A_top => Some (exchange_dispatch i x s)
  | A_build vt r => Some (dispatch_build i x vt r s)
  | A_submit r => Some (dispatch_submit i x r s)
  | A_refund again => Some (dispatch_refund i again s)
  | A_response status err r => Some (exchange_internal_response_cb i x status err r s)
  | A_outcome status err outcome r => Some (response_switch i x status err outcome r s)
  | A_pump => Some (exchange_pump_cb i s)
  | A_retry r => Some (exchange_retry_task_cb i r s)
  | A_enqueue r => Some (request_push i r s)
  | A_drain q => Some (unregister_drain i q s)
  | A_done => None
  end.

(** The locked section of [exchange_unregister]; what it unlinked is drained after. *)
Definition exchange_unregister (s : system) : system :=
  let e := exch s in
  add_agent (A_drain (q_head e))
    (set_pumps (List.filter (fun h => negb (h =? pump_handle e)) (pumps s))
      (set_exch (mk_exchange None (e_limiter e) [] 0 true (wrap 64 (ws_gen e + 1)) TASK_HANDLE_NONE
                   (breaker_consec_fails e) (breaker_tripped_until_ms e)) s)).

(** [exchange_req_new] and the entry of [exchange_request]. *)
Definition exchange_request (prio kind : Z) (path : cstr) (body : option cstr) (s : system) : option system :=
  if seqb path [] then None
  else
    let r := mk_req (next_id s) prio kind path
               match body with Some [] => None | b => b end 0 false 0 in
    Some (mk_system (exch s) (agents s ++ [A_enqueue r]) (wire s) (retries s) (pumps s) (accepted s)
            (delivered s) (S (next_id s))).

Inductive xevent :=
| X_request (prio kind : Z) (path : cstr) (body : option cstr)
| X_agent (i : nat) (x : answers)
| X_complete (k : nat) (http_status : Z) (err : option cstr)
| X_retry (k : nat)
| X_pump (k : nat)
| X_unregister
| X_register (vt : vtable) (now : timespec).

(** [X_complete], [X_retry] and [X_pump] pick the [k]-th outstanding one. *)
Definition xstep (ev : xevent) (s : system) : option system :=
  match ev with
  | X_request prio kind path body => exchange_request prio kind path body s
  | X_agent i x => match agents s !! i with Some a => exchange_step i x a s | None => None end
  | X_complete k status err =>
      match wire s !! k with
      | Some r => Some (add_agent (A_response status err r) (set_wire (delete k (wire s)) s))
      | None => None
      end
  | X_retry k =>
      match retries s !! k with
      | Some r => Some (add_agent (A_retry r) (set_retries (delete k (retries s)) s))
      | None => None
      end
  | X_pump k =>
      match pumps s !! k with
      | Some h => Some (add_agent A_pump (set_pumps (delete k (pumps s)) s))
      | None => None
      end
  | X_unregister => Some (exchange_unregister s)
  | X_register vt now => Some (set_exch (exchange_registry_add vt now (exch s)).1 s)
  end.

Fixpoint xrun (evs : list xevent) (s : system) : option system :=
  match evs with
  | [] => Some s
  | ev :: evs' => match xstep ev s with Some s => xrun evs' s | None => None end
  end.

Definition xstart (vt : vtable) (now : timespec) : system :=
  mk_system (exchange_new vt now) [] [] [] [] [] [] 0.

(** ** Where a request is *)

Definition agent_holds (a : agent) : list exchange_req :=
  match a with
  | A_build _ r | A_submit r | A_response _ _ r | A_outcome _ _ _ r | A_retry r => [r]
  | A_drain q => q
  | _ => []
  end.

(** A request on its way in, not accepted yet. *)
Definition agent_brings (a : agent) : list exchange_req :=
  match a with A_enqueue r => [r] | _ => [] end.

Definition has_id (x : nat) (r : exchange_req) : bool := Nat.eqb (r_id r) x.

Definition held (s : system) : list exchange_req :=
  q_head (exch s) ++ wire s ++ retries s ++ concat (agent_holds <$> agents s).

Definition n_held (x : nat) (s : system) : Z := count (has_id x) (held s).
Definition n_brought (x : nat) (s : system) : Z := count (has_id x) (concat (agent_brings <$> agents s)).
Definition n_accepted (x : nat) (s : system) : Z := count (Nat.eqb x) (accepted s).
Definition n_delivered (x : nat) (s : system) : Z := count (fun d => Nat.eqb (dl_id d) x) (delivered s).

(** A request's submits are its attempts, one more while it is with the driver. *)
Definition tried (extra : Z) (r : exchange_req) : Prop :=
  r_submits r = r_attempts r + extra /\ 0 <= r_attempts r < EXCHANGE_RETRY_MAX_ATTEMPTS.

Definition agent_tried (a : agent) : Prop :=
  match a with
  | A_build _ r | A_submit r | A_retry r | A_enqueue r => tried 0 r
  | A_response _ _ r | A_outcome _ _ _ r => tried 1 r
  | A_drain q => Forall (tried 0) q
  | _ => True
  end.

Record xinv (s : system) : Prop := {
  i_once : forall x, n_accepted x s = n_held x s + n_delivered x s;
  i_fresh : forall x, n_accepted x s + n_brought x s <= (if (x <? next_id s)%nat then 1 else 0);
  i_queue : Forall (tried 0) (q_head (exch s));
  i_wire : Forall (tried 1) (wire s);
  i_retries : Forall (tried 0) (retries s);
  i_agents : Forall agent_tried (agents s);
  i_delivered : Forall (fun d => dl_submits d <= EXCHANGE_RETRY_MAX_ATTEMPTS) (delivered s)
}.

Lemma count_concat_insert {A} (f : A -> bool) (g : agent -> list A) (l : list agent) i a b :
  l !! i = Some a ->
  count f (concat (g <$> <[i := b]> l)) = count f (concat (g <$> l)) - count f (g a) + count f (g b).
Proof.
  revert i. induction l as [|c l IH]; intros i H; [done|]. destruct i as [|i].
  - injection H as ->. change (<[0%nat := b]> (a :: l)) with (b :: l).
    cbn [fmap list_fmap concat]. rewrite !count_app. lia.
  - change (<[S i := b]> (c :: l)) with (c :: <[i := b]> l).
    cbn [fmap list_fmap concat]. rewrite !count_app.
    rewrite (IH i H). lia.
Qed.

Lemma count_concat_snoc {A} (f : A -> bool) (g : agent -> list A) (l : list agent) a :
  count f (concat (g <$> l ++ [a])) = count f (concat (g <$> l)) + count f (g a).
Proof.
  rewrite fmap_app, concat_app, count_app. cbn [fmap list_fmap concat]. by rewrite app_nil_r.
Qed.

Lemma count_insert_req f r q : count f (insert_req r q) = count f (r :: q).
Proof.
  induction q as [|x q IH]; [done|]. cbn [insert_req]. destruct (r_prio x <=? r_prio r); [|done].
  rewrite count_cons, IH, !count_cons. lia.
Qed.

Lemma Forall_insert_req P r q : Forall P (insert_req r q) <-> P r /\ Forall P q.
Proof.
  induction q as [|x q IH]; cbn [insert_req]; [by rewrite list.Forall_cons|].
  destruct (r_prio x <=? r_prio r); rewrite !list.Forall_cons; [rewrite IH|]; tauto.
Qed.

Lemma pop_walk_spec clk q l :
  match pop_walk clk q l with
  | (_, None) => True
  | (_, Some (r, q')) => exists a b, q = a ++ r :: b /\ q' = a ++ b
  end.
Proof.
  revert l. induction q as [|x q IH]; intros l; cbn [pop_walk]; [done|].
  destruct (exchange_limiter_take_locked _ _ _) as [l1 [|]]; [by exists [], q|].
  specialize (IH l1). destruct (pop_walk clk q l1) as [l2 [[r q']|]]; [|done].
  destruct IH as (a & b & -> & ->). by exists (x :: a), b.
Qed.

Lemma pop_spec now clk e :
  match exchange_q_pop_eligible_locked now clk e with
  | (e', None) => q_head e' = q_head e /\ q_count e' = q_count e /\ e_vt e' = e_vt e /\ e_dead e' = e_dead e /\
                  pump_handle e' = pump_handle e
  | (e', Some r) => exists a b, q_head e = a ++ r :: b /\ q_head e' = a ++ b /\ e_vt e' = e_vt e /\
                      e_dead e' = e_dead e /\ pump_handle e' = pump_handle e /\
                      q_count e' = wrap 32 (q_count e - 1)
  end.
Proof.
  unfold exchange_q_pop_eligible_locked. destruct (_ && _); [done|].
  pose proof (pop_walk_spec clk (q_head e) (e_limiter e)) as H.
  destruct (pop_walk _ _ _) as [l [[r q']|]]; [|done]. destruct H as (a & b & E1 & E2). by exists a, b.
Qed.

Lemma count_middle {A} (f : A -> bool) a x b : count f (a ++ x :: b) = Z.b2z (f x) + count f (a ++ b).
Proof. rewrite !count_app, count_cons. lia. Qed.

Lemma count_delete {A} (f : A -> bool) (l : list A) k x :
  l !! k = Some x -> count f (delete k l) = count f l - Z.b2z (f x).
Proof.
  revert k. induction l as [|y l IH]; intros k H; [done|]. destruct k as [|k].
  - injection H as ->. change (delete 0%nat (x :: l)) with l. rewrite count_cons. lia.
  - change (delete (S k) (y :: l)) with (y :: delete k l). rewrite !count_cons, (IH k H). lia.
Qed.

Lemma Forall_delete_at {A} (P : A -> Prop) (l : list A) k : Forall P l -> Forall P (delete k l).
Proof.
  revert k. induction l as [|x l IH]; intros k H; [done|]. apply list.Forall_cons in H as [Hx H].
  destruct k as [|k]; [done|]. change (delete (S k) (x :: l)) with (x :: delete k l). constructor; auto.
Qed.

(** ** Each step keeps every request in one place *)

Lemma held_count x s :
  n_held x s = count (has_id x) (q_head (exch s)) + count (has_id x) (wire s) + count (has_id x) (retries s)
             + count (has_id x) (concat (agent_holds <$> agents s)).
Proof. unfold n_held, held. rewrite !count_app. lia. Qed.

(** An agent moves from [a] to [b]; the rest of the state changes as told. *)
Lemma xinv_agent s s' i a b :
  xinv s -> agents s !! i = Some a -> agents s' = <[i := b]> (agents s) -> next_id s' = next_id s ->
  (forall x, n_accepted x s' - n_accepted x s =
     (count (has_id x) (q_head (exch s')) + count (has_id x) (wire s') + count (has_id x) (retries s'))
     - (count (has_id x) (q_head (exch s)) + count (has_id x) (wire s) + count (has_id x) (retries s))
     - count (has_id x) (agent_holds a) + count (has_id x) (agent_holds b)
     + (n_delivered x s' - n_delivered x s)) ->
  (forall x, n_accepted x s' - count (has_id x) (agent_brings a) + count (has_id x) (agent_brings b)
     <= n_accepted x s) ->
  Forall (tried 0) (q_head (exch s')) -> Forall (tried 1) (wire s') -> Forall (tried 0) (retries s') ->
  agent_tried b -> Forall (fun d => dl_submits d <= EXCHANGE_RETRY_MAX_ATTEMPTS) (delivered s') ->
  xinv s'.
Proof.
  intros [H1 H2 H3 H4 H5 H6 H7] Ha Ea En Hc Hb F1 F2 F3 F4 F5. split; try done.
  - intros x. specialize (H1 x). specialize (Hc x). rewrite held_count in *.
    rewrite Ea, (count_concat_insert _ agent_holds _ _ _ b Ha). lia.
  - intros x. specialize (H2 x). specialize (Hb x). unfold n_brought in *. rewrite En, Ea.
    rewrite (count_concat_insert _ agent_brings _ _ _ b Ha). lia.
  - rewrite Ea. by apply Forall_insert.
Qed.

Lemma response_queue st now o e : q_head (response_locked st now o e) = q_head e.
Proof. unfold response_locked. by destruct o. Qed.

Lemma refund_queue e : q_head (refund_locked e) = q_head e.
Proof. done. Qed.

(** The bodies of the steps. *)
Ltac step_unfold :=
  unfold dispatch_build, dispatch_submit, dispatch_refund, exchange_internal_response_cb, response_switch,
    exchange_pump_cb, exchange_retry_task_cb, request_push, unregister_drain; cbn beta iota.

(** Counting goals of a step that only moves one request. *)
Ltac count_step :=
  intros ?; unfold n_accepted, n_delivered;
  cbn [exch agents wire retries pumps accepted delivered next_id set_exch set_agent add_agent set_wire
       set_retries set_pumps accept deliver exchange_req_fail exchange_req_succeed agent_holds agent_brings
       q_head set_queue set_limiter set_pump set_breaker];
  rewrite ?refund_queue, ?response_queue, ?count_cons; cbn [dl_id]; unfold has_id; cbn [r_id set_handle set_submitted set_attempts];
  try change (count ?f []) with 0; try lia.

Lemma tried_max r : tried 0 r -> r_submits r <= EXCHANGE_RETRY_MAX_ATTEMPTS.
Proof. unfold tried. lia. Qed.

Lemma tried_max1 r : tried 1 r -> r_submits r <= EXCHANGE_RETRY_MAX_ATTEMPTS.
Proof. unfold tried. lia. Qed.

Lemma arm_pump_queue now h e :
  q_head (exchange_arm_pump_locked now h e).1 = q_head e /\ e_vt (exchange_arm_pump_locked now h e).1 = e_vt e /\
  e_dead (exchange_arm_pump_locked now h e).1 = e_dead e /\ q_count (exchange_arm_pump_locked now h e).1 = q_count e.
Proof.
  unfold exchange_arm_pump_locked. destruct (e_dead e) eqn:E; [|destruct (negb _)]; cbn; by rewrite ?E.
Qed.

Lemma dispatch_inv i x s : xinv s -> agents s !! i = Some A_top -> xinv (exchange_dispatch i x s).
Proof.
  intros H Ha. pose proof H as [H1 H2 H3 H4 H5 H6 H7]. unfold exchange_dispatch.
  destruct (e_vt (exch s)) as [vt|]; [|apply (xinv_agent s _ i A_top A_done); try done; count_step].
  pose proof (pop_spec (x_now_ms x) (x_clk x) (exch s)) as Hp.
  destruct (exchange_q_pop_eligible_locked _ _ _) as [e [r|]].
  - destruct Hp as (a & b & E1 & E2 & _). rewrite E1 in H3.
    apply Forall_app in H3 as [F1 F2]. apply list.Forall_cons in F2 as [F2 F3].
    apply (xinv_agent s _ i A_top (A_build vt r)); try done.
    + count_step. rewrite E1, E2, count_middle. lia.
    + count_step.
    + cbn. rewrite E2. by apply Forall_app.
  - destruct Hp as (E1 & _).
    assert (Hq : forall e', q_head e' = q_head (exch s) -> forall P, xinv (set_agent i A_done
      (if P : bool then set_exch e' s else set_pumps (x_handle x :: pumps s) (set_exch e' s)))).
    { intros e' E' [|]; cbn iota; (apply (xinv_agent s _ i A_top A_done); try done;
        [count_step; rewrite E'; lia|count_step|cbn; by rewrite E']). }
    pose proof (arm_pump_queue (x_now_ms x) (x_handle x) e) as (Eq & _).
    destruct (0 <? q_count e); [|by apply (Hq e E1 true)].
    destruct (exchange_arm_pump_locked _ _ _) as [e' [d|]]; cbn in Eq.
    + destruct (x_handle x =? TASK_HANDLE_NONE); [apply (Hq e' ltac:(congruence) true)|apply (Hq e' ltac:(congruence) false)].
    + apply (Hq e' ltac:(congruence) true).
Qed.

Lemma arm_retry_inv i x st err r s :
  xinv s -> agents s !! i = Some (A_outcome st err EXCHANGE_OUTCOME_RETRY r) ->
  xinv (exchange_arm_retry r x (set_agent i A_top s)).
Proof.
  intros H Ha. pose proof H as [H1 H2 H3 H4 H5 H6 H7].
  assert (Hr : tried 1 r) by exact (Forall_lookup_1 _ _ _ _ H6 Ha).
  pose proof (tried_max1 _ Hr). pose proof Hr as [Hr1 Hr2].
  assert (Hd : forall err', xinv (deliver r 0 err' (set_agent i A_top s))).
  { intros err'. apply (xinv_agent s _ i (A_outcome st err EXCHANGE_OUTCOME_RETRY r) A_top); try done;
      [count_step|count_step|]. by constructor. }
  unfold exchange_arm_retry. rewrite wrap_small by (unfold EXCHANGE_RETRY_MAX_ATTEMPTS in Hr2; lia).
  destruct (EXCHANGE_RETRY_MAX_ATTEMPTS <=? r_attempts r + 1) eqn:E; [apply Hd|].
  destruct (x_handle x =? TASK_HANDLE_NONE); [apply Hd|]. breflect.
  apply (xinv_agent s _ i (A_outcome st err EXCHANGE_OUTCOME_RETRY r) A_top); try done; [count_step|count_step|].
  cbn. constructor; [|done]. unfold tried, set_attempts. cbn. lia.
Qed.

Lemma exchange_step_inv i x a s s' :
  xinv s -> agents s !! i = Some a -> exchange_step i x a s = Some s' -> xinv s'.
Proof.
  intros H Ha. pose proof H as [H1 H2 H3 H4 H5 H6 H7].
  assert (Ht : agent_tried a) by exact (Forall_lookup_1 _ _ _ _ H6 Ha).
  destruct a as [|vt r|r|ag|st err r|st err o r| |r|r|q|]; unfold exchange_step; step_unfold; cbn [agent_tried] in *; try done.
  - intros [= <-]. by apply dispatch_inv.
  - pose proof (tried_max _ Ht) as Hm.
    assert (Hd : forall e, xinv (set_agent i (A_refund false) (deliver r 0 e s))).
    { intros e. apply (xinv_agent s _ i (A_build vt r) (A_refund false)); try done; [count_step|count_step|]. by constructor. }
    destruct (negb (vt_hooks vt)); [intros [= <-]; apply Hd|].
    destruct (negb (x_built x)); intros [= <-]; [apply Hd|].
    apply (xinv_agent s _ i (A_build vt r) (A_submit (set_handle r))); try done; count_step.
  - pose proof (tried_max _ Ht) as Hm. destruct (x_submitted x); intros [= <-].
    + apply (xinv_agent s _ i (A_submit r) A_top); try done; [count_step|count_step|].
      constructor; [|done]. destruct Ht. unfold tried. cbn. lia.
    + apply (xinv_agent s _ i (A_submit r) (A_refund true)); try done; [count_step|count_step|]. by constructor.
  - intros [= <-]. destruct ag; [apply (xinv_agent s _ i (A_refund true) A_top)|apply (xinv_agent s _ i (A_refund false) A_done)];
      try done; count_step.
  - intros [= <-]. eapply (xinv_agent s _ i (A_response st err r)); try done; [count_step|count_step|].
    cbn. by rewrite response_queue.
  - pose proof (tried_max1 _ Ht) as Hm. intros [= <-]. destruct o; [|by eapply arm_retry_inv|];
      eapply (xinv_agent s _ i (A_outcome st err _ r) A_top); try done; try count_step; by constructor.
  - intros [= <-]. apply (xinv_agent s _ i A_pump A_top); try done; count_step.
  - pose proof (tried_max _ Ht) as Hm. destruct (e_vt (exch s)); intros [= <-].
    + apply (xinv_agent s _ i (A_retry r) A_top); try done; [count_step|count_step|].
      * unfold exchange_q_push_locked. cbn [q_head set_queue]. rewrite count_insert_req, count_cons.
        change (count ?f []) with 0. lia.
      * cbn. by apply Forall_insert_req.
    + apply (xinv_agent s _ i (A_retry r) A_done); try done; [count_step|count_step|]. by constructor.
  - destruct (e_vt (exch s)); intros [= <-]; [|apply (xinv_agent s _ i (A_enqueue r) A_done); try done; count_step;
      destruct (Nat.eqb _ _); cbn; lia].
    apply (xinv_agent s _ i (A_enqueue r) A_top); try done; [count_step|count_step|].
    + unfold exchange_q_push_locked. cbn [q_head set_queue]. rewrite count_insert_req, count_cons.
      unfold has_id. rewrite Nat.eqb_sym. lia.
    + rewrite Nat.eqb_sym. lia.
    + cbn. by apply Forall_insert_req.
  - destruct q as [|r q]; intros [= <-]; [apply (xinv_agent s _ i (A_drain []) A_done); try done; count_step|].
    apply list.Forall_cons in Ht as [Hr Hq]. pose proof (tried_max _ Hr).
    apply (xinv_agent s _ i (A_drain (r :: q)) (A_drain q)); try done; [count_step|count_step|]. by constructor.
Qed.

(** A new agent takes requests from where they were. *)
Lemma xinv_new s s' a :
  xinv s -> agents s' = agents s ++ [a] -> (next_id s <= next_id s')%nat ->
  accepted s' = accepted s -> delivered s' = delivered s ->
  (forall x,
     (count (has_id x) (q_head (exch s')) + count (has_id x) (wire s') + count (has_id x) (retries s'))
     + count (has_id x) (agent_holds a)
     = count (has_id x) (q_head (exch s)) + count (has_id x) (wire s) + count (has_id x) (retries s)) ->
  (forall x, count (has_id x) (agent_brings a) <= if (x =? next_id s)%nat && (x <? next_id s')%nat then 1 else 0) ->
  Forall (tried 0) (q_head (exch s')) -> Forall (tried 1) (wire s') -> Forall (tried 0) (retries s') ->
  agent_tried a -> xinv s'.
Proof.
  intros [H1 H2 H3 H4 H5 H6 H7] Ea En Eac Ed Hc Hb F1 F2 F3 F4. split; try done.
  - intros x. specialize (H1 x). specialize (Hc x). rewrite held_count in *.
    unfold n_accepted, n_delivered in *. rewrite Ea, Eac, Ed, count_concat_snoc. lia.
  - intros x. specialize (H2 x). specialize (Hb x). unfold n_brought, n_accepted in *.
    rewrite Ea, Eac, count_concat_snoc.
    destruct (x =? next_id s)%nat eqn:E1, (x <? next_id s')%nat eqn:E2, (x <? next_id s)%nat eqn:E3;
      breflect; cbn [andb] in Hb; lia.
  - rewrite Ea. apply Forall_app. split; [done|by constructor].
  - by rewrite Ed.
Qed.

Lemma xstep_inv ev s s' : xinv s -> xstep ev s = Some s' -> xinv s'.
Proof.
  intros H. pose proof H as [H1 H2 H3 H4 H5 H6 H7].
  assert (Hz : forall b : bool, 0 <= if b then 1 else 0) by (by intros []).
  destruct ev as [prio kind path body|i x|k st err|k|k| |vt now]; cbn [xstep].
  - unfold exchange_request. destruct (seqb path []); [done|]. intros [= <-].
    eapply (xinv_new s); try done; cbn; try lia.
    + intros x. rewrite count_nil. lia.
    + intros x. rewrite count_cons, count_nil. unfold has_id. cbn.
      destruct (next_id s =? x)%nat eqn:E; breflect; cbn; [|apply Hz].
      rewrite <- E, Nat.eqb_refl, Nat.leb_refl. cbn. lia.
  - destruct (agents s !! i) as [a|] eqn:Ha; [|done]. by apply exchange_step_inv.
  - destruct (wire s !! k) as [r|] eqn:Ek; [|done]. intros [= <-].
    eapply (xinv_new s); try done; cbn; try (by apply Forall_delete_at); try lia.
    + intros x. rewrite (count_delete _ _ _ _ Ek), count_cons, count_nil. lia.
    + exact (Forall_lookup_1 _ _ _ _ H4 Ek).
  - destruct (retries s !! k) as [r|] eqn:Ek; [|done]. intros [= <-].
    eapply (xinv_new s); try done; cbn; try (by apply Forall_delete_at); try lia.
    + intros x. rewrite (count_delete _ _ _ _ Ek), count_cons, count_nil. lia.
    + exact (Forall_lookup_1 _ _ _ _ H5 Ek).
  - destruct (pumps s !! k) as [h|]; [|done]. intros [= <-].
    eapply (xinv_new s); try done; cbn; try lia; intros x; rewrite count_nil; lia.
  - intros [= <-]. eapply (xinv_new s); try done; cbn; try lia; intros x; rewrite count_nil; lia.
  - intros [= <-]. unfold exchange_registry_add. destruct (negb (e_dead (exch s))); by split.
Qed.

Lemma xrun_inv evs s s' : xinv s -> xrun evs s = Some s' -> xinv s'.
Proof.
  revert s. induction evs as [|ev evs IH]; intros s H; cbn [xrun]; [by intros [= <-]|].
  destruct (xstep ev s) as [s1|] eqn:E; [|done]. apply IH. by eapply xstep_inv.
Qed.

Lemma xstart_inv vt now : xinv (xstart vt now).
Proof. by split. Qed.

(** Every request the module accepts is answered exactly once or is still held in
    exactly one place (the queue, the driver, a pending retry, or the hands of one
    thread), whatever the interleaving of requests, completions, retries, pumps,
    unregistrations and reloads; one that was refused is never answered; and no request
    is submitted to a driver more than five times. *)
Theorem exchange_request_once (vt : vtable) (now : timespec) (evs : list xevent) (s : system)
    (Hrun : xrun evs (xstart vt now) = Some s) :
  (forall x, n_delivered x s + n_held x s = n_accepted x s /\ n_accepted x s <= 1) /\
  (forall d, d ∈ delivered s -> dl_submits d <= EXCHANGE_RETRY_MAX_ATTEMPTS) /\
  (forall r, r ∈ held s -> r_submits r <= EXCHANGE_RETRY_MAX_ATTEMPTS).
Proof.
  pose proof (xrun_inv _ _ _ (xstart_inv vt now) Hrun) as [H1 H2 H3 H4 H5 H6 H7].
  split_and!.
  - intros x. specialize (H1 x). specialize (H2 x).
    pose proof (count_range (has_id x) (concat (agent_brings <$> agents s))).
    unfold n_brought in *. destruct (x <? next_id s)%nat; split; lia.
  - intros d Hd. by apply (proj1 (List.Forall_forall _ _) H7), list_elem_of_In.
  - assert (F0 : forall q, Forall (tried 0) q -> Forall (fun r => r_submits r <= EXCHANGE_RETRY_MAX_ATTEMPTS) q)
      by (intros q; apply List.Forall_impl, tried_max).
    assert (F1 : forall q, Forall (tried 1) q -> Forall (fun r => r_submits r <= EXCHANGE_RETRY_MAX_ATTEMPTS) q)
      by (intros q; apply List.Forall_impl, tried_max1).
    assert (Hall : Forall (fun r => r_submits r <= EXCHANGE_RETRY_MAX_ATTEMPTS) (held s)).
    { unfold held. rewrite !Forall_app. split_and!; auto.
      clear -H6 F0 F1. induction H6 as [|a l Ha _ IH]; [done|]. cbn [fmap list_fmap concat]. apply Forall_app. split; [|done].
      destruct a; cbn in Ha; try done; try (by apply F0; constructor); try (by apply F1; constructor). by apply F0. }
    intros r Hr. by apply (proj1 (List.Forall_forall _ _) Hall), list_elem_of_In.
Qed.

(** ** The queue never parks *)

(** The thread will come through [exchange_dispatch], unless the exchange goes away. *)
Definition coming (a : agent) : bool :=
  match a with A_done | A_drain _ | A_refund false => false | _ => true end.

(** Drivers whose hooks are set and whose builds succeed, deferred tasks that get a handle. *)
Definition good_event (ev : xevent) : Prop :=
  match ev with
  | X_agent _ x => x_built x = true /\ x_handle x <> TASK_HANDLE_NONE
  | X_register vt _ => vt_hooks vt = true
  | _ => True
  end.

(** Executions of such events in which the queue never holds 2^32 requests. *)
Inductive flows (vt : vtable) (now : timespec) : system -> Prop :=
| flows_start : flows vt now (xstart vt now)
| flows_step s ev s' :
    flows vt now s -> good_event ev -> Z.of_nat (length (q_head (exch s))) < 2 ^ 32 ->
    xstep ev s = Some s' -> flows vt now s'.

Definition agent_hooks (a : agent) : bool :=
  match a with A_build vt _ => vt_hooks vt | A_refund again => again | _ => true end.

Record flow (s : system) : Prop := {
  f_dead : e_dead (exch s) = true <-> e_vt (exch s) = None;
  f_hooks : forall vt, e_vt (exch s) = Some vt -> vt_hooks vt = true;
  f_agents : Forall (fun a => agent_hooks a = true) (agents s);
  f_empty : e_vt (exch s) = None -> q_head (exch s) = [];
  f_count : q_count (exch s) = wrap 32 (Z.of_nat (length (q_head (exch s))));
  f_pump : pump_handle (exch s) <> TASK_HANDLE_NONE -> pump_handle (exch s) ∈ pumps s \/ A_pump ∈ agents s;
  f_flow : q_head (exch s) <> [] ->
    pump_handle (exch s) <> TASK_HANDLE_NONE \/ exists a, a ∈ agents s /\ coming a = true
}.

Lemma elem_insert_other {A} (l : list A) i (a b x : A) :
  l !! i = Some a -> x ∈ l -> x <> a -> x ∈ <[i := b]> l.
Proof.
  intros Ha Hx Hne. apply list_elem_of_lookup in Hx as [j Hj].
  apply list_elem_of_lookup. exists j. rewrite list_lookup_insert_ne; [done|].
  intros ->. congruence.
Qed.

Lemma elem_insert_same {A} (l : list A) i (a b : A) : l !! i = Some a -> b ∈ <[i := b]> l.
Proof.
  intros Ha. apply list_elem_of_lookup. exists i. apply list_lookup_insert_eq. by eapply lookup_lt_Some.
Qed.

(** Steps of an agent that leave the registration and the pump alone. *)
Lemma flow_agent s s' i a b :
  flow s -> agents s !! i = Some a -> a <> A_pump -> agents s' = <[i := b]> (agents s) ->
  agent_hooks b = true -> pumps s' = pumps s ->
  e_vt (exch s') = e_vt (exch s) -> e_dead (exch s') = e_dead (exch s) ->
  pump_handle (exch s') = pump_handle (exch s) ->
  (e_vt (exch s) = None -> q_head (exch s') = []) ->
  q_count (exch s') = wrap 32 (Z.of_nat (length (q_head (exch s')))) ->
  (q_head (exch s') <> [] -> coming b = true \/ q_head (exch s) <> [] /\ coming a = false) ->
  flow s'.
Proof.
  intros [H1 H2 H3 H4 H5 H6 H7] Ha Hna Eag Hb Ep E1 E2 E3 F1 F2 F3.
  split; rewrite ?E1, ?E2, ?E3, ?Ep, ?Eag; try done.
  - by apply Forall_insert.
  - intros Hp. destruct (H6 Hp) as [|Hin]; [by left|]. right. apply (elem_insert_other _ _ a); try done.
  - intros Hq. destruct (F3 Hq) as [Hc|[Hq' Hc]].
    + right. exists b. split; [by eapply elem_insert_same|done].
    + destruct (H7 Hq') as [|(x & Hx & Hxc)]; [by left|]. right. exists x. split; [|done].
      apply (elem_insert_other _ _ a); try done. intros ->. congruence.
Qed.

Lemma insert_req_length r q : length (insert_req r q) = S (length q).
Proof.
  induction q as [|x q IH]; [done|]. cbn [insert_req]. destruct (_ <=? _); [|done]. cbn. by rewrite IH.
Qed.

Lemma push_count e r :
  q_count e = wrap 32 (Z.of_nat (length (q_head e))) ->
  q_count (exchange_q_push_locked r e) = wrap 32 (Z.of_nat (length (q_head (exchange_q_push_locked r e)))).
Proof. intros H. cbn. rewrite H, wrap_add, insert_req_length. f_equal. lia. Qed.

Lemma dispatch_flow i x s :
  flow s -> agents s !! i = Some A_top -> x_handle x <> TASK_HANDLE_NONE ->
  Z.of_nat (length (q_head (exch s))) < 2 ^ 32 -> flow (exchange_dispatch i x s).
Proof.
  intros H Ha Hh Hl. pose proof H as [H1 H2 H3 H4 H5 H6 H7]. unfold exchange_dispatch.
  destruct (e_vt (exch s)) as [vt|] eqn:Ev.
  2:{ apply (flow_agent s _ i A_top A_done); try done; cbn; [by intros _; apply H4|].
      intros Hq. by destruct (Hq (H4 eq_refl)). }
  pose proof (pop_spec (x_now_ms x) (x_clk x) (exch s)) as Hp.
  destruct (exchange_q_pop_eligible_locked _ _ _) as [e [r|]].
  - destruct Hp as (a & b & E1 & E2 & E3 & E4 & E5 & E6).
    apply (flow_agent s _ i A_top (A_build vt r)); cbn; try done; try congruence; [by apply H2| |by left].
    rewrite E6, H5, E1, E2. unfold wrap. rewrite Zminus_mod_idemp_l, !length_app. cbn. f_equal. lia.
  - destruct Hp as (E1 & E2 & E3 & E4 & E5). rewrite H5, wrap_small in E2 by lia.
    destruct (0 <? q_count e) eqn:Ec; breflect.
    + unfold exchange_arm_pump_locked.
      assert (Hd : e_dead e = false).
      { rewrite E4. destruct (e_dead (exch s)) eqn:Ed; [|done]. by discriminate (proj1 H1 eq_refl). }
      rewrite Hd. destruct (pump_handle e =? TASK_HANDLE_NONE) eqn:Eh; cbn [negb]; breflect.
      * rewrite (proj2 (Z.eqb_neq _ _) Hh). split; cbn; try congruence; try (by apply Forall_insert).
        -- intros v Hv. apply H2. congruence.
        -- rewrite E1, E2, wrap_small by lia. done.
        -- intros _. left. apply elem_of_cons. by left.
        -- intros _. by left.
      * split; cbn; try congruence; try (by apply Forall_insert).
        -- intros v Hv. apply H2. congruence.
        -- rewrite E1, E2, wrap_small by lia. done.
        -- rewrite E5. intros Hpp. destruct (H6 Hpp) as [|Hin]; [by left|]. right. by apply (elem_insert_other _ _ A_top).
        -- intros _. by left.
    + apply (flow_agent s _ i A_top A_done); cbn; try done; try congruence.
      * rewrite E1, E2, wrap_small by lia. done.
      * rewrite E1. intros Hq. destruct (q_head (exch s)); [done|]. cbn in *. lia.
Qed.

Lemma response_keeps st now o e :
  e_vt (response_locked st now o e) = e_vt e /\ e_dead (response_locked st now o e) = e_dead e /\
  pump_handle (response_locked st now o e) = pump_handle e /\ q_count (response_locked st now o e) = q_count e.
Proof. unfold response_locked. by destruct o. Qed.

Lemma arm_retry_keeps r x s :
  exch (exchange_arm_retry r x s) = exch s /\ agents (exchange_arm_retry r x s) = agents s /\
  pumps (exchange_arm_retry r x s) = pumps s.
Proof. unfold exchange_arm_retry. by repeat case_step. Qed.

Lemma exchange_step_flow i x a s s' :
  flow s -> agents s !! i = Some a -> x_built x = true -> x_handle x <> TASK_HANDLE_NONE ->
  Z.of_nat (length (q_head (exch s))) < 2 ^ 32 ->
  exchange_step i x a s = Some s' -> flow s'.
Proof.
  intros H Ha Hb Hh Hl. pose proof H as [H1 H2 H3 H4 H5 H6 H7].
  assert (Hag : agent_hooks a = true) by exact (Forall_lookup_1 _ _ _ _ H3 Ha).
  destruct a as [|vt r|r|ag|st err r|st err o r| |r|r|q|] eqn:Ea; unfold exchange_step; step_unfold; cbn [agent_hooks] in *; try done.
  - intros [= <-]. by apply dispatch_flow.
  - rewrite Hag, Hb. intros [= <-].
    by apply (flow_agent s _ i (A_build vt r) (A_submit (set_handle r))); try done; left.
  - destruct (x_submitted x); intros [= <-];
      [apply (flow_agent s _ i (A_submit r) A_top)|apply (flow_agent s _ i (A_submit r) (A_refund true))];
      try done; by left.
  - intros [= <-]. destruct ag; [|done].
    by apply (flow_agent s _ i (A_refund true) A_top); try done; left.
  - intros [= <-]. destruct (response_keeps st (x_now_ms x) (exchange_classify_status st (st =? 0)) (exch s))
      as (E1 & E2 & E3 & E4).
    eapply (flow_agent s _ i (A_response st err r)); try done; cbn; rewrite ?response_queue, ?E4; try done. by left.
  - intros [= <-]. destruct (arm_retry_keeps r x (set_agent i A_top s)) as (E1 & E2 & E3).
    destruct o; eapply (flow_agent s _ i (A_outcome st err _ r) A_top);
      try done; rewrite ?E1, ?E2, ?E3; try done; by left.
  - (* the pump clears its handle *)
    intros [= <-]. split; cbn; try done; [by apply Forall_insert|].
    intros _. right. exists A_top. split; [by eapply elem_insert_same|done].
  - destruct (e_vt (exch s)) as [vt|] eqn:Ev; intros [= <-].
    + apply (flow_agent s _ i (A_retry r) A_top); try done; cbn; rewrite ?Ev; try done; [by apply push_count|by left].
    + apply (flow_agent s _ i (A_retry r) A_done); try done; cbn; rewrite ?Ev; try done. by rewrite (H4 eq_refl).
  - destruct (e_vt (exch s)) as [vt|] eqn:Ev; intros [= <-].
    + apply (flow_agent s _ i (A_enqueue r) A_top); try done; cbn; rewrite ?Ev; try done; [by apply push_count|by left].
    + apply (flow_agent s _ i (A_enqueue r) A_done); try done; cbn; rewrite ?Ev; try done. by rewrite (H4 eq_refl).
  - destruct q as [|r q]; intros [= <-];
      [apply (flow_agent s _ i (A_drain []) A_done)|apply (flow_agent s _ i (A_drain (r :: q)) (A_drain q))];
      try done; by right.
Qed.

(** A new thread disturbs nothing. *)
Lemma flow_new s s' a :
  flow s -> agents s' = agents s ++ [a] -> agent_hooks a = true -> exch s' = exch s ->
  (forall h, h ∈ pumps s -> h ∈ pumps s' \/ a = A_pump) -> flow s'.
Proof.
  intros [H1 H2 H3 H4 H5 H6 H7] Ea Ha Ee Hp. split; rewrite ?Ee, ?Ea; try done.
  - apply Forall_app. split; [done|by constructor].
  - intros Hn. destruct (H6 Hn) as [Hin|Hin]; [|right; apply elem_of_app; by left].
    destruct (Hp _ Hin) as [| ->]; [by left|]. right. apply elem_of_app. right. by apply list_elem_of_singleton.
  - intros Hq. destruct (H7 Hq) as [|(b & Hb & Hc)]; [by left|]. right. exists b.
    split; [|done]. apply elem_of_app. by left.
Qed.

Lemma xstep_flow ev s s' :
  flow s -> good_event ev -> Z.of_nat (length (q_head (exch s))) < 2 ^ 32 -> xstep ev s = Some s' -> flow s'.
Proof.
  intros H Hg Hl. pose proof H as [H1 H2 H3 H4 H5 H6 H7].
  destruct ev as [prio kind path body|i x|k st err|k|k| |vt now]; cbn [xstep good_event] in *.
  - unfold exchange_request. destruct (seqb path []); [done|]. intros [= <-].
    eapply (flow_new s); try done. by left.
  - destruct (agents s !! i) as [a|] eqn:Ha; [|done]. destruct Hg. by apply exchange_step_flow.
  - destruct (wire s !! k) as [r|]; [|done]. intros [= <-]. eapply (flow_new s); try done. by left.
  - destruct (retries s !! k) as [r|]; [|done]. intros [= <-]. eapply (flow_new s); try done. by left.
  - destruct (pumps s !! k) as [h|]; [|done]. intros [= <-]. apply (flow_new s _ A_pump); try done. by right.
  - intros [= <-]. split; cbn; try done. apply Forall_app. split; [done|by constructor].
  - intros [= <-]. unfold exchange_registry_add. destruct (e_dead (exch s)) eqn:Ed; cbn [negb]; [|by destruct s].
    assert (Ev : e_vt (exch s) = None) by (by apply H1). split; cbn; try done. by intros v [= <-].
Qed.

Lemma flows_flow vt now s : vt_hooks vt = true -> flows vt now s -> flow s.
Proof.
  intros Hv. induction 1 as [|s ev s' _ IH Hg Hl Hs]; [|by eapply xstep_flow].
  split; try done. by intros v [= <-].
Qed.

(** C24: A live exchange whose drivers can build requests never parks: whenever its queue
    is not empty, a thread is on its way through the dispatch, or a pump task that will
    start one is pending. *)
Theorem exchange_never_parks (vt : vtable) (now : timespec) (s : system)
    (Hhooks : vt_hooks vt = true) (Hreach : flows vt now s) (Hq : q_head (exch s) <> []) :
  (exists a, a ∈ agents s /\ coming a = true) \/ exists h, h ∈ pumps s.
Proof.
  pose proof (flows_flow vt now s Hhooks Hreach) as [H1 H2 H3 H4 H5 H6 H7].
  destruct (H7 Hq) as [Hp|]; [|by left].
  destruct (H6 Hp) as [Hin|Hin]; [by right; eexists|left]. by exists A_pump.
Qed.

(** *** Runs *)

Definition sample_vt : vtable := mk_vt true 3 2.
Definition sample_now : timespec := mk_ts 100 0.

Definition ans (built : bool) : answers := mk_answers 0 (fun _ => sample_now) 7 built true.

(** Two requests on a bucket of two tokens of which one is reserved: the second waits. *)
Definition waits_events : list xevent :=
  [X_request 50 0 (lit "/a") None; X_request 50 0 (lit "/b") None;
   X_agent 0 (ans true); X_agent 1 (ans true); X_agent 0 (ans true); X_agent 0 (ans true); X_agent 0 (ans true);
   X_agent 0 (ans true); X_agent 1 (ans true)].

Definition xend (evs : list xevent) : system :=
  match xrun evs (xstart sample_vt sample_now) with Some s => s | None => xstart sample_vt sample_now end.

Lemma xstep_length ev s s' :
  xstep ev s = Some s' -> (length (q_head (exch s')) <= S (length (q_head (exch s))))%nat.
Proof.
  destruct ev as [prio kind path body|i x|k st err|k|k| |vt now]; cbn [xstep];
    try (case_step; [|done]; intros [= <-]; cbn; lia).
  - unfold exchange_request. destruct (seqb path []); [done|]. intros [= <-]. cbn. lia.
  - destruct (agents s !! i) as [a|]; [|done].
    destruct a as [|vt r|r|ag|st err r|st err o r| |r|r|q|]; unfold exchange_step; step_unfold; try done.
    + intros [= <-]. unfold exchange_dispatch. destruct (e_vt (exch s)); [|cbn; lia].
      pose proof (pop_spec (x_now_ms x) (x_clk x) (exch s)) as Hp.
      destruct (exchange_q_pop_eligible_locked _ _ _) as [e [r|]].
      * destruct Hp as (a & b & -> & E & _). cbn. rewrite E, !length_app. cbn. lia.
      * destruct Hp as (E & _). destruct (0 <? q_count e); [|cbn; rewrite E; lia].
        pose proof (arm_pump_queue (x_now_ms x) (x_handle x) e) as (Eq & _).
        destruct (exchange_arm_pump_locked _ _ _) as [e' [d|]]; cbn in Eq;
          [destruct (x_handle x =? TASK_HANDLE_NONE)|]; cbn; rewrite Eq, E; lia.
    + repeat case_step; intros [= <-]; cbn; lia.
    + case_step; intros [= <-]; cbn; lia.
    + intros [= <-]. cbn. lia.
    + intros [= <-]. cbn. rewrite response_queue. lia.
    + intros [= <-]. destruct (arm_retry_keeps r x (set_agent i A_top s)) as (E & _).
      destruct o; rewrite ?E; cbn; lia.
    + intros [= <-]. cbn. lia.
    + case_step; intros [= <-]; cbn; rewrite ?insert_req_length; lia.
    + case_step; intros [= <-]; cbn; rewrite ?insert_req_length; lia.
    + destruct q; intros [= <-]; cbn; lia.
  - intros [= <-]. cbn. lia.
  - intros [= <-]. unfold exchange_registry_add. destruct (negb _); cbn; lia.
Qed.

Lemma flows_run vt now evs : forall s s',
  flows vt now s -> Forall good_event evs -> Z.of_nat (length (q_head (exch s)) + length evs) < 2 ^ 32 ->
  xrun evs s = Some s' -> flows vt now s'.
Proof.
  induction evs as [|ev evs IH]; intros s s' H Hg Hl; cbn [xrun]; [by intros [= <-]|].
  inversion_clear Hg as [|?? Hev Hg']. cbn [length] in Hl.
  destruct (xstep ev s) as [s1|] eqn:E; [|done]. pose proof (xstep_length _ _ _ E).
  apply IH; try done; [|lia]. eapply flows_step; try done. lia.
Qed.

Lemma waits_Ok : xrun waits_events (xstart sample_vt sample_now) = Some (xend waits_events).
Proof. vm_compute. reflexivity. Qed.

Lemma waits_flows : flows sample_vt sample_now (xend waits_events).
Proof.
  apply (flows_run sample_vt sample_now waits_events (xstart sample_vt sample_now));
    [constructor|by repeat constructor|by vm_compute|apply waits_Ok].
Qed.

Lemma waits_queue : map r_path (q_head (exch (xend waits_events))) = [lit "/b"].
Proof. vm_compute. reflexivity. Qed.

Lemma waits_nonempty : q_head (exch (xend waits_events)) <> [].
Proof. pose proof waits_queue as H. by destruct (q_head _). Qed.

Lemma exchange_never_parks_witness :
  (exists a, a ∈ agents (xend waits_events) /\ coming a = true) \/ exists h, h ∈ pumps (xend waits_events).
Proof.
  exact (exchange_never_parks sample_vt sample_now (xend waits_events) eq_refl waits_flows waits_nonempty).
Defined.

(** A request answered, and one answered after a retry. *)
Definition answered_events : list xevent :=
  waits_events ++ [X_complete 0 200 None; X_agent 2 (ans true); X_agent 2 (ans true)].

Lemma answered_Ok : xrun answered_events (xstart sample_vt sample_now) = Some (xend answered_events).
Proof. vm_compute. reflexivity. Qed.

Lemma exchange_request_once_witness :
  n_delivered 0 (xend answered_events) + n_held 0 (xend answered_events) = n_accepted 0 (xend answered_events) /\
  n_delivered 0 (xend answered_events) = 1.
Proof.
  split; [|vm_compute; reflexivity].
  exact (proj1 (proj1 (exchange_request_once sample_vt sample_now answered_events (xend answered_events)
    answered_Ok) 0%nat)).
Defined.

Definition later (built : bool) : answers := mk_answers 5000 (fun _ => mk_ts 105 0) 8 built true.

(** Two requests wait for the pump. It fires, the first cannot be built, and its thread
    refunds the token and stops. *)
Definition parks_events : list xevent :=
  let step i := X_agent i (ans true) in
  [X_request 50 0 (lit "/a") None; X_request 50 0 (lit "/b") None; X_request 50 0 (lit "/c") None] ++
  map step [0; 0; 0; 0; 1; 2; 0; 1; 2]%nat ++
  [X_complete 0 200 None] ++ map step [3; 3; 3]%nat ++
  [X_pump 0; X_agent 4 (later true); X_agent 4 (later true); X_agent 4 (later false); X_agent 4 (later true)].

(** When a driver fails to build a request that the stall pump let go, the dispatch
    refunds its token and ends without arming the pump or trying the next request. There
    is an execution after which a request waits in the queue of a live exchange while no
    thread is in the module, no request is with the driver, and no retry and no pump is
    pending: nothing will move it until a new request comes. *)
Theorem exchange_build_failure_parks :
  exists evs s, xrun evs (xstart sample_vt sample_now) = Some s /\
    map r_path (q_head (exch s)) = [lit "/c"] /\ e_vt (exch s) <> None /\
    (0 <? breaker_tripped_until_ms (exch s)) = false /\
    Forall (fun a => a = A_done) (agents s) /\ wire s = [] /\ retries s = [] /\ pumps s = [].
Proof.
  exists parks_events, (xend parks_events). split; [vm_compute; reflexivity|].
  split; [by vm_compute|]. split; [by vm_compute|]. split; [by vm_compute|].
  split; [vm_compute; by repeat constructor|]. by vm_compute.
Qed.

(** ** The backoff ladder *)

Lemma backoff_loop_spec n ms :
  0 < ms <= EXCHANGE_RETRY_CAP_MS ->
  backoff_loop n ms = Z.min EXCHANGE_RETRY_CAP_MS (ms * 2 ^ Z.of_nat n).
Proof.
  unfold EXCHANGE_RETRY_CAP_MS. revert ms. induction n as [|n IH]; intros ms Hm; cbn [backoff_loop].
  - rewrite Z.mul_1_r. lia.
  - rewrite wrap_small by lia. rewrite Nat2Z.inj_succ, Z.pow_succ_r by lia.
    assert (1 <= 2 ^ Z.of_nat n) by (apply Z.pow_le_mono_r with (b := 0); lia).
    unfold EXCHANGE_RETRY_CAP_MS. destruct (4000 <=? ms * 2) eqn:E; breflect; [nia|].
    rewrite IH by lia. f_equal. lia.
Qed.

Lemma exchange_backoff_eq attempt :
  0 <= attempt ->
  exchange_backoff_ms attempt = Z.min EXCHANGE_RETRY_CAP_MS (EXCHANGE_RETRY_BASE_MS * 2 ^ attempt).
Proof.
  intros Hn. unfold exchange_backoff_ms. rewrite backoff_loop_spec by (by vm_compute).
  by rewrite Z2Nat.id by lia.
Qed.

(** The retries a request really gets wait 500, 1000, 2000 and 4000 ms: the attempt is
    counted before the delay is looked up, so the first step of the ladder, 250 ms, is
    not used. *)
Lemma exchange_retry_delays r x s :
  0 <= r_attempts r < EXCHANGE_RETRY_MAX_ATTEMPTS -> retries (exchange_arm_retry r x s) <> retries s ->
  exists r', retries (exchange_arm_retry r x s) = r' :: retries s /\
    exchange_backoff_ms (r_attempts r') ∈ [500; 1000; 2000; 4000].
Proof.
  unfold EXCHANGE_RETRY_MAX_ATTEMPTS. intros Hr. unfold exchange_arm_retry. rewrite wrap_small by lia.
  destruct (EXCHANGE_RETRY_MAX_ATTEMPTS <=? _) eqn:E; [done|].
  destruct (x_handle x =? TASK_HANDLE_NONE); [done|]. intros _. breflect.
  unfold EXCHANGE_RETRY_MAX_ATTEMPTS in E. eexists. split; [done|]. cbn [r_attempts set_attempts].
  assert (H : r_attempts r + 1 = 1 \/ r_attempts r + 1 = 2 \/ r_attempts r + 1 = 3 \/ r_attempts r + 1 = 4) by lia.
  destruct H as [-> |[-> |[-> | ->]]]; vm_compute; set_solver.
Qed.
