(* ===== verification/WarmChain.v ===== *)
(** * Ending a deferred task that re-arms itself:
      plugins/extension/whenmoon/warm_chain.c

    A warm chain is one self-rescheduling deferred task. Its plugin's stop()
    drains the chains: it takes the queued ones off the timer queue and waits
    for the threads inside the others. The file is a client of the task
    scheduler, which appears here only through the [DeferredQueue] contract. *)

From S2P Require Import Prelude Task.

Section WarmChain.
Context {Q : Type} `{!DeferredQueue Q}.

(** ** Data *)

(** [wc_id] is the object's address; the context and its release function, set
    once at open, are opaque. *)
Record wm_warm_chain := mk_chain {
  wc_id : Z;
  wc_handle : Z;
  wc_name : cstr;
  wc_delay_ms : Z;
  wc_running : bool;
  wc_parked : bool
}.

(** The module's statics: the chain list and the draining flag. *)
Record warm := mk_warm {
  wm_warm_head : list wm_warm_chain;
  wm_warm_draining : bool
}.

(** ** Operations *)

Definition wm_warm_busy (l : list wm_warm_chain) : option wm_warm_chain :=
  List.find wc_running l.

Fixpoint wm_warm_unlink (c : Z) (l : list wm_warm_chain) : list wm_warm_chain :=
  match l with
  | [] => []
  | x :: l' => if wc_id x =? c then l' else x :: wm_warm_unlink c l'
  end.

(** In-place update of the object [c]. *)
Definition update (c : Z) (f : wm_warm_chain -> wm_warm_chain) (l : list wm_warm_chain) : list wm_warm_chain :=
  map (fun x => if wc_id x =? c then f x else x) l.

(** [c] is the address the allocator hands out. *)
Definition wm_warm_chain_open (c : Z) (w : warm) : warm * option Z :=
  if wm_warm_draining w then (w, None)
  else
    (mk_warm (mk_chain c TASK_HANDLE_NONE [] 0 true false :: wm_warm_head w) false, Some c).

Definition wm_warm_chain_arm (c : Z) (name : cstr) (delay_ms now : Z) (w : warm) (q : Q)
    : warm * Q * bool :=
  if wm_warm_draining w then (w, q, false)
  else
    let name := strlcpy TASK_NAME_SZ name in
    let '(q, h) := dq_add name delay_ms now q in
    if h =? TASK_HANDLE_NONE then
      (mk_warm (update c (fun x => mk_chain (wc_id x) (wc_handle x) name delay_ms (wc_running x)
                                     (wc_parked x)) (wm_warm_head w)) false, q, false)
    else
      (mk_warm (update c (fun x => mk_chain (wc_id x) h name delay_ms false false)
                  (wm_warm_head w)) false, q, true).

Definition wm_warm_chain_enter (c : Z) (w : warm) : warm * bool :=
  (mk_warm (update c (fun x => mk_chain (wc_id x) TASK_HANDLE_NONE (wc_name x) (wc_delay_ms x) true
                                 (wc_parked x)) (wm_warm_head w)) (wm_warm_draining w),
   negb (wm_warm_draining w)).

(** The chain is unlinked, then reaped. *)
Definition wm_warm_chain_close (c : Z) (w : warm) : warm :=
  mk_warm (wm_warm_unlink c (wm_warm_head w)) (wm_warm_draining w).

(** The first half of the drain: the queued chains come off the timer queue; a
    handle the queue no longer holds means a worker is already in the body. *)
Fixpoint drain_cancel (l : list wm_warm_chain) (q : Q) : list wm_warm_chain * Q :=
  match l with
  | [] => ([], q)
  | c :: l' =>
      let '(c, q) :=
        if wc_handle c =? TASK_HANDLE_NONE then (c, q)
        else
          let '(q, cancelled) := dq_cancel (wc_handle c) q in
          (if cancelled
           then mk_chain (wc_id c) TASK_HANDLE_NONE (wc_name c) (wc_delay_ms c) (wc_running c) true
           else mk_chain (wc_id c) TASK_HANDLE_NONE (wc_name c) (wc_delay_ms c) true (wc_parked c), q) in
      let '(l', q) := drain_cancel l' q in
      (c :: l', q)
  end.

Definition wm_warm_drain_begin (w : warm) (q : Q) : warm * Q :=
  let '(l, q) := drain_cancel (wm_warm_head w) q in (mk_warm l true, q).

(** A refused drain puts every chain it parked back on the queue. *)
Fixpoint drain_rearm (now : Z) (l : list wm_warm_chain) (q : Q) : list wm_warm_chain * Q :=
  match l with
  | [] => ([], q)
  | c :: l' =>
      let '(c, q) :=
        if negb (wc_parked c) then (c, q)
        else
          let '(q, h) := dq_add (wc_name c) (wc_delay_ms c) now q in
          (mk_chain (wc_id c) h (wc_name c) (wc_delay_ms c) (wc_running c) false, q) in
      let '(l', q) := drain_rearm now l' q in
      (c :: l', q)
  end.

(** The second half, after the wait ended (nobody busy, or the deadline): the
    chains reaped on success, or the name of the offender. *)
Definition wm_warm_drain_end (now : Z) (offender_cap : nat) (w : warm) (q : Q)
    : warm * Q * (list wm_warm_chain + cstr) :=
  match wm_warm_busy (wm_warm_head w) with
  | Some c =>
      let '(l, q) := drain_rearm now (wm_warm_head w) q in
      (mk_warm l false, q, inr (strlcpy offender_cap (wc_name c)))
  | None => (mk_warm [] (wm_warm_draining w), q, inl (wm_warm_head w))
  end.

Definition wm_warm_chain_reset (w : warm) : warm := mk_warm (wm_warm_head w) false.

(** ** The system: the threads inside chains, the chains and the queue *)

(** [inside] is who really is in a chain: the opener until it arms, and a body
    from its dispatch until it arms or closes. The code does not have it; the
    drain has to find it out from [running] and the queue. *)
Record system := mk_system {
  sys_warm : warm;
  sys_queue : Q;
  inside : Z -> Prop
}.

Definition adds (P : Z -> Prop) (c : Z) : Z -> Prop := fun x => x = c \/ P x.
Definition removes (P : Z -> Prop) (c : Z) : Z -> Prop := fun x => x <> c /\ P x.

(** What the queue may do on its own between two critical sections: dispatch
    tasks and serve other clients; it never requeues a handle by itself. *)
Definition queue_moves (q q' : Q) (n : nat) : Prop :=
  dq_room n q' /\
  (forall h, dq_issued h q -> dq_issued h q') /\
  (forall h, dq_issued h q -> dq_queued h q' -> dq_queued h q).

Inductive warm_step : system -> system -> Prop :=
  | ws_open c w q I :
      (forall x, x ∈ wm_warm_head w -> wc_id x <> c) -> wm_warm_draining w = false ->
      warm_step (mk_system w q I) (mk_system (wm_warm_chain_open c w).1 q (adds I c))
  | ws_arm c name delay now w q I n w' q' ok :
      (* only a thread inside the chain arms it; on success it leaves *)
      I c -> dq_room (S n) q ->
      wm_warm_chain_arm c name delay now w q = (w', q', ok) ->
      warm_step (mk_system w q I) (mk_system w' q' (if ok then removes I c else I))
  | ws_enter c w q I :
      I c -> warm_step (mk_system w q I) (mk_system (wm_warm_chain_enter c w).1 q I)
  | ws_close c w q I :
      I c -> warm_step (mk_system w q I) (mk_system (wm_warm_chain_close c w) q (removes I c))
  | ws_queue w q q' I n :
      queue_moves q q' n ->
      (* a chain whose deferred left the queue has a worker in its body *)
      warm_step (mk_system w q I)
        (mk_system w q' (fun x => I x \/ exists c, c ∈ wm_warm_head w /\ wc_id c = x /\
           wc_handle c <> TASK_HANDLE_NONE /\ dq_queued (wc_handle c) q /\ ~ dq_queued (wc_handle c) q'))
  | ws_drain_begin w q I n :
      dq_room n q -> wm_warm_draining w = false ->
      warm_step (mk_system w q I)
        (mk_system (wm_warm_drain_begin w q).1 (wm_warm_drain_begin w q).2 I)
  | ws_drain_end now cap w q I :
      dq_room (length (wm_warm_head w)) q -> wm_warm_draining w = true ->
      warm_step (mk_system w q I)
        (mk_system (wm_warm_drain_end now cap w q).1.1 (wm_warm_drain_end now cap w q).1.2 I).

Inductive warm_reachable : system -> Prop :=
  | wr_init q : warm_reachable (mk_system (mk_warm [] false) q (fun _ => False))
  | wr_step s s' : warm_reachable s -> warm_step s s' -> warm_reachable s'.

(** ** The invariant *)

Record chain_inv (q : Q) (I : Z -> Prop) (draining : bool) (c : wm_warm_chain) : Prop := {
  ci_armed : wc_handle c <> TASK_HANDLE_NONE ->
    draining = false /\ dq_issued (wc_handle c) q /\ wc_running c = false /\ wc_parked c = false;
  ci_idle : wc_handle c = TASK_HANDLE_NONE -> wc_running c = true \/ wc_parked c = true;
  ci_parked : wc_parked c = true -> draining = true /\ wc_running c = false;
  ci_inside : I (wc_id c) <->
    wc_running c = true \/ (wc_handle c <> TASK_HANDLE_NONE /\ ~ dq_queued (wc_handle c) q)
}.

Fixpoint handles_distinct (l : list wm_warm_chain) : Prop :=
  match l with
  | [] => True
  | c :: l' =>
      (wc_handle c <> TASK_HANDLE_NONE -> Forall (fun x => wc_handle x <> wc_handle c) l') /\
      handles_distinct l'
  end.

Record warm_inv (s : system) : Prop := {
  wi_chains : Forall (chain_inv (sys_queue s) (inside s) (wm_warm_draining (sys_warm s)))
                (wm_warm_head (sys_warm s));
  wi_ids : NoDup (map wc_id (wm_warm_head (sys_warm s)));
  wi_handles : handles_distinct (wm_warm_head (sys_warm s));
  wi_inside : forall x, inside s x -> x ∈ map wc_id (wm_warm_head (sys_warm s))
}.

Lemma update_ids c f l : (forall x, wc_id (f x) = wc_id x) -> map wc_id (update c f l) = map wc_id l.
Proof.
  intros H. unfold update. rewrite map_map. apply map_ext. intros x. by case_step.
Qed.

Lemma update_Forall c f l (P P' : wm_warm_chain -> Prop) :
  Forall P l ->
  (forall x, x ∈ l -> P x -> wc_id x = c -> P' (f x)) ->
  (forall x, x ∈ l -> P x -> wc_id x <> c -> P' x) ->
  Forall P' (update c f l).
Proof.
  intros H F1 F2. unfold update. induction H as [|x l Hx _ IH]; simpl; constructor.
  - case_step; breflect; [apply F1|apply F2]; auto; by left.
  - apply IH; intros y Hy; [apply F1|apply F2]; by right.
Qed.

Lemma handles_distinct_sub l (f : wm_warm_chain -> wm_warm_chain) :
  (forall x, x ∈ l -> wc_handle (f x) = TASK_HANDLE_NONE \/ wc_handle (f x) = wc_handle x) ->
  handles_distinct l -> handles_distinct (map f l).
Proof.
  induction l as [|c l IH]; simpl; [done|]. intros Hf [H1 H2]. split.
  - intros Hne. destruct (Hf c ltac:(by left)) as [Hc|Hc]; [by rewrite Hc in Hne|].
    rewrite Hc in *. specialize (H1 Hne). apply List.Forall_map.
    rewrite List.Forall_forall in *. intros x Hx%list_elem_of_In.
    destruct (Hf x ltac:(by right)) as [->| ->]; [congruence|apply H1; by apply list_elem_of_In].
  - apply IH; [|done]. intros x Hx. apply Hf. by right.
Qed.

Lemma NoDup_id_unique l (x y : wm_warm_chain) :
  NoDup (map wc_id l) -> x ∈ l -> y ∈ l -> wc_id x = wc_id y -> x = y.
Proof.
  induction l as [|c l IH]; simpl; intros Hn Hx Hy E; [by apply elem_of_nil in Hx|].
  apply list.NoDup_cons in Hn as [Hc Hn].
  apply elem_of_cons in Hx as [->|Hx], Hy as [->|Hy]; auto.
  - destruct Hc. rewrite E. by apply list_elem_of_fmap_2.
  - destruct Hc. rewrite <- E. by apply list_elem_of_fmap_2.
Qed.

(** Giving one chain a handle nobody else has. *)
Lemma handles_distinct_fresh l (c h : Z) f :
  (forall x, wc_handle (f x) = h) -> h <> TASK_HANDLE_NONE ->
  (forall x, x ∈ l -> wc_handle x <> h) -> NoDup (map wc_id l) ->
  handles_distinct l -> handles_distinct (update c f l).
Proof.
  intros Hf Hh. unfold update. induction l as [|x l IH]; simpl; [done|].
  intros Hne Hn [H1 H2]. apply list.NoDup_cons in Hn as [Hx Hn].
  destruct (wc_id x =? c) eqn:E; breflect.
  - rewrite map_ext_in with (g := id).
    2:{ intros y Hy. destruct (wc_id y =? c) eqn:E'; [|done]. breflect.
        destruct Hx. subst. rewrite <- E'. apply list_elem_of_fmap_2. by apply list_elem_of_In. }
    rewrite map_id, Hf. split; [|done]. intros _.
    apply List.Forall_forall. intros y Hy%list_elem_of_In. apply Hne. by right.
  - split; [|apply IH; auto; intros y Hy; apply Hne; by right].
    intros Hx'. specialize (H1 Hx'). apply List.Forall_map.
    rewrite List.Forall_forall in *. intros y Hy. case_step; [|by apply H1].
    rewrite Hf. intros ->. apply (Hne x); [by left|done].
Qed.

Lemma Forall_and_elem {A} (P R : A -> Prop) (l : list A) :
  (forall x, x ∈ l -> P x) -> Forall R l -> Forall (fun x => P x /\ R x) l.
Proof.
  intros HP H. rewrite List.Forall_forall in *. intros x Hx. split; [|auto].
  apply HP. by apply list_elem_of_In.
Qed.

(** ** The two halves of the drain *)

Lemma drain_cancel_spec l q l' q' n :
  dq_room n q -> handles_distinct l -> drain_cancel l q = (l', q') ->
  dq_room n q' /\
  Forall2 (fun c c' => wc_id c' = wc_id c /\ wc_handle c' = TASK_HANDLE_NONE /\
    (wc_handle c = TASK_HANDLE_NONE -> c' = c) /\
    (wc_handle c <> TASK_HANDLE_NONE -> dq_queued (wc_handle c) q ->
       wc_parked c' = true /\ wc_running c' = wc_running c) /\
    (wc_handle c <> TASK_HANDLE_NONE -> ~ dq_queued (wc_handle c) q ->
       wc_parked c' = wc_parked c /\ wc_running c' = true)) l l'.
Proof.
  revert q l' q'. induction l as [|c l IH]; cbn [drain_cancel]; intros q l' q' Hr Hd H.
  { injection H as <- <-. split; [done|constructor]. }
  destruct Hd as [Hd1 Hd2]. destruct (wc_handle c =? TASK_HANDLE_NONE) eqn:E; breflect.
  - destruct (drain_cancel l q) as [l1 q1] eqn:El. injection H as <- <-.
    destruct (IH _ _ _ Hr Hd2 El) as [H1 H2]. split; [done|]. constructor; [|done].
    split_and!; done.
  - pose proof (dq_cancel_law _ _ _ Hr E) as L. destruct (dq_cancel (wc_handle c) q) as [q1 b].
    destruct L as (L1 & L2 & L3 & L4).
    destruct (drain_cancel l q1) as [l1 q2] eqn:El. injection H as <- <-.
    destruct (IH _ _ _ L1 Hd2 El) as [H1 H2]. split; [done|]. constructor.
    + split_and!; [by destruct b|by destruct b|done| |].
      * intros _ Hq. by rewrite (proj2 L2 Hq).
      * intros _ Hq. destruct b; [by destruct Hq; apply L2|done].
    + specialize (Hd1 E). clear -H2 Hd1 L4.
      revert H2. intros H2. induction H2 as [|x x' l l1 (A1 & A2 & A3 & A4 & A5) _ IH]; constructor.
      * inversion Hd1 as [|? ? Hx _]; subst. split_and!; auto.
        -- intros Hne Hq. apply A4; [done|]. by apply L4.
        -- intros Hne Hq. apply A5; [done|]. intros [_ ?]%L4. done.
      * apply IH. by inversion Hd1.
Qed.

Lemma drain_rearm_spec now l q l' q' n :
  dq_room (length l + n) q -> drain_rearm now l q = (l', q') ->
  dq_room n q' /\
  (forall h, dq_issued h q -> dq_issued h q') /\
  (forall h, dq_issued h q -> (dq_queued h q' <-> dq_queued h q)) /\
  Forall2 (fun c c' => wc_id c' = wc_id c /\ wc_running c' = wc_running c /\ wc_parked c' = false /\
    (wc_parked c = false -> c' = c) /\
    (wc_parked c = true -> wc_handle c' <> TASK_HANDLE_NONE /\ ~ dq_issued (wc_handle c') q /\
       dq_issued (wc_handle c') q' /\ dq_queued (wc_handle c') q')) l l' /\
  (Forall (fun c => wc_parked c = false -> wc_handle c = TASK_HANDLE_NONE) l -> handles_distinct l').
Proof.
  revert q l' q' n. induction l as [|c l IH]; cbn [drain_rearm length]; intros q l' q' n Hr H.
  { injection H as <- <-. split_and!; [done|done|done|constructor|done]. }
  destruct (wc_parked c) eqn:E; cbn [negb] in H.
  - pose proof (dq_add_law (wc_name c) (wc_delay_ms c) now q (length l + n) Hr) as L.
    destruct (dq_add _ _ _ _) as [q1 h]. destruct L as (L1 & L2 & L3 & L4 & L5).
    destruct (drain_rearm now l q1) as [l1 q2] eqn:El. injection H as <- <-.
    destruct (IH _ _ _ _ L1 El) as (H1 & H2 & H3 & H4 & H5).
    assert (Hh1 : dq_issued h q1) by (apply L4; by left).
    split_and!; [done| | | |].
    + intros h' Hh. apply H2, L4. by right.
    + intros h' Hh. rewrite H3 by (apply L4; by right). rewrite L5.
      split; [intros [->|?]; [done|done]|by right].
    + constructor.
      * split_and!; try done; [by rewrite E|]. intros _. split_and!; [done|done|by apply H2|].
        cbn. apply H3; [done|]. apply L5. by left.
      * eapply Forall2_impl; [|exact H4]. intros x x' (A1 & A2 & A3 & A4 & A5). split_and!; auto.
        intros Hp. destruct (A5 Hp) as (B1 & B2 & B3 & B4). split_and!; auto.
        intros Hi. apply B2, L4. by right.
    + intros Hf. inversion Hf as [|? ? _ Hl]; subst. cbn. split; [|auto]. intros _.
      clear -H4 Hl Hh1 L2. induction H4 as [|x x' l l1 (A1 & A2 & A3 & A4 & A5) _ IH]; constructor.
      * inversion Hl as [|? ? H1 _]; subst. destruct (wc_parked x) eqn:Ex.
        -- destruct (A5 eq_refl) as (B1 & B2 & _). cbn. intros Hx. by rewrite Hx in B2.
        -- assert (x' = x) as -> by auto. cbn. intros Hx. rewrite H1 in Hx; congruence.
      * apply IH. by inversion Hl.
  - destruct (drain_rearm now l q) as [l1 q1] eqn:El. injection H as <- <-.
    destruct (IH _ _ _ _ (dq_room_less _ _ Hr) El) as (H1 & H2 & H3 & H4 & H5).
    split_and!; [done|done|done| |].
    + constructor; [split_and!; try done; by rewrite E|done].
    + intros Hf. inversion Hf as [|? ? Hc Hl]; subst. cbn. split; [|auto].
      intros Hne. by destruct Hne, Hc.
Qed.

(** ** Every step keeps the invariant *)

Lemma warm_inv_chain s c : warm_inv s -> c ∈ wm_warm_head (sys_warm s) ->
  chain_inv (sys_queue s) (inside s) (wm_warm_draining (sys_warm s)) c.
Proof. intros H Hc. eapply List.Forall_forall; [apply wi_chains; done|]. by apply list_elem_of_In. Qed.

Lemma warm_open_ok c w q I :
  (forall x, x ∈ wm_warm_head w -> wc_id x <> c) -> wm_warm_draining w = false ->
  warm_inv (mk_system w q I) -> warm_inv (mk_system (wm_warm_chain_open c w).1 q (adds I c)).
Proof.
  intros Hf Hd [H1 H2 H3 H4]. unfold wm_warm_chain_open. rewrite Hd. cbn in *.
  rewrite Hd in H1. split; cbn.
  - constructor.
    + split; cbn; [done|by left|done|]. split; [by left|by left].
    + eapply Forall_impl; [|exact (Forall_and_elem _ _ _ Hf H1)].
      intros x [Hx [A B C D]]. split; [done..|]. rewrite <- D. unfold adds. naive_solver.
  - constructor; [|done]. rewrite list_elem_of_fmap. intros (x & -> & Hx). by apply (Hf x).
  - split; [|done]. by intros [].
  - intros x [->|Hx]; [left|right; auto].
Qed.
Lemma warm_arm_ok c name delay now w q I n w' q' ok :
  I c -> dq_room (S n) q -> wm_warm_chain_arm c name delay now w q = (w', q', ok) ->
  warm_inv (mk_system w q I) -> warm_inv (mk_system w' q' (if ok then removes I c else I)).
Proof.
  intros Hc Hr Ha Hi. unfold wm_warm_chain_arm in Ha.
  destruct (wm_warm_draining w) eqn:Hd; [by injection Ha as <- <- <-|].
  pose proof (dq_add_law (strlcpy TASK_NAME_SZ name) delay now q n Hr) as L.
  destruct (dq_add _ _ _ _) as [q1 h]. destruct L as (L1 & L2 & L3 & L4 & L5).
  rewrite (proj2 (Z.eqb_neq _ _) L2) in Ha. injection Ha as <- <- <-.
  pose proof (fun x => warm_inv_chain _ x Hi) as Hch. destruct Hi as [H1 H2 H3 H4]. cbn in *.
  rewrite Hd in *. split; cbn.
  - eapply update_Forall; [exact H1| |].
    + intros x Hx _ Heq. split; cbn.
      * intros _. split_and!; [done|apply L4; by left|done|done].
      * done.
      * done.
      * unfold removes. split; [by intros []|]. intros [?|[_ Hq]]; [done|].
        destruct Hq. apply L5. by left.
    + intros x Hx [A B C D] Hne. split; cbn; [|done|done|].
      * intros Hh. destruct (A Hh) as (_ & A2 & A3 & A4). split_and!; [done| |done|done].
        apply L4. by right.
      * unfold removes. rewrite D.
        assert (E : wc_handle x <> TASK_HANDLE_NONE -> dq_queued (wc_handle x) q1 <-> dq_queued (wc_handle x) q).
        { intros Hh. rewrite L5. split; [|by right]. intros [Hx'|?]; [|done].
          destruct L3. rewrite <- Hx'. by apply A. }
        naive_solver.
  - by rewrite update_ids.
  - apply (handles_distinct_fresh _ c h); [done|done| |done|done].
    intros x Hx Hh. destruct (Hch x Hx) as [A _ _ _]. cbn in A.
    destruct L3. rewrite <- Hh. apply A. by rewrite Hh.
  - intros x [_ Hx]. rewrite update_ids by done. auto.
Qed.

Lemma warm_enter_ok c w q I :
  I c -> warm_inv (mk_system w q I) -> warm_inv (mk_system (wm_warm_chain_enter c w).1 q I).
Proof.
  intros Hc [H1 H2 H3 H4]. cbn in *. split; cbn.
  - eapply update_Forall; [exact H1| |done].
    intros x Hx [A B C D] Heq. split; cbn; [done|by left| |].
    + intros Hp. destruct (C Hp) as [C1 C2]. split; [done|].
      rewrite Heq in D. destruct (proj1 D Hc) as [D1|[D1 _]]; [congruence|].
      destruct (A D1) as (_ & _ & _ & ?). congruence.
    + rewrite Heq. split; [by left|done].
  - by rewrite update_ids.
  - unfold update. apply handles_distinct_sub; [|done]. intros x _. case_step; [by left|by right].
  - intros x Hx. rewrite update_ids by done. auto.
Qed.

Lemma unlink_sublist c l : wm_warm_unlink c l `sublist_of` l.
Proof. induction l as [|x l IH]; simpl; [done|]. case_step; by constructor. Qed.

Lemma handles_distinct_sublist l l' : l' `sublist_of` l -> handles_distinct l -> handles_distinct l'.
Proof.
  induction 1 as [|x l' l Hs IH|x l' l Hs IH]; simpl; [done| |by intros [_ ?]; auto].
  intros [H1 H2]. split; [|auto]. intros Hx. specialize (H1 Hx).
  rewrite List.Forall_forall in *. intros y Hy%list_elem_of_In. apply H1, list_elem_of_In.
  by eapply elem_of_sublist.
Qed.

Lemma unlink_not_in c l x :
  NoDup (map wc_id l) -> x ∈ wm_warm_unlink c l -> wc_id x <> c.
Proof.
  induction l as [|y l IH]; simpl; [by intros _ ?%elem_of_nil|].
  intros [Hy Hn]%list.NoDup_cons. destruct (wc_id y =? c) eqn:E; breflect.
  - intros Hx <-. destruct Hy. rewrite E. by apply list_elem_of_fmap_2.
  - intros [->|Hx]%elem_of_cons; auto.
Qed.

Lemma unlink_keeps c l x : x ∈ l -> wc_id x <> c -> x ∈ wm_warm_unlink c l.
Proof.
  induction l as [|y l IH]; simpl; [done|]. intros [->|Hx]%elem_of_cons Hne.
  - rewrite (proj2 (Z.eqb_neq _ _) Hne). by left.
  - case_step; [done|]. right. auto.
Qed.

Lemma warm_close_ok c w q I :
  I c -> warm_inv (mk_system w q I) -> warm_inv (mk_system (wm_warm_chain_close c w) q (removes I c)).
Proof.
  intros Hc [H1 H2 H3 H4]. cbn in *.
  pose proof (unlink_sublist c (wm_warm_head w)) as Hs. split; cbn.
  - apply List.Forall_forall. intros x Hx%list_elem_of_In.
    pose proof (unlink_not_in _ _ _ H2 Hx) as Hne.
    rewrite List.Forall_forall in H1. destruct (H1 x) as [A B C D].
    { apply list_elem_of_In. by eapply elem_of_sublist. }
    split; [done..|]. rewrite <- D. unfold removes. naive_solver.
  - eapply sublist_NoDup; [exact H2|]. revert Hs. generalize (wm_warm_unlink c (wm_warm_head w)). intros l Hs. clear -Hs. induction Hs; simpl; [apply sublist_nil|by apply sublist_skip|by apply sublist_cons].
  - by eapply handles_distinct_sublist.
  - intros x [Hne Hx]. apply H4 in Hx. apply list_elem_of_fmap in Hx as (y & -> & Hy).
    apply list_elem_of_fmap_2. by apply unlink_keeps.
Qed.

Lemma warm_queue_ok w q q' I n :
  queue_moves q q' n -> warm_inv (mk_system w q I) ->
  warm_inv (mk_system w q' (fun x => I x \/ exists c, c ∈ wm_warm_head w /\ wc_id c = x /\
     wc_handle c <> TASK_HANDLE_NONE /\ dq_queued (wc_handle c) q /\ ~ dq_queued (wc_handle c) q')).
Proof.
  intros (M1 & M2 & M3) Hi. destruct Hi as [H1 H2 H3 H4]. cbn in *. split; cbn; [|done|done|].
  - apply List.Forall_forall. intros x Hx. pose proof Hx as Hx'. apply list_elem_of_In in Hx'.
    rewrite List.Forall_forall in H1. destruct (H1 x Hx) as [A B C D]. split; cbn; [|done|done|].
    + intros Hh. destruct (A Hh) as (A1 & A2 & A3 & A4). split_and!; auto.
    + split.
      * intros [Hix|(c & Hc & Hid & Hh & Hq & Hq')].
        -- apply D in Hix as [?|[? Hq]]; [by left|right]. split; [done|].
           intros Hq'. apply Hq, M3; [by apply A|done].
        -- assert (c = x) as -> by (by eapply NoDup_id_unique). by right.
      * intros [Hrun|[Hh Hq']]; [left; apply D; by left|].
        destruct (dq_queued_dec (wc_handle x) q) as [Hq|Hq].
        -- right. by exists x.
        -- left. apply D. by right.
  - intros x [Hx|(c & Hc & <- & _)]; [auto|by apply list_elem_of_fmap_2].
Qed.

Lemma warm_drain_begin_ok w q I n :
  dq_room n q -> wm_warm_draining w = false -> warm_inv (mk_system w q I) ->
  warm_inv (mk_system (wm_warm_drain_begin w q).1 (wm_warm_drain_begin w q).2 I).
Proof.
  intros Hr Hd [H1 H2 H3 H4]. cbn in *. unfold wm_warm_drain_begin.
  destruct (drain_cancel _ _) as [l' q'] eqn:E.
  destruct (drain_cancel_spec _ _ _ _ _ Hr H3 E) as [Hr' HF]. cbn.
  assert (Hids : map wc_id l' = map wc_id (wm_warm_head w)).
  { clear -HF. induction HF as [|c c' l l' (A & _) _ IH]; simpl; congruence. }
  assert (Hz : Forall (fun c => wc_handle c = TASK_HANDLE_NONE) l').
  { clear -HF. induction HF as [|c c' l l' (_ & A & _) _ IH]; by constructor. }
  rewrite Hd in *. split; cbn; [|by rewrite Hids| |by rewrite Hids].
  - clear -HF H1. induction HF as [|c c' l l' (A1 & A2 & A3 & A4 & A5) _ IH]; constructor.
    2:{ apply IH. by inversion H1. }
    inversion H1 as [|? ? [A B C D] _]; subst.
    destruct (decide (wc_handle c = TASK_HANDLE_NONE)) as [Hh|Hh].
    { rewrite (A3 Hh) in *. split; [done|auto| |].
      - intros Hp. by destruct (C Hp).
      - rewrite D. clear -Hh. naive_solver. }
    destruct (A Hh) as (_ & _ & R & P).
    destruct (dq_queued_dec (wc_handle c) q) as [Hq|Hq].
    + destruct (A4 Hh Hq) as [P' R']. split; [done|by right|by rewrite R'|].
      rewrite A1, D, R', A2, R. clear -Hq. naive_solver.
    + destruct (A5 Hh Hq) as [P' R']. split; [done|by left|by rewrite P', P|].
      rewrite A1, D, R'. split; [by left|by right].
  - clear -Hz. induction Hz as [|c l Hc _ IH]; simpl; [done|]. split; [by rewrite Hc|done].
Qed.

Lemma busy_spec l :
  match wm_warm_busy l with
  | Some c => c ∈ l /\ wc_running c = true
  | None => forall c, c ∈ l -> wc_running c = false
  end.
Proof.
  unfold wm_warm_busy. destruct (List.find _ _) as [c|] eqn:E.
  - apply List.find_some in E as [H1 H2]. by rewrite list_elem_of_In.
  - intros c Hc%list_elem_of_In. by eapply List.find_none in E.
Qed.

(** While draining nobody is armed, so only a running chain has someone inside. *)
Lemma draining_inside w q I c :
  wm_warm_draining w = true -> warm_inv (mk_system w q I) -> c ∈ wm_warm_head w ->
  (I (wc_id c) <-> wc_running c = true) /\ wc_handle c = TASK_HANDLE_NONE.
Proof.
  intros Hd Hi Hc. destruct (warm_inv_chain _ c Hi Hc) as [A _ _ D]. cbn in *.
  assert (Hh : wc_handle c = TASK_HANDLE_NONE).
  { destruct (decide (wc_handle c = TASK_HANDLE_NONE)) as [|Hh]; [done|].
    destruct (A Hh) as [? _]. congruence. }
  split; [|done]. rewrite D, Hh. naive_solver.
Qed.

Lemma warm_drain_end_ok now cap w q I :
  dq_room (length (wm_warm_head w)) q -> wm_warm_draining w = true ->
  warm_inv (mk_system w q I) ->
  warm_inv (mk_system (wm_warm_drain_end now cap w q).1.1 (wm_warm_drain_end now cap w q).1.2 I).
Proof.
  intros Hr Hd Hi. pose proof (fun c => draining_inside w q I c Hd Hi) as Hin.
  pose proof (busy_spec (wm_warm_head w)) as Hb. destruct Hi as [H1 H2 H3 H4]. cbn in *.
  unfold wm_warm_drain_end. destruct (wm_warm_busy (wm_warm_head w)) as [b|]; cbn.
  2:{ split; cbn; [done|constructor|done|].
      intros x Hx. apply H4 in Hx as Hx'. apply list_elem_of_fmap in Hx' as (c & -> & Hc).
      apply (Hin c Hc) in Hx. rewrite (Hb c Hc) in Hx. done. }
  destruct (drain_rearm now (wm_warm_head w) q) as [l' q'] eqn:E. cbn.
  rewrite <- (Nat.add_0_r (length _)) in Hr.
  destruct (drain_rearm_spec _ _ _ _ _ _ Hr E) as (_ & R2 & R3 & R4 & R5).
  assert (Hids : map wc_id l' = map wc_id (wm_warm_head w)).
  { clear -R4. induction R4 as [|c c' l l' (A & _) _ IH]; simpl; congruence. }
  assert (Hz : Forall (fun c => wc_handle c = TASK_HANDLE_NONE) (wm_warm_head w)).
  { apply List.Forall_forall. intros c Hc%list_elem_of_In. by apply Hin. }
  rewrite Hd in H1. split; cbn; [|by rewrite Hids| |by rewrite Hids].
  - clear -R4 H1 Hz. induction R4 as [|c c' l l' (A1 & A2 & A3 & A4 & A5) _ IH]; constructor.
    2:{ apply IH; [by inversion H1|by inversion Hz]. }
    inversion H1 as [|? ? [A B C D] _]; inversion Hz as [|? ? Hh _]; subst.
    destruct (wc_parked c) eqn:Hp.
    + destruct (A5 eq_refl) as (B1 & B2 & B3 & B4). destruct (C eq_refl) as [_ Hrun].
      split; [rewrite A2, Hrun, A3; done|done|by rewrite A3|].
      rewrite A1, D, A2, Hh, Hrun. naive_solver.
    + rewrite (A4 eq_refl). destruct (B Hh) as [Hrun|]; [|done].
      split; [done|auto|by rewrite Hp|]. rewrite D, Hh. naive_solver.
  - apply R5. eapply Forall_impl; [|exact Hz]. auto.
Qed.

Lemma warm_inv_reachable s : warm_reachable s -> warm_inv s.
Proof.
  induction 1 as [q|s s' _ IH Hst]; [split; cbn; [constructor|constructor|done|done]|].
  destruct Hst.
  - by apply warm_open_ok.
  - by eapply warm_arm_ok.
  - by apply warm_enter_ok.
  - by apply warm_close_ok.
  - by eapply warm_queue_ok.
  - by eapply warm_drain_begin_ok.
  - by apply warm_drain_end_ok.
Qed.
End WarmChain.

(** ** Properties *)

(** C31: whatever threads do between its two halves, a drain that succeeds frees
    only chains no thread is inside: not the opener that has not armed yet, not
    a body that was dispatched and has not reached enter() yet, and not one that
    is running. *)
Theorem wm_warm_drain_frees_idle {Q : Type} `{!DeferredQueue Q} (s : system (Q := Q)) (now : Z)
    (cap : nat) (dead : list wm_warm_chain) (c : wm_warm_chain) :
  warm_reachable s -> wm_warm_draining (sys_warm s) = true ->
  (wm_warm_drain_end now cap (sys_warm s) (sys_queue s)).2 = inl dead ->
  c ∈ dead -> ~ inside s (wc_id c).
Proof.
  intros Hr Hd He Hc. apply warm_inv_reachable in Hr. destruct s as [w q I]. cbn in *.
  unfold wm_warm_drain_end in He. pose proof (busy_spec (wm_warm_head w)) as Hb.
  destruct (wm_warm_busy _) as [b|]; cbn in He.
  { by destruct (drain_rearm _ _ _). }
  injection He as <-. rewrite (proj1 (draining_inside w q I c Hd Hr Hc)), (Hb c Hc). done.
Qed.

(** a drain that is refused leaves the plugin as it found it: draining is
    off, the offender is a chain some thread is inside, and every chain nobody
    is inside is on the deferred queue again. *)
Theorem wm_warm_drain_refused {Q : Type} `{!DeferredQueue Q} (s : system (Q := Q)) (now : Z)
    (cap : nat) (w' : warm) (q' : Q) (offender : cstr) :
  warm_reachable s -> wm_warm_draining (sys_warm s) = true ->
  dq_room (length (wm_warm_head (sys_warm s))) (sys_queue s) ->
  wm_warm_drain_end now cap (sys_warm s) (sys_queue s) = (w', q', inr offender) ->
  wm_warm_draining w' = false /\
  map wc_id (wm_warm_head w') = map wc_id (wm_warm_head (sys_warm s)) /\
  (exists c, c ∈ wm_warm_head w' /\ inside s (wc_id c) /\ offender = strlcpy cap (wc_name c)) /\
  forall c, c ∈ wm_warm_head w' -> ~ inside s (wc_id c) -> dq_queued (wc_handle c) q'.
Proof.
  intros Hr Hd Hroom He. apply warm_inv_reachable in Hr. destruct s as [w q I]. cbn in *.
  pose proof (fun c => draining_inside w q I c Hd Hr) as Hin.
  unfold wm_warm_drain_end in He. pose proof (busy_spec (wm_warm_head w)) as Hb.
  destruct (wm_warm_busy _) as [b|]; [|done].
  destruct (drain_rearm _ _ _) as [l' q1] eqn:E. injection He as <- <- <-.
  rewrite <- (Nat.add_0_r (length _)) in Hroom.
  destruct (drain_rearm_spec _ _ _ _ _ _ Hroom E) as (_ & _ & _ & R4 & _).
  destruct Hb as [Hb1 Hb2]. destruct Hr as [H1 _ _ _]. cbn in *. rewrite Hd in H1.
  assert (X : Forall2 (fun c c' => chain_inv q I true c /\ wc_id c' = wc_id c /\
     (wc_parked c = false -> c' = c) /\ (wc_parked c = true -> dq_queued (wc_handle c') q1) /\
     (I (wc_id c) <-> wc_running c = true) /\ wc_handle c = TASK_HANDLE_NONE) (wm_warm_head w) l').
  { clear -R4 H1 Hin. induction R4 as [|c c' l l' (A1 & _ & _ & A4 & A5) _ IH]; constructor.
    - inversion H1; subst. split_and!; [done|done|done|intros Hp; by apply A5|apply Hin; by left..].
    - apply IH; [by inversion H1|]. intros x Hx. apply Hin. by right. }
  clear R4 H1 Hin E Hroom. split_and!; [done| | |].
  - clear -X. induction X as [|c c' l l' (_ & A & _) _ IH]; simpl; congruence.
  - clear -X Hb1 Hb2. induction X as [|c c' l l' (A & A1 & A2 & _ & A4 & _) _ IH];
      [by apply elem_of_nil in Hb1|]. apply elem_of_cons in Hb1 as [->|Hb1].
    + destruct (wc_parked c) eqn:Hp.
      { destruct (ci_parked _ _ _ _ A Hp) as [_ ?]. congruence. }
      rewrite (A2 eq_refl). exists c. split_and!; [by left|by apply A4|done].
    + destruct (IH Hb1) as (x & Hx & H). exists x. split; [by right|done].
  - clear -X. induction X as [|c c' l l' (A & A1 & A2 & A3 & A4 & A5) _ IH];
      [by intros c ?%elem_of_nil|]. intros x [->|Hx]%elem_of_cons Hi; [|auto].
    apply A3. rewrite A1, A4 in Hi. destruct (ci_idle _ _ _ _ A A5) as [?|?]; [|done].
    congruence.
Qed.

(** Two chains over the scheduler: the first armed, the second still with its
    opener. *)
Definition demo_armed : warm * sched * bool :=
  wm_warm_chain_arm 11 (lit "warm") 5000 100 (wm_warm_chain_open 11 (mk_warm [] false)).1 task_statics.

Definition demo_drain (q : sched) : warm * sched := wm_warm_drain_begin demo_armed.1.1 q.

Lemma sched_room_statics n : Z.of_nat n < 2 ^ 64 - 1 -> sched_room n task_statics.
Proof. intros H. split; cbn; [constructor|by intros h ?%elem_of_nil|lia]. Qed.

Lemma demo_reachable :
  warm_reachable (mk_system demo_armed.1.1 demo_armed.1.2
    (removes (adds (fun _ => False) 11) 11)) /\ sched_room 5 demo_armed.1.2.
Proof.
  assert (R : sched_room 6 task_statics) by (apply sched_room_statics; lia).
  split.
  - eapply wr_step; [eapply wr_step; [apply (wr_init task_statics)|]|].
    + apply (ws_open 11); [by intros x ?%elem_of_nil|done].
    + apply (ws_arm 11 (lit "warm") 5000 100 _ _ _ 5 _ _ true); [by left|exact R|done].
  - exact (proj1 (sched_add_law (strlcpy TASK_NAME_SZ (lit "warm")) 5000 100 task_statics 5 R)).
Qed.

Lemma wm_warm_drain_frees_idle_witness :
  exists dead c, (wm_warm_drain_end 101 40 (demo_drain demo_armed.1.2).1 (demo_drain demo_armed.1.2).2).2
    = inl dead /\ c ∈ dead /\ wc_id c = 11 /\
    ~ removes (adds (fun _ => False) 11) 11 (wc_id c).
Proof.
  destruct demo_reachable as [H1 H2].
  exists (wm_warm_head (demo_drain demo_armed.1.2).1). eexists (mk_chain 11 0 (lit "warm") 5000 false true).
  split_and!; [vm_compute; reflexivity|apply list_elem_of_In; vm_compute; tauto|reflexivity|].
  apply (wm_warm_drain_frees_idle
    (mk_system (demo_drain demo_armed.1.2).1 (demo_drain demo_armed.1.2).2
       (removes (adds (fun _ => False) 11) 11)) 101 40 (wm_warm_head (demo_drain demo_armed.1.2).1)).
  - eapply wr_step; [exact H1|]. apply (ws_drain_begin _ demo_armed.1.2 _ 5); [exact H2|reflexivity].
  - reflexivity.
  - vm_compute. reflexivity.
  - apply list_elem_of_In. vm_compute. tauto.
Defined.

(** Here the second chain's opener still holds it when the drain begins. *)
Definition demo_open2 : warm := (wm_warm_chain_open 12 demo_armed.1.1).1.

Lemma wm_warm_drain_refused_witness :
  let b := wm_warm_drain_begin demo_open2 demo_armed.1.2 in
  match wm_warm_drain_end 101 40 b.1 b.2 with
  | (w', q', inr _) => wm_warm_draining w' = false /\
      exists c, c ∈ wm_warm_head w' /\ wc_id c = 11 /\ dq_queued (wc_handle c) q'
  | _ => False
  end.
Proof.
  destruct demo_reachable as [H1 H2]. cbn zeta.
  pose proof (wm_warm_drain_refused
    (mk_system (wm_warm_drain_begin demo_open2 demo_armed.1.2).1
               (wm_warm_drain_begin demo_open2 demo_armed.1.2).2
       (adds (removes (adds (fun _ => False) 11) 11) 12)) 101 40) as T.
  destruct (wm_warm_drain_end _ _ _ _) as [[w' q'] [dead|off]] eqn:E;
    [vm_compute in E; discriminate|].
  destruct (T w' q' off) as (A & _ & _ & D).
  - eapply wr_step; [eapply wr_step; [exact H1|]|].
    + apply (ws_open 12); [|reflexivity].
      intros x [->|Hx]%elem_of_cons; [discriminate|by apply elem_of_nil in Hx].
    + apply (ws_drain_begin _ demo_armed.1.2 _ 5); [exact H2|reflexivity].
  - reflexivity.
  - destruct (task_cancel_queues 1 demo_armed.1.2 5 H2 ltac:(discriminate)) as (R & _).
    by apply dq_room_less, dq_room_less, dq_room_less.
  - reflexivity.
  - split; [exact A|]. exists (mk_chain 11 2 (lit "warm") 5000 false false).
    assert (In (mk_chain 11 2 (lit "warm") 5000 false false) (wm_warm_head w')).
    { vm_compute in E. injection E as <- <- <-. vm_compute. tauto. }
    split_and!; [by apply list_elem_of_In|reflexivity|].
    apply D; [by apply list_elem_of_In|]. cbn. intros [?|[[] _]]; [discriminate|]. done.
Defined.
