(* ===== verification/CmdTree.v ===== *)
(** * The command registry: core/cmd.c, from def_find_locked to
    cmd_reclaim_owned and the subcommand resolver

    Definitions live in a heap indexed by address. The intrusive lists are
    their contents in order: [cmd_list] for the global list (head first) and
    [d_children] for a parent's [children]/[sibling] chain. A definition is
    allocated at an address the caller supplies, which only has to be free. *)

From S2P Require Import Prelude CmdArgs.

(** ** Data: include/cmd.h *)

Definition CMD_NAME_SZ : nat := 32.
Definition CMD_MODULE_SZ : nat := 32.
Definition CMD_USAGE_SZ : nat := 128.
Definition CMD_KIND_FILTER_MAX : nat := 8.
Definition CMD_UNREG_MAX_SUBTREE : nat := 64.
Definition CMD_PATH_MAX_DEPTH : nat := 8.
Definition CMD_FEAT_KEY_SZ : nat := 48.
Definition CMD_FEAT_VOICE : Z := 1.
Definition METHOD_T_ANY : Z := UINT32_MAX.
Definition USERNS_GROUP_SZ : nat := 31.

Inductive cmd_scope_t := CMD_SCOPE_ANY | CMD_SCOPE_PRIVATE | CMD_SCOPE_PUBLIC.

#[export] Instance cmd_scope_eq_dec : EqDecision cmd_scope_t.
Proof. solve_decision. Defined.

(** The fields of the NL hint and of the feature block that registration
    reads. *)
Record cmd_nl_t := {
  nl_when : option cstr;
  nl_syntax : option cstr;
  nl_slot_count : Z;
  nl_examples : bool; (* [examples != NULL] *)
  nl_example_count : Z
}.

Record cmd_feat_t := { feat_features : Z; feat_voice_framing : option cstr }.

(** [arg_desc]/[arg_count] are one list, empty for NULL or for a count of 0;
    callbacks and data are opaque addresses. *)
Record cmd_decl_t := {
  dc_module : option cstr;
  dc_name : option cstr;
  dc_usage : option cstr;
  dc_group : option cstr;
  dc_level : Z;
  dc_scope : cmd_scope_t;
  dc_methods : Z;
  dc_cb : option Z;
  dc_data : Z;
  dc_parent_path : option cstr;
  dc_abbrev : option cstr;
  dc_args : list cmd_arg_desc_t;
  dc_kind_filter : option (list cstr);
  dc_nl : option cmd_nl_t;
  dc_feat : option cmd_feat_t
}.

Record cmd_def := mk_def {
  d_module : cstr;
  d_name : cstr;
  d_abbrev : cstr;
  d_usage : option cstr;
  d_group : cstr;
  d_level : Z;
  d_scope : cmd_scope_t;
  d_cb : option Z;
  d_help_ext : option Z;
  d_data : Z;
  d_methods : Z;
  d_args : list cmd_arg_desc_t;
  d_kind_filter : option (list cstr);
  d_feat : option cmd_feat_t;
  d_owner_pc : Z;
  d_parent : option Z;
  d_children : list Z
}.

Definition set_children (l : list Z) (d : cmd_def) : cmd_def :=
  mk_def (d_module d) (d_name d) (d_abbrev d) (d_usage d) (d_group d) (d_level d) (d_scope d)
    (d_cb d) (d_help_ext d) (d_data d) (d_methods d) (d_args d) (d_kind_filter d) (d_feat d)
    (d_owner_pc d) (d_parent d) l.

Definition set_help_ext (e : Z) (d : cmd_def) : cmd_def :=
  mk_def (d_module d) (d_name d) (d_abbrev d) (d_usage d) (d_group d) (d_level d) (d_scope d)
    (d_cb d) (Some e) (d_data d) (d_methods d) (d_args d) (d_kind_filter d) (d_feat d)
    (d_owner_pc d) (d_parent d) (d_children d).

Notation heap := (gmap Z cmd_def).

Record registry := mk_registry {
  defs : heap;
  cmd_list : list Z;
  cmd_def_count : Z
}.

(** What registration and removal ask of the configuration store. *)
Inductive kv_request :=
  | KvRegister (key : cstr) (owner_pc : Z)
  | KvUnregister (key : cstr).

Definition parent_of (h : heap) (d : Z) : option Z := h !! d ≫= d_parent.

Definition children_of (h : heap) (d : Z) : list Z :=
  match h !! d with Some D => d_children D | None => [] end.

(** ** Lookup *)

(** [strncasecmp(a, b, CMD_NAME_SZ) == 0] *)
Definition name_eq (a b : cstr) : bool := strncaseeq CMD_NAME_SZ a b.

Definition abbrev_eq (D : cmd_def) (name : cstr) : bool :=
  match d_abbrev D with [] => false | _ => name_eq (d_abbrev D) name end.

Definition first_of (cond : bool) (d : Z) (acc : option Z) : option Z :=
  match acc with None => if cond then Some d else None | Some _ => acc end.

(** The walk of the global list with its four accumulators: root name, any
    name, root abbreviation, any abbreviation. *)
Fixpoint def_find_loop (h : heap) (name : cstr) (l : list Z) (root_name name_match root_abbrev abbrev_match : option Z) : option Z :=
  match l with
  | [] =>
      match root_name with
      | Some _ => root_name
      | None =>
          match name_match with
          | Some _ => name_match
          | None => match root_abbrev with Some _ => root_abbrev | None => abbrev_match end
          end
      end
  | d :: l' =>
      match h !! d with
      | None => def_find_loop h name l' root_name name_match root_abbrev abbrev_match
      | Some D =>
          let is_root := match d_parent D with None => true | Some _ => false end in
          let nm := name_eq (d_name D) name in
          let ab := abbrev_eq D name in
          def_find_loop h name l' (first_of (nm && is_root) d root_name) (first_of nm d name_match)
            (first_of (ab && is_root) d root_abbrev) (first_of ab d abbrev_match)
      end
  end.

Definition def_find_locked (name : cstr) (r : registry) : option Z :=
  def_find_loop (defs r) name (cmd_list r) None None None None.

Fixpoint def_find_child_loop (h : heap) (name : cstr) (c : list Z) (abbrev_match : option Z) : option Z :=
  match c with
  | [] => abbrev_match
  | c :: rest =>
      match h !! c with
      | None => def_find_child_loop h name rest abbrev_match
      | Some D =>
          if name_eq (d_name D) name then Some c
          else def_find_child_loop h name rest (first_of (abbrev_eq D name) c abbrev_match)
      end
  end.

Definition def_find_child_locked (parent : Z) (name : cstr) (r : registry) : option Z :=
  def_find_child_loop (defs r) name (children_of (defs r) parent) None.

(** [strchr]-driven tokenization on '/': the segments of the path. *)
Fixpoint split_slash (s : cstr) : list cstr :=
  match s with
  | [] => [[]]
  | c :: s' =>
      if ceqb c "/" then [] :: split_slash s'
      else match split_slash s' with
           | t :: ts => (c :: t) :: ts
           | [] => [[c]]
           end
  end.

Fixpoint resolve_segments (d : Z) (toks : list cstr) (r : registry) : option Z :=
  match toks with
  | [] => Some d
  | [] :: toks' => resolve_segments d toks' r
  | tok :: toks' =>
      match def_find_child_locked d tok r with
      | None => None
      | Some c => resolve_segments c toks' r
      end
  end.

Definition resolve_parent_path_locked (path : option cstr) (r : registry) : option Z :=
  match path with
  | None | Some [] => None
  | Some p =>
      match split_slash (strlcpy CMD_USAGE_SZ p) with
      | [] => None
      | tok :: toks =>
          match def_find_locked tok r with
          | None => None
          | Some d => resolve_segments d toks r
          end
      end
  end.

Definition cmd_find (name : option cstr) (r : registry) : option Z :=
  match name with None | Some [] => None | Some n => def_find_locked n r end.

Definition cmd_find_child (parent : option Z) (name : option cstr) (r : registry) : option Z :=
  match parent, name with
  | None, _ | _, None | _, Some [] => None
  | Some p, Some n => def_find_child_locked p n r
  end.

Definition cmd_count (r : registry) : Z := cmd_def_count r.

Definition cmd_set_help_extender (name child : option cstr) (ext : option Z) (r : registry)
    : registry * bool :=
  match name, ext with
  | None, _ | Some [], _ | _, None => (r, false)
  | Some n, Some e =>
      let d := def_find_locked n r in
      let d := match d, child with
               | Some d', Some (c :: cs) => def_find_child_locked d' (c :: cs) r
               | _, _ => d
               end in
      match d with
      | None => (r, false)
      | Some d => (mk_registry (alter (set_help_ext e) d (defs r)) (cmd_list r) (cmd_def_count r), true)
      end
  end.

(** ** Registration *)

Definition kind_filters_overlap (a b : option (list cstr)) : bool :=
  match a, b with
  | Some a, Some b =>
      existsb (fun x => existsb (fun y => strcaseeq x y) (take CMD_KIND_FILTER_MAX b))
        (take CMD_KIND_FILTER_MAX a)
  | _, _ => true
  end.

Definition collides_with (h : heap) (str : cstr) (parent : option Z) (kind_filter : option (list cstr))
    (d : Z) : bool :=
  match h !! d with
  | None => false
  | Some D =>
      if bool_decide (d_parent D = parent) then
        (name_eq (d_name D) str || abbrev_eq D str) && kind_filters_overlap (d_kind_filter D) kind_filter
      else false
  end.

Definition def_name_collides_for_kind_locked (str : cstr) (parent : option Z)
    (kind_filter : option (list cstr)) (r : registry) : bool :=
  existsb (collides_with (defs r) str parent kind_filter) (cmd_list r).

Definition reg_check_collisions_locked (name : cstr) (abbrev : option cstr) (parent : option Z)
    (kind_filter : option (list cstr)) (r : registry) : bool :=
  if def_name_collides_for_kind_locked name parent kind_filter r then false
  else match abbrev with
       | None | Some [] => true
       | Some a => negb (def_name_collides_for_kind_locked a parent kind_filter r)
       end.

Definition cmd_feat_voice_key (name : cstr) : cstr :=
  strlcpy CMD_FEAT_KEY_SZ (lit "cmd." ++ name ++ lit ".in_voice").

Definition has_voice (f : option cmd_feat_t) : bool :=
  match f with
  | None => false
  | Some f => negb (Z.land (feat_features f) CMD_FEAT_VOICE =? 0)
  end.

Definition cmd_feat_kv_drop (D : cmd_def) : list kv_request :=
  if has_voice (d_feat D) then [KvUnregister (cmd_feat_voice_key (d_name D))] else [].

(** Subcommands inherit or narrow their parent's method mask. *)
Definition child_methods (parent : option cmd_def) (methods : Z) : Z :=
  match parent with
  | Some P => if methods =? METHOD_T_ANY then d_methods P else Z.land methods (d_methods P)
  | None => methods
  end.

Definition new_def (decl : cmd_decl_t) (name group : cstr) (parent : option Z) (P : option cmd_def) (owner_pc : Z) : cmd_def :=
  {| d_module := match dc_module decl with Some m => strlcpy CMD_MODULE_SZ m | None => [] end;
     d_name := strlcpy CMD_NAME_SZ name;
     d_abbrev := match dc_abbrev decl with Some a => strlcpy CMD_NAME_SZ a | None => [] end;
     d_usage := dc_usage decl;
     d_group := strlcpy USERNS_GROUP_SZ group;
     d_level := dc_level decl;
     d_scope := dc_scope decl;
     d_cb := dc_cb decl;
     d_help_ext := None;
     d_data := dc_data decl;
     d_methods := child_methods P (dc_methods decl);
     d_args := dc_args decl;
     d_kind_filter := dc_kind_filter decl;
     d_feat := dc_feat decl;
     d_owner_pc := owner_pc;
     d_parent := parent;
     d_children := [] |}.

Definition reg_populate_def (decl : cmd_decl_t) (name group : cstr) (parent : option Z)
    (owner_pc addr : Z) (r : registry) : registry :=
  let h := defs r in
  let P := parent ≫= fun p => h !! p in
  let h := match parent with
           | Some p => alter (fun D => set_children (addr :: d_children D) D) p h
           | None => h
           end in
  mk_registry (<[addr := new_def decl name group parent P owner_pc]> h)
    (addr :: cmd_list r) (wrap 32 (cmd_def_count r + 1)).

Definition nl_ok (nl : option cmd_nl_t) : bool :=
  match nl with
  | None => true
  | Some nl =>
      match nl_when nl, nl_syntax nl with
      | Some _, Some _ =>
          negb ((nl_example_count nl <? 2) || negb (nl_examples nl))
          && negb (CMD_MAX_ARGS <? nl_slot_count nl)
      | _, _ => false
      end
  end.

Definition feat_ok (feat : option cmd_feat_t) : bool :=
  match feat with
  | None => true
  | Some f =>
      (Z.land (feat_features f) (UINT32_MAX - CMD_FEAT_VOICE) =? 0)
      && negb (has_voice feat
               && match feat_voice_framing f with None | Some [] => true | Some _ => false end)
  end.

(** [addr] is the address of the new definition, [owner_pc] the return address
    of the call. *)
Definition cmd_register (decl : cmd_decl_t) (owner_pc addr : Z) (r : registry)
    : registry * bool * list kv_request :=
  match dc_name decl, dc_cb decl, dc_group decl with
  | None, _, _ | Some [], _, _ | _, None, _ | _, _, None | _, _, Some [] => (r, false, [])
  | Some name, Some _, Some group =>
      if negb (reg_validate_args (dc_args decl)) then (r, false, [])
      else if negb (nl_ok (dc_nl decl)) then (r, false, [])
      else if negb (feat_ok (dc_feat decl)) then (r, false, [])
      else
        let wants_parent := match dc_parent_path decl with None | Some [] => false | Some _ => true end in
        let parent := if wants_parent then resolve_parent_path_locked (dc_parent_path decl) r else None in
        if wants_parent && match parent with None => true | Some _ => false end then (r, false, [])
        else if negb (reg_check_collisions_locked name (dc_abbrev decl) parent (dc_kind_filter decl) r)
        then (r, false, [])
        else (reg_populate_def decl name group parent owner_pc addr r, true,
              if has_voice (dc_feat decl) then [KvRegister (cmd_feat_voice_key name) owner_pc] else [])
  end.

(** ** Removal *)

(** Post-order collection into a buffer of [cap] entries, [out] being what is in
    it already; None is the returned 0. *)
Fixpoint def_collect_subtree_locked (fuel : nat) (h : heap) (cap : nat) (d : Z) (out : list Z) : option (list Z) :=
  match fuel with
  | O => None
  | S fuel =>
      let fix collect_children (cs : list Z) (out : list Z) : option (list Z) :=
        match cs with
        | [] => Some out
        | c :: cs' =>
            match def_collect_subtree_locked fuel h cap c out with
            | None => None
            | Some out => collect_children cs' out
            end
        end in
      match collect_children (children_of h d) out with
      | None => None
      | Some out => if (cap <=? length out)%nat then None else Some (out ++ [d])
      end
  end.

(** The recursion is bounded by the number of definitions. *)
Definition collect_fuel (r : registry) : nat := S (length (cmd_list r)).

(** The parent chain from [p], leaf first, at most [n] entries. *)
Fixpoint path_chain (n : nat) (h : heap) (p : option Z) : list cstr :=
  match n, p with
  | S n, Some d =>
      match h !! d with
      | Some D => d_name D :: path_chain n h (d_parent D)
      | None => []
      end
  | _, _ => []
  end.

Definition def_path_locked (d : Z) (cap : nat) (r : registry) : cstr :=
  strlcpy cap (fold_left (fun buf seg => match buf with [] => seg | _ => buf ++ "/"%char :: seg end)
    (rev (path_chain CMD_PATH_MAX_DEPTH (defs r) (Some d))) []).

Definition def_in_set (d : Z) (set : list Z) : bool := existsb (Z.eqb d) set.

(** Unlinks one node from its parent's chain. *)
Fixpoint unlink_child (d : Z) (cs : list Z) : list Z :=
  match cs with
  | [] => []
  | c :: cs' => if c =? d then cs' else c :: unlink_child d cs'
  end.

(** None is the returned 0: the subtree does not fit and nothing changes. *)
Definition def_detach_subtree_locked (d : Z) (cap : nat) (r : registry) : option (list Z * registry) :=
  match def_collect_subtree_locked (collect_fuel r) (defs r) cap d [] with
  | None => None
  | Some out =>
      let h := match parent_of (defs r) d with
               | Some p => alter (fun D => set_children (unlink_child d (d_children D)) D) p (defs r)
               | None => defs r
               end in
      let kept := List.filter (fun x => negb (def_in_set x out)) (cmd_list r) in
      let dropped := List.filter (fun x => def_in_set x out) (cmd_list r) in
      Some (out, mk_registry h kept (wrap 32 (cmd_def_count r - Z.of_nat (length dropped))))
  end.

(** The loop after the lock is dropped: the knob goes and the memory is
    freed. *)
Fixpoint free_victims (victims : list Z) (r : registry) : registry * list kv_request :=
  match victims with
  | [] => (r, [])
  | v :: vs =>
      let reqs := match defs r !! v with Some D => cmd_feat_kv_drop D | None => [] end in
      let '(r', reqs') := free_victims vs (mk_registry (delete v (defs r)) (cmd_list r) (cmd_def_count r)) in
      (r', reqs ++ reqs')
  end.

Definition cmd_unregister_path (cmd_ready : bool) (path : option cstr) (r : registry) : registry * Z * list kv_request :=
  match path with
  | None | Some [] => (r, 0, [])
  | Some _ =>
      if negb cmd_ready then (r, 0, [])
      else match resolve_parent_path_locked path r with
           | None => (r, 0, [])
           | Some d =>
               match def_detach_subtree_locked d CMD_UNREG_MAX_SUBTREE r with
               | None => (r, 0, [])
               | Some (victims, r) =>
                   let '(r, reqs) := free_victims victims r in
                   (r, Z.of_nat (length victims), reqs)
               end
           end
  end.

Definition def_owned_by (h : heap) (lo hi : Z) (d : Z) : bool :=
  match h !! d with
  | Some D => (lo <=? d_owner_pc D) && (d_owner_pc D <? hi)
  | None => false
  end.

Definition owned_root (h : heap) (lo hi : Z) (d : Z) : bool :=
  def_owned_by h lo hi d
  && match parent_of h d with None => true | Some p => negb (def_owned_by h lo hi p) end.

Definition def_next_owned_root_locked (lo hi : Z) (r : registry) : option Z :=
  List.find (owned_root (defs r) lo hi) (cmd_list r).

(** One subtree per pass; a pass that removes nothing ends the loop. *)
Fixpoint reclaim_loop (fuel : nat) (lo hi : Z) (r : registry) (total : Z) (reqs : list kv_request)
    : registry * Z * list kv_request :=
  match fuel with
  | O => (r, total, reqs)
  | S fuel =>
      match def_next_owned_root_locked lo hi r with
      | None => (r, total, reqs)
      | Some root =>
          match def_detach_subtree_locked root CMD_UNREG_MAX_SUBTREE r with
          | None => (r, total, reqs)
          | Some (victims, r) =>
              let '(r, more) := free_victims victims r in
              reclaim_loop fuel lo hi r (wrap 32 (total + Z.of_nat (length victims))) (reqs ++ more)
          end
      end
  end.

Definition cmd_reclaim_owned (lo hi : Z) (r : registry) : registry * Z * list kv_request :=
  if hi <=? lo then (r, 0, []) else reclaim_loop (S (length (cmd_list r))) lo hi r 0 [].

(** ** Subcommand resolution *)

Definition sub_token (args : cstr) : cstr := take (CMD_NAME_SZ - 1) (span (fun c => negb (is_ws c)) args).

(** Each level consumes a child of the one before, so the number of
    definitions bounds the descent. *)
Fixpoint resolve_subcmd_loop (fuel : nat) (d : Z) (args : cstr) (r : registry) : Z * cstr :=
  match fuel with
  | O => (d, args)
  | S fuel =>
      match children_of (defs r) d, args with
      | [], _ | _, [] => (d, args)
      | _ :: _, _ :: _ =>
          let sub_name := sub_token args in
          match def_find_child_locked d sub_name r with
          | None => (d, args)
          | Some child => resolve_subcmd_loop fuel child (skip_while is_ws (drop (length sub_name) args)) r
          end
      end
  end.

Definition resolve_subcmd_locked (d : Z) (args : cstr) (r : registry) : Z * cstr :=
  resolve_subcmd_loop (collect_fuel r) d args r.

(** ** The registry invariant *)

Definition is_child (h : heap) (p d : Z) : bool := bool_decide (parent_of h d = Some p).

(** A parent was registered before its children, so it is further down the
    global list. *)
Fixpoint ordered (h : heap) (l : list Z) : Prop :=
  match l with
  | [] => True
  | d :: l' => match parent_of h d with Some p => p ∈ l' | None => True end /\ ordered h l'
  end.

Record registry_ok (r : registry) : Prop := {
  ro_defs : forall d, is_Some (defs r !! d) <-> d ∈ cmd_list r;
  ro_nodup : NoDup (cmd_list r);
  ro_count : cmd_def_count r = wrap 32 (Z.of_nat (length (cmd_list r)));
  ro_ordered : ordered (defs r) (cmd_list r);
  ro_children : forall p, children_of (defs r) p = List.filter (is_child (defs r) p) (cmd_list r);
  ro_methods : forall d D p P, defs r !! d = Some D -> d_parent D = Some p -> defs r !! p = Some P ->
    Z.land (d_methods D) (d_methods P) = d_methods D;
  ro_names : forall d D, defs r !! d = Some D -> d_name D <> [] /\ (length (d_name D) < CMD_NAME_SZ)%nat
}.

(** [x] is below [d], or is [d]. *)
Definition below (h : heap) : Z -> Z -> Prop := rtc (fun a b => b ∈ children_of h a).

(** Position in the global list. *)
Fixpoint idx (x : Z) (l : list Z) : nat :=
  match l with
  | [] => 0%nat
  | y :: l' => if y =? x then 0%nat else S (idx x l')
  end.

Lemma idx_bound x l : (idx x l <= length l)%nat.
Proof. induction l as [|y l IH]; simpl; [done|]. case_step; lia. Qed.

Lemma ordered_parent h l c p :
  NoDup l -> ordered h l -> c ∈ l -> parent_of h c = Some p -> p ∈ l /\ (idx c l < idx p l)%nat.
Proof.
  induction l as [|a l IH]; simpl; [by intros _ _ ?%elem_of_nil|].
  intros [Ha Hn]%list.NoDup_cons [H1 H2] Hc Hp.
  assert (D : forall x, x ∈ l -> (a =? x) = false).
  { intros x Hx. apply Z.eqb_neq. by intros ->. }
  apply elem_of_cons in Hc as [->|Hc].
  - rewrite Hp in H1. rewrite Z.eqb_refl, (D _ H1). split; [by right|lia].
  - destruct (IH Hn H2 Hc Hp) as [Hp' Hlt]. rewrite (D _ Hc), (D _ Hp'). split; [by right|lia].
Qed.

Section Tree.
Context (r : registry) (Hok : registry_ok r).
  Notation h := (defs r).
  Notation l := (cmd_list r).

Lemma child_iff p c : c ∈ children_of h p <-> parent_of h c = Some p.
Proof.
    rewrite (ro_children r Hok), list_elem_of_In, List.filter_In, <- list_elem_of_In.
    unfold is_child. rewrite bool_decide_eq_true. split; [by intros []|].
    intros Hp. split; [|done]. apply (ro_defs r Hok). unfold parent_of in Hp.
    destruct (h !! c); [done|discriminate].
Qed.

Lemma parent_listed c p : parent_of h c = Some p -> c ∈ l /\ p ∈ l /\ (idx c l < idx p l)%nat.
Proof.
    intros Hp. assert (Hc : c ∈ l).
    { apply (ro_defs r Hok). unfold parent_of in Hp. destruct (h !! c); [done|discriminate]. }
    split; [done|]. apply (ordered_parent h); [apply Hok..|done|done].
Qed.

Lemma children_nodup p : NoDup (children_of h p).
Proof.
    rewrite (ro_children r Hok). apply NoDup_ListNoDup, List.NoDup_filter, NoDup_ListNoDup, Hok.
Qed.

Lemma below_idx d x : below h d x -> x = d \/ (idx x l < idx d l)%nat.
Proof.
    induction 1 as [d|d y x Hy _ IH]; [by left|]. right.
    apply child_iff, parent_listed in Hy as (_ & _ & Hy). destruct IH as [->|]; lia.
Qed.

Lemma below_listed d x : d ∈ l -> below h d x -> x ∈ l.
Proof.
    intros Hd H. induction H as [|d y x Hy _ IH]; [done|]. apply IH.
    apply child_iff, parent_listed in Hy. tauto.
Qed.

  (** Ancestors of one node are in one line. *)
Lemma below_comparable a b x : below h a x -> below h b x -> below h a b \/ below h b a.
Proof.
    intros Ha. revert x Ha b.
    apply (rtc_ind_r (fun x => forall b, below h b x -> below h a b \/ below h b a) a); [by right|].
    intros y x Hay Hyx IH b Hb.
    destruct (rtc_inv_r _ _ Hb) as [<-|(y' & Hb' & Hy')].
    - left. by eapply rtc_r.
    - apply IH. apply child_iff in Hyx, Hy'. assert (y' = y) as -> by congruence. done.
Qed.

Lemma siblings_disjoint p a b x :
    a ∈ children_of h p -> b ∈ children_of h p -> below h a x -> below h b x -> a = b.
Proof.
    intros Ha Hb Hx Hx'. apply child_iff in Ha, Hb.
    assert (D : forall u v, parent_of h u = Some p -> parent_of h v = Some p -> below h u v -> u = v).
    { intros u v Hu Hv H. destruct (rtc_inv_r _ _ H) as [|(y & Huy & Hy)]; [done|].
      apply child_iff in Hy. assert (y = p) as -> by congruence.
      apply below_idx in Huy. apply parent_listed in Hu. destruct Huy as [->|]; lia. }
    destruct (below_comparable a b x Hx Hx') as [H|H]; [by apply D|by symmetry; apply D].
Qed.
End Tree.

(** ** Collection against its specification *)

(** The subtree in post-order. *)
Fixpoint subtree (fuel : nat) (h : heap) (d : Z) : list Z :=
  match fuel with
  | O => []
  | S fuel => flat_map (subtree fuel h) (children_of h d) ++ [d]
  end.

Fixpoint tall (fuel : nat) (h : heap) (d : Z) : Prop :=
  match fuel with O => False | S fuel => Forall (tall fuel h) (children_of h d) end.

(** The bounded collector computes the subtree, or refuses exactly when the
    buffer cannot hold it. *)
Lemma def_collect_spec fuel h cap d out :
  tall fuel h d ->
  def_collect_subtree_locked fuel h cap d out =
    if (length out + length (subtree fuel h d) <=? cap)%nat then Some (out ++ subtree fuel h d) else None.
Proof.
  revert d out. induction fuel as [|fuel IH]; cbn [tall]; intros d out Ht; [done|].
  cbn [def_collect_subtree_locked subtree].
  set (go := fix collect_children (cs : list Z) (out : list Z) : option (list Z) := _).
  assert (Hgo : forall cs out, Forall (tall fuel h) cs ->
    match go cs out with
    | Some out' => out' = out ++ flat_map (subtree fuel h) cs
    | None => (cap < length out + length (flat_map (subtree fuel h) cs))%nat
    end).
  { intros cs. induction cs as [|c cs IHc]; intros o Hf; cbn [go flat_map]; [by rewrite app_nil_r|].
    inversion Hf as [|? ? Hc Hcs]; subst. rewrite (IH c o Hc).
    destruct (_ <=? cap)%nat eqn:E; breflect.
    - specialize (IHc (o ++ subtree fuel h c) Hcs). destruct (go cs _).
      + by rewrite IHc, <- app_assoc.
      + rewrite !length_app in *. lia.
    - rewrite !length_app. lia. }
  specialize (Hgo _ out Ht). destruct (go _ out) as [out'|].
  - subst out'. rewrite !length_app. simpl.
    destruct (cap <=? _)%nat eqn:E1, (_ <=? cap)%nat eqn:E2; breflect; try lia; [done|].
    by rewrite <- app_assoc.
  - destruct (_ <=? cap)%nat eqn:E; breflect; [|done]. rewrite length_app in E. lia.
Qed.

Lemma NoDup_flat_map {A B} (f : A -> list B) (l : list A) :
  NoDup l -> (forall a, a ∈ l -> NoDup (f a)) ->
  (forall a b x, a ∈ l -> b ∈ l -> x ∈ f a -> x ∈ f b -> a = b) ->
  NoDup (flat_map f l).
Proof.
  induction 1 as [|a l Ha _ IH]; simpl; intros H1 H2; [constructor|].
  apply list.NoDup_app. split_and!.
  - apply H1. by left.
  - intros x Hx (b & Hb & Hx')%list_elem_of_In%in_flat_map.
    apply list_elem_of_In in Hb; apply list_elem_of_In in Hx'. apply Ha.
    rewrite (H2 a b x); [done|by left|by right|done|done].
  - apply IH; [intros; apply H1; by right|]. intros b c x ? ?. apply H2; by right.
Qed.

Section Subtree.
Context (r : registry) (Hok : registry_ok r).
  Notation h := (defs r).
  Notation l := (cmd_list r).

Lemma tall_enough fuel d : (idx d l < fuel)%nat -> tall fuel h d.
Proof.
    revert d. induction fuel as [|fuel IH]; simpl; intros d Hd; [lia|].
    apply List.Forall_forall. intros c Hc%list_elem_of_In. apply IH.
    apply (child_iff r Hok), (parent_listed r Hok) in Hc. lia.
Qed.

Lemma collect_tall d : tall (collect_fuel r) h d.
Proof. apply tall_enough. pose proof (idx_bound d l). unfold collect_fuel. lia. Qed.

Lemma subtree_below fuel d x : tall fuel h d -> x ∈ subtree fuel h d <-> below h d x.
Proof.
    revert d. induction fuel as [|fuel IH]; simpl; intros d Ht; [done|].
    rewrite elem_of_app, list_elem_of_In, in_flat_map, list_elem_of_singleton.
    rewrite List.Forall_forall in Ht. split.
    - intros [(c & Hc & Hx)|Hx]; [|rewrite Hx; apply rtc_refl].
      rewrite <- list_elem_of_In in Hx. apply IH in Hx; [|by apply Ht].
      eapply rtc_l; [by apply list_elem_of_In|exact Hx].
    - intros [->|(c & Hc & Hx)]%rtc_inv; [by right|left]. apply list_elem_of_In in Hc.
      exists c. split; [done|]. apply list_elem_of_In, IH; auto.
Qed.

Lemma subtree_nodup fuel d : tall fuel h d -> NoDup (subtree fuel h d).
Proof.
    revert d. induction fuel as [|fuel IH]; simpl; intros d Ht; [done|].
    rewrite List.Forall_forall in Ht.
    assert (T : forall c, c ∈ children_of h d -> tall fuel h c).
    { intros c Hc. by apply Ht, list_elem_of_In. }
    apply list.NoDup_app. split_and!.
    - apply NoDup_flat_map; [by apply children_nodup|auto|].
      intros a b x Ha Hb Hx Hx'. apply subtree_below in Hx, Hx'; auto.
      by eapply (siblings_disjoint r Hok d).
    - intros x (c & Hc & Hx)%list_elem_of_In%in_flat_map Hd%list_elem_of_singleton. subst x.
      apply list_elem_of_In in Hc; apply list_elem_of_In in Hx. apply subtree_below in Hx; [|auto].
      apply (below_idx r Hok) in Hx. apply (child_iff r Hok), (parent_listed r Hok) in Hc.
      destruct Hx as [<-|]; lia.
    - apply NoDup_singleton.
Qed.
End Subtree.

(** ** Detaching and freeing *)

Lemma def_in_set_iff d set : def_in_set d set = true <-> d ∈ set.
Proof.
  unfold def_in_set. rewrite existsb_exists. split.
  - intros (x & Hx & He). breflect. subst. by apply list_elem_of_In.
  - intros H. exists d. split; [by apply list_elem_of_In|apply Z.eqb_refl].
Qed.

Lemma elem_of_filter_b {A} (f : A -> bool) (l : list A) x : x ∈ List.filter f l <-> x ∈ l /\ f x = true.
Proof. by rewrite !list_elem_of_In, List.filter_In. Qed.

Lemma unlink_child_filter d cs : NoDup cs -> unlink_child d cs = List.filter (fun c => negb (c =? d)) cs.
Proof.
  induction cs as [|c cs IH]; simpl; [done|]. intros [Hc Hn]%list.NoDup_cons.
  destruct (c =? d) eqn:E; breflect; simpl; [|by rewrite IH].
  subst. symmetry. apply forallb_filter_id, forallb_forall.
  intros x Hx. apply negb_true_iff, Z.eqb_neq. intros ->. by apply Hc, list_elem_of_In.
Qed.

Lemma free_victims_spec vs r :
  cmd_list (free_victims vs r).1 = cmd_list r /\
  cmd_def_count (free_victims vs r).1 = cmd_def_count r /\
  forall x, defs (free_victims vs r).1 !! x = if decide (x ∈ vs) then None else defs r !! x.
Proof.
  revert r. induction vs as [|v vs IH]; intros r; cbn [free_victims].
  { split_and!; [done..|]. intros x. by rewrite decide_False by apply not_elem_of_nil. }
  specialize (IH (mk_registry (delete v (defs r)) (cmd_list r) (cmd_def_count r))).
  destruct (free_victims vs _) as [r' reqs]. cbn [defs cmd_list cmd_def_count fst] in *. destruct IH as (H1 & H2 & H3).
  split_and!; [done..|]. intros x. rewrite H3.
  destruct (decide (x = v)) as [->|Hne].
  - rewrite (decide_True (P := v ∈ v :: vs)) by (by left). case_decide; [done|]. apply lookup_delete_eq.
  - rewrite lookup_delete_ne by done. apply decide_ext. rewrite elem_of_cons. tauto.
Qed.

Lemma lookup_unlinked h d x :
  (match parent_of h d with
   | Some p => alter (fun D => set_children (unlink_child d (d_children D)) D) p h
   | None => h
   end) !! x =
  (fun D => if bool_decide (parent_of h d = Some x)
            then set_children (unlink_child d (d_children D)) D else D) <$> h !! x.
Proof.
  destruct (parent_of h d) as [p|]; [|by destruct (h !! x)].
  destruct (decide (p = x)) as [->|Hne].
  - rewrite bool_decide_true by done. apply lookup_alter_eq.
  - rewrite bool_decide_false by congruence. rewrite lookup_alter_ne by done. by destruct (h !! x).
Qed.

(** The registry a detached and freed subtree leaves. *)
Record pruned (r : registry) (d : Z) (out : list Z) (r' : registry) : Prop := {
  pr_out : forall x, x ∈ out <-> below (defs r) d x;
  pr_nodup : NoDup out;
  pr_list : cmd_list r' = List.filter (fun x => negb (def_in_set x out)) (cmd_list r);
  pr_count : cmd_def_count r' =
    wrap 32 (cmd_def_count r - Z.of_nat (length (List.filter (fun x => def_in_set x out) (cmd_list r))));
  pr_defs : forall x, defs r' !! x =
    if decide (x ∈ out) then None
    else (fun D => if bool_decide (parent_of (defs r) d = Some x)
                   then set_children (unlink_child d (d_children D)) D else D) <$> defs r !! x
}.

Lemma detach_spec r d cap :
  registry_ok r ->
  let sub := subtree (collect_fuel r) (defs r) d in
  match def_detach_subtree_locked d cap r with
  | Some (out, r1) => out = sub /\ (length sub <= cap)%nat /\ pruned r d out (free_victims out r1).1
  | None => (cap < length sub)%nat
  end.
Proof.
  intros Hok sub. unfold def_detach_subtree_locked.
  pose proof (collect_tall r Hok d) as Ht. rewrite def_collect_spec by done.
  fold sub. cbn [length Nat.add app]. destruct (_ <=? cap)%nat eqn:E; breflect; [|done].
  split_and!; [done..|].
  match goal with |- context [free_victims sub ?x] => destruct (free_victims_spec sub x) as (H1 & H2 & H3) end.
  split; [by intros; apply subtree_below|by apply subtree_nodup|done|done|].
  intros x. rewrite H3. cbn. case_decide; [done|]. apply lookup_unlinked.
Qed.

Lemma pruned_parent r d out r' x :
  pruned r d out r' -> parent_of (defs r') x = if decide (x ∈ out) then None else parent_of (defs r) x.
Proof.
  intros H. unfold parent_of at 1. rewrite (pr_defs _ _ _ _ H). case_decide; [done|].
  change (parent_of (defs r) x) with (defs r !! x ≫= d_parent).
  destruct (defs r !! x) as [D|]; [|done]. simpl. by case_bool_decide.
Qed.

Lemma filter_filter {A} (f g : A -> bool) (l : list A) :
  List.filter f (List.filter g l) = List.filter (fun x => g x && f x) l.
Proof. induction l as [|x l IH]; simpl; [done|]. destruct (g x); simpl; by rewrite IH. Qed.

Lemma ordered_filter h h' f l :
  (forall x p, x ∈ l -> f x = true -> parent_of h' x = Some p -> parent_of h x = Some p /\ f p = true) ->
  ordered h l -> ordered h' (List.filter f l).
Proof.
  induction l as [|a l IH]; simpl; intros H; [done|]. intros [H1 H2].
  assert (IH' : ordered h' (List.filter f l)).
  { apply IH; [|done]. intros x p Hx. apply H. by right. }
  destruct (f a) eqn:E; [|done]. split; [|done].
  destruct (parent_of h' a) as [p|] eqn:Ep; [|done].
  destruct (H a p ltac:(by left) E Ep) as [Hp Hfp]. rewrite Hp in H1. by apply elem_of_filter_b.
Qed.

(** What is above the removed node, or beside it, stays. *)
Lemma pruned_parent_kept r d out r' x p :
  registry_ok r -> pruned r d out r' -> x ∉ out -> parent_of (defs r) x = Some p -> p ∉ out.
Proof.
  intros Hok H Hx Hp Hpo. apply Hx. apply (pr_out _ _ _ _ H) in Hpo. apply (pr_out _ _ _ _ H).
  eapply rtc_r; [exact Hpo|]. by apply child_iff.
Qed.

Lemma not_in_set x out : negb (def_in_set x out) = true <-> x ∉ out.
Proof. rewrite negb_true_iff, <- not_true_iff_false, def_in_set_iff. done. Qed.

Lemma filter_ext_elem {A} (f g : A -> bool) (l : list A) :
  (forall x, x ∈ l -> f x = g x) -> List.filter f l = List.filter g l.
Proof. intros H. apply filter_ext_in. intros x Hx. by apply H, list_elem_of_In. Qed.

Lemma pruned_children r d out r' p :
  registry_ok r -> pruned r d out r' ->
  children_of (defs r') p = List.filter (is_child (defs r') p) (cmd_list r').
Proof.
  intros Hok H. rewrite (pr_list _ _ _ _ H), filter_filter.
  assert (Hch : forall x, negb (def_in_set x out) && is_child (defs r') p x
    = negb (def_in_set x out) && is_child (defs r) p x).
  { intros x. unfold is_child. rewrite (pruned_parent _ _ _ _ _ H).
    destruct (negb _) eqn:E; [|done]. apply not_in_set in E. by rewrite decide_False. }
  rewrite (filter_ext_elem _ _ _ (fun x _ => Hch x)). unfold children_of at 1.
  rewrite (pr_defs _ _ _ _ H). pose proof (ro_children r Hok p) as Hp. unfold children_of in Hp.
  assert (Hno : forall (f g : Z -> bool), List.filter g (cmd_list r) = [] ->
    List.filter (fun x => f x && g x) (cmd_list r) = []).
  { intros f g Hg. rewrite (filter_ext_elem _ (fun x => g x && f x)), <- filter_filter, Hg; [done|].
    intros. apply andb_comm. }
  case_decide as Hpo.
  { symmetry. apply elem_of_nil_inv. intros x Hx. apply elem_of_filter_b in Hx as [Hx Hf]. breflect.
    unfold is_child in *. breflect. eapply (pruned_parent_kept r d out r' x p); [done|done| |done|done].
    apply not_in_set. by apply negb_true_iff. }
  destruct (defs r !! p) as [D|] eqn:E; simpl.
  2:{ symmetry. by apply Hno. }
  assert (Hx : forall x, x ∈ cmd_list r -> negb (def_in_set x out) && is_child (defs r) p x
    = is_child (defs r) p x && negb (x =? d)).
  { intros x _. rewrite andb_comm. unfold is_child. case_bool_decide as Hxp; simpl; [|done]. f_equal.
    apply eq_bool_prop_intro. rewrite !Is_true_true, def_in_set_iff, Z.eqb_eq, (pr_out _ _ _ _ H). split.
    - intros Hb. destruct (rtc_inv_r _ _ Hb) as [|(y & Hy & Hyx)]; [done|]. apply (child_iff r Hok) in Hyx.
      destruct Hpo. apply (pr_out _ _ _ _ H). by replace p with y by congruence.
    - intros ->. apply rtc_refl. }
  rewrite (filter_ext_elem _ _ _ Hx), <- filter_filter, <- Hp. case_bool_decide as Hd; simpl.
  - rewrite Hp. apply unlink_child_filter. rewrite <- (ro_children r Hok p). by apply children_nodup.
  - symmetry. apply forallb_filter_id, forallb_forall. intros x Hxc.
    apply negb_true_iff, Z.eqb_neq. intros ->. apply Hd. apply (child_iff r Hok).
    unfold children_of. rewrite E. by apply list_elem_of_In.
Qed.

Lemma filter_lengths {A} (f : A -> bool) (l : list A) :
  Nat.add (length (List.filter f l)) (length (List.filter (fun x => negb (f x)) l)) = length l.
Proof. induction l as [|x l IH]; simpl; [done|]. destruct (f x); simpl; lia. Qed.

(** Pruning keeps the invariant. *)
Lemma pruned_ok r d out r' : registry_ok r -> pruned r d out r' -> registry_ok r'.
Proof.
  intros Hok H. pose proof H as [H1 H2 H3 H4 H5]. split.
  - intros x. rewrite H5, H3, elem_of_filter_b, not_in_set, <- (ro_defs r Hok).
    case_decide; [|rewrite fmap_is_Some]; [|tauto]. split; [by intros [? ?]|tauto].
  - rewrite H3. apply NoDup_ListNoDup, List.NoDup_filter, NoDup_ListNoDup, Hok.
  - rewrite H4, (ro_count r Hok), H3. unfold wrap. rewrite Zminus_mod_idemp_l. f_equal.
    pose proof (filter_lengths (fun x => def_in_set x out) (cmd_list r)). lia.
  - rewrite H3. apply (ordered_filter (defs r)); [|apply Hok].
    intros x p Hx Hf Hp. rewrite (pruned_parent _ _ _ _ _ H) in Hp. case_decide; [done|].
    split; [done|]. apply not_in_set. by eapply pruned_parent_kept.
  - intros p. by eapply pruned_children.
  - intros x D p P Hx Hp HP. rewrite H5 in Hx, HP. case_decide; [done|]. case_decide; [done|].
    apply fmap_Some in Hx as (D0 & Hx & ->). apply fmap_Some in HP as (P0 & HP & ->).
    pose proof (ro_methods r Hok x D0 p P0 Hx) as M.
    assert (Hp' : d_parent D0 = Some p) by (revert Hp; by case_bool_decide).
    specialize (M Hp' HP). by repeat case_bool_decide.
  - intros x D Hx. rewrite H5 in Hx. case_decide; [done|]. apply fmap_Some in Hx as (D0 & Hx & ->).
    pose proof (ro_names r Hok x D0 Hx). by case_bool_decide.
Qed.

(** ** Lookup *)

(** The reference: the first definition of the list that passes a test. *)
Definition first_match (h : heap) (P : cmd_def -> bool) (l : list Z) : option Z :=
  List.find (fun d => match h !! d with Some D => P D | None => false end) l.

Definition is_root (D : cmd_def) : bool := match d_parent D with None => true | Some _ => false end.

Definition orelse (a b : option Z) : option Z := match a with Some _ => a | None => b end.

Lemma def_find_loop_spec h name l rn nm ra am :
  def_find_loop h name l rn nm ra am =
  orelse (orelse rn (first_match h (fun D => name_eq (d_name D) name && is_root D) l))
    (orelse (orelse nm (first_match h (fun D => name_eq (d_name D) name) l))
      (orelse (orelse ra (first_match h (fun D => abbrev_eq D name && is_root D) l))
        (orelse am (first_match h (fun D => abbrev_eq D name) l)))).
Proof.
  revert rn nm ra am. induction l as [|d l IH]; intros rn nm ra am; cbn [def_find_loop].
  - by destruct rn, nm, ra, am.
  - unfold first_match. cbn [List.find]. destruct (h !! d) as [D|]; rewrite IH; [|done].
    unfold first_match, is_root, first_of.
    destruct rn, nm, ra, am, (name_eq _ _), (abbrev_eq _ _), (d_parent D); simpl; done.
Qed.

Lemma first_match_Some h P l d :
  first_match h P l = Some d -> d ∈ l /\ exists D, h !! d = Some D /\ P D = true.
Proof.
  intros [H1 H2]%List.find_some. split; [by apply list_elem_of_In|].
  destruct (h !! d) as [D|]; [by exists D|done].
Qed.

Lemma orelse_Some a b d : orelse a b = Some d -> a = Some d \/ b = Some d.
Proof. destruct a; simpl; auto. Qed.

Lemma def_find_listed name r d : def_find_locked name r = Some d -> d ∈ cmd_list r.
Proof.
  unfold def_find_locked. rewrite def_find_loop_spec.
  cbn [orelse]. intros [H|[H|[H|H]%orelse_Some]%orelse_Some]%orelse_Some;
    by apply first_match_Some in H as [? _].
Qed.

Lemma def_find_child_loop_elem h name cs am d :
  def_find_child_loop h name cs am = Some d -> d ∈ cs \/ am = Some d.
Proof.
  revert am. induction cs as [|c cs IH]; cbn [def_find_child_loop]; intros am; [by right|].
  destruct (h !! c) as [D|]; [|intros [?|?]%IH; [left; by right|by right]].
  destruct (name_eq _ _); [intros [= <-]; left; by left|].
  intros [?|H]%IH; [left; by right|]. destruct am; [by right|]. unfold first_of in H.
  case_step_in H; [|done]. injection H as <-. left. by left.
Qed.

Lemma def_find_child_elem p name r c :
  def_find_child_locked p name r = Some c -> c ∈ children_of (defs r) p.
Proof. intros [|]%def_find_child_loop_elem; done. Qed.

Lemma resolve_segments_listed d toks r d' :
  registry_ok r -> d ∈ cmd_list r -> resolve_segments d toks r = Some d' -> d' ∈ cmd_list r.
Proof.
  intros Hok. revert d. induction toks as [|tok toks IH]; cbn [resolve_segments]; intros d Hd.
  - by intros [= <-].
  - destruct tok as [|c tok]; [by apply IH|].
    destruct (def_find_child_locked _ _ _) as [x|] eqn:E; [|done]. apply IH.
    apply def_find_child_elem, (child_iff r Hok), (parent_listed r Hok) in E. tauto.
Qed.

Lemma resolve_parent_listed path r d :
  registry_ok r -> resolve_parent_path_locked path r = Some d -> d ∈ cmd_list r.
Proof.
  intros Hok. unfold resolve_parent_path_locked. destruct path as [[|c p]|]; [done| |done].
  destruct (split_slash _) as [|tok toks]; [done|].
  destruct (def_find_locked _ _) as [x|] eqn:E; [|done].
  apply def_find_listed in E. by apply resolve_segments_listed.
Qed.

(** ** Registration keeps the invariant *)

Section Register.
Context (decl : cmd_decl_t) (name group : cstr) (parent : option Z) (pc addr : Z) (r : registry).
Context (Hok : registry_ok r) (Hfree : addr ∉ cmd_list r) (Hname : name <> []).
Context (Hparent : forall p, parent = Some p -> p ∈ cmd_list r).
  Notation r' := (reg_populate_def decl name group parent pc addr r).
  Notation h := (defs r).

Lemma populate_lookup x :
    defs r' !! x =
    if decide (x = addr) then Some (new_def decl name group parent (parent ≫= fun p => h !! p) pc)
    else (fun D => if bool_decide (parent = Some x) then set_children (addr :: d_children D) D else D) <$> h !! x.
Proof.
    clear Hparent. cbn [reg_populate_def defs]. case_decide as E; [subst; apply lookup_insert_eq|].
    rewrite lookup_insert_ne by done. destruct parent as [p|]; [|by destruct (h !! x)].
    destruct (decide (p = x)) as [->|Hne].
    - rewrite bool_decide_true by done. apply lookup_alter_eq.
    - rewrite bool_decide_false by congruence. rewrite lookup_alter_ne by done. by destruct (h !! x).
Qed.

Lemma populate_parent x : parent_of (defs r') x = if decide (x = addr) then parent else parent_of h x.
Proof.
    unfold parent_of at 1. rewrite populate_lookup. case_decide; [done|].
    change (parent_of h x) with (h !! x ≫= d_parent).
    destruct (h !! x) as [D|]; [|done]. simpl. by case_bool_decide.
Qed.

Lemma free_ne x : x ∈ cmd_list r -> x <> addr.
Proof. by intros Hx ->. Qed.

Lemma populate_children p :
    children_of (defs r') p = List.filter (is_child (defs r') p) (addr :: cmd_list r).
Proof.
    assert (Hf : List.filter (is_child (defs r') p) (cmd_list r) = children_of h p).
    { rewrite (ro_children r Hok). apply filter_ext_elem. intros x Hx. unfold is_child.
      rewrite populate_parent, decide_False by (by apply free_ne). done. }
    cbn [List.filter]. rewrite Hf. unfold is_child. rewrite populate_parent, decide_True by done.
    unfold children_of at 1. rewrite populate_lookup. case_decide as Hp.
    - subst p. rewrite bool_decide_false by (intros Hp; by apply Hfree, Hparent).
      unfold children_of. destruct (h !! addr) eqn:E; [|done]. exfalso. apply Hfree, (ro_defs r Hok). by eexists.
    - unfold children_of. destruct (h !! p) as [D|] eqn:E; simpl; [by case_bool_decide|].
      case_bool_decide as Hpp; [|done]. apply Hparent, (ro_defs r Hok) in Hpp as [? ?]. congruence.
Qed.

Lemma populate_methods x D p P :
    defs r' !! x = Some D -> d_parent D = Some p -> defs r' !! p = Some P ->
    Z.land (d_methods D) (d_methods P) = d_methods D.
Proof.
    intros Hx Hp HP.
    assert (Hpl : p ∈ cmd_list r).
    { assert (Hpar : parent_of (defs r') x = Some p) by (unfold parent_of; by rewrite Hx).
      rewrite populate_parent in Hpar. case_decide; [by apply Hparent|].
      apply (parent_listed r Hok) in Hpar. tauto. }
    rewrite populate_lookup, decide_False in HP by (by apply free_ne).
    apply fmap_Some in HP as (P0 & HP & ->).
    assert (HM : d_methods (if bool_decide (parent = Some p)
      then set_children (addr :: d_children P0) P0 else P0) = d_methods P0) by (by case_bool_decide).
    rewrite HM. rewrite populate_lookup in Hx. case_decide.
    - injection Hx as <-. simpl in *. rewrite Hp. simpl. rewrite HP. simpl.
      case_step; [apply Z.land_diag|]. by rewrite <- Z.land_assoc, Z.land_diag.
    - apply fmap_Some in Hx as (D0 & Hx & ->). pose proof (ro_methods r Hok x D0 p P0 Hx) as M.
      clear HM. case_bool_decide; by apply M.
Qed.

Lemma populate_ok : registry_ok r'.
Proof.
    split.
    - intros x. rewrite populate_lookup. cbn [cmd_list reg_populate_def]. rewrite elem_of_cons.
      case_decide; [split; [tauto|by eexists]|]. rewrite fmap_is_Some, (ro_defs r Hok). tauto.
    - by apply list.NoDup_cons; split; [|apply Hok].
    - cbn. rewrite (ro_count r Hok). unfold wrap. rewrite Zplus_mod_idemp_l. f_equal. lia.
    - split; [rewrite populate_parent, decide_True by done; destruct parent; [by apply Hparent|done]|].
      pose proof (ro_ordered r Hok) as Ho. pose proof free_ne as Hne. revert Ho Hne.
      generalize (cmd_list r) as l. intros l. induction l as [|x l IH]; [done|]. intros [H1 H2] Hne.
      split; [|apply IH; [done|]; intros y Hy; apply Hne; by right].
      rewrite populate_parent, decide_False; [done|]. apply Hne. by left.
    - apply populate_children.
    - apply populate_methods.
    - intros x D Hx. rewrite populate_lookup in Hx. case_decide.
      + injection Hx as <-. simpl. unfold strlcpy. rewrite length_take. split; [|unfold CMD_NAME_SZ; lia].
        by destruct name.
      + apply fmap_Some in Hx as (D0 & Hx & ->). pose proof (ro_names r Hok x D0 Hx). by case_bool_decide.
Qed.
End Register.

(** A refused registration changes nothing; an accepted one links a definition
    whose name no sibling it overlaps answers to. *)
Lemma cmd_register_spec decl pc addr r :
  cmd_register decl pc addr r = (r, false, []) \/
  exists name group parent,
    dc_name decl = Some name /\ name <> [] /\
    (forall p, parent = Some p -> resolve_parent_path_locked (dc_parent_path decl) r = Some p) /\
    reg_check_collisions_locked name (dc_abbrev decl) parent (dc_kind_filter decl) r = true /\
    cmd_register decl pc addr r = (reg_populate_def decl name group parent pc addr r, true,
      if has_voice (dc_feat decl) then [KvRegister (cmd_feat_voice_key name) pc] else []).
Proof.
  unfold cmd_register.
  destruct (dc_name decl) as [[|c name]|], (dc_cb decl), (dc_group decl) as [[|g group]|]; try (by left).
  destruct (negb (reg_validate_args _)); [by left|].
  destruct (negb (nl_ok _)); [by left|]. destruct (negb (feat_ok _)); [by left|].
  set (wants := match dc_parent_path decl with None | Some [] => false | Some _ => true end).
  set (parent := if wants then _ else _). destruct (wants && _); [by left|].
  destruct (negb (reg_check_collisions_locked _ _ _ _ _)) eqn:E; breflect; [by left|].
  right. exists (c :: name), (g :: group), parent. split_and!; [done|done| |done|done].
  intros p. subst parent. by destruct wants.
Qed.

Lemma cmd_register_ok decl pc addr r :
  registry_ok r -> addr ∉ cmd_list r -> registry_ok (cmd_register decl pc addr r).1.1.
Proof.
  intros Hok Hf. destruct (cmd_register_spec decl pc addr r) as [->|(name & group & parent & _ & Hn & Hp & _ & ->)];
    [done|]. apply populate_ok; [done..|]. intros p Hpp%Hp. by eapply resolve_parent_listed.
Qed.

Lemma help_ext_ok e d r :
  registry_ok r -> registry_ok (mk_registry (alter (set_help_ext e) d (defs r)) (cmd_list r) (cmd_def_count r)).
Proof.
  intros [H1 H2 H3 H4 H5 H6 H7].
  assert (L : forall x, alter (set_help_ext e) d (defs r) !! x =
    (fun D => if bool_decide (d = x) then set_help_ext e D else D) <$> defs r !! x).
  { intros x. case_bool_decide; [subst; apply lookup_alter_eq|].
    rewrite lookup_alter_ne by done. by destruct (defs r !! x). }
  assert (P : forall x, parent_of (alter (set_help_ext e) d (defs r)) x = parent_of (defs r) x).
  { intros x. unfold parent_of. rewrite L. destruct (defs r !! x); [|done]. simpl. by case_bool_decide. }
  split; cbn [defs cmd_list cmd_def_count].
  - intros x. by rewrite L, fmap_is_Some.
  - done.
  - done.
  - revert H4. generalize (cmd_list r) as l. intros l. induction l as [|x l IH]; [done|].
    intros [? ?]. split; [by rewrite P|auto].
  - intros p. unfold children_of. rewrite L. specialize (H5 p). unfold children_of in H5.
    rewrite (filter_ext_elem _ (is_child (defs r) p)).
    + rewrite <- H5. destruct (defs r !! p); [|done]. simpl. by case_bool_decide.
    + intros x _. unfold is_child. by rewrite P.
  - intros x D p Q Hx Hp HQ. rewrite L in Hx, HQ.
    apply fmap_Some in Hx as (D0 & Hx & ->). apply fmap_Some in HQ as (Q0 & HQ & ->).
    pose proof (H6 x D0 p Q0 Hx). repeat case_bool_decide; auto.
  - intros x D Hx. rewrite L in Hx. apply fmap_Some in Hx as (D0 & Hx & ->).
    pose proof (H7 x D0 Hx). by case_bool_decide.
Qed.

Lemma unregister_ok ready path r : registry_ok r -> registry_ok (cmd_unregister_path ready path r).1.1.
Proof.
  intros Hok. unfold cmd_unregister_path. destruct path as [[|c p]|]; [done| |done].
  destruct (negb ready); [done|]. destruct (resolve_parent_path_locked _ _) as [d|]; [|done].
  pose proof (detach_spec r d CMD_UNREG_MAX_SUBTREE Hok) as H.
  destruct (def_detach_subtree_locked _ _ _) as [[out r1]|]; [|done]. destruct H as (_ & _ & H).
  destruct (free_victims out r1). by eapply pruned_ok.
Qed.

(** ** Reclaiming an object's commands *)

Lemma owned_root_owned h lo hi d : owned_root h lo hi d = true -> def_owned_by h lo hi d = true.
Proof. unfold owned_root. by intros [? _]%andb_true_iff. Qed.

Lemma pruned_owned r d out r' lo hi x :
  pruned r d out r' -> x ∉ out -> def_owned_by (defs r') lo hi x = def_owned_by (defs r) lo hi x.
Proof.
  intros H Hx. unfold def_owned_by. rewrite (pr_defs _ _ _ _ H), decide_False by done.
  destruct (defs r !! x); [|done]. simpl. by case_bool_decide.
Qed.

Lemma pruned_listed r d out r' x : pruned r d out r' -> x ∈ cmd_list r' <-> x ∈ cmd_list r /\ x ∉ out.
Proof. intros H. by rewrite (pr_list _ _ _ _ H), elem_of_filter_b, not_in_set. Qed.

Lemma pruned_below r d out r' x y :
  registry_ok r -> pruned r d out r' -> below (defs r') x y -> below (defs r) x y.
Proof.
  intros Hok H. assert (Hok' : registry_ok r') by (by eapply pruned_ok).
  apply rtc_subrel. intros a b Hb. apply (child_iff r' Hok') in Hb. apply (child_iff r Hok).
  rewrite (pruned_parent _ _ _ _ _ H) in Hb. by case_decide.
Qed.

(** If anything is owned, the node to take first exists. *)
Lemma owned_root_exists r lo hi d :
  registry_ok r -> d ∈ cmd_list r -> def_owned_by (defs r) lo hi d = true ->
  is_Some (def_next_owned_root_locked lo hi r).
Proof.
  intros Hok. remember (length (cmd_list r) - idx d (cmd_list r))%nat as n eqn:Hn.
  revert d Hn. induction n as [n IH] using lt_wf_ind. intros d -> Hd Ho.
  unfold def_next_owned_root_locked. destruct (List.find _ _) as [x|] eqn:E; [by eexists|].
  pose proof (List.find_none _ _ E d) as Hno. rewrite <- list_elem_of_In in Hno. specialize (Hno Hd).
  unfold owned_root in Hno. rewrite Ho in Hno. simpl in Hno.
  destruct (parent_of (defs r) d) as [p|] eqn:Ep; [|done]. breflect.
  pose proof (parent_listed r Hok d p Ep) as (_ & Hp & Hlt). pose proof (idx_bound p (cmd_list r)).
  assert (S : is_Some (def_next_owned_root_locked lo hi r)) by (eapply IH; [|done|done|done]; lia).
  unfold def_next_owned_root_locked in S. by rewrite E in S.
Qed.

(** What one object's reclaim leaves: nothing new, nothing taken that was not
    at or below one of its definitions, and nothing of its left unless a
    subtree is too large to detach. *)
Definition reclaimed (lo hi : Z) (r r' : registry) : Prop :=
  (forall d, d ∈ cmd_list r' -> d ∈ cmd_list r) /\
  (forall d, d ∈ cmd_list r -> d ∉ cmd_list r' ->
     exists root, def_owned_by (defs r) lo hi root = true /\ below (defs r) root d) /\
  ((forall d, d ∈ cmd_list r' -> def_owned_by (defs r') lo hi d = false) \/
   exists root, root ∈ cmd_list r' /\ def_owned_by (defs r') lo hi root = true /\
     (CMD_UNREG_MAX_SUBTREE < length (subtree (collect_fuel r') (defs r') root))%nat).

Lemma reclaim_loop_spec fuel lo hi r total reqs :
  registry_ok r -> (length (cmd_list r) < fuel)%nat ->
  let r' := (reclaim_loop fuel lo hi r total reqs).1.1 in registry_ok r' /\ reclaimed lo hi r r'.
Proof.
  revert r total reqs. induction fuel as [|fuel IH]; intros r total reqs Hok Hf; [lia|].
  cbn [reclaim_loop]. destruct (def_next_owned_root_locked lo hi r) as [root|] eqn:E.
  2:{ split; [done|]. split_and!; [done|done|left]. intros d Hd.
      destruct (def_owned_by (defs r) lo hi d) eqn:Ho; [|done].
      destruct (owned_root_exists r lo hi d Hok Hd Ho). congruence. }
  apply List.find_some in E as [Hr Ho%owned_root_owned]. apply list_elem_of_In in Hr.
  pose proof (detach_spec r root CMD_UNREG_MAX_SUBTREE Hok) as H.
  destruct (def_detach_subtree_locked _ _ _) as [[out r1]|].
  2:{ split; [done|]. split_and!; [done|done|right]. by exists root. }
  destruct H as (_ & _ & H). destruct (free_victims out r1) as [r2 more]. cbn [fst] in H.
  assert (Hin : root ∈ out) by (apply (pr_out _ _ _ _ H), rtc_refl).
  assert (Hlen : (length (cmd_list r2) < length (cmd_list r))%nat).
  { rewrite (pr_list _ _ _ _ H).
    pose proof (filter_lengths (fun x => def_in_set x out) (cmd_list r)).
    enough (length (List.filter (fun x => def_in_set x out) (cmd_list r)) <> 0)%nat by lia.
    intros Hz%nil_length_inv. apply (elem_of_nil root). rewrite <- Hz.
    apply elem_of_filter_b. by rewrite def_in_set_iff. }
  destruct (IH r2 (wrap 32 (total + Z.of_nat (length out))) (reqs ++ more)) as [Hok' (R1 & R2 & R3)];
    [by eapply pruned_ok|lia|].
  split; [done|]. split_and!; [|intros d Hd Hd'|done].
  - intros d Hd. apply R1, (pruned_listed _ _ _ _ _ H) in Hd. tauto.
  - destruct (decide (d ∈ out)) as [Hdo|Hdo].
    + exists root. split; [done|]. by apply (pr_out _ _ _ _ H).
    + destruct (R2 d) as (root' & Ho' & Hb); [by apply (pruned_listed _ _ _ _ _ H)|done|].
      exists root'. split; [|by eapply pruned_below].
      rewrite <- (pruned_owned _ _ _ _ _ _ _ H); [done|]. intros Hro. apply Hdo.
      apply (pr_out _ _ _ _ H). apply (pr_out _ _ _ _ H) in Hro.
      etrans; [exact Hro|]. by eapply pruned_below.
Qed.

(** ** Reachable registries *)

Inductive registry_step (P : cmd_decl_t -> Prop) : registry -> registry -> Prop :=
  | rs_register decl pc addr r :
      P decl -> addr ∉ cmd_list r -> registry_step P r (cmd_register decl pc addr r).1.1
  | rs_unregister ready path r : registry_step P r (cmd_unregister_path ready path r).1.1
  | rs_reclaim lo hi r : registry_step P r (cmd_reclaim_owned lo hi r).1.1
  | rs_help_ext name child ext r : registry_step P r (cmd_set_help_extender name child ext r).1.

Definition empty_registry : registry := mk_registry ∅ [] 0.

Definition registry_reachable (P : cmd_decl_t -> Prop) : registry -> Prop :=
  rtc (registry_step P) empty_registry.

Lemma empty_registry_ok : registry_ok empty_registry.
Proof.
  split; cbn.
  - intros d. rewrite lookup_empty. split; [by intros [? ?]|by intros ?%elem_of_nil].
  - constructor.
  - done.
  - done.
  - intros p. unfold children_of. by rewrite lookup_empty.
  - intros d D p P H. by rewrite lookup_empty in H.
  - intros d D H. by rewrite lookup_empty in H.
Qed.

Lemma registry_step_ok P r r' : registry_step P r r' -> registry_ok r -> registry_ok r'.
Proof.
  intros [decl pc addr r0 _ Hf|ready path r0|lo hi r0|name child ext r0] Hok.
  - by apply cmd_register_ok.
  - by apply unregister_ok.
  - unfold cmd_reclaim_owned. case_match; [done|]. apply reclaim_loop_spec; [done|lia].
  - unfold cmd_set_help_extender. repeat case_match; try done; by apply help_ext_ok.
Qed.

Lemma reachable_ok P r : registry_reachable P r -> registry_ok r.
Proof.
  intros H. pose proof empty_registry_ok as Hok. revert Hok.
  induction H as [|a b c Hab _ IH]; [done|]. intros Ha. apply IH. by eapply registry_step_ok.
Qed.

(** ** Siblings answer to different words *)

Definition answers (D : cmd_def) (tok : cstr) : bool := name_eq (d_name D) tok || abbrev_eq D tok.

Definition unambiguous (r : registry) : Prop :=
  forall c1 c2 D1 D2 tok, c1 <> c2 -> defs r !! c1 = Some D1 -> defs r !! c2 = Some D2 ->
    d_parent D1 = d_parent D2 -> kind_filters_overlap (d_kind_filter D1) (d_kind_filter D2) = true ->
    answers D1 tok = true -> answers D2 tok = false.

(** Names that the registry's fields hold without truncation. *)
Definition fits (decl : cmd_decl_t) : Prop :=
  (forall n, dc_name decl = Some n -> (length n < CMD_NAME_SZ)%nat) /\
  (forall a, dc_abbrev decl = Some a -> (length a < CMD_NAME_SZ)%nat).

Definition same_face (D D' : cmd_def) : Prop :=
  d_name D' = d_name D /\ d_abbrev D' = d_abbrev D /\ d_parent D' = d_parent D /\
  d_kind_filter D' = d_kind_filter D.

Definition fewer (r r' : registry) : Prop :=
  forall x D', defs r' !! x = Some D' -> exists D, defs r !! x = Some D /\ same_face D D'.

#[export] Instance fewer_preorder : PreOrder fewer.
Proof.
  split; [intros r x D H; by exists D|].
  intros a b c H1 H2 x D (D1 & HD1 & S1)%H2. destruct (H1 x D1 HD1) as (D0 & HD0 & S0).
  exists D0. unfold same_face in *. intuition congruence.
Qed.

Lemma fewer_unambiguous r r' : fewer r r' -> unambiguous r -> unambiguous r'.
Proof.
  intros F U c1 c2 D1 D2 tok Hne H1 H2 Hp Hk.
  apply F in H1 as (E1 & H1 & A1 & B1 & C1 & K1). apply F in H2 as (E2 & H2 & A2 & B2 & C2 & K2).
  unfold answers, abbrev_eq. rewrite A1, B1, A2, B2.
  apply (U c1 c2 E1 E2 tok Hne H1 H2); congruence.
Qed.

Lemma pruned_fewer r d out r' : pruned r d out r' -> fewer r r'.
Proof.
  intros H x D' Hx. rewrite (pr_defs _ _ _ _ H) in Hx. case_decide; [done|].
  apply fmap_Some in Hx as (D & Hx & ->). exists D. split; [done|]. by case_bool_decide.
Qed.

Lemma unregister_fewer ready path r : registry_ok r -> fewer r (cmd_unregister_path ready path r).1.1.
Proof.
  intros Hok. unfold cmd_unregister_path. destruct path as [[|c p]|]; [done| |done].
  destruct (negb ready); [done|]. destruct (resolve_parent_path_locked _ _) as [d|]; [|done].
  pose proof (detach_spec r d CMD_UNREG_MAX_SUBTREE Hok) as H.
  destruct (def_detach_subtree_locked _ _ _) as [[out r1]|]; [|done]. destruct H as (_ & _ & H).
  destruct (free_victims out r1). by eapply pruned_fewer.
Qed.

Lemma reclaim_loop_fewer fuel lo hi r total reqs :
  registry_ok r -> fewer r (reclaim_loop fuel lo hi r total reqs).1.1.
Proof.
  revert r total reqs. induction fuel as [|fuel IH]; intros r total reqs Hok; cbn [reclaim_loop]; [done|].
  destruct (def_next_owned_root_locked _ _ _) as [root|]; [|done].
  pose proof (detach_spec r root CMD_UNREG_MAX_SUBTREE Hok) as H.
  destruct (def_detach_subtree_locked _ _ _) as [[out r1]|]; [|done]. destruct H as (_ & _ & H).
  destruct (free_victims out r1) as [r2 more]. etrans; [by eapply pruned_fewer|].
  apply IH. by eapply pruned_ok.
Qed.

Lemma help_ext_fewer name child ext r : fewer r (cmd_set_help_extender name child ext r).1.
Proof.
  unfold cmd_set_help_extender. repeat case_match; try done.
  all: intros x D Hx; cbn [fst defs] in Hx; match type of Hx with alter _ ?d _ !! _ = _ =>
      destruct (decide (d = x)) as [->|Hne] end;
    [rewrite lookup_alter_eq in Hx; apply fmap_Some in Hx as (D0 & Hx & ->)
    |rewrite lookup_alter_ne in Hx by done]; eexists; split; done.
Qed.

(** A lookup key: what [strncasecmp] compares. *)
Definition name_key (a : cstr) : cstr := map tolower (take CMD_NAME_SZ a).

Lemma name_eq_key a b : name_eq a b = true <-> name_key a = name_key b.
Proof. apply seqb_true. Qed.

Lemma kind_filters_overlap_sym a b : kind_filters_overlap a b = kind_filters_overlap b a.
Proof.
  destruct a as [a|], b as [b|]; [|done..]. cbn [kind_filters_overlap].
  apply eq_bool_prop_intro. rewrite !Is_true_true, !existsb_exists.
  assert (S : forall x y, strcaseeq x y = true -> strcaseeq y x = true).
  { intros x y H%seqb_true. by apply seqb_true. }
  split; intros (x & Hx & (y & Hy & H)%existsb_exists); exists y; (split; [done|]);
    apply existsb_exists; exists x; auto.
Qed.

(** The test each existing sibling passed when the new name was registered. *)
Lemma no_collision str parent kf r d D :
  def_name_collides_for_kind_locked str parent kf r = false -> d ∈ cmd_list r ->
  defs r !! d = Some D -> d_parent D = parent -> kind_filters_overlap (d_kind_filter D) kf = true ->
  answers D str = false.
Proof.
  intros H Hd HD Hp Hk. destruct (answers D str) eqn:E; [|done].
  rewrite <- not_true_iff_false in H. destruct H. apply existsb_exists.
  exists d. split; [by apply list_elem_of_In|]. unfold collides_with.
  rewrite HD, bool_decide_true by done. unfold answers in E. by rewrite E, Hk.
Qed.

Lemma answers_key D a b : answers D a = true -> name_key a = name_key b -> answers D b = true.
Proof.
  unfold answers, abbrev_eq. intros H Hk. apply orb_true_iff in H as [H|H]; apply orb_true_iff.
  - left. apply name_eq_key in H. apply name_eq_key. congruence.
  - right. destruct (d_abbrev D); [done|]. apply name_eq_key in H. apply name_eq_key. congruence.
Qed.

(** The definition being registered answers to no word a sibling its kinds see
    answers to. *)
Lemma new_def_distinct decl name group parent D0 pc r d D tok :
  fits decl -> dc_name decl = Some name ->
  reg_check_collisions_locked name (dc_abbrev decl) parent (dc_kind_filter decl) r = true ->
  d ∈ cmd_list r -> defs r !! d = Some D -> d_parent D = parent ->
  kind_filters_overlap (d_kind_filter D) (dc_kind_filter decl) = true ->
  answers (new_def decl name group parent D0 pc) tok = true -> answers D tok = true -> False.
Proof.
  intros [F1 F2] Hn Hc Hd HD Hp Hk HN HDt. specialize (F1 _ Hn). unfold reg_check_collisions_locked in Hc.
  destruct (def_name_collides_for_kind_locked name _ _ _) eqn:Hcn; [done|].
  pose proof (no_collision _ _ _ _ _ _ Hcn Hd HD Hp Hk) as Hno.
  unfold answers in HN. apply orb_true_iff in HN as [HN|HN].
  - apply name_eq_key in HN. cbn [d_name new_def] in HN. unfold strlcpy in HN.
    rewrite take_ge in HN by (unfold CMD_NAME_SZ in *; lia).
    rewrite (answers_key D tok name HDt) in Hno; [discriminate|congruence].
  - unfold abbrev_eq in HN. cbn [d_abbrev new_def] in HN.
    destruct (dc_abbrev decl) as [[|c a]|]; [done| |done]. specialize (F2 _ eq_refl).
    breflect. pose proof (no_collision _ _ _ _ _ _ Hc Hd HD Hp Hk) as Hna. unfold strlcpy in HN.
    rewrite take_ge in HN by (unfold CMD_NAME_SZ in *; lia).
    apply name_eq_key in HN. rewrite (answers_key D tok (c :: a) HDt) in Hna; [discriminate|congruence].
Qed.

Lemma same_face_answers D D' tok : same_face D D' -> answers D' tok = answers D tok.
Proof. intros (S1 & S2 & _). unfold answers, abbrev_eq. by rewrite S1, S2. Qed.

Lemma register_unambiguous decl pc addr r :
  registry_ok r -> fits decl -> addr ∉ cmd_list r -> unambiguous r ->
  unambiguous (cmd_register decl pc addr r).1.1.
Proof.
  intros Hok HF Hfree U.
  destruct (cmd_register_spec decl pc addr r) as [->|(name & group & parent & Hn & Hne & _ & Hc & ->)]; [done|].
  cbn [fst]. set (N := new_def decl name group parent (parent ≫= fun p => defs r !! p) pc).
  assert (L : forall d D', defs (reg_populate_def decl name group parent pc addr r) !! d = Some D' ->
     d <> addr -> exists D, d ∈ cmd_list r /\ defs r !! d = Some D /\ same_face D D').
  { intros d D' HD Hda. rewrite populate_lookup, decide_False in HD by done.
    apply fmap_Some in HD as (D & HD & ->). exists D. split; [|split; [done|by case_bool_decide]].
    apply (ro_defs r Hok). by eexists. }
  assert (LN : forall D, defs (reg_populate_def decl name group parent pc addr r) !! addr = Some D -> D = N).
  { intros D HD. rewrite populate_lookup, decide_True in HD by done. by injection HD. }
  intros c1 c2 D1 D2 tok Hd H1 H2 Hp Hk Ha. apply not_true_iff_false. intros Hb.
  destruct (decide (c1 = addr)) as [->|N1], (decide (c2 = addr)) as [->|N2]; [done| | |].
  - apply LN in H1. subst D1. apply L in H2 as (E2 & He & H2 & S); [|done].
    rewrite (same_face_answers _ _ _ S) in Hb. destruct S as (_ & _ & S3 & S4).
    apply (new_def_distinct decl name group parent (parent ≫= fun p => defs r !! p) pc r c2 E2 tok HF Hn Hc He H2); [by rewrite <- S3, <- Hp| |done|done].
    rewrite <- S4, kind_filters_overlap_sym. exact Hk.
  - apply LN in H2. subst D2. apply L in H1 as (E1 & He & H1 & S); [|done].
    rewrite (same_face_answers _ _ _ S) in Ha. destruct S as (_ & _ & S3 & S4).
    apply (new_def_distinct decl name group parent (parent ≫= fun p => defs r !! p) pc r c1 E1 tok HF Hn Hc He H1); [by rewrite <- S3| |done|done].
    rewrite <- S4. exact Hk.
  - apply L in H1 as (E1 & He1 & H1 & S1); [|done]. apply L in H2 as (E2 & He2 & H2 & S2); [|done].
    rewrite (same_face_answers _ _ _ S1) in Ha. rewrite (same_face_answers _ _ _ S2) in Hb.
    destruct S1 as (_ & _ & S13 & S14), S2 as (_ & _ & S23 & S24).
    rewrite (U c1 c2 E1 E2 tok) in Hb; [discriminate|done..| | |done]; congruence.
Qed.

Lemma reachable_unambiguous r : registry_reachable fits r -> unambiguous r.
Proof.
  intros H. pose proof empty_registry_ok as Hok.
  assert (U : unambiguous empty_registry) by (intros c1 c2 D1 D2 tok _ X; cbn in X; by rewrite lookup_empty in X).
  revert Hok U. induction H as [|a b c Hab _ IH]; [done|]. intros Hok U.
  apply IH; [by eapply registry_step_ok|].
  destruct Hab as [decl pc addr r0 HP Hf|ready path r0|lo hi r0|name child ext r0].
  - by apply register_unambiguous.
  - by eapply fewer_unambiguous; [apply unregister_fewer|].
  - unfold cmd_reclaim_owned. case_match; [done|].
    by eapply fewer_unambiguous; [apply reclaim_loop_fewer|].
  - by eapply fewer_unambiguous; [apply help_ext_fewer|].
Qed.

(** ** Subcommand resolution *)

(** Nothing more can be consumed: the reasons the loop returns for. *)
Definition resolved (r : registry) (d : Z) (args : cstr) : Prop :=
  children_of (defs r) d = [] \/ args = [] \/ def_find_child_locked d (sub_token args) r = None.

Lemma resolve_subcmd_loop_spec fuel d args r :
  registry_ok r -> (idx d (cmd_list r) < fuel)%nat ->
  let '(d', args') := resolve_subcmd_loop fuel d args r in
  below (defs r) d d' /\ resolved r d' args' /\ exists pre, args = pre ++ args'.
Proof.
  intros Hok. revert d args. induction fuel as [|fuel IH]; intros d args Hf; [lia|].
  cbn [resolve_subcmd_loop]. unfold resolved.
  destruct (children_of (defs r) d) as [|c cs] eqn:Ec.
  { split; [apply rtc_refl|]. split; [by left|by exists []]. }
  destruct args as [|a args].
  { split; [apply rtc_refl|]. split; [by right; left|by exists []]. }
  set (tok := sub_token (a :: args)). destruct (def_find_child_locked d tok r) as [child|] eqn:E.
  2:{ split; [apply rtc_refl|]. split; [by right; right|by exists []]. }
  pose proof (def_find_child_elem _ _ _ _ E) as Hc.
  pose proof Hc as Hp. apply (child_iff r Hok), (parent_listed r Hok) in Hp as (_ & _ & Hp).
  specialize (IH child (skip_while is_ws (drop (length tok) (a :: args))) ltac:(lia)).
  destruct (resolve_subcmd_loop _ _ _ _) as [d' args']. destruct IH as (H1 & H2 & pre & H3).
  split; [by eapply rtc_l|]. split; [exact H2|].
  exists (take (length tok) (a :: args) ++ span is_ws (drop (length tok) (a :: args)) ++ pre).
  rewrite <- !app_assoc, <- H3, span_skip. by rewrite take_drop.
Qed.

(** ** Properties *)

(** C2: every registry that registrations, removals and reclaims can produce is
    well formed: the heap holds exactly the listed definitions, each once and
    counted; each parent is older than its children; each child chain is its
    parent's children in list order; no child is visible on a method its parent
    is not; no name is empty or longer than its field. *)
Theorem cmd_registry_invariant (r : registry) (H : registry_reachable (fun _ => True) r) : registry_ok r.
Proof. by eapply reachable_ok. Qed.

Definition sample_decl (name : string) (path : option string) (methods : Z) : cmd_decl_t :=
  {| dc_module := None; dc_name := Some (lit name); dc_usage := None; dc_group := Some (lit "everyone");
     dc_level := 0; dc_scope := CMD_SCOPE_ANY; dc_methods := methods; dc_cb := Some 1; dc_data := 0;
     dc_parent_path := lit <$> path; dc_abbrev := None; dc_args := []; dc_kind_filter := None;
     dc_nl := None; dc_feat := None |}.

Definition register_all (ds : list (cmd_decl_t * Z * Z)) (r : registry) : registry :=
  fold_left (fun r d => (cmd_register d.1.1 d.1.2 d.2 r).1.1) ds r.

(** [show], [show/irc] and [show/irc/networks], the last one from another
    object. *)
Definition sample_registry : registry :=
  register_all [(sample_decl "show" None 6, 100, 1); (sample_decl "irc" (Some "show"%string) METHOD_T_ANY, 100, 2);
                (sample_decl "networks" (Some "show/irc"%string) 3, 200, 3); (sample_decl "help" None METHOD_T_ANY, 200, 4)]
    empty_registry.

Lemma sample_reachable (P : cmd_decl_t -> Prop) :
  (forall n p m, (length (lit n) < 9)%nat -> P (sample_decl n p m)) -> registry_reachable P sample_registry.
Proof.
  intros HP. unfold sample_registry, register_all. cbn [fold_left fst snd].
  do 4 (eapply rtc_r; [|apply rs_register; [apply HP; cbn; lia|by apply (bool_decide_unpack _); vm_compute]]).
  apply rtc_refl.
Qed.

Lemma cmd_registry_invariant_witness :
  cmd_list sample_registry = [4; 3; 2; 1] /\ registry_ok sample_registry.
Proof.
  split; [vm_compute; reflexivity|]. apply cmd_registry_invariant, sample_reachable. done.
Defined.

(** C38: unregistering a path removes and frees, each once, exactly the
    definitions at or below the one it resolves to, and leaves every other
    definition as it was apart from its parent's child chain; a subtree of more
    than 64 definitions is refused and nothing changes. *)
Theorem cmd_unregister_exact (path : cstr) (r : registry) (d : Z) :
  registry_ok r -> resolve_parent_path_locked (Some path) r = Some d ->
  let sub := subtree (collect_fuel r) (defs r) d in
  let '(r', n, _) := cmd_unregister_path true (Some path) r in
  NoDup sub /\ (forall x, x ∈ sub <-> below (defs r) d x) /\
  if (length sub <=? CMD_UNREG_MAX_SUBTREE)%nat then
    n = Z.of_nat (length sub) /\ registry_ok r' /\
    (forall x, x ∈ cmd_list r' <-> x ∈ cmd_list r /\ x ∉ sub) /\
    forall x D, x ∉ sub -> defs r !! x = Some D ->
      defs r' !! x = Some (if bool_decide (parent_of (defs r) d = Some x)
                           then set_children (unlink_child d (d_children D)) D else D)
  else n = 0 /\ r' = r.
Proof.
  intros Hok Hres. cbn zeta. unfold cmd_unregister_path. rewrite Hres.
  pose proof (collect_tall r Hok d) as Ht.
  pose proof (subtree_nodup r Hok _ _ Ht) as Hnd. assert (Hb : forall x, x ∈ subtree (collect_fuel r) (defs r) d <-> below (defs r) d x)
    by (intros; by apply subtree_below).
  pose proof (detach_spec r d CMD_UNREG_MAX_SUBTREE Hok) as H.
  destruct path as [|c path]; [done|]. cbn [negb].
  destruct (def_detach_subtree_locked _ _ _) as [[out r1]|].
  - destruct H as (Heq & Hle & H). rewrite <- Heq in *. destruct (free_victims out r1) as [r2 reqs]. cbn [fst] in H.
    split; [done|]. split; [exact Hb|]. rewrite (proj2 (Nat.leb_le _ _) Hle).
    split; [done|]. split; [by eapply pruned_ok|]. split; [intros x; by eapply pruned_listed|].
    intros x D Hx HD. by rewrite (pr_defs _ _ _ _ H), decide_False, HD.
  - split; [done|]. split; [exact Hb|]. by rewrite (proj2 (Nat.leb_gt _ _) H).
Qed.

Lemma cmd_unregister_exact_witness :
  let '(r', n, _) := cmd_unregister_path true (Some (lit "SHOW/irc")) sample_registry in
  n = 2 /\ (1 ∈ cmd_list r' <-> 1 ∈ cmd_list sample_registry /\ 1 ∉ [3; 2]).
Proof.
  pose proof (cmd_unregister_exact (lit "SHOW/irc") sample_registry 2) as T.
  destruct (cmd_unregister_path _ _ _) as [[r' n] q].
  destruct T as (_ & _ & T); [apply (reachable_ok (fun _ => True)), sample_reachable; done|vm_compute; reflexivity|].
  assert (E : subtree (collect_fuel sample_registry) (defs sample_registry) 2 = [3; 2]) by (vm_compute; reflexivity).
  rewrite E in T. destruct T as (Hn & _ & T & _). split; [exact Hn|apply T].
Defined.

(** reclaiming an object's address range ends, keeps the registry well
    formed, takes only definitions at or below one of the object's, and leaves
    none of the object's definitions behind unless one of them heads a subtree
    too large to detach. *)
Theorem cmd_reclaim_complete (lo hi : Z) (r : registry) :
  registry_ok r -> lo < hi ->
  registry_ok (cmd_reclaim_owned lo hi r).1.1 /\ reclaimed lo hi r (cmd_reclaim_owned lo hi r).1.1.
Proof.
  intros Hok Hlt. unfold cmd_reclaim_owned. rewrite (proj2 (Z.leb_gt _ _) Hlt).
  apply reclaim_loop_spec; [done|lia].
Qed.

(** The plugin at 100..199 owned [show] and [show/irc]; the foreign
    [show/irc/networks] goes with them. *)
Lemma cmd_reclaim_complete_witness :
  cmd_list (cmd_reclaim_owned 100 200 sample_registry).1.1 = [4] /\
  reclaimed 100 200 sample_registry (cmd_reclaim_owned 100 200 sample_registry).1.1.
Proof.
  split; [vm_compute; reflexivity|]. apply (cmd_reclaim_complete 100 200 sample_registry); [|lia].
  apply (reachable_ok (fun _ => True)), sample_reachable. done.
Defined.

(** as long as registered names fit their fields, no word names two
    siblings that one bot kind can see, by name or abbreviation, whatever was
    registered and removed in whatever order. *)
Theorem cmd_siblings_unambiguous (r : registry) (H : registry_reachable fits r) : unambiguous r.
Proof. by apply reachable_unambiguous. Qed.

Lemma cmd_siblings_unambiguous_witness : unambiguous sample_registry.
Proof.
  apply cmd_siblings_unambiguous, sample_reachable. intros n p m Hn.
  split; intros a Ha; [|discriminate Ha]. injection Ha as <-. unfold CMD_NAME_SZ. lia.
Defined.

(** A root definition whose stored name is a strict prefix does not collide. *)
Lemma truncated_no_collision decl name group pc addr r kf :
  (CMD_NAME_SZ <= length name)%nat -> dc_abbrev decl = None ->
  collides_with (defs (reg_populate_def decl name group None pc addr r)) name None kf addr = false.
Proof.
  intros Hl Ha. unfold collides_with. rewrite populate_lookup, decide_True by done.
  rewrite bool_decide_true by done.
  assert (E : name_eq (strlcpy CMD_NAME_SZ name) name = false).
  { apply not_true_iff_false. intros H%name_eq_key. apply (f_equal length) in H. unfold name_key, strlcpy in H.
    rewrite !length_map, !length_take in H. unfold CMD_NAME_SZ in *. lia. }
  cbn [d_name d_kind_filter new_def]. rewrite E. unfold abbrev_eq. cbn [d_abbrev new_def]. by rewrite Ha.
Qed.

(** the collision check compares the declared name with the 31 characters
    the field holds, so a longer name registers again at the root, every copy
    answering to the same word. *)
Theorem cmd_register_long_twins (decl : cmd_decl_t) (name : cstr) (r : registry) (pc a1 a2 : Z) :
  dc_name decl = Some name -> (CMD_NAME_SZ <= length name)%nat ->
  dc_abbrev decl = None -> dc_parent_path decl = None ->
  a1 <> a2 -> a1 ∉ cmd_list r -> a2 ∉ cmd_list r ->
  (cmd_register decl pc a1 r).1.2 = true ->
  let '(r2, ok, _) := cmd_register decl pc a2 (cmd_register decl pc a1 r).1.1 in
  ok = true /\ exists D1 D2, defs r2 !! a1 = Some D1 /\ defs r2 !! a2 = Some D2 /\
    d_name D1 = d_name D2 /\ d_parent D1 = d_parent D2 /\ d_kind_filter D1 = d_kind_filter D2.
Proof.
  intros Hn Hl Ha Hp Hne Hf1 Hf2. unfold cmd_register at 1 3. unfold cmd_register. rewrite Hn, Hp, Ha.
  destruct name as [|c name]; [done|]. destruct (dc_cb decl), (dc_group decl) as [[|g group]|]; try done.
  destruct (negb (reg_validate_args _)); [done|]. destruct (negb (nl_ok _)); [done|].
  destruct (negb (feat_ok _)); [done|]. cbn [andb].
  unfold reg_check_collisions_locked. destruct (def_name_collides_for_kind_locked _ _ _ r) eqn:E; [done|].
  intros _. cbn [negb fst].
  match goal with |- context [def_name_collides_for_kind_locked _ _ _ ?x] => set (r1 := x) end.
  assert (E' : def_name_collides_for_kind_locked (c :: name) None (dc_kind_filter decl) r1 = false).
  { unfold def_name_collides_for_kind_locked in *. change (cmd_list r1) with (a1 :: cmd_list r).
    cbn [existsb]. subst r1. rewrite truncated_no_collision by done. cbn [orb].
    rewrite <- not_true_iff_false, existsb_exists in E |- *. intros (x & Hx & Hc). apply E.
    exists x. split; [done|]. unfold collides_with in *. rewrite populate_lookup in Hc.
    rewrite decide_False in Hc by (intros ->; by apply Hf1, list_elem_of_In).
    destruct (defs r !! x); [|done]. exact Hc. }
  rewrite E'. cbn [negb]. cbv beta iota. split; [done|].
  set (r2 := reg_populate_def _ _ _ None pc a2 r1). do 2 eexists.
  split; [unfold r2; rewrite populate_lookup, decide_False by done; unfold r1;
          rewrite populate_lookup, decide_True by done; reflexivity|].
  split; [unfold r2; rewrite populate_lookup, decide_True by done; reflexivity|]. done.
Qed.

Lemma cmd_register_long_twins_witness :
  let d := sample_decl "a-command-name-of-over-31-characters" None 1 in
  (cmd_register d 100 2 (cmd_register d 100 1 empty_registry).1.1).1.2 = true.
Proof.
  cbn zeta. pose proof (cmd_register_long_twins (sample_decl "a-command-name-of-over-31-characters" None 1) _ empty_registry 100 1 2 eq_refl) as T.
  destruct (cmd_register _ 100 2 _) as [[r2 ok] q].
  apply T; [unfold CMD_NAME_SZ; cbn; lia|reflexivity|reflexivity|lia|apply not_elem_of_nil|apply not_elem_of_nil|vm_compute; reflexivity].
Defined.

(** subcommand resolution ends at a definition under the one it started
    from, with what is left of the arguments, because that definition has no
    children, the arguments are used up, or no child answers to the next
    word. *)
Theorem resolve_subcmd_complete (d : Z) (args : cstr) (r : registry) (H : registry_ok r) :
  let '(d', args') := resolve_subcmd_locked d args r in
  below (defs r) d d' /\ resolved r d' args' /\ exists pre, args = pre ++ args'.
Proof.
  unfold resolve_subcmd_locked. apply resolve_subcmd_loop_spec; [done|].
  pose proof (idx_bound d (cmd_list r)). unfold collect_fuel. lia.
Qed.

Lemma resolve_subcmd_complete_witness :
  let '(d', args') := resolve_subcmd_locked 1 (lit "irc NETWORKS  all") sample_registry in
  (d' = 3) /\ args' = lit "all" /\ resolved sample_registry d' args'.
Proof.
  pose proof (resolve_subcmd_complete 1 (lit "irc NETWORKS  all") sample_registry) as T.
  destruct (resolve_subcmd_locked _ _ _) as [d' args'] eqn:E. vm_compute in E. injection E as <- <-.
  split; [reflexivity|]. split; [reflexivity|]. apply T.
  apply (reachable_ok (fun _ => True)), sample_reachable. done.
Defined.
