(* ===== verification/CmdDispatch.v ===== *)
(** * Command dispatch: core/cmd.c, prefixes, permissions, cmd_dispatch and
    cmd_dispatch_as, reply sinks and in-flight accounting

    What the dispatcher asks of the rest of the program (who the sender is, what
    level a user holds in a group, which method the message came by) arrives as
    data; what it does to the rest comes back as a list of effects in order. *)

From S2P Require Import Prelude CmdArgs Task CmdTree.

(** ** Data *)

Definition CMD_PREFIX_SZ : nat := 8.
Definition METHOD_TEXT_SZ : nat := 2048.
Definition USERNS_USER_SZ : nat := 31.
Definition METHOD_SENDER_SZ : nat := 128.
Definition METHOD_ROUTE_SZ : nat := 32.
Definition USERNS_GROUP_EVERYONE : cstr := lit "everyone".
Definition USERNS_GROUP_ADMIN : cstr := lit "admin".
Definition USERNS_OWNER_USER : cstr := lit "@owner".
Definition METHOD_T_BOTMANCTL : Z := 2.

(** [userns_member_level]: a level, or -1. *)
Notation userns := (cstr -> cstr -> Z).

(** What the core knows of a method instance: [method_inst_type], and the
    prefix [kv_get_bot_method_str] holds for the bot on it. *)
Record method_inst := { mi_type : Z; mi_prefix : option cstr }.

Record method_msg := {
  m_inst : option method_inst;
  m_sender : cstr;
  m_channel : cstr;
  m_text : cstr;
  m_reply_route : cstr
}.

Record cmd_set := { s_inst : Z; s_prefix : cstr }.

Record cmd_state := mk_cmd_state {
  reg : registry;
  cmd_sets : list cmd_set;
  cmd_set_freelist : list cmd_set;
  cmd_stat_dispatches : Z;
  cmd_stat_denials : Z
}.

Record cmd_task_data := {
  td_cb : option Z;
  td_cb_data : Z;
  td_args : cstr;
  td_username : cstr;
  td_usage : option cstr;
  td_arg_desc : list cmd_arg_desc_t;
  td_feat : option cmd_feat_t;
  td_name : cstr;
  td_inst : option method_inst
}.

Inductive effect :=
  | Send (target text : cstr)
  | Submit (td : cmd_task_data) (task : task_t)
  | CountBotCommand
  | RunHelp (cb : Z) (path : cstr) (username : option cstr)
  | Refuse (r : refusal)
  | RunCommand (cb : Z) (args : cstr) (argv : option (list cstr)) (username : option cstr) (creds : bool).

(** ** Per-bot prefixes *)

(** A recycled node is cleared, so it carries nothing over. *)
Definition set_get (fl : list cmd_set) (inst : Z) : cmd_set * list cmd_set :=
  ({| s_inst := inst; s_prefix := lit "!" |}, match fl with [] => [] | _ :: fl' => fl' end).

Definition set_put (s : cmd_set) (fl : list cmd_set) : list cmd_set := s :: fl.

Definition set_find_locked (inst : Z) (sets : list cmd_set) : option cmd_set :=
  List.find (fun s => s_inst s =? inst) sets.

Definition set_ensure_locked (inst : Z) (sets fl : list cmd_set) : list cmd_set * list cmd_set :=
  match set_find_locked inst sets with
  | Some _ => (sets, fl)
  | None => let '(s, fl) := set_get fl inst in (s :: sets, fl)
  end.

(** Writes through the pointer [set_ensure_locked] returned: the first set of
    the instance. *)
Fixpoint set_write (inst : Z) (p : cstr) (sets : list cmd_set) : list cmd_set :=
  match sets with
  | [] => []
  | s :: ss => if s_inst s =? inst then {| s_inst := inst; s_prefix := p |} :: ss else s :: set_write inst p ss
  end.

Definition with_sets (sets fl : list cmd_set) (st : cmd_state) : cmd_state :=
  mk_cmd_state (reg st) sets fl (cmd_stat_dispatches st) (cmd_stat_denials st).

Definition cmd_set_prefix (inst : option Z) (prefix : option cstr) (st : cmd_state) : cmd_state * bool :=
  match inst, prefix with
  | None, _ | _, None | _, Some [] => (st, false)
  | Some i, Some p =>
      if (CMD_PREFIX_SZ <=? length p)%nat then (st, false)
      else
        let '(sets, fl) := set_ensure_locked i (cmd_sets st) (cmd_set_freelist st) in
        (with_sets (set_write i (strlcpy CMD_PREFIX_SZ p) sets) fl st, true)
  end.

Definition set_prefix_of (inst : Z) (st : cmd_state) : cstr :=
  match set_find_locked inst (cmd_sets st) with Some s => s_prefix s | None => lit "!" end.

Definition cmd_get_prefix (inst : option Z) (st : cmd_state) : cstr :=
  match inst with None => lit "!" | Some i => set_prefix_of i st end.

Fixpoint set_unlink (inst : Z) (sets : list cmd_set) : option (cmd_set * list cmd_set) :=
  match sets with
  | [] => None
  | s :: ss =>
      if s_inst s =? inst then Some (s, ss)
      else match set_unlink inst ss with Some (x, ss') => Some (x, s :: ss') | None => None end
  end.

Definition cmd_bot_cleanup (inst : option Z) (st : cmd_state) : cmd_state :=
  match inst with
  | None => st
  | Some i =>
      match set_unlink i (cmd_sets st) with
      | None => st
      | Some (s, sets) => with_sets sets (set_put s (cmd_set_freelist st)) st
      end
  end.

(** ** Permissions *)

(** The level is a non-negative int32_t cut to 16 bits. *)
Definition check_permission (ns : option userns) (username : option cstr) (req_group : cstr) (req_level : Z) : bool :=
  match username with
  | None => seqb req_group USERNS_GROUP_EVERYONE && (req_level =? 0)
  | Some u =>
      if seqb u USERNS_OWNER_USER then true
      else match ns with
           | None => false
           | Some level =>
               let ulevel := level u req_group in
               (0 <=? ulevel) && (req_level <=? wrap 16 ulevel)
           end
  end.

Definition method_inst_type (inst : option method_inst) : Z :=
  match inst with Some i => mi_type i | None => 0 end.

Definition method_visible (D : cmd_def) (inst_type : Z) : bool :=
  (inst_type =? 0) || negb (Z.land (d_methods D) inst_type =? 0).

Definition is_public (msg : method_msg) : bool := match m_channel msg with [] => false | _ => true end.

Definition is_some {A} (o : option A) : bool := match o with Some _ => true | None => false end.

(** What the bot answers when asked about the sender: the identity, the bot's
    namespace. *)
Record caller := { c_username : option cstr; c_userns : option userns }.

Definition caller_ns (c : caller) : option userns :=
  match c_username c with Some _ => c_userns c | None => None end.

Definition cmd_permits (inst : option Z) (msg : option method_msg) (def : option cmd_def) (c : caller) : bool :=
  match inst, msg, def with
  | Some _, Some msg, Some D =>
      if negb (method_visible D (method_inst_type (m_inst msg))) then false
      else if negb (bool_decide (d_scope D = CMD_SCOPE_ANY)) && is_some (m_inst msg)
              && (bool_decide (d_scope D = CMD_SCOPE_PRIVATE) && is_public msg
                  || bool_decide (d_scope D = CMD_SCOPE_PUBLIC) && negb (is_public msg)) then false
      else check_permission (caller_ns c) (c_username c) (d_group D) (d_level D)
  | _, _, _ => false
  end.

(** ** Help redirection *)

Definition help_path_locked (d : Z) (sz : nat) (r : registry) : cstr :=
  map (fun c => if ceqb c "/" then " "%char else c) (def_path_locked d sz r).

Definition help_redirect (path : cstr) (username : option cstr) (r : registry) : bool * list effect :=
  match def_find_locked (lit "help") r ≫= fun d => defs r !! d with
  | Some D =>
      match d_cb D with
      | Some cb => (true, [RunHelp cb path username])
      | None => (false, [])
      end
  | None => (false, [])
  end.

(** ** Dispatch *)

Definition dispatch_prefix (inst : Z) (msg : method_msg) (st : cmd_state) : cstr :=
  let kv_prefix := m_inst msg ≫= mi_prefix in
  match kv_prefix with
  | Some (c :: p) => c :: p
  | _ => set_prefix_of inst st
  end.

(** The command word and its arguments, when the text opens with the prefix. *)
Definition dispatch_parse (prefix text : cstr) : option (cstr * cstr) :=
  if negb (strneq (length prefix) text prefix) then None
  else
    let start := drop (length prefix) text in
    match start with
    | [] => None
    | c :: _ =>
        if is_ws c then None
        else
          let cmd_name := sub_token start in
          Some (cmd_name, skip_while is_ws (drop (length cmd_name) start))
    end.

(** The root definition for the word, and from there the subcommand. *)
Definition dispatch_resolve (cmd_name args : cstr) (r : registry) : option (Z * cstr) :=
  match def_find_locked cmd_name r with
  | None => None
  | Some d =>
      match parent_of (defs r) d with
      | Some _ => None
      | None => Some (resolve_subcmd_locked d args r)
      end
  end.

Definition count_dispatch (st : cmd_state) : cmd_state :=
  mk_cmd_state (reg st) (cmd_sets st) (cmd_set_freelist st) (wrap 64 (cmd_stat_dispatches st + 1)) (cmd_stat_denials st).

Definition count_denial (st : cmd_state) : cmd_state :=
  mk_cmd_state (reg st) (cmd_sets st) (cmd_set_freelist st) (cmd_stat_dispatches st) (wrap 64 (cmd_stat_denials st + 1)).

(** The scope gate's denial: where the reply goes and what it says. *)
Definition scope_denial (D : cmd_def) (msg : method_msg) : option (cstr * cstr) :=
  if bool_decide (d_scope D = CMD_SCOPE_ANY) || negb (is_some (m_inst msg)) then None
  else if bool_decide (d_scope D = CMD_SCOPE_PRIVATE) && is_public msg then
    Some (m_channel msg, lit "This command can only be used in private messages.")
  else if bool_decide (d_scope D = CMD_SCOPE_PUBLIC) && negb (is_public msg) then
    Some (m_sender msg, lit "This command can only be used in public channels.")
  else None.

Definition permission_denial (msg : method_msg) : list effect :=
  if is_some (m_inst msg) then
    [Send (if is_public msg then m_channel msg else m_sender msg) (lit "Permission denied.")]
  else [].

Definition set_lane (lane : task_lane_t) (t : task_t) : task_t :=
  mk_task (t_name t) (t_type t) (t_kind t) lane (t_priority t) (t_state t) (t_sleep_until t)
    (t_interval_ms t) (t_link t) (t_id t) (t_cancelled t) (t_created t) (t_last_run t) (t_run_count t).

(** [task_create], the lane, [task_submit]. *)
Definition submit_command (td : cmd_task_data) (task_name : cstr) (now1 now2 : Z) (s : sched)
    : sched * list effect :=
  let '(t, s) := task_create task_name TASK_THREAD 128 now1 s in
  let t := set_lane TASK_INTERACTIVE t in
  (task_submit now2 t s, [Submit td t; CountBotCommand]).

Definition task_data (D : cmd_def) (msg : method_msg) (args name : cstr) (username : option cstr) : cmd_task_data :=
  {| td_cb := d_cb D; td_cb_data := d_data D;
     td_args := strlcpy METHOD_TEXT_SZ args;
     td_username := match username with Some u => take (USERNS_USER_SZ - 1) u | None => [] end;
     td_usage := d_usage D; td_arg_desc := d_args D; td_feat := d_feat D;
     td_name := strlcpy CMD_NAME_SZ name; td_inst := m_inst msg |}.

(** The gates after resolution, for a request that is not a help request. *)
Definition dispatch_gated (D : cmd_def) (msg : method_msg) (cmd_name args : cstr) (c : caller) (now1 now2 : Z)
    (st : cmd_state) (s : sched) : cmd_state * sched * bool * list effect :=
  if negb (method_visible D (method_inst_type (m_inst msg))) then (st, s, false, [])
  else match scope_denial D msg with
       | Some (target, text) => (count_denial st, s, false, [Send target text])
       | None =>
           if negb (check_permission (caller_ns c) (c_username c) (d_group D) (d_level D))
           then (count_denial st, s, false, permission_denial msg)
           else
             let '(s, effs) := submit_command (task_data D msg args cmd_name (c_username c))
                                 (lit "cmd:" ++ cmd_name) now1 now2 s in
             (count_dispatch st, s, true, effs)
       end.

Definition cmd_dispatch (inst : option Z) (msg : option method_msg) (c : caller) (now1 now2 : Z)
    (st : cmd_state) (s : sched) : cmd_state * sched * bool * list effect :=
  match inst, msg with
  | Some i, Some m =>
      match m_text m with
      | [] => (st, s, false, [])
      | text =>
          match dispatch_parse (dispatch_prefix i m st) text with
          | None => (st, s, false, [])
          | Some (cmd_name, args) =>
              match dispatch_resolve cmd_name args (reg st) with
              | None => (st, s, false, [])
              | Some (d, args) =>
                  if args_ask_for_help (Some args) then
                    let '(ok, effs) := help_redirect (help_path_locked d CMD_USAGE_SZ (reg st)) (c_username c) (reg st) in
                    if ok then (count_dispatch st, s, true, effs ++ [CountBotCommand]) else (st, s, false, [])
                  else match defs (reg st) !! d with
                       | None => (st, s, false, [])
                       | Some D => dispatch_gated D m cmd_name args c now1 now2 st s
                       end
              end
          end
      end
  | _, _ => (st, s, false, [])
  end.

(** ** Running a command *)

Definition userns_member_check (level : userns) (username group : cstr) : bool := 0 <=? level username group.

Definition cmd_caller_is_admin (bot : option Z) (ns : option userns) (username : option cstr) : bool :=
  match bot, username with
  | None, _ | _, None | _, Some [] => false
  | Some _, Some u =>
      match ns with
      | None => false
      | Some level => userns_member_check level u USERNS_GROUP_ADMIN
      end
  end.

Definition cmd_creds_visible (inst : option method_inst) (admin : bool) : bool :=
  admin && is_some inst && (method_inst_type inst =? METHOD_T_BOTMANCTL).

Definition opt_text (u : cstr) : option cstr := match u with [] => None | _ => Some u end.

(** The parse, then the callback inside the credential window. *)
Definition run_parsed (cb : Z) (args : cstr) (desc : list cmd_arg_desc_t) (usage : option cstr)
    (username : option cstr) (creds : bool) : list effect :=
  match desc with
  | [] => [RunCommand cb args None username creds]
  | _ :: _ =>
      match cmd_parse_args args desc (match usage with Some u => u | None => [] end) with
      | Refused _ r => [Refuse r]
      | Parsed argv => [RunCommand cb args (Some argv) username creds]
      end
  end.

Definition cmd_task_cb (d : cmd_task_data) (bot : option Z) (ns : option userns) : list effect :=
  match td_cb d with
  | None => []
  | Some cb =>
      let uname := opt_text (td_username d) in
      run_parsed cb (td_args d) (td_arg_desc d) (td_usage d) uname
        (cmd_creds_visible (td_inst d) (cmd_caller_is_admin bot ns uname))
  end.

(** The synthetic message of an asserted identity. *)
Definition as_message (inst : method_inst) (username : option cstr) (reply_route : option cstr) : method_msg :=
  {| m_inst := Some inst;
     m_sender := strlcpy METHOD_SENDER_SZ (match username with Some u => u | None => lit "(anon)" end);
     m_channel := []; m_text := [];
     m_reply_route := match reply_route with Some rr => strlcpy METHOD_ROUTE_SZ rr | None => [] end |}.

Definition as_admin (ns : option userns) (username : option cstr) : bool :=
  match ns, username with
  | Some level, Some (c :: u) => userns_member_check level (c :: u) USERNS_GROUP_ADMIN
  | _, _ => false
  end.

Definition cmd_dispatch_as (cmd_name args : option cstr) (inst : option method_inst) (ns : option userns)
    (username reply_route : option cstr) (st : cmd_state) : cmd_state * bool * list effect :=
  match cmd_name, inst with
  | None, _ | Some [], _ | _, None => (st, false, [])
  | Some name, Some mi =>
      match dispatch_resolve name (match args with Some a => a | None => [] end) (reg st) with
      | None => (st, false, [])
      | Some (d, args) =>
          match defs (reg st) !! d with
          | None => (st, false, [])
          | Some D =>
              let want_help := args_ask_for_help (Some args) in
              if negb (method_visible D (mi_type mi)) then (st, false, [])
              else
                let msg := as_message mi username reply_route in
                if want_help then
                  let '(ok, effs) := help_redirect (help_path_locked d CMD_USAGE_SZ (reg st)) username (reg st) in
                  if ok then (count_dispatch st, true, effs) else (st, false, [])
                else if negb (check_permission ns username (d_group D) (d_level D)) then
                  (count_denial st, true,
                   [Send (match m_reply_route msg with [] => m_sender msg | rr => rr end) (lit "Permission denied.")])
                else
                  match d_cb D with
                  | None => (st, true, [])
                  | Some cb =>
                      let effs := run_parsed cb args (d_args D) (d_usage D) username
                                    (cmd_creds_visible (Some mi) (as_admin ns username)) in
                      (match effs with [Refuse _] => st | _ => count_dispatch st end, true, effs)
                  end
          end
      end
  end.

Definition cmd_dispatch_resolved (inst : option Z) (msg : option method_msg) (def : option cmd_def) (args : option cstr)
    (c : caller) (now1 now2 : Z) (st : cmd_state) (s : sched) : cmd_state * sched * bool * list effect :=
  match inst, msg, def with
  | Some _, Some m, Some D =>
      match d_cb D with
      | None => (st, s, false, [])
      | Some _ =>
          let '(s, effs) := submit_command
            (task_data D m (match args with Some a => a | None => [] end) (d_name D) (c_username c))
            (strlcpy (CMD_NAME_SZ + 8) (lit "cmd:" ++ d_name D)) now1 now2 s in
          (count_dispatch st, s, true, effs)
      end
  | _, _, _ => (st, s, false, [])
  end.

(** ** Reply sinks *)

Record cmd_sink := { k_id : Z; k_fn : Z; k_data : Z }.

(** The registry of sinks and the next id. *)
Definition cmd_sink_register (fn : option Z) (data : Z) (sinks : list cmd_sink) (next : Z)
    : list cmd_sink * Z * Z :=
  match fn with
  | None => (sinks, next, 0)
  | Some f => ({| k_id := next; k_fn := f; k_data := data |} :: sinks, wrap 64 (next + 1), next)
  end.

Fixpoint sink_unlink (id : Z) (sinks : list cmd_sink) : list cmd_sink :=
  match sinks with
  | [] => []
  | k :: ks => if k_id k =? id then ks else k :: sink_unlink id ks
  end.

Definition cmd_sink_unregister (cmd_ready : bool) (id : Z) (sinks : list cmd_sink) : list cmd_sink :=
  if id =? 0 then sinks else if negb cmd_ready then sinks else sink_unlink id sinks.

(** The sink whose callback is run, if any; the C returns whether there is
    one. *)
Definition cmd_sink_deliver (id : Z) (line : option cstr) (sinks : list cmd_sink) : option cmd_sink :=
  match line with
  | None => None
  | Some _ => if id =? 0 then None else List.find (fun k => k_id k =? id) sinks
  end.

(** Where one reply line goes. *)
Inductive reply_route :=
  | ReplyFail
  | ReplySink (k : cmd_sink)
  | ReplyWire (target : cstr).

(** [inst_name] and [reply_sink_id] are the message's; [found] is whether
    [method_find] still knows the name. *)
Definition cmd_reply (inst_name : cstr) (reply_sink_id : Z) (found : bool) (msg : method_msg) (text : option cstr)
    (sinks : list cmd_sink) : reply_route :=
  match text, inst_name with
  | None, _ | _, [] => ReplyFail
  | Some _, _ :: _ =>
      match (if reply_sink_id =? 0 then None else cmd_sink_deliver reply_sink_id text sinks) with
      | Some k => ReplySink k
      | None =>
          if negb found then ReplyFail
          else ReplyWire (match m_reply_route msg, m_channel msg with
                          | _ :: _, _ => m_reply_route msg
                          | [], _ :: _ => m_channel msg
                          | [], [] => m_sender msg
                          end)
      end
  end.

(** ** In-flight accounting *)

Record cmd_inflight := { if_node : Z; if_cb : Z; if_name : cstr }.

Definition cmd_inflight_enter (node cb : Z) (name : option cstr) (l : list cmd_inflight) : list cmd_inflight :=
  {| if_node := node; if_cb := cb;
     if_name := strlcpy CMD_NAME_SZ (match name with Some n => n | None => lit "(unnamed)" end) |} :: l.

Fixpoint cmd_inflight_leave (node : Z) (l : list cmd_inflight) : list cmd_inflight :=
  match l with
  | [] => []
  | c :: l' => if if_node c =? node then l' else c :: cmd_inflight_leave node l'
  end.

(** The number of handlers inside [lo,hi) and the name of the newest. *)
Definition cmd_inflight_owned (lo hi : Z) (l : list cmd_inflight) : nat * cstr :=
  if hi <=? lo then (0%nat, [])
  else
    let inside := List.filter (fun c => (lo <=? if_cb c) && (if_cb c <? hi)) l in
    (length inside, match inside with c :: _ => if_name c | [] => [] end).

(** ** Lemmas *)

(** The scope gate with its replies is the scope gate of [cmd_permits]. *)
Lemma scope_denial_blocks D msg :
  negb (bool_decide (d_scope D = CMD_SCOPE_ANY)) && is_some (m_inst msg)
    && (bool_decide (d_scope D = CMD_SCOPE_PRIVATE) && is_public msg
        || bool_decide (d_scope D = CMD_SCOPE_PUBLIC) && negb (is_public msg))
  = is_some (scope_denial D msg).
Proof. unfold scope_denial. by destruct (m_inst msg), (d_scope D), (is_public msg). Qed.

(** The dispatcher's gates, together, are [cmd_permits]. *)
Lemma dispatch_gated_spec D msg name args c now1 now2 st s i :
  let '(st', s', ok, effs) := dispatch_gated D msg name args c now1 now2 st s in
  ok = cmd_permits (Some i) (Some msg) (Some D) c /\
  if ok then
    let '(t, s1) := task_create (lit "cmd:" ++ name) TASK_THREAD 128 now1 s in
    st' = count_dispatch st /\ s' = task_submit now2 (set_lane TASK_INTERACTIVE t) s1 /\
    effs = [Submit (task_data D msg args name (c_username c)) (set_lane TASK_INTERACTIVE t); CountBotCommand]
  else s' = s /\ (effs = [] \/ exists target text, effs = [Send target text]).
Proof.
  unfold dispatch_gated, cmd_permits. rewrite scope_denial_blocks.
  destruct (negb (method_visible _ _)); [by auto|].
  destruct (scope_denial D msg) as [[target text]|]; cbn [is_some]; [eauto 6|].
  destruct (check_permission _ _ _ _); cbn [negb].
  - unfold submit_command. destruct (task_create _ _ _ _ _) as [t s1]. auto.
  - unfold permission_denial. destruct (is_some _); eauto 6.
Qed.

(** A task enters the dispatcher's output only through the gates. *)
Lemma help_redirect_submits path u r td t : Submit td t ∉ (help_redirect path u r).2.
Proof.
  unfold help_redirect. destruct (_ ≫= _) as [D|]; [|by apply not_elem_of_nil].
  destruct (d_cb D); [|by apply not_elem_of_nil].
  intros [H|H]%elem_of_cons; [discriminate|by apply elem_of_nil in H].
Qed.

Lemma cmd_dispatch_cases i m c now1 now2 st s :
  m_text m <> [] ->
  (exists name args d args' D,
    dispatch_parse (dispatch_prefix i m st) (m_text m) = Some (name, args) /\
    dispatch_resolve name args (reg st) = Some (d, args') /\
    args_ask_for_help (Some args') = false /\ defs (reg st) !! d = Some D /\
    cmd_dispatch (Some i) (Some m) c now1 now2 st s = dispatch_gated D m name args' c now1 now2 st s) \/
  (forall td t, Submit td t ∉ (cmd_dispatch (Some i) (Some m) c now1 now2 st s).2).
Proof.
  intros Ht. unfold cmd_dispatch. destruct (m_text m) as [|x text] eqn:E; [done|].
  destruct (dispatch_parse _ _) as [[name args]|] eqn:Ep; [|right; intros; apply not_elem_of_nil].
  destruct (dispatch_resolve _ _ _) as [[d args']|] eqn:Er; [|right; intros; apply not_elem_of_nil].
  destruct (args_ask_for_help _) eqn:Eh.
  - right. intros td t. pose proof (help_redirect_submits (help_path_locked d CMD_USAGE_SZ (reg st)) (c_username c) (reg st) td t) as Hh.
    destruct (help_redirect _ _ _) as [[] effs]; cbn [snd] in *; [|by apply not_elem_of_nil].
    intros [H|H%list_elem_of_singleton]%elem_of_app; [done|discriminate].
  - destruct (defs (reg st) !! d) as [D|] eqn:Ed; [|right; intros; apply not_elem_of_nil].
    left. exists name, args, d, args', D. split_and!; done.
Qed.

Lemma sched_ok_next n s : sched_ok s -> sched_ok (mk_sched (ready_head s) (timer_head s) (running_head s) (stats s) n).
Proof. intros []. by split. Qed.

Lemma task_create_ok name type prio now s : sched_ok s -> sched_ok (task_create name type prio now s).2.
Proof. unfold task_create. destruct (task_alloc_id_locked _). apply sched_ok_next. Qed.

(** ** Properties *)

(** C33: whatever the message, the state and the sender, cmd_dispatch hands a
    task to the workers only for a definition that cmd_permits accepts for that
    sender and that message, with the sender's resolved identity on it; the
    scheduler stays well formed. *)
Theorem cmd_dispatch_safe (i : Z) (m : method_msg) (c : caller) (now1 now2 : Z) (st : cmd_state) (s : sched)
    (td : cmd_task_data) (t : task_t) :
  sched_ok s ->
  let '(st', s', ok, effs) := cmd_dispatch (Some i) (Some m) c now1 now2 st s in
  sched_ok s' /\
  (Submit td t ∈ effs ->
   ok = true /\ t_lane t = TASK_INTERACTIVE /\
   exists d D, defs (reg st) !! d = Some D /\ td_cb td = d_cb D /\ td_arg_desc td = d_args D /\
     td_username td = match c_username c with Some u => take (USERNS_USER_SZ - 1) u | None => [] end /\
     cmd_permits (Some i) (Some m) (Some D) c = true).
Proof.
  intros Hs.
  assert (Hok : forall st' s' ok effs, cmd_dispatch (Some i) (Some m) c now1 now2 st s = (st', s', ok, effs) -> sched_ok s').
  { intros st' s' ok effs. unfold cmd_dispatch. destruct (m_text m); [by intros [= <- <- <- <-]|].
    destruct (dispatch_parse _ _) as [[name args]|]; [|by intros [= <- <- <- <-]].
    destruct (dispatch_resolve _ _ _) as [[d args']|]; [|by intros [= <- <- <- <-]].
    destruct (args_ask_for_help _).
    { by destruct (help_redirect _ _ _) as [[] ?]; intros [= <- <- <- <-]. }
    destruct (_ !! d) as [D|]; [|by intros [= <- <- <- <-]]. intros E.
    pose proof (dispatch_gated_spec D m name args' c now1 now2 st s i) as G. rewrite E in G.
    pose proof (task_create_ok (lit "cmd:" ++ name) TASK_THREAD 128 now1 s Hs) as Hc.
    destruct G as [_ G], ok; [|by destruct G as [-> _]].
    destruct (task_create _ _ _ _ _) as [t1 s1]. destruct G as (_ & -> & _). by apply task_submit_ok. }
  destruct (m_text m) as [|x text] eqn:Et.
  { unfold cmd_dispatch. rewrite Et. split; [done|]. by intros ?%elem_of_nil. }
  destruct (cmd_dispatch_cases i m c now1 now2 st s) as [H|H]; [congruence| |].
  - destruct H as (name & args & d & args' & D & _ & _ & _ & Ed & E). rewrite E in Hok |- *.
    pose proof (dispatch_gated_spec D m name args' c now1 now2 st s i) as G.
    destruct (dispatch_gated _ _ _ _ _ _ _ _ _) as [[[st' s'] ok] effs].
    split; [by eapply Hok|]. intros Hin. destruct G as [G1 G2]. destruct ok.
    + destruct (task_create _ _ _ _ _) as [t1 s1]. destruct G2 as (_ & _ & ->).
      apply elem_of_cons in Hin as [Hin|Hin%list_elem_of_singleton]; [|discriminate].
      injection Hin as -> ->. split; [done|]. split; [done|]. exists d, D. by rewrite <- G1.
    + destruct G2 as [_ [->|(? & ? & ->)]]; [by apply elem_of_nil in Hin|].
      apply list_elem_of_singleton in Hin. discriminate.
  - specialize (H td t). destruct (cmd_dispatch _ _ _ _ _ _ _) as [[[st' s'] ok] effs].
    split; [by eapply Hok|]. intros Hin. by destruct H.
Qed.

Definition demo_state : cmd_state := mk_cmd_state sample_registry [] [] 0 0.

Definition demo_msg (text : string) : method_msg :=
  {| m_inst := Some {| mi_type := 4; mi_prefix := None |}; m_sender := lit "ann"; m_channel := lit "#c";
     m_text := lit text; m_reply_route := [] |}.

Definition nobody : caller := {| c_username := None; c_userns := None |}.

Lemma cmd_dispatch_safe_witness :
  exists td t, td_args td = lit "x y" /\
    Submit td t ∈ (cmd_dispatch (Some 7) (Some (demo_msg "!help x y")) nobody 10 10 demo_state task_statics).2 /\
    t_lane t = TASK_INTERACTIVE.
Proof.
  pose proof (cmd_dispatch_safe 7 (demo_msg "!help x y") nobody 10 10 demo_state task_statics) as T.
  destruct (cmd_dispatch _ _ _ _ _ _ _) as [[[st' s'] ok] effs] eqn:E. vm_compute in E. injection E as <- <- <- <-.
  do 2 eexists. split; [|split; [left|]]; [reflexivity|].
  refine (proj1 (proj2 (proj2 (T _ _ _) _))); [apply sched_ok_statics|left].
Defined.

(** for a message that names a definition and does not ask for help,
    cmd_dispatch returns SUCCESS exactly when cmd_permits is true; then the only
    change to the scheduler is one interactive task on the ready queue, and
    otherwise there is none and at most one denial line goes out. *)
Theorem cmd_dispatch_iff_permits (i : Z) (m : method_msg) (c : caller) (now1 now2 : Z) (st : cmd_state) (s : sched)
    (name args args' : cstr) (d : Z) (D : cmd_def) :
  dispatch_parse (dispatch_prefix i m st) (m_text m) = Some (name, args) -> m_text m <> [] ->
  dispatch_resolve name args (reg st) = Some (d, args') ->
  args_ask_for_help (Some args') = false -> defs (reg st) !! d = Some D ->
  let '(st', s', ok, effs) := cmd_dispatch (Some i) (Some m) c now1 now2 st s in
  ok = cmd_permits (Some i) (Some m) (Some D) c /\
  if ok then
    timer_head s' = timer_head s /\ running_head s' = running_head s /\
    exists t, t_name t = strlcpy TASK_NAME_SZ (lit "cmd:" ++ name) /\ t_lane t = TASK_INTERACTIVE /\
      ready_head s' = ready_insert t (ready_head s) /\
      effs = [Submit (task_data D m args' name (c_username c)) t; CountBotCommand]
  else s' = s /\ (effs = [] \/ exists target text, effs = [Send target text]).
Proof.
  intros Hp Ht Hr Hh Hd. unfold cmd_dispatch. destruct (m_text m) as [|x text]; [done|].
  rewrite Hp, Hr, Hh, Hd.
  pose proof (dispatch_gated_spec D m name args' c now1 now2 st s i) as G.
  destruct (dispatch_gated _ _ _ _ _ _ _ _ _) as [[[st' s'] ok] effs].
  destruct G as [G1 G2]. split; [done|]. destruct ok; [|done].
  unfold task_create in G2. destruct (task_alloc_id_locked _) as [id next].
  destruct G2 as (_ & -> & ->). unfold task_submit. cbn.
  split; [done|]. split; [done|].
  eexists. split; [|split; [|split; [|reflexivity]]]; reflexivity.
Qed.

(** [show irc] is visible on methods 2 and 4, [show irc networks] only on 2. *)
Lemma cmd_dispatch_iff_permits_witness :
  (cmd_dispatch (Some 7) (Some (demo_msg "!SHOW irc networks")) nobody 10 10 demo_state task_statics).1.2 = false /\
  (cmd_dispatch (Some 7) (Some (demo_msg "!SHOW irc network")) nobody 10 10 demo_state task_statics).1.2 = true.
Proof.
  assert (H2 : exists D, defs sample_registry !! 2 = Some D) by (vm_compute; by eexists).
  assert (H3 : exists D, defs sample_registry !! 3 = Some D) by (vm_compute; by eexists).
  destruct H2 as [D2 H2], H3 as [D3 H3]. split.
  - pose proof (cmd_dispatch_iff_permits 7 (demo_msg "!SHOW irc networks") nobody 10 10 demo_state task_statics
      (lit "SHOW") (lit "irc networks") [] 3 D3) as T.
    destruct (cmd_dispatch _ _ _ _ _ _ _) as [[[st' s'] ok] effs].
    destruct T as [-> _]; [reflexivity|discriminate|vm_compute; reflexivity|reflexivity|exact H3|].
    vm_compute in H3. injection H3 as <-. reflexivity.
  - pose proof (cmd_dispatch_iff_permits 7 (demo_msg "!SHOW irc network") nobody 10 10 demo_state task_statics
      (lit "SHOW") (lit "irc network") (lit "network") 2 D2) as T.
    destruct (cmd_dispatch _ _ _ _ _ _ _) as [[[st' s'] ok] effs].
    destruct T as [-> _]; [reflexivity|discriminate|vm_compute; reflexivity|reflexivity|exact H2|].
    vm_compute in H2. injection H2 as <-. reflexivity.
Defined.

(** the literal owner principal passes the permission formula whatever the
    group, the level and the namespace hold, also when the namespace gives it no
    membership at all. *)
Theorem check_permission_owner (ns : option userns) (req_group : cstr) (req_level : Z) :
  check_permission ns (Some USERNS_OWNER_USER) req_group req_level = true /\
  forall u level, u <> USERNS_OWNER_USER -> level u req_group < 0 ->
    check_permission (Some level) (Some u) req_group req_level = false.
Proof.
  split; [reflexivity|]. intros u level Hu Hl. unfold check_permission.
  rewrite (proj2 (seqb_false _ _) Hu), (proj2 (Z.leb_gt _ _) Hl). done.
Qed.

Lemma check_permission_owner_witness :
  check_permission None (Some USERNS_OWNER_USER) USERNS_GROUP_ADMIN 900 = true /\
  check_permission (Some (fun _ _ => -1)) (Some (lit "ann")) USERNS_GROUP_ADMIN 900 = false.
Proof.
  destruct (check_permission_owner None USERNS_GROUP_ADMIN 900) as [H1 H2]. split; [exact H1|].
  apply H2; [discriminate|lia].
Defined.

(** a subcommand's name hides a root command's abbreviation: when no root is
    called by the word but some subcommand anywhere in the tree is, cmd_dispatch
    refuses the line, although a root answers to the word by its
    abbreviation. *)
Theorem cmd_dispatch_abbrev_shadowed (i : Z) (m : method_msg) (c : caller) (now1 now2 : Z) (st : cmd_state) (s : sched)
    (name args : cstr) (x : Z) (X : cmd_def) :
  dispatch_parse (dispatch_prefix i m st) (m_text m) = Some (name, args) ->
  x ∈ cmd_list (reg st) -> defs (reg st) !! x = Some X -> name_eq (d_name X) name = true ->
  (forall y Y, y ∈ cmd_list (reg st) -> defs (reg st) !! y = Some Y -> d_parent Y = None -> name_eq (d_name Y) name = false) ->
  cmd_dispatch (Some i) (Some m) c now1 now2 st s = (st, s, false, []).
Proof.
  intros Hp Hx HX Hn Hroot. unfold cmd_dispatch. destruct (m_text m); [done|]. rewrite Hp.
  unfold dispatch_resolve, def_find_locked. rewrite def_find_loop_spec. cbn [orelse].
  destruct (first_match _ (fun D => name_eq (d_name D) name && is_root D) _) as [y|] eqn:E1.
  { apply first_match_Some in E1 as (Hy & Y & HY & Ht). apply andb_true_iff in Ht as [Ht1 Ht2].
    rewrite (Hroot y Y Hy HY) in Ht1; [discriminate|]. unfold is_root in Ht2. by destruct (d_parent Y). }
  cbn [orelse]. destruct (first_match _ (fun D => name_eq (d_name D) name) _) as [y|] eqn:E2.
  2:{ unfold first_match in E2. pose proof (List.find_none _ _ E2 x) as N.
      cbn beta in N. rewrite HX, Hn in N. discriminate N. by apply list_elem_of_In. }
  cbn [orelse]. apply first_match_Some in E2 as (Hy & Y & HY & Ht). unfold parent_of. rewrite HY. simpl.
  destruct (d_parent Y) as [p|] eqn:Ep; [done|]. rewrite (Hroot y Y Hy HY Ep) in Ht. discriminate.
Qed.

(** [status] is abbreviated [st]; a later [show/st] takes the word away. *)
Definition status_decl : cmd_decl_t :=
  {| dc_module := None; dc_name := Some (lit "status"); dc_usage := None; dc_group := Some (lit "everyone");
     dc_level := 0; dc_scope := CMD_SCOPE_ANY; dc_methods := METHOD_T_ANY; dc_cb := Some 1; dc_data := 0;
     dc_parent_path := None; dc_abbrev := Some (lit "st"); dc_args := []; dc_kind_filter := None;
     dc_nl := None; dc_feat := None |}.

Definition shadow_state (sub : bool) : cmd_state :=
  mk_cmd_state (register_all ([(status_decl, 1, 1); (sample_decl "show" None METHOD_T_ANY, 1, 2)] ++
    if sub then [(sample_decl "st" (Some "show"%string) METHOD_T_ANY, 1, 3)] else []) empty_registry) [] [] 0 0.

Lemma cmd_dispatch_abbrev_shadowed_witness :
  (cmd_dispatch (Some 7) (Some (demo_msg "!st")) nobody 10 10 (shadow_state false) task_statics).1.2 = true /\
  (cmd_dispatch (Some 7) (Some (demo_msg "!st")) nobody 10 10 (shadow_state true) task_statics).1.2 = false.
Proof.
  split; [vm_compute; reflexivity|].
  assert (H3 : exists D, defs (reg (shadow_state true)) !! 3 = Some D) by (vm_compute; by eexists).
  destruct H3 as [D3 H3].
  rewrite (cmd_dispatch_abbrev_shadowed 7 (demo_msg "!st") nobody 10 10 (shadow_state true) task_statics
    (lit "st") [] 3 D3); [reflexivity|reflexivity|vm_compute; left|exact H3| |].
  - vm_compute in H3. injection H3 as <-. reflexivity.
  - intros y Y Hy HY Hpar. assert (Hl : y ∈ [3; 2; 1]) by exact Hy.
    apply elem_of_cons in Hl as [->|Hl]; [vm_compute in HY; injection HY as <-; discriminate Hpar|].
    apply elem_of_cons in Hl as [->|Hl]; [vm_compute in HY; injection HY as <-; reflexivity|].
    apply list_elem_of_singleton in Hl as ->. vm_compute in HY. injection HY as <-. reflexivity.
Defined.

(** stored credentials are shown to a command only when it came over the
    control socket from a member of the admin group, on both dispatch paths. *)
Theorem creds_only_control_admin (td : cmd_task_data) (bot : option Z) (ns : option userns)
    (name args : option cstr) (mi : method_inst) (username route : option cstr) (st : cmd_state)
    (cb : Z) (a : cstr) (argv : option (list cstr)) (u : option cstr) :
  (RunCommand cb a argv u true ∈ cmd_task_cb td bot ns ->
     method_inst_type (td_inst td) = METHOD_T_BOTMANCTL /\
     exists level, ns = Some level /\ td_username td <> [] /\ 0 <= level (td_username td) USERNS_GROUP_ADMIN) /\
  (RunCommand cb a argv u true ∈ (cmd_dispatch_as name args (Some mi) ns username route st).2 ->
     mi_type mi = METHOD_T_BOTMANCTL /\
     exists level who, ns = Some level /\ username = Some who /\ 0 <= level who USERNS_GROUP_ADMIN).
Proof.
  assert (R : forall cb' args' desc usage who creds,
    RunCommand cb a argv u true ∈ run_parsed cb' args' desc usage who creds -> creds = true).
  { intros cb' args' desc usage who creds. unfold run_parsed.
    destruct desc; [|destruct (cmd_parse_args _ _ _)]; intros H%list_elem_of_singleton; congruence. }
  split.
  - unfold cmd_task_cb. destruct (td_cb td); [|by intros ?%elem_of_nil].
    intros H%R. unfold cmd_creds_visible in H. apply andb_true_iff in H as [H Ht].
    apply andb_true_iff in H as [H _]. apply Z.eqb_eq in Ht. split; [done|].
    unfold cmd_caller_is_admin, opt_text in H. destruct bot, (td_username td) as [|x w]; try done.
    destruct ns as [level|]; [|done]. exists level. apply Z.leb_le in H. auto.
  - unfold cmd_dispatch_as. destruct name as [[|x n]|]; try by intros ?%elem_of_nil.
    destruct (dispatch_resolve _ _ _) as [[d args']|]; [|by intros ?%elem_of_nil].
    destruct (_ !! d) as [D|]; [|by intros ?%elem_of_nil].
    destruct (negb _); [by intros ?%elem_of_nil|]. destruct (args_ask_for_help _).
    { unfold help_redirect. destruct (_ ≫= _) as [H|]; [destruct (d_cb H)|]; cbn [snd];
        intros Hin; [|by apply elem_of_nil in Hin..]. by apply list_elem_of_singleton in Hin. }
    destruct (negb _); [intros Hin%list_elem_of_singleton; discriminate|].
    destruct (d_cb D); [|by intros ?%elem_of_nil]. cbn [snd]. intros H%R.
    unfold cmd_creds_visible in H. cbn [is_some method_inst_type] in H.
    apply andb_true_iff in H as [H Ht]. apply andb_true_iff in H as [H _]. apply Z.eqb_eq in Ht.
    split; [done|]. unfold as_admin in H. destruct ns as [level|], username as [[|y w]|]; try done.
    exists level, (y :: w). apply Z.leb_le in H. auto.
Qed.

Definition demo_td (mt : Z) : cmd_task_data :=
  {| td_cb := Some 5; td_cb_data := 0; td_args := []; td_username := lit "ann"; td_usage := None;
     td_arg_desc := []; td_feat := None; td_name := lit "show"; td_inst := Some {| mi_type := mt; mi_prefix := None |} |}.

Lemma creds_only_control_admin_witness :
  RunCommand 5 [] None (Some (lit "ann")) true ∈ cmd_task_cb (demo_td 2) (Some 1) (Some (fun _ _ => 0)) /\
  RunCommand 5 [] None (Some (lit "ann")) true ∉ cmd_task_cb (demo_td 4) (Some 1) (Some (fun _ _ => 0)).
Proof.
  split; [left|]. intros H.
  destruct (creds_only_control_admin (demo_td 4) (Some 1) (Some (fun _ _ => 0)) None None
    {| mi_type := 4; mi_prefix := None |} None None demo_state 5 [] None (Some (lit "ann"))) as [T _].
  destruct (T H) as [E _]. discriminate E.
Defined.

(** ** Prefixes against a map *)

Definition prefix_map (st : cmd_state) : gmap Z cstr :=
  list_to_map (map (fun s => (s_inst s, s_prefix s)) (cmd_sets st)).

Definition sets_ok (st : cmd_state) : Prop := NoDup (map s_inst (cmd_sets st)).

Lemma set_prefix_of_map i st : set_prefix_of i st = default (lit "!") (prefix_map st !! i).
Proof.
  unfold set_prefix_of, prefix_map, set_find_locked. induction (cmd_sets st) as [|s l IH]; simpl.
  - by rewrite lookup_empty.
  - destruct (s_inst s =? i) eqn:E; breflect; subst; [by rewrite lookup_insert_eq|].
    by rewrite lookup_insert_ne.
Qed.

Lemma set_write_map i p l :
  i ∈ map s_inst l ->
  list_to_map (map (fun s => (s_inst s, s_prefix s)) (set_write i p l)) =
  <[i:=p]> (list_to_map (map (fun s => (s_inst s, s_prefix s)) l) : gmap Z cstr).
Proof.
  induction l as [|s l IH]; simpl; [by intros ?%elem_of_nil|]. intros Hi.
  destruct (s_inst s =? i) eqn:E; breflect; simpl.
  - subst. by rewrite insert_insert_eq.
  - rewrite IH by (apply elem_of_cons in Hi as [?|?]; [congruence|done]). by apply insert_insert_ne.
Qed.

Lemma set_write_insts i p l : map s_inst (set_write i p l) = map s_inst l.
Proof. induction l as [|s l IH]; simpl; [done|]. destruct (_ =? i) eqn:E; breflect; simpl; congruence. Qed.

Lemma set_find_insts i l : is_some (set_find_locked i l) = bool_decide (i ∈ map s_inst l).
Proof.
  unfold set_find_locked. induction l as [|s l IH]; simpl; [done|].
  destruct (s_inst s =? i) eqn:E; breflect.
  - symmetry. apply bool_decide_eq_true. rewrite E. left.
  - rewrite IH. apply bool_decide_ext. rewrite elem_of_cons. split; [by right|]. intros [?|?]; [congruence|done].
Qed.

Lemma set_unlink_insts i l :
  NoDup (map s_inst l) ->
  match set_unlink i l with
  | Some (_, l') => NoDup (map s_inst l') /\ (forall y, y ∈ map s_inst l' -> y ∈ map s_inst l)
  | None => True
  end.
Proof.
  induction l as [|s l IH]; simpl; [done|]. intros [Hn Hd]%list.NoDup_cons.
  destruct (_ =? i); [split; [done|by right]|]. specialize (IH Hd).
  destruct (set_unlink i l) as [[x l']|]; [|done]. destruct IH as [I1 I2]. simpl. split.
  - apply list.NoDup_cons. split; [|done]. intros ?%I2. done.
  - intros y [->|Hy]%elem_of_cons; [by left|right; auto].
Qed.

Lemma set_unlink_map i l :
  NoDup (map s_inst l) ->
  delete i (list_to_map (map (fun s => (s_inst s, s_prefix s)) l) : gmap Z cstr) =
  match set_unlink i l with
  | Some (_, l') => list_to_map (map (fun s => (s_inst s, s_prefix s)) l')
  | None => list_to_map (map (fun s => (s_inst s, s_prefix s)) l)
  end.
Proof.
  induction l as [|s l IH]; simpl; [intros; apply delete_empty|]. intros [Hn Hd]%list.NoDup_cons.
  destruct (s_inst s =? i) eqn:E; breflect.
  - subst. rewrite delete_insert_eq. apply delete_id, not_elem_of_list_to_map_1.
    rewrite <- list_fmap_compose. exact Hn.
  - rewrite delete_insert_ne, IH by done. by destruct (set_unlink i l) as [[x l']|].
Qed.

Lemma set_prefix_stored i p st :
  sets_ok st -> (0 < length p < CMD_PREFIX_SZ)%nat ->
  let '(st', ok) := cmd_set_prefix (Some i) (Some p) st in
  sets_ok st' /\ ok = true /\ prefix_map st' = <[i:=p]> (prefix_map st).
Proof.
  intros Hs Hp. unfold cmd_set_prefix. destruct p as [|x p]; [simpl in Hp; lia|]. set (q := x :: p) in *.
  zcond.
  unfold set_ensure_locked. pose proof (set_find_insts i (cmd_sets st)) as Hf.
  destruct (if set_find_locked i (cmd_sets st) then _ else _) as [sets fl] eqn:Es. cbn [fst snd].
  assert (Hq : strlcpy CMD_PREFIX_SZ q = q) by (apply take_ge; lia).
  rewrite Hq. unfold sets_ok, prefix_map, with_sets in *. cbn [cmd_sets].
  rewrite set_write_insts. destruct (set_find_locked i (cmd_sets st)) eqn:Ef.
  - injection Es as <- <-. symmetry in Hf. apply bool_decide_eq_true in Hf. split_and!; [done..|by apply set_write_map].
  - unfold set_get in Es. injection Es as <- <-. symmetry in Hf. apply bool_decide_eq_false in Hf.
    split_and!; [by apply list.NoDup_cons|done|].
    rewrite set_write_map by (by left). simpl. by rewrite insert_insert_eq.
Qed.

(** the per-bot prefix sets are a map from bots to prefixes: a prefix of 1
    to 7 characters is stored, any other is refused without effect, cleaning up a
    bot forgets its prefix, and the lookup defaults to an exclamation mark, for
    whatever nodes were recycled in between. *)
Theorem cmd_prefix_refines (i j : Z) (p : cstr) (st : cmd_state) :
  sets_ok st ->
  (let '(st', ok) := cmd_set_prefix (Some i) (Some p) st in
   sets_ok st' /\ ok = in_range 1 7 (Z.of_nat (length p)) /\
   prefix_map st' = if ok then <[i:=p]> (prefix_map st) else prefix_map st) /\
  sets_ok (cmd_bot_cleanup (Some i) st) /\
  prefix_map (cmd_bot_cleanup (Some i) st) = delete i (prefix_map st) /\
  cmd_get_prefix (Some j) st = default (lit "!") (prefix_map st !! j).
Proof.
  intros Hs. split; [|split; [|split]]; [| | |apply set_prefix_of_map].
  - destruct (decide (0 < length p < CMD_PREFIX_SZ)%nat) as [Hp|Hp].
    + pose proof (set_prefix_stored i p st Hs Hp) as H. case_match. destruct H as (? & -> & ?). split_and!; [done| |done].
      symmetry. apply in_range_iff. unfold CMD_PREFIX_SZ in Hp. lia.
    + assert (Hr : in_range 1 7 (Z.of_nat (length p)) = false).
      { apply not_true_iff_false. rewrite in_range_iff. unfold CMD_PREFIX_SZ in Hp. lia. }
      unfold cmd_set_prefix. rewrite Hr. destruct p as [|x p]; [done|].
      rewrite (proj2 (Nat.leb_le CMD_PREFIX_SZ _)); [done|]. cbn [length] in *. lia.
  - unfold cmd_bot_cleanup. pose proof (set_unlink_insts i _ Hs) as U.
    destruct (set_unlink _ _) as [[x l']|]; [apply U|done].
  - unfold cmd_bot_cleanup, prefix_map. rewrite set_unlink_map by done. by destruct (set_unlink _ _) as [[x l']|].
Qed.

Lemma cmd_prefix_refines_witness :
  let st := (cmd_set_prefix (Some 7) (Some (lit ">>")) demo_state).1 in
  cmd_get_prefix (Some 7) st = lit ">>" /\ prefix_map (cmd_bot_cleanup (Some 7) st) = delete 7 (prefix_map st).
Proof.
  split; [reflexivity|].
  apply (cmd_prefix_refines 7 7 (lit ">>") (cmd_set_prefix (Some 7) (Some (lit ">>")) demo_state).1).
  apply NoDup_singleton.
Defined.
