(* ===== verification/Plugin.v ===== *)
(** * The plugin loader: core/plugin.c

    The registry is the list of records from its head. Plugin callbacks, the
    dynamic linker and the other registries the loader consults are an
    environment that answers for a descriptor; a missing callback answers
    success. The calls made to plugins and bots come back as a log in order, an
    entry for a missing callback included. *)

From Stdlib Require Import Sorting.Sorted.
From S2P Require Import Prelude.

(** ** Data: include/plugin.h *)

Definition PLUGIN_API_VERSION : Z := 15.
Definition PLUGIN_MAX_FEATURES : nat := 16.
Definition PLUGIN_RELOAD_MAX_CLOSURE : nat := 64.
Definition PLUGIN_NAME_SZ : nat := 64.
Definition PLUGIN_PATH_SZ : nat := 512.

Inductive plugin_type_t :=
  | PLUGIN_CORE | PLUGIN_DB | PLUGIN_METHOD | PLUGIN_BOT | PLUGIN_SERVICE | PLUGIN_MISC
  | PLUGIN_PERSONALITY | PLUGIN_FEATURE | PLUGIN_STRATEGY.

#[export] Instance plugin_type_eq_dec : EqDecision plugin_type_t.
Proof. solve_decision. Defined.

Inductive plugin_state_t :=
  | PLUGIN_DISCOVERED | PLUGIN_LOADED | PLUGIN_INITIALIZED | PLUGIN_RUNNING | PLUGIN_STOPPING
  | PLUGIN_UNLOADED | PLUGIN_ZOMBIE.

#[export] Instance plugin_state_eq_dec : EqDecision plugin_state_t.
Proof. solve_decision. Defined.

(** Feature arrays with their counts are lists; [pd_ext] is whether the
    descriptor exports a driver. *)
Record plugin_desc_t := {
  pd_api_version : Z;
  pd_name : cstr;
  pd_version : cstr;
  pd_type : plugin_type_t;
  pd_kind : cstr;
  pd_provides : list cstr;
  pd_requires : list cstr;
  pd_ext : bool
}.

(** [handle] is NULL for the synthetic core providers. *)
Record plugin_rec := mk_rec {
  p_path : cstr;
  p_handle : option Z;
  p_desc : plugin_desc_t;
  p_state : plugin_state_t
}.

Definition set_pstate (st : plugin_state_t) (p : plugin_rec) : plugin_rec :=
  mk_rec (p_path p) (p_handle p) (p_desc p) st.

Definition p_name (p : plugin_rec) : cstr := pd_name (p_desc p).
#[global] Arguments p_name : simpl never.

Record plugin_snap := { snap_name : cstr; snap_path : cstr }.

Inductive hook := HInit | HStart | HSuspend | HResume | HStop | HDeinit | HDetach | HReattach | HClose.

Definition plugin_log := list (hook * cstr).

(** What the loader is told: the object behind a path (handle and descriptor),
    whether a bot is bound to a driver, how many of a plugin's command handlers
    run, the callbacks' answers, what reclaiming dropped, what still points into
    the mapping, and how many bots were put back. *)
Record plugin_env := {
  e_dl : cstr -> option (Z * option plugin_desc_t);
  e_bound : plugin_desc_t -> bool;
  e_inflight : plugin_desc_t -> Z;
  e_init : plugin_desc_t -> bool;
  e_start : plugin_desc_t -> bool;
  e_stop : plugin_desc_t -> bool;
  e_suspend : plugin_desc_t -> bool;
  e_resume : plugin_desc_t -> bool;
  e_reclaimed : plugin_desc_t -> Z;
  e_residual : plugin_desc_t -> Z;
  e_rebound : plugin_desc_t -> Z
}.

(** ** Lookups *)

Definition find_by_name (name : cstr) (ps : list plugin_rec) : option plugin_rec :=
  List.find (fun p => seqb (p_name p) name) ps.

Definition plugin_provides (d : plugin_desc_t) (feature : cstr) : bool :=
  existsb (fun f => seqb f feature) (pd_provides d).

Definition plugin_find (name : option cstr) (ps : list plugin_rec) : option plugin_desc_t :=
  match name with None => None | Some n => p_desc <$> find_by_name n ps end.

Definition plugin_find_feature (feature : option cstr) (ps : list plugin_rec) : option plugin_desc_t :=
  match feature with
  | None => None
  | Some f => p_desc <$> List.find (fun p => plugin_provides (p_desc p) f) ps
  end.

Definition plugin_find_type (type : plugin_type_t) (kind : option cstr) (ps : list plugin_rec) : option plugin_desc_t :=
  p_desc <$> List.find (fun p =>
    bool_decide (pd_type (p_desc p) = type)
    && match kind with None | Some [] => true | Some k => seqb (pd_kind (p_desc p)) k end) ps.

Definition plugin_get_state (name : option cstr) (ps : list plugin_rec) : plugin_state_t :=
  match name with
  | None => PLUGIN_UNLOADED
  | Some n => match find_by_name n ps with Some p => p_state p | None => PLUGIN_UNLOADED end
  end.

(** ** Loading *)

Definition validate_desc (d : plugin_desc_t) (ps : list plugin_rec) : bool :=
  if negb (pd_api_version d =? PLUGIN_API_VERSION) then false
  else if seqb (pd_name d) [] then false
  else if seqb (pd_version d) [] then false
  else if (length (pd_provides d) =? 0)%nat then false
  else if (PLUGIN_MAX_FEATURES <? length (pd_provides d))%nat then false
  else if (PLUGIN_MAX_FEATURES <? length (pd_requires d))%nat then false
  else match find_by_name (pd_name d) ps with Some _ => false | None => true end.

Definition plugin_load (env : plugin_env) (plugin_ready : bool) (path : option cstr) (ps : list plugin_rec)
    : list plugin_rec * bool :=
  match path with
  | None => (ps, false)
  | Some path =>
      if negb plugin_ready then (ps, false)
      else match e_dl env path with
           | None | Some (_, None) => (ps, false)
           | Some (handle, Some d) =>
               if validate_desc d ps then
                 (mk_rec (strlcpy PLUGIN_PATH_SZ path) (Some handle) d PLUGIN_LOADED :: ps, true)
               else (ps, false)
           end
  end.

(** ** Unloading *)

Record unload_report := { u_reclaimed : Z; u_residual : Z; u_zombie : bool }.

Definition empty_report : unload_report := {| u_reclaimed := 0; u_residual := 0; u_zombie := false |}.

(** The list position of the target: names are unique, so a record is known by
    its name. *)
Definition same_rec (a b : plugin_rec) : bool := seqb (p_name a) (p_name b).

Definition depends_on (target q : plugin_rec) : bool :=
  negb (same_rec q target) && existsb (plugin_provides (p_desc target)) (pd_requires (p_desc q)).

Definition plugin_driver_bound (env : plugin_env) (d : plugin_desc_t) : bool :=
  pd_ext d && (bool_decide (pd_type d = PLUGIN_BOT) || bool_decide (pd_type d = PLUGIN_FEATURE)) && e_bound env d.

Definition replace_rec (p : plugin_rec) (ps : list plugin_rec) : list plugin_rec :=
  map (fun q => if same_rec q p then p else q) ps.

Fixpoint unlink_rec (target : plugin_rec) (ps : list plugin_rec) : list plugin_rec :=
  match ps with
  | [] => []
  | q :: qs => if same_rec q target then qs else q :: unlink_rec target qs
  end.

(** The target after the lifecycle teardown, and the calls made. None when its
    stop() refused. *)
Definition unload_teardown (env : plugin_env) (target : plugin_rec) : plugin_log * option plugin_rec :=
  let d := p_desc target in
  let n := p_name target in
  let '(log, stopped) :=
    if bool_decide (p_state target = PLUGIN_RUNNING) then
      ([(HStop, n)], if e_stop env d then Some (set_pstate PLUGIN_STOPPING target) else None)
    else ([], Some target) in
  match stopped with
  | None => (log, None)
  | Some t =>
      if bool_decide (p_state t = PLUGIN_INITIALIZED) || bool_decide (p_state t = PLUGIN_STOPPING) then
        (log ++ [(HDeinit, n)], Some (set_pstate PLUGIN_LOADED t))
      else (log, Some t)
  end.

Definition plugin_unload (env : plugin_env) (plugin_ready : bool) (name : option cstr) (ps : list plugin_rec)
    : list plugin_rec * bool * unload_report * plugin_log :=
  match name with
  | None => (ps, false, empty_report, [])
  | Some name =>
      if negb plugin_ready then (ps, false, empty_report, [])
      else match find_by_name name ps with
           | None => (ps, false, empty_report, [])
           | Some target =>
               if existsb (depends_on target) ps then (ps, false, empty_report, [])
               else if plugin_driver_bound env (p_desc target) then (ps, false, empty_report, [])
               else if 0 <? e_inflight env (p_desc target) then (ps, false, empty_report, [])
               else match unload_teardown env target with
                    | (log, None) => (ps, false, empty_report, log)
                    | (log, Some t) =>
                        let residual := e_residual env (p_desc t) in
                        let rep z := {| u_reclaimed := e_reclaimed env (p_desc t); u_residual := residual; u_zombie := z |} in
                        if 0 <? residual then
                          (replace_rec (set_pstate PLUGIN_ZOMBIE t) ps, false, rep true, log)
                        else
                          (unlink_rec t ps, true, rep false,
                           log ++ match p_handle t with Some _ => [(HClose, p_name t)] | None => [] end)
                    end
           end
  end.

(** ** Dependency resolution *)

Definition desc_at (arr : list plugin_rec) (i : nat) : option plugin_desc_t := p_desc <$> arr !! i.

Definition provides_at (arr : list plugin_rec) (feature : cstr) (i : nat) : bool :=
  match desc_at arr i with Some d => plugin_provides d feature | None => false end.

Definition resolve_feature_in (feature : cstr) (arr : list plugin_rec) (indices : list nat) : bool :=
  existsb (provides_at arr feature) indices.

Definition resolve_feature_exists (feature : cstr) (arr : list plugin_rec) (skip_idx : nat) : bool :=
  existsb (fun j => negb (j =? skip_idx)%nat && provides_at arr feature j) (seq 0 (length arr)).

(** Every requirement is provided by something placed. *)
Definition satisfied (arr : list plugin_rec) (order : list nat) (i : nat) : bool :=
  match desc_at arr i with
  | Some d => forallb (fun need => resolve_feature_in need arr order) (pd_requires d)
  | None => false
  end.

(** [placed[i]]: set exactly when [i] enters [order]. *)
Definition placed (order : list nat) (i : nat) : bool := existsb (Nat.eqb i) order.

(** One pass of the for loop, over the indices still to visit. *)
Fixpoint resolve_pass (arr : list plugin_rec) (ixs : list nat) (order : list nat) (progress : bool) : list nat * bool :=
  match ixs with
  | [] => (order, progress)
  | i :: ixs' =>
      if placed order i then resolve_pass arr ixs' order progress
      else if satisfied arr order i then resolve_pass arr ixs' (order ++ [i]) true
      else resolve_pass arr ixs' order progress
  end.

(** The while loop; a pass with progress places at least one plugin. *)
Fixpoint resolve_loop (fuel : nat) (arr : list plugin_rec) (order : list nat) : list nat :=
  match fuel with
  | O => order
  | S fuel =>
      if (length order <? length arr)%nat then
        let '(order, progress) := resolve_pass arr (seq 0 (length arr)) order false in
        if progress then resolve_loop fuel arr order else order
      else order
  end.

Definition resolve_apply_order (arr : list plugin_rec) (order : list nat) : list plugin_rec :=
  omap (fun i => arr !! i) order.

(** What the failure report says: the missing requirements, or a cycle. *)
Inductive resolve_report := Resolved | Missing (needs : list (cstr * cstr)) | Circular.

Definition resolve_report_failures (arr : list plugin_rec) (order : list nat) : resolve_report :=
  let missing := flat_map (fun i =>
    if placed order i then []
    else match desc_at arr i with
         | None => []
         | Some d => map (fun need => (pd_name d, need))
                       (List.filter (fun need => negb (resolve_feature_exists need arr i)) (pd_requires d))
         end) (seq 0 (length arr)) in
  match missing with [] => Circular | _ => Missing missing end.

Definition plugin_resolve (plugin_ready : bool) (ps : list plugin_rec) : list plugin_rec * bool * resolve_report :=
  if negb plugin_ready then (ps, false, Resolved)
  else match ps with
       | [] => (ps, true, Resolved)
       | _ :: _ =>
           let order := resolve_loop (S (length ps)) ps [] in
           if (length order =? length ps)%nat then (resolve_apply_order ps order, true, Resolved)
           else (ps, false, resolve_report_failures ps order)
       end.

(** ** Lifecycle sweeps *)

(** A forward sweep: every record in state [from] is called and moves to [to];
    a refusal ends the sweep. *)
Fixpoint sweep_up (answer : plugin_desc_t -> bool) (h : hook) (from to : plugin_state_t) (ps : list plugin_rec)
    : list plugin_rec * bool * plugin_log :=
  match ps with
  | [] => ([], true, [])
  | p :: qs =>
      if bool_decide (p_state p = from) then
        if answer (p_desc p) then
          let '(qs, ok, log) := sweep_up answer h from to qs in
          (set_pstate to p :: qs, ok, (h, p_name p) :: log)
        else (p :: qs, false, [(h, p_name p)])
      else
        let '(qs, ok, log) := sweep_up answer h from to qs in (p :: qs, ok, log)
  end.

Definition plugin_init_all (env : plugin_env) (plugin_ready : bool) (ps : list plugin_rec) : list plugin_rec * bool * plugin_log :=
  if negb plugin_ready then (ps, false, []) else sweep_up (e_init env) HInit PLUGIN_LOADED PLUGIN_INITIALIZED ps.

Definition plugin_start_all (env : plugin_env) (plugin_ready : bool) (ps : list plugin_rec) : list plugin_rec * bool * plugin_log :=
  if negb plugin_ready then (ps, false, []) else sweep_up (e_start env) HStart PLUGIN_INITIALIZED PLUGIN_RUNNING ps.

(** A backward sweep over the records in the given states. *)
Definition sweep_down (sel : plugin_state_t -> bool) (h : hook) (to : plugin_state_t) (ps : list plugin_rec)
    : list plugin_rec * plugin_log :=
  (map (fun p => if sel (p_state p) then set_pstate to p else p) ps,
   map (fun p => (h, p_name p)) (List.filter (fun p => sel (p_state p)) (rev ps))).

Definition plugin_stop_all (plugin_ready : bool) (ps : list plugin_rec) : list plugin_rec * plugin_log :=
  if negb plugin_ready then (ps, [])
  else sweep_down (fun s => bool_decide (s = PLUGIN_RUNNING)) HStop PLUGIN_STOPPING ps.

Definition plugin_deinit_all (plugin_ready : bool) (ps : list plugin_rec) : list plugin_rec * plugin_log :=
  if negb plugin_ready then (ps, [])
  else sweep_down (fun s => bool_decide (s = PLUGIN_INITIALIZED) || bool_decide (s = PLUGIN_STOPPING))
         HDeinit PLUGIN_LOADED ps.

(** ** Reload *)

(** [desc] requires something a member provides. *)
Definition joins (arr : list plugin_rec) (members : list nat) (i : nat) : bool :=
  match desc_at arr i with
  | Some d => existsb (fun need => existsb (provides_at arr need) members) (pd_requires d)
  | None => false
  end.

(** [members] are the indices with [in[i]] set. *)
Fixpoint closure_pass (arr : list plugin_rec) (ixs : list nat) (members : list nat) (progress : bool) : list nat * bool :=
  match ixs with
  | [] => (members, progress)
  | i :: ixs' =>
      if placed members i then closure_pass arr ixs' members progress
      else if joins arr members i then closure_pass arr ixs' (i :: members) true
      else closure_pass arr ixs' members progress
  end.

Fixpoint closure_loop (fuel : nat) (arr : list plugin_rec) (members : list nat) : list nat :=
  match fuel with
  | O => members
  | S fuel =>
      let '(members, progress) := closure_pass arr (seq 0 (length arr)) members false in
      if progress then closure_loop fuel arr members else members
  end.

Definition closure_members (target : plugin_rec) (ps : list plugin_rec) : list nat :=
  closure_loop (S (length ps)) ps
    (List.filter (fun i => match ps !! i with Some p => same_rec p target | None => false end) (seq 0 (length ps))).

Definition snap_of (p : plugin_rec) : plugin_snap := {| snap_name := p_name p; snap_path := p_path p |}.

Definition snaps_at (ps : list plugin_rec) (ixs : list nat) : list plugin_snap :=
  omap (fun i => snap_of <$> ps !! i) ixs.

(** The closure in list order; None when it exceeds the cap. *)
Definition plugin_closure (target : plugin_rec) (cap : nat) (ps : list plugin_rec) : option (list plugin_snap) :=
  let m := closure_members target ps in
  let snaps := snaps_at ps (List.filter (placed m) (seq 0 (length ps))) in
  if (cap <? length snaps)%nat then None else Some snaps.

Fixpoint restore_loads (env : plugin_env) (snap : list plugin_snap) (ps : list plugin_rec) (loaded : nat)
    (failed : option cstr) : list plugin_rec * nat * option cstr :=
  match snap with
  | [] => (ps, loaded, failed)
  | s :: snap' =>
      let '(ps, ok) := plugin_load env true (Some (snap_path s)) ps in
      if ok then restore_loads env snap' ps (S loaded) failed
      else restore_loads env snap' ps loaded (match failed with None => Some (snap_name s) | _ => failed end)
  end.

Definition plugin_restore (env : plugin_env) (snap : list plugin_snap) (ps : list plugin_rec)
    : list plugin_rec * nat * option cstr * plugin_log :=
  let '(ps, loaded, failed) := restore_loads env snap ps 0 None in
  if (loaded =? 0)%nat then (ps, 0%nat, failed, [])
  else
    let '(ps, ok, _) := plugin_resolve true ps in
    if negb ok then (ps, loaded, failed, [])
    else
      let '(ps, ok, log1) := plugin_init_all env true ps in
      if negb ok then (ps, loaded, failed, log1)
      else let '(ps, _, log2) := plugin_start_all env true ps in (ps, loaded, failed, log1 ++ log2).

Definition holds_bots (d : plugin_desc_t) : bool :=
  pd_ext d && (bool_decide (pd_type d = PLUGIN_BOT) || bool_decide (pd_type d = PLUGIN_FEATURE)
               || bool_decide (pd_type d = PLUGIN_METHOD)).

Definition plugin_detach_bots (d : plugin_desc_t) : plugin_log := if holds_bots d then [(HDetach, pd_name d)] else [].
Definition plugin_reattach_bots (env : plugin_env) (d : plugin_desc_t) : Z * plugin_log :=
  if holds_bots d then (e_rebound env d, [(HReattach, pd_name d)]) else (0, []).

Fixpoint plugin_resume_range (env : plugin_env) (snap : list plugin_snap) (skip : option cstr) (ps : list plugin_rec) : Z * plugin_log :=
  match snap with
  | [] => (0, [])
  | s :: snap' =>
      let '(n, log) := plugin_resume_range env snap' skip ps in
      if match skip with Some k => seqb (snap_name s) k | None => false end then (n, log)
      else match find_by_name (snap_name s) ps with
           | None => (n, log)
           | Some p =>
               let '(k, l) := plugin_reattach_bots env (p_desc p) in
               (k + n, l ++ (HResume, p_name p) :: log)
           end
  end.

(** [rsnap] is what is still to suspend, deepest dependent first, and [done] what
    was suspended, in dependency order. *)
Fixpoint suspend_loop (env : plugin_env) (rsnap done : list plugin_snap) (ps : list plugin_rec) : option cstr * plugin_log :=
  match rsnap with
  | [] => (None, [])
  | s :: rsnap' =>
      match find_by_name (snap_name s) ps with
      | None => suspend_loop env rsnap' (s :: done) ps
      | Some p =>
          if e_suspend env (p_desc p) then
            let '(r, log) := suspend_loop env rsnap' (s :: done) ps in
            (r, (HSuspend, p_name p) :: plugin_detach_bots (p_desc p) ++ log)
          else (Some (snap_name s), (HSuspend, p_name p) :: (plugin_resume_range env done None ps).2)
      end
  end.

Definition plugin_suspend_range (env : plugin_env) (snap : list plugin_snap) (ps : list plugin_rec) : option cstr * plugin_log :=
  suspend_loop env (rev snap) [] ps.

(** The cascade down, deepest dependent first; the plugin that refused, with
    what was taken down before it in dependency order. *)
Fixpoint unload_cascade (env : plugin_env) (rsnap down : list plugin_snap) (ps : list plugin_rec)
    : list plugin_rec * option (plugin_snap * list plugin_snap * unload_report) * plugin_log :=
  match rsnap with
  | [] => (ps, None, [])
  | s :: rsnap' =>
      let '(ps, ok, rep, log) := plugin_unload env true (Some (snap_name s)) ps in
      if ok then
        let '(ps, r, log') := unload_cascade env rsnap' (s :: down) ps in (ps, r, log ++ log')
      else (ps, Some (s, down, rep), log)
  end.

Record reload_report := mk_reload_report {
  r_dependents : Z; r_cycled : Z; r_rebound : Z;
  r_started : bool; r_rolled_back : bool; r_zombie : bool; r_failed : option cstr
}.

Definition no_reload : reload_report := mk_reload_report 0 0 0 false false false None.

Definition plugin_reload (env : plugin_env) (plugin_ready : bool) (name : option cstr) (ps : list plugin_rec)
    : list plugin_rec * bool * reload_report * plugin_log :=
  match name with
  | None => (ps, false, no_reload, [])
  | Some name =>
      if negb plugin_ready then (ps, false, no_reload, [])
      else match find_by_name name ps with
           | None => (ps, false, no_reload, [])
           | Some target =>
               match p_handle target with
               | None => (ps, false, no_reload, [])
               | Some _ =>
                   match plugin_closure target PLUGIN_RELOAD_MAX_CLOSURE ps with
                   | None => (ps, false, no_reload, [])
                   | Some snap =>
                       match List.find (fun s => seqb (snap_path s) []) snap with
                       | Some s => (ps, false, mk_reload_report 0 0 0 false false false (Some (snap_name s)), [])
                       | None =>
                           let dependents := Z.of_nat (length snap) - 1 in
                           match plugin_suspend_range env snap ps with
                           | (Some refused, log) => (ps, false, mk_reload_report 0 0 0 false false false (Some refused), log)
                           | (None, log0) =>
                               match unload_cascade env (rev snap) [] ps with
                               | (ps, Some (s, down, rep), log1) =>
                                   let '(ps, _, _, log2) := plugin_restore env down ps in
                                   let '(rebound, log3) := plugin_resume_range env snap (Some (snap_name s)) ps in
                                   (ps, false, mk_reload_report dependents 0 rebound true true (u_zombie rep) (Some (snap_name s)),
                                    log0 ++ log1 ++ log2 ++ log3)
                               | (ps, None, log1) =>
                                   let '(ps, cycled, failed, log2) := plugin_restore env snap ps in
                                   let '(rebound, log3) := plugin_resume_range env snap None ps in
                                   (ps, negb (cycled <? length snap)%nat,
                                    mk_reload_report dependents (Z.of_nat cycled) rebound true false false failed,
                                    log0 ++ log1 ++ log2 ++ log3)
                               end
                           end
                       end
                   end
               end
           end
  end.

(** ** Resolution against its specification *)

(** Everything in [order] has its requirements provided by what precedes it. *)
Fixpoint ordered_from (arr : list plugin_rec) (pre order : list nat) : Prop :=
  match order with
  | [] => True
  | i :: rest => satisfied arr pre i = true /\ ordered_from arr (pre ++ [i]) rest
  end.

(** The same of the records themselves. *)
Fixpoint providers_first (pre ps : list plugin_rec) : Prop :=
  match ps with
  | [] => True
  | p :: rest =>
      (forall need, need ∈ pd_requires (p_desc p) -> exists q, q ∈ pre /\ plugin_provides (p_desc q) need = true)
      /\ providers_first (pre ++ [p]) rest
  end.

Lemma placed_iff order i : placed order i = true <-> i ∈ order.
Proof.
  unfold placed. rewrite existsb_exists. split.
  - intros (x & Hx & He). breflect. subst. by apply list_elem_of_In.
  - intros H. exists i. split; [by apply list_elem_of_In|apply Nat.eqb_refl].
Qed.

Lemma resolve_feature_in_iff f arr order :
  resolve_feature_in f arr order = true <-> exists j, j ∈ order /\ provides_at arr f j = true.
Proof.
  unfold resolve_feature_in. rewrite existsb_exists. split; intros (x & Hx & H); exists x;
    (split; [by apply list_elem_of_In|done]).
Qed.

Lemma satisfied_mono arr o o' i :
  (forall x, x ∈ o -> x ∈ o') -> satisfied arr o i = true -> satisfied arr o' i = true.
Proof.
  unfold satisfied. destruct (desc_at arr i) as [d|]; [|done]. intros Hs. rewrite !forallb_forall.
  intros H f Hf. specialize (H f Hf). apply resolve_feature_in_iff in H as (j & Hj & Hp).
  apply resolve_feature_in_iff. eauto.
Qed.

Lemma ordered_from_snoc arr pre order i :
  ordered_from arr pre (order ++ [i]) <-> ordered_from arr pre order /\ satisfied arr (pre ++ order) i = true.
Proof.
  revert pre. induction order as [|x order IH]; intros pre; simpl.
  - rewrite app_nil_r. tauto.
  - rewrite IH, <- app_assoc. simpl. tauto.
Qed.

Record good_order (arr : list plugin_rec) (order : list nat) : Prop := {
  go_nodup : NoDup order;
  go_range : forall i, i ∈ order -> (i < length arr)%nat;
  go_ordered : ordered_from arr [] order
}.

Definition stuck (arr : list plugin_rec) (order ixs : list nat) : Prop :=
  forall i, i ∈ ixs -> i ∈ order \/ satisfied arr order i = false.

Lemma resolve_pass_spec arr ixs order prog :
  (forall i, i ∈ ixs -> (i < length arr)%nat) -> good_order arr order ->
  let '(order', prog') := resolve_pass arr ixs order prog in
  good_order arr order' /\ (length order <= length order')%nat /\
  if prog' then prog = true \/ (length order < length order')%nat
  else prog = false /\ order' = order /\ stuck arr order ixs.
Proof.
  revert order prog. induction ixs as [|i ixs IH]; intros order prog Hr Hg; simpl.
  - split; [done|]. split; [lia|]. destruct prog; [by left|]. split_and!; [done|done|by intros ? ?%elem_of_nil].
  - assert (Hr' : forall j, j ∈ ixs -> (j < length arr)%nat) by (intros; apply Hr; by right).
    destruct (placed order i) eqn:Ep.
    + specialize (IH order prog Hr' Hg). destruct (resolve_pass _ _ _ _) as [o' [|]]; [done|].
      destruct IH as (H1 & H2 & H3 & H4 & H5). split_and!; [done|done|done|done|].
      intros j [->|Hj]%elem_of_cons; [left; by apply placed_iff|by apply H5].
    + destruct (satisfied arr order i) eqn:Es.
      * assert (Hg' : good_order arr (order ++ [i])).
        { destruct Hg as [G1 G2 G3]. split.
          - apply list.NoDup_app. split_and!; [done| |apply NoDup_singleton].
            intros x Hx ->%list_elem_of_singleton. apply placed_iff in Hx. congruence.
          - intros j [Hj|Hj]%elem_of_app; [auto|]. apply list_elem_of_singleton in Hj as ->. apply Hr. by left.
          - by apply ordered_from_snoc. }
        specialize (IH (order ++ [i]) true Hr' Hg'). destruct (resolve_pass _ _ _ _) as [o' [|]].
        -- destruct IH as (H1 & H2 & _). rewrite length_app in H2. simpl in H2. split_and!; [done|lia|right; lia].
        -- by destruct IH as (_ & _ & ? & _).
      * specialize (IH order prog Hr' Hg). destruct (resolve_pass _ _ _ _) as [o' [|]]; [done|].
        destruct IH as (H1 & H2 & H3 & H4 & H5). split_and!; [done|done|done|done|].
        intros j [->|Hj]%elem_of_cons; [by right|by apply H5].
Qed.

Lemma good_order_perm arr order :
  good_order arr order -> (length order <= length arr)%nat.
Proof.
  intros [G1 G2 _]. rewrite <- (length_seq (length arr) 0). apply submseteq_length, NoDup_submseteq; [done|].
  intros i Hi. apply elem_of_seq. specialize (G2 i Hi). lia.
Qed.

(** The loop ends with everything placed or nothing more placeable. *)
Lemma resolve_loop_spec fuel arr order :
  (length arr < length order + fuel)%nat -> good_order arr order ->
  let o := resolve_loop fuel arr order in
  good_order arr o /\ (length o = length arr \/ stuck arr o (seq 0 (length arr))).
Proof.
  revert order. induction fuel as [|fuel IH]; intros order Hf Hg; simpl.
  { apply good_order_perm in Hg. lia. }
  destruct (length order <? length arr)%nat eqn:E; breflect.
  2:{ pose proof (good_order_perm _ _ Hg). split; [done|left; lia]. }
  assert (Hr : forall i, i ∈ seq 0 (length arr) -> (i < length arr)%nat) by (intros i Hi%elem_of_seq; lia).
  pose proof (resolve_pass_spec arr (seq 0 (length arr)) order false Hr Hg) as P.
  destruct (resolve_pass _ _ _ _) as [o' [|]].
  - destruct P as (P1 & P2 & [P3|P3]); [done|]. apply IH; [lia|done].
  - destruct P as (P1 & _ & _ & -> & P3). split; [done|by right].
Qed.

(** Any valid order of everything can be followed. *)
Lemma stuck_complete arr order pre s :
  stuck arr order (seq 0 (length arr)) -> ordered_from arr pre s ->
  (forall x, x ∈ pre -> x ∈ order) -> (forall x, x ∈ s -> (x < length arr)%nat) -> forall x, x ∈ s -> x ∈ order.
Proof.
  intros Hst. revert pre. induction s as [|i s IH]; simpl; intros pre Ho Hd Hr x Hx; [by apply elem_of_nil in Hx|].
  destruct Ho as [H1 H2].
  assert (Hi : i ∈ order).
  { destruct (Hst i) as [|Hno]; [apply elem_of_seq; split; [lia|]; apply Hr; by left|done|].
    rewrite (satisfied_mono arr pre order i Hd H1) in Hno. discriminate. }
  apply elem_of_cons in Hx as [->|Hx]; [done|].
  apply (IH (pre ++ [i])); [done| |intros; apply Hr; by right|done].
  intros y [?|Hy]%elem_of_app; [auto|]. by apply list_elem_of_singleton in Hy as ->.
Qed.

Lemma full_order_perm arr order :
  good_order arr order -> length order = length arr -> order ≡ₚ seq 0 (length arr).
Proof.
  intros [G1 G2 _] Hl. apply submseteq_length_Permutation; [|rewrite length_seq; lia].
  apply NoDup_submseteq; [done|]. intros i Hi. apply elem_of_seq. specialize (G2 i Hi). lia.
Qed.

Lemma omap_lookup_seq (arr : list plugin_rec) : omap (fun i => arr !! i) (seq 0 (length arr)) = arr.
Proof.
  assert (H : forall pre, omap (fun i => (pre ++ arr) !! i) (seq (length pre) (length arr)) = arr).
  { induction arr as [|a arr IH]; intros pre; [done|]. simpl.
    rewrite lookup_app_r, Nat.sub_diag by done. simpl. f_equal.
    specialize (IH (pre ++ [a])). rewrite length_app, <- app_assoc in IH. simpl in IH.
    by rewrite Nat.add_1_r in IH. }
  apply (H []).
Qed.

Lemma ordered_records arr pre order :
  ordered_from arr pre order ->
  providers_first (omap (fun i => arr !! i) pre) (omap (fun i => arr !! i) order).
Proof.
  revert pre. induction order as [|i order IH]; intros pre; simpl; [done|]. intros [H1 H2].
  unfold satisfied, desc_at in H1. destruct (arr !! i) as [p|] eqn:E; simpl in H1; [|done]. simpl. split.
  - rewrite forallb_forall in H1. intros need Hn%list_elem_of_In. apply H1, resolve_feature_in_iff in Hn as (j & Hj & Hp).
    unfold provides_at, desc_at in Hp. destruct (arr !! j) as [q|] eqn:Eq; [|done].
    exists q. split; [|done]. apply list_elem_of_omap. eauto.
  - specialize (IH (pre ++ [i]) H2). rewrite omap_app in IH. simpl in IH. by rewrite E in IH.
Qed.

(** ** The closure against its specification *)

(** Plugin [j] requires something plugin [i] provides. *)
Definition requires_at (arr : list plugin_rec) (i j : nat) : Prop :=
  (j < length arr)%nat /\ joins arr [i] j = true.

Lemma joins_iff arr m j : joins arr m j = true <-> exists i, i ∈ m /\ joins arr [i] j = true.
Proof.
  unfold joins. destruct (desc_at arr j) as [d|]; [|naive_solver].
  rewrite existsb_exists. split.
  - intros (f & Hf & (i & Hi & Hp)%existsb_exists). exists i. split; [by apply list_elem_of_In|].
    apply existsb_exists. exists f. split; [done|]. simpl. by rewrite Hp.
  - intros (i & Hi & (f & Hf & H)%existsb_exists). exists f. split; [done|].
    apply existsb_exists. exists i. split; [by apply list_elem_of_In|]. simpl in H. by rewrite orb_false_r in H.
Qed.

Section Closure.
Context (arr : list plugin_rec) (init : list nat).

Record good_members (m : list nat) : Prop := {
    gm_nodup : NoDup m;
    gm_init : forall i, i ∈ init -> i ∈ m;
    gm_reach : forall i, i ∈ m -> (i < length arr)%nat /\ exists t, t ∈ init /\ rtc (requires_at arr) t i
  }.

Definition closed_under (m ixs : list nat) : Prop := forall j, j ∈ ixs -> j ∈ m \/ joins arr m j = false.

Lemma closure_pass_spec ixs m prog :
    (forall i, i ∈ ixs -> (i < length arr)%nat) -> good_members m ->
    let '(m', prog') := closure_pass arr ixs m prog in
    good_members m' /\ (length m <= length m')%nat /\
    if prog' then prog = true \/ (length m < length m')%nat else prog = false /\ m' = m /\ closed_under m ixs.
Proof.
    revert m prog. induction ixs as [|i ixs IH]; intros m prog Hr Hg; simpl.
    { split; [done|]. split; [lia|]. destruct prog; [by left|]. split_and!; [done|done|by intros ? ?%elem_of_nil]. }
    assert (Hr' : forall j, j ∈ ixs -> (j < length arr)%nat) by (intros; apply Hr; by right).
    destruct (placed m i) eqn:Ep.
    { specialize (IH m prog Hr' Hg). destruct (closure_pass _ _ _ _) as [o' [|]]; [done|].
      destruct IH as (H1 & H2 & H3 & H4 & H5). split_and!; [done|done|done|done|].
      intros j [->|Hj]%elem_of_cons; [left; by apply placed_iff|by apply H5]. }
    destruct (joins arr m i) eqn:Es.
    - assert (Hi : (i < length arr)%nat) by (apply Hr; by left).
      assert (Hg' : good_members (i :: m)).
      { destruct Hg as [G1 G2 G3]. split.
        - apply list.NoDup_cons. split; [|done]. intros Hx%placed_iff. congruence.
        - intros j Hj. right. auto.
        - intros j [->|Hj]%elem_of_cons; [|auto]. split; [done|].
          apply joins_iff in Es as (k & Hk & Hj). destruct (G3 k Hk) as (_ & t & Ht & Hp).
          exists t. split; [done|]. by eapply rtc_r. }
      specialize (IH (i :: m) true Hr' Hg'). destruct (closure_pass _ _ _ _) as [o' [|]].
      + destruct IH as (H1 & H2 & _). simpl in H2. split_and!; [done|lia|right; lia].
      + by destruct IH as (_ & _ & ? & _).
    - specialize (IH m prog Hr' Hg). destruct (closure_pass _ _ _ _) as [o' [|]]; [done|].
      destruct IH as (H1 & H2 & H3 & H4 & H5). split_and!; [done|done|done|done|].
      intros j [->|Hj]%elem_of_cons; [by right|by apply H5].
Qed.

Lemma members_bound m : good_members m -> (length m <= length arr)%nat.
Proof.
    intros [G1 _ G3]. rewrite <- (length_seq (length arr) 0). apply submseteq_length, NoDup_submseteq; [done|].
    intros i Hi. apply elem_of_seq. destruct (G3 i Hi). lia.
Qed.

Lemma closure_loop_spec fuel m :
    (length arr < length m + fuel)%nat -> good_members m ->
    good_members (closure_loop fuel arr m) /\ closed_under (closure_loop fuel arr m) (seq 0 (length arr)).
Proof.
    revert m. induction fuel as [|fuel IH]; intros m Hf Hg; simpl.
    { pose proof (members_bound m Hg). lia. }
    assert (Hr : forall i, i ∈ seq 0 (length arr) -> (i < length arr)%nat) by (intros i Hi%elem_of_seq; lia).
    pose proof (closure_pass_spec (seq 0 (length arr)) m false Hr Hg) as P.
    destruct (closure_pass _ _ _ _) as [m' [|]].
    - destruct P as (P1 & P2 & [P3|P3]); [done|]. apply IH; [lia|done].
    - destruct P as (P1 & _ & _ & -> & P3). done.
Qed.

  (** The fixpoint is exactly what the target reaches. *)
Lemma closure_exact m :
    good_members m -> closed_under m (seq 0 (length arr)) ->
    forall i, i ∈ m <-> (i < length arr)%nat /\ exists t, t ∈ init /\ rtc (requires_at arr) t i.
Proof.
    intros Hg Hc i. split; [apply Hg|]. intros (_ & t & Ht & Hp).
    apply Hg in Ht. revert Ht. induction Hp as [|a b c Hab _ IH]; [done|]. intros Ha. apply IH.
    destruct Hab as [Hb Hj]. destruct (Hc b) as [|Hno]; [apply elem_of_seq; lia|done|].
    exfalso. rewrite <- not_true_iff_false in Hno. apply Hno, joins_iff. eauto.
Qed.
End Closure.

Lemma snaps_at_length ps ixs : (forall i, i ∈ ixs -> (i < length ps)%nat) -> length (snaps_at ps ixs) = length ixs.
Proof.
  induction ixs as [|i l IH]; intros Hr; simpl; [done|].
  destruct (lookup_lt_is_Some_2 ps i) as [p Hp]; [apply Hr; by left|]. rewrite Hp. simpl. f_equal.
  apply IH. intros; apply Hr; by right.
Qed.

Lemma filter_seq_range f n i : i ∈ List.filter f (seq 0 n) -> (i < n)%nat.
Proof. intros Hi%list_elem_of_In. apply List.filter_In in Hi as [Hi _]. apply in_seq in Hi. lia. Qed.

Lemma closure_members_spec target ps :
  NoDup (closure_members target ps) /\
  forall i, i ∈ closure_members target ps <-> (i < length ps)%nat /\
    exists t, (p_name <$> ps !! t) = Some (p_name target) /\ rtc (requires_at ps) t i.
Proof.
  set (init := List.filter (fun i => match ps !! i with Some p => same_rec p target | None => false end) (seq 0 (length ps))).
  assert (Hinit : forall t, t ∈ init <-> (p_name <$> ps !! t) = Some (p_name target)).
  { intros t. unfold init. rewrite list_elem_of_In, List.filter_In, <- list_elem_of_In, elem_of_seq.
    destruct (ps !! t) as [p|] eqn:E; simpl.
    - apply lookup_lt_Some in E. unfold same_rec. rewrite seqb_true.
      split; [intros [_ ->]; done|intros [= ->]; split; [lia|done]].
    - split; [by intros [_ ?]|done]. }
  assert (G0 : good_members ps init init).
  { split; [|done|].
    - unfold init. apply NoDup_ListNoDup, List.NoDup_filter, NoDup_ListNoDup, NoDup_seq.
    - intros i Hi. split; [|exists i; split; [done|apply rtc_refl]].
      apply Hinit in Hi. destruct (ps !! i) eqn:E; [|done]. by apply lookup_lt_Some in E. }
  destruct (closure_loop_spec ps init (S (length ps)) init) as [G C]; [lia|done|].
  unfold closure_members. fold init. split; [apply G|].
  intros i. rewrite (closure_exact ps init _ G C). split; intros (Hi & t & Ht & Hp);
    (split; [done|]; exists t; split; [by apply Hinit|done]).
Qed.

(** ** Properties *)

(** C35: plugin_resolve succeeds exactly when some order of all loaded plugins
    has every requirement provided by an earlier plugin; it then leaves the same
    plugins in such an order, and otherwise leaves the list alone. *)
Theorem plugin_resolve_correct (ps : list plugin_rec) :
  let '(ps', ok, _) := plugin_resolve true ps in
  (ok = true <-> exists order, order ≡ₚ seq 0 (length ps) /\ ordered_from ps [] order) /\
  if ok then ps' ≡ₚ ps /\ providers_first [] ps' else ps' = ps.
Proof.
  unfold plugin_resolve. cbn [negb].
  assert (G0 : good_order ps []) by (split; [constructor|by intros ? ?%elem_of_nil|done]).
  destruct (resolve_loop_spec (S (length ps)) ps []) as [G St]; [simpl; lia|done|].
  destruct ps as [|p0 ps0]; [split; [split; [by exists []|done]|done]|]. set (ps := p0 :: ps0) in *.
  destruct (length _ =? length ps)%nat eqn:E; breflect.
  - pose proof (full_order_perm _ _ G E) as Hp. split; [split; [|done]; intros _; eexists; split; [exact Hp|apply G]|].
    unfold resolve_apply_order. split.
    + rewrite Hp. by rewrite omap_lookup_seq.
    + exact (ordered_records ps [] _ (go_ordered _ _ G)).
  - split; [|done]. split; [done|]. intros (order & Hp & Ho). exfalso. apply E.
    destruct St as [St|St]; [done|].
    assert (C : forall x, x ∈ order -> x ∈ resolve_loop (S (length ps)) ps []).
    { apply (stuck_complete ps _ [] order St Ho); [by intros ? ?%elem_of_nil|].
      intros x Hx. rewrite Hp in Hx. apply elem_of_seq in Hx. lia. }
    pose proof (good_order_perm _ _ G) as Hle.
    assert (Hge : (length (seq 0 (length ps)) <= length (resolve_loop (S (length ps)) ps []))%nat).
    { apply submseteq_length, NoDup_submseteq; [apply NoDup_seq|]. intros x Hx. apply C. by rewrite Hp. }
    rewrite length_seq in Hge. lia.
Qed.

(** the closure a reload cycles is the least set of plugins that holds the
    target and every plugin requiring a feature a member provides, in list order;
    it is refused only when it exceeds the cap. *)
Theorem plugin_closure_least (target : plugin_rec) (cap : nat) (ps : list plugin_rec) :
  exists members, NoDup members /\
    (forall i, i ∈ members <-> (i < length ps)%nat /\
       exists t, (p_name <$> ps !! t) = Some (p_name target) /\ rtc (requires_at ps) t i) /\
    plugin_closure target cap ps =
      if (cap <? length (List.filter (placed members) (seq 0 (length ps))))%nat then None
      else Some (snaps_at ps (List.filter (placed members) (seq 0 (length ps)))).
Proof.
  destruct (closure_members_spec target ps) as [H1 H2].
  exists (closure_members target ps). split; [done|]. split; [done|].
  unfold plugin_closure. by rewrite snaps_at_length by apply filter_seq_range.
Qed.

(** ** The cascade *)

(** One plugin per feature. *)
Definition unique_providers (ps : list plugin_rec) : Prop :=
  forall i j p q f, ps !! i = Some p -> ps !! j = Some q ->
    plugin_provides (p_desc p) f = true -> plugin_provides (p_desc q) f = true -> i = j.

(** Nothing keeps a plugin from coming down. *)
Definition quiet (env : plugin_env) (p : plugin_rec) : Prop :=
  plugin_driver_bound env (p_desc p) = false /\ e_inflight env (p_desc p) <= 0 /\
  e_stop env (p_desc p) = true /\ e_residual env (p_desc p) <= 0.

Definition named_in (names : list cstr) (p : plugin_rec) : bool := existsb (seqb (p_name p)) names.

Lemma named_in_iff names p : named_in names p = true <-> p_name p ∈ names.
Proof.
  unfold named_in. rewrite existsb_exists. split.
  - intros (x & Hx & H%seqb_true). subst. by apply list_elem_of_In.
  - intros H. exists (p_name p). split; [by apply list_elem_of_In|apply seqb_refl].
Qed.

Lemma providers_first_lookup pre ps i p need :
  providers_first pre ps -> ps !! i = Some p -> need ∈ pd_requires (p_desc p) ->
  exists q, q ∈ pre ++ take i ps /\ plugin_provides (p_desc q) need = true.
Proof.
  revert pre i. induction ps as [|a ps IH]; simpl; intros pre i; [done|]. intros [H1 H2] Hi Hn.
  destruct i as [|i]; simpl in *.
  - injection Hi as ->. destruct (H1 _ Hn) as (q & Hq & Hp). exists q. by rewrite app_nil_r.
  - destruct (IH _ _ H2 Hi Hn) as (q & Hq & Hp). exists q. by rewrite <- app_assoc in Hq.
Qed.

Lemma find_by_name_unique ps p : NoDup (map p_name ps) -> p ∈ ps -> find_by_name (p_name p) ps = Some p.
Proof.
  induction ps as [|a ps IH]; simpl; [by intros _ ?%elem_of_nil|]. intros [Ha Hn]%list.NoDup_cons.
  intros [->|Hp]%elem_of_cons; [by rewrite seqb_refl|].
  destruct (seqb (p_name a) (p_name p)) eqn:E; creflect; [|auto].
  destruct Ha. rewrite E. by apply list_elem_of_fmap_2.
Qed.

Lemma unlink_rec_filter t ps :
  NoDup (map p_name ps) -> unlink_rec t ps = List.filter (fun q => negb (same_rec q t)) ps.
Proof.
  induction ps as [|a ps IH]; simpl; [done|]. intros [Ha Hn]%list.NoDup_cons.
  destruct (same_rec a t) eqn:E; simpl; [|by rewrite IH]. unfold same_rec in E. creflect.
  symmetry. apply forallb_filter_id, forallb_forall. intros x Hx%list_elem_of_In.
  apply negb_true_iff, seqb_false. intros Hx'. apply Ha. rewrite E, <- Hx'. by apply list_elem_of_fmap_2.
Qed.

Lemma filter_names_nodup f ps : NoDup (map p_name ps) -> NoDup (map p_name (List.filter f ps)).
Proof.
  induction ps as [|a ps IH]; simpl; [done|]. intros [Ha Hn]%list.NoDup_cons.
  destruct (f a); simpl; [|auto]. apply list.NoDup_cons. split; [|auto].
  intros (x & Hxa & Hx)%list_elem_of_fmap. apply Ha. rewrite Hxa. rewrite list_elem_of_In, List.filter_In in Hx.
  apply list_elem_of_fmap_2, list_elem_of_In. tauto.
Qed.

Lemma filter_filter_b {A} (f g : A -> bool) (l : list A) :
  List.filter f (List.filter g l) = List.filter (fun x => g x && f x) l.
Proof. induction l as [|x l IH]; simpl; [done|]. destruct (g x); simpl; by rewrite IH. Qed.

(** Unloading one quiet plugin nobody needs. *)
Lemma plugin_unload_quiet env p ps :
  NoDup (map p_name ps) -> p ∈ ps -> quiet env p -> existsb (depends_on p) ps = false ->
  exists rep log, plugin_unload env true (Some (p_name p)) ps =
    (List.filter (fun q => negb (same_rec q p)) ps, true, rep, log).
Proof.
  intros Hn Hp (Q1 & Q2 & Q3 & Q4) Hd. unfold plugin_unload. cbn [negb].
  rewrite find_by_name_unique, Hd, Q1, (proj2 (Z.ltb_ge _ _) Q2) by done.
  assert (T : exists log t, unload_teardown env p = (log, Some t) /\ p_name t = p_name p /\ p_desc t = p_desc p).
  { unfold unload_teardown. rewrite Q3. unfold p_name. destruct (bool_decide (p_state p = PLUGIN_RUNNING)); simpl.
    - by do 2 eexists.
    - destruct (_ || _); by do 2 eexists. }
  destruct T as (log & t & -> & Tn & Td). rewrite Td, (proj2 (Z.ltb_ge _ _) Q4).
  rewrite unlink_rec_filter by done. unfold same_rec. rewrite Tn. by do 2 eexists.
Qed.

Definition names_at (ps : list plugin_rec) (ixs : list nat) : list cstr := map snap_name (snaps_at ps ixs).

(** What is left when the plugins at [ixs] are gone. *)
Definition without (ps : list plugin_rec) (ixs : list nat) : list plugin_rec :=
  List.filter (fun p => negb (named_in (names_at ps ixs) p)) ps.

Lemma names_at_iff ps ixs n : n ∈ names_at ps ixs <-> exists i p, i ∈ ixs /\ ps !! i = Some p /\ p_name p = n.
Proof.
  unfold names_at, snaps_at. split.
  - intros (s & -> & Hs)%list_elem_of_fmap. apply list_elem_of_omap in Hs as (i & Hi & Hs).
    apply fmap_Some in Hs as (p & Hp & ->). exists i, p. auto.
  - intros (i & p & Hi & Hp & <-). apply list_elem_of_fmap. exists (snap_of p). split; [done|].
    apply list_elem_of_omap. exists i. split; [done|]. by rewrite Hp.
Qed.

Lemma name_index ps i j p q :
  NoDup (map p_name ps) -> ps !! i = Some p -> ps !! j = Some q -> p_name p = p_name q -> i = j.
Proof.
  intros Hn Hi Hj He. eapply (NoDup_lookup (map p_name ps)); [done| |].
  - rewrite list_lookup_fmap, Hi. reflexivity.
  - rewrite list_lookup_fmap, Hj. simpl. congruence.
Qed.

Section Cascade.
Context (env : plugin_env) (ps : list plugin_rec) (ixs : list nat).
Context (Hn : NoDup (map p_name ps)) (Ho : providers_first [] ps) (Hu : unique_providers ps).
Context (Hq : Forall (quiet env) ps) (Hs : StronglySorted lt ixs).
Context (Hr : forall i, i ∈ ixs -> (i < length ps)%nat).
Context (Hc : forall i j, i ∈ ixs -> requires_at ps i j -> j ∈ ixs).

Lemma without_elem J i p : ps !! i = Some p -> p ∈ without ps J <-> i ∉ J.
Proof.
    intros Hi. unfold without. rewrite list_elem_of_In, List.filter_In, <- list_elem_of_In, negb_true_iff,
      <- not_true_iff_false, named_in_iff, names_at_iff. split.
    - intros [_ H] HJ. apply H. eauto.
    - intros HJ. split; [by eapply list_elem_of_lookup_2|]. intros (j & q & Hj & Hjq & He).
      apply HJ. by rewrite (name_index ps i j p q).
Qed.

  (** Whoever needs a member was taken down before it. *)
Lemma cascade_free I' k J p :
    ixs = I' ++ k :: J -> ps !! k = Some p -> existsb (depends_on p) (without ps J) = false.
Proof.
    intros He Hk. apply not_true_iff_false. rewrite existsb_exists. intros (q & Hqw & Hd).
    apply list_elem_of_In in Hqw. apply andb_true_iff in Hd as [Hne (need & Hneed & Hp)%existsb_exists].
    assert (Hqp : q ∈ ps).
    { unfold without in Hqw. rewrite list_elem_of_In, List.filter_In, <- list_elem_of_In in Hqw. tauto. }
    apply list_elem_of_lookup in Hqp as (j & Hj).
    apply (without_elem J j q Hj) in Hqw.
    assert (Hji : j ∈ ixs).
    { apply (Hc k); [rewrite He; apply elem_of_app; right; left|]. split; [by apply lookup_lt_Some in Hj|].
      unfold joins, desc_at. rewrite Hj. simpl. apply existsb_exists. exists need. split; [done|].
      simpl. unfold provides_at, desc_at. rewrite Hk. simpl. by rewrite Hp. }
    assert (Hjk : j <> k).
    { intros ->. apply negb_true_iff in Hne. unfold same_rec in Hne. apply seqb_false in Hne. congruence. }
    assert (Hlt : (j < k)%nat).
    { rewrite He in Hji, Hs. apply elem_of_app in Hji as [Hji|Hji].
      - clear -Hs Hji. induction I' as [|a I' IH]; [by apply elem_of_nil in Hji|].
        simpl in Hs. apply StronglySorted_inv in Hs as [Hs Ha].
        apply elem_of_cons in Hji as [->|Hji]; [|auto].
        rewrite List.Forall_forall in Ha. apply Ha, in_or_app. right. by left.
      - apply elem_of_cons in Hji as [|]; done. }
    destruct (providers_first_lookup [] ps j q need Ho Hj) as (r & Hrr & Hrp); [by apply list_elem_of_In|].
    simpl in Hrr. apply list_elem_of_lookup in Hrr as (i & Hi). apply lookup_take_Some in Hi as [Hi Hij].
    rewrite (Hu i k r p need Hi Hk Hrp Hp) in Hij. lia.
Qed.

Lemma cascade_runs I' J down :
    ixs = I' ++ J ->
    exists log, unload_cascade env (rev (snaps_at ps I')) down (without ps J) = (without ps ixs, None, log).
Proof.
    revert J down. induction I' as [|k I' IH] using rev_ind; intros J down He.
    { simpl in He. subst J. by exists []. }
    rewrite <- app_assoc in He. simpl in He.
    destruct (lookup_lt_is_Some_2 ps k) as [p Hk]; [apply Hr; rewrite He; apply elem_of_app; right; left|].
    unfold snaps_at. rewrite omap_app. simpl. rewrite Hk. simpl. rewrite rev_app_distr.
    cbn [rev app unload_cascade]. change (snap_name (snap_of p)) with (p_name p).
    assert (HkJ : k ∉ J).
    { intros HJ. rewrite He in Hs. clear -Hs HJ. induction I' as [|a I' IH]; simpl in Hs;
        apply StronglySorted_inv in Hs as [Hs Ha]; [|auto].
      rewrite List.Forall_forall in Ha. apply list_elem_of_In, Ha in HJ. lia. }
    rewrite List.Forall_forall in Hq.
    destruct (plugin_unload_quiet env p (without ps J)) as (rep & log & ->).
    - by apply filter_names_nodup.
    - by apply (without_elem J k p Hk).
    - apply Hq, list_elem_of_In. by eapply list_elem_of_lookup_2.
    - by eapply cascade_free.
    - assert (Hw : List.filter (fun q => negb (same_rec q p)) (without ps J) = without ps (k :: J)).
      { unfold without. rewrite filter_filter_b. apply filter_ext_in. intros q _.
        unfold names_at, snaps_at. simpl. rewrite Hk. simpl. unfold same_rec.
        rewrite negb_orb. by rewrite andb_comm. }
      rewrite Hw. destruct (IH (k :: J) (snap_of p :: down) He) as [log' H].
      unfold snaps_at in H. rewrite H. by eexists.
Qed.
End Cascade.

(** when every feature has one provider and the list is in dependency order,
    taking a reload's closure down in reverse order is never refused because
    something still depends on a member, and takes down exactly the closure. *)
Theorem plugin_reload_cascade_unblocked (env : plugin_env) (target : plugin_rec) (cap : nat) (ps : list plugin_rec)
    (snap : list plugin_snap) :
  NoDup (map p_name ps) -> providers_first [] ps -> unique_providers ps -> Forall (quiet env) ps ->
  plugin_closure target cap ps = Some snap ->
  exists log, unload_cascade env (rev snap) [] ps =
    (List.filter (fun p => negb (named_in (map snap_name snap) p)) ps, None, log).
Proof.
  intros Hn Ho Hu Hq Hc. destruct (closure_members_spec target ps) as [_ Hm].
  set (ixs := List.filter (placed (closure_members target ps)) (seq 0 (length ps))).
  assert (Hix : forall i, i ∈ ixs <-> i ∈ closure_members target ps).
  { intros i. unfold ixs. rewrite list_elem_of_In, List.filter_In, placed_iff, <- list_elem_of_In, elem_of_seq, (Hm i).
    split; [tauto|]. intros [? ?]. split; [lia|tauto]. }
  assert (Hss : StronglySorted lt ixs).
  { unfold ixs. generalize 0%nat, (length ps). intros a n. revert a. induction n as [|n IH]; intros a; simpl; [constructor|].
    specialize (IH (S a)). case_match; [|done]. constructor; [done|].
    apply List.Forall_forall. intros x [Hx _]%List.filter_In. apply in_seq in Hx. lia. }
  destruct (cascade_runs env ps ixs Hn Ho Hu Hq Hss) with (I' := ixs) (J := @nil nat) (down := @nil plugin_snap) as [log H].
  - intros i Hi. by apply filter_seq_range in Hi.
  - intros i j Hi [Hj Hjo]. apply Hix, Hm. apply Hix, Hm in Hi as (_ & t & Ht & Hp).
    split; [done|]. exists t. split; [done|]. by eapply rtc_r.
  - by rewrite app_nil_r.
  - unfold plugin_closure in Hc. case_match; [done|]. injection Hc as <-.
    exists log. etrans; [|exact H]. f_equal. unfold without. simpl. symmetry.
    apply forallb_filter_id, forallb_forall. done.
Qed.

Lemma unload_teardown_same env p lg t :
  unload_teardown env p = (lg, Some t) -> p_name t = p_name p /\ p_desc t = p_desc p.
Proof.
  unfold unload_teardown. destruct (bool_decide (p_state p = _)); [destruct (e_stop env _)|];
    try done; destruct (_ || _); by intros [= _ <-].
Qed.

(** The list with [p]'s record replaced by a zombie [z]. *)
Section Zombie.
Context (p z : plugin_rec) (Hname : p_name z = p_name p) (Hdesc : p_desc z = p_desc p).

Lemma same_rec_zombie q : same_rec q z = same_rec q p.
Proof using Hname. unfold same_rec. by rewrite Hname. Qed.

Lemma replace_names ps : map p_name (replace_rec z ps) = map p_name ps.
Proof using.
  unfold replace_rec. rewrite map_map. apply map_ext. intros q. unfold same_rec.
  destruct (seqb (p_name q) (p_name z)) eqn:E; creflect; congruence.
Qed.

Lemma replace_elem ps : p ∈ ps -> z ∈ replace_rec z ps.
Proof using Hname.
  intros Hp. apply list_elem_of_fmap. exists p. split; [|done]. unfold same_rec. by rewrite Hname, seqb_refl.
Qed.

Lemma depends_on_replaced ps :
  existsb (depends_on p) ps = false -> existsb (depends_on z) (replace_rec z ps) = false.
Proof using Hname Hdesc.
  intros Hd. apply not_true_iff_false. intros (q & Hq & Hdq)%existsb_exists. rewrite <- not_true_iff_false in Hd. apply Hd.
  apply in_map_iff in Hq as (q0 & <- & Hq0). apply existsb_exists. exists q0. split; [done|].
  unfold depends_on, same_rec in Hdq |- *. rewrite Hname, Hdesc in Hdq.
  destruct (seqb (p_name q0) (p_name p)) eqn:E; [|by rewrite E in Hdq]. by rewrite Hname, seqb_refl in Hdq.
Qed.

Lemma replaced_filter ps :
  List.filter (fun q => negb (same_rec q z)) (replace_rec z ps) = List.filter (fun q => negb (same_rec q p)) ps.
Proof using Hname.
  unfold replace_rec. induction ps as [|q l IH]; simpl; [done|]. unfold same_rec in *. rewrite Hname in *.
  destruct (seqb (p_name q) (p_name p)) eqn:E; [rewrite Hname, seqb_refl; done|]. rewrite E. simpl. by rewrite IH.
Qed.

End Zombie.

(** A zombie is torn down without its callbacks. *)
Lemma unload_zombie env z name ps :
  find_by_name name ps = Some z -> p_state z = PLUGIN_ZOMBIE -> NoDup (map p_name ps) -> z ∈ ps ->
  existsb (depends_on z) ps = false -> plugin_driver_bound env (p_desc z) = false ->
  e_inflight env (p_desc z) <= 0 -> e_residual env (p_desc z) <= 0 ->
  exists rep log, plugin_unload env true (Some name) ps = (List.filter (fun q => negb (same_rec q z)) ps, true, rep, log) /\
    Forall (fun e => e.1 = HClose) log.
Proof.
  intros Hf Hs Hn Hz Hd B I R. unfold plugin_unload. cbn [negb].
  rewrite Hf, Hd, B, (proj2 (Z.ltb_ge _ _) I).
  assert (Hzt : unload_teardown env z = ([], Some z)) by (clear -Hs; destruct z; simpl in Hs; by subst).
  rewrite Hzt, (proj2 (Z.ltb_ge _ _) R), unlink_rec_filter by done. do 2 eexists. split; [done|].
  simpl. destruct (p_handle _); repeat constructor.
Qed.

(** a plugin left a zombie because something still pointed into its mapping
    comes out of the registry on a later unload, once nothing does: no restart is
    needed, and neither stop() nor deinit() is run again. *)
Theorem plugin_unload_clears_zombie (env env' : plugin_env) (name : cstr) (ps ps1 : list plugin_rec)
    (rep : unload_report) (log : plugin_log) (p : plugin_rec) :
  NoDup (map p_name ps) -> find_by_name name ps = Some p ->
  plugin_unload env true (Some name) ps = (ps1, false, rep, log) -> u_zombie rep = true ->
  plugin_driver_bound env' (p_desc p) = false -> e_inflight env' (p_desc p) <= 0 -> e_residual env' (p_desc p) <= 0 ->
  plugin_get_state (Some name) ps1 = PLUGIN_ZOMBIE /\
  exists rep' log', plugin_unload env' true (Some name) ps1 =
      (List.filter (fun q => negb (same_rec q p)) ps, true, rep', log') /\
    Forall (fun e => e.1 = HClose) log'.
Proof.
  intros Hn Hf Hu Hz B I R. unfold plugin_unload in Hu. cbn [negb] in Hu. rewrite Hf in Hu.
  destruct (existsb (depends_on p) ps) eqn:Hd; [injection Hu as _ <- _; discriminate Hz|].
  destruct (plugin_driver_bound env _); [injection Hu as _ <- _; discriminate Hz|].
  destruct (0 <? e_inflight env _); [injection Hu as _ <- _; discriminate Hz|].
  destruct (unload_teardown env p) as [lg [t|]] eqn:Et; [|injection Hu as _ <- _; discriminate Hz].
  apply unload_teardown_same in Et as [Tn Td]. destruct (0 <? e_residual env (p_desc t)); [|discriminate Hu].
  injection Hu as <- <- <-.
  apply List.find_some in Hf as [Hp Hname]. apply seqb_true in Hname. subst name. apply list_elem_of_In in Hp.
  set (z := set_pstate PLUGIN_ZOMBIE t). change (p_name t) with (p_name z) in Tn. change (p_desc t) with (p_desc z) in Td.
  assert (Hnz : NoDup (map p_name (replace_rec z ps))) by by rewrite replace_names.
  assert (Hzp : z ∈ replace_rec z ps) by by apply (replace_elem p).
  assert (Hfz : find_by_name (p_name p) (replace_rec z ps) = Some z) by (rewrite <- Tn; by apply find_by_name_unique).
  split; [unfold plugin_get_state; by rewrite Hfz|].
  rewrite <- (replaced_filter p z Tn ps).
  apply unload_zombie; rewrite ?Td; try done. by apply (depends_on_replaced p).
Qed.

(** ** Concrete instances *)

Definition demo_desc (name : string) (provides requires : list string) : plugin_desc_t :=
  {| pd_api_version := 15; pd_name := lit name; pd_version := lit "1"; pd_type := PLUGIN_MISC; pd_kind := [];
     pd_provides := map lit provides; pd_requires := map lit requires; pd_ext := false |}.

Definition demo_rec (name : string) (provides requires : list string) : plugin_rec :=
  mk_rec (lit name) (Some 1) (demo_desc name provides requires) PLUGIN_RUNNING.

Definition demo_env (residual : Z) : plugin_env :=
  {| e_dl := fun _ => None; e_bound := fun _ => false; e_inflight := fun _ => 0; e_init := fun _ => true;
     e_start := fun _ => true; e_stop := fun _ => true; e_suspend := fun _ => true; e_resume := fun _ => true;
     e_reclaimed := fun _ => 0; e_residual := fun _ => residual; e_rebound := fun _ => 0 |}.

Definition demo_plugins : list plugin_rec :=
  [demo_rec "whenmoon" ["wm"] []; demo_rec "irc" ["irc"] []; demo_rec "cc1" ["s1"] ["wm"]]%string.

Example resolve_reorders :
  map p_name (plugin_resolve true (rev demo_plugins)).1.1 = map lit ["irc"; "whenmoon"; "cc1"]%string.
Proof. reflexivity. Qed.

Lemma demo_ordered : NoDup (map p_name demo_plugins) /\ providers_first [] demo_plugins /\ unique_providers demo_plugins.
Proof.
  split; [by apply (bool_decide_unpack _); vm_compute|]. split.
  - simpl. split_and!; [by intros need ?%elem_of_nil|by intros need ?%elem_of_nil| |done].
    intros need ->%list_elem_of_singleton. exists (demo_rec "whenmoon" ["wm"%string] []).
    split; [left|reflexivity].
  - intros i j p q f Hi Hj Hp Hq.
    assert (D : forall n r, demo_plugins !! n = Some r -> (n < 3)%nat) by (intros n r H%lookup_lt_Some; exact H).
    pose proof (D _ _ Hi). pose proof (D _ _ Hj).
    destruct i as [|[|[|i]]]; [..|lia]; destruct j as [|[|[|j]]]; try lia; exfalso;
      injection Hi as <-; injection Hj as <-; cbn in Hp, Hq;
      rewrite orb_false_r in Hp, Hq; apply seqb_true in Hp, Hq; rewrite <- Hp in Hq; discriminate Hq.
Qed.

Lemma plugin_reload_cascade_unblocked_witness :
  exists snap log, plugin_closure (demo_rec "whenmoon" ["wm"%string] []) 64 demo_plugins = Some snap /\
    map snap_name snap = map lit ["whenmoon"; "cc1"]%string /\
    unload_cascade (demo_env 0) (rev snap) [] demo_plugins =
      (List.filter (fun p => negb (named_in (map snap_name snap) p)) demo_plugins, None, log).
Proof.
  destruct demo_ordered as (H1 & H2 & H3). eexists.
  destruct (plugin_reload_cascade_unblocked (demo_env 0) (demo_rec "whenmoon" ["wm"%string] []) 64 demo_plugins
    [snap_of (demo_rec "whenmoon" ["wm"%string] []); snap_of (demo_rec "cc1" ["s1"%string] ["wm"%string])]
    H1 H2 H3) as [log H].
  - repeat constructor; simpl; lia.
  - reflexivity.
  - exists log. split; [reflexivity|]. split; [reflexivity|exact H].
Defined.

Lemma plugin_unload_clears_zombie_witness :
  exists ps1 rep log rep' log',
    plugin_unload (demo_env 1) true (Some (lit "cc1")) demo_plugins = (ps1, false, rep, log) /\
    u_zombie rep = true /\
    plugin_unload (demo_env 0) true (Some (lit "cc1")) ps1 =
      (List.filter (fun q => negb (same_rec q (demo_rec "cc1" ["s1"%string] ["wm"%string]))) demo_plugins, true, rep', log').
Proof.
  destruct (plugin_unload (demo_env 1) true (Some (lit "cc1")) demo_plugins) as [[[ps1 ok] rep] log] eqn:E.
  assert (Hok : ok = false) by (vm_compute in E; congruence). subst ok.
  assert (Hz : u_zombie rep = true) by (vm_compute in E; injection E as _ <- _; reflexivity).
  destruct (plugin_unload_clears_zombie (demo_env 1) (demo_env 0) (lit "cc1") demo_plugins ps1 rep log
    (demo_rec "cc1" ["s1"%string] ["wm"%string])) as (_ & rep' & log' & H & _);
    [apply demo_ordered|reflexivity|exact E|exact Hz|reflexivity|simpl; lia|simpl; lia|].
  exists ps1, rep, log, rep', log'. split; [reflexivity|]. split; [exact Hz|exact H].
Defined.
