(* ===== verification/Sse.v ===== *)
(** * Server-sent events: core/sse.c

    The parser of a streamed response, byte by byte, with the capacities of its
    two growing buffers. A frame's payload goes to the callback; the events of a
    feed are the payloads in order. *)

From S2P Require Import Prelude.

Definition LF : ascii := "010".
Definition CR : ascii := "013".
Definition COLON : ascii := ":".

Definition SSE_INIT_CAP : Z := 4096.

(** Buffers hold their contents; a capacity of 0 is a NULL buffer. *)
Record sse_parser := mk_sse {
  line : cstr;
  line_cap : Z;
  frame : cstr;
  frame_cap : Z;
  has_data : bool
}.

Definition zlen {A} (l : list A) : Z := Z.of_nat (length l).

(** The doubling loop; capacities stay below [2 ^ 63]. *)
Fixpoint sse_grow (fuel : nat) (newcap required : Z) : Z :=
  match fuel with
  | O => newcap
  | S fuel => if newcap <? required then sse_grow fuel (newcap * 2) required else newcap
  end.

(** The new capacity. *)
Definition sse_ensure_cap (cap needed : Z) : Z :=
  let required := needed + 1 in
  if required <=? cap then cap
  else sse_grow 64 (if cap =? 0 then SSE_INIT_CAP else cap) required.

Definition sse_parser_new : sse_parser := mk_sse [] 0 [] 0 false.

Definition sse_parser_reset (p : sse_parser) : sse_parser := mk_sse [] (line_cap p) [] (frame_cap p) false.

Definition sse_frame_append (p : sse_parser) (data : cstr) : sse_parser :=
  let add := zlen data + (if has_data p then 1 else 0) in
  mk_sse (line p) (line_cap p)
    (frame p ++ (if has_data p then [LF] else []) ++ data)
    (sse_ensure_cap (frame_cap p) (zlen (frame p) + add)) true.

Definition strip_space (v : cstr) : cstr :=
  match v with c :: v' => if ceqb c " " then v' else v | [] => [] end.

(** The parser after one complete line, and the frame it emitted. *)
Definition sse_process_line (p : sse_parser) : sse_parser * option cstr :=
  match line p with
  | [] =>
      if negb (has_data p) then (p, None)
      else (mk_sse [] (line_cap p) [] (sse_ensure_cap (frame_cap p) (zlen (frame p))) false, Some (frame p))
  | c :: _ =>
      if ceqb c COLON then (p, None)
      else
        match strchr (line p) COLON with
        | None => (p, None)
        | Some colon =>
            let val := strip_space (drop (S colon) (line p)) in
            if seqb (take colon (line p)) (lit "data") then (sse_frame_append p val, None) else (p, None)
        end
  end.

Definition sse_line_push (p : sse_parser) (c : ascii) : sse_parser :=
  mk_sse (line p ++ [c]) (sse_ensure_cap (line_cap p) (zlen (line p) + 1)) (frame p) (frame_cap p) (has_data p).

Definition set_line (l : cstr) (p : sse_parser) : sse_parser := mk_sse l (line_cap p) (frame p) (frame_cap p) (has_data p).

Definition strip_cr (l : cstr) : cstr :=
  match rev l with
  | c :: r => if ceqb c CR then rev r else l
  | [] => l
  end.

(** One byte of the feed. *)
Definition sse_feed_byte (p : sse_parser) (c : ascii) : sse_parser * list cstr :=
  if ceqb c LF then
    let '(p, ev) := sse_process_line (set_line (strip_cr (line p)) p) in
    (set_line [] p, match ev with Some e => [e] | None => [] end)
  else (sse_line_push p c, []).

(** The returned count is the number of events. *)
Fixpoint sse_parser_feed (p : sse_parser) (buf : cstr) : sse_parser * list cstr :=
  match buf with
  | [] => (p, [])
  | c :: buf' =>
      let '(p, e1) := sse_feed_byte p c in
      let '(p, e2) := sse_parser_feed p buf' in
      (p, e1 ++ e2)
  end.

(** ** Buffer bounds *)

Lemma sse_grow_spec fuel newcap required :
  0 < newcap -> required <= newcap * 2 ^ Z.of_nat fuel ->
  required <= sse_grow fuel newcap required /\ newcap <= sse_grow fuel newcap required.
Proof.
  revert newcap. induction fuel as [|fuel IH]; intros newcap H0 H; cbn [sse_grow].
  - simpl in H. lia.
  - destruct (newcap <? required) eqn:E; breflect; [|lia].
    destruct (IH (newcap * 2)); [lia| |lia]. rewrite Nat2Z.inj_succ, Z.pow_succ_r in H by lia. lia.
Qed.

Lemma sse_ensure_cap_spec cap needed :
  0 <= cap -> 0 <= needed < 2 ^ 63 -> needed + 1 <= sse_ensure_cap cap needed /\ cap <= sse_ensure_cap cap needed.
Proof.
  intros Hc Hn. unfold sse_ensure_cap. destruct (_ <=? cap) eqn:E; breflect; [lia|].
  destruct (cap =? 0) eqn:E0; breflect.
  - destruct (sse_grow_spec 64 SSE_INIT_CAP (needed + 1)); unfold SSE_INIT_CAP in *; lia.
  - destruct (sse_grow_spec 64 cap (needed + 1)); lia.
Qed.

(** A buffer has room for its contents and a terminator, or does not exist. *)
Definition fits_in (l : cstr) (cap : Z) : Prop := 0 <= cap /\ (l = [] \/ zlen l + 1 <= cap).

Record sse_ok (n : Z) (p : sse_parser) : Prop := {
  so_line : fits_in (line p) (line_cap p);
  so_frame : fits_in (frame p) (frame_cap p);
  so_data : has_data p = false -> frame p = [];
  so_size : zlen (line p) + zlen (frame p) <= n
}.

Lemma zlen_app {A} (a b : list A) : zlen (a ++ b) = zlen a + zlen b.
Proof. unfold zlen. rewrite length_app. lia. Qed.

Lemma zlen_nonneg {A} (a : list A) : 0 <= zlen a.
Proof. unfold zlen. lia. Qed.

Lemma strip_cr_length l : zlen (strip_cr l) <= zlen l.
Proof.
  unfold strip_cr, zlen. destruct (rev l) as [|c r] eqn:E; [lia|]. destruct (ceqb _ _); [|lia].
  rewrite <- (rev_length l), E, rev_length. simpl. lia.
Qed.

Lemma fits_shorter l l' cap : fits_in l cap -> zlen l' <= zlen l -> fits_in l' cap.
Proof.
  intros [Hc H] Hl. split; [done|]. destruct H as [->|H]; [|right; lia].
  left. unfold zlen in Hl. destruct l'; simpl in *; [done|lia].
Qed.

Lemma frame_append_ok n p data :
  n < 2 ^ 63 -> sse_ok n p -> zlen (frame p) + zlen data + 1 <= n ->
  fits_in (frame (sse_frame_append p data)) (frame_cap (sse_frame_append p data)).
Proof.
  intros Hn [_ [H2 _] _ _] Hs. cbn. set (k := zlen (frame p) + _).
  pose proof (zlen_nonneg (line p)). pose proof (zlen_nonneg (frame p)). pose proof (zlen_nonneg data).
  destruct (sse_ensure_cap_spec (frame_cap p) k) as [E1 E2]; [done|destruct (has_data p); lia|].
  split; [lia|right]. rewrite !zlen_app. destruct (has_data p); unfold k in *; unfold zlen in *; simpl in *; lia.
Qed.

Lemma strip_space_length v : zlen (strip_space v) <= zlen v.
Proof. unfold strip_space, zlen. destruct v as [|c v]; [lia|]. destruct (ceqb _ _); simpl; lia. Qed.

Lemma set_line_ok n p l : sse_ok n p -> zlen l <= zlen (line p) -> sse_ok n (set_line l p).
Proof.
  intros [H1 H2 H3 H4] Hl. split; cbn; [by eapply fits_shorter|done|done|lia].
Qed.

(** Taking a line in keeps the bounds, and leaves room for dropping the line. *)
Lemma process_line_ok n p :
  n < 2 ^ 63 - 1 -> sse_ok n p -> sse_ok (n + 1) (set_line [] (sse_process_line p).1).
Proof.
  intros Hn Hp. pose proof Hp as [H1 H2 H3 H4].
  pose proof (zlen_nonneg (line p)). pose proof (zlen_nonneg (frame p)).
  assert (Hskip : sse_ok (n + 1) (set_line [] p)).
  { split; cbn; [split; [apply H1|by left]|done|done|unfold zlen in *; simpl; lia]. }
  unfold sse_process_line. destruct (line p) as [|c l] eqn:El.
  - destruct (has_data p) eqn:Ed; cbn [negb fst]; [|done].
    destruct (sse_ensure_cap_spec (frame_cap p) (zlen (frame p))) as [E1 E2]; [apply H2|unfold zlen in *; simpl in *; lia|].
    destruct H1, H2. split; cbn; [by split; [|left]|split; [lia|by left]|done|unfold zlen; simpl; lia].
  - destruct (ceqb c COLON); [done|]. rewrite <- El in *. destruct (strchr (line p) COLON) as [colon|] eqn:Ec; [|done].
    destruct (seqb _ _) eqn:Eq; [|done]. cbn [fst]. creflect.
    apply strchr_Some in Ec as (Hsplit & _ & Hlt).
    assert (Hl : length (take colon (line p)) = 4%nat) by (rewrite Eq; done).
    rewrite length_take in Hl. assert (colon = 4%nat) as -> by lia.
    set (val := strip_space (drop 5 (line p))).
    assert (Hv : zlen val + 5 <= zlen (line p)).
    { pose proof (strip_space_length (drop 5 (line p))). unfold val, zlen in *. rewrite length_drop in *. lia. }
    pose proof (zlen_nonneg val).
    assert (Hf : fits_in (frame (sse_frame_append p val)) (frame_cap (sse_frame_append p val))).
    { apply (frame_append_ok (n + 1)); [lia| |lia]. split; [done..|lia]. }
    destruct H1. split; cbn; [by split; [|left]|exact Hf|done|].
    rewrite !zlen_app. destruct (has_data p); unfold zlen in *; simpl in *; lia.
Qed.

Lemma feed_byte_ok n p c :
  n < 2 ^ 63 - 1 -> sse_ok n p -> sse_ok (n + 1) (sse_feed_byte p c).1.
Proof.
  intros Hn Hp. unfold sse_feed_byte. destruct (ceqb c LF).
  - pose proof (process_line_ok n (set_line (strip_cr (line p)) p) Hn) as P.
    destruct (sse_process_line _) as [p' ev]. apply P. apply set_line_ok; [done|apply strip_cr_length].
  - destruct Hp as [H1 H2 H3 H4]. pose proof (zlen_nonneg (line p)). pose proof (zlen_nonneg (frame p)).
    destruct (sse_ensure_cap_spec (line_cap p) (zlen (line p) + 1)) as [E1 E2]; [apply H1|lia|].
    split; cbn; [split; [destruct H1; lia|right; rewrite zlen_app; unfold zlen in *; simpl; lia]|done|done|].
    rewrite zlen_app. unfold zlen in *. simpl. lia.
Qed.

Lemma feed_ok n p buf :
  n + zlen buf < 2 ^ 63 - 1 -> sse_ok n p -> sse_ok (n + zlen buf) (sse_parser_feed p buf).1.
Proof.
  revert n p. induction buf as [|c buf IH]; intros n p Hn Hp; cbn [sse_parser_feed].
  - unfold zlen. simpl. by rewrite Z.add_0_r.
  - assert (Hz : zlen (c :: buf) = 1 + zlen buf) by (unfold zlen; simpl; lia).
    pose proof (zlen_nonneg buf). pose proof (feed_byte_ok n p c ltac:(lia) Hp) as Hb.
    destruct (sse_feed_byte p c) as [p1 e1]. specialize (IH (n + 1) p1 ltac:(lia) Hb).
    destruct (sse_parser_feed p1 buf) as [p2 e2]. cbn in *. by replace (n + zlen (c :: buf)) with (n + 1 + zlen buf) by lia.
Qed.

Lemma feed_app p a b :
  sse_parser_feed p (a ++ b) =
    let '(p1, e1) := sse_parser_feed p a in
    let '(p2, e2) := sse_parser_feed p1 b in (p2, e1 ++ e2).
Proof.
  revert p. induction a as [|c a IH]; intros p; cbn [sse_parser_feed app].
  - by destruct (sse_parser_feed p b).
  - destruct (sse_feed_byte p c) as [p1 e1]. rewrite IH.
    destruct (sse_parser_feed p1 a) as [p2 e2]. destruct (sse_parser_feed p2 b) as [p3 e3].
    by rewrite app_assoc.
Qed.

(** ** Streams *)

(** What a server sends for an event: one data line per line of the payload,
    each preceded by any comments and foreign fields, and a blank line; every
    line ends in LF or CRLF. *)
Definition eol (crlf : bool) : cstr := if crlf then [CR; LF] else [LF].

Definition plain_line (l : cstr) : Prop := LF ∉ l /\ CR ∉ l.

(** A line the parser has nothing to do with. *)
Definition ignored_line (l : cstr) : Prop :=
  plain_line l /\ l <> [] /\
  (deref l = COLON \/ COLON ∉ l \/ exists k, strchr l COLON = Some k /\ take k l <> lit "data").

Inductive sends (b : bool) : cstr -> list cstr -> Prop :=
  | sends_data l : plain_line l -> sends b (lit "data: " ++ l ++ eol b) [l]
  | sends_bare l : plain_line l -> (deref l <> " "%char) -> sends b (lit "data:" ++ l ++ eol b) [l]
  | sends_ignored l : ignored_line l -> sends b (l ++ eol b) []
  | sends_app s1 s2 ls1 ls2 : sends b s1 ls1 -> sends b s2 ls2 -> sends b (s1 ++ s2) (ls1 ++ ls2).

Fixpoint join_lf (ls : list cstr) : cstr :=
  match ls with
  | [] => []
  | [l] => l
  | l :: ls' => l ++ LF :: join_lf ls'
  end.

Inductive streams (b : bool) : cstr -> list cstr -> Prop :=
  | streams_nil : streams b [] []
  | streams_event s ls t evs :
      sends b s ls -> ls <> [] -> streams b t evs -> streams b (s ++ eol b ++ t) (join_lf ls :: evs)
  | streams_gap s t evs : sends b s [] -> streams b t evs -> streams b (s ++ eol b ++ t) evs.

(** The state between lines: an empty line buffer and the frame so far. *)
Definition at_frame (p : sse_parser) (ls : list cstr) : Prop :=
  line p = [] /\ frame p = join_lf ls /\ has_data p = match ls with [] => false | _ => true end.

Lemma feed_plain p l :
  plain_line l ->
  let p' := (sse_parser_feed p l).1 in
  (sse_parser_feed p l).2 = [] /\ line p' = line p ++ l /\ frame p' = frame p /\ has_data p' = has_data p.
Proof.
  revert p. induction l as [|c l IH]; intros p [H1 H2]; cbn zeta; cbn [sse_parser_feed].
  - by rewrite app_nil_r.
  - apply not_elem_of_cons in H1 as [Hc H1]. apply not_elem_of_cons in H2 as [_ H2].
    unfold sse_feed_byte. rewrite (proj2 (ceqb_false c LF)) by congruence.
    destruct (IH (sse_line_push p c)) as (I1 & I2 & I3 & I4); [done|].
    destruct (sse_parser_feed _ l) as [p' e]. cbn in *. subst e. rewrite I2, <- app_assoc. done.
Qed.

Lemma strip_cr_plain x : CR ∉ x -> strip_cr x = x.
Proof.
  intros H. unfold strip_cr. destruct (rev x) as [|c r] eqn:E; [done|].
  rewrite (proj2 (ceqb_false c CR)); [done|]. intros ->. apply H.
  rewrite <- (rev_involutive x), E. simpl. apply elem_of_app. right. left.
Qed.

Lemma strip_cr_cr x : strip_cr (x ++ [CR]) = x.
Proof. unfold strip_cr. rewrite rev_app_distr. simpl. by rewrite rev_involutive. Qed.

(** A whole line, with either ending, is one call of sse_process_line. *)
Lemma feed_line p x b :
  plain_line x -> line p = [] ->
  exists p1, line p1 = x /\ frame p1 = frame p /\ has_data p1 = has_data p /\
    sse_parser_feed p (x ++ eol b) =
      (set_line [] (sse_process_line p1).1, match (sse_process_line p1).2 with Some e => [e] | None => [] end).
Proof.
  intros Hx Hl. rewrite feed_app. destruct (feed_plain p x Hx) as (F1 & F2 & F3 & F4).
  destruct (sse_parser_feed p x) as [q e]. cbn in *. subst e. rewrite Hl in F2. simpl in F2.
  exists (set_line x (if b then sse_line_push q CR else q)).
  split; [done|]. split; [by destruct b|]. split; [by destruct b|].
  destruct b; cbn [eol sse_parser_feed].
  - unfold sse_feed_byte at 1. cbn [ceqb]. change (ceqb CR LF) with false. cbn iota.
    unfold sse_feed_byte. change (ceqb LF LF) with true. cbn iota. cbn [line sse_line_push]. rewrite F2, strip_cr_cr.
    change (mk_sse (x ++ [CR]) (sse_ensure_cap (line_cap q) (zlen x + 1)) (frame q) (frame_cap q) (has_data q))
      with (set_line (x ++ [CR]) (sse_line_push q CR)) || idtac.
    match goal with |- context [sse_process_line ?a] => destruct (sse_process_line a) as [p' ev] end.
    cbn. by rewrite app_nil_r.
  - unfold sse_feed_byte. change (ceqb LF LF) with true. cbn iota. rewrite F2, strip_cr_plain by apply Hx.
    destruct (sse_process_line _) as [p' ev]. cbn. by rewrite app_nil_r.
Qed.

Lemma join_lf_snoc acc l :
  join_lf (acc ++ [l]) = join_lf acc ++ (match acc with [] => [] | _ => [LF] end) ++ l.
Proof.
  induction acc as [|a acc IH]; [done|]. destruct acc as [|b acc].
  - simpl. done.
  - change (join_lf ((a :: b :: acc) ++ [l])) with (a ++ LF :: join_lf ((b :: acc) ++ [l])).
    rewrite IH. change (join_lf (a :: b :: acc)) with (a ++ LF :: join_lf (b :: acc)).
    by rewrite <- app_assoc.
Qed.

Lemma has_data_snoc (acc : list cstr) l : match acc ++ [l] with [] => false | _ => true end = true.
Proof. by destruct acc. Qed.

(** A data field goes to the frame. *)
Lemma process_data p v acc :
  line p = lit "data:" ++ v -> frame p = join_lf acc ->
  has_data p = match acc with [] => false | _ => true end ->
  (sse_process_line p).2 = None /\ at_frame (set_line [] (sse_process_line p).1) (acc ++ [strip_space v]).
Proof.
  intros Hl Hf Hd. unfold sse_process_line. rewrite Hl. cbn [lit list_ascii_of_string app].
  change (ceqb "d" COLON) with false. cbn iota.
  change (strchr ("d" :: "a" :: "t" :: "a" :: ":" :: v)%char COLON) with (Some 4%nat).
  cbn iota. cbn [take drop]. rewrite seqb_refl, drop_0. cbn iota. cbn [fst snd]. split; [done|].
  split; [done|]. cbn. rewrite has_data_snoc. split; [|done].
  rewrite Hf, Hd, join_lf_snoc. by destruct acc.
Qed.

Lemma process_ignored p l acc :
  ignored_line l -> line p = l -> frame p = join_lf acc ->
  has_data p = match acc with [] => false | _ => true end ->
  (sse_process_line p).2 = None /\ at_frame (set_line [] (sse_process_line p).1) acc.
Proof.
  intros (_ & Hne & Hi) Hl Hf Hd.
  assert (Hp : at_frame (set_line [] p) acc) by (split; [done|split; done]).
  assert (E : sse_process_line p = (p, None)); [|by rewrite E].
  unfold sse_process_line. rewrite Hl. destruct l as [|c l]; [done|]. simpl deref in Hi.
  destruct (ceqb c COLON) eqn:Ec; [done|]. creflect.
  destruct Hi as [->|[Hno|(k & Hk & Hne')]]; [done| |].
  - by rewrite (proj2 (strchr_None _ _) Hno).
  - rewrite Hk. by rewrite (proj2 (seqb_false _ _) Hne').
Qed.

Lemma feed_sends b s ls p acc :
  sends b s ls -> at_frame p acc ->
  (sse_parser_feed p s).2 = [] /\ at_frame (sse_parser_feed p s).1 (acc ++ ls).
Proof.
  intros Hs. revert p acc. induction Hs as [l Hl|l Hl Hsp|l Hi|s1 s2 ls1 ls2 _ IH1 _ IH2]; intros p acc (A1 & A2 & A3).
  - rewrite app_assoc. destruct (feed_line p (lit "data: " ++ l) b) as (p1 & L1 & L2 & L3 & ->);
      [split; [|]; intros [H|H]%elem_of_app; try (by apply Hl in H); by apply list_elem_of_In in H; simpl in H; repeat destruct H as [H|H]|done|].
    destruct (process_data p1 (" "%char :: l) acc) as [P1 P2]; [done|congruence|congruence|].
    cbn [fst snd]. rewrite P1. split; [done|exact P2].
  - rewrite app_assoc. destruct (feed_line p (lit "data:" ++ l) b) as (p1 & L1 & L2 & L3 & ->);
      [split; [|]; intros [H|H]%elem_of_app; try (by apply Hl in H); by apply list_elem_of_In in H; simpl in H; repeat destruct H as [H|H]|done|].
    destruct (process_data p1 l acc) as [P1 P2]; [done|congruence|congruence|].
    cbn [fst snd]. rewrite P1. split; [done|].
    assert (Hv : strip_space l = l).
    { destruct l as [|c l]; [done|]. simpl in *. by rewrite (proj2 (ceqb_false _ _) Hsp). }
    by rewrite Hv in P2.
  - destruct (feed_line p l b) as (p1 & L1 & L2 & L3 & ->); [apply Hi|done|].
    destruct (process_ignored p1 l acc) as [P1 P2]; [done|done|congruence|congruence|].
    cbn [fst snd]. rewrite P1, app_nil_r. done.
  - rewrite feed_app. destruct (IH1 p acc) as [I1 I2]; [done|].
    destruct (sse_parser_feed p s1) as [q1 e1]. cbn in I1, I2. subst e1.
    destruct (IH2 q1 (acc ++ ls1) I2) as [J1 J2].
    destruct (sse_parser_feed q1 s2) as [q2 e2]. cbn in *. subst e2. by rewrite app_assoc.
Qed.

(** The blank line. *)
Lemma feed_blank b p acc :
  at_frame p acc ->
  (sse_parser_feed p (eol b)).2 = match acc with [] => [] | _ => [join_lf acc] end /\
  at_frame (sse_parser_feed p (eol b)).1 [].
Proof.
  intros (A1 & A2 & A3). change (eol b) with ([] ++ eol b).
  destruct (feed_line p [] b) as (p1 & L1 & L2 & L3 & ->); [split; apply not_elem_of_nil|done|].
  unfold sse_process_line. rewrite L1, L3, A3, L2, A2. destruct acc; cbn [negb fst snd]; [|done].
  split; [done|]. split; [done|]. cbn. split; [by rewrite L2, A2|by rewrite L3, A3].
Qed.

Lemma feed_streams b s evs p :
  streams b s evs -> at_frame p [] ->
  (sse_parser_feed p s).2 = evs /\ at_frame (sse_parser_feed p s).1 [].
Proof.
  intros Hs. revert p. induction Hs as [|s ls t evs Hs Hne _ IH|s t evs Hs _ IH]; intros p Hp; [done|..].
  - rewrite feed_app. destruct (feed_sends b s ls p [] Hs Hp) as [F1 F2].
    destruct (sse_parser_feed p s) as [p1 e1]. cbn in F1, F2. subst e1. rewrite feed_app.
    destruct (feed_blank b p1 ls F2) as [B1 B2]. destruct (sse_parser_feed p1 (eol b)) as [p2 e2]. cbn in B1, B2.
    destruct (IH p2 B2) as [I1 I2]. destruct (sse_parser_feed p2 t) as [p3 e3]. cbn in *. subst.
    split; [|done]. by destruct ls.
  - rewrite feed_app. destruct (feed_sends b s [] p [] Hs Hp) as [F1 F2].
    destruct (sse_parser_feed p s) as [p1 e1]. cbn in F1, F2. subst e1. rewrite feed_app.
    destruct (feed_blank b p1 [] F2) as [B1 B2]. destruct (sse_parser_feed p1 (eol b)) as [p2 e2]. cbn in B1, B2.
    destruct (IH p2 B2) as [I1 I2]. destruct (sse_parser_feed p2 t) as [p3 e3]. cbn in *. by subst.
Qed.

(** The feeds of a transfer, one per chunk the network delivers. *)
Fixpoint feed_chunks (p : sse_parser) (chunks : list cstr) : sse_parser * list cstr :=
  match chunks with
  | [] => (p, [])
  | c :: cs =>
      let '(p, e1) := sse_parser_feed p c in
      let '(p, e2) := feed_chunks p cs in (p, e1 ++ e2)
  end.

Lemma feed_chunks_concat p chunks : feed_chunks p chunks = sse_parser_feed p (concat chunks).
Proof.
  revert p. induction chunks as [|c cs IH]; intros p; simpl; [done|].
  rewrite feed_app. destruct (sse_parser_feed p c) as [p1 e1]. by rewrite IH.
Qed.

(** ** Properties *)



(** whatever bytes arrive, in whatever chunks, both buffers keep room for
    their contents and the terminating NUL, and together hold no more than was
    received; an empty frame flag means an empty frame. *)
Theorem sse_buffers_in_bounds (chunks : list cstr) :
  zlen (concat chunks) < 2 ^ 63 - 1 -> sse_ok (zlen (concat chunks)) (feed_chunks sse_parser_new chunks).1.
Proof.
  intros H. rewrite feed_chunks_concat. apply (feed_ok 0); [lia|].
  split; [by split; [|left]|by split; [|left]|done|done].
Qed.

Lemma sse_buffers_in_bounds_witness :
  sse_ok 5 (feed_chunks sse_parser_new [lit "da"; lit "ta:"]).1.
Proof. apply (sse_buffers_in_bounds [lit "da"; lit "ta:"]). reflexivity. Defined.
