(* ===== verification/Util.v ===== *)
(** * Shared helpers: core/util.c

    Hashes, bounded scanning, Base64, and the URL helpers: image-URL search,
    redaction of credentials, the check against fetching internal addresses, and
    canonicalization. Byte buffers are lists of characters. *)

From S2P Require Import Prelude.

#[local] Open Scope c_scope.

Definition ascii_nat (n : nat) : ascii := ascii_of_nat n.

(** ** Hashing *)

Definition util_fnv1a (s : cstr) : Z :=
  fold_left (fun h c => wrap 32 (Z.lxor h (code c) * 16777619)) s 2166136261.

Definition util_fnv1a_ci (s : cstr) : Z :=
  fold_left (fun h c => wrap 32 (Z.lxor h (code (tolower c)) * 16777619)) s 2166136261.

Definition util_djb2 (s : cstr) : Z :=
  fold_left (fun h c => wrap 32 (wrap 32 (wrap 32 (Z.shiftl h 5) + h) + code c)) s 5381.

(** ** Bounded scanning *)

(** The offset of the first occurrence. *)
Definition util_memstr (hay needle : cstr) : option nat :=
  match needle with [] => None | _ => if (length hay <? length needle)%nat then None else strstr hay needle end.

Definition is_json_ws (c : ascii) : bool := ceqb c " " || ceqb c "009" || ceqb c "010" || ceqb c "013".

(** The value after the colon, when there is one. *)
Definition util_skip_to_value (p : cstr) : option cstr :=
  match skip_while is_json_ws p with
  | c :: p' => if ceqb c ":" then Some (skip_while is_json_ws p') else None
  | [] => None
  end.

(** ** Base64 *)

Definition b64_tbl : cstr := lit "ABCDEFGHIJKLMNOPQRSTUVWXYZabcdefghijklmnopqrstuvwxyz0123456789+/".

Definition PAD : ascii := "=".

(** [tbl[v & 0x3f]] *)
Definition b64_chr (v : Z) : ascii := nth (Z.to_nat (Z.land v 63)) b64_tbl NUL.

(** The 24-bit group of up to three bytes. *)
Definition b64_group (a b c : Z) : Z := Z.lor (Z.lor (Z.shiftl a 16) (Z.shiftl b 8)) c.

Fixpoint b64_groups (p : cstr) : cstr :=
  match p with
  | [] => []
  | [a] => let v := b64_group (code a) 0 0 in [b64_chr (Z.shiftr v 18); b64_chr (Z.shiftr v 12); PAD; PAD]
  | [a; b] =>
      let v := b64_group (code a) (code b) 0 in
      [b64_chr (Z.shiftr v 18); b64_chr (Z.shiftr v 12); b64_chr (Z.shiftr v 6); PAD]
  | a :: b :: c :: rest =>
      let v := b64_group (code a) (code b) (code c) in
      b64_chr (Z.shiftr v 18) :: b64_chr (Z.shiftr v 12) :: b64_chr (Z.shiftr v 6) :: b64_chr v :: b64_groups rest
  end.

(** The text written; None is the 0 returned when it does not fit. *)
Definition util_b64_encode (p : cstr) (out_cap : nat) : option cstr :=
  let need := S ((length p + 2) / 3 * 4) in
  if (out_cap <? need)%nat then None else Some (b64_groups p).

Definition url_safe (c : ascii) : ascii := if ceqb c "+" then "-"%char else if ceqb c "/" then "_"%char else c.

(** Drops the padding at the end. *)
Fixpoint strip_pad (l : cstr) : cstr :=
  match l with
  | [] => []
  | c :: l' =>
      match strip_pad l' with
      | [] => if ceqb c PAD then [] else [c]
      | s => c :: s
      end
  end.

Definition util_b64url_encode (p : cstr) (out_cap : nat) : option cstr :=
  match util_b64_encode p out_cap with
  | None => None
  | Some t => Some (strip_pad (map url_safe t))
  end.

Definition util_b64_val (c : ascii) : Z :=
  if in_range 65 90 (code c) then code c - 65
  else if in_range 97 122 (code c) then code c - 97 + 26
  else if in_range 48 57 (code c) then code c - 48 + 52
  else if ceqb c "+" then 62
  else if ceqb c "/" then 63
  else -1.

(** The loop, with the accumulator, its bit count and the bytes written; None is
    FAIL. *)
Fixpoint b64_decode_loop (out_cap : nat) (p : cstr) (acc nbits : Z) (o : cstr) : option cstr :=
  match p with
  | [] => Some o
  | c :: p' =>
      if ceqb c PAD then Some o
      else if is_json_ws c then b64_decode_loop out_cap p' acc nbits o
      else
        let v := util_b64_val c in
        if v <? 0 then None
        else
          let acc := Z.lor (wrap 32 (Z.shiftl acc 6)) v in
          let nbits := nbits + 6 in
          if 8 <=? nbits then
            let nbits := nbits - 8 in
            if (out_cap <=? length o)%nat then None
            else b64_decode_loop out_cap p' acc nbits (o ++ [chr (Z.land (Z.shiftr acc nbits) 255)])
          else b64_decode_loop out_cap p' acc nbits o
  end.

Definition util_b64_decode (p : option cstr) (out_cap : nat) : option cstr :=
  match p with None => None | Some p => b64_decode_loop out_cap p 0 0 [] end.

(** ** URLs in text *)

Definition util_is_url_char (c : ascii) : bool :=
  negb ((code c <=? 32) || (code c =? 127))
  && negb (ceqb c "<" || ceqb c ">" || ceqb c "034" || ceqb c "'").

(** Both strings hold at least the compared characters, or a NUL before. *)
Definition util_strncasecmp_ascii (a b : cstr) (n : nat) : bool := strncaseeq n a b.

Definition image_exts : list cstr := map lit ["jpeg"; "jpg"; "png"; "gif"; "webp"]%string.

(** The part before the query. *)
Definition before (c : ascii) (s : cstr) : cstr := match strchr s c with Some i => take i s | None => s end.

Definition util_url_has_image_ext (body : cstr) : bool :=
  let path := before "?" body in
  match strrchr path "." with
  | None => false
  | Some dot =>
      let ext := path +> S dot in
      match ext with
      | [] => false
      | _ => existsb (fun e => (length e =? length ext)%nat && util_strncasecmp_ascii ext e (length ext)) image_exts
      end
  end.

(** The URL that starts at [p], if one with an image extension does. *)
Definition image_url_at (p : cstr) : option cstr :=
  if negb (util_strncasecmp_ascii p (lit "http") 4) then None
  else
    let u := p +> 4 in
    let u := match u with c :: u' => if ceqb c "s" || ceqb c "S" then u' else u | [] => u end in
    if negb (starts_with u (lit "://")) then None
    else
      let body := span util_is_url_char (drop 3 u) in
      match body with
      | [] => None
      | _ =>
          if util_url_has_image_ext body
          then Some (take (length p - length (drop 3 u) + length body) p) else None
      end.

Fixpoint find_image_loop (p : cstr) : option cstr :=
  match p with
  | [] => None
  | _ :: p' => match image_url_at p with Some u => Some u | None => find_image_loop p' end
  end.

Definition util_find_image_url (text : option cstr) (out_cap : nat) : option cstr :=
  match text with
  | None => None
  | Some t =>
      if (out_cap =? 0)%nat then None
      else match find_image_loop t with
           | Some u => if (out_cap <? length u + 1)%nat then None else Some u
           | None => None
           end
  end.

(** ** Redaction *)

Definition util_secret_frags : list cstr :=
  map lit ["key"; "token"; "secret"; "password"; "passwd"; "pass"; "auth"; "signature"; "sig"; "crumb";
           "credential"; "session"; "cookie"]%string.

Definition util_redaction : cstr := lit "[CENSORED]".

Definition has_sub (s f : cstr) : bool := match strstr s f with Some _ => true | None => false end.

(** [lower] is 64 bytes. *)
Definition util_param_is_secret (name : cstr) : bool :=
  match name with
  | [] => false
  | _ => existsb (has_sub (map tolower (take 63 name))) util_secret_frags
  end.

(** Only the first 63 characters of a name are looked at. *)
Example util_param_long_name :
  util_param_is_secret (repeat "x"%char 60 ++ lit "_token") = false /\
  util_param_is_secret (repeat "x"%char 57 ++ lit "_token") = true.
Proof. by vm_compute. Qed.

(** [out] is what is in the buffer of [cap] bytes. *)
Definition util_append (cap : nat) (out src : cstr) : cstr * bool :=
  if (cap <=? length out + length src)%nat then
    let fit := if (length out + 1 <? cap)%nat then (cap - length out - 1)%nat else 0%nat in
    (out ++ take fit src, false)
  else (out ++ src, true).

(** One parameter. *)
Definition redact_param (cap : nat) (out p : cstr) : cstr * bool :=
  match strchr p "=" with
  | Some eq =>
      if util_param_is_secret (take eq p) then
        let '(out, ok) := util_append cap out (take (S eq) p) in
        if ok then util_append cap out util_redaction else (out, false)
      else util_append cap out p
  | None => util_append cap out p
  end.

(** The while loop; each turn consumes at least the ampersand. *)
Fixpoint redact_loop (fuel : nat) (cap : nat) (p out : cstr) : cstr :=
  match fuel with
  | O => out
  | S fuel =>
      match p with
      | [] => out
      | _ =>
          let amp := strchr p "&" in
          let '(out, ok) := redact_param cap out (match amp with Some i => take i p | None => p end) in
          if negb ok then out
          else match amp with
               | None => out
               | Some i =>
                   let '(out, ok) := util_append cap out (lit "&") in
                   if ok then redact_loop fuel cap (p +> S i) out else out
               end
      end
  end.

Definition util_redact_url (url : option cstr) (out_cap : nat) : cstr :=
  if (out_cap =? 0)%nat then []
  else match url with
       | None => []
       | Some url =>
           match strchr url "?" with
           | None => strlcpy out_cap url
           | Some q =>
               let '(out, ok) := util_append out_cap [] (take (S q) url) in
               if negb ok then out else redact_loop (S (length url)) out_cap (drop (S q) url) out
           end
       end.

(** ** The check against fetching internal addresses *)

(** The C library's legacy address parser is an argument: true when it takes the
    text for an IPv4 address. *)
Section safe_https.
  Context (inet_aton : cstr -> bool).

Definition host_delim (c : ascii) : bool := ceqb c ":" || ceqb c "/" || ceqb c "?" || ceqb c "#".

Definition util_url_is_safe_https (url : option cstr) : bool :=
  match url with
  | None => false
  | Some url =>
      if negb (util_strncasecmp_ascii url (lit "https://") 8) then false
      else
        let host_start := url +> 8 in
        if ceqb *[host_start] "[" then false
        else
          let raw := span (fun c => negb (host_delim c)) host_start in
          if (length raw =? 0)%nat || (256 <=? length raw)%nat then false
          else
            let host := map tolower raw in
            if seqb host (lit "localhost") then false
            else if strneq 10 host (lit "localhost.") then false
            else negb (inet_aton host)
  end.

End safe_https.

(** ** Canonicalization *)

Definition util_url_hexval (c : ascii) : Z :=
  if in_range 48 57 (code c) then code c - 48
  else if in_range 97 102 (code c) then code c - 97 + 10
  else if in_range 65 70 (code c) then code c - 65 + 10
  else -1.

Definition util_url_octet_is_bare (c : ascii) : bool :=
  if isalnum c then true
  else if ceqb c NUL then false
  else match strchr (lit "-._~!$'()*,;") c with Some _ => true | None => false end.

(** The labels the two loops walk: a dot at the end of the host ends the walk, so
    it opens no label. *)
Fixpoint host_labels (s cur : cstr) : list cstr :=
  match s with
  | [] => match cur with [] => [] | _ => [cur] end
  | c :: s' => if ceqb c "." then cur :: host_labels s' [] else host_labels s' (cur ++ [c])
  end.

Definition is_mobile (l : cstr) : bool := match l with [c] => ceqb c "m" || ceqb c "M" | _ => false end.

(** The second loop: [first] until a label was written. *)
Fixpoint write_labels (drop_m first : bool) (ls : list cstr) : cstr :=
  match ls with
  | [] => []
  | l :: ls =>
      if drop_m && is_mobile l then write_labels drop_m first ls
      else (if first then [] else ["."%char]) ++ map tolower l ++ write_labels drop_m false ls
  end.

(** What is appended for the authority. *)
Definition util_url_canon_host (host : cstr) (https : bool) : cstr :=
  let colon := strchr host ":" in
  let labels := host_labels (before ":" host) [] in
  let mobile := length (filter is_mobile labels) in
  let drop_m := (0 <? mobile)%nat && (2 <=? length labels - mobile)%nat in
  write_labels drop_m true labels ++
  match colon with
  | None => []
  | Some i =>
      let port := host +> S i in
      let dflt := if https then lit "443" else lit "80" in
      if negb (length port =? 0)%nat && negb (seqb port dflt) then ":"%char :: port else []
  end.

Definition hex_chr (d : Z) : ascii := nth (Z.to_nat d) (lit "0123456789ABCDEF") NUL.

(** What is appended for the path and query. *)
Fixpoint util_url_canon_pq (p : cstr) : cstr :=
  match p with
  | [] => []
  | c :: p' =>
      match p' with
      | h :: l :: rest =>
          if negb (ceqb c "%") then c :: util_url_canon_pq p'
          else
            let hi := util_url_hexval h in
            let lo := util_url_hexval l in
            if (hi <? 0) || (lo <? 0) then c :: util_url_canon_pq p'
            else
              let oct := chr (Z.lor (Z.shiftl hi 4) lo) in
              if util_url_octet_is_bare oct then oct :: util_url_canon_pq rest
              else "%"%char :: hex_chr hi :: hex_chr lo :: util_url_canon_pq rest
      | _ => c :: util_url_canon_pq p'
      end
  end.

Definition auth_delim (c : ascii) : bool := ceqb c "/" || ceqb c "?" || ceqb c "#".

Definition util_url_canon (url : option cstr) (out_cap : nat) : cstr :=
  if (out_cap =? 0)%nat then []
  else
    match url with
    | None => []
    | Some url =>
        let https := util_strncasecmp_ascii url (lit "https://") 8 in
        let scheme_len :=
          if https then 8%nat
          else if util_strncasecmp_ascii url (lit "http://") 7 then 7%nat else 0%nat in
        if (scheme_len =? 0)%nat || (out_cap <? length url + 2)%nat then strlcpy out_cap url
        else
          let host := url +> scheme_len in
          let authority := span (fun c => negb (auth_delim c)) host in
          let authority_end := host +> length authority in
          if has_sub authority (lit "@") || ceqb *[host] "[" then strlcpy out_cap url
          else
            let pq := before "#" authority_end in
            (if https then lit "https://" else lit "http://") ++
            util_url_canon_host authority https ++
            (if (length pq =? 0)%nat || negb (ceqb *[authority_end] "/") then ["/"%char] else []) ++
            util_url_canon_pq pq
    end.

(** ** Base64 round trip *)

Definition b64_chr_ok (v : Z) : bool :=
  (util_b64_val (b64_chr v) =? v) && negb (ceqb (b64_chr v) PAD) && negb (is_json_ws (b64_chr v)).

Lemma b64_chr_facts v :
  util_b64_val (b64_chr v) = v mod 64 /\ ceqb (b64_chr v) PAD = false /\ is_json_ws (b64_chr v) = false.
Proof.
  assert (Hm : b64_chr v = b64_chr (v mod 64)).
  { unfold b64_chr. change 63 with (Z.ones 6). rewrite !Z.land_ones by lia. by rewrite Z.mod_mod by lia. }
  rewrite Hm. pose proof (Z.mod_pos_bound v 64 ltac:(lia)) as Hb.
  assert (H : forallb (fun n => b64_chr_ok (Z.of_nat n)) (seq 0 64) = true) by by vm_compute.
  rewrite forallb_forall in H. specialize (H (Z.to_nat (v mod 64)) ltac:(apply in_seq; lia)).
  rewrite Z2Nat.id in H by lia. unfold b64_chr_ok in H. breflect. auto.
Qed.

Lemma b64_group_sum a b c :
  0 <= b < 256 -> 0 <= c < 256 -> b64_group a b c = a * 65536 + b * 256 + c.
Proof.
  intros Hb Hc. unfold b64_group. rewrite !Z.shiftl_mul_pow2 by lia.
  replace (a * 2 ^ 16) with (a * 2 ^ 8 * 2 ^ 8) by lia.
  rewrite <- !(Z.shiftl_mul_pow2 _ 8) by lia. rewrite <- Z.shiftl_lor.
  rewrite !Z.shiftl_mul_pow2 by lia. rewrite (lor_shift_add a 8 b) by lia.
  rewrite (lor_shift_add _ 8 c) by lia. lia.
Qed.

(** One character of the alphabet. *)
Lemma b64_step cap v p acc nbits o :
  b64_decode_loop cap (b64_chr v :: p) acc nbits o =
  let acc' := wrap 32 (acc * 64) + v mod 64 in
  if 8 <=? nbits + 6 then
    if (cap <=? length o)%nat then None
    else b64_decode_loop cap p acc' (nbits + 6 - 8) (o ++ [chr (Z.shiftr acc' (nbits + 6 - 8))])
  else b64_decode_loop cap p acc' (nbits + 6) o.
Proof.
  cbn [b64_decode_loop]. destruct (b64_chr_facts v) as (-> & -> & ->).
  pose proof (Z.mod_pos_bound v 64 ltac:(lia)) as Hb.
  zcond.
  replace (Z.lor (wrap 32 (Z.shiftl acc 6)) (v mod 64)) with (wrap 32 (acc * 64) + v mod 64).
  - cbv zeta. destruct (8 <=? nbits + 6); [|done]. destruct (cap <=? length o)%nat; [done|].
    do 3 f_equal. unfold chr. change 255 with (Z.ones 8). rewrite Z.land_ones by lia.
    change (2 ^ 8) with 256. by rewrite Z.mod_mod by lia.
  - unfold wrap. rewrite Z.shiftl_mul_pow2 by lia.
    replace (2 ^ 32) with (2 ^ 26 * 2 ^ 6) by lia.
    change 64 with (2 ^ 6) at 1. rewrite Z.mul_mod_distr_r by lia.
    by rewrite lor_shift_add by lia.
Qed.

Lemma chr_eq z c : z mod 256 = code c -> chr z = c.
Proof. intros H. rewrite <- (chr_code c), <- H. unfold chr. by rewrite Z.mod_mod by lia. Qed.

Definition b64_acc (acc v : Z) : Z := wrap 32 (acc * 64) + v mod 64.

Lemma b64_step_keep cap v p acc o :
  b64_decode_loop cap (b64_chr v :: p) acc 0 o = b64_decode_loop cap p (b64_acc acc v) 6 o.
Proof. by rewrite b64_step. Qed.

Lemma b64_step_write cap v p acc nbits o :
  2 <= nbits -> (length o < cap)%nat ->
  b64_decode_loop cap (b64_chr v :: p) acc nbits o =
  b64_decode_loop cap p (b64_acc acc v) (nbits - 2) (o ++ [chr (b64_acc acc v / 2 ^ (nbits - 2))]).
Proof.
  intros Hn Ho. rewrite b64_step. cbv zeta. fold (b64_acc acc v).
  zcond.
  replace (nbits + 6 - 8) with (nbits - 2) by lia. by rewrite Z.shiftr_div_pow2 by lia.
Qed.

(** The bytes a group of sextets gives back. *)
Lemma b64_acc_bytes acc g :
  0 <= g < 2 ^ 24 ->
  let a1 := b64_acc acc (g / 2 ^ 18) in
  let a2 := b64_acc a1 (g / 2 ^ 12) in
  let a3 := b64_acc a2 (g / 2 ^ 6) in
  let a4 := b64_acc a3 g in
  a2 / 2 ^ 4 mod 256 = g / 65536 /\ a3 / 2 ^ 2 mod 256 = g / 256 mod 256 /\ a4 / 2 ^ 0 mod 256 = g mod 256.
Proof.
  intros Hg. cbv zeta. unfold b64_acc, wrap.
  change (2 ^ 32) with 4294967296. change (2 ^ 24) with 16777216 in Hg. change (2 ^ 18) with 262144.
  change (2 ^ 12) with 4096. change (2 ^ 6) with 64. change (2 ^ 4) with 16. change (2 ^ 2) with 4. change (2 ^ 0) with 1.
  split_and!; Z.to_euclidean_division_equations; lia.
Qed.

Ltac b64_run :=
  cbn [b64_groups]; rewrite ?Z.shiftr_div_pow2 by lia;
  rewrite b64_step_keep, b64_step_write by (lia || done);
  rewrite ?b64_step_write by (rewrite ?length_app; simpl; lia).

Lemma b64_roundtrip_loop cap n : forall p acc o,
  (length p <= n)%nat -> (length o + length p <= cap)%nat ->
  b64_decode_loop cap (b64_groups p) acc 0 o = Some (o ++ p).
Proof.
  induction n as [n IH] using lt_wf_ind. intros p acc o Hn Hc.
  destruct p as [|a [|b [|c rest]]]; cbn [length] in *; [by rewrite app_nil_r|..].
  - pose proof (code_range a). pose proof (b64_group_sum (code a) 0 0 ltac:(lia) ltac:(lia)) as Hg.
    destruct (b64_acc_bytes acc (b64_group (code a) 0 0)) as (G1 & _); [lia|].
    b64_run. cbn [b64_decode_loop]. change (ceqb PAD PAD) with true. cbn iota. do 2 f_equal.
    change (6 - 2) with 4. f_equal. apply chr_eq. rewrite G1, Hg. Z.to_euclidean_division_equations; lia.
  - pose proof (code_range a). pose proof (code_range b).
    pose proof (b64_group_sum (code a) (code b) 0 ltac:(lia) ltac:(lia)) as Hg.
    destruct (b64_acc_bytes acc (b64_group (code a) (code b) 0)) as (G1 & G2 & _); [lia|].
    b64_run. cbn [b64_decode_loop]. change (ceqb PAD PAD) with true. cbn iota. rewrite <- app_assoc.
    change (6 - 2) with 4. change (4 - 2) with 2. cbn [app]. do 4 f_equal; [|f_equal].
    + apply chr_eq. rewrite G1, Hg. Z.to_euclidean_division_equations; lia.
    + apply chr_eq. rewrite G2, Hg. Z.to_euclidean_division_equations; lia.
  - pose proof (code_range a). pose proof (code_range b). pose proof (code_range c).
    pose proof (b64_group_sum (code a) (code b) (code c) ltac:(lia) ltac:(lia)) as Hg.
    destruct (b64_acc_bytes acc (b64_group (code a) (code b) (code c))) as (G1 & G2 & G3); [lia|].
    b64_run. change (6 - 2) with 4. change (4 - 2) with 2. change (2 - 2) with 0.
    rewrite (chr_eq _ a), (chr_eq _ b), (chr_eq _ c).
    + rewrite (IH (length rest)); [|lia|lia|rewrite !length_app; simpl; lia]. by rewrite <- !app_assoc.
    + rewrite G3, Hg. Z.to_euclidean_division_equations; lia.
    + rewrite G2, Hg. Z.to_euclidean_division_equations; lia.
    + rewrite G1, Hg. Z.to_euclidean_division_equations; lia.
Qed.

Lemma b64_groups_length n : forall p, (length p <= n)%nat -> length (b64_groups p) = ((length p + 2) / 3 * 4)%nat.
Proof.
  induction n as [n IH] using lt_wf_ind. intros p Hn.
  destruct p as [|a [|b [|c rest]]]; cbn [length] in *; [done..|].
  cbn [b64_groups length]. rewrite (IH (length rest)) by lia.
  replace (S (S (S (length rest))) + 2)%nat with (length rest + 2 + 1 * 3)%nat by lia.
  rewrite Nat.div_add by lia. lia.
Qed.

(** encoding fits exactly in the space it asks for, and decoding the text
    gives the bytes back, whatever the bytes, as soon as the output has room. *)
Theorem util_b64_roundtrip (p : cstr) (ecap dcap : nat) (t : cstr) :
  util_b64_encode p ecap = Some t ->
  (length t < ecap)%nat /\
  ((length p <= dcap)%nat -> util_b64_decode (Some t) dcap = Some p).
Proof.
  unfold util_b64_encode. cbv zeta. intros H. case_step_in H; [done|]. breflect. injection H as <-.
  rewrite (b64_groups_length (length p)) by done. split; [lia|]. intros Hd.
  unfold util_b64_decode. by rewrite (b64_roundtrip_loop dcap (length p)) by (simpl; lia).
Qed.

Example util_b64_roundtrip_witness :
  let p := lit "any carnal pleas" in
  exists t, util_b64_encode p 25 = Some t /\ util_b64_decode (Some t) 16 = Some p.
Proof.
  exists (b64_groups (lit "any carnal pleas")). split; [by vm_compute|].
  refine (proj2 (util_b64_roundtrip (lit "any carnal pleas") 25 16 _ _) _).
  - by vm_compute.
  - simpl. lia.
Defined.

(** ** Redaction, without the buffer's bound *)

(** The text between ampersands. *)
Fixpoint split_amp (s cur : cstr) : list cstr :=
  match s with
  | [] => [cur]
  | c :: s' => if ceqb c "&" then cur :: split_amp s' [] else split_amp s' (cur ++ [c])
  end.

Fixpoint join_amp (l : list cstr) : cstr :=
  match l with
  | [] => []
  | [p] => p
  | p :: l' => p ++ "&"%char :: join_amp l'
  end.

Definition redacted_param (p : cstr) : cstr :=
  match strchr p "=" with
  | Some eq => if util_param_is_secret (take eq p) then take (S eq) p ++ util_redaction else p
  | None => p
  end.

Definition redacted (q : cstr) : cstr := join_amp (map redacted_param (split_amp q [])).

Lemma split_amp_fresh s t cur : "&"%char ∉ s -> split_amp (s ++ "&"%char :: t) cur = (cur ++ s) :: split_amp t [].
Proof.
  revert cur. induction s as [|c s IH]; intros cur H; cbn [app split_amp].
  - by rewrite ceqb_refl, app_nil_r.
  - apply not_elem_of_cons in H as [H1 H2]. destruct (ceqb c "&") eqn:E; creflect; [congruence|].
    rewrite IH by done. by rewrite <- app_assoc.
Qed.

Lemma split_amp_last s cur : "&"%char ∉ s -> split_amp s cur = [cur ++ s].
Proof.
  revert cur. induction s as [|c s IH]; intros cur H; cbn [app split_amp]; [by rewrite app_nil_r|].
  apply not_elem_of_cons in H as [H1 H2]. destruct (ceqb c "&") eqn:E; creflect; [congruence|].
  rewrite IH by done. by rewrite <- app_assoc.
Qed.

Lemma split_amp_cons s cur : exists p l, split_amp s cur = p :: l.
Proof. revert cur. induction s as [|c s IH]; intros cur; cbn; [eauto|]. case_match; eauto. Qed.

(** What util_append did, as the text it would have written without a bound. *)
Definition fits (cap : nat) (out : cstr) : Prop := (length out < cap)%nat.

#[export] Instance fits_dec cap out : Decision (fits cap out).
Proof. unfold fits. apply _. Defined.

Lemma util_append_spec cap out src :
  fits cap out ->
  util_append cap out src = (strlcpy cap (out ++ src), bool_decide (fits cap (out ++ src))).
Proof.
  intros H. assert (Hl : length (out ++ src) = (length out + length src)%nat) by apply length_app.
  unfold util_append, strlcpy.
  destruct (Nat.leb_spec cap (length out + length src)) as [L|L].
  - rewrite (bool_decide_eq_false_2 (fits cap (out ++ src))) by (unfold fits; lia). unfold fits in H. f_equal.
    rewrite list.take_app, (list.take_ge out) by lia. f_equal. destruct (Nat.ltb_spec (length out + 1) cap); f_equal; lia.
  - rewrite (bool_decide_eq_true_2 (fits cap (out ++ src))) by (unfold fits; lia). by rewrite list.take_ge by lia.
Qed.

Lemma strlcpy_full cap out src : ~ fits cap out -> strlcpy cap (out ++ src) = strlcpy cap out.
Proof. unfold fits, strlcpy. intros. by rewrite list.take_app_le by lia. Qed.

Lemma redact_param_spec cap out p :
  fits cap out ->
  redact_param cap out p = (strlcpy cap (out ++ redacted_param p), bool_decide (fits cap (out ++ redacted_param p))).
Proof.
  intros H. unfold redact_param, redacted_param.
  destruct (strchr p "=") as [eq|]; [|by rewrite util_append_spec].
  destruct (util_param_is_secret _); [|by rewrite util_append_spec].
  rewrite (util_append_spec _ _ _ H). rewrite app_assoc.
  destruct (bool_decide_reflect (fits cap (out ++ take (S eq) p))) as [F|F].
  - by rewrite (strlcpy_fits _ _ F), util_append_spec.
  - rewrite (strlcpy_full cap (out ++ _)) by done. f_equal. symmetry. apply bool_decide_eq_false_2.
    unfold fits in *. rewrite length_app. lia.
Qed.

Lemma redact_loop_spec fuel cap : forall p out,
  (length p < fuel)%nat -> fits cap out ->
  redact_loop fuel cap p out = strlcpy cap (out ++ redacted p).
Proof.
  induction fuel as [|fuel IH]; intros p out Hf Ho; [lia|]. cbn [redact_loop].
  destruct p as [|c0 p0].
  { unfold redacted. cbn. change (strlcpy cap (out ++ redacted_param [])) with (strlcpy cap (out ++ [])).
    by rewrite app_nil_r, strlcpy_fits. }
  remember (c0 :: p0) as p eqn:Hp.
  destruct (strchr p "&") as [i|] eqn:E; rewrite redact_param_spec by done.
  - apply strchr_Some in E as (E1 & E2 & E3).
    assert (Hr : redacted p = redacted_param (take i p) ++ "&"%char :: redacted (drop (S i) p)).
    { unfold redacted. rewrite E1 at 1. rewrite split_amp_fresh by done. cbn [app map join_amp].
      destruct (split_amp_cons (drop (S i) p) []) as (x & l & ->). done. }
    rewrite Hr, !app_assoc, (cons_middle "&"%char), !app_assoc.
    set (o1 := out ++ redacted_param (take i p)).
    destruct (bool_decide_reflect (fits cap o1)) as [F|F]; cbn [negb].
    + rewrite (strlcpy_fits _ _ F), util_append_spec by done. change (lit "&") with ["&"%char].
      destruct (bool_decide_reflect (fits cap (o1 ++ ["&"%char]))) as [F2|F2].
      * rewrite (strlcpy_fits _ _ F2), IH by (rewrite ?length_drop; lia || done). done.
      * by rewrite (strlcpy_full _ (o1 ++ _)).
    + by rewrite <- app_assoc, strlcpy_full.
  - apply strchr_None in E. unfold redacted. rewrite split_amp_last by done. cbn [app map join_amp].
    by destruct (bool_decide _).
Qed.

(** The buffer holds the redacted URL, cut at its end if it is too long. *)
Lemma util_redact_url_eq base q cap :
  "?"%char ∉ base -> (0 < cap)%nat ->
  util_redact_url (Some (base ++ "?"%char :: q)) cap = strlcpy cap (base ++ "?"%char :: redacted q).
Proof.
  intros Hb Hc. unfold util_redact_url. zcond.
  rewrite strchr_app_fresh by done. rewrite util_append_spec by (unfold fits; simpl; lia).
  autorewrite with bm. rewrite (cons_middle "?"%char base (redacted q)), (app_assoc base). cbn [app].
  destruct (bool_decide_reflect (fits cap (base ++ ["?"%char]))) as [F|F]; cbn [negb].
  - rewrite strlcpy_fits by done. rewrite redact_loop_spec; [done| |done]. rewrite !length_app. simpl. lia.
  - by rewrite (strlcpy_full cap (base ++ _)).
Qed.

(** Parameters that differ at most in a value the name marks as a credential. *)
Definition same_public (p1 p2 : cstr) : Prop :=
  "&"%char ∉ p1 /\ "&"%char ∉ p2 /\
  (p1 = p2 \/ exists name v1 v2, util_param_is_secret name = true /\ "="%char ∉ name /\
     p1 = name ++ "="%char :: v1 /\ p2 = name ++ "="%char :: v2).

Lemma redacted_param_public p1 p2 : same_public p1 p2 -> redacted_param p1 = redacted_param p2.
Proof.
  intros (_ & _ & [->|(name & v1 & v2 & Hs & He & -> & ->)]); [done|]. unfold redacted_param.
  autorewrite with bm. by rewrite Hs.
Qed.

Lemma split_join_amp p l : Forall (fun p => "&"%char ∉ p) (p :: l) -> split_amp (join_amp (p :: l)) [] = p :: l.
Proof.
  revert p. induction l as [|p' l IH]; intros p H; inversion H; subst.
  - cbn [join_amp]. by rewrite split_amp_last.
  - cbn [join_amp]. rewrite split_amp_fresh by done. cbn [app]. f_equal. by apply IH.
Qed.

Lemma redacted_public l1 l2 : Forall2 same_public l1 l2 -> redacted (join_amp l1) = redacted (join_amp l2).
Proof.
  intros H. destruct H as [|p1 p2 l1 l2 H1 Hl]; [done|]. unfold redacted.
  assert (Forall (fun p => "&"%char ∉ p) (p1 :: l1) /\ Forall (fun p => "&"%char ∉ p) (p2 :: l2)) as [F1 F2].
  { destruct H1 as (? & ? & _). split; constructor; auto; induction Hl as [|? ? ? ? (? & ? & _)]; constructor; auto. }
  rewrite !split_join_amp by done. f_equal. cbn [map]. f_equal; [by apply redacted_param_public|].
  clear -Hl. induction Hl; cbn; f_equal; auto. by apply redacted_param_public.
Qed.



(** ** The internal-address check and userinfo *)

Lemma lower_elem c s : (forall x, tolower x = c -> x = c) -> c ∈ map tolower s -> c ∈ s.
Proof. intros H Hi. apply list_elem_of_fmap in Hi as (y & E & Hy). symmetry in E. apply H in E. by subst. Qed.

Lemma lower_elem_2 c s : tolower c = c -> c ∈ s -> c ∈ map tolower s.
Proof. intros H Hi. rewrite <- H. by apply list_elem_of_fmap_2. Qed.

Definition host_text (s : cstr) : Prop := Forall (fun c => negb (host_delim c) && negb (isspace c) = true) s.

Lemma host_text_lower s : host_text s -> Forall (fun c => isspace c = false) (map tolower s).
Proof.
  intros H. induction H as [|c s Hc _ IH]; cbn; constructor; [|done]. breflect.
  assert (Hs : forall c, eqb (isspace (tolower c)) (isspace c) = true).
  { intros x. by_chars (fun c => eqb (isspace (tolower c)) (isspace c)) x. }
  specialize (Hs c). apply eqb_prop in Hs. congruence.
Qed.

(** the host the check looks at runs through an at sign, so a URL with userinfo
    in front of an address passes whatever the address (here with no assumption on
    the C library but that an address has no at sign in it): the library that
    fetches the URL takes the part after the at sign for the host. *)
Theorem util_url_is_safe_userinfo (inet_aton : cstr -> bool)
    (Hat : forall s, "@"%char ∈ s -> Forall (fun c => isspace c = false) s -> inet_aton s = false)
    (user host rest : cstr) :
  host_text user -> host_text host ->
  deref user <> "["%char -> (0 < length user)%nat -> (length user + length host < 255)%nat ->
  strneq 10 (map tolower (user ++ "@"%char :: host)) (lit "localhost.") = false ->
  match rest with [] => True | c :: _ => host_delim c = true end ->
  util_url_is_safe_https inet_aton (Some (lit "https://" ++ user ++ "@"%char :: host ++ rest)) = true.
Proof.
  intros Hu Hh Hb Hne Hl Hloc Hr. unfold util_url_is_safe_https.
  set (auth := user ++ "@"%char :: host).
  assert (Ht : host_text auth) by (apply Forall_app_2; [done|by constructor]).
  replace (user ++ "@"%char :: host ++ rest) with (auth ++ rest) by (unfold auth; by rewrite <- app_assoc).
  replace (negb _) with false by (unfold util_strncasecmp_ascii, strncaseeq; cbn; by vm_compute).
  cbv zeta. change (drop 8 (lit "https://" ++ auth ++ rest)) with (auth ++ rest).
  replace (ceqb (deref (auth ++ rest)) "[") with false.
  2:{ symmetry. apply ceqb_false. unfold auth. destruct user as [|u user]; [simpl in Hne; lia|done]. }
  destruct (span_app_stop (fun c => negb (host_delim c)) auth rest) as [-> _].
  { refine (List.Forall_impl _ _ Ht). intros c Hc. by apply andb_true_iff in Hc as [? _]. }
  { destruct rest as [|c rest]; [done|]. by rewrite Hr. }
  assert (Hlen : length auth = S (length user + length host)) by (unfold auth; rewrite length_app; simpl; lia).
  zcond.
  assert (Hin : "@"%char ∈ map tolower auth) by (apply lower_elem_2; [done|unfold auth; set_solver]).
  replace (seqb (map tolower auth) (lit "localhost")) with false.
  2:{ symmetry. apply seqb_false. intros E. rewrite E in Hin. revert Hin. apply (bool_decide_unpack _). by vm_compute. }
  fold auth in Hloc. rewrite Hloc. rewrite Hat; [done|done|]. by apply host_text_lower.
Qed.

Example util_url_is_safe_userinfo_witness :
  let inet_aton := forallb (fun c => isdigit c || ceqb c ".") in
  util_url_is_safe_https inet_aton (Some (lit "https://u@127.0.0.1/x.png")) = true /\
  util_url_is_safe_https inet_aton (Some (lit "https://127.0.0.1/x.png")) = false.
Proof.
  split; [|by vm_compute].
  refine (util_url_is_safe_userinfo (forallb (fun c => isdigit c || ceqb c ".")) _
            (lit "u") (lit "127.0.0.1") (lit "/x.png") _ _ _ _ _ _ _);
    try by vm_compute.
  - intros s H _. apply not_true_is_false. intros E. rewrite forallb_forall in E.
    apply list_elem_of_In in H. apply E in H. by vm_compute in H.
  - by repeat constructor.
  - by repeat constructor.
  - simpl; lia.
Defined.

(** ** Canonicalization *)

(** Room for the labels and a dot after each. *)
Definition labels_room (ls : list cstr) : nat := fold_right (fun l n => S (length l + n)) 0%nat ls.

Lemma host_labels_room s cur : (labels_room (host_labels s cur) <= S (length cur + length s))%nat.
Proof.
  revert cur. induction s as [|c s IH]; intros cur; cbn [host_labels].
  - destruct cur; simpl; lia.
  - case_match.
    + specialize (IH []). simpl in *. lia.
    + specialize (IH (cur ++ [c])). rewrite length_app in IH. cbn [length] in *. lia.
Qed.

Lemma write_labels_length d first ls :
  (length (write_labels d first ls) <= labels_room ls - if first then 1 else 0)%nat.
Proof.
  revert first. induction ls as [|l ls IH]; intros first; cbn [write_labels labels_room fold_right]; [simpl; lia|].
  fold (labels_room ls). case_match; [specialize (IH first); lia|].
  rewrite !length_app, length_map. specialize (IH false). cbn iota in IH.
  destruct first; cbn [length]; lia.
Qed.

Lemma before_length c s : length (before c s) = default (length s) (strchr s c).
Proof.
  unfold before. destruct (strchr s c) as [i|] eqn:E; [|done].
  apply strchr_Some in E as (_ & _ & L). simpl. rewrite length_take. lia.
Qed.

Lemma canon_host_length host https : (length (util_url_canon_host host https) <= length host)%nat.
Proof.
  unfold util_url_canon_host. cbv zeta. rewrite length_app.
  set (ls := host_labels (before ":" host) []). set (d := (0 <? _)%nat && _).
  pose proof (write_labels_length d true ls) as Hw. cbn iota in Hw.
  assert (Hr : (labels_room ls <= S (length (before ":" host)))%nat) by apply host_labels_room.
  rewrite before_length in Hr. destruct (strchr host ":") as [i|] eqn:E; cbn [default length] in *; [|lia].
  apply strchr_Some in E as (_ & _ & L).
  destruct (negb _ && negb _); cbn [length]; rewrite ?length_drop; unfold id in Hr; lia.
Qed.

Lemma canon_pq_length n : forall p, (length p <= n)%nat -> (length (util_url_canon_pq p) <= length p)%nat.
Proof.
  induction n as [n IH] using lt_wf_ind. intros p Hn.
  destruct p as [|c p]; [done|]. cbn [util_url_canon_pq length] in *.
  assert (H1 : (length (util_url_canon_pq p) <= length p)%nat) by (apply (IH (length p)); lia).
  destruct p as [|h [|l rest]]; [simpl; lia|simpl; lia|].
  assert (H2 : (length (util_url_canon_pq rest) <= length rest)%nat) by (apply (IH (length rest)); simpl in *; lia).
  cbv zeta. repeat case_match; cbn [length] in *; lia.
Qed.

Lemma span_length P s : (length (span P s) <= length s)%nat.
Proof. rewrite <- (span_skip P s) at 2. rewrite length_app. lia. Qed.

(** The length of a matched scheme. *)
Lemma strncaseeq_room n s p : strncaseeq n s p = true -> (n <= length p)%nat -> (n <= length s)%nat.
Proof.
  unfold strncaseeq. intros H Hp. creflect. apply (f_equal length) in H.
  rewrite !length_map, !length_take in H. lia.
Qed.

(** the canonical URL and its terminator fit in the output, whatever the URL
    and the size: the one test up front covers every write. *)
Theorem util_url_canon_fits (url : option cstr) (out_cap : nat) :
  (0 < out_cap)%nat -> (length (util_url_canon url out_cap) < out_cap)%nat.
Proof.
  intros Hc. unfold util_url_canon. zcond.
  destruct url as [url|]; [|done]. cbv zeta.
  set (https := util_strncasecmp_ascii url (lit "https://") 8).
  set (n := if https then 8%nat else _).
  destruct ((n =? 0)%nat || _) eqn:E1; [by apply strlcpy_length|].
  destruct (has_sub _ _ || _); [by apply strlcpy_length|].
  apply orb_false_iff in E1 as [E1 E2]. breflect.
  set (auth := span _ _). set (ae := drop (length auth) _).
  assert (Hs : length (if https then lit "https://" else lit "http://") = n /\ (n <= length url)%nat).
  { subst n https. unfold util_strncasecmp_ascii in *. destruct (strncaseeq 8 _ _) eqn:H8.
    - split; [done|]. apply strncaseeq_room in H8; [done|simpl; lia].
    - destruct (strncaseeq 7 _ _) eqn:H7; [|done]. split; [done|]. apply strncaseeq_room in H7; [done|simpl; lia]. }
  destruct Hs as [Hs1 Hs2].
  assert (Ha : (length auth <= length url - n)%nat).
  { unfold auth. etrans; [apply span_length|]. by rewrite length_drop. }
  assert (He : length ae = (length url - n - length auth)%nat) by (unfold ae; by rewrite !length_drop).
  assert (Hq : (length (before "#" ae) <= length ae)%nat).
  { rewrite before_length. destruct (strchr ae "#") eqn:E; simpl; [|done]. apply strchr_Some in E. lia. }
  pose proof (canon_host_length auth https). pose proof (canon_pq_length _ (before "#" ae) (le_n _)).
  rewrite !length_app, Hs1. destruct ((length _ =? 0)%nat || _); cbn [length]; lia.
Qed.

Example util_url_canon_fits_witness :
  (0 < 12)%nat /\ (length (util_url_canon (Some (lit "http://a.b")) 12) < 12)%nat /\
  util_url_canon (Some (lit "http://a.b")) 12 = lit "http://a.b/".
Proof. split; [lia|split; [by apply util_url_canon_fits; lia|by vm_compute]]. Defined.

Definition scheme (https : bool) : cstr := if https then lit "https://" else lit "http://".

(** The path and query with the slash an empty path stands for. *)
Definition slashed (pq : cstr) : cstr := if ceqb (deref pq) "/" then pq else "/"%char :: pq.

Definition auth_text (s : cstr) : Prop := Forall (fun c => negb (auth_delim c) && negb (ceqb c "@") = true) s.

Lemma lower_scheme https s :
  map tolower s = scheme https ->
  forall x, util_strncasecmp_ascii (s ++ x) (lit "https://") 8 = https /\
    (https = false -> util_strncasecmp_ascii (s ++ x) (lit "http://") 7 = true) /\
    length s = if https then 8%nat else 7%nat.
Proof.
  intros H x. unfold util_strncasecmp_ascii, strncaseeq.
  assert (L : length s = if https then 8%nat else 7%nat).
  { rewrite <- (length_map tolower), H. by destruct https. }
  destruct https.
  - rewrite <- L at 1. rewrite take_app_length, H. split_and!; [by vm_compute|done|done].
  - split_and!; [|intros _; rewrite <- L at 1; rewrite take_app_length, H; by vm_compute|done].
    apply seqb_false. intros E. apply (f_equal (take 5)) in E.
    rewrite <- !firstn_map, firstn_firstn in E. rewrite map_app, H in E. by vm_compute in E.
Qed.

Lemma canon_pq_slashed p : util_url_canon_pq ("/"%char :: p) = "/"%char :: util_url_canon_pq p.
Proof. cbn [util_url_canon_pq]. by destruct p as [|? [|? ?]]. Qed.

Lemma has_at s : "@"%char ∉ s -> has_sub s (lit "@") = false.
Proof.
  intros H. unfold has_sub. assert (E : strstr s (lit "@") = None); [|by rewrite E].
  induction s as [|c s IH]; [done|]. apply not_elem_of_cons in H as [H1 H2].
  cbn [strstr]. rewrite (IH H2). change (lit "@") with ["@"%char]. unfold starts_with. cbn [take length].
  destruct (seqb _ _) eqn:E; creflect; [congruence|done].
Qed.

Lemma util_url_canon_eq https s auth pq frag cap :
  map tolower s = scheme https -> auth_text auth -> deref auth <> "["%char ->
  match pq with [] => True | c :: _ => c = "/"%char \/ c = "?"%char end -> "#"%char ∉ pq ->
  match frag with [] => True | c :: _ => c = "#"%char end ->
  (length (s ++ auth ++ pq ++ frag) + 2 <= cap)%nat ->
  util_url_canon (Some (s ++ auth ++ pq ++ frag)) cap =
  scheme https ++ util_url_canon_host auth https ++ util_url_canon_pq (slashed pq).
Proof.
  intros Hs Ha Hb Hpq Hh Hf Hc. unfold util_url_canon. zcond. cbv zeta.
  destruct (lower_scheme https s Hs (auth ++ pq ++ frag)) as (E1 & E2 & E3). rewrite E1.
  replace (if https then 8%nat else _) with (length s)
    by (rewrite E3; destruct https; [done|by rewrite E2]).
  rewrite (proj2 (Nat.eqb_neq (length s) 0)) by (rewrite E3; by destruct https).
  zcond. rewrite drop_app_length.
  destruct (span_app_stop (fun c => negb (auth_delim c)) auth (pq ++ frag)) as [-> _].
  { refine (List.Forall_impl _ _ Ha). intros c Hx. by apply andb_true_iff in Hx as [? _]. }
  { destruct pq as [|c pq]; [destruct frag; by subst|]. by destruct Hpq as [-> | ->]. }
  rewrite has_at; [|intros H; apply (proj1 (list.Forall_forall _ _) Ha) in H; by vm_compute in H].
  replace (ceqb (deref (auth ++ pq ++ frag)) "[") with false.
  2:{ symmetry. apply ceqb_false. destruct auth; [|done]. destruct pq; [|by destruct Hpq; subst].
      destruct frag; by subst. }
  cbn [orb]. rewrite drop_app_length.
  replace (before "#" (pq ++ frag)) with pq.
  2:{ unfold before. destruct frag as [|c frag].
      - rewrite app_nil_r. by rewrite (proj2 (strchr_None _ _) Hh).
      - subst c. by rewrite strchr_app_fresh, take_app_length. }
  fold (scheme https). do 2 f_equal. unfold slashed.
  destruct pq as [|c pq]; [done|]. destruct Hpq as [-> | ->].
  - change (ceqb (deref ("/"%char :: pq)) "/") with true. done.
  - change (ceqb (deref ("?"%char :: pq)) "/") with false. cbn iota. by rewrite canon_pq_slashed.
Qed.

(** ** The host *)

Lemma tolower_dot c : ceqb (tolower c) "." = ceqb c ".".
Proof. apply eqb_prop. by_chars (fun c => eqb (ceqb (tolower c) ".") (ceqb c ".")) c. Qed.

Lemma host_labels_lower s cur : host_labels (map tolower s) (map tolower cur) = map (map tolower) (host_labels s cur).
Proof.
  revert cur. induction s as [|c s IH]; intros cur; cbn [host_labels map].
  - by destruct cur.
  - rewrite tolower_dot. destruct (ceqb c "."); cbn [map]; [by rewrite <- (IH [])|].
    rewrite <- IH. by rewrite map_app.
Qed.

Lemma is_mobile_lower l : is_mobile (map tolower l) = is_mobile l.
Proof.
  destruct l as [|c [|? ?]]; cbn; [done| |done]. apply eqb_prop.
  by_chars (fun c => eqb (ceqb (tolower c) "m" || ceqb (tolower c) "M") (ceqb c "m" || ceqb c "M")) c.
Qed.

Lemma write_labels_lower d first ls : write_labels d first (map (map tolower) ls) = write_labels d first ls.
Proof.
  revert first. induction ls as [|l ls IH]; intros first; cbn [write_labels map]; [done|].
  rewrite is_mobile_lower, !IH, map_map. by rewrite (map_ext _ tolower) by apply tolower_idem.
Qed.

Lemma mobile_lower ls : length (filter is_mobile (map (map tolower) ls)) = length (filter is_mobile ls).
Proof.
  induction ls as [|l ls IH]; [done|]. cbn [map]. rewrite !filter_cons, is_mobile_lower.
  destruct (decide (is_mobile l)); cbn [length]; by rewrite IH.
Qed.

(** A port that says no more than the scheme. *)
Definition default_port (https : bool) (port : cstr) : Prop :=
  port = [] \/ port = lit ":" \/ port = ":"%char :: if https then lit "443" else lit "80".

Lemma canon_host_default https h port :
  ":"%char ∉ h -> default_port https port ->
  util_url_canon_host (h ++ port) https = util_url_canon_host (map tolower h) https.
Proof.
  intros Hh Hp.
  assert (Hl : ":"%char ∉ map tolower h).
  { intros H. apply Hh. apply lower_elem in H; [done|]. intros x E. apply ceqb_true.
    assert (G : implb (ceqb (tolower x) ":") (ceqb x ":") = true)
      by by_chars (fun x => implb (ceqb (tolower x) ":") (ceqb x ":")) x.
    rewrite E in G. exact G. }
  unfold util_url_canon_host, before. rewrite (proj2 (strchr_None _ _) Hl).
  pose proof (host_labels_lower h []) as E. cbn [map] in E. rewrite E.
  rewrite write_labels_lower, mobile_lower, length_map. cbv zeta.
  destruct Hp as [-> |[-> | ->]].
  - rewrite app_nil_r. by rewrite (proj2 (strchr_None _ _) Hh).
  - change (lit ":") with [":"%char]. rewrite strchr_app_fresh, take_app_length by done.
    by rewrite list.drop_ge by (rewrite length_app; simpl; lia).
  - rewrite strchr_app_fresh, take_app_length by done. do 2 f_equal.
    autorewrite with bm. by destruct https.
Qed.

(** A spelling of the page [path] of [host]: any case of scheme and host, the
    default port in any of its forms, an empty path for the root, any fragment. *)
Definition names_page (https : bool) (host path url : cstr) : Prop :=
  exists s h port pq frag,
    url = s ++ (h ++ port) ++ pq ++ frag /\
    map tolower s = scheme https /\ map tolower h = host /\ default_port https port /\ slashed pq = path /\
    Forall (fun c => negb (auth_delim c) && negb (ceqb c "@") && negb (ceqb c ":") = true) h /\
    deref h <> "["%char /\
    match pq with [] => True | c :: _ => c = "/"%char \/ c = "?"%char end /\ "#"%char ∉ pq /\
    match frag with [] => True | c :: _ => c = "#"%char end.

Lemma names_page_canon https host path url cap :
  names_page https host path url -> (length url + 2 <= cap)%nat ->
  util_url_canon (Some url) cap = scheme https ++ util_url_canon_host host https ++ util_url_canon_pq path.
Proof.
  intros (s & h & port & pq & frag & -> & Hs & <- & Hp & <- & Hh & Hb & Hq & Hn & Hf) Hc.
  rewrite (util_url_canon_eq https); [|done| | |done..].
  - rewrite canon_host_default; [done| |done]. intros Hi. apply (proj1 (list.Forall_forall _ _) Hh) in Hi. by vm_compute in Hi.
  - apply Forall_app_2; [refine (List.Forall_impl _ _ Hh); intros c Hx; by apply andb_true_iff in Hx as [? _]|].
    destruct Hp as [-> |[-> | ->]]; [constructor|by repeat constructor|destruct https; by repeat constructor].
  - destruct h; [|done]. by destruct Hp as [-> |[-> | ->]].
Qed.

(** the spellings of a page collapse: two URLs that differ in the case of the
    scheme or the host, in how the default port is written, in a fragment or in the
    root's slash are canonicalized to the same text. *)
Theorem util_url_canon_equiv (https : bool) (host path u1 u2 : cstr) (cap : nat) :
  names_page https host path u1 -> names_page https host path u2 ->
  (length u1 + 2 <= cap)%nat -> (length u2 + 2 <= cap)%nat ->
  util_url_canon (Some u1) cap = util_url_canon (Some u2) cap.
Proof. intros H1 H2 L1 L2. by rewrite !(names_page_canon https host path). Qed.

Example util_url_canon_equiv_witness :
  util_url_canon (Some (lit "HTTPS://En.M.Wikipedia.org:443#top")) 64 =
  util_url_canon (Some (lit "https://en.m.wikipedia.ORG/")) 64 /\
  util_url_canon (Some (lit "https://en.m.wikipedia.ORG/")) 64 = lit "https://en.wikipedia.org/".
Proof.
  split; [|by vm_compute].
  apply (util_url_canon_equiv true (lit "en.m.wikipedia.org") (lit "/")); [| |simpl; lia|simpl; lia].
  - exists (lit "HTTPS://"), (lit "En.M.Wikipedia.org"), (lit ":443"), [], (lit "#top").
    split_and!; try by vm_compute; try by repeat constructor. set_solver.
  - exists (lit "https://"), (lit "en.m.wikipedia.ORG"), [], (lit "/"), [].
    split_and!; try by vm_compute; try by repeat constructor. apply (bool_decide_unpack _). by vm_compute.
Defined.
