(* ===== verification/CurlFlight.v ===== *)
(** * Requests in the air: core/curl_flight.c

    A plugin's set of open slots, one per piece of work, each holding the id of the
    request on the wire or an idle token. stop() drains it. Every critical section is
    one operation here; the drain is its three parts, between which other threads
    run. A caller passes the address of its own flight, so the NULL checks of the
    code never fire and are left out. *)

From S2P Require Import Prelude.

(** ** Data *)

Definition CURL_FLIGHT_IDLE : Z := 2 ^ 63.
Definition CURL_FLIGHT_CAP0 : Z := 8.

(** [slots] is the live part of the array; [n] is its length. *)
Record curl_flight_t := mk_flight {
  slots : list Z;
  f_cap : Z;
  f_seq : Z;
  grounded : bool
}.

(** ** Operations *)

Definition curl_flight_init : curl_flight_t := mk_flight [] 0 0 false.

(** The index of [id], or the number of slots. *)
Fixpoint find_slot (l : list Z) (id : Z) : nat :=
  match l with
  | [] => 0%nat
  | x :: l' => if x =? id then 0%nat else S (find_slot l' id)
  end.

Definition curl_flight_find_locked (f : curl_flight_t) (id : Z) : nat := find_slot (slots f) id.

(** [CURL_FLIGHT_IDLE | seq] *)
Definition token (seq : Z) : Z := Z.lor CURL_FLIGHT_IDLE seq.

Definition curl_flight_open_locked (f : curl_flight_t) : curl_flight_t * Z :=
  let cap :=
    if Z.of_nat (length (slots f)) =? f_cap f
    then (if negb (f_cap f =? 0) then wrap 32 (f_cap f * 2) else CURL_FLIGHT_CAP0)
    else f_cap f in
  let seq := wrap 64 (f_seq f + 1) in
  (mk_flight (slots f ++ [token seq]) cap seq (grounded f), token seq).

(** The handle written to the caller, and whether the slot was opened. *)
Definition curl_flight_open (f : curl_flight_t) : curl_flight_t * Z * bool :=
  if grounded f then (f, 0, false)
  else let '(f, slot) := curl_flight_open_locked f in (f, slot, true).

(** The slot of [slot], if live, takes [v]. *)
Definition set_slot (slot v : Z) (f : curl_flight_t) : curl_flight_t :=
  let i := curl_flight_find_locked f slot in
  if (i <? length (slots f))%nat
  then mk_flight (<[i := v]> (slots f)) (f_cap f) (f_seq f) (grounded f) else f.

(** Before the submit: None is the refusal, where the request is abandoned. *)
Definition relay_begin (f : curl_flight_t) (id slot : Z) : option (curl_flight_t * Z) :=
  if grounded f then None else Some (set_slot slot id f, id).

(** After a refused submit: the new handle. *)
Definition relay_refused (f : curl_flight_t) (id slot : Z) : curl_flight_t * Z :=
  let i := curl_flight_find_locked f id in
  if (i <? length (slots f))%nat then
    let seq := wrap 64 (f_seq f + 1) in
    (mk_flight (<[i := token seq]> (slots f)) (f_cap f) seq (grounded f), token seq)
  else (f, slot).

(** What happens to the request. *)
Inductive request_fate := Abandoned (id : Z) | Submitted (id : Z).

(** The whole relay when no other thread comes between: [accepted] is the answer of
    the submit. The flight, the handle, the answer, and what became of the request. *)
Definition curl_flight_relay (f : curl_flight_t) (id : Z) (accepted : bool) (slot : Z)
    : curl_flight_t * Z * bool * request_fate :=
  match relay_begin f id slot with
  | None => (f, slot, false, Abandoned id)
  | Some (f, slot) =>
      if accepted then (f, slot, true, Submitted id)
      else let '(f, slot) := relay_refused f id slot in (f, slot, false, Submitted id)
  end.

(** The last slot takes the closed one's place; the boolean is the broadcast. *)
Definition curl_flight_close (f : curl_flight_t) (slot : Z) : curl_flight_t * bool :=
  let i := curl_flight_find_locked f slot in
  let n := length (slots f) in
  if (i <? n)%nat then
    let l := take (n - 1) (<[i := nth (n - 1) (slots f) 0]> (slots f)) in
    (mk_flight l (f_cap f) (f_seq f) (grounded f), (length l =? 0)%nat)
  else (f, false).

(** ** The drain *)

(** The absolute deadline, from the clock and the milliseconds to wait. *)
Definition drain_deadline (sec nsec ms : Z) : Z * Z :=
  let sec := sec + ms / 1000 in
  let nsec := nsec + ms mod 1000 * 1000000 in
  if 1000000000 <=? nsec then (sec + 1, nsec - 1000000000) else (sec, nsec).

Lemma drain_deadline_spec sec nsec ms :
  0 <= nsec < 1000000000 -> 0 <= ms ->
  let '(s, n) := drain_deadline sec nsec ms in
  0 <= n < 1000000000 /\ s * 1000000000 + n = sec * 1000000000 + nsec + ms * 1000000.
Proof.
  intros H1 H2. unfold drain_deadline. pose proof (Z.div_mod ms 1000). pose proof (Z.mod_pos_bound ms 1000).
  case_step; breflect; lia.
Qed.

Definition drain_ground (f : curl_flight_t) : curl_flight_t := mk_flight (slots f) (f_cap f) (f_seq f) true.

(** One turn of the loop up to its wait: the requests it cancels, or None when the
    set is empty and the loop ends. *)
Definition drain_pass (f : curl_flight_t) : option (list Z) :=
  if (0 <? length (slots f))%nat
  then Some (List.filter (fun s => Z.land s CURL_FLIGHT_IDLE =? 0) (slots f)) else None.

(** After the loop: the number left, which reopens the flight if it is not zero. *)
Definition drain_leave (f : curl_flight_t) : curl_flight_t * nat :=
  let rest := length (slots f) in
  (if (0 <? rest)%nat then mk_flight (slots f) (f_cap f) (f_seq f) false else f, rest).

(** The loop: each wait says what the flight had become when it returned and
    whether it timed out. The requests cancelled come back in order. *)
Fixpoint drain_loop (f : curl_flight_t) (waits : list (curl_flight_t * bool)) : curl_flight_t * list Z :=
  match drain_pass f with
  | None => (f, [])
  | Some cancels =>
      match waits with
      | [] => (f, cancels)
      | (f', timed_out) :: waits =>
          if timed_out then (f', cancels)
          else let '(f'', more) := drain_loop f' waits in (f'', cancels ++ more)
      end
  end.

Definition curl_flight_drain (f : curl_flight_t) (waits : list (curl_flight_t * bool)) : curl_flight_t * nat * list Z :=
  let '(f, cancels) := drain_loop (drain_ground f) waits in
  let '(f, rest) := drain_leave f in (f, rest, cancels).

Definition curl_flight_destroy (f : curl_flight_t) : curl_flight_t := mk_flight [] 0 (f_seq f) (grounded f).

(** ** The system: pieces of work, the flight and the thread in stop() *)

(** The handle a piece of work holds, and whether it is between the two halves of a
    relay. *)
Definition work := (Z * bool)%type.

Inductive drain_state :=
  | NoDrain
  | Waiting (passes : nat)
  | Drained (rest : nat).

Record system := mk_sys {
  fl : curl_flight_t;
  works : gmap Z work;
  last_id : Z;              (* the last request id curl gave out *)
  drain : drain_state;
  signalled : bool          (* a broadcast the waiting thread has not seen *)
}.

Definition with_work (w : Z) (v : work) (f : curl_flight_t) (s : system) : system :=
  mk_sys f (<[w := v]> (works s)) (last_id s) (drain s) (signalled s).

(** The thread in stop() looks at the set again. *)
Definition drain_turn (passes : nat) (s : system) : system :=
  match drain_pass (fl s) with
  | Some _ => mk_sys (fl s) (works s) (last_id s) (Waiting (S passes)) false
  | None => let '(f, rest) := drain_leave (fl s) in mk_sys f (works s) (last_id s) (Drained rest) false
  end.

Definition drain_enter (s : system) : system :=
  drain_turn 0 (mk_sys (drain_ground (fl s)) (works s) (last_id s) (drain s) (signalled s)).

(** A drain ends: from an empty set at once, on a wake-up, or on the deadline. *)
Inductive drain_returns (spurious : bool) : system -> system -> Prop :=
  | DR_now s : drain_pass (drain_ground (fl s)) = None ->
      (forall p, drain s <> Waiting p) -> drain_returns spurious s (drain_enter s)
  | DR_wake s p : drain s = Waiting p -> signalled s = true \/ spurious = true ->
      drain_pass (fl s) = None -> drain_returns spurious s (drain_turn p s)
  | DR_timeout s p : drain s = Waiting p ->
      drain_returns spurious s
        (let '(f, rest) := drain_leave (fl s) in mk_sys f (works s) (last_id s) (Drained rest) false).

(** With [spurious], a wait may also return for no reason. *)
Inductive step (spurious : bool) : system -> system -> Prop :=
  | S_open s w f slot :
      works s !! w = None -> curl_flight_open (fl s) = (f, slot, true) ->
      Z.of_nat (length (slots (fl s))) < 2 ^ 31 -> f_seq (fl s) + 1 < 2 ^ 63 ->
      step spurious s (with_work w (slot, false) f s)
  | S_relay s w slot id f slot' :
      works s !! w = Some (slot, false) -> last_id s < id < 2 ^ 63 ->
      relay_begin (fl s) id slot = Some (f, slot') ->
      step spurious s (mk_sys f (<[w := (slot', true)]> (works s)) id (drain s) (signalled s))
  | S_submitted s w slot :
      works s !! w = Some (slot, true) ->
      step spurious s (with_work w (slot, false) (fl s) s)
  | S_refused s w slot f slot' :
      works s !! w = Some (slot, true) -> relay_refused (fl s) slot slot = (f, slot') ->
      f_seq (fl s) + 1 < 2 ^ 63 ->
      step spurious s (with_work w (slot', false) f s)
  | S_close s w slot f b :
      works s !! w = Some (slot, false) -> curl_flight_close (fl s) slot = (f, b) ->
      step spurious s (mk_sys f (delete w (works s)) (last_id s) (drain s) (signalled s || b))
  | S_enter s : (forall p, drain s <> Waiting p) -> step spurious s (drain_enter s)
  | S_wake s p : drain s = Waiting p -> signalled s = true \/ spurious = true ->
      step spurious s (drain_turn p s)
  | S_returns s s' : drain_returns spurious s s' -> step spurious s s'.

Definition boot : system := mk_sys curl_flight_init ∅ 0 NoDrain false.

Definition reachable (spurious : bool) : system -> Prop := rtc (step spurious) boot.

(** ** Slots *)

Lemma find_slot_in l id :
  id ∈ l -> exists l1 l2, l = l1 ++ id :: l2 /\ find_slot l id = length l1.
Proof.
  induction l as [|x l IH]; [by intros ?%elem_of_nil|]. intros Hi. cbn [find_slot].
  destruct (x =? id) eqn:E; breflect.
  - subst. by exists [], l.
  - apply elem_of_cons in Hi as [?|Hi]; [congruence|]. destruct (IH Hi) as (l1 & l2 & -> & ->).
    by exists (x :: l1), l2.
Qed.

Lemma find_slot_out l id : id ∉ l -> find_slot l id = length l.
Proof.
  induction l as [|x l IH]; [done|]. intros [H1 H2]%not_elem_of_cons. cbn [find_slot length].
  destruct (x =? id) eqn:E; breflect; [congruence|]. by rewrite IH.
Qed.

Lemma insert_at l1 (x v : Z) l2 : <[length l1 := v]> (l1 ++ x :: l2) = l1 ++ v :: l2.
Proof. rewrite list.insert_app_r_alt by lia. by rewrite Nat.sub_diag. Qed.

(** Replacing a live slot, and taking one out, as permutations. *)
Lemma replace_slot l id v rest :
  l ≡ₚ id :: rest -> <[find_slot l id := v]> l ≡ₚ v :: rest /\ (find_slot l id < length l)%nat.
Proof.
  intros H. assert (Hi : id ∈ l) by (rewrite H; by left).
  destruct (find_slot_in l id Hi) as (l1 & l2 & -> & ->). rewrite insert_at, length_app. split; [|simpl; lia].
  rewrite <- Permutation_middle in H |- *. by apply Permutation_cons_inv in H as ->.
Qed.

Lemma remove_slot l id rest :
  l ≡ₚ id :: rest ->
  take (length l - 1) (<[find_slot l id := nth (length l - 1) l 0]> l) ≡ₚ rest /\ (find_slot l id < length l)%nat.
Proof.
  intros H. assert (Hi : id ∈ l) by (rewrite H; by left).
  destruct (find_slot_in l id Hi) as (l1 & l2 & -> & ->). rewrite insert_at, length_app. cbn [length].
  replace (length l1 + S (length l2) - 1)%nat with (length l1 + length l2)%nat by lia. split; [|lia].
  rewrite <- Permutation_middle in H. apply Permutation_cons_inv in H as <-.
  destruct l2 as [|z l2 _] using rev_ind.
  - rewrite !app_nil_r. simpl. by rewrite Nat.add_0_r, take_app_length.
  - rewrite app_nth2, length_app by (rewrite length_app; simpl; lia). cbn [length].
    replace (length l1 + (length l2 + 1) - length l1)%nat with (S (length l2)) by lia. cbn [nth].
    rewrite app_nth2, Nat.sub_diag by lia. cbn [nth].
    replace (l1 ++ z :: l2 ++ [z]) with ((l1 ++ z :: l2) ++ [z]) by by rewrite <- app_assoc.
    rewrite list.take_app_le by (rewrite length_app; simpl; lia).
    rewrite list.take_ge by (rewrite length_app; simpl; lia).
    by rewrite <- Permutation_middle, app_assoc, <- Permutation_cons_append.
Qed.

(** ** Handles *)

Definition handles (m : gmap Z work) : list Z := map (fun e => e.2.1) (map_to_list m).

Lemma handles_insert m w v : m !! w = None -> handles (<[w := v]> m) ≡ₚ v.1 :: handles m.
Proof. intros H. unfold handles. by rewrite map_to_list_insert. Qed.

Lemma handles_take m w v : m !! w = Some v -> handles m ≡ₚ v.1 :: handles (delete w m).
Proof. intros H. rewrite <- handles_insert by apply lookup_delete_eq. by rewrite insert_delete_id. Qed.

Lemma handles_update m w v v' : m !! w = Some v -> handles (<[w := v']> m) ≡ₚ v'.1 :: handles (delete w m).
Proof. intros H. rewrite <- insert_delete_eq. by rewrite handles_insert by apply lookup_delete_eq. Qed.

Lemma handles_length m : length (handles m) = size m.
Proof. unfold handles. by rewrite length_map, length_map_to_list. Qed.

Lemma handles_elem m x : x ∈ handles m <-> exists w b, m !! w = Some (x, b).
Proof.
  unfold handles. rewrite list_elem_of_fmap. split.
  - intros ([w [y b]] & -> & H). apply elem_of_map_to_list in H. eauto.
  - intros (w & b & H). exists (w, (x, b)). split; [done|]. by apply elem_of_map_to_list.
Qed.

(** ** Values of slots *)

Lemma token_add k : 0 <= k < 2 ^ 63 -> token k = 2 ^ 63 + k.
Proof. intros H. unfold token, CURL_FLIGHT_IDLE. by rewrite <- (Z.mul_1_l (2 ^ 63)), lor_shift_add by lia. Qed.

(** An id of curl's or a token already minted. *)
Definition slot_value (last seq x : Z) : Prop := 0 < x <= last \/ 2 ^ 63 < x <= 2 ^ 63 + seq.

Lemma slot_value_mono last seq last' seq' x :
  last <= last' -> seq <= seq' -> slot_value last seq x -> slot_value last' seq' x.
Proof. unfold slot_value. lia. Qed.

(** ** The invariant *)

Record flight_ok (spurious : bool) (s : system) : Prop := {
  fo_handles : slots (fl s) ≡ₚ handles (works s);
  fo_nodup : NoDup (slots (fl s));
  fo_values : forall x, x ∈ slots (fl s) -> slot_value (last_id s) (f_seq (fl s)) x;
  fo_ids : 0 <= last_id s < 2 ^ 63;
  fo_seq : 0 <= f_seq (fl s) < 2 ^ 63;
  fo_room : Z.of_nat (length (slots (fl s))) <= f_cap (fl s) < 2 ^ 32;
  fo_waiting : forall p, drain s = Waiting p ->
    grounded (fl s) = true /\ (signalled s = true -> slots (fl s) = []) /\ (spurious = false -> p = 1%nat);
  fo_drained : drain s = Drained 0 -> grounded (fl s) = true /\ slots (fl s) = []
}.

(** A live handle splits off its slot. *)
Lemma handle_slot sp s w slot b :
  flight_ok sp s -> works s !! w = Some (slot, b) ->
  slots (fl s) ≡ₚ slot :: handles (delete w (works s)).
Proof. intros H Hw. rewrite (fo_handles _ _ H). by apply handles_take in Hw. Qed.

(** No slot holds a value not given out yet. *)
Lemma slot_fresh sp s x :
  flight_ok sp s -> last_id s < x <= 2 ^ 63 \/ 2 ^ 63 + f_seq (fl s) < x -> x ∉ slots (fl s).
Proof. intros H Hx Hi. apply (fo_values _ _ H) in Hi. pose proof (fo_ids _ _ H). pose proof (fo_seq _ _ H). unfold slot_value in Hi. lia. Qed.

(** Rewriting the value of a handle: the slots, and what else the new state has to
    show. *)
Lemma update_ok sp s w slot b b' v f last :
  flight_ok sp s -> works s !! w = Some (slot, b) -> v ∉ slots (fl s) ->
  slots f = <[find_slot (slots (fl s)) slot := v]> (slots (fl s)) ->
  f_cap f = f_cap (fl s) -> grounded f = grounded (fl s) ->
  last_id s <= last < 2 ^ 63 -> f_seq (fl s) <= f_seq f < 2 ^ 63 -> slot_value last (f_seq f) v ->
  flight_ok sp (mk_sys f (<[w := (v, b')]> (works s)) last (drain s) (signalled s)).
Proof.
  intros H Hw Hv Hs Hc Hg Hl Hq Hval. pose proof (handle_slot _ _ _ _ _ H Hw) as Hp.
  destruct (replace_slot _ _ v _ Hp) as [Hp' _]. rewrite <- Hs in Hp'.
  assert (Hn : length (slots f) = length (slots (fl s))) by (rewrite Hs; apply length_insert).
  pose proof (fo_nodup _ _ H) as Hd. rewrite Hp in Hd, Hv. apply list.NoDup_cons in Hd as [_ Hd].
  assert (Hne : slots (fl s) <> []) by (intros E; rewrite E in Hp; by apply Permutation_nil_cons in Hp).
  constructor; cbn [fl works last_id drain signalled].
  - rewrite (handles_update _ _ _ (v, b') Hw). exact Hp'.
  - rewrite Hp'. apply list.NoDup_cons. split; [|done]. intros ?. apply Hv. by right.
  - intros x. rewrite Hp'. intros [->|Hx]%elem_of_cons; [done|].
    apply (slot_value_mono (last_id s) (f_seq (fl s))); [lia|lia|]. apply (fo_values _ _ H). rewrite Hp. by right.
  - pose proof (fo_ids _ _ H). lia.
  - pose proof (fo_seq _ _ H). lia.
  - rewrite Hn, Hc. apply (fo_room _ _ H).
  - intros p Hp0. rewrite Hg. destruct (fo_waiting _ _ H p Hp0) as (G1 & G2 & G3). split_and!; [done| |done].
    intros E. by rewrite (G2 E) in Hne.
  - intros E. destruct (fo_drained _ _ H E). done.
Qed.

Lemma open_ok sp s w f slot :
  flight_ok sp s -> works s !! w = None -> curl_flight_open (fl s) = (f, slot, true) ->
  Z.of_nat (length (slots (fl s))) < 2 ^ 31 -> f_seq (fl s) + 1 < 2 ^ 63 ->
  flight_ok sp (with_work w (slot, false) f s).
Proof.
  intros H Hw Ho Hl Hq. unfold curl_flight_open in Ho. destruct (grounded (fl s)) eqn:Hg; [done|].
  pose proof (fo_seq _ _ H) as Hs0. pose proof (fo_room _ _ H) as Hr. pose proof (fo_ids _ _ H) as Hid.
  unfold curl_flight_open_locked, wrap in Ho. rewrite (Z.mod_small (f_seq (fl s) + 1)) in Ho by lia.
  rewrite token_add in Ho by lia. set (t := 2 ^ 63 + (f_seq (fl s) + 1)) in *. injection Ho as <- <-.
  assert (Ht : t ∉ slots (fl s)) by (apply (slot_fresh sp); [done|right; unfold t; lia]).
  constructor; cbn [fl works last_id drain signalled with_work slots f_cap f_seq grounded].
  - rewrite handles_insert by done. rewrite <- (fo_handles _ _ H). symmetry. apply Permutation_cons_append.
  - rewrite <- Permutation_cons_append. apply list.NoDup_cons. split; [done|apply (fo_nodup _ _ H)].
  - intros x [Hx|Hx%list_elem_of_singleton]%elem_of_app.
    + apply (slot_value_mono (last_id s) (f_seq (fl s))); [lia|lia|by apply (fo_values _ _ H)].
    + subst x. right. unfold t. lia.
  - done.
  - lia.
  - rewrite length_app. cbn [length].
    destruct (_ =? f_cap (fl s)) eqn:E; breflect; [|lia].
    destruct (f_cap (fl s) =? 0) eqn:E0; breflect; cbn [negb]; [unfold CURL_FLIGHT_CAP0; lia|].
    rewrite Z.mod_small; lia.
  - intros p Hp. destruct (fo_waiting _ _ H p Hp). congruence.
  - intros E. destruct (fo_drained _ _ H E). congruence.
Qed.

Lemma relay_ok sp s w slot id f slot' :
  flight_ok sp s -> works s !! w = Some (slot, false) -> last_id s < id < 2 ^ 63 ->
  relay_begin (fl s) id slot = Some (f, slot') ->
  flight_ok sp (mk_sys f (<[w := (slot', true)]> (works s)) id (drain s) (signalled s)).
Proof.
  intros H Hw Hid Hr. unfold relay_begin in Hr. destruct (grounded (fl s)); [done|]. injection Hr as <- <-.
  destruct (replace_slot _ _ id _ (handle_slot _ _ _ _ _ H Hw)) as [_ Hlt].
  unfold set_slot, curl_flight_find_locked. rewrite (proj2 (Nat.ltb_lt _ _) Hlt).
  pose proof (fo_ids _ _ H). pose proof (fo_seq _ _ H).
  apply (update_ok sp s w slot false true id _ id H Hw); try done; cbn; try lia.
  - apply (slot_fresh sp); [done|left; lia].
  - left. lia.
Qed.

Lemma refused_ok sp s w slot f slot' :
  flight_ok sp s -> works s !! w = Some (slot, true) -> relay_refused (fl s) slot slot = (f, slot') ->
  f_seq (fl s) + 1 < 2 ^ 63 -> flight_ok sp (with_work w (slot', false) f s).
Proof.
  intros H Hw Hr Hq. destruct (replace_slot _ _ 0 _ (handle_slot _ _ _ _ _ H Hw)) as [_ Hlt].
  pose proof (fo_ids _ _ H). pose proof (fo_seq _ _ H).
  unfold relay_refused, curl_flight_find_locked in Hr. rewrite (proj2 (Nat.ltb_lt _ _) Hlt) in Hr.
  unfold wrap in Hr. rewrite Z.mod_small, token_add in Hr by lia. injection Hr as <- <-.
  apply (update_ok sp s w slot true false (2 ^ 63 + (f_seq (fl s) + 1)) _ (last_id s) H Hw); try done; cbn; try lia.
  - apply (slot_fresh sp); [done|right; lia].
  - right. lia.
Qed.

Lemma close_ok sp s w slot f b :
  flight_ok sp s -> works s !! w = Some (slot, false) -> curl_flight_close (fl s) slot = (f, b) ->
  flight_ok sp (mk_sys f (delete w (works s)) (last_id s) (drain s) (signalled s || b)).
Proof.
  intros H Hw Hc. pose proof (handle_slot _ _ _ _ _ H Hw) as Hp. destruct (remove_slot _ _ _ Hp) as [Hp' Hlt].
  unfold curl_flight_close, curl_flight_find_locked in Hc. rewrite (proj2 (Nat.ltb_lt _ _) Hlt) in Hc.
  set (l := take _ _) in *. cbv zeta in Hc. injection Hc as <- <-.
  pose proof (fo_nodup _ _ H) as Hd. rewrite Hp in Hd. apply list.NoDup_cons in Hd as [_ Hd].
  assert (Hne : slots (fl s) <> []) by (intros E; rewrite E in Hp; by apply Permutation_nil_cons in Hp).
  constructor; cbn [fl works last_id drain signalled slots f_cap f_seq grounded].
  - exact Hp'.
  - by rewrite Hp'.
  - intros x. rewrite Hp'. intros Hx. apply (fo_values _ _ H). rewrite Hp. by right.
  - apply (fo_ids _ _ H).
  - apply (fo_seq _ _ H).
  - pose proof (fo_room _ _ H). rewrite (Permutation_length Hp').
    rewrite (Permutation_length Hp) in H0. cbn [length] in H0. lia.
  - intros p Hp0. destruct (fo_waiting _ _ H p Hp0) as (G1 & G2 & G3). split_and!; [done| |done].
    intros [E|E]%orb_true_iff; [by apply G2 in E|]. apply Nat.eqb_eq in E. by apply nil_length_inv.
  - intros E. destruct (fo_drained _ _ H E). done.
Qed.

(** What a look at the set leaves: the wait, or the end of the drain. *)
Lemma drain_turn_ok sp s passes :
  flight_ok sp s -> grounded (fl s) = true ->
  (slots (fl s) <> [] -> sp = false -> passes = 0%nat) ->
  flight_ok sp (drain_turn passes s).
Proof.
  intros H Hg Hp. unfold drain_turn, drain_pass, drain_leave. destruct H.
  destruct (slots (fl s)) as [|x l] eqn:E; cbn [length Nat.ltb Nat.leb].
  - constructor; cbn [fl works last_id drain signalled]; rewrite ?E; try done.
  - constructor; cbn [fl works last_id drain signalled]; rewrite ?E; try done.
    intros p [= <-]. split_and!; [done|done|]. intros Es. by rewrite Hp.
Qed.

Lemma ground_ok sp s :
  flight_ok sp s -> (forall p, drain s <> Waiting p) ->
  flight_ok sp (mk_sys (drain_ground (fl s)) (works s) (last_id s) (drain s) (signalled s)).
Proof.
  intros H Hw. destruct H. constructor; cbn [fl works last_id drain signalled drain_ground slots f_cap f_seq grounded]; try done.
  - intros p Hp. by apply Hw in Hp.
  - intros E. by destruct (fo_drained0 E).
Qed.

Lemma leave_ok sp s p :
  flight_ok sp s -> drain s = Waiting p ->
  flight_ok sp (let '(f, rest) := drain_leave (fl s) in mk_sys f (works s) (last_id s) (Drained rest) false).
Proof.
  intros H Hw. destruct (fo_waiting _ _ H p Hw) as (Hg & _ & _). unfold drain_leave. destruct H.
  destruct (slots (fl s)) as [|x l] eqn:E; cbn [length Nat.ltb Nat.leb];
    constructor; cbn [fl works last_id drain signalled slots f_cap f_seq grounded]; rewrite ?E; done.
Qed.

Lemma wake_ok sp s p :
  flight_ok sp s -> drain s = Waiting p -> signalled s = true \/ sp = true -> flight_ok sp (drain_turn p s).
Proof.
  intros H Hw Hs. destruct (fo_waiting _ _ H p Hw) as (Hg & Hsig & _). apply drain_turn_ok; [done..|].
  intros Hne ->. destruct Hs as [Hs|Hs]; [|done]. by apply Hsig in Hs.
Qed.

Lemma returns_ok sp s s' : flight_ok sp s -> drain_returns sp s s' -> flight_ok sp s'.
Proof.
  intros H Hr. destruct Hr as [s0 _ Hw|s0 p Hw Hs _|s0 p Hw].
  - apply drain_turn_ok; [by apply ground_ok|done|done].
  - by apply wake_ok.
  - by apply (leave_ok sp s0 p).
Qed.

Lemma step_ok sp s s' : flight_ok sp s -> step sp s s' -> flight_ok sp s'.
Proof.
  intros H Hstep. destruct Hstep as [s w f slot|s w slot id f slot'|s w slot Hw|s w slot f slot'|s w slot f b|s Hw|s p|s s'].
  - by apply (open_ok sp).
  - by apply (relay_ok sp s w slot id).
  - pose proof (handles_update _ _ _ (slot, false) Hw) as Hu. pose proof (handles_take _ _ _ Hw) as Ht.
    destruct H. constructor; cbn [with_work fl works last_id drain signalled]; try done.
    by rewrite Hu, <- Ht.
  - by apply (refused_ok sp s w slot).
  - by apply (close_ok sp s w slot).
  - apply drain_turn_ok; [by apply ground_ok|done|done].
  - by apply wake_ok.
  - by apply (returns_ok sp s).
Qed.

Lemma boot_ok sp : flight_ok sp boot.
Proof.
  constructor; cbn; try done.
  - constructor.
  - by intros x ?%elem_of_nil.
Qed.

Lemma flights_ok sp s : reachable sp s -> flight_ok sp s.
Proof.
  intros H. pose proof (boot_ok sp) as Hb. induction H as [|a b c Hab _ IH]; [done|]. apply IH. by apply (step_ok sp a).
Qed.

(** ** Properties *)

(** Once drained empty, nothing takes off again. *)
Lemma drained_stays sp s s' :
  flight_ok sp s -> drain s = Drained 0 -> step sp s s' -> drain s' = Drained 0 /\ works s' = ∅.
Proof.
  intros H Hd Hs. destruct (fo_drained _ _ H Hd) as [Hg He].
  assert (Hw : works s = ∅).
  { apply map_size_empty_inv. rewrite <- handles_length, <- (fo_handles _ _ H). by rewrite He. }
  assert (Ht : drain (drain_enter s) = Drained 0 /\ works (drain_enter s) = ∅).
  { unfold drain_enter, drain_turn, drain_pass, drain_leave, drain_ground. cbn [fl slots]. rewrite He. done. }
  destruct Hs as [s w f slot _ Ho|s w slot id f slot' X|s w slot X|s w slot f slot' X|s w slot f b X|s X|s p X|s s' [s0 _ _|s0 p X|s0 p X]];
    try (rewrite Hw, lookup_empty in X; done); try congruence; try exact Ht.
  unfold curl_flight_open in Ho. rewrite Hg in Ho. done.
Qed.

Lemma drain_leave_count f f' rest :
  drain_leave f = (f', rest) -> rest = length (slots f') /\ (rest <> 0%nat -> grounded f' = false).
Proof. unfold drain_leave. destruct (slots f) eqn:E; cbn; intros [= <- <-]; rewrite ?E; done. Qed.

Lemma drain_returns_count sp s s' :
  drain_returns sp s s' ->
  exists rest, drain s' = Drained rest /\ rest = length (slots (fl s')) /\ (rest <> 0%nat -> grounded (fl s') = false).
Proof.
  intros Hd. destruct Hd as [s Hp _|s p _ _ Hp|s p _].
  - unfold drain_enter, drain_turn. cbn [fl]. rewrite Hp. destruct (drain_leave _) as [f rest] eqn:E.
    apply drain_leave_count in E. by exists rest.
  - unfold drain_turn. rewrite Hp. destruct (drain_leave _) as [f rest] eqn:E. apply drain_leave_count in E. by exists rest.
  - destruct (drain_leave _) as [f rest] eqn:E. apply drain_leave_count in E. by exists rest.
Qed.


(** The high bit tells a request id from a token. *)
Lemma on_wire last seq x :
  0 <= last < 2 ^ 63 -> 0 <= seq < 2 ^ 63 -> slot_value last seq x ->
  (Z.land x CURL_FLIGHT_IDLE =? 0) = true <-> 0 < x <= last.
Proof.
  intros Hl Hq Hv. rewrite Z.eqb_eq. unfold CURL_FLIGHT_IDLE.
  assert (Hb : Z.land x (2 ^ 63) = 0 <-> Z.testbit x 63 = false).
  { split; intros H.
    - apply (f_equal (fun z => Z.testbit z 63)) in H. rewrite Z.land_spec, Z.pow2_bits_true, andb_true_r in H by lia.
      by rewrite H, Z.bits_0.
    - apply Z.bits_inj'. intros n Hn. rewrite Z.land_spec, Z.bits_0. destruct (decide (n = 63)) as [->|].
      + by rewrite H.
      + rewrite Z.pow2_bits_false by lia. apply andb_false_r. }
  rewrite Hb, Z.testbit_false by lia. destruct Hv as [Hv|Hv].
  - rewrite Z.div_small by lia. done.
  - split; [|lia]. intros H. exfalso. revert H. replace (x / 2 ^ 63) with 1; [done|].
    apply (Z.div_unique x (2 ^ 63) 1 (x - 2 ^ 63)); lia.
Qed.

(** a pass of the drain cancels exactly the requests that open work holds, and
    there is one pass: while no wait returns without a cause, a wake-up finds the set
    empty, since the one broadcast comes then. So a request whose relay submits it
    after the pass is waited for, not cancelled. *)
Theorem curl_flight_cancels_once (s : system) :
  reachable false s ->
  (forall cancels x, drain_pass (fl s) = Some cancels ->
     x ∈ cancels <-> 0 < x <= last_id s /\ exists w b, works s !! w = Some (x, b)) /\
  (forall passes, drain s = Waiting passes ->
     passes = 1%nat /\ (signalled s = true -> drain_pass (fl s) = None)).
Proof.
  intros Hr. pose proof (flights_ok _ _ Hr) as Hok. split.
  - unfold drain_pass. intros cancels x H. case_step_in H; [|done]. injection H as <-.
    rewrite list_elem_of_In, List.filter_In, <- list_elem_of_In, <- handles_elem, <- (fo_handles _ _ Hok).
    pose proof (fo_ids _ _ Hok). pose proof (fo_seq _ _ Hok).
    split; intros [H1 H2]; split; try done.
    + apply (on_wire (last_id s) (f_seq (fl s))); [done..|by apply (fo_values _ _ Hok)|done].
    + apply (on_wire (last_id s) (f_seq (fl s))); [done..|by apply (fo_values _ _ Hok)|done].
  - intros passes Hd. destruct (fo_waiting _ _ Hok _ Hd) as (_ & H1 & H2). split; [by apply H2|].
    intros H. unfold drain_pass. by rewrite (H1 H).
Qed.

(** ** A run *)

(** One piece of work, caught between the halves of its relay when stop() drains,
    then submitted, completed and closed. *)
Definition run_states : list system :=
  let s1 := with_work 1 (token 1, false) (curl_flight_open curl_flight_init).1.1 boot in
  let s2 := mk_sys (set_slot (token 1) 7 (fl s1)) (<[1 := (7, true)]> (works s1)) 7 NoDrain false in
  let s3 := drain_enter s2 in
  let s4 := with_work 1 (7, false) (fl s3) s3 in
  let s5 := mk_sys (curl_flight_close (fl s4) 7).1 (delete 1 (works s4)) 7 (drain s4) true in
  [s1; s2; s3; s4; s5].

Definition run_state (n : nat) : system := nth n run_states boot.

Lemma run_reachable sp : reachable sp (run_state 2) /\ reachable sp (run_state 4).
Proof.
  assert (H3 : reachable sp (run_state 2)).
  { eapply rtc_l; [|eapply rtc_l; [|eapply rtc_l; [|apply rtc_refl]]].
    - by eapply (S_open sp boot 1).
    - by apply (S_relay sp (run_state 0) 1 (token 1) 7).
    - by apply (S_enter sp (run_state 1)). }
  split; [done|]. eapply rtc_r; [eapply rtc_r; [exact H3|]|].
  - by apply (S_submitted sp (run_state 2) 1 7).
  - by apply (S_close sp (run_state 3) 1 7 _ true).
Qed.


Lemma curl_flight_cancels_once_witness :
  drain (run_state 2) = Waiting 1 /\ (exists w, works (run_state 2) !! w = Some (7, true)) /\
  drain (run_state 4) = Waiting 1 /\ drain_pass (fl (run_state 4)) = None.
Proof.
  split; [reflexivity|]. split; [by exists 1|]. split; [reflexivity|].
  destruct (curl_flight_cancels_once (run_state 4) (proj2 (run_reachable false))) as [_ H].
  by apply (H 1%nat).
Defined.
