(* ===== verification/MathExpr.v ===== *)
(** * The expression evaluator: core/math_expr.c

    A recursive-descent parser that computes as it parses. The parser state is a record
    that every function threads; a pointer into the text is the suffix it points at. The
    functions recurse through each other, so they take the number of stack frames that
    are left, and give None when there are none: the theorems show how many are enough.
    The mathematical functions of the C library are the class [Libm]. *)

From Stdlib Require Import SpecFloat.
From S2P Require Import Prelude Double.

Definition MATH_INPUT_MAX : nat := 4096.
Definition MATH_DEPTH_MAX : Z := 64.
Definition IDENT_MAX : nat := 32.

Inductive tok_t :=
  | TOK_END | TOK_NUM | TOK_IDENT | TOK_PLUS | TOK_MINUS | TOK_STAR | TOK_SLASH | TOK_PERCENT
  | TOK_CARET | TOK_LPAREN | TOK_RPAREN | TOK_COMMA | TOK_ERR.

#[global] Instance tok_t_eq_dec : EqDecision tok_t.
Proof. solve_decision. Defined.

(** The functions of <math.h>, and what converting a NaN to [unsigned int], which C
    leaves undefined, gives on the target. *)
Class Libm := {
  m_acos : double -> double; m_asin : double -> double; m_atan : double -> double;
  m_atan2 : double -> double -> double; m_ceil : double -> double; m_cos : double -> double;
  m_cosh : double -> double; m_exp : double -> double; m_floor : double -> double;
  m_log : double -> double; m_log10 : double -> double; m_pow : double -> double -> double;
  m_sin : double -> double; m_sinh : double -> double; m_sqrt : double -> double;
  m_tan : double -> double; m_tanh : double -> double; m_fmod : double -> double -> double;
  nan_to_uint : Z
}.

Section math.
Context {M : Libm}.

(** ** Constants and functions *)

Definition const_pi : double := S754_finite false 7074237752028440 (-51).
Definition const_e : double := S754_finite false 6121026514868073 (-51).

Definition UINT_MAX : Z := 2 ^ 32 - 1.
Definition ULONG_MAX : Z := 2 ^ 64 - 1.

(** [(unsigned int)a] for [a] not negative and at most UINT_MAX: the fraction is dropped. *)
Definition to_uint (a : double) : Z :=
  match a with
  | S754_finite _ m e => if 0 <=? e then Z.pos m * 2 ^ e else Z.pos m / 2 ^ (- e)
  | S754_nan => nan_to_uint
  | _ => 0
  end.

(** The loop of fn_fac from [i]; the answer is None for INFINITY, and the outer None
    when the turns are used up. *)
Fixpoint fac_loop (turns : nat) (i n result : Z) : option (option Z) :=
  match turns with
  | O => None
  | S turns =>
      if i <=? n then
        if ULONG_MAX / result <? i then Some None else fac_loop turns (i + 1) n (wrap 64 (result * i))
      else Some (Some result)
  end.

(** What strtod makes of a whole literal. *)
Definition strtod_value (s : cstr) : double :=
  match strtod s with Some (d, _) => d | None => NAN end.

Definition or_infinity (r : option (option Z)) : double :=
  match r with Some (Some z) => of_Z z | _ => INFINITY end.

Definition fn_fac (a : double) : double :=
  if (a <? of_Z 0)%D then NAN
  else if (of_Z UINT_MAX <? a)%D then INFINITY
  else or_infinity (fac_loop 22 1 (to_uint a) 1).

(** The loop of fn_ncr from [i], with [k] for [un - ur]. *)
Fixpoint ncr_loop (turns : nat) (i ur k result : Z) : option (option Z) :=
  match turns with
  | O => None
  | S turns =>
      if i <=? ur then
        if ULONG_MAX / wrap 32 (k + i) <? result then Some None
        else ncr_loop turns (i + 1) ur k (wrap 64 (result * wrap 32 (k + i)) / i)
      else Some (Some result)
  end.

(** fn_ncr after the conversions. *)
Definition ncr_uint (un ur : Z) : option (option Z) :=
  let ur := if un / 2 <? ur then wrap 32 (un - ur) else ur in
  ncr_loop 65 1 ur (wrap 32 (un - ur)) 1.

Definition fn_ncr (n r : double) : double :=
  if (n <? of_Z 0)%D || (r <? of_Z 0)%D || (n <? r)%D then NAN
  else if (of_Z UINT_MAX <? n)%D || (of_Z UINT_MAX <? r)%D then INFINITY
  else or_infinity (ncr_uint (to_uint n) (to_uint r)).

Definition fn_npr (n r : double) : double := (fn_ncr n r * fn_fac r)%D.

Inductive builtin_fn :=
  | F0 (f : double)
  | F1 (f : double -> double)
  | F2 (f : double -> double -> double).

Record builtin_t := { b_name : cstr; b_fn : builtin_fn }.

Definition builtin (name : string) (f : builtin_fn) : builtin_t := {| b_name := lit name; b_fn := f |}.

Definition builtins : list builtin_t :=
  [builtin "abs" (F1 SFabs); builtin "acos" (F1 m_acos); builtin "asin" (F1 m_asin);
   builtin "atan" (F1 m_atan); builtin "atan2" (F2 m_atan2); builtin "ceil" (F1 m_ceil);
   builtin "cos" (F1 m_cos); builtin "cosh" (F1 m_cosh); builtin "e" (F0 const_e);
   builtin "exp" (F1 m_exp); builtin "fac" (F1 fn_fac); builtin "floor" (F1 m_floor);
   builtin "ln" (F1 m_log); builtin "log" (F1 m_log10); builtin "log10" (F1 m_log10);
   builtin "ncr" (F2 fn_ncr); builtin "npr" (F2 fn_npr); builtin "pi" (F0 const_pi);
   builtin "pow" (F2 m_pow); builtin "sin" (F1 m_sin); builtin "sinh" (F1 m_sinh);
   builtin "sqrt" (F1 m_sqrt); builtin "tan" (F1 m_tan); builtin "tanh" (F1 m_tanh)].

(** [strncmp]: negative, zero or positive. *)
Fixpoint strncmp (a b : cstr) (n : nat) : Z :=
  match n with
  | O => 0
  | S n =>
      match a, b with
      | [], [] => 0
      | [], _ :: _ => -1
      | _ :: _, [] => 1
      | x :: a, y :: b => if code x =? code y then strncmp a b n else code x - code y
      end
  end.

(** The search over the bounds; the table is halved each turn. *)
Fixpoint find_builtin_loop (turns : nat) (name : cstr) (lo hi : Z) : option builtin_t :=
  match turns with
  | O => None
  | S turns =>
      if lo <=? hi then
        let mid := lo + (hi - lo) / 2 in
        match builtins !! Z.to_nat mid with
        | Some b =>
            let cmp := strncmp name (b_name b) IDENT_MAX in
            if cmp =? 0 then Some b
            else if cmp <? 0 then find_builtin_loop turns name lo (mid - 1)
            else find_builtin_loop turns name (mid + 1) hi
        | None => None
        end
      else None
  end.

Definition find_builtin (name : cstr) : option builtin_t :=
  find_builtin_loop 6 name 0 (Z.of_nat (length builtins) - 1).

(** ** Tokens *)

Record parser_t := {
  p_start : cstr;
  p_pos : cstr;
  p_tok : tok_t;
  p_depth : Z;
  p_num : double;
  p_ident : cstr
}.

Definition set_tok (p : parser_t) (t : tok_t) : parser_t :=
  {| p_start := p_start p; p_pos := p_pos p; p_tok := t; p_depth := p_depth p; p_num := p_num p;
     p_ident := p_ident p |}.

Definition set_depth (p : parser_t) (d : Z) : parser_t :=
  {| p_start := p_start p; p_pos := p_pos p; p_tok := p_tok p; p_depth := d; p_num := p_num p;
     p_ident := p_ident p |}.

(** A token taken, with the position after it. *)
Definition taken (p : parser_t) (t : tok_t) (pos : cstr) : parser_t :=
  {| p_start := p_start p; p_pos := pos; p_tok := t; p_depth := p_depth p; p_num := p_num p;
     p_ident := p_ident p |}.

Definition is_blank (c : ascii) : bool := ceqb c " " || ceqb c "009" || ceqb c "010" || ceqb c "013".

Definition is_ident_char (c : ascii) : bool := isalnum c || ceqb c "_".

(** The token that starts at a character that is not blank, and what is left. *)
Definition punct (c : ascii) : tok_t :=
  if ceqb c "+" then TOK_PLUS
  else if ceqb c "-" then TOK_MINUS
  else if ceqb c "*" then TOK_STAR
  else if ceqb c "/" then TOK_SLASH
  else if ceqb c "%" then TOK_PERCENT
  else if ceqb c "^" then TOK_CARET
  else if ceqb c "(" then TOK_LPAREN
  else if ceqb c ")" then TOK_RPAREN
  else if ceqb c "," then TOK_COMMA
  else TOK_ERR.

Definition advance (p : parser_t) : parser_t :=
  let pos := skip_while is_blank (p_pos p) in
  match pos with
  | [] => taken p TOK_END pos
  | c :: rest =>
      if isdigit c || ceqb c "." then
        match strtod pos with
        | None =>
            {| p_start := p_start p; p_pos := pos; p_tok := TOK_ERR; p_depth := p_depth p; p_num := of_Z 0;
               p_ident := p_ident p |}
        | Some (num, rest) =>
            {| p_start := p_start p; p_pos := rest; p_tok := TOK_NUM; p_depth := p_depth p; p_num := num;
               p_ident := p_ident p |}
        end
      else if isalpha c || ceqb c "_" then
        {| p_start := p_start p; p_pos := skip_while is_ident_char pos; p_tok := TOK_IDENT;
           p_depth := p_depth p; p_num := p_num p; p_ident := take (IDENT_MAX - 1) (span is_ident_char pos) |}
      else if bool_decide (punct c = TOK_ERR) then taken p TOK_ERR pos
      else taken p (punct c) rest
  end.

(** ** The parser *)

Definition tok_is (p : parser_t) (t : tok_t) : bool := bool_decide (p_tok p = t).

Definition fails (p : parser_t) : option (double * parser_t) := Some (NAN, set_tok p TOK_ERR).

(** The loop of parse_expr; each turn takes an operator and a term. *)
Fixpoint expr_loop (term : parser_t -> option (double * parser_t)) (turns : nat) (val : double)
    (p : parser_t) : option (double * parser_t) :=
  if tok_is p TOK_PLUS || tok_is p TOK_MINUS then
    match turns with
    | O => None
    | S turns =>
        '(rhs, p') ← term (advance p);
        expr_loop term turns (if tok_is p TOK_PLUS then (val + rhs)%D else (val - rhs)%D) p'
    end
  else Some (val, p).

Fixpoint term_loop (unary : parser_t -> option (double * parser_t)) (turns : nat) (val : double)
    (p : parser_t) : option (double * parser_t) :=
  if tok_is p TOK_STAR || tok_is p TOK_SLASH || tok_is p TOK_PERCENT then
    match turns with
    | O => None
    | S turns =>
        '(rhs, p') ← unary (advance p);
        term_loop unary turns
          (if tok_is p TOK_STAR then (val * rhs)%D
           else if tok_is p TOK_SLASH then (val / rhs)%D
           else m_fmod val rhs) p'
    end
  else Some (val, p).

(** The signs before a power: whether there is an odd number of minuses. *)
Fixpoint sign_loop (turns : nat) (neg : bool) (p : parser_t) : option (bool * parser_t) :=
  if tok_is p TOK_PLUS || tok_is p TOK_MINUS then
    match turns with
    | O => None
    | S turns => sign_loop turns (if tok_is p TOK_MINUS then negb neg else neg) (advance p)
    end
  else Some (neg, p).

(** Turns that are enough for what is left of the text. *)
Definition turns (p : parser_t) : nat := S (length (p_pos p)).

(** [frames] is what is left of the stack. *)
Fixpoint parse_expr (frames : nat) (p : parser_t) : option (double * parser_t) :=
  match frames with
  | O => None
  | S frames =>
      let p := set_depth p (p_depth p + 1) in
      if MATH_DEPTH_MAX <? p_depth p then fails p
      else
        '(val, p) ← parse_term frames p;
        '(val, p) ← expr_loop (parse_term frames) (turns p) val p;
        Some (val, set_depth p (p_depth p - 1))
  end

with parse_term (frames : nat) (p : parser_t) : option (double * parser_t) :=
  match frames with
  | O => None
  | S frames =>
      '(val, p) ← parse_unary frames p;
      term_loop (parse_unary frames) (turns p) val p
  end

with parse_unary (frames : nat) (p : parser_t) : option (double * parser_t) :=
  match frames with
  | O => None
  | S frames =>
      '(neg, p) ← sign_loop (turns p) false p;
      '(val, p) ← parse_power frames p;
      Some (if neg : bool then (- val)%D else val, p)
  end

with parse_power (frames : nat) (p : parser_t) : option (double * parser_t) :=
  match frames with
  | O => None
  | S frames =>
      let p := set_depth p (p_depth p + 1) in
      if MATH_DEPTH_MAX <? p_depth p then fails p
      else
        '(base, p) ← parse_call frames p;
        if tok_is p TOK_CARET then
          '(exponent, p) ← parse_power frames (advance p);
          Some (m_pow base exponent, set_depth p (p_depth p - 1))
        else Some (base, set_depth p (p_depth p - 1))
  end

with parse_call (frames : nat) (p : parser_t) : option (double * parser_t) :=
  match frames with
  | O => None
  | S frames =>
      if negb (tok_is p TOK_IDENT) then parse_primary frames p
      else
        match find_builtin (p_ident p) with
        | None => fails p
        | Some b =>
            let p := advance p in
            match b_fn b with
            | F0 f =>
                if tok_is p TOK_LPAREN then
                  let p := advance p in
                  if negb (tok_is p TOK_RPAREN) then fails p else Some (f, advance p)
                else Some (f, p)
            | F1 f =>
                if tok_is p TOK_LPAREN then
                  '(arg, p) ← parse_expr frames (advance p);
                  if negb (tok_is p TOK_RPAREN) then fails p else Some (f arg, advance p)
                else
                  '(arg, p) ← parse_power frames p;
                  Some (f arg, p)
            | F2 f =>
                if negb (tok_is p TOK_LPAREN) then fails p
                else
                  '(a0, p) ← parse_expr frames (advance p);
                  if negb (tok_is p TOK_COMMA) then fails p
                  else
                    '(a1, p) ← parse_expr frames (advance p);
                    if negb (tok_is p TOK_RPAREN) then fails p else Some (f a0 a1, advance p)
            end
        end
  end

with parse_primary (frames : nat) (p : parser_t) : option (double * parser_t) :=
  match frames with
  | O => None
  | S frames =>
      if tok_is p TOK_NUM then Some (p_num p, advance p)
      else if tok_is p TOK_LPAREN then
        '(val, p) ← parse_expr frames (advance p);
        if negb (tok_is p TOK_RPAREN) then fails p else Some (val, advance p)
      else fails p
  end.

(** [error] when it is not NULL, and the value; None if [frames] are not enough. *)
Definition math_eval (frames : nat) (expression : option cstr) : option (Z * double) :=
  match expression with
  | None | Some [] => Some (1, NAN)
  | Some expression =>
      if (MATH_INPUT_MAX <? length (take (MATH_INPUT_MAX + 1) expression))%nat then Some (1, NAN)
      else
        let p := {| p_start := expression; p_pos := expression; p_tok := TOK_END; p_depth := 0;
                    p_num := of_Z 0; p_ident := [] |} in
        '(result, p) ← parse_expr frames (advance p);
        if negb (tok_is p TOK_END) then
          let error := Z.of_nat (length (p_start p)) - Z.of_nat (length (p_pos p)) in
          Some (if error =? 0 then 1 else error, NAN)
        else Some (0, result)
  end.

End math.

(** ** The grammar

    What an expression means, apart from how it is parsed: symbols, trees, the value of
    a tree, and which texts spell which tree. The index of a judgement is the number of
    levels of nesting it may use, one for each expression and each power. *)

Section grammar.
Context {M : Libm}.

Inductive sym := SNum (d : double) | SId (name : cstr) | SOp (t : tok_t).

Inductive tree :=
  | Num (d : double)
  | Const (name : cstr)
  | Call1 (name : cstr) (t : tree)
  | Call2 (name : cstr) (t u : tree)
  | Neg (t : tree)
  | Add (t u : tree)
  | Sub (t u : tree)
  | Mul (t u : tree)
  | Div (t u : tree)
  | Mod (t u : tree)
  | Pow (t u : tree).

(** The table, from the front. *)
Definition fn_named (name : cstr) : option builtin_fn :=
  b_fn <$> List.find (fun b => seqb (b_name b) name) builtins.

Fixpoint value (t : tree) : double :=
  match t with
  | Num d => d
  | Const name => match fn_named name with Some (F0 f) => f | _ => NAN end
  | Call1 name t => match fn_named name with Some (F1 f) => f (value t) | _ => NAN end
  | Call2 name t u => match fn_named name with Some (F2 f) => f (value t) (value u) | _ => NAN end
  | Neg t => (- value t)%D
  | Add t u => (value t + value u)%D
  | Sub t u => (value t - value u)%D
  | Mul t u => (value t * value u)%D
  | Div t u => (value t / value u)%D
  | Mod t u => m_fmod (value t) (value u)
  | Pow t u => m_pow (value t) (value u)
  end.

(** [g_sum k t ss t']: the rest of a sum whose first operands make [t]. The boolean of
    [g_call] is false when the call ends in an argument without parentheses, which takes
    every exponent that follows. *)
Inductive g_expr : nat -> tree -> list sym -> Prop :=
  | G_expr k t ss t' ss' : g_term k t ss -> g_sum k t ss' t' -> g_expr (S k) t' (ss ++ ss')
with g_sum : nat -> tree -> list sym -> tree -> Prop :=
  | G_sum_end k t : g_sum k t [] t
  | G_sum_add k t u ss t' ss' : g_term k u ss -> g_sum k (Add t u) ss' t' ->
      g_sum k t (SOp TOK_PLUS :: ss ++ ss') t'
  | G_sum_sub k t u ss t' ss' : g_term k u ss -> g_sum k (Sub t u) ss' t' ->
      g_sum k t (SOp TOK_MINUS :: ss ++ ss') t'
with g_term : nat -> tree -> list sym -> Prop :=
  | G_term k t ss t' ss' : g_unary k t ss -> g_prod k t ss' t' -> g_term k t' (ss ++ ss')
with g_prod : nat -> tree -> list sym -> tree -> Prop :=
  | G_prod_end k t : g_prod k t [] t
  | G_prod_mul k t u ss t' ss' : g_unary k u ss -> g_prod k (Mul t u) ss' t' ->
      g_prod k t (SOp TOK_STAR :: ss ++ ss') t'
  | G_prod_div k t u ss t' ss' : g_unary k u ss -> g_prod k (Div t u) ss' t' ->
      g_prod k t (SOp TOK_SLASH :: ss ++ ss') t'
  | G_prod_mod k t u ss t' ss' : g_unary k u ss -> g_prod k (Mod t u) ss' t' ->
      g_prod k t (SOp TOK_PERCENT :: ss ++ ss') t'
with g_unary : nat -> tree -> list sym -> Prop :=
  | G_unary k t ss : g_power k t ss -> g_unary k t ss
  | G_plus k t ss : g_unary k t ss -> g_unary k t (SOp TOK_PLUS :: ss)
  | G_minus k t ss : g_unary k t ss -> g_unary k (Neg t) (SOp TOK_MINUS :: ss)
with g_power : nat -> tree -> list sym -> Prop :=
  | G_power k t ss closed : g_call k t ss closed -> g_power (S k) t ss
  | G_pow k t ss u ss' : g_call k t ss true -> g_power k u ss' ->
      g_power (S k) (Pow t u) (ss ++ SOp TOK_CARET :: ss')
with g_call : nat -> tree -> list sym -> bool -> Prop :=
  | G_num k d : g_call k (Num d) [SNum d] true
  | G_paren k t ss : g_expr k t ss -> g_call k t (SOp TOK_LPAREN :: ss ++ [SOp TOK_RPAREN]) true
  | G_const k name f : fn_named name = Some (F0 f) -> g_call k (Const name) [SId name] true
  | G_const_paren k name f : fn_named name = Some (F0 f) ->
      g_call k (Const name) [SId name; SOp TOK_LPAREN; SOp TOK_RPAREN] true
  | G_call1 k name f t ss : fn_named name = Some (F1 f) -> g_expr k t ss ->
      g_call k (Call1 name t) (SId name :: SOp TOK_LPAREN :: ss ++ [SOp TOK_RPAREN]) true
  | G_call1_bare k name f t ss : fn_named name = Some (F1 f) -> g_power k t ss ->
      head ss <> Some (SOp TOK_LPAREN) -> g_call k (Call1 name t) (SId name :: ss) false
  | G_call2 k name f t ss u ss' : fn_named name = Some (F2 f) -> g_expr k t ss -> g_expr k u ss' ->
      g_call k (Call2 name t u)
        (SId name :: SOp TOK_LPAREN :: ss ++ SOp TOK_COMMA :: ss' ++ [SOp TOK_RPAREN]) true.

(** The symbol a parser state stands at; None at the end and at an error. *)
Definition at_sym (p : parser_t) : option sym :=
  match p_tok p with
  | TOK_END | TOK_ERR => None
  | TOK_NUM => Some (SNum (p_num p))
  | TOK_IDENT => Some (SId (p_ident p))
  | t => Some (SOp t)
  end.

(** [p'] is [p] after the symbols [ss]. *)
Fixpoint reads (p : parser_t) (ss : list sym) (p' : parser_t) : Prop :=
  match ss with
  | [] => p' = p
  | s :: ss => at_sym p = Some s /\ reads (advance p) ss p'
  end.

Definition start (expression : cstr) : parser_t :=
  {| p_start := expression; p_pos := expression; p_tok := TOK_END; p_depth := 0;
     p_num := of_Z 0; p_ident := [] |}.

(** The symbols of a whole text. *)
Definition symbols (expression : cstr) (ss : list sym) : Prop :=
  exists p, reads (advance (start expression)) ss p /\ p_tok p = TOK_END.

(** *** Moving over the text *)

Lemma advance_depth p : p_depth (advance p) = p_depth p.
Proof.
  unfold advance. destruct (skip_while is_blank (p_pos p)) as [|c s]; [done|].
  destruct (isdigit c || ceqb c "."); [by destruct (strtod _) as [[? ?]|]|].
  destruct (isalpha c || ceqb c "_"); [done|]. by case_bool_decide.
Qed.

Lemma advance_set_depth p d : advance (set_depth p d) = set_depth (advance p) d.
Proof.
  unfold advance. cbn [set_depth p_pos]. destruct (skip_while is_blank (p_pos p)) as [|c s]; [done|].
  destruct (isdigit c || ceqb c "."); [by destruct (strtod _) as [[? ?]|]|].
  destruct (isalpha c || ceqb c "_"); [done|]. by case_bool_decide.
Qed.

Lemma at_sym_set_depth p d : at_sym (set_depth p d) = at_sym p.
Proof. done. Qed.

Lemma set_depth_twice p d d' : set_depth (set_depth p d) d' = set_depth p d'.
Proof. done. Qed.

Lemma set_depth_same p d : p_depth p = d -> set_depth p d = p.
Proof. intros <-. by destruct p. Qed.

Lemma reads_depth p ss p' : reads p ss p' -> p_depth p' = p_depth p.
Proof.
  revert p. induction ss as [|s ss IH]; intros p; [by intros ->|]. intros [_ H].
  rewrite (IH _ H). apply advance_depth.
Qed.

Lemma reads_set_depth p ss p' d : reads p ss p' -> reads (set_depth p d) ss (set_depth p' d).
Proof.
  revert p. induction ss as [|s ss IH]; intros p; cbn [reads]; [by intros ->|]. intros [H1 H2].
  split; [done|]. rewrite advance_set_depth. by apply IH.
Qed.

Lemma reads_app p ss p' ss' p'' : reads p ss p' -> reads p' ss' p'' -> reads p (ss ++ ss') p''.
Proof.
  revert p. induction ss as [|s ss IH]; intros p; cbn [reads app]; [by intros ->|]. intros [H1 H2] H3.
  split; [done|]. by apply IH.
Qed.

Lemma reads_split p ss ss' p'' : reads p (ss ++ ss') p'' -> exists p', reads p ss p' /\ reads p' ss' p''.
Proof.
  revert p. induction ss as [|s ss IH]; intros p; cbn [reads app]; [by exists p|]. intros [H1 H2].
  destruct (IH _ H2) as (p' & H3 & H4). by exists p'.
Qed.

(** How much is left to read: the characters, and the current token. *)
Definition left_to_read (p : parser_t) : nat :=
  length (p_pos p) + match p_tok p with TOK_END | TOK_ERR => 0 | _ => 1 end.

Lemma skip_while_length P s : (length (skip_while P s) <= length s)%nat.
Proof. pose proof (span_skip_length P s). lia. Qed.

Lemma skip_while_shorter P c s : P c = true -> (length (skip_while P (c :: s)) <= length s)%nat.
Proof. intros H. cbn [skip_while]. rewrite H. apply skip_while_length. Qed.

Lemma advance_left p : (left_to_read (advance p) <= length (p_pos p))%nat.
Proof.
  unfold advance. pose proof (skip_while_length is_blank (p_pos p)) as H.
  destruct (skip_while is_blank (p_pos p)) as [|c s]; [cbn; lia|]. cbn [length] in H.
  destruct (isdigit c || ceqb c ".").
  { destruct (strtod (c :: s)) as [[d r]|] eqn:E; unfold left_to_read; cbn [p_pos p_tok]; [|cbn [length]; lia].
    apply strtod_shorter in E. cbn [length] in E. lia. }
  destruct (isalpha c || ceqb c "_") eqn:Ei.
  { assert (Hc : is_ident_char c = true).
    { unfold is_ident_char, isalnum. apply orb_true_iff in Ei as [-> | ->]; [done|by rewrite orb_true_r]. }
    unfold left_to_read. cbn [p_pos p_tok]. pose proof (skip_while_shorter is_ident_char c s Hc). lia. }
  case_bool_decide as Hp; unfold left_to_read; cbn [taken p_pos p_tok length]; [lia|].
  destruct (punct c); lia.
Qed.

(** A step that reads a token reads something. *)
Lemma advance_less p : at_sym p <> None -> (left_to_read (advance p) < left_to_read p)%nat.
Proof.
  intros H. pose proof (advance_left p). unfold left_to_read at 2. unfold at_sym in H.
  destruct (p_tok p); try done; lia.
Qed.

Lemma tok_is_true p t : tok_is p t = true <-> p_tok p = t.
Proof. apply bool_decide_eq_true. Qed.

Lemma tok_is_false p t : tok_is p t = false <-> p_tok p <> t.
Proof. apply bool_decide_eq_false. Qed.

Definition is_op (t : tok_t) : bool :=
  match t with TOK_END | TOK_ERR | TOK_NUM | TOK_IDENT => false | _ => true end.

Lemma at_op p t : p_tok p = t -> is_op t = true -> at_sym p = Some (SOp t).
Proof. intros <- H. unfold at_sym. by destruct (p_tok p). Qed.

Lemma at_sym_op p t : at_sym p = Some (SOp t) -> p_tok p = t.
Proof. unfold at_sym. destruct (p_tok p); congruence. Qed.

(** *** The table *)

Lemma strncmp_eq a b n : (length b < n)%nat -> (strncmp a b n = 0 <-> a = b).
Proof.
  revert b n. induction a as [|x a IH]; intros b n Hn; (destruct n as [|n]; [lia|]);
    destruct b as [|y b]; cbn [strncmp]; cbn [length] in Hn; try (split; [lia|discriminate]); [done|].
  destruct (code x =? code y) eqn:E; breflect.
  - apply code_inj in E as ->. rewrite (IH b n) by lia. split; congruence.
  - split; [lia|]. congruence.
Qed.

Definition names : list cstr := map b_name builtins.

(** Every name is short and comes after the ones before it. *)
Lemma names_sorted :
  forallb (fun x => (length x <? IDENT_MAX)%nat) names &&
  forallb (fun i => forallb (fun j => implb (i <? j)%nat
    ((strncmp (nth i names []) (nth j names []) IDENT_MAX <? 0) &&
     (0 <? strncmp (nth j names []) (nth i names []) IDENT_MAX))) (seq 0 24)) (seq 0 24) = true.
Proof. vm_compute. reflexivity. Qed.

Lemma names_lookup i b : builtins !! i = Some b -> (i < 24)%nat /\ nth i names [] = b_name b.
Proof.
  intros H. split; [by apply (lookup_lt_Some builtins i b)|].
  apply nth_lookup_Some. unfold names. change (map b_name builtins) with (b_name <$> builtins).
  by rewrite list_lookup_fmap, H.
Qed.

Lemma names_ordered i j b b' :
  builtins !! i = Some b -> builtins !! j = Some b' -> (i < j)%nat ->
  strncmp (b_name b) (b_name b') IDENT_MAX < 0 /\ 0 < strncmp (b_name b') (b_name b) IDENT_MAX.
Proof.
  intros [Hi Ei]%names_lookup [Hj Ej]%names_lookup Hij.
  pose proof (proj2 (proj1 (andb_true_iff _ _) names_sorted)) as H.
  rewrite forallb_forall in H. specialize (H i ltac:(apply in_seq; lia)).
  rewrite forallb_forall in H. specialize (H j ltac:(apply in_seq; lia)). cbn beta in H.
  rewrite (proj2 (Nat.ltb_lt _ _) Hij), Ei, Ej in H. cbn [implb] in H. breflect. lia.
Qed.

Lemma names_short i b : builtins !! i = Some b -> (length (b_name b) < IDENT_MAX)%nat.
Proof.
  intros H%list_elem_of_lookup_2. pose proof (proj1 (proj1 (andb_true_iff _ _) names_sorted)) as S.
  rewrite forallb_forall in S. apply Nat.ltb_lt, S, in_map_iff. exists b. split; [done|by apply list_elem_of_In].
Qed.

Lemma names_nodup : NoDup (b_name <$> builtins).
Proof.
  apply NoDup_alt. intros i j x Hi Hj. apply list_lookup_fmap_Some in Hi as (b & -> & Hi).
  apply list_lookup_fmap_Some in Hj as (b' & Hb & Hj).
  destruct (lt_eq_lt_dec i j) as [[H|H]|H]; [|done|].
  - pose proof (names_ordered i j b b' Hi Hj H) as [O _]. rewrite Hb in O.
    by rewrite (proj2 (strncmp_eq _ _ _ (names_short _ _ Hj)) eq_refl) in O.
  - pose proof (names_ordered j i b' b Hj Hi H) as [O _]. rewrite Hb in O.
    by rewrite (proj2 (strncmp_eq _ _ _ (names_short _ _ Hj)) eq_refl) in O.
Qed.

Lemma find_loop_spec name n : forall lo hi,
  0 <= lo -> hi < 24 -> hi - lo + 1 < 2 ^ Z.of_nat n ->
  (forall j b, builtins !! j = Some b -> b_name b = name -> lo <= Z.of_nat j <= hi) ->
  find_builtin_loop n name lo hi = List.find (fun b => seqb (b_name b) name) builtins.
Proof.
  assert (Hnone : (forall j b, builtins !! j = Some b -> b_name b <> name) ->
    List.find (fun b => seqb (b_name b) name) builtins = None).
  { intros H. destruct (List.find _ builtins) as [b|] eqn:E; [|done].
    apply find_some in E as [[j Hj]%list_elem_of_In%list_elem_of_lookup_1 Hn%seqb_true]. by destruct (H j b Hj). }
  induction n as [|n IH]; intros lo hi Hlo Hhi Hn Hin; cbn [find_builtin_loop].
  { symmetry. apply Hnone. intros j b Hj Hb. specialize (Hin j b Hj Hb). cbn in Hn. lia. }
  rewrite Nat2Z.inj_succ, Z.pow_succ_r in Hn by lia.
  destruct (lo <=? hi) eqn:Hl; breflect; [|symmetry; apply Hnone; intros j b Hj Hb; specialize (Hin j b Hj Hb); lia].
  pose proof (Z.div_mod (hi - lo) 2 ltac:(lia)) as Hd. pose proof (Z.mod_pos_bound (hi - lo) 2 ltac:(lia)).
  set (mid := lo + (hi - lo) / 2) in *.
  destruct (lookup_lt_is_Some_2 builtins (Z.to_nat mid)) as [b Hb].
  { change (length builtins) with 24%nat. lia. }
  rewrite Hb. pose proof (strncmp_eq name _ _ (names_short _ _ Hb)) as He.
  destruct (strncmp name (b_name b) IDENT_MAX =? 0) eqn:E0; [apply Z.eqb_eq in E0|apply Z.eqb_neq in E0].
  - symmetry. apply (find_unique b_name seqb); [apply seqb_true|apply names_nodup|].
    split; [by eapply list_elem_of_lookup_2|symmetry; by apply He].
  - destruct (strncmp name (b_name b) IDENT_MAX <? 0) eqn:E1; breflect; apply IH; try lia; intros j b' Hj Hb';
      specialize (Hin j b' Hj Hb'); destruct (lt_eq_lt_dec j (Z.to_nat mid)) as [[Hjm|Hjm]|Hjm]; try lia.
    + subst j. rewrite Hb in Hj. injection Hj as ->. exfalso. apply E0, He. done.
    + pose proof (names_ordered _ _ b b' Hb Hj Hjm). rewrite Hb' in *. lia.
    + pose proof (names_ordered _ _ b' b Hj Hb Hjm). rewrite Hb' in *. lia.
    + subst j. rewrite Hb in Hj. injection Hj as ->. exfalso. apply E0, He. done.
Qed.

(** The binary search finds what is in the table. *)
Lemma find_builtin_spec name : b_fn <$> find_builtin name = fn_named name.
Proof.
  unfold find_builtin, fn_named. f_equal. apply find_loop_spec; try (cbn; lia).
  intros j b Hj _. apply lookup_lt_Some in Hj. change (length builtins) with 24%nat in *. lia.
Qed.

(** *** The parser computes values of the grammar *)

(** The levels that are left at a state. *)
Definition levels (p : parser_t) : nat := Z.to_nat (64 - p_depth p).

(** What a parsing function [f] owes: a result that is not an error reads a text of the
    judgement [g] and is the value of its tree. *)
Definition computes (g : nat -> tree -> list sym -> parser_t -> Prop)
    (f : parser_t -> option (double * parser_t)) : Prop :=
  forall p v p', f p = Some (v, p') -> p_tok p' <> TOK_ERR ->
  exists ss t, reads p ss p' /\ g (levels p) t ss p' /\ v = value t.

Definition no_caret (p : parser_t) : Prop := p_tok p <> TOK_CARET.

Definition is_expr k t ss (p : parser_t) : Prop := g_expr k t ss.
Definition is_term k t ss (p : parser_t) : Prop := g_term k t ss.
Definition is_unary k t ss (p : parser_t) : Prop := g_unary k t ss.
Definition is_power k t ss (p : parser_t) : Prop := g_power k t ss /\ no_caret p.
Definition is_call k t ss (p : parser_t) : Prop :=
  exists closed, g_call k t ss closed /\ (closed = false -> no_caret p).

Record sound (n : nat) : Prop := {
  so_expr : computes is_expr (parse_expr n);
  so_term : computes is_term (parse_term n);
  so_unary : computes is_unary (parse_unary n);
  so_power : computes is_power (parse_power n);
  so_call : computes is_call (parse_call n);
  so_primary : computes is_call (parse_primary n)
}.

Lemma bind_Some {A B} (x : option A) (f : A -> option B) y :
  x ≫= f = Some y -> exists a, x = Some a /\ f a = Some y.
Proof. destruct x as [a|]; [|done]. cbn. by exists a. Qed.

Lemma fails_err v p p' : fails p = Some (v, p') -> p_tok p' = TOK_ERR.
Proof. by intros [= _ <-]. Qed.

Lemma reads_levels p ss p' : reads p ss p' -> levels p' = levels p.
Proof. intros H. unfold levels. by rewrite (reads_depth _ _ _ H). Qed.

Lemma levels_advance p : levels (advance p) = levels p.
Proof. unfold levels. by rewrite advance_depth. Qed.

Lemma reads_one p s : at_sym p = Some s -> reads p [s] (advance p).
Proof. by split. Qed.

Lemma reads_op p t : p_tok p = t -> is_op t = true -> reads p [SOp t] (advance p).
Proof. intros. by apply reads_one, at_op. Qed.

Lemma expr_loop_err f m v p : p_tok p = TOK_ERR -> expr_loop f m v p = Some (v, p).
Proof. intros E. destruct m; cbn [expr_loop]; unfold tok_is; by rewrite E. Qed.

Lemma term_loop_err f m v p : p_tok p = TOK_ERR -> term_loop f m v p = Some (v, p).
Proof. intros E. destruct m; cbn [term_loop]; unfold tok_is; by rewrite E. Qed.

Lemma expr_loop_sound f m : computes is_term f -> forall v p v' p' t,
  expr_loop f m v p = Some (v', p') -> p_tok p' <> TOK_ERR -> v = value t ->
  exists ss t', reads p ss p' /\ g_sum (levels p) t ss t' /\ v' = value t'.
Proof.
  intros Hf. induction m as [|m IH]; intros v p v' p' t; cbn [expr_loop];
    destruct (tok_is p TOK_PLUS || tok_is p TOK_MINUS) eqn:E; try done;
    try (by intros [= <- <-] _ ->; exists [], t; split_and!; [done|constructor|]).
  intros ((rhs & q) & Hq & H)%bind_Some Herr ->.
  assert (Hqe : p_tok q <> TOK_ERR).
  { intros Hqe. rewrite expr_loop_err in H by done. congruence. }
  destruct (Hf _ _ _ Hq Hqe) as (ss & u & R1 & G1 & ->).
  rewrite levels_advance in G1. pose proof (reads_levels _ _ _ R1) as L. rewrite levels_advance in L.
  apply orb_true_iff in E as [E|E]; apply tok_is_true in E; unfold tok_is in H; rewrite E in H.
  - rewrite bool_decide_eq_true_2 in H by done.
    destruct (IH _ q v' p' (Add t u) H Herr eq_refl) as (ss' & t' & R2 & G2 & ->).
    exists (SOp TOK_PLUS :: ss ++ ss'), t'. rewrite L in G2. split_and!; [|by econstructor|done].
    split; [by apply at_op|by eapply reads_app].
  - rewrite bool_decide_eq_false_2 in H by done.
    destruct (IH _ q v' p' (Sub t u) H Herr eq_refl) as (ss' & t' & R2 & G2 & ->).
    exists (SOp TOK_MINUS :: ss ++ ss'), t'. rewrite L in G2. split_and!; [|by econstructor|done].
    split; [by apply at_op|by eapply reads_app].
Qed.

Lemma term_loop_sound f m : computes is_unary f -> forall v p v' p' t,
  term_loop f m v p = Some (v', p') -> p_tok p' <> TOK_ERR -> v = value t ->
  exists ss t', reads p ss p' /\ g_prod (levels p) t ss t' /\ v' = value t'.
Proof.
  intros Hf. induction m as [|m IH]; intros v p v' p' t; cbn [term_loop];
    destruct (tok_is p TOK_STAR || tok_is p TOK_SLASH || tok_is p TOK_PERCENT) eqn:E; try done;
    try (by intros [= <- <-] _ ->; exists [], t; split_and!; [done|constructor|]).
  intros ((rhs & q) & Hq & H)%bind_Some Herr ->.
  assert (Hqe : p_tok q <> TOK_ERR).
  { intros Hqe. rewrite term_loop_err in H by done. congruence. }
  destruct (Hf _ _ _ Hq Hqe) as (ss & u & R1 & G1 & ->).
  rewrite levels_advance in G1. pose proof (reads_levels _ _ _ R1) as L. rewrite levels_advance in L.
  assert (Hk : forall t0 op, p_tok p = op -> is_op op = true ->
    (forall ss' t', g_prod (levels p) t0 ss' t' -> g_prod (levels p) t (SOp op :: ss ++ ss') t') ->
    term_loop f m (value t0) q = Some (v', p') ->
    exists ss0 t', reads p ss0 p' /\ g_prod (levels p) t ss0 t' /\ v' = value t').
  { intros t0 op Hop Hin Hg Hl. destruct (IH _ q v' p' t0 Hl Herr eq_refl) as (ss' & t' & R2 & G2 & ->).
    exists (SOp op :: ss ++ ss'), t'. rewrite L in G2. split_and!; [|by apply Hg|done].
    split; [by apply at_op|by eapply reads_app]. }
  rewrite !orb_true_iff in E. unfold tok_is in H.
  destruct E as [[E|E]|E]; apply tok_is_true in E; rewrite E in H.
  - apply (Hk (Mul t u) TOK_STAR); [done|done|by econstructor|exact H].
  - apply (Hk (Div t u) TOK_SLASH); [done|done|by econstructor|exact H].
  - apply (Hk (Mod t u) TOK_PERCENT); [done|done|by econstructor|exact H].
Qed.

(** The signs, and the unary that they make of what follows. *)
Fixpoint signed (ss : list sym) (t : tree) : tree :=
  match ss with
  | [] => t
  | SOp TOK_MINUS :: ss => Neg (signed ss t)
  | _ :: ss => signed ss t
  end.

Definition is_sign (s : sym) : Prop := s = SOp TOK_PLUS \/ s = SOp TOK_MINUS.

Lemma signed_unary k t ss signs :
  Forall is_sign signs -> g_unary k t ss -> g_unary k (signed signs t) (signs ++ ss).
Proof.
  intros H G. induction H as [|s signs [->| ->] _ IH]; [done|by constructor|by constructor].
Qed.

Lemma dopp_twice d : (- - d)%D = d.
Proof. destruct d as [[]|[]| |[]]; done. Qed.

Lemma signed_value signs t :
  Forall is_sign signs -> value (signed signs t) = value t \/ value (signed signs t) = (- value t)%D.
Proof.
  induction 1 as [|s signs [->| ->] _ IH]; [by left|exact IH|].
  cbn [signed value]. destruct IH as [-> | ->]; [by right|left; apply dopp_twice].
Qed.

Definition negate (neg : bool) (v : double) : double := if neg then (- v)%D else v.

Lemma sign_loop_sound m : forall neg p neg' p',
  sign_loop m neg p = Some (neg', p') ->
  exists signs, reads p signs p' /\ Forall is_sign signs /\
    (forall t, negate neg (value (signed signs t)) = negate neg' (value t)) /\
    tok_is p' TOK_PLUS || tok_is p' TOK_MINUS = false.
Proof.
  induction m as [|m IH]; intros neg p neg' p'; cbn [sign_loop];
    destruct (tok_is p TOK_PLUS || tok_is p TOK_MINUS) eqn:E; try done;
    try (by intros [= <- <-]; exists []; split_and!; [done|constructor|done|done]).
  intros H. destruct (IH _ _ _ _ H) as (signs & R & Hs & Hv & Ht).
  apply orb_true_iff in E as [E|E]; apply tok_is_true in E; unfold tok_is in Hv; rewrite E in Hv.
  - rewrite bool_decide_eq_false_2 in Hv by done.
    exists (SOp TOK_PLUS :: signs). split_and!; [|by constructor; [left|]|done|done].
    split; [by apply at_op|done].
  - rewrite bool_decide_eq_true_2 in Hv by done.
    exists (SOp TOK_MINUS :: signs). split_and!; [|by constructor; [right|]| |done].
    + split; [by apply at_op|done].
    + intros t. rewrite <- Hv. cbn [signed value]. destruct neg; cbn [negate negb]; [apply dopp_twice|done].
Qed.

(** One level in. *)
Definition inner (p : parser_t) : parser_t := set_depth p (p_depth p + 1).

Lemma levels_inner p : (MATH_DEPTH_MAX <? p_depth (inner p)) = false -> levels p = S (levels (inner p)).
Proof. unfold levels, MATH_DEPTH_MAX. cbn [inner set_depth p_depth]. intros H. breflect. lia. Qed.

(** Back out: what was read one level in was read. *)
Lemma reads_outer p ss q : reads (inner p) ss q -> reads p ss (set_depth q (p_depth q - 1)).
Proof.
  intros R. apply (reads_set_depth _ _ _ (p_depth p)) in R as R'. pose proof (reads_depth _ _ _ R) as D.
  unfold inner in R', D. rewrite set_depth_twice in R'. rewrite (set_depth_same p) in R' by done.
  rewrite D. cbn [set_depth p_depth]. replace (p_depth p + 1 - 1) with (p_depth p) by lia. exact R'.
Qed.

Lemma sound_expr n : sound n -> computes is_expr (parse_expr (S n)).
Proof.
  intros IH p v p' H Herr. cbn [parse_expr] in H. fold (inner p) in H.
  destruct (MATH_DEPTH_MAX <? _) eqn:D; [by rewrite (fails_err _ _ _ H) in Herr|].
  apply bind_Some in H as ((v1 & q1) & H1 & H). apply bind_Some in H as ((v2 & q2) & H2 & [= <- <-]).
  cbn [set_depth p_tok] in Herr.
  assert (Hq1 : p_tok q1 <> TOK_ERR).
  { intros E. rewrite (expr_loop_err _ _ _ _ E) in H2. congruence. }
  destruct (so_term n IH _ _ _ H1 Hq1) as (ss & t & R1 & G1 & ->).
  destruct (expr_loop_sound _ _ (so_term n IH) _ _ _ _ t H2 Herr eq_refl) as (ss' & t' & R2 & G2 & ->).
  exists (ss ++ ss'), t'. split_and!; [by eapply reads_outer, reads_app| |done].
  unfold is_expr. rewrite (levels_inner p D). rewrite (reads_levels _ _ _ R1) in G2. by econstructor.
Qed.

Lemma sound_term n : sound n -> computes is_term (parse_term (S n)).
Proof.
  intros IH p v p' H Herr. cbn [parse_term] in H. apply bind_Some in H as ((v1 & q1) & H1 & H2).
  assert (Hq1 : p_tok q1 <> TOK_ERR).
  { intros E. rewrite (term_loop_err _ _ _ _ E) in H2. congruence. }
  destruct (so_unary n IH _ _ _ H1 Hq1) as (ss & t & R1 & G1 & ->).
  destruct (term_loop_sound _ _ (so_unary n IH) _ _ _ _ t H2 Herr eq_refl) as (ss' & t' & R2 & G2 & ->).
  exists (ss ++ ss'), t'. split_and!; [by eapply reads_app| |done].
  unfold is_term. rewrite (reads_levels _ _ _ R1) in G2. by econstructor.
Qed.

Lemma sound_unary n : sound n -> computes is_unary (parse_unary (S n)).
Proof.
  intros IH p v p' H Herr. cbn [parse_unary] in H. apply bind_Some in H as ((neg & q1) & H1 & H).
  apply bind_Some in H as ((v2 & q2) & H2 & [= <- <-]).
  destruct (sign_loop_sound _ _ _ _ _ H1) as (signs & R1 & Hs & Hv & _).
  destruct (so_power n IH _ _ _ H2 Herr) as (ss & t & R2 & [G _] & ->).
  exists (signs ++ ss), (signed signs t). split_and!; [by eapply reads_app| |symmetry; apply (Hv t)].
  rewrite (reads_levels _ _ _ R1) in G. by apply signed_unary, G_unary.
Qed.

Lemma sound_power n : sound n -> computes is_power (parse_power (S n)).
Proof.
  intros IH p v p' H Herr. cbn [parse_power] in H. fold (inner p) in H.
  destruct (MATH_DEPTH_MAX <? _) eqn:D; [by rewrite (fails_err _ _ _ H) in Herr|].
  apply bind_Some in H as ((v1 & q1) & H1 & H).
  assert (Hq1 : p_tok q1 <> TOK_ERR).
  { intros E. unfold tok_is in H. rewrite E in H. injection H as <- <-. by apply Herr. }
  destruct (so_call n IH _ _ _ H1 Hq1) as (ss & t & R1 & (closed & G1 & Hc) & ->).
  destruct (tok_is q1 TOK_CARET) eqn:E.
  - apply tok_is_true in E. apply bind_Some in H as ((v2 & q2) & H2 & [= <- <-]).
    assert (Hcl : closed = true) by (destruct closed; [done|]; by destruct (Hc eq_refl)). subst closed.
    destruct (so_power n IH _ _ _ H2 Herr) as (ss' & u & R2 & [G2 N] & ->).
    rewrite levels_advance, (reads_levels _ _ _ R1) in G2.
    exists (ss ++ SOp TOK_CARET :: ss'), (Pow t u). split_and!; [|split; [|done]|done].
    + eapply reads_outer, reads_app; [exact R1|]. split; [by apply at_op|done].
    + rewrite (levels_inner p D). by constructor.
  - injection H as <- <-. exists ss, t. split_and!; [by apply reads_outer|split|done].
    + rewrite (levels_inner p D). by econstructor.
    + by apply tok_is_false in E.
Qed.

Lemma sound_primary n : sound n -> computes is_call (parse_primary (S n)).
Proof.
  intros IH p v p' H Herr. cbn [parse_primary] in H.
  destruct (tok_is p TOK_NUM) eqn:E1.
  { injection H as <- <-. apply tok_is_true in E1. exists [SNum (p_num p)], (Num (p_num p)).
    split_and!; [apply reads_one; unfold at_sym; by rewrite E1|exists true; by split; [constructor|]|done]. }
  destruct (tok_is p TOK_LPAREN) eqn:E2; [|by rewrite (fails_err _ _ _ H) in Herr].
  apply tok_is_true in E2. apply bind_Some in H as ((v1 & q1) & H1 & H).
  destruct (tok_is q1 TOK_RPAREN) eqn:E3; cbn [negb] in H; [|by rewrite (fails_err _ _ _ H) in Herr].
  injection H as <- <-. apply tok_is_true in E3.
  destruct (so_expr n IH _ _ _ H1 ltac:(by rewrite E3)) as (ss & t & R & G & ->).
  rewrite levels_advance in G. exists (SOp TOK_LPAREN :: ss ++ [SOp TOK_RPAREN]), t.
  split_and!; [|exists true; by split; [constructor|]|done].
  split; [by apply at_op|]. eapply reads_app; [exact R|by apply reads_op].
Qed.

Lemma at_ident p : p_tok p = TOK_IDENT -> at_sym p = Some (SId (p_ident p)).
Proof. intros E. unfold at_sym. by rewrite E. Qed.

(** An argument in parentheses, up to the closing one or a comma. *)
Lemma sound_argument n p v q t :
  sound n -> p_tok p = TOK_LPAREN \/ p_tok p = TOK_COMMA -> parse_expr n (advance p) = Some (v, q) -> p_tok q = t -> is_op t = true ->
  exists ss a, reads p (SOp (p_tok p) :: ss ++ [SOp t]) (advance q) /\ g_expr (levels p) a ss /\ v = value a /\
    reads p (SOp (p_tok p) :: ss) q.
Proof.
  intros IH E H Et Ht. destruct (so_expr n IH _ _ _ H) as (ss & a & R & G & ->).
  { rewrite Et. by intros ->. }
  unfold is_expr in G. rewrite levels_advance in G. exists ss, a.
  assert (Ha : at_sym p = Some (SOp (p_tok p))) by (by destruct E as [E|E]; apply at_op; rewrite ?E).
  split_and!; [|done|done|by split]. split; [done|]. eapply reads_app; [exact R|by apply reads_op].
Qed.

Lemma sound_call n : sound n -> computes is_call (parse_call (S n)).
Proof.
  intros IH p v p' H Herr. cbn [parse_call] in H.
  destruct (tok_is p TOK_IDENT) eqn:E; cbn [negb] in H; [|by apply (so_primary n IH)].
  apply tok_is_true, at_ident in E. pose proof (find_builtin_spec (p_ident p)) as S.
  destruct (find_builtin (p_ident p)) as [b|]; [|by rewrite (fails_err _ _ _ H) in Herr].
  change (Some (b_fn b) = fn_named (p_ident p)) in S.
  set (name := p_ident p) in *. symmetry in S. cbv zeta in H.
  destruct (b_fn b) as [f|f|f].
  - destruct (tok_is (advance p) TOK_LPAREN) eqn:E1.
    + destruct (tok_is (advance (advance p)) TOK_RPAREN) eqn:E2; cbn [negb] in H; [|by rewrite (fails_err _ _ _ H) in Herr].
      injection H as <- <-. apply tok_is_true in E1, E2.
      exists [SId name; SOp TOK_LPAREN; SOp TOK_RPAREN], (Const name).
      split_and!; [| |cbn [value]; by rewrite S].
      { split; [done|]. split; [by apply at_op|]. split; [by apply at_op|done]. }
      exists true. by split; [econstructor|].
    + injection H as <- <-. exists [SId name], (Const name).
      split_and!; [by split| |cbn [value]; by rewrite S]. exists true. by split; [econstructor|].
  - destruct (tok_is (advance p) TOK_LPAREN) eqn:E1.
    + apply tok_is_true in E1. apply bind_Some in H as ((v1 & q1) & H1 & H).
      destruct (tok_is q1 TOK_RPAREN) eqn:E2; cbn [negb] in H; [|by rewrite (fails_err _ _ _ H) in Herr].
      injection H as <- <-. apply tok_is_true in E2.
      destruct (sound_argument n _ _ _ _ IH (or_introl E1) H1 E2 eq_refl) as (ss & a & R & G & -> & _).
      rewrite E1 in R. rewrite levels_advance in G.
      eexists (SId name :: _), (Call1 name a). split_and!; [split; [done|exact R]| |cbn [value]; by rewrite S].
      exists true. by split; [econstructor|].
    + apply bind_Some in H as ((v1 & q1) & H1 & [= <- <-]). apply tok_is_false in E1.
      destruct (so_power n IH _ _ _ H1 Herr) as (ss & a & R & [G N] & ->). rewrite levels_advance in G.
      exists (SId name :: ss), (Call1 name a). split_and!; [by split| |cbn [value]; by rewrite S].
      exists false. split; [|done]. econstructor; [done|done|].
      destruct ss as [|s ss]; [done|]. destruct R as [R _]. cbn [head]. rewrite <- R.
      intros E'. by apply at_sym_op in E'.
  - destruct (tok_is (advance p) TOK_LPAREN) eqn:E1; cbn [negb] in H; [|by rewrite (fails_err _ _ _ H) in Herr].
    apply tok_is_true in E1. apply bind_Some in H as ((v1 & q1) & H1 & H).
    destruct (tok_is q1 TOK_COMMA) eqn:E2; cbn [negb] in H; [|by rewrite (fails_err _ _ _ H) in Herr].
    apply tok_is_true in E2. apply bind_Some in H as ((v2 & q2) & H2 & H).
    destruct (tok_is q2 TOK_RPAREN) eqn:E3; cbn [negb] in H; [|by rewrite (fails_err _ _ _ H) in Herr].
    injection H as <- <-. apply tok_is_true in E3.
    destruct (sound_argument n _ _ _ _ IH (or_introl E1) H1 E2 eq_refl) as (ss & a & _ & G & -> & R).
    destruct (sound_argument n _ _ _ _ IH (or_intror E2) H2 E3 eq_refl) as (ss' & a' & R' & G' & -> & _).
    rewrite E1 in R. rewrite E2 in R'. rewrite levels_advance in G.
    rewrite (reads_levels _ _ _ R), levels_advance in G'.
    exists (SId name :: SOp TOK_LPAREN :: ss ++ SOp TOK_COMMA :: ss' ++ [SOp TOK_RPAREN]), (Call2 name a a').
    split_and!; [split; [done|]| |cbn [value]; by rewrite S].
    + change (reads (advance p) ((SOp TOK_LPAREN :: ss) ++ SOp TOK_COMMA :: ss' ++ [SOp TOK_RPAREN]) (advance q2)).
      by eapply reads_app.
    + exists true. by split; [econstructor|].
Qed.

Lemma all_sound n : sound n.
Proof.
  induction n as [|n IH]; [by constructor|]. constructor;
    [by apply sound_expr|by apply sound_term|by apply sound_unary|by apply sound_power|by apply sound_call|by apply sound_primary].
Qed.

(** *** The frames that are enough *)

Lemma reads_left p ss p' : reads p ss p' -> (left_to_read p' <= left_to_read p)%nat.
Proof.
  revert p. induction ss as [|s ss IH]; intros p; [by intros ->|]. intros [H R].
  apply IH in R. pose proof (advance_less p ltac:(by rewrite H)). lia.
Qed.

Lemma turns_enough p : (left_to_read p <= turns p)%nat.
Proof. unfold left_to_read, turns. destruct (p_tok p); lia. Qed.

(** [f] answers at the depth [d]. *)
Definition answers (d : Z) (f : parser_t -> option (double * parser_t)) : Prop :=
  forall p, p_depth p = d -> is_Some (f p).

Lemma expr_loop_answers f g : computes g f -> forall m v p,
  answers (p_depth p) f -> (left_to_read p <= m)%nat -> is_Some (expr_loop f m v p).
Proof.
  intros Hc. induction m as [|m IH]; intros v p Hf Hm; cbn [expr_loop];
    destruct (tok_is p TOK_PLUS || tok_is p TOK_MINUS) eqn:E; try by eexists.
  { unfold left_to_read in Hm. apply orb_true_iff in E as [E|E]; apply tok_is_true in E; rewrite E in Hm; lia. }
  assert (Hl : (left_to_read (advance p) < left_to_read p)%nat).
  { apply advance_less. apply orb_true_iff in E as [E|E]; apply tok_is_true in E; by rewrite (at_op _ _ E). }
  destruct (Hf (advance p) (advance_depth p)) as [[rhs q] Hq]. rewrite Hq. cbn [mbind option_bind].
  destruct (decide (p_tok q = TOK_ERR)) as [Eq|Nq]; [rewrite expr_loop_err by done; by eexists|].
  destruct (Hc _ _ _ Hq Nq) as (ss & t & R & _). pose proof (reads_left _ _ _ R).
  pose proof (reads_depth _ _ _ R) as D. rewrite advance_depth in D. apply IH; [by rewrite D|lia].
Qed.

Lemma term_loop_answers f g : computes g f -> forall m v p,
  answers (p_depth p) f -> (left_to_read p <= m)%nat -> is_Some (term_loop f m v p).
Proof.
  intros Hc. induction m as [|m IH]; intros v p Hf Hm; cbn [term_loop];
    destruct (tok_is p TOK_STAR || tok_is p TOK_SLASH || tok_is p TOK_PERCENT) eqn:E; try by eexists.
  { unfold left_to_read in Hm. rewrite !orb_true_iff in E.
    destruct E as [[E|E]|E]; apply tok_is_true in E; rewrite E in Hm; lia. }
  assert (Hl : (left_to_read (advance p) < left_to_read p)%nat).
  { apply advance_less. rewrite !orb_true_iff in E.
    destruct E as [[E|E]|E]; apply tok_is_true in E; by rewrite (at_op _ _ E). }
  destruct (Hf (advance p) (advance_depth p)) as [[rhs q] Hq]. rewrite Hq. cbn [mbind option_bind].
  destruct (decide (p_tok q = TOK_ERR)) as [Eq|Nq]; [rewrite term_loop_err by done; by eexists|].
  destruct (Hc _ _ _ Hq Nq) as (ss & t & R & _). pose proof (reads_left _ _ _ R).
  pose proof (reads_depth _ _ _ R) as D. rewrite advance_depth in D. apply IH; [by rewrite D|lia].
Qed.

Lemma sign_loop_answers m : forall neg p, (left_to_read p <= m)%nat -> is_Some (sign_loop m neg p).
Proof.
  induction m as [|m IH]; intros neg p Hm; cbn [sign_loop];
    destruct (tok_is p TOK_PLUS || tok_is p TOK_MINUS) eqn:E; try by eexists.
  { unfold left_to_read in Hm. apply orb_true_iff in E as [E|E]; apply tok_is_true in E; rewrite E in Hm; lia. }
  apply IH. pose proof (advance_less p) as Hl. apply orb_true_iff in E as [E|E]; apply tok_is_true in E;
    rewrite (at_op _ _ E) in Hl by done; specialize (Hl ltac:(done)); lia.
Qed.

(** With [n] frames each function answers at every depth that leaves it enough levels. *)
Record enough (n : nat) : Prop := {
  en_expr : forall p, (3 * levels p + 1 <= n)%nat -> is_Some (parse_expr n p);
  en_term : forall p, (3 * levels p + 3 <= n)%nat -> is_Some (parse_term n p);
  en_unary : forall p, (3 * levels p + 2 <= n)%nat -> is_Some (parse_unary n p);
  en_power : forall p, (3 * levels p + 1 <= n)%nat -> is_Some (parse_power n p);
  en_call : forall p, (3 * levels p + 3 <= n)%nat -> is_Some (parse_call n p);
  en_primary : forall p, (3 * levels p + 2 <= n)%nat -> is_Some (parse_primary n p)
}.

Lemma levels_eq p q : p_depth p = p_depth q -> levels p = levels q.
Proof. unfold levels. by intros ->. Qed.

Lemma enough_expr n p : enough n -> (3 * levels p + 1 <= S n)%nat -> is_Some (parse_expr (S n) p).
Proof.
  intros IH H. cbn [parse_expr]. fold (inner p). destruct (MATH_DEPTH_MAX <? _) eqn:D; [by eexists|].
  pose proof (levels_inner p D) as L.
  destruct (en_term n IH (inner p) ltac:(lia)) as [[v q] Hq]. rewrite Hq. cbn [mbind option_bind].
  assert (A : is_Some (expr_loop (parse_term n) (turns q) v q)).
  { destruct (decide (p_tok q = TOK_ERR)) as [E|N]; [rewrite expr_loop_err by done; by eexists|].
    destruct (so_term n (all_sound n) _ _ _ Hq N) as (ss & t & R & _).
    apply (expr_loop_answers _ _ (so_term n (all_sound n))); [|apply turns_enough]. intros x Hx.
    apply (en_term n IH). rewrite (levels_eq x q Hx), (reads_levels _ _ _ R). lia. }
  destruct A as [[v' q'] ->]. by eexists.
Qed.

Lemma enough_term n p : enough n -> (3 * levels p + 3 <= S n)%nat -> is_Some (parse_term (S n) p).
Proof.
  intros IH H. cbn [parse_term]. destruct (en_unary n IH p ltac:(lia)) as [[v q] Hq]. rewrite Hq. cbn [mbind option_bind].
  destruct (decide (p_tok q = TOK_ERR)) as [E|N]; [rewrite term_loop_err by done; by eexists|].
  destruct (so_unary n (all_sound n) _ _ _ Hq N) as (ss & t & R & _).
  apply (term_loop_answers _ _ (so_unary n (all_sound n))); [|apply turns_enough]. intros x Hx.
  apply (en_unary n IH). rewrite (levels_eq x q Hx), (reads_levels _ _ _ R). lia.
Qed.

Lemma enough_unary n p : enough n -> (3 * levels p + 2 <= S n)%nat -> is_Some (parse_unary (S n) p).
Proof.
  intros IH H. cbn [parse_unary].
  destruct (sign_loop_answers (turns p) false p (turns_enough p)) as [[neg q] Hq]. rewrite Hq. cbn [mbind option_bind].
  apply sign_loop_sound in Hq as (signs & R & _).
  destruct (en_power n IH q) as [[v x] ->]; [rewrite (reads_levels _ _ _ R); lia|]. by eexists.
Qed.

Lemma enough_power n p : enough n -> (3 * levels p + 1 <= S n)%nat -> is_Some (parse_power (S n) p).
Proof.
  intros IH H. cbn [parse_power]. fold (inner p). destruct (MATH_DEPTH_MAX <? _) eqn:D; [by eexists|].
  pose proof (levels_inner p D) as L.
  destruct (en_call n IH (inner p) ltac:(lia)) as [[v q] Hq]. rewrite Hq. cbn [mbind option_bind].
  destruct (tok_is q TOK_CARET) eqn:E; [|by eexists]. apply tok_is_true in E.
  destruct (so_call n (all_sound n) _ _ _ Hq ltac:(by rewrite E)) as (ss & t & R & _).
  destruct (en_power n IH (advance q)) as [[w x] ->]; [|by eexists].
  rewrite levels_advance, (reads_levels _ _ _ R). lia.
Qed.

Lemma enough_primary n p : enough n -> (3 * levels p + 2 <= S n)%nat -> is_Some (parse_primary (S n) p).
Proof.
  intros IH H. cbn [parse_primary]. destruct (tok_is p TOK_NUM); [by eexists|].
  destruct (tok_is p TOK_LPAREN); [|by eexists].
  destruct (en_expr n IH (advance p)) as [[v q] ->]; [rewrite levels_advance; lia|]. cbn.
  destruct (negb _); by eexists.
Qed.

Lemma enough_call n p : enough n -> (3 * levels p + 3 <= S n)%nat -> is_Some (parse_call (S n) p).
Proof.
  intros IH H. cbn [parse_call]. destruct (negb (tok_is p TOK_IDENT)); [by apply (en_primary n IH); lia|].
  destruct (find_builtin (p_ident p)) as [b|]; [|by eexists]. cbv zeta.
  assert (A : is_Some (parse_expr n (advance (advance p)))).
  { apply (en_expr n IH). rewrite !levels_advance. lia. }
  destruct (b_fn b) as [f|f|f].
  - destruct (tok_is (advance p) TOK_LPAREN); [|by eexists]. destruct (negb _); by eexists.
  - destruct (tok_is (advance p) TOK_LPAREN).
    + destruct A as [[v q] Hq]. rewrite Hq. cbn [mbind option_bind]. destruct (negb _); by eexists.
    + destruct (en_power n IH (advance p)) as [[v q] ->]; [rewrite levels_advance; lia|]. by eexists.
  - destruct (tok_is (advance p) TOK_LPAREN); cbn [negb]; [|by eexists].
    destruct A as [[v q] Hq]. rewrite Hq. cbn [mbind option_bind].
    destruct (tok_is q TOK_COMMA) eqn:E; cbn [negb]; [|by eexists]. apply tok_is_true in E.
    destruct (so_expr n (all_sound n) _ _ _ Hq ltac:(by rewrite E)) as (ss & t & R & _).
    destruct (en_expr n IH (advance q)) as [[w x] ->]; [|cbn; destruct (negb _); by eexists].
    rewrite levels_advance, (reads_levels _ _ _ R), !levels_advance. lia.
Qed.

Lemma all_enough n : enough n.
Proof.
  induction n as [|n IH]; [constructor; intros p H; lia|]. constructor; intros p H;
    [by apply enough_expr|by apply enough_term|by apply enough_unary|by apply enough_power|by apply enough_call|by apply enough_primary].
Qed.

(** C28: the stack is bounded. Whatever the text, 193 nested calls of the parser are
    enough: three frames for each of the MATH_DEPTH_MAX levels and one that refuses the
    next. The evaluator terminates and answers. *)
Theorem math_eval_stack_bounded expression : is_Some (math_eval 193 expression).
Proof.
  unfold math_eval. destruct expression as [[|c s]|]; [by eexists| |by eexists].
  destruct (_ <? _)%nat; [by eexists|]. cbv zeta.
  destruct (en_expr 193 (all_enough 193) (advance (start (c :: s)))) as [[v q] Hq];
    [rewrite levels_advance; change (levels (start (c :: s))) with 64%nat; lia|].
  unfold start in Hq. rewrite Hq. cbn [mbind option_bind]. destruct (negb _); by eexists.
Qed.

(** *** Every text of the grammar is accepted *)

Scheme g_expr_min := Minimality for g_expr Sort Prop
  with g_sum_min := Minimality for g_sum Sort Prop
  with g_term_min := Minimality for g_term Sort Prop
  with g_prod_min := Minimality for g_prod Sort Prop
  with g_unary_min := Minimality for g_unary Sort Prop
  with g_power_min := Minimality for g_power Sort Prop
  with g_call_min := Minimality for g_call Sort Prop.
Combined Scheme g_min from g_expr_min, g_sum_min, g_term_min, g_prod_min, g_unary_min, g_power_min, g_call_min.

(** How tightly a token after an operand would bind to it. *)
Definition binds (p : parser_t) : nat :=
  match p_tok p with
  | TOK_LPAREN => 4
  | TOK_CARET => 3
  | TOK_STAR | TOK_SLASH | TOK_PERCENT => 2
  | TOK_PLUS | TOK_MINUS => 1
  | _ => 0
  end.

(** The function [f], called at [p] with enough frames and levels, reads [ss] and is [v],
    if what follows does not bind as tightly as [r]. *)
Definition reads_as (f : nat -> parser_t -> option (double * parser_t)) (extra r k : nat) (v : double)
    (ss : list sym) : Prop :=
  forall n p q, reads p ss q -> (k <= levels p)%nat -> (3 * levels p + extra <= n)%nat -> (binds q < r)%nat ->
  f n p = Some (v, q).

Definition reads_sum k t ss t' : Prop :=
  forall n m p q, reads p ss q -> (k <= levels p)%nat -> (3 * levels p + 3 <= n)%nat -> (binds q < 1)%nat ->
  (left_to_read p <= m)%nat ->
  expr_loop (parse_term n) m (value t) p = Some (value t', q) /\ (binds p < 2)%nat.

Definition reads_prod k t ss t' : Prop :=
  forall n m p q, reads p ss q -> (k <= levels p)%nat -> (3 * levels p + 2 <= n)%nat -> (binds q < 2)%nat ->
  (left_to_read p <= m)%nat ->
  term_loop (parse_unary n) m (value t) p = Some (value t', q) /\ (binds p < 3)%nat.

Definition unary_rest (n m : nat) (neg : bool) (p : parser_t) : option (double * parser_t) :=
  '(neg, p) ← sign_loop m neg p;
  '(v, p) ← parse_power n p;
  Some (negate neg v, p).

Definition reads_unary k t ss : Prop :=
  forall n m neg p q, reads p ss q -> (k <= levels p)%nat -> (3 * levels p + 1 <= n)%nat -> (binds q < 3)%nat ->
  (left_to_read p <= m)%nat -> unary_rest n m neg p = Some (negate neg (value t), q).

(** A power starts with an operand. *)
Definition starts_operand (ss : list sym) : Prop :=
  match ss with
  | SNum _ :: _ | SId _ :: _ | SOp TOK_LPAREN :: _ => True
  | _ => False
  end.

Lemma starts_app ss ss' : starts_operand ss -> starts_operand (ss ++ ss').
Proof. destruct ss as [|[d|name|[]] ss]; done. Qed.

Lemma at_num p d : at_sym p = Some (SNum d) -> p_tok p = TOK_NUM /\ p_num p = d.
Proof. unfold at_sym. destruct (p_tok p); try discriminate. by intros [= <-]. Qed.

Lemma at_id p name : at_sym p = Some (SId name) -> p_tok p = TOK_IDENT /\ p_ident p = name.
Proof. unfold at_sym. destruct (p_tok p); try discriminate. by intros [= <-]. Qed.

Lemma not_sign p ss q : starts_operand ss -> reads p ss q -> tok_is p TOK_PLUS || tok_is p TOK_MINUS = false.
Proof.
  destruct ss as [|s ss]; [done|]. intros H [E _]. unfold tok_is.
  destruct s as [d|name|t]; [apply at_num in E as [-> _]|apply at_id in E as [-> _]|apply at_sym_op in E as ->]; try done.
  by destruct t.
Qed.

Lemma reads_inner p ss q : reads p ss q -> reads (inner p) ss (inner q).
Proof. intros R. unfold inner. rewrite (reads_depth _ _ _ R). by apply reads_set_depth. Qed.

Lemma inner_outer q : set_depth (inner q) (p_depth (inner q) - 1) = q.
Proof. destruct q. unfold inner, set_depth. cbn. f_equal. lia. Qed.

Lemma levels_pos p k : (S k <= levels p)%nat ->
  (MATH_DEPTH_MAX <? p_depth (inner p)) = false /\ levels p = S (levels (inner p)).
Proof.
  intros H. assert (D : (MATH_DEPTH_MAX <? p_depth (inner p)) = false).
  { unfold levels, MATH_DEPTH_MAX in *. cbn. apply Z.ltb_ge. lia. }
  split; [done|by apply levels_inner].
Qed.

Lemma complete_expr k t ss t' ss' :
  reads_as parse_term 3 2 k (value t) ss -> reads_sum k t ss' t' -> reads_as parse_expr 1 1 (S k) (value t') (ss ++ ss').
Proof.
  intros H1 H2 n p q R Hk Hn Hq. destruct n as [|n]; [lia|]. cbn [parse_expr]. fold (inner p).
  destruct (levels_pos p k Hk) as [D L]. rewrite D.
  apply reads_inner, reads_split in R as (x & R1 & R2). pose proof (reads_levels _ _ _ R1) as L1.
  destruct (H2 n (turns x) x (inner q) R2 ltac:(lia) ltac:(lia) Hq (turns_enough x)) as [E Hb].
  rewrite (H1 n (inner p) x R1 ltac:(lia) ltac:(lia) Hb). cbn [mbind option_bind]. rewrite E. cbn [mbind option_bind].
  by rewrite inner_outer.
Qed.

Lemma complete_sum_turn k t u op ss t' ss' :
  (op = TOK_PLUS \/ op = TOK_MINUS) ->
  reads_as parse_term 3 2 k (value u) ss ->
  reads_sum k (if bool_decide (op = TOK_PLUS) then Add t u else Sub t u) ss' t' ->
  reads_sum k t (SOp op :: ss ++ ss') t'.
Proof.
  intros Hop H1 H2 n m p q [E R] Hk Hn Hq Hm. apply at_sym_op in E.
  apply reads_split in R as (x & R1 & R2). pose proof (reads_levels _ _ _ R1) as L1. rewrite levels_advance in L1.
  assert (Hl : (left_to_read (advance p) < left_to_read p)%nat)
    by (apply advance_less; by destruct Hop as [->| ->]; rewrite (at_op _ _ E)).
  pose proof (reads_left _ _ _ R1). destruct m as [|m]; [lia|]. cbn [expr_loop].
  destruct (H2 n m x q R2 ltac:(lia) ltac:(lia) Hq ltac:(lia)) as [E2 Hb].
  replace (tok_is p TOK_PLUS || tok_is p TOK_MINUS) with true
    by (unfold tok_is; rewrite E; by destruct Hop as [->| ->]).
  rewrite (H1 n (advance p) x R1 ltac:(by rewrite levels_advance) ltac:(by rewrite levels_advance) Hb).
  cbn [mbind option_bind]. unfold tok_is. rewrite E.
  split; [destruct Hop as [->| ->]; exact E2|]. unfold binds. rewrite E. destruct Hop as [->| ->]; lia.
Qed.

Lemma complete_prod_turn k t u op ss t' ss' :
  (op = TOK_STAR \/ op = TOK_SLASH \/ op = TOK_PERCENT) ->
  reads_as parse_unary 2 3 k (value u) ss ->
  reads_prod k (if bool_decide (op = TOK_STAR) then Mul t u
                else if bool_decide (op = TOK_SLASH) then Div t u else Mod t u) ss' t' ->
  reads_prod k t (SOp op :: ss ++ ss') t'.
Proof.
  intros Hop H1 H2 n m p q [E R] Hk Hn Hq Hm. apply at_sym_op in E.
  apply reads_split in R as (x & R1 & R2). pose proof (reads_levels _ _ _ R1) as L1. rewrite levels_advance in L1.
  assert (Hl : (left_to_read (advance p) < left_to_read p)%nat)
    by (apply advance_less; by destruct Hop as [->|[->| ->]]; rewrite (at_op _ _ E)).
  pose proof (reads_left _ _ _ R1). destruct m as [|m]; [lia|]. cbn [term_loop].
  destruct (H2 n m x q R2 ltac:(lia) ltac:(lia) Hq ltac:(lia)) as [E2 Hb].
  replace (tok_is p TOK_STAR || tok_is p TOK_SLASH || tok_is p TOK_PERCENT) with true
    by (unfold tok_is; rewrite E; by destruct Hop as [->|[->| ->]]).
  rewrite (H1 n (advance p) x R1 ltac:(by rewrite levels_advance) ltac:(by rewrite levels_advance) Hb).
  cbn [mbind option_bind]. unfold tok_is. rewrite E.
  split; [destruct Hop as [->|[->| ->]]; exact E2|]. unfold binds. rewrite E. destruct Hop as [->|[->| ->]]; lia.
Qed.

Lemma complete_term k t ss t' ss' :
  reads_as parse_unary 2 3 k (value t) ss -> reads_prod k t ss' t' -> reads_as parse_term 3 2 k (value t') (ss ++ ss').
Proof.
  intros H1 H2 n p q R Hk Hn Hq. destruct n as [|n]; [lia|]. cbn [parse_term].
  apply reads_split in R as (x & R1 & R2). pose proof (reads_levels _ _ _ R1) as L1.
  destruct (H2 n (turns x) x q R2 ltac:(lia) ltac:(lia) Hq (turns_enough x)) as [E Hb].
  by rewrite (H1 n p x R1 ltac:(lia) ltac:(lia) Hb).
Qed.

Lemma complete_unary k t ss : reads_unary k t ss -> reads_as parse_unary 2 3 k (value t) ss.
Proof.
  intros H n p q R Hk Hn Hq. destruct n as [|n]; [lia|].
  exact (H n (turns p) false p q R Hk ltac:(lia) Hq (turns_enough p)).
Qed.

Lemma complete_unary_base k t ss :
  starts_operand ss -> reads_as parse_power 1 3 k (value t) ss -> reads_unary k t ss.
Proof.
  intros Hs H n m neg p q R Hk Hn Hq Hm. unfold unary_rest.
  assert (E : sign_loop m neg p = Some (neg, p)) by (destruct m; cbn [sign_loop]; by rewrite (not_sign _ _ _ Hs R)).
  rewrite E. cbn [mbind option_bind]. by rewrite (H n p q R Hk Hn Hq).
Qed.

Lemma complete_sign k t ss op :
  (op = TOK_PLUS \/ op = TOK_MINUS) -> reads_unary k t ss ->
  reads_unary k (if bool_decide (op = TOK_MINUS) then Neg t else t) (SOp op :: ss).
Proof.
  intros Hop H n m neg p q [E R] Hk Hn Hq Hm. apply at_sym_op in E.
  assert (Hl : (left_to_read (advance p) < left_to_read p)%nat)
    by (apply advance_less; by destruct Hop as [->| ->]; rewrite (at_op _ _ E)).
  destruct m as [|m]; [lia|]. unfold unary_rest. cbn [sign_loop].
  replace (tok_is p TOK_PLUS || tok_is p TOK_MINUS) with true
    by (unfold tok_is; rewrite E; by destruct Hop as [->| ->]).
  unfold tok_is. rewrite E.
  fold (unary_rest n m (if bool_decide (op = TOK_MINUS) then negb neg else neg) (advance p)).
  rewrite (H n m _ (advance p) q R ltac:(by rewrite levels_advance) ltac:(by rewrite levels_advance) Hq ltac:(lia)).
  destruct Hop as [->| ->]; [done|]. cbn [bool_decide decide]. rewrite !bool_decide_eq_true_2 by done.
  cbn [value]. destruct neg; cbn [negb negate]; by rewrite ?dopp_twice.
Qed.

(** What a call is followed by, if it is to end there. *)
Definition call_stop (closed : bool) : nat := if closed then 4 else 3.

Lemma complete_power k t ss closed :
  reads_as parse_call 3 (call_stop closed) k (value t) ss -> reads_as parse_power 1 3 (S k) (value t) ss.
Proof.
  intros H n p q R Hk Hn Hq. destruct n as [|n]; [lia|]. cbn [parse_power]. fold (inner p).
  destruct (levels_pos p k Hk) as [D L]. rewrite D.
  assert (Hb : (binds (inner q) < call_stop closed)%nat) by (change (binds (inner q)) with (binds q); destruct closed; cbn; lia).
  rewrite (H n (inner p) (inner q) (reads_inner _ _ _ R) ltac:(lia) ltac:(lia) Hb). cbn [mbind option_bind].
  assert (E : tok_is (inner q) TOK_CARET = false).
  { apply tok_is_false. change (p_tok (inner q)) with (p_tok q). intros E. unfold binds in Hq. rewrite E in Hq. lia. }
  rewrite E. by rewrite inner_outer.
Qed.

Lemma complete_pow k t ss u ss' :
  reads_as parse_call 3 4 k (value t) ss -> reads_as parse_power 1 3 k (value u) ss' ->
  reads_as parse_power 1 3 (S k) (value (Pow t u)) (ss ++ SOp TOK_CARET :: ss').
Proof.
  intros H1 H2 n p q R Hk Hn Hq. destruct n as [|n]; [lia|]. cbn [parse_power]. fold (inner p).
  destruct (levels_pos p k Hk) as [D L]. rewrite D.
  apply reads_inner, reads_split in R as (x & R1 & E & R2). apply at_sym_op in E.
  pose proof (reads_levels _ _ _ R1) as L1.
  rewrite (H1 n (inner p) x R1 ltac:(lia) ltac:(lia) ltac:(unfold binds; rewrite E; lia)). cbn [mbind option_bind].
  rewrite (proj2 (tok_is_true _ _) E).
  rewrite (H2 n (advance x) (inner q) R2 ltac:(rewrite levels_advance; lia) ltac:(rewrite levels_advance; lia) Hq).
  cbn [mbind option_bind value]. by rewrite inner_outer.
Qed.

Lemma not_ident p s : at_sym p = Some s -> (forall name, s <> SId name) -> tok_is p TOK_IDENT = false.
Proof. intros H Hs. apply tok_is_false. intros E. apply at_ident in E. rewrite H in E. injection E as E. by apply (Hs _ E). Qed.

Lemma complete_num k d r : reads_as parse_call 3 r k (value (Num d)) [SNum d].
Proof.
  intros n p q [E ->] Hk Hn Hq. destruct n as [|[|n]]; [lia|lia|]. cbn [parse_call].
  rewrite (not_ident _ _ E) by done. cbn [negb parse_primary]. apply at_num in E as [E <-].
  by rewrite (proj2 (tok_is_true _ _) E).
Qed.

(** An expression in brackets that stand at [p], up to a token [c]. *)
Lemma complete_argument k t ss c n p q :
  reads_as parse_expr 1 1 k (value t) ss -> reads (advance p) (ss ++ [SOp c]) q ->
  (c = TOK_RPAREN \/ c = TOK_COMMA) -> (k <= levels p)%nat -> (3 * levels p + 1 <= n)%nat ->
  exists x, parse_expr n (advance p) = Some (value t, x) /\ tok_is x c = true /\ q = advance x /\ levels x = levels p.
Proof.
  intros H R Hc Hk Hn. apply reads_split in R as (x & R & E & ->). apply at_sym_op in E. exists x.
  split_and!; [|by apply tok_is_true|done|by rewrite (reads_levels _ _ _ R), levels_advance].
  apply H; rewrite ?levels_advance; [done|done|done|]. unfold binds. rewrite E. destruct Hc as [->| ->]; lia.
Qed.

Lemma complete_paren k t ss r :
  reads_as parse_expr 1 1 k (value t) ss -> reads_as parse_call 3 r k (value t) (SOp TOK_LPAREN :: ss ++ [SOp TOK_RPAREN]).
Proof.
  intros H n p q [E R] Hk Hn Hq. destruct n as [|[|n]]; [lia|lia|]. cbn [parse_call].
  rewrite (not_ident _ _ E) by done. cbn [negb parse_primary]. apply at_sym_op in E.
  destruct (complete_argument k t ss TOK_RPAREN n p q H R (or_introl eq_refl) Hk ltac:(lia)) as (x & Ex & Hx & -> & _).
  unfold tok_is. rewrite E. rewrite bool_decide_eq_false_2, bool_decide_eq_true_2 by done.
  rewrite Ex. cbn [mbind option_bind]. fold (tok_is x TOK_RPAREN). by rewrite Hx.
Qed.

(** The name of a call and the function that it finds. *)
Lemma complete_name p name f :
  at_sym p = Some (SId name) -> fn_named name = Some f ->
  exists b, b_fn b = f /\ tok_is p TOK_IDENT = true /\ find_builtin (p_ident p) = Some b.
Proof.
  intros E Hf. apply at_id in E as [E <-]. rewrite <- find_builtin_spec in Hf.
  destruct (find_builtin (p_ident p)) as [b|]; [|done]. injection Hf as <-.
  exists b. split_and!; [done|by apply tok_is_true|done].
Qed.

Lemma stops_at_paren q : (binds q < 4)%nat -> tok_is q TOK_LPAREN = false.
Proof. intros H. apply tok_is_false. intros E. unfold binds in H. rewrite E in H. lia. Qed.

Lemma complete_const k name f :
  fn_named name = Some (F0 f) -> reads_as parse_call 3 4 k (value (Const name)) [SId name].
Proof.
  intros Hf n p q [E ->] Hk Hn Hq. destruct n as [|n]; [lia|]. cbn [parse_call value].
  destruct (complete_name p name _ E Hf) as (b & Hb & Ht & Hfind).
  rewrite Ht, Hfind, Hb, Hf. cbn [negb]. by rewrite (stops_at_paren _ Hq).
Qed.

Lemma complete_const_paren k name f r :
  fn_named name = Some (F0 f) ->
  reads_as parse_call 3 r k (value (Const name)) [SId name; SOp TOK_LPAREN; SOp TOK_RPAREN].
Proof.
  intros Hf n p q (E & E1 & E2 & ->) Hk Hn Hq. destruct n as [|n]; [lia|]. cbn [parse_call value].
  destruct (complete_name p name _ E Hf) as (b & Hb & Ht & Hfind).
  rewrite Ht, Hfind, Hb, Hf. cbn [negb]. apply at_sym_op, tok_is_true in E1, E2. by rewrite E1, E2.
Qed.

Lemma complete_call1 k name f t ss r :
  fn_named name = Some (F1 f) -> reads_as parse_expr 1 1 k (value t) ss ->
  reads_as parse_call 3 r k (value (Call1 name t)) (SId name :: SOp TOK_LPAREN :: ss ++ [SOp TOK_RPAREN]).
Proof.
  intros Hf H n p q (E & E1 & R) Hk Hn Hq. destruct n as [|n]; [lia|]. cbn [parse_call value].
  destruct (complete_name p name _ E Hf) as (b & Hb & Ht & Hfind).
  rewrite Ht, Hfind, Hb, Hf. cbn [negb]. apply at_sym_op, tok_is_true in E1. rewrite E1.
  destruct (complete_argument k t ss TOK_RPAREN n (advance p) q H R (or_introl eq_refl)) as (x & Ex & Hx & -> & _);
    [by rewrite levels_advance|rewrite levels_advance; lia|].
  rewrite Ex. cbn [mbind option_bind]. by rewrite Hx.
Qed.

Lemma complete_call1_bare k name f t ss :
  fn_named name = Some (F1 f) -> reads_as parse_power 1 3 k (value t) ss -> starts_operand ss ->
  head ss <> Some (SOp TOK_LPAREN) -> reads_as parse_call 3 3 k (value (Call1 name t)) (SId name :: ss).
Proof.
  intros Hf H Hs Hh n p q (E & R) Hk Hn Hq. destruct n as [|n]; [lia|]. cbn [parse_call value].
  destruct (complete_name p name _ E Hf) as (b & Hb & Ht & Hfind).
  rewrite Ht, Hfind, Hb, Hf. cbn [negb].
  assert (E1 : tok_is (advance p) TOK_LPAREN = false).
  { apply tok_is_false. intros E1. destruct ss as [|s ss]; [done|]. destruct R as [Rs _].
    rewrite (at_op _ _ E1 eq_refl) in Rs. injection Rs as <-. by apply Hh. }
  rewrite E1. by rewrite (H n (advance p) q R ltac:(by rewrite levels_advance) ltac:(rewrite levels_advance; lia) Hq).
Qed.

Lemma complete_call2 k name f t ss u ss' r :
  fn_named name = Some (F2 f) -> reads_as parse_expr 1 1 k (value t) ss -> reads_as parse_expr 1 1 k (value u) ss' ->
  reads_as parse_call 3 r k (value (Call2 name t u))
    (SId name :: SOp TOK_LPAREN :: ss ++ SOp TOK_COMMA :: ss' ++ [SOp TOK_RPAREN]).
Proof.
  intros Hf H1 H2 n p q (E & E1 & R) Hk Hn Hq. destruct n as [|n]; [lia|]. cbn [parse_call value].
  destruct (complete_name p name _ E Hf) as (b & Hb & Ht & Hfind).
  rewrite Ht, Hfind, Hb, Hf. cbn [negb]. apply at_sym_op, tok_is_true in E1. rewrite E1. cbn [negb].
  apply reads_split in R as (x & R1 & Ex & R2).
  destruct (complete_argument k t ss TOK_COMMA n (advance p) (advance x) H1) as (y & Ey & Hy & Hxy & Ly);
    [eapply reads_app; [exact R1|by split]|by right|by rewrite levels_advance|rewrite levels_advance; lia|].
  rewrite Ey. cbn [mbind option_bind]. rewrite Hy. cbn [negb]. rewrite Hxy in R2. rewrite levels_advance in Ly.
  destruct (complete_argument k u ss' TOK_RPAREN n y q H2 R2 (or_introl eq_refl)) as (z & Ez & Hz & -> & _); [lia|lia|].
  rewrite Ez. cbn [mbind option_bind]. by rewrite Hz.
Qed.

(** Every judgement of the grammar, at once. *)
Lemma all_complete :
  (forall k t ss, g_expr k t ss -> reads_as parse_expr 1 1 k (value t) ss) /\
  (forall k t ss t', g_sum k t ss t' -> reads_sum k t ss t') /\
  (forall k t ss, g_term k t ss -> reads_as parse_term 3 2 k (value t) ss) /\
  (forall k t ss t', g_prod k t ss t' -> reads_prod k t ss t') /\
  (forall k t ss, g_unary k t ss -> reads_unary k t ss) /\
  (forall k t ss, g_power k t ss -> starts_operand ss /\ reads_as parse_power 1 3 k (value t) ss) /\
  (forall k t ss closed, g_call k t ss closed ->
     starts_operand ss /\ reads_as parse_call 3 (call_stop closed) k (value t) ss).
Proof.
  apply g_min.
  - intros k t ss t' ss' _ H1 _ H2. by apply (complete_expr k t).
  - intros k t n m p q -> Hk Hn Hq Hm. split; [|lia].
    destruct m; cbn [expr_loop]; unfold tok_is; unfold binds in Hq; by destruct (p_tok p); try lia.
  - intros k t u ss t' ss' _ H1 _ H2. by apply (complete_sum_turn k t u TOK_PLUS); [left| |].
  - intros k t u ss t' ss' _ H1 _ H2. by apply (complete_sum_turn k t u TOK_MINUS); [right| |].
  - intros k t ss t' ss' _ H1 _ H2. by apply (complete_term k t); [apply complete_unary|].
  - intros k t n m p q -> Hk Hn Hq Hm. split; [|lia].
    destruct m; cbn [term_loop]; unfold tok_is; unfold binds in Hq; by destruct (p_tok p); try lia.
  - intros k t u ss t' ss' _ H1 _ H2. by apply (complete_prod_turn k t u TOK_STAR); [left|apply complete_unary|].
  - intros k t u ss t' ss' _ H1 _ H2. by apply (complete_prod_turn k t u TOK_SLASH); [right; left|apply complete_unary|].
  - intros k t u ss t' ss' _ H1 _ H2. by apply (complete_prod_turn k t u TOK_PERCENT); [right; right|apply complete_unary|].
  - intros k t ss _ [Hs H]. by apply complete_unary_base.
  - intros k t ss _ H. by apply (complete_sign k t ss TOK_PLUS); [left|].
  - intros k t ss _ H. by apply (complete_sign k t ss TOK_MINUS); [right|].
  - intros k t ss closed _ [Hs H]. split; [done|]. by apply complete_power with (closed := closed).
  - intros k t ss u ss' _ [Hs H1] _ [_ H2]. split; [by apply starts_app|]. by apply complete_pow.
  - intros k d. split; [done|apply complete_num].
  - intros k t ss _ H. split; [done|by apply complete_paren].
  - intros k name f Hf. split; [done|by eapply complete_const].
  - intros k name f Hf. split; [done|by eapply complete_const_paren].
  - intros k name f t ss Hf _ H. split; [done|by eapply complete_call1].
  - intros k name f t ss Hf _ [Hs H] Hh. split; [done|by eapply complete_call1_bare].
  - intros k name f t ss u ss' Hf _ H1 _ H2. split; [done|by eapply complete_call2].
Qed.

(** C27: math_eval computes the grammar. A text of 1 to MATH_INPUT_MAX characters is
    evaluated without an error exactly when its symbols spell an expression within
    MATH_DEPTH_MAX levels of nesting, and then the result is the value of that
    expression: sums and products group to the left, signs bind tighter than products,
    powers tighter than signs and to the right, and an argument without parentheses is
    a whole power. *)
Theorem math_eval_grammar expression v :
  (1 <= length expression <= MATH_INPUT_MAX)%nat ->
  (math_eval 193 (Some expression) = Some (0, v) <->
   exists ss t, symbols expression ss /\ g_expr 64 t ss /\ v = value t).
Proof.
  intros [H1 H2]. unfold math_eval.
  destruct expression as [|c s]; [cbn in H1; lia|]. set (e := c :: s) in *.
  replace (MATH_INPUT_MAX <? length (take (MATH_INPUT_MAX + 1) e))%nat with false
    by (symmetry; apply Nat.ltb_ge; rewrite length_take; lia). cbv zeta. fold (start e).
  assert (L : levels (advance (start e)) = 64%nat) by (by rewrite levels_advance).
  split.
  - intros ((r & p) & Hp & H)%bind_Some. destruct (tok_is p TOK_END) eqn:E; cbn [negb] in H.
    2: { injection H as H _. destruct (Z.eqb_spec (Z.of_nat (length (p_start p)) - Z.of_nat (length (p_pos p))) 0); lia. }
    injection H as <-. apply tok_is_true in E.
    destruct (so_expr 193 (all_sound 193) _ _ _ Hp ltac:(by rewrite E)) as (ss & t & R & G & ->).
    exists ss, t. split_and!; [by exists p| |done]. unfold is_expr in G. by rewrite L in G.
  - intros (ss & t & (p & R & E) & G & ->).
    rewrite (proj1 all_complete 64%nat t ss G 193%nat (advance (start e)) p R).
    + cbn [mbind option_bind]. by rewrite (proj2 (tok_is_true _ _) E).
    + by rewrite L.
    + rewrite L. lia.
    + unfold binds. rewrite E. lia.
Qed.

End grammar.

(** ** Factorials and binomials *)

Section counting.

(** Pascal's triangle. *)
Fixpoint choose (n k : nat) : Z :=
  match n, k with
  | _, O => 1
  | O, S _ => 0
  | S n, S k => choose n k + choose n (S k)
  end.

Lemma choose_nonneg n k : 0 <= choose n k.
Proof.
  revert k. induction n as [|n IH]; intros [|k]; cbn [choose]; try lia.
  specialize (IH k) as H1. specialize (IH (S k)). lia.
Qed.

Lemma choose_over n k : (n < k)%nat -> choose n k = 0.
Proof.
  revert k. induction n as [|n IH]; intros [|k] H; cbn [choose]; try lia.
  rewrite !IH by lia. done.
Qed.

Lemma choose_all n : choose n n = 1.
Proof. induction n as [|n IH]; [done|]. cbn [choose]. rewrite IH, choose_over by lia. done. Qed.

Lemma choose_O n : choose n 0 = 1.
Proof. by destruct n. Qed.

Lemma choose_absorb n k : Z.of_nat (S k) * choose (S n) (S k) = Z.of_nat (S n) * choose n k.
Proof.
  revert k. induction n as [|n IH]; intros k.
  - cbn [choose]. destruct k as [|k]; cbn [choose]; lia.
  - change (choose (S (S n)) (S k)) with (choose (S n) k + choose (S n) (S k)).
    rewrite Z.mul_add_distr_l, IH. destruct k as [|k]; [rewrite !choose_O; lia|].
    specialize (IH k). change (choose (S n) (S k)) with (choose n k + choose n (S k)) in *. lia.
Qed.

Lemma choose_sym a b : choose (a + b) a = choose (a + b) b.
Proof.
  remember (a + b)%nat as n eqn:E. revert a b E. induction n as [|n IH]; intros a b E.
  - by replace a with b by lia.
  - destruct a as [|a]; [rewrite choose_O; replace b with (S n) by lia; by rewrite choose_all|].
    destruct b as [|b]; [rewrite choose_O; replace (S a) with (S n) by lia; by rewrite choose_all|].
    cbn [choose]. rewrite (IH a (S b)), (IH (S a) b) by lia. lia.
Qed.

Lemma choose_grows k j : (j <= k)%nat -> 2 ^ Z.of_nat j <= choose (k + j) j.
Proof.
  induction j as [|j IH]; intros H; [rewrite choose_O; done|].
  replace (k + S j)%nat with (S (k + j)) by lia. pose proof (choose_absorb (k + j) j) as A.
  specialize (IH ltac:(lia)). rewrite Nat2Z.inj_succ, Z.pow_succ_r by lia. nia.
Qed.

(** From turn [i] on: the product so far is a binomial, every division is exact, and
    the product doubles each turn, so that it overflows before the turns run out. *)
Lemma ncr_loop_exact n : forall i ur k,
  (1 <= i)%nat -> (i + n = 66)%nat -> (i <= S ur)%nat -> (ur <= k)%nat -> Z.of_nat (k + ur) <= UINT_MAX ->
  choose (k + Nat.pred i) (Nat.pred i) <= ULONG_MAX ->
  let r := ncr_loop n (Z.of_nat i) (Z.of_nat ur) (Z.of_nat k) (choose (k + Nat.pred i) (Nat.pred i)) in
  r = Some None \/ (r = Some (Some (choose (k + ur) ur)) /\ choose (k + ur) ur <= ULONG_MAX).
Proof.
  induction n as [|n IH]; intros i ur k Hi Hn Hu Hk Hmax Hr; cbv zeta; cbn [ncr_loop].
  - exfalso. replace i with 66%nat in * by lia. pose proof (choose_grows k 65 ltac:(lia)) as G.
    cbn [Nat.pred] in Hr. change (2 ^ Z.of_nat 65) with (2 ^ 65) in G. unfold ULONG_MAX in *. lia.
  - destruct (Z.of_nat i <=? Z.of_nat ur) eqn:E; breflect.
    2: { right. replace (Nat.pred i) with ur in * by lia. done. }
    destruct i as [|j]; [lia|]. cbn [Nat.pred] in *. unfold UINT_MAX, ULONG_MAX in *.
    rewrite (wrap_small 32) by lia.
    replace (Z.of_nat k + Z.of_nat (S j)) with (Z.of_nat (S (k + j))) by lia.
    pose proof (choose_nonneg (k + j) j) as Hc. pose proof (choose_absorb (k + j) j) as A.
    destruct (_ <? choose (k + j) j) eqn:O; breflect; [by left|].
    assert (P : choose (k + j) j * Z.of_nat (S (k + j)) <= 2 ^ 64 - 1).
    { pose proof (Z.mul_div_le (2 ^ 64 - 1) (Z.of_nat (S (k + j))) ltac:(lia)). nia. }
    rewrite wrap_small by lia.
    replace (choose (k + j) j * Z.of_nat (S (k + j)) / Z.of_nat (S j)) with (choose (k + S j) (S j)).
    2: { replace (k + S j)%nat with (S (k + j)) by lia. rewrite (Z.mul_comm (choose _ _)), <- A, Z.mul_comm.
         symmetry. apply Z.div_mul. lia. }
    replace (Z.of_nat (S j) + 1) with (Z.of_nat (S (S j))) by lia.
    apply (IH (S (S j)) ur k); [lia|lia|lia|lia|lia|]. cbn [Nat.pred].
    replace (k + S j)%nat with (S (k + j)) by lia. nia.
Qed.

Lemma ncr_uint_exact (n r : nat) :
  (r <= n)%nat -> Z.of_nat n <= UINT_MAX ->
  ncr_uint (Z.of_nat n) (Z.of_nat r) = Some None \/
  ncr_uint (Z.of_nat n) (Z.of_nat r) = Some (Some (choose n r)) /\ choose n r <= ULONG_MAX.
Proof.
  intros Hr Hn. unfold UINT_MAX in Hn.
  assert (L : forall ur k, (ur + k = n)%nat -> (ur <= k)%nat -> choose n ur = choose n r ->
    ncr_loop 65 1 (Z.of_nat ur) (wrap 32 (Z.of_nat n - Z.of_nat ur)) 1 = Some None \/
    ncr_loop 65 1 (Z.of_nat ur) (wrap 32 (Z.of_nat n - Z.of_nat ur)) 1 = Some (Some (choose n r)) /\
    choose n r <= ULONG_MAX).
  { intros ur k H1 H2 H3. rewrite wrap_small by lia.
    pose proof (ncr_loop_exact 65 1 ur k ltac:(lia) ltac:(lia) ltac:(lia) ltac:(lia)
      ltac:(unfold UINT_MAX; lia)) as Q.
    cbn [Nat.pred] in Q. rewrite choose_O in Q. specialize (Q ltac:(unfold ULONG_MAX; lia)). cbv zeta in Q.
    replace (k + ur)%nat with n in Q by lia. rewrite H3 in Q.
    by replace (Z.of_nat n - Z.of_nat ur) with (Z.of_nat k) by lia. }
  unfold ncr_uint. pose proof (Z.mul_div_le (Z.of_nat n) 2 ltac:(lia)).
  pose proof (Z.mod_pos_bound (Z.of_nat n) 2 ltac:(lia)). pose proof (Z.div_mod (Z.of_nat n) 2 ltac:(lia)).
  destruct (Z.of_nat n / 2 <? Z.of_nat r) eqn:E; breflect.
  - rewrite wrap_small by lia. replace (Z.of_nat n - Z.of_nat r) with (Z.of_nat (n - r)) by lia.
    apply (L (n - r)%nat r); [lia|lia|]. pose proof (choose_sym (n - r) r) as S.
    by replace (n - r + r)%nat with n in S by lia.
  - apply (L r (n - r)%nat); [lia|lia|done].
Qed.

Definition factorial (n : nat) : Z := fold_right Z.mul 1 (map Z.of_nat (seq 1 n)).

Lemma fac_step m i n r i' r' :
  i <= n -> (ULONG_MAX / r <? i) = false -> wrap 64 (r * i) = r' -> i + 1 = i' ->
  fac_loop (S m) i n r = fac_loop m i' n r'.
Proof. intros H1 H2 <- <-. cbn [fac_loop]. by rewrite (proj2 (Z.leb_le i n) H1), H2. Qed.

Lemma fac_loop_exact n : fac_loop 22 1 (Z.of_nat n) 1 = Some (if (n <=? 20)%nat then Some (factorial n) else None).
Proof.
  destruct (n <=? 20)%nat eqn:E.
  - apply Nat.leb_le in E. do 21 (destruct n as [|n]; [vm_compute; reflexivity|]). lia.
  - apply Nat.leb_gt in E.
    do 20 (lazymatch goal with |- fac_loop (S ?m) ?i ?n ?r = _ =>
      let i' := eval vm_compute in (i + 1) in let r' := eval vm_compute in (wrap 64 (r * i)) in
      rewrite (fac_step m i n r i' r') by (lia || reflexivity) end).
    cbn [fac_loop]. by rewrite (proj2 (Z.leb_le 21 (Z.of_nat n))) by lia.
Qed.



(** The intermediate product overflows before the result does: ncr(67, 33) fits an
    unsigned long and is given up on. *)
Lemma ncr_gives_up_early : ncr_uint 67 33 = Some None /\ choose 10 3 = 120.
Proof. split; vm_compute; reflexivity. Qed.

End counting.

(** ** Trying it *)

(** Mathematical functions that do nothing, to evaluate with. *)
#[local] Instance flat_libm : Libm := {|
  m_acos := id; m_asin := id; m_atan := id; m_atan2 := fun a _ => a; m_ceil := id; m_cos := id;
  m_cosh := id; m_exp := id; m_floor := id; m_log := id; m_log10 := id; m_pow := dmul; m_sin := id;
  m_sinh := id; m_sqrt := id; m_tan := id; m_tanh := id; m_fmod := fun a _ => a; nan_to_uint := 0
|}.

(** Here a power is a product. *)
Lemma math_eval_grammar_witness :
  math_eval 193 (Some (lit "1.5 + -2*3 - sin 4^.5")) = Some (0, strtod_value (lit "-6.5")) /\
  exists ss t, symbols (lit "1.5 + -2*3 - sin 4^.5") ss /\ g_expr 64 t ss /\ strtod_value (lit "-6.5") = value t.
Proof.
  assert (E : math_eval 193 (Some (lit "1.5 + -2*3 - sin 4^.5")) = Some (0, strtod_value (lit "-6.5")))
    by (vm_compute; reflexivity).
  split; [exact E|]. apply math_eval_grammar; [cbn; unfold MATH_INPUT_MAX; lia|exact E].
Defined.

(** The position that is reported counts from 0 and is where the scan stands: after the
    unknown name, before the stray character. *)
Lemma math_eval_error_position :
  math_eval 193 (Some (lit "foo(1)")) = Some (3, NAN) /\
  math_eval 193 (Some (lit "12+$")) = Some (3, NAN) /\
  math_eval 193 (Some (lit "$")) = Some (1, NAN).
Proof. split; [|split]; vm_compute; reflexivity. Qed.

(** The factorial of a NaN is whatever the undefined conversion gives. *)
Lemma fn_fac_nan : fn_fac NAN = or_infinity (fac_loop 22 1 nan_to_uint 1).
Proof. reflexivity. Qed.
