(* ===== verification/Kv.v ===== *)
(** * The configuration store: core/kv.c, in memory

    Typed values, the table that interns their strings, the hash table of entries,
    the getters and setters, redaction, and the registry of natural-language
    responders. [KvPersist] adds registration, the database and removal.

    What kv_mutex protects in one go is one function here. A pointer to an entry or
    to an interned string is its address, a number taken from a counter; reading a
    freed entry is a lookup that finds nothing. The change callbacks an operation
    makes are returned in order, each made after the lock is released. *)

From S2P Require Import Prelude Util.

(** C's inverted convention: the header common.h has SUCCESS false and FAIL true. *)
Notation SUCCESS := false (only parsing).
Notation FAIL := true (only parsing).

Definition KV_KEY_SZ : nat := 192.
Definition KV_STR_SZ : nat := 256.
Definition KV_BUCKETS : Z := 64.
Definition KV_INTERN_BUCKETS : Z := 128.
Definition KV_VAL_BUF : nat := 300.

Definition KV_REDACTED_VALUE : cstr := lit "[CENSORED]".

(** ** Types and values *)

Inductive kv_type_t :=
  | KV_INT8 | KV_UINT8
  | KV_INT16 | KV_UINT16
  | KV_INT32 | KV_UINT32
  | KV_INT64 | KV_UINT64
  | KV_FLOAT | KV_DOUBLE | KV_LDOUBLE
  | KV_STR
  | KV_BOOL.

#[global] Instance kv_type_t_eq_dec : EqDecision kv_type_t.
Proof. solve_decision. Defined.

(** [(int)type]. *)
Definition type_id (t : kv_type_t) : Z :=
  match t with
  | KV_INT8 => 0 | KV_UINT8 => 1 | KV_INT16 => 2 | KV_UINT16 => 3
  | KV_INT32 => 4 | KV_UINT32 => 5 | KV_INT64 => 6 | KV_UINT64 => 7
  | KV_FLOAT => 8 | KV_DOUBLE => 9 | KV_LDOUBLE => 10 | KV_STR => 11 | KV_BOOL => 12
  end.

Definition kv_type_name (t : kv_type_t) : cstr :=
  lit match t with
      | KV_INT8 => "INT8" | KV_UINT8 => "UINT8" | KV_INT16 => "INT16" | KV_UINT16 => "UINT16"
      | KV_INT32 => "INT32" | KV_UINT32 => "UINT32" | KV_INT64 => "INT64" | KV_UINT64 => "UINT64"
      | KV_FLOAT => "FLOAT" | KV_DOUBLE => "DOUBLE" | KV_LDOUBLE => "LDOUBLE"
      | KV_STR => "STR" | KV_BOOL => "BOOL"
      end.

(** The floating types of the target and the conversions of its C library:
    [strtof] and its siblings answer None when nothing converts, and otherwise the
    value with what follows; [fmt_f] is printf's ["%.9g"] of a float, [fmt_d]
    ["%.17g"] of a double, [fmt_ld] ["%.21Lg"] of a long double. *)
Class CFloat := {
  cfloat : Type;
  cdouble : Type;
  cldouble : Type;
  strtof : cstr -> option (cfloat * cstr);
  strtod : cstr -> option (cdouble * cstr);
  strtold : cstr -> option (cldouble * cstr);
  fmt_f : cfloat -> cstr;
  fmt_d : cdouble -> cstr;
  fmt_ld : cldouble -> cstr;
  f_to_d : cfloat -> cdouble;
  f_to_ld : cfloat -> cldouble;
  d_to_ld : cdouble -> cldouble;
  ld_to_f : cldouble -> cfloat;
  ld_to_d : cldouble -> cdouble;
  d_zero : cdouble;
  ld_zero : cldouble
}.

Section kv.
Context {F : CFloat}.

(** The union, by the member that was written last: the signed and the unsigned
    integer members by their width, the three floats, and the pointer. *)
Inductive kv_val_t :=
  | Vi (w : Z) (z : Z)
  | Vu (w : Z) (z : Z)
  | Vf (f : cfloat)
  | Vd (d : cdouble)
  | Vld (l : cldouble)
  | Vstr (p : nat).

Definition get_i (w : Z) (v : kv_val_t) : Z :=
  match v with Vi w' z => if w =? w' then z else 0 | _ => 0 end.

Definition get_u (w : Z) (v : kv_val_t) : Z :=
  match v with Vu w' z => if w =? w' then z else 0 | _ => 0 end.

(** The pointer member; 0 is NULL. *)
Definition get_p (v : kv_val_t) : nat := match v with Vstr p => p | _ => O end.

(** ** Interned strings *)

Record kv_str_node_t := { n_at : nat; n_s : cstr }.

Record interned := {
  kv_intern_table : list (list kv_str_node_t);
  kv_intern_count : Z;
  i_next : nat
}.

Definition intern_bucket (s : cstr) : nat := Z.to_nat (util_djb2 s mod KV_INTERN_BUCKETS).

Definition intern_bytes (t : interned) (s : cstr) (len : nat) : nat * interned :=
  let s := take len s in
  let b := intern_bucket s in
  let chain := nth b (kv_intern_table t) [] in
  match List.find (fun n => seqb (n_s n) s) chain with
  | Some n => (n_at n, t)
  | None =>
      let n := {| n_at := i_next t; n_s := s |} in
      (i_next t,
       {| kv_intern_table := <[b := n :: chain]> (kv_intern_table t);
          kv_intern_count := wrap 32 (kv_intern_count t + 1);
          i_next := S (i_next t) |})
  end.

(** [strnlen(s, KV_STR_SZ - 1)]. *)
Definition kv_intern (t : interned) (s : cstr) : nat * interned :=
  intern_bytes t s (length (take (KV_STR_SZ - 1) s)).

Definition intern_help (t : interned) (s : cstr) : nat * interned :=
  intern_bytes t s (length s).

(** The string at an address. *)
Definition str_at (t : interned) (p : nat) : option cstr :=
  n_s <$> List.find (fun n => Nat.eqb (n_at n) p) (concat (kv_intern_table t)).

Definition cstr_at (t : interned) (p : nat) : cstr := default [] (str_at t p).

(** ** Text to value and back *)

Definition INT_MIN (w : Z) : Z := - 2 ^ (w - 1).
Definition INT_MAX (w : Z) : Z := 2 ^ (w - 1) - 1.
Definition UINT_MAX (w : Z) : Z := 2 ^ w - 1.

(** Conversion to a signed type of [w] bits. *)
Definition swrap (w z : Z) : Z := let u := wrap w z in if u <? 2 ^ (w - 1) then u else u - 2 ^ w.

(** [strtoll] over the whole string. *)
Definition whole_ll (str : cstr) : option Z :=
  match strtoll str with Some (ll, []) => Some ll | _ => None end.

Definition whole_ull (str : cstr) : option Z :=
  match strtoull str with Some (ull, [], _) => Some ull | _ => None end.

Definition parse_i (w : Z) (str : cstr) : option kv_val_t :=
  ll ← whole_ll str;
  if (ll <? INT_MIN w) || (INT_MAX w <? ll) then None else Some (Vi w ll).

Definition parse_u (w : Z) (str : cstr) : option kv_val_t :=
  ull ← whole_ull str;
  if UINT_MAX w <? ull then None else Some (Vu w ull).

Definition whole {A} (r : option (A * cstr)) : option A :=
  match r with Some (x, []) => Some x | _ => None end.

Definition parse_bool (str : cstr) : option kv_val_t :=
  if seqb str (lit "1") || strcaseeq str (lit "true") then Some (Vu 8 1)
  else if seqb str (lit "0") || strcaseeq str (lit "false") then Some (Vu 8 0)
  else None.

(** The parsed value, None for FAIL, and the intern table. *)
Definition str_to_val (t : interned) (type : kv_type_t) (str : cstr) : option kv_val_t * interned :=
  match type with
  | KV_INT8 => (parse_i 8 str, t)
  | KV_UINT8 => (parse_u 8 str, t)
  | KV_INT16 => (parse_i 16 str, t)
  | KV_UINT16 => (parse_u 16 str, t)
  | KV_INT32 => (parse_i 32 str, t)
  | KV_UINT32 => (parse_u 32 str, t)
  | KV_INT64 => (Vi 64 <$> whole_ll str, t)
  | KV_UINT64 => (Vu 64 <$> whole_ull str, t)
  | KV_FLOAT => (Vf <$> whole (strtof str), t)
  | KV_DOUBLE => (Vd <$> whole (strtod str), t)
  | KV_LDOUBLE => (Vld <$> whole (strtold str), t)
  | KV_STR => let '(p, t') := kv_intern t str in (Some (Vstr p), t')
  | KV_BOOL => (parse_bool str, t)
  end.

(** The text before the buffer's size cuts it. *)
Definition val_text (t : interned) (type : kv_type_t) (v : kv_val_t) : cstr :=
  match type with
  | KV_INT8 => dec (get_i 8 v)
  | KV_UINT8 => dec (get_u 8 v)
  | KV_INT16 => dec (get_i 16 v)
  | KV_UINT16 => dec (get_u 16 v)
  | KV_INT32 => dec (get_i 32 v)
  | KV_UINT32 => dec (get_u 32 v)
  | KV_INT64 => dec (get_i 64 v)
  | KV_UINT64 => dec (get_u 64 v)
  | KV_FLOAT => match v with Vf f => fmt_f f | _ => [] end
  | KV_DOUBLE => match v with Vd d => fmt_d d | _ => [] end
  | KV_LDOUBLE => match v with Vld l => fmt_ld l | _ => [] end
  | KV_STR => cstr_at t (get_p v)
  | KV_BOOL => if get_u 8 v =? 0 then lit "false" else lit "true"
  end.

Definition val_to_str (t : interned) (type : kv_type_t) (v : kv_val_t) (bufsz : nat) : cstr :=
  strlcpy bufsz (val_text t type v).

Definition val_changed (t : interned) (type : kv_type_t) (old new : kv_val_t) : bool :=
  match type with
  | KV_STR => negb (Nat.eqb (get_p old) (get_p new))
  | _ => negb (seqb (val_to_str t type old KV_VAL_BUF) (val_to_str t type new KV_VAL_BUF))
  end.

(** ** Secret keys *)

(** The loop over the characters of the key: [seg] is the segment so far. *)
Fixpoint secret_loop (p seg : cstr) : bool :=
  match p with
  | [] => false
  | c :: p' =>
      if ceqb c "." then if seqb seg (lit "creds") then true else secret_loop p' []
      else secret_loop p' (seg ++ [c])
  end.

Definition kv_is_secret_key (key : option cstr) : bool :=
  match key with None | Some [] => false | Some k => secret_loop k [] end.

(** ** The store *)

Record kv_entry_t := {
  e_at : nat;                      (* the address of the allocation *)
  e_key : cstr;
  e_type : kv_type_t;
  e_val : kv_val_t;
  e_def : kv_val_t;
  e_cb : option Z;
  e_cb_data : Z;
  e_check : option Z;
  e_check_data : Z;
  e_help : option nat;
  e_owner_pc : Z;
  e_dirty : bool;
  e_secret : bool
}.

Definition with_val (v : kv_val_t) (dirty : bool) (e : kv_entry_t) : kv_entry_t :=
  {| e_at := e_at e; e_key := e_key e; e_type := e_type e; e_val := v; e_def := e_def e;
     e_cb := e_cb e; e_cb_data := e_cb_data e; e_check := e_check e;
     e_check_data := e_check_data e; e_help := e_help e; e_owner_pc := e_owner_pc e;
     e_dirty := dirty; e_secret := e_secret e |}.

Definition with_dirty (b : bool) (e : kv_entry_t) : kv_entry_t := with_val (e_val e) b e.

Definition with_secret (b : bool) (e : kv_entry_t) : kv_entry_t :=
  {| e_at := e_at e; e_key := e_key e; e_type := e_type e; e_val := e_val e; e_def := e_def e;
     e_cb := e_cb e; e_cb_data := e_cb_data e; e_check := e_check e;
     e_check_data := e_check_data e; e_help := e_help e; e_owner_pc := e_owner_pc e;
     e_dirty := e_dirty e; e_secret := b |}.

Definition with_cb (cb : option Z) (data : Z) (e : kv_entry_t) : kv_entry_t :=
  {| e_at := e_at e; e_key := e_key e; e_type := e_type e; e_val := e_val e; e_def := e_def e;
     e_cb := cb; e_cb_data := data; e_check := e_check e;
     e_check_data := e_check_data e; e_help := e_help e; e_owner_pc := e_owner_pc e;
     e_dirty := e_dirty e; e_secret := e_secret e |}.

Definition with_check (check : option Z) (data : Z) (e : kv_entry_t) : kv_entry_t :=
  {| e_at := e_at e; e_key := e_key e; e_type := e_type e; e_val := e_val e; e_def := e_def e;
     e_cb := e_cb e; e_cb_data := e_cb_data e; e_check := check;
     e_check_data := data; e_help := e_help e; e_owner_pc := e_owner_pc e;
     e_dirty := e_dirty e; e_secret := e_secret e |}.

(** A natural-language responder: its key and the address of its hint. *)
Record kv_nl_reg_t := { nl_key : cstr; nl_ptr : Z }.

(** A row of the database table kv, under its key. *)
Record kv_row := { r_type : Z; r_value : cstr }.

Record kv := {
  kv_table : list (list kv_entry_t);
  kv_count : Z;
  k_strs : interned;
  kv_ready : bool;
  kv_loaded : bool;
  kv_nl : list kv_nl_reg_t;
  k_next : nat;                    (* the address of the next entry *)
  k_db : gmap cstr kv_row
}.

Definition set_table (st : kv) (t : list (list kv_entry_t)) : kv :=
  {| kv_table := t; kv_count := kv_count st; k_strs := k_strs st; kv_ready := kv_ready st;
     kv_loaded := kv_loaded st; kv_nl := kv_nl st; k_next := k_next st; k_db := k_db st |}.

Definition set_count (st : kv) (n : Z) : kv :=
  {| kv_table := kv_table st; kv_count := n; k_strs := k_strs st; kv_ready := kv_ready st;
     kv_loaded := kv_loaded st; kv_nl := kv_nl st; k_next := k_next st; k_db := k_db st |}.

Definition set_strs (st : kv) (t : interned) : kv :=
  {| kv_table := kv_table st; kv_count := kv_count st; k_strs := t; kv_ready := kv_ready st;
     kv_loaded := kv_loaded st; kv_nl := kv_nl st; k_next := k_next st; k_db := k_db st |}.

Definition set_nl (st : kv) (l : list kv_nl_reg_t) : kv :=
  {| kv_table := kv_table st; kv_count := kv_count st; k_strs := k_strs st; kv_ready := kv_ready st;
     kv_loaded := kv_loaded st; kv_nl := l; k_next := k_next st; k_db := k_db st |}.

Definition hash_key (key : cstr) : nat := Z.to_nat (util_djb2 key mod KV_BUCKETS).

Definition bucket (st : kv) (b : nat) : list kv_entry_t := nth b (kv_table st) [].

Definition find_locked (st : kv) (key : cstr) : option kv_entry_t :=
  List.find (fun e => seqb (e_key e) key) (bucket st (hash_key key)).

(** A write through a pointer to an entry of the table. *)
Definition upd_at (st : kv) (a : nat) (f : kv_entry_t -> kv_entry_t) : kv :=
  set_table st (map (map (fun e => if Nat.eqb (e_at e) a then f e else e)) (kv_table st)).

(** A change callback: the function, the key it is handed, its data. *)
Record kv_call := { call_cb : Z; call_key : cstr; call_data : Z }.

Definition call (changed : bool) (e : kv_entry_t) : list kv_call :=
  match (if changed then e_cb e else None) with
  | Some cb => [{| call_cb := cb; call_key := strlcpy KV_KEY_SZ (e_key e); call_data := e_cb_data e |}]
  | None => []
  end.

Definition apply_val (st : kv) (e : kv_entry_t) (new_val : kv_val_t) : kv * list kv_call :=
  let changed := val_changed (k_strs st) (e_type e) (e_val e) new_val in
  (if changed then upd_at st (e_at e) (with_val new_val true) else st, call changed e).

(** ** Getters. [admin] is the thread's [kv_admin_active]. *)

Definition val_as_int (type : kv_type_t) (v : kv_val_t) : Z :=
  match type with
  | KV_INT8 => get_i 8 v
  | KV_INT16 => get_i 16 v
  | KV_INT32 => get_i 32 v
  | KV_INT64 => get_i 64 v
  | KV_UINT8 => get_u 8 v
  | KV_UINT16 => get_u 16 v
  | KV_UINT32 => get_u 32 v
  | KV_UINT64 => swrap 64 (get_u 64 v)
  | KV_BOOL => get_u 8 v
  | _ => 0
  end.

Definition kv_get_int (st : kv) (key : cstr) : Z :=
  match find_locked st key with
  | Some e => val_as_int (e_type e) (e_val e)
  | None => 0
  end.

Definition val_as_uint (type : kv_type_t) (v : kv_val_t) : Z :=
  match type with
  | KV_UINT8 => get_u 8 v
  | KV_UINT16 => get_u 16 v
  | KV_UINT32 => get_u 32 v
  | KV_UINT64 => get_u 64 v
  | KV_INT8 => wrap 64 (get_i 8 v)
  | KV_INT16 => wrap 64 (get_i 16 v)
  | KV_INT32 => wrap 64 (get_i 32 v)
  | KV_INT64 => wrap 64 (get_i 64 v)
  | KV_BOOL => get_u 8 v
  | _ => 0
  end.

Definition kv_get_uint (st : kv) (key : cstr) : Z :=
  match find_locked st key with
  | Some e => val_as_uint (e_type e) (e_val e)
  | None => 0
  end.

Definition kv_get_uint_or_default (st : kv) (key : cstr) : Z :=
  match find_locked st key with
  | Some e =>
      let result := val_as_uint (e_type e) (e_val e) in
      if result =? 0 then val_as_uint (e_type e) (e_def e) else result
  | None => 0
  end.

Definition kv_get_double (st : kv) (key : cstr) : cdouble :=
  match find_locked st key with
  | Some e =>
      match e_type e, e_val e with
      | KV_FLOAT, Vf f => f_to_d f
      | KV_DOUBLE, Vd d => d
      | KV_LDOUBLE, Vld l => ld_to_d l
      | _, _ => d_zero
      end
  | None => d_zero
  end.

Definition kv_get_ldouble (st : kv) (key : cstr) : cldouble :=
  match find_locked st key with
  | Some e =>
      match e_type e, e_val e with
      | KV_FLOAT, Vf f => f_to_ld f
      | KV_DOUBLE, Vd d => d_to_ld d
      | KV_LDOUBLE, Vld l => l
      | _, _ => ld_zero
      end
  | None => ld_zero
  end.

(** A [const char *] the store hands out: the literal or an interned string. *)
Inductive kv_str := PRedacted | PInterned (p : nat).

Definition kv_chars (st : kv) (s : kv_str) : cstr :=
  match s with PRedacted => KV_REDACTED_VALUE | PInterned p => cstr_at (k_strs st) p end.

Definition kv_get_str (admin : bool) (st : kv) (key : cstr) : option kv_str :=
  match find_locked st key with
  | Some e =>
      if decide (e_type e = KV_STR) then
        if e_secret e && negb admin then Some PRedacted else Some (PInterned (get_p (e_val e)))
      else None
  | None => None
  end.

Definition kv_get_secret (admin : bool) (st : kv) (key : cstr) : kv_str :=
  match kv_get_str admin st key with Some s => s | None => PRedacted end.

(** The flag is raised for the one read; what it was is what it is afterwards. *)
Definition kv_get_creds (admin : bool) (st : kv) (key : cstr) : option kv_str * bool :=
  let prev := admin in
  let result := kv_get_str true st key in
  (result, prev).

Definition kv_exists (st : kv) (key : cstr) : bool :=
  match find_locked st key with Some _ => true | None => false end.

Definition kv_get_help (st : kv) (key : option cstr) : option nat :=
  key ← key; e ← find_locked st key; e_help e.

Definition kv_get_type_name (st : kv) (key : option cstr) : option cstr :=
  key ← key; e ← find_locked st key; Some (kv_type_name (e_type e)).

(** The text a reader is shown, in a buffer of [bufsz]. *)
Definition shown (admin : bool) (st : kv) (e : kv_entry_t) (bufsz : nat) : cstr :=
  if e_secret e && negb admin then strlcpy bufsz KV_REDACTED_VALUE
  else val_to_str (k_strs st) (e_type e) (e_val e) bufsz.

(** None is FAIL, and then the buffer is not written. *)
Definition kv_get_val_str (admin : bool) (st : kv) (key : option cstr) (bufsz : nat) : option cstr :=
  match key, bufsz with
  | None, _ | _, O => None
  | Some key, _ => e ← find_locked st key; Some (shown admin st e bufsz)
  end.

(** The calls of the callback, in table order, and their number. *)
Definition kv_iterate_prefix (admin : bool) (st : kv) (prefix : option cstr) :
    list (cstr * kv_type_t * cstr) * Z :=
  match prefix with
  | None => ([], 0)
  | Some prefix =>
      let es := List.filter (fun e => starts_with (e_key e) prefix) (concat (kv_table st)) in
      (map (fun e => (e_key e, e_type e, shown admin st e KV_VAL_BUF)) es, wrap 32 (Z.of_nat (length es)))
  end.

(** ** Setters *)

Definition kv_set (st : kv) (key val : option cstr) : bool * (kv * list kv_call) :=
  match key, val with
  | Some key, Some val =>
      match find_locked st key with
      | None => (FAIL, (st, []))
      | Some e =>
          let '(v, strs) := str_to_val (k_strs st) (e_type e) val in
          let st := set_strs st strs in
          match v with
          | None => (FAIL, (st, []))
          | Some new_val => (SUCCESS, apply_val st e new_val)
          end
      end
  | _, _ => (FAIL, (st, []))
  end.

Definition kv_set_str := kv_set.

Definition kv_set_secret (st : kv) (key : cstr) (val : option cstr) : bool * (kv * list kv_call) :=
  let st := match find_locked st key with
            | Some e => upd_at st (e_at e) (with_secret true)
            | None => st
            end in
  kv_set st (Some key) val.

(** The switch of kv_set_int: the member and value to store, None for [goto fail].
    [val] is an int64_t. *)
Definition int_to_val (type : kv_type_t) (val : Z) : option kv_val_t :=
  match type with
  | KV_INT8 => if (val <? INT_MIN 8) || (INT_MAX 8 <? val) then None else Some (Vi 8 val)
  | KV_UINT8 => if (val <? 0) || (UINT_MAX 8 <? val) then None else Some (Vu 8 val)
  | KV_INT16 => if (val <? INT_MIN 16) || (INT_MAX 16 <? val) then None else Some (Vi 16 val)
  | KV_UINT16 => if (val <? 0) || (UINT_MAX 16 <? val) then None else Some (Vu 16 val)
  | KV_INT32 => if (val <? INT_MIN 32) || (INT_MAX 32 <? val) then None else Some (Vi 32 val)
  | KV_UINT32 => if (val <? 0) || (UINT_MAX 32 <? val) then None else Some (Vu 32 val)
  | KV_INT64 => Some (Vi 64 val)
  | KV_UINT64 => if val <? 0 then None else Some (Vu 64 val)
  | KV_BOOL => if (val <? 0) || (1 <? val) then None else Some (Vu 8 val)
  | _ => None
  end.

(** The switch of kv_set_uint; [val] is a uint64_t. *)
Definition uint_to_val (type : kv_type_t) (val : Z) : option kv_val_t :=
  match type with
  | KV_INT8 => if INT_MAX 8 <? val then None else Some (Vi 8 val)
  | KV_UINT8 => if UINT_MAX 8 <? val then None else Some (Vu 8 val)
  | KV_INT16 => if INT_MAX 16 <? val then None else Some (Vi 16 val)
  | KV_UINT16 => if UINT_MAX 16 <? val then None else Some (Vu 16 val)
  | KV_INT32 => if INT_MAX 32 <? val then None else Some (Vi 32 val)
  | KV_UINT32 => if UINT_MAX 32 <? val then None else Some (Vu 32 val)
  | KV_INT64 => if INT_MAX 64 <? val then None else Some (Vi 64 val)
  | KV_UINT64 => Some (Vu 64 val)
  | KV_BOOL => if 1 <? val then None else Some (Vu 8 val)
  | _ => None
  end.

Definition float_to_val (type : kv_type_t) (val : cldouble) : option kv_val_t :=
  match type with
  | KV_FLOAT => Some (Vf (ld_to_f val))
  | KV_DOUBLE => Some (Vd (ld_to_d val))
  | KV_LDOUBLE => Some (Vld val)
  | _ => None
  end.

(** The frame the three numeric setters share. *)
Definition set_num (st : kv) (key : option cstr) (to_val : kv_type_t -> option kv_val_t) :
    bool * (kv * list kv_call) :=
  match key with
  | None => (FAIL, (st, []))
  | Some key =>
      match find_locked st key with
      | None => (FAIL, (st, []))
      | Some e =>
          match to_val (e_type e) with
          | None => (FAIL, (st, []))
          | Some new_val => (SUCCESS, apply_val st e new_val)
          end
      end
  end.

Definition kv_set_int (st : kv) (key : option cstr) (val : Z) : bool * (kv * list kv_call) :=
  set_num st key (fun type => int_to_val type val).

Definition kv_set_uint (st : kv) (key : option cstr) (val : Z) : bool * (kv * list kv_call) :=
  set_num st key (fun type => uint_to_val type val).

Definition kv_set_float (st : kv) (key : option cstr) (val : cldouble) : bool * (kv * list kv_call) :=
  set_num st key (fun type => float_to_val type val).

(** [e->cb = cb; e->cb_data = cb_data], and the same for the check. *)
Definition kv_set_cb (st : kv) (key : option cstr) (cb : option Z) (cb_data : Z) : bool * kv :=
  match key with
  | None => (FAIL, st)
  | Some key =>
      match find_locked st key with
      | None => (FAIL, st)
      | Some e => (SUCCESS, upd_at st (e_at e) (with_cb cb cb_data))
      end
  end.

Definition kv_set_check (st : kv) (key : option cstr) (check : option Z) (check_data : Z) : bool * kv :=
  match key with
  | None => (FAIL, st)
  | Some key =>
      match find_locked st key with
      | None => (FAIL, st)
      | Some e => (SUCCESS, upd_at st (e_at e) (with_check check check_data))
      end
  end.

(** [run f key val data] is the owner's check at address [f]: its verdict and the
    line it wrote. The result is the verdict and what [why] holds when it is false. *)
Definition kv_check_value (run : Z -> cstr -> cstr -> Z -> bool * cstr)
    (st : kv) (key val : option cstr) (why_sz : nat) : bool * cstr :=
  match key, val, why_sz with
  | Some key, Some val, S _ =>
      match find_locked st key with
      | Some e =>
          match e_check e with
          | Some check =>
              let '(verdict, why) := run check (strlcpy KV_KEY_SZ (e_key e)) val (e_check_data e) in
              if verdict then (true, [])
              else (false, match why with [] => strlcpy why_sz (lit "refused by its owner") | _ => why end)
          | None => (true, [])
          end
      | None => (true, [])
      end
  | _, _, _ => (true, [])
  end.

(** ** Keys of a bot *)

Definition present (s : option cstr) : option cstr :=
  match s with None | Some [] => None | Some s => Some s end.

(** None is FAIL: something is absent or the key does not fit its buffer. *)
Definition kv_bot_key (sz : nat) (name kind suffix : option cstr) : option cstr :=
  name ← present name; suffix ← present suffix;
  let k := match present kind with
           | Some kind => lit "bot." ++ name ++ lit "." ++ kind ++ lit "." ++ suffix
           | None => lit "bot." ++ name ++ lit "." ++ suffix
           end in
  if (sz <=? length k)%nat then None else Some k.

Definition kv_get_bot_method_uint (st : kv) (name kind suffix : option cstr) : Z :=
  match kv_bot_key KV_KEY_SZ name kind suffix with Some k => kv_get_uint st k | None => 0 end.

Definition kv_get_bot_uint (st : kv) (name suffix : option cstr) : Z :=
  kv_get_bot_method_uint st name None suffix.

Definition kv_get_bot_uint_or_default (st : kv) (name suffix : option cstr) : Z :=
  match kv_bot_key KV_KEY_SZ name None suffix with Some k => kv_get_uint_or_default st k | None => 0 end.

Definition kv_get_bot_method_str (admin : bool) (st : kv) (name kind suffix : option cstr) : option kv_str :=
  k ← kv_bot_key KV_KEY_SZ name kind suffix; kv_get_str admin st k.

Definition kv_get_bot_str (admin : bool) (st : kv) (name suffix : option cstr) : option kv_str :=
  kv_get_bot_method_str admin st name None suffix.

Definition kv_set_bot_uint (st : kv) (name suffix : option cstr) (val : Z) : bool * (kv * list kv_call) :=
  match kv_bot_key KV_KEY_SZ name None suffix with
  | Some k => kv_set_uint st (Some k) val
  | None => (FAIL, (st, []))
  end.

(** ** Natural-language responders *)

Fixpoint nl_replace (l : list kv_nl_reg_t) (key : cstr) (nl : Z) : option (list kv_nl_reg_t) :=
  match l with
  | [] => None
  | r :: l' =>
      if seqb (nl_key r) key then Some ({| nl_key := nl_key r; nl_ptr := nl |} :: l')
      else cons r <$> nl_replace l' key nl
  end.

(** A NULL hint is address 0. *)
Definition kv_register_nl (st : kv) (key : option cstr) (nl : Z) : bool * kv :=
  match present key with
  | None => (FAIL, st)
  | Some key =>
      if nl =? 0 then (FAIL, st) else
      if negb (kv_exists st key) then (FAIL, st) else
      match nl_replace (kv_nl st) key nl with
      | Some l => (SUCCESS, set_nl st l)
      | None => (SUCCESS, set_nl st ({| nl_key := strlcpy KV_KEY_SZ key; nl_ptr := nl |} :: kv_nl st))
      end
  end.

Definition kv_get_nl (st : kv) (key : option cstr) : option Z :=
  key ← key; nl_ptr <$> List.find (fun r => seqb (nl_key r) key) (kv_nl st).

(** The calls of the callback, from the snapshot. *)
Definition kv_iterate_nl (st : kv) : list (cstr * Z) := map (fun r => (nl_key r, nl_ptr r)) (kv_nl st).

Fixpoint nl_remove (l : list kv_nl_reg_t) (key : cstr) : list kv_nl_reg_t * bool :=
  match l with
  | [] => ([], false)
  | r :: l' =>
      if seqb (nl_key r) key then (l', true)
      else let '(l'', dropped) := nl_remove l' key in (r :: l'', dropped)
  end.

Definition kv_nl_unregister_locked_key (st : kv) (key : cstr) : kv * bool :=
  let '(l, dropped) := nl_remove (kv_nl st) key in (set_nl st l, dropped).

End kv.

(** ** What is well formed *)

Section wf.
Context {F : CFloat}.

Definition entries (st : kv) : list kv_entry_t := concat (kv_table st).

(** A table of chains: each element is in the chain its hash names. *)
Definition chained {A} (hash : A -> nat) (n : nat) (t : list (list A)) : Prop :=
  length t = n /\ forall b l x, t !! b = Some l -> x ∈ l -> hash x = b.

Definition strs_wf (t : interned) : Prop :=
  chained (fun n => intern_bucket (n_s n)) 128 (kv_intern_table t) /\
  NoDup (n_s <$> concat (kv_intern_table t)) /\
  NoDup (n_at <$> concat (kv_intern_table t)) /\
  Forall (fun n => (0 < n_at n < i_next t)%nat) (concat (kv_intern_table t)) /\
  (0 < i_next t)%nat.

(** The value is of the member the type names, and in the type's range. *)
Definition val_ok (t : interned) (type : kv_type_t) (v : kv_val_t) : Prop :=
  match type with
  | KV_INT8 => exists z, v = Vi 8 z /\ INT_MIN 8 <= z <= INT_MAX 8
  | KV_UINT8 => exists z, v = Vu 8 z /\ 0 <= z <= UINT_MAX 8
  | KV_INT16 => exists z, v = Vi 16 z /\ INT_MIN 16 <= z <= INT_MAX 16
  | KV_UINT16 => exists z, v = Vu 16 z /\ 0 <= z <= UINT_MAX 16
  | KV_INT32 => exists z, v = Vi 32 z /\ INT_MIN 32 <= z <= INT_MAX 32
  | KV_UINT32 => exists z, v = Vu 32 z /\ 0 <= z <= UINT_MAX 32
  | KV_INT64 => exists z, v = Vi 64 z /\ INT_MIN 64 <= z <= INT_MAX 64
  | KV_UINT64 => exists z, v = Vu 64 z /\ 0 <= z <= UINT_MAX 64
  | KV_FLOAT => exists f, v = Vf f
  | KV_DOUBLE => exists d, v = Vd d
  | KV_LDOUBLE => exists l, v = Vld l
  | KV_STR => exists p s, v = Vstr p /\ str_at t p = Some s /\ (length s < KV_STR_SZ)%nat
  | KV_BOOL => v = Vu 8 0 \/ v = Vu 8 1
  end.

Definition ptr_ok (t : interned) (p : option nat) : Prop :=
  match p with None => True | Some p => is_Some (str_at t p) end.

Definition entry_ok (t : interned) (e : kv_entry_t) : Prop :=
  val_ok t (e_type e) (e_val e) /\ val_ok t (e_type e) (e_def e) /\ ptr_ok t (e_help e) /\
  (length (e_key e) < KV_KEY_SZ)%nat /\
  (kv_is_secret_key (Some (e_key e)) = true -> e_secret e = true).

Record kv_wf (st : kv) : Prop := {
  wf_chained : chained (fun e => hash_key (e_key e)) 64 (kv_table st);
  wf_keys : NoDup (e_key <$> entries st);
  wf_ats : NoDup (e_at <$> entries st);
  wf_next : Forall (fun e => (e_at e < k_next st)%nat) (entries st);
  wf_count : kv_count st = wrap 32 (Z.of_nat (length (entries st)));
  wf_strs : strs_wf (k_strs st);
  wf_entries : Forall (entry_ok (k_strs st)) (entries st)
}.

(** *** Chained tables *)

Section chained.
Context {A : Type} (hash : A -> nat) (n : nat).

Lemma concat_elem (t : list (list A)) (x : A) :
  x ∈ concat t <-> exists b l, t !! b = Some l /\ x ∈ l.
Proof.
  rewrite list_elem_of_In, in_concat. split.
  - intros (l & Hl & Hx). apply list_elem_of_In in Hl as [b Hb]%list_elem_of_lookup_1.
    exists b, l. split; [done|by apply list_elem_of_In].
  - intros (b & l & Hb & Hx). exists l. split; apply list_elem_of_In; [by eapply list_elem_of_lookup_2|done].
Qed.

Lemma chained_nth t x : chained hash n t -> x ∈ concat t -> x ∈ nth (hash x) t [].
Proof.
  intros [_ H] (b & l & Hb & Hx)%concat_elem. rewrite (H _ _ _ Hb Hx).
  by rewrite (nth_lookup_Some _ _ _ _ Hb).
Qed.

Lemma nth_concat (t : list (list A)) b x : x ∈ nth b t [] -> x ∈ concat t.
Proof.
  intros H. apply concat_elem. rewrite nth_lookup in H.
  destruct (t !! b) as [l|] eqn:E; [by exists b, l|by apply not_elem_of_nil in H].
Qed.

Lemma chained_map (f : A -> A) t :
  (forall x, hash (f x) = hash x) -> chained hash n t -> chained hash n (map (map f) t).
Proof.
  intros Hf [Hn H]. split; [by rewrite length_map|]. intros b l x Hb Hx.
  apply list_lookup_fmap_Some in Hb as (l0 & -> & Hb).
  apply list_elem_of_fmap in Hx as (y & -> & Hy). rewrite Hf. eauto.
Qed.

(** Putting an element at the head of its chain. *)
Lemma chained_cons t x :
  chained hash n t -> (hash x < n)%nat -> chained hash n (<[hash x := x :: nth (hash x) t []]> t).
Proof.
  intros [Hn H] Hx. split; [by rewrite length_insert|]. intros b l y Hb Hy.
  apply list_lookup_insert_Some in Hb as [(<- & <- & _)|[_ Hb]]; [|by eauto].
  apply elem_of_cons in Hy as [->|Hy]; [done|]. rewrite nth_lookup in Hy.
  destruct (t !! hash x) eqn:E; [by eauto|by apply not_elem_of_nil in Hy].
Qed.

Lemma concat_insert (t : list (list A)) b l l' :
  t !! b = Some l -> exists t1 t2, concat t = concat t1 ++ l ++ concat t2 /\
    concat (<[b := l']> t) = concat t1 ++ l' ++ concat t2.
Proof.
  intros Hb. exists (take b t), (drop (S b) t).
  rewrite (insert_take_drop _ _ _ ltac:(by eapply lookup_lt_Some)).
  rewrite <- (take_drop_middle t b l Hb) at 1. rewrite !concat_app. cbn [concat]. done.
Qed.

Lemma concat_cons t x :
  length t = n -> (hash x < n)%nat ->
  concat (<[hash x := x :: nth (hash x) t []]> t) ≡ₚ x :: concat t.
Proof.
  intros Hn Hx. destruct (lookup_lt_is_Some_2 t (hash x)) as [l Hl]; [by rewrite Hn|].
  rewrite (nth_lookup_Some _ _ _ _ Hl).
  destruct (concat_insert t _ l (x :: l) Hl) as (t1 & t2 & -> & ->). solve_Permutation.
Qed.

Lemma chained_filter (P : A -> bool) t : chained hash n t -> chained hash n (map (List.filter P) t).
Proof.
  intros [Hn H]. split; [by rewrite length_map|]. intros b l x Hb Hx.
  apply list_lookup_fmap_Some in Hb as (l0 & -> & Hb).
  apply list_elem_of_In, filter_In in Hx as [Hx _]. apply list_elem_of_In in Hx. eauto.
Qed.

End chained.

Lemma concat_map_map {A B} (f : A -> B) t : concat (map (map f) t) = map f (concat t).
Proof. by rewrite concat_map. Qed.

Lemma concat_map_filter {A} (P : A -> bool) (t : list (list A)) :
  concat (map (List.filter P) t) = List.filter P (concat t).
Proof. by rewrite concat_filter_map. Qed.

Lemma NoDup_chain {A B} (f : A -> B) t b :
  NoDup (f <$> concat t) -> NoDup (f <$> nth b t []).
Proof.
  intros H. rewrite nth_lookup. destruct (t !! b) as [l|] eqn:E; [|constructor].
  destruct (concat_insert t b l l E) as (t1 & t2 & Ht & _). rewrite Ht, !fmap_app in H.
  by apply list.NoDup_app in H as (_ & _ & (H & _ & _)%list.NoDup_app).
Qed.

Lemma hash_lt h k : 0 < k -> (Z.to_nat (h mod k) < Z.to_nat k)%nat.
Proof. intros Hk. pose proof (Z.mod_pos_bound h k Hk). lia. Qed.

Lemma hash_key_lt k : (hash_key k < 64)%nat.
Proof. apply (hash_lt _ 64). lia. Qed.

Lemma intern_bucket_lt s : (intern_bucket s < 128)%nat.
Proof. apply (hash_lt _ 128). lia. Qed.

Lemma find_locked_iff st key e :
  kv_wf st -> (find_locked st key = Some e <-> e ∈ entries st /\ e_key e = key).
Proof.
  intros W. unfold find_locked, bucket.
  rewrite (find_unique e_key seqb) by (apply seqb_true || apply NoDup_chain, W). split.
  - intros [H <-]. split; [by eapply nth_concat|done].
  - intros [H <-]. split; [|done]. by apply (chained_nth _ _ _ _ (wf_chained st W)).
Qed.

Lemma find_locked_none st key :
  kv_wf st -> (find_locked st key = None <-> key ∉ e_key <$> entries st).
Proof.
  intros W. split.
  - intros H (e & -> & He)%list_elem_of_fmap. by rewrite (proj2 (find_locked_iff st _ e W)) in H.
  - intros H. destruct (find_locked st key) as [e|] eqn:E; [|done].
    apply find_locked_iff in E as [He <-]; [|done]. exfalso. apply H. by apply list_elem_of_fmap_2.
Qed.

End wf.

(** *** Interning *)

Section intern.

(** [t'] has every string of [t] at its address. *)
Definition extends (t t' : interned) : Prop :=
  forall p s, str_at t p = Some s -> str_at t' p = Some s.

#[export] Instance extends_refl : Reflexive extends.
Proof. by intros t p s. Qed.

#[export] Instance extends_trans : Transitive extends.
Proof. intros a b c H1 H2 p s H. by apply H2, H1. Qed.

Lemma str_at_iff t p s :
  strs_wf t -> (str_at t p = Some s <->
    {| n_at := p; n_s := s |} ∈ concat (kv_intern_table t)).
Proof.
  intros (_ & _ & Ha & _). unfold str_at. rewrite fmap_Some. split.
  - intros (n & H & ->). apply (find_unique n_at Nat.eqb) in H as [H <-];
      [by destruct n|intros; apply Nat.eqb_eq|done].
  - intros H. exists {| n_at := p; n_s := s |}. split; [|done].
    apply (find_unique n_at Nat.eqb); [intros; apply Nat.eqb_eq|done|done].
Qed.

(** A string has one address. *)
Lemma str_at_inj t p q s : strs_wf t -> str_at t p = Some s -> str_at t q = Some s -> p = q.
Proof.
  intros W Hp%str_at_iff Hq%str_at_iff; [|done|done]. destruct W as (_ & Hs & _).
  pose proof (proj2 (find_unique n_s seqb _ _ s seqb_true Hs) (conj Hp eq_refl)) as E1.
  pose proof (proj2 (find_unique n_s seqb _ _ s seqb_true Hs) (conj Hq eq_refl)) as E2.
  congruence.
Qed.

Lemma intern_bytes_hit t s len n :
  List.find (fun n => seqb (n_s n) (take len s))
    (nth (intern_bucket (take len s)) (kv_intern_table t) []) = Some n ->
  intern_bytes t s len = (n_at n, t).
Proof. intros E. unfold intern_bytes. by rewrite E. Qed.

Lemma intern_bytes_ok t s len p t' :
  strs_wf t -> intern_bytes t s len = (p, t') ->
  strs_wf t' /\ extends t t' /\ str_at t' p = Some (take len s).
Proof.
  intros W E. pose proof W as (Hc & Hs & Ha & Hb & Hn).
  unfold intern_bytes in E. set (u := take len s) in *.
  destruct (List.find _ _) as [n|] eqn:Ef; injection E as <- <-.
  - apply find_some in Ef as [H1%list_elem_of_In H2%seqb_true].
    split_and!; [done|done|]. apply str_at_iff; [done|]. rewrite <- H2.
    apply nth_concat in H1. by destruct n.
  - set (n := {| n_at := i_next t; n_s := u |}).
    pose proof (concat_cons (fun n => intern_bucket (n_s n)) 128 (kv_intern_table t) n
      (proj1 Hc) (intern_bucket_lt _)) as Hp. cbn [n_s n] in Hp. fold n in Hp.
    assert (W' : strs_wf {| kv_intern_table := <[intern_bucket u := n :: nth (intern_bucket u) (kv_intern_table t) []]> (kv_intern_table t);
      kv_intern_count := wrap 32 (kv_intern_count t + 1); i_next := S (i_next t) |}).
    { split_and!; cbn [kv_intern_table i_next].
      - apply (chained_cons (fun n => intern_bucket (n_s n)) 128 _ n Hc), intern_bucket_lt.
      - rewrite Hp. cbn. apply list.NoDup_cons. split; [|done].
        intros (m & Hm & Hin)%list_elem_of_fmap.
        apply (chained_nth _ _ _ _ Hc), list_elem_of_In in Hin. rewrite <- Hm in Hin.
        eapply List.find_none in Ef; [|exact Hin]. apply seqb_false in Ef. congruence.
      - rewrite Hp. cbn. apply list.NoDup_cons. split; [|done].
        intros (m & Hm & Hin)%list_elem_of_fmap. rewrite List.Forall_forall in Hb.
        apply list_elem_of_In, Hb in Hin. lia.
      - rewrite Hp. constructor; [cbn; lia|]. refine (List.Forall_impl _ _ Hb). intros m Hm. lia.
      - lia. }
    split_and!; [done| |].
    + intros q x Hq%str_at_iff; [|done]. apply str_at_iff; [done|]. cbn [kv_intern_table].
      rewrite Hp. by right.
    + apply str_at_iff; [done|]. cbn [kv_intern_table]. rewrite Hp. by left.
Qed.

(** Interning what is there already finds it. *)
Lemma intern_bytes_again t s p :
  strs_wf t -> str_at t p = Some s -> intern_bytes t s (length s) = (p, t).
Proof.
  intros W H. destruct (intern_bytes t s (length s)) as [q t'] eqn:E.
  pose proof W as (Hc & Hs & _).
  apply str_at_iff in H; [|done].
  pose proof (proj2 (find_unique n_s seqb (nth (intern_bucket s) (kv_intern_table t) [])
    {| n_at := p; n_s := s |} s seqb_true (NoDup_chain _ _ _ Hs))
    (conj (chained_nth _ _ _ _ Hc H) eq_refl)) as Ef.
  rewrite (intern_bytes_hit t s (length s) _ (eq_trans (f_equal (fun u =>
    List.find (fun n => seqb (n_s n) u) (nth (intern_bucket u) _ [])) (firstn_all s)) Ef)) in E.
  by rewrite <- E.
Qed.

Lemma kv_intern_ok t s p t' :
  strs_wf t -> kv_intern t s = (p, t') ->
  strs_wf t' /\ extends t t' /\ str_at t' p = Some (take (KV_STR_SZ - 1) s).
Proof.
  intros W H. apply intern_bytes_ok in H as (H1 & H2 & H3); [|done].
  split_and!; [done|done|]. rewrite H3. f_equal. rewrite length_take. by destruct (Nat.min_spec (KV_STR_SZ - 1) (length s)) as [[? ->]|[? ->]]; [|rewrite !firstn_all2 by lia].
Qed.

Lemma kv_intern_again t s p :
  strs_wf t -> str_at t p = Some s -> (length s < KV_STR_SZ)%nat -> kv_intern t s = (p, t).
Proof.
  intros W H Hl. unfold kv_intern. rewrite firstn_all2 by (unfold KV_STR_SZ in *; lia).
  by apply intern_bytes_again.
Qed.

End intern.

(** *** Values *)

Section vals.
Context {F : CFloat}.

Definition is_float (type : kv_type_t) : bool :=
  match type with KV_FLOAT | KV_DOUBLE | KV_LDOUBLE => true | _ => false end.

Lemma whole_ll_range str z : whole_ll str = Some z -> INT64_MIN <= z <= INT64_MAX.
Proof.
  unfold whole_ll, strtoll. destruct (strto_core str) as [[[neg mag] rest]|]; [|done].
  destruct rest; [|done]. intros [= <-]. unfold INT64_MIN, INT64_MAX in *. lia.
Qed.

Lemma strto_core_mag str neg mag rest : strto_core str = Some (neg, mag, rest) -> 0 <= mag.
Proof.
  unfold strto_core. set (q := match skip_while isspace str with _ :: _ => _ | [] => _ end).
  destruct q as [ng q']. destruct (span isdigit q') as [|d ds] eqn:E; [done|].
  intros [= _ <- _]. apply digits_val_nonneg_acc; [|done]. rewrite <- E.
  apply List.Forall_forall. intros c Hc%list_elem_of_In. by eapply span_all.
Qed.

Lemma whole_ull_range str z : whole_ull str = Some z -> 0 <= z <= UINT64_MAX.
Proof.
  unfold whole_ull, strtoull. destruct (strto_core str) as [[[neg mag] rest]|] eqn:E; [|done].
  apply strto_core_mag in E.
  destruct (UINT64_MAX <? mag) eqn:Em; destruct rest; try done; intros [= <-]; breflect.
  - unfold UINT64_MAX. lia.
  - destruct neg; [|done]. pose proof (wrap_range 64 (- mag)). unfold UINT64_MAX. lia.
Qed.

Lemma parse_i_ok w str v : parse_i w str = Some v -> exists z, v = Vi w z /\ INT_MIN w <= z <= INT_MAX w.
Proof.
  unfold parse_i. destruct (whole_ll str) as [z|]; [|done]. cbn.
  destruct (_ || _) eqn:E; [done|]. intros [= <-]. breflect. exists z. split; [done|lia].
Qed.

Lemma parse_u_ok w str v : parse_u w str = Some v -> exists z, v = Vu w z /\ 0 <= z <= UINT_MAX w.
Proof.
  unfold parse_u. destruct (whole_ull str) as [z|] eqn:Ez; [|done]. cbn.
  destruct (_ <? _) eqn:E; [done|]. intros [= <-]. breflect. exists z.
  apply whole_ull_range in Ez. split; [done|lia].
Qed.

Lemma parse_bool_ok str v : parse_bool str = Some v -> v = Vu 8 0 \/ v = Vu 8 1.
Proof. unfold parse_bool. repeat case_step; intros [= <-]; auto. Qed.

Lemma val_ok_extends t t' type v : extends t t' -> val_ok t type v -> val_ok t' type v.
Proof. intros H. destruct type; try done. intros (p & s & -> & Hs & Hl). exists p, s. auto. Qed.

Lemma str_to_val_ok t type str v t' :
  strs_wf t -> str_to_val t type str = (v, t') ->
  strs_wf t' /\ extends t t' /\ (forall x, v = Some x -> val_ok t' type x).
Proof.
  intros W E. destruct type; cbn [str_to_val] in E.
  12: { destruct (kv_intern t str) as [p t1] eqn:Ei. injection E as <- <-.
    apply kv_intern_ok in Ei as (H1 & H2 & H3); [|done]. split_and!; [done|done|].
    intros x [= <-]. exists p, (take (KV_STR_SZ - 1) str). split_and!; [done|done|].
    rewrite length_take. unfold KV_STR_SZ. lia. }
  all: injection E as <- <-; split_and!; [done|reflexivity|]; intros x E.
  all: try by apply parse_i_ok in E. all: try by apply parse_u_ok in E.
  all: try by apply parse_bool_ok in E.
  all: apply fmap_Some in E as (y & E & ->).
  - exists y. split; [done|]. by apply whole_ll_range in E.
  - exists y. split; [done|]. by apply whole_ull_range in E.
  - by exists y.
  - by exists y.
  - by exists y.
Qed.

Lemma dec_aux_length fuel n acc : (length (dec_aux fuel n acc) <= fuel + length acc)%nat.
Proof.
  revert n acc. induction fuel as [|f IH]; intros n acc; cbn [dec_aux]; [done|].
  destruct (n <? 10); [cbn; lia|]. etransitivity; [apply IH|]. cbn. lia.
Qed.

Lemma dec_length z : - 2 ^ 63 <= z < 2 ^ 64 -> (length (dec z) <= 66)%nat.
Proof.
  intros Hz. assert (H : forall m, 0 <= m < 2 ^ 64 -> (length (dec_nat m) <= 65)%nat).
  { intros m Hm. unfold dec_nat. etransitivity; [apply dec_aux_length|]. cbn [length].
    destruct (decide (m = 0)) as [->|]; [cbn; lia|].
    assert (Z.log2 m < 64) by (apply Z.log2_lt_pow2; lia). pose proof (Z.log2_nonneg m). lia. }
  unfold dec. destruct (z <? 0) eqn:E; breflect.
  - cbn [length]. specialize (H (- z)). lia.
  - specialize (H z). lia.
Qed.

Lemma whole_ll_dec z : INT64_MIN <= z <= INT64_MAX -> whole_ll (dec z) = Some z.
Proof.
  intros H. unfold whole_ll, strtoll. pose proof (strto_core_dec z [] I) as E.
  rewrite app_nil_r in E. rewrite E. unfold INT64_MIN, INT64_MAX in *. f_equal.
  destruct (z <? 0) eqn:En; breflect; lia.
Qed.

Lemma whole_ull_dec z : 0 <= z <= UINT64_MAX -> whole_ull (dec z) = Some z.
Proof.
  intros H. unfold whole_ull, strtoull. pose proof (strto_core_dec z [] I) as E.
  rewrite app_nil_r in E. rewrite E.
  destruct (z <? 0) eqn:En; breflect; [lia|]. rewrite Z.abs_eq by lia.
  destruct (UINT64_MAX <? z) eqn:Em; breflect; [lia|done].
Qed.

Lemma strlcpy_all n s : (length s < n)%nat -> strlcpy n s = s.
Proof. intros H. unfold strlcpy. apply firstn_all2. lia. Qed.

Lemma get_i_same w z : get_i w (Vi w z) = z.
Proof. cbn. by rewrite Z.eqb_refl. Qed.

Lemma get_u_same w z : get_u w (Vu w z) = z.
Proof. cbn. by rewrite Z.eqb_refl. Qed.

Lemma parse_i_dec w z : 0 < w <= 64 -> INT_MIN w <= z <= INT_MAX w -> parse_i w (dec z) = Some (Vi w z).
Proof.
  intros Hw H. unfold parse_i, INT_MIN, INT_MAX in *.
  assert (2 ^ (w - 1) <= 2 ^ 63) by (apply Z.pow_le_mono_r; lia).
  rewrite whole_ll_dec by (unfold INT64_MIN, INT64_MAX; lia). cbn.
  destruct (_ || _) eqn:E; [|done]. apply orb_true_iff in E as [E|E]; breflect; lia.
Qed.

Lemma parse_u_dec w z : 0 < w <= 64 -> 0 <= z <= UINT_MAX w -> parse_u w (dec z) = Some (Vu w z).
Proof.
  intros Hw H. unfold parse_u, UINT_MAX in *.
  assert (2 ^ w <= 2 ^ 64) by (apply Z.pow_le_mono_r; lia).
  rewrite whole_ull_dec by (unfold UINT64_MAX; lia). cbn.
  destruct (_ <? _) eqn:E; [|done]. breflect. lia.
Qed.

(** Text of a well-typed value that is not a float: it fits the store's buffers. *)
Lemma val_text_length t type v :
  val_ok t type v -> is_float type = false -> (length (val_text t type v) < KV_STR_SZ)%nat.
Proof.
  intros H Hf. unfold KV_STR_SZ.
  assert (D : forall z, - 2 ^ 63 <= z < 2 ^ 64 -> (length (dec z) < 256)%nat)
    by (intros z Hz; pose proof (dec_length z Hz); lia).
  destruct type; try discriminate; cbn [val_ok] in H; cbn [val_text].
  1-8: destruct H as (z & -> & Hz); rewrite ?get_i_same, ?get_u_same; apply D;
    unfold INT_MIN, INT_MAX, UINT_MAX in Hz; lia.
  - destruct H as (p & s & -> & Hs & Hl). cbn [get_p]. unfold cstr_at. rewrite Hs. exact Hl.
  - destruct H as [->| ->]; cbn; lia.
Qed.

Lemma parse_val_text t type v :
  strs_wf t -> val_ok t type v -> is_float type = false ->
  str_to_val t type (val_text t type v) = (Some v, t).
Proof.
  intros W H Hf. destruct type; try discriminate; cbn [val_ok] in H; cbn [val_text str_to_val].
  1-6: destruct H as (z & -> & Hz); rewrite ?get_i_same, ?get_u_same;
    first [rewrite parse_i_dec by lia|rewrite parse_u_dec by lia]; done.
  - destruct H as (z & -> & Hz). rewrite get_i_same, whole_ll_dec; [done|].
    unfold INT_MIN, INT_MAX, INT64_MIN, INT64_MAX in *. lia.
  - destruct H as (z & -> & Hz). rewrite get_u_same, whole_ull_dec; [done|].
    unfold UINT_MAX, UINT64_MAX in *. lia.
  - destruct H as (p & s & -> & Hs & Hl). cbn [get_p]. unfold cstr_at. rewrite Hs.
    change (default [] (Some s)) with s. by rewrite (kv_intern_again t s p).
  - destruct H as [->| ->]; reflexivity.
Qed.

(** Equal texts are equal values. *)
Lemma val_text_inj t type v w :
  strs_wf t -> val_ok t type v -> val_ok t type w -> is_float type = false ->
  val_text t type v = val_text t type w -> v = w.
Proof.
  intros W Hv Hw Hf E. pose proof (parse_val_text t type v W Hv Hf) as P.
  rewrite E, parse_val_text in P by done. congruence.
Qed.

Lemma val_changed_iff t type v w :
  strs_wf t -> val_ok t type v -> val_ok t type w -> is_float type = false ->
  val_changed t type v w = false <-> v = w.
Proof.
  intros W Hv Hw Hf.
  assert (Hs : forall x, val_ok t type x -> val_to_str t type x KV_VAL_BUF = val_text t type x).
  { intros x Hx. apply strlcpy_all. pose proof (val_text_length t type x Hx Hf).
    unfold KV_STR_SZ, KV_VAL_BUF in *. lia. }
  assert (Hg : negb (seqb (val_text t type v) (val_text t type w)) = false <-> v = w).
  { rewrite negb_false_iff, seqb_true. split; [|congruence]. by apply val_text_inj. }
  destruct type; try discriminate; cbn [val_changed]; rewrite ?Hs by done; try exact Hg.
  destruct Hv as (p & s & -> & _). destruct Hw as (q & r & -> & _). cbn [get_p].
  rewrite negb_false_iff, Nat.eqb_eq. split; congruence.
Qed.

End vals.

(** *** Entries *)

Section ops.
Context {F : CFloat}.

(** A function on entries that keeps the allocation and its key. *)
Definition in_place (f : kv_entry_t -> kv_entry_t) : Prop :=
  forall e, e_at (f e) = e_at e /\ e_key (f e) = e_key e.

Lemma in_place_val v b : in_place (with_val v b).
Proof. by intros e. Qed.

Lemma in_place_dirty b : in_place (with_dirty b).
Proof. by intros e. Qed.

Lemma in_place_secret b : in_place (with_secret b).
Proof. by intros e. Qed.

Lemma in_place_cb cb d : in_place (with_cb cb d).
Proof. by intros e. Qed.

Lemma in_place_check c d : in_place (with_check c d).
Proof. by intros e. Qed.

Lemma entries_upd_at st a f :
  entries (upd_at st a f) = map (fun e => if Nat.eqb (e_at e) a then f e else e) (entries st).
Proof. unfold entries. cbn [upd_at set_table kv_table]. apply concat_map_map. Qed.

Lemma find_upd_at st a f k :
  in_place f ->
  find_locked (upd_at st a f) k =
  (fun e => if Nat.eqb (e_at e) a then f e else e) <$> find_locked st k.
Proof.
  intros Hf. unfold find_locked, bucket. cbn [upd_at set_table kv_table].
  set (g := fun e => if Nat.eqb (e_at e) a then f e else e).
  replace (nth (hash_key k) (map (map g) (kv_table st)) [])
    with (map g (nth (hash_key k) (kv_table st) [])) by (symmetry; apply (map_nth (map g) _ [])).
  induction (nth (hash_key k) (kv_table st) []) as [|e l IH]; [done|]. cbn [map List.find].
  replace (e_key (g e)) with (e_key e)
    by (unfold g; destruct (Nat.eqb _ _); [by rewrite (proj2 (Hf e))|done]).
  by destruct (seqb (e_key e) k).
Qed.

Lemma find_upd_at_same st a f k e :
  in_place f -> find_locked st k = Some e -> e_at e = a -> find_locked (upd_at st a f) k = Some (f e).
Proof. intros Hf E <-. rewrite find_upd_at, E by done. cbn. by rewrite Nat.eqb_refl. Qed.

(** Two entries at one address are the same. *)
Lemma entry_at_unique st e e' :
  kv_wf st -> e ∈ entries st -> e' ∈ entries st -> e_at e = e_at e' -> e = e'.
Proof.
  intros W He He' Ha.
  pose proof (proj2 (find_unique e_at Nat.eqb _ e (e_at e') Nat.eqb_eq (wf_ats st W)) (conj He Ha)) as E1.
  pose proof (proj2 (find_unique e_at Nat.eqb _ e' (e_at e') Nat.eqb_eq (wf_ats st W)) (conj He' eq_refl)) as E2.
  congruence.
Qed.

Lemma find_upd_at_other st a f k e k' :
  kv_wf st -> in_place f -> find_locked st k = Some e -> e_at e = a -> k' <> k ->
  find_locked (upd_at st a f) k' = find_locked st k'.
Proof.
  intros W Hf E <- Hk. rewrite find_upd_at by done.
  destruct (find_locked st k') as [e'|] eqn:E'; [|done]. cbn.
  destruct (Nat.eqb_spec (e_at e') (e_at e)) as [Ha|]; [|done]. exfalso. apply Hk.
  apply find_locked_iff in E as [He <-]; [|done]. apply find_locked_iff in E' as [He' <-]; [|done].
  by rewrite (entry_at_unique st e' e W He' He Ha).
Qed.

Lemma map_in_place {A} (f : kv_entry_t -> kv_entry_t) (g : kv_entry_t -> A) l :
  (forall e, g (f e) = g e) -> g <$> map f l = g <$> l.
Proof. intros H. induction l as [|e l IH]; [done|]. cbn. by rewrite H, <- IH. Qed.

Lemma upd_at_wf st a f :
  kv_wf st -> in_place f ->
  (forall e, e ∈ entries st -> e_at e = a -> entry_ok (k_strs st) e -> entry_ok (k_strs st) (f e)) ->
  kv_wf (upd_at st a f).
Proof.
  intros W Hf Hok. set (g := fun e => if Nat.eqb (e_at e) a then f e else e).
  assert (Hg : in_place g) by (intros e; unfold g; destruct (Nat.eqb _ _); [apply Hf|done]).
  constructor; rewrite ?entries_upd_at; cbn [upd_at set_table kv_table k_next kv_count k_strs].
  - apply (chained_map (fun e => hash_key (e_key e))); [|apply W]. intros e. f_equal. apply Hg.
  - rewrite map_in_place by apply Hg. apply W.
  - rewrite map_in_place by apply Hg. apply W.
  - apply List.Forall_forall. intros x (e & <- & He)%in_map_iff.
    change (e_at (g e) < k_next st)%nat. rewrite (proj1 (Hg e)).
    exact (proj1 (List.Forall_forall _ _) (wf_next st W) e He).
  - rewrite length_map. apply W.
  - apply W.
  - apply List.Forall_forall. intros x (e & <- & He)%in_map_iff.
    pose proof (proj1 (List.Forall_forall _ _) (wf_entries st W) e He) as Hx.
    destruct (Nat.eqb_spec (e_at e) a); [|done]. apply Hok; [by apply list_elem_of_In|done|done].
Qed.

Lemma entry_ok_extends t t' e : extends t t' -> entry_ok t e -> entry_ok t' e.
Proof.
  intros H (H1 & H2 & H3 & H4). split_and!; [by eapply val_ok_extends|by eapply val_ok_extends| |by apply H4|by apply H4].
  destruct (e_help e) as [p|]; [|done]. destruct H3 as [s Hs]. exists s. by apply H.
Qed.

Lemma set_strs_wf st t : kv_wf st -> strs_wf t -> extends (k_strs st) t -> kv_wf (set_strs st t).
Proof.
  intros W Wt Hx. destruct W. constructor; try done.
  refine (List.Forall_impl _ _ wf_entries0). intros e. by apply entry_ok_extends.
Qed.

Lemma with_val_ok t e v b : entry_ok t e -> val_ok t (e_type e) v -> entry_ok t (with_val v b e).
Proof. intros (H1 & H2 & H3) Hv. split; [done|]. by split. Qed.

Lemma apply_val_wf st e v :
  kv_wf st -> e ∈ entries st -> val_ok (k_strs st) (e_type e) v -> kv_wf (apply_val st e v).1.
Proof.
  intros W He Hv. unfold apply_val. cbn [fst]. destruct (val_changed _ _ _ _); [|done].
  apply upd_at_wf; [done|apply in_place_val|]. intros e' He' Ha Hok. apply with_val_ok; [done|].
  by rewrite (entry_at_unique st e' e W He' He Ha).
Qed.

(** What a write of a well-typed value leaves under its key: the value, dirty if it is
    a new one, with one call of the callback exactly then; every other key as it was. *)
Lemma apply_val_spec st k e v st' calls :
  kv_wf st -> find_locked st k = Some e -> val_ok (k_strs st) (e_type e) v -> is_float (e_type e) = false ->
  apply_val st e v = (st', calls) ->
  exists ch : bool, (ch = false <-> e_val e = v) /\
    find_locked st' k = Some (with_val v (e_dirty e || ch) e) /\ calls = call ch e /\
    (forall k', k' <> k -> find_locked st' k' = find_locked st k').
Proof.
  intros W E Hv Hf A. pose proof E as [He _]%find_locked_iff; [|done].
  pose proof (proj1 (List.Forall_forall _ _) (wf_entries st W) e ltac:(by apply list_elem_of_In)) as (Hold & _).
  pose proof (val_changed_iff _ _ _ _ (wf_strs st W) Hold Hv Hf) as C.
  unfold apply_val in A. destruct (val_changed _ _ _ _); injection A as <- <-.
  - exists true. rewrite orb_true_r. split_and!; [done| |done|].
    + by rewrite (find_upd_at_same _ _ _ _ _ (in_place_val _ _) E).
    + intros k' Hk. by eapply find_upd_at_other; [done|apply in_place_val|done|done|].
  - exists false. rewrite orb_false_r. split_and!; [done| |done|done].
    rewrite E, <- (proj1 C eq_refl). by destruct e.
Qed.

(** ** Integers *)

(** The values an integer type holds. *)
Definition int_bounds (type : kv_type_t) : option (Z * Z) :=
  match type with
  | KV_INT8 => Some (-128, 127) | KV_UINT8 => Some (0, 255)
  | KV_INT16 => Some (-32768, 32767) | KV_UINT16 => Some (0, 65535)
  | KV_INT32 => Some (-2147483648, 2147483647) | KV_UINT32 => Some (0, 4294967295)
  | KV_INT64 => Some (-9223372036854775808, 9223372036854775807)
  | KV_UINT64 => Some (0, 18446744073709551615)
  | KV_BOOL => Some (0, 1)
  | _ => None
  end.

Definition int_fits (type : kv_type_t) (v : Z) : Prop :=
  exists lo hi, int_bounds type = Some (lo, hi) /\ lo <= v <= hi.

(** The member an integer type stores [v] in. *)
Definition int_val (type : kv_type_t) (v : Z) : kv_val_t :=
  match type with
  | KV_INT8 => Vi 8 v | KV_INT16 => Vi 16 v | KV_INT32 => Vi 32 v | KV_INT64 => Vi 64 v
  | KV_UINT16 => Vu 16 v | KV_UINT32 => Vu 32 v | KV_UINT64 => Vu 64 v
  | _ => Vu 8 v
  end.

Lemma int_fits_ok t type v :
  int_fits type v -> val_ok t type (int_val type v) /\ is_float type = false.
Proof.
  intros (lo & hi & H & Hv). destruct type; try discriminate; injection H as <- <-; split;
    try done; cbn [val_ok int_val]; try (exists v; split; [done|]; vm_compute (2 ^ _);
    unfold INT_MIN, INT_MAX, UINT_MAX; lia).
  destruct (decide (v = 0)) as [->|]; [by left|right]. f_equal. lia.
Qed.

#[local] Ltac int_ranges :=
  unfold INT_MIN, INT_MAX, UINT_MAX, INT64_MIN, INT64_MAX, UINT64_MAX in *;
  cbn -[Z.ltb orb] in *.

(** The switch of a setter against the table of bounds. *)
Definition switch_ok (type : kv_type_t) (v : Z) (r : option kv_val_t) : Prop :=
  (int_fits type v /\ r = Some (int_val type v)) \/ (~ int_fits type v /\ r = None).

Lemma switch_intro type v lo hi (b : bool) :
  int_bounds type = Some (lo, hi) -> (b = true <-> ~ (lo <= v <= hi)) ->
  switch_ok type v (if b then None else Some (int_val type v)).
Proof.
  intros H Hb. destruct b; [right|left]; split; try done.
  - intros (l & h & E & Hv). apply Hb; [done|]. congruence.
  - exists lo, hi. split; [done|]. destruct (decide (lo <= v <= hi)) as [|N]; [done|].
    apply Hb in N. discriminate.
Qed.

Lemma int_to_val_iff type v :
  INT64_MIN <= v <= INT64_MAX -> switch_ok type v (int_to_val type v).
Proof.
  intros Hv. destruct type; cbn [int_to_val];
    try (right; split; [intros (? & ? & ? & ?); discriminate|done]).
  7: change (Some (Vi 64 v)) with (if false then None else Some (int_val KV_INT64 v)).
  all: eapply switch_intro; [reflexivity|].
  all: int_ranges; rewrite ?orb_true_iff, ?Z.ltb_lt; lia.
Qed.

Lemma uint_to_val_iff type v :
  0 <= v <= UINT64_MAX -> switch_ok type v (uint_to_val type v).
Proof.
  intros Hv. destruct type; cbn [uint_to_val];
    try (right; split; [intros (? & ? & ? & ?); discriminate|done]).
  8: change (Some (Vu 64 v)) with (if false then None else Some (int_val KV_UINT64 v)).
  all: eapply switch_intro; [reflexivity|].
  all: int_ranges; rewrite ?Z.ltb_lt; lia.
Qed.

(** What a numeric setter promises about the entry [e] of [k], seen through a getter. *)
Definition set_exact (get : kv -> cstr -> Z) (st : kv) (k : cstr) (e : kv_entry_t) (v : Z)
    (r : bool * (kv * list kv_call)) : Prop :=
  let '(rc, (st', calls)) := r in
  (rc = FAIL /\ ~ int_fits (e_type e) v /\ st' = st /\ calls = []) \/
  (rc = SUCCESS /\ int_fits (e_type e) v /\ get st' k = v /\
   (forall k', k' <> k -> find_locked st' k' = find_locked st k') /\
   exists ch : bool, (ch = false <-> get st k = v) /\ calls = call ch e /\
     exists e', find_locked st' k = Some e' /\ e_dirty e' = e_dirty e || ch).

Lemma set_num_exact get as_z to_val st k e v :
  kv_wf st -> find_locked st k = Some e -> switch_ok (e_type e) v (to_val (e_type e)) ->
  (forall st k e, find_locked st k = Some e -> get st k = as_z (e_type e) (e_val e)) ->
  (forall t x, val_ok (k_strs st) (e_type e) x -> int_fits (e_type e) v -> t = e_type e ->
     (as_z t x = v <-> x = int_val (e_type e) v)) ->
  set_exact get st k e v (set_num st (Some k) to_val).
Proof.
  intros W E Hs Hg Hz. unfold set_num. rewrite E.
  destruct Hs as [[Hf ->]|[Hf ->]]; [|by left].
  destruct (int_fits_ok (k_strs st) _ _ Hf) as [Hok Hnf].
  destruct (apply_val st e (int_val (e_type e) v)) as [st' calls] eqn:A.
  destruct (apply_val_spec st k e _ st' calls W E Hok Hnf A) as (ch & Hch & E' & -> & Ho).
  right. split_and!; [done|done| |done|].
  - rewrite (Hg _ _ _ E'). by apply Hz.
  - exists ch. split_and!; [|done|eexists; split; [exact E'|done]].
    rewrite Hch, (Hg _ _ _ E). symmetry. apply Hz; [|done|done].
    apply find_locked_iff in E as [He _]; [|done].
    by apply (proj1 (List.Forall_forall _ _) (wf_entries st W) e), list_elem_of_In.
Qed.

Lemma swrap_small w z : 0 < w -> 0 <= z < 2 ^ w -> swrap w z = if z <? 2 ^ (w - 1) then z else z - 2 ^ w.
Proof. intros Hw H. unfold swrap. by rewrite wrap_small. Qed.

Lemma as_int_val t type x v :
  val_ok t type x -> int_fits type v -> INT64_MIN <= v <= INT64_MAX ->
  (val_as_int type x = v <-> x = int_val type v).
Proof.
  intros Hx (lo & hi & H & Hv) Hr. destruct type; try discriminate; cbn [val_ok int_val] in *.
  9: { injection H as <- <-. destruct Hx as [->| ->]; cbn [val_as_int]; rewrite get_u_same;
       split; congruence. }
  all: destruct Hx as (z & -> & Hz); cbn [val_as_int]; rewrite ?get_i_same, ?get_u_same.
  all: try (split; congruence).
  rewrite swrap_small by (unfold UINT_MAX in Hz; lia).
  unfold INT64_MIN, INT64_MAX, UINT_MAX in *. injection H as <- <-.
  destruct (z <? 2 ^ (64 - 1)) eqn:Ez; breflect; split; intros Hq; try congruence; try lia.
  injection Hq as ->. lia.
Qed.

Lemma wrap_neg z : - 2 ^ 63 <= z < 0 -> wrap 64 z = z + 2 ^ 64.
Proof. intros H. unfold wrap. rewrite <- (Z.mod_add z 1) by lia. apply Z.mod_small. lia. Qed.

Lemma as_uint_val t type x v :
  val_ok t type x -> int_fits type v -> 0 <= v <= UINT64_MAX ->
  (val_as_uint type x = v <-> x = int_val type v).
Proof.
  intros Hx (lo & hi & H & Hv) Hr. destruct type; try discriminate; cbn [val_ok int_val] in *.
  9: { injection H as <- <-. destruct Hx as [->| ->]; cbn [val_as_uint]; rewrite get_u_same;
       split; congruence. }
  all: destruct Hx as (z & -> & Hz); cbn [val_as_uint]; rewrite ?get_i_same, ?get_u_same.
  all: try (split; congruence).
  all: unfold INT_MIN, INT_MAX, UINT64_MAX in *; injection H as <- <-.
  all: destruct (Z.ltb_spec z 0); [rewrite wrap_neg by lia|rewrite wrap_small by lia].
  all: split; intros Hq; try congruence; try lia.
  all: injection Hq as ->; lia.
Qed.

(** kv_set_int and kv_set_uint are exact. On a registered key they succeed exactly
    when the key's type is an integer or a boolean that holds the value; then the getter
    of the same signedness reads the value back, no other key has changed, the entry is
    dirty if it was or if the value is new, and the change callback runs exactly when
    the value is new. When they fail nothing has changed. *)
Theorem kv_set_numbers_exact st k e v :
  kv_wf st -> find_locked st k = Some e ->
  (INT64_MIN <= v <= INT64_MAX -> set_exact kv_get_int st k e v (kv_set_int st (Some k) v)) /\
  (0 <= v <= UINT64_MAX -> set_exact kv_get_uint st k e v (kv_set_uint st (Some k) v)).
Proof.
  intros W E. split; intros Hv.
  - apply (set_num_exact _ val_as_int); [done|done|by apply int_to_val_iff| |].
    + intros s j x Ex. unfold kv_get_int. by rewrite Ex.
    + intros t x Hx Hf ->. by eapply as_int_val.
  - apply (set_num_exact _ val_as_uint); [done|done|by apply uint_to_val_iff| |].
    + intros s j x Ex. unfold kv_get_uint. by rewrite Ex.
    + intros t x Hx Hf ->. by eapply as_uint_val.
Qed.

(** ** Text *)

Lemma shown_all st k e n :
  kv_wf st -> find_locked st k = Some e -> is_float (e_type e) = false -> (KV_STR_SZ <= n)%nat ->
  kv_get_val_str true st (Some k) n = Some (val_text (k_strs st) (e_type e) (e_val e)).
Proof.
  intros W E Hf Hn. unfold kv_get_val_str, shown. destruct n as [|n]; [unfold KV_STR_SZ in Hn; lia|].
  rewrite E. cbn [mbind option_bind negb]. rewrite andb_false_r. f_equal. apply strlcpy_all.
  apply find_locked_iff in E as [He%list_elem_of_In _]; [|done].
  destruct (proj1 (List.Forall_forall _ _) (wf_entries st W) e He) as (Hv & _).
  pose proof (val_text_length _ _ _ Hv Hf). lia.
Qed.

(** what the store prints it reads back. The text of a value that is not a float,
    read with credentials visible into a buffer of KV_STR_SZ or more, sets any key of
    the same type to that very value (for a string, the same interned pointer); setting
    a key to its own text changes nothing, calls nothing and leaves it as clean as it
    was. *)
Theorem kv_text_roundtrip st k k' e e' n :
  kv_wf st -> find_locked st k = Some e -> find_locked st k' = Some e' ->
  e_type e' = e_type e -> is_float (e_type e) = false -> (KV_STR_SZ <= n)%nat ->
  exists s st' calls x, kv_get_val_str true st (Some k) n = Some s /\
    kv_set st (Some k') (Some s) = (SUCCESS, (st', calls)) /\
    find_locked st' k' = Some x /\ e_val x = e_val e /\
    (k' = k -> st' = st /\ calls = []).
Proof.
  intros W E E' Ht Hf Hn. rewrite (shown_all st k e n) by done.
  pose proof E as [He%list_elem_of_In _]%find_locked_iff; [|done].
  destruct (proj1 (List.Forall_forall _ _) (wf_entries st W) e He) as (Hv & _).
  destruct (apply_val st e' (e_val e)) as [st' calls] eqn:A. eexists _, st', calls.
  pose proof (apply_val_spec st k' e' (e_val e) st' calls W E'
    ltac:(by rewrite Ht) ltac:(by rewrite Ht) A) as (ch & _ & Ex & _).
  eexists. split_and!; [done| |exact Ex|done|].
  - unfold kv_set. rewrite E', Ht, parse_val_text by (done || apply W).
    replace (set_strs st (k_strs st)) with st by (by destruct st). by rewrite A.
  - intros ->. assert (e' = e) as -> by congruence. unfold apply_val in A.
    rewrite (proj2 (val_changed_iff _ _ _ _ (wf_strs st W) Hv Hv Hf) eq_refl) in A.
    by injection A as <- <-.
Qed.

(** ** Redaction *)

(** Two entries that differ at most in what a secret holds. *)
Definition same_but_secret (t t' : interned) (e e' : kv_entry_t) : Prop :=
  e_key e = e_key e' /\ e_type e = e_type e' /\ e_secret e = e_secret e' /\
  (e_secret e = false ->
     val_text t (e_type e) (e_val e) = val_text t' (e_type e) (e_val e')).

Definition public_eq (st st' : kv) : Prop :=
  Forall2 (Forall2 (same_but_secret (k_strs st) (k_strs st'))) (kv_table st) (kv_table st').

Lemma find_public st st' k :
  public_eq st st' ->
  option_Forall2 (same_but_secret (k_strs st) (k_strs st')) (find_locked st k) (find_locked st' k).
Proof.
  intros H. unfold find_locked, bucket.
  assert (Hb : Forall2 (same_but_secret (k_strs st) (k_strs st'))
    (nth (hash_key k) (kv_table st) []) (nth (hash_key k) (kv_table st') [])).
  { rewrite !nth_lookup.
    destruct (kv_table st !! hash_key k) as [l|] eqn:El.
    - destruct (Forall2_lookup_l _ _ _ _ _ H El) as (l' & -> & Hl). exact Hl.
    - assert (E' : kv_table st' !! hash_key k = None).
      { apply lookup_ge_None. rewrite <- (Forall2_length H). by apply lookup_ge_None. }
      rewrite E'. constructor. }
  induction Hb as [|e e' l l' He _ IH]; [constructor|]. cbn [List.find].
  rewrite <- (proj1 He). destruct (seqb (e_key e) k); [by constructor|done].
Qed.

Lemma shown_public st st' e e' n :
  same_but_secret (k_strs st) (k_strs st') e e' -> shown false st e n = shown false st' e' n.
Proof.
  intros (_ & Ht & Hs & Hv). unfold shown, val_to_str. rewrite <- Ht, <- Hs.
  destruct (e_secret e); [done|]. cbn. by rewrite Hv.
Qed.

(** C29: without the admin context the readers of text learn nothing of a secret. Two
    stores that differ only in what secret keys hold (and in where strings were
    interned) answer alike to kv_get_str, kv_get_secret, kv_get_val_str and
    kv_iterate_prefix, for every key, prefix and buffer size. *)
Theorem kv_secrets_redacted st st' :
  public_eq st st' ->
  (forall k, kv_chars st <$> kv_get_str false st k = kv_chars st' <$> kv_get_str false st' k) /\
  (forall k, kv_chars st (kv_get_secret false st k) = kv_chars st' (kv_get_secret false st' k)) /\
  (forall k n, kv_get_val_str false st k n = kv_get_val_str false st' k n) /\
  (forall p, kv_iterate_prefix false st p = kv_iterate_prefix false st' p).
Proof.
  intros H.
  assert (G : forall k, kv_chars st <$> kv_get_str false st k = kv_chars st' <$> kv_get_str false st' k).
  { intros k. unfold kv_get_str. destruct (find_public st st' k H) as [e e' (_ & Ht & Hs & Hv)|]; [|done].
    rewrite <- Ht, <- Hs. destruct (decide (e_type e = KV_STR)) as [Et|]; [|done].
    destruct (e_secret e); [done|]. cbn. specialize (Hv eq_refl). rewrite Et in Hv. cbn in Hv. by rewrite Hv. }
  split_and!; [done| | |].
  - intros k. specialize (G k). unfold kv_get_secret.
    destruct (kv_get_str false st k), (kv_get_str false st' k); try discriminate; [by injection G|done].
  - intros [k|] n; [|done]. destruct n as [|n]; [done|]. unfold kv_get_val_str.
    destruct (find_public st st' k H) as [e e' He|]; [|done]. cbn. f_equal. by apply shown_public.
  - intros [p|]; [|done]. unfold kv_iterate_prefix.
    assert (Hc : Forall2 (same_but_secret (k_strs st) (k_strs st')) (concat (kv_table st)) (concat (kv_table st'))).
    { clear -H. unfold public_eq in H. induction H as [|l l' t t' Hl _ IH]; [constructor|]. by apply Forall2_app. }
    set (P := fun e => starts_with (e_key e) p).
    assert (Hf : Forall2 (same_but_secret (k_strs st) (k_strs st'))
      (List.filter P (concat (kv_table st))) (List.filter P (concat (kv_table st')))).
    { induction Hc as [|e e' l l' He _ IH]; [constructor|]. cbn [List.filter].
      replace (P e') with (P e) by (unfold P; by rewrite (proj1 He)).
      destruct (P e); [by constructor|done]. }
    f_equal; [|by rewrite (Forall2_length Hf)].
    induction Hf as [|e e' l l' He _ IH]; [done|]. cbn [map].
    pose proof He as (Hk & Ht & _). rewrite IH, Hk, Ht. by rewrite (shown_public _ _ _ _ _ He).
Qed.

End ops.
