(* ===== verification/KvPersist.v ===== *)
(** * The configuration store: registration, the database, removal

    The second half of core/kv.c. The database is the table kv, a map from keys to
    rows; every statement takes a boolean that says whether the driver executed it
    (escaping failed, the connection is down and the text did not fit its buffer all
    count as not executed). An operation that releases kv_mutex on the way is the
    composition of its critical sections, and those are the steps [kv_cs] that threads
    interleave. *)

From S2P Require Import Prelude Util Kv.

Section kv.
Context {F : CFloat}.

Definition set_loaded (st : kv) (b : bool) : kv :=
  {| kv_table := kv_table st; kv_count := kv_count st; k_strs := k_strs st; kv_ready := kv_ready st;
     kv_loaded := b; kv_nl := kv_nl st; k_next := k_next st; k_db := k_db st |}.

Definition set_db (st : kv) (db : gmap cstr kv_row) : kv :=
  {| kv_table := kv_table st; kv_count := kv_count st; k_strs := k_strs st; kv_ready := kv_ready st;
     kv_loaded := kv_loaded st; kv_nl := kv_nl st; k_next := k_next st; k_db := db |}.

(** ** Statements *)

Definition row_of (st : kv) (e : kv_entry_t) : kv_row :=
  {| r_type := type_id (e_type e);
     r_value := val_to_str (k_strs st) (e_type e) (e_val e) KV_VAL_BUF |}.

Definition persist_entry (ok : bool) (st : kv) (e : kv_entry_t) : bool * kv :=
  if ok then (SUCCESS, set_db st (<[e_key e := row_of st e]> (k_db st))) else (FAIL, st).

Definition kv_db_lookup_one (ok : bool) (st : kv) (key : cstr) (out_sz : nat) : option (Z * cstr) :=
  if ok then (fun r => (r_type r, strlcpy out_sz (r_value r))) <$> k_db st !! key else None.

Definition kv_row_delete (ok : bool) (st : kv) (key : cstr) : kv :=
  if ok then set_db st (delete key (k_db st)) else st.

(** SQL's LIKE: a percent sign is any text, an underscore any one character, a
    backslash takes the next character as itself. *)
Fixpoint like (pat : cstr) : cstr -> bool :=
  match pat with
  | [] => fun s => match s with [] => true | _ => false end
  | c :: pat' =>
      if ceqb c "%" then
        fix any (s : cstr) : bool :=
          like pat' s || match s with [] => false | _ :: s' => any s' end
      else if ceqb c "_" then fun s => match s with [] => false | _ :: s' => like pat' s' end
      else if ceqb c "\" then
        fun s => match pat', s with
                 | d :: pat'', x :: s' => ceqb d x && like pat'' s'
                 | _, _ => false
                 end
      else fun s => match s with [] => false | x :: s' => ceqb c x && like pat' s' end
  end.

(** [DELETE FROM kv WHERE key LIKE 'prefix%']. *)
Definition rows_delete_like (ok : bool) (st : kv) (prefix : cstr) : kv :=
  if ok then set_db st (filter (fun kr => like (prefix ++ lit "%") kr.1 = false) (k_db st)) else st.

(** ** Registration *)

Definition reg_differs (t : interned) (e : kv_entry_t) (type : kv_type_t) (def : kv_val_t)
    (cb : option Z) (cb_data : Z) (help : option nat) : option cstr :=
  if negb (bool_decide (e_type e = type)) then Some (lit "type")
  else if val_changed t type (e_def e) def then Some (lit "default")
  else if negb (bool_decide (e_cb e = cb) && bool_decide (e_cb_data e = cb_data)) then Some (lit "callback")
  else if negb (bool_decide (e_help e = help)) then Some (lit "help text")
  else None.

(** What registration answers before it looks at the database: refused for its
    arguments, refused because the key stands (with what differs, for the log), or the
    entry is in the table. *)
Inductive reg_result := RegInvalid | RegStands (differs : option cstr) | RegInserted.

Record kv_decl := {
  d_key : option cstr;
  d_type : kv_type_t;
  d_default : option cstr;
  d_cb : option Z;
  d_cb_data : Z;
  d_help : option cstr;
  d_owner_pc : Z
}.

Definition new_entry (st : kv) (d : kv_decl) (key : cstr) (v : kv_val_t) (help : option nat) : kv_entry_t :=
  {| e_at := k_next st;
     e_key := strlcpy KV_KEY_SZ key;
     e_type := d_type d;
     e_val := v;
     e_def := v;
     e_cb := d_cb d;
     e_cb_data := d_cb_data d;
     e_check := None;
     e_check_data := 0;
     e_help := help;
     e_owner_pc := d_owner_pc d;
     e_dirty := true;
     e_secret := kv_is_secret_key (Some key) |}.

Definition link_entry (st : kv) (b : nat) (e : kv_entry_t) : kv :=
  {| kv_table := <[b := e :: nth b (kv_table st) []]> (kv_table st);
     kv_count := wrap 32 (kv_count st + 1);
     k_strs := k_strs st; kv_ready := kv_ready st; kv_loaded := kv_loaded st; kv_nl := kv_nl st;
     k_next := S (k_next st); k_db := k_db st |}.

Definition kv_register_insert (st : kv) (d : kv_decl) : reg_result * kv :=
  match d_key d, d_default d with
  | Some key, Some default_val =>
      let '(v, strs) := str_to_val (k_strs st) (d_type d) default_val in
      let st := set_strs st strs in
      match v with
      | None => (RegInvalid, st)
      | Some v =>
          let '(help, strs) := match d_help d with
                               | Some h => let '(p, t) := intern_help strs h in (Some p, t)
                               | None => (None, strs)
                               end in
          let st := set_strs st strs in
          match find_locked st key with
          | Some e => (RegStands (reg_differs strs e (d_type d) v (d_cb d) (d_cb_data d) help), st)
          | None => (RegInserted, link_entry st (hash_key key) (new_entry st d key v help))
          end
      end
  | _, _ => (RegInvalid, st)
  end.

(** The critical section after the row was read with the lock released. *)
Definition kv_register_rehydrate (st : kv) (key : cstr) (type : kv_type_t) (row : option (Z * cstr)) : kv :=
  match row with
  | None => st
  | Some (db_type, db_str) =>
      match find_locked st key with
      | None => st
      | Some e =>
          if db_type =? type_id type then
            let '(v, strs) := str_to_val (k_strs st) type db_str in
            let st := set_strs st strs in
            match v with
            | Some db_val => upd_at st (e_at e) (with_val db_val false)
            | None => upd_at st (e_at e) (with_dirty false)
            end
          else upd_at st (e_at e) (with_dirty false)
      end
  end.

(** The whole call; [ok] is whether the look-up executes. *)
Definition kv_register_owned (ok : bool) (st : kv) (d : kv_decl) : bool * kv :=
  match kv_register_insert st d with
  | (RegInserted, st) =>
      match d_key d with
      | Some key =>
          if kv_loaded st then
            (SUCCESS, kv_register_rehydrate st key (d_type d) (kv_db_lookup_one ok st key KV_STR_SZ))
          else (SUCCESS, st)
      | None => (SUCCESS, st)
      end
  | (_, st) => (FAIL, st)
  end.

(** ** Removal *)

Definition unlink (st : kv) (t : list (list kv_entry_t)) (removed : nat) : kv :=
  set_count (set_table st t) (wrap 32 (kv_count st - Z.of_nat removed)).

Fixpoint remove_first (key : cstr) (l : list kv_entry_t) : option (list kv_entry_t) :=
  match l with
  | [] => None
  | e :: l' => if seqb (e_key e) key then Some l' else cons e <$> remove_first key l'
  end.

(** Unlink and free the entry of a key; the boolean is [found]. *)
Definition drop_entry (st : kv) (key : cstr) : bool * kv :=
  let b := hash_key key in
  match remove_first key (bucket st b) with
  | Some l => (true, unlink st (<[b := l]> (kv_table st)) 1)
  | None => (false, st)
  end.

Definition kv_delete (ok : bool) (st : kv) (key : option cstr) : bool * kv :=
  match present key with
  | None => (false, st)
  | Some key => let '(found, st) := drop_entry st key in (found, kv_row_delete ok st key)
  end.

Definition kv_unregister (st : kv) (key : option cstr) : bool * kv :=
  match present key with
  | None => (FAIL, st)
  | Some key =>
      let '(found, st) := drop_entry st key in
      if found then (SUCCESS, (kv_nl_unregister_locked_key st key).1) else (FAIL, st)
  end.

(** The entries [P] holds of leave the table; how many. *)
Definition drop_where (P : kv_entry_t -> bool) (st : kv) : nat * kv :=
  let n := length (List.filter P (entries st)) in
  (n, unlink st (map (List.filter (fun e => negb (P e))) (kv_table st)) n).

Definition kv_delete_prefix (ok : bool) (st : kv) (prefix : option cstr) : Z * kv :=
  match present prefix with
  | None => (0, st)
  | Some prefix =>
      let '(n, st) := drop_where (fun e => starts_with (e_key e) prefix) st in
      let deleted := wrap 32 (Z.of_nat n) in
      (deleted, if 0 <? deleted then rows_delete_like ok st prefix else st)
  end.

(** The critical section of kv_reset, with the key whose row goes next. *)
Definition kv_reset_locked (st : kv) (key : cstr) : option (cstr * kv * list kv_call) :=
  e ← find_locked st key;
  let changed := val_changed (k_strs st) (e_type e) (e_val e) (e_def e) in
  let st := upd_at st (e_at e) (with_val (if changed then e_def e else e_val e) false) in
  Some (strlcpy KV_KEY_SZ (e_key e), st, call changed e).

Definition kv_reset (ok : bool) (st : kv) (key : option cstr) : bool * (kv * list kv_call) :=
  match present key with
  | None => (false, (st, []))
  | Some key =>
      match kv_reset_locked st key with
      | None => (false, (st, []))
      | Some (k, st, calls) => (true, (kv_row_delete ok st k, calls))
      end
  end.

Definition owned (lo hi : Z) (e : kv_entry_t) : bool := (lo <=? e_owner_pc e) && (e_owner_pc e <? hi).

(** The doomed entries, last unlinked first; [oks] answers statement by statement. *)
Fixpoint persist_doomed (oks : nat -> bool) (st : kv) (doomed : list kv_entry_t) : kv :=
  match doomed with
  | [] => st
  | e :: l =>
      if e_dirty e then persist_doomed (fun n => oks (S n)) (persist_entry (oks O) st e).2 l
      else persist_doomed oks st l
  end.

Definition nl_reclaim (lo hi : Z) (st : kv) : kv :=
  set_nl st (List.filter (fun r => negb ((lo <=? nl_ptr r) && (nl_ptr r <? hi))) (kv_nl st)).

Definition kv_reclaim_owned (oks : nat -> bool) (st : kv) (lo hi : Z) : Z * kv :=
  if hi <=? lo then (0, st) else
  let doomed := rev (List.filter (owned lo hi) (entries st)) in
  let '(n, st) := drop_where (owned lo hi) st in
  (wrap 32 (Z.of_nat n), nl_reclaim lo hi (persist_doomed oks st doomed)).

(** ** Loading *)

(** [e] is what the look-up found under the key; the boolean is whether it was loaded. *)
Definition load_apply_row (st : kv) (e : kv_entry_t) (row : kv_row) : bool * (kv * list kv_call) :=
  if negb (r_type row =? type_id (e_type e)) then
    (false, (upd_at st (e_at e) (with_dirty false), []))
  else
    let '(v, strs) := str_to_val (k_strs st) (e_type e) (r_value row) in
    let st := set_strs st strs in
    match v with
    | None => (false, (upd_at st (e_at e) (with_dirty false), []))
    | Some new_val =>
        let changed := val_changed strs (e_type e) (e_val e) new_val in
        (true, (upd_at st (e_at e) (with_val (if changed then new_val else e_val e) false), call changed e))
    end.

Definition load_row (st : kv) (kr : cstr * kv_row) : kv * list kv_call :=
  match find_locked st kr.1 with
  | None => (st, [])
  | Some e => (load_apply_row st e kr.2).2
  end.

Fixpoint load_rows (st : kv) (rows : list (cstr * kv_row)) : kv * list kv_call :=
  match rows with
  | [] => (st, [])
  | kr :: rows =>
      let '(st, c) := load_row st kr in
      let '(st, c') := load_rows st rows in (st, c ++ c')
  end.

(** [rows] is what the driver answered to the SELECT, None if it or the CREATE failed. *)
Definition kv_load (st : kv) (rows : option (list (cstr * kv_row))) : bool * (kv * list kv_call) :=
  match rows with
  | None => (FAIL, (st, []))
  | Some rows => let '(st, calls) := load_rows st rows in (SUCCESS, (set_loaded st true, calls))
  end.

Definition kv_iterate_orphans (st : kv) (rows : list (cstr * kv_row)) : list (cstr * kv_row) :=
  List.filter (fun kr => negb (kv_exists st kr.1)) rows.

Definition type_of_id (z : Z) : option kv_type_t :=
  List.find (fun t => type_id t =? z)
    [KV_INT8; KV_UINT8; KV_INT16; KV_UINT16; KV_INT32; KV_UINT32; KV_INT64; KV_UINT64;
     KV_FLOAT; KV_DOUBLE; KV_LDOUBLE; KV_STR; KV_BOOL].

(** [pc] is the return address that kv_register records for this caller. *)
Fixpoint kv_claim_orphans (oks : nat -> bool) (pc : Z) (st : kv) (rows : list (cstr * kv_row)) : Z * kv :=
  match rows with
  | [] => (0, st)
  | (key, row) :: rows =>
      match type_of_id (r_type row) with
      | None => kv_claim_orphans oks pc st rows
      | Some type =>
          if kv_exists st key then kv_claim_orphans oks pc st rows
          else
            let '(rc, st) := kv_register_owned (oks O) st
              {| d_key := Some key; d_type := type; d_default := Some (r_value row);
                 d_cb := None; d_cb_data := 0; d_help := None; d_owner_pc := pc |} in
            let '(n, st) := kv_claim_orphans (fun n => oks (S n)) pc st rows in
            (if rc then n else wrap 32 (1 + n), st)
      end
  end.

(** ** Flushing *)

(** Where a thread is inside kv_flush: about to take the lock, outside it about to
    persist the entry it points at, about to take the lock again after success or
    failure, or returned. [FFault] is a read through a pointer to freed memory. *)
Inductive flush_pc :=
  | FStart
  | FPersist (a : nat) (failed : Z)
  | FClear (a : nat) (failed : Z)
  | FSkip (a : nat) (failed : Z)
  | FDone (rc : bool)
  | FFault.

(** The walk under the lock over what follows, up to the next dirty entry. *)
Definition flush_walk (rest : list kv_entry_t) (failed : Z) : flush_pc :=
  match List.find e_dirty rest with
  | Some e => FPersist (e_at e) failed
  | None => FDone (negb (failed =? 0))
  end.

(** What follows the entry at [a] in the table, chain after chain. *)
Fixpoint after (a : nat) (es : list kv_entry_t) : option (list kv_entry_t) :=
  match es with
  | [] => None
  | e :: es' => if Nat.eqb (e_at e) a then Some es' else after a es'
  end.

Definition entry_at (st : kv) (a : nat) : option kv_entry_t :=
  List.find (fun e => Nat.eqb (e_at e) a) (entries st).

Definition flush_step (ok : bool) (pc : flush_pc) (st : kv) : flush_pc * kv :=
  match pc with
  | FStart => (if kv_loaded st then flush_walk (entries st) 0 else FDone SUCCESS, st)
  | FPersist a failed =>
      match entry_at st a with
      | None => (FFault, st)
      | Some e =>
          match persist_entry ok st e with
          | (SUCCESS, st) => (FClear a failed, st)
          | (FAIL, st) => (FSkip a (wrap 32 (failed + 1)), st)
          end
      end
  | FClear a failed =>
      match after a (entries st) with
      | None => (FFault, st)
      | Some rest => (flush_walk rest failed, upd_at st a (with_dirty false))
      end
  | FSkip a failed =>
      match after a (entries st) with
      | None => (FFault, st)
      | Some rest => (flush_walk rest failed, st)
      end
  | FDone _ | FFault => (pc, st)
  end.

Fixpoint flush_run (oks : nat -> bool) (fuel : nat) (pc : flush_pc) (st : kv) : flush_pc * kv :=
  match fuel with
  | O => (pc, st)
  | S fuel => let '(pc, st) := flush_step (oks O) pc st in flush_run (fun n => oks (S n)) fuel pc st
  end.

(** The call, with no other thread in between: two steps an entry and the first. *)
Definition kv_flush (oks : nat -> bool) (st : kv) : flush_pc * kv :=
  flush_run oks (S (2 * length (entries st))) FStart st.

(** ** Start and end *)

Definition empty_table {A} (n : nat) : list (list A) := replicate n [].

Definition no_strs (count : Z) (next : nat) : interned :=
  {| kv_intern_table := empty_table 128; kv_intern_count := count; i_next := next |}.

(** The statics of a process that starts, over a database. *)
Definition kv_zero (db : gmap cstr kv_row) : kv :=
  {| kv_table := empty_table 64; kv_count := 0; k_strs := no_strs 0 1; kv_ready := false;
     kv_loaded := false; kv_nl := []; k_next := 0; k_db := db |}.

Definition kv_init (st : kv) : kv :=
  {| kv_table := empty_table 64; kv_count := 0; k_strs := k_strs st; kv_ready := true;
     kv_loaded := kv_loaded st; kv_nl := kv_nl st; k_next := k_next st; k_db := k_db st |}.

Definition kv_exit (oks : nat -> bool) (st : kv) : kv :=
  if kv_ready st then
    let st := (kv_flush oks st).2 in
    {| kv_table := empty_table 64; kv_count := 0; k_strs := no_strs 0 (i_next (k_strs st)); kv_ready := false;
       kv_loaded := kv_loaded st; kv_nl := []; k_next := k_next st; k_db := k_db st |}
  else st.

(** ** Interleaving *)

(** What a thread does to the store between taking a lock and releasing it, and the
    statements it runs with the lock released. *)
Inductive kv_cs :=
  | CsInsert (d : kv_decl)
  | CsRehydrate (key : cstr) (type : kv_type_t) (row : option (Z * cstr))
  | CsSet (key val : option cstr)
  | CsSetInt (key : option cstr) (val : Z)
  | CsSetUint (key : option cstr) (val : Z)
  | CsSetFloat (key : option cstr) (val : cldouble)
  | CsMarkSecret (key : cstr)
  | CsSetCb (key : option cstr) (cb : option Z) (data : Z)
  | CsSetCheck (key : option cstr) (check : option Z) (data : Z)
  | CsNl (key : option cstr) (nl : Z)
  | CsNlDrop (key : cstr)
  | CsNlReclaim (lo hi : Z)
  | CsDrop (key : cstr)
  | CsDropPrefix (prefix : cstr)
  | CsDropOwned (lo hi : Z)
  | CsReset (key : cstr)
  | CsLoadRow (kr : cstr * kv_row)
  | CsLoaded
  | CsClean (a : nat)
  | CsWriteRow (e : kv_entry_t)
  | CsDeleteRow (key : cstr)
  | CsDeleteRows (prefix : cstr).

Definition cs_run (st : kv) (c : kv_cs) : kv :=
  match c with
  | CsInsert d => (kv_register_insert st d).2
  | CsRehydrate key type row => kv_register_rehydrate st key type row
  | CsSet key val => (kv_set st key val).2.1
  | CsSetInt key val => (kv_set_int st key val).2.1
  | CsSetUint key val => (kv_set_uint st key val).2.1
  | CsSetFloat key val => (kv_set_float st key val).2.1
  | CsMarkSecret key =>
      match find_locked st key with Some e => upd_at st (e_at e) (with_secret true) | None => st end
  | CsSetCb key cb data => (kv_set_cb st key cb data).2
  | CsSetCheck key check data => (kv_set_check st key check data).2
  | CsNl key nl => (kv_register_nl st key nl).2
  | CsNlDrop key => (kv_nl_unregister_locked_key st key).1
  | CsNlReclaim lo hi => nl_reclaim lo hi st
  | CsDrop key => (drop_entry st key).2
  | CsDropPrefix prefix => (drop_where (fun e => starts_with (e_key e) prefix) st).2
  | CsDropOwned lo hi => (drop_where (owned lo hi) st).2
  | CsReset key => match kv_reset_locked st key with Some (_, st', _) => st' | None => st end
  | CsLoadRow kr => (load_row st kr).1
  | CsLoaded => set_loaded st true
  | CsClean a => upd_at st a (with_dirty false)
  | CsWriteRow e => (persist_entry true st e).2
  | CsDeleteRow key => kv_row_delete true st key
  | CsDeleteRows prefix => rows_delete_like true st prefix
  end.

Definition cs_runs (st : kv) (cs : list kv_cs) : kv := fold_left cs_run cs st.

End kv.

(** ** Every critical section keeps the store well formed *)

Section invariant.
Context {F : CFloat}.

(** What the callers of a critical section owe it: keys that fit the entry's field,
    arguments of the C types, and, when registration takes the lock a second time, a
    key that is still of the type it was registered with. *)
Definition cs_ok (st : kv) (c : kv_cs) : Prop :=
  match c with
  | CsInsert d => forall key, d_key d = Some key -> (length key < KV_KEY_SZ)%nat
  | CsRehydrate key type _ => forall e, find_locked st key = Some e -> e_type e = type
  | CsSetInt _ val => INT64_MIN <= val <= INT64_MAX
  | CsSetUint _ val => 0 <= val <= UINT64_MAX
  | _ => True
  end.

Fixpoint cs_oks (st : kv) (cs : list kv_cs) : Prop :=
  match cs with
  | [] => True
  | c :: cs => cs_ok st c /\ cs_oks (cs_run st c) cs
  end.

(** A step keeps the store well formed and every string where it is. *)
Definition step_ok (st st' : kv) : Prop := kv_wf st' /\ extends (k_strs st) (k_strs st').

Lemma step_ok_refl st : kv_wf st -> step_ok st st.
Proof. by split. Qed.

Lemma step_ok_trans st1 st2 st3 : step_ok st1 st2 -> step_ok st2 st3 -> step_ok st1 st3.
Proof. intros [_ H1] [H2 H3]. split; [done|by etransitivity]. Qed.

Lemma step_set_strs st t : kv_wf st -> strs_wf t -> extends (k_strs st) t -> step_ok st (set_strs st t).
Proof. intros W Wt Hx. split; [by apply set_strs_wf|done]. Qed.

Lemma step_upd_at st a f :
  kv_wf st -> in_place f ->
  (forall e, e ∈ entries st -> e_at e = a -> entry_ok (k_strs st) e -> entry_ok (k_strs st) (f e)) ->
  step_ok st (upd_at st a f).
Proof. intros W Hf Hok. split; [by apply upd_at_wf|by cbn]. Qed.

Lemma step_dirty st a b : kv_wf st -> step_ok st (upd_at st a (with_dirty b)).
Proof.
  intros W. apply step_upd_at; [done|apply in_place_dirty|]. intros e _ _ Hok.
  apply with_val_ok; [done|]. apply Hok.
Qed.

Lemma step_val st e v b :
  kv_wf st -> e ∈ entries st -> val_ok (k_strs st) (e_type e) v -> step_ok st (upd_at st (e_at e) (with_val v b)).
Proof.
  intros W He Hv. apply step_upd_at; [done|apply in_place_val|]. intros e' He' Ha Hok.
  apply with_val_ok; [done|]. by rewrite (entry_at_unique st e' e W He' He Ha).
Qed.

Lemma found st key e : kv_wf st -> find_locked st key = Some e -> e ∈ entries st.
Proof. intros W E. by apply find_locked_iff in E as [He _]. Qed.

Lemma step_apply_val st key e v :
  kv_wf st -> find_locked st key = Some e -> val_ok (k_strs st) (e_type e) v -> step_ok st (apply_val st e v).1.
Proof.
  intros W E Hv. apply found in E; [|done]. unfold apply_val. cbn [fst].
  destruct (val_changed _ _ _ _); [by apply step_val|by apply step_ok_refl].
Qed.

Lemma found_set_strs st t key : find_locked (set_strs st t) key = find_locked st key.
Proof. done. Qed.

(** Parsing, with the intern table put back. *)
Lemma step_parse st type str v t :
  kv_wf st -> str_to_val (k_strs st) type str = (v, t) ->
  step_ok st (set_strs st t) /\ forall x, v = Some x -> val_ok t type x.
Proof.
  intros W E. apply str_to_val_ok in E as (H1 & H2 & H3); [|apply W].
  split; [by apply step_set_strs|done].
Qed.

Lemma kv_set_step st key val : kv_wf st -> step_ok st (kv_set st key val).2.1.
Proof.
  intros W. unfold kv_set. destruct key as [key|], val as [val|]; try by apply step_ok_refl.
  destruct (find_locked st key) as [e|] eqn:E; [|by apply step_ok_refl].
  destruct (str_to_val _ _ _) as [v t] eqn:P.
  destruct (step_parse _ _ _ _ _ W P) as [S1 Hv].
  destruct v as [v|]; [|done]. eapply step_ok_trans; [exact S1|].
  eapply step_apply_val; [apply S1|exact E|by apply Hv].
Qed.

Lemma set_num_step st key to_val :
  kv_wf st -> (forall type v, to_val type = Some v -> val_ok (k_strs st) type v) ->
  step_ok st (set_num st key to_val).2.1.
Proof.
  intros W H. unfold set_num. destruct key as [key|]; [|by apply step_ok_refl].
  destruct (find_locked st key) as [e|] eqn:E; [|by apply step_ok_refl].
  destruct (to_val (e_type e)) as [v|] eqn:V; [|by apply step_ok_refl].
  eapply step_apply_val; [done|exact E|by apply H].
Qed.

Lemma switch_ok_val t type val r v : switch_ok type val r -> r = Some v -> val_ok t type v.
Proof. intros [[Hf ->]|[_ ->]] [= <-]. by apply int_fits_ok. Qed.

Lemma float_to_val_ok t type val v : float_to_val type val = Some v -> val_ok t type v.
Proof. destruct type; cbn; intros [= <-]; by eexists. Qed.

(** Entries that leave. *)
Lemma unlink_step st t gone :
  kv_wf st -> chained (fun e => hash_key (e_key e)) 64 t ->
  entries st ≡ₚ gone ++ concat t -> step_ok st (unlink st t (length gone)).
Proof.
  intros W Hc Hp. split; [|by cbn]. constructor; try apply W; [done|..]; cbn; unfold entries; cbn.
  - pose proof (wf_keys st W) as H. rewrite Hp, fmap_app in H. by apply list.NoDup_app in H as (_ & _ & H).
  - pose proof (wf_ats st W) as H. rewrite Hp, fmap_app in H. by apply list.NoDup_app in H as (_ & _ & H).
  - pose proof (wf_next st W) as H. rewrite Hp in H. by apply list.Forall_app in H as [_ H].
  - rewrite (wf_count st W), Hp, length_app. unfold wrap. rewrite Zminus_mod_idemp_l. f_equal. lia.
  - pose proof (wf_entries st W) as H. rewrite Hp in H. by apply list.Forall_app in H as [_ H].
Qed.

Lemma filter_split {A} (P : A -> bool) l :
  l ≡ₚ List.filter P l ++ List.filter (fun x => negb (P x)) l.
Proof.
  induction l as [|x l IH]; [done|]. cbn [List.filter].
  destruct (P x); cbn [negb app]; rewrite IH at 1; [done|]. by rewrite Permutation_middle.
Qed.

Lemma drop_where_step st P : kv_wf st -> step_ok st (drop_where P st).2.
Proof.
  intros W. apply unlink_step; [done|by apply chained_filter, W|].
  rewrite concat_map_filter. apply filter_split.
Qed.

Lemma remove_first_split key l l' :
  remove_first key l = Some l' -> exists l1 e l2, l = l1 ++ e :: l2 /\ l' = l1 ++ l2 /\ e_key e = key.
Proof.
  revert l'. induction l as [|e l IH]; intros l' H; [done|]. cbn [remove_first] in H.
  destruct (seqb (e_key e) key) eqn:E.
  - injection H as <-. apply seqb_true in E. by exists [], e, l.
  - apply fmap_Some in H as (r & Hr & ->). destruct (IH r Hr) as (l1 & x & l2 & -> & -> & Hx).
    by exists (e :: l1), x, l2.
Qed.

Lemma drop_entry_step st key : kv_wf st -> step_ok st (drop_entry st key).2.
Proof.
  intros W. unfold drop_entry, bucket.
  destruct (remove_first _ _) as [l|] eqn:E; [|by apply step_ok_refl].
  apply remove_first_split in E as (l1 & e & l2 & Hb & -> & _).
  assert (Hl : kv_table st !! hash_key key = Some (l1 ++ e :: l2)).
  { rewrite nth_lookup in Hb. destruct (kv_table st !! hash_key key) as [l|]; [by cbn in Hb; subst|].
    by destruct l1. }
  destruct (wf_chained st W) as [Hn Hc].
  apply (unlink_step st _ [e]); [done| |].
  - split; [by rewrite length_insert|]. intros b l x Hx Hin.
    apply list_lookup_insert_Some in Hx as [(<- & <- & _)|[_ Hx]]; [|by eauto].
    apply (Hc _ _ _ Hl). apply elem_of_app in Hin. rewrite elem_of_app, elem_of_cons. tauto.
  - destruct (concat_insert (kv_table st) _ _ (l1 ++ l2) Hl) as (t1 & t2 & Ht & ->).
    unfold entries. rewrite Ht. solve_Permutation.
Qed.

(** The entry a registration links in. *)
Lemma link_step st d key v help :
  kv_wf st -> find_locked st key = None -> (length key < KV_KEY_SZ)%nat ->
  val_ok (k_strs st) (d_type d) v -> ptr_ok (k_strs st) help ->
  step_ok st (link_entry st (hash_key key) (new_entry st d key v help)).
Proof.
  intros W N Hk Hv Hp. apply find_locked_none in N; [|done].
  assert (Hs : strlcpy KV_KEY_SZ key = key) by (by apply strlcpy_all).
  set (e := new_entry st d key v help). assert (Hke : e_key e = key) by done.
  pose proof (concat_cons (fun e => hash_key (e_key e)) 64 (kv_table st) e
    (proj1 (wf_chained st W)) (hash_key_lt _)) as P. cbn beta in P. rewrite Hke in P.
  split; [|by cbn]. constructor; try apply W; cbn; unfold entries; cbn; try rewrite P.
  - pose proof (chained_cons (fun e => hash_key (e_key e)) 64 _ e (wf_chained st W)) as H.
    cbn beta in H. rewrite Hke in H. apply H, hash_key_lt.
  - rewrite fmap_cons, Hke. apply list.NoDup_cons. split; [done|apply W].
  - rewrite fmap_cons. apply list.NoDup_cons. split; [|apply W]. intros (x & Hx & Hin)%list_elem_of_fmap.
    pose proof (proj1 (List.Forall_forall _ _) (wf_next st W) x ltac:(by apply list_elem_of_In)) as Hl.
    change (e_at e) with (k_next st) in Hx. cbn in Hl. lia.
  - constructor; [cbn; lia|]. refine (List.Forall_impl _ _ (wf_next st W)). intros x Hx. cbn in *. lia.
  - cbn [length]. rewrite (wf_count st W), wrap_add. f_equal. unfold entries. lia.
  - constructor; [|apply W]. split_and!; cbn [e e_type e_val e_def e_help new_entry]; try done.
    + by rewrite Hke.
    + by rewrite Hke.
Qed.

Lemma intern_help_ok st h p t :
  kv_wf st -> intern_help (k_strs st) h = (p, t) -> step_ok st (set_strs st t) /\ ptr_ok t (Some p).
Proof.
  intros W E. apply intern_bytes_ok in E as (H1 & H2 & H3); [|apply W].
  split; [by apply step_set_strs|by eexists].
Qed.

Lemma register_insert_step st d :
  kv_wf st -> (forall key, d_key d = Some key -> (length key < KV_KEY_SZ)%nat) ->
  step_ok st (kv_register_insert st d).2.
Proof.
  intros W Hk. unfold kv_register_insert.
  destruct (d_key d) as [key|] eqn:K, (d_default d) as [def|]; try by apply step_ok_refl.
  destruct (str_to_val _ _ _) as [v t] eqn:P. destruct (step_parse _ _ _ _ _ W P) as [S1 Hv].
  destruct v as [v|]; [|done]. specialize (Hv v eq_refl).
  set (h := match d_help d with Some _ => _ | None => _ end).
  assert (Hh : step_ok (set_strs st t) (set_strs st h.2) /\ ptr_ok h.2 h.1).
  { unfold h. destruct (d_help d) as [x|]; [|split; [by apply step_ok_refl, S1|done]].
    destruct (intern_help t x) as [p t2] eqn:I. by apply (intern_help_ok (set_strs st t)) in I; [|apply S1]. }
  destruct h as [help t2]. destruct Hh as [S2 Hp]. cbn [fst snd] in *.
  change (set_strs (set_strs st t) t2) with (set_strs st t2).
  assert (S3 : step_ok st (set_strs st t2)) by (by eapply step_ok_trans).
  destruct (find_locked (set_strs st t2) key) as [e|] eqn:E; [done|].
  eapply step_ok_trans; [exact S3|]. apply link_step; [apply S3|done|by apply Hk| |done].
  eapply val_ok_extends; [apply S2|exact Hv].
Qed.

Lemma rehydrate_step st key type row :
  kv_wf st -> (forall e, find_locked st key = Some e -> e_type e = type) ->
  step_ok st (kv_register_rehydrate st key type row).
Proof.
  intros W Ht. unfold kv_register_rehydrate. destruct row as [[db_type db_str]|]; [|by apply step_ok_refl].
  destruct (find_locked st key) as [e|] eqn:E; [|by apply step_ok_refl].
  destruct (_ =? _); [|by apply step_dirty]. rewrite <- (Ht e eq_refl).
  destruct (str_to_val _ _ _) as [v t] eqn:P. destruct (step_parse _ _ _ _ _ W P) as [S1 Hv].
  eapply step_ok_trans; [exact S1|]. apply found in E; [|done].
  destruct v as [v|]; [|by apply step_dirty, S1]. by apply step_val; [apply S1| |apply Hv].
Qed.

Lemma load_row_step st kr : kv_wf st -> step_ok st (load_row st kr).1.
Proof.
  intros W. unfold load_row. destruct (find_locked st kr.1) as [e|] eqn:E; [|by apply step_ok_refl].
  apply found in E; [|done]. unfold load_apply_row.
  destruct (negb _); [by apply step_dirty|].
  destruct (str_to_val _ _ _) as [v t] eqn:P. destruct (step_parse _ _ _ _ _ W P) as [S1 Hv].
  eapply step_ok_trans; [exact S1|]. destruct v as [v|]; [|by apply step_dirty, S1]. cbn [fst snd].
  apply step_val; [apply S1|done|]. destruct (val_changed _ _ _ _); [by apply Hv|].
  apply val_ok_extends with (t := k_strs st); [apply S1|].
  by apply (proj1 (List.Forall_forall _ _) (wf_entries st W) e), list_elem_of_In.
Qed.

Lemma reset_step st key :
  kv_wf st -> step_ok st (match kv_reset_locked st key with Some (_, st', _) => st' | None => st end).
Proof.
  intros W. unfold kv_reset_locked. destruct (find_locked st key) as [e|] eqn:E; [|by apply step_ok_refl].
  cbn. apply found in E; [|done].
  destruct (proj1 (List.Forall_forall _ _) (wf_entries st W) e) as (Hv & Hd & _); [by apply list_elem_of_In|].
  apply step_val; [done|done|]. by destruct (val_changed _ _ _ _).
Qed.

Lemma step_other st st' :
  kv_wf st -> kv_table st' = kv_table st -> kv_count st' = kv_count st -> k_strs st' = k_strs st ->
  k_next st' = k_next st -> step_ok st st'.
Proof.
  intros W H1 H2 H3 H4. split; [|by rewrite H3].
  assert (He : entries st' = entries st) by (unfold entries; by rewrite H1).
  destruct W. constructor; by rewrite ?He, ?H1, ?H2, ?H3, ?H4.
Qed.

Lemma cs_step st c : kv_wf st -> cs_ok st c -> step_ok st (cs_run st c).
Proof.
  intros W Hc. destruct c; cbn [cs_run cs_ok] in *;
    try (by apply step_other); try by apply step_dirty.
  - by apply register_insert_step.
  - by apply rehydrate_step.
  - by apply kv_set_step.
  - apply set_num_step; [done|]. intros type v. by apply switch_ok_val with (val := val), int_to_val_iff.
  - apply set_num_step; [done|]. intros type v. by apply switch_ok_val with (val := val), uint_to_val_iff.
  - apply set_num_step; [done|]. intros type v. apply float_to_val_ok.
  - destruct (find_locked st key) as [e|]; [|by apply step_ok_refl].
    apply step_upd_at; [done|apply in_place_secret|]. by intros e' _ _ (H1 & H2 & H3 & H4 & H5).
  - unfold kv_set_cb. destruct key as [key|]; [|by apply step_ok_refl].
    destruct (find_locked st key) as [e|]; [|by apply step_ok_refl].
    apply step_upd_at; [done|apply in_place_cb|]. by intros e' _ _ H.
  - unfold kv_set_check. destruct key as [key|]; [|by apply step_ok_refl].
    destruct (find_locked st key) as [e|]; [|by apply step_ok_refl].
    apply step_upd_at; [done|apply in_place_check|]. by intros e' _ _ H.
  - unfold kv_register_nl. repeat case_match; by apply step_other.
  - unfold kv_nl_unregister_locked_key. destruct (nl_remove _ _). by apply step_other.
  - by apply drop_entry_step.
  - by apply drop_where_step.
  - by apply drop_where_step.
  - by apply reset_step.
  - by apply load_row_step.
Qed.

Lemma cs_steps cs st : kv_wf st -> cs_oks st cs -> step_ok st (cs_runs st cs).
Proof.
  revert st. induction cs as [|c cs IH]; intros st W H; [by apply step_ok_refl|]. destruct H as [Hc H].
  pose proof (cs_step st c W Hc) as S1. eapply step_ok_trans; [exact S1|]. apply IH; [apply S1|done].
Qed.

Lemma chained_empty {A} (hash : A -> nat) n : chained hash n (empty_table n).
Proof.
  split; [apply length_replicate|]. intros b l x [-> _]%lookup_replicate H. by apply not_elem_of_nil in H.
Qed.

Lemma concat_empty {A} n : concat (empty_table n : list (list A)) = [].
Proof. unfold empty_table. induction n as [|n IH]; [done|]. exact IH. Qed.

Lemma kv_zero_wf db : kv_wf (kv_init (kv_zero db)).
Proof.
  assert (E : entries (kv_init (kv_zero db)) = []) by apply (concat_empty 64).
  assert (E' : concat (kv_intern_table (k_strs (kv_init (kv_zero db)))) = []) by apply (concat_empty 128).
  constructor; rewrite ?E; try (by constructor); [apply (chained_empty _ 64)|].
  unfold strs_wf. rewrite !E'. split_and!; try (by constructor). apply (chained_empty _ 128).
Qed.


(** a string read from the store lasts. In any reachable store, the pointer
    kv_get_str returns points at text, and after any further interleaving, sets,
    removals and unloads included, it points at the same text. *)
Theorem kv_str_immortal db cs cs' admin key p :
  let st := cs_runs (kv_init (kv_zero db)) cs in
  cs_oks (kv_init (kv_zero db)) cs -> cs_oks st cs' -> kv_get_str admin st key = Some (PInterned p) ->
  exists s, str_at (k_strs st) p = Some s /\ str_at (k_strs (cs_runs st cs')) p = Some s.
Proof.
  intros st H H' G.
  assert (W : kv_wf st) by (apply cs_steps; [apply kv_zero_wf|done]).
  unfold kv_get_str in G. destruct (find_locked st key) as [e|] eqn:E; [|done].
  destruct (decide (e_type e = KV_STR)) as [Ht|]; [|done].
  destruct (e_secret e && negb admin); [done|]. injection G as <-.
  apply found in E; [|done].
  destruct (proj1 (List.Forall_forall _ _) (wf_entries st W) e) as (Hv & _); [by apply list_elem_of_In|].
  rewrite Ht in Hv. destruct Hv as (p & s & -> & Hs & _). exists s. split; [exact Hs|].
  by apply (cs_steps cs' st W H').
Qed.

End invariant.

(** ** Flushing *)

Section flush.
Context {F : CFloat}.

(** What a walk over [rest] leaves behind: [cl] tells which allocations it cleaned. *)
Record flushed (st st' : kv) (rest : list kv_entry_t) (cl : nat -> bool) : Prop := {
  fl_table : kv_table st' =
    map (map (fun e => if cl (e_at e) then with_dirty false e else e)) (kv_table st);
  fl_strs : k_strs st' = k_strs st;
  fl_loaded : kv_loaded st' = kv_loaded st;
  fl_ready : kv_ready st' = kv_ready st;
  fl_next : k_next st' = k_next st;
  fl_count : kv_count st' = kv_count st;
  fl_only : forall a, cl a = true -> exists e, e ∈ rest /\ e_at e = a /\ e_dirty e = true;
  fl_rows : forall k, k_db st' !! k =
    match List.find (fun e => seqb (e_key e) k && cl (e_at e)) rest with
    | Some e => Some (row_of st e)
    | None => k_db st !! k
    end
}.

Lemma flushed_nothing st rest : flushed st st rest (fun _ => false).
Proof.
  constructor; try done.
  - symmetry. transitivity (map (map id) (kv_table st)); [done|]. rewrite (map_ext _ id), map_id; [done|apply map_id].
  - intros k. destruct (List.find _ rest) as [e|] eqn:E; [|done].
    apply find_some in E as [_ E]. by rewrite andb_false_r in E.
Qed.

Lemma entry_at_found st es1 e es2 :
  entries st = es1 ++ e :: es2 -> NoDup (e_at <$> entries st) -> entry_at st (e_at e) = Some e.
Proof.
  intros E Hn. apply (find_unique e_at Nat.eqb); [apply Nat.eqb_eq|done|].
  split; [|done]. rewrite E. apply elem_of_app. right. by left.
Qed.

Lemma after_found es1 e es2 :
  NoDup (e_at <$> es1 ++ e :: es2) -> after (e_at e) (es1 ++ e :: es2) = Some es2.
Proof.
  induction es1 as [|x es1 IH]; intros Hn; cbn [app after].
  - by rewrite Nat.eqb_refl.
  - cbn in Hn. apply list.NoDup_cons in Hn as [Hx Hn].
    destruct (Nat.eqb_spec (e_at x) (e_at e)) as [Ha|]; [|by apply IH].
    exfalso. apply Hx. rewrite Ha, fmap_app. apply elem_of_app. right. by left.
Qed.

Lemma map_fresh a f es :
  a ∉ e_at <$> es -> map (fun e => if Nat.eqb (e_at e) a then f e else e) es = es.
Proof.
  induction es as [|x es IH]; [done|]. cbn [map fmap list_fmap]. intros [Hx Hn]%not_elem_of_cons.
  destruct (Nat.eqb_spec (e_at x) a); [congruence|]. f_equal. by apply IH.
Qed.

(** Cleaning the entry of a walk that it has just persisted. *)
Definition cleaned (st : kv) (e : kv_entry_t) : kv :=
  upd_at (persist_entry true st e).2 (e_at e) (with_dirty false).

Lemma cleaned_entries st es1 e es2 :
  entries st = es1 ++ e :: es2 -> NoDup (e_at <$> entries st) ->
  entries (cleaned st e) = (es1 ++ [with_dirty false e]) ++ es2.
Proof.
  intros E Hn. unfold cleaned. rewrite entries_upd_at. unfold entries. cbn [persist_entry snd set_db kv_table].
  fold (entries st). rewrite E in *. rewrite fmap_app, fmap_cons in Hn.
  apply list.NoDup_app in Hn as (_ & H1 & [H2 _]%list.NoDup_cons).
  rewrite map_app. cbn [map]. rewrite Nat.eqb_refl, !map_fresh; [by rewrite <- app_assoc|done|].
  intros H. eapply H1; [exact H|by left].
Qed.

(** Putting one cleaned entry before the rest of a walk. *)
Lemma flushed_cons st st' e rest cl :
  e_at e ∉ e_at <$> rest -> e_key e ∉ e_key <$> rest -> e_dirty e = true ->
  flushed (cleaned st e) st' rest cl ->
  flushed st st' (e :: rest) (fun a => Nat.eqb a (e_at e) || cl a).
Proof.
  intros Ha Hk Hd [H1 H2 H3 H3' H4 H5 H6 H7]. constructor; try done.
  - rewrite H1. cbn [cleaned upd_at set_table kv_table persist_entry snd set_db].
    rewrite map_map. apply map_ext. intros l. rewrite map_map. apply map_ext. intros x.
    destruct (Nat.eqb_spec (e_at x) (e_at e)) as [Hx|Hx]; cbn [orb]; [|done].
    cbn [with_dirty with_val e_at]. by destruct (cl (e_at x)).
  - intros a [->%Nat.eqb_eq|Hc]%orb_true_iff; [exists e; split; [by left|done]|].
    destruct (H6 a Hc) as (x & Hx & Hx'). exists x. split; [by right|done].
  - intros k. rewrite H7. cbn [List.find]. rewrite Nat.eqb_refl. cbn [orb]. rewrite andb_true_r.
    assert (Hf : forall l, e_at e ∉ e_at <$> l ->
      List.find (fun x => seqb (e_key x) k && (Nat.eqb (e_at x) (e_at e) || cl (e_at x))) l =
      List.find (fun x => seqb (e_key x) k && cl (e_at x)) l).
    { induction l as [|x l IH]; [done|]. cbn [fmap list_fmap List.find]. intros [Hx Hl]%not_elem_of_cons.
      destruct (Nat.eqb_spec (e_at x) (e_at e)); [congruence|]. cbn [orb]. by rewrite IH. }
    rewrite (Hf rest Ha). cbn [cleaned upd_at set_table k_db persist_entry snd set_db].
    destruct (seqb (e_key e) k) eqn:Ek.
    + apply seqb_true in Ek as <-. destruct (List.find _ rest) as [x|] eqn:Ex; [|apply lookup_insert_eq].
      apply find_some in Ex as [Hx [Hxk%seqb_true _]%andb_true_iff]. exfalso. apply Hk.
      rewrite <- Hxk. by apply list_elem_of_fmap_2, list_elem_of_In.
    + destruct (List.find _ rest); [done|]. apply lookup_insert_ne. by apply seqb_false in Ek.
Qed.

(** The same when the statement failed. *)
Lemma flushed_skip st st' e rest cl :
  (forall a, cl a = true -> a <> e_at e) -> flushed st st' rest cl -> flushed st st' (e :: rest) cl.
Proof.
  intros Ha [H1 H2 H3 H3' H4 H5 H6 H7]. constructor; try done.
  - intros a Hc. destruct (H6 a Hc) as (x & Hx & Hx'). exists x. split; [by right|done].
  - intros k. rewrite H7. cbn [List.find].
    destruct (cl (e_at e)) eqn:Ec; [by destruct (Ha _ Ec)|]. by rewrite andb_false_r.
Qed.

(** What kv_flush does from a point of its walk on: it returns, and SUCCESS means that
    everything dirty that was left is in the database. *)
Definition walks (rest : list kv_entry_t) : Prop :=
  forall es1 oks fuel failed st,
  entries st = es1 ++ rest -> NoDup (e_at <$> entries st) -> NoDup (e_key <$> entries st) ->
  (2 * length rest <= fuel)%nat -> 0 <= failed -> failed + Z.of_nat (length rest) < 2 ^ 32 ->
  exists rc st' cl, flush_run oks fuel (flush_walk rest failed) st = (FDone rc, st') /\
    flushed st st' rest cl /\
    (rc = SUCCESS <-> failed = 0 /\ forall e, e ∈ rest -> e_dirty e = true -> cl (e_at e) = true) /\
    ((forall n, oks n = true) -> failed = 0 -> rc = SUCCESS).

Lemma flush_run_done oks fuel rc st : flush_run oks fuel (FDone rc) st = (FDone rc, st).
Proof. revert oks. induction fuel as [|n IH]; intros oks; [done|apply IH]. Qed.

Lemma walks_nil : walks [].
Proof.
  intros es1 oks fuel failed st E Ha Hk Hfu Hf0 Hf.
  exists (negb (failed =? 0)), st, (fun _ => false).
  split_and!; [apply flush_run_done|apply flushed_nothing| |by intros _ ->].
  rewrite negb_false_iff, Z.eqb_eq. split; [intros ->; split; [done|]|by intros [-> _]].
  intros e He. by apply not_elem_of_nil in He.
Qed.

Lemma NoDup_mid {A B} (f : A -> B) es1 e rest :
  NoDup (f <$> es1 ++ e :: rest) -> f e ∉ f <$> rest.
Proof. rewrite fmap_app, fmap_cons. by intros (_ & _ & [H _]%list.NoDup_cons)%list.NoDup_app. Qed.

Lemma flushed_not_first st st' e rest cl :
  e_at e ∉ e_at <$> rest -> flushed st st' rest cl -> cl (e_at e) = false.
Proof.
  intros H Hfl. destruct (cl (e_at e)) eqn:Ec; [|done]. exfalso. apply H.
  destruct (fl_only _ _ _ _ Hfl _ Ec) as (x & Hx & <- & _). by apply list_elem_of_fmap_2.
Qed.

Lemma walks_clean e rest : e_dirty e = false -> walks rest -> walks (e :: rest).
Proof.
  intros Hd IH es1 oks fuel failed st E Ha Hk Hfu Hf0 Hf. cbn [length] in *.
  assert (Hw : flush_walk (e :: rest) failed = flush_walk rest failed)
    by (unfold flush_walk; cbn [List.find]; by rewrite Hd). rewrite Hw.
  destruct (IH (es1 ++ [e]) oks fuel failed st ltac:(by rewrite <- app_assoc) Ha Hk
    ltac:(lia) Hf0 ltac:(lia)) as (rc & st' & cl & H1 & H2 & H3 & H4).
  exists rc, st', cl. rewrite E in Ha. apply NoDup_mid in Ha.
  split_and!; [done| | |done].
  - apply flushed_skip; [|done]. intros a Hc ->. by rewrite (flushed_not_first _ _ _ _ _ Ha H2) in Hc.
  - rewrite H3. split; intros [? Hall]; (split; [done|]); intros x Hx Hxd; [|apply Hall; [by right|done]].
    apply elem_of_cons in Hx as [->|Hx]; [congruence|by apply Hall].
Qed.

Lemma flush_two es1 e rest oks fuel failed st :
  e_dirty e = true -> entries st = es1 ++ e :: rest -> NoDup (e_at <$> entries st) ->
  flush_run oks (S (S fuel)) (flush_walk (e :: rest) failed) st =
  flush_run (fun n => oks (S (S n))) fuel
    (flush_walk rest (if oks O then failed else wrap 32 (failed + 1)))
    (if oks O then cleaned st e else st).
Proof.
  intros Hd E Ha. unfold flush_walk at 1. cbn [List.find]. rewrite Hd. cbn [flush_run flush_step].
  rewrite (entry_at_found st es1 e rest E Ha). rewrite E in Ha.
  destruct (oks O); cbn [persist_entry flush_step].
  - change (entries (set_db st _)) with (entries st). by rewrite E, (after_found _ _ _ Ha).
  - by rewrite E, (after_found _ _ _ Ha).
Qed.

Lemma walks_dirty e rest : e_dirty e = true -> walks rest -> walks (e :: rest).
Proof.
  intros Hd IH es1 oks fuel failed st E Ha Hk Hfu Hf0 Hf. cbn [length] in *.
  destruct fuel as [|[|fuel]]; [lia|lia|]. rewrite (flush_two es1) by done.
  assert (Ha' := Ha). assert (Hk' := Hk). rewrite E in Ha', Hk'. apply NoDup_mid in Ha', Hk'.
  destruct (oks O) eqn:Ho.
  - pose proof (cleaned_entries st es1 e rest E Ha) as E1.
    assert (Hm : forall A (g : kv_entry_t -> A), g (with_dirty false e) = g e ->
      g <$> entries (cleaned st e) = g <$> entries st).
    { intros A g Hg. by rewrite E1, E, <- app_assoc, !fmap_app, !fmap_cons, Hg. }
    destruct (IH _ (fun n => oks (S (S n))) fuel failed (cleaned st e) E1
      ltac:(by rewrite Hm) ltac:(by rewrite Hm) ltac:(lia) Hf0 ltac:(lia)) as (rc & st' & cl & H1 & H2 & H3 & H4).
    exists rc, st', (fun a => Nat.eqb a (e_at e) || cl a).
    split_and!; [done|by apply flushed_cons| |intros Hall; apply H4; intros n; apply Hall].
    rewrite H3. split; intros [? Hall]; (split; [done|]); intros x Hx Hxd.
    + apply orb_true_iff. apply elem_of_cons in Hx as [->|Hx]; [left; apply Nat.eqb_refl|right; by apply Hall].
    + specialize (Hall x ltac:(by right) Hxd). apply orb_true_iff in Hall as [Hx'%Nat.eqb_eq|]; [|done].
      exfalso. apply Ha'. rewrite <- Hx'. by apply list_elem_of_fmap_2.
  - rewrite wrap_small by lia.
    destruct (IH (es1 ++ [e]) (fun n => oks (S (S n))) fuel (failed + 1) st ltac:(by rewrite <- app_assoc) Ha Hk
      ltac:(lia) ltac:(lia) ltac:(lia)) as (rc & st' & cl & H1 & H2 & H3 & H4).
    exists rc, st', cl. split_and!; [done| | |intros Hall; by rewrite Hall in Ho].
    + apply flushed_skip; [|done]. intros a Hc ->. by rewrite (flushed_not_first _ _ _ _ _ Ha' H2) in Hc.
    + rewrite H3. split; [lia|]. intros [_ Hall]. specialize (Hall e ltac:(by left) Hd).
      by rewrite (flushed_not_first _ _ _ _ _ Ha' H2) in Hall.
Qed.

Lemma walks_all rest : walks rest.
Proof.
  induction rest as [|e rest IH]; [apply walks_nil|].
  destruct (e_dirty e) eqn:E; [by apply walks_dirty|by apply walks_clean].
Qed.

Lemma kv_flush_flushed oks st :
  kv_wf st -> kv_loaded st = true -> Z.of_nat (length (entries st)) < 2 ^ 32 ->
  exists rc st' cl, kv_flush oks st = (FDone rc, st') /\ flushed st st' (entries st) cl /\
    (rc = SUCCESS <-> forall e, e ∈ entries st -> e_dirty e = true -> cl (e_at e) = true) /\
    ((forall n, oks (S n) = true) -> rc = SUCCESS).
Proof.
  intros W Hl Hn. unfold kv_flush. cbn [flush_run flush_step]. rewrite Hl.
  destruct (walks_all (entries st) [] (fun n => oks (S n)) (2 * length (entries st))%nat 0 st eq_refl
    (wf_ats st W) (wf_keys st W) ltac:(lia) ltac:(lia) Hn) as (rc & st' & cl & H1 & H2 & H3 & H4).
  exists rc, st', cl. split_and!; [done|done| |intros Hall; by apply H4]. rewrite H3. tauto.
Qed.

(** Looking a key up after a flush, and its row. *)
Lemma flushed_find st st' cl k :
  flushed st st' (entries st) cl ->
  find_locked st' k = (fun e => if cl (e_at e) then with_dirty false e else e) <$> find_locked st k.
Proof.
  intros H. unfold find_locked, bucket. rewrite (fl_table _ _ _ _ H).
  set (g := fun e => if cl (e_at e) then with_dirty false e else e).
  replace (nth (hash_key k) (map (map g) (kv_table st)) [])
    with (map g (nth (hash_key k) (kv_table st) [])) by (symmetry; apply (map_nth (map g) _ [])).
  induction (nth (hash_key k) (kv_table st) []) as [|e l IH]; [done|]. cbn [map List.find].
  replace (e_key (g e)) with (e_key e) by (unfold g; by destruct (cl _)).
  by destruct (seqb (e_key e) k).
Qed.

Lemma flushed_row st st' cl k :
  kv_wf st -> flushed st st' (entries st) cl ->
  k_db st' !! k = match find_locked st k with
                  | Some e => if cl (e_at e) then Some (row_of st e) else k_db st !! k
                  | None => k_db st !! k
                  end.
Proof.
  intros W H. rewrite (fl_rows _ _ _ _ H k).
  destruct (List.find _ (entries st)) as [e|] eqn:E.
  - apply find_some in E as [He%list_elem_of_In [Hk%seqb_true Hc]%andb_true_iff].
    rewrite (proj2 (find_locked_iff st k e W) (conj He Hk)). by rewrite Hc.
  - destruct (find_locked st k) as [e|] eqn:Ef; [|done].
    apply find_locked_iff in Ef as [He%list_elem_of_In <-]; [|done].
    eapply List.find_none in E; [|exact He]. cbn beta in E. rewrite seqb_refl in E. cbn in E. by rewrite E.
Qed.

Lemma flushed_entries st st' rest cl :
  flushed st st' rest cl -> entries st' = map (fun e => if cl (e_at e) then with_dirty false e else e) (entries st).
Proof. intros H. unfold entries. rewrite (fl_table _ _ _ _ H). apply concat_map_map. Qed.

Lemma flushed_wf st st' cl : kv_wf st -> flushed st st' (entries st) cl -> kv_wf st'.
Proof.
  intros W H. set (g := fun e => if cl (e_at e) then with_dirty false e else e).
  assert (Hg : in_place g) by (intros e; unfold g; by destruct (cl _)).
  pose proof (flushed_entries _ _ _ _ H) as E. fold g in E.
  destruct H as [H1 H2 _ _ H4 H5 _ _].
  constructor; rewrite ?E, ?H1, ?H2, ?H4, ?H5.
  - apply (chained_map (fun e => hash_key (e_key e))); [|apply W]. intros e. f_equal. apply Hg.
  - rewrite map_in_place by apply Hg. apply W.
  - rewrite map_in_place by apply Hg. apply W.
  - apply List.Forall_forall. intros x (e & <- & He)%in_map_iff. rewrite (proj1 (Hg e)).
    exact (proj1 (List.Forall_forall _ _) (wf_next st W) e He).
  - rewrite length_map. apply W.
  - apply W.
  - apply List.Forall_forall. intros x (e & <- & He)%in_map_iff.
    pose proof (proj1 (List.Forall_forall _ _) (wf_entries st W) e He) as Hx.
    unfold g. destruct (cl _); [|done]. apply with_val_ok; [done|apply Hx].
Qed.

(** kv_flush finishes. On a loaded store of fewer than 2^32 entries it returns,
    with no read of freed memory, after at most two steps an entry; a key with no
    entry keeps its row; an entry is left as it was, with its row, or it was dirty and
    is now clean and its row holds its value; SUCCESS is returned exactly when no dirty
    entry is left, which is the case whenever every statement executes. *)
Theorem kv_flush_finishes oks st :
  kv_wf st -> kv_loaded st = true -> Z.of_nat (length (entries st)) < 2 ^ 32 ->
  exists rc st', kv_flush oks st = (FDone rc, st') /\ kv_wf st' /\
    (forall k, find_locked st k = None -> find_locked st' k = None /\ k_db st' !! k = k_db st !! k) /\
    (forall k e, find_locked st k = Some e ->
       (find_locked st' k = Some e /\ k_db st' !! k = k_db st !! k) \/
       (e_dirty e = true /\ find_locked st' k = Some (with_dirty false e) /\
        k_db st' !! k = Some (row_of st e))) /\
    (rc = SUCCESS <-> forall e, e ∈ entries st' -> e_dirty e = false) /\
    ((forall n, oks (S n) = true) -> rc = SUCCESS).
Proof.
  intros W Hl Hn. destruct (kv_flush_flushed oks st W Hl Hn) as (rc & st' & cl & H1 & H2 & H3 & H4).
  exists rc, st'. split_and!; [done|by eapply flushed_wf| | | |done].
  - intros k E. by rewrite (flushed_find _ _ _ _ H2), (flushed_row _ _ _ _ W H2), E.
  - intros k e E. rewrite (flushed_find _ _ _ _ H2), (flushed_row _ _ _ _ W H2), E. cbn.
    destruct (cl (e_at e)) eqn:Ec; [right|by left]. split_and!; [|done|done].
    destruct (fl_only _ _ _ _ H2 _ Ec) as (x & Hx & Hxa & Hxd).
    apply found in E; [|done]. by rewrite <- (entry_at_unique st x e W Hx E Hxa).
  - rewrite H3, (flushed_entries _ _ _ _ H2). split; intros Hall.
    + intros x (e & <- & He)%list_elem_of_In%in_map_iff. destruct (cl (e_at e)) eqn:Ec; [done|].
      destruct (e_dirty e) eqn:Ed; [|done]. rewrite Hall in Ec; [done|by apply list_elem_of_In|done].
    + intros e He Hd. destruct (cl (e_at e)) eqn:Ec; [done|]. rewrite <- Hd. symmetry. apply Hall.
      apply list_elem_of_In, in_map_iff. exists e. rewrite Ec. split; [done|by apply list_elem_of_In].
Qed.

End flush.
