(* ===== verification/KvApi.v ===== *)
(** * The configuration store: whole calls

    The calls of kv.h as a language of operations over the store of [Kv] and
    [KvPersist], what a sequence of them leaves alone, and what kv_flush, kv_register
    and kv_reclaim_owned do when other threads run between their critical sections. *)

From S2P Require Import Prelude Util Kv KvPersist.

Section api.
Context {F : CFloat}.

Inductive kv_op :=
  | OpRegister (d : kv_decl)
  | OpSet (key val : option cstr)
  | OpSetInt (key : option cstr) (val : Z)
  | OpSetUint (key : option cstr) (val : Z)
  | OpSetFloat (key : option cstr) (val : cldouble)
  | OpSetSecret (key : cstr) (val : option cstr)
  | OpSetCb (key : option cstr) (cb : option Z) (data : Z)
  | OpSetCheck (key : option cstr) (check : option Z) (data : Z)
  | OpRegisterNl (key : option cstr) (nl : Z)
  | OpDelete (ok : bool) (key : option cstr)
  | OpDeletePrefix (ok : bool) (pfx : option cstr)
  | OpReset (ok : bool) (key : option cstr)
  | OpUnregister (key : option cstr)
  | OpReclaim (oks : nat -> bool) (lo hi : Z)
  | OpLoad (ok : bool)
  | OpFlush (oks : nat -> bool).

(** The look-up of a registration executes; the SELECT of a load that executes answers
    every row. *)
Definition op_run (st : kv) (o : kv_op) : kv :=
  match o with
  | OpRegister d => (kv_register_owned true st d).2
  | OpSet key val => (kv_set st key val).2.1
  | OpSetInt key val => (kv_set_int st key val).2.1
  | OpSetUint key val => (kv_set_uint st key val).2.1
  | OpSetFloat key val => (kv_set_float st key val).2.1
  | OpSetSecret key val => (kv_set_secret st key val).2.1
  | OpSetCb key cb data => (kv_set_cb st key cb data).2
  | OpSetCheck key check data => (kv_set_check st key check data).2
  | OpRegisterNl key nl => (kv_register_nl st key nl).2
  | OpDelete ok key => (kv_delete ok st key).2
  | OpDeletePrefix ok pfx => (kv_delete_prefix ok st pfx).2
  | OpReset ok key => (kv_reset ok st key).2.1
  | OpUnregister key => (kv_unregister st key).2
  | OpReclaim oks lo hi => (kv_reclaim_owned oks st lo hi).2
  | OpLoad ok => (kv_load st (if ok then Some (map_to_list (k_db st)) else None)).2.1
  | OpFlush oks => (kv_flush oks st).2
  end.

Definition ops_run (st : kv) (ops : list kv_op) : kv := fold_left op_run ops st.

(** The operations that name [k] to change what is stored under it. *)
Definition touches (k : cstr) (o : kv_op) : bool :=
  match o with
  | OpSet key _ | OpSetInt key _ | OpSetUint key _ | OpSetFloat key _ | OpDelete _ key | OpReset _ key =>
      bool_decide (key = Some k)
  | OpSetSecret key _ => bool_decide (key = k)
  | OpDeletePrefix _ (Some p) => starts_with k p || like (p ++ lit "%") k
  | _ => false
  end.

(** What an operation needs: keys that fit, arguments of the C types, a restored store
    for a reclaim, and a table that kv_flush can count. *)
Definition op_ok (st : kv) (o : kv_op) : Prop :=
  match o with
  | OpRegister d => forall key, d_key d = Some key -> (length key < KV_KEY_SZ)%nat
  | OpSetInt _ val => INT64_MIN <= val <= INT64_MAX
  | OpSetUint _ val => 0 <= val <= UINT64_MAX
  | OpReclaim _ _ _ => kv_loaded st = true
  | OpFlush _ => Z.of_nat (length (entries st)) < 2 ^ 32
  | _ => True
  end.

Fixpoint ops_ok (st : kv) (ops : list kv_op) : Prop :=
  match ops with
  | [] => True
  | o :: ops => op_ok st o /\ ops_ok (op_run st o) ops
  end.

(** ** What does not concern a key *)

(** The entry of [k], if it is still there, is as dirty as it was; its row and the
    restore flag are the same. *)
Definition unmoved (k : cstr) (st st' : kv) : Prop :=
  (forall e', find_locked st' k = Some e' -> exists e, find_locked st k = Some e /\ e_dirty e' = e_dirty e) /\
  k_db st' !! k = k_db st !! k /\ kv_loaded st' = kv_loaded st.

#[export] Instance unmoved_refl k : Reflexive (unmoved k).
Proof. intros st. split; [|done]. intros e E. by exists e. Qed.

#[export] Instance unmoved_trans k : Transitive (unmoved k).
Proof.
  intros a b c (H1 & H2 & H3) (H4 & H5 & H6). split_and!; [|congruence|congruence].
  intros e E. destruct (H4 e E) as (x & Hx & Hd). destruct (H1 x Hx) as (y & Hy & Hd'). exists y. split; congruence.
Qed.

Lemma unmoved_other k st st' :
  kv_table st' = kv_table st -> k_db st' = k_db st -> kv_loaded st' = kv_loaded st -> unmoved k st st'.
Proof.
  intros H1 H2 H3. split_and!; [|by rewrite H2|done]. intros e E. exists e. split; [|done].
  unfold find_locked, bucket in *. by rewrite H1 in E.
Qed.

(** An update that keeps the dirty flag. *)
Lemma unmoved_upd k st a f :
  in_place f -> (forall e, e_dirty (f e) = e_dirty e) -> unmoved k st (upd_at st a f).
Proof.
  intros Hf Hd. split; [|done]. intros e' E. rewrite find_upd_at in E by done.
  apply fmap_Some in E as (e & E & ->). exists e. split; [done|]. by destruct (Nat.eqb _ _).
Qed.

(** An update of the entry of another key. *)
Lemma unmoved_upd_other k key st e f :
  kv_wf st -> in_place f -> find_locked st key = Some e -> k <> key -> unmoved k st (upd_at st (e_at e) f).
Proof.
  intros W Hf E Hk. split; [|done]. intros e' E'. exists e'. split; [|done].
  by rewrite (find_upd_at_other _ _ _ _ _ _ W Hf E eq_refl Hk) in E'.
Qed.

Lemma unmoved_apply_val k key st e v :
  kv_wf st -> find_locked st key = Some e -> k <> key -> unmoved k st (apply_val st e v).1.
Proof.
  intros W E Hk. unfold apply_val. cbn [fst]. destruct (val_changed _ _ _ _); [|reflexivity].
  by eapply unmoved_upd_other; [|apply in_place_val| |].
Qed.

Lemma unmoved_strs k st t : unmoved k st (set_strs st t).
Proof. by apply unmoved_other. Qed.

Lemma unmoved_set k st key val : kv_wf st -> key <> Some k -> unmoved k st (kv_set st key val).2.1.
Proof.
  intros W Hk. unfold kv_set. destruct key as [key|], val as [val|]; try reflexivity.
  destruct (find_locked st key) as [e|] eqn:E; [|reflexivity].
  destruct (str_to_val _ _ _) as [v t] eqn:P. destruct (step_parse _ _ _ _ _ W P) as [[W1 _] _].
  transitivity (set_strs st t); [apply unmoved_strs|]. destruct v as [v|]; [|reflexivity].
  eapply unmoved_apply_val; [done|exact E|congruence].
Qed.

Lemma unmoved_set_num k st key to_val : kv_wf st -> key <> Some k -> unmoved k st (set_num st key to_val).2.1.
Proof.
  intros W Hk. unfold set_num. destruct key as [key|]; [|reflexivity].
  destruct (find_locked st key) as [e|] eqn:E; [|reflexivity].
  destruct (to_val (e_type e)) as [v|]; [|reflexivity].
  eapply unmoved_apply_val; [done|exact E|congruence].
Qed.

(** Entries that leave the table. *)
Lemma unmoved_unlink k st t n :
  kv_wf st -> kv_wf (unlink st t n) -> (forall e, e ∈ concat t -> e ∈ entries st) -> unmoved k st (unlink st t n).
Proof.
  intros W W' H. split; [|done]. intros e E. exists e. split; [|done].
  apply find_locked_iff in E as [He <-]; [|done]. apply find_locked_iff; [done|]. split; [by apply H|done].
Qed.

Lemma unmoved_drop_where k P st : kv_wf st -> unmoved k st (drop_where P st).2.
Proof.
  intros W. apply unmoved_unlink; [done|by apply (drop_where_step st P W)|]. intros e He.
  rewrite concat_map_filter in He. apply list_elem_of_In, filter_In in He as [He _]. by apply list_elem_of_In.
Qed.

Lemma unmoved_drop_entry k st key : kv_wf st -> unmoved k st (drop_entry st key).2.
Proof.
  intros W. pose proof (drop_entry_step st key W) as [W' _]. revert W'. unfold drop_entry, bucket.
  destruct (remove_first _ _) as [l|] eqn:E; [|reflexivity]. cbn [snd]. intros W'.
  apply unmoved_unlink; [done|done|]. intros e He.
  apply remove_first_split in E as (l1 & x & l2 & Hb & -> & _). rewrite nth_lookup in Hb.
  destruct (kv_table st !! hash_key key) as [l|] eqn:El; [|by destruct l1]. cbn in Hb. subst l.
  destruct (concat_insert (kv_table st) _ _ (l1 ++ l2) El) as (t1 & t2 & Ht & Ht'). rewrite Ht' in He.
  unfold entries. rewrite Ht. rewrite !elem_of_app, elem_of_cons in *. tauto.
Qed.

Lemma unmoved_row_delete k ok st key : key <> k -> unmoved k st (kv_row_delete ok st key).
Proof.
  intros Hk. destruct ok; [|reflexivity]. split_and!; [|by apply lookup_delete_ne|done]. intros e E. by exists e.
Qed.

Lemma unmoved_rows_like k ok st p : like (p ++ lit "%") k = false -> unmoved k st (rows_delete_like ok st p).
Proof.
  intros Hk. destruct ok; [|reflexivity]. split_and!; [intros e E; by exists e| |done].
  cbn. destruct (k_db st !! k) as [r|] eqn:E.
  - by apply map_lookup_filter_Some.
  - by apply map_lookup_filter_None; left.
Qed.

(** Each call keeps the store well formed. *)
Lemma step_mark_secret st key :
  kv_wf st -> step_ok st (match find_locked st key with Some e => upd_at st (e_at e) (with_secret true) | None => st end).
Proof. intros W. exact (cs_step st (CsMarkSecret key) W I). Qed.

Lemma step_row st db : kv_wf st -> step_ok st (set_db st db).
Proof. intros W. by apply step_other. Qed.

Lemma step_row_delete ok st key : kv_wf st -> step_ok st (kv_row_delete ok st key).
Proof. intros W. destruct ok; [by apply step_row|by apply step_ok_refl]. Qed.

Lemma register_step ok st d :
  kv_wf st -> (forall key, d_key d = Some key -> (length key < KV_KEY_SZ)%nat) ->
  step_ok st (kv_register_owned ok st d).2.
Proof.
  intros W Hk. pose proof (register_insert_step st d W Hk) as S1. unfold kv_register_owned.
  destruct (kv_register_insert st d) as [r st1] eqn:E. cbn [snd] in S1.
  destruct r; [done|done|]. destruct (d_key d) as [key|] eqn:K; [|done].
  destruct (kv_loaded st1); [|done]. cbn [snd]. eapply step_ok_trans; [exact S1|].
  apply rehydrate_step; [apply S1|]. intros e Ee.
  apply find_locked_iff in Ee as [He Hke]; [|apply S1].
  unfold kv_register_insert in E. rewrite K in E. destruct (d_default d) as [def|]; [|done].
  destruct (str_to_val _ _ _) as [v t] eqn:P. destruct v as [v|]; [|done].
  destruct (match d_help d with Some _ => _ | None => _ end) as [help t2] eqn:Hh.
  change (set_strs (set_strs st t) t2) with (set_strs st t2) in E.
  destruct (find_locked (set_strs st t2) key) as [x|] eqn:Ef; [done|]. injection E as <-.
  assert (Hn : e_key (new_entry (set_strs st t2) d key v help) = key) by (apply strlcpy_all; by apply Hk).
  pose proof (concat_cons (fun e => hash_key (e_key e)) 64 (kv_table st)
    (new_entry (set_strs st t2) d key v help) (proj1 (wf_chained st W)) (hash_key_lt _)) as Q.
  cbn beta in Q. rewrite Hn in Q. unfold entries in He. cbn [link_entry kv_table set_strs] in He.
  rewrite Q in He. apply elem_of_cons in He as [->|He]; [done|].
  exfalso. apply (find_locked_none st key W) in Ef. apply Ef. rewrite <- Hke. by apply list_elem_of_fmap_2.
Qed.

Lemma load_rows_step rows st : kv_wf st -> step_ok st (load_rows st rows).1.
Proof.
  revert st. induction rows as [|kr rows IH]; intros st W; [by apply step_ok_refl|]. cbn [load_rows].
  pose proof (load_row_step st kr W) as S1. destruct (load_row st kr) as [st1 c]. cbn [fst] in S1.
  specialize (IH st1 (proj1 S1)). destruct (load_rows st1 rows) as [st2 c2].
  by eapply step_ok_trans.
Qed.

Lemma persist_doomed_table oks st l :
  kv_table (persist_doomed oks st l) = kv_table st /\ kv_count (persist_doomed oks st l) = kv_count st /\
  k_strs (persist_doomed oks st l) = k_strs st /\ k_next (persist_doomed oks st l) = k_next st /\
  kv_loaded (persist_doomed oks st l) = kv_loaded st.
Proof.
  revert oks st. induction l as [|e l IH]; intros oks st; [done|]. cbn [persist_doomed].
  destruct (e_dirty e); [|apply IH]. destruct (oks O); [|apply IH].
  destruct (IH (fun n => oks (S n)) (persist_entry true st e).2) as (-> & -> & -> & -> & ->). done.
Qed.

Lemma reclaim_step oks st lo hi : kv_wf st -> step_ok st (kv_reclaim_owned oks st lo hi).2.
Proof.
  intros W. unfold kv_reclaim_owned. destruct (hi <=? lo); [by apply step_ok_refl|].
  pose proof (drop_where_step st (owned lo hi) W) as S1.
  destruct (drop_where (owned lo hi) st) as [n st1]. cbn [snd] in *.
  eapply step_ok_trans; [exact S1|].
  destruct (persist_doomed_table oks st1 (rev (List.filter (owned lo hi) (entries st)))) as (H1 & H2 & H3 & H4 & _).
  apply step_other; try done. apply S1.
Qed.

Lemma flush_step_ok oks st :
  kv_wf st -> Z.of_nat (length (entries st)) < 2 ^ 32 -> kv_wf (kv_flush oks st).2.
Proof.
  intros W Hn. destruct (kv_loaded st) eqn:Hl.
  - destruct (kv_flush_flushed oks st W Hl Hn) as (rc & st' & cl & -> & H2 & _). by eapply flushed_wf.
  - unfold kv_flush. cbn [flush_run flush_step]. by rewrite Hl, flush_run_done.
Qed.

Lemma drop_entry_fst_step st key ok :
  kv_wf st -> step_ok st (let '(found, st) := drop_entry st key in (found, kv_row_delete ok st key)).2.
Proof.
  intros W. pose proof (drop_entry_step st key W) as S1. destruct (drop_entry st key) as [b st1].
  eapply step_ok_trans; [exact S1|]. apply step_row_delete, S1.
Qed.

Lemma op_wf st o : kv_wf st -> op_ok st o -> kv_wf (op_run st o).
Proof.
  intros W Ho. destruct o; cbn [op_run op_ok] in *.
  - by apply register_step.
  - by apply kv_set_step.
  - by apply (cs_step st (CsSetInt key val) W Ho).
  - by apply (cs_step st (CsSetUint key val) W Ho).
  - by apply (cs_step st (CsSetFloat key val) W I).
  - by apply kv_set_step, step_mark_secret.
  - by apply (cs_step st (CsSetCb key cb data) W I).
  - by apply (cs_step st (CsSetCheck key check data) W I).
  - by apply (cs_step st (CsNl key nl) W I).
  - unfold kv_delete. destruct (present key) as [k|]; [|done]. by apply drop_entry_fst_step.
  - unfold kv_delete_prefix. destruct (present pfx) as [p|]; [|done].
    pose proof (drop_where_step st (fun e => starts_with (e_key e) p) W) as [S1 _].
    destruct (drop_where _ st) as [n st1]. cbn [snd] in *. destruct (0 <? _); [|done].
    destruct ok; [by apply step_row|done].
  - unfold kv_reset. destruct (present key) as [k|]; [|done].
    pose proof (reset_step st k W) as S1. destruct (kv_reset_locked st k) as [[[k' st'] c]|]; [|done].
    by apply step_row_delete, S1.
  - unfold kv_unregister. destruct (present key) as [k|]; [|done].
    pose proof (drop_entry_step st k W) as S1. destruct (drop_entry st k) as [[] st1]; [|by apply S1].
    apply (cs_step st1 (CsNlDrop k)); [apply S1|done].
  - by apply reclaim_step.
  - unfold kv_load. destruct ok; [|done].
    pose proof (load_rows_step (map_to_list (k_db st)) st W) as S1.
    destruct (load_rows st _) as [st1 c].
    refine (proj1 (step_other st1 _ _ _ _ _ _)); [apply S1|done..].
  - by apply flush_step_ok.
Qed.

(** ** A row nobody touches *)

Definition clean (k : cstr) (st : kv) : Prop := forall e, find_locked st k = Some e -> e_dirty e = false.

(** The row of [k] is [r], and once the store is restored no entry waits to be written
    over it. *)
Record guarded (k : cstr) (r : kv_row) (st : kv) : Prop := {
  gu_wf : kv_wf st;
  gu_row : k_db st !! k = Some r;
  gu_clean : kv_loaded st = true -> clean k st
}.

Lemma unmoved_guarded k r st st' : unmoved k st st' -> kv_wf st' -> guarded k r st -> guarded k r st'.
Proof.
  intros (H1 & H2 & H3) W' [W Hr Hc]. constructor; [done|by rewrite H2|].
  intros Hl e E. destruct (H1 e E) as (x & Hx & ->). apply Hc; [congruence|done].
Qed.

Lemma unmoved_link k st d key v help :
  kv_wf st -> k <> key -> (length key < KV_KEY_SZ)%nat ->
  kv_wf (link_entry st (hash_key key) (new_entry st d key v help)) ->
  unmoved k st (link_entry st (hash_key key) (new_entry st d key v help)).
Proof.
  intros W Hk Hf W'. split; [|done]. intros e E. exists e. split; [|done].
  apply find_locked_iff in E as [He <-]; [|done]. apply find_locked_iff; [done|]. split; [|done].
  assert (Hn : e_key (new_entry st d key v help) = key) by (by apply strlcpy_all).
  pose proof (concat_cons (fun e => hash_key (e_key e)) 64 (kv_table st)
    (new_entry st d key v help) (proj1 (wf_chained st W)) (hash_key_lt _)) as Q.
  cbn beta in Q. rewrite Hn in Q. unfold entries in He. cbn [link_entry kv_table] in He.
  rewrite Q in He. apply elem_of_cons in He as [->|He]; [by rewrite Hn in Hk|done].
Qed.

Lemma insert_unmoved k st d :
  kv_wf st -> (forall key, d_key d = Some key -> (length key < KV_KEY_SZ)%nat) ->
  (d_key d <> Some k \/ (kv_register_insert st d).1 <> RegInserted) ->
  unmoved k st (kv_register_insert st d).2.
Proof.
  intros W Hk H. pose proof (register_insert_step st d W Hk) as [W' _]. revert W' H.
  unfold kv_register_insert. destruct (d_key d) as [key|] eqn:K, (d_default d) as [def|]; try reflexivity.
  destruct (str_to_val _ _ _) as [v t] eqn:P. destruct (step_parse _ _ _ _ _ W P) as [S1 Hv].
  destruct v as [v|]; [|intros _ _; apply unmoved_strs].
  destruct (match d_help d with Some _ => _ | None => _ end) as [help t2] eqn:Hh.
  change (set_strs (set_strs st t) t2) with (set_strs st t2).
  destruct (find_locked (set_strs st t2) key) as [x|] eqn:Ef; [intros _ _; apply unmoved_strs|].
  cbn [fst snd]. intros W' [H|H]; [|by destruct H].
  transitivity (set_strs st t2); [apply unmoved_strs|].
  assert (W2 : kv_wf (set_strs st t2)).
  { apply set_strs_wf; [done|..]; destruct (d_help d) as [h|].
    - destruct (intern_help t h) as [p t'] eqn:Hi. injection Hh as _ <-.
      apply (intern_help_ok (set_strs st t)) in Hi; [|apply S1]. apply Hi.
    - injection Hh as _ <-. apply S1.
    - destruct (intern_help t h) as [p t'] eqn:Hi. injection Hh as _ <-.
      apply (intern_help_ok (set_strs st t)) in Hi; [|apply S1]. etransitivity; [apply S1|apply Hi].
    - injection Hh as _ <-. apply S1. }
  apply unmoved_link; [done|congruence|by apply Hk|done].
Qed.

(** A look-up that finds a row leaves the entry clean. *)
Lemma rehydrate_clean st key type row : clean key (kv_register_rehydrate st key type (Some row)).
Proof.
  intros e E. unfold kv_register_rehydrate in E. destruct row as [db_type db_str].
  destruct (find_locked st key) as [x|] eqn:Ex; [|congruence].
  destruct (_ =? _).
  - destruct (str_to_val _ _ _) as [v t]. destruct v as [v|].
    + rewrite (find_upd_at_same _ _ _ key x (in_place_val _ _)) in E by done. by injection E as <-.
    + rewrite (find_upd_at_same _ _ _ key x (in_place_dirty _)) in E by done. by injection E as <-.
  - rewrite (find_upd_at_same _ _ _ key x (in_place_dirty _)) in E by done. by injection E as <-.
Qed.

Lemma rehydrate_same st key type row k :
  k_db (kv_register_rehydrate st key type row) !! k = k_db st !! k /\
  kv_loaded (kv_register_rehydrate st key type row) = kv_loaded st.
Proof.
  unfold kv_register_rehydrate. destruct row as [[? ?]|]; [|done].
  destruct (find_locked st key) as [x|]; [|done]. destruct (_ =? _); [|done].
  destruct (str_to_val _ _ _) as [[v|] t]; done.
Qed.

Lemma rehydrate_unmoved k st key type row :
  kv_wf st -> key <> k -> unmoved k st (kv_register_rehydrate st key type row).
Proof.
  intros W Hk. destruct (rehydrate_same st key type row k) as [H1 H2]. split; [|done].
  unfold kv_register_rehydrate. destruct row as [[? ?]|]; [|by apply unmoved_refl].
  destruct (find_locked st key) as [x|] eqn:Ex; [|by apply unmoved_refl].
  destruct (_ =? _); [|by apply (unmoved_upd_other k key); [|apply in_place_dirty| |]].
  destruct (str_to_val _ _ _) as [v t] eqn:P. destruct (step_parse _ _ _ _ _ W P) as [S1 Hv].
  assert (Ho : forall f, in_place f -> unmoved k st (upd_at (set_strs st t) (e_at x) f)).
  { intros f Hf. transitivity (set_strs st t); [apply unmoved_strs|].
    apply (unmoved_upd_other k key); [apply S1|done|exact Ex|congruence]. }
  destruct v as [v|]; [apply (Ho _ (in_place_val _ _))|apply (Ho _ (in_place_dirty _))].
Qed.

Lemma register_guarded k r st d :
  guarded k r st -> (forall key, d_key d = Some key -> (length key < KV_KEY_SZ)%nat) ->
  guarded k r (kv_register_owned true st d).2.
Proof.
  intros G Hk. pose proof (gu_wf _ _ _ G) as W. pose proof (register_step true st d W Hk) as [W' _].
  pose proof (insert_unmoved k st d W Hk) as Q.
  pose proof (register_insert_step st d W Hk) as [W1 _].
  revert W'. unfold kv_register_owned in *. destruct (kv_register_insert st d) as [rr st1] eqn:E.
  cbn [fst snd] in *.
  assert (Hsame : k_db st1 = k_db st /\ kv_loaded st1 = kv_loaded st).
  { unfold kv_register_insert in E. clear -E. repeat case_match; simplify_eq; done. }
  destruct rr; [intros _; apply (unmoved_guarded _ _ _ _ (Q ltac:(by right)) W1 G)..|].
  destruct (d_key d) as [key|] eqn:K; [|intros _; apply (unmoved_guarded _ _ _ _ (Q ltac:(by left)) W1 G)].
  destruct (kv_loaded st1) eqn:Hl; cbn [snd]; intros W'.
  - destruct (decide (key = k)) as [->|Hne].
    + destruct Hsame as [Hdb _]. constructor; [done| |].
      * rewrite (proj1 (rehydrate_same _ _ _ _ _)), Hdb. apply G.
      * intros _. unfold kv_db_lookup_one. rewrite Hdb, (gu_row _ _ _ G). apply rehydrate_clean.
    + assert (Q' : unmoved k st (kv_register_rehydrate st1 key (d_type d) (kv_db_lookup_one true st1 key KV_STR_SZ))).
      { transitivity st1; [apply Q; left; congruence|by apply rehydrate_unmoved]. }
      by apply (unmoved_guarded _ _ _ _ Q').
  - constructor; [done|by rewrite (proj1 Hsame), (gu_row _ _ _ G)|congruence].
Qed.

(** The rows of a load. *)
Lemma load_row_db st kr : k_db (load_row st kr).1 = k_db st /\ kv_loaded (load_row st kr).1 = kv_loaded st.
Proof.
  unfold load_row, load_apply_row. destruct (find_locked st kr.1); [|done]. destruct (negb _); [done|].
  destruct (str_to_val _ _ _) as [[v|] t]; done.
Qed.

Lemma load_row_unmoved k st kr : kv_wf st -> kr.1 <> k -> unmoved k st (load_row st kr).1.
Proof.
  intros W Hk. destruct (load_row_db st kr) as [H1 H2]. split; [|by rewrite H1].
  unfold load_row. destruct (find_locked st kr.1) as [x|] eqn:Ex; [|by apply unmoved_refl]. unfold load_apply_row.
  destruct (negb _); [by apply (unmoved_upd_other k kr.1); [|apply in_place_dirty| |]|].
  destruct (str_to_val _ _ _) as [v t] eqn:P. destruct (step_parse _ _ _ _ _ W P) as [S1 Hv].
  assert (Ho : forall f, in_place f -> unmoved k st (upd_at (set_strs st t) (e_at x) f)).
  { intros f Hf. transitivity (set_strs st t); [apply unmoved_strs|].
    apply (unmoved_upd_other k kr.1); [apply S1|done|exact Ex|congruence]. }
  destruct v as [v|]; [apply (Ho _ (in_place_val _ _))|apply (Ho _ (in_place_dirty _))].
Qed.

Lemma load_row_clean st kr : clean kr.1 (load_row st kr).1.
Proof.
  intros e E. unfold load_row in E. destruct (find_locked st kr.1) as [x|] eqn:Ex; [|cbn in E; congruence].
  unfold load_apply_row in E. destruct (negb _).
  - cbn [fst snd] in E. rewrite (find_upd_at_same _ _ _ kr.1 x (in_place_dirty _)) in E by done. by injection E as <-.
  - destruct (str_to_val _ _ _) as [v t]. destruct v as [v|]; cbn [fst snd] in E.
    + rewrite (find_upd_at_same _ _ _ kr.1 x (in_place_val _ _)) in E by done. by injection E as <-.
    + rewrite (find_upd_at_same _ _ _ kr.1 x (in_place_dirty _)) in E by done. by injection E as <-.
Qed.

Lemma load_rows_clean k rows st :
  kv_wf st -> (k ∈ rows.*1 \/ clean k st) ->
  clean k (load_rows st rows).1 /\ k_db (load_rows st rows).1 = k_db st.
Proof.
  revert st. induction rows as [|kr rows IH]; intros st W H.
  - destruct H as [H|H]; [by apply not_elem_of_nil in H|done].
  - cbn [load_rows]. pose proof (load_row_step st kr W) as [W1 _].
    pose proof (load_row_db st kr) as [Hd _].
    pose proof (load_row_clean st kr) as Hc. pose proof (fun Hk => load_row_unmoved k st kr W Hk) as Hq.
    destruct (load_row st kr) as [st1 c]. cbn [fst] in *.
    destruct (IH st1 W1) as [H1 H2].
    { destruct (decide (kr.1 = k)) as [<-|Hk]; [by right|].
      destruct H as [[->|H]%elem_of_cons|H]; [done|by left|right]. intros e E.
      destruct (proj1 (Hq Hk) e E) as (x & Hx & ->). by apply H. }
    destruct (load_rows st1 rows) as [st2 c2]. split; [done|]. cbn [fst] in *. congruence.
Qed.

Lemma load_guarded k r st ok :
  guarded k r st -> guarded k r (op_run st (OpLoad ok)).
Proof.
  intros G. pose proof (op_wf st (OpLoad ok) (gu_wf _ _ _ G) I) as W'. revert W'. cbn [op_run]. unfold kv_load.
  destruct ok; [|done].
  destruct (load_rows_clean k (map_to_list (k_db st)) st (gu_wf _ _ _ G)) as [H1 H2].
  { left. apply list_elem_of_fmap. exists (k, r). split; [done|]. apply elem_of_map_to_list, G. }
  destruct (load_rows st _) as [st1 c]. cbn [fst snd] in *. intros W'.
  constructor; [done|cbn; rewrite H2; apply G|]. intros _. exact H1.
Qed.

Lemma flush_guarded k r st oks :
  guarded k r st -> Z.of_nat (length (entries st)) < 2 ^ 32 -> guarded k r (op_run st (OpFlush oks)).
Proof.
  intros G Hn. pose proof (gu_wf _ _ _ G) as W. pose proof (op_wf st (OpFlush oks) W Hn) as W'. revert W'. cbn [op_run].
  destruct (kv_loaded st) eqn:Hl.
  - destruct (kv_flush_flushed oks st W Hl Hn) as (rc & st' & cl & -> & H2 & _). cbn [snd]. intros W'.
    pose proof (gu_clean _ _ _ G Hl) as Hc. constructor; [done| |].
    + rewrite (flushed_row _ _ _ k W H2). destruct (find_locked st k) as [e|] eqn:E; [|apply G].
      destruct (cl (e_at e)) eqn:Ec; [|apply G]. destruct (fl_only _ _ _ _ H2 _ Ec) as (x & Hx & Hxa & Hxd).
      assert (He := found _ _ _ W E). rewrite (entry_at_unique st x e W Hx He Hxa), (Hc e E) in Hxd. done.
    + intros _ e. rewrite (flushed_find _ _ _ k H2). intros (x & E & ->)%fmap_Some.
      destruct (cl _); [done|by apply Hc].
  - unfold kv_flush. cbn [flush_run flush_step]. by rewrite Hl, flush_run_done.
Qed.

Lemma persist_doomed_row k oks st l :
  (forall e, e ∈ l -> e_dirty e = true -> e_key e <> k) ->
  k_db (persist_doomed oks st l) !! k = k_db st !! k.
Proof.
  revert oks st. induction l as [|e l IH]; intros oks st H; [done|]. cbn [persist_doomed].
  assert (H' : forall x, x ∈ l -> e_dirty x = true -> e_key x <> k) by (intros x Hx; apply H; by right).
  destruct (e_dirty e) eqn:Ed; rewrite IH by done; [|done]. destruct (oks O); [|done].
  apply lookup_insert_ne. apply H; [by left|done].
Qed.

Lemma reclaim_guarded k r st oks lo hi :
  guarded k r st -> kv_loaded st = true -> guarded k r (op_run st (OpReclaim oks lo hi)).
Proof.
  intros G Hl. pose proof (gu_wf _ _ _ G) as W.
  pose proof (op_wf st (OpReclaim oks lo hi) W Hl) as W'. revert W'. cbn [op_run].
  unfold kv_reclaim_owned. destruct (hi <=? lo); [done|].
  pose proof (unmoved_drop_where k (owned lo hi) st W) as Q.
  destruct (drop_where (owned lo hi) st) as [n st1]. cbn [snd] in *. intros W'.
  apply (unmoved_guarded k r st); [|done|done]. etransitivity; [exact Q|].
  destruct (persist_doomed_table oks st1 (rev (List.filter (owned lo hi) (entries st)))) as (H1 & _ & _ & _ & H5).
  split_and!; [| |done].
  - intros e E. exists e. split; [|done]. unfold find_locked, bucket in *. cbn in E. by rewrite H1 in E.
  - cbn. apply persist_doomed_row. intros e He Hd <-.
    apply list_elem_of_In, in_rev, filter_In in He as [He _].
    assert (E : find_locked st (e_key e) = Some e).
    { apply find_locked_iff; [done|]. split; [by apply list_elem_of_In|done]. }
    by rewrite (gu_clean _ _ _ G Hl e E) in Hd.
Qed.

Lemma present_some key k : present key = Some k -> key = Some k.
Proof. destruct key as [[|c s]|]; cbn; congruence. Qed.

Lemma op_guarded k r st o :
  guarded k r st -> op_ok st o -> touches k o = false -> guarded k r (op_run st o).
Proof.
  intros G Ho Ht. pose proof (gu_wf _ _ _ G) as W. pose proof (op_wf st o W Ho) as W'.
  assert (Hq : unmoved k st (op_run st o) -> guarded k r (op_run st o)) by (intros Q; by apply (unmoved_guarded _ _ _ _ Q)).
  destruct o; cbn [touches] in Ht; try (apply bool_decide_eq_false in Ht);
    try (by apply register_guarded); try (by apply load_guarded); try (by apply flush_guarded);
    try (by apply reclaim_guarded); apply Hq; clear Hq W'; cbn [op_run].
  - by apply unmoved_set.
  - by apply unmoved_set_num.
  - by apply unmoved_set_num.
  - by apply unmoved_set_num.
  - unfold kv_set_secret. etransitivity; [|by apply unmoved_set; [apply step_mark_secret|congruence]].
    destruct (find_locked st key) as [e|] eqn:E; [|reflexivity].
    by eapply unmoved_upd_other; [|apply in_place_secret|exact E|].
  - unfold kv_set_cb. destruct key as [key|]; [|reflexivity]. destruct (find_locked st key); [|reflexivity].
    by apply unmoved_upd; [apply in_place_cb|].
  - unfold kv_set_check. destruct key as [key|]; [|reflexivity]. destruct (find_locked st key); [|reflexivity].
    by apply unmoved_upd; [apply in_place_check|].
  - unfold kv_register_nl. repeat case_match; by apply unmoved_other.
  - unfold kv_delete. destruct (present key) as [key'|] eqn:P; [|reflexivity]. apply present_some in P as ->.
    pose proof (unmoved_drop_entry k st key' W) as Q. destruct (drop_entry st key') as [b st1].
    etransitivity; [exact Q|]. apply unmoved_row_delete. congruence.
  - unfold kv_delete_prefix. destruct (present pfx) as [p|] eqn:P; [|reflexivity]. apply present_some in P as ->.
    apply orb_false_iff in Ht as [_ Ht].
    pose proof (unmoved_drop_where k (fun e => starts_with (e_key e) p) st W) as Q.
    destruct (drop_where _ st) as [n st1]. cbn [snd] in *. etransitivity; [exact Q|].
    destruct (0 <? _); [by apply unmoved_rows_like|reflexivity].
  - unfold kv_reset. destruct (present key) as [key'|] eqn:P; [|reflexivity]. apply present_some in P as ->.
    unfold kv_reset_locked. destruct (find_locked st key') as [e|] eqn:E; [|reflexivity].
    cbn [mbind option_bind fst snd].
    assert (Hk : strlcpy KV_KEY_SZ (e_key e) = key').
    { apply find_locked_iff in E as [He <-]; [|done]. apply strlcpy_all.
      by apply (proj1 (List.Forall_forall _ _) (wf_entries st W) e), list_elem_of_In. }
    rewrite Hk. etransitivity; [|apply unmoved_row_delete; congruence].
    eapply unmoved_upd_other; [done|apply in_place_val|exact E|congruence].
  - unfold kv_unregister. destruct (present key) as [key'|] eqn:P; [|reflexivity].
    pose proof (unmoved_drop_entry k st key' W) as Q. destruct (drop_entry st key') as [[] st1]; [|exact Q].
    etransitivity; [exact Q|]. unfold kv_nl_unregister_locked_key. destruct (nl_remove _ _). by apply unmoved_other.
Qed.

Lemma ops_guarded k r ops st :
  guarded k r st -> ops_ok st ops -> forallb (fun o => negb (touches k o)) ops = true ->
  guarded k r (ops_run st ops).
Proof.
  revert st. induction ops as [|o ops IH]; intros st G Ho Ht; [done|].
  cbn in Ht. apply andb_true_iff in Ht as [Ht1%negb_true_iff Ht2]. destruct Ho as [Ho1 Ho2].
  apply IH; [by apply op_guarded|done|done].
Qed.


(** ** Reset *)

(** kv_reset reverts and stays reverted. For a registered key it answers true; the
    entry holds its declared default and is clean; the change callback runs exactly
    when the value was not the default; the row is gone; other keys keep their entries
    and rows; and a flush that follows does not bring the row back. *)
Theorem kv_reset_reverts st k e oks :
  kv_wf st -> find_locked st k = Some e -> is_float (e_type e) = false -> k <> [] ->
  Z.of_nat (length (entries st)) < 2 ^ 32 ->
  exists st' ch, kv_reset true st (Some k) = (true, (st', call ch e)) /\
    (ch = false <-> e_val e = e_def e) /\
    find_locked st' k = Some (with_val (e_def e) false e) /\
    k_db st' !! k = None /\
    (forall k', k' <> k -> find_locked st' k' = find_locked st k' /\ k_db st' !! k' = k_db st !! k') /\
    k_db (kv_flush oks st').2 !! k = None.
Proof.
  intros W E Hf Hk Hn. assert (He := found _ _ _ W E).
  destruct (proj1 (List.Forall_forall _ _) (wf_entries st W) e) as (Hv & Hd & _ & Hl & _); [by apply list_elem_of_In|].
  pose proof (val_changed_iff _ _ _ _ (wf_strs st W) Hv Hd Hf) as C.
  assert (Hke : strlcpy KV_KEY_SZ (e_key e) = k)
    by (apply find_locked_iff in E as [_ <-]; [by apply strlcpy_all|done]).
  pose proof (reset_step st k W) as [W' _]. revert W'.
  unfold kv_reset. replace (present (Some k)) with (Some k) by (by destruct k).
  unfold kv_reset_locked. rewrite E. cbn [mbind option_bind]. rewrite Hke.
  set (ch := val_changed _ _ _ _) in *. set (v := if ch then e_def e else e_val e).
  assert (Hv' : v = e_def e) by (unfold v; destruct ch; [done|by apply C]).
  set (st1 := upd_at st (e_at e) (with_val v false)). intros W1.
  assert (W2 : kv_wf (kv_row_delete true st1 k)) by (by apply step_row).
  assert (E1 : find_locked st1 k = Some (with_val (e_def e) false e)).
  { unfold st1. by rewrite (find_upd_at_same _ _ _ _ _ (in_place_val _ _) E), Hv'. }
  eexists _, ch. split_and!; [done|done|exact E1|apply lookup_delete_eq| |].
  - intros k' Hk'. split; [by eapply find_upd_at_other; [|apply in_place_val|exact E| |]|].
    by apply lookup_delete_ne.
  - destruct (kv_loaded (kv_row_delete true st1 k)) eqn:Hld.
    + assert (Hn1 : Z.of_nat (length (entries (kv_row_delete true st1 k))) < 2 ^ 32).
      { change (entries (kv_row_delete true st1 k)) with (entries st1). unfold st1.
        by rewrite entries_upd_at, length_map. }
      destruct (kv_flush_flushed oks _ W2 Hld Hn1) as (rc & st' & cl & -> & H2 & _). cbn [snd].
      rewrite (flushed_row _ _ _ k W2 H2). change (find_locked (kv_row_delete true st1 k) k) with (find_locked st1 k).
      rewrite E1. destruct (cl _) eqn:Ec; [|apply lookup_delete_eq].
      destruct (fl_only _ _ _ _ H2 _ Ec) as (x & Hx & Hxa & Hxd).
      rewrite (entry_at_unique _ _ _ W2 Hx (found _ _ _ W1 E1) Hxa) in Hxd. done.
    + unfold kv_flush. cbn [flush_run flush_step]. rewrite Hld, flush_run_done. apply lookup_delete_eq.
Qed.

(** ** Races *)

Lemma entry_at_same st k e : kv_wf st -> find_locked st k = Some e -> entry_at st (e_at e) = Some e.
Proof.
  intros W E. apply (find_unique e_at Nat.eqb); [apply Nat.eqb_eq|apply W|]. split; [|done]. by eapply found.
Qed.

Lemma after_some st e : e ∈ entries st -> exists rest, after (e_at e) (entries st) = Some rest.
Proof.
  induction (entries st) as [|x es IH]; intros H; [by apply not_elem_of_nil in H|]. cbn [after].
  destruct (Nat.eqb_spec (e_at x) (e_at e)); [by eexists|].
  apply elem_of_cons in H as [->|H]; [done|by apply IH].
Qed.

(** C30: a set that lands while kv_flush writes the same key is lost. The flusher has
    persisted the entry of [k] and is about to take the lock again; another thread
    sets [k] to another number; the flusher then clears the flag that set has raised.
    The entry holds the new value, is clean, and the row still holds the old one: no
    later kv_flush writes the new value. *)
Theorem kv_flush_loses_set st k e v oks :
  kv_wf st -> find_locked st k = Some e -> int_fits (e_type e) v -> INT64_MIN <= v <= INT64_MAX ->
  e_val e <> int_val (e_type e) v -> Z.of_nat (length (entries st)) < 2 ^ 32 ->
  exists st1 st2 pc e', flush_step true (FPersist (e_at e) 0) st = (FClear (e_at e) 0, st1) /\
    (kv_set_int st1 (Some k) v).1 = SUCCESS /\
    flush_step true (FClear (e_at e) 0) (kv_set_int st1 (Some k) v).2.1 = (pc, st2) /\
    find_locked st2 k = Some e' /\ e_val e' = int_val (e_type e) v /\ e_dirty e' = false /\
    k_db st2 !! k = Some (row_of st e) /\ k_db (kv_flush oks st2).2 !! k = Some (row_of st e).
Proof.
  intros W E Hf Hv Hne Hn. set (st1 := (persist_entry true st e).2).
  assert (W1 : kv_wf st1) by (by apply step_row).
  assert (E1 : find_locked st1 k = Some e) by done.
  destruct (int_to_val_iff (e_type e) v Hv) as [[_ Hi]|[Hnf _]]; [|done].
  destruct (int_fits_ok (k_strs st1) _ _ Hf) as [Hok Hnfl].
  destruct (apply_val st1 e (int_val (e_type e) v)) as [sts calls] eqn:A.
  pose proof (apply_val_spec st1 k e _ sts calls W1 E1 Hok Hnfl A) as (ch & Hch & Es & _ & _).
  assert (ch = true) as -> by (destruct ch; [done|]; by destruct Hne; apply Hch).
  rewrite orb_true_r in Es.
  pose proof (apply_val_wf st1 e _ W1 (found _ _ _ W1 E1) Hok) as Ws. rewrite A in Ws. cbn [fst] in Ws.
  assert (Hset : kv_set_int st1 (Some k) v = (SUCCESS, (sts, calls))).
  { unfold kv_set_int, set_num. rewrite E1, Hi. by rewrite A. }
  assert (Hdb : k_db sts = k_db st1) by (unfold apply_val in A; destruct (val_changed _ _ _ _); by injection A as <- _).
  assert (Hen : length (entries sts) = length (entries st)).
  { unfold apply_val in A. destruct (val_changed _ _ _ _); injection A as <- _; [|done].
    by rewrite entries_upd_at, length_map. }
  destruct (after_some sts _ (found _ _ _ Ws Es)) as [rest Hr]. cbn [with_val e_at] in Hr.
  set (st2 := upd_at sts (e_at e) (with_dirty false)).
  assert (E2 : find_locked st2 k = Some (with_dirty false (with_val (int_val (e_type e) v) true e)))
    by (by apply find_upd_at_same; [apply in_place_dirty| |]).
  assert (Hrow : k_db st2 !! k = Some (row_of st e)).
  { change (k_db st2) with (k_db sts). rewrite Hdb. cbn. apply find_locked_iff in E as [_ <-]; [|done].
    apply lookup_insert_eq. }
  exists st1, st2, (flush_walk rest 0), (with_dirty false (with_val (int_val (e_type e) v) true e)).
  split_and!; [|by rewrite Hset|rewrite Hset; cbn [fst snd flush_step]; by rewrite Hr|exact E2|done|done|exact Hrow|].
  - cbn [flush_step]. by rewrite (entry_at_same st k e W E).
  - assert (W2 : kv_wf st2) by (by apply step_dirty).
    apply flush_guarded; [|unfold st2; rewrite entries_upd_at, length_map, Hen; exact Hn].
    constructor; [done|done|]. intros _ x Ex. rewrite E2 in Ex. by injection Ex as <-.
Qed.

(** The pointer kv_flush keeps while it is outside the lock: an unregistration, a
    deletion or an unload of the entry in that window frees what it points at. *)
Lemma kv_flush_reads_freed st k e l ok :
  kv_wf st -> find_locked st k = Some e -> drop_entry st k = (true, l) ->
  flush_step ok (FPersist (e_at e) 0) l = (FFault, l).
Proof.
  intros W E D. cbn [flush_step]. pose proof (drop_entry_step st k W) as [Wl _]. rewrite D in Wl. cbn in Wl.
  destruct (entry_at l (e_at e)) as [x|] eqn:Ex; [|done]. exfalso.
  apply (find_unique e_at Nat.eqb) in Ex as [Hx Ha]; [|apply Nat.eqb_eq|apply Wl].
  unfold drop_entry, bucket in D. destruct (remove_first _ _) as [r|] eqn:R; [|done]. injection D as <-.
  apply remove_first_split in R as (l1 & y & l2 & Hb & -> & Hy). rewrite nth_lookup in Hb.
  destruct (kv_table st !! hash_key k) as [l0|] eqn:El; [|by destruct l1]. cbn in Hb. subst l0.
  destruct (concat_insert (kv_table st) _ _ (l1 ++ l2) El) as (t1 & t2 & Ht & Ht').
  assert (P : entries st ≡ₚ y :: entries (unlink st (<[hash_key k := l1 ++ l2]> (kv_table st)) 1)).
  { unfold entries. cbn. rewrite Ht, Ht'. solve_Permutation. }
  assert (y = e) as ->.
  { pose proof (proj2 (find_locked_iff st k y W)) as Hf. rewrite Hf in E; [congruence|].
    split; [rewrite P; by left|done]. }
  pose proof (wf_ats st W) as Hnd. rewrite P, fmap_cons in Hnd. apply list.NoDup_cons in Hnd as [Hnd _].
  apply Hnd. rewrite <- Ha. by apply list_elem_of_fmap_2.
Qed.

End api.

(** ** A store to try things on *)

(** Floating types that hold integers only, enough to evaluate on. *)
#[export] Instance int_floats : CFloat := {|
  cfloat := Z; cdouble := Z; cldouble := Z;
  strtof := strtoll; strtod := strtoll; strtold := strtoll;
  fmt_f := dec; fmt_d := dec; fmt_ld := dec;
  f_to_d := id; f_to_ld := id; d_to_ld := id; ld_to_f := id; ld_to_d := id;
  d_zero := 0; ld_zero := 0
|}.

Definition decl (key : string) (type : kv_type_t) (def : string) (owner : Z) : kv_decl :=
  {| d_key := Some (lit key); d_type := type; d_default := Some (lit def); d_cb := Some 7; d_cb_data := 9;
     d_help := Some (lit "help"); d_owner_pc := owner |}.

Definition k_max : cstr := lit "core.pool.max".
Definition k_api : cstr := lit "plugin.x.creds.apikey".
Definition k_nick : cstr := lit "bot.a.nick".

Definition sample_cs : list kv_cs :=
  [CsInsert (decl "core.pool.max" KV_UINT16 "8" 100);
   CsInsert (decl "plugin.x.creds.apikey" KV_STR "" 200);
   CsInsert (decl "bot.a.nick" KV_STR "main" 100);
   CsLoaded;
   CsSet (Some k_api) (Some (lit "hunter2"))].

Definition kv_boot : kv := kv_init (kv_zero ∅).
Definition sample : kv := cs_runs kv_boot sample_cs.

Definition mk_entry (a : nat) (k : cstr) (t : kv_type_t) (v d : kv_val_t) (owner : Z) (secret : bool) : kv_entry_t :=
  {| e_at := a; e_key := k; e_type := t; e_val := v; e_def := d; e_cb := Some 7; e_cb_data := 9;
     e_check := None; e_check_data := 0; e_help := Some 1%nat; e_owner_pc := owner; e_dirty := true;
     e_secret := secret |}.

Definition max_entry : kv_entry_t := mk_entry 0 k_max KV_UINT16 (Vu 16 8) (Vu 16 8) 100 false.
Definition api_entry : kv_entry_t := mk_entry 1 k_api KV_STR (Vstr 4) (Vstr 2) 200 true.

Lemma decl_fits k t def o :
  (String.length k < 192)%nat -> forall key, d_key (decl k t def o) = Some key -> (length key < KV_KEY_SZ)%nat.
Proof.
  intros H key [= <-]. unfold KV_KEY_SZ. enough (length (lit k) = String.length k) as -> by done.
  unfold lit. clear. induction k as [|c k IH]; [done|]. cbn. by rewrite IH.
Qed.

Lemma sample_oks : cs_oks kv_boot sample_cs.
Proof.
  unfold sample_cs. cbn [cs_oks cs_ok].
  split_and!; try exact I; apply decl_fits; apply Nat.ltb_lt; reflexivity.
Qed.

Lemma sample_wf : kv_wf sample.
Proof. apply cs_steps; [apply kv_zero_wf|apply sample_oks]. Qed.

Lemma sample_has_max : find_locked sample k_max = Some max_entry.
Proof. vm_cast_no_check (@eq_refl (option kv_entry_t) (Some max_entry)). Qed.

Lemma sample_has_api : find_locked sample k_api = Some api_entry.
Proof. vm_cast_no_check (@eq_refl (option kv_entry_t) (Some api_entry)). Qed.


Lemma kv_str_immortal_witness :
  exists s, str_at (k_strs sample) 4 = Some s /\
    str_at (k_strs (cs_runs sample [CsSet (Some k_api) (Some (lit "other")); CsDrop k_api])) 4 = Some s.
Proof.
  refine (kv_str_immortal ∅ sample_cs [CsSet (Some k_api) (Some (lit "other")); CsDrop k_api] true k_api 4
    sample_oks _ _); [by repeat split|vm_compute; reflexivity].
Defined.

Lemma kv_set_numbers_exact_witness :
  set_exact kv_get_int sample k_max max_entry 70000 (kv_set_int sample (Some k_max) 70000) /\
  set_exact kv_get_uint sample k_max max_entry 12 (kv_set_uint sample (Some k_max) 12) /\
  kv_get_uint (kv_set_uint sample (Some k_max) 12).2.1 k_max = 12.
Proof.
  split_and!; [| |vm_compute; reflexivity].
  - apply (proj1 (kv_set_numbers_exact sample k_max max_entry 70000 sample_wf sample_has_max)).
    unfold INT64_MIN, INT64_MAX. lia.
  - apply (proj2 (kv_set_numbers_exact sample k_max max_entry 12 sample_wf sample_has_max)).
    unfold UINT64_MAX. lia.
Defined.

Lemma kv_text_roundtrip_witness :
  exists s st' calls x, kv_get_val_str true sample (Some k_api) 300 = Some s /\
    kv_set sample (Some k_api) (Some s) = (SUCCESS, (st', calls)) /\
    find_locked st' k_api = Some x /\ e_val x = Vstr 4 /\ (k_api = k_api -> st' = sample /\ calls = []).
Proof.
  apply (kv_text_roundtrip sample k_api k_api api_entry api_entry 300 sample_wf sample_has_api sample_has_api);
    [reflexivity|reflexivity|unfold KV_STR_SZ; lia].
Defined.

(** The same store with another credential. *)
Definition sample2 : kv := cs_runs sample [CsSet (Some k_api) (Some (lit "other"))].

Lemma sample_public : public_eq sample sample2.
Proof.
  unfold public_eq.
  assert (B : forallb (fun p => bool_decide (e_key p.1 = e_key p.2) && bool_decide (e_type p.1 = e_type p.2) &&
      Bool.eqb (e_secret p.1) (e_secret p.2) &&
      (e_secret p.1 || seqb (val_text (k_strs sample) (e_type p.1) (e_val p.1))
                            (val_text (k_strs sample2) (e_type p.1) (e_val p.2))))
    (zip (concat (kv_table sample)) (concat (kv_table sample2))) = true) by (vm_compute; reflexivity).
  assert (L : map length (kv_table sample) = map length (kv_table sample2)) by (vm_compute; reflexivity).
  revert B L. generalize (kv_table sample) (kv_table sample2) (k_strs sample) (k_strs sample2). intros t t' s s'. revert t'.
  induction t as [|l t IH]; intros [|l' t'] B L; try discriminate; [constructor|].
  injection L as L1 L2. cbn [concat] in B. rewrite zip_with_app, forallb_app in B by done.
  apply andb_true_iff in B as [B1 B2]. constructor; [|by apply IH]. clear -B1 L1.
  revert l' B1 L1. induction l as [|e l IH]; intros [|e' l'] B L; try discriminate; [constructor|].
  cbn in B. apply andb_true_iff in B as [B1 B2]. constructor; [|apply IH; [done|by injection L]].
  rewrite !andb_true_iff in B1. destruct B1 as [[[H1 H2] H3] H4].
  apply bool_decide_eq_true in H1, H2. apply Bool.eqb_prop in H3.
  split_and!; [done|done|done|]. intros Hs. rewrite Hs in H4. by apply seqb_true.
Qed.

Lemma kv_secrets_redacted_witness :
  kv_get_val_str false sample (Some k_api) 300 = kv_get_val_str false sample2 (Some k_api) 300 /\
  kv_get_val_str false sample (Some k_api) 300 = Some (lit "[CENSORED]") /\
  kv_get_val_str true sample (Some k_api) 300 = Some (lit "hunter2").
Proof.
  split_and!; [|vm_compute; reflexivity|vm_compute; reflexivity].
  exact (proj1 (proj2 (proj2 (kv_secrets_redacted sample sample2 sample_public))) (Some k_api) 300%nat).
Defined.

Lemma sample_small : Z.of_nat (length (entries sample)) < 2 ^ 32.
Proof. vm_compute. reflexivity. Qed.

Lemma sample_loaded : kv_loaded sample = true.
Proof. vm_compute. reflexivity. Qed.

Lemma kv_flush_finishes_witness :
  exists rc st', kv_flush (fun _ => true) sample = (FDone rc, st') /\ kv_wf st' /\ rc = SUCCESS.
Proof.
  destruct (kv_flush_finishes (fun _ => true) sample sample_wf sample_loaded sample_small)
    as (rc & st' & H1 & H2 & _ & _ & _ & H6).
  exists rc, st'. split; [exact H1|]. split; [exact H2|]. apply H6. reflexivity.
Defined.

Lemma kv_reset_reverts_witness :
  exists st' ch, kv_reset true sample (Some k_api) = (true, (st', call ch api_entry)) /\
    k_db st' !! k_api = None /\ k_db (kv_flush (fun _ => true) st').2 !! k_api = None.
Proof.
  destruct (kv_reset_reverts sample k_api api_entry (fun _ => true) sample_wf sample_has_api eq_refl
    ltac:(discriminate) sample_small) as (st' & ch & H1 & _ & _ & H4 & _ & H6).
  exists st', ch. split; [exact H1|]. split; [exact H4|exact H6].
Defined.

(** A database with a row under the key, of another type than the registration. *)
Definition old_row : kv_row := {| r_type := type_id KV_STR; r_value := lit "tuned" |}.
Definition old_db : gmap cstr kv_row := {[ k_max := old_row ]}.

Definition sample_ops : list kv_op :=
  [OpFlush (fun _ => true); OpLoad false; OpRegister (decl "bot.a.nick" KV_STR "main" 100); OpLoad true;
   OpRegister (decl "core.pool.max" KV_UINT16 "8" 200); OpFlush (fun _ => true); OpReclaim (fun _ => true) 200 300;
   OpRegister (decl "core.pool.max" KV_STR "8" 200); OpSet (Some k_nick) (Some (lit "x"));
   OpDeletePrefix true (Some (lit "bot.")); OpFlush (fun _ => true)].

Lemma sample_ops_ok : ops_ok (kv_init (kv_zero old_db)) sample_ops.
Proof.
  assert (L : Z.of_nat 0 < 2 ^ 32) by lia.
  unfold sample_ops. cbn [ops_ok op_ok]. split_and!; try exact I; try (apply decl_fits; apply Nat.ltb_lt; reflexivity).
  all: vm_compute; reflexivity.
Qed.


Lemma kv_flush_loses_set_witness :
  exists st1 st2 pc e', flush_step true (FPersist 0 0) sample = (FClear 0 0, st1) /\
    (kv_set_int st1 (Some k_max) 12).1 = SUCCESS /\
    flush_step true (FClear 0 0) (kv_set_int st1 (Some k_max) 12).2.1 = (pc, st2) /\
    find_locked st2 k_max = Some e' /\ e_val e' = Vu 16 12 /\ e_dirty e' = false /\
    k_db st2 !! k_max = Some (row_of sample max_entry) /\
    k_db (kv_flush (fun _ => true) st2).2 !! k_max = Some (row_of sample max_entry).
Proof.
  refine (kv_flush_loses_set sample k_max max_entry 12 (fun _ => true) sample_wf sample_has_max _ _ _ sample_small).
  - exists 0, 65535. split; [reflexivity|lia].
  - unfold INT64_MIN, INT64_MAX. lia.
  - discriminate.
Defined.

(** ** What the comments of the code do not say *)

Definition row_text (st : kv) (k : cstr) : option cstr := r_value <$> k_db st !! k.

(** Registration looks its key up again after reading the database with the lock
    released, for the case that the entry has gone; if in that window the key was
    registered anew with another type, the value of the first type is stored in it. *)
Lemma kv_register_race_types :
  let k := lit "k" in
  let st := cs_runs kv_boot [CsInsert (decl "k" KV_INT8 "1" 100); CsDrop k; CsInsert (decl "k" KV_STR "a" 100);
                          CsRehydrate k KV_INT8 (Some (type_id KV_INT8, lit "5"))] in
  match find_locked st k with
  | Some e => e_type e = KV_STR /\ get_i 8 (e_val e) = 5 /\ str_at (k_strs st) (get_p (e_val e)) = None
  | None => False
  end.
Proof. vm_compute. split; [|split]; reflexivity. Qed.

(** Between its critical sections a registration shows the others a dirty default: a
    kv_flush that runs there writes the default over the stored row. The registration
    then adopts the row it has read, clean: the tuned value is lost with the process. *)
Lemma kv_register_race_clobbers :
  let db := {[ k_max := {| r_type := type_id KV_UINT16; r_value := lit "99" |} ]} in
  let st1 := cs_runs (kv_init (kv_zero db)) [CsLoaded; CsInsert (decl "core.pool.max" KV_UINT16 "8" 100)] in
  let row := kv_db_lookup_one true st1 k_max KV_STR_SZ in
  let st2 := (kv_flush (fun _ => true) st1).2 in
  let st3 := kv_register_rehydrate st2 k_max KV_UINT16 row in
  kv_get_uint st3 k_max = 99 /\ row_text st3 k_max = Some (lit "8") /\
  row_text (kv_flush (fun _ => true) st3).2 k_max = Some (lit "8").
Proof. vm_compute. split; [|split]; reflexivity. Qed.

(** A look-up the database does not answer is taken for a missing row. *)
Lemma kv_register_failed_lookup_clobbers :
  let db := {[ k_max := {| r_type := type_id KV_UINT16; r_value := lit "99" |} ]} in
  let st := set_loaded (kv_init (kv_zero db)) true in
  let '(rc, st) := kv_register_owned false st (decl "core.pool.max" KV_UINT16 "8" 100) in
  rc = SUCCESS /\ row_text (kv_flush (fun _ => true) st).2 k_max = Some (lit "8").
Proof. vm_compute. split; reflexivity. Qed.

(** Unloading a plugin before the restore writes its defaults over the rows: kv_flush
    refuses to, kv_reclaim_owned does not ask. *)
Lemma kv_reclaim_before_load_clobbers :
  let st := op_run (kv_init (kv_zero old_db)) (OpRegister (decl "core.pool.max" KV_UINT16 "8" 200)) in
  row_text (op_run st (OpFlush (fun _ => true))) k_max = Some (lit "tuned") /\
  row_text (op_run st (OpReclaim (fun _ => true) 200 300)) k_max = Some (lit "8").
Proof. vm_compute. split; reflexivity. Qed.

(** The prefix is a LIKE pattern: an underscore in it matches any character. *)
Lemma kv_delete_prefix_overmatches :
  let other := lit "bot.axb.nick" in
  let db := {[ other := {| r_type := type_id KV_STR; r_value := lit "n" |} ]} in
  let st := ops_run (kv_init (kv_zero db))
    [OpRegister (decl "bot.a_b.nick" KV_STR "" 100); OpRegister (decl "bot.axb.nick" KV_STR "" 100); OpLoad true;
     OpDeletePrefix true (Some (lit "bot.a_b."))] in
  kv_exists st other = true /\ row_text st other = None /\
  row_text (kv_flush (fun _ => true) st).2 other = None.
Proof. vm_compute. split; [|split]; reflexivity. Qed.

(** A key that does not fit the field is stored cut and never found again: each
    registration of it adds another entry. *)
Lemma kv_register_long_key :
  let k := repeat "k"%char 200 in
  let d := {| d_key := Some k; d_type := KV_BOOL; d_default := Some (lit "0"); d_cb := None; d_cb_data := 0;
              d_help := None; d_owner_pc := 100 |} in
  let '(rc1, st1) := kv_register_owned true kv_boot d in
  let '(rc2, st2) := kv_register_owned true st1 d in
  rc1 = SUCCESS /\ rc2 = SUCCESS /\ kv_exists st2 k = false /\ length (entries st2) = 2%nat.
Proof. vm_compute. repeat split. Qed.

(** The conversions are not checked for overflow, and strtoull takes a minus sign. *)
Lemma str_to_val_wraps :
  str_to_val (no_strs 0 1) KV_UINT64 (lit "-1") = (Some (Vu 64 (2 ^ 64 - 1)), no_strs 0 1) /\
  str_to_val (no_strs 0 1) KV_UINT8 (lit "-18446744073709551615") = (Some (Vu 8 1), no_strs 0 1) /\
  str_to_val (no_strs 0 1) KV_INT64 (lit "99999999999999999999") = (Some (Vi 64 (2 ^ 63 - 1)), no_strs 0 1).
Proof. split; [|split]; reflexivity. Qed.
