(* ===== verification/IrcParse.v ===== *)
(** * IRC text: plugins/method/irc/irc_parse.c and irc_identity.c

    What the driver believes of a line a peer sent: the parser of a line and of its
    prefix, and the projection of a prefix onto the generic identity a message carries.
    A function that fails leaves its output buffers to a caller that does not read them,
    so failure is None. *)

From S2P Require Import Prelude.

(** ** Sizes: irc.h *)

Definition IRC_LINE_SZ : nat := 512.
Definition IRC_NICK_SZ : nat := 32.
Definition IRC_HOST_SZ : nat := 256.
Definition IRC_USERHOST_SZ : nat := IRC_NICK_SZ + IRC_HOST_SZ + 2.
Definition IRC_MFA_SZ : nat := IRC_NICK_SZ + IRC_USERHOST_SZ + 1.
Definition IRC_PREFIX_SZ : nat := IRC_MFA_SZ.

Record irc_parsed_msg_t := {
  p_prefix : cstr;
  p_nick : cstr;
  p_user : cstr;
  p_host : cstr;
  p_command : cstr;
  p_params : cstr;
  p_trailing : cstr;
  p_has_trailing : bool
}.

(** ** irc_parse.c *)

Definition irc_field_set (sz : nat) (src : cstr) : option cstr :=
  if (sz <=? length src)%nat then None else Some src.

(** Nick, user and host. *)
Definition irc_parse_prefix (pfx : cstr) : option (cstr * cstr * cstr) :=
  match strchr pfx "!", strchr pfx "@" with
  | Some bang, Some at_ =>
      if (bang <? at_)%nat then
        nick ← irc_field_set IRC_NICK_SZ (take bang pfx);
        user ← irc_field_set IRC_NICK_SZ (take (at_ - bang - 1) (drop (S bang) pfx));
        host ← irc_field_set IRC_HOST_SZ (drop (S at_) pfx);
        Some (nick, user, host)
      else Some (strlcpy IRC_NICK_SZ pfx, [], [])
  | _, _ => Some (strlcpy IRC_NICK_SZ pfx, [], [])
  end.

Definition is_space_chr (c : ascii) : bool := ceqb c " ".

(** The prefix with its three parts, and what follows it. *)
Definition line_prefix (line : cstr) : option (cstr * (cstr * cstr * cstr) * cstr) :=
  match line with
  | c :: pos =>
      if ceqb c ":" then
        fin ← strchr pos " ";
        pfx ← irc_field_set IRC_PREFIX_SZ (take fin pos);
        parts ← irc_parse_prefix pfx;
        Some (pfx, parts, skip_while is_space_chr (drop (S fin) pos))
      else Some ([], ([], [], []), line)
  | [] => Some ([], ([], [], []), line)
  end.

(** The command, and what follows it, if anything does. *)
Definition line_command (pos : cstr) : option (cstr * option cstr) :=
  match strchr pos " " with
  | Some fin =>
      command ← irc_field_set 32 (take fin pos);
      Some (command, Some (skip_while is_space_chr (drop (S fin) pos)))
  | None => command ← irc_field_set 32 pos; Some (command, None)
  end.

(** Parameters, trailing text, and whether there is one. *)
Definition line_params (pos : cstr) : cstr * cstr * bool :=
  match strstr pos (lit " :") with
  | Some trail => (strlcpy IRC_LINE_SZ (take trail pos), strlcpy IRC_LINE_SZ (drop (trail + 2) pos), true)
  | None =>
      if ceqb (deref pos) ":" then ([], strlcpy IRC_LINE_SZ (drop 1 pos), true)
      else (strlcpy IRC_LINE_SZ pos, [], false)
  end.

Definition irc_parse_line (line : cstr) : option irc_parsed_msg_t :=
  '(pfx, (nick, user, host), pos) ← line_prefix line;
  '(command, pos) ← line_command pos;
  let '(params, trailing, has_trailing) :=
    match pos with Some pos => line_params pos | None => ([], [], false) end in
  Some {| p_prefix := pfx; p_nick := nick; p_user := user; p_host := host; p_command := command;
          p_params := params; p_trailing := trailing; p_has_trailing := has_trailing |}.

(** ** irc_identity.c *)

Definition irc_identity_byte_safe (c : ascii) : bool :=
  negb ((code c <? 32) || ceqb c (chr 34) || ceqb c "\").

Definition irc_identity_field_safe (s : cstr) : bool := forallb irc_identity_byte_safe s.

(** [%x] *)
Fixpoint hex_aux (fuel : nat) (n : Z) (acc : cstr) : cstr :=
  match fuel with
  | O => acc
  | S fuel =>
      let d := n mod 16 in
      let acc := chr (if d <? 10 then 48 + d else 87 + d) :: acc in
      if n <? 16 then acc else hex_aux fuel (n / 16) acc
  end.

Definition hex (n : Z) : cstr := hex_aux 8 n [].

Definition xdigit_val (c : ascii) : option Z :=
  if isdigit c then Some (code c - 48)
  else if in_range 97 102 (code c) then Some (code c - 97 + 10)
  else if in_range 65 70 (code c) then Some (code c - 65 + 10)
  else None.

(** The loop over the digits of a group: the value and where it stopped. *)
Fixpoint group_loop (p : cstr) (g : Z) (digits : nat) : option (Z * nat * cstr) :=
  match p with
  | [] => Some (g, digits, p)
  | c :: p' =>
      if ceqb c ":" then Some (g, digits, p)
      else
        v ← xdigit_val c;
        if (4 <=? digits)%nat then None
        else group_loop p' (Z.lor (Z.shiftl g 4) v) (S digits)
  end.

(** None is the -1 of the code. *)
Definition irc_identity_parse_ipv6_group (p : cstr) : option (Z * cstr) :=
  '(g, digits, p) ← group_loop p 0 0;
  if (digits =? 0)%nat then None else Some (g, p).

(** The first two groups of an IPv6 address. *)
Definition ipv6_groups (host : cstr) : option (Z * Z) :=
  if starts_with host (lit "::") then Some (0, 0)
  else if ceqb (deref host) ":" then None
  else
    '(v1, p) ← irc_identity_parse_ipv6_group host;
    match p with
    | c :: p =>
        if negb (ceqb (deref p) ":") then '(v2, _) ← irc_identity_parse_ipv6_group p; Some (v1, v2)
        else Some (v1, 0)
    | [] => None
    end.

(** The text left in a buffer of [sz] bytes; the caller ignores whether it worked. *)
Definition irc_identity_ipv6_head (host : cstr) (sz : nat) : cstr :=
  match ipv6_groups host with
  | Some (g1, g2) =>
      let text := hex g1 ++ lit ":" ++ hex g2 in
      if (sz <=? length text)%nat then [] else text
  | None => []
  end.

(** The scan of a dotted quad; the end of the text closes the last label. *)
Fixpoint ipv4_loop (p : cstr) (digits value octets : Z) : bool :=
  match p with
  | c :: p' =>
      if isdigit c then
        if 3 <? digits + 1 then false
        else ipv4_loop p' (digits + 1) (value * 10 + (code c - 48)) octets
      else if (digits =? 0) || (255 <? value) then false
      else if ceqb c "." then ipv4_loop p' 0 0 (octets + 1)
      else false
  | [] => if (digits =? 0) || (255 <? value) then false else octets + 1 =? 4
  end.

Definition irc_identity_is_ipv4_literal (host : cstr) : bool :=
  match host with [] => false | _ => ipv4_loop host 0 0 0 end.

(** Back from the last dot to the start of the label before it. *)
Fixpoint label_start (host : cstr) (i : nat) : nat :=
  match i with
  | O => O
  | S j => if ceqb (nth j host NUL) "." then i else label_start host j
  end.

Definition irc_identity_host_tail (host : cstr) (sz : nat) : cstr :=
  match host with
  | [] => []
  | _ =>
      match strchr host ":" with
      | Some _ => irc_identity_ipv6_head host sz
      | None =>
          if irc_identity_is_ipv4_literal host then
            match strchr host "." with
            | Some first =>
                match strchr (drop (S first) host) "." with
                | Some second => strlcpy sz (take (S first + second) host)
                | None => []
                end
            | None => []
            end
          else
            match strrchr host "." with
            | None => strlcpy sz host
            | Some last => strlcpy sz (drop (label_start host last) host)
            end
      end
  end.

Definition user_cloak : cstr := lit "user/".

Definition in_account (c : ascii) : bool := negb (ceqb c "/" || ceqb c ":").

Definition irc_identity_extract_cloak (host : cstr) (sz : nat) : cstr :=
  if strneq (length user_cloak) host user_cloak then
    strlcpy sz (span in_account (drop (length user_cloak) host))
  else [].

Definition irc_identity_norm_ident (ident : cstr) (sz : nat) : cstr :=
  let p := if ceqb (deref ident) "~" then drop 1 ident else ident in
  strlcpy sz (map tolower p).

(** Nick, ident and host, each cut to its buffer. *)
Definition irc_identity_split_prefix (pfx : cstr) (nick_sz ident_sz host_sz : nat) : option (cstr * cstr * cstr) :=
  match strchr pfx "!", strchr pfx "@" with
  | Some bang, Some at_ =>
      if (at_ <=? bang)%nat then None
      else
        let nlen := bang in
        let ilen := (at_ - bang - 1)%nat in
        if (nlen =? 0)%nat || (ilen =? 0)%nat then None
        else
          Some (strlcpy nick_sz (take nlen pfx), strlcpy ident_sz (take ilen (drop (S bang) pfx)),
                strlcpy host_sz (drop (S at_) pfx))
  | _, _ => None
  end.

Record irc_quad := { q_nickname : cstr; q_username : cstr; q_hostname : cstr; q_verified_id : cstr }.

Definition empty_quad : irc_quad := {| q_nickname := []; q_username := []; q_hostname := []; q_verified_id := [] |}.

(** The result and what the four buffers hold afterwards; the buffers exist, so the
    checks for NULL never fire. *)
Definition irc_identity_fill_quad (pfx : cstr) (nick_sz user_sz host_sz id_sz : nat) : bool * irc_quad :=
  match irc_identity_split_prefix pfx IRC_NICK_SZ IRC_NICK_SZ IRC_HOST_SZ with
  | None => (false, empty_quad)
  | Some (nick, ident, host) =>
      if negb (irc_identity_field_safe nick) || negb (irc_identity_field_safe ident)
         || negb (irc_identity_field_safe host)
      then (false, empty_quad)
      else
        let q :=
          {| q_nickname := strlcpy nick_sz nick;
             q_username := irc_identity_norm_ident ident user_sz;
             q_hostname := irc_identity_host_tail host host_sz;
             q_verified_id := irc_identity_extract_cloak host id_sz |} in
        if negb (irc_identity_field_safe (q_verified_id q)) then
          (false, {| q_nickname := q_nickname q; q_username := q_username q; q_hostname := q_hostname q;
                     q_verified_id := [] |})
        else (true, q)
  end.

(** ** What a conforming peer sends *)

Inductive irc_origin :=
  | NoOrigin
  | FromServer (name : cstr)
  | FromUser (nick user host : cstr).

Record irc_message := {
  msg_origin : irc_origin;
  msg_command : cstr;
  msg_params : list cstr;
  msg_trailing : option cstr
}.

Definition origin_text (o : irc_origin) : cstr :=
  match o with
  | NoOrigin => []
  | FromServer name => name
  | FromUser nick user host => nick ++ lit "!" ++ user ++ lit "@" ++ host
  end.

(** Words, each after a space. *)
Fixpoint spaced (ws : list cstr) : cstr :=
  match ws with [] => [] | w :: ws => lit " " ++ w ++ spaced ws end.

Definition irc_format (m : irc_message) : cstr :=
  match msg_origin m with NoOrigin => [] | o => lit ":" ++ origin_text o ++ lit " " end
  ++ msg_command m ++ spaced (msg_params m)
  ++ match msg_trailing m with Some t => lit " :" ++ t | None => [] end.

(** A parameter: not empty, without spaces, not starting with a colon. *)
Definition word_ok (w : cstr) : Prop := w <> [] /\ " "%char ∉ w /\ deref w <> ":"%char.

Definition origin_ok (o : irc_origin) : Prop :=
  match o with
  | NoOrigin => True
  | FromServer name =>
      " "%char ∉ name /\ "@"%char ∉ name /\ (length name < IRC_PREFIX_SZ)%nat
  | FromUser nick user host =>
      (" "%char ∉ nick /\ "!"%char ∉ nick /\ "@"%char ∉ nick /\ (length nick < IRC_NICK_SZ)%nat)
      /\ (" "%char ∉ user /\ "@"%char ∉ user /\ (length user < IRC_NICK_SZ)%nat)
      /\ (" "%char ∉ host /\ (length host < IRC_HOST_SZ)%nat)
  end.

(** Without parameters the trailing text must not hold a space and a colon: the parser
    would take the text before them for parameters. *)
Definition message_ok (m : irc_message) : Prop :=
  origin_ok (msg_origin m)
  /\ word_ok (msg_command m) /\ (length (msg_command m) < 32)%nat
  /\ Forall word_ok (msg_params m) /\ (length (spaced (msg_params m)) <= IRC_LINE_SZ)%nat
  /\ match msg_trailing m with
     | Some t => (length t < IRC_LINE_SZ)%nat /\ (msg_params m = [] -> strstr t (lit " :") = None)
     | None => True
     end.

Definition origin_parts (o : irc_origin) : cstr * cstr * cstr :=
  match o with
  | NoOrigin => ([], [], [])
  | FromServer name => (strlcpy IRC_NICK_SZ name, [], [])
  | FromUser nick user host => (nick, user, host)
  end.

(** What the parser is to make of a message. *)
Definition parsed (m : irc_message) : irc_parsed_msg_t :=
  let '(nick, user, host) := origin_parts (msg_origin m) in
  {| p_prefix := origin_text (msg_origin m); p_nick := nick; p_user := user; p_host := host;
     p_command := msg_command m; p_params := drop 1 (spaced (msg_params m));
     p_trailing := default [] (msg_trailing m);
     p_has_trailing := match msg_trailing m with Some _ => true | None => false end |}.

Lemma field_set_fits sz s : (length s < sz)%nat -> irc_field_set sz s = Some s.
Proof. intros H. unfold irc_field_set. by zcond. Qed.

Lemma field_set_Some sz s r : irc_field_set sz s = Some r -> r = s /\ (length s < sz)%nat.
Proof. unfold irc_field_set. case_step; [done|]. intros [= <-]. breflect. done. Qed.

(** *** The separator of the trailing text *)

Lemma strstr_sep_skip w s :
  " "%char ∉ w -> strstr (w ++ s) (lit " :") = Nat.add (length w) <$> strstr s (lit " :").
Proof.
  induction w as [|c w IH]; intros H; [cbn [app length]; by destruct (strstr s _)|].
  apply not_elem_of_cons in H as [H1 H2]. cbn [app strstr].
  replace (starts_with (c :: w ++ s) (lit " :")) with false.
  - rewrite (IH H2). by destruct (strstr s _).
  - symmetry. apply seqb_false. cbn. congruence.
Qed.

Lemma strstr_sep_space c s : c <> ":"%char -> strstr (" "%char :: c :: s) (lit " :") = S <$> strstr (c :: s) (lit " :").
Proof.
  intros H. cbn [strstr]. replace (starts_with (" "%char :: c :: s) (lit " :")) with false; [done|].
  symmetry. apply seqb_false. cbn. congruence.
Qed.

Lemma spaced_drop w ws : drop 1 (spaced (w :: ws)) = w ++ spaced ws.
Proof. done. Qed.

(** The first separator after words is the one that follows them. *)
Lemma strstr_words w ws s :
  word_ok w -> Forall word_ok ws ->
  strstr (w ++ spaced ws ++ s) (lit " :") = Nat.add (length (w ++ spaced ws)) <$> strstr s (lit " :").
Proof.
  intros Hw Hws. revert w Hw. induction Hws as [|v ws Hv _ IH]; intros w (Hw1 & Hw2 & Hw3).
  - cbn [spaced app]. rewrite app_nil_r. by apply strstr_sep_skip.
  - cbn [spaced]. rewrite strstr_sep_skip by done. pose proof Hv as (Hv1 & Hv2 & Hv3).
    destruct v as [|c v]; [done|]. cbn [lit list_ascii_of_string app]. rewrite strstr_sep_space by done.
    specialize (IH (c :: v) Hv). cbn [app] in IH |- *. rewrite <- app_assoc, IH.
    destruct (strstr s _); cbn; [|done]. f_equal. rewrite !length_app. cbn. rewrite length_app. lia.
Qed.

Lemma words_no_sep w ws : word_ok w -> Forall word_ok ws -> strstr (w ++ spaced ws) (lit " :") = None.
Proof. intros Hw Hws. pose proof (strstr_words w ws [] Hw Hws) as H. by rewrite app_nil_r in H. Qed.

Lemma skip_spaces_word w s : word_ok w -> skip_while is_space_chr (w ++ s) = w ++ s.
Proof.
  intros (H1 & H2 & _). destruct w as [|c w]; [done|]. apply skip_while_stop.
  unfold is_space_chr. apply ceqb_false. set_solver.
Qed.

(** *** The three parts of a line *)

Lemma line_params_words w ws t :
  word_ok w -> Forall word_ok ws -> (length (w ++ spaced ws) < IRC_LINE_SZ)%nat ->
  match t with Some t => (length t < IRC_LINE_SZ)%nat | None => True end ->
  line_params (w ++ spaced ws ++ match t with Some t => lit " :" ++ t | None => [] end)
  = (w ++ spaced ws, default [] t, match t with Some _ => true | None => false end).
Proof.
  intros Hw Hws Hl Ht. unfold line_params. destruct t as [t|].
  - rewrite strstr_words by done. cbn [strstr lit list_ascii_of_string app].
    replace (starts_with _ _) with true by (symmetry; by apply seqb_true).
    cbn [fmap option_fmap option_map]. rewrite Nat.add_0_r, app_assoc.
    rewrite take_app_length, drop_app_add'. 2: done. cbn [drop default]. by rewrite !strlcpy_fits.
  - rewrite app_nil_r, words_no_sep by done. destruct Hw as (H1 & H2 & H3).
    destruct w as [|c w]; [done|]. cbn [app deref]. rewrite (proj2 (ceqb_false _ _)) by done.
    by rewrite strlcpy_fits.
Qed.

Lemma line_params_bare t :
  (length t < IRC_LINE_SZ)%nat -> strstr t (lit " :") = None -> line_params (lit ":" ++ t) = ([], t, true).
Proof.
  intros Hl Ht. unfold line_params. rewrite strstr_sep_skip, Ht by set_solver.
  cbn [fmap option_fmap option_map lit list_ascii_of_string app deref drop].
  by rewrite ceqb_refl, strlcpy_fits by done.
Qed.

Lemma parse_prefix_user nick user host :
  "!"%char ∉ nick -> "@"%char ∉ nick -> "@"%char ∉ user ->
  irc_parse_prefix (origin_text (FromUser nick user host)) =
    (n ← irc_field_set IRC_NICK_SZ nick; u ← irc_field_set IRC_NICK_SZ user;
     h ← irc_field_set IRC_HOST_SZ host; Some (n, u, h)).
Proof.
  intros H1 H2 H3. unfold irc_parse_prefix. cbn [origin_text lit list_ascii_of_string app].
  rewrite strchr_app_fresh by done. rewrite strchr_app_stop by done. cbn [strchr].
  replace (ceqb "!" "@") with false by done. rewrite strchr_app_fresh by done.
  cbn [fmap option_fmap option_map].
  replace (length nick <? length nick + S (length user))%nat with true by (symmetry; apply Nat.ltb_lt; lia).
  rewrite take_app_length, drop_past.
  replace (length nick + S (length user) - length nick - 1)%nat with (length user) by lia.
  rewrite take_app_length. replace (S (length nick + S (length user))) with (length nick + S (S (length user)))%nat by lia.
  rewrite <- (drop_drop (nick ++ _)), drop_app_length. cbn [drop]. by rewrite drop_past.
Qed.

Lemma parse_prefix_server name :
  "@"%char ∉ name -> irc_parse_prefix name = Some (strlcpy IRC_NICK_SZ name, [], []).
Proof. intros H. unfold irc_parse_prefix. rewrite (proj2 (strchr_None _ _) H). by destruct (strchr name "!"). Qed.

Lemma line_prefix_text o s :
  o <> NoOrigin -> origin_ok o -> deref s <> " "%char ->
  line_prefix (lit ":" ++ origin_text o ++ lit " " ++ s) = Some (origin_text o, origin_parts o, s).
Proof.
  intros Hn Ho Hs. cbn [line_prefix lit list_ascii_of_string app]. rewrite ceqb_refl.
  assert (" "%char ∉ origin_text o /\ (length (origin_text o) < IRC_PREFIX_SZ)%nat
          /\ irc_parse_prefix (origin_text o) = Some (origin_parts o)) as (H1 & H2 & H3).
  { destruct o as [|name|nick user host]; [done|..].
    - destruct Ho as (? & ? & ?). cbn [origin_text origin_parts]. auto using parse_prefix_server.
    - destruct Ho as ((? & ? & ? & ?) & (? & ? & ?) & ? & ?). split_and!.
      + cbn [origin_text lit list_ascii_of_string app]. rewrite elem_of_app, elem_of_cons, elem_of_app, elem_of_cons.
        naive_solver.
      + cbn [origin_text lit list_ascii_of_string app]. rewrite length_app. cbn. rewrite length_app. cbn.
        unfold IRC_PREFIX_SZ, IRC_MFA_SZ, IRC_USERHOST_SZ, IRC_NICK_SZ, IRC_HOST_SZ in *. lia.
      + rewrite parse_prefix_user by done. by rewrite !field_set_fits by done. }
  rewrite strchr_app_fresh by done. cbn [mbind option_bind]. rewrite take_app_length, drop_past.
  rewrite field_set_fits by done. cbn [mbind option_bind]. rewrite H3. cbn [mbind option_bind].
  do 3 f_equal. destruct s as [|c s]; [done|]. apply skip_while_stop. unfold is_space_chr. by apply ceqb_false.
Qed.

Lemma line_command_words w t :
  word_ok w -> (length w < 32)%nat ->
  line_command w = Some (w, None)
  /\ (deref t <> " "%char -> line_command (w ++ lit " " ++ t) = Some (w, Some t)).
Proof.
  intros (H1 & H2 & H3) Hl. unfold line_command. split.
  - rewrite (proj2 (strchr_None _ _) H2). by rewrite field_set_fits.
  - intros Ht. cbn [lit list_ascii_of_string app]. rewrite strchr_app_fresh by done.
    rewrite take_app_length, drop_past, field_set_fits by done. cbn [mbind option_bind]. do 3 f_equal.
    destruct t as [|c t]; [done|]. apply skip_while_stop. unfold is_space_chr. by apply ceqb_false.
Qed.

(** What follows the prefix. *)
Lemma rest_parsed m :
  message_ok m ->
  let rest := msg_command m ++ spaced (msg_params m)
              ++ match msg_trailing m with Some t => lit " :" ++ t | None => [] end in
  exists pos, line_command rest = Some (msg_command m, pos)
    /\ match pos with Some pos => line_params pos | None => ([], [], false) end
       = (drop 1 (spaced (msg_params m)), default [] (msg_trailing m),
          match msg_trailing m with Some _ => true | None => false end).
Proof.
  intros (_ & Hc & Hcl & Hp & Hpl & Ht). cbv zeta.
  destruct (msg_params m) as [|w ws].
  - destruct (msg_trailing m) as [t|]; cbn [spaced app].
    + destruct Ht as [Ht1 Ht2]. exists (Some (lit ":" ++ t)). split.
      * by apply (proj2 (line_command_words _ (lit ":" ++ t) Hc Hcl)).
      * by apply line_params_bare; auto.
    + exists None. rewrite app_nil_r. split; [|done]. by apply (line_command_words _ [] Hc Hcl).
  - pose proof (Forall_cons_1 _ _ _ Hp) as [Hw Hws]. cbn [spaced] in *. rewrite <- !app_assoc.
    eexists. split.
    + apply (proj2 (line_command_words _ _ Hc Hcl)). destruct Hw as (? & Hw & ?).
      destruct w as [|c w]; [done|]. cbn [deref app]. intros E. apply Hw, elem_of_cons. by left.
    + cbn [drop]. replace (drop 1 (lit " " ++ w ++ spaced ws)) with (w ++ spaced ws) by done.
      apply line_params_words; [done|done| |destruct (msg_trailing m); naive_solver].
      cbn in Hpl. lia.
Qed.

(** a line a conforming peer prints is parsed back into its parts, whatever they
    are: prefix, nick, user and host, command, parameters and trailing text. *)
Theorem irc_parse_format m : message_ok m -> irc_parse_line (irc_format m) = Some (parsed m).
Proof.
  intros Hm. pose proof (rest_parsed m Hm) as (pos & Hcmd & Hpar). pose proof Hm as (Ho & (Hc1 & Hc2 & Hc3) & _).
  unfold irc_parse_line, irc_format, parsed. destruct (msg_command m) as [|c cs] eqn:Ec; [done|].
  set (rest := (c :: cs) ++ _) in *. assert (line_prefix
    (match msg_origin m with NoOrigin => [] | o => lit ":" ++ origin_text o ++ lit " " end ++ rest)
    = Some (origin_text (msg_origin m), origin_parts (msg_origin m), rest)) as ->.
  { destruct (msg_origin m) eqn:Eo.
    - unfold rest. cbn [app line_prefix]. by rewrite (proj2 (ceqb_false _ _)) by done.
    - rewrite <- !app_assoc. apply line_prefix_text; [done|done|]. cbn. set_solver.
    - rewrite <- !app_assoc. apply line_prefix_text; [done|done|]. cbn. set_solver. }
  cbn [mbind option_bind]. destruct (origin_parts (msg_origin m)) as [[nick user] host].
  rewrite Hcmd. cbn [mbind option_bind]. by rewrite Hpar.
Qed.

Lemma irc_parse_format_witness :
  irc_parse_line (lit ":nick!user@host PRIVMSG #chan :see: this :)")
  = Some {| p_prefix := lit "nick!user@host"; p_nick := lit "nick"; p_user := lit "user"; p_host := lit "host";
            p_command := lit "PRIVMSG"; p_params := lit "#chan"; p_trailing := lit "see: this :)";
            p_has_trailing := true |}.
Proof.
  apply (irc_parse_format
    {| msg_origin := FromUser (lit "nick") (lit "user") (lit "host"); msg_command := lit "PRIVMSG";
       msg_params := [lit "#chan"]; msg_trailing := Some (lit "see: this :)") |}).
  unfold message_ok, origin_ok, word_ok. cbn [msg_origin msg_command msg_params msg_trailing].
  split_and!; solve [by apply (bool_decide_unpack _) | done].
Defined.

(** Without parameters, a trailing text that holds a space and a colon is cut there. *)
Lemma irc_trailing_cut :
  irc_parse_line (lit ":nick!user@host QUIT :good night :)")
  = Some {| p_prefix := lit "nick!user@host"; p_nick := lit "nick"; p_user := lit "user"; p_host := lit "host";
            p_command := lit "QUIT"; p_params := lit ":good night"; p_trailing := lit ")"; p_has_trailing := true |}.
Proof. by vm_compute. Qed.

(** ** Whom a line names *)

Definition safe_text (s : cstr) : Prop := Forall (fun c => irc_identity_byte_safe c = true) s.

Lemma field_safe_iff s : irc_identity_field_safe s = true <-> safe_text s.
Proof. unfold irc_identity_field_safe, safe_text. by rewrite forallb_forall, List.Forall_forall. Qed.

Lemma safe_take n s : safe_text s -> safe_text (take n s).
Proof. apply Forall_take. Qed.

Lemma safe_strlcpy sz s : safe_text s -> safe_text (strlcpy sz s).
Proof. apply Forall_take. Qed.

Lemma safe_drop n s : safe_text s -> safe_text (drop n s).
Proof. apply Forall_drop. Qed.

Lemma safe_span P s : safe_text s -> safe_text (span P s).
Proof. intros H. rewrite <- (span_skip P s) in H. by apply Forall_app in H as [? _]. Qed.

Lemma safe_lower s : safe_text s -> safe_text (map tolower s).
Proof.
  unfold safe_text. rewrite Forall_map. apply Forall_impl. intros c H.
  assert (implb (irc_identity_byte_safe c) (irc_identity_byte_safe (tolower c)) = true) as Hl
    by by_chars (fun c => implb (irc_identity_byte_safe c) (irc_identity_byte_safe (tolower c))) c.
  by rewrite H in Hl.
Qed.

Lemma safe_hex_digit d : 0 <= d < 16 -> irc_identity_byte_safe (chr (if d <? 10 then 48 + d else 87 + d)) = true.
Proof.
  intros H. rewrite <- (Z2Nat.id d) by lia. assert (Z.to_nat d < 16)%nat as Hd by lia.
  revert Hd. generalize (Z.to_nat d). intros k Hk. do 16 (destruct k as [|k]; [done|]). lia.
Qed.

Lemma safe_hex_aux fuel n acc : 0 <= n -> safe_text acc -> safe_text (hex_aux fuel n acc).
Proof.
  revert n acc. induction fuel as [|fuel IH]; intros n acc Hn Ha; [done|]. cbn [hex_aux].
  pose proof (safe_hex_digit (n mod 16) (Z.mod_pos_bound n 16 ltac:(lia))) as Hc.
  destruct (n <? 16); [by apply Forall_cons|]. apply IH; [apply Z.div_pos; lia|by apply Forall_cons].
Qed.

Lemma group_loop_nonneg p g digits r : 0 <= g -> group_loop p g digits = Some r -> 0 <= r.1.1.
Proof.
  revert g digits. induction p as [|c p IH]; intros g digits Hg H; cbn [group_loop] in H.
  - injection H as <-. done.
  - destruct (ceqb c ":"); [injection H as <-; done|].
    destruct (xdigit_val c) as [v|] eqn:Ev; [|done]. cbn [mbind option_bind] in H.
    destruct (4 <=? digits)%nat; [done|]. apply IH in H; [done|].
    apply Z.lor_nonneg. split; [by apply Z.shiftl_nonneg|].
    unfold xdigit_val, isdigit in Ev. repeat case_step_in Ev; try done; injection Ev as <-.
    all: repeat match goal with H : in_range _ _ _ = true |- _ => apply in_range_iff in H end; lia.
Qed.

Lemma ipv6_groups_nonneg host g1 g2 : ipv6_groups host = Some (g1, g2) -> 0 <= g1 /\ 0 <= g2.
Proof.
  assert (forall p v r, irc_identity_parse_ipv6_group p = Some (v, r) -> 0 <= v) as Hg.
  { intros p v r H. unfold irc_identity_parse_ipv6_group in H.
    destruct (group_loop p 0 0) as [[[g digits] q]|] eqn:E; [|done].
    apply group_loop_nonneg in E; [|done]. cbn in H, E. by destruct (digits =? 0)%nat; simplify_eq. }
  unfold ipv6_groups. destruct (starts_with host _); [by intros [= <- <-]|].
  destruct (ceqb (deref host) ":"); [done|].
  destruct (irc_identity_parse_ipv6_group host) as [[v1 [|c p]]|] eqn:E1; [done| |done]. apply Hg in E1.
  cbn [mbind option_bind]. destruct (negb _); [|intros [= <- <-]; lia].
  destruct (irc_identity_parse_ipv6_group p) as [[v2 r]|] eqn:E2; [|done]. apply Hg in E2.
  by intros [= <- <-].
Qed.

Lemma safe_ipv6_head host sz : safe_text (irc_identity_ipv6_head host sz).
Proof.
  unfold irc_identity_ipv6_head. destruct (ipv6_groups host) as [[g1 g2]|] eqn:E; [|by apply Forall_nil].
  apply ipv6_groups_nonneg in E as [H1 H2]. cbv zeta. destruct (sz <=? _)%nat; [by apply Forall_nil|].
  apply Forall_app. split; [by apply safe_hex_aux; [|apply Forall_nil]|].
  apply Forall_app. split; [by apply Forall_cons|]. by apply safe_hex_aux; [|apply Forall_nil].
Qed.

Lemma ipv6_head_length host sz : (0 < sz)%nat -> (length (irc_identity_ipv6_head host sz) < sz)%nat.
Proof.
  intros H. unfold irc_identity_ipv6_head. destruct (ipv6_groups host) as [[g1 g2]|]; [|done].
  cbv zeta. case_step; breflect; [done|lia].
Qed.

Lemma host_tail_ok host sz :
  (0 < sz)%nat -> (length (irc_identity_host_tail host sz) < sz)%nat
  /\ (safe_text host -> safe_text (irc_identity_host_tail host sz)).
Proof.
  intros H. unfold irc_identity_host_tail. destruct host as [|c host]; [done|].
  repeat case_step; split; intros;
    auto using strlcpy_length, ipv6_head_length, safe_ipv6_head, safe_strlcpy, safe_take, safe_drop; by apply Forall_nil.
Qed.

(** *** The prefix *)

Lemma elem_of_take_1 (c : ascii) n s : c ∈ take n s -> c ∈ s.
Proof. intros H. rewrite <- (take_drop n s). apply elem_of_app. by left. Qed.

Lemma elem_of_drop_1 (c : ascii) n s : c ∈ drop n s -> c ∈ s.
Proof. intros H. rewrite <- (take_drop n s). apply elem_of_app. by right. Qed.

(** A prefix with a bang before its at sign is the three parts the two cut. *)
Lemma bang_at_split pfx bang at_ :
  strchr pfx "!" = Some bang -> strchr pfx "@" = Some at_ -> (bang < at_)%nat ->
  pfx = origin_text (FromUser (take bang pfx) (take (at_ - bang - 1) (drop (S bang) pfx)) (drop (S at_) pfx)).
Proof.
  intros (Hb & _ & _)%strchr_Some (Ha & _ & Hl)%strchr_Some Hlt.
  assert (drop (S bang) pfx !! (at_ - bang - 1)%nat = Some "@"%char) as Hm.
  { rewrite lookup_drop. replace (S bang + (at_ - bang - 1))%nat with at_ by lia.
    rewrite Ha, lookup_app_r by (rewrite length_take; lia). rewrite length_take.
    by replace (at_ - at_ `min` length pfx)%nat with 0%nat by lia. }
  cbn [origin_text lit list_ascii_of_string app]. rewrite Hb at 1. do 2 f_equal.
  rewrite <- (take_drop_middle _ _ _ Hm) at 1. do 2 f_equal. rewrite drop_drop. f_equal. lia.
Qed.

Lemma parse_prefix_inv pfx n u h :
  irc_parse_prefix pfx = Some (n, u, h) -> u <> [] \/ h <> [] ->
  pfx = origin_text (FromUser n u h) /\ ("!"%char ∉ n /\ "@"%char ∉ n /\ "@"%char ∉ u)
  /\ (length n < IRC_NICK_SZ)%nat /\ (length u < IRC_NICK_SZ)%nat /\ (length h < IRC_HOST_SZ)%nat.
Proof.
  unfold irc_parse_prefix. intros H Hne.
  destruct (strchr pfx "!") as [bang|] eqn:Eb; [|naive_solver].
  destruct (strchr pfx "@") as [at_|] eqn:Ea; [|naive_solver].
  destruct (bang <? at_)%nat eqn:Elt; [|naive_solver]. breflect.
  pose proof Eb as (_ & Hb2 & _)%strchr_Some. pose proof Ea as (_ & Ha2 & _)%strchr_Some.
  destruct (irc_field_set IRC_NICK_SZ (take bang pfx)) as [?|] eqn:E1; [|done].
  apply field_set_Some in E1 as [-> Hl1].
  destruct (irc_field_set IRC_NICK_SZ (take _ _)) as [?|] eqn:E2; [|done]. apply field_set_Some in E2 as [-> Hl2].
  destruct (irc_field_set IRC_HOST_SZ _) as [?|] eqn:E3; [|done]. apply field_set_Some in E3 as [-> Hl3].
  injection H as <- <- <-.
  split; [|split; [split_and!|done]].
  - by apply bang_at_split.
  - done.
  - intros Hin. apply Ha2. replace (take bang pfx) with (take bang (take at_ pfx)) in Hin
      by (rewrite take_take; f_equal; lia). by eapply elem_of_take_1.
  - intros Hin. apply Ha2. rewrite take_drop_commute in Hin. apply elem_of_drop_1 in Hin.
    by replace (S bang + (at_ - bang - 1))%nat with at_ in Hin by lia.
Qed.

Lemma line_prefix_inv line pfx n u h pos :
  line_prefix line = Some (pfx, (n, u, h), pos) -> u <> [] \/ h <> [] ->
  irc_parse_prefix pfx = Some (n, u, h) /\ exists rest, line = lit ":" ++ pfx ++ lit " " ++ rest.
Proof.
  unfold line_prefix. intros H Hne. destruct line as [|c line]; [naive_solver|].
  destruct (ceqb c ":") eqn:Ec; creflect; [subst c|naive_solver].
  destruct (strchr line " ") as [fin|] eqn:Ef; [|done]. apply strchr_Some in Ef as (Hl & _ & _).
  cbn [mbind option_bind] in H. destruct (irc_field_set _ _) as [?|] eqn:Es; [|done].
  apply field_set_Some in Es as [-> _]. cbn [mbind option_bind] in H.
  destruct (irc_parse_prefix (take fin line)) as [[[n' u'] h']|] eqn:Ep; [|done]. injection H as <- <- <- <- <-.
  split; [done|]. eexists. cbn [lit list_ascii_of_string app]. by rewrite Hl at 1.
Qed.

(** The two parsers of a prefix agree on a user's. *)
Lemma split_prefix_parsed pfx n u h r :
  irc_parse_prefix pfx = Some (n, u, h) -> u <> [] \/ h <> [] ->
  irc_identity_split_prefix pfx IRC_NICK_SZ IRC_NICK_SZ IRC_HOST_SZ = Some r -> r = (n, u, h).
Proof.
  unfold irc_parse_prefix, irc_identity_split_prefix. intros H Hne Hs.
  destruct (strchr pfx "!") as [bang|]; [|done]. destruct (strchr pfx "@") as [at_|]; [|done].
  destruct (at_ <=? bang)%nat eqn:E1; [done|]. cbv zeta in Hs. destruct (_ || _); [done|].
  injection Hs as <-. destruct (bang <? at_)%nat; [|naive_solver].
  destruct (irc_field_set IRC_NICK_SZ (take bang pfx)) as [?|] eqn:Ea; [|done].
  apply field_set_Some in Ea as [-> ?].
  destruct (irc_field_set IRC_NICK_SZ (take _ _)) as [?|] eqn:Eb; [|done]. apply field_set_Some in Eb as [-> ?].
  destruct (irc_field_set IRC_HOST_SZ _) as [?|] eqn:Ec; [|done]. apply field_set_Some in Ec as [-> ?].
  injection H as <- <- <-. by rewrite !strlcpy_fits.
Qed.

(** *** The identity *)

(** The account of a cloak runs to the first slash or colon. *)
Definition cloak_account (host acct : cstr) : Prop :=
  exists tail, host = user_cloak ++ acct ++ tail /\ "/"%char ∉ acct /\ ":"%char ∉ acct
    /\ (tail = [] \/ deref tail = "/"%char \/ deref tail = ":"%char).

Lemma extract_cloak_account host sz :
  irc_identity_extract_cloak host sz <> [] ->
  exists acct, cloak_account host acct /\ irc_identity_extract_cloak host sz = strlcpy sz acct.
Proof.
  unfold irc_identity_extract_cloak. case_step; [|done]. intros _. unfold strneq in *. creflect.
  set (r := drop _ host). exists (span in_account r). split; [|done].
  exists (skip_while in_account r). split_and!.
  - rewrite span_skip. unfold r. rewrite <- (take_drop (length user_cloak) host) at 1. f_equal. done.
  - by intros H%span_all.
  - by intros H%span_all.
  - destruct (skip_while in_account r) as [|c t] eqn:E; [by left|right]. apply skip_while_head in E.
    unfold in_account in E. apply negb_false_iff, orb_true_iff in E as [E|E]; creflect; auto.
Qed.

(** The fields a quad may hold. *)
Definition quad_ok (ns us hs ids : nat) (q : irc_quad) : Prop :=
  (length (q_nickname q) < ns /\ length (q_username q) < us /\ length (q_hostname q) < hs
   /\ length (q_verified_id q) < ids)%nat
  /\ safe_text (q_nickname q) /\ safe_text (q_username q) /\ safe_text (q_hostname q) /\ safe_text (q_verified_id q).

Lemma extract_cloak_ok host sz :
  (0 < sz)%nat -> safe_text host ->
  (length (irc_identity_extract_cloak host sz) < sz)%nat /\ safe_text (irc_identity_extract_cloak host sz).
Proof.
  intros H Hs. unfold irc_identity_extract_cloak. case_step; [|split; [done|by apply Forall_nil]].
  split; [by apply strlcpy_length|]. apply safe_strlcpy, safe_span, safe_drop, Hs.
Qed.

Lemma norm_ident_ok ident sz :
  (0 < sz)%nat -> safe_text ident ->
  (length (irc_identity_norm_ident ident sz) < sz)%nat /\ safe_text (irc_identity_norm_ident ident sz).
Proof.
  intros H Hs. unfold irc_identity_norm_ident. split; [by apply strlcpy_length|].
  apply safe_strlcpy, safe_lower. case_step; [by apply safe_drop|done].
Qed.

(** The projection of any prefix: four fields that fit and hold no control character,
    quote or backslash; all empty when it fails. *)
Lemma fill_quad_cases pfx ns us hs ids :
  (0 < ns)%nat -> (0 < us)%nat -> (0 < hs)%nat -> (0 < ids)%nat ->
  let r := irc_identity_fill_quad pfx ns us hs ids in
  quad_ok ns us hs ids r.2
  /\ (r.1 = false -> r.2 = empty_quad)
  /\ (r.1 = true -> exists n u h, irc_identity_split_prefix pfx IRC_NICK_SZ IRC_NICK_SZ IRC_HOST_SZ = Some (n, u, h)
        /\ q_nickname r.2 = strlcpy ns n /\ q_verified_id r.2 = irc_identity_extract_cloak h ids).
Proof.
  intros Hn Hu Hh Hi. unfold irc_identity_fill_quad. cbv zeta.
  assert (quad_ok ns us hs ids empty_quad) as He by (split; [done|split_and!; by apply Forall_nil]).
  destruct (irc_identity_split_prefix _ _ _ _) as [[[n u] h]|] eqn:E; [|done].
  destruct (_ || _) eqn:Es; [done|]. breflect.
  repeat match goal with H : irc_identity_field_safe _ = true |- _ => apply field_safe_iff in H end.
  pose proof (extract_cloak_ok h ids Hi ltac:(done)) as [Hc1 Hc2]. apply field_safe_iff in Hc2 as Hc3.
  cbn [q_verified_id]. rewrite Hc3. cbn [negb fst snd]. split; [|split; [done|by eauto 10]].
  split; cbn [q_nickname q_username q_hostname q_verified_id]; split_and!;
    first [by apply strlcpy_length | by apply norm_ident_ok | by apply host_tail_ok | by apply safe_strlcpy | done].
Qed.

(** a line that names a user names exactly the one in its prefix: the line starts
    with nick!user@host, nothing is shortened, and the three parts are the only ones
    that read so. The identity projected from it fits its fields, holds no control
    character, quote or backslash, carries the nick verbatim, and claims a verified
    account only from a user/ cloak of the host; when the projection fails all its
    fields are empty. *)
Theorem irc_identity_exact line p ns us hs ids :
  irc_parse_line line = Some p -> p_user p <> [] \/ p_host p <> [] ->
  (IRC_NICK_SZ <= ns)%nat -> (0 < us)%nat -> (0 < hs)%nat -> (0 < ids)%nat ->
  (exists rest, line = lit ":" ++ p_prefix p ++ lit " " ++ rest)
  /\ (forall nick user host, p_prefix p = origin_text (FromUser nick user host) ->
       "!"%char ∉ nick -> "@"%char ∉ nick -> "@"%char ∉ user -> (nick, user, host) = (p_nick p, p_user p, p_host p))
  /\ p_prefix p = origin_text (FromUser (p_nick p) (p_user p) (p_host p))
  /\ let '(ok, q) := irc_identity_fill_quad (p_prefix p) ns us hs ids in
     quad_ok ns us hs ids q
     /\ (ok = false -> q = empty_quad)
     /\ (ok = true -> q_nickname q = p_nick p)
     /\ (q_verified_id q <> [] -> exists acct, cloak_account (p_host p) acct /\ q_verified_id q = strlcpy ids acct).
Proof.
  unfold irc_parse_line. intros Hp Hne Hns Hus Hhs Hids.
  destruct (line_prefix line) as [[[pfx [[n u] h]] pos]|] eqn:El; [|done]. cbn [mbind option_bind] in Hp.
  destruct (line_command pos) as [[cmd rest]|]; [|done]. cbn [mbind option_bind] in Hp.
  destruct (match rest with Some _ => _ | None => _ end) as [[params trailing] has]. injection Hp as <-.
  cbn [p_prefix p_nick p_user p_host] in *.
  destruct (line_prefix_inv _ _ _ _ _ _ El Hne) as [Hpp Hline].
  destruct (parse_prefix_inv _ _ _ _ Hpp Hne) as (Hpfx & Hch & Hl1 & Hl2 & Hl3).
  split_and!; [done| |done|].
  - intros nick user host E H1 H2 H3. rewrite E, parse_prefix_user in Hpp by done.
    destruct (irc_field_set _ nick) as [?|] eqn:Ea; [|done]. apply field_set_Some in Ea as [-> _].
    destruct (irc_field_set _ user) as [?|] eqn:Eb; [|done]. apply field_set_Some in Eb as [-> _].
    destruct (irc_field_set _ host) as [?|] eqn:Ec; [|done]. apply field_set_Some in Ec as [-> _].
    by injection Hpp as <- <- <-.
  - pose proof (fill_quad_cases pfx ns us hs ids ltac:(unfold IRC_NICK_SZ in *; lia) Hus Hhs Hids) as (H1 & H2 & H3).
    destruct (irc_identity_fill_quad pfx ns us hs ids) as [ok q]. cbn in H1, H2, H3. split_and!; [done|done| |].
    + intros ->. destruct (H3 eq_refl) as (n' & u' & h' & Hs & -> & _).
      apply (split_prefix_parsed _ _ _ _ _ Hpp Hne) in Hs as [= -> -> ->]. apply strlcpy_fits. lia.
    + intros Hv. destruct ok; [|by rewrite H2 in Hv]. destruct (H3 eq_refl) as (n' & u' & h' & Hs & _ & Hq).
      apply (split_prefix_parsed _ _ _ _ _ Hpp Hne) in Hs as [= -> -> ->]. rewrite Hq in Hv |- *.
      by apply extract_cloak_account.
Qed.

Lemma irc_identity_exact_witness :
  exists p, irc_parse_line (lit ":Alice!~al@user/alice:web PRIVMSG #c :hi") = Some p
    /\ irc_identity_fill_quad (p_prefix p) 64 64 128 128
       = (true, {| q_nickname := lit "Alice"; q_username := lit "al"; q_hostname := []; q_verified_id := lit "alice" |})
    /\ q_nickname (irc_identity_fill_quad (p_prefix p) 64 64 128 128).2 = p_nick p.
Proof.
  eexists. split; [reflexivity|]. split; [by vm_compute|].
  match goal with |- context [p_nick ?p] =>
    pose proof (irc_identity_exact (lit ":Alice!~al@user/alice:web PRIVMSG #c :hi") p 64 64 128 128 eq_refl
      ltac:(by left) ltac:(unfold IRC_NICK_SZ; lia) ltac:(lia) ltac:(lia) ltac:(lia)) as (_ & _ & _ & H)
  end.
  exact (proj1 (proj2 (proj2 H)) eq_refl).
Defined.
