(* ===== verification/IrcChannel.v ===== *)
(** * IRC channels and their members: plugins/method/irc/irc_channel.c

    The table the driver keeps of the channels it is in and who is there. It answers who
    a nick is: the identity layer matches the user@host found here against the patterns of
    a user, so an entry that outlives its member authenticates a stranger. The operations
    run under chan_mutex and are functions of the list [channels]; a pointer into a list
    is its index. *)

From S2P Require Import Prelude IrcParse.

Definition IRC_CHAN_SZ : nat := 64.
Definition IRC_CHAN_MAX_MEMBERS : Z := 512.
Definition IRC_MFLAG_OP : Z := 1.
Definition IRC_MFLAG_VOICE : Z := 2.
Definition IRC_MFLAG_HALFOP : Z := 4.
Definition IRC_MFLAG_OWNER : Z := 8.
Definition IRC_MFLAG_ADMIN : Z := 16.

Record irc_member_t := { m_nick : cstr; m_userhost : cstr; m_mode_flags : Z }.

Record irc_channel_t := {
  c_name : cstr;
  c_members : list irc_member_t;
  c_member_count : Z;
  c_have_ops : bool;
  c_topic : cstr
}.

Definition set_nick (nick : cstr) (m : irc_member_t) : irc_member_t :=
  {| m_nick := nick; m_userhost := m_userhost m; m_mode_flags := m_mode_flags m |}.

Definition set_userhost (uh : cstr) (m : irc_member_t) : irc_member_t :=
  {| m_nick := m_nick m; m_userhost := uh; m_mode_flags := m_mode_flags m |}.

Definition set_mode_flags (f : Z) (m : irc_member_t) : irc_member_t :=
  {| m_nick := m_nick m; m_userhost := m_userhost m; m_mode_flags := f |}.

Definition set_members (ms : list irc_member_t) (count : Z) (ch : irc_channel_t) : irc_channel_t :=
  {| c_name := c_name ch; c_members := ms; c_member_count := count; c_have_ops := c_have_ops ch;
     c_topic := c_topic ch |}.

Definition set_have_ops (b : bool) (ch : irc_channel_t) : irc_channel_t :=
  {| c_name := c_name ch; c_members := c_members ch; c_member_count := c_member_count ch; c_have_ops := b;
     c_topic := c_topic ch |}.

Definition set_topic (t : cstr) (ch : irc_channel_t) : irc_channel_t :=
  {| c_name := c_name ch; c_members := c_members ch; c_member_count := c_member_count ch;
     c_have_ops := c_have_ops ch; c_topic := t |}.

(** ** Finding *)

(** Index of the first element that passes. *)
Fixpoint find_index {A} (f : A -> bool) (l : list A) : option nat :=
  match l with
  | [] => None
  | x :: l => if f x then Some O else S <$> find_index f l
  end.

Definition named (channel : cstr) (ch : irc_channel_t) : bool := strcaseeq (c_name ch) channel.

Definition nicked (nick : cstr) (m : irc_member_t) : bool := strcaseeq (m_nick m) nick.

Definition irc_chan_find (chs : list irc_channel_t) (channel : cstr) : option nat := find_index (named channel) chs.

Definition irc_member_find (ch : irc_channel_t) (nick : cstr) : option nat := find_index (nicked nick) (c_members ch).

Definition new_channel (channel : cstr) : irc_channel_t :=
  {| c_name := strlcpy (IRC_CHAN_SZ + 1) channel; c_members := []; c_member_count := 0; c_have_ops := false;
     c_topic := [] |}.

(** Where the channel is, and the table with it. *)
Definition irc_chan_get (chs : list irc_channel_t) (channel : cstr) : nat * list irc_channel_t :=
  match irc_chan_find chs channel with
  | Some i => (i, chs)
  | None => (O, new_channel channel :: chs)
  end.

(** ** Members *)

Definition add_member (nick : cstr) (ch : irc_channel_t) : irc_channel_t :=
  match irc_member_find ch nick with
  | Some _ => ch
  | None =>
      if IRC_CHAN_MAX_MEMBERS <=? c_member_count ch then ch
      else
        set_members ({| m_nick := strlcpy IRC_NICK_SZ nick; m_userhost := []; m_mode_flags := 0 |} :: c_members ch)
          (wrap 32 (c_member_count ch + 1)) ch
  end.

Definition irc_chan_add_nick (chs : list irc_channel_t) (channel nick : cstr) : list irc_channel_t :=
  match nick with
  | [] => chs
  | _ => let '(i, chs) := irc_chan_get chs channel in alter (add_member nick) i chs
  end.

(** The loop over [pp]: unlinks the first member of that nick. *)
Fixpoint unlink_member (nick : cstr) (ms : list irc_member_t) : option (list irc_member_t) :=
  match ms with
  | [] => None
  | m :: ms => if nicked nick m then Some ms else cons m <$> unlink_member nick ms
  end.

Definition remove_member (nick : cstr) (ch : irc_channel_t) : irc_channel_t :=
  match unlink_member nick (c_members ch) with
  | Some ms => set_members ms (wrap 32 (c_member_count ch - 1)) ch
  | None => ch
  end.

Definition irc_chan_remove_nick (chs : list irc_channel_t) (channel nick : cstr) : list irc_channel_t :=
  match irc_chan_find chs channel with
  | Some i => alter (remove_member nick) i chs
  | None => chs
  end.

Definition irc_chan_remove_nick_all (chs : list irc_channel_t) (nick : cstr) : list irc_channel_t :=
  map (remove_member nick) chs.

(** Writes to the member of that nick, where there is one. *)
Definition alter_member (nick : cstr) (f : irc_member_t -> irc_member_t) (ch : irc_channel_t) : irc_channel_t :=
  match irc_member_find ch nick with
  | Some i => set_members (alter f i (c_members ch)) (c_member_count ch) ch
  | None => ch
  end.

Definition irc_chan_rename_nick (chs : list irc_channel_t) (old_nick new_nick : cstr) : list irc_channel_t :=
  map (alter_member old_nick (set_nick (strlcpy IRC_NICK_SZ new_nick))) chs.

(** ** Who a nick is *)

Definition irc_user_seen (chs : list irc_channel_t) (nick userhost : cstr) : list irc_channel_t :=
  match nick, userhost with
  | [], _ | _, [] => chs
  | _, _ => map (alter_member nick (set_userhost (strlcpy IRC_USERHOST_SZ userhost))) chs
  end.

(** What a channel knows of a nick. *)
Definition known_userhost (nick : cstr) (ch : irc_channel_t) : option cstr :=
  i ← irc_member_find ch nick;
  m ← c_members ch !! i;
  match m_userhost m with [] => None | uh => Some uh end.

Fixpoint first_known (nick : cstr) (chs : list irc_channel_t) : option cstr :=
  match chs with
  | [] => None
  | ch :: chs => match known_userhost nick ch with Some uh => Some uh | None => first_known nick chs end
  end.

(** The answer in a buffer of [sz] bytes; None is FAIL. *)
Definition irc_user_userhost (chs : list irc_channel_t) (nick : cstr) (sz : nat) : option cstr :=
  match nick, sz with
  | [], _ | _, O => None
  | _, _ => strlcpy sz <$> first_known nick chs
  end.

Definition irc_userhost_present (chs : list irc_channel_t) (userhost : cstr) : bool :=
  match userhost with
  | [] => false
  | _ =>
      existsb (fun ch => existsb (fun m =>
        match m_userhost m with [] => false | uh => strcaseeq uh userhost end) (c_members ch)) chs
  end.

(** ** Whole channels *)

Fixpoint irc_chan_remove (chs : list irc_channel_t) (channel : cstr) : list irc_channel_t :=
  match chs with
  | [] => []
  | ch :: chs => if named channel ch then chs else ch :: irc_chan_remove chs channel
  end.

Definition irc_chan_clear_all (chs : list irc_channel_t) : list irc_channel_t := [].

Definition irc_mode_to_flag (mode : ascii) : Z :=
  if ceqb mode "o" then IRC_MFLAG_OP
  else if ceqb mode "v" then IRC_MFLAG_VOICE
  else if ceqb mode "h" then IRC_MFLAG_HALFOP
  else if ceqb mode "q" then IRC_MFLAG_OWNER
  else if ceqb mode "a" then IRC_MFLAG_ADMIN
  else 0.
