(* ===== verification/Irc.v ===== *)
(** * The IRC driver: plugins/method/irc/irc.c and irc_protocol.c

    One instance of the driver: the lines it sends, the bytes it reads, the handlers of
    what a server says. The state is the record [irc_state_t], its configuration apart;
    every operation takes the state and returns the new one. What an operation does to
    the rest of the program is appended to [i_fx] in order. What it asks of the rest is
    the environment [irc_env]: the configuration store as it stands, the socket, the
    identity layer, the clock. What other threads may change between two questions is
    asked with the log so far, or with the number of the question. *)

From S2P Require Import Prelude CmdDispatch Kv IrcParse IrcChannel.

(** ** Sizes: irc.h, method.h *)

Definition IRC_BUF_SZ : nat := 4096.
Definition IRC_PRIVMSG_LINE_BUDGET : Z := 400.
Definition IRC_EJECT_REASON_SZ : nat := 200.
Definition IRC_MAX_CHANS : nat := 64.
Definition METHOD_NAME_SZ : nat := 64.
Definition METHOD_CHANNEL_SZ : nat := 128.
Definition METHOD_META_SZ : nat := 512.
Definition METHOD_NICKNAME_SZ : nat := 64.
Definition METHOD_USERNAME_SZ : nat := 64.
Definition METHOD_HOSTNAME_SZ : nat := 128.
Definition METHOD_VERIFIED_ID_SZ : nat := 128.

Inductive method_state_t := METHOD_ENABLED | METHOD_RUNNING | METHOD_AVAILABLE.

Inductive method_eject_t := METHOD_EJECT_NONE | METHOD_EJECT_ROOM | METHOD_EJECT_SERVER.

Definition eject_rank (e : method_eject_t) : Z :=
  match e with METHOD_EJECT_NONE => 0 | METHOD_EJECT_ROOM => 1 | METHOD_EJECT_SERVER => 2 end.

(** The fields the driver fills in. *)
Record method_msg_t := {
  msg_nick_change : bool;
  msg_sender : cstr;
  msg_channel : cstr;
  msg_text : cstr;
  msg_timestamp : Z;
  msg_metadata : cstr;
  msg_is_action : bool;
  msg_identity : irc_quad;
  msg_prev_metadata : cstr;
  msg_prev_identity : irc_quad
}.

Record irc_kick_check_t := { kc_inst_name : cstr; kc_channel : cstr; kc_nick : cstr; kc_host : cstr }.

(** What the driver does to the rest of the program. *)
Inductive irc_fx :=
  | FxWire (line : cstr)
  | FxState (s : method_state_t)
  | FxDeliver (m : method_msg_t)
  | FxWitness (bot : cstr) (gone : bool) (pfx : cstr)
  | FxKickCheck (delay_ms : Z) (kc : irc_kick_check_t)
  | FxArmReconnect.

(** ** State *)

(** What an instance was given: its name, and the settings read at a connect. *)
Record irc_conf := {
  inst_name : cstr;
  kv_prefix : cstr;
  has_inst : bool;
  operator_name : cstr;
  operator_pass : cstr;
  conf_nick : cstr;
  nick2 : cstr;
  nick3 : cstr;
  user : cstr;
  realname : cstr;
  pass : cstr
}.

Record irc_state_t := {
  i_conf : irc_conf;
  i_registered : bool;
  i_connected : bool;
  i_is_oper : bool;
  i_cur_nick : cstr;
  i_nick_attempt : Z;
  i_server_idx : Z;
  i_channels : list irc_channel_t;
  i_fx : list irc_fx
}.

Section irc.
Context {F : CFloat}.

(** The daemon's version, from a header the build writes. *)
Context (BM_VERSION_STR : cstr).

Record irc_env := {
  e_kv : kv;
  e_session : list irc_fx -> bool;
  e_sock_send : list irc_fx -> cstr -> bool;
  e_dead : nat -> bool;
  e_bot_find : cstr -> bool;
  e_identified : cstr -> option cstr -> bool;
  e_stopping : bool;
  e_now : Z
}.

Definition with_link (registered connected : bool) (st : irc_state_t) : irc_state_t :=
  {| i_conf := i_conf st; i_registered := registered; i_connected := connected; i_is_oper := i_is_oper st;
     i_cur_nick := i_cur_nick st; i_nick_attempt := i_nick_attempt st;
     i_server_idx := i_server_idx st; i_channels := i_channels st; i_fx := i_fx st |}.

Definition with_oper (b : bool) (st : irc_state_t) : irc_state_t :=
  {| i_conf := i_conf st; i_registered := i_registered st; i_connected := i_connected st; i_is_oper := b;
     i_cur_nick := i_cur_nick st; i_nick_attempt := i_nick_attempt st;
     i_server_idx := i_server_idx st; i_channels := i_channels st; i_fx := i_fx st |}.

Definition with_cur_nick (nick : cstr) (attempt : Z) (st : irc_state_t) : irc_state_t :=
  {| i_conf := i_conf st; i_registered := i_registered st; i_connected := i_connected st;
     i_is_oper := i_is_oper st; i_cur_nick := nick; i_nick_attempt := attempt;
     i_server_idx := i_server_idx st; i_channels := i_channels st; i_fx := i_fx st |}.

Definition with_server_idx (n : Z) (st : irc_state_t) : irc_state_t :=
  {| i_conf := i_conf st; i_registered := i_registered st; i_connected := i_connected st;
     i_is_oper := i_is_oper st; i_cur_nick := i_cur_nick st;
     i_nick_attempt := i_nick_attempt st; i_server_idx := n; i_channels := i_channels st; i_fx := i_fx st |}.

(** A critical section of chan_mutex that writes. *)
Definition on_channels (f : list irc_channel_t -> list irc_channel_t) (st : irc_state_t) : irc_state_t :=
  {| i_conf := i_conf st; i_registered := i_registered st; i_connected := i_connected st;
     i_is_oper := i_is_oper st; i_cur_nick := i_cur_nick st;
     i_nick_attempt := i_nick_attempt st; i_server_idx := i_server_idx st; i_channels := f (i_channels st);
     i_fx := i_fx st |}.

Definition log (x : irc_fx) (st : irc_state_t) : irc_state_t :=
  {| i_conf := i_conf st; i_registered := i_registered st; i_connected := i_connected st;
     i_is_oper := i_is_oper st; i_cur_nick := i_cur_nick st;
     i_nick_attempt := i_nick_attempt st; i_server_idx := i_server_idx st; i_channels := i_channels st;
     i_fx := i_fx st ++ [x] |}.

(** ** Sending: irc_protocol.c *)

Definition CR : ascii := chr 13.
Definition LF : ascii := chr 10.

Definition is_break (c : ascii) : bool := ceqb c CR || ceqb c LF.

Definition irc_fold_line_breaks (line : cstr) : cstr := map (fun c => if is_break c then " "%char else c) line.

(** The line a formatted text becomes. *)
Definition wire_line (text : cstr) : cstr :=
  irc_fold_line_breaks (strlcpy (IRC_LINE_SZ - 2) text) ++ [CR; LF].

(** [text] is the format with its arguments in place. *)
Definition irc_send_raw (env : irc_env) (text : cstr) (st : irc_state_t) : bool * irc_state_t :=
  if INT_MAX 32 <? Z.of_nat (length text) then (FAIL, st)
  else if negb (i_connected st) then (FAIL, st)
  else if negb (e_session env (i_fx st)) then (FAIL, st)
  else
    let line := wire_line text in
    (negb (e_sock_send env (i_fx st) line), log (FxWire line) st).

(** A send whose result the caller ignores. *)
Definition send_ (env : irc_env) (text : cstr) (st : irc_state_t) : irc_state_t := (irc_send_raw env text st).2.

Definition irc_utf8_is_cont (c : ascii) : bool := Z.land (code c) 192 =? 128.

Definition privmsg (target text : cstr) : cstr := lit "PRIVMSG " ++ target ++ lit " :" ++ text.

(** The loop over [last_space]. *)
Fixpoint last_space (pos : cstr) (n : nat) : nat :=
  match n with
  | O => O
  | S m => if ceqb (nth m pos NUL) " " then n else last_space pos m
  end.

Fixpoint back_up (steps : nat) (pos : cstr) (chunk : nat) : nat :=
  match steps with
  | O => chunk
  | S steps =>
      if (1 <? chunk)%nat && irc_utf8_is_cont (nth chunk pos NUL) then back_up steps pos (chunk - 1) else chunk
  end.

Definition chunk_len (max_text : nat) (pos : cstr) : nat :=
  if (max_text <? length pos)%nat then
    let ls := last_space pos max_text in
    if (Nat.div max_text 2 <? ls)%nat then ls else back_up 3 pos max_text
  else length pos.

(** One turn sends one chunk. *)
Fixpoint privmsg_loop (turns : nat) (env : irc_env) (max_text : nat) (target pos : cstr) (st : irc_state_t) :
    bool * irc_state_t :=
  match pos, turns with
  | [], _ | _, O => (SUCCESS, st)
  | _, S turns =>
      let chunk := chunk_len max_text pos in
      let copy := if (IRC_LINE_SZ <=? chunk)%nat then (IRC_LINE_SZ - 1)%nat else chunk in
      let '(rc, st) := irc_send_raw env (privmsg target (take copy pos)) st in
      if rc then (FAIL, st) else privmsg_loop turns env max_text target (drop chunk pos) st
  end.

Definition irc_send_privmsg (env : irc_env) (target text : cstr) (st : irc_state_t) : bool * irc_state_t :=
  let overhead := wrap 64 (10 + Z.of_nat (length target) + 2) in
  let max_text := wrap 64 (IRC_PRIVMSG_LINE_BUDGET - 10 - Z.of_nat (length target)) in
  if (max_text <? 1) || (IRC_PRIVMSG_LINE_BUDGET <? overhead) then (FAIL, st)
  else if Z.of_nat (length text) <=? max_text then irc_send_raw env (privmsg target text) st
  else privmsg_loop (length text) env (Z.to_nat max_text) target text st.

Definition irc_send_registration (env : irc_env) (st : irc_state_t) : irc_state_t :=
  let c := i_conf st in
  let st := match pass c with [] => st | p => send_ env (lit "PASS " ++ p) st end in
  let st := with_cur_nick (strlcpy IRC_NICK_SZ (conf_nick c)) (i_nick_attempt st) st in
  let st := send_ env (lit "NICK " ++ i_cur_nick st) st in
  send_ env (lit "USER " ++ user c ++ lit " 0 * :" ++ realname c) st.

(** The name of the bot: the instance's without its suffix. [irc_expand_vars] has a copy of
    this without the cut, which an instance name, shorter than METHOD_NAME_SZ, never meets. *)
Definition irc_botname_from_inst (inst_name : cstr) (sz : nat) : cstr :=
  let slen := length (lit "_irc") in
  let nlen := length inst_name in
  if (slen <? nlen)%nat && seqb (drop (nlen - slen) inst_name) (lit "_irc") then
    strlcpy sz (take (nlen - slen) inst_name)
  else strlcpy sz inst_name.

(** A variable at the start of [p] and what follows it. *)
Definition expand_var (st : irc_state_t) (channel p : cstr) : option (cstr * cstr) :=
  if starts_with p (lit "${") then
    v ← strchr (drop 2 p) "}";
    let name := take v (drop 2 p) in
    replacement ←
      (if seqb name (lit "name") then Some (irc_botname_from_inst (inst_name (i_conf st)) METHOD_NAME_SZ)
       else if seqb name (lit "version") then Some BM_VERSION_STR
       else if seqb name (lit "nick") then Some (i_cur_nick st)
       else if seqb name (lit "channel") then Some channel
       else None);
    Some (replacement, drop (v + 3) p)
  else None.

Fixpoint expand_loop (turns : nat) (st : irc_state_t) (channel : cstr) (out_sz : nat) (p out : cstr) : cstr :=
  match p, turns with
  | [], _ | _, O => out
  | c :: p', S turns =>
      if (out_sz - 1 <=? length out)%nat then out
      else
        match expand_var st channel p with
        | Some (r, rest) =>
            let out := if (length out + length r <? out_sz)%nat then out ++ r else out in
            expand_loop turns st channel out_sz rest out
        | None => expand_loop turns st channel out_sz p' (out ++ [c])
        end
  end.

Definition irc_expand_vars (tmpl : cstr) (out_sz : nat) (st : irc_state_t) (channel : cstr) : cstr :=
  expand_loop (length tmpl) st channel out_sz tmpl [].

(** ** The driver's keys *)

(** "<prefix>chan.<channel><prop>", cut to the size of a key. *)
Definition chan_kv_key (st : irc_state_t) (channame prop : cstr) : cstr :=
  strlcpy KV_KEY_SZ (kv_prefix (i_conf st) ++ lit "chan." ++ channame ++ prop).

(** [kv_get_uint] of such a key. *)
Definition chan_uint (env : irc_env) (st : irc_state_t) (channame prop : cstr) : Z :=
  kv_get_uint (e_kv env) (chan_kv_key st channame prop).

(** [kv_get_str], outside of any scope that may see secrets. *)
Definition kv_text (env : irc_env) (key : cstr) : option cstr :=
  kv_chars (e_kv env) <$> kv_get_str false (e_kv env) key.

Definition chan_text (env : irc_env) (st : irc_state_t) (channame prop : cstr) : option cstr :=
  kv_text env (chan_kv_key st channame prop).

Definition chan_at (st : irc_state_t) (channel : cstr) : option irc_channel_t :=
  i ← irc_chan_find (i_channels st) channel; i_channels st !! i.

Definition chan_have_ops (st : irc_state_t) (channel : cstr) : bool :=
  match chan_at st channel with Some ch => c_have_ops ch | None => false end.

Definition irc_apply_chan_admin (env : irc_env) (channel : cstr) (st : irc_state_t) : irc_state_t :=
  match channel with
  | c :: channame =>
      if negb (ceqb c "#") then st
      else if chan_uint env st channame (lit ".admin.enabled") =? 0 then st
      else
        let st :=
          if negb (chan_uint env st channame (lit ".admin.key.enabled") =? 0) then
            match chan_text env st channame (lit ".admin.key.value") with
            | Some (v :: vs) => send_ env (lit "MODE " ++ channel ++ lit " +k " ++ v :: vs) st
            | _ => st
            end
          else st in
        if negb (chan_uint env st channame (lit ".admin.topic.enabled") =? 0) then
          match chan_text env st channame (lit ".admin.topic.value") with
          | Some (v :: vs) =>
              let need_set :=
                match chan_at st channel with Some ch => negb (seqb (c_topic ch) (v :: vs)) | None => true end in
              if need_set then send_ env (lit "TOPIC " ++ channel ++ lit " :" ++ v :: vs) st else st
          | _ => st
          end
        else st
  | [] => st
  end.

Definition irc_handle_self_join (env : irc_env) (channel : cstr) (st : irc_state_t) : irc_state_t :=
  match channel with
  | c :: channame =>
      if negb (ceqb c "#") then st
      else
        let st := send_ env (lit "WHO " ++ channel) st in
        if chan_uint env st channame (lit ".announce") =? 0 then st
        else
          match chan_text env st channame (lit ".announcetext") with
          | Some (t :: ts) =>
              match irc_expand_vars (t :: ts) IRC_LINE_SZ st channel with
              | [] => st
              | expanded => (irc_send_privmsg env channel expanded st).2
              end
          | _ => st
          end
  | [] => st
  end.

(** ** Joining the configured channels *)

(** One call of the callback; [names] is the array so far. *)
Definition irc_chan_collect_cb (prefix_len : nat) (names : list cstr) (key : cstr) : list cstr :=
  if (IRC_MAX_CHANS <=? length names)%nat then names
  else
    let suffix := drop prefix_len key in
    match strchr suffix "." with
    | None => names
    | Some nlen =>
        if (nlen =? 0)%nat || (IRC_CHAN_SZ <=? nlen)%nat then names
        else if existsb (seqb (take nlen suffix)) names then names
        else names ++ [take nlen suffix]
    end.

(** None when the key would not fit. *)
Definition irc_chan_key (chan_prefix chan prop : cstr) : option cstr :=
  let key := chan_prefix ++ chan ++ prop in if (length key <? KV_KEY_SZ)%nat then Some key else None.

Definition join_channel (env : irc_env) (chan_prefix : cstr) (st : irc_state_t) (name : cstr) : irc_state_t :=
  match irc_chan_key chan_prefix name (lit ".autojoin") with
  | None => st
  | Some key =>
      if kv_get_uint (e_kv env) key =? 0 then st
      else
        match (key ← irc_chan_key chan_prefix name (lit ".key"); kv_text env key) with
        | Some (k :: ks) => send_ env (lit "JOIN #" ++ name ++ lit " " ++ k :: ks) st
        | _ => send_ env (lit "JOIN #" ++ name) st
        end
  end.

Definition irc_join_channels (env : irc_env) (st : irc_state_t) : irc_state_t :=
  let chan_prefix := strlcpy KV_KEY_SZ (kv_prefix (i_conf st) ++ lit "chan.") in
  let keys := (kv_iterate_prefix false (e_kv env) (Some chan_prefix)).1 in
  let names := fold_left (fun names k => irc_chan_collect_cb (length chan_prefix) names k.1.1) keys [] in
  fold_left (join_channel env chan_prefix) names st.

(** ** Handlers of a line *)

Definition not_space (c : ascii) : bool := negb (ceqb c " ").

(** Copies a word into a buffer: the copy, and the text after what was copied. *)
Definition copy_word (max : nat) (s : cstr) : cstr * cstr :=
  let w := take max (span not_space s) in (w, drop (length w) s).

Definition skip_spaces (s : cstr) : cstr := skip_while is_space_chr s.

(** The first parameter, as a channel. *)
Definition first_param (p : irc_parsed_msg_t) : cstr := (copy_word IRC_CHAN_SZ (p_params p)).1.

(** The second. *)
Definition second_param (p : irc_parsed_msg_t) : cstr :=
  (copy_word IRC_CHAN_SZ (skip_spaces (skip_while not_space (p_params p)))).1.

Definition is_self (st : irc_state_t) (nick : cstr) : bool := strncaseeq IRC_NICK_SZ nick (i_cur_nick st).

Definition is_chan_chr (c : ascii) : bool := ceqb c "#" || ceqb c "&".

Definition userhost_of (user host : cstr) : cstr := strlcpy IRC_USERHOST_SZ (user ++ lit "@" ++ host).

Definition quad_of (pfx : cstr) : irc_quad :=
  (irc_identity_fill_quad pfx METHOD_NICKNAME_SZ METHOD_USERNAME_SZ METHOD_HOSTNAME_SZ METHOD_VERIFIED_ID_SZ).2.

(** Records the sender's user@host where the prefix names both. *)
Definition see_sender (p : irc_parsed_msg_t) (st : irc_state_t) : irc_state_t :=
  match p_user p, p_host p with
  | [], _ | _, [] => st
  | u, h => on_channels (fun chs => irc_user_seen chs (p_nick p) (userhost_of u h)) st
  end.

Definition CTCP : ascii := chr 1.

(** The text of a message and whether it is an action; None is a CTCP that is dropped. *)
Definition message_body (body : cstr) : option (cstr * bool) :=
  if ceqb (deref body) CTCP then
    let after := drop 1 body in
    if strneq 7 after (lit "ACTION ") || seqb after (lit "ACTION") then
      let at_ := drop (if ceqb (nth 6 after NUL) " " then 7 else 6)%nat after in
      let len := length at_ in
      let len := if (0 <? len)%nat && ceqb (nth (len - 1) at_ NUL) CTCP then (len - 1)%nat else len in
      let len := if (METHOD_TEXT_SZ <=? len)%nat then (METHOD_TEXT_SZ - 1)%nat else len in
      Some (take len at_, true)
    else None
  else Some (strlcpy METHOD_TEXT_SZ body, false).

Definition irc_handle_privmsg (env : irc_env) (p : irc_parsed_msg_t) (st : irc_state_t) : irc_state_t :=
  let st := see_sender p st in
  let target := strlcpy METHOD_CHANNEL_SZ (span not_space (p_params p)) in
  let channel :=
    match target with
    | [] => []
    | _ => if strncaseeq IRC_NICK_SZ target (i_cur_nick st) then [] else target
    end in
  match message_body (p_trailing p) with
  | None => st
  | Some (text, is_action) =>
      let meta := strlcpy METHOD_META_SZ (p_prefix p) in
      log (FxDeliver {| msg_nick_change := false; msg_sender := strlcpy METHOD_SENDER_SZ (p_nick p);
                        msg_channel := channel; msg_text := text; msg_timestamp := e_now env;
                        msg_metadata := meta; msg_is_action := is_action;
                        msg_identity := quad_of (p_prefix p);
                        msg_prev_metadata := []; msg_prev_identity := empty_quad |}) st
  end.

Definition irc_handle_ping (env : irc_env) (p : irc_parsed_msg_t) (st : irc_state_t) : irc_state_t :=
  send_ env (lit "PONG :" ++ if p_has_trailing p then p_trailing p else []) st.

Definition irc_handle_welcome (env : irc_env) (p : irc_parsed_msg_t) (st : irc_state_t) : irc_state_t :=
  let st := with_link true (i_connected st) st in
  let st := log (FxState METHOD_AVAILABLE) st in
  let c := i_conf st in
  let st :=
    match operator_name c, operator_pass c with
    | [], _ | _, [] => st
    | name, pw => send_ env (lit "OPER " ++ name ++ lit " " ++ pw) st
    end in
  irc_join_channels env st.

Definition irc_handle_youreoper (env : irc_env) (p : irc_parsed_msg_t) (st : irc_state_t) : irc_state_t :=
  with_oper true st.

(** It only logs. *)
Definition irc_handle_badpassword (env : irc_env) (p : irc_parsed_msg_t) (st : irc_state_t) : irc_state_t := st.

Definition is_mode_prefix (c : ascii) : bool :=
  ceqb c "@" || ceqb c "+" || ceqb c "%" || ceqb c "~" || ceqb c "&".

Definition prefix_flag (c : ascii) : Z :=
  if ceqb c "@" then IRC_MFLAG_OP
  else if ceqb c "+" then IRC_MFLAG_VOICE
  else if ceqb c "%" then IRC_MFLAG_HALFOP
  else if ceqb c "~" then IRC_MFLAG_OWNER
  else IRC_MFLAG_ADMIN.

Definition prefix_flags (s : cstr) : Z := fold_left (fun f c => Z.lor f (prefix_flag c)) (span is_mode_prefix s) 0.

(** The nicks of a NAMES reply with their flags, a turn for each. *)
Fixpoint names_loop (turns : nat) (p_nick : cstr) : list (cstr * Z) :=
  match turns with
  | O => []
  | S turns =>
      match skip_spaces p_nick with
      | [] => []
      | s =>
          let '(nick, rest) := copy_word (IRC_NICK_SZ - 1) (skip_while is_mode_prefix s) in
          match nick with
          | [] => names_loop turns rest
          | _ => (nick, prefix_flags s) :: names_loop turns rest
          end
      end
  end.

Definition add_named (channel : cstr) (chs : list irc_channel_t) (nf : cstr * Z) : list irc_channel_t :=
  let chs := irc_chan_add_nick chs channel nf.1 in
  if nf.2 =? 0 then chs
  else
    match irc_chan_find chs channel with
    | Some i => alter (alter_member nf.1 (set_mode_flags nf.2)) i chs
    | None => chs
    end.

Definition irc_handle_namreply (env : irc_env) (p : irc_parsed_msg_t) (st : irc_state_t) : irc_state_t :=
  match skip_while (fun c => negb (is_chan_chr c)) (p_params p) with
  | [] => st
  | chan =>
      if negb (p_has_trailing p) then st
      else
        let channel := (copy_word IRC_CHAN_SZ chan).1 in
        on_channels (fun chs => fold_left (add_named channel) (names_loop (S (length (p_trailing p))) (p_trailing p)) chs) st
  end.

Definition irc_handle_endnames (env : irc_env) (p : irc_parsed_msg_t) (st : irc_state_t) : irc_state_t :=
  let channel := second_param p in
  if negb (is_chan_chr (deref channel)) then st
  else
    let opped :=
      match chan_at st channel with
      | Some ch =>
          match (i ← irc_member_find ch (i_cur_nick st); c_members ch !! i) with
          | Some m => negb (Z.land (m_mode_flags m) IRC_MFLAG_OP =? 0)
          | None => false
          end
      | None => false
      end in
    let st :=
      match irc_chan_find (i_channels st) channel with
      | Some i => if opped then on_channels (alter (set_have_ops true) i) st else st
      | None => st
      end in
    if chan_have_ops st channel then irc_apply_chan_admin env channel st else st.

Definition write_topic (channel topic : cstr) (st : irc_state_t) : irc_state_t :=
  match irc_chan_find (i_channels st) channel with
  | Some i => on_channels (alter (set_topic (strlcpy IRC_LINE_SZ topic)) i) st
  | None => st
  end.

Definition irc_handle_topic332 (env : irc_env) (p : irc_parsed_msg_t) (st : irc_state_t) : irc_state_t :=
  let channel := second_param p in
  if negb (p_has_trailing p) || negb (is_chan_chr (deref channel)) then st
  else write_topic channel (p_trailing p) st.

(** The walk over the fields of a WHO reply: user, host and nick as far as seen. *)
Fixpoint who_loop (turns : nat) (tok : cstr) (field : nat) (user host : cstr) : cstr * cstr * cstr :=
  match tok, turns with
  | [], _ | _, O => (user, host, [])
  | _, S turns =>
      let w := span not_space tok in
      if (field =? 5)%nat && (length w <? IRC_NICK_SZ)%nat then (user, host, w)
      else
        let user := if (field =? 2)%nat && (length w <? IRC_NICK_SZ)%nat then w else user in
        let host := if (field =? 3)%nat && (length w <? IRC_HOST_SZ)%nat then w else host in
        match drop (length w) tok with
        | [] => (user, host, [])
        | _ :: rest => who_loop turns rest (S field) user host
        end
  end.

Definition irc_handle_whoreply (env : irc_env) (p : irc_parsed_msg_t) (st : irc_state_t) : irc_state_t :=
  match who_loop (length (p_params p)) (p_params p) 0 [] [] with
  | ([], _, _) | (_, [], _) | (_, _, []) => st
  | (user, host, nick) => on_channels (fun chs => irc_user_seen chs nick (userhost_of user host)) st
  end.

Definition irc_handle_join (env : irc_env) (p : irc_parsed_msg_t) (st : irc_state_t) : irc_state_t :=
  match (if p_has_trailing p then p_trailing p else p_params p) with
  | [] => st
  | (c :: channame) as channel =>
      let st := on_channels (fun chs => irc_chan_add_nick chs channel (p_nick p)) st in
      let st := see_sender p st in
      if is_self st (p_nick p) then irc_handle_self_join env channel st
      else if negb (ceqb c "#") then st
      else if chan_uint env st channame (lit ".admin.enabled") =? 0 then st
      else if chan_uint env st channame (lit ".admin.kick_unident") =? 0 then st
      else if negb (chan_have_ops st channel) then st
      else
        let botname := irc_botname_from_inst (inst_name (i_conf st)) METHOD_NAME_SZ in
        let mfa := strlcpy IRC_MFA_SZ (p_nick p ++ lit "!" ++ p_user p ++ lit "@" ++ p_host p) in
        if e_bot_find env botname && e_identified env (p_nick p) (Some mfa) then st
        else
          let delay := wrap 32 (kv_get_uint_or_default (e_kv env)
                                  (chan_kv_key st channame (lit ".admin.kick_unident_delay"))) in
          log (FxKickCheck (wrap 32 (delay * 1000))
                 {| kc_inst_name := strlcpy METHOD_NAME_SZ (inst_name (i_conf st));
                    kc_channel := strlcpy (IRC_CHAN_SZ + 1) channel; kc_nick := strlcpy IRC_NICK_SZ (p_nick p);
                    kc_host := strlcpy IRC_HOST_SZ (p_host p) |}) st
  end.

(** The task a join arms, when its delay is over; the instance is the one it found. None
    is undefined behaviour: the message key is gone and NULL is printed with %s. *)
Definition irc_kick_unident_task (env : irc_env) (kc : irc_kick_check_t) (st : irc_state_t) : option irc_state_t :=
  if negb (i_connected st) then Some st
  else
    let still_here :=
      match chan_at st (kc_channel kc) with
      | Some ch => match irc_member_find ch (kc_nick kc) with Some _ => true | None => false end
      | None => false
      end in
    if negb (chan_have_ops st (kc_channel kc)) || negb still_here then Some st
    else if negb (e_bot_find env (irc_botname_from_inst (kc_inst_name kc) METHOD_NAME_SZ)) then Some st
    else if e_identified env (kc_nick kc) None then Some st
    else
      let channame := if ceqb (deref (kc_channel kc)) "#" then drop 1 (kc_channel kc) else kc_channel kc in
      msg ← chan_text env st channame (lit ".admin.kick_unident_msg");
      Some (send_ env (lit "KICK " ++ kc_channel kc ++ lit " " ++ kc_nick kc ++ lit " :" ++ msg) st).

(** A nick that left a channel; our own takes the channel with it. *)
Definition leave (channel nick : cstr) (st : irc_state_t) : irc_state_t :=
  if is_self st nick then on_channels (fun chs => irc_chan_remove chs channel) st
  else on_channels (fun chs => irc_chan_remove_nick chs channel nick) st.

Definition irc_handle_part (env : irc_env) (p : irc_parsed_msg_t) (st : irc_state_t) : irc_state_t :=
  leave (first_param p) (p_nick p) st.

Definition irc_handle_quit (env : irc_env) (p : irc_parsed_msg_t) (st : irc_state_t) : irc_state_t :=
  on_channels (fun chs => irc_chan_remove_nick_all chs (p_nick p)) st.

Definition irc_handle_kick (env : irc_env) (p : irc_parsed_msg_t) (st : irc_state_t) : irc_state_t :=
  let '(channel, k) := copy_word IRC_CHAN_SZ (p_params p) in
  let '(kicked, _) := copy_word (IRC_NICK_SZ - 1) (skip_spaces k) in
  leave channel kicked st.

Definition irc_handle_nick (env : irc_env) (p : irc_parsed_msg_t) (st : irc_state_t) : irc_state_t :=
  match (if p_has_trailing p then p_trailing p else p_params p) with
  | [] => st
  | raw_nick =>
      let new_nick := strlcpy IRC_NICK_SZ raw_nick in
      let st := on_channels (fun chs => irc_chan_rename_nick chs (p_nick p) new_nick) st in
      let st :=
        if is_self st (p_nick p) then with_cur_nick (strlcpy IRC_NICK_SZ new_nick) (i_nick_attempt st) st else st in
      let meta := strlcpy METHOD_META_SZ (new_nick ++ lit "!" ++ p_user p ++ lit "@" ++ p_host p) in
      let prev := strlcpy METHOD_META_SZ (p_prefix p) in
      log (FxDeliver {| msg_nick_change := true; msg_sender := strlcpy METHOD_SENDER_SZ (p_nick p);
                        msg_channel := []; msg_text := strlcpy METHOD_TEXT_SZ new_nick;
                        msg_timestamp := e_now env; msg_metadata := meta; msg_is_action := false;
                        msg_identity := quad_of meta; msg_prev_metadata := prev;
                        msg_prev_identity := quad_of prev |}) st
  end.

Definition irc_handle_topic (env : irc_env) (p : irc_parsed_msg_t) (st : irc_state_t) : irc_state_t :=
  let channel := first_param p in
  if negb (is_chan_chr (deref channel)) then st
  else
    let new_topic := if p_has_trailing p then p_trailing p else [] in
    let st := write_topic channel new_topic st in
    if negb (chan_have_ops st channel) || is_self st (p_nick p) then st
    else
      let channame := drop 1 channel in
      if chan_uint env st channame (lit ".admin.enabled") =? 0 then st
      else if chan_uint env st channame (lit ".admin.topic.enabled") =? 0 then st
      else
        match chan_text env st channame (lit ".admin.topic.value") with
        | Some (w :: ws) =>
            if seqb new_topic (w :: ws) then st
            else send_ env (lit "TOPIC " ++ channel ++ lit " :" ++ w :: ws) st
        | _ => st
        end.

(** The modes of a MODE line, with the parameters left: the channel as they leave it, and
    whether a key was removed. *)
Fixpoint mode_loop (cur_nick : cstr) (mode_str param_ptr : cstr) (adding key_removed : bool)
    (ch : option irc_channel_t) : option irc_channel_t * bool :=
  match mode_str with
  | [] => (ch, key_removed)
  | mc :: mode_str =>
      if ceqb mc "+" then mode_loop cur_nick mode_str param_ptr true key_removed ch
      else if ceqb mc "-" then mode_loop cur_nick mode_str param_ptr false key_removed ch
      else
        let flag := irc_mode_to_flag mc in
        let takes_param :=
          ceqb mc "o" || ceqb mc "v" || ceqb mc "h" || ceqb mc "q" || ceqb mc "a" || ceqb mc "k" || ceqb mc "b"
          || (ceqb mc "l" && adding) in
        let key_removed := key_removed || (ceqb mc "k" && negb adding) in
        if takes_param then
          let '(param_nick, rest) := copy_word (IRC_NICK_SZ - 1) param_ptr in
          let ch :=
            match ch, param_nick with
            | None, _ | _, [] => ch
            | Some c, _ =>
                if flag =? 0 then ch
                else
                  let change m :=
                    set_mode_flags (if adding then Z.lor (m_mode_flags m) flag
                                    else Z.land (m_mode_flags m) (Z.lnot flag)) m in
                  let c := alter_member param_nick change c in
                  Some (if (flag =? IRC_MFLAG_OP) && strncaseeq IRC_NICK_SZ param_nick cur_nick
                        then set_have_ops adding c else c)
            end in
          mode_loop cur_nick mode_str (skip_spaces rest) adding key_removed ch
        else mode_loop cur_nick mode_str param_ptr adding key_removed ch
  end.

Definition irc_handle_mode (env : irc_env) (p : irc_parsed_msg_t) (st : irc_state_t) : irc_state_t :=
  let '(channel, mp) := copy_word IRC_CHAN_SZ (p_params p) in
  if negb (is_chan_chr (deref channel)) then st
  else
    match skip_spaces mp with
    | [] => st
    | mode_str =>
        let param_ptr := skip_spaces (skip_while not_space mode_str) in
        let had_ops := chan_have_ops st channel in
        let '(ch, key_removed) :=
          mode_loop (i_cur_nick st) (span not_space mode_str) param_ptr true false (chan_at st channel) in
        let st :=
          match irc_chan_find (i_channels st) channel, ch with
          | Some i, Some ch => on_channels (alter (fun _ => ch) i) st
          | _, _ => st
          end in
        let now_has_ops := match ch with Some ch => c_have_ops ch | None => false end in
        let is_self := is_self st (p_nick p) in
        let st := if negb had_ops && now_has_ops then irc_apply_chan_admin env channel st else st in
        if negb key_removed || negb now_has_ops || is_self then st
        else
          let channame := if ceqb (deref channel) "#" then drop 1 channel else channel in
          if chan_uint env st channame (lit ".admin.enabled") =? 0 then st
          else if chan_uint env st channame (lit ".admin.key.enabled") =? 0 then st
          else
            match chan_text env st channame (lit ".admin.key.value") with
            | Some (v :: vs) => send_ env (lit "MODE " ++ channel ++ lit " +k " ++ v :: vs) st
            | _ => st
            end
    end.

Definition irc_handle_nickinuse (env : irc_env) (p : irc_parsed_msg_t) (st : irc_state_t) : irc_state_t :=
  let attempt := wrap 8 (i_nick_attempt st + 1) in
  let st := with_cur_nick (i_cur_nick st) attempt st in
  let next :=
    if (attempt =? 1) && negb (seqb (nick2 (i_conf st)) []) then Some (nick2 (i_conf st))
    else if (attempt =? 2) && negb (seqb (nick3 (i_conf st)) []) then Some (nick3 (i_conf st))
    else None in
  match next with
  | Some n =>
      let st := with_cur_nick (strlcpy IRC_NICK_SZ n) attempt st in
      send_ env (lit "NICK " ++ i_cur_nick st) st
  | None => st
  end.

Definition irc_handle_error (env : irc_env) (p : irc_parsed_msg_t) (st : irc_state_t) : irc_state_t :=
  with_link (i_registered st) false st.

Definition irc_cmd_table : list (cstr * (irc_env -> irc_parsed_msg_t -> irc_state_t -> irc_state_t)) :=
  [(lit "PING", irc_handle_ping); (lit "001", irc_handle_welcome); (lit "352", irc_handle_whoreply);
   (lit "353", irc_handle_namreply); (lit "366", irc_handle_endnames); (lit "381", irc_handle_youreoper);
   (lit "464", irc_handle_badpassword); (lit "491", irc_handle_badpassword); (lit "332", irc_handle_topic332);
   (lit "JOIN", irc_handle_join); (lit "PART", irc_handle_part); (lit "QUIT", irc_handle_quit);
   (lit "KICK", irc_handle_kick); (lit "NICK", irc_handle_nick); (lit "TOPIC", irc_handle_topic);
   (lit "MODE", irc_handle_mode); (lit "PRIVMSG", irc_handle_privmsg); (lit "433", irc_handle_nickinuse);
   (lit "ERROR", irc_handle_error)].

Definition irc_witness (env : irc_env) (p : irc_parsed_msg_t) (st : irc_state_t) : irc_state_t :=
  match p_user p, p_host p with
  | [], _ | _, [] => st
  | _, _ =>
      if negb (has_inst (i_conf st)) then st
      else
        let botname := irc_botname_from_inst (inst_name (i_conf st)) METHOD_NAME_SZ in
        if negb (e_bot_find env botname) then st
        else log (FxWitness botname (seqb (p_command p) (lit "QUIT")) (p_prefix p)) st
  end.

Definition irc_handle_line (env : irc_env) (line : cstr) (st : irc_state_t) : irc_state_t :=
  match irc_parse_line line with
  | None => st
  | Some p =>
      let st := irc_witness env p st in
      match List.find (fun e => seqb (p_command p) e.1) irc_cmd_table with
      | Some (_, fn) => fn env p st
      | None => st
      end
  end.

(** ** Reading *)

(** [strstr(start, CRLF)]: it does not look past a NUL. *)
Definition next_break (s : list ascii) : option nat := strstr (span (fun c => negb (ceqb c NUL)) s) [CR; LF].

(** The loop over the complete lines; what is left of the buffer. *)
Fixpoint process_loop (turns : nat) (env : irc_env) (look : nat) (start : list ascii) (st : irc_state_t) :
    list ascii * irc_state_t :=
  match turns with
  | O => (start, st)
  | S turns =>
      if e_dead env look then (start, st)
      else
        match next_break start with
        | None => (start, st)
        | Some i =>
            let line := take i start in
            let st := match line with [] => st | _ => irc_handle_line env line st end in
            process_loop turns env (S look) (drop (i + 2) start) st
        end
  end.

(** The instance with its read buffer, the fields [buf] and [buf_len], which nothing but the
    two functions below touches. *)
Record irc_link := { l_buf : list ascii; l_st : irc_state_t }.

Definition irc_process_buffer (env : irc_env) (l : irc_link) : irc_link :=
  let '(remaining, st) := process_loop (S (length (l_buf l))) env 1 (l_buf l) (l_st l) in
  {| l_buf := if (IRC_BUF_SZ - 1 <=? length remaining)%nat then [] else remaining; l_st := st |}.

(** The socket reports a read only when it read something. *)
Inductive sock_event_t :=
  | SOCK_EVENT_CONNECTED
  | SOCK_EVENT_DATA (first : ascii) (more : list ascii)
  | SOCK_EVENT_DISCONNECT
  | SOCK_EVENT_ERROR.

Definition link_lost (env : irc_env) (st : irc_state_t) : irc_link :=
  let st := with_link false false st in
  let st := with_server_idx (wrap 32 (i_server_idx st + 1)) st in
  let st := log (FxState METHOD_ENABLED) st in
  let st := on_channels irc_chan_clear_all st in
  {| l_buf := []; l_st := if negb (e_stopping env) then log FxArmReconnect st else st |}.

(** The first look at [dead] is the one on entry. *)
Definition irc_sock_cb (env : irc_env) (event : sock_event_t) (l : irc_link) : irc_link :=
  if e_dead env 0 then l
  else
    match event with
    | SOCK_EVENT_CONNECTED =>
        let st := with_link (i_registered (l_st l)) true (l_st l) in
        {| l_buf := l_buf l; l_st := irc_send_registration env (log (FxState METHOD_RUNNING) st) |}
    | SOCK_EVENT_DATA c more =>
        let avail := (IRC_BUF_SZ - length (l_buf l) - 1)%nat in
        irc_process_buffer env {| l_buf := l_buf l ++ take avail (c :: more); l_st := l_st l |}
    | SOCK_EVENT_DISCONNECT => link_lost env (l_st l)
    | SOCK_EVENT_ERROR => link_lost env (l_st l)
    end.

(** ** What the core calls *)

Definition irc_send (env : irc_env) (target text : cstr) (st : irc_state_t) : bool * irc_state_t :=
  if negb (i_connected st) || negb (i_registered st) then (FAIL, st) else irc_send_privmsg env target text st.

Definition irc_send_emote (env : irc_env) (target text : cstr) (st : irc_state_t) : bool * irc_state_t :=
  if negb (i_connected st) || negb (i_registered st) then (FAIL, st)
  else if INT_MAX 32 <? Z.of_nat (length text + 9) then (FAIL, st)
  else irc_send_privmsg env target (strlcpy IRC_LINE_SZ (CTCP :: lit "ACTION " ++ text ++ [CTCP])) st.

Definition irc_get_context (sender : cstr) (ctx_sz : nat) (st : irc_state_t) : option cstr :=
  irc_user_userhost (i_channels st) sender ctx_sz.

Definition irc_identity_key (metadata : cstr) (key_sz : nat) : option cstr :=
  bang ← strchr metadata "!";
  let rest := drop (S bang) metadata in
  match rest with
  | [] => None
  | _ =>
      match strchr rest "@" with
      | None => None
      | Some _ => if (length rest <? key_sz)%nat then Some (strlcpy key_sz rest) else None
      end
  end.

Definition irc_identity_present (key : cstr) (st : irc_state_t) : bool := irc_userhost_present (i_channels st) key.

(** The nicks the callback is called with. *)
Definition irc_list_channel (channel : cstr) (st : irc_state_t) : list cstr :=
  match chan_at st channel with
  | Some ch =>
      if c_member_count ch =? 0 then []
      else map (fun m => strlcpy IRC_NICK_SZ (m_nick m)) (take (Z.to_nat (c_member_count ch)) (c_members ch))
  | None => []
  end.

Definition irc_list_joined_channels (st : irc_state_t) : list cstr := map c_name (i_channels st).

Definition irc_get_self (sz : nat) (st : irc_state_t) : option cstr :=
  match i_cur_nick st with [] => None | n => Some (strlcpy sz n) end.

(** Line breaks are dropped, and an empty reason gets a text. *)
Definition irc_eject_reason (out_sz : nat) (reason : option cstr) : cstr :=
  match strlcpy out_sz (List.filter (fun c => negb (is_break c)) (default [] reason)) with
  | [] => strlcpy out_sz (lit "ejected")
  | out => out
  end.

Definition irc_eject_probe (channel target : cstr) (st : irc_state_t) : method_eject_t :=
  if negb (i_connected st) then METHOD_EJECT_NONE
  else
    let present :=
      match chan_at st channel with
      | Some ch => match irc_member_find ch target with Some _ => true | None => false end
      | None => false
      end in
    if negb present then METHOD_EJECT_NONE
    else if i_is_oper st then METHOD_EJECT_SERVER
    else if chan_have_ops st channel then METHOD_EJECT_ROOM
    else METHOD_EJECT_NONE.

Definition irc_eject (env : irc_env) (channel target : cstr) (force : method_eject_t) (reason : option cstr)
    (st : irc_state_t) : bool * irc_state_t :=
  let avail := irc_eject_probe channel target st in
  let force := if eject_rank avail <? eject_rank force then avail else force in
  match force with
  | METHOD_EJECT_NONE => (FAIL, st)
  | METHOD_EJECT_SERVER =>
      irc_send_raw env (lit "KILL " ++ target ++ lit " :" ++ irc_eject_reason IRC_EJECT_REASON_SZ reason) st
  | METHOD_EJECT_ROOM =>
      irc_send_raw env (lit "KICK " ++ channel ++ lit " " ++ target ++ lit " :"
                        ++ irc_eject_reason IRC_EJECT_REASON_SZ reason) st
  end.

Definition irc_valid_name (name : cstr) : bool :=
  match name with
  | [] => false
  | _ => forallb (fun c => isalnum c || ceqb c "-" || ceqb c "_") name
  end.

Definition irc_address_to_key (address : cstr) (out_sz : nat) : cstr :=
  map (fun c => if ceqb c "." || ceqb c ":" then "-"%char else c) (strlcpy out_sz address).

(** The segment of a key between its dots; None is FAIL. *)
Fixpoint irc_extract_segment (key : cstr) (segment out_sz : nat) : option cstr :=
  match segment with
  | O =>
      let len := length (span (fun c => negb (ceqb c ".")) key) in
      if (len =? 0)%nat || (out_sz <=? len)%nat then None else Some (take len key)
  | S segment => i ← strchr key "."; irc_extract_segment (drop (S i) key) segment out_sz
  end.

End irc.
