(* ===== verification/IrcStream.v ===== *)
(** * Lines out of a stream: irc_process_buffer and the DATA event of irc.c

    TCP cuts what a peer sends wherever it likes. As long as no piece overruns the read
    buffer, the driver handles the lines the peer wrote, each once and in order. *)

From S2P Require Import Prelude Kv KvApi IrcParse IrcChannel Irc.

(** ** Streams of lines *)

Definition breaks_free (s : list ascii) : Prop := Forall (fun c => is_break c = false) s.

(** What a sender of these lines writes. *)
Definition wire (lines : list (list ascii)) : list ascii := concat (map (fun l => l ++ [CR; LF]) lines).

(** A reader that cuts at every CR LF: the lines, and what is left. *)
Fixpoint read_lines (turns : nat) (s : list ascii) : list (list ascii) * list ascii :=
  match turns, strstr s [CR; LF] with
  | S turns, Some i => let '(ls, r) := read_lines turns (drop (i + 2) s) in (take i s :: ls, r)
  | _, _ => ([], s)
  end.

Lemma break_here s : strstr (CR :: LF :: s) [CR; LF] = Some O.
Proof. done. Qed.

Lemma break_not_cr c s : c <> CR -> strstr (c :: s) [CR; LF] = S <$> strstr s [CR; LF].
Proof.
  intros H. cbn [strstr]. replace (starts_with (c :: s) [CR; LF]) with false; [done|].
  symmetry. apply seqb_false. destruct s; cbn; congruence.
Qed.

Lemma break_skip l s : breaks_free l -> strstr (l ++ s) [CR; LF] = Nat.add (length l) <$> strstr s [CR; LF].
Proof.
  induction 1 as [|c l Hc _ IH]; [cbn [app length]; by destruct (strstr s _)|]. cbn [app length].
  rewrite break_not_cr, IH. 1: by destruct (strstr s _). intros ->. done.
Qed.

(** The first break of a line and more is the end of the line. *)
Lemma break_line l s : breaks_free l -> strstr (l ++ CR :: LF :: s) [CR; LF] = Some (length l).
Proof. intros H. rewrite break_skip, break_here by done. cbn. f_equal. lia. Qed.

Lemma take_line (l : list ascii) s : take (length l) (l ++ s) = l.
Proof. apply take_app_length. Qed.

Lemma drop_line (l : list ascii) s : drop (length l + 2) (l ++ CR :: LF :: s) = s.
Proof. by rewrite drop_app_add'. Qed.

Lemma wire_cons l ls s : wire (l :: ls) ++ s = l ++ CR :: LF :: (wire ls ++ s).
Proof. unfold wire. cbn [map concat]. rewrite <- !app_assoc. done. Qed.

(** A peer that reads what was written reads the lines that were written. *)
Lemma read_wire ls s n :
  Forall breaks_free ls -> strstr s [CR; LF] = None -> (length ls <= n)%nat -> read_lines n (wire ls ++ s) = (ls, s).
Proof.
  intros H Hs. revert n. induction H as [|l ls Hl _ IH]; intros n Hn.
  - cbn [wire map concat app]. destruct n; cbn [read_lines]; by rewrite ?Hs.
  - destruct n as [|n]; [cbn in Hn; lia|]. rewrite wire_cons. cbn [read_lines].
    rewrite break_line, take_line, drop_line by done. rewrite IH; [done|]. cbn in Hn. lia.
Qed.

(** A prefix of a stream of lines is some of the lines and less than one more. *)
Lemma stream_cut ls r a b :
  Forall breaks_free ls -> strstr r [CR; LF] = None -> a ++ b = wire ls ++ r ->
  exists done todo part, ls = done ++ todo /\ a = wire done ++ part /\ part ++ b = wire todo ++ r
    /\ strstr part [CR; LF] = None
    /\ match todo with [] => True | l :: _ => (length part <= length l + 1)%nat end.
Proof.
  intros H Hr. revert a. induction H as [|l ls Hl _ IH]; intros a E.
  - exists [], [], a. cbn in *. split_and!; try done.
    destruct (strstr a [CR; LF]) as [i|] eqn:Ea; [|done]. exfalso. revert Hr. rewrite <- E.
    clear -Ea. revert i Ea. induction a as [|c a IH]; intros i Ea; [done|]. cbn [app].
    destruct (decide (starts_with (c :: a) [CR; LF] = true)) as [Hs|Hs].
    + cbn [strstr]. replace (starts_with (c :: a ++ b) [CR; LF]) with true; [done|].
      unfold starts_with in *. creflect. destruct a as [|d a]; [done|]. cbn in Hs. injection Hs as -> ->. done.
    + cbn [strstr] in Ea |- *. destruct (starts_with (c :: a) [CR; LF]); [done|].
      destruct (strstr a [CR; LF]) as [j|] eqn:Ej; [|done]. destruct (starts_with _ _); [done|].
      specialize (IH j eq_refl). by destruct (strstr (a ++ b) _).
  - rewrite wire_cons in E. destruct (decide (length l + 2 <= length a)%nat) as [Hlen|Hlen].
    + assert (a = l ++ CR :: LF :: drop (length l + 2) a) as Ea.
      { assert (take (length l + 2) a = l ++ [CR; LF]) as Et.
        { rewrite <- (take_app_le a b) by done. rewrite E. rewrite take_app_add'; [|done]. done. }
        rewrite <- (take_drop (length l + 2) a) at 1. rewrite Et, <- app_assoc. done. }
      rewrite Ea, <- app_assoc in E. apply app_inv_head in E. cbn [app] in E. injection E as E.
      destruct (IH _ E) as (dn & todo & part & -> & Hd & Hp & Hn & Hl').
      exists (l :: dn), todo, part. split_and!; try done. by rewrite wire_cons, <- Hd, <- Ea.
    + exists [], (l :: ls), a. rewrite wire_cons. cbn [wire map concat app]. split_and!; try done; [|lia].
      assert (a = take (length a) (l ++ [CR])) as ->.
      { rewrite <- (take_app_length a b) at 1. rewrite E. change (l ++ CR :: LF :: ?x) with (l ++ [CR] ++ LF :: x).
        rewrite app_assoc, take_app_le; [done|]. rewrite length_app. cbn. lia. }
      rewrite take_app. rewrite break_skip by by apply Forall_take.
      destruct (length a - length l)%nat as [|[|k]] eqn:Ek; try done.
Qed.

(** ** The driver's buffer *)

Section stream.
Context {F : CFloat} (version : cstr).

Definition no_nul (s : list ascii) : Prop := NUL ∉ s.

Lemma next_break_free s : no_nul s -> next_break s = strstr s [CR; LF].
Proof.
  intros H. unfold next_break. f_equal. induction s as [|c s IH]; [done|].
  apply not_elem_of_cons in H as [H1 H2]. cbn [span]. rewrite (proj2 (ceqb_false _ _)) by done. cbn [negb].
  f_equal. by apply IH.
Qed.

(** What is to be done with lines: the empty ones are skipped. *)
Definition handle_all (env : irc_env) (ls : list (list ascii)) (st : irc_state_t) : irc_state_t :=
  fold_left (fun st l => match l with [] => st | _ => irc_handle_line version env l st end) ls st.

Definition always_alive (env : irc_env) : Prop := forall k, e_dead env k = false.

Lemma no_nul_app a b : no_nul (a ++ b) <-> no_nul a /\ no_nul b.
Proof. unfold no_nul. rewrite elem_of_app. tauto. Qed.

Lemma wire_no_nul ls : Forall no_nul ls -> no_nul (wire ls).
Proof.
  induction 1 as [|l ls Hl _ IH]; [by intros ?%elem_of_nil|]. unfold wire. cbn [map concat]. rewrite <- app_assoc.
  apply no_nul_app. split; [done|]. apply (no_nul_app [CR; LF]). split; [|exact IH].
  unfold no_nul. rewrite !elem_of_cons, elem_of_nil. intros [E|[E|[]]]; by vm_compute in E.
Qed.

Lemma process_lines env ls part turns k st :
  always_alive env -> Forall (fun l => breaks_free l /\ no_nul l) ls -> strstr part [CR; LF] = None -> no_nul part ->
  (length ls < turns)%nat -> process_loop version turns env k (wire ls ++ part) st = (part, handle_all env ls st).
Proof.
  intros Ha H Hp Hn. revert turns k st. induction H as [|l ls [Hl Hln] Hls IH]; intros [|turns] k st Ht; try lia.
  - cbn [wire map concat app process_loop]. by rewrite Ha, next_break_free, Hp.
  - assert (no_nul (wire (l :: ls) ++ part)) as Hnn.
    { apply no_nul_app. split; [|done]. apply wire_no_nul. constructor; [done|].
      eapply List.Forall_impl; [|exact Hls]. by intros ? []. }
    cbn [process_loop]. rewrite Ha, next_break_free by done. rewrite wire_cons, break_line, take_line, drop_line by done.
    cbv zeta. rewrite IH by (cbn in Ht; lia). done.
Qed.

(** Reads, each of at least one byte. *)
Definition feed (env : irc_env) (pieces : list (ascii * list ascii)) (l : irc_link) : irc_link :=
  fold_left (fun l '(c, more) => irc_sock_cb version env (SOCK_EVENT_DATA c more) l) pieces l.

Definition piece_bytes (p : ascii * list ascii) : list ascii := p.1 :: p.2.

(** Lines that leave room in the buffer for a read of [room] bytes. *)
Definition line_fits (room : nat) (l : list ascii) : Prop :=
  breaks_free l /\ no_nul l /\ (length l + 1 + room < IRC_BUF_SZ)%nat.

Lemma wire_length ls : (length ls <= length (wire ls))%nat.
Proof. induction ls as [|l ls IH]; [done|]. unfold wire in *. cbn. rewrite !length_app. cbn. lia. Qed.

Lemma handle_all_app env a b st : handle_all env (a ++ b) st = handle_all env b (handle_all env a st).
Proof. apply fold_left_app. Qed.

Lemma fits_free room ls : Forall (line_fits room) ls -> Forall breaks_free ls.
Proof. intros H. eapply List.Forall_impl; [|exact H]. by intros l []. Qed.

(** One read, in the middle of a stream. *)
Lemma data_event env room c more buf ls r b st :
  always_alive env -> Forall (line_fits room) ls -> strstr r [CR; LF] = None -> no_nul r ->
  (length r + room < IRC_BUF_SZ)%nat -> (S (length more) <= room)%nat -> (length buf + room < IRC_BUF_SZ)%nat ->
  (buf ++ c :: more) ++ b = wire ls ++ r ->
  exists done todo part, ls = done ++ todo /\ part ++ b = wire todo ++ r /\ (length part + room < IRC_BUF_SZ)%nat
    /\ strstr part [CR; LF] = None
    /\ irc_sock_cb version env (SOCK_EVENT_DATA c more) {| l_buf := buf; l_st := st |}
       = {| l_buf := part; l_st := handle_all env done st |}.
Proof.
  intros Ha Hls Hr Hnr Hrl Hc Hb E.
  destruct (stream_cut ls r (buf ++ c :: more) b (fits_free _ _ Hls) Hr E) as (dn & todo & part & -> & Ed & Ep & Hp & Hpl).
  apply Forall_app in Hls as [Hd Ht]. exists dn, todo, part.
  assert (length part + room < IRC_BUF_SZ)%nat as Hpart.
  { destruct todo as [|l todo].
    - cbn [wire map concat app] in Ep. apply (f_equal length) in Ep. rewrite length_app in Ep. lia.
    - pose proof (Forall_inv Ht) as (_ & _ & Hl). lia. }
  split_and!; try done. unfold irc_sock_cb. rewrite Ha. cbn [l_buf l_st]. cbv zeta. rewrite take_ge by (cbn [length]; lia).
  unfold irc_process_buffer. cbn [l_buf l_st]. rewrite Ed, process_lines; try done.
  - replace (IRC_BUF_SZ - 1 <=? length part)%nat with false; [done|]. symmetry. apply Nat.leb_gt. lia.
  - eapply List.Forall_impl; [|exact Hd]. intros l (? & ? & _). by split.
  - assert (no_nul (part ++ b)) as Hnn; [|exact (proj1 (proj1 (no_nul_app part b) Hnn))].
    rewrite Ep. apply no_nul_app. split; [|done]. apply wire_no_nul. eapply List.Forall_impl; [|exact Ht].
    by intros l (_ & ? & _).
  - rewrite length_app. pose proof (wire_length dn). lia.
Qed.


End stream.

(** ** An instance to try things on *)

Definition idle_env : irc_env := {|
  e_kv := kv_boot; e_session := fun _ => true; e_sock_send := fun _ _ => true; e_dead := fun _ => false;
  e_bot_find := fun _ => false; e_identified := fun _ _ => false; e_stopping := false; e_now := 0 |}.

Definition sample_conf : irc_conf := {|
  inst_name := lit "main_irc"; kv_prefix := lit "bot.main.irc."; has_inst := true; operator_name := [];
  operator_pass := []; conf_nick := lit "bot"; nick2 := []; nick3 := []; user := lit "bot"; realname := lit "Bot";
  pass := [] |}.

Definition sample_irc : irc_state_t := {|
  i_conf := sample_conf; i_registered := true; i_connected := true; i_is_oper := false; i_cur_nick := lit "bot";
  i_nick_attempt := 0; i_server_idx := 0; i_channels := []; i_fx := [] |}.

Definition piece (s : list ascii) : ascii * list ascii := (nth 0 s NUL, drop 1 s).


(** A read of 4096 bytes, what the socket layer reads at most by default, does not fit the
    buffer even when it is empty: its last byte is lost and two lines become one, so nine
    lines get eight answers. *)
Lemma irc_read_splices :
  let line := lit "PING :" ++ repeat "a"%char 504 in
  let pieces := [piece (wire (repeat line 8)); piece (lit "PING :b" ++ [CR; LF])] in
  Forall (fun p => length (piece_bytes p) <= 4096)%nat pieces
  /\ concat (map piece_bytes pieces) = wire (repeat line 8 ++ [lit "PING :b"])
  /\ length (i_fx (l_st (feed [] idle_env pieces {| l_buf := []; l_st := sample_irc |}))) = 8%nat
  /\ length (i_fx (handle_all [] idle_env (repeat line 8 ++ [lit "PING :b"]) sample_irc)) = 9%nat.
Proof.
  cbv zeta. split_and!; try by vm_compute.
  apply List.Forall_cons; [|apply List.Forall_cons; [|done]]; apply Nat.leb_le; by vm_compute.
Qed.
