(* ===== verification/IrcSend.v ===== *)
(** * What the IRC driver puts on the wire

    Over [Irc]: every line is one command of the driver's own, whatever its peers send and
    its callers pass, and a long message is cut into lines that carry all of it. *)

From S2P Require Import Prelude Kv IrcParse IrcChannel Irc IrcStream KvApi.

Section send.
Context {F : CFloat} (version : cstr).

(** ** One command a line *)

(** A line of one of these commands: the verb, a space, arguments, and the only line break
    at the end, within IRC_LINE_SZ. *)
Definition wire_ok (verbs : list cstr) (line : cstr) : Prop :=
  exists v args, v ∈ verbs /\ line = (v ++ lit " " ++ args) ++ [CR; LF] /\ breaks_free (v ++ lit " " ++ args)
    /\ (length line < IRC_LINE_SZ)%nat.

(** What a peer can make the driver send. *)
Definition peer_verbs : list cstr :=
  map lit ["PASS"; "NICK"; "USER"; "WHO"; "PONG"; "OPER"; "JOIN"; "MODE"; "TOPIC"; "PRIVMSG"]%string.

Definition eject_verbs : list cstr := map lit ["KICK"; "KILL"]%string.

Definition all_verbs : list cstr := peer_verbs ++ eject_verbs.

Definition fx_ok (verbs : list cstr) (x : irc_fx) : Prop :=
  match x with FxWire line => wire_ok verbs line | _ => True end.

(** The log grew by effects that are in order. *)
Definition says (verbs : list cstr) (st st' : irc_state_t) : Prop :=
  exists new, i_fx st' = i_fx st ++ new /\ Forall (fx_ok verbs) new.

(** What a sender leaves alone. *)
Record quiet (st st' : irc_state_t) : Prop := {
  q_conf : i_conf st' = i_conf st;
  q_channels : i_channels st' = i_channels st;
  q_nick : i_cur_nick st' = i_cur_nick st;
  q_connected : i_connected st' = i_connected st
}.

Lemma quiet_refl st : quiet st st.
Proof. done. Qed.

Lemma quiet_trans st1 st2 st3 : quiet st1 st2 -> quiet st2 st3 -> quiet st1 st3.
Proof. intros [] []. split; congruence. Qed.

Lemma says_refl vs st : says vs st st.
Proof. exists []. by rewrite app_nil_r. Qed.

Lemma says_trans vs st1 st2 st3 : says vs st1 st2 -> says vs st2 st3 -> says vs st1 st3.
Proof.
  intros (n1 & H1 & F1) (n2 & H2 & F2). exists (n1 ++ n2). rewrite H2, H1, app_assoc. split; [done|].
  by apply Forall_app.
Qed.

Lemma says_more vs vs' st st' : vs ⊆ vs' -> says vs st st' -> says vs' st st'.
Proof.
  intros Hv (n & H & HF). exists n. split; [done|]. eapply Forall_impl; [|exact HF].
  intros [] Hx; try done. destruct Hx as (v & args & ? & ?). exists v, args. split; [by apply Hv|done].
Qed.

(** The changes of state that are silent. *)
Lemma says_same vs st st1 st2 : i_fx st2 = i_fx st1 -> says vs st st1 -> says vs st st2.
Proof. intros E (n & H & HF). exists n. by rewrite E. Qed.

Lemma says_log vs st st1 x : fx_ok vs x -> says vs st st1 -> says vs st (log x st1).
Proof.
  intros Hx H. eapply says_trans; [exact H|]. exists [x]. split; [done|]. by apply Forall_singleton.
Qed.

Lemma fold_free s : breaks_free (irc_fold_line_breaks s).
Proof.
  unfold breaks_free, irc_fold_line_breaks. apply Forall_map, Forall_true. intros c. cbn.
  destruct (is_break c) eqn:E; [done|exact E].
Qed.

Lemma fold_same s : breaks_free s -> irc_fold_line_breaks s = s.
Proof. induction 1 as [|c s Hc _ IH]; [done|]. cbn. rewrite Hc. f_equal. exact IH. Qed.

Lemma verb_short v : v ∈ all_verbs -> (length v < 10)%nat /\ breaks_free v.
Proof.
  intros H. assert (forallb (fun v => (length v <? 10)%nat && forallb (fun c => negb (is_break c)) v) all_verbs = true)
    as Ha by done.
  rewrite forallb_forall in Ha. apply list_elem_of_In, Ha in H. breflect. split; [done|].
  apply List.Forall_forall. intros c Hc. rewrite forallb_forall in H0. apply H0 in Hc. by apply negb_true_iff.
Qed.

(** Whatever the arguments hold, the line is one command. *)
Lemma wire_line_ok vs v t : v ∈ vs -> vs ⊆ all_verbs -> wire_ok vs (wire_line (v ++ lit " " ++ t)).
Proof.
  intros Hv Hvs. destruct (verb_short v (Hvs _ Hv)) as [Hl Hb].
  assert (strlcpy (IRC_LINE_SZ - 2) (v ++ lit " " ++ t) = v ++ lit " " ++ strlcpy (IRC_LINE_SZ - 3 - length v) t) as E.
  { unfold strlcpy, IRC_LINE_SZ in *. rewrite take_app, take_ge by lia. f_equal. cbn [lit list_ascii_of_string app].
    replace (512 - 2 - 1 - length v)%nat with (S (512 - 3 - length v - 1)) by lia. done. }
  exists v, (irc_fold_line_breaks (strlcpy (IRC_LINE_SZ - 3 - length v) t)).
  assert (irc_fold_line_breaks (strlcpy (IRC_LINE_SZ - 2) (v ++ lit " " ++ t))
          = v ++ lit " " ++ irc_fold_line_breaks (strlcpy (IRC_LINE_SZ - 3 - length v) t)) as E'.
  { rewrite E. unfold irc_fold_line_breaks at 1. rewrite !map_app. f_equal. by apply fold_same. }
  unfold wire_line. rewrite E'. split_and!; [done|done| |].
  - rewrite <- E'. apply fold_free.
  - rewrite !length_app. unfold irc_fold_line_breaks. rewrite length_map. unfold strlcpy, IRC_LINE_SZ in *.
    rewrite length_take. cbn. lia.
Qed.

(** A sender: it says only commands of [vs] and leaves the rest of the state. *)
Definition speaks (vs : list cstr) (st st' : irc_state_t) : Prop := says vs st st' /\ quiet st st'.

Lemma speaks_refl vs st : speaks vs st st.
Proof. split; [apply says_refl|done]. Qed.

Lemma speaks_trans vs st1 st2 st3 : speaks vs st1 st2 -> speaks vs st2 st3 -> speaks vs st1 st3.
Proof. intros [] []. split; [by eapply says_trans|by eapply quiet_trans]. Qed.

Definition verb_text (vs : list cstr) (text : cstr) : Prop := exists v t, v ∈ vs /\ text = v ++ lit " " ++ t.

Lemma raw_speaks vs env text st : vs ⊆ all_verbs -> verb_text vs text -> speaks vs st (irc_send_raw env text st).2.
Proof.
  intros Hvs (v & t & Hv & ->). unfold irc_send_raw.
  repeat case_step; cbn [snd]; try apply speaks_refl.
  split; [|done]. apply says_log; [by apply wire_line_ok|apply says_refl].
Qed.

Lemma send_speaks vs env text st0 st :
  vs ⊆ all_verbs -> verb_text vs text -> speaks vs st0 st -> speaks vs st0 (send_ env text st).
Proof. intros Hvs Ht H. eapply speaks_trans; [exact H|]. by apply raw_speaks. Qed.

Lemma peer_known : peer_verbs ⊆ all_verbs.
Proof. intros v H. apply elem_of_app. by left. Qed.

Lemma eject_known : eject_verbs ⊆ all_verbs.
Proof. intros v H. apply elem_of_app. by right. Qed.

(** The verb of a text that starts with a literal. *)
Ltac verb_is v := exists (lit v); eexists; split; [by apply (bool_decide_unpack _)|reflexivity].
Ltac verb :=
  first [verb_is "PASS"%string | verb_is "NICK"%string | verb_is "USER"%string | verb_is "WHO"%string
        | verb_is "PONG"%string | verb_is "OPER"%string | verb_is "JOIN"%string | verb_is "MODE"%string
        | verb_is "TOPIC"%string | verb_is "PRIVMSG"%string | verb_is "KICK"%string | verb_is "KILL"%string].
Ltac sends :=
  repeat first [apply speaks_refl | apply send_speaks; [apply peer_known|verb|]].

Lemma privmsg_loop_speaks turns env max target pos st :
  speaks peer_verbs st (privmsg_loop turns env max target pos st).2.
Proof.
  revert pos st. induction turns as [|turns IH]; intros [|c pos] st; try apply speaks_refl.
  cbn [privmsg_loop]. cbv zeta. destruct (irc_send_raw _ _ _) as [rc st'] eqn:E.
  assert (speaks peer_verbs st st') as H.
  { replace st' with (irc_send_raw env (privmsg target (take
      (if (IRC_LINE_SZ <=? chunk_len max (c :: pos))%nat then (IRC_LINE_SZ - 1)%nat else chunk_len max (c :: pos))
      (c :: pos))) st).2 by by rewrite E.
    apply raw_speaks; [apply peer_known|verb]. }
  destruct rc; [exact H|]. eapply speaks_trans; [exact H|apply IH].
Qed.

Lemma privmsg_speaks env target text st : speaks peer_verbs st (irc_send_privmsg env target text st).2.
Proof.
  unfold irc_send_privmsg. cbv zeta. case_step; [apply speaks_refl|]. case_step; [|apply privmsg_loop_speaks].
  apply raw_speaks; [apply peer_known|verb].
Qed.

Lemma apply_admin_speaks env channel st : speaks peer_verbs st (irc_apply_chan_admin env channel st).
Proof.
  unfold irc_apply_chan_admin. destruct channel as [|c channame]; [apply speaks_refl|].
  destruct (negb (ceqb c "#")); [apply speaks_refl|].
  destruct (chan_uint env st channame (lit ".admin.enabled") =? 0); [apply speaks_refl|]. cbv zeta.
  set (st1 := if negb _ then _ else st).
  assert (speaks peer_verbs st st1) as H1 by (unfold st1; repeat case_step; sends).
  clearbody st1. repeat case_step; first [exact H1 | apply send_speaks; [apply peer_known|verb|exact H1]].
Qed.

Lemma self_join_speaks env channel st : speaks peer_verbs st (irc_handle_self_join version env channel st).
Proof.
  unfold irc_handle_self_join. destruct channel as [|c channame]; [apply speaks_refl|].
  destruct (negb (ceqb c "#")); [apply speaks_refl|]. cbv zeta.
  assert (speaks peer_verbs st (send_ env (lit "WHO " ++ c :: channame) st)) as H by sends.
  repeat case_step; first [exact H | eapply speaks_trans; [exact H|apply privmsg_speaks]].
Qed.

Lemma join_channels_speaks env st : speaks peer_verbs st (irc_join_channels env st).
Proof.
  unfold irc_join_channels. cbv zeta. generalize (fold_left (fun names k => irc_chan_collect_cb
    (length (strlcpy KV_KEY_SZ (kv_prefix (i_conf st) ++ lit "chan."))) names k.1.1)
    (kv_iterate_prefix false (e_kv env) (Some (strlcpy KV_KEY_SZ (kv_prefix (i_conf st) ++ lit "chan.")))).1 []).
  generalize (strlcpy KV_KEY_SZ (kv_prefix (i_conf st) ++ lit "chan.")). intros pfx names.
  revert st. induction names as [|name names IH]; intros st; [apply speaks_refl|]. cbn [fold_left].
  eapply speaks_trans; [|apply IH]. unfold join_channel. repeat case_step; sends.
Qed.

(** ** The handlers *)

Lemma says_send env text st st1 :
  verb_text peer_verbs text -> says peer_verbs st st1 -> says peer_verbs st (send_ env text st1).
Proof. intros Ht H. eapply says_trans; [exact H|]. apply raw_speaks; [apply peer_known|done]. Qed.

Lemma says_speaks st st1 st2 : speaks peer_verbs st1 st2 -> says peer_verbs st st1 -> says peer_verbs st st2.
Proof. intros [H _] H1. by eapply says_trans. Qed.

Lemma says_silent vs st st1 f nick n reg con b idx :
  says vs st st1 ->
  says vs st (on_channels f st1) /\ says vs st (with_cur_nick nick n st1) /\ says vs st (with_link reg con st1)
  /\ says vs st (with_oper b st1) /\ says vs st (with_server_idx idx st1).
Proof. intros H. split_and!; by apply (says_same _ _ st1). Qed.

Lemma says_chans vs st st1 f : says vs st st1 -> says vs st (on_channels f st1).
Proof. by apply (says_silent vs st st1 f [] 0 false false false 0). Qed.

Lemma says_nick vs st st1 nick n : says vs st st1 -> says vs st (with_cur_nick nick n st1).
Proof. by apply (says_silent vs st st1 id nick n false false false 0). Qed.

Lemma says_link vs st st1 reg con : says vs st st1 -> says vs st (with_link reg con st1).
Proof. by apply (says_silent vs st st1 id [] 0 reg con false 0). Qed.

Lemma says_oper vs st st1 b : says vs st st1 -> says vs st (with_oper b st1).
Proof. by apply (says_silent vs st st1 id [] 0 false false b 0). Qed.

Lemma says_idx vs st st1 n : says vs st st1 -> says vs st (with_server_idx n st1).
Proof. by apply (says_silent vs st st1 id [] 0 false false false n). Qed.

Lemma says_seen vs st st1 p : says vs st st1 -> says vs st (see_sender p st1).
Proof. intros H. unfold see_sender. repeat case_step; auto using says_chans. Qed.

Lemma says_leave vs st st1 channel nick : says vs st st1 -> says vs st (leave channel nick st1).
Proof. intros H. unfold leave. repeat case_step; auto using says_chans. Qed.

Lemma says_topic vs st st1 channel topic : says vs st st1 -> says vs st (write_topic channel topic st1).
Proof. intros H. unfold write_topic. repeat case_step; auto using says_chans. Qed.

(** Peels the last operation off a state. *)
Ltac says_step :=
  first [ apply says_refl | eassumption
        | apply says_chans | apply says_nick | apply says_link | apply says_oper | apply says_idx | apply says_seen
        | apply says_leave | apply says_topic
        | apply says_log; [done|]
        | apply says_send; [verb|]
        | eapply says_speaks; [first [apply apply_admin_speaks | apply self_join_speaks | apply join_channels_speaks
                                     | apply privmsg_speaks]|] ].

Ltac says := cbv zeta; repeat says_step; repeat (case_step; repeat says_step).

Lemma witness_says env p st : says peer_verbs st (irc_witness env p st).
Proof. unfold irc_witness. says. Qed.

Lemma registration_says env st : says peer_verbs st (irc_send_registration env st).
Proof. unfold irc_send_registration. says. Qed.

Lemma join_says env p st : says peer_verbs st (irc_handle_join version env p st).
Proof.
  unfold irc_handle_join. cbv zeta. destruct (if p_has_trailing p then _ else _) as [|c channame]; [says|].
  set (st1 := see_sender p _). assert (says peer_verbs st st1) as H by (unfold st1; says). clearbody st1. says.
Qed.

Lemma topic_says env p st : says peer_verbs st (irc_handle_topic env p st).
Proof.
  unfold irc_handle_topic. cbv zeta. case_step; [says|]. set (st1 := write_topic _ _ _).
  assert (says peer_verbs st st1) as H by (unfold st1; says). clearbody st1. says.
Qed.

Lemma endnames_says env p st : says peer_verbs st (irc_handle_endnames env p st).
Proof.
  unfold irc_handle_endnames. cbv zeta. case_step; [says|].
  set (st1 := match irc_chan_find _ _ with Some _ => _ | None => _ end).
  assert (says peer_verbs st st1) as H by (unfold st1; says). clearbody st1. says.
Qed.

Lemma mode_says env p st : says peer_verbs st (irc_handle_mode env p st).
Proof.
  unfold irc_handle_mode. destruct (copy_word IRC_CHAN_SZ (p_params p)) as [channel mp].
  case_step; [says|]. destruct (skip_spaces mp) as [|c mode_str]; [says|]. cbv zeta.
  destruct (mode_loop _ _ _ _ _ _) as [ch key_removed].
  set (st1 := match irc_chan_find _ _ with Some _ => _ | None => _ end).
  assert (says peer_verbs st st1) as H1 by (unfold st1; says). clearbody st1.
  set (st2 := if negb (chan_have_ops st channel) && _ then _ else st1).
  assert (says peer_verbs st st2) as H2 by (unfold st2; says). clearbody st2. says.
Qed.

(** No line of a peer makes the driver say more than a command of [peer_verbs]. *)
Lemma handler_says cmd h env p st : In (cmd, h) (irc_cmd_table version) -> says peer_verbs st (h env p st).
Proof.
  unfold irc_cmd_table. intros H. repeat destruct H as [[= _ <-]|H]; [..|done].
  all: first [apply join_says | apply topic_says | apply endnames_says | apply mode_says
             | unfold irc_handle_ping, irc_handle_welcome, irc_handle_whoreply, irc_handle_namreply,
                 irc_handle_youreoper, irc_handle_badpassword, irc_handle_topic332, irc_handle_part, irc_handle_quit,
                 irc_handle_kick, irc_handle_nick, irc_handle_privmsg, irc_handle_nickinuse, irc_handle_error; says].
Qed.

Lemma line_says env line st : says peer_verbs st (irc_handle_line version env line st).
Proof.
  unfold irc_handle_line. destruct (irc_parse_line line) as [p|]; [|apply says_refl]. cbv zeta.
  eapply says_trans; [apply witness_says|]. destruct (List.find _ _) as [[cmd h]|] eqn:E; [|apply says_refl].
  apply find_some in E as [E _]. by eapply handler_says.
Qed.

(** ** Whole runs *)

(** What is called on an instance: its socket, the core, the task of a join. *)
Inductive irc_call :=
  | CallSock (event : sock_event_t)
  | CallSend (target text : cstr)
  | CallEmote (target text : cstr)
  | CallEject (channel target : cstr) (force : method_eject_t) (reason : option cstr)
  | CallKickCheck (kc : irc_kick_check_t).

Definition with_st (l : irc_link) (st : irc_state_t) : irc_link := {| l_buf := l_buf l; l_st := st |}.

(** None is undefined behaviour. *)
Definition irc_do (env : irc_env) (call : irc_call) (l : irc_link) : option irc_link :=
  match call with
  | CallSock event => Some (irc_sock_cb version env event l)
  | CallSend target text => Some (with_st l (irc_send env target text (l_st l)).2)
  | CallEmote target text => Some (with_st l (irc_send_emote env target text (l_st l)).2)
  | CallEject channel target force reason =>
      Some (with_st l (irc_eject env channel target force reason (l_st l)).2)
  | CallKickCheck kc => with_st l <$> irc_kick_unident_task env kc (l_st l)
  end.

(** Calls, each in the environment of its moment. *)
Fixpoint irc_run (calls : list (irc_env * irc_call)) (l : irc_link) : option irc_link :=
  match calls with
  | [] => Some l
  | (env, call) :: calls => l ← irc_do env call l; irc_run calls l
  end.

Definition ejects (call : irc_call) : bool :=
  match call with CallEject _ _ _ _ | CallKickCheck _ => true | _ => false end.

Lemma process_says turns env look start st : says peer_verbs st (process_loop version turns env look start st).2.
Proof.
  revert look start st. induction turns as [|turns IH]; intros look start st; [apply says_refl|].
  cbn [process_loop]. destruct (e_dead env look); [apply says_refl|].
  destruct (next_break start) as [i|]; [|apply says_refl]. cbv zeta.
  destruct (take i start) eqn:E; [apply IH|]. eapply says_trans; [apply line_says|apply IH].
Qed.

Lemma sock_says env event l : says peer_verbs (l_st l) (l_st (irc_sock_cb version env event l)).
Proof.
  unfold irc_sock_cb. destruct (e_dead env 0); [apply says_refl|]. destruct event as [|c more| |].
  - cbn [l_st]. eapply says_trans; [|apply registration_says]. says.
  - unfold irc_process_buffer. cbn [l_buf l_st]. cbv zeta.
    destruct (process_loop _ _ _ _ _ _) as [rem st] eqn:E. cbn [l_st].
    replace st with (process_loop version (S (length (l_buf l ++ take (IRC_BUF_SZ - length (l_buf l) - 1) (c :: more))))
      env 1 (l_buf l ++ take (IRC_BUF_SZ - length (l_buf l) - 1) (c :: more)) (l_st l)).2 by by rewrite E.
    apply process_says.
  - unfold link_lost. cbv zeta. cbn [l_st]. says.
  - unfold link_lost. cbv zeta. cbn [l_st]. says.
Qed.

Lemma eject_says env channel target force reason st : says all_verbs st (irc_eject env channel target force reason st).2.
Proof.
  assert (forall v t, v ∈ eject_verbs -> says all_verbs st (irc_send_raw env (v ++ lit " " ++ t) st).2) as H.
  { intros v t Hv. apply raw_speaks; [done|]. exists v, t. split; [by apply eject_known|done]. }
  unfold irc_eject. cbv zeta. destruct (if _ <? _ then _ else force); [apply says_refl| |].
  - apply (H (lit "KICK")). by apply (bool_decide_unpack _).
  - apply (H (lit "KILL")). by apply (bool_decide_unpack _).
Qed.

Lemma kick_says env kc st st' : irc_kick_unident_task env kc st = Some st' -> says all_verbs st st'.
Proof.
  unfold irc_kick_unident_task. cbv zeta.
  destruct (negb (i_connected st)); [intros [= <-]; apply says_refl|].
  destruct (negb (chan_have_ops _ _) || _); [intros [= <-]; apply says_refl|].
  destruct (negb (e_bot_find _ _)); [intros [= <-]; apply says_refl|].
  destruct (e_identified _ _ _); [intros [= <-]; apply says_refl|].
  destruct (chan_text _ _ _ _) as [msg|]; [|done]. intros [= <-]. apply raw_speaks; [done|].
  exists (lit "KICK"). eexists. split; [by apply (bool_decide_unpack _)|reflexivity].
Qed.

Lemma do_says env call l l' :
  irc_do env call l = Some l' -> says (if ejects call then all_verbs else peer_verbs) (l_st l) (l_st l').
Proof.
  destruct call; cbn [irc_do ejects]; intros H.
  - injection H as <-. apply sock_says.
  - injection H as <-. cbn [with_st l_st]. unfold irc_send. case_step; [apply says_refl|apply privmsg_speaks].
  - injection H as <-. cbn [with_st l_st]. unfold irc_send_emote.
    repeat case_step; first [apply says_refl | apply privmsg_speaks].
  - injection H as <-. apply eject_says.
  - destruct (irc_kick_unident_task env kc (l_st l)) as [st|] eqn:E; [|done]. injection H as <-. by eapply kick_says.
Qed.

Lemma run_says calls l l' :
  irc_run calls l = Some l' ->
  says (if existsb (fun c => ejects c.2) calls then all_verbs else peer_verbs) (l_st l) (l_st l').
Proof.
  revert l. induction calls as [|[env call] calls IH]; intros l H; cbn [irc_run existsb] in *.
  - injection H as <-. apply says_refl.
  - destruct (irc_do env call l) as [l1|] eqn:E; [|done]. apply do_says in E. specialize (IH l1 H).
    cbn [snd]. destruct (ejects call); cbn [orb].
    + eapply says_trans; [exact E|]. eapply says_more; [|exact IH]. destruct (existsb _ _); [done|apply peer_known].
    + eapply says_trans; [|exact IH]. eapply says_more; [|exact E]. destruct (existsb _ _); [apply peer_known|done].
Qed.

(** The lines offered to the socket, in order, and their bytes. *)
Definition wire_lines (fx : list irc_fx) : list cstr :=
  omap (fun x => match x with FxWire line => Some line | _ => None end) fx.

(** A command: a verb of these and its arguments, no line break, within the line. *)
Definition command_ok (verbs : list cstr) (body : cstr) : Prop :=
  breaks_free body /\ (length body + 2 < IRC_LINE_SZ)%nat /\ exists v args, v ∈ verbs /\ body = v ++ lit " " ++ args.

Lemma wire_bodies vs fx :
  Forall (fx_ok vs) fx -> exists bodies, Forall (command_ok vs) bodies /\ concat (wire_lines fx) = wire bodies.
Proof.
  induction 1 as [|x fx Hx _ (bodies & Hb & E)]; [by exists []|].
  destruct x as [line| | | | |]; try (by exists bodies).
  destruct Hx as (v & args & Hv & -> & Hf & Hl). exists ((v ++ lit " " ++ args) :: bodies). split.
  - constructor; [|done]. split_and!; [done| |by exists v, args]. rewrite length_app in Hl. exact Hl.
  - unfold wire. cbn [map concat]. fold (wire bodies). rewrite <- E. done.
Qed.


(** ** Long messages *)

(** A character of UTF-8 as the splitter sees it: a byte that continues nothing, alone if
    it is ASCII, and at most three that continue it. *)
Definition utf8_char (c : cstr) : Prop :=
  match c with
  | [] => False
  | h :: t => irc_utf8_is_cont h = false /\ Forall (fun b => irc_utf8_is_cont b = true) t /\ (length t <= 3)%nat
              /\ (code h < 128 -> t = [])
  end.

(** A place where the text may be cut. *)
Definition boundary (s : cstr) (n : nat) : Prop := n = length s \/ irc_utf8_is_cont (nth n s NUL) = false.

Lemma utf8_cut cs n :
  Forall utf8_char cs -> (n <= length (concat cs))%nat -> boundary (concat cs) n ->
  exists cs1 cs2, cs = cs1 ++ cs2 /\ concat cs1 = take n (concat cs) /\ concat cs2 = drop n (concat cs).
Proof.
  intros H. revert n. induction H as [|c cs Hc Hcs IH]; intros n Hn Hb.
  - exists [], []. by destruct n.
  - destruct n as [|n]; [by exists [], (c :: cs)|]. destruct c as [|h t]; [done|].
    destruct Hc as (_ & Ht & _ & _). cbn [concat] in *. rewrite length_app in Hn. cbn [length] in Hn.
    destruct (decide (n < length t)%nat) as [Hlt|Hge].
    + exfalso. destruct Hb as [Hb|Hb]; [rewrite length_app in Hb; cbn in Hb; lia|].
      cbn [app nth] in Hb. rewrite app_nth1 in Hb by done.
      pose proof (proj1 (List.Forall_forall _ _) Ht (nth n t NUL) (nth_In _ _ Hlt)). congruence.
    + destruct (IH (n - length t)%nat) as (cs1 & cs2 & -> & E1 & E2); [lia| |].
      * destruct Hb as [Hb|Hb]; [left; rewrite length_app in Hb; cbn in Hb; lia|right].
        cbn [app nth] in Hb. by rewrite app_nth2 in Hb by lia.
      * exists ((h :: t) :: cs1), cs2. split; [done|]. cbn [concat]. rewrite E1, E2. cbn [app take drop].
        rewrite take_app_ge, drop_app_ge by lia. done.
Qed.

(** A continuation byte is at most three after the start of its character. *)
Lemma utf8_start cs i :
  Forall utf8_char cs -> (i < length (concat cs))%nat ->
  exists k, (k <= 3)%nat /\ (k <= i)%nat /\ irc_utf8_is_cont (nth (i - k) (concat cs) NUL) = false.
Proof.
  intros H. revert i. induction H as [|c cs Hc Hcs IH]; intros i Hi; [cbn in Hi; lia|].
  cbn [concat] in *. rewrite length_app in Hi. destruct c as [|h t]; [done|]. destruct Hc as (Hh & _ & Hl & _).
  destruct (decide (i < S (length t))%nat) as [Hlt|Hge].
  - exists i. split_and!; [lia|lia|]. by rewrite Nat.sub_diag.
  - destruct (IH (i - S (length t))%nat) as (k & H1 & H2 & H3); [cbn in Hi; lia|]. exists k. split_and!; [lia|lia|].
    rewrite app_nth2 by (cbn; lia). cbn [length]. by replace (i - k - S (length t))%nat with (i - S (length t) - k)%nat by lia.
Qed.

(** A space ends a character. *)
Lemma utf8_after_space cs n :
  Forall utf8_char cs -> nth n (concat cs) NUL = " "%char -> (n < length (concat cs))%nat -> boundary (concat cs) (S n).
Proof.
  intros H. revert n. induction H as [|c cs Hc Hcs IH]; intros n Hs Hn; [cbn in Hn; lia|].
  cbn [concat] in *. rewrite length_app in Hn. destruct c as [|h t]; [done|]. destruct Hc as (Hh & Ht & Hl & Ha).
  destruct (decide (n < S (length t))%nat) as [Hlt|Hge].
  - rewrite app_nth1 in Hs by (cbn; lia). destruct n as [|n].
    + cbn in Hs. subst h. rewrite Ha by done. cbn [app]. destruct Hcs as [|[|h' t'] cs Hc' _]; [by left|done|right].
      destruct Hc' as [Hc' _]. exact Hc'.
    + exfalso. cbn [nth] in Hs. assert (n < length t)%nat as Hlt' by lia.
      pose proof (proj1 (List.Forall_forall _ _) Ht (nth n t NUL) (nth_In _ _ Hlt')) as Hc.
      cbn in Hc. rewrite Hs in Hc. done.
  - rewrite app_nth2 in Hs by (cbn; lia). destruct (IH (n - S (length t))%nat) as [Hb|Hb]; [done|cbn in Hn; lia| |].
    + left. rewrite length_app. cbn [length]. lia.
    + right. rewrite app_nth2 by (cbn; lia). cbn [length]. by replace (S n - S (length t))%nat with (S (n - S (length t))) by lia.
Qed.

Lemma last_space_spec pos n :
  (last_space pos n <= n)%nat /\ (0 < last_space pos n -> nth (last_space pos n - 1) pos NUL = " "%char)%nat.
Proof.
  induction n as [|n [IH1 IH2]]; cbn [last_space]; [lia|]. case_step; creflect.
  - split; [done|]. intros _. by rewrite Nat.sub_succ, Nat.sub_0_r.
  - split; [lia|done].
Qed.

Lemma back_up_range steps pos n : (1 <= n -> 1 <= back_up steps pos n <= n)%nat.
Proof.
  revert n. induction steps as [|steps IH]; intros n Hn; cbn [back_up]; [lia|]. case_step; [|lia]. breflect.
  specialize (IH (n - 1)%nat ltac:(lia)). lia.
Qed.

(** It stops at the start of the character, if that is within its steps. *)
Lemma back_up_start steps pos n k :
  (k <= steps)%nat -> (steps < n)%nat -> irc_utf8_is_cont (nth (n - k) pos NUL) = false ->
  irc_utf8_is_cont (nth (back_up steps pos n) pos NUL) = false.
Proof.
  revert n k. induction steps as [|steps IH]; intros n k Hk Hn Hc; cbn [back_up].
  - by replace (n - k)%nat with n in Hc by lia.
  - destruct (irc_utf8_is_cont (nth n pos NUL)) eqn:E.
    + replace (1 <? n)%nat with true by (symmetry; apply Nat.ltb_lt; lia). cbn [andb].
      destruct k as [|k]; [rewrite Nat.sub_0_r in Hc; congruence|].
      apply (IH _ k); [lia|lia|]. by replace (n - 1 - k)%nat with (n - S k)%nat by lia.
    + by rewrite andb_false_r.
Qed.

Lemma chunk_range max pos : (2 <= max)%nat -> pos <> [] -> (1 <= chunk_len max pos <= length pos)%nat /\ (chunk_len max pos <= max)%nat.
Proof.
  intros Hm Hp. assert (0 < length pos)%nat by (destruct pos; [done|cbn; lia]). unfold chunk_len.
  case_step; breflect; [|lia]. cbv zeta. pose proof (last_space_spec pos max) as [H1 _].
  pose proof (back_up_range 3 pos max ltac:(lia)). case_step; breflect; lia.
Qed.

Lemma chunk_boundary max cs :
  (4 <= max)%nat -> Forall utf8_char cs -> boundary (concat cs) (chunk_len max (concat cs)).
Proof.
  intros Hm Hcs. unfold chunk_len. case_step; breflect; [|by left]. cbv zeta.
  pose proof (last_space_spec (concat cs) max) as [H1 H2]. case_step; breflect.
  - assert (0 < last_space (concat cs) max)%nat as Hp by lia.
    pose proof (utf8_after_space cs (last_space (concat cs) max - 1) Hcs (H2 Hp) ltac:(lia)) as Hb.
    by replace (S (last_space (concat cs) max - 1)) with (last_space (concat cs) max) in Hb by lia.
  - right. destruct (utf8_start cs max Hcs ltac:(lia)) as (k & Hk1 & Hk2 & Hk3). by apply (back_up_start 3 _ _ k).
Qed.

(** A socket that takes everything. *)
Definition open_socket (env : irc_env) (st : irc_state_t) : Prop :=
  i_connected st = true /\ (forall fx, e_session env fx = true) /\ (forall fx line, e_sock_send env fx line = true).

Definition said (st : irc_state_t) (texts : list cstr) : irc_state_t :=
  fold_left (fun st t => log (FxWire (wire_line t)) st) texts st.

Lemma open_said env st texts : open_socket env st -> open_socket env (said st texts).
Proof.
  revert st. induction texts as [|t texts IH]; intros st H; [done|]. apply IH.
  destruct H as (? & ? & ?). by split.
Qed.

Lemma raw_sent env text st :
  open_socket env st -> (length text < IRC_LINE_SZ)%nat -> irc_send_raw env text st = (SUCCESS, said st [text]).
Proof.
  intros (Hc & Hs & Hk) Hl. unfold irc_send_raw. rewrite Hc, Hs, Hk.
  replace (INT_MAX 32 <? Z.of_nat (length text)) with false; [done|]. symmetry. apply Z.ltb_ge.
  unfold IRC_LINE_SZ in Hl. change (INT_MAX 32) with 2147483647. lia.
Qed.

Lemma privmsg_length target text : length (privmsg target text) = (length target + length text + 10)%nat.
Proof. unfold privmsg. rewrite !length_app. cbn. lia. Qed.

(** The cuts of the loop: all of the text, in pieces that fit, whole characters in each. *)
Lemma privmsg_loop_cuts turns env max target pos st :
  open_socket env st -> (length pos <= turns)%nat -> (2 <= max)%nat -> (length target + max <= 390)%nat ->
  exists chunks,
    privmsg_loop turns env max target pos st = (SUCCESS, said st (map (privmsg target) chunks))
    /\ concat chunks = pos
    /\ Forall (fun c => 1 <= length c <= max)%nat chunks
    /\ (4 <= max -> forall cs, Forall utf8_char cs -> concat cs = pos ->
          exists groups, concat groups = cs /\ map (@concat ascii) groups = chunks)%nat.
Proof.
  revert pos st. induction turns as [|turns IH]; intros pos st Ho Ht Hm Hb.
  { destruct pos; [|cbn in Ht; lia]. exists []. split_and!; try done. intros _ cs Hcs E. exists [].
    split; [|done]. destruct Hcs as [|[|] cs Hc]; done. }
  destruct pos as [|c pos].
  { exists []. split_and!; try done. intros _ cs Hcs E. exists []. split; [|done]. destruct Hcs as [|[|] cs Hc]; done. }
  cbn [privmsg_loop]. cbv zeta. set (p := c :: pos) in *. destruct (chunk_range max p Hm ltac:(done)) as [H1 H2].
  set (n := chunk_len max p) in *. replace (IRC_LINE_SZ <=? n)%nat with false
    by (symmetry; apply Nat.leb_gt; unfold IRC_LINE_SZ; lia).
  rewrite raw_sent; [|done|rewrite privmsg_length, length_take; unfold IRC_LINE_SZ; lia].
  destruct (IH (drop n p) (said st [privmsg target (take n p)])) as (chunks & E & Ec & Hl & Hu);
    [by apply open_said|rewrite length_drop; unfold p in *; cbn in *; lia|done|done|].
  exists (take n p :: chunks). rewrite E. split_and!.
  - done.
  - cbn [concat]. rewrite Ec. apply take_drop.
  - constructor; [|done]. rewrite length_take. lia.
  - intros H4 cs Hcs Ecs. destruct (utf8_cut cs n Hcs) as (cs1 & cs2 & -> & E1 & E2).
    + rewrite Ecs. lia.
    + unfold n. rewrite <- Ecs. by apply chunk_boundary.
    + rewrite Ecs in E1, E2. apply Forall_app in Hcs as [_ Hcs2].
      destruct (Hu H4 cs2 Hcs2 E2) as (groups & <- & <-). exists (cs1 :: groups). split; [done|]. cbn [map]. by rewrite E1.
Qed.

(** a message of any length to a target that leaves room for it is sent whole: cut
    into lines of at most IRC_PRIVMSG_LINE_BUDGET bytes whose texts, put together, are the
    message, none empty unless it is; and a line never ends inside a character of UTF-8. *)
Theorem irc_privmsg_whole env target text st :
  open_socket env st -> (length target <= 388)%nat ->
  exists chunks,
    irc_send_privmsg env target text st = (SUCCESS, said st (map (privmsg target) chunks))
    /\ concat chunks = text
    /\ Forall (fun c => Z.of_nat (length (privmsg target c)) <= IRC_PRIVMSG_LINE_BUDGET) chunks
    /\ (text <> [] -> Forall (fun c => c <> []) chunks)
    /\ ((length target <= 386)%nat -> forall cs, Forall utf8_char cs -> concat cs = text ->
          exists groups, concat groups = cs /\ map (@concat ascii) groups = chunks).
Proof.
  intros Ho Ht. unfold irc_send_privmsg. cbv zeta. unfold IRC_PRIVMSG_LINE_BUDGET.
  rewrite !wrap_small by lia. replace (_ || _) with false
    by (symmetry; apply orb_false_iff; split; [apply Z.ltb_ge|apply Z.ltb_ge]; lia).
  destruct (Z.of_nat (length text) <=? 400 - 10 - Z.of_nat (length target)) eqn:E; breflect.
  - exists [text]. rewrite raw_sent; [|done|rewrite privmsg_length; unfold IRC_LINE_SZ; lia].
    split_and!; [done|by cbn; rewrite app_nil_r| |by constructor|].
    + constructor; [|done]. rewrite privmsg_length. lia.
    + intros _ cs _ <-. exists [cs]. split; [by cbn; rewrite app_nil_r|done].
  - destruct (privmsg_loop_cuts (length text) env (Z.to_nat (400 - 10 - Z.of_nat (length target))) target text st)
      as (chunks & E1 & E2 & E3 & E4); [done|done|lia|lia|].
    exists chunks. split_and!; [done|done| | |].
    + eapply List.Forall_impl; [|exact E3]. intros c Hc. cbn in Hc. rewrite privmsg_length. lia.
    + intros _. eapply List.Forall_impl; [|exact E3]. intros c Hc ->. cbn in Hc. lia.
    + intros H4. apply E4. lia.
Qed.

End send.


Lemma irc_privmsg_whole_witness :
  let target := repeat "x"%char 380 in
  let text := lit "abcdefghi" ++ [chr 195; chr 169] ++ lit "jk" in
  irc_send_privmsg idle_env target text sample_irc
    = (SUCCESS, said sample_irc (map (privmsg target) [lit "abcdefghi"; [chr 195; chr 169] ++ lit "jk"]))
  /\ exists chunks, irc_send_privmsg idle_env target text sample_irc
       = (SUCCESS, said sample_irc (map (privmsg target) chunks)) /\ concat chunks = text.
Proof.
  cbv zeta. split; [by vm_compute|].
  destruct (irc_privmsg_whole idle_env (repeat "x"%char 380) (lit "abcdefghi" ++ [chr 195; chr 169] ++ lit "jk") sample_irc)
    as (chunks & H1 & H2 & _).
  - done.
  - apply Nat.leb_le. reflexivity.
  - by exists chunks.
Defined.

(** An emote longer than a line is cut like any text: the second line is no emote, and ends
    in a stray marker. *)
Lemma irc_emote_cut :
  wire_lines (i_fx (irc_send_emote idle_env (lit "#c") (repeat "a"%char 400) sample_irc).2)
  = [lit "PRIVMSG #c :" ++ CTCP :: lit "ACTION " ++ repeat "a"%char 380 ++ [CR; LF];
     lit "PRIVMSG #c :" ++ repeat "a"%char 20 ++ [CTCP; CR; LF]].
Proof. by vm_compute. Qed.

(** The text of an emote past its buffer is lost, and its closing marker with it. *)
Lemma irc_emote_lost :
  concat (wire_lines (i_fx (irc_send_emote idle_env (lit "#c") (repeat "a"%char 600) sample_irc).2))
  = wire [lit "PRIVMSG #c :" ++ CTCP :: lit "ACTION " ++ repeat "a"%char 380; lit "PRIVMSG #c :" ++ repeat "a"%char 123].
Proof. by vm_compute. Qed.

(** The task of a join prints the message of a key that may be gone by then. *)
Lemma irc_kick_message_gone :
  let kc := {| kc_inst_name := lit "main_irc"; kc_channel := lit "#c"; kc_nick := lit "eve"; kc_host := lit "h" |} in
  let eve := {| m_nick := lit "eve"; m_userhost := lit "e@h"; m_mode_flags := 0 |} in
  let ch := {| c_name := lit "#c"; c_members := [eve]; c_member_count := 1; c_have_ops := true; c_topic := [] |} in
  let env := {| e_kv := kv_boot; e_session := fun _ => true; e_sock_send := fun _ _ => true;
                e_dead := fun _ => false; e_bot_find := fun _ => true; e_identified := fun _ _ => false;
                e_stopping := false; e_now := 0 |} in
  irc_kick_unident_task env kc (on_channels (fun _ => [ch]) sample_irc) = None.
Proof. by vm_compute. Qed.
