(* ===== verification/IrcRoster.v ===== *)
(** * Who is where: the members the IRC driver tracks against the network they are on

    A specification of an IRC network, as far as a client hears of it: users, the channels
    they are in, and what the server tells the bot of each change. Against it, the table of
    [IrcChannel] as the handlers of [Irc] keep it from the text of those lines is sound:
    what it says of a nick is true now. *)

From S2P Require Import Prelude Kv KvApi IrcParse IrcChannel Irc IrcStream IrcSend.

(** ** Names up to case *)

Definition lower : cstr -> cstr := map tolower.

Lemma caseeq_iff a b : strcaseeq a b = true <-> lower a = lower b.
Proof. apply seqb_true. Qed.

Lemma caseeq_false a b : strcaseeq a b = false <-> lower a <> lower b.
Proof. apply seqb_false. Qed.

Lemma caseeq_refl a : strcaseeq a a = true.
Proof. by apply caseeq_iff. Qed.

Lemma caseeq_sym a b : strcaseeq a b = strcaseeq b a.
Proof. apply eq_true_iff_eq. by rewrite !caseeq_iff. Qed.

(** ** A table without twins *)

Definition distinct {A} (name : A -> cstr) (l : list A) : Prop := NoDup (map (fun x => lower (name x)) l).

Definition uniq (chs : list irc_channel_t) : Prop :=
  distinct c_name chs /\ Forall (fun ch => distinct m_nick (c_members ch)) chs.

(** In such a list, what is found by name is the only one of that name. *)
Lemma find_alter {A} (name : A -> cstr) (f : A -> A) (n : cstr) (l : list A) :
  distinct name l ->
  match find_index (fun x => strcaseeq (name x) n) l with Some i => alter f i l | None => l end
  = map (fun x => if strcaseeq (name x) n then f x else x) l.
Proof.
  induction l as [|x l IH]; intros H; [done|]. apply list.NoDup_cons in H as [Hx Hl]. cbn [find_index map].
  destruct (strcaseeq (name x) n) eqn:E.
  - cbn. f_equal. symmetry. transitivity (map id l); [|apply map_id]. apply map_ext_in. intros y Hy.
    destruct (strcaseeq (name y) n) eqn:Ey; [|done]. exfalso. apply caseeq_iff in E, Ey. apply Hx.
    rewrite E, <- Ey. apply list_elem_of_In, in_map_iff. by exists y.
  - rewrite <- IH by done. by destruct (find_index _ l).
Qed.

Lemma find_index_none {A} (name : A -> cstr) (n : cstr) (l : list A) :
  find_index (fun x => strcaseeq (name x) n) l = None -> lower n ∉ map (fun x => lower (name x)) l.
Proof.
  induction l as [|x l IH]; cbn [find_index map]; intros H Hin; [by apply elem_of_nil in Hin|].
  destruct (strcaseeq (name x) n) eqn:E; [done|]. destruct (find_index _ l) eqn:Ei; [done|].
  apply elem_of_cons in Hin as [Hx|Hin]; [|by apply IH]. apply caseeq_false in E. congruence.
Qed.

Lemma distinct_map {A} (name : A -> cstr) (f : A -> A) l :
  (forall x, name (f x) = name x) -> distinct name l -> distinct name (map f l).
Proof. intros H. unfold distinct. rewrite map_map. by setoid_rewrite H. Qed.

Lemma distinct_filter {A} (name : A -> cstr) (P : A -> bool) l : distinct name l -> distinct name (List.filter P l).
Proof.
  unfold distinct. induction l as [|x l IH]; intros H; [done|]. cbn in *. apply list.NoDup_cons in H as [Hx Hl].
  destruct (P x); [|by apply IH]. cbn. apply list.NoDup_cons. split; [|by apply IH]. intros Hin. apply Hx.
  apply list_elem_of_In, in_map_iff in Hin as (y & Ey & Hy). apply filter_In in Hy as [Hy _].
  apply list_elem_of_In, in_map_iff. by exists y.
Qed.

Lemma distinct_same {A} (name : A -> cstr) l x y :
  distinct name l -> In x l -> In y l -> lower (name x) = lower (name y) -> x = y.
Proof.
  induction l as [|z l IH]; [done|]; intros H [->|Hx] [->|Hy] E; try done; apply list.NoDup_cons in H as [Hz Hl].
  - exfalso. apply Hz. rewrite E. apply list_elem_of_In, in_map_iff. by exists y.
  - exfalso. apply Hz. rewrite <- E. apply list_elem_of_In, in_map_iff. by exists x.
  - by apply IH.
Qed.

(** *** The operations as maps and filters *)

Lemma alter_member_map nick f ch :
  distinct m_nick (c_members ch) ->
  alter_member nick f ch
  = set_members (map (fun m => if strcaseeq (m_nick m) nick then f m else m) (c_members ch)) (c_member_count ch) ch.
Proof.
  intros H. unfold alter_member, irc_member_find, nicked. rewrite <- find_alter by done.
  destruct (find_index _ _); [done|]. by destruct ch.
Qed.

Lemma unlink_filter nick ms :
  distinct m_nick ms ->
  default ms (unlink_member nick ms) = List.filter (fun m => negb (strcaseeq (m_nick m) nick)) ms.
Proof.
  induction ms as [|m ms IH]; intros H; [done|]. apply list.NoDup_cons in H as [Hm Hms]. cbn [unlink_member List.filter].
  unfold nicked at 1. destruct (strcaseeq (m_nick m) nick) eqn:E; cbn [negb].
  - cbn. symmetry. apply forallb_filter_id, forallb_forall. intros y Hy. apply negb_true_iff, caseeq_false. intros Ey.
    apply caseeq_iff in E. apply Hm. rewrite E, <- Ey. apply list_elem_of_In, in_map_iff. by exists y.
  - rewrite <- IH by done. by destruct (unlink_member nick ms).
Qed.

Lemma remove_member_filter nick ch :
  distinct m_nick (c_members ch) ->
  c_name (remove_member nick ch) = c_name ch
  /\ c_members (remove_member nick ch) = List.filter (fun m => negb (strcaseeq (m_nick m) nick)) (c_members ch).
Proof.
  intros H. unfold remove_member. pose proof (unlink_filter nick _ H) as E. by destruct (unlink_member _ _).
Qed.

Lemma chan_remove_filter chs channel :
  distinct c_name chs -> irc_chan_remove chs channel = List.filter (fun ch => negb (strcaseeq (c_name ch) channel)) chs.
Proof.
  induction chs as [|ch chs IH]; intros H; [done|]. apply list.NoDup_cons in H as [Hx Hl]. cbn [irc_chan_remove List.filter].
  unfold named at 1. destruct (strcaseeq (c_name ch) channel) eqn:E; cbn [negb]; [|by rewrite IH].
  symmetry. apply forallb_filter_id, forallb_forall. intros y Hy. apply negb_true_iff, caseeq_false. intros Ey.
  apply caseeq_iff in E. apply Hx. rewrite E, <- Ey. apply list_elem_of_In, in_map_iff. by exists y.
Qed.

(** A change of the channel of that name. *)
Lemma chan_alter f chs channel :
  distinct c_name chs ->
  match irc_chan_find chs channel with Some i => alter f i chs | None => chs end
  = map (fun ch => if strcaseeq (c_name ch) channel then f ch else ch) chs.
Proof. apply (find_alter c_name). Qed.

(** ** Tables that are right *)

(** Every channel satisfies [P], every entry [Q], and there are no twins. *)
Record tracked (P : cstr -> Prop) (Q : cstr -> cstr -> cstr -> Prop) (chs : list irc_channel_t) : Prop := {
  tr_uniq : uniq chs;
  tr_chan : forall ch, In ch chs -> P (c_name ch);
  tr_entry : forall ch m, In ch chs -> In m (c_members ch) -> Q (c_name ch) (m_nick m) (m_userhost m)
}.

(** What a table says, modes and topics aside. *)
Definition who (chs : list irc_channel_t) : list (cstr * list (cstr * cstr)) :=
  map (fun ch => (c_name ch, map (fun m => (m_nick m, m_userhost m)) (c_members ch))) chs.

Lemma tracked_who P Q chs chs' : who chs' = who chs -> tracked P Q chs -> tracked P Q chs'.
Proof.
  intros E [[U1 U2] C T]. assert (Forall2 (fun ch' ch => c_name ch' = c_name ch
    /\ map (fun m => (m_nick m, m_userhost m)) (c_members ch') = map (fun m => (m_nick m, m_userhost m)) (c_members ch))
    chs' chs) as HF.
  { clear -E. revert chs E. induction chs' as [|ch' chs' IH]; intros [|ch chs] E; try done.
    cbn in E. injection E as E1 E2 E3. constructor; [done|by apply IH]. }
  assert (forall ch', In ch' chs' -> exists ch, In ch chs /\ c_name ch' = c_name ch
    /\ map (fun m => (m_nick m, m_userhost m)) (c_members ch') = map (fun m => (m_nick m, m_userhost m)) (c_members ch)) as Hin.
  { clear -HF. induction HF as [|x y l k H _ IH]; [done|]. intros ch' [->|H']; [exists y; split; [by left|done]|].
    destruct (IH _ H') as (ch & ? & ?). exists ch. split; [by right|done]. }
  split.
  - split.
    + replace (distinct c_name chs') with (distinct c_name chs); [done|]. unfold distinct. f_equal.
      clear -HF. induction HF as [|x y l k [H _] _ IH]; [done|]. cbn. by rewrite H, IH.
    + apply List.Forall_forall. intros ch' H'. destruct (Hin _ H') as (ch & Hc & _ & Em).
      pose proof (proj1 (List.Forall_forall _ _) U2 ch Hc) as Hd. unfold distinct in *.
      apply (f_equal (map (fun p => lower p.1))) in Em. rewrite !map_map in Em. cbn in Em. by rewrite Em.
  - intros ch' H'. destruct (Hin _ H') as (ch & Hc & -> & _). by apply C.
  - intros ch' m' H' Hm'. destruct (Hin _ H') as (ch & Hc & -> & Em).
    assert (In (m_nick m', m_userhost m') (map (fun m => (m_nick m, m_userhost m)) (c_members ch))) as Hi.
    { rewrite <- Em. apply in_map_iff. by exists m'. }
    apply in_map_iff in Hi as (m & [= <- <-] & Hm). by apply T.
Qed.

Lemma who_map f chs :
  (forall ch, In ch chs -> c_name (f ch) = c_name ch
     /\ map (fun m => (m_nick m, m_userhost m)) (c_members (f ch)) = map (fun m => (m_nick m, m_userhost m)) (c_members ch)) ->
  who (map f chs) = who chs.
Proof. intros H. unfold who. rewrite map_map. apply map_ext_in. intros ch Hc. by destruct (H ch Hc) as [-> ->]. Qed.

Lemma who_alter f i chs :
  (forall ch, c_name (f ch) = c_name ch
     /\ map (fun m => (m_nick m, m_userhost m)) (c_members (f ch)) = map (fun m => (m_nick m, m_userhost m)) (c_members ch)) ->
  who (alter f i chs) = who chs.
Proof.
  intros H. revert i. induction chs as [|ch chs IH]; intros [|i]; cbn; try done.
  - by destruct (H ch) as [-> ->].
  - f_equal. apply IH.
Qed.

Section tracked.
Context (P : cstr -> Prop) (Q : cstr -> cstr -> cstr -> Prop).

Lemma tracked_members chs ch : tracked P Q chs -> In ch chs -> distinct m_nick (c_members ch).
Proof. intros [[_ U] _ _] H. by apply (proj1 (List.Forall_forall _ _) U). Qed.

(** Changing members in place, channel by channel. *)
Lemma tracked_map Q' f chs :
  tracked P Q chs ->
  (forall ch, In ch chs -> c_name (f ch) = c_name ch /\ distinct m_nick (c_members (f ch))
     /\ forall m, In m (c_members (f ch)) -> Q' (c_name ch) (m_nick m) (m_userhost m)) ->
  tracked P Q' (map f chs).
Proof.
  intros [[U1 U2] C T] H. split.
  - split.
    + replace (distinct c_name (map f chs)) with (distinct c_name chs); [done|]. unfold distinct. f_equal.
      rewrite map_map. apply map_ext_in. intros ch Hc. by destruct (H ch Hc) as (-> & _).
    + apply Forall_map, List.Forall_forall. intros ch Hc. by destruct (H ch Hc) as (_ & ? & _).
  - intros ch' (ch & <- & Hc)%in_map_iff. destruct (H ch Hc) as (-> & _). by apply C.
  - intros ch' m (ch & <- & Hc)%in_map_iff Hm. destruct (H ch Hc) as (-> & _ & Hq). by apply Hq.
Qed.

Lemma tracked_remove Q' chs channel nick :
  tracked P Q chs ->
  (forall c n uh, Q c n uh -> lower c <> lower channel \/ lower n <> lower nick -> Q' c n uh) ->
  tracked P Q' (irc_chan_remove_nick chs channel nick).
Proof.
  intros H Hq. unfold irc_chan_remove_nick. rewrite chan_alter by apply H. apply tracked_map; [done|].
  intros ch Hc. pose proof (tracked_members _ _ H Hc) as Hd. destruct (strcaseeq (c_name ch) channel) eqn:E.
  - destruct (remove_member_filter nick ch Hd) as [-> ->]. split_and!; [done|by apply distinct_filter|].
    intros m [Hm Hn]%filter_In. apply Hq; [by apply H|]. right. apply caseeq_false. by breflect.
  - split_and!; [done|done|]. intros m Hm. apply Hq; [by apply H|]. left. by apply caseeq_false.
Qed.

Lemma tracked_remove_all Q' chs nick :
  tracked P Q chs -> (forall c n uh, Q c n uh -> lower n <> lower nick -> Q' c n uh) ->
  tracked P Q' (irc_chan_remove_nick_all chs nick).
Proof.
  intros H Hq. apply tracked_map; [done|]. intros ch Hc. pose proof (tracked_members _ _ H Hc) as Hd.
  destruct (remove_member_filter nick ch Hd) as [-> ->]. split_and!; [done|by apply distinct_filter|].
  intros m [Hm Hn]%filter_In. apply Hq; [by apply H|]. apply caseeq_false. by breflect.
Qed.

Lemma tracked_seen Q' chs nick uh0 :
  tracked P Q chs ->
  (forall c n uh, Q c n uh -> lower n <> lower nick -> Q' c n uh) ->
  (forall c n uh, Q c n uh -> lower n = lower nick -> Q' c n (strlcpy IRC_USERHOST_SZ uh0)) ->
  nick <> [] -> uh0 <> [] -> tracked P Q' (irc_user_seen chs nick uh0).
Proof.
  intros H H1 H2 Hn Hu. unfold irc_user_seen. destruct nick as [|c nick]; [done|]. destruct uh0 as [|d uh0]; [done|].
  apply tracked_map; [done|]. intros ch Hc. pose proof (tracked_members _ _ H Hc) as Hd.
  rewrite alter_member_map by done. cbn [set_members c_name c_members]. split_and!; [done| |].
  - apply distinct_map; [|done]. intros m. by destruct (strcaseeq _ _).
  - intros m (m0 & <- & Hm)%in_map_iff. destruct (strcaseeq (m_nick m0) (c :: nick)) eqn:E.
    + apply caseeq_iff in E. cbn [set_userhost m_nick m_userhost]. eapply H2; [by apply H|done].
    + apply H1; [by apply H|]. by apply caseeq_false.
Qed.

Lemma tracked_rename Q' chs old new :
  tracked P Q chs ->
  (forall c n uh, Q c n uh -> lower n <> lower old -> Q' c n uh) ->
  (forall c n uh, Q c n uh -> lower n = lower old -> Q' c (strlcpy IRC_NICK_SZ new) uh) ->
  (forall c n uh, Q c n uh -> lower n = lower (strlcpy IRC_NICK_SZ new) -> lower n = lower old) ->
  tracked P Q' (irc_chan_rename_nick chs old new).
Proof.
  intros H H1 H2 H3. apply tracked_map; [done|]. intros ch Hc. pose proof (tracked_members _ _ H Hc) as Hd.
  rewrite alter_member_map by done. cbn [set_members c_name c_members]. split_and!; [done| |].
  - assert (forall m, In m (c_members ch) -> lower (m_nick m) = lower (strlcpy IRC_NICK_SZ new) -> lower (m_nick m) = lower old)
      as Hfresh by (intros m Hm; eapply H3; by apply H).
    clear -Hd Hfresh. unfold distinct. rewrite map_map.
    induction (c_members ch) as [|m ms IH]; [constructor|]. apply list.NoDup_cons in Hd as [Hm Hms]. cbn [map].
    apply list.NoDup_cons. split; [|apply IH; [done|intros m1 Hm1; apply Hfresh; by right]].
    intros (m' & E & Hin)%list_elem_of_In%in_map_iff. apply Hm. apply list_elem_of_In, in_map_iff. exists m'.
    split; [|done]. destruct (strcaseeq (m_nick m) old) eqn:E1, (strcaseeq (m_nick m') old) eqn:E2.
    all: try apply caseeq_iff in E1; try apply caseeq_iff in E2; cbn [set_nick m_nick] in E; try congruence.
    + pose proof (Hfresh m' (or_intror Hin) E). apply caseeq_false in E2. congruence.
    + symmetry in E. pose proof (Hfresh m (or_introl eq_refl) E). apply caseeq_false in E1. congruence.
  - intros m (m0 & <- & Hm)%in_map_iff. destruct (strcaseeq (m_nick m0) old) eqn:E.
    + apply caseeq_iff in E. cbn [set_nick m_nick m_userhost]. eapply H2; [by apply H|done].
    + apply H1; [by apply H|]. by apply caseeq_false.
Qed.

Lemma tracked_leave P' Q' chs channel :
  tracked P Q chs ->
  (forall c, P c -> lower c <> lower channel -> P' c) ->
  (forall c n uh, Q c n uh -> lower c <> lower channel -> Q' c n uh) ->
  tracked P' Q' (irc_chan_remove chs channel).
Proof.
  intros [[U1 U2] C T] H1 H2. rewrite chan_remove_filter by done. split.
  - split; [by apply distinct_filter|]. apply List.Forall_forall. intros ch [Hc _]%filter_In.
    by apply (proj1 (List.Forall_forall _ _) U2).
  - intros ch [Hc E]%filter_In. apply H1; [by apply C|]. apply caseeq_false. by breflect.
  - intros ch m [Hc E]%filter_In Hm. apply H2; [by apply T|]. apply caseeq_false. by breflect.
Qed.

Lemma tracked_add chs channel nick :
  tracked P Q chs -> P channel -> Q channel nick [] ->
  (forall c c' n uh, Q c n uh -> lower c = lower c' -> Q c' n uh) ->
  (length channel <= IRC_CHAN_SZ)%nat -> (length nick < IRC_NICK_SZ)%nat ->
  tracked P Q (irc_chan_add_nick chs channel nick).
Proof.
  intros H Hp Hq Hcase Hc Hn. unfold irc_chan_add_nick. destruct nick as [|x nick']; [done|].
  set (nick := x :: nick') in *.
  assert (forall chs, tracked P Q chs -> tracked P Q (map (fun ch => if strcaseeq (c_name ch) channel then add_member nick ch else ch) chs)) as Hadd.
  { clear chs H. intros chs H. apply tracked_map; [done|]. intros ch Hch. pose proof (tracked_members _ _ H Hch) as Hd.
    destruct (strcaseeq (c_name ch) channel) eqn:E; [|by split_and!; [| |intros; apply H]].
    apply caseeq_iff in E. unfold add_member. destruct (irc_member_find ch nick) eqn:Ef; [by split_and!; [| |intros; apply H]|].
    destruct (IRC_CHAN_MAX_MEMBERS <=? c_member_count ch); [by split_and!; [| |intros; apply H]|].
    cbn [set_members c_name c_members]. split_and!; [done| |].
    - apply list.NoDup_cons. split; [|done]. cbn [m_nick]. rewrite strlcpy_fits by done.
      by apply (find_index_none m_nick).
    - intros m [<-|Hm]; [|by apply H]. cbn [m_nick m_userhost]. rewrite strlcpy_fits by done. by eapply Hcase. }
  unfold irc_chan_get. pose proof (chan_alter (add_member nick) chs channel (proj1 (tr_uniq _ _ _ H))) as E.
  destruct (irc_chan_find chs channel) as [i|] eqn:Ef.
  - rewrite E. by apply Hadd.
  - assert (tracked P Q (new_channel channel :: chs)) as H'.
    { destruct H as [[U1 U2] C T]. unfold new_channel. rewrite strlcpy_fits by lia. split.
      - split; [|constructor; [constructor|done]]. apply list.NoDup_cons. split; [|done]. cbn [c_name].
        by apply (find_index_none c_name).
      - intros ch [<-|Hin]; [done|by apply C].
      - intros ch m [<-|Hin]; [done|by apply T]. }
    specialize (Hadd _ H'). replace (alter (add_member nick) 0%nat (new_channel channel :: chs))
      with (map (fun ch => if strcaseeq (c_name ch) channel then add_member nick ch else ch) (new_channel channel :: chs)); [done|].
    cbn [map]. rewrite <- E. unfold new_channel at 1. cbn [c_name]. rewrite strlcpy_fits by lia. by rewrite caseeq_refl.
Qed.

End tracked.

Lemma tracked_impl P Q P' Q' chs :
  tracked P Q chs -> (forall c, P c -> P' c) -> (forall c n uh, Q c n uh -> Q' c n uh) -> tracked P' Q' chs.
Proof. intros [U C T] HP HQ. split; eauto. Qed.

(** ** What the handlers do to the table *)

Section handlers.
Context {F : CFloat} (version : cstr).

(** Table and nick after an operation. *)
Definition roster (st : irc_state_t) : list irc_channel_t * cstr := (i_channels st, i_cur_nick st).

Lemma quiet_roster st st' : quiet st st' -> roster st' = roster st.
Proof. intros []. unfold roster. congruence. Qed.

Lemma speaks_roster vs st st' : speaks vs st st' -> roster st' = roster st.
Proof. intros [_ H]. by apply quiet_roster. Qed.

Lemma witness_roster env p st : roster (irc_witness env p st) = roster st.
Proof. unfold irc_witness. by repeat case_step. Qed.

Lemma send_roster env text st : roster (send_ env text st) = roster st.
Proof. unfold send_, irc_send_raw. by repeat case_step. Qed.

Lemma seen_roster p st :
  roster (see_sender p st)
  = (match p_user p, p_host p with
     | [], _ | _, [] => i_channels st
     | u, h => irc_user_seen (i_channels st) (p_nick p) (userhost_of u h)
     end, i_cur_nick st).
Proof. unfold see_sender. by repeat case_step. Qed.

Lemma privmsg_roster env p st : roster (irc_handle_privmsg env p st) = roster (see_sender p st).
Proof. unfold irc_handle_privmsg. cbv zeta. by destruct (message_body _) as [[]|]. Qed.

Lemma join_roster env p st :
  (if p_has_trailing p then p_trailing p else p_params p) <> [] ->
  roster (irc_handle_join version env p st)
  = roster (see_sender p (on_channels (fun chs =>
      irc_chan_add_nick chs (if p_has_trailing p then p_trailing p else p_params p) (p_nick p)) st)).
Proof.
  intros Hc. unfold irc_handle_join. destruct (if p_has_trailing p then _ else _) as [|c channame]; [done|]. cbv zeta.
  set (st1 := see_sender p _). clearbody st1.
  destruct (is_self st1 (p_nick p)); [eapply speaks_roster, self_join_speaks|]. by repeat case_step.
Qed.

Lemma topic_who channel topic st :
  who (i_channels (write_topic channel topic st)) = who (i_channels st) /\ i_cur_nick (write_topic channel topic st) = i_cur_nick st.
Proof. unfold write_topic. case_step; [|done]. split; [by apply who_alter|done]. Qed.

(** The table says the same of everybody, and the nick is the same. *)
Definition same_who (st st' : irc_state_t) : Prop :=
  who (i_channels st') = who (i_channels st) /\ i_cur_nick st' = i_cur_nick st.

Lemma same_who_refl st : same_who st st.
Proof. done. Qed.

Lemma same_who_trans a b c : same_who a b -> same_who b c -> same_who a c.
Proof. intros [] []. split; congruence. Qed.

Lemma same_who_roster a b c : roster c = roster b -> same_who a b -> same_who a c.
Proof. intros [= H1 H2] []. split; congruence. Qed.

Lemma same_who_speaks vs a b c : speaks vs b c -> same_who a b -> same_who a c.
Proof. intros H. apply same_who_roster. by eapply speaks_roster. Qed.

Lemma handle_topic_who env p st : same_who st (irc_handle_topic env p st).
Proof.
  unfold irc_handle_topic. cbv zeta. case_step; [done|]. set (st1 := write_topic _ _ _).
  assert (same_who st st1) as H by apply topic_who. clearbody st1.
  repeat case_step; first [exact H | eapply same_who_roster; [apply send_roster|exact H]].
Qed.

Lemma handle_topic332_who env p st : same_who st (irc_handle_topic332 env p st).
Proof. unfold irc_handle_topic332. cbv zeta. case_step; [done|apply topic_who]. Qed.

Lemma handle_endnames_who env p st : same_who st (irc_handle_endnames env p st).
Proof.
  unfold irc_handle_endnames. cbv zeta. case_step; [done|].
  set (st1 := match irc_chan_find _ _ with Some _ => _ | None => _ end).
  assert (same_who st st1) as H.
  { unfold st1. destruct (irc_chan_find _ _); [|done]. case_match; [|done]. split; [by apply who_alter|done]. }
  clearbody st1. case_step; [|exact H]. eapply same_who_speaks; [apply apply_admin_speaks|exact H].
Qed.

Definition same_members (ch ch' : irc_channel_t) : Prop :=
  c_name ch' = c_name ch
  /\ map (fun m => (m_nick m, m_userhost m)) (c_members ch') = map (fun m => (m_nick m, m_userhost m)) (c_members ch).

Lemma alter_flags_members nick f ch :
  (forall m, m_nick (f m) = m_nick m /\ m_userhost (f m) = m_userhost m) -> same_members ch (alter_member nick f ch).
Proof.
  intros H. unfold alter_member. destruct (irc_member_find ch nick) as [i|]; [|done]. split; [done|]. cbn [set_members c_members].
  revert i. induction (c_members ch) as [|m ms IH]; intros [|i]; cbn; try done; [by destruct (H m) as [-> ->]|].
  f_equal. apply IH.
Qed.

Lemma mode_members cur_nick mode_str param_ptr adding key_removed ch :
  match ch with
  | Some ch => exists ch', (mode_loop cur_nick mode_str param_ptr adding key_removed (Some ch)).1 = Some ch' /\ same_members ch ch'
  | None => (mode_loop cur_nick mode_str param_ptr adding key_removed None).1 = None
  end.
Proof.
  revert param_ptr adding key_removed ch.
  induction mode_str as [|mc mode_str IH]; intros param_ptr adding key_removed ch; [destruct ch; [by eexists|done]|].
  cbn [mode_loop]. destruct (ceqb mc "+"); [apply IH|]. destruct (ceqb mc "-"); [apply IH|].
  match goal with |- context [if ?b then _ else _] => destruct b; [|apply IH] end.
  destruct (copy_word (IRC_NICK_SZ - 1) param_ptr) as [param_nick rest].
  destruct ch as [ch|]; [|apply (IH _ _ _ None)]. destruct param_nick as [|x param_nick]; [apply (IH _ _ _ (Some ch))|].
  destruct (irc_mode_to_flag mc =? 0); [apply (IH _ _ _ (Some ch))|].
  set (ch1 := alter_member (x :: param_nick) _ ch). assert (same_members ch ch1) as H1 by by apply alter_flags_members.
  match goal with |- context [Some (if ?b then ?X else ?Y)] => set (ch2 := if b then X else Y) end.
  assert (same_members ch ch2) as H2 by (unfold ch2; case_match; exact H1).
  destruct (IH (skip_spaces rest) adding (key_removed || (ceqb mc "k" && negb adding)) (Some ch2)) as (ch' & E & Hs).
  exists ch'. split; [exact E|]. destruct Hs, H2. split; congruence.
Qed.

Lemma who_insert i ch ch' chs :
  chs !! i = Some ch -> same_members ch ch' -> who (alter (fun _ => ch') i chs) = who chs.
Proof.
  revert i. induction chs as [|c chs IH]; intros [|i] H [Hn Hm]; try done.
  - injection H as <-. cbn. by rewrite Hn, Hm.
  - cbn. f_equal. by apply IH.
Qed.

Lemma handle_mode_who env p st : same_who st (irc_handle_mode env p st).
Proof.
  unfold irc_handle_mode. destruct (copy_word IRC_CHAN_SZ (p_params p)) as [channel mp].
  case_step; [done|]. destruct (skip_spaces mp) as [|c ms]; [done|]. cbv zeta.
  destruct (mode_loop _ _ _ _ _ _) as [ch key_removed] eqn:Em.
  set (st1 := match irc_chan_find _ _ with Some _ => _ | None => _ end).
  assert (same_who st st1) as H1.
  { unfold st1. destruct (irc_chan_find (i_channels st) channel) as [i|] eqn:Ei; [|done]. destruct ch as [ch'|]; [|done].
    split; [|done]. cbn. unfold chan_at in Em. rewrite Ei in Em. cbn [mbind option_bind] in Em.
    pose proof (mode_members (i_cur_nick st) (span not_space (c :: ms)) (skip_spaces (skip_while not_space (c :: ms)))
      true false (i_channels st !! i)) as Hm.
    destruct (i_channels st !! i) as [ch0|] eqn:E0.
    - destruct Hm as (ch1 & E1 & Hs). rewrite Em in E1. injection E1 as ->. by eapply who_insert.
    - rewrite Em in Hm. done. }
  clearbody st1. match goal with |- context [if negb (chan_have_ops st channel) && ?b then ?X else st1] =>
    set (st2 := if negb (chan_have_ops st channel) && b then X else st1) end.
  assert (same_who st st2) as H2.
  { unfold st2. case_match; [|done]. eapply same_who_speaks; [apply apply_admin_speaks|exact H1]. }
  clearbody st2. repeat case_step; first [exact H2 | eapply same_who_roster; [apply send_roster|exact H2]].
Qed.

End handlers.
