(* ===== verification/IrcNet.v ===== *)
(** * An IRC network and what the driver knows of it

    The specification: users with their nick, user and host, the channels they are in, and
    the line the server sends the bot for each change it is to hear of. A state of the
    driver is right about a network when its nick is the bot's, it tracks only channels
    the bot is in, and every member it lists is there under that user@host or under none
    yet. Every event keeps that, through the text of its line. *)

From S2P Require Import Prelude Kv KvApi IrcParse IrcChannel Irc IrcStream IrcSend IrcRoster.

(** ** The network *)

Record user_t := { u_nick : cstr; u_user : cstr; u_host : cstr }.

Record net := { n_users : list user_t; n_in : list (cstr * cstr); n_self : cstr }.

Definition find_user (w : net) (n : cstr) : option user_t := List.find (fun u => strcaseeq (u_nick u) n) (n_users w).

Definition in_chan (w : net) (n c : cstr) : bool := existsb (fun e => strcaseeq e.1 n && strcaseeq e.2 c) (n_in w).

(** Shares a channel with the bot. *)
Definition shares (w : net) (n : cstr) : bool := existsb (fun e => strcaseeq e.1 n && in_chan w (n_self w) e.2) (n_in w).

Definition is_bot (w : net) (n : cstr) : bool := strcaseeq n (n_self w).

Inductive net_event :=
  | Arrive (u : user_t)
  | Join (n c : cstr) (in_trailing : bool)
  | Part (n c : cstr) (why : option cstr)
  | Kick (by_ : irc_origin) (n c : cstr) (why : option cstr)
  | Quit (n why : cstr)
  | Rename (n n' : cstr) (in_trailing : bool)
  | Talk (n target text : cstr)
  | Names (server c : cstr) (ns : list (cstr * cstr))
  | Who (server n c rest : cstr)
  | Other (m : irc_message).

Definition rename (n n' k : cstr) : cstr := if strcaseeq k n then n' else k.

Definition net_apply (ev : net_event) (w : net) : net :=
  match ev with
  | Arrive u => {| n_users := u :: n_users w; n_in := n_in w; n_self := n_self w |}
  | Join n c _ => {| n_users := n_users w; n_in := (n, c) :: n_in w; n_self := n_self w |}
  | Part n c _ | Kick _ n c _ =>
      {| n_users := n_users w; n_in := List.filter (fun e => negb (strcaseeq e.1 n && strcaseeq e.2 c)) (n_in w);
         n_self := n_self w |}
  | Quit n _ =>
      {| n_users := List.filter (fun u => negb (strcaseeq (u_nick u) n)) (n_users w);
         n_in := List.filter (fun e => negb (strcaseeq e.1 n)) (n_in w); n_self := n_self w |}
  | Rename n n' _ =>
      {| n_users := map (fun u => {| u_nick := rename n n' (u_nick u); u_user := u_user u; u_host := u_host u |}) (n_users w);
         n_in := map (fun e => (rename n n' e.1, e.2)) (n_in w); n_self := rename n n' (n_self w) |}
  | Talk _ _ _ | Names _ _ _ | Who _ _ _ _ | Other _ => w
  end.

Definition origin_of (w : net) (n : cstr) : irc_origin :=
  match find_user w n with Some u => FromUser (u_nick u) (u_user u) (u_host u) | None => NoOrigin end.

Definition msg (o : irc_origin) (cmd : string) (params : list cstr) (trailing : option cstr) : irc_message :=
  {| msg_origin := o; msg_command := lit cmd; msg_params := params; msg_trailing := trailing |}.

(** An argument that some servers send as the trailing text. *)
Definition argument (o : irc_origin) (cmd : string) (x : cstr) (in_trailing : bool) : irc_message :=
  if in_trailing then msg o cmd [] (Some x) else msg o cmd [x] None.

(** What the bot hears of an event. *)
Definition net_line (ev : net_event) (w : net) : option irc_message :=
  match ev with
  | Arrive _ => None
  | Join n c t => if is_bot w n || in_chan w (n_self w) c then Some (argument (origin_of w n) "JOIN" c t) else None
  | Part n c why => if in_chan w (n_self w) c then Some (msg (origin_of w n) "PART" [c] why) else None
  | Kick o n c why => if in_chan w (n_self w) c then Some (msg o "KICK" [c; n] why) else None
  | Quit n why => if shares w n then Some (msg (origin_of w n) "QUIT" [] (Some why)) else None
  | Rename n n' t =>
      if is_bot w n || shares w n then Some (argument (origin_of w n) "NICK" n' t) else None
  | Talk n target text => Some (msg (origin_of w n) "PRIVMSG" [target] (Some text))
  | Names server c ns =>
      Some (msg (FromServer server) "353" [n_self w; lit "="; c]
              (Some (drop 1 (spaced (map (fun fn => fn.1 ++ fn.2) ns)))))
  | Who server n c rest =>
      match find_user w n with
      | Some u => Some (msg (FromServer server) "352" [n_self w; c; u_user u; u_host u; server; u_nick u; lit "H"] (Some rest))
      | None => None
      end
  | Other m => Some m
  end.

(** Commands that are about who is where, or change the bot's nick. *)
Definition roster_commands : list cstr :=
  map lit ["JOIN"; "PART"; "KICK"; "QUIT"; "NICK"; "PRIVMSG"; "353"; "352"; "433"]%string.

Definition nick_ok (n : cstr) : Prop :=
  word_ok n /\ (length n < IRC_NICK_SZ)%nat /\ forallb (fun c => negb (is_chan_chr c)) n = true
  /\ is_mode_prefix (deref n) = false.

Definition chan_ok (c : cstr) : Prop := word_ok c /\ is_chan_chr (deref c) = true /\ (length c <= IRC_CHAN_SZ)%nat.

(** When an event can happen; its line is one a conforming server prints. *)
Definition net_ok (ev : net_event) (w : net) : Prop :=
  (forall m, net_line ev w = Some m -> message_ok m)
  /\ match ev with
     | Arrive u =>
         find_user w (u_nick u) = None /\ nick_ok (u_nick u) /\ u_user u <> [] /\ u_host u <> []
         /\ (length (u_user u) < IRC_NICK_SZ)%nat /\ (length (u_host u) < IRC_HOST_SZ)%nat
     | Join n c _ => is_Some (find_user w n) /\ chan_ok c
     | Part n c _ => in_chan w n c = true /\ chan_ok c
     | Kick _ n c _ => in_chan w n c = true /\ chan_ok c /\ nick_ok n
     | Quit n _ => is_Some (find_user w n) /\ is_bot w n = false
     | Rename n n' _ => is_Some (find_user w n) /\ nick_ok n' /\ (find_user w n' = None \/ lower n' = lower n)
     | Talk n _ _ => is_Some (find_user w n)
     | Names _ c ns =>
         in_chan w (n_self w) c = true /\ chan_ok c
         /\ Forall (fun fn => in_chan w fn.2 c = true /\ nick_ok fn.2 /\ forallb is_mode_prefix fn.1 = true) ns
     | Who _ n c _ => is_Some (find_user w n)
     | Other m => msg_command m ∉ roster_commands
     end.

(** Networks as they are: users by name, members among them, the bot one of them. *)
Record net_wf (w : net) : Prop := {
  wf_users : distinct u_nick (n_users w);
  wf_user : forall u, In u (n_users w) -> nick_ok (u_nick u) /\ u_user u <> [] /\ u_host u <> []
              /\ (length (u_user u) < IRC_NICK_SZ)%nat /\ (length (u_host u) < IRC_HOST_SZ)%nat;
  wf_in : forall n c, in_chan w n c = true -> is_Some (find_user w n);
  wf_self : is_Some (find_user w (n_self w));
  wf_nick : nick_ok (n_self w)
}.

(** ** Being right about it *)

Definition chan_right (w : net) (c : cstr) : Prop := in_chan w (n_self w) c = true.

Definition entry_right (w : net) (c n uh : cstr) : Prop :=
  in_chan w (n_self w) c = true /\ in_chan w n c = true
  /\ exists u, find_user w n = Some u /\ (uh = [] \/ uh = userhost_of (u_user u) (u_host u)).

Record right_about (w : net) (st : irc_state_t) : Prop := {
  ri_table : tracked (chan_right w) (entry_right w) (i_channels st);
  ri_nick : lower (i_cur_nick st) = lower (n_self w);
  ri_len : (length (i_cur_nick st) < IRC_NICK_SZ)%nat
}.

(** ** Lookups *)

Lemma find_lower w a b : lower a = lower b -> find_user w a = find_user w b.
Proof.
  intros E. unfold find_user. induction (n_users w) as [|u us IH]; [done|]. cbn.
  replace (strcaseeq (u_nick u) b) with (strcaseeq (u_nick u) a); [by rewrite IH|].
  apply eq_true_iff_eq. rewrite !caseeq_iff. by rewrite E.
Qed.

Lemma find_Some w n u : find_user w n = Some u -> In u (n_users w) /\ lower (u_nick u) = lower n.
Proof. intros [H1 H2]%find_some. split; [done|by apply caseeq_iff]. Qed.

Lemma find_own w u : distinct u_nick (n_users w) -> In u (n_users w) -> find_user w (u_nick u) = Some u.
Proof.
  intros Hd Hu. destruct (find_user w (u_nick u)) as [v|] eqn:E.
  - apply find_Some in E as [Hv E]. f_equal. by eapply (distinct_same u_nick).
  - pose proof (find_none _ _ E u Hu) as H. cbn in H. by rewrite caseeq_refl in H.
Qed.

Lemma in_iff w n c : in_chan w n c = true <-> exists e, In e (n_in w) /\ lower e.1 = lower n /\ lower e.2 = lower c.
Proof.
  unfold in_chan. rewrite existsb_exists. split.
  - intros (e & He & H). apply andb_true_iff in H as [H1%caseeq_iff H2%caseeq_iff]. by exists e.
  - intros (e & He & H1%caseeq_iff & H2%caseeq_iff). exists e. by rewrite H1, H2.
Qed.

Lemma in_lower w n n' c c' : lower n = lower n' -> lower c = lower c' -> in_chan w n c = in_chan w n' c'.
Proof. intros E1 E2. apply eq_true_iff_eq. rewrite !in_iff. by rewrite E1, E2. Qed.

Lemma shares_iff w n : shares w n = true <-> exists c, in_chan w n c = true /\ in_chan w (n_self w) c = true.
Proof.
  unfold shares. rewrite existsb_exists. split.
  - intros (e & He & H). apply andb_true_iff in H as [H1%caseeq_iff H2]. exists e.2. split; [|done].
    apply in_iff. by exists e.
  - intros (c & H1 & H2). apply in_iff in H1 as (e & He & E1 & E2). exists e. split; [done|].
    apply andb_true_iff. split; [by apply caseeq_iff|]. by rewrite (in_lower _ _ (n_self w) _ c).
Qed.

Lemma entry_case w c c' n uh : entry_right w c n uh -> lower c = lower c' -> entry_right w c' n uh.
Proof.
  intros (H1 & H2 & H3) E. split_and!; [| |done].
  - by rewrite <- (in_lower w (n_self w) (n_self w) c c').
  - by rewrite <- (in_lower w n n c c').
Qed.

Lemma strncaseeq_short n a b : (length a <= n)%nat -> (length b <= n)%nat -> strncaseeq n a b = strcaseeq a b.
Proof. intros Ha Hb. unfold strncaseeq, strcaseeq. by rewrite !take_ge by done. Qed.

Lemma self_bot w st n : right_about w st -> (length n < IRC_NICK_SZ)%nat -> is_self st n = is_bot w n.
Proof.
  intros [_ Hn Hl] H. unfold is_self, is_bot. rewrite strncaseeq_short by lia.
  apply eq_true_iff_eq. rewrite !caseeq_iff. by rewrite Hn.
Qed.

(** ** Lines to handlers *)

Section lines.
Context {F : CFloat} (version : cstr).

Lemma line_handled env m st :
  message_ok m ->
  irc_handle_line version env (irc_format m) st
  = match List.find (fun e => seqb (msg_command m) e.1) (irc_cmd_table version) with
    | Some (_, fn) => fn env (parsed m) (irc_witness env (parsed m) st)
    | None => irc_witness env (parsed m) st
    end.
Proof.
  intros H. unfold irc_handle_line. rewrite irc_parse_format by done. cbv zeta.
  replace (p_command (parsed m)) with (msg_command m); [done|]. unfold parsed. by destruct (origin_parts _) as [[? ?] ?].
Qed.

Lemma line_for env m cmd h st :
  message_ok m -> List.find (fun e => seqb (msg_command m) e.1) (irc_cmd_table version) = Some (cmd, h) ->
  irc_handle_line version env (irc_format m) st = h env (parsed m) (irc_witness env (parsed m) st).
Proof. intros Hm E. rewrite line_handled by done. by rewrite E. Qed.

Lemma right_roster w st st' : roster st' = roster st -> right_about w st -> right_about w st'.
Proof. unfold roster. intros [= H1 H2] []. split; by rewrite ?H1, ?H2. Qed.

Lemma right_who w st st' : same_who st st' -> right_about w st -> right_about w st'.
Proof. intros [H1 H2] []. split; [by eapply tracked_who|by rewrite H2|by rewrite H2]. Qed.

Lemma right_table w w' st chs :
  right_about w st -> n_self w' = n_self w -> tracked (chan_right w') (entry_right w') chs ->
  right_about w' (on_channels (fun _ => chs) st).
Proof. intros [] E H. split; [done|by rewrite E|done]. Qed.

(** The words of the parameters. *)

Lemma span_word w s : " "%char ∉ w -> (s = [] \/ deref s = " "%char) -> span not_space (w ++ s) = w /\ skip_while not_space (w ++ s) = s.
Proof.
  intros Hw Hs. apply span_app_stop.
  - apply List.Forall_forall. intros c Hc. unfold not_space. apply negb_true_iff, ceqb_false. intros ->.
    by apply Hw, list_elem_of_In.
  - destruct s as [|c s]; [done|]. destruct Hs as [Hs|Hs]; [done|]. cbn in Hs. subst c. done.
Qed.

Lemma spaced_start ws : spaced ws = [] \/ deref (spaced ws) = " "%char.
Proof. destruct ws; [by left|by right]. Qed.

Lemma copy_word_word max w ws :
  word_ok w -> (length w <= max)%nat -> copy_word max (w ++ spaced ws) = (w, spaced ws).
Proof.
  intros (_ & Hw & _) Hl. unfold copy_word. destruct (span_word w (spaced ws) Hw (spaced_start ws)) as [-> _].
  rewrite take_ge by done. by rewrite drop_app_length.
Qed.

Lemma skip_spaces_spaced w ws : word_ok w -> skip_spaces (spaced (w :: ws)) = w ++ spaced ws.
Proof.
  intros H. cbn [spaced lit list_ascii_of_string app]. unfold skip_spaces. cbn [skip_while].
  change (is_space_chr " ") with true. by apply skip_spaces_word.
Qed.

Lemma params_of o cmd w ws t : p_params (parsed (msg o cmd (w :: ws) t)) = w ++ spaced ws.
Proof. unfold parsed. by destruct (origin_parts _) as [[? ?] ?]. Qed.

(** A line of a user. *)
Lemma parsed_user w n u cmd ps t :
  find_user w n = Some u ->
  let p := parsed (msg (origin_of w n) cmd ps t) in
  p_nick p = u_nick u /\ p_user p = u_user u /\ p_host p = u_host u /\ p_params p = drop 1 (spaced ps)
  /\ p_trailing p = default [] t /\ p_has_trailing p = match t with Some _ => true | None => false end.
Proof. intros E. unfold parsed, origin_of, msg. cbn [msg_origin]. by rewrite E. Qed.

(** The argument, wherever it is. *)
Lemma parsed_argument w n u cmd x t :
  find_user w n = Some u ->
  let p := parsed (argument (origin_of w n) cmd x t) in
  p_nick p = u_nick u /\ p_user p = u_user u /\ p_host p = u_host u
  /\ (if p_has_trailing p then p_trailing p else p_params p) = x.
Proof.
  intros E. destruct t; cbn [argument]; destruct (parsed_user w n u cmd
    (match cmd with _ => [] end) (Some x) E) as (H1 & H2 & H3 & _).
  - destruct (parsed_user w n u cmd [] (Some x) E) as (? & ? & ? & ? & Ht & Hh). cbv zeta in *.
    rewrite Hh, Ht. by split_and!.
  - destruct (parsed_user w n u cmd [x] None E) as (? & ? & ? & Hp & Ht & Hh). cbv zeta in *.
    rewrite Hh, Hp. split_and!; try done. cbn [spaced lit list_ascii_of_string app drop]. by rewrite app_nil_r.
Qed.

(** *** What changes of the network do to the lookups *)

Lemma in_part w n c n' c' :
  in_chan {| n_users := n_users w; n_in := List.filter (fun e => negb (strcaseeq e.1 n && strcaseeq e.2 c)) (n_in w);
             n_self := n_self w |} n' c' = true
  <-> in_chan w n' c' = true /\ (lower n' <> lower n \/ lower c' <> lower c).
Proof.
  rewrite !in_iff. cbn [n_in]. split.
  - intros (e & [He Hf]%filter_In & E1 & E2). split; [by exists e|]. rewrite <- E1, <- E2.
    apply negb_true_iff, andb_false_iff in Hf as [Hf|Hf]; apply caseeq_false in Hf; auto.
  - intros [(e & He & E1 & E2) Hne]. exists e. split; [|done]. apply filter_In. split; [done|].
    apply negb_true_iff, andb_false_iff. rewrite !caseeq_false, E1, E2. done.
Qed.

Lemma in_quit w n why n' c' :
  in_chan (net_apply (Quit n why) w) n' c' = true <-> in_chan w n' c' = true /\ lower n' <> lower n.
Proof.
  rewrite !in_iff. cbn [net_apply n_in]. split.
  - intros (e & [He Hf]%filter_In & E1 & E2). split; [by exists e|]. rewrite <- E1.
    by apply caseeq_false, negb_true_iff.
  - intros [(e & He & E1 & E2) Hne]. exists e. split; [|done]. apply filter_In. split; [done|].
    apply negb_true_iff, caseeq_false. by rewrite E1.
Qed.

Lemma find_quit w n why k : lower k <> lower n -> find_user (net_apply (Quit n why) w) k = find_user w k.
Proof.
  intros H. unfold find_user. cbn [net_apply n_users]. induction (n_users w) as [|u us IH]; [done|]. cbn.
  destruct (strcaseeq (u_nick u) n) eqn:E; cbn [negb].
  - rewrite IH. destruct (strcaseeq (u_nick u) k) eqn:Ek; [|done]. exfalso. apply caseeq_iff in E, Ek. congruence.
  - cbn. by rewrite IH.
Qed.

Lemma rename_lower n n' a k : lower a = lower k -> lower (rename n n' a) = lower (rename n n' k).
Proof.
  intros E. unfold rename. replace (strcaseeq a n) with (strcaseeq k n); [by destruct (strcaseeq k n)|].
  apply eq_true_iff_eq. rewrite !caseeq_iff. by rewrite E.
Qed.

Lemma rename_other n n' k : lower k <> lower n -> rename n n' k = k.
Proof. intros H. unfold rename. by rewrite (proj2 (caseeq_false _ _)). Qed.

Lemma rename_same n n' k : lower k = lower n -> rename n n' k = n'.
Proof. intros H. unfold rename. by rewrite (proj2 (caseeq_iff _ _)). Qed.

(** The new nick is nobody else's. *)
Definition fresh_for (w : net) (n n' : cstr) : Prop := find_user w n' = None \/ lower n' = lower n.

Lemma fresh_other w n n' k : fresh_for w n n' -> is_Some (find_user w k) -> lower k = lower n' -> lower k = lower n.
Proof. intros [H|H] [u Hu] E; [|congruence]. rewrite (find_lower w k n') in Hu by done. congruence. Qed.

Lemma find_map {A} (f : A -> A) (g h : A -> bool) l :
  (forall x, In x l -> g (f x) = h x) -> List.find g (map f l) = f <$> List.find h l.
Proof.
  induction l as [|x l IH]; intros H; [done|]. cbn. rewrite (H x) by by left.
  destruct (h x); [done|]. apply IH. intros y Hy. apply H. by right.
Qed.

Lemma user_known w u : In u (n_users w) -> is_Some (find_user w (u_nick u)).
Proof.
  intros Hu. destruct (find_user w (u_nick u)) as [v|] eqn:E; [by exists v|].
  pose proof (find_none _ _ E u Hu) as H. cbn in H. by rewrite caseeq_refl in H.
Qed.

Lemma rename_inj w n n' a b :
  fresh_for w n n' -> is_Some (find_user w a) -> is_Some (find_user w b) ->
  lower (rename n n' a) = lower (rename n n' b) <-> lower a = lower b.
Proof.
  intros Hf Ha Hb. split; [|apply rename_lower].
  destruct (decide (lower a = lower n)) as [Ea|Ea], (decide (lower b = lower n)) as [Eb|Eb].
  - congruence.
  - rewrite (rename_same _ _ a), (rename_other _ _ b) by done. intros E. exfalso. apply Eb.
    by apply (fresh_other w n n').
  - rewrite (rename_other _ _ a), (rename_same _ _ b) by done. intros E. exfalso. apply Ea.
    by apply (fresh_other w n n').
  - by rewrite !rename_other.
Qed.

Definition renamed (n n' : cstr) (u : user_t) : user_t :=
  {| u_nick := rename n n' (u_nick u); u_user := u_user u; u_host := u_host u |}.

Lemma find_rename w n n' t k :
  fresh_for w n n' -> is_Some (find_user w k) ->
  find_user (net_apply (Rename n n' t) w) (rename n n' k) = renamed n n' <$> find_user w k.
Proof.
  intros Hf Hk. unfold find_user at 1. cbn [net_apply n_users]. apply find_map. intros u Hu. cbn [u_nick].
  apply eq_true_iff_eq. rewrite !caseeq_iff. apply (rename_inj w); [done|by apply user_known|done].
Qed.

Lemma in_rename w n n' t k c :
  in_chan w k c = true -> in_chan (net_apply (Rename n n' t) w) (rename n n' k) c = true.
Proof.
  rewrite !in_iff. intros (e & He & E1 & E2). exists (rename n n' e.1, e.2). split_and!.
  - cbn [net_apply n_in]. apply in_map_iff. by exists e.
  - cbn [fst]. by apply rename_lower.
  - done.
Qed.

Lemma in_renamed w n n' t k c :
  in_chan (net_apply (Rename n n' t) w) k c = true -> exists k0, lower (rename n n' k0) = lower k /\ in_chan w k0 c = true.
Proof.
  rewrite !in_iff. intros (e & (e0 & <- & He)%in_map_iff & E1 & E2). cbn [fst snd] in *. exists e0.1. split; [done|].
  apply in_iff. by exists e0.
Qed.

(** *** The network stays a network *)

Lemma find_in_lower w n n' : lower n = lower n' -> is_Some (find_user w n) -> is_Some (find_user w n').
Proof. intros E. by rewrite (find_lower w n n' E). Qed.

Lemma wf_arrive w u : net_wf w -> net_ok (Arrive u) w -> net_wf (net_apply (Arrive u) w).
Proof.
  intros [] [_ (Hn & Hu)]. assert (forall k, is_Some (find_user w k) -> is_Some (find_user (net_apply (Arrive u) w) k)) as Hf.
  { intros k Hk. unfold find_user. cbn. by destruct (strcaseeq (u_nick u) k). }
  split; [| | |by apply Hf|done].
  - apply list.NoDup_cons. split; [|done]. intros (v & E & Hv)%list_elem_of_In%in_map_iff.
    pose proof (find_none _ _ Hn v Hv) as H. cbn in H. apply caseeq_false in H. congruence.
  - intros v [<-|Hv]; [done|by apply wf_user0].
  - intros k c Hk. apply Hf. by eapply wf_in0.
Qed.

Lemma wf_join w n c t : net_wf w -> net_ok (Join n c t) w -> net_wf (net_apply (Join n c t) w).
Proof.
  intros [] [_ (Hn & Hc)]. split; try done.
  intros k d (e & [<-|He] & E1 & E2)%in_iff.
  - by eapply find_in_lower.
  - apply (wf_in0 k d), in_iff. by exists e.
Qed.

Lemma wf_leave w n c :
  net_wf w ->
  net_wf {| n_users := n_users w; n_in := List.filter (fun e => negb (strcaseeq e.1 n && strcaseeq e.2 c)) (n_in w);
            n_self := n_self w |}.
Proof. intros []. split; try done. intros k d [Hk _]%in_part. by eapply wf_in0. Qed.

Lemma wf_quit w n why : net_wf w -> net_ok (Quit n why) w -> net_wf (net_apply (Quit n why) w).
Proof.
  intros [] [_ (Hn & Hs)]. split; try done.
  - by apply distinct_filter.
  - intros u [Hu _]%filter_In. by apply wf_user0.
  - intros k d [Hk Hne]%in_quit. rewrite find_quit by done. by eapply wf_in0.
  - rewrite find_quit; [done|]. cbn. unfold is_bot in Hs. apply caseeq_false in Hs. congruence.
Qed.

Lemma wf_rename w n n' t : net_wf w -> net_ok (Rename n n' t) w -> net_wf (net_apply (Rename n n' t) w).
Proof.
  intros [] [_ (Hn & Hok & Hf)]. fold (fresh_for w n n') in Hf. split.
  - unfold distinct in *. cbn [net_apply n_users]. rewrite map_map. cbn [u_nick].
    assert (forall u, In u (n_users w) -> is_Some (find_user w (u_nick u))) as Hk by (intros; by apply user_known).
    revert wf_users0 Hk. generalize (n_users w) as us. induction us as [|u us IH]; intros Hd Hk; [constructor|].
    apply list.NoDup_cons in Hd as [Hu Hd]. cbn [map]. apply list.NoDup_cons. split; [|apply IH; [done|intros; apply Hk; by right]].
    intros (v & E & Hv)%list_elem_of_In%in_map_iff. apply (rename_inj w) in E; [|done|apply Hk; by right|apply Hk; by left].
    apply Hu, list_elem_of_In, in_map_iff. by exists v.
  - intros u' (u & <- & Hu)%in_map_iff. destruct (wf_user0 u Hu) as (H1 & H2). cbn [u_nick u_user u_host].
    split; [|done]. unfold rename. by case_match.
  - intros k c (k0 & E & Hk0)%in_renamed. eapply find_in_lower; [exact E|].
    rewrite find_rename; [|done|by eapply wf_in0]. destruct (wf_in0 _ _ Hk0) as [u ->]. by eexists.
  - change (n_self (net_apply (Rename n n' t) w)) with (rename n n' (n_self w)).
    rewrite find_rename by done. destruct wf_self0 as [u ->]. by eexists.
  - cbn [net_apply n_self]. unfold rename. by case_match.
Qed.

Lemma net_step_wf ev w : net_wf w -> net_ok ev w -> net_wf (net_apply ev w).
Proof.
  intros H Hok. destruct ev; try exact H; [by apply wf_arrive|by apply wf_join|by apply wf_leave|by apply wf_leave
    |by apply wf_quit|by apply wf_rename].
Qed.

(** *** Each event *)

Lemma right_arrive w u st : net_wf w -> right_about w st -> net_ok (Arrive u) w -> right_about (net_apply (Arrive u) w) st.
Proof.
  intros Hw [T Hn Hl] [_ (Hnone & _)]. split; [|done|done]. eapply tracked_impl; [exact T|done|].
  intros c n uh (H1 & H2 & v & Hv & Huh). split_and!; [done|done|]. exists v. split; [|done].
  unfold find_user. cbn [net_apply n_users List.find]. destruct (strcaseeq (u_nick u) n) eqn:E; [|exact Hv]. exfalso.
  apply caseeq_iff in E. rewrite (find_lower w _ n) in Hnone by done. congruence.
Qed.

(** The changes that only add a membership. *)
Lemma entry_join w n c c' n' uh :
  entry_right w c' n' uh -> entry_right {| n_users := n_users w; n_in := (n, c) :: n_in w; n_self := n_self w |} c' n' uh.
Proof.
  intros (H1 & H2 & H3). split_and!; [| |done].
  - apply in_iff. apply in_iff in H1 as (e & He & ?). exists e. split; [by right|done].
  - apply in_iff. apply in_iff in H2 as (e & He & ?). exists e. split; [by right|done].
Qed.

Lemma strlcpy_idem sz s : strlcpy sz (strlcpy sz s) = strlcpy sz s.
Proof. unfold strlcpy. rewrite take_take. f_equal. lia. Qed.

Lemma userhost_some user host : userhost_of user host <> [].
Proof. unfold userhost_of. destruct user as [|c user]; cbn; done. Qed.

(** What a line of a user says of them. *)
Lemma tracked_see w n u chs :
  net_wf w -> find_user w n = Some u -> tracked (chan_right w) (entry_right w) chs ->
  tracked (chan_right w) (entry_right w) (irc_user_seen chs (u_nick u) (userhost_of (u_user u) (u_host u))).
Proof.
  intros Hw Hu T. destruct (find_Some _ _ _ Hu) as [Hin Eu]. destruct (wf_user _ Hw u Hin) as (((Hne & _) & _) & _).
  eapply tracked_seen; [exact T|done| |done|apply userhost_some].
  intros c m uh (H1 & H2 & v & Hv & _) Em. split_and!; [done|done|]. exists u. split.
  - rewrite <- Hu. apply find_lower. congruence.
  - right. apply strlcpy_idem.
Qed.

Lemma right_witness env p w st : right_about w st -> right_about w (irc_witness env p st).
Proof. apply right_roster, witness_roster. Qed.

Lemma user_facts w n u : net_wf w -> find_user w n = Some u -> nick_ok (u_nick u) /\ u_user u <> [] /\ u_host u <> [] /\ lower (u_nick u) = lower n.
Proof. intros Hw Hu. destruct (find_Some _ _ _ Hu) as [Hin E]. destruct (wf_user _ Hw u Hin) as (? & ? & ? & _). done. Qed.

(** What the sender's prefix adds is right. *)
Lemma right_seen w n u p st :
  net_wf w -> find_user w n = Some u -> p_nick p = u_nick u -> p_user p = u_user u -> p_host p = u_host u ->
  right_about w st -> right_about w (see_sender p st).
Proof.
  intros Hw Hu E1 E2 E3 [T Hn Hl]. destruct (user_facts w n u Hw Hu) as (_ & H2 & H3 & _).
  pose proof (seen_roster p st) as E. rewrite E1, E2, E3 in E. destruct (u_user u) as [|x us] eqn:Eu; [done|].
  destruct (u_host u) as [|y hs] eqn:Eh; [done|]. injection E as EC EN. split; [|by rewrite EN|by rewrite EN].
  rewrite EC, <- Eu, <- Eh. by eapply tracked_see.
Qed.

Lemma right_join env w st n c t :
  net_wf w -> right_about w st -> net_ok (Join n c t) w ->
  right_about (net_apply (Join n c t) w)
    (match net_line (Join n c t) w with Some m => irc_handle_line version env (irc_format m) st | None => st end).
Proof.
  intros Hw Hr Hok. pose proof (wf_join w n c t Hw Hok) as Hw'. destruct Hok as [Hm [[u Hu] (Hc1 & Hc2 & Hc3)]].
  set (w' := net_apply (Join n c t) w) in *. assert (find_user w' n = Some u) as Hu' by exact Hu.
  assert (right_about w' st) as Hr'.
  { destruct Hr as [T ? ?]. split; [|done|done]. eapply tracked_impl; [exact T| |intros; by apply entry_join].
    intros d (e & He & ?)%in_iff. apply in_iff. exists e. split; [by right|done]. }
  unfold net_line in *. destruct (is_bot w n || in_chan w (n_self w) c) eqn:Eh; [|done].
  rewrite (line_for env _ (lit "JOIN") (irc_handle_join version)) by first [by apply Hm | by destruct t].
  set (p := parsed _).
  destruct (parsed_argument w n u "JOIN" c t Hu) as (E1 & E2 & E3 & E4). fold p in E1, E2, E3, E4.
  eapply right_roster; [apply join_roster; rewrite E4; by destruct Hc1|]. rewrite E4, E1.
  eapply (right_seen w' n u); [done|done|done|done|done|]. apply (right_witness env p) in Hr'.
  destruct (user_facts w n u Hw Hu) as ((_ & Hl & _) & _ & _ & El).
  destruct Hr' as [T ? ?]. split; [|done|done]. cbn [on_channels i_channels]. apply tracked_add; try done.
  - unfold chan_right. apply orb_true_iff in Eh as [Eh|Eh].
    + apply caseeq_iff in Eh. apply in_iff. exists (n, c). split; [by left|done].
    + apply in_iff in Eh as (e & He & ?). apply in_iff. exists e. split; [by right|done].
  - split_and!.
    + apply orb_true_iff in Eh as [Eh|Eh].
      * apply caseeq_iff in Eh. apply in_iff. exists (n, c). split; [by left|done].
      * apply in_iff in Eh as (e & He & ?). apply in_iff. exists e. split; [by right|done].
    + apply in_iff. exists (n, c). split; [by left|done].
    + exists u. split; [by rewrite (find_lower w' _ n)|by left].
  - apply entry_case.
Qed.

(** *** Leaving *)

Definition left_net (w : net) (n c : cstr) : net :=
  {| n_users := n_users w; n_in := List.filter (fun e => negb (strcaseeq e.1 n && strcaseeq e.2 c)) (n_in w);
     n_self := n_self w |}.

Lemma entry_left w n c d m uh :
  entry_right w d m uh -> lower (n_self w) <> lower n \/ lower d <> lower c -> lower m <> lower n \/ lower d <> lower c ->
  entry_right (left_net w n c) d m uh.
Proof. intros (H1 & H2 & H3) Hs Hn. split_and!; [by apply in_part|by apply in_part|done]. Qed.

Lemma right_leave w st n c k :
  right_about w st -> lower k = lower n -> (length k < IRC_NICK_SZ)%nat -> right_about (left_net w n c) (leave c k st).
Proof.
  intros Hr Ek Hk. unfold leave. rewrite (self_bot w) by done. destruct Hr as [T Hn Hl].
  destruct (is_bot w k) eqn:Eb; (split; [|done|done]); cbn [on_channels i_channels].
  - eapply tracked_leave; [exact T| |].
    + intros d Hd Hne. apply in_part. by split; [|right].
    + intros d m uh H Hne. apply entry_left; [done|by right|by right].
  - unfold is_bot in Eb. apply caseeq_false in Eb.
    eapply tracked_impl; [eapply (tracked_remove _ _ (entry_right (left_net w n c))); [exact T|]| |done].
    + intros d m uh H Hne. apply entry_left; [done|left; congruence|]. rewrite Ek in Hne. tauto.
    + intros d Hd. apply in_part. split; [exact Hd|]. left. cbn [left_net n_self]. congruence.
Qed.

(** A leaving the bot does not hear of is from a channel it is not in. *)
Lemma right_unheard w st n c :
  right_about w st -> in_chan w n c = true -> in_chan w (n_self w) c = false -> right_about (left_net w n c) st.
Proof.
  intros [T Hn Hl] Hin Hself. split; [|done|done].
  assert (forall d, in_chan w (n_self w) d = true -> lower d <> lower c) as Hd.
  { intros d Hd E. rewrite (in_lower w _ (n_self w) _ c) in Hd by done. congruence. }
  eapply tracked_impl; [exact T| |].
  - intros d H. apply in_part. split; [exact H|]. right. by apply Hd.
  - intros d m uh H. pose proof H as [Hs _]. apply entry_left; [done|right; by apply Hd|right; by apply Hd].
Qed.

Lemma right_part env w st n c why :
  net_wf w -> right_about w st -> net_ok (Part n c why) w ->
  right_about (net_apply (Part n c why) w)
    (match net_line (Part n c why) w with Some m => irc_handle_line version env (irc_format m) st | None => st end).
Proof.
  intros Hw Hr [Hm [Hin (Hc1 & _ & Hc3)]]. destruct (wf_in _ Hw _ _ Hin) as [u Hu].
  change (net_apply (Part n c why) w) with (left_net w n c). unfold net_line in *.
  destruct (in_chan w (n_self w) c) eqn:Eh; [|by apply right_unheard].
  rewrite (line_for env _ (lit "PART") irc_handle_part) by first [by apply Hm | reflexivity]. set (p := parsed _).
  destruct (parsed_user w n u "PART" [c] why Hu) as (E1 & _ & _ & E4 & _). fold p in E1, E4.
  unfold irc_handle_part, first_param. rewrite E4. change (drop 1 (spaced [c])) with (c ++ spaced []).
  rewrite copy_word_word by done. cbn [fst]. rewrite E1.
  destruct (user_facts w n u Hw Hu) as ((_ & Hl & _) & _ & _ & El).
  apply right_leave; [by apply right_witness|done|done].
Qed.

Lemma right_kick env w st o n c why :
  right_about w st -> net_ok (Kick o n c why) w ->
  right_about (net_apply (Kick o n c why) w)
    (match net_line (Kick o n c why) w with Some m => irc_handle_line version env (irc_format m) st | None => st end).
Proof.
  intros Hr [Hm (Hin & (Hc1 & _ & Hc3) & (Hn1 & Hn2 & _))].
  change (net_apply (Kick o n c why) w) with (left_net w n c). unfold net_line in *.
  destruct (in_chan w (n_self w) c) eqn:Eh; [|by apply right_unheard].
  rewrite (line_for env _ (lit "KICK") irc_handle_kick) by first [by apply Hm | reflexivity]. set (p := parsed _).
  assert (p_params p = c ++ spaced [n]) as E by apply params_of.
  unfold irc_handle_kick. rewrite E, copy_word_word by done. rewrite skip_spaces_spaced by done.
  rewrite copy_word_word by (done || unfold IRC_NICK_SZ in *; lia).
  apply right_leave; [by apply right_witness|done|done].
Qed.

Lemma right_quit env w st n why :
  net_wf w -> right_about w st -> net_ok (Quit n why) w ->
  right_about (net_apply (Quit n why) w)
    (match net_line (Quit n why) w with Some m => irc_handle_line version env (irc_format m) st | None => st end).
Proof.
  intros Hw Hr [Hm [[u Hu] Hs]]. unfold is_bot in Hs. apply caseeq_false in Hs.
  set (w' := net_apply (Quit n why) w).
  assert (forall d, chan_right w d -> chan_right w' d) as HP.
  { intros d Hd. apply in_quit. split; [exact Hd|]. cbn. congruence. }
  assert (forall d m uh, entry_right w d m uh -> lower m <> lower n -> entry_right w' d m uh) as HQ.
  { intros d m uh (H1 & H2 & v & Hv & Huh) Hne. split_and!.
    - apply in_quit. split; [exact H1|]. cbn. congruence.
    - by apply in_quit.
    - exists v. split; [|done]. unfold w'. by rewrite find_quit. }
  unfold net_line in *. destruct (shares w n) eqn:Eh.
  - rewrite (line_for env _ (lit "QUIT") irc_handle_quit) by first [by apply Hm | reflexivity]. set (p := parsed _).
    destruct (parsed_user w n u "QUIT" [] (Some why) Hu) as (E1 & _). fold p in E1.
    unfold irc_handle_quit. rewrite E1. apply (right_witness env p) in Hr. destruct Hr as [T ? ?].
    destruct (user_facts w n u Hw Hu) as (_ & _ & _ & El).
    split; [|done|done]. cbn [on_channels i_channels]. eapply tracked_impl; [|exact HP|done].
    eapply tracked_remove_all; [exact T|]. intros d m uh H Hne. apply HQ; [done|congruence].
  - destruct Hr as [T ? ?]. split; [|done|done]. eapply tracked_impl; [exact T|exact HP|].
    intros d m uh H. apply HQ; [done|]. intros E. destruct H as (H1 & H2 & _).
    assert (shares w n = true); [|congruence]. apply shares_iff. exists d. split; [|done].
    by rewrite <- (in_lower w m n d d).
Qed.

Lemma right_rename env w st n n' t :
  net_wf w -> right_about w st -> net_ok (Rename n n' t) w ->
  right_about (net_apply (Rename n n' t) w)
    (match net_line (Rename n n' t) w with Some m => irc_handle_line version env (irc_format m) st | None => st end).
Proof.
  intros Hw Hr [Hm [[u Hu] (((Hne & Hn1) & Hn2 & _) & Hf)]]. fold (fresh_for w n n') in Hf.
  set (w' := net_apply (Rename n n' t) w).
  assert (forall m d, in_chan w m d = true -> in_chan w' (rename n n' m) d = true) as Hin by (intros; by apply in_rename).
  assert (forall d, chan_right w d -> chan_right w' d) as HP by (intros d Hd; by apply Hin).
  assert (forall d m uh, entry_right w d m uh -> entry_right w' d (rename n n' m) uh) as HQ.
  { intros d m uh (H1 & H2 & v & Hv & Huh). split_and!; [by apply Hin|by apply Hin|].
    exists (renamed n n' v). split; [|done]. unfold w'. rewrite find_rename by (done || by exists v). by rewrite Hv. }
  unfold net_line in *. destruct (is_bot w n || shares w n) eqn:Eh.
  - rewrite (line_for env _ (lit "NICK") irc_handle_nick) by first [by apply Hm | by destruct t]. set (p := parsed _).
    destruct (parsed_argument w n u "NICK" n' t Hu) as (E1 & _ & _ & E4). fold p in E1, E4.
    destruct (user_facts w n u Hw Hu) as ((_ & Hl & _) & _ & _ & El).
    apply (right_witness env p) in Hr. revert Hr. generalize (irc_witness env p st). clear st. intros st Hr.
    unfold irc_handle_nick. rewrite E4, E1. destruct n' as [|x n'']; [done|]. cbv zeta. set (nn := x :: n'') in *.
    rewrite !(strlcpy_fits IRC_NICK_SZ nn) by done.
    set (st1 := on_channels _ st).
    assert (tracked (chan_right w') (entry_right w') (irc_chan_rename_nick (i_channels st) (u_nick u) nn)) as T.
    { destruct Hr as [T _ _]. eapply tracked_impl; [|exact HP|done]. eapply tracked_rename; [exact T| | |].
      - intros d m uh H Hd. rewrite <- (rename_other n nn m) by congruence. by apply HQ.
      - intros d m uh H Hd. rewrite strlcpy_fits by done. rewrite <- (rename_same n nn m) by congruence. by apply HQ.
      - intros d m uh (_ & _ & v & Hv & _) Hd. rewrite strlcpy_fits in Hd by done. rewrite El.
        apply (fresh_other w n nn); [done|by exists v|done]. }
    replace (is_self st1 (u_nick u)) with (is_bot w n).
    2: { transitivity (is_self st (u_nick u)); [|done]. rewrite (self_bot w) by done. unfold is_bot.
         apply eq_true_iff_eq. rewrite !caseeq_iff. by rewrite El. }
    destruct Hr as [_ Hself Hlen]. destruct (is_bot w n) eqn:Eb; (split; [exact T| |]).
    + apply caseeq_iff in Eb. cbn. by rewrite rename_same.
    + done.
    + unfold is_bot in Eb. apply caseeq_false in Eb. cbn. rewrite rename_other by congruence. exact Hself.
    + exact Hlen.
  - apply orb_false_iff in Eh as [Eb Es]. unfold is_bot in Eb. apply caseeq_false in Eb.
    destruct Hr as [T Hself Hlen]. split; [|cbn; by rewrite rename_other by congruence|done].
    eapply tracked_impl; [exact T|exact HP|]. intros d m uh H. rewrite <- (rename_other n n' m); [by apply HQ|].
    intros E. destruct H as (H1 & H2 & _). assert (shares w n = true); [|congruence]. apply shares_iff.
    exists d. split; [|done]. by rewrite <- (in_lower w m n d d).
Qed.

Lemma right_talk env w st n target text :
  net_wf w -> right_about w st -> net_ok (Talk n target text) w ->
  right_about w (irc_handle_line version env (irc_format (msg (origin_of w n) "PRIVMSG" [target] (Some text))) st).
Proof.
  intros Hw Hr [Hm [u Hu]].
  rewrite (line_for env _ (lit "PRIVMSG") irc_handle_privmsg) by first [by apply Hm | reflexivity]. set (p := parsed _).
  destruct (parsed_user w n u "PRIVMSG" [target] (Some text) Hu) as (E1 & E2 & E3 & _). fold p in E1, E2, E3.
  eapply right_roster; [apply privmsg_roster|]. by eapply right_seen; [..|apply right_witness].
Qed.

(** *** NAMES *)

Definition flagged (fn : cstr * cstr) : cstr := fn.1 ++ fn.2.

Lemma flagged_start fl n s :
  nick_ok n -> forallb is_mode_prefix fl = true ->
  skip_spaces (fl ++ n ++ s) = fl ++ n ++ s /\ skip_while is_mode_prefix (fl ++ n ++ s) = n ++ s.
Proof.
  intros ((Hn1 & Hn2 & _) & _ & _ & Hp) Hf. rewrite forallb_forall in Hf. destruct n as [|x n]; [done|]. split.
  - unfold skip_spaces. destruct fl as [|y fl]; cbn [app]; apply skip_while_stop; unfold is_space_chr; apply ceqb_false.
    + intros ->. apply Hn2. by left.
    + intros ->. specialize (Hf " "%char (or_introl eq_refl)). done.
  - apply (span_app_stop is_mode_prefix fl ((x :: n) ++ s)); [|exact Hp].
    by apply List.Forall_forall.
Qed.

Lemma names_sound turns ns x f :
  Forall (fun fn => nick_ok fn.2 /\ forallb is_mode_prefix fn.1 = true) ns ->
  In (x, f) (names_loop turns (spaced (map flagged ns))) -> In x (map snd ns).
Proof.
  intros H. revert turns. induction H as [|[fl n] ns [Hn Hf] _ IH]; intros [|turns] Hin; try done.
  cbn [map spaced] in Hin. unfold flagged at 1 in Hin. cbn [fst snd] in *. cbn [names_loop] in Hin.
  replace (skip_spaces (lit " " ++ (fl ++ n) ++ spaced (map flagged ns))) with (fl ++ n ++ spaced (map flagged ns)) in Hin.
  2: { rewrite <- app_assoc. symmetry. apply (flagged_start fl n (spaced (map flagged ns)) Hn Hf). }
  destruct (fl ++ n ++ spaced (map flagged ns)) as [|y s] eqn:E; [done|]. rewrite <- E in Hin.
  rewrite (proj2 (flagged_start fl n _ Hn Hf)) in Hin. destruct Hn as (Hw & Hl & _).
  rewrite copy_word_word in Hin by (done || unfold IRC_NICK_SZ in *; lia).
  destruct n as [|z n]; [by destruct Hw|]. destruct Hin as [[= <- _]|Hin]; [by left|right]. by eapply IH.
Qed.

Lemma names_first turns ws : names_loop turns (drop 1 (spaced ws)) = names_loop turns (spaced ws).
Proof. destruct turns as [|turns]; [done|]. by destruct ws. Qed.

Lemma add_named_who channel chs nf : who (add_named channel chs nf) = who (irc_chan_add_nick chs channel nf.1).
Proof.
  unfold add_named. case_step; [done|]. destruct (irc_chan_find _ _); [|done]. apply who_alter.
  intros ch. by apply alter_flags_members.
Qed.

Lemma tracked_names w c l chs :
  net_wf w -> chan_right w c -> (length c <= IRC_CHAN_SZ)%nat ->
  (forall x f, In (x, f) l -> in_chan w x c = true /\ (length x < IRC_NICK_SZ)%nat) ->
  tracked (chan_right w) (entry_right w) chs ->
  tracked (chan_right w) (entry_right w) (fold_left (add_named c) l chs).
Proof.
  intros Hw Hc Hl. revert chs. induction l as [|[x f] l IH]; intros chs H T; [done|]. cbn [fold_left].
  apply IH; [intros y g Hy; apply (H y g); by right|]. eapply tracked_who; [apply add_named_who|].
  destruct (H x f (or_introl eq_refl)) as [Hx Hxl]. cbn [fst]. apply tracked_add; try done.
  - split_and!; [exact Hc|exact Hx|]. destruct (wf_in _ Hw _ _ Hx) as [u Hu]. exists u. split; [done|by left].
  - apply entry_case.
Qed.

Lemma skip_to_chan s c t :
  forallb (fun x => negb (is_chan_chr x)) s = true -> is_chan_chr (deref c) = true -> c <> [] ->
  skip_while (fun x => negb (is_chan_chr x)) (s ++ c ++ t) = c ++ t.
Proof.
  intros Hs Hc Hne. rewrite forallb_forall in Hs.
  apply (span_app_stop (fun x => negb (is_chan_chr x)) s (c ++ t)).
  - by apply List.Forall_forall.
  - destruct c as [|x c]; [done|]. cbn in *. by rewrite Hc.
Qed.

Lemma right_names env w st server c ns :
  net_wf w -> right_about w st -> net_ok (Names server c ns) w ->
  right_about (net_apply (Names server c ns) w)
    (match net_line (Names server c ns) w with Some m => irc_handle_line version env (irc_format m) st | None => st end).
Proof.
  intros Hw Hr [Hm (Hself & (Hc1 & Hc2 & Hc3) & Hns)]. cbn [net_line net_apply] in *.
  rewrite (line_for env _ (lit "353") irc_handle_namreply) by first [by apply Hm | reflexivity]. set (p := parsed _).
  assert (p_params p = n_self w ++ spaced [lit "="; c]) as Ep by apply params_of.
  assert (p_has_trailing p = true /\ p_trailing p = drop 1 (spaced (map flagged ns))) as [Eh Et] by done.
  assert (p_params p = (n_self w ++ lit " = ") ++ c ++ []) as Ep' by (rewrite Ep, <- app_assoc; done).
  unfold irc_handle_namreply. rewrite Ep', skip_to_chan; [| |done|by destruct Hc1].
  2: { rewrite forallb_app. apply andb_true_iff. split; [|done]. by destruct (wf_nick _ Hw) as (_ & _ & ? & _). }
  rewrite app_nil_r, Eh. cbn [negb]. destruct c as [|x c']; [by destruct Hc1|]. set (c := x :: c') in *.
  replace (copy_word IRC_CHAN_SZ c) with (c, spaced [])
    by (pose proof (copy_word_word IRC_CHAN_SZ c [] Hc1 Hc3) as Ec; by rewrite app_nil_r in Ec).
  cbn [fst]. apply (right_witness env p) in Hr. destruct Hr as [T ? ?]. split; [|done|done].
  cbn [on_channels i_channels]. apply tracked_names; [done|done|done| |done].
  rewrite Et, names_first. intros y f Hin. apply names_sound in Hin.
  - apply in_map_iff in Hin as ([fl n] & <- & Hin). apply (proj1 (List.Forall_forall _ _) Hns) in Hin as (H1 & (_ & H2 & _) & _).
    by split.
  - eapply List.Forall_impl; [|exact Hns]. by intros fn (_ & ? & ?).
Qed.

(** *** WHO *)

Lemma who_step turns x v ws field user host :
  word_ok x ->
  who_loop (S turns) (x ++ spaced (v :: ws)) field user host
  = if (field =? 5)%nat && (length x <? IRC_NICK_SZ)%nat then (user, host, x)
    else who_loop turns (v ++ spaced ws) (S field)
           (if (field =? 2)%nat && (length x <? IRC_NICK_SZ)%nat then x else user)
           (if (field =? 3)%nat && (length x <? IRC_HOST_SZ)%nat then x else host).
Proof.
  intros (H1 & H2 & _). destruct (span_word x (spaced (v :: ws)) H2 (spaced_start _)) as [E _].
  destruct x as [|y x]; [done|]. set (t := (y :: x) ++ spaced (v :: ws)) in *.
  assert (drop (length (y :: x)) t = spaced (v :: ws)) as Ed by (unfold t; apply drop_app_length).
  cbn [app] in t. unfold t at 1. cbn [who_loop]. fold t. rewrite E, Ed. done.
Qed.

Lemma right_whoreply env w st server n c rest :
  net_wf w -> right_about w st -> net_ok (Who server n c rest) w ->
  right_about (net_apply (Who server n c rest) w)
    (match net_line (Who server n c rest) w with Some m => irc_handle_line version env (irc_format m) st | None => st end).
Proof.
  intros Hw Hr [Hm [u Hu]]. cbn [net_line net_apply] in *. rewrite Hu in *.
  rewrite (line_for env _ (lit "352") irc_handle_whoreply) by first [by apply Hm | reflexivity]. set (p := parsed _).
  specialize (Hm _ eq_refl). destruct Hm as (_ & _ & _ & Hps & _). cbn [msg msg_params] in Hps.
  assert (p_params p = n_self w ++ spaced [c; u_user u; u_host u; server; u_nick u; lit "H"]) as Ep by apply params_of.
  destruct (find_Some _ _ _ Hu) as [Hin _]. destruct (wf_user _ Hw u Hin) as (Hn & Hu1 & Hh1 & Hul & Hhl).
  repeat match goal with H : Forall _ (_ :: _) |- _ => pose proof (Forall_inv H); apply Forall_inv_tail in H end.
  assert (exists k, length (p_params p) = S (S (S (S (S (S k)))))) as [k Ek].
  { rewrite Ep. repeat match goal with H : word_ok ?x |- _ => destruct H as (H & _ & _) end.
    exists (length (p_params p) - 6)%nat. rewrite Ep. rewrite !length_app. cbn [spaced]. rewrite !length_app. cbn.
    repeat match goal with H : ?x <> [] |- _ => destruct x; [done|]; clear H end. cbn. lia. }
  unfold irc_handle_whoreply. rewrite Ek, Ep. destruct Hn as (Hnw & Hnl & _).
  rewrite !who_step by done. cbn [Nat.eqb andb].
  rewrite (proj2 (Nat.ltb_lt (length (u_user u)) _)), (proj2 (Nat.ltb_lt (length (u_host u)) _)),
    (proj2 (Nat.ltb_lt (length (u_nick u)) _)) by done.
  apply (right_witness env p) in Hr. destruct Hr as [T ? ?].
  destruct (u_user u) as [|a us] eqn:Ea; [done|]. destruct (u_host u) as [|b hs] eqn:Eb; [done|].
  destruct (u_nick u) as [|d nk] eqn:Ed; [by destruct Hnw|]. split; [|done|done].
  cbn [on_channels i_channels]. rewrite <- Ea, <- Eb, <- Ed. by eapply tracked_see.
Qed.

(** *** Everything else *)

Lemma welcome_roster env p st : roster (irc_handle_welcome env p st) = roster st.
Proof.
  unfold irc_handle_welcome. cbv zeta. eapply eq_trans; [eapply speaks_roster, join_channels_speaks|].
  repeat case_step; rewrite ?send_roster; done.
Qed.

Lemma other_who cmd h env p st :
  In (cmd, h) (irc_cmd_table version) -> cmd ∉ roster_commands -> same_who st (h env p st).
Proof.
  intros H Hc. unfold irc_cmd_table in H.
  repeat destruct H as [[= <- <-]|H]; try done;
    try (exfalso; apply Hc; by apply (bool_decide_unpack _));
    first [ apply handle_topic_who | apply handle_topic332_who | apply handle_endnames_who | apply handle_mode_who
          | (eapply same_who_roster; [apply welcome_roster|done])
          | (eapply same_who_roster; [apply send_roster|done]) | done ].
Qed.

Lemma right_other env w st m :
  right_about w st -> net_ok (Other m) w -> right_about w (irc_handle_line version env (irc_format m) st).
Proof.
  intros Hr [Hm Hc]. rewrite line_handled by by apply Hm. apply (right_witness env (parsed m)) in Hr.
  destruct (List.find _ _) as [[cmd h]|] eqn:E; [|done]. apply find_some in E as [Hin E]. cbn in E.
  apply seqb_true in E. subst cmd. eapply right_who; [|exact Hr]. eapply other_who; [exact Hin|exact Hc].
Qed.

(** *** Runs *)

(** The bot's part in an event: it handles the line, if one is sent. *)
Definition hear (env : irc_env) (ev : net_event) (w : net) (st : irc_state_t) : irc_state_t :=
  match net_line ev w with Some m => irc_handle_line version env (irc_format m) st | None => st end.

Fixpoint net_run (evs : list (irc_env * net_event)) (w : net) (st : irc_state_t) : net * irc_state_t :=
  match evs with
  | [] => (w, st)
  | (env, ev) :: evs => net_run evs (net_apply ev w) (hear env ev w st)
  end.

Fixpoint net_oks (evs : list (irc_env * net_event)) (w : net) : Prop :=
  match evs with
  | [] => True
  | (_, ev) :: evs => net_ok ev w /\ net_oks evs (net_apply ev w)
  end.

Lemma right_step env ev w st :
  net_wf w -> right_about w st -> net_ok ev w -> right_about (net_apply ev w) (hear env ev w st).
Proof.
  intros Hw Hr Hok. unfold hear. destruct ev.
  - by apply right_arrive.
  - by apply right_join.
  - by apply right_part.
  - by apply right_kick.
  - by apply right_quit.
  - by apply right_rename.
  - by apply right_talk.
  - by apply right_names.
  - by apply right_whoreply.
  - by apply right_other.
Qed.

Lemma right_run evs w st :
  net_wf w -> right_about w st -> net_oks evs w ->
  net_wf (net_run evs w st).1 /\ right_about (net_run evs w st).1 (net_run evs w st).2.
Proof.
  revert w st. induction evs as [|[env ev] evs IH]; intros w st Hw Hr Hok; [done|]. destruct Hok as [Hok Hoks].
  apply IH; [by apply net_step_wf|by apply right_step|done].
Qed.

(** What the table answers is one of its entries. *)
Lemma known_entry nick ch uh :
  known_userhost nick ch = Some uh ->
  exists m, In m (c_members ch) /\ lower (m_nick m) = lower nick /\ m_userhost m = uh /\ uh <> [].
Proof.
  unfold known_userhost, irc_member_find. intros H.
  destruct (find_index (nicked nick) (c_members ch)) as [i|] eqn:Ei; [|done]. cbn [mbind option_bind] in H.
  destruct (c_members ch !! i) as [m|] eqn:Em; [|done]. cbn [mbind option_bind] in H.
  assert (nicked nick m = true) as Hn.
  { clear H. revert i Ei Em. induction (c_members ch) as [|m0 ms IH]; intros i Ei Em; [done|]. cbn in Ei.
    destruct (nicked nick m0) eqn:E0; [injection Ei as <-; by injection Em as <-|].
    destruct (find_index (nicked nick) ms) as [j|]; [|done]. injection Ei as <-. by apply (IH j). }
  exists m. destruct (m_userhost m) eqn:Eu; [done|]. injection H as <-. split_and!; [|by apply caseeq_iff|done|done].
  apply list_elem_of_In. by eapply list_elem_of_lookup_2.
Qed.

Lemma first_known_entry nick chs uh :
  first_known nick chs = Some uh ->
  exists ch m, In ch chs /\ In m (c_members ch) /\ lower (m_nick m) = lower nick /\ m_userhost m = uh /\ uh <> [].
Proof.
  induction chs as [|ch chs IH]; [done|]. cbn [first_known]. destruct (known_userhost nick ch) as [uh'|] eqn:E.
  - intros [= <-]. apply known_entry in E as (m & ?). exists ch, m. split; [by left|done].
  - intros H. destruct (IH H) as (ch' & m & ? & ?). exists ch', m. split; [by right|done].
Qed.

(** C11: whatever happens on the network, and whatever else the server says, the driver
    that handled the lines it was sent knows nobody wrongly: the user@host it answers for
    a nick is that of the user who has the nick now, never of one who left or renamed;
    and a user@host it reports present is that of a user who shares a channel with the
    bot now. *)
Theorem irc_roster_sound evs w st :
  net_wf w -> i_channels st = [] -> lower (i_cur_nick st) = lower (n_self w) ->
  (length (i_cur_nick st) < IRC_NICK_SZ)%nat -> net_oks evs w ->
  let '(w', st') := net_run evs w st in
  (forall nick sz uh, irc_get_context nick sz st' = Some uh ->
     exists u, find_user w' nick = Some u /\ uh = strlcpy sz (userhost_of (u_user u) (u_host u)))
  /\ (forall key, irc_identity_present key st' = true ->
        exists u, In u (n_users w') /\ shares w' (u_nick u) = true
          /\ lower (userhost_of (u_user u) (u_host u)) = lower key).
Proof.
  intros Hw Hc Hn Hl Hok. assert (right_about w st) as Hr.
  { split; [|done|done]. rewrite Hc. split; [split; [constructor|constructor]|done|done]. }
  destruct (right_run evs w st Hw Hr Hok) as [Hw' [[U C T] _ _]]. destruct (net_run evs w st) as [w' st'].
  cbn [fst snd] in *. split.
  - intros nick sz uh H. unfold irc_get_context, irc_user_userhost in H. destruct nick as [|x nick]; [done|].
    destruct sz as [|sz]; [done|]. destruct (first_known _ _) as [uh0|] eqn:E; [|done]. injection H as <-.
    apply first_known_entry in E as (ch & m & Hch & Hm & En & Eu & Hne). destruct (T ch m Hch Hm) as (_ & _ & u & Hu & Huh).
    exists u. split; [by rewrite <- (find_lower w' (m_nick m))|]. destruct Huh as [Huh|Huh]; congruence.
  - intros key H. unfold irc_identity_present, irc_userhost_present in H. destruct key as [|x key]; [done|].
    apply existsb_exists in H as (ch & Hch & H). apply existsb_exists in H as (m & Hm & H).
    destruct (T ch m Hch Hm) as (H1 & H2 & u & Hu & Huh). destruct (find_Some _ _ _ Hu) as [Hin Eu].
    exists u. split_and!; [done| |].
    + apply shares_iff. exists (c_name ch). split; [|done]. by rewrite (in_lower w' _ (m_nick m) _ (c_name ch)).
    + destruct (m_userhost m) as [|y uh]; [done|]. apply caseeq_iff in H. destruct Huh as [Huh|Huh]; congruence.
Qed.
End lines.

(** ** A network to try things on *)

#[export] Instance word_ok_dec w : Decision (word_ok w).
Proof. unfold word_ok. apply _. Defined.

#[export] Instance origin_ok_dec o : Decision (origin_ok o).
Proof. destruct o; cbn [origin_ok]; apply _. Defined.

#[export] Instance message_ok_dec m : Decision (message_ok m).
Proof. unfold message_ok. destruct (msg_trailing m); apply _. Defined.

#[export] Instance nick_ok_dec n : Decision (nick_ok n).
Proof. unfold nick_ok. apply _. Defined.

#[export] Instance chan_ok_dec c : Decision (chan_ok c).
Proof. unfold chan_ok. apply _. Defined.

(** [net_ok] as something to evaluate. *)
Definition net_okb (ev : net_event) (w : net) : bool :=
  match net_line ev w with Some m => bool_decide (message_ok m) | None => true end
  && match ev with
     | Arrive u =>
         bool_decide (find_user w (u_nick u) = None) && bool_decide (nick_ok (u_nick u)) && bool_decide (u_user u <> [])
         && bool_decide (u_host u <> []) && (length (u_user u) <? IRC_NICK_SZ)%nat && (length (u_host u) <? IRC_HOST_SZ)%nat
     | Join n c _ => bool_decide (find_user w n <> None) && bool_decide (chan_ok c)
     | Part n c _ => in_chan w n c && bool_decide (chan_ok c)
     | Kick _ n c _ => in_chan w n c && bool_decide (chan_ok c) && bool_decide (nick_ok n)
     | Quit n _ => bool_decide (find_user w n <> None) && negb (is_bot w n)
     | Rename n n' _ =>
         bool_decide (find_user w n <> None) && bool_decide (nick_ok n')
         && (bool_decide (find_user w n' = None) || strcaseeq n' n)
     | Talk n _ _ => bool_decide (find_user w n <> None)
     | Names _ c ns =>
         in_chan w (n_self w) c && bool_decide (chan_ok c)
         && forallb (fun fn => in_chan w fn.2 c && bool_decide (nick_ok fn.2) && forallb is_mode_prefix fn.1) ns
     | Who _ n c _ => bool_decide (find_user w n <> None)
     | Other m => bool_decide (msg_command m ∉ roster_commands)
     end.

Lemma net_okb_sound ev w : net_okb ev w = true -> net_ok ev w.
Proof.
  unfold net_okb, net_ok. intros [Hl H]%andb_true_iff. split.
  - intros m E. rewrite E in Hl. by apply bool_decide_eq_true in Hl.
  - destruct ev; breflect; rewrite ?not_eq_None_Some in *; try done.
    + split; [done|]. split; [done|]. apply orb_true_iff in H0 as [H0|H0]; [left; by breflect|right; by apply caseeq_iff].
    + split_and!; try done. apply List.Forall_forall. intros fn Hfn. rewrite forallb_forall in H0.
      apply H0 in Hfn. by breflect.
Qed.

Fixpoint net_oksb (evs : list (irc_env * net_event)) (w : net) : bool :=
  match evs with
  | [] => true
  | (_, ev) :: evs => net_okb ev w && net_oksb evs (net_apply ev w)
  end.

Lemma net_oksb_sound evs w : net_oksb evs w = true -> net_oks evs w.
Proof.
  revert w. induction evs as [|[env ev] evs IH]; intros w; cbn [net_oksb net_oks]; [done|].
  intros [H1 H2]%andb_true_iff. split; [by apply net_okb_sound|by apply IH].
Qed.

Definition u_bot : user_t := {| u_nick := lit "bot"; u_user := lit "b"; u_host := lit "bot.example" |}.
Definition u_alice : user_t := {| u_nick := lit "alice"; u_user := lit "al"; u_host := lit "home.example" |}.
Definition u_eve : user_t := {| u_nick := lit "eve"; u_user := lit "ev"; u_host := lit "evil.example" |}.

Definition small_net : net := {| n_users := [u_bot]; n_in := []; n_self := lit "bot" |}.

Lemma small_net_wf : net_wf small_net.
Proof.
  split.
  - apply (bool_decide_unpack _). done.
  - intros u [<-|[]]. by apply (bool_decide_unpack _).
  - intros n c H. done.
  - by eexists.
  - by apply (bool_decide_unpack _).
Qed.

(** Alice, known from a WHO, gives her nick away; Eve takes it, in another case. *)
Definition small_run : list net_event :=
  [Arrive u_alice; Arrive u_eve; Join (lit "alice") (lit "#c") false; Join (lit "bot") (lit "#c") true;
   Names (lit "irc.example") (lit "#c") [(lit "@", lit "alice"); ([], lit "bot")];
   Who (lit "irc.example") (lit "alice") (lit "#c") (lit "0 Alice");
   Rename (lit "alice") (lit "al") true; Rename (lit "eve") (lit "ALICE") true;
   Join (lit "ALICE") (lit "#C") false; Talk (lit "al") (lit "#c") (lit "hello")].

Definition small_events : list (irc_env * net_event) := map (fun ev => (idle_env, ev)) small_run.

Lemma irc_roster_sound_witness :
  let '(w, st) := net_run [] small_events small_net sample_irc in
  (forall nick sz uh, irc_get_context nick sz st = Some uh ->
     exists u, find_user w nick = Some u /\ uh = strlcpy sz (userhost_of (u_user u) (u_host u)))
  /\ irc_get_context (lit "al") 290 st = Some (lit "al@home.example")
  /\ irc_get_context (lit "alice") 290 st = Some (lit "ev@evil.example").
Proof.
  assert (net_oks small_events small_net) as Hok by (apply net_oksb_sound; by vm_compute).
  assert (length (i_cur_nick sample_irc) < IRC_NICK_SZ)%nat as Hl by by apply Nat.ltb_lt.
  pose proof (irc_roster_sound [] small_events small_net sample_irc small_net_wf eq_refl eq_refl Hl Hok) as H.
  assert (irc_get_context (lit "al") 290 (net_run [] small_events small_net sample_irc).2 = Some (lit "al@home.example")
    /\ irc_get_context (lit "alice") 290 (net_run [] small_events small_net sample_irc).2 = Some (lit "ev@evil.example"))
    as Hc by (split; by vm_compute).
  destruct (net_run [] small_events small_net sample_irc) as [w st]. split; [exact (proj1 H)|exact Hc].
Defined.
