(* ===== verification/Conc.v ===== *)
(** * Threads that run C functions

    A function of the program that takes and releases locks on its way is a [prog]: a
    sequence of actions, each one critical section or one access to shared memory outside
    any lock, with what other threads do in between. An action is a function of the
    memory and of what the environment answers it. A machine runs any number of such
    threads in any order, and starts new ones from the entry points of the program.

    To show that a machine never does what C leaves undefined, a thread is given the
    references it holds, as ghost tokens: [wp p Q t] says that [p], started with the
    tokens [t], keeps the invariant of the memory at every action, whatever tokens the
    other threads hold, and ends with a value and tokens as [Q] wants. *)

From S2P Require Import Prelude.

(** ** Programs *)

Inductive prog (W A R : Type) : Type :=
| Ret (r : R)
| Act {B : Type} (f : A -> W -> outcome (W * B)) (k : B -> prog W A R).
Arguments Ret {W A R} r.
Arguments Act {W A R B} f k.

Fixpoint prog_bind {W A R R'} (f : R -> prog W A R') (p : prog W A R) : prog W A R' :=
  match p with
  | Ret r => f r
  | Act g k => Act g (fun b => prog_bind f (k b))
  end.

#[export] Instance prog_mret W A : MRet (prog W A) := fun R r => Ret r.
#[export] Instance prog_mbind W A : MBind (prog W A) := fun R R' => prog_bind.

(** One action. *)
Definition act {W A B} (f : A -> W -> outcome (W * B)) : prog W A B := Act f Ret.

Definition skip {W A} : prog W A unit := Ret tt.

(** [if(b) p] *)
Definition when {W A} (b : bool) (p : prog W A unit) : prog W A unit := if b then p else skip.

(** ** The machine *)

Section machine.
Context {W A Root : Type} (code : Root -> prog W A unit).

Inductive mevent :=
| Spawn (r : Root)          (* a thread enters the program *)
| Step (i : nat) (a : A).   (* thread [i] does its next action, which is answered [a] *)

Definition mstate : Type := W * list (prog W A unit).

Definition mstep (e : mevent) (m : mstate) : outcome mstate :=
  match e with
  | Spawn r => Ok (m.1, m.2 ++ [code r])
  | Step i a =>
      match m.2 !! i with
      | Some (Act f k) =>
          match f a m.1 with
          | Ok (w, b) => Ok (w, <[i := k b]> m.2)
          | Blocked => Blocked
          | Fault => Fault
          end
      | _ => Blocked
      end
  end.

Fixpoint mrun (es : list mevent) (m : mstate) : outcome mstate :=
  match es with
  | [] => Ok m
  | e :: es' => match mstep e m with Ok m' => mrun es' m' | Blocked => Blocked | Fault => Fault end
  end.
End machine.

(** ** Tokens *)

Section wp.
Context {W A T : Type} (inv : W -> list T -> Prop).
Hypothesis inv_perm : forall w t t', t ≡ₚ t' -> inv w t -> inv w t'.

(** An action with the tokens [t] among those of the whole machine. *)
Definition act_ok {B} (f : A -> W -> outcome (W * B)) (Q : B -> list T -> Prop) (t : list T) : Prop :=
  forall a w R, inv w (t ++ R) ->
  match f a w with
  | Ok (w', b) => exists t', Q b t' /\ inv w' (t' ++ R)
  | Blocked => True
  | Fault => False
  end.

Fixpoint wp {R} (p : prog W A R) (Q : R -> list T -> Prop) (t : list T) : Prop :=
  match p with
  | Ret r => Q r t
  | Act f k => act_ok f (fun b t' => wp (k b) Q t') t
  end.

Lemma act_ok_mono {B} (f : A -> W -> outcome (W * B)) (Q Q' : B -> list T -> Prop) t :
  (forall b t', Q b t' -> Q' b t') -> act_ok f Q t -> act_ok f Q' t.
Proof.
  intros HQ H a w R Hi. specialize (H a w R Hi). destruct (f a w) as [[w' b]| |]; [|done..].
  destruct H as (t' & Ht & Hi'). eauto.
Qed.

Lemma wp_mono {R} (p : prog W A R) (Q Q' : R -> list T -> Prop) t :
  (forall r t', Q r t' -> Q' r t') -> wp p Q t -> wp p Q' t.
Proof.
  intros HQ. revert t. induction p as [r|B f k IH]; intros t; [apply HQ|].
  apply act_ok_mono. intros b t'. apply IH.
Qed.

Lemma wp_bind {R R'} (p : prog W A R) (f : R -> prog W A R') Q t :
  wp p (fun r t' => wp (f r) Q t') t -> wp (p ≫= f) Q t.
Proof.
  revert t. induction p as [r|B g k IH]; intros t; [done|].
  apply act_ok_mono. intros b t'. apply IH.
Qed.

Lemma wp_act {B} (f : A -> W -> outcome (W * B)) Q t : act_ok f Q t -> wp (act f) Q t.
Proof. apply act_ok_mono. done. Qed.

(** A thread may hold more than the function needs. *)
Lemma act_ok_frame {B} (f : A -> W -> outcome (W * B)) Q t F :
  act_ok f Q t -> act_ok f (fun b u => exists t', u = t' ++ F /\ Q b t') (t ++ F).
Proof.
  intros H a w R Hi. rewrite <- app_assoc in Hi. specialize (H a w _ Hi).
  destruct (f a w) as [[w' b]| |]; [|done..]. destruct H as (t' & Ht & Hi').
  exists (t' ++ F). rewrite <- app_assoc. eauto.
Qed.

Lemma wp_frame {R} (p : prog W A R) Q t F :
  wp p Q t -> wp p (fun r u => exists t', u = t' ++ F /\ Q r t') (t ++ F).
Proof.
  revert t. induction p as [r|B f k IH]; intros t H; [by exists t|].
  eapply act_ok_mono; [|by apply act_ok_frame]. intros b u (t' & -> & H'). by apply IH.
Qed.

(** Whoever has done something may end with less than it has. *)
Definition acts {R} (p : prog W A R) : Prop := match p with Act _ _ => True | Ret _ => False end.

Lemma wp_forget {R} (p : prog W A R) (Q Q' : R -> list T -> Prop) t :
  (forall r u, Q r u -> exists u', Q' r u' /\ forall w F, inv w (u ++ F) -> inv w (u' ++ F)) ->
  acts p -> wp p Q t -> wp p Q' t.
Proof.
  intros HQ Ha H. destruct p as [|B f k]; [done|]. clear Ha. revert B f k t H.
  assert (G : forall (p : prog W A R) t, wp p Q t -> exists t', wp p Q' t' /\ forall w F, inv w (t ++ F) -> inv w (t' ++ F)).
  { induction p as [r|B f k IH]; intros t H; [by apply HQ|]. exists t. split; [|done]. intros a w F Hi. specialize (H a w F Hi).
    destruct (f a w) as [[w' b]| |]; [|done..]. destruct H as (t1 & Hk & Hi'). destruct (IH b t1 Hk) as (t2 & Hk2 & Hf). eauto. }
  intros B f k t H a w F Hi. specialize (H a w F Hi). destruct (f a w) as [[w' b]| |]; [|done..].
  destruct H as (t1 & Hk & Hi'). destruct (G (k b) t1 Hk) as (t2 & Hk2 & Hf). eauto.
Qed.

(** The order of tokens says nothing. *)
Lemma act_ok_perm {B} (f : A -> W -> outcome (W * B)) Q t t' : t ≡ₚ t' -> act_ok f Q t -> act_ok f Q t'.
Proof.
  intros Hp H a w R Hi. apply H. eapply inv_perm; [|exact Hi]. by rewrite Hp.
Qed.

Lemma wp_perm {R} (p : prog W A R) (Q : R -> list T -> Prop) t t' :
  (forall r u u', u ≡ₚ u' -> Q r u -> Q r u') -> t ≡ₚ t' -> wp p Q t -> wp p Q t'.
Proof.
  intros HQ Hp. destruct p as [r|B f k]; [by apply HQ|]. by apply act_ok_perm.
Qed.

(** ** Soundness *)

Context {Root : Type} (code : Root -> prog W A unit).

(** An entry point that is used starts without a reference and ends without one. *)
Variable used : Root -> Prop.
Hypothesis code_ok : forall r, used r -> wp (code r) (fun _ t => t = []) [].

Definition only_used (e : mevent (A := A)) : Prop := match e with Spawn r => used r | Step _ _ => True end.

Definition threads_ok (ts : list (list T)) (ps : list (prog W A unit)) : Prop :=
  Forall2 (fun t p => wp p (fun _ u => u = []) t) ts ps.

(** What holds of a machine between two actions. *)
Definition machine_ok (m : mstate (W := W) (A := A)) : Prop :=
  exists ts, threads_ok ts m.2 /\ inv m.1 (concat ts).

Lemma concat_take_drop (ts : list (list T)) i t :
  ts !! i = Some t -> concat ts ≡ₚ t ++ concat (take i ts ++ drop (S i) ts).
Proof.
  intros H. rewrite <- (take_drop_middle ts i t H) at 1.
  rewrite !concat_app. cbn [concat]. rewrite !app_assoc. f_equiv. apply Permutation_app_comm.
Qed.

Lemma tokens_insert (ts : list (list T)) i t t' :
  ts !! i = Some t -> concat (<[i:=t']> ts) ≡ₚ t' ++ concat (take i ts ++ drop (S i) ts).
Proof.
  intros H. apply lookup_lt_Some in H as Hl.
  rewrite (concat_take_drop _ i t') by (by apply list_lookup_insert_eq).
  by rewrite take_insert_ge, drop_insert_lt by lia.
Qed.

Lemma mstep_ok e m :
  only_used e -> machine_ok m ->
  match mstep code e m with Ok m' => machine_ok m' | Blocked => True | Fault => False end.
Proof.
  intros Hu (ts & Ht & Hi). destruct e as [r|i a]; cbn [mstep].
  - exists (ts ++ [[]]). split.
    + apply Forall2_app; [done|]. constructor; [by apply code_ok|constructor].
    + cbn [fst]. by rewrite concat_app, app_nil_r.
  - destruct (m.2 !! i) as [[r|B f k]|] eqn:Ep; try done.
    destruct (Forall2_lookup_r _ _ _ _ _ Ht Ep) as (t & Et & Hw). cbn [wp] in Hw.
    specialize (Hw a m.1 (concat (take i ts ++ drop (S i) ts))).
    eapply inv_perm in Hi; [|by apply (concat_take_drop _ _ _ Et)]. specialize (Hw Hi).
    destruct (f a m.1) as [[w' b]| |]; [|done..]. destruct Hw as (t' & Hk & Hi').
    exists (<[i:=t']> ts). split; [by apply Forall2_insert|].
    cbn [fst]. eapply inv_perm; [|exact Hi']. symmetry. by eapply tokens_insert.
Qed.

Lemma mrun_ok es : forall m, Forall only_used es -> machine_ok m ->
  match mrun code es m with Ok m' => machine_ok m' | Blocked => True | Fault => False end.
Proof.
  induction es as [|e es IH]; intros m Hu Hm; [done|]. cbn [mrun].
  pose proof (mstep_ok e m (Forall_inv Hu) Hm) as H.
  destruct (mstep code e m) as [m'| |]; [apply IH; [by apply Forall_inv_tail in Hu|done]|done..].
Qed.

(** A machine in which every thread has ended holds no reference. *)
Lemma machine_ended m :
  machine_ok m -> Forall (fun p => exists r, p = Ret r) m.2 -> inv m.1 [].
Proof.
  intros (ts & Ht & Hi) He. assert (E : concat ts = []); [|by rewrite E in Hi].
  clear Hi. revert He. induction Ht as [|t p ts ps Hp Ht IH]; intros He; [done|].
  destruct (Forall_inv He) as [r ->]. cbn [wp] in Hp. subst t. cbn [concat app].
  apply IH. by apply Forall_inv_tail in He.
Qed.
End wp.

(** ** A program inside another's memory

    What a layer of the program does to its own memory, in the memory of the whole. The
    tokens of the layer are some of the whole's, and the whole keeps some of them itself. *)

Section layer.
Context {W W' A T T' : Type} (low : W' -> W) (up : W -> W' -> W') (inj : list T -> list T').

Definition lift_act {B} (f : A -> W -> outcome (W * B)) (a : A) (w : W') : outcome (W' * B) :=
  match f a (low w) with
  | Ok (x, b) => Ok (up x w, b)
  | Blocked => Blocked
  | Fault => Fault
  end.

Fixpoint lift {R} (p : prog W A R) : prog W' A R :=
  match p with
  | Ret r => Ret r
  | Act f k => Act (lift_act f) (fun b => lift (k b))
  end.

Context (inv : W -> list T -> Prop) (inv' : W' -> list T' -> Prop).
Hypothesis layered : forall w t R, inv' w (inj t ++ R) ->
  exists F, inv (low w) (t ++ F) /\ forall x t', inv x (t' ++ F) -> inv' (up x w) (inj t' ++ R).

Lemma wp_lift {R} (p : prog W A R) Q t :
  wp inv p Q t -> wp inv' (lift p) (fun r u => exists t', u = inj t' /\ Q r t') (inj t).
Proof.
  revert t. induction p as [r|B f k IH]; intros t H; [by exists t|].
  intros a w U Hw. destruct (layered _ _ _ Hw) as (F & Hi & Hback). specialize (H a (low w) F Hi). unfold lift_act.
  destruct (f a (low w)) as [[x b]| |]; [|done..]. destruct H as (t' & Hk & Hi').
  exists (inj t'). split; [by apply IH|by apply Hback].
Qed.
End layer.
