(* ===== verification/Sock.v ===== *)
(** * The socket service: core/sock.c

    Sessions: their references, the descriptor a connect leg adopts, the queue of bytes to
    send, the events their consumer's callback gets. Every function of sock.c that touches
    a session is a [prog] of [Conc], with an action for each critical section and for each
    access outside of one; the callback and the done hook are the consumer's own programs.
    A pointer to a session is its index in [sk_sessions]; a freed session is None there,
    and reading it is a [Fault], as is a system call on a descriptor that is not open.
    What the operating system, OpenSSL and the clock say is the [answer] of an action. *)

From S2P Require Import Prelude Conc.

(** ** Data: sock.h *)

Inductive sock_type_t := SOCK_TCP | SOCK_UDP | SOCK_ICMP | SOCK_UNIX.

Inductive sock_event_type_t :=
| SOCK_EVENT_CONNECTED | SOCK_EVENT_DATA | SOCK_EVENT_DISCONNECT | SOCK_EVENT_ERROR.

Inductive sock_state_t :=
| SOCK_STATE_CREATED | SOCK_STATE_RESOLVING | SOCK_STATE_CONNECTING | SOCK_STATE_CONNECTED
| SOCK_STATE_TLS_HANDSHAKE | SOCK_STATE_CLOSING | SOCK_STATE_CLOSED.

#[export] Instance sock_type_eq_dec : EqDecision sock_type_t.
Proof. solve_decision. Defined.
#[export] Instance sock_event_type_eq_dec : EqDecision sock_event_type_t.
Proof. solve_decision. Defined.
#[export] Instance sock_state_eq_dec : EqDecision sock_state_t.
Proof. solve_decision. Defined.

Definition type_is (a b : sock_type_t) : bool := bool_decide (a = b).
Definition ev_is (a b : sock_event_type_t) : bool := bool_decide (a = b).
Definition st_is (a b : sock_state_t) : bool := bool_decide (a = b).

Record sock_event_t := mk_event {
  ev_type : sock_event_type_t;
  ev_session : nat;
  ev_data : list ascii;
  ev_err : Z
}.

Record sock_sendbuf_t := mk_sbuf { sb_data : list ascii; sb_offset : nat }.

(** The fields of a session by who guards them: what never changes, the lifetime
    (sock_mutex), the descriptor and the SSL object (io_lock), the send queue
    (send_lock). [o_accepted] and [o_wire] are histories the code does not keep: the
    bytes sock_send() took and the bytes the kernel took. *)
Record sess_ident := mk_ident {
  s_name : cstr; s_type : sock_type_t; s_id : Z; s_cb_data : nat; s_worker_id : nat;
  s_read_buf_sz : nat
}.

Record sess_life := mk_life { l_refs : Z; l_detached : bool; l_done : bool }.

Record sess_io := mk_io { io_fd : option nat; io_tls : bool }.

Record sess_out := mk_out {
  o_queue : list sock_sendbuf_t; o_queued : Z; o_bytes_out : Z;
  o_accepted : list ascii; o_wire : list ascii
}.

Record sess_time := mk_times { t_connect_started : Z; t_connected_at : Z; t_last_activity : Z }.

Record sock_session_t := mk_session {
  s_ident : sess_ident;
  s_state : sock_state_t;
  s_life : sess_life;
  s_io : sess_io;
  s_host : cstr; s_port : Z; s_path : cstr;
  s_out : sess_out;
  s_epollout_armed : bool;
  s_time : sess_time;
  s_bytes_in : Z;
  s_tls_enabled : bool; s_tls_verify : bool
}.

Definition with_state (x : sock_state_t) (s : sock_session_t) : sock_session_t :=
  mk_session (s_ident s) x (s_life s) (s_io s) (s_host s) (s_port s) (s_path s) (s_out s)
    (s_epollout_armed s) (s_time s) (s_bytes_in s) (s_tls_enabled s) (s_tls_verify s).

Definition with_life (x : sess_life) (s : sock_session_t) : sock_session_t :=
  mk_session (s_ident s) (s_state s) x (s_io s) (s_host s) (s_port s) (s_path s) (s_out s)
    (s_epollout_armed s) (s_time s) (s_bytes_in s) (s_tls_enabled s) (s_tls_verify s).

Definition with_io (x : sess_io) (s : sock_session_t) : sock_session_t :=
  mk_session (s_ident s) (s_state s) (s_life s) x (s_host s) (s_port s) (s_path s) (s_out s)
    (s_epollout_armed s) (s_time s) (s_bytes_in s) (s_tls_enabled s) (s_tls_verify s).

Definition with_addr (host : cstr) (port : Z) (path : cstr) (s : sock_session_t) : sock_session_t :=
  mk_session (s_ident s) (s_state s) (s_life s) (s_io s) host port path (s_out s)
    (s_epollout_armed s) (s_time s) (s_bytes_in s) (s_tls_enabled s) (s_tls_verify s).

Definition with_out (x : sess_out) (s : sock_session_t) : sock_session_t :=
  mk_session (s_ident s) (s_state s) (s_life s) (s_io s) (s_host s) (s_port s) (s_path s) x
    (s_epollout_armed s) (s_time s) (s_bytes_in s) (s_tls_enabled s) (s_tls_verify s).

Definition with_armed (x : bool) (s : sock_session_t) : sock_session_t :=
  mk_session (s_ident s) (s_state s) (s_life s) (s_io s) (s_host s) (s_port s) (s_path s) (s_out s)
    x (s_time s) (s_bytes_in s) (s_tls_enabled s) (s_tls_verify s).

Definition with_time (x : sess_time) (s : sock_session_t) : sock_session_t :=
  mk_session (s_ident s) (s_state s) (s_life s) (s_io s) (s_host s) (s_port s) (s_path s) (s_out s)
    (s_epollout_armed s) x (s_bytes_in s) (s_tls_enabled s) (s_tls_verify s).

Definition with_bytes_in (x : Z) (s : sock_session_t) : sock_session_t :=
  mk_session (s_ident s) (s_state s) (s_life s) (s_io s) (s_host s) (s_port s) (s_path s) (s_out s)
    (s_epollout_armed s) (s_time s) x (s_tls_enabled s) (s_tls_verify s).

Definition with_tls (enabled verify : bool) (s : sock_session_t) : sock_session_t :=
  mk_session (s_ident s) (s_state s) (s_life s) (s_io s) (s_host s) (s_port s) (s_path s) (s_out s)
    (s_epollout_armed s) (s_time s) (s_bytes_in s) enabled verify.

Definition s_fd (s : sock_session_t) : option nat := io_fd (s_io s).

Record sock_cfg_t := mk_cfg {
  cf_connect_timeout : Z; cf_read_buf_sz : nat; cf_send_queue_max : Z; cf_idle_timeout : Z;
  cf_max_sessions : Z
}.

Record sock_totals := mk_totals { n_in : Z; n_out : Z; n_conn : Z; n_disc : Z }.

(** The statics of sock.c, and what is on the other side of its calls: the workers whose
    eventfd is readable, the connect legs under way (true for a unix connect task) and the
    open descriptors with the events epoll watches them for (0 when it does not). [sk_null]
    says that SSL_set_fd() was called on the NULL of an SSL object that was freed. *)
Record sock := mk_sock {
  sk_sessions : list (option sock_session_t);
  sk_list : list nat;
  sk_count : Z;
  sk_next_id : Z;
  sk_next_worker : nat;
  sk_worker_count : nat;
  sk_ready : bool;
  sk_cfg : sock_cfg_t;
  sk_totals : sock_totals;
  sk_wake : list nat;
  sk_legs : list (nat * bool);
  sk_fds : gmap nat Z;
  sk_null : bool
}.

Definition set_sessions (x : list (option sock_session_t)) (k : sock) : sock :=
  mk_sock x (sk_list k) (sk_count k) (sk_next_id k) (sk_next_worker k) (sk_worker_count k) (sk_ready k)
    (sk_cfg k) (sk_totals k) (sk_wake k) (sk_legs k) (sk_fds k) (sk_null k).

Definition set_list (x : list nat) (n : Z) (k : sock) : sock :=
  mk_sock (sk_sessions k) x n (sk_next_id k) (sk_next_worker k) (sk_worker_count k) (sk_ready k)
    (sk_cfg k) (sk_totals k) (sk_wake k) (sk_legs k) (sk_fds k) (sk_null k).

Definition set_next (id : Z) (worker : nat) (k : sock) : sock :=
  mk_sock (sk_sessions k) (sk_list k) (sk_count k) id worker (sk_worker_count k) (sk_ready k)
    (sk_cfg k) (sk_totals k) (sk_wake k) (sk_legs k) (sk_fds k) (sk_null k).

Definition set_totals (x : sock_totals) (k : sock) : sock :=
  mk_sock (sk_sessions k) (sk_list k) (sk_count k) (sk_next_id k) (sk_next_worker k) (sk_worker_count k)
    (sk_ready k) (sk_cfg k) x (sk_wake k) (sk_legs k) (sk_fds k) (sk_null k).

Definition set_wake (x : list nat) (k : sock) : sock :=
  mk_sock (sk_sessions k) (sk_list k) (sk_count k) (sk_next_id k) (sk_next_worker k) (sk_worker_count k)
    (sk_ready k) (sk_cfg k) (sk_totals k) x (sk_legs k) (sk_fds k) (sk_null k).

Definition set_legs (x : list (nat * bool)) (k : sock) : sock :=
  mk_sock (sk_sessions k) (sk_list k) (sk_count k) (sk_next_id k) (sk_next_worker k) (sk_worker_count k)
    (sk_ready k) (sk_cfg k) (sk_totals k) (sk_wake k) x (sk_fds k) (sk_null k).

Definition set_fds (x : gmap nat Z) (k : sock) : sock :=
  mk_sock (sk_sessions k) (sk_list k) (sk_count k) (sk_next_id k) (sk_next_worker k) (sk_worker_count k)
    (sk_ready k) (sk_cfg k) (sk_totals k) (sk_wake k) (sk_legs k) x (sk_null k).

Definition set_null (k : sock) : sock :=
  mk_sock (sk_sessions k) (sk_list k) (sk_count k) (sk_next_id k) (sk_next_worker k) (sk_worker_count k)
    (sk_ready k) (sk_cfg k) (sk_totals k) (sk_wake k) (sk_legs k) (sk_fds k) true.

(** What the world answers an action: the time, the error of the call (0 if it worked) or
    what SSL_get_error() said, its return value, the descriptor it made, the results of
    calls an action makes in a loop, the bytes it read, and the lines its consumer has to
    send. *)
Record answer := mk_answer {
  a_now : Z; a_err : Z; a_n : Z; a_fd : nat; a_list : list Z; a_bytes : list ascii;
  a_lines : list (list ascii)
}.

Definition EINTR : Z := 4.
Definition EIO : Z := 5.
Definition EAGAIN : Z := 11.
Definition ENOSYS : Z := 38.
Definition ECONNABORTED : Z := 103.
Definition ETIMEDOUT : Z := 110.
Definition ECONNREFUSED : Z := 111.
Definition EHOSTUNREACH : Z := 113.
Definition EINPROGRESS : Z := 115.

Definition SSL_ERROR_WANT_READ : Z := 2.
Definition SSL_ERROR_WANT_WRITE : Z := 3.
Definition SSL_ERROR_ZERO_RETURN : Z := 6.

Definition EPOLLIN : Z := 1.
Definition EPOLLOUT : Z := 4.
Definition EPOLLERR : Z := 8.
Definition EPOLLHUP : Z := 16.
Definition EPOLLET : Z := 2 ^ 31.

Definition SOCK_NAME_SZ : nat := 40.
Definition SOCK_HOST_SZ : nat := 256.
Definition SOCK_PATH_SZ : nat := 108.

(** The memory of the program: the service and its consumer. *)
Record world (C : Type) := mk_world { w_sock : sock; w_user : C }.
Arguments mk_world {C} _ _.
Arguments w_sock {C} _.
Arguments w_user {C} _.

(** ** Sessions in memory *)

Section sock.
Context {C : Type}.

Notation P := (prog (world C) answer).

Definition get_session (id : nat) (k : sock) : option sock_session_t := mjoin (sk_sessions k !! id).

Definition put_session (id : nat) (s : sock_session_t) (k : sock) : sock :=
  set_sessions (<[id := Some s]> (sk_sessions k)) k.

(** An action of the service, and one that goes through a pointer to a session. *)
Definition on_sock {B} (f : answer -> sock -> outcome (sock * B)) : answer -> world C -> outcome (world C * B) :=
  fun a w => match f a (w_sock w) with
             | Ok (k, b) => Ok (mk_world k (w_user w), b)
             | Blocked => Blocked
             | Fault => Fault
             end.

Definition on_session {B} (id : nat) (f : answer -> sock -> sock_session_t -> outcome (sock * B))
    : answer -> world C -> outcome (world C * B) :=
  on_sock (fun a k => match get_session id k with Some s => f a k s | None => Fault end).

(** Reading and writing a field. *)
Definition rd {B} (id : nat) (f : sock_session_t -> B) : P B :=
  act (on_session id (fun _ k s => Ok (k, f s))).

Definition wr (id : nat) (f : answer -> sock_session_t -> sock_session_t) : P unit :=
  act (on_session id (fun a k s => Ok (put_session id (f a s) k, tt))).

Definition set_state (id : nat) (st : sock_state_t) : P unit := wr id (fun _ => with_state st).

(** [s->last_activity = time(NULL)], alone and on a new connection. *)
Definition touch (id : nat) : P unit :=
  wr id (fun a s => with_time (mk_times (t_connect_started (s_time s)) (t_connected_at (s_time s)) (a_now a)) s).

Definition set_connected_at (id : nat) : P unit :=
  wr id (fun _ s => with_time (mk_times (t_connect_started (s_time s)) (t_last_activity (s_time s))
                                 (t_last_activity (s_time s))) s).

(** ** The send queue *)

Definition sock_sbuf_alloc (data : list ascii) : sock_sendbuf_t := mk_sbuf data 0.

(** The loop of sock_drain_sendq(): [ws] is what send() or SSL_write() returns each time;
    neither takes more than it is given. *)
Fixpoint drain_loop (ws : list Z) (tls : bool) (o : sess_out) (q : list sock_sendbuf_t) : sess_out :=
  match q with
  | [] => mk_out [] (o_queued o) (o_bytes_out o) (o_accepted o) (o_wire o)
  | sb :: q' =>
      let remaining := (length (sb_data sb) - sb_offset sb)%nat in
      let n := hd (-1) ws in
      if if tls then n <=? 0 else n <? 0
      then mk_out q (o_queued o) (o_bytes_out o) (o_accepted o) (o_wire o)
      else
        let n := Nat.min (Z.to_nat n) remaining in
        let offset := (sb_offset sb + n)%nat in
        let o := mk_out q (wrap 32 (o_queued o - Z.of_nat n)) (wrap 64 (o_bytes_out o + Z.of_nat n))
                   (o_accepted o) (o_wire o ++ take n (drop (sb_offset sb) (sb_data sb))) in
        if (offset <? length (sb_data sb))%nat
        then mk_out (mk_sbuf (sb_data sb) offset :: q') (o_queued o) (o_bytes_out o) (o_accepted o) (o_wire o)
        else drain_loop (tl ws) tls o q'
  end.

Definition sock_drain_sendq (id : nat) : P bool :=
  act (on_session id (fun a k s =>
    let o := s_out s in
    match s_fd s, o_queue o with
    | Some f, _ :: _ =>
        match sk_fds k !! f with
        | None => Fault
        | Some _ =>
            let o' := drain_loop (a_list a) (io_tls (s_io s)) o (o_queue o) in
            let t := sk_totals k in
            let moved := wrap 64 (o_bytes_out o' - o_bytes_out o) in
            Ok (set_totals (mk_totals (n_in t) (wrap 64 (n_out t + moved)) (n_conn t) (n_disc t))
                  (put_session id (with_out o' s) k),
                bool_decide (o_queue o' = []))
        end
    | _, q => Ok (k, match q with [] => true | _ :: _ => false end)
    end)).

Definition sock_wake_worker (id : nat) : P unit :=
  w ← rd id (fun s => s_worker_id (s_ident s));
  act (on_sock (fun _ k => Ok (set_wake (if bool_decide (w ∈ sk_wake k) then sk_wake k else w :: sk_wake k) k, tt))).

(** Queue data. The state and the flag are read outside send_lock's reach of the
    writers; the answer to a full queue needs no further look at the session. *)
Definition sock_send (id : nat) (data : list ascii) : P bool :=
  match data with
  | [] => Ret false
  | _ =>
      st ← rd id s_state;
      if negb (st_is st SOCK_STATE_CONNECTED) then Ret false
      else
        let sb := sock_sbuf_alloc data in
        r ← act (on_session id (fun _ k s =>
              let o := s_out s in
              let len := wrap 32 (Z.of_nat (length data)) in
              let max := cf_send_queue_max (sk_cfg k) in
              let full := (0 <? max) && (max <? wrap 32 (o_queued o + len)) in
              let s' := if full then s
                        else with_out (mk_out (o_queue o ++ [sb]) (wrap 32 (o_queued o + len))
                                         (o_bytes_out o) (o_accepted o ++ data) (o_wire o)) s in
              Ok (put_session id s' k, (full, negb (s_epollout_armed s)))));
        let '(full, need_wake) := r : bool * bool in
        if full then Ret false
        else _ ← when need_wake (sock_wake_worker id); Ret true
  end.

(** ** The descriptor *)

(** socket(): a descriptor that is not open yet, or errno. *)
Definition socket_ : P (nat + Z) :=
  act (on_sock (fun a k =>
    if negb (a_err a =? 0) then Ok (k, inr (a_err a))
    else match sk_fds k !! a_fd a with
         | Some _ => Blocked
         | None => Ok (set_fds (<[a_fd a := 0]> (sk_fds k)) k, inl (a_fd a))
         end)).

(** connect(): 0 or errno. *)
Definition connect_ (f : nat) : P Z :=
  act (on_sock (fun a k => match sk_fds k !! f with Some _ => Ok (k, a_err a) | None => Fault end)).

Definition close_ (f : nat) : P unit :=
  act (on_sock (fun _ k => match sk_fds k !! f with
                           | Some _ => Ok (set_fds (delete f (sk_fds k)) k, tt)
                           | None => Fault
                           end)).

Definition sock_session_close_fd (id : nat) : P unit :=
  act (on_session id (fun _ k s =>
    let s' := with_state SOCK_STATE_CLOSED (with_io (mk_io None false) s) in
    match s_fd s with
    | None => Ok (put_session id s' k, tt)
    | Some f =>
        match sk_fds k !! f with
        | Some _ => Ok (put_session id s' (set_fds (delete f (sk_fds k)) k), tt)
        | None => Fault
        end
    end)).

(** epoll_ctl(MOD) under io_lock, then the flag, unless epoll refused. *)
Definition sock_epoll_rearm (id : nat) (want_out : bool) : P unit :=
  err ← act (on_session id (fun a k s =>
    match s_fd s with
    | None => Ok (k, 0)
    | Some f =>
        match sk_fds k !! f with
        | None => Fault
        | Some _ =>
            if a_err a =? 0
            then Ok (set_fds (<[f := EPOLLIN + EPOLLET + (if want_out then EPOLLOUT else 0)]> (sk_fds k)) k, 0)
            else Ok (k, a_err a)
        end
    end));
  if negb (err =? 0) then skip else wr id (fun _ => with_armed want_out).

Definition sock_pending_error (id : nat) : P Z :=
  act (on_session id (fun a k s =>
    match s_fd s with
    | None => Ok (k, 0)
    | Some f => match sk_fds k !! f with Some _ => Ok (k, a_err a) | None => Fault end
    end)).

(** None when epoll took the descriptor, otherwise the error, and the descriptor is closed. *)
Definition sock_adopt_fd (id f : nat) (events : Z) : P (option Z) :=
  err ← act (on_session id (fun a k s =>
    match sk_fds k !! f with
    | None => Fault
    | Some _ =>
        if a_err a =? 0
        then Ok (put_session id (with_io (mk_io (Some f) (io_tls (s_io s))) s)
                   (set_fds (<[f := events]> (sk_fds k)) k), 0)
        else Ok (k, a_err a)
    end));
  if err =? 0 then Ret None else _ ← close_ f; Ret (Some err).

(** SSL_set_fd() and the host name, under io_lock. *)
Definition ssl_set_fd (id : nat) : P unit :=
  act (on_session id (fun _ k s => Ok (if io_tls (s_io s) then k else set_null k, tt))).

(** ** References *)

Definition hold (n : Z) (s : sock_session_t) : sock_session_t :=
  with_life (mk_life (l_refs (s_life s) + n) (l_detached (s_life s)) (l_done (s_life s))) s.

Definition hold_locked (id : nat) (k : sock) : outcome sock :=
  match get_session id k with Some s => Ok (put_session id (hold 1 s) k) | None => Fault end.

Definition sock_hold (id : nat) : P unit :=
  act (on_sock (fun _ k => match hold_locked id k with Ok k' => Ok (k', tt) | Blocked => Blocked | Fault => Fault end)).

(** A walk of sock_list to the first session that [f] takes: every session on the way is read. *)
Fixpoint scan_list (f : sock_session_t -> bool) (k : sock) (l : list nat) : outcome (option (nat * sock_session_t)) :=
  match l with
  | [] => Ok None
  | id :: l' =>
      match get_session id k with
      | None => Fault
      | Some s => if f s then Ok (Some (id, s)) else scan_list f k l'
      end
  end.

Definition sock_hold_by_id (ev : Z) : P (option nat) :=
  act (on_sock (fun _ k =>
    match scan_list (fun s => s_id (s_ident s) =? ev) k (sk_list k) with
    | Ok (Some (id, s)) => Ok (put_session id (hold 1 s) k, Some id)
    | Ok None => Ok (k, None)
    | Blocked => Blocked
    | Fault => Fault
    end)).

Definition set_done (id : nat) (k : sock) : outcome sock :=
  match get_session id k with
  | Some s => Ok (put_session id (with_life (mk_life (l_refs (s_life s)) (l_detached (s_life s)) true) s) k)
  | None => Fault
  end.

Definition sock_set_done (id : nat) : P unit :=
  act (on_sock (fun _ k => match set_done id k with Ok k' => Ok (k', tt) | Blocked => Blocked | Fault => Fault end)).

(** sock_create(): None when the service is not up or full. The count is read without
    sock_mutex. *)
Definition sock_create (name : cstr) (type : sock_type_t) (user_data : nat) : P (option nat) :=
  ready ← act (on_sock (fun _ k => Ok (k, sk_ready k)));
  if negb ready then Ret None
  else
    full ← act (on_sock (fun _ k => Ok (k, cf_max_sessions (sk_cfg k) <=? sk_count k)));
    if full : bool then Ret None
    else
      id ← act (on_sock (fun _ k =>
        let s := mk_session
                   (mk_ident (strlcpy SOCK_NAME_SZ name) type (sk_next_id k) user_data (sk_next_worker k)
                      (cf_read_buf_sz (sk_cfg k)))
                   SOCK_STATE_CREATED (mk_life 1 false false) (mk_io None false) [] 0 []
                   (mk_out [] 0 0 [] []) false (mk_times 0 0 0) 0 false false in
        let id := length (sk_sessions k) in
        let k := set_list (id :: sk_list k) (wrap 32 (sk_count k + 1))
                   (set_sessions (sk_sessions k ++ [Some s]) k) in
        Ok (set_next (wrap 64 (sk_next_id k + 1)) ((sk_next_worker k + 1) mod sk_worker_count k)%nat k, id)));
      Ret (Some id).

(** The errors of SSL_CTX_new() and SSL_new() are the first and second of [a_list]. *)
Definition sock_set_tls (id : nat) (verify : bool) : P bool :=
  st ← rd id s_state;
  if negb (st_is st SOCK_STATE_CREATED) then Ret false
  else
    ty ← rd id (fun s => s_type (s_ident s));
    if negb (type_is ty SOCK_TCP) then Ret false
    else act (on_session id (fun a k s =>
      if negb (a_err a =? 0) then Ok (k, false)
      else Ok (put_session id (with_tls true verify (with_io (mk_io (s_fd s) true) s)) k, true))).

Context (done : nat -> P unit).

(** sock_free(): the done hook runs once the session is gone. *)
Definition sock_free (id : nat) : P unit :=
  h ← act (on_session id (fun _ k s =>
    Ok (set_sessions (<[id := None]> (sk_sessions k)) k,
        if l_done (s_life s) then Some (s_cb_data (s_ident s)) else None)));
  match h with Some d => done d | None => skip end.

Definition sock_release (id : nat) : P unit :=
  last ← act (on_session id (fun _ k s =>
    let s' := hold (-1) s in
    Ok (put_session id s' k, (l_refs (s_life s') =? 0) && l_detached (s_life s'))));
  when last (sock_free id).

(** The first pointer in the list that is this one. *)
Fixpoint unlink (id : nat) (l : list nat) : list nat :=
  match l with
  | [] => []
  | x :: l' => if (x =? id)%nat then l' else x :: unlink id l'
  end.

Definition sock_destroy (id : nat) : P unit :=
  st ← rd id s_state;
  _ ← when (negb (st_is st SOCK_STATE_CLOSED)) (sock_session_close_fd id);
  last ← act (on_session id (fun _ k s =>
    let s' := with_life (mk_life (l_refs (s_life s) - 1) true (l_done (s_life s))) s in
    let linked := bool_decide (id ∈ sk_list k) in
    Ok (put_session id s'
          (if linked then set_list (unlink id (sk_list k)) (wrap 32 (sk_count k - 1)) k else k),
        l_refs (s_life s') =? 0)));
  when last (sock_free id).

(** sock_connect(): the parameters are checked before anything is written. A leg that was
    submitted holds a reference until it lands; [a_err] says whether task_add() or
    resolve_lookup() took it. *)
Definition sock_connect (id : nat) (host : option cstr) (port : Z) (path : option cstr) : P bool :=
  st ← rd id s_state;
  if negb (st_is st SOCK_STATE_CREATED) && negb (st_is st SOCK_STATE_CLOSED) then Ret false
  else
    ty ← rd id (fun s => s_type (s_ident s));
    let unix := type_is ty SOCK_UNIX in
    match if unix then path else host with
    | None | Some [] => Ret false
    | Some x =>
        _ ← wr id (fun _ s => if unix then with_addr (s_host s) (s_port s) (strlcpy SOCK_PATH_SZ x) s
                              else with_addr (strlcpy SOCK_HOST_SZ x) port (s_path s) s);
        _ ← set_state id SOCK_STATE_RESOLVING;
        _ ← wr id (fun a s => with_time (mk_times (a_now a) (t_connected_at (s_time s)) (t_last_activity (s_time s))) s);
        _ ← sock_hold id;
        ok ← act (on_sock (fun a k =>
               if a_err a =? 0 then Ok (set_legs (sk_legs k ++ [(id, unix)]) k, true) else Ok (k, false)));
        if ok : bool then Ret true
        else
          _ ← set_state id SOCK_STATE_CLOSED;
          _ ← sock_release id;
          Ret false
    end.

(** ** Events *)

Context (cb : nat -> sock_event_t -> P unit).

Definition sock_deliver (id : nat) (type : sock_event_type_t) (data : list ascii) (err : Z) : P unit :=
  _ ← act (on_sock (fun _ k =>
        let t := sk_totals k in
        Ok (set_totals (mk_totals (n_in t) (n_out t)
              (wrap 64 (n_conn t + Z.b2z (ev_is type SOCK_EVENT_CONNECTED)))
              (wrap 64 (n_disc t + Z.b2z (ev_is type SOCK_EVENT_DISCONNECT)))) k, tt)));
  d ← rd id (fun s => s_cb_data (s_ident s));
  cb d (mk_event type id data err).

(** What every failure of a connect leg does. *)
Definition deliver_error (id : nat) (err : Z) : P unit := sock_deliver id SOCK_EVENT_ERROR [] err.

(** Close the descriptor, then tell the consumer. *)
Definition close_and_deliver (id : nat) (type : sock_event_type_t) (err : Z) : P unit :=
  _ ← sock_session_close_fd id; sock_deliver id type [] err.

Inductive handshake := H_none | H_done | H_want (write : bool) | H_failed.

(** SSL_connect() under io_lock: its return value is [a_n], the error [a_err]. *)
Definition ssl_connect (id : nat) : P handshake :=
  act (on_session id (fun a k s =>
    match s_fd s with
    | Some f =>
        if negb (io_tls (s_io s)) then Ok (k, H_none)
        else match sk_fds k !! f with
             | None => Fault
             | Some _ =>
                 Ok (k, if a_n a =? 1 then H_done
                        else if a_err a =? SSL_ERROR_WANT_READ then H_want false
                        else if a_err a =? SSL_ERROR_WANT_WRITE then H_want true
                        else H_failed)
             end
    | None => Ok (k, H_none)
    end)).

Definition sock_tls_handshake (id : nat) : P bool :=
  r ← ssl_connect id;
  match r with
  | H_none => Ret true
  | H_done =>
      _ ← set_state id SOCK_STATE_CONNECTED;
      _ ← touch id;
      _ ← set_connected_at id;
      _ ← sock_epoll_rearm id false;
      _ ← sock_deliver id SOCK_EVENT_CONNECTED [] 0;
      Ret true
  | H_want write => _ ← sock_epoll_rearm id write; Ret false
  | H_failed => _ ← close_and_deliver id SOCK_EVENT_ERROR ECONNABORTED; Ret true
  end.

(** The session is up. *)
Definition connected (id : nat) : P unit :=
  _ ← set_state id SOCK_STATE_CONNECTED;
  _ ← touch id;
  set_connected_at id.

(** A connect leg that failed: the consumer hears of it, then the state says so. *)
Definition leg_failed (id : nat) (err : Z) : P unit :=
  _ ← deliver_error id err; set_state id SOCK_STATE_CLOSED.

Definition leg_connecting (id : nat) : P unit :=
  _ ← set_state id SOCK_STATE_CONNECTING; sock_wake_worker id.

Definition sock_unix_connect_task (id : nat) : P unit :=
  fd ← socket_;
  _ ← match fd with
      | inr err => leg_failed id err
      | inl f =>
          rc ← connect_ f;
          if rc =? 0 then
            e ← sock_adopt_fd id f (EPOLLIN + EPOLLET);
            match e with
            | Some err => leg_failed id err
            | None => _ ← connected id; sock_deliver id SOCK_EVENT_CONNECTED [] 0
            end
          else if rc =? EINPROGRESS then
            e ← sock_adopt_fd id f (EPOLLOUT + EPOLLET);
            match e with
            | Some err => leg_failed id err
            | None => leg_connecting id
            end
          else _ ← close_ f; leg_failed id rc
      end;
  sock_release id.

Inductive resolve_type := RESOLVE_A | RESOLVE_AAAA | RESOLVE_OTHER.

(** The loop over the resolved addresses: the descriptor that connected, or is about to. *)
Fixpoint try_records (recs : list resolve_type) : P (option (nat * bool)) :=
  match recs with
  | [] => Ret None
  | RESOLVE_OTHER :: recs' => try_records recs'
  | _ :: recs' =>
      fd ← socket_;
      match fd with
      | inr _ => try_records recs'
      | inl f =>
          rc ← connect_ f;
          if (rc =? 0) || (rc =? EINPROGRESS) then Ret (Some (f, rc =? 0))
          else _ ← close_ f; try_records recs'
      end
  end.

(** A TCP connection is there: TLS first, if the session wants it. *)
Definition start_tls (id : nat) (rearm : bool) : P unit :=
  _ ← ssl_set_fd id;
  _ ← set_state id SOCK_STATE_TLS_HANDSHAKE;
  _ ← when rearm (sock_epoll_rearm id false);
  _ ← sock_tls_handshake id;
  skip.

Definition leg_landed (id f : nat) (now : bool) : P unit :=
  if now then
    e ← sock_adopt_fd id f (EPOLLIN + EPOLLET);
    match e with
    | Some err => leg_failed id err
    | None =>
        tls ← rd id s_tls_enabled;
        if tls : bool then start_tls id false
        else _ ← connected id; sock_deliver id SOCK_EVENT_CONNECTED [] 0
    end
  else
    e ← sock_adopt_fd id f (EPOLLOUT + EPOLLET);
    match e with
    | Some err => leg_failed id err
    | None => leg_connecting id
    end.

(** [ok]: the lookup succeeded. *)
Definition sock_resolve_done (id : nat) (ok : bool) (recs : list resolve_type) : P unit :=
  st ← rd id s_state;
  _ ← (if negb (st_is st SOCK_STATE_RESOLVING) then skip
       else if negb ok || match recs with [] => true | _ => false end then leg_failed id EHOSTUNREACH
       else
         ty ← rd id (fun s => s_type (s_ident s));
         if type_is ty SOCK_TCP || type_is ty SOCK_UDP then
           fd ← try_records recs;
           match fd with
           | None => leg_failed id ECONNREFUSED
           | Some (f, now) => leg_landed id f now
           end
         else leg_failed id ENOSYS);
  sock_release id.

(** ** Deadlines *)

(** What the scan of sock_check_timeouts() stops at. *)
Definition connecting (st : sock_state_t) : bool :=
  st_is st SOCK_STATE_CONNECTING || st_is st SOCK_STATE_RESOLVING || st_is st SOCK_STATE_TLS_HANDSHAKE.

Definition connect_expired (c : sock_cfg_t) (now : Z) (s : sock_session_t) : bool :=
  connecting (s_state s) && (0 <? cf_connect_timeout c) && (0 <? t_connect_started (s_time s)) &&
  (cf_connect_timeout c <? now - t_connect_started (s_time s)).

Definition idle_expired (c : sock_cfg_t) (now : Z) (s : sock_session_t) : bool :=
  st_is (s_state s) SOCK_STATE_CONNECTED && (0 <? cf_idle_timeout c) && (0 <? t_last_activity (s_time s)) &&
  (cf_idle_timeout c <? now - t_last_activity (s_time s)).

(** [now] is read once. After each session that expired the scan starts again from the head;
    a thread that is given too few turns [n] waits for ever where it is. *)
Fixpoint timeouts_from (now : Z) (n : nat) : P unit :=
  match n with
  | O => act (fun _ _ => Blocked)
  | S n' =>
      r ← act (on_sock (fun _ k =>
            match scan_list (fun s => connect_expired (sk_cfg k) now s || idle_expired (sk_cfg k) now s) k (sk_list k) with
            | Ok (Some (id, s)) => Ok (put_session id (hold 1 s) k, Some (id, connect_expired (sk_cfg k) now s))
            | Ok None => Ok (k, None)
            | Blocked => Blocked
            | Fault => Fault
            end));
      match r with
      | None => skip
      | Some (id, connect) =>
          _ ← (if connect : bool then close_and_deliver id SOCK_EVENT_ERROR ETIMEDOUT
               else close_and_deliver id SOCK_EVENT_DISCONNECT 0);
          _ ← sock_release id;
          timeouts_from now n'
      end
  end.

Definition sock_check_timeouts (n : nat) : P unit :=
  now ← act (fun a w => Ok (w, a_now a));
  timeouts_from now n.

(** ** The epoll worker *)

Inductive read_result := R_gone | R_data (d : list ascii) | R_again | R_intr | R_eof | R_failed (err : Z).

(** SSL_read() or recv() under io_lock: the bytes are [a_bytes], no more than the buffer
    holds; without bytes the return value is [a_n] and the error [a_err]. *)
Definition sock_read (id : nat) : P read_result :=
  act (on_session id (fun a k s =>
    match s_fd s with
    | None => Ok (k, R_gone)
    | Some f =>
        match sk_fds k !! f with
        | None => Fault
        | Some _ =>
            let tls := io_tls (s_io s) in
            Ok (k, match a_bytes a with
                   | _ :: _ => R_data (take (s_read_buf_sz (s_ident s)) (a_bytes a))
                   | [] =>
                       if tls && ((a_err a =? SSL_ERROR_WANT_READ) || (a_err a =? SSL_ERROR_WANT_WRITE)) then R_again
                       else if negb tls && (a_n a <? 0) && (a_err a =? EAGAIN) then R_again
                       else if negb tls && (a_n a <? 0) && (a_err a =? EINTR) then R_intr
                       else if (a_n a =? 0) || (tls && (a_err a =? SSL_ERROR_ZERO_RETURN)) then R_eof
                       else R_failed (if tls then EIO else a_err a)
                   end)
        end
    end)).

Definition count_in (id : nat) (n : nat) : P unit :=
  _ ← wr id (fun _ s => with_bytes_in (wrap 64 (s_bytes_in s + Z.of_nat n)) s);
  _ ← touch id;
  act (on_sock (fun _ k =>
    let t := sk_totals k in
    Ok (set_totals (mk_totals (wrap 64 (n_in t + Z.of_nat n)) (n_out t) (n_conn t) (n_disc t)) k, tt))).

(** Edge-triggered: read until there is no more, [n] times at most. *)
Fixpoint read_loop (n : nat) (id : nat) : P unit :=
  match n with
  | O => act (fun _ _ => Blocked)
  | S n' =>
      r ← sock_read id;
      match r with
      | R_gone | R_again => skip
      | R_intr => read_loop n' id
      | R_eof => close_and_deliver id SOCK_EVENT_DISCONNECT 0
      | R_failed err => close_and_deliver id SOCK_EVENT_ERROR err
      | R_data d =>
          _ ← count_in id (length d);
          _ ← sock_deliver id SOCK_EVENT_DATA d 0;
          st ← rd id s_state;
          fd ← rd id s_fd;
          if negb (st_is st SOCK_STATE_CONNECTED) || bool_decide (fd = None) then skip else read_loop n' id
      end
  end.

Definition has (events bit : Z) : bool := negb (Z.land events bit =? 0).

(** EPOLLERR or EPOLLHUP *)
Definition event_lost (id : nat) : P unit :=
  st ← rd id s_state;
  if st_is st SOCK_STATE_CONNECTING then
    err ← sock_pending_error id;
    close_and_deliver id SOCK_EVENT_ERROR (if err =? 0 then ECONNREFUSED else err)
  else close_and_deliver id SOCK_EVENT_DISCONNECT 0.

(** EPOLLOUT *)
Definition event_writable (id : nat) : P unit :=
  st ← rd id s_state;
  match st with
  | SOCK_STATE_CONNECTING =>
      err ← sock_pending_error id;
      if negb (err =? 0) then close_and_deliver id SOCK_EVENT_ERROR err
      else
        tls ← rd id s_tls_enabled;
        if tls : bool then start_tls id true
        else
          _ ← connected id;
          _ ← sock_epoll_rearm id false;
          sock_deliver id SOCK_EVENT_CONNECTED [] 0
  | SOCK_STATE_TLS_HANDSHAKE => _ ← sock_tls_handshake id; skip
  | SOCK_STATE_CONNECTED =>
      drained ← sock_drain_sendq id;
      _ ← when drained (sock_epoll_rearm id false);
      touch id
  | _ => skip
  end.

(** EPOLLIN *)
Definition event_readable (n : nat) (id : nat) : P unit :=
  st ← rd id s_state;
  if st_is st SOCK_STATE_TLS_HANDSHAKE then _ ← sock_tls_handshake id; skip
  else
    st ← rd id s_state;
    fd ← rd id s_fd;
    if negb (st_is st SOCK_STATE_CONNECTED) || bool_decide (fd = None) then skip else read_loop n id.

Definition sock_epoll_event (n : nat) (id : nat) (events : Z) : P unit :=
  st ← rd id s_state;
  fd ← rd id s_fd;
  if st_is st SOCK_STATE_CLOSED || bool_decide (fd = None) then skip
  else if has events EPOLLERR || has events EPOLLHUP then event_lost id
  else
    _ ← when (has events EPOLLOUT) (event_writable id);
    when (has events EPOLLIN) (event_readable n id).

(** One event of a batch: a wake first drains the eventfd and then looks for sessions that
    have something to send; the walk holds sock_mutex throughout. [errs] is what
    epoll_ctl() says each time. *)
Fixpoint arm_pending (w : nat) (errs : list Z) (l : list nat) (k : sock) : outcome sock :=
  match l with
  | [] => Ok k
  | id :: l' =>
      match get_session id k with
      | None => Fault
      | Some s =>
          if (s_worker_id (s_ident s) =? w)%nat && st_is (s_state s) SOCK_STATE_CONNECTED &&
             negb (s_epollout_armed s) && negb (bool_decide (o_queue (s_out s) = []))
          then match s_fd s with
               | None => arm_pending w errs l' k
               | Some f =>
                   match sk_fds k !! f with
                   | None => Fault
                   | Some _ =>
                       if hd 0 errs =? 0
                       then arm_pending w (tl errs) l'
                              (set_fds (<[f := EPOLLIN + EPOLLET + EPOLLOUT]> (sk_fds k))
                                 (put_session id (with_armed true s) k))
                       else arm_pending w (tl errs) l' k
                   end
               end
          else arm_pending w errs l' k
      end
  end.

Definition worker_wake (w : nat) : P unit :=
  _ ← act (on_sock (fun _ k =>
        if bool_decide (w ∈ sk_wake k) then Ok (set_wake (unlink w (sk_wake k)) k, tt) else Blocked));
  act (on_sock (fun a k =>
    match arm_pending w (a_list a) (sk_list k) k with
    | Ok k' => Ok (k', tt)
    | Blocked => Blocked
    | Fault => Fault
    end)).

Definition worker_event (n : nat) (ev events : Z) : P unit :=
  s ← sock_hold_by_id ev;
  match s with
  | None => skip
  | Some id => _ ← sock_epoll_event n id events; sock_release id
  end.

(** ** Closing *)

Definition sock_close (id : nat) : P unit :=
  st ← rd id s_state;
  if st_is st SOCK_STATE_CLOSED || st_is st SOCK_STATE_CLOSING then skip
  else
    _ ← set_state id SOCK_STATE_CLOSING;
    _ ← sock_drain_sendq id;
    close_and_deliver id SOCK_EVENT_DISCONNECT 0.

(** ** Entry points that are not the consumer's *)

(** A leg is taken from those under way. *)
Definition take_leg (i : nat) (unix : bool) : P nat :=
  act (on_sock (fun _ k =>
    match sk_legs k !! i with
    | Some (id, u) => if Bool.eqb u unix then Ok (set_legs (delete i (sk_legs k)) k, id) else Blocked
    | None => Blocked
    end)).

Inductive sock_root :=
| R_resolved (i : nat) (ok : bool) (recs : list resolve_type)
| R_unix (i : nat)
| R_event (n : nat) (ev events : Z)
| R_wake (w : nat)
| R_timeouts (n : nat).

Definition sock_code (r : sock_root) : P unit :=
  match r with
  | R_resolved i ok recs => id ← take_leg i false; sock_resolve_done id ok recs
  | R_unix i => id ← take_leg i true; sock_unix_connect_task id
  | R_event n ev events => worker_event n ev events
  | R_wake w => worker_wake w
  | R_timeouts n => sock_check_timeouts n
  end.
End sock.
