(* ===== verification/SockOk.v ===== *)
(** * The socket service never touches what is gone

    The references to sessions and the open descriptors as tokens, the invariant that ties
    them to the counts of the code, and a rule for every function of [Sock]: started with
    the tokens its contract asks for it touches no freed session and no closed descriptor,
    whatever the other threads do. What a consumer owes the service, and what the service
    promises it, is the class [SockClient]. *)

From S2P Require Import Prelude Conc Sock.

(** ** Tokens *)

(** The owner's reference (TNew before anybody gave the session the done hook, with the
    consumer's data it was made with), a reference from sock_hold() with the consumer's data of the
    session once its holder knows that the session has the done hook, the right to free, a
    descriptor no session has yet, and what a thread holds of the consumer's: a reference to
    the object a session's callback is given, anything else it counts, or what it has noted. *)
Inductive uref :=
| UData (d : nat)
| UOther (kind : nat) (a : Z) (b : nat)
| UNotes (l : list (nat * nat * bool)).

Inductive stok :=
| TOwn (id : nat)
| TNew (id : nat) (d : nat)
| THeld (id : nat) (d : option nat)
| TFree (id : nat)
| TFd (f : nat)
| TUser (u : uref).

#[export] Instance uref_eq_dec : EqDecision uref.
Proof. solve_decision. Defined.
#[export] Instance stok_eq_dec : EqDecision stok.
Proof. solve_decision. Defined.

Definition own_of (id : nat) (x : stok) : bool := match x with TOwn i | TNew i _ => (i =? id)%nat | _ => false end.
Definition held_of (id : nat) (x : stok) : bool := match x with THeld i _ => (i =? id)%nat | _ => false end.
Definition free_of (id : nat) (x : stok) : bool := match x with TFree i => (i =? id)%nat | _ => false end.
Definition fd_of (f : nat) (x : stok) : bool := match x with TFd g => (g =? f)%nat | _ => false end.

(** What is held of the consumer's. *)
Definition users (T : list stok) : list uref := omap (fun x => match x with TUser u => Some u | _ => None end) T.

Lemma users_app T T' : users (T ++ T') = users T ++ users T'.
Proof. apply omap_app. Qed.

Lemma users_perm T T' : T ≡ₚ T' -> users T ≡ₚ users T'.
Proof. intros H. unfold users. by rewrite H. Qed.

Definition tok_id (x : stok) : option nat :=
  match x with TOwn i | TNew i _ | THeld i _ | TFree i => Some i | _ => None end.

Lemma count_perm {A} (f : A -> bool) l l' : l ≡ₚ l' -> count f l = count f l'.
Proof. induction 1; rewrite ?count_cons; lia. Qed.

(** ** The invariant of the service *)

(** The bytes that wait are those that were accepted and not sent. *)
Definition pending (q : list sock_sendbuf_t) : list ascii :=
  concat (map (fun sb => drop (sb_offset sb) (sb_data sb)) q).

Record out_ok (o : sess_out) : Prop := {
  oo_order : o_wire o ++ pending (o_queue o) = o_accepted o;
  oo_queued : o_queued o = wrap 32 (Z.of_nat (length (pending (o_queue o))));
  oo_bytes : o_bytes_out o = wrap 64 (Z.of_nat (length (o_wire o)));
  oo_offset : Forall (fun sb => (sb_offset sb < length (sb_data sb))%nat) (o_queue o)
}.

(** A session nobody gave the done hook was never connected. *)
Definition fresh_ok (s : sock_session_t) : Prop :=
  l_done (s_life s) = true \/
  (s_fd s = None /\ (s_state s = SOCK_STATE_CREATED \/ s_state s = SOCK_STATE_CLOSED)).

(** A claim that a session is new when it is not, or with other data. *)
Definition not_new (id : nat) (s : sock_session_t) (x : stok) : bool :=
  match x with
  | TNew i d => (i =? id)%nat && (l_done (s_life s) || negb (s_cb_data (s_ident s) =? d)%nat)
  | _ => false
  end.

Record sess_ok (T : list stok) (id : nat) (s : sock_session_t) : Prop := {
  so_refs : l_refs (s_life s) = count (own_of id) T + count (held_of id) T;
  so_own : count (own_of id) T = Z.b2z (negb (l_detached (s_life s)));
  so_free : count (free_of id) T = Z.b2z (l_refs (s_life s) =? 0);
  so_out : out_ok (s_out s);
  so_fresh : fresh_ok s;
  so_new : count (not_new id s) T = 0
}.

Record refs_ok (k : sock) (T : list stok) : Prop := {
  si_sess : forall id s, get_session id k = Some s -> sess_ok T id s;
  si_gone : forall x id, x ∈ T -> tok_id x = Some id -> is_Some (get_session id k);
  si_held : forall id d s, THeld id (Some d) ∈ T -> get_session id k = Some s ->
    l_done (s_life s) = true /\ s_cb_data (s_ident s) = d;
  si_open : forall id s f, get_session id k = Some s -> s_fd s = Some f -> is_Some (sk_fds k !! f);
  si_one : forall id id' s s' f, get_session id k = Some s -> get_session id' k = Some s' ->
    s_fd s = Some f -> s_fd s' = Some f -> id = id';
  si_raw : forall f, TFd f ∈ T -> is_Some (sk_fds k !! f) /\
    count (fd_of f) T = 1 /\ forall id s, get_session id k = Some s -> s_fd s <> Some f
}.

(** sock_list holds the sessions whose owner is still there. *)
Record list_ok (k : sock) : Prop := {
  lo_nodup : NoDup (sk_list k);
  lo_in : forall id, id ∈ sk_list k <-> exists s, get_session id k = Some s /\ l_detached (s_life s) = false;
  lo_count : sk_count k = wrap 32 (Z.of_nat (length (sk_list k)))
}.

Definition sock_inv (k : sock) (T : list stok) : Prop := refs_ok k T /\ list_ok k.

Lemma sess_ok_perm T T' id s : T ≡ₚ T' -> sess_ok T id s -> sess_ok T' id s.
Proof.
  intros Hp [H1 H2 H3 H4 H5 H6]. by split; rewrite <- ?(count_perm _ _ _ Hp).
Qed.

Lemma sock_inv_perm k T T' : T ≡ₚ T' -> sock_inv k T -> sock_inv k T'.
Proof.
  intros Hp [[H1 H2 H3 H6 H7 H8] L]. split; [split|]; try done.
  - intros id s E. eapply sess_ok_perm; eauto.
  - intros x id. rewrite <- Hp. eauto.
  - intros id d s. rewrite <- Hp. eauto.
  - intros f Hf. rewrite <- (count_perm _ _ _ Hp). apply H8. by rewrite Hp.
Qed.

(** What the invariant reads of the statics, and of a session. *)
Lemma sock_inv_statics k k' T :
  sk_sessions k' = sk_sessions k -> sk_list k' = sk_list k -> sk_count k' = sk_count k ->
  sk_fds k' = sk_fds k -> sock_inv k T -> sock_inv k' T.
Proof.
  intros E1 E2 E3 E4 [[H1 H2 H3 H6 H7 H8] [L1 L2 L3]].
  split; split; unfold get_session in *; rewrite ?E1, ?E2, ?E3, ?E4; done.
Qed.

(** References to the consumer's objects are not the service's business. *)
Lemma inv_user_tok k T (o : option uref) :
  sock_inv k T -> sock_inv k (match o with Some d => TUser d :: T | None => T end).
Proof.
  destruct o as [d|]; [|done]. intros [[H1 H2 H3 H6 H7 H8] L]. split; [split|done]; try done.
  - intros id s E. destruct (H1 id s E) as [G1 G2 G3 G4 G5 G6]. by split; rewrite ?count_cons.
  - intros x id [->|Hx]%elem_of_cons; [done|eauto].
  - intros id d' s [[=]|Hx]%elem_of_cons. eauto.
  - intros f [[=]|Hx]%elem_of_cons. rewrite count_cons. eauto.
Qed.

(** ** Sessions after a write *)

Lemma get_put id s k id' :
  is_Some (get_session id k) ->
  get_session id' (put_session id s k) = if decide (id' = id) then Some s else get_session id' k.
Proof.
  intros [s0 E]. unfold get_session, put_session in *. cbn [sk_sessions set_sessions].
  destruct (sk_sessions k !! id) as [o|] eqn:El; [|done]. apply lookup_lt_Some in El.
  case_decide; [subst; by rewrite list_lookup_insert_eq by done|by rewrite list_lookup_insert_ne].
Qed.

Lemma get_put_eq id s k : is_Some (get_session id k) -> get_session id (put_session id s k) = Some s.
Proof. intros H. rewrite get_put by done. by rewrite decide_True. Qed.

Lemma get_put_ne id s k id' : is_Some (get_session id k) -> id' <> id ->
  get_session id' (put_session id s k) = get_session id' k.
Proof. intros H Hne. rewrite get_put by done. by rewrite decide_False. Qed.

Lemma get_free id k id' :
  get_session id' (set_sessions (<[id := None]> (sk_sessions k)) k) =
  if decide (id' = id) then None else get_session id' k.
Proof.
  unfold get_session. cbn [sk_sessions set_sessions]. case_decide as E; [subst|by rewrite list_lookup_insert_ne].
  destruct (decide (id < length (sk_sessions k))%nat).
  - by rewrite list_lookup_insert_eq by done.
  - rewrite list_insert_ge by lia. by rewrite lookup_ge_None_2 by lia.
Qed.

Lemma get_new s k id' :
  get_session id' (set_sessions (sk_sessions k ++ [Some s]) k) =
  if decide (id' = length (sk_sessions k)) then Some s else get_session id' k.
Proof.
  unfold get_session. cbn [sk_sessions set_sessions]. case_decide as E.
  - subst. by rewrite lookup_app_r, Nat.sub_diag by lia.
  - destruct (decide (id' < length (sk_sessions k))%nat); [by rewrite lookup_app_l by lia|].
    rewrite !lookup_ge_None_2; [done|lia|]. rewrite length_app. cbn [length]. lia.
Qed.

Lemma get_new_fresh k : get_session (length (sk_sessions k)) k = None.
Proof. unfold get_session. by rewrite lookup_ge_None_2 by lia. Qed.

Ltac sess_case id id' :=
  destruct (decide (id' = id)) as [->|?];
  [rewrite ?get_put_eq in * by eauto|rewrite ?get_put_ne in * by eauto].

(** ** Tokens of one session *)

Definition about (id : nat) (a : list stok) : Prop := Forall (fun x => tok_id x = Some id) a.

Lemma about_count (f : stok -> bool) id a T :
  (forall x, tok_id x = Some id -> f x = false) -> about id a -> count f (a ++ T) = count f T.
Proof.
  intros Hf Ha. rewrite count_app. enough (count f a = 0) by lia.
  induction Ha as [|x a Hx _ IH]; [done|]. by rewrite count_cons, Hf, IH.
Qed.

Lemma of_other id id' x : tok_id x = Some id -> id' <> id ->
  own_of id' x = false /\ held_of id' x = false /\ free_of id' x = false /\ forall s, not_new id' s x = false.
Proof.
  intros Ht Hne. assert (E : (id =? id')%nat = false) by (apply Nat.eqb_neq; lia).
  destruct x; try done; injection Ht as ->; cbn; rewrite ?E; done.
Qed.

Lemma sess_ok_other id id' a T s :
  about id a -> id' <> id -> sess_ok (a ++ T) id' s <-> sess_ok T id' s.
Proof.
  intros Ha Hne.
  assert (H : forall x, tok_id x = Some id -> own_of id' x = false /\ held_of id' x = false /\ free_of id' x = false /\ forall s, not_new id' s x = false)
    by (intros x Hx; by eapply of_other).
  split; intros [H1 H2 H3 H4 H5 H6]; split; try done;
    rewrite !(about_count _ id a) in * by (done || (intros x Hx; by apply (H x))); done.
Qed.

Lemma about_in id a T x : about id a -> tok_id x <> Some id -> x ∈ a ++ T <-> x ∈ T.
Proof.
  intros Ha Hx. rewrite elem_of_app. split; [intros [H|H]; [|done]|auto].
  destruct Hx. apply (proj1 (List.Forall_forall _ _) Ha). by apply list_elem_of_In.
Qed.

(** Replacing a session and the tokens about it. *)
Lemma refs_change k id s s' a b T :
  refs_ok k (a ++ T) -> get_session id k = Some s -> about id a -> about id b ->
  s_ident s' = s_ident s -> s_fd s' = s_fd s -> sess_ok (b ++ T) id s' ->
  (forall d, THeld id (Some d) ∈ b ++ T -> l_done (s_life s') = true /\ s_cb_data (s_ident s) = d) ->
  refs_ok (put_session id s' k) (b ++ T).
Proof.
  intros [H1 H2 H3 H6 H7 H8] E Ha Hb Hi Hf Ho Hh. assert (Hs : is_Some (get_session id k)) by eauto.
  split.
  - intros id' s0. sess_case id id'; [by intros [= <-]|]. intros E'. apply (sess_ok_other id); [done..|].
    apply (sess_ok_other id id' a); eauto.
  - intros x id' Hx Ht. sess_case id id'; [done|]. apply (H2 x); [|done].
    rewrite about_in in * by (done || congruence). done.
  - intros id' d s0 Hx. sess_case id id'; [intros [= <-]; rewrite Hi; by apply Hh|].
    apply H3. rewrite about_in in * by (done || (cbn; congruence)). done.
  - intros id' s0 f. sess_case id id'; [intros [= <-]; rewrite Hf; eauto|eauto].
  - intros i1 i2 s1 s2 f. sess_case id i1; sess_case id i2; try done.
    + intros [= <-] E2. rewrite Hf. eauto.
    + intros E1 [= <-]. rewrite Hf. eauto.
    + eauto.
  - intros f Hx. rewrite about_in in Hx by done. destruct (H8 f) as (G1 & G2 & G3); [by rewrite about_in|].
    rewrite (about_count _ id a) in G2 by (done || by intros []).
    rewrite (about_count _ id b) by (done || by intros []).
    split_and!; [done..|]. intros id' s0. sess_case id id'; [intros [= <-]; rewrite Hf; eauto|eauto].
Qed.

Lemma inv_change k id s s' a b T :
  sock_inv k (a ++ T) -> get_session id k = Some s -> about id a -> about id b ->
  s_ident s' = s_ident s -> s_fd s' = s_fd s -> l_detached (s_life s') = l_detached (s_life s) ->
  sess_ok (b ++ T) id s' ->
  (forall d, THeld id (Some d) ∈ b ++ T -> l_done (s_life s') = true /\ s_cb_data (s_ident s) = d) ->
  sock_inv (put_session id s' k) (b ++ T).
Proof.
  intros [H [L1 L2 L3]] E Ha Hb Hi Hf Hd Ho Hh. assert (Hs : is_Some (get_session id k)) by eauto.
  split; [by eapply refs_change|]. split; [done| |done]. intros id'. rewrite (L2 id'). sess_case id id'; [|done].
  rewrite E. split; intros (s0 & [= <-] & G); eexists; (split; [done|congruence]).
Qed.

(** Fields that concern nobody else. *)
Definition core (s : sock_session_t) := (s_ident s, s_life s, s_fd s, s_state s).

Lemma not_new_same id s s' T :
  s_ident s' = s_ident s -> s_life s' = s_life s -> count (not_new id s') T = count (not_new id s) T.
Proof. intros Ei El. unfold not_new. by rewrite Ei, El. Qed.

Lemma inv_write k id s s' T :
  sock_inv k T -> get_session id k = Some s ->
  s_ident s' = s_ident s -> s_life s' = s_life s -> s_fd s' = s_fd s -> out_ok (s_out s') -> fresh_ok s' ->
  sock_inv (put_session id s' k) T.
Proof.
  intros H E Hi Hl Hf Ho Hfr. apply (inv_change k id s s' [] []); try done; [by constructor..|congruence| |].
  - destruct (si_sess _ _ (proj1 H) _ _ E) as [G1 G2 G3 _ _ G6]. by split; rewrite ?(not_new_same _ _ _ _ Hi Hl), ?Hl.
  - intros d Hd. rewrite Hl. by eapply (si_held _ _ (proj1 H)).
Qed.

Lemma inv_put k id s s' T :
  sock_inv k T -> get_session id k = Some s -> core s' = core s -> out_ok (s_out s') ->
  sock_inv (put_session id s' k) T.
Proof.
  intros H E Hc Ho. injection Hc as Hi Hl Hf Hst. eapply inv_write; eauto.
  destruct (si_sess _ _ (proj1 H) _ _ E) as [_ _ _ _ F _]. unfold fresh_ok in *. by rewrite Hl, Hf, Hst.
Qed.

Lemma count_none {A} (g : A -> bool) l : (forall x, x ∈ l -> g x = false) -> count g l = 0.
Proof. induction l as [|x l IH]; intros H; [done|]. rewrite count_cons, IH, H by set_solver. done. Qed.

Lemma put_same k id s : get_session id k = Some s -> put_session id s k = k.
Proof.
  unfold get_session, put_session. intros E. destruct k as [ss]. cbn [sk_sessions set_sessions] in *.
  unfold set_sessions. cbn. f_equal. apply list_insert_id. destruct (ss !! id) as [[s0|]|]; try done. by injection E as ->.
Qed.

Section refs.
Context (k : sock) (id : nat) (s : sock_session_t) (T : list stok).
Hypothesis E : get_session id k = Some s.

Lemma inv_hold d :
  sock_inv k T -> l_refs (s_life s) <> 0 ->
  (forall d', d = Some d' -> l_done (s_life s) = true /\ s_cb_data (s_ident s) = d') ->
  sock_inv (put_session id (hold 1 s) k) (THeld id d :: T).
Proof.
  intros H Hr Hd. apply (inv_change k id s (hold 1 s) [] [THeld id d]); try done; [by constructor..| |].
  - destruct (si_sess _ _ (proj1 H) _ _ E) as [G1 G2 G3 G4 G5 G6].
    split; cbn [app]; rewrite ?count_cons; cbn [own_of held_of free_of hold with_life s_life l_refs l_detached s_out];
      rewrite ?Nat.eqb_refl; cbn [Z.b2z]; try lia; [|done|done|exact G6].
    rewrite Z.add_0_l, G3. pose proof (count_range (own_of id) T). pose proof (count_range (held_of id) T).
    zcond. done.
  - cbn [hold with_life s_life l_done app]. intros d' [[= <-]|Hd']%elem_of_cons; [by apply Hd|].
    by apply (si_held _ _ (proj1 H) id d' s).
Qed.

Lemma inv_unhold d :
  sock_inv k (THeld id d :: T) ->
  sock_inv (put_session id (hold (-1) s) k)
    ((if (l_refs (s_life s) - 1 =? 0) then [TFree id] else []) ++ T) /\
  ((l_refs (s_life s) - 1 =? 0) && l_detached (s_life s) = (l_refs (s_life s) - 1 =? 0)).
Proof.
  intros H. destruct (si_sess _ _ (proj1 H) _ _ E) as [G1 G2 G3 G4 G5 G6].
  rewrite !count_cons in *. cbn [own_of held_of free_of not_new] in *. rewrite Nat.eqb_refl in *. cbn [Z.b2z] in *.
  pose proof (count_range (own_of id) T). pose proof (count_range (held_of id) T).
  assert (Ef : count (free_of id) T = 0). { rewrite Z.add_0_l in G3. rewrite G3. by zcond. }
  split.
  - eapply (inv_change k id s (hold (-1) s) [THeld id d]); try done; [by constructor|by case_match; constructor|..].
    + split; cbn [hold with_life s_life l_refs l_detached s_out]; rewrite ?count_app; try done.
      all: try change (not_new id (hold (-1) s)) with (not_new id s).
      all: replace (l_refs (s_life s) + -1) with (l_refs (s_life s) - 1) by lia.
      all: destruct (l_refs (s_life s) - 1 =? 0) eqn:Ez; rewrite ?count_cons, ?count_nil;
        cbn [own_of held_of free_of not_new app]; rewrite ?Nat.eqb_refl; cbn [Z.b2z]; breflect; try lia.
    + intros d' Hd'. apply (si_held _ _ (proj1 H) id d' s); [|done]. apply elem_of_cons. right.
      case_match; [|done]. by apply elem_of_cons in Hd' as [|].
  - destruct (l_refs (s_life s) - 1 =? 0) eqn:Ez; [|done]. breflect. destruct (l_detached (s_life s)) eqn:Ed; [done|].
    cbn [negb Z.b2z] in G2. lia.
Qed.

(** The hook makes a new session one like the others. *)
Lemma inv_set_done d :
  sock_inv k (TNew id d :: T) ->
  sock_inv (put_session id (with_life (mk_life (l_refs (s_life s)) (l_detached (s_life s)) true) s) k) (TOwn id :: T) /\
  l_done (s_life s) = false /\ s_cb_data (s_ident s) = d.
Proof.
  intros H. destruct (si_sess _ _ (proj1 H) _ _ E) as [G1 G2 G3 G4 G5 G6].
  rewrite !count_cons in *. cbn [own_of held_of free_of not_new] in *. rewrite Nat.eqb_refl in *. cbn [Z.b2z andb] in *.
  pose proof (count_range (own_of id) T). pose proof (count_range (not_new id s) T).
  assert (Hn : l_done (s_life s) = false /\ s_cb_data (s_ident s) = d).
  { destruct (l_done (s_life s)); [cbn in G6; lia|]. destruct (Nat.eqb_spec (s_cb_data (s_ident s)) d); [done|cbn in G6; lia]. }
  destruct Hn as [Hn Hd]. split; [|done].
  apply (inv_change k id s _ [TNew id d] [TOwn id]); try done; [by constructor..| |].
  - split; cbn [app with_life s_life l_refs l_detached s_out]; rewrite ?count_cons; cbn [own_of held_of free_of not_new];
      rewrite ?Nat.eqb_refl; cbn [Z.b2z]; try done; [by left|].
    rewrite Z.add_0_l. apply count_none. intros [] Hx; try done. cbn [not_new].
    destruct (Nat.eqb_spec id0 id) as [->|]; [|done]. exfalso.
    assert (1 <= count (own_of id) T).
    { apply list_elem_of_lookup in Hx as [i Hi]. eapply count_pos; [done|apply Nat.eqb_refl]. }
    destruct (l_detached (s_life s)); cbn in G2; lia.
  - cbn [with_life s_life l_done app]. intros d' [[=]|Hd']%elem_of_cons. split; [done|].
    apply (si_held _ _ (proj1 H) id d' s); [by right|done].
Qed.

(** What is known of a new session may be forgotten. *)
Lemma inv_forget_new d : sock_inv k (TNew id d :: T) -> sock_inv k (TOwn id :: T).
Proof.
  intros H. rewrite <- (put_same k id s E) at 1.
  apply (inv_change k id s s [TNew id d] [TOwn id]); try done; [by constructor..| |].
  - destruct (si_sess _ _ (proj1 H) _ _ E) as [G1 G2 G3 G4 G5 G6]. split; try done.
    cbn [app] in *. rewrite count_cons in *. pose proof (count_range (not_new id s) T).
    cbn [not_new] in *. destruct ((id =? id)%nat && _); cbn [Z.b2z] in *; lia.
  - intros d' [[=]|Hd']%elem_of_cons. apply (si_held _ _ (proj1 H) id d' s); [by right|done].
Qed.
End refs.

(** A holder that finds the session to have the hook knows it from then on. *)
Lemma inv_know k id s T :
  get_session id k = Some s -> sock_inv k (THeld id None :: T) -> l_done (s_life s) = true ->
  sock_inv k (THeld id (Some (s_cb_data (s_ident s))) :: T).
Proof.
  intros E H Hd. rewrite <- (put_same k id s E) at 1.
  apply (inv_change k id s s [THeld id None] [THeld id (Some (s_cb_data (s_ident s)))] T); try done; [by constructor..| |].
  - destruct (si_sess _ _ (proj1 H) _ _ E) as [G1 G2 G3 G4 G5 G6]. by split.
  - intros d [[= <-]|Hx]%elem_of_cons; [done|]. apply (si_held _ _ (proj1 H) id d s); [by right|done].
Qed.

(** ** The end of a session *)

Lemma unlink_in id l : NoDup l -> forall x, x ∈ unlink id l <-> x ∈ l /\ x <> id.
Proof.
  induction l as [|y l IH]; intros Hn x; cbn [unlink]; [set_solver|].
  apply list.NoDup_cons in Hn as [Hy Hn]. destruct (y =? id)%nat eqn:E; breflect.
  - subst. rewrite elem_of_cons. split; [intros H; split; [auto|congruence]|intros [[?|?] ?]; congruence || done].
  - rewrite !elem_of_cons, IH by done. split; [intros [->|[? ?]]; auto|intros [[->|?] ?]; auto].
Qed.

Lemma unlink_still_nodup id l : NoDup l -> NoDup (unlink id l).
Proof.
  induction l as [|y l IH]; intros Hn; cbn [unlink]; [done|]. apply list.NoDup_cons in Hn as [Hy Hn].
  case_match; [done|]. apply list.NoDup_cons. split; [|by apply IH]. rewrite unlink_in by done. tauto.
Qed.

Lemma unlink_length id l : id ∈ l -> S (length (unlink id l)) = length l.
Proof.
  induction l as [|y l IH]; cbn [unlink length]; [by intros ?%elem_of_nil|]. intros H.
  destruct (y =? id)%nat eqn:E; [done|]. breflect. cbn [length]. rewrite IH; [done|].
  by apply elem_of_cons in H as [->|].
Qed.

Lemma unlink_perm j l : j ∈ l -> l ≡ₚ j :: unlink j l.
Proof.
  induction l as [|y l IH]; [by intros ?%elem_of_nil|]. cbn [unlink]. intros H.
  destruct (Nat.eqb_spec y j) as [->|Hne]; [done|]. apply elem_of_cons in H as [->|H]; [done|].
  rewrite (IH H) at 1. constructor.
Qed.

Lemma count_unlink (f : nat -> bool) j l : j ∈ l -> count f l = Z.b2z (f j) + count f (unlink j l).
Proof. intros H. rewrite (count_perm f _ _ (unlink_perm j l H)). apply count_cons. Qed.

Definition let_go (s : sock_session_t) : sock_session_t :=
  with_life (mk_life (l_refs (s_life s) - 1) true (l_done (s_life s))) s.

Lemma inv_destroy k id s T :
  sock_inv k (TOwn id :: T) -> get_session id k = Some s ->
  id ∈ sk_list k /\
  sock_inv (put_session id (let_go s) (set_list (unlink id (sk_list k)) (wrap 32 (sk_count k - 1)) k))
    ((if l_refs (s_life s) - 1 =? 0 then [TFree id] else []) ++ T).
Proof.
  intros [H [L1 L2 L3]] E. destruct (si_sess _ _ H _ _ E) as [G1 G2 G3 G4 G5 G6].
  rewrite !count_cons in *. cbn [own_of held_of free_of not_new] in *. rewrite Nat.eqb_refl in *. cbn [Z.b2z] in *.
  pose proof (count_range (own_of id) T). pose proof (count_range (held_of id) T).
  destruct (l_detached (s_life s)) eqn:Ed; cbn [negb Z.b2z] in G2; [lia|].
  assert (Hin : id ∈ sk_list k) by (apply L2; eauto). split; [done|].
  assert (Ef : count (free_of id) T = 0). { rewrite Z.add_0_l in G3. rewrite G3. by zcond. }
  assert (Hs : is_Some (get_session id k)) by eauto. split.
  - assert (R : refs_ok (put_session id (let_go s) k)
                  ((if l_refs (s_life s) - 1 =? 0 then [TFree id] else []) ++ T)).
    2: { destruct R as [R1 R2 R3 R4 R5 R6]. by split. }
    eapply (refs_change k id s _ [TOwn id]); try done; [by constructor|by case_match; constructor|..].
    + split; cbn [let_go with_life s_life l_refs l_detached s_out]; rewrite ?count_app; try done.
      all: try change (not_new id (let_go s)) with (not_new id s).
      all: destruct (l_refs (s_life s) - 1 =? 0) eqn:Ez; rewrite ?count_cons, ?count_nil;
        cbn [own_of held_of free_of not_new app negb Z.b2z]; rewrite ?Nat.eqb_refl; cbn [Z.b2z]; breflect; try lia.
    + intros d' Hd'. apply (si_held _ _ H id d' s); [|done]. apply elem_of_cons. right.
      case_match; [|done]. by apply elem_of_cons in Hd' as [|].
  - split; cbn [put_session set_list set_sessions sk_list sk_count]; [by apply unlink_still_nodup| |].
    + intros id'. rewrite unlink_in, L2 by done.
      change (get_session id' (put_session id (let_go s) _)) with (get_session id' (put_session id (let_go s) k)).
      sess_case id id'; [|split; [tauto|intros ?; split; [done|congruence]]].
      split; [intros [_ []]; done|]. intros (s0 & [= <-] & G). done.
    + rewrite L3. unfold wrap. rewrite Zminus_mod_idemp_l. f_equal. apply unlink_length in Hin. lia.
Qed.

Lemma inv_free k id s T :
  sock_inv k (TFree id :: T) -> get_session id k = Some s ->
  sock_inv (set_sessions (<[id := None]> (sk_sessions k)) k) T /\
  l_detached (s_life s) = true /\ (forall x, x ∈ T -> tok_id x <> Some id).
Proof.
  intros [[H1 H2 H3 H6 H7 H8] [L1 L2 L3]] E. destruct (H1 _ _ E) as [G1 G2 G3 _ _ G6].
  rewrite !count_cons in *. cbn [own_of held_of free_of not_new] in *. rewrite Nat.eqb_refl in *. cbn [Z.b2z] in *.
  pose proof (count_range (own_of id) T). pose proof (count_range (held_of id) T).
  pose proof (count_range (free_of id) T).
  assert (G3' : l_refs (s_life s) = 0 /\ count (free_of id) T = 0).
  { destruct (l_refs (s_life s) =? 0) eqn:Ez; cbn [Z.b2z] in G3; breflect; lia. }
  destruct G3' as [Hr Hf].
  assert (Hd : l_detached (s_life s) = true) by (destruct (l_detached (s_life s)); [done|cbn in G2; lia]).
  assert (Hno : forall x, x ∈ T -> tok_id x <> Some id).
  { intros x Hx Ht. apply list_elem_of_lookup in Hx as [i Hi].
    destruct x; try done; injection Ht as ->.
    1, 2: assert (1 <= count (own_of id) T) by (eapply count_pos; [done|simpl; apply Nat.eqb_refl]).
    3: assert (1 <= count (held_of id) T) by (eapply count_pos; [done|simpl; apply Nat.eqb_refl]).
    4: assert (1 <= count (free_of id) T) by (eapply count_pos; [done|simpl; apply Nat.eqb_refl]).
    all: lia. }
  split_and!; [|done|done]. split; split; cbn [sk_list set_sessions sk_count sk_fds]; try done.
  - intros id' s0. rewrite get_free. case_decide as Ei; [done|]. intros E'.
    apply (sess_ok_other id id' [TFree id]); [by constructor|done|]. by apply H1.
  - intros x id' Hx Ht. rewrite get_free. case_decide; [subst; by destruct (Hno x)|].
    apply (H2 x); [by apply elem_of_cons; right|done].
  - intros id' d s0 Hx. rewrite get_free. case_decide; [done|]. apply H3. by apply elem_of_cons; right.
  - intros id' s0 f. rewrite get_free. case_decide; [done|]. apply H6.
  - intros i1 i2 s1 s2 f. rewrite !get_free. do 2 (case_decide; [done|]). apply H7.
  - intros f Hx. destruct (H8 f) as (K1 & K2 & K3); [by apply elem_of_cons; right|].
    split_and!; [done|by rewrite count_cons in K2|]. intros id' s0. rewrite get_free. case_decide; [done|]. apply K3.
  - intros id'. rewrite L2, get_free. case_decide as Ei; [|done]. subst. rewrite E.
    split; [intros (s0 & [= <-] & G); congruence|intros (s0 & [=] & _)].
Qed.

(** ** A new session *)

Lemma inv_create k s T :
  sock_inv k T -> s_life s = mk_life 1 false false -> s_fd s = None -> out_ok (s_out s) ->
  s_state s = SOCK_STATE_CREATED ->
  sock_inv (set_list (length (sk_sessions k) :: sk_list k) (wrap 32 (sk_count k + 1))
              (set_sessions (sk_sessions k ++ [Some s]) k))
    (TNew (length (sk_sessions k)) (s_cb_data (s_ident s)) :: T).
Proof.
  intros [[H1 H2 H3 H6 H7 H8] [L1 L2 L3]] El Efd Ho Est. set (id := length (sk_sessions k)).
  assert (En : get_session id k = None) by apply get_new_fresh.
  assert (Hno : forall x, x ∈ T -> tok_id x <> Some id).
  { intros x Hx Ht. destruct (H2 x id Hx Ht). congruence. }
  assert (Hz : forall f : stok -> bool, (forall x, f x = true -> tok_id x = Some id) -> count f T = 0).
  { intros f Hf. clear -Hno Hf. induction T as [|x T IH]; [done|]. rewrite count_cons, IH by set_solver.
    destruct (f x) eqn:Ex; [|done]. apply Hf in Ex. destruct (Hno x); [by left|done]. }
  assert (Gn : forall id' k0, sk_sessions k0 = sk_sessions k ++ [Some s] ->
            get_session id' k0 = if decide (id' = id) then Some s else get_session id' k).
  { intros id' k0 E. unfold id. rewrite <- get_new. unfold get_session. by rewrite E. }
  split; split; cbn [sk_list set_list sk_count sk_fds].
  - intros id' s0. rewrite Gn by done. case_decide as Ei; [intros [= <-]; subst id'|].
    + assert (Zo : count (own_of id) T = 0) by (apply Hz; intros []; cbn; try done; intros ?; breflect; by subst).
      assert (Zh : count (held_of id) T = 0) by (apply Hz; intros []; cbn; try done; intros ?; breflect; by subst).
      assert (Zf : count (free_of id) T = 0) by (apply Hz; intros []; cbn; try done; intros ?; breflect; by subst).
      assert (Zn : count (not_new id s) T = 0)
        by (apply Hz; intros []; cbn; try done; intros [? _]%andb_true_iff; breflect; by subst).
      split; rewrite ?El; cbn [l_refs l_detached]; rewrite ?count_cons; cbn [own_of held_of free_of not_new];
        rewrite ?El, ?Nat.eqb_refl, ?Zo, ?Zh, ?Zf, ?Zn; try done; by right; auto.
    + intros E'. apply (sess_ok_other id id' [TNew id (s_cb_data (s_ident s))]); [by constructor|done|]. by apply H1.
  - intros x id' Hx Ht. rewrite Gn by done. case_decide; [done|]. apply elem_of_cons in Hx as [->|Hx]; [|eauto].
    injection Ht as ->. done.
  - intros id' d s0 Hx. rewrite Gn by done. apply elem_of_cons in Hx as [[=]|Hx].
    case_decide; [subst; by destruct (Hno (THeld id (Some d)))|]. eauto.
  - intros id' s0 f. rewrite Gn by done. case_decide; [|eauto]. intros [= <-]. by rewrite Efd.
  - intros i1 i2 s1 s2 f. rewrite (Gn i1), (Gn i2) by done. case_decide; case_decide; try congruence; try eauto.
  - intros f Hx. apply elem_of_cons in Hx as [[=]|Hx]. destruct (H8 f Hx) as (K1 & K2 & K3).
    split_and!; [done|by rewrite count_cons|]. intros id' s0. rewrite Gn by done. case_decide; [|eauto].
    intros [= <-]. congruence.
  - apply list.NoDup_cons. split; [|done]. rewrite L2, En. intros (s0 & [=] & _).
  - intros id'. rewrite elem_of_cons, L2.
    rewrite (Gn id' (set_list _ _ (set_sessions (sk_sessions k ++ [Some s]) k)) eq_refl). case_decide as Ei.
    + split; [intros _; exists s; by rewrite El|by left].
    + split; [by intros [|]|by right].
  - rewrite L3. unfold wrap. rewrite Zplus_mod_idemp_l. f_equal. cbn [length]. lia.
Qed.

(** ** Descriptors *)

(** A session whose descriptor changes: the old one is never spoken of again. *)
Lemma inv_fd k id s s' fds T T' :
  sock_inv k T -> get_session id k = Some s ->
  s_ident s' = s_ident s -> s_life s' = s_life s -> out_ok (s_out s') -> fresh_ok s' ->
  (forall x, (forall f, x <> TFd f) -> x ∈ T' <-> x ∈ T) ->
  (forall g, (forall f, g (TFd f) = false) -> count g T' = count g T) ->
  (forall id' s0 f, id' <> id -> get_session id' k = Some s0 -> s_fd s0 = Some f ->
     is_Some (fds !! f) /\ s_fd s' <> Some f /\ TFd f ∉ T') ->
  (forall f, s_fd s' = Some f -> is_Some (fds !! f) /\ TFd f ∉ T') ->
  (forall f, TFd f ∈ T' -> is_Some (fds !! f) /\ count (fd_of f) T' = 1) ->
  sock_inv (put_session id s' (set_fds fds k)) T'.
Proof.
  intros [[H1 H2 H3 H6 H7 H8] [L1 L2 L3]] E Ei El Ho Hfr Hin Hc Hoth Hme Hraw.
  assert (Hs : is_Some (get_session id (set_fds fds k))) by eauto.
  assert (G : forall id', get_session id' (put_session id s' (set_fds fds k)) =
                if decide (id' = id) then Some s' else get_session id' k) by (intros id'; by rewrite get_put).
  split; split; cbn [sk_fds sk_list sk_count put_session set_sessions set_fds]; try done.
  - assert (Hw : forall s0 id', sess_ok T id' s0 -> sess_ok T' id' s0).
    { intros s0 id' [G1 G2 G3 G4 G5 G6]. split; rewrite ?Hc; done. }
    intros id' s0. rewrite G. case_decide; [intros [= <-]; subst|eauto].
    destruct (H1 _ _ E) as [G1 G2 G3 _ _ G6]. by split; rewrite ?(not_new_same _ _ _ _ Ei El), ?El, ?Hc.
  - intros x id' Hx Ht. rewrite G. case_decide; [done|]. apply (H2 x); [|done].
    apply Hin; [|done]. by intros f ->.
  - intros id' d s0 Hx. rewrite G. rewrite Hin in Hx by done. case_decide; [|eauto].
    intros [= <-]. subst. rewrite El, Ei. eauto.
  - intros id' s0 f. rewrite G. case_decide; [intros [= <-] Ef; by apply Hme|]. intros E' Ef. by eapply Hoth.
  - intros i1 i2 s1 s2 f. rewrite !G. repeat case_decide; [congruence| | |eauto].
    + intros [= <-] E2 F1 F2. by destruct (Hoth i2 s2 f) as (_ & ? & _).
    + intros E1 [= <-] F1 F2. by destruct (Hoth i1 s1 f) as (_ & ? & _).
  - intros f Hx. destruct (Hraw f Hx) as [K1 K2]. split_and!; [done..|]. intros id' s0. rewrite G.
    case_decide; [intros [= <-] F; by apply Hme in F as [_ []]|]. intros E' F. by apply (Hoth id' s0 f) in F as (_ & _ & []).
  - intros id'. rewrite L2, G. case_decide; [|done]. subst. rewrite E.
    split; intros (s0 & [= <-] & Hd); eexists; (split; [done|congruence]).
Qed.

Lemma count_fd_none f T : TFd f ∉ T -> count (fd_of f) T = 0.
Proof.
  intros H. apply count_none. intros [] Hx; try done. simpl. apply Nat.eqb_neq. intros ->. done.
Qed.

Lemma inv_drop_fd k id s s' f T :
  sock_inv k T -> get_session id k = Some s -> s_fd s = Some f ->
  s_ident s' = s_ident s -> s_life s' = s_life s -> out_ok (s_out s') -> fresh_ok s' -> s_fd s' = None ->
  is_Some (sk_fds k !! f) /\ sock_inv (put_session id s' (set_fds (delete f (sk_fds k)) k)) T.
Proof.
  intros H E Ef Ei El Ho Hfr En. destruct (proj1 H) as [H1 H2 H3 H6 H7 H8]. split; [by eapply H6|].
  eapply inv_fd; try done.
  - intros id' s0 g Hne E' F. assert (g <> f) by (intros ->; by destruct (Hne (H7 _ _ _ _ _ E' E F Ef))).
    rewrite lookup_delete_ne by done. split_and!; [by eapply H6|by rewrite En|].
    intros Hx. destruct (H8 g Hx) as (_ & _ & K). by destruct (K _ _ E').
  - rewrite En. by intros g [=].
  - intros g Hx. destruct (H8 g Hx) as (K1 & K2 & K3). split; [|done].
    rewrite lookup_delete_ne; [done|]. intros <-. by destruct (K3 _ _ E).
Qed.

Lemma inv_adopt k id s s' f m T :
  sock_inv k (TFd f :: T) -> get_session id k = Some s ->
  s_ident s' = s_ident s -> s_life s' = s_life s -> out_ok (s_out s') -> fresh_ok s' -> s_fd s' = Some f ->
  is_Some (sk_fds k !! f) /\ sock_inv (put_session id s' (set_fds (<[f := m]> (sk_fds k)) k)) T.
Proof.
  intros H E Ei El Ho Hfr Ef. destruct (proj1 H) as [H1 H2 H3 H6 H7 H8].
  destruct (H8 f) as (K1 & K2 & K3); [by left|]. rewrite count_cons in K2. cbn [fd_of] in K2.
  rewrite Nat.eqb_refl in K2. cbn [Z.b2z] in K2.
  assert (Hno : TFd f ∉ T).
  { intros Hx%list_elem_of_lookup. destruct Hx as [i Hi].
    assert (1 <= count (fd_of f) T) by (eapply count_pos; [done|simpl; apply Nat.eqb_refl]). lia. }
  split; [done|]. eapply inv_fd; try done.
  - intros x Hx. rewrite elem_of_cons. split; [by right|intros [->|]; [by destruct (Hx f)|done]].
  - intros g Hg. by rewrite count_cons, Hg.
  - intros id' s0 g Hne E' F. assert (g <> f) by (intros ->; by destruct (K3 _ _ E')).
    rewrite lookup_insert_ne by done. split_and!; [by eapply H6|congruence|].
    intros Hx. destruct (H8 g) as (_ & _ & K); [by right|]. by destruct (K _ _ E').
  - intros g Eg. assert (g = f) as -> by congruence. rewrite lookup_insert_eq. done.
  - intros g Hx. assert (g <> f) by (by intros ->). rewrite lookup_insert_ne by done.
    destruct (H8 g) as (J1 & J2 & J3); [by right|]. split; [done|]. rewrite count_cons in J2.
    cbn [fd_of] in J2. destruct (f =? g)%nat eqn:Efg; [breflect; congruence|]. done.
Qed.

(** The descriptors of threads, between socket() and the session that adopts it. *)
Lemma inv_raw k fds T T' :
  sock_inv k T ->
  (forall x, (forall f, x <> TFd f) -> x ∈ T' <-> x ∈ T) ->
  (forall g, (forall f, g (TFd f) = false) -> count g T' = count g T) ->
  (forall id s f, get_session id k = Some s -> s_fd s = Some f -> is_Some (fds !! f) /\ TFd f ∉ T') ->
  (forall f, TFd f ∈ T' -> is_Some (fds !! f) /\ count (fd_of f) T' = 1) ->
  sock_inv (set_fds fds k) T'.
Proof.
  intros [[H1 H2 H3 H6 H7 H8] [L1 L2 L3]] Hin Hc Hs Hraw.
  assert (G : forall id, get_session id (set_fds fds k) = get_session id k) by done.
  split; split; cbn [sk_fds sk_list sk_count set_fds]; try done.
  - intros id s E. destruct (H1 _ _ E) as [G1 G2 G3 G4 G5 G6]. by split; rewrite ?Hc.
  - intros x id Hx Ht. rewrite G. apply (H2 x); [|done]. apply Hin; [|done]. by intros f ->.
  - intros id d s Hx. rewrite Hin in Hx by done. rewrite G. eauto.
  - intros id s f E F. by apply (Hs id s).
  - intros f Hx. destruct (Hraw f Hx). split_and!; [done..|]. intros id s E F. by apply (Hs id s) in F as [_ []].
Qed.

Lemma inv_socket k f m T :
  sock_inv k T -> sk_fds k !! f = None -> sock_inv (set_fds (<[f := m]> (sk_fds k)) k) (TFd f :: T).
Proof.
  intros H Ef. destruct (proj1 H) as [H1 H2 H3 H6 H7 H8].
  assert (Hno : TFd f ∉ T) by (intros Hx; destruct (H8 f Hx) as [[? ?] _]; congruence).
  eapply inv_raw; [done|..].
  - intros x Hx. rewrite elem_of_cons. split; [intros [->|]; [by destruct (Hx f)|done]|by right].
  - intros g Hg. by rewrite count_cons, Hg.
  - intros id s g E F. destruct (H6 _ _ _ E F) as [x Hx]. assert (g <> f) by (intros ->; congruence).
    rewrite lookup_insert_ne by done. split; [eauto|]. rewrite elem_of_cons. intros [[= ?]|Hg]; [done|].
    destruct (H8 g Hg) as (_ & _ & K). by destruct (K _ _ E).
  - intros g. rewrite elem_of_cons, count_cons. cbn [fd_of]. intros [[= ->]|Hg].
    + by rewrite lookup_insert_eq, Nat.eqb_refl, count_fd_none.
    + assert (g <> f) by (by intros ->). rewrite lookup_insert_ne by done. destruct (H8 g Hg) as (K1 & K2 & _).
      split; [done|]. rewrite K2. by rewrite (proj2 (Nat.eqb_neq f g)).
Qed.

Lemma raw_only k f T : sock_inv k (TFd f :: T) -> is_Some (sk_fds k !! f) /\ TFd f ∉ T.
Proof.
  intros H. destruct (si_raw _ _ (proj1 H) f) as (K1 & K2 & _); [by left|]. split; [done|].
  rewrite count_cons in K2. cbn [fd_of] in K2. rewrite Nat.eqb_refl in K2. cbn [Z.b2z] in K2.
  intros [i Hi]%list_elem_of_lookup.
  assert (1 <= count (fd_of f) T) by (eapply count_pos; [done|simpl; apply Nat.eqb_refl]). lia.
Qed.

Lemma inv_close k f T : sock_inv k (TFd f :: T) -> sock_inv (set_fds (delete f (sk_fds k)) k) T.
Proof.
  intros H. destruct (raw_only _ _ _ H) as [_ Hno]. destruct (proj1 H) as [H1 H2 H3 H6 H7 H8].
  eapply inv_raw; [done|..].
  - intros x Hx. rewrite elem_of_cons. split; [by right|intros [->|]; [by destruct (Hx f)|done]].
  - intros g Hg. by rewrite count_cons, Hg.
  - intros id s g E F. assert (g <> f) by (intros ->; destruct (H8 f) as (_ & _ & K); [by left|by destruct (K _ _ E)]).
    rewrite lookup_delete_ne by done. split; [by eapply H6|]. intros Hg.
    destruct (H8 g) as (_ & _ & K); [by right|]. by destruct (K _ _ E).
  - intros g Hg. assert (g <> f) by (by intros ->). rewrite lookup_delete_ne by done.
    destruct (H8 g) as (J1 & J2 & _); [by right|]. split; [done|]. rewrite count_cons in J2. cbn [fd_of] in J2.
    by rewrite (proj2 (Nat.eqb_neq f g)) in J2.
Qed.

Lemma inv_mask k f m T :
  sock_inv k T -> is_Some (sk_fds k !! f) -> sock_inv (set_fds (<[f := m]> (sk_fds k)) k) T.
Proof.
  intros H Hf. destruct (proj1 H) as [H1 H2 H3 H6 H7 H8].
  assert (Hm : forall g, is_Some (sk_fds k !! g) -> is_Some (<[f := m]> (sk_fds k) !! g)).
  { intros g Hg. destruct (decide (g = f)) as [->|]; [by rewrite lookup_insert_eq|by rewrite lookup_insert_ne]. }
  eapply inv_raw; [done|done|done|..].
  - intros id s g E F. split; [by eapply Hm, H6|]. intros Hg. destruct (H8 g Hg) as (_ & _ & K). by destruct (K _ _ E).
  - intros g Hg. destruct (H8 g Hg) as (K1 & K2 & _). auto.
Qed.

(** ** The consumer *)

(** Whose object each session's done hook will be called with. *)
Definition hook_of (s : sock_session_t) : option nat :=
  if l_done (s_life s) then Some (s_cb_data (s_ident s)) else None.

Definition hooks (k : sock) : list (option nat) := map (fun o => o ≫= hook_of) (sk_sessions k).

(** A consumer's memory holds sessions as their owner ([cl_own]) and objects whose
    references its threads hold; a session that has the hook holds one too. Its invariant
    may not depend on the order of tokens, and has to survive what the service does on its
    own: a new session, and a session freed, whose hook's reference is then the thread's
    that freed it. *)
Class SockClient (C : Type) := {
  cl_own : C -> list stok;
  cl_inv : list (option nat) -> C -> list uref -> Prop;
  cl_own_only u x : x ∈ cl_own u -> exists id, x = TOwn id;
  cl_perm hs u U U' : U ≡ₚ U' -> cl_inv hs u U -> cl_inv hs u U';
  cl_grow hs u U : cl_inv hs u U -> cl_inv (hs ++ [None]) u U;
  cl_free hs u U id d :
    cl_inv hs u U -> hs !! id = Some (Some d) -> TOwn id ∉ cl_own u ->
    cl_inv (<[id := None]> hs) u (UData d :: U)
}.

Definition cb_of (k : sock) (id : nat) : nat := default O ((fun s => s_cb_data (s_ident s)) <$> get_session id k).

Definition legs_tok (k : sock) : list stok := map (fun l => THeld l.1 (Some (cb_of k l.1))) (sk_legs k).

Section client.
Context {C : Type} `{!SockClient C}.

(** The tokens of all threads, of the connect legs and of the consumer's memory are all there are. *)
Definition world_inv (w : world C) (T : list stok) : Prop :=
  sock_inv (w_sock w) (T ++ legs_tok (w_sock w) ++ cl_own (w_user w)) /\
  cl_inv (hooks (w_sock w)) (w_user w) (users T).

Lemma world_inv_perm w T T' : T ≡ₚ T' -> world_inv w T -> world_inv w T'.
Proof.
  intros Hp [H1 H2]. split.
  - eapply sock_inv_perm; [|exact H1]. by rewrite Hp.
  - eapply cl_perm; [|exact H2]. by apply users_perm.
Qed.

Definition WP {R} (p : prog (world C) answer R) (Q : R -> list stok -> Prop) (t : list stok) : Prop :=
  wp world_inv p Q t.

(** A function that gives back what it was given. *)
Definition keeps {R} (t : list stok) (p : prog (world C) answer R) : Prop := WP p (fun _ t' => t' = t) t.

Lemma wp_seq {R R'} (p : prog (world C) answer R) (f : R -> prog (world C) answer R') Q t (Q' : R -> list stok -> Prop) :
  WP p Q' t -> (forall r t', Q' r t' -> WP (f r) Q t') -> WP (p ≫= f) Q t.
Proof. intros H1 H2. apply wp_bind. eapply wp_mono; [|exact H1]. exact H2. Qed.

Lemma wp_then {R R'} (p : prog (world C) answer R) (f : R -> prog (world C) answer R') Q t :
  keeps t p -> (forall r, WP (f r) Q t) -> WP (p ≫= f) Q t.
Proof. intros H1 H2. eapply wp_seq; [exact H1|]. by intros r t' ->. Qed.

Lemma keeps_ret {R} t (r : R) : keeps t (Ret r).
Proof. done. Qed.

Lemma keeps_when t b (p : prog (world C) answer unit) : keeps t p -> keeps t (when b p).
Proof. by destruct b. Qed.

(** What an action may do without a word to the consumer. *)
Record quiet (k k' : sock) : Prop := {
  q_legs : sk_legs k' = sk_legs k;
  q_hooks : hooks k' = hooks k;
  q_cb : forall id, is_Some (get_session id k) -> cb_of k' id = cb_of k id
}.

Lemma still_refl k : quiet k k.
Proof. done. Qed.

Lemma still_trans k1 k2 k3 : (forall id, is_Some (get_session id k1) -> is_Some (get_session id k2)) ->
  quiet k1 k2 -> quiet k2 k3 -> quiet k1 k3.
Proof.
  intros Hs [A1 A2 A3] [B1 B2 B3]. split; [congruence..|]. intros id Hi. rewrite B3 by auto. by apply A3.
Qed.

Lemma quiet_statics k k' : sk_sessions k' = sk_sessions k -> sk_legs k' = sk_legs k -> quiet k k'.
Proof. intros E1 E2. split; [done|unfold hooks; congruence|]. intros id _. unfold cb_of, get_session. by rewrite E1. Qed.

Lemma cb_put k id s s' id' :
  get_session id k = Some s -> s_ident s' = s_ident s -> cb_of (put_session id s' k) id' = cb_of k id'.
Proof.
  intros E Ei. unfold cb_of. assert (is_Some (get_session id k)) by eauto. rewrite get_put by done.
  case_decide; [|done]. subst. rewrite E. cbn. by rewrite Ei.
Qed.

Lemma hooks_put k id s s' :
  get_session id k = Some s -> hooks (put_session id s' k) = <[id := hook_of s']> (hooks k).
Proof. intros _. unfold hooks, put_session. cbn [sk_sessions set_sessions]. by rewrite list_fmap_insert. Qed.

Lemma hooks_lookup k id s : get_session id k = Some s -> hooks k !! id = Some (hook_of s).
Proof.
  unfold get_session, hooks. intros H. change (map ?f ?l) with (f <$> l). rewrite list_lookup_fmap.
  destruct (sk_sessions k !! id) as [[s0|]|] eqn:E; try done. injection H as ->. done.
Qed.

Lemma quiet_put k id s s' :
  get_session id k = Some s -> s_ident s' = s_ident s -> l_done (s_life s') = l_done (s_life s) ->
  quiet k (put_session id s' k).
Proof.
  intros E Ei Ed. split; [done| |intros id' _; by eapply cb_put].
  rewrite (hooks_put _ _ _ _ E). apply list_insert_id. rewrite (hooks_lookup _ _ _ E). unfold hook_of. by rewrite Ei, Ed.
Qed.

Lemma quiet_put_fds k id s s' fds :
  get_session id k = Some s -> s_ident s' = s_ident s -> l_done (s_life s') = l_done (s_life s) ->
  quiet k (put_session id s' (set_fds fds k)).
Proof.
  intros E Ei Ed. apply (still_trans _ (set_fds fds k)); [done|by apply quiet_statics|by eapply quiet_put].
Qed.

Lemma legs_same k k' T :
  (forall x id, x ∈ T ++ legs_tok k -> tok_id x = Some id -> is_Some (get_session id k)) ->
  quiet k k' -> legs_tok k' = legs_tok k.
Proof.
  intros H [E1 _ E3]. unfold legs_tok at 1. rewrite E1. unfold legs_tok.
  apply map_ext_in. intros l Hl%list_elem_of_In. do 2 f_equal. apply E3.
  apply (H (THeld l.1 (Some (cb_of k l.1)))); [|done]. apply elem_of_app. right.
  unfold legs_tok. apply list_elem_of_fmap. by exists l.
Qed.

(** *** Rules for actions *)

Definition user_same (t t' : list stok) : Prop := users t' = users t.

Lemma act_sock {B} (f : answer -> sock -> outcome (sock * B)) (Q : B -> list stok -> Prop) t :
  (forall a k X, sock_inv k (t ++ X) ->
     match f a k with
     | Ok (k', b) => exists t', Q b t' /\ sock_inv k' (t' ++ X) /\ quiet k k' /\ user_same t t'
     | Blocked => True
     | Fault => False
     end) ->
  WP (act (on_sock f)) Q t.
Proof.
  intros H. apply wp_act. intros a w R [Hk Hu]. rewrite <- app_assoc in Hk. specialize (H a _ _ Hk).
  unfold on_sock. destruct (f a (w_sock w)) as [[k' b]| |]; [|done..]. destruct H as (t' & HQ & Hk' & Hq & Hus).
  exists t'. split; [done|]. split; cbn [w_sock w_user].
  - rewrite (legs_same (w_sock w) k' (t ++ R)); [by rewrite <- app_assoc| |done].
    intros x id Hx. apply (si_gone _ _ (proj1 Hk)). set_solver.
  - rewrite (q_hooks _ _ Hq). by rewrite users_app, Hus, <- users_app.
Qed.

(** A thread that holds something of a session may use it. *)
Definition live (t : list stok) (id : nat) : Prop := exists x, x ∈ t /\ tok_id x = Some id.

Lemma live_session k t X id : sock_inv k (t ++ X) -> live t id -> is_Some (get_session id k).
Proof. intros [H _] (x & Hx & Ht). apply (si_gone _ _ H x); [set_solver|done]. Qed.

Lemma live_held t id d : THeld id d ∈ t -> live t id.
Proof. intros H. by exists (THeld id d). Qed.

Lemma live_cons t x id : live t id -> live (x :: t) id.
Proof. intros (y & Hy & Ht). exists y. split; [by apply elem_of_cons; right|done]. Qed.

Lemma live_head t x id : tok_id x = Some id -> live (x :: t) id.
Proof. intros Ht. exists x. split; [by left|done]. Qed.

Lemma act_session {B} id (f : answer -> sock -> sock_session_t -> outcome (sock * B)) (Q : B -> list stok -> Prop) t :
  live t id ->
  (forall a k s X, sock_inv k (t ++ X) -> get_session id k = Some s ->
     match f a k s with
     | Ok (k', b) => exists t', Q b t' /\ sock_inv k' (t' ++ X) /\ quiet k k' /\ user_same t t'
     | Blocked => True
     | Fault => False
     end) ->
  WP (act (on_session id f)) Q t.
Proof.
  intros Hl H. apply act_sock. intros a k X Hk. destruct (live_session _ _ _ _ Hk Hl) as [s E].
  rewrite E. by apply H.
Qed.

Lemma keeps_act {B} (f : answer -> sock -> outcome (sock * B)) t :
  (forall a k X, sock_inv k (t ++ X) ->
     match f a k with Ok (k', _) => sock_inv k' (t ++ X) /\ quiet k k' | Blocked => True | Fault => False end) ->
  keeps t (act (on_sock f)).
Proof.
  intros H. apply act_sock. intros a k X Hk. specialize (H a k X Hk).
  destruct (f a k) as [[k' b]| |]; [|done..]. exists t. by destruct H.
Qed.

Lemma keeps_session {B} id (f : answer -> sock -> sock_session_t -> outcome (sock * B)) t :
  live t id ->
  (forall a k s X, sock_inv k (t ++ X) -> get_session id k = Some s ->
     match f a k s with Ok (k', _) => sock_inv k' (t ++ X) /\ quiet k k' | Blocked => True | Fault => False end) ->
  keeps t (act (on_session id f)).
Proof.
  intros Hl H. apply act_session; [done|]. intros a k s X Hk E. specialize (H a k s X Hk E).
  destruct (f a k s) as [[k' b]| |]; [|done..]. exists t. by destruct H.
Qed.

Lemma wp_rd {B} id (f : sock_session_t -> B) t Q :
  live t id ->
  (forall s, (forall d, THeld id (Some d) ∈ t -> s_cb_data (s_ident s) = d) -> Q (f s) t) -> WP (rd id f) Q t.
Proof.
  intros Hl H. apply act_session; [done|]. intros a k s X Hk E. exists t. split_and!; [|done|done|done].
  apply H. intros d Hd. apply (si_held _ _ (proj1 Hk) id d s); [set_solver|done].
Qed.

Lemma keeps_rd {B} id (f : sock_session_t -> B) t : live t id -> keeps t (rd id f).
Proof. intros H. by apply wp_rd. Qed.

Lemma keeps_wr id f t :
  live t id -> (forall a s, core (f a s) = core s) -> (forall a s, s_out (f a s) = s_out s) -> keeps t (wr id f).
Proof.
  intros Hl Hc Ho. apply keeps_session; [done|]. intros a k s X Hk E. specialize (Hc a s).
  assert (Hs := si_sess _ _ (proj1 Hk) _ _ E). split.
  - eapply inv_put; [done|done|done|]. rewrite Ho. by destruct Hs.
  - injection Hc as ? Hl' ? ?. eapply quiet_put; [done|done|by rewrite Hl'].
Qed.

Lemma keeps_statics {B} (f : answer -> sock -> sock * B) t :
  (forall a k, let k' := (f a k).1 in
     sk_sessions k' = sk_sessions k /\ sk_list k' = sk_list k /\ sk_count k' = sk_count k /\
     sk_fds k' = sk_fds k /\ sk_legs k' = sk_legs k) ->
  keeps t (act (on_sock (fun a k => Ok (f a k)))).
Proof.
  intros H. apply keeps_act. intros a k X Hk. destruct (H a k) as (E1 & E2 & E3 & E4 & E5).
  destruct (f a k) as [k' b]. split; [by apply (sock_inv_statics k)|by apply quiet_statics].
Qed.
End client.
