(* ===== verification/SockSafe.v ===== *)
(** * The functions of the socket service keep its invariant

    For each function of [Sock], the tokens it is started with and those it ends with. *)

From S2P Require Import Prelude Conc Sock SockOk.

(** ** The send queue *)

Definition requeue (o : sess_out) (q : list sock_sendbuf_t) : sess_out :=
  mk_out q (o_queued o) (o_bytes_out o) (o_accepted o) (o_wire o).

Lemma requeue_same o : requeue o (o_queue o) = o.
Proof. by destruct o. Qed.

Lemma pending_cons sb q : pending (sb :: q) = drop (sb_offset sb) (sb_data sb) ++ pending q.
Proof. done. Qed.

Lemma wrap_sub_add w a b : wrap w (wrap w a - b) = wrap w (a - b).
Proof. unfold wrap. by rewrite Zminus_mod_idemp_l. Qed.

(** The kernel took [n] bytes of the first buffer, and they were not all. *)
Lemma out_part sb q o n :
  out_ok (requeue o (sb :: q)) -> (n <= length (sb_data sb) - sb_offset sb)%nat ->
  let o' := mk_out (mk_sbuf (sb_data sb) (sb_offset sb + n) :: q) (wrap 32 (o_queued o - Z.of_nat n))
              (wrap 64 (o_bytes_out o + Z.of_nat n)) (o_accepted o)
              (o_wire o ++ take n (drop (sb_offset sb) (sb_data sb))) in
  o_wire o' ++ pending (o_queue o') = o_accepted o' /\
  o_queued o' = wrap 32 (Z.of_nat (length (pending (o_queue o')))) /\
  o_bytes_out o' = wrap 64 (Z.of_nat (length (o_wire o'))) /\
  Forall (fun sb => (sb_offset sb < length (sb_data sb))%nat) q.
Proof.
  intros [H1 H2 H3 H4] Hn. cbn [requeue o_wire o_queue o_accepted o_queued o_bytes_out] in *.
  rewrite pending_cons in *. cbn [sb_offset sb_data] in *. rewrite <- drop_drop. set (d := drop _ _) in *.
  assert (Hd : (n <= length d)%nat) by (unfold d; rewrite length_drop; lia).
  split_and!.
  - rewrite <- H1, <- !app_assoc. f_equal. rewrite app_assoc. by rewrite take_drop.
  - rewrite H2, wrap_sub_add. f_equal. rewrite !length_app, length_drop. lia.
  - rewrite H3, wrap_add. f_equal. rewrite length_app, length_take. lia.
  - by apply Forall_inv_tail in H4.
Qed.

Lemma drain_loop_ok q : forall ws tls o, out_ok (requeue o q) -> out_ok (drain_loop ws tls o q).
Proof.
  induction q as [|sb q IH]; intros ws tls o H; [done|]. cbn [drain_loop].
  destruct (if tls then _ else _); [done|].
  set (n := Nat.min _ _). assert (Hn : (n <= length (sb_data sb) - sb_offset sb)%nat) by (unfold n; lia).
  destruct (out_part sb q o n H Hn) as (A1 & A2 & A3 & A4). clearbody n.
  cbn [o_queue o_wire o_accepted o_queued o_bytes_out] in *.
  case_match eqn:E; breflect; [split; try done; by constructor|].
  apply IH. rewrite pending_cons in *. cbn [sb_offset sb_data] in *.
  assert (En : drop (sb_offset sb + n) (sb_data sb) = []) by (apply list.drop_ge; lia).
  rewrite En in *. cbn [app] in *. by split.
Qed.

(** What is sent is what the histories say, in order. *)
Lemma drain_loop_wire q : forall ws tls o, exists x,
  o_wire (drain_loop ws tls o q) = o_wire o ++ x /\ o_accepted (drain_loop ws tls o q) = o_accepted o.
Proof.
  induction q as [|sb q IH]; intros ws tls o; cbn [drain_loop]; [exists []; by rewrite app_nil_r|].
  destruct (if tls then _ else _); [exists []; by rewrite app_nil_r|].
  case_match; [eexists; done|]. destruct (IH (tl ws) tls
    (mk_out (sb :: q) (wrap 32 (o_queued o - Z.of_nat (Nat.min (Z.to_nat (hd (-1) ws)) (length (sb_data sb) - sb_offset sb))))
       (wrap 64 (o_bytes_out o + Z.of_nat (Nat.min (Z.to_nat (hd (-1) ws)) (length (sb_data sb) - sb_offset sb))))
       (o_accepted o) (o_wire o ++ take (Nat.min (Z.to_nat (hd (-1) ws)) (length (sb_data sb) - sb_offset sb))
                         (drop (sb_offset sb) (sb_data sb))))) as (x & E1 & E2).
  exists (take (Nat.min (Z.to_nat (hd (-1) ws)) (length (sb_data sb) - sb_offset sb)) (drop (sb_offset sb) (sb_data sb)) ++ x).
  rewrite app_assoc. done.
Qed.

Section safe.
Context {C : Type} `{!SockClient C}.

Notation P := (prog (world C) answer).

(** The thread knows that the session has the hook. *)
Definition hooked (t : list stok) (id : nat) : Prop := exists d, THeld id (Some d) ∈ t.

Lemma hooked_live t id : hooked t id -> live t id.
Proof. intros [d Hd]. by eapply live_held. Qed.

Ltac live_tac := first [assumption | by apply live_cons | by apply live_head | by eapply live_held].

Lemma drain_keeps t id : live t id -> keeps t (sock_drain_sendq (C := C) id).
Proof.
  intros Hl. apply keeps_session; [done|]. intros a k s X Hk E.
  destruct (si_sess _ _ (proj1 Hk) _ _ E) as [_ _ _ Ho _ _]. cbn zeta.
  destruct (s_fd s) as [f|] eqn:Ef; [|done]. destruct (o_queue (s_out s)) as [|sb q] eqn:Eq; [done|].
  destruct (si_open _ _ (proj1 Hk) _ _ _ E Ef) as [m Em]. rewrite Em. cbn zeta.
  set (o' := drain_loop _ _ _ _).
  assert (H1 : sock_inv (put_session id (with_out o' s) k) (t ++ X)).
  { eapply inv_put; [done|done|done|]. cbn [with_out s_out]. apply drain_loop_ok. rewrite <- Eq.
    by rewrite requeue_same. }
  assert (Hq : quiet k (put_session id (with_out o' s) k)) by (by eapply quiet_put).
  split; [by eapply sock_inv_statics; [..|exact H1]|].
  eapply still_trans; [|exact Hq|by apply quiet_statics]. intros id' Hi. rewrite get_put by eauto. by case_decide.
Qed.

Lemma wake_keeps t id : live t id -> keeps t (sock_wake_worker (C := C) id).
Proof.
  intros Hl. eapply wp_then; [by apply keeps_rd|]. intros w. by apply keeps_statics.
Qed.

Lemma send_keeps t id data : live t id -> keeps t (sock_send (C := C) id data).
Proof.
  intros Hl. destruct data as [|c d]; [done|]. cbn [sock_send]. eapply wp_then; [by apply keeps_rd|]. intros st.
  destruct (negb _); [done|]. eapply wp_then.
  - apply keeps_session; [done|]. intros a k s X Hk E. cbn zeta.
    destruct (si_sess _ _ (proj1 Hk) _ _ E) as [_ _ _ Ho _ _].
    destruct (_ && _); [split; [by eapply inv_put|by eapply quiet_put]|].
    split; [|by eapply quiet_put]. eapply inv_put; [done|done|done|]. cbn [with_out s_out].
    destruct Ho as [A1 A2 A3 A4]. unfold sock_sbuf_alloc.
    assert (Ep : pending (o_queue (s_out s) ++ [mk_sbuf (c :: d) 0]) = pending (o_queue (s_out s)) ++ c :: d).
    { unfold pending. rewrite map_app, concat_app. cbn [map concat sb_offset sb_data]. by rewrite drop_0, app_nil_r. }
    split; cbn [o_wire o_queue o_accepted o_queued o_bytes_out]; rewrite ?Ep; try done.
    + by rewrite app_assoc, A1.
    + rewrite A2, wrap_add. rewrite length_app. unfold wrap. rewrite Zplus_mod_idemp_r. f_equal. lia.
    + apply Forall_app. split; [done|]. constructor; [cbn; lia|constructor].
  - intros [full need]. destruct full; [done|]. eapply wp_then; [apply keeps_when; by apply wake_keeps|done].
Qed.

(** ** Descriptors *)

Lemma close_fd_keeps t id : live t id -> keeps t (sock_session_close_fd (C := C) id).
Proof.
  intros Hl. apply keeps_session; [done|]. intros a k s X Hk E. cbn zeta.
  set (s' := with_state _ _). assert (Hs := si_sess _ _ (proj1 Hk) _ _ E).
  destruct (s_fd s) as [f|] eqn:Ef.
  - destruct (inv_drop_fd k id s s' f _ Hk E Ef) as [[m Em] H]; try done; [by destruct Hs|by right; auto|]. rewrite Em.
    split; [done|by eapply quiet_put_fds].
  - split; [|by eapply quiet_put]. eapply inv_write; try done; [by destruct Hs|by right; auto].
Qed.

Lemma rearm_keeps t id want : live t id -> keeps t (sock_epoll_rearm (C := C) id want).
Proof.
  intros Hl. eapply wp_then.
  - apply keeps_session; [done|]. intros a k s X Hk E. destruct (s_fd s) as [f|] eqn:Ef; [|done].
    destruct (si_open _ _ (proj1 Hk) _ _ _ E Ef) as [m Em]. rewrite Em. destruct (a_err a =? 0); [|done].
    split; [by apply inv_mask|by apply quiet_statics].
  - intros err. destruct (negb _); [done|]. by apply keeps_wr.
Qed.

Lemma pending_error_keeps t id : live t id -> keeps t (sock_pending_error (C := C) id).
Proof.
  intros Hl. apply keeps_session; [done|]. intros a k s X Hk E. destruct (s_fd s) as [f|] eqn:Ef; [|done].
  destruct (si_open _ _ (proj1 Hk) _ _ _ E Ef) as [m Em]. by rewrite Em.
Qed.

Lemma socket_ok t : WP (C := C) socket_ (fun r t' => t' = match r with inl f => TFd f :: t | inr _ => t end) t.
Proof.
  apply act_sock. intros a k X Hk. destruct (negb _); [by exists t|].
  destruct (sk_fds k !! a_fd a) eqn:Ef; [done|]. exists (TFd (a_fd a) :: t).
  split_and!; [done|by apply inv_socket|by apply quiet_statics|done].
Qed.

Lemma connect_keeps t f : keeps (C := C) (TFd f :: t) (connect_ f).
Proof.
  apply keeps_act. intros a k X Hk. destruct (raw_only _ _ _ Hk) as [[m Em] _]. by rewrite Em.
Qed.

Lemma fd_close_ok t f : WP (C := C) (close_ f) (fun _ t' => t' = t) (TFd f :: t).
Proof.
  apply act_sock. intros a k X Hk. destruct (raw_only _ _ _ Hk) as [[m Em] _]. rewrite Em.
  exists t. split_and!; try done. by apply (inv_close k f (t ++ X)).
Qed.

Lemma adopt_ok t id f events :
  hooked t id -> WP (C := C) (sock_adopt_fd id f events) (fun _ t' => t' = t) (TFd f :: t).
Proof.
  intros [d Hd]. eapply wp_seq with (Q' := fun err t' => t' = if err =? 0 then t else TFd f :: t).
  - apply act_session; [by eapply live_cons, live_held|]. intros a k s X Hk E. cbn [app] in Hk.
    destruct (raw_only _ _ _ Hk) as [[m Em] _]. rewrite Em. destruct (a_err a =? 0) eqn:Ea.
    + exists t. set (s' := with_io _ _). assert (Hs := si_sess _ _ (proj1 Hk) _ _ E).
      destruct (inv_adopt k id s s' f events _ Hk E) as [_ H]; try done; [by destruct Hs|left|].
      { by apply (si_held _ _ (proj1 Hk) id d s); [set_solver|]. }
      split_and!; [done|done|by eapply quiet_put_fds|done].
    + exists (TFd f :: t). split_and!; try done. by rewrite Ea.
  - intros err t' ->. destruct (err =? 0); [done|]. eapply wp_seq; [apply fd_close_ok|]. by intros _ t' ->.
Qed.

Lemma ssl_set_fd_keeps t id : live t id -> keeps t (ssl_set_fd (C := C) id).
Proof.
  intros Hl. apply keeps_session; [done|]. intros a k s X Hk E. destruct (io_tls _); [done|].
  split; [by eapply sock_inv_statics; [..|exact Hk]|by apply quiet_statics].
Qed.

(** ** References *)

Lemma hold_ok t id d :
  THeld id (Some d) ∈ t -> WP (C := C) (sock_hold id) (fun _ t' => t' = THeld id (Some d) :: t) t.
Proof.
  intros Hd. apply act_sock. intros a k X Hk. unfold hold_locked.
  destruct (live_session _ _ _ id Hk) as [s E]; [by eapply live_held|]. rewrite E.
  exists (THeld id (Some d) :: t). split_and!; [done| |by eapply quiet_put|done].
  apply (inv_hold k id s (t ++ X)); [done|done| |].
  - destruct (si_sess _ _ (proj1 Hk) _ _ E) as [G1 _ _ _ _ _].
    assert (1 <= count (held_of id) (t ++ X)).
    { apply list_elem_of_lookup in Hd as [i Hi]. eapply (count_pos _ _ i); [by apply lookup_app_l_Some|].
      simpl. apply Nat.eqb_refl. }
    pose proof (count_range (own_of id) (t ++ X)). lia.
  - intros d' [= <-]. apply (si_held _ _ (proj1 Hk) id d s); [set_solver|done].
Qed.

Lemma scan_list_ok f k l :
  (forall id, id ∈ l -> is_Some (get_session id k)) ->
  match scan_list f k l with
  | Ok (Some (id, s)) => id ∈ l /\ get_session id k = Some s /\ f s = true
  | Ok None => True
  | _ => False
  end.
Proof.
  induction l as [|id l IH]; intros H; [done|]. cbn [scan_list].
  destruct (H id) as [s E]; [by left|]. rewrite E. destruct (f s) eqn:Ef; [split; [by left|done]|].
  specialize (IH (fun i Hi => H i (proj2 (elem_of_cons _ _ _) (or_intror Hi)))).
  destruct (scan_list f k l) as [[[i s']|]| |]; try done. destruct IH as (? & ? & ?). split; [by right|done].
Qed.

Lemma listed_session k T id : sock_inv k T -> id ∈ sk_list k ->
  exists s, get_session id k = Some s /\ l_refs (s_life s) <> 0.
Proof.
  intros [H [_ L2 _]] (s & E & Ed)%L2. exists s. split; [done|]. destruct (si_sess _ _ H _ _ E) as [G1 G2 _ _ _].
  rewrite Ed in G2. cbn in G2. pose proof (count_range (held_of id) T). lia.
Qed.

(** Whatever the walk of sock_list stops at is held, and known to have the hook if [f] says so. *)
Lemma scan_hold_ok f t (g : sock_session_t -> option nat) a k X :
  sock_inv k (t ++ X) ->
  (forall T id s, sess_ok T id s -> f s = true -> forall d, g s = Some d -> l_done (s_life s) = true /\ s_cb_data (s_ident s) = d) ->
  match scan_list f k (sk_list k) with
  | Ok (Some (id, s)) =>
      f s = true /\ get_session id k = Some s /\
      sock_inv (put_session id (hold 1 s) k) (THeld id (g s) :: t ++ X) /\ quiet k (put_session id (hold 1 s) k)
  | Ok None => True
  | _ => (a : answer) <> a
  end.
Proof.
  intros Hk Hg. pose proof (scan_list_ok f k (sk_list k)) as H.
  destruct (scan_list f k (sk_list k)) as [[[id s]|]| |]; try done;
    try (destruct H; intros id Hi; by destruct (listed_session _ _ _ Hk Hi) as (s & -> & _)).
  destruct H as (Hi & E & Hf); [intros i Hi; by destruct (listed_session _ _ _ Hk Hi) as (s0 & -> & _)|].
  destruct (listed_session _ _ _ Hk Hi) as (s0 & E' & Hr). assert (s0 = s) as -> by congruence.
  split_and!; [done|done| |by eapply quiet_put]. apply inv_hold; [done|done|done|].
  eapply Hg; [|done]. by apply (si_sess _ _ (proj1 Hk)).
Qed.

Lemma hold_by_id_ok t ev :
  WP (C := C) (sock_hold_by_id ev)
    (fun r t' => match r with Some id => t' = THeld id None :: t | None => t' = t end) t.
Proof.
  apply act_sock. intros a k X Hk.
  pose proof (scan_hold_ok (fun s => s_id (s_ident s) =? ev) t (fun _ => None) a k X Hk) as H.
  destruct (scan_list _ k (sk_list k)) as [[[id s]|]| |];
    [|by exists t|by destruct H|by destruct H].
  destruct H as (_ & _ & H1 & H2); [done|]. exists (THeld id None :: t). split_and!; [done..|done].
Qed.

(** The tokens of threads, legs and consumer again, after the action that frees a session. *)
Lemma legs_free k id :
  (forall x, x ∈ legs_tok k -> tok_id x <> Some id) ->
  legs_tok (set_sessions (<[id := None]> (sk_sessions k)) k) = legs_tok k.
Proof.
  intros H. unfold legs_tok. cbn [sk_legs set_sessions]. apply map_ext_in. intros l Hl%list_elem_of_In.
  do 2 f_equal. unfold cb_of. rewrite get_free. case_decide as E; [|done].
  destruct (H (THeld l.1 (Some (cb_of k l.1)))); [|by rewrite <- E].
  unfold legs_tok. apply list_elem_of_fmap. by exists l.
Qed.

Context (done : nat -> P unit).
Hypothesis done_ok : forall d t, WP (done d) (fun _ t' => t' = t) (TUser (UData d) :: t).

Lemma free_ok t id : WP (sock_free done id) (fun _ t' => t' = t) (TFree id :: t).
Proof.
  eapply wp_seq with (Q' := fun h t' => t' = match h with Some d => TUser (UData d) :: t | None => t end).
  2: { intros [d|] t' ->; [apply done_ok|done]. }
  apply wp_act. intros a w R [Hk Hu]. rewrite <- app_assoc in Hk.
  unfold on_session, on_sock. destruct (live_session _ _ _ id Hk) as [s E]; [by apply live_head|]. rewrite E.
  cbn [app] in Hk. destruct (inv_free _ _ _ _ Hk E) as (Hk' & Hd & Hno). rewrite <- (legs_free _ id) in Hk' by (intros x Hx; apply Hno; set_solver).
  assert (Hh : hooks (w_sock w) !! id = Some (hook_of s)) by (by apply hooks_lookup).
  assert (Eh : hooks (set_sessions (<[id := None]> (sk_sessions (w_sock w))) (w_sock w)) = <[id := None]> (hooks (w_sock w)))
    by (unfold hooks; cbn [sk_sessions set_sessions]; by rewrite list_fmap_insert).
  assert (Ho : TOwn id ∉ cl_own (w_user w)) by (intros Hx; apply (Hno (TOwn id)); [set_solver|done]).
  exists (match hook_of s with Some d => TUser (UData d) :: t | None => t end). split; [by unfold hook_of; destruct (l_done _)|].
  split; cbn [w_sock w_user].
  - eapply sock_inv_perm; [|exact (inv_user_tok _ _ (UData <$> hook_of s) Hk')]. rewrite <- app_assoc. by destruct (hook_of s).
  - rewrite Eh. destruct (hook_of s) as [d|].
    + by apply cl_free.
    + by rewrite list_insert_id by done.
Qed.

Lemma release_ok t id d : WP (sock_release done id) (fun _ t' => t' = t) (THeld id d :: t).
Proof.
  eapply wp_seq with (Q' := fun (last : bool) t' => t' = if last then TFree id :: t else t).
  2: { intros last t' ->. destruct last; [apply free_ok|done]. }
  apply act_session; [by apply live_head|]. intros a k s X Hk E. cbn [app] in Hk. cbn zeta.
  destruct (inv_unhold k id s (t ++ X) E d Hk) as [H1 H2].
  assert (Er : l_refs (s_life (hold (-1) s)) = l_refs (s_life s) - 1) by (cbn; lia). rewrite Er.
  change (l_detached (s_life (hold (-1) s))) with (l_detached (s_life s)). rewrite H2.
  eexists. split_and!; [done| |by eapply quiet_put|].
  - by destruct (l_refs (s_life s) - 1 =? 0).
  - by destruct (l_refs (s_life s) - 1 =? 0).
Qed.

Lemma destroy_ok t id : WP (sock_destroy done id) (fun _ t' => t' = t) (TOwn id :: t).
Proof.
  assert (Hl : live (TOwn id :: t) id) by (by apply live_head).
  eapply wp_then; [by apply keeps_rd|]. intros st.
  eapply wp_then; [apply keeps_when; by apply close_fd_keeps|]. intros _.
  eapply wp_seq with (Q' := fun (last : bool) t' => t' = if last then TFree id :: t else t).
  2: { intros last t' ->. destruct last; [apply free_ok|done]. }
  apply act_session; [done|]. intros a k s X Hk E. cbn [app] in Hk. cbn zeta.
  destruct (inv_destroy k id s (t ++ X) Hk E) as [H1 H2]. fold (let_go s). rewrite bool_decide_true by done.
  change (l_refs (s_life (let_go s))) with (l_refs (s_life s) - 1).
  eexists. split_and!; [done| | |].
  - by destruct (l_refs (s_life s) - 1 =? 0).
  - set (k1 := set_list _ _ k). assert (E1 : get_session id k1 = Some s) by done.
    apply (still_trans k k1); [done|by apply quiet_statics|by eapply quiet_put].
  - by destruct (l_refs (s_life s) - 1 =? 0).
Qed.

Lemma create_ok t name type d :
  WP (C := C) (sock_create name type d)
    (fun r t' => match r with Some id => t' = TNew id d :: t | None => t' = t end) t.
Proof.
  eapply wp_then; [by apply keeps_statics|]. intros ready. destruct (negb ready); [done|].
  eapply wp_then; [by apply keeps_statics|]. intros full. destruct full; [done|].
  eapply wp_seq with (Q' := fun id t' => t' = TNew id d :: t); [|by intros id t' ->].
  apply wp_act. intros a w R [Hk Hu]. rewrite <- app_assoc in Hk. unfold on_sock. set (s := mk_session _ _ _ _ _ _ _ _ _ _ _ _ _).
  set (k := w_sock w) in *. set (k1 := set_list _ _ _). cbn zeta.
  assert (H1 : sock_inv k1 (TNew (length (sk_sessions k)) d :: t ++ R ++ legs_tok k ++ cl_own (w_user w))).
  { by apply (inv_create k s). }
  assert (Eg : forall id, is_Some (get_session id k) -> cb_of k1 id = cb_of k id).
  { intros id Hi. unfold cb_of. change (get_session id k1) with (get_session id (set_sessions (sk_sessions k ++ [Some s]) k)).
    rewrite get_new. case_decide; [|done]. subst. rewrite get_new_fresh in Hi. by destruct Hi. }
  assert (El : legs_tok k1 = legs_tok k).
  { unfold legs_tok. apply map_ext_in. intros l Hl%list_elem_of_In. do 2 f_equal. apply Eg.
    apply (si_gone _ _ (proj1 Hk) (THeld l.1 (Some (cb_of k l.1)))); [|done].
    rewrite !elem_of_app. right. right. left. unfold legs_tok. apply list_elem_of_fmap. by exists l. }
  exists (TNew (length (sk_sessions k)) d :: t). split; [done|]. split; cbn [w_sock w_user].
  - change (legs_tok (set_next ?a ?b k1)) with (legs_tok k1). rewrite El, <- app_assoc. cbn [app].
    by eapply sock_inv_statics; [..|exact H1].
  - change (hooks (set_next ?a ?b k1)) with (hooks (set_sessions (sk_sessions k ++ [Some s]) k)).
    unfold hooks. cbn [sk_sessions set_sessions]. rewrite map_app. cbn [map mbind option_bind].
    change (hook_of s) with (@None nat). by apply cl_grow.
Qed.

(** ** Connecting *)

Lemma set_state_keeps t id st : hooked t id -> keeps t (set_state (C := C) id st).
Proof.
  intros [d Hd]. apply keeps_session; [by eapply live_held|]. intros a k s X Hk E.
  assert (Hs := si_sess _ _ (proj1 Hk) _ _ E). split; [|by eapply quiet_put].
  eapply inv_write; try done; [by destruct Hs|]. left.
  apply (si_held _ _ (proj1 Hk) id d s); [set_solver|done].
Qed.

Lemma set_tls_keeps t id verify : live t id -> keeps t (sock_set_tls (C := C) id verify).
Proof.
  intros Hl. eapply wp_then; [by apply keeps_rd|]. intros st. destruct (negb _); [done|].
  eapply wp_then; [by apply keeps_rd|]. intros ty. destruct (negb _); [done|].
  apply keeps_session; [done|]. intros a k s X Hk E. destruct (negb _); [done|].
  assert (Hs := si_sess _ _ (proj1 Hk) _ _ E). split; [|by eapply quiet_put].
  eapply inv_put; [done|done|done|by destruct Hs].
Qed.

Lemma submit_leg_ok t id d unix :
  WP (C := C) (act (on_sock (fun a k =>
       if a_err a =? 0 then Ok (set_legs (sk_legs k ++ [(id, unix)]) k, true) else Ok (k, false))))
    (fun (ok : bool) t' => t' = if ok then t else THeld id (Some d) :: t) (THeld id (Some d) :: t).
Proof.
  apply wp_act. intros a w R [Hk Hu]. unfold on_sock. destruct (a_err a =? 0).
  - exists t. split; [done|]. split; cbn [w_sock w_user]; [|done].
    destruct (si_gone _ _ (proj1 Hk) (THeld id (Some d)) id) as [s E]; [by left|done|].
    assert (Ed : cb_of (w_sock w) id = d).
    { unfold cb_of. rewrite E. cbn. apply (si_held _ _ (proj1 Hk) id d s); [by left|done]. }
    unfold legs_tok at 1. cbn [sk_legs set_legs]. rewrite map_app. cbn [map fst].
    change (cb_of (set_legs ?x ?k) ?i) with (cb_of k i). rewrite Ed. fold (legs_tok (w_sock w)).
    apply (sock_inv_statics (w_sock w)); [done..|]. eapply sock_inv_perm; [|exact Hk].
    change (map (fun l => THeld l.1 (Some (cb_of (set_legs ?x (w_sock w)) l.1))) (sk_legs (w_sock w)))
      with (legs_tok (w_sock w)). solve_Permutation.
  - exists (THeld id (Some d) :: t). done.
Qed.

Lemma sock_connect_keeps t id host port path :
  hooked t id -> keeps t (sock_connect done id host port path).
Proof.
  intros [d Hd]. assert (Hl : live t id) by (by eapply live_held). assert (Hh : hooked t id) by (by exists d).
  eapply wp_then; [by apply keeps_rd|]. intros st. destruct (_ && _); [done|].
  eapply wp_then; [by apply keeps_rd|]. intros ty. cbn zeta.
  destruct (if type_is ty SOCK_UNIX then path else host) as [[|c x]|]; [done| |done].
  eapply wp_then; [apply keeps_wr; [done|intros; by destruct (type_is _ _)..]|]. intros _.
  eapply wp_then; [by apply set_state_keeps|]. intros _.
  eapply wp_then; [by apply keeps_wr|]. intros _.
  eapply wp_seq; [by apply hold_ok|]. intros _ t' ->.
  eapply wp_seq; [apply submit_leg_ok|]. intros [] t' ->; [done|].
  eapply wp_then; [apply set_state_keeps; exists d; by left|]. intros _.
  eapply wp_seq; [apply release_ok|]. by intros _ t' ->.
Qed.

(** ** Events *)

Context (cb : nat -> sock_event_t -> P unit).
Hypothesis cb_ok : forall d ev t, THeld (ev_session ev) (Some d) ∈ t -> keeps t (cb d ev).

Lemma deliver_keeps t id type data err : hooked t id -> keeps t (sock_deliver cb id type data err).
Proof.
  intros [d Hd]. eapply wp_then; [by apply keeps_statics|]. intros _.
  eapply wp_seq with (Q' := fun d' t' => d' = d /\ t' = t).
  - apply wp_rd; [by eapply live_held|]. intros s Hs. auto.
  - intros d' t' [-> ->]. by apply cb_ok.
Qed.

Lemma close_deliver_keeps t id type err : hooked t id -> keeps t (close_and_deliver cb id type err).
Proof.
  intros H. eapply wp_then; [by apply close_fd_keeps, hooked_live|]. intros _. by apply deliver_keeps.
Qed.

Lemma touch_keeps t id : live t id -> keeps t (touch (C := C) id).
Proof. intros H. by apply keeps_wr. Qed.

Lemma connected_at_keeps t id : live t id -> keeps t (set_connected_at (C := C) id).
Proof. intros H. by apply keeps_wr. Qed.

Lemma connected_keeps t id : hooked t id -> keeps t (connected (C := C) id).
Proof.
  intros H. eapply wp_then; [by apply set_state_keeps|]. intros _.
  eapply wp_then; [by apply touch_keeps, hooked_live|]. intros _. by apply connected_at_keeps, hooked_live.
Qed.

Lemma ssl_connect_keeps t id : live t id -> keeps t (ssl_connect (C := C) id).
Proof.
  intros Hl. apply keeps_session; [done|]. intros a k s X Hk E. destruct (s_fd s) as [f|] eqn:Ef; [|done].
  destruct (negb _); [done|]. destruct (si_open _ _ (proj1 Hk) _ _ _ E Ef) as [m Em]. by rewrite Em.
Qed.

Lemma handshake_keeps t id : hooked t id -> keeps t (sock_tls_handshake cb id).
Proof.
  intros H. assert (Hl := hooked_live _ _ H). eapply wp_then; [by apply ssl_connect_keeps|].
  intros [| |w|]; [done|..].
  - eapply wp_then; [by apply set_state_keeps|]. intros _.
    eapply wp_then; [by apply touch_keeps|]. intros _. eapply wp_then; [by apply connected_at_keeps|]. intros _.
    eapply wp_then; [by apply rearm_keeps|]. intros _. by eapply wp_then; [apply deliver_keeps|].
  - by eapply wp_then; [apply rearm_keeps|].
  - by eapply wp_then; [apply close_deliver_keeps|].
Qed.

Lemma leg_failed_keeps t id err : hooked t id -> keeps t (leg_failed cb id err).
Proof. intros H. eapply wp_then; [by apply deliver_keeps|]. intros _. by apply set_state_keeps. Qed.

Lemma leg_connecting_keeps t id : hooked t id -> keeps t (leg_connecting (C := C) id).
Proof. intros H. eapply wp_then; [by apply set_state_keeps|]. intros _. by apply wake_keeps, hooked_live. Qed.

Lemma start_tls_keeps t id rearm : hooked t id -> keeps t (start_tls cb id rearm).
Proof.
  intros H. assert (Hl := hooked_live _ _ H). eapply wp_then; [by apply ssl_set_fd_keeps|]. intros _.
  eapply wp_then; [by apply set_state_keeps|]. intros _.
  eapply wp_then; [by apply keeps_when, rearm_keeps|]. intros _. by eapply wp_then; [apply handshake_keeps|].
Qed.

Lemma adopt_then t id f events (p : option Z -> P unit) :
  hooked t id -> (forall e, keeps t (p e)) ->
  WP (sock_adopt_fd id f events ≫= p) (fun _ t' => t' = t) (TFd f :: t).
Proof. intros H Hp. eapply wp_seq; [by apply adopt_ok|]. intros e t' ->. apply Hp. Qed.

Lemma unix_task_ok t id d : WP (sock_unix_connect_task done cb id) (fun _ t' => t' = t) (THeld id (Some d) :: t).
Proof.
  set (u := THeld id (Some d) :: t). assert (H : hooked u id) by (exists d; by left).
  eapply wp_seq; [apply socket_ok|]. intros fd t' ->.
  eapply wp_seq with (Q' := fun _ t' => t' = u); [|intros _ t' ->; apply release_ok].
  destruct fd as [f|err]; [|by apply leg_failed_keeps].
  eapply wp_seq; [apply connect_keeps|]. intros rc t' ->. cbn beta.
  assert (Hc : keeps u (_ ← connected id; sock_deliver cb id SOCK_EVENT_CONNECTED [] 0))
    by (eapply wp_then; [by apply connected_keeps|]; intros _; by apply deliver_keeps).
  destruct (rc =? 0); [|destruct (rc =? EINPROGRESS)].
  - apply adopt_then; [done|]. intros [e|]; [by apply leg_failed_keeps|done].
  - apply adopt_then; [done|]. intros [e|]; [by apply leg_failed_keeps|by apply leg_connecting_keeps].
  - eapply wp_seq; [apply fd_close_ok|]. intros _ t' ->. by apply leg_failed_keeps.
Qed.

Lemma try_records_ok t recs :
  WP (C := C) (try_records recs) (fun r t' => t' = match r with Some (f, _) => TFd f :: t | None => t end) t.
Proof.
  induction recs as [|r recs IH]; [done|].
  assert (Hr : WP (C := C) (fd ← socket_;
     match fd with
     | inr _ => try_records recs
     | inl f => rc ← connect_ f;
         if (rc =? 0) || (rc =? EINPROGRESS) then Ret (Some (f, rc =? 0)) else _ ← close_ f; try_records recs
     end) (fun r t' => t' = match r with Some (f, _) => TFd f :: t | None => t end) t); [|by destruct r].
  eapply wp_seq; [apply socket_ok|]. intros [f|e] t' ->; [|done].
  eapply wp_seq; [apply connect_keeps|]. intros rc t' ->. cbn beta. destruct (_ || _); [done|].
  eapply wp_seq; [apply fd_close_ok|]. by intros _ t' ->.
Qed.

Lemma landed_ok t id f now : hooked t id -> WP (leg_landed cb id f now) (fun _ t' => t' = t) (TFd f :: t).
Proof.
  intros H. destruct now; (apply adopt_then; [done|]; intros [e|]; [by apply leg_failed_keeps|]).
  - eapply wp_then; [by apply keeps_rd, hooked_live|]. intros tls. destruct tls; [by apply start_tls_keeps|].
    eapply wp_then; [by apply connected_keeps|]. intros _. by apply deliver_keeps.
  - by apply leg_connecting_keeps.
Qed.

Lemma resolve_done_ok t id d ok recs :
  WP (sock_resolve_done done cb id ok recs) (fun _ t' => t' = t) (THeld id (Some d) :: t).
Proof.
  set (u := THeld id (Some d) :: t). assert (H : hooked u id) by (exists d; by left).
  assert (Hl := hooked_live _ _ H). eapply wp_then; [by apply keeps_rd|]. intros st.
  eapply wp_seq with (Q' := fun _ t' => t' = u); [|intros _ t' ->; apply release_ok].
  destruct (negb (st_is _ _)); [done|]. destruct (_ || _); [by apply leg_failed_keeps|].
  eapply wp_then; [by apply keeps_rd|]. intros ty. destruct (_ || _); [|by apply leg_failed_keeps].
  eapply wp_seq; [apply try_records_ok|]. intros [[f now]|] t' ->; [by apply landed_ok|by apply leg_failed_keeps].
Qed.

(** ** The worker *)

Lemma sock_read_keeps t id : live t id -> keeps t (sock_read (C := C) id).
Proof.
  intros Hl. apply keeps_session; [done|]. intros a k s X Hk E. destruct (s_fd s) as [f|] eqn:Ef; [|done].
  destruct (si_open _ _ (proj1 Hk) _ _ _ E Ef) as [m Em]. by rewrite Em.
Qed.

Lemma count_in_keeps t id n : live t id -> keeps t (count_in (C := C) id n).
Proof.
  intros Hl. eapply wp_then; [by apply keeps_wr|]. intros _. eapply wp_then; [by apply touch_keeps|]. intros _.
  by apply keeps_statics.
Qed.

Lemma blocked_keeps t : keeps (C := C) t (act (fun _ _ => @Blocked (world C * unit))).
Proof. apply wp_act. by intros a w R _. Qed.

Lemma read_loop_keeps t id n : hooked t id -> keeps t (read_loop cb n id).
Proof.
  intros H. assert (Hl := hooked_live _ _ H). induction n as [|n IH]; [apply blocked_keeps|]. cbn [read_loop].
  eapply wp_then; [by apply sock_read_keeps|]. intros [|d| | | |e]; try done.
  - eapply wp_then; [by apply count_in_keeps|]. intros _. eapply wp_then; [by apply deliver_keeps|]. intros _.
    eapply wp_then; [by apply keeps_rd|]. intros st. eapply wp_then; [by apply keeps_rd|]. intros fd.
    by destruct (_ || _).
  - by apply close_deliver_keeps.
  - by apply close_deliver_keeps.
Qed.

Lemma lost_keeps t id : hooked t id -> keeps t (event_lost cb id).
Proof.
  intros H. assert (Hl := hooked_live _ _ H). eapply wp_then; [by apply keeps_rd|]. intros st.
  destruct (st_is _ _); [|by apply close_deliver_keeps].
  eapply wp_then; [by apply pending_error_keeps|]. intros err. by apply close_deliver_keeps.
Qed.

Lemma writable_keeps t id : hooked t id -> keeps t (event_writable cb id).
Proof.
  intros H. assert (Hl := hooked_live _ _ H). eapply wp_then; [by apply keeps_rd|]. intros st.
  destruct st; try done.
  - eapply wp_then; [by apply pending_error_keeps|]. intros err. destruct (negb _); [by apply close_deliver_keeps|].
    eapply wp_then; [by apply keeps_rd|]. intros tls. destruct tls; [by apply start_tls_keeps|].
    eapply wp_then; [by apply connected_keeps|]. intros _. eapply wp_then; [by apply rearm_keeps|]. intros _.
    by apply deliver_keeps.
  - eapply wp_then; [by apply drain_keeps|]. intros dr. eapply wp_then; [by apply keeps_when, rearm_keeps|].
    intros _. by apply touch_keeps.
  - by eapply wp_then; [apply handshake_keeps|].
Qed.

Lemma readable_keeps t id n : hooked t id -> keeps t (event_readable cb n id).
Proof.
  intros H. assert (Hl := hooked_live _ _ H). eapply wp_then; [by apply keeps_rd|]. intros st.
  destruct (st_is _ _); [by eapply wp_then; [apply handshake_keeps|]|].
  eapply wp_then; [by apply keeps_rd|]. intros st'. eapply wp_then; [by apply keeps_rd|]. intros fd.
  destruct (_ || _); [done|]. by apply read_loop_keeps.
Qed.

(** A descriptor tells its reader that the session has the hook. *)
Lemma rd_fd_ok t id :
  WP (C := C) (rd id s_fd)
    (fun fd t' => match fd with
                  | None => t' = THeld id None :: t
                  | Some _ => exists d, t' = THeld id (Some d) :: t
                  end) (THeld id None :: t).
Proof.
  apply act_session; [by apply live_head|]. intros a k s X Hk E. cbn [app] in Hk.
  destruct (s_fd s) as [f|] eqn:Ef; [|by exists (THeld id None :: t)].
  exists (THeld id (Some (s_cb_data (s_ident s))) :: t). split_and!; [eauto| |done|done].
  apply (inv_know _ _ _ _ E Hk). destruct (so_fresh _ _ _ (si_sess _ _ (proj1 Hk) _ _ E)) as [|[? _]]; [done|congruence].
Qed.

Lemma epoll_event_ok t id n events :
  WP (sock_epoll_event cb n id events) (fun _ t' => exists h, t' = THeld id h :: t) (THeld id None :: t).
Proof.
  eapply wp_then; [by apply keeps_rd, live_head|]. intros st.
  eapply wp_seq; [apply rd_fd_ok|]. intros [f|] t' Ht; [|subst t'; rewrite orb_true_r; by exists None].
  destruct Ht as [d ->]. set (u := _ :: t). assert (H : hooked u id) by (exists d; by left).
  eapply wp_mono with (Q := fun _ t' => t' = u); [intros _ t' ->; by exists (Some d)|].
  destruct (_ || _); [done|]. destruct (_ || _); [by apply lost_keeps|].
  eapply wp_then; [by apply keeps_when, writable_keeps|]. intros _. by apply keeps_when, readable_keeps.
Qed.

Lemma worker_event_ok t n ev events : WP (worker_event done cb n ev events) (fun _ t' => t' = t) t.
Proof.
  eapply wp_seq; [apply hold_by_id_ok|]. intros [id|] t' ->; [|done].
  eapply wp_seq; [apply epoll_event_ok|]. intros _ t' [h ->]. apply release_ok.
Qed.

Lemma expired_done T c now id s :
  sess_ok T id s -> connect_expired c now s || idle_expired c now s = true -> l_done (s_life s) = true.
Proof.
  intros [_ _ _ _ F _] H. destruct F as [|[_ Hs]]; [done|]. exfalso.
  unfold connect_expired, idle_expired, connecting, st_is in H.
  by destruct Hs as [Hs|Hs]; rewrite Hs in H.
Qed.

Lemma timeouts_keeps t now n : keeps t (timeouts_from done cb now n).
Proof.
  induction n as [|n IH]; [apply blocked_keeps|]. cbn [timeouts_from].
  eapply wp_seq with (Q' := fun r t' => match r with
                            | Some (id, _) => exists d, t' = THeld id (Some d) :: t
                            | None => t' = t end).
  - apply act_sock. intros a k X Hk.
    set (f := fun s => connect_expired (sk_cfg k) now s || idle_expired (sk_cfg k) now s).
    pose proof (scan_hold_ok f t (fun s => Some (s_cb_data (s_ident s))) a k X Hk) as H.
    assert (Hg : forall T id s, sess_ok T id s -> f s = true ->
      forall d, Some (s_cb_data (s_ident s)) = Some d -> l_done (s_life s) = true /\ s_cb_data (s_ident s) = d).
    { intros T i s Hs Hf d [= <-]. split; [by eapply expired_done|done]. }
    specialize (H Hg). destruct (scan_list f k (sk_list k)) as [[[id s]|]| |]; [|by exists t|by destruct H|by destruct H].
    destruct H as (_ & _ & H1 & H2).
    exists (THeld id (Some (s_cb_data (s_ident s))) :: t). split_and!; [by eexists|done|done|done].
  - intros [[id connect]|] t' Ht; [|by subst]. destruct Ht as [d ->].
    eapply wp_seq with (Q' := fun _ t' => t' = THeld id (Some d) :: t).
    + destruct connect; apply close_deliver_keeps; exists d; by left.
    + intros _ t' ->. eapply wp_seq; [apply release_ok|]. by intros _ t' ->.
Qed.

Lemma check_timeouts_keeps t n : keeps t (sock_check_timeouts done cb n).
Proof.
  eapply wp_then; [|intros now; apply timeouts_keeps]. apply wp_act. intros a w R H. by exists t.
Qed.

Lemma arm_pending_ok w T l : forall errs k,
  sock_inv k T -> (forall id, id ∈ l -> is_Some (get_session id k)) ->
  match arm_pending w errs l k with
  | Ok k' => sock_inv k' T /\ quiet k k' /\ forall id, is_Some (get_session id k) -> is_Some (get_session id k')
  | _ => False
  end.
Proof.
  induction l as [|id l IH]; intros errs k Hk Hl; [done|]. cbn [arm_pending].
  destruct (Hl id) as [s E]; [by left|]. rewrite E.
  assert (Hl' : forall i, i ∈ l -> is_Some (get_session i k)) by (intros i Hi; apply Hl; by right).
  destruct (_ && _); [|by apply IH]. destruct (s_fd s) as [f|] eqn:Ef; [|by apply IH].
  destruct (si_open _ _ (proj1 Hk) _ _ _ E Ef) as [m Em]. rewrite Em. destruct (hd 0 errs =? 0); [|by apply IH].
  set (k1 := set_fds _ _). assert (Hs := si_sess _ _ (proj1 Hk) _ _ E).
  assert (H1 : sock_inv k1 T).
  { apply (inv_mask (put_session id (with_armed true s) k)); [|by exists m].
    eapply inv_put; [done|done|done|by destruct Hs]. }
  assert (Hg : forall i, is_Some (get_session i k) -> is_Some (get_session i k1)).
  { intros i Hi. change (get_session i k1) with (get_session i (put_session id (with_armed true s) k)).
    rewrite get_put by eauto. by case_decide. }
  specialize (IH (tl errs) k1 H1 (fun i Hi => Hg i (Hl' i Hi))).
  destruct (arm_pending _ _ _ _) as [k2| |]; [|done..]. destruct IH as (A1 & A2 & A3). split_and!; [done| |eauto].
  eapply (still_trans k k1); [done| |done].
  apply (still_trans k (put_session id (with_armed true s) k)); [|by eapply quiet_put|by apply quiet_statics].
  intros i Hi. rewrite get_put by eauto. by case_decide.
Qed.

Lemma worker_wake_keeps t w : keeps (C := C) t (worker_wake w).
Proof.
  eapply wp_then.
  - apply keeps_act. intros a k X Hk. case_bool_decide; [|done].
    split; [by eapply sock_inv_statics; [..|exact Hk]|by apply quiet_statics].
  - intros _. apply keeps_act. intros a k X Hk.
    assert (Hl : forall id, id ∈ sk_list k -> is_Some (get_session id k)).
    { intros id Hi. by destruct (listed_session _ _ _ Hk Hi) as (s & -> & _). }
    pose proof (arm_pending_ok w (t ++ X) (sk_list k) (a_list a) k Hk Hl) as H.
    destruct (arm_pending _ _ _ _) as [k'| |]; [|by destruct H..]. by destruct H as (H1 & H2 & _).
Qed.

(** ** Entry points *)

Lemma take_leg_ok t i unix : WP (C := C) (take_leg i unix) (fun id t' => exists d, t' = THeld id (Some d) :: t) t.
Proof.
  apply wp_act. intros a w R [Hk Hu]. unfold on_sock. destruct (sk_legs (w_sock w) !! i) as [[id u]|] eqn:El; [|done].
  destruct (Bool.eqb u unix); [|done]. exists (THeld id (Some (cb_of (w_sock w) id)) :: t). split; [by eexists|].
  split; cbn [w_sock w_user]; [|done].
  apply (sock_inv_statics (w_sock w)); [done..|]. eapply sock_inv_perm; [|exact Hk].
  assert (Hp : legs_tok (w_sock w) ≡ₚ
    THeld id (Some (cb_of (w_sock w) id)) :: legs_tok (set_legs (delete i (sk_legs (w_sock w))) (w_sock w))).
  { exact (Permutation_map (fun l => THeld l.1 (Some (cb_of (w_sock w) l.1))) (delete_Permutation _ _ _ El)). }
  rewrite Hp. cbn [app]. solve_Permutation.
Qed.

Lemma sock_code_ok r : keeps [] (sock_code done cb r).
Proof.
  destruct r as [i ok recs|i|n ev events|w|n]; cbn [sock_code].
  - eapply wp_seq; [apply take_leg_ok|]. intros id t' [d ->]. apply resolve_done_ok.
  - eapply wp_seq; [apply take_leg_ok|]. intros id t' [d ->]. apply unix_task_ok.
  - apply worker_event_ok.
  - apply worker_wake_keeps.
  - apply check_timeouts_keeps.
Qed.

Lemma sock_close_keeps t id : hooked t id -> keeps t (sock_close cb id).
Proof.
  intros H. assert (Hl := hooked_live _ _ H). eapply wp_then; [by apply keeps_rd|]. intros st.
  destruct (_ || _); [done|]. eapply wp_then; [by apply set_state_keeps|]. intros _.
  eapply wp_then; [by apply drain_keeps|]. intros _. by apply close_deliver_keeps.
Qed.
End safe.
