(* ===== verification/IrcLife.v ===== *)
(** * The lifetime of an IRC driver: plugins/method/irc/irc.c, core/method.c

    The state of a driver instance is reference counted: a reference for the method
    instance it belongs to, one for the socket session, one for each backoff that waits to
    reconnect. Teardown waits for nobody; whoever is last out frees. Here are the functions
    that take, give and use these references, as programs of [Conc] over the socket service
    of [Sock] and the scheduler of [Task], with the method instances of core/method.c that
    own the drivers; the bots that drive both are [Bot]'s. What a driver says on the wire is
    [Irc]; of it only that lines are sent matters here. *)

From S2P Require Import Prelude Task Conc Sock.

(** ** Data *)

Inductive method_state_t := METHOD_ENABLED | METHOD_RUNNING | METHOD_AVAILABLE.

#[export] Instance method_state_eq_dec : EqDecision method_state_t.
Proof. solve_decision. Defined.

(** irc_state_t, as far as other threads and lifetimes go. *)
Record irc_t := mk_irc {
  r_name : cstr;
  r_inst : option nat;
  r_refs : Z;
  r_dead : bool;
  r_session : option nat;
  r_task : Z;
  r_arming : bool;
  r_registered : bool; r_connected : bool; r_shutdown : bool;
  r_host : cstr; r_port : Z; r_tls : bool; r_tls_verify : bool;
  r_delay : Z
}.

Definition with_inst (x : option nat) (r : irc_t) : irc_t :=
  mk_irc (r_name r) x (r_refs r) (r_dead r) (r_session r) (r_task r) (r_arming r) (r_registered r)
    (r_connected r) (r_shutdown r) (r_host r) (r_port r) (r_tls r) (r_tls_verify r) (r_delay r).
Definition with_refs (x : Z) (r : irc_t) : irc_t :=
  mk_irc (r_name r) (r_inst r) x (r_dead r) (r_session r) (r_task r) (r_arming r) (r_registered r)
    (r_connected r) (r_shutdown r) (r_host r) (r_port r) (r_tls r) (r_tls_verify r) (r_delay r).
Definition with_dead (r : irc_t) : irc_t :=
  mk_irc (r_name r) (r_inst r) (r_refs r) true (r_session r) (r_task r) (r_arming r) (r_registered r)
    (r_connected r) (r_shutdown r) (r_host r) (r_port r) (r_tls r) (r_tls_verify r) (r_delay r).
Definition with_session (x : option nat) (r : irc_t) : irc_t :=
  mk_irc (r_name r) (r_inst r) (r_refs r) (r_dead r) x (r_task r) (r_arming r) (r_registered r)
    (r_connected r) (r_shutdown r) (r_host r) (r_port r) (r_tls r) (r_tls_verify r) (r_delay r).
Definition with_task (x : Z) (arming : bool) (r : irc_t) : irc_t :=
  mk_irc (r_name r) (r_inst r) (r_refs r) (r_dead r) (r_session r) x arming (r_registered r)
    (r_connected r) (r_shutdown r) (r_host r) (r_port r) (r_tls r) (r_tls_verify r) (r_delay r).
Definition with_conn (registered connected : bool) (r : irc_t) : irc_t :=
  mk_irc (r_name r) (r_inst r) (r_refs r) (r_dead r) (r_session r) (r_task r) (r_arming r) registered
    connected (r_shutdown r) (r_host r) (r_port r) (r_tls r) (r_tls_verify r) (r_delay r).
Definition with_shutdown (r : irc_t) : irc_t :=
  mk_irc (r_name r) (r_inst r) (r_refs r) (r_dead r) (r_session r) (r_task r) (r_arming r) (r_registered r)
    (r_connected r) true (r_host r) (r_port r) (r_tls r) (r_tls_verify r) (r_delay r).
Definition with_config (host : cstr) (port : Z) (tls tls_verify : bool) (delay : Z) (r : irc_t) : irc_t :=
  mk_irc (r_name r) (r_inst r) (r_refs r) (r_dead r) (r_session r) (r_task r) (r_arming r) (r_registered r)
    (r_connected r) (r_shutdown r) host port tls tls_verify delay.

(** A subscriber: its callback is bot_msg_handler() and its data a bot's id. *)
Record method_sub_t := mk_sub { sub_name : cstr; sub_data : Z }.

(** A method instance: its handle is the driver's state. *)
Record minst := mk_minst {
  mi_name : cstr; mi_handle : option nat; mi_state : method_state_t; mi_refs : Z;
  mi_subs : list method_sub_t
}.

(** The memory: driver states and method instances by address (None once freed),
    method_list, the scheduler and the reconnect tasks that have not begun with the state
    each is about. [im_issued] is a history, the handles tasks were ever given. *)
Record irc_mem := mk_mem {
  im_states : list (option irc_t);
  im_insts : list (option minst);
  im_list : list nat;
  im_sched : sched;
  im_armed : list (Z * nat);
  im_issued : list (Z * nat)
}.

Definition set_states x m := mk_mem x (im_insts m) (im_list m) (im_sched m) (im_armed m) (im_issued m).
Definition set_insts x m := mk_mem (im_states m) x (im_list m) (im_sched m) (im_armed m) (im_issued m).
Definition set_mlist x m := mk_mem (im_states m) (im_insts m) x (im_sched m) (im_armed m) (im_issued m).
Definition set_tasks c armed issued m := mk_mem (im_states m) (im_insts m) (im_list m) c armed issued.

Notation P := (prog (world irc_mem) answer).

Definition get_irc (i : nat) (m : irc_mem) : option irc_t := mjoin (im_states m !! i).
Definition get_inst (j : nat) (m : irc_mem) : option minst := mjoin (im_insts m !! j).
Definition put_irc (i : nat) (r : irc_t) (m : irc_mem) : irc_mem := set_states (<[i := Some r]> (im_states m)) m.
Definition put_inst (j : nat) (x : minst) (m : irc_mem) : irc_mem := set_insts (<[j := Some x]> (im_insts m)) m.

Definition on_mem {B} (f : answer -> irc_mem -> outcome (irc_mem * B)) : answer -> world irc_mem -> outcome (world irc_mem * B) :=
  fun a w => match f a (w_user w) with
             | Ok (m, b) => Ok (mk_world (w_sock w) m, b)
             | Blocked => Blocked
             | Fault => Fault
             end.

Definition on_irc {B} (i : nat) (f : irc_t -> irc_t * B) : P B :=
  act (on_mem (fun _ m => match get_irc i m with
                          | Some r => Ok (put_irc i (f r).1 m, (f r).2)
                          | None => Fault
                          end)).

Definition ird {B} (i : nat) (f : irc_t -> B) : P B := on_irc i (fun r => (r, f r)).
Definition iwr (i : nat) (f : irc_t -> irc_t) : P unit := on_irc i (fun r => (f r, tt)).

Definition on_inst {B} (j : nat) (f : minst -> minst * B) : P B :=
  act (on_mem (fun _ m => match get_inst j m with
                          | Some x => Ok (put_inst j (f x).1 m, (f x).2)
                          | None => Fault
                          end)).

(** What the environment says: whether pool_shutting_down(). *)
Definition pool_shutting_down : P bool := act (fun a w => Ok (w, negb (a_n a =? 0))).

(** ** Method instances: core/method.c *)

Definition inst_refs (n : Z) (x : minst) : minst := mk_minst (mi_name x) (mi_handle x) (mi_state x) (mi_refs x + n) (mi_subs x).

Definition inst_free (j : nat) : P unit :=
  act (on_mem (fun _ m => match get_inst j m with
                          | Some _ => Ok (set_insts (<[j := None]> (im_insts m)) m, tt)
                          | None => Fault
                          end)).

Definition method_release (j : nat) : P unit :=
  last ← on_inst j (fun x => (inst_refs (-1) x, mi_refs x - 1 =? 0));
  when last (inst_free j).

Definition method_set_state (j : option nat) (st : method_state_t) : P unit :=
  match j with
  | None => skip
  | Some j => on_inst j (fun x => (mk_minst (mi_name x) (mi_handle x) st (mi_refs x) (mi_subs x), tt))
  end.

Definition METHOD_NAME_SZ : nat := 64.

(** The walk of method_list. *)
Fixpoint find_inst (name : cstr) (m : irc_mem) (l : list nat) : outcome (option (nat * minst)) :=
  match l with
  | [] => Ok None
  | j :: l' =>
      match get_inst j m with
      | None => Fault
      | Some x => if strncaseeq METHOD_NAME_SZ (mi_name x) name then Ok (Some (j, x)) else find_inst name m l'
      end
  end.

Definition method_find (name : cstr) : P (option nat) :=
  match name with
  | [] => Ret None
  | _ => act (on_mem (fun _ m =>
      match find_inst name m (im_list m) with
      | Ok (Some (j, x)) => Ok (put_inst j (inst_refs 1 x) m, Some j)
      | Ok None => Ok (m, None)
      | Blocked => Blocked
      | Fault => Fault
      end))
  end.

(** ** References to a driver *)

Definition irc_free (i : nat) : P unit :=
  act (on_mem (fun _ m => match get_irc i m with
                          | Some _ => Ok (set_states (<[i := None]> (im_states m)) m, tt)
                          | None => Fault
                          end)).

Definition irc_state_release (i : nat) : P unit :=
  last ← on_irc i (fun r => (with_refs (r_refs r - 1) r, r_refs r - 1 =? 0));
  when last (
    inst ← ird i r_inst;
    _ ← match inst with Some j => method_release j | None => skip end;
    _ ← iwr i (with_inst None);
    irc_free i).

Definition irc_sock_done (i : nat) : P unit := irc_state_release i.

(** irc_session_ref(): sock_hold() under sess_lock. *)
Definition session_ref (i : nat) (a : answer) (w : world irc_mem) : outcome (world irc_mem * option nat) :=
  match get_irc i (w_user w) with
  | None => Fault
  | Some r =>
      match r_session r with
      | None => Ok (w, None)
      | Some s =>
          match hold_locked s (w_sock w) with
          | Ok k => Ok (mk_world k (w_user w), Some s)
          | Blocked => Blocked
          | Fault => Fault
          end
      end
  end.

Definition irc_session_ref (i : nat) : P (option nat) := act (session_ref i).

Definition irc_session_take (i : nat) : P (option nat) :=
  on_irc i (fun r => (with_session None r, r_session r)).

(** The second critical section of irc_session_open(): install the fresh session, with the
    reference its done hook gives back, unless another thread was faster. *)
Definition session_install (i fresh : nat) (a : answer) (w : world irc_mem)
    : outcome (world irc_mem * (bool * option nat)) :=
  match get_irc i (w_user w) with
  | None => Fault
  | Some r =>
      let w' :=
        if negb (bool_decide (r_session r = None)) || r_dead r then Ok (w, false)
        else match set_done fresh (w_sock w) with
             | Ok k => Ok (mk_world k (put_irc i (with_session (Some fresh) (with_refs (r_refs r + 1) r)) (w_user w)), true)
             | Blocked => Blocked
             | Fault => Fault
             end in
      match w' with
      | Ok (w', installed) =>
          match session_ref i a w' with
          | Ok (w'', s) => Ok (w'', (installed, s))
          | Blocked => Blocked
          | Fault => Fault
          end
      | Blocked => Blocked
      | Fault => Fault
      end
  end.

Definition irc_session_open (i : nat) : P (option nat) :=
  s ← irc_session_ref i;
  match s with
  | Some s => Ret (Some s)
  | None =>
      dead ← ird i r_dead;
      if dead : bool then Ret None
      else
        name ← ird i r_name;
        fresh ← sock_create name SOCK_TCP i;
        match fresh with
        | None => Ret None
        | Some f =>
            r ← act (session_install i f);
            let '(installed, s) := r : bool * option nat in
            _ ← when (negb installed) (sock_destroy irc_sock_done f);
            Ret s
        end
  end.

(** ** The backoff *)

(** task_add_deferred(): the machine ends when the scheduler's 64-bit ids do. *)
Definition add_reconnect (i : nat) (delay : Z) : P Z :=
  act (on_mem (fun a m =>
    let c := im_sched m in
    if 2 ^ 64 <=? task_next_id c + 1 then Blocked
    else
      let n := a_now a in
      let '(c', h) := task_add_deferred (lit "irc_recon_") TASK_THREAD 100 (wrap 32 (delay * 1000)) n n n n n c in
      Ok (set_tasks c' ((h, i) :: im_armed m) ((h, i) :: im_issued m) m, h))).

Definition cancel_task (h : Z) : P bool :=
  act (on_mem (fun _ m =>
    let '(c', b) := task_cancel h (im_sched m) in
    Ok (set_tasks c' (if b then List.filter (fun x => negb (x.1 =? h)) (im_armed m) else im_armed m) (im_issued m) m, b))).

Definition irc_arm_reconnect (i : nat) : P unit :=
  go ← on_irc i (fun r =>
         if r_dead r || r_arming r || negb (r_task r =? TASK_HANDLE_NONE) then (r, None)
         else (with_refs (r_refs r + 1) (with_task (r_task r) true r), Some (r_delay r)));
  match go with
  | None => skip
  | Some delay =>
      h ← add_reconnect i delay;
      wanted ← on_irc i (fun r => (with_task (if r_arming r then h else r_task r) false r, r_arming r));
      if h =? TASK_HANDLE_NONE then irc_state_release i
      else if negb wanted then
        c ← cancel_task h;
        when c (irc_state_release i)
      else skip
  end.

Definition irc_mark_dead (i : nat) : P unit := iwr i with_dead.

Definition irc_cancel_reconnect (i : nat) : P unit :=
  h ← on_irc i (fun r => (with_task TASK_HANDLE_NONE false r, r_task r));
  c ← cancel_task h;
  when c (irc_state_release i).

(** ** What a driver sends *)

Definition irc_send_raw (i : nat) (line : list ascii) : P bool :=
  c ← ird i r_connected;
  if negb c then Ret false
  else
    s ← irc_session_ref i;
    match s with
    | None => Ret false
    | Some s =>
        rc ← sock_send s line;
        _ ← sock_release irc_sock_done s;
        Ret rc
    end.

Fixpoint send_lines (i : nat) (ls : list (list ascii)) : P unit :=
  match ls with
  | [] => skip
  | l :: ls' => _ ← irc_send_raw i l; send_lines i ls'
  end.

(** The lines a handler sends are its answer. *)
Definition the_lines : P (list (list ascii)) := act (fun a w => Ok (w, a_lines a)).

Definition register_lines (i : nat) : P unit := ls ← the_lines; send_lines i ls.

(** What handling one line does here: it may send, announce the instance (the numeric 001)
    or note that the server closed the link (ERROR). *)
Inductive handled := H_plain | H_welcome | H_error.

Definition handle_line (i : nat) : P unit :=
  h ← act (fun a w => Ok (w, (if a_err a =? 0 then H_plain else if a_err a =? 1 then H_welcome else H_error, a_lines a)));
  let '(h, ls) := h : handled * list (list ascii) in
  _ ← match h with
      | H_plain => skip
      | H_welcome =>
          _ ← iwr i (fun r => with_conn true (r_connected r) r);
          j ← ird i r_inst;
          method_set_state j METHOD_AVAILABLE
      | H_error => iwr i (fun r => with_conn (r_registered r) false r)
      end;
  send_lines i ls.

(** One line after another while the driver is not dead; [n] is the number of lines the
    read buffer holds. *)
Fixpoint handle_lines (n : nat) (i : nat) : P unit :=
  match n with
  | O => skip
  | S n' =>
      dead ← ird i r_dead;
      if dead : bool then skip else _ ← handle_line i; handle_lines n' i
  end.

(** DISCONNECT and ERROR. *)
Definition irc_link_down (i : nat) : P unit :=
  _ ← iwr i (with_conn false false);
  j ← ird i r_inst;
  _ ← method_set_state j METHOD_ENABLED;
  down ← pool_shutting_down;
  if down : bool then skip
  else
    sh ← ird i r_shutdown;
    when (negb sh) (irc_arm_reconnect i).

Definition irc_sock_cb (i : nat) (event : sock_event_t) : P unit :=
  dead ← ird i r_dead;
  if dead : bool then skip
  else
    match ev_type event with
    | SOCK_EVENT_CONNECTED =>
        _ ← iwr i (fun r => with_conn (r_registered r) true r);
        j ← ird i r_inst;
        _ ← method_set_state j METHOD_RUNNING;
        register_lines i
    | SOCK_EVENT_DATA =>
        n ← act (fun a w => Ok (w, Z.to_nat (a_n a)));
        handle_lines n i
    | SOCK_EVENT_DISCONNECT | SOCK_EVENT_ERROR => irc_link_down i
    end.

(** ** Connecting *)

(** config_snapshot(): the snapshot of the configuration is the answer. *)
Definition config_snapshot (i : nat) : P bool :=
  act (on_mem (fun a m =>
    match get_irc i m with
    | None => Fault
    | Some r =>
        if negb (a_err a =? 0) then Ok (m, false)
        else
          let delay := if a_now a =? 0 then 30 else wrap 32 (a_now a) in
          Ok (put_irc i (with_config (a_bytes a) (Z.of_nat (a_fd a)) (negb (a_n a =? 0))
                           (negb (hd 0 (a_list a) =? 0)) delay r) m, true)
    end)).

Definition irc_attempt_connect (i : nat) : P unit :=
  down ← pool_shutting_down;
  sh ← ird i r_shutdown;
  dead ← ird i r_dead;
  if (down : bool) || sh || dead then skip
  else
    ok ← config_snapshot i;
    if negb ok then irc_arm_reconnect i
    else
      s ← irc_session_open i;
      match s with
      | None => irc_arm_reconnect i
      | Some s =>
          tls ← ird i (fun r => (r_tls r, r_tls_verify r));
          _ ← when tls.1 (_ ← sock_set_tls s tls.2; skip);
          addr ← ird i (fun r => (r_host r, r_port r));
          ok ← sock_connect irc_sock_done s (Some addr.1) addr.2 None;
          _ ← sock_release irc_sock_done s;
          when (negb ok) (irc_arm_reconnect i)
      end.

Definition irc_reconnect_task (i : nat) : P unit :=
  _ ← iwr i (with_task TASK_HANDLE_NONE false);
  dead ← ird i r_dead;
  sh ← ird i r_shutdown;
  down ← pool_shutting_down;
  if (dead : bool) || sh || down then irc_state_release i
  else
    old ← irc_session_take i;
    _ ← match old with Some s => sock_destroy irc_sock_done s | None => skip end;
    _ ← irc_attempt_connect i;
    irc_state_release i.

(** The driver whose reconnect a task is. *)
Definition armed_for (h : Z) (l : list (Z * nat)) : option nat :=
  match List.find (fun x => x.1 =? h) l with Some x => Some x.2 | None => None end.

(** A worker takes the best task; if it is a reconnect, it runs it. *)
Definition run_task (type : task_type_t) (bg : bool) : P unit :=
  r ← act (on_mem (fun a m =>
    let '(c', t) := task_assign (a_now a) (a_now a) type bg (im_sched m) in
    match t with
    | None => Ok (set_tasks c' (im_armed m) (im_issued m) m, None)
    | Some t =>
        Ok (set_tasks c' (List.filter (fun x => negb (x.1 =? t_id t)) (im_armed m)) (im_issued m) m,
            armed_for (t_id t) (im_armed m))
    end));
  match r with Some i => irc_reconnect_task i | None => skip end.

(** ** The method driver *)

Definition irc_disconnect (i : nat) (reason : list ascii) : P unit :=
  _ ← iwr i with_shutdown;
  _ ← irc_mark_dead i;
  _ ← irc_cancel_reconnect i;
  s ← irc_session_ref i;
  match s with
  | None => skip
  | Some s =>
      c ← ird i r_connected;
      _ ← when c (_ ← irc_send_raw i (lit "QUIT :" ++ match reason with [] => lit "shutting down" | _ => reason end); skip);
      _ ← sock_close irc_sock_cb s;
      sock_release irc_sock_done s
  end.

Definition irc_destroy (i : nat) : P unit :=
  _ ← irc_mark_dead i;
  s ← irc_session_take i;
  _ ← irc_cancel_reconnect i;
  _ ← match s with Some s => sock_destroy irc_sock_done s | None => skip end;
  irc_state_release i.

Definition irc_connect (i : nat) : P bool :=
  j ← ird i r_inst;
  _ ← match j with
      | Some _ => skip
      | None =>
          name ← ird i r_name;
          j ← method_find name;
          iwr i (with_inst j)
      end;
  j ← ird i r_inst;
  match j with
  | None => Ret false
  | Some _ => _ ← irc_attempt_connect i; Ret true
  end.

(** method_register() with irc_create() under method_mutex: the registry has a reference
    to the instance and the caller another, the instance one to the driver's state. *)
Definition method_register (name : cstr) : P (option nat) :=
  match name with
  | [] => Ret None
  | _ => act (on_mem (fun _ m =>
      match find_inst name m (im_list m) with
      | Ok (Some _) => Ok (m, None)
      | Ok None =>
          let i := length (im_states m) in
          let j := length (im_insts m) in
          let name := strlcpy METHOD_NAME_SZ name in
          Ok (set_mlist (j :: im_list m)
                (set_insts (im_insts m ++ [Some (mk_minst name (Some i) METHOD_ENABLED 2 [])])
                   (set_states (im_states m ++
                      [Some (mk_irc name None 1 false None TASK_HANDLE_NONE false false false false [] 0 false false 30)]) m)),
              Some j)
      | Blocked => Blocked
      | Fault => Fault
      end))
  end.

(** The critical section of method_unregister(): no subscribers, out of the list, no handle. *)
Definition method_retire (name : cstr) : P (option (nat * option nat * bool)) :=
  act (on_mem (fun _ m =>
    match find_inst name m (im_list m) with
    | Ok (Some (j, x)) =>
        let up := negb (bool_decide (mi_state x = METHOD_ENABLED)) in
        Ok (set_mlist (unlink j (im_list m))
              (put_inst j (mk_minst (mi_name x) None METHOD_ENABLED (mi_refs x) []) m),
            Some (j, mi_handle x, up))
    | Ok None => Ok (m, None)
    | Blocked => Blocked
    | Fault => Fault
    end)).

Definition method_unregister (name : cstr) (reason : list ascii) : P bool :=
  match name with
  | [] => Ret false
  | _ =>
      r ← method_retire name;
      match r with
      | None => Ret false
      | Some (j, handle, up) =>
          _ ← match handle with
              | Some i => _ ← when up (irc_disconnect i reason); irc_destroy i
              | None => skip
              end;
          _ ← method_release j;
          Ret true
      end
  end.

Definition method_connect (j : nat) : P bool :=
  h ← on_inst j (fun x => (x, mi_handle x));
  match h with Some i => irc_connect i | None => Ret false end.

(** Subscribers have different names, and METHOD_MAX_SUBS at most. *)
Definition METHOD_SUB_NAME_SZ : nat := 64.
Definition METHOD_MAX_SUBS : nat := 32.

Definition with_subs (subs : list method_sub_t) (x : minst) : minst :=
  mk_minst (mi_name x) (mi_handle x) (mi_state x) (mi_refs x) subs.

Definition sub_is (name : cstr) (s : method_sub_t) : bool := strncaseeq METHOD_SUB_NAME_SZ (sub_name s) name.

Definition method_subscribe (j : nat) (name : cstr) (data : Z) : P bool :=
  match name with
  | [] => Ret false
  | _ => on_inst j (fun x =>
      if existsb (sub_is name) (mi_subs x) || (METHOD_MAX_SUBS <=? length (mi_subs x))%nat then (x, false)
      else (with_subs (mk_sub (strlcpy METHOD_SUB_NAME_SZ name) data :: mi_subs x) x, true))
  end.

(** Without the first subscriber of that name. *)
Fixpoint drop_sub (name : cstr) (l : list method_sub_t) : list method_sub_t :=
  match l with
  | [] => []
  | s :: l' => if sub_is name s then l' else s :: drop_sub name l'
  end.

Definition method_unsubscribe (j : nat) (name : cstr) : P bool :=
  match name with
  | [] => Ret false
  | _ => on_inst j (fun x => (with_subs (drop_sub name (mi_subs x)) x, existsb (sub_is name) (mi_subs x)))
  end.

(** The critical section of method_deliver(): a snapshot of the subscribers, and a reference. *)
Definition deliver_snapshot (j : nat) : P (list Z) :=
  on_inst j (fun x => (inst_refs 1 x, take METHOD_MAX_SUBS (map sub_data (mi_subs x)))).

(** method_send(): the state is looked at, and then the handle is used. *)
Definition method_send (j : nat) (line : list ascii) : P bool :=
  st ← on_inst j (fun x => (x, mi_state x));
  if negb (bool_decide (st = METHOD_AVAILABLE)) then Ret false
  else
    h ← on_inst j (fun x => (x, mi_handle x));
    match h with
    | None => act (fun _ _ => Fault)   (* the driver reads through NULL *)
    | Some i =>
        c ← ird i r_connected;
        g ← ird i r_registered;
        if negb c || negb g then Ret false else irc_send_raw i line
    end.

(** ** Entry points *)

(** A delivery or a command: it has the instance from a lookup, and sends through it. *)
Definition reply_through (name : cstr) (line : list ascii) : P unit :=
  j ← method_find name;
  match j with
  | Some j => _ ← method_send j line; method_release j
  | None => skip
  end.

Inductive root :=
| R_sock (r : sock_root)
| R_task (type : task_type_t) (bg : bool)
| R_reply (name line : cstr).

Definition code (r : root) : P unit :=
  match r with
  | R_sock r => sock_code irc_sock_done irc_sock_cb r
  | R_task type bg => run_task type bg
  | R_reply name line => reply_through name line
  end.
