(* ===== verification/IrcSafe.v ===== *)
(** * A driver's state is used only while it is there

    The invariant of [IrcLife]'s memory in terms of who holds what, a rule for each of its
    functions and one for each entry point: whatever the threads of the program do, no freed
    driver state, method instance or session is touched. [IrcRuns] draws the conclusions. *)

From S2P Require Import Prelude Task Conc Sock SockOk SockSafe IrcLife.

(** ** What threads hold *)

(** The right of the last holder to tear a driver down, with the instance it still has to
    release; a reference to a method instance; the right to free one; a task's handle; an
    instance a driver has; the duty to take a driver's session away; a driver that is dead.
    Whoever has bot_life_mutex notes which instances have which handle, and which of these
    drivers has not looked its instance up. *)
Definition enc (o : option nat) : Z := match o with Some j => Z.of_nat j | None => -1 end.

Notation u_last i o := (UOther 0 (enc o) i).
Notation u_inst j := (UOther 1 0 j).
Notation u_inst_last j := (UOther 2 0 j).
Notation u_issued h i := (UOther 3 h i).
Notation u_life l := (UNotes l).
Notation u_of j i := (UOther 7 (Z.of_nat j) i).
Notation u_kill i := (UOther 8 0 i).
Notation u_dead i := (UOther 9 0 i).

Definition is_data (i : nat) (u : uref) : bool := match u with UData d => (d =? i)%nat | _ => false end.
Definition is_last (i : nat) (u : uref) : bool := match u with UOther 0 _ d => (d =? i)%nat | _ => false end.
Definition is_inst (j : nat) (u : uref) : bool := match u with UOther 1 _ d => (d =? j)%nat | _ => false end.
Definition is_inst_last (j : nat) (u : uref) : bool := match u with UOther 2 _ d => (d =? j)%nat | _ => false end.
Definition is_kill (i : nat) (u : uref) : bool := match u with UOther 8 _ d => (d =? i)%nat | _ => false end.
Definition is_life (u : uref) : bool := match u with UNotes _ => true | _ => false end.

(** ** The invariant *)

Definition hook_is (i : nat) (o : option nat) : bool := bool_decide (o = Some i).
Definition armed_is (i : nat) (x : Z * nat) : bool := (x.2 =? i)%nat.
Definition handle_is (i : nat) (o : option minst) : bool :=
  match o with Some x => bool_decide (mi_handle x = Some i) | None => false end.
(** A driver at its end has handed its instance to the thread that tears it down. *)
Definition has_inst (j : nat) (o : option irc_t) : bool :=
  match o with Some r => bool_decide (r_inst r = Some j) && negb (r_refs r =? 0) | None => false end.

Definition irc_refs (hs : list (option nat)) (m : irc_mem) (U : list uref) (i : nat) : Z :=
  count (is_data i) U + count (hook_is i) hs + count (armed_is i) (im_armed m) + count (handle_is i) (im_insts m).

Definition irc_ok (hs : list (option nat)) (m : irc_mem) (U : list uref) (i : nat) : Prop :=
  match get_irc i m with
  | Some r =>
      r_refs r = irc_refs hs m U i /\ count (is_last i) U = Z.b2z (r_refs r =? 0) /\
      (forall s, r_session r = Some s -> hs !! s = Some (Some i)) /\
      (r_task r <> TASK_HANDLE_NONE -> (r_task r, i) ∈ im_issued m)
  | None => irc_refs hs m U i = 0 /\ count (is_last i) U = 0
  end.

Definition mi_count (m : irc_mem) (U : list uref) (j : nat) : Z :=
  count (is_inst j) U + count (Nat.eqb j) (im_list m) + count (has_inst j) (im_states m).

Definition inst_ok (m : irc_mem) (U : list uref) (j : nat) : Prop :=
  match get_inst j m with
  | Some x => mi_refs x = mi_count m U j /\ count (is_inst_last j) U = Z.b2z (mi_refs x =? 0) /\
      (mi_handle x <> None -> j ∈ im_list m)
  | None => mi_count m U j = 0 /\ count (is_inst_last j) U = 0
  end.

(** What is noted under bot_life_mutex stays so. *)
Definition lent_ok (m : irc_mem) (j i : nat) : Prop :=
  exists x, get_inst j m = Some x /\ mi_handle x = Some i.

Definition note_ok (m : irc_mem) (n : nat * nat * bool) : Prop :=
  lent_ok m n.1.1 n.1.2 /\ (n.2 = true -> forall r, get_irc n.1.2 m = Some r -> r_inst r = None).

(** A driver no instance has is on its way out: it has no session, or somebody is to take it. *)
Definition dead_ok (m : irc_mem) (U : list uref) (i : nat) : Prop :=
  match get_irc i m with
  | Some r => count (handle_is i) (im_insts m) + count (is_kill i) U = 0 -> r_dead r = true /\ r_session r = None
  | None => True
  end.

Definition fact_ok (m : irc_mem) (u : uref) : Prop :=
  match u with
  | UOther 0 z i => forall r, get_irc i m = Some r -> z = enc (r_inst r)
  | UOther 3 h i => (h, i) ∈ im_issued m
  | UOther 7 j i => (i < length (im_states m))%nat /\
      forall r, get_irc i m = Some r -> r_refs r <> 0 -> r_inst r = Some (Z.to_nat j)
  | UOther 9 _ i => (i < length (im_states m))%nat /\ forall r, get_irc i m = Some r -> r_dead r = true
  | UNotes l => Forall (note_ok m) l
  | _ => True
  end.

Definition queued (c : sched) (h : Z) : Prop := h ∈ ids (ready_head c ++ timer_head c).

(** The reconnect tasks in the queues are those the drivers have armed. *)
Record task_ok (m : irc_mem) : Prop := {
  to_room : sched_room 0 (im_sched m);
  to_armed h i : (h, i) ∈ im_armed m <-> (h, i) ∈ im_issued m /\ queued (im_sched m) h;
  to_nodup : NoDup (map fst (im_armed m));
  to_issued : NoDup (map fst (im_issued m));
  to_old h i : (h, i) ∈ im_issued m -> 0 < h < task_next_id (im_sched m)
}.

Record mem_inv (hs : list (option nat)) (m : irc_mem) (U : list uref) : Prop := {
  mv_irc i : irc_ok hs m U i;
  mv_inst j : inst_ok m U j;
  mv_list : NoDup (im_list m);
  mv_facts u : u ∈ U -> fact_ok m u;
  mv_life : count is_life U = 1;
  mv_tasks : task_ok m;
  mv_dead i : dead_ok m U i
}.

Definition own_session (o : option irc_t) : list stok :=
  match o with
  | Some r => match r_session r with Some s => [TOwn s] | None => [] end
  | None => []
  end.

Definition mem_own (m : irc_mem) : list stok := flat_map own_session (im_states m).

Lemma mem_own_only m x : x ∈ mem_own m -> exists id, x = TOwn id.
Proof.
  unfold mem_own. intros (o & _ & Hx)%list_elem_of_In%in_flat_map. unfold own_session in Hx.
  destruct o as [r|]; [|done]. destruct (r_session r) as [s|]; [|done]. destruct Hx as [<-|[]]. eauto.
Qed.

Lemma mem_inv_perm hs m U U' : U ≡ₚ U' -> mem_inv hs m U -> mem_inv hs m U'.
Proof.
  intros Hp [H1 H2 H3 H4 H5 H6 H7].
  assert (Hc : forall f : uref -> bool, count f U' = count f U) by (intros f; symmetry; by apply count_perm).
  split; try done.
  - intros i. specialize (H1 i). unfold irc_ok, irc_refs in *. by rewrite !Hc.
  - intros j. specialize (H2 j). unfold inst_ok, mi_count in *. by rewrite !Hc.
  - intros u Hu. apply H4. by rewrite Hp.
  - by rewrite Hc.
  - intros i. specialize (H7 i). unfold dead_ok in *. by rewrite Hc.
Qed.

Lemma hook_grow i hs : count (hook_is i) (hs ++ [None]) = count (hook_is i) hs.
Proof.
  rewrite count_app, count_cons, count_nil. change (hook_is i None) with (bool_decide (@None nat = Some i)).
  rewrite bool_decide_eq_false_2 by done. cbn [Z.b2z]. lia.
Qed.

Lemma mem_inv_grow hs m U : mem_inv hs m U -> mem_inv (hs ++ [None]) m U.
Proof.
  intros [H1 H2 H3 H4 H5 H6 H7]. split; try done. intros i. specialize (H1 i). unfold irc_ok, irc_refs in *.
  rewrite hook_grow. destruct (get_irc i m) as [r|]; [|done]. destruct H1 as (A1 & A2 & A3 & A4). split_and!; try done.
  intros s Hs. apply lookup_app_l_Some. by apply A3.
Qed.

Lemma own_session_in m i r s : get_irc i m = Some r -> r_session r = Some s -> TOwn s ∈ mem_own m.
Proof.
  unfold get_irc, mem_own. intros E Es. destruct (im_states m !! i) as [o|] eqn:El; [|done]. cbn in E. subst o.
  apply list_elem_of_In, in_flat_map. exists (Some r). split; [by eapply list_elem_of_In, list_elem_of_lookup_2|].
  cbn. rewrite Es. by left.
Qed.

Lemma mem_inv_free hs m U id d :
  mem_inv hs m U -> hs !! id = Some (Some d) -> TOwn id ∉ mem_own m ->
  mem_inv (<[id := None]> hs) m (UData d :: U).
Proof.
  intros [H1 H2 H3 H4 H5 H6 H7] Hh Ho. split; try done.
  - intros i. specialize (H1 i). unfold irc_ok, irc_refs in *. rewrite !count_cons. cbn [is_data is_last].
    rewrite (count_insert _ _ _ _ _ Hh). assert (E : hook_is i (Some d) = (d =? i)%nat).
    { unfold hook_is. destruct (Nat.eqb_spec d i) as [->|]; [by apply bool_decide_eq_true|apply bool_decide_eq_false; congruence]. }
    assert (E0 : hook_is i None = false) by (by apply bool_decide_eq_false). rewrite E, E0.
    destruct (get_irc i m) as [r|] eqn:Er; [|split; cbn [Z.b2z]; lia].
    destruct H1 as (A1 & A2 & A3 & A4). split_and!; [cbn [Z.b2z]; lia|cbn [Z.b2z]; lia| |done].
    intros s Hs. rewrite list_lookup_insert_ne; [by apply A3|]. intros <-. apply Ho. by eapply own_session_in.
  - intros u [->|Hu]%elem_of_cons; [done|by apply H4].
Qed.

#[export] Instance irc_client : SockClient irc_mem := {
  cl_own := mem_own;
  cl_inv := mem_inv;
  cl_own_only := mem_own_only;
  cl_perm := mem_inv_perm;
  cl_grow := mem_inv_grow;
  cl_free := mem_inv_free
}.

(** ** Rules for actions *)

Definition is_sock (x : stok) : bool := match x with TUser _ => false | _ => true end.
Definition socks (T : list stok) : list stok := List.filter is_sock T.

Lemma socks_users T : T ≡ₚ socks T ++ map TUser (users T).
Proof.
  induction T as [|x T IH]; [done|]. destruct x; cbn; try by apply perm_skip.
  rewrite IH at 1. by rewrite <- Permutation_middle.
Qed.

Lemma socks_app T T' : socks (T ++ T') = socks T ++ socks T'.
Proof. apply List.filter_app. Qed.

Lemma sock_inv_unuser k U T : sock_inv k (map TUser U ++ T) -> sock_inv k T.
Proof.
  induction U as [|u U IH]; [done|]. cbn [map app]. intros [[H1 H2 H3 H6 H7 H8] L]. apply IH.
  split; [split|done]; try done.
  - intros id s E. destruct (H1 id s E) as [G1 G2 G3 G4 G5 G6]. rewrite !count_cons in *. by split.
  - intros x id Hx. apply H2. by right.
  - intros id d s Hx. apply H3. by right.
  - intros f Hx. destruct (H8 f) as (K1 & K2 & K3); [by right|]. by rewrite count_cons in K2.
Qed.

Lemma sock_inv_users k U T : sock_inv k T -> sock_inv k (map TUser U ++ T).
Proof. intros H. induction U as [|u U IH]; [done|]. exact (inv_user_tok k _ (Some u) IH). Qed.

Lemma sock_inv_socks k T T' : socks T ≡ₚ socks T' -> sock_inv k T -> sock_inv k T'.
Proof.
  intros Hp H. eapply sock_inv_perm; [symmetry; apply socks_users|]. eapply sock_inv_perm; [apply Permutation_app_comm|].
  apply sock_inv_users. eapply sock_inv_perm; [exact Hp|].
  apply (sock_inv_unuser k (users T)). eapply sock_inv_perm; [|exact H]. rewrite Permutation_app_comm. apply socks_users.
Qed.

Lemma socks_own m : socks (mem_own m) = mem_own m.
Proof.
  unfold socks. assert (H : forall x, x ∈ mem_own m -> is_sock x = true).
  { intros x Hx. by destruct (mem_own_only m x Hx) as [id ->]. }
  revert H. generalize (mem_own m). intros l. induction l as [|x l IH]; intros H; [done|].
  cbn. rewrite H by (by left). f_equal. apply IH. intros y Hy. apply H. by right.
Qed.

(** What a thread that holds sessions knows of their hooks. *)
Definition hooks_known (hs : list (option nat)) (t : list stok) : Prop :=
  forall id d, THeld id (Some d) ∈ t -> hs !! id = Some (Some d).

Lemma world_hooks w T : world_inv w T -> hooks_known (hooks (w_sock w)) T.
Proof.
  intros [[H _] _] id d Hd. destruct (si_gone _ _ H (THeld id (Some d)) id) as [s E]; [set_solver|done|].
  rewrite (hooks_lookup _ _ _ E). f_equal. unfold hook_of.
  destruct (si_held _ _ H id d s) as [-> ->]; [set_solver|done..].
Qed.

Lemma act_mem {B} (f : answer -> irc_mem -> outcome (irc_mem * B)) (Q : B -> list stok -> Prop) t :
  (forall a m hs U, mem_inv hs m (users t ++ U) -> hooks_known hs t ->
     match f a m with
     | Ok (m', b) => exists t', Q b t' /\ mem_inv hs m' (users t' ++ U) /\ socks t' ++ mem_own m' ≡ₚ socks t ++ mem_own m
     | Blocked => True
     | Fault => False
     end) ->
  WP (act (on_mem f)) Q t.
Proof.
  intros H. apply wp_act. intros a w R Hw. assert (Hh := world_hooks _ _ Hw). destruct Hw as [Hk Hu].
  cbn [cl_inv irc_client] in Hu. rewrite users_app in Hu. specialize (H a (w_user w) _ _ Hu).
  unfold on_mem. destruct (f a (w_user w)) as [[m' b]| |]; [|done|].
  2: { apply H. intros id d Hd. apply Hh. set_solver. }
  destruct H as (t' & HQ & Hm & Hp); [intros id d Hd; apply Hh; set_solver|].
  exists t'. split; [done|]. split; cbn [w_sock w_user cl_inv irc_client cl_own] in *; [|by rewrite users_app].
  eapply sock_inv_socks; [|exact Hk]. rewrite !socks_app, !socks_own.
  transitivity ((socks t ++ mem_own (w_user w)) ++ socks R ++ socks (legs_tok (w_sock w))); [solve_Permutation|].
  rewrite <- Hp. solve_Permutation.
Qed.

(** A thread that may use a driver's state. *)
Definition live_irc (t : list stok) (i : nat) : Prop :=
  TUser (UData i) ∈ t \/ (exists s, THeld s (Some i) ∈ t) \/
  (exists j f l, TUser (u_life l) ∈ t /\ (j, i, f) ∈ l).

Lemma users_in u t : TUser u ∈ t <-> u ∈ users t.
Proof.
  unfold users. rewrite list_elem_of_omap. split; [intros H; by exists (TUser u)|].
  intros (x & Hx & E). destruct x; try done. by injection E as ->.
Qed.

Lemma count_member (f : uref -> bool) u U : u ∈ U -> f u = true -> 1 <= count f U.
Proof. intros [i Hi]%list_elem_of_lookup Hf. by eapply count_pos. Qed.

Lemma refs_pos hs m t U i :
  mem_inv hs m (users t ++ U) -> hooks_known hs t -> live_irc t i -> 1 <= irc_refs hs m (users t ++ U) i.
Proof.
  intros H Hh Hl. unfold irc_refs. set (V := users t ++ U) in *.
  pose proof (count_range (is_data i) V). pose proof (count_range (hook_is i) hs).
  pose proof (count_range (armed_is i) (im_armed m)). pose proof (count_range (handle_is i) (im_insts m)).
  assert (Hlent : forall j, lent_ok m j i -> 1 <= count (handle_is i) (im_insts m)).
  { intros j (x & E & Ex). unfold get_inst in E. destruct (im_insts m !! j) as [o|] eqn:El; [|done].
    eapply count_pos; [exact El|]. cbn in E. subst o. cbn. by apply bool_decide_eq_true. }
  destruct Hl as [Hl|[[s Hs]|(j & f & l & Hl & Hj)]].
  - assert (1 <= count (is_data i) V); [|lia]. eapply count_member; [apply elem_of_app; left; by apply users_in|].
    cbn. apply Nat.eqb_refl.
  - assert (1 <= count (hook_is i) hs); [|lia]. eapply count_pos; [by apply Hh|]. by apply bool_decide_eq_true.
  - pose proof (mv_facts _ _ _ H (u_life l) ltac:(apply elem_of_app; left; by apply users_in)) as L.
    pose proof (proj1 (List.Forall_forall _ _) L _ (proj1 (list_elem_of_In _ _) Hj)) as [L' _].
    pose proof (Hlent _ L'). lia.
Qed.

Lemma live_alive hs m t U i :
  mem_inv hs m (users t ++ U) -> hooks_known hs t -> live_irc t i ->
  exists r, get_irc i m = Some r /\ r_refs r <> 0.
Proof.
  intros H Hh Hl. pose proof (refs_pos _ _ _ _ _ H Hh Hl) as Hr. pose proof (mv_irc _ _ _ H i) as Hi. unfold irc_ok in Hi.
  destruct (get_irc i m) as [r|]; [exists r; split; [done|lia]|lia].
Qed.

(** ** Writing a driver's state *)

Lemma get_irc_in i m r : get_irc i m = Some r -> im_states m !! i = Some (Some r).
Proof. unfold get_irc. destruct (im_states m !! i) as [o|]; [|done]. by intros <-. Qed.

Lemma get_inst_in j m x : get_inst j m = Some x -> im_insts m !! j = Some (Some x).
Proof. unfold get_inst. destruct (im_insts m !! j) as [o|]; [|done]. by intros <-. Qed.

Lemma get_put_irc i m r r' i' :
  get_irc i m = Some r -> get_irc i' (put_irc i r' m) = if decide (i' = i) then Some r' else get_irc i' m.
Proof.
  intros E%get_irc_in. unfold get_irc, put_irc. cbn [im_states set_states]. apply lookup_lt_Some in E.
  case_decide; [subst; by rewrite list_lookup_insert_eq|by rewrite list_lookup_insert_ne].
Qed.

Lemma put_put_irc i r r' m : put_irc i r' (put_irc i r m) = put_irc i r' m.
Proof. unfold put_irc. cbn [im_states set_states]. by rewrite list_insert_insert_eq. Qed.

Lemma mem_put hs m U V i r r' :
  mem_inv hs m U -> get_irc i m = Some r ->
  (forall i', count (is_data i') V = count (is_data i') U + (if decide (i' = i) then r_refs r' - r_refs r else 0)) ->
  (forall i', count (is_last i') V = if decide (i' = i) then Z.b2z (r_refs r' =? 0) else count (is_last i') U) ->
  (forall j, count (is_inst j) V = count (is_inst j) U + Z.b2z (has_inst j (Some r)) - Z.b2z (has_inst j (Some r'))) ->
  (forall j, count (is_inst_last j) V = count (is_inst_last j) U) ->
  count is_life V = count is_life U ->
  (forall i', i' <> i -> count (is_kill i') V = count (is_kill i') U) ->
  (forall s, r_session r' = Some s -> hs !! s = Some (Some i)) ->
  (r_task r' <> TASK_HANDLE_NONE -> (r_task r', i) ∈ im_issued m) ->
  (count (handle_is i) (im_insts m) + count (is_kill i) V = 0 -> r_dead r' = true /\ r_session r' = None) ->
  (forall u, u ∈ V -> fact_ok (put_irc i r' m) u) ->
  mem_inv hs (put_irc i r' m) V.
Proof.
  intros [H1 H2 H3 H4 H5 H6 H7] E C1 C2 C3 C4 C5 C6 Hs Ht Hd Hf. assert (G := fun i' => get_put_irc i m r r' i' E).
  split; try done.
  - intros i'. specialize (H1 i'). unfold irc_ok, irc_refs in *. cbn [im_armed im_insts put_irc set_states] in *.
    rewrite G, C1, C2. case_decide; [subst|].
    + rewrite E in H1. destruct H1 as (A1 & A2 & A3 & A4). split_and!; try done. lia.
    + rewrite Z.add_0_r. exact H1.
  - intros j. specialize (H2 j). unfold inst_ok, mi_count in *.
    change (get_inst j (put_irc i r' m)) with (get_inst j m). rewrite C3, C4. cbn [im_list im_states put_irc set_states].
    rewrite (count_insert _ _ _ _ _ (get_irc_in _ _ _ E)). destruct (get_inst j m); [|lia].
    destruct H2 as (B1 & B2 & B3). split_and!; [lia|done|done].
  - by rewrite C5.
  - destruct H6. by split.
  - intros i'. specialize (H7 i'). unfold dead_ok in *. rewrite G. cbn [im_insts put_irc set_states].
    case_decide; [by subst|]. by rewrite C6.
Qed.

Lemma states_length i r m : length (im_states (put_irc i r m)) = length (im_states m).
Proof. apply length_insert. Qed.

Lemma dead_same hs m U V i r r' :
  mem_inv hs m U -> get_irc i m = Some r -> count (is_kill i) V = count (is_kill i) U ->
  r_dead r' = r_dead r -> r_session r' = r_session r ->
  count (handle_is i) (im_insts m) + count (is_kill i) V = 0 -> r_dead r' = true /\ r_session r' = None.
Proof.
  intros H E -> -> ->. pose proof (mv_dead _ _ _ H i) as Hd. unfold dead_ok in Hd. by rewrite E in Hd.
Qed.

(** A write nobody else has to know of. *)
Lemma facts_put m i r r' u :
  get_irc i m = Some r -> r_inst r' = r_inst r -> (r_refs r' <> 0 -> r_refs r <> 0) ->
  (r_dead r = true -> r_dead r' = true) ->
  fact_ok m u -> fact_ok (put_irc i r' m) u.
Proof.
  intros E Ei Er Ed. assert (G := fun i' => get_put_irc i m r r' i' E).
  destruct u as [d|k z b|l]; [done|destruct k as [|[|[|[|[|[|[|[|[|[|k]]]]]]]]]]|]; cbn [fact_ok]; try done.
  - intros H x. rewrite G. case_decide; [|auto]. intros [= <-]. subst. rewrite Ei. by apply H.
  - intros [Hb H]. split; [by rewrite states_length|]. intros x. rewrite G. case_decide; [|auto].
    intros [= <-] Hx. subst. rewrite Ei. apply H; auto.
  - intros [Hb H]. split; [by rewrite states_length|]. intros x. rewrite G. case_decide; [|auto].
    intros [= <-]. subst. auto.
  - apply List.Forall_impl. intros n [L H]. split; [done|]. intros Hn x. rewrite G. case_decide; [|auto].
    intros [= <-]. subst. rewrite Ei. by apply H.
Qed.

Lemma mem_write hs m U i r r' :
  mem_inv hs m U -> get_irc i m = Some r ->
  r_refs r' = r_refs r -> r_inst r' = r_inst r ->
  (r_dead r = true -> r_dead r' = true /\ (r_session r = None -> r_session r' = None)) ->
  (forall s, r_session r' = Some s -> hs !! s = Some (Some i)) ->
  (r_task r' <> TASK_HANDLE_NONE -> (r_task r', i) ∈ im_issued m) ->
  mem_inv hs (put_irc i r' m) U.
Proof.
  intros H E Er Ei Ed Hs Ht. assert (Hi := mv_irc _ _ _ H i). unfold irc_ok in Hi. rewrite E in Hi.
  eapply mem_put; try done.
  - intros i'. rewrite Er. case_decide; lia.
  - intros i'. case_decide; [|done]. subst. rewrite Er. apply Hi.
  - intros j. unfold has_inst. rewrite Er, Ei. lia.
  - intros Hz. assert (Hd := mv_dead _ _ _ H i). unfold dead_ok in Hd. rewrite E in Hd. destruct (Hd Hz) as [D1 D2].
    destruct (Ed D1) as [D3 D4]. auto.
  - intros u Hu. eapply facts_put; [done..|congruence| |]; [intros D; by apply Ed|by apply H].
Qed.

Lemma flat_map_insert {A B} (f : A -> list B) (l : list A) i x y :
  l !! i = Some x -> flat_map f (<[i := y]> l) ++ f x ≡ₚ flat_map f l ++ f y.
Proof.
  revert i. induction l as [|z l IH]; intros i H; [done|]. destruct i as [|i].
  - injection H as ->. change (<[0%nat := y]> (x :: l)) with (y :: l). cbn [flat_map]. solve_Permutation.
  - change (<[S i := y]> (z :: l)) with (z :: <[i := y]> l). cbn [flat_map]. by rewrite <- !app_assoc, (IH i H).
Qed.

Lemma own_put m i r r' :
  get_irc i m = Some r -> mem_own (put_irc i r' m) ++ own_session (Some r) ≡ₚ mem_own m ++ own_session (Some r').
Proof. intros E%get_irc_in. by apply (flat_map_insert own_session). Qed.

Lemma own_put_same m i r r' :
  get_irc i m = Some r -> r_session r' = r_session r -> mem_own (put_irc i r' m) ≡ₚ mem_own m.
Proof.
  intros E Es. pose proof (own_put m i r r' E) as H.
  assert (Eo : own_session (Some r') = own_session (Some r)) by (unfold own_session; by rewrite Es). rewrite Eo in H.
  by apply Permutation_app_inv_r in H.
Qed.

(** ** Writing an instance *)

Lemma get_put_inst j m x x' j' :
  get_inst j m = Some x -> get_inst j' (put_inst j x' m) = if decide (j' = j) then Some x' else get_inst j' m.
Proof.
  intros E%get_inst_in. unfold get_inst, put_inst. cbn [im_insts set_insts]. apply lookup_lt_Some in E.
  case_decide; [subst; by rewrite list_lookup_insert_eq|by rewrite list_lookup_insert_ne].
Qed.

Lemma mem_put_inst hs m U V j x x' :
  mem_inv hs m U -> get_inst j m = Some x ->
  (forall j', count (is_inst j') V = count (is_inst j') U + (if decide (j' = j) then mi_refs x' - mi_refs x else 0)) ->
  (forall j', count (is_inst_last j') V = if decide (j' = j) then Z.b2z (mi_refs x' =? 0) else count (is_inst_last j') U) ->
  (forall i, count (is_data i) V = count (is_data i) U + Z.b2z (handle_is i (Some x)) - Z.b2z (handle_is i (Some x'))) ->
  (forall i, count (is_last i) V = count (is_last i) U) ->
  count is_life V = count is_life U ->
  (forall i, Z.b2z (handle_is i (Some x)) + count (is_kill i) U <= Z.b2z (handle_is i (Some x')) + count (is_kill i) V) ->
  (mi_handle x' <> None -> mi_handle x <> None) ->
  (forall u, u ∈ V -> fact_ok (put_inst j x' m) u) ->
  mem_inv hs (put_inst j x' m) V.
Proof.
  intros [H1 H2 H3 H4 H5 H6 H7] E C1 C2 C3 C4 C5 C6 Hn Hf. assert (G := fun j' => get_put_inst j m x x' j' E).
  split; try done.
  - intros i. specialize (H1 i). unfold irc_ok, irc_refs in *.
    change (get_irc i (put_inst j x' m)) with (get_irc i m). rewrite C3, C4. cbn [im_armed im_insts put_inst set_insts im_issued].
    rewrite (count_insert _ _ _ _ _ (get_inst_in _ _ _ E)). destruct (get_irc i m); [|lia].
    destruct H1 as (A1 & A2 & A3 & A4). split_and!; try done. lia.
  - intros j'. specialize (H2 j'). unfold inst_ok, mi_count in *. rewrite G, C1, C2.
    cbn [im_list im_states put_inst set_insts]. case_decide; [subst|by rewrite Z.add_0_r].
    rewrite E in H2. destruct H2 as (B1 & B2 & B3). split_and!; [lia|done|auto].
  - by rewrite C5.
  - destruct H6. by split.
  - intros i. specialize (H7 i). specialize (C6 i). unfold dead_ok in *.
    change (get_irc i (put_inst j x' m)) with (get_irc i m). cbn [im_insts put_inst set_insts].
    rewrite (count_insert _ _ _ _ _ (get_inst_in _ _ _ E)). destruct (get_irc i m); [|done].
    pose proof (count_range (is_kill i) U). pose proof (count_range (handle_is i) (im_insts m)).
    pose proof (count_pos (handle_is i) _ _ _ (get_inst_in _ _ _ E)) as Hpos.
    intros Hz. apply H7. destruct (handle_is i (Some x)); cbn [Z.b2z] in *; [specialize (Hpos eq_refl); lia|lia].
Qed.

Lemma facts_put_inst m j x x' u :
  get_inst j m = Some x -> mi_handle x' = mi_handle x -> fact_ok m u -> fact_ok (put_inst j x' m) u.
Proof.
  intros E Eh. assert (G := fun j' => get_put_inst j m x x' j' E).
  assert (L : forall z i, lent_ok m z i -> lent_ok (put_inst j x' m) z i).
  { intros z i (y & Ey & Hy). unfold lent_ok. rewrite G. case_decide as Ez; [|by exists y].
    exists x'. split; [done|]. rewrite Eh. assert (y = x) as <- by (rewrite Ez in Ey; congruence). done. }
  destruct u as [d|k z b|l]; [done|by destruct k as [|[|[|[|[|[|[|[|[|[|k]]]]]]]]]]|]. cbn [fact_ok].
  apply List.Forall_impl. intros n [Hl Hr]. split; [by apply L|done].
Qed.

Lemma own_put_inst j x m : mem_own (put_inst j x m) = mem_own m.
Proof. done. Qed.

(** The state of an instance and its reference count. *)
Lemma mem_inst_state hs m U j x st subs :
  mem_inv hs m U -> get_inst j m = Some x ->
  mem_inv hs (put_inst j (mk_minst (mi_name x) (mi_handle x) st (mi_refs x) subs) m) U.
Proof.
  intros H E. assert (Hj := mv_inst _ _ _ H j). unfold inst_ok in Hj. rewrite E in Hj.
  eapply mem_put_inst; try done.
  - intros j'. cbn. case_decide; lia.
  - intros j'. case_decide; [|done]. subst. apply Hj.
  - intros i. cbn. lia.
  - intros u Hu. eapply facts_put_inst; [done..|]. by apply H.
Qed.

(** ** Method instances *)

Ltac cnt := rewrite ?count_cons; cbn [is_data is_last is_inst is_inst_last is_life is_kill Z.b2z]; rewrite ?Nat.eqb_refl;
  cbn [Z.b2z].

Lemma eqb_other (a b : nat) : a <> b -> (b =? a)%nat = false.
Proof. intros H. apply Nat.eqb_neq. congruence. Qed.

Lemma inst_hold hs m U j x :
  mem_inv hs m U -> get_inst j m = Some x -> mi_refs x <> 0 ->
  mem_inv hs (put_inst j (inst_refs 1 x) m) (u_inst j :: U).
Proof.
  intros H E Hr. assert (Hj := mv_inst _ _ _ H j). unfold inst_ok in Hj. rewrite E in Hj. destruct Hj as (J1 & J2 & J3).
  assert (Hpos : 0 <= mi_refs x).
  { rewrite J1. unfold mi_count. pose proof (count_range (is_inst j) U). pose proof (count_range (Nat.eqb j) (im_list m)).
    pose proof (count_range (has_inst j) (im_states m)). lia. }
  eapply mem_put_inst; try done.
  - intros j'. cnt. cbn [inst_refs mi_refs]. case_decide; [subst; rewrite Nat.eqb_refl; cbn; lia|].
    rewrite eqb_other by done. cbn. lia.
  - intros j'. cnt. cbn [inst_refs mi_refs]. case_decide; [subst|lia]. rewrite J2. zcond. done.
  - intros i. cnt. cbn. lia.
  - intros u [->|Hu]%elem_of_cons; [done|]. eapply facts_put_inst; [done..|]. by apply H.
Qed.

Lemma inst_unhold hs m U j x :
  mem_inv hs m (u_inst j :: U) -> get_inst j m = Some x ->
  mem_inv hs (put_inst j (inst_refs (-1) x) m) (if mi_refs x - 1 =? 0 then u_inst_last j :: U else U).
Proof.
  intros H E. assert (Hj := mv_inst _ _ _ H j). unfold inst_ok in Hj. rewrite E in Hj. destruct Hj as (J1 & J2 & J3).
  unfold mi_count in J1. rewrite !count_cons in *. cbn [is_inst is_inst_last Z.b2z] in *. rewrite Nat.eqb_refl in J1. cbn [Z.b2z] in J1.
  pose proof (count_range (is_inst j) U). pose proof (count_range (Nat.eqb j) (im_list m)).
  pose proof (count_range (has_inst j) (im_states m)).
  assert (Hz : count (is_inst_last j) U = 0) by (rewrite (proj2 (Z.eqb_neq (mi_refs x) 0)) in J2 by lia; cbn in J2; lia).
  assert (Hf : forall u, u ∈ U -> fact_ok (put_inst j (inst_refs (-1) x) m) u).
  { intros u Hu. eapply facts_put_inst; [done..|]. apply H. by right. }
  assert (Eq : mi_refs (inst_refs (-1) x) = mi_refs x - 1) by (cbn; lia).
  eapply mem_put_inst; try done.
  - intros j'. rewrite Eq. destruct (mi_refs x - 1 =? 0); cnt; (case_decide; [subst; rewrite Nat.eqb_refl; cbn; lia|]);
      rewrite eqb_other by done; cbn; lia.
  - intros j'. rewrite Eq. destruct (mi_refs x - 1 =? 0) eqn:Ez; cnt; (case_decide; [subst; rewrite ?Nat.eqb_refl; cbn; lia|]);
      rewrite ?eqb_other by done; cbn; lia.
  - intros i. destruct (mi_refs x - 1 =? 0); cnt; cbn; lia.
  - intros i. destruct (mi_refs x - 1 =? 0); cnt; cbn; lia.
  - destruct (mi_refs x - 1 =? 0); cnt; cbn; lia.
  - intros i. change (handle_is i (Some (inst_refs (-1) x))) with (handle_is i (Some x)). destruct (mi_refs x - 1 =? 0); cnt; lia.
  - intros u. destruct (mi_refs x - 1 =? 0); [intros [->|Hu]%elem_of_cons; [done|by apply Hf]|apply Hf].
Qed.

Lemma mem_inst_free hs m U j x :
  mem_inv hs m (u_inst_last j :: U) -> get_inst j m = Some x -> mem_inv hs (set_insts (<[j := None]> (im_insts m)) m) U.
Proof.
  intros [H1 H2 H3 H4 H5 H6 H7] E. assert (Hj := H2 j). unfold inst_ok in Hj. rewrite E in Hj. destruct Hj as (J1 & J2 & J3).
  unfold mi_count in J1. rewrite !count_cons in J1, J2. cbn [is_inst is_inst_last] in *. rewrite Nat.eqb_refl in J2. cbn [Z.b2z] in *.
  pose proof (count_range (is_inst j) U). pose proof (count_range (Nat.eqb j) (im_list m)).
  pose proof (count_range (has_inst j) (im_states m)).
  pose proof (count_range (is_inst_last j) U).
  assert (Hr : mi_refs x = 0) by (destruct (mi_refs x =? 0) eqn:Ez; [by breflect|cbn in J2; lia]).
  rewrite Hr in J2. cbn in J2.
  assert (Hn : mi_handle x = None).
  { destruct (mi_handle x) as [i|]; [|done]. assert (Hin : j ∈ im_list m) by (by apply J3).
    apply list_elem_of_lookup in Hin as [n Hn]. pose proof (count_pos (Nat.eqb j) _ _ _ Hn (Nat.eqb_refl j)). lia. }
  assert (G : forall j', get_inst j' (set_insts (<[j := None]> (im_insts m)) m) = if decide (j' = j) then None else get_inst j' m).
  { intros j'. unfold get_inst. cbn [im_insts set_insts]. assert (Hl := lookup_lt_Some _ _ _ (get_inst_in _ _ _ E)).
    case_decide; [subst; by rewrite list_lookup_insert_eq|by rewrite list_lookup_insert_ne]. }
  assert (Hu : forall i, handle_is i (Some x) = false) by (intros i; cbn; rewrite Hn; by apply bool_decide_eq_false).
  split; try done.
  - intros i. specialize (H1 i). unfold irc_ok, irc_refs in *. cbn [im_armed im_insts set_insts] in *.
    rewrite (count_insert _ _ _ _ _ (get_inst_in _ _ _ E)), Hu. rewrite !count_cons in H1. cbn [is_data is_last Z.b2z handle_is] in *.
    change (get_irc i (set_insts _ m)) with (get_irc i m). destruct (get_irc i m); [|lia].
    destruct H1 as (A1 & A2 & A3 & A4). split_and!; try done; lia.
  - intros j'. specialize (H2 j'). unfold inst_ok, mi_count in *. rewrite G. cbn [im_list im_states set_insts].
    rewrite !count_cons in H2. cbn [is_inst is_inst_last Z.b2z] in H2.
    case_decide; [subst; lia|]. rewrite eqb_other in H2 by done. cbn [Z.b2z] in H2. destruct (get_inst j' m); [|lia].
    destruct H2 as (B1 & B2 & B3). split_and!; [lia|lia|done].
  - intros u Hx. assert (Hf : fact_ok m u) by (apply H4; by right).
    assert (L : forall z i, lent_ok m z i -> lent_ok (set_insts (<[j := None]> (im_insts m)) m) z i).
    { intros z i (y & Ey & Hy). exists y. rewrite G. case_decide as Ez; [|done]. rewrite Ez in Ey. congruence. }
    destruct u as [d|k z b|l]; [done|by destruct k as [|[|[|[|[|[|[|[|[|[|k]]]]]]]]]]|]. cbn [fact_ok] in *.
    revert Hf. apply List.Forall_impl. intros n [Hf1 Hf2]. split; [by apply L|done].
  - destruct H6. by split.
  - intros i. specialize (H7 i). unfold dead_ok in *. change (get_irc i (set_insts _ m)) with (get_irc i m).
    cbn [im_insts set_insts]. rewrite (count_insert _ _ _ _ _ (get_inst_in _ _ _ E)), Hu.
    rewrite count_cons in H7. cbn [handle_is is_kill Z.b2z] in *. rewrite Z.sub_0_r, Z.add_0_r. exact H7.
Qed.

Lemma inst_free_ok t j : WP (inst_free j) (fun _ t' => t' = t) (TUser (u_inst_last j) :: t).
Proof.
  apply act_mem. intros a m hs U Hm _. cbn [users omap list_omap app] in Hm. fold (users t) in Hm.
  pose proof (mv_inst _ _ _ Hm j) as Hj. unfold inst_ok in Hj. destruct (get_inst j m) as [x|] eqn:E.
  - exists t. split_and!; [done|by eapply mem_inst_free|done].
  - exfalso. rewrite count_cons in Hj. cbn [is_inst_last] in Hj. rewrite Nat.eqb_refl in Hj. cbn in Hj.
    pose proof (count_range (is_inst_last j) (users t ++ U)). lia.
Qed.

Lemma inst_alive hs m U j : mem_inv hs m U -> u_inst j ∈ U -> exists x, get_inst j m = Some x.
Proof.
  intros H Hu. pose proof (mv_inst _ _ _ H j) as Hj. unfold inst_ok, mi_count in Hj.
  destruct (get_inst j m) as [x|]; [by exists x|]. assert (1 <= count (is_inst j) U) by (eapply count_member; [done|apply Nat.eqb_refl]).
  pose proof (count_range (Nat.eqb j) (im_list m)).
  pose proof (count_range (has_inst j) (im_states m)). lia.
Qed.

Lemma method_release_ok t j : WP (method_release j) (fun _ t' => t' = t) (TUser (u_inst j) :: t).
Proof.
  eapply wp_seq with (Q' := fun (last : bool) t' => t' = if last then TUser (u_inst_last j) :: t else t).
  2: { intros last t' ->. destruct last; [apply inst_free_ok|done]. }
  apply act_mem. intros a m hs U Hm _. cbn [users omap list_omap app] in Hm. fold (users t) in Hm.
  destruct (inst_alive _ _ _ j Hm) as [x E]; [by left|]. rewrite E. cbn [fst snd].
  pose proof (inst_unhold _ _ _ _ _ Hm E) as H. eexists. split_and!; [done| |].
  - by destruct (mi_refs x - 1 =? 0).
  - by destruct (mi_refs x - 1 =? 0).
Qed.

(** ** A driver's state in use *)

Definition irc_core (r : irc_t) := (r_refs r, r_inst r, r_session r, r_task r, r_dead r).

Lemma on_irc_ok {B} t i (f : irc_t -> irc_t * B) Q :
  live_irc t i -> (forall r, irc_core (f r).1 = irc_core r) -> (forall r, Q (f r).2 t) -> WP (on_irc i f) Q t.
Proof.
  intros Hl Hc HQ. apply act_mem. intros a m hs U Hm Hh.
  destruct (live_alive _ _ _ _ _ Hm Hh Hl) as (r & E & _). rewrite E. injection (Hc r) as E1 E2 E3 E4 E5.
  assert (Hi := mv_irc _ _ _ Hm i). unfold irc_ok in Hi. rewrite E in Hi. destruct Hi as (_ & _ & I3 & I4).
  exists t. split_and!; [apply HQ| |by rewrite own_put_same by done].
  eapply mem_write; try done; [by rewrite E3, E5|by rewrite E3|by rewrite E4].
Qed.

Lemma ird_keeps {B} t i (f : irc_t -> B) : live_irc t i -> keeps t (ird i f).
Proof. intros H. by apply on_irc_ok. Qed.

Lemma iwr_keeps t i f : live_irc t i -> (forall r, irc_core (f r) = irc_core r) -> keeps t (iwr i f).
Proof. intros H Hc. by apply on_irc_ok. Qed.

(** ** The last reference *)

Lemma enc_inj o o' : enc o = enc o' -> o = o'.
Proof. destruct o, o'; cbn; intros H; try lia; [f_equal; lia|done]. Qed.

Lemma last_alive hs m U i z : mem_inv hs m U -> UOther 0 z i ∈ U ->
  exists r, get_irc i m = Some r /\ r_refs r = 0 /\ z = enc (r_inst r).
Proof.
  intros H Hu. assert (Hc : 1 <= count (is_last i) U) by (eapply count_member; [done|apply Nat.eqb_refl]).
  assert (Hi := mv_irc _ _ _ H i). unfold irc_ok in Hi. pose proof (mv_facts _ _ _ H _ Hu) as Hf.
  destruct (get_irc i m) as [r|] eqn:E; [|lia]. destruct Hi as (_ & I2 & _). exists r. split_and!; [done| |].
  - destruct (r_refs r =? 0) eqn:Ez; [by breflect|cbn in I2; lia].
  - by apply Hf.
Qed.

Definition inst_tok (o : option nat) : list stok := match o with Some j => [TUser (u_inst j)] | None => [] end.

Lemma unhold_step hs m U i r :
  mem_inv hs m (UData i :: U) -> get_irc i m = Some r ->
  mem_inv hs (put_irc i (with_refs (r_refs r - 1) r) m)
    (if r_refs r - 1 =? 0 then users (inst_tok (r_inst r)) ++ u_last i (r_inst r) :: U else U).
Proof.
  intros H E. assert (Hi := mv_irc _ _ _ H i). unfold irc_ok in Hi. rewrite E in Hi. destruct Hi as (I1 & I2 & I3 & I4).
  unfold irc_refs in I1. rewrite !count_cons in *. cbn [is_data is_last Z.b2z] in *. rewrite Nat.eqb_refl in I1. cbn [Z.b2z] in I1.
  pose proof (count_range (is_data i) U). pose proof (count_range (hook_is i) hs).
  pose proof (count_range (armed_is i) (im_armed m)). pose proof (count_range (handle_is i) (im_insts m)).
  assert (Hz : count (is_last i) U = 0) by (rewrite (proj2 (Z.eqb_neq (r_refs r) 0)) in I2 by lia; cbn in I2; lia).
  assert (Hp : (r_refs r =? 0) = false) by (apply Z.eqb_neq; lia).
  assert (Hf : forall u, u ∈ U -> fact_ok (put_irc i (with_refs (r_refs r - 1) r) m) u).
  { intros u Hu. eapply facts_put; [done|done|lia|done|]. apply H. by right. }
  assert (Hc : forall f : uref -> bool, (forall j, f (u_inst j) = false) -> count f (users (inst_tok (r_inst r))) = 0).
  { intros f Hx. destruct (r_inst r) as [j|]; [|done]. cbn. rewrite count_cons, Hx. done. }
  assert (Hc' : forall j, count (is_inst j) (users (inst_tok (r_inst r))) = Z.b2z (bool_decide (r_inst r = Some j))).
  { intros j. destruct (r_inst r) as [j'|]; cbn; [rewrite count_cons; cbn|done].
    destruct (Nat.eqb_spec j' j) as [->|Hne]; [by rewrite bool_decide_eq_true_2|rewrite bool_decide_eq_false_2 by congruence; done]. }
  eapply mem_put; try done; cbn [with_refs r_refs].
  - intros i'. destruct (r_refs r - 1 =? 0); rewrite ?count_app, ?Hc by done; cnt;
      (case_decide; [subst; rewrite Nat.eqb_refl; cbn; lia|]); rewrite eqb_other by done; cbn; lia.
  - intros i'. destruct (r_refs r - 1 =? 0) eqn:Ez; rewrite ?count_app, ?Hc by done; cnt;
      (case_decide; [subst; rewrite ?Nat.eqb_refl; cbn; lia|]); rewrite ?eqb_other by done; cbn; lia.
  - intros j. unfold has_inst. cbn [with_refs r_refs r_inst]. rewrite Hp.
    destruct (r_refs r - 1 =? 0) eqn:Ez; rewrite ?count_app, ?Hc'; cnt; rewrite ?andb_true_r, ?andb_false_r; cbn [negb]; rewrite ?andb_true_r, ?andb_false_r; cbn [Z.b2z]; lia.
  - intros j. destruct (r_refs r - 1 =? 0); rewrite ?count_app, ?Hc by done; cnt; lia.
  - destruct (r_refs r - 1 =? 0); rewrite ?count_app, ?Hc by done; cnt; lia.
  - intros i' _. destruct (r_refs r - 1 =? 0); rewrite ?count_app, ?Hc by done; cnt; lia.
  - eapply dead_same; [exact H|done| |done|done].
    destruct (r_refs r - 1 =? 0); rewrite ?count_app, ?Hc by done; cnt; lia.
  - intros u. destruct (r_refs r - 1 =? 0); [|apply Hf]. rewrite elem_of_app, elem_of_cons. intros [Hu|[->|Hu]]; [|intros x|by apply Hf].
    + destruct (r_inst r) as [j|]; [|by apply elem_of_nil in Hu]. by apply list_elem_of_singleton in Hu as ->.
    + rewrite (get_put_irc _ _ _ _ _ E), decide_True by done. by intros [= <-].
Qed.

Lemma drop_inst_step hs m U i r :
  mem_inv hs m (u_last i (r_inst r) :: U) -> get_irc i m = Some r -> r_refs r = 0 ->
  mem_inv hs (put_irc i (with_inst None r) m) (u_last i None :: U).
Proof.
  intros H E Er. assert (Hi := mv_irc _ _ _ H i). unfold irc_ok in Hi. rewrite E in Hi. destruct Hi as (I1 & I2 & I3 & I4).
  rewrite count_cons in I2. cbn [is_last] in I2. rewrite Nat.eqb_refl, Er in I2. cbn [Z.b2z] in I2.
  assert (Hz : count (is_last i) U = 0) by (cbn in I2; lia).
  assert (G := fun i' => get_put_irc i m r (with_inst None r) i' E).
  eapply mem_put; try done; cbn [with_inst r_refs].
  - intros i'. cnt. case_decide; lia.
  - intros i'. cnt. case_decide; [subst; rewrite Nat.eqb_refl, Er; cbn; lia|]. by rewrite eqb_other.
  - intros j. cnt. unfold has_inst. cbn [with_inst r_refs r_inst]. rewrite Er. cbn. rewrite !andb_false_r. cbn. lia.
  - eapply dead_same; [exact H|done| |done|done]. cnt. lia.
  - intros u [->|Hu]%elem_of_cons.
    + intros x. rewrite G, decide_True by done. by intros [= <-].
    + assert (Hf : fact_ok m u) by (apply H; by right).
      destruct u as [d|k z b|l]; [done|destruct k as [|[|[|[|[|[|[|[|[|[|k]]]]]]]]]]|]; cbn [fact_ok] in *; try done.
      * intros x. rewrite G. case_decide; [|auto]. subst b. intros _. exfalso.
        assert (1 <= count (is_last i) U) by (eapply count_member; [exact Hu|apply Nat.eqb_refl]). lia.
      * destruct Hf as [Hb Hf]. split; [by rewrite states_length|]. intros x. rewrite G. case_decide; [|auto].
        intros [= <-]. by intros [].
      * destruct Hf as [Hb Hf]. split; [by rewrite states_length|]. intros x. rewrite G. case_decide; [|auto].
        intros [= <-]. subst. by apply (Hf r).
      * revert Hf. apply List.Forall_impl. intros n [Hf1 Hf2]. split; [done|]. intros Hn x. rewrite G. case_decide; [|auto].
        by intros [= <-].
Qed.

Lemma mem_irc_free hs m U i r :
  mem_inv hs m (u_last i None :: U) -> get_irc i m = Some r -> r_refs r = 0 -> r_inst r = None ->
  mem_inv hs (set_states (<[i := None]> (im_states m)) m) U /\ r_session r = None.
Proof.
  intros [H1 H2 H3 H4 H5 H6 H7] E Er Ei. assert (Hi := H1 i). unfold irc_ok in Hi. rewrite E in Hi. destruct Hi as (I1 & I2 & I3 & I4).
  unfold irc_refs in I1. rewrite count_cons in *. cbn [is_data is_last Z.b2z] in *. rewrite Nat.eqb_refl, Er in I2. cbn [Z.b2z] in I2.
  pose proof (count_range (is_data i) U). pose proof (count_range (hook_is i) hs).
  pose proof (count_range (armed_is i) (im_armed m)). pose proof (count_range (handle_is i) (im_insts m)).
  assert (Hs : r_session r = None).
  { destruct (r_session r) as [s|] eqn:Es; [|done]. assert (1 <= count (hook_is i) hs); [|lia].
    eapply count_pos; [by apply I3|]. by apply bool_decide_eq_true. }
  split; [|done].
  assert (G : forall i', get_irc i' (set_states (<[i := None]> (im_states m)) m) = if decide (i' = i) then None else get_irc i' m).
  { intros i'. unfold get_irc. cbn [im_states set_states]. assert (Hl := lookup_lt_Some _ _ _ (get_irc_in _ _ _ E)).
    case_decide; [subst; by rewrite list_lookup_insert_eq|by rewrite list_lookup_insert_ne]. }
  split; try done.
  - intros i'. specialize (H1 i'). unfold irc_ok, irc_refs in *. rewrite G. cbn [im_armed im_insts set_states im_issued] in *.
    rewrite !count_cons in H1. cbn [is_data is_last Z.b2z] in H1. case_decide; [subst; cbn in I2; split; lia|].
    rewrite eqb_other in H1 by done. exact H1.
  - intros j. specialize (H2 j). unfold inst_ok, mi_count in *.
    change (get_inst j (set_states _ m)) with (get_inst j m). cbn [im_list im_states set_states].
    rewrite (count_insert _ _ _ _ _ (get_irc_in _ _ _ E)). rewrite !count_cons in H2. cbn [is_inst is_inst_last Z.b2z] in H2.
    assert (Eh : has_inst j (Some r) = false) by (unfold has_inst; rewrite Ei; by rewrite bool_decide_eq_false_2).
    rewrite Eh. cbn [has_inst Z.b2z]. replace (count (has_inst j) (im_states m) - 0 + 0) with (count (has_inst j) (im_states m)) by lia.
    exact H2.
  - intros u Hu. assert (Hf : fact_ok m u) by (apply H4; by right).
    assert (Hx : forall (Pr : irc_t -> Prop) b, (forall x, get_irc b m = Some x -> Pr x) ->
      forall x, get_irc b (set_states (<[i := None]> (im_states m)) m) = Some x -> Pr x).
    { intros Pr b HP x. rewrite G. case_decide; [done|apply HP]. }
    destruct u as [d|k z b|l]; [done|destruct k as [|[|[|[|[|[|[|[|[|[|k]]]]]]]]]]|]; cbn [fact_ok] in *; try done.
    + by apply Hx.
    + destruct Hf. split; [cbn [im_states set_states]; by rewrite length_insert|]. by apply (Hx (fun x => r_refs x <> 0 -> r_inst x = Some (Z.to_nat z))).
    + destruct Hf. split; [cbn [im_states set_states]; by rewrite length_insert|]. by apply Hx.
    + revert Hf. apply List.Forall_impl. intros n [Hf1 Hf2]. split; [done|]. intros Hn. by apply Hx, Hf2.
  - destruct H6. by split.
  - intros i'. specialize (H7 i'). unfold dead_ok in *. rewrite G. cbn [im_insts set_states]. case_decide; [done|].
    by rewrite count_cons in H7.
Qed.

Lemma own_free m i r :
  get_irc i m = Some r -> r_session r = None -> mem_own (set_states (<[i := None]> (im_states m)) m) ≡ₚ mem_own m.
Proof.
  intros E Es. pose proof (flat_map_insert own_session _ _ _ None (get_irc_in _ _ _ E)) as H.
  cbn [own_session] in H. rewrite Es, !app_nil_r in H. exact H.
Qed.

Lemma release_irc_ok t i : WP (irc_state_release i) (fun _ t' => t' = t) (TUser (UData i) :: t).
Proof.
  eapply wp_seq with (Q' := fun (last : bool) t' =>
    if last then exists o, t' = inst_tok o ++ TUser (u_last i o) :: t else t' = t).
  - apply act_mem. intros a m hs U Hm Hh. cbn [users omap list_omap app] in Hm. fold (users t) in Hm.
    destruct (live_alive hs m (TUser (UData i) :: t) U i) as (r & E & _); [exact Hm|done|left; by left|].
    rewrite E. cbn [fst snd]. pose proof (unhold_step _ _ _ _ _ Hm E) as H.
    destruct (r_refs r - 1 =? 0).
    + exists (inst_tok (r_inst r) ++ TUser (u_last i (r_inst r)) :: t). split_and!; [by eexists| |].
      * rewrite users_app, <- app_assoc. exact H.
      * rewrite socks_app, own_put_same by done. by destruct (r_inst r).
    + exists t. split_and!; [done|done|by rewrite own_put_same by done].
  - intros last t' Ht. destruct last; [|by subst]. destruct Ht as [o ->].
    eapply wp_seq with (Q' := fun o' t' => o' = o /\ t' = inst_tok o ++ TUser (u_last i o) :: t).
    { apply act_mem. intros a m hs U Hm Hh. rewrite users_app, <- app_assoc in Hm.
      destruct (last_alive _ _ _ i (enc o) Hm) as (r & E & Er & Eo).
      { apply elem_of_app. right. by left. }
      rewrite E. cbn [fst snd]. eexists. split_and!; [by apply enc_inj in Eo|done| |by rewrite own_put_same by done].
      rewrite users_app, <- app_assoc. assert (Hi := mv_irc _ _ _ Hm i). unfold irc_ok in Hi. rewrite E in Hi.
      eapply mem_write; try done; apply Hi. }
    intros o' t' [-> ->].
    eapply wp_seq with (Q' := fun _ t' => t' = TUser (u_last i o) :: t); [destruct o; [apply method_release_ok|done]|].
    intros _ t' ->. eapply wp_seq with (Q' := fun _ t' => t' = TUser (u_last i None) :: t).
    { apply act_mem. intros a m hs U Hm Hh. cbn [users omap list_omap app] in Hm. fold (users t) in Hm.
      destruct (last_alive _ _ _ i (enc o) Hm) as (r & E & Er & Eo); [by left|]. apply enc_inj in Eo as ->.
      rewrite E. cbn [fst snd]. exists (TUser (u_last i None) :: t).
      split_and!; [done|by apply drop_inst_step|by rewrite own_put_same by done]. }
    intros _ t' ->. apply act_mem. intros a m hs U Hm Hh. cbn [users omap list_omap app] in Hm. fold (users t) in Hm.
    destruct (last_alive _ _ _ i (enc None) Hm) as (r & E & Er & Eo); [by left|]. rewrite E.
    apply enc_inj in Eo. destruct (mem_irc_free _ _ _ _ _ Hm E Er (eq_sym Eo)) as [Hm' Hs].
    exists t. split_and!; [done|done|by rewrite (own_free _ _ _ E Hs)].
Qed.

(** ** Sessions *)

(** Holding the session a driver has, in the critical section that found it. *)
Lemma hold_world w T s i :
  world_inv w T -> TOwn s ∈ mem_own (w_user w) -> hooks (w_sock w) !! s = Some (Some i) ->
  exists k', hold_locked s (w_sock w) = Ok k' /\ world_inv (mk_world k' (w_user w)) (THeld s (Some i) :: T).
Proof.
  intros [Hk Hu] Ho Hs. cbn [cl_own irc_client] in Hk.
  destruct (si_gone _ _ (proj1 Hk) (TOwn s) s) as [ss E]; [set_solver|done|]. unfold hold_locked. rewrite E.
  eexists. split; [done|]. set (k' := put_session s (hold 1 ss) (w_sock w)).
  assert (Hd : l_done (s_life ss) = true /\ s_cb_data (s_ident ss) = i).
  { rewrite (hooks_lookup _ _ _ E) in Hs. unfold hook_of in Hs. destruct (l_done (s_life ss)); [|done].
    split; [done|congruence]. }
  assert (Hq : quiet (w_sock w) k') by (by eapply quiet_put).
  split; cbn [w_sock w_user].
  - rewrite (legs_same (w_sock w) k' T); [| |done].
    2: { intros x id Hx. apply (si_gone _ _ (proj1 Hk)). set_solver. }
    apply (inv_hold (w_sock w) s ss); [done|done| |by intros d' [= <-]].
    destruct (si_sess _ _ (proj1 Hk) _ _ E) as [G1 _ _ _ _ _]. rewrite G1.
    assert (1 <= count (own_of s) (T ++ legs_tok (w_sock w) ++ mem_own (w_user w))).
    { apply list_elem_of_lookup in Ho as [n Hn]. rewrite !count_app.
      pose proof (count_range (own_of s) T). pose proof (count_range (own_of s) (legs_tok (w_sock w))).
      assert (1 <= count (own_of s) (mem_own (w_user w))) by (eapply count_pos; [exact Hn|apply Nat.eqb_refl]). lia. }
    pose proof (count_range (held_of s) (T ++ legs_tok (w_sock w) ++ mem_own (w_user w))). lia.
  - rewrite (q_hooks _ _ Hq). exact Hu.
Qed.

Lemma world_live w t R i : world_inv w (t ++ R) -> live_irc t i ->
  exists r, get_irc i (w_user w) = Some r /\ r_refs r <> 0.
Proof.
  intros Hw Hl. assert (Hh := world_hooks _ _ Hw). destruct Hw as [_ Hu]. cbn [cl_inv irc_client] in Hu.
  rewrite users_app in Hu. eapply live_alive; [exact Hu| |done]. intros s d Hd. apply Hh. set_solver.
Qed.

Definition got (t : list stok) (i : nat) (s : option nat) : list stok :=
  match s with Some s => THeld s (Some i) :: t | None => t end.

Lemma session_ref_step t i a w R :
  live_irc t i -> world_inv w (t ++ R) ->
  match session_ref i a w with Ok (w', s) => world_inv w' (got t i s ++ R) | Blocked => True | Fault => False end.
Proof.
  intros Hl Hw. destruct (world_live _ _ _ _ Hw Hl) as (r & E & _). unfold session_ref. rewrite E.
  destruct (r_session r) as [s|] eqn:Es; [|done].
  assert (Hi := mv_irc _ _ _ (proj2 Hw) i). unfold irc_ok in Hi. rewrite E in Hi. destruct Hi as (_ & _ & I3 & _).
  destruct (hold_world w (t ++ R) s i) as (k' & -> & H); [done|by eapply own_session_in|by apply I3|done].
Qed.

Lemma session_ref_ok t i : live_irc t i -> WP (irc_session_ref i) (fun s t' => t' = got t i s) t.
Proof.
  intros Hl. apply wp_act. intros a w R Hw. pose proof (session_ref_step t i a w R Hl Hw) as H.
  destruct (session_ref i a w) as [[w' s]| |]; [|done..]. by exists (got t i s).
Qed.

Lemma session_take_ok t i : live_irc t i ->
  WP (irc_session_take i) (fun s t' => t' = match s with Some s => TOwn s :: t | None => t end) t.
Proof.
  intros Hl. apply act_mem. intros a m hs U Hm Hh. destruct (live_alive _ _ _ _ _ Hm Hh Hl) as (r & E & _).
  rewrite E. cbn [fst snd]. eexists. split_and!; [done| |].
  - assert (Hi := mv_irc _ _ _ Hm i). unfold irc_ok in Hi. rewrite E in Hi.
    destruct (r_session r); (eapply mem_write; [done|done|done|done|by auto|done|]; apply Hi).
  - pose proof (own_put m i r (with_session None r) E) as Hp. cbn [own_session with_session r_session] in Hp.
    rewrite app_nil_r in Hp. destruct (r_session r) as [s|]; [|by rewrite app_nil_r in Hp; rewrite Hp].
    rewrite <- Hp. cbn [socks List.filter is_sock]. fold (socks t). solve_Permutation.
Qed.

(** *** One more reference *)

Lemma refs_nonneg hs m U i r : mem_inv hs m U -> get_irc i m = Some r -> 0 <= r_refs r.
Proof.
  intros H E. assert (Hi := mv_irc _ _ _ H i). unfold irc_ok in Hi. rewrite E in Hi. destruct Hi as (I1 & _).
  unfold irc_refs in I1. pose proof (count_range (is_data i) U). pose proof (count_range (hook_is i) hs).
  pose proof (count_range (armed_is i) (im_armed m)). pose proof (count_range (handle_is i) (im_insts m)). lia.
Qed.

Lemma hold_step hs m U i r :
  mem_inv hs m U -> get_irc i m = Some r -> r_refs r <> 0 ->
  mem_inv hs (put_irc i (with_refs (r_refs r + 1) r) m) (UData i :: U).
Proof.
  intros H E Hr. pose proof (refs_nonneg _ _ _ _ _ H E) as Hp. assert (Hi := mv_irc _ _ _ H i). unfold irc_ok in Hi.
  rewrite E in Hi. destruct Hi as (I1 & I2 & I3 & I4).
  eapply mem_put; try done; cbn [with_refs r_refs].
  - intros i'. cnt. case_decide; [subst; rewrite Nat.eqb_refl; cbn [Z.b2z]; lia|rewrite eqb_other by done; cbn [Z.b2z]; lia].
  - intros i'. cnt. case_decide; [subst; rewrite I2; zcond; done|lia].
  - intros j. cnt. unfold has_inst. cbn [with_refs r_refs r_inst]. zcond. lia.
  - eapply dead_same; [exact H|done..].
  - intros u [->|Hu]%elem_of_cons; [done|]. eapply facts_put; [done|done|done|done|]. by apply H.
Qed.

(** A session that gets the hook takes over a reference of the thread. *)
Lemma mem_hook hs m U f i :
  mem_inv hs m (UData i :: U) -> hs !! f = Some None -> mem_inv (<[f := Some i]> hs) m U.
Proof.
  intros [H1 H2 H3 H4 H5 H6 H7] Hf. split; try done.
  - intros i'. specialize (H1 i'). unfold irc_ok, irc_refs in *. rewrite !count_cons in H1. cbn [is_data is_last Z.b2z] in H1.
    rewrite (count_insert _ _ _ _ _ Hf). assert (E : hook_is i' (Some i) = (i =? i')%nat).
    { unfold hook_is. destruct (Nat.eqb_spec i i') as [->|]; [by apply bool_decide_eq_true|apply bool_decide_eq_false; congruence]. }
    assert (E0 : hook_is i' None = false) by (by apply bool_decide_eq_false). rewrite E, E0. cbn [Z.b2z].
    destruct (get_irc i' m) as [r|]; [|lia]. destruct H1 as (A1 & A2 & A3 & A4). split_and!; [lia|lia| |done].
    intros s Hs. rewrite list_lookup_insert_ne; [by apply A3|]. intros <-. specialize (A3 _ Hs). congruence.
  - intros u Hu. apply H4. by right.
Qed.

Lemma mem_install hs m U i r f :
  mem_inv hs m U -> get_irc i m = Some r -> r_refs r <> 0 -> r_dead r = false -> hs !! f = Some None ->
  mem_inv (<[f := Some i]> hs) (put_irc i (with_session (Some f) (with_refs (r_refs r + 1) r)) m) U.
Proof.
  intros H E Hr Hd Hf. pose proof (mem_hook _ _ _ f i (hold_step _ _ _ _ _ H E Hr) Hf) as H'.
  set (m' := put_irc i (with_refs (r_refs r + 1) r) m) in *.
  assert (E' : get_irc i m' = Some (with_refs (r_refs r + 1) r)) by (unfold m'; rewrite (get_put_irc _ _ _ _ _ E); by rewrite decide_True).
  assert (Hi := mv_irc _ _ _ H' i). unfold irc_ok in Hi. rewrite E' in Hi. destruct Hi as (_ & _ & _ & I4).
  pose proof (mem_write _ _ _ _ _ (with_session (Some f) (with_refs (r_refs r + 1) r)) H' E' eq_refl eq_refl) as H''.
  unfold m' in H''. rewrite put_put_irc in H''. apply H''; [cbn; congruence| |exact I4]. intros s [= <-].
  by rewrite list_lookup_insert_eq by (by eapply lookup_lt_Some).
Qed.

(** Installing a fresh session: its hook takes a reference. *)
Lemma install_world w i r f d T :
  world_inv w (TNew f d :: T) -> get_irc i (w_user w) = Some r -> r_refs r <> 0 -> r_dead r = false ->
  r_session r = None -> d = i ->
  exists k', set_done f (w_sock w) = Ok k' /\
  world_inv (mk_world k' (put_irc i (with_session (Some f) (with_refs (r_refs r + 1) r)) (w_user w))) T.
Proof.
  intros [Hk Hu] E Hr Hnd Es ->. cbn [cl_own irc_client cl_inv app] in Hk, Hu.
  destruct (si_gone _ _ (proj1 Hk) (TNew f i) f) as [ss E']; [by left|done|]. unfold set_done. rewrite E'.
  destruct (inv_set_done _ _ _ _ E' _ Hk) as (Hk' & Hn & Hd). eexists. split; [done|]. set (k' := put_session f _ _).
  assert (El : legs_tok k' = legs_tok (w_sock w)).
  { unfold legs_tok. apply map_ext_in. intros l _. do 2 f_equal. by eapply cb_put. }
  split; cbn [w_sock w_user cl_own irc_client cl_inv].
  - rewrite El. eapply sock_inv_perm; [|exact Hk'].
    pose proof (own_put (w_user w) i r (with_session (Some f) (with_refs (r_refs r + 1) r)) E) as Hp.
    cbn [own_session with_session r_session] in Hp. rewrite Es, app_nil_r in Hp. rewrite Hp. solve_Permutation.
  - unfold k'. rewrite (hooks_put _ _ _ _ E'). cbn [hook_of with_life s_life l_done s_ident]. rewrite Hd.
    apply mem_install; try done. rewrite (hooks_lookup _ _ _ E'). unfold hook_of. by rewrite Hn.
Qed.

Lemma world_forget_new w f d T : world_inv w (TNew f d :: T) -> world_inv w (TOwn f :: T).
Proof.
  intros [Hk Hu]. split; [|exact Hu]. cbn [app] in *.
  destruct (si_gone _ _ (proj1 Hk) (TNew f d) f) as [ss E]; [by left|done|]. by eapply inv_forget_new.
Qed.

Lemma live_irc_cons x t i : live_irc t i -> live_irc (x :: t) i.
Proof.
  intros [Hl|[[s Hl]|(j & f & l & Hl & Hj)]]; unfold live_irc;
    [left; by right|right; left; exists s; by right|do 2 right; exists j, f, l; split; [by right|done]].
Qed.

Lemma install_step t i f a w R :
  live_irc t i -> world_inv w ((TNew f i :: t) ++ R) ->
  match session_install i f a w with
  | Ok (w', (installed, s)) => world_inv w' ((if installed then got t i s else TOwn f :: got t i s) ++ R)
  | Blocked => True
  | Fault => False
  end.
Proof.
  intros Hl Hw. assert (Hl' := live_irc_cons (TOwn f) _ _ Hl).
  destruct (world_live _ _ _ _ Hw (live_irc_cons (TNew f i) _ _ Hl)) as (r & E & Hr). unfold session_install. rewrite E.
  destruct (negb _ || r_dead r) eqn:Eb.
  - apply world_forget_new in Hw. pose proof (session_ref_step _ _ a w R Hl' Hw) as H.
    destruct (session_ref i a w) as [[w' [s|]]| |]; [| |done..]; cbn [got] in *; [|done].
    eapply world_inv_perm; [|exact H]. cbn [app]. constructor.
  - apply orb_false_iff in Eb as [Es%negb_false_iff%bool_decide_eq_true Ed].
    destruct (install_world _ _ _ _ _ _ Hw E Hr Ed Es eq_refl) as (k' & -> & Hw').
    pose proof (session_ref_step _ _ a _ R Hl Hw') as H.
    by destruct (session_ref i a _) as [[w'' s]| |].
Qed.

Lemma session_open_ok t i : live_irc t i -> WP (irc_session_open i) (fun s t' => t' = got t i s) t.
Proof.
  intros Hl. eapply wp_seq; [by apply session_ref_ok|]. intros [s|] t' ->; cbn [got]; [done|].
  eapply wp_then; [by apply ird_keeps|]. intros dead. destruct dead; [done|].
  eapply wp_seq with (Q' := fun name t' => t' = t); [by apply ird_keeps|]. intros name t' ->.
  eapply wp_seq; [apply (create_ok (C := irc_mem))|]. intros [f|] t' ->; [|done].
  eapply wp_seq with (Q' := fun r t' => t' = if r.1 : bool then got t i r.2 else TOwn f :: got t i r.2).
  - apply wp_act. intros a w R Hw. pose proof (install_step t i f a w R Hl Hw) as H.
    destruct (session_install i f a w) as [[w' [b s]]| |]; [|done..]. eexists. split; [done|]. done.
  - intros [installed s] t' ->. cbn [fst snd]. eapply wp_seq with (Q' := fun _ t' => t' = got t i s); [|by intros _ t' ->].
    destruct installed; [done|]. apply (destroy_ok irc_sock_done). intros d u. apply release_irc_ok.
Qed.

(** ** The backoff *)

(** A token that only says something. *)
Definition neutral (u : uref) : bool := match u with UOther (3 | 7 | 9) _ _ => true | _ => false end.

Lemma neutral_none u : neutral u = true ->
  (forall i, is_data i u = false /\ is_last i u = false /\ is_inst i u = false /\ is_inst_last i u = false /\
    is_kill i u = false) /\ is_life u = false.
Proof. destruct u as [d|k z b|l]; [done| |done]. by destruct k as [|[|[|[|[|[|[|[|[|[|k]]]]]]]]]]. Qed.

Lemma mem_neutral hs m U u : neutral u = true ->
  mem_inv hs m (u :: U) <-> mem_inv hs m U /\ fact_ok m u.
Proof.
  intros Hn. destruct (neutral_none u Hn) as [Hc Hl].
  assert (C1 : forall i, count (is_data i) (u :: U) = count (is_data i) U) by (intros i; rewrite count_cons; destruct (Hc i) as (-> & _); done).
  assert (C2 : forall i, count (is_last i) (u :: U) = count (is_last i) U) by (intros i; rewrite count_cons; destruct (Hc i) as (_ & -> & _); done).
  assert (C3 : forall i, count (is_inst i) (u :: U) = count (is_inst i) U) by (intros i; rewrite count_cons; destruct (Hc i) as (_ & _ & -> & _); done).
  assert (C4 : forall i, count (is_inst_last i) (u :: U) = count (is_inst_last i) U) by (intros i; rewrite count_cons; destruct (Hc i) as (_ & _ & _ & -> & _); done).
  assert (C6 : forall i, count (is_kill i) (u :: U) = count (is_kill i) U) by (intros i; rewrite count_cons; destruct (Hc i) as (_ & _ & _ & _ & ->); done).
  assert (C5 : count is_life (u :: U) = count is_life U) by (by rewrite count_cons, Hl).
  split.
  - intros [H1 H2 H3 H4 H5 H6 H7]. split; [split; try done|apply H4; by left].
    + intros i. specialize (H1 i). unfold irc_ok, irc_refs in *. by rewrite C1, C2 in H1.
    + intros j. specialize (H2 j). unfold inst_ok, mi_count in *. by rewrite C3, C4 in H2.
    + intros v Hv. apply H4. by right.
    + by rewrite C5 in H5.
    + intros i. specialize (H7 i). unfold dead_ok in *. by rewrite C6 in H7.
  - intros [[H1 H2 H3 H4 H5 H6 H7] Hf]. split; try done.
    + intros i. specialize (H1 i). unfold irc_ok, irc_refs in *. by rewrite C1, C2.
    + intros j. specialize (H2 j). unfold inst_ok, mi_count in *. by rewrite C3, C4.
    + intros v [->|Hv]%elem_of_cons; [done|by apply H4].
    + by rewrite C5.
    + intros i. specialize (H7 i). unfold dead_ok in *. by rewrite C6.
Qed.

(** The scheduler moves on, and references with it. *)
Lemma mem_tasks hs m U V c armed issued :
  mem_inv hs m U -> task_ok (set_tasks c armed issued m) ->
  (forall x, x ∈ im_issued m -> x ∈ issued) ->
  (forall i, count (is_data i) V + count (armed_is i) armed = count (is_data i) U + count (armed_is i) (im_armed m)) ->
  (forall f : uref -> bool, (forall d, f (UData d) = false) -> count f V = count f U) ->
  (forall u, u ∈ V -> u ∈ U \/ exists d, u = UData d) ->
  mem_inv hs (set_tasks c armed issued m) V.
Proof.
  intros [H1 H2 H3 H4 H5 H6 H7] Ht Hi C1 C2 Hin. split; try done.
  - intros i. specialize (H1 i). unfold irc_ok, irc_refs in *. specialize (C1 i). rewrite (C2 (is_last i)) by done.
    change (get_irc i (set_tasks c armed issued m)) with (get_irc i m). cbn [im_armed im_insts im_issued set_tasks].
    destruct (get_irc i m) as [r|]; [|lia]. destruct H1 as (A1 & A2 & A3 & A4). split_and!; [lia|done|done|auto].
  - intros j. specialize (H2 j). unfold inst_ok, mi_count in *. rewrite (C2 (is_inst j)), (C2 (is_inst_last j)) by done. exact H2.
  - intros u Hu. destruct (Hin u Hu) as [Hu'|[d ->]]; [|done]. specialize (H4 u Hu').
    destruct u as [d|k z b|l]; [done|destruct k as [|[|[|[|[|[|[|[|[|[|k]]]]]]]]]]|]; cbn [fact_ok] in *; try done. by apply Hi.
  - by rewrite (C2 is_life).
  - intros i. specialize (H7 i). unfold dead_ok in *. by rewrite (C2 (is_kill i)).
Qed.

Definition gone (h : Z) (l : list (Z * nat)) : list (Z * nat) := List.filter (fun x => negb (x.1 =? h)) l.

Lemma gone_in h l x : x ∈ gone h l <-> x ∈ l /\ x.1 <> h.
Proof.
  unfold gone. rewrite !list_elem_of_In, List.filter_In. split; intros [? Hn]; split; try done.
  - by apply negb_true_iff, Z.eqb_neq in Hn.
  - by apply negb_true_iff, Z.eqb_neq.
Qed.

Lemma gone_id h l : h ∉ map fst l -> gone h l = l.
Proof.
  induction l as [|x l IH]; intros H; [done|]. cbn [gone List.filter]. cbn [map] in H. apply not_elem_of_cons in H as [Hx Hl].
  rewrite (proj2 (Z.eqb_neq x.1 h)) by congruence. cbn [negb]. f_equal. by apply IH.
Qed.

Lemma gone_sub h l : forall k, k ∈ map fst (gone h l) -> k ∈ map fst l.
Proof. intros k (x & -> & Hx)%list_elem_of_fmap. apply gone_in in Hx as [Hx _]. apply list_elem_of_fmap. eauto. Qed.

Lemma gone_nodup h l : NoDup (map fst l) -> NoDup (map fst (gone h l)).
Proof.
  induction l as [|x l IH]; intros H; [done|]. cbn [map] in H. apply list.NoDup_cons in H as [Hx Hl]. cbn [gone List.filter].
  destruct (negb _); [|by apply IH]. cbn [map]. apply list.NoDup_cons. split; [|by apply IH].
  intros Hg. apply Hx. by eapply gone_sub.
Qed.

Lemma armed_for_spec h l :
  NoDup (map fst l) ->
  match armed_for h l with
  | Some i => (h, i) ∈ l /\ forall i', count (armed_is i') (gone h l) = count (armed_is i') l - Z.b2z (i =? i')%nat
  | None => h ∉ map fst l
  end.
Proof.
  induction l as [|[h' i] l IH]; intros H; [by apply not_elem_of_nil|]. cbn [map fst] in H.
  apply list.NoDup_cons in H as [Hx Hl]. specialize (IH Hl). unfold armed_for in *. cbn [List.find fst].
  destruct (Z.eqb_spec h' h) as [->|Hne]; cbn [snd].
  - split; [by left|]. intros i'. cbn [gone List.filter fst]. rewrite Z.eqb_refl. cbn [negb].
    fold (gone h l). rewrite gone_id by done. rewrite count_cons. unfold armed_is at 2. cbn [snd]. lia.
  - destruct (List.find _ l) as [x|].
    + destruct IH as [IH1 IH2]. split; [by right|]. intros i'. cbn [gone List.filter fst].
      rewrite (proj2 (Z.eqb_neq h' h)) by done. cbn [negb]. rewrite !count_cons. fold (gone h l). rewrite IH2. lia.
    + cbn [map fst]. rewrite not_elem_of_cons. split; [congruence|done].
Qed.

Lemma task_remove m c h :
  task_ok m -> sched_room 0 c -> task_next_id c = task_next_id (im_sched m) ->
  (forall h', queued c h' <-> h' <> h /\ queued (im_sched m) h') ->
  task_ok (set_tasks c (gone h (im_armed m)) (im_issued m) m).
Proof.
  intros [T1 T2 T3 T4 T5] Hr Hn Hq. split; cbn [im_sched im_armed im_issued set_tasks]; [done| |by apply gone_nodup|done|].
  - intros h' i'. rewrite gone_in, T2, Hq. cbn [fst]. tauto.
  - intros h' i' Hx. rewrite Hn. by eapply T5.
Qed.

Lemma task_keep m c :
  task_ok m -> sched_room 0 c -> task_next_id c = task_next_id (im_sched m) ->
  (forall h', queued c h' <-> queued (im_sched m) h') ->
  task_ok (set_tasks c (im_armed m) (im_issued m) m).
Proof.
  intros [T1 T2 T3 T4 T5] Hr Hn Hq. split; cbn [im_sched im_armed im_issued set_tasks]; try done.
  - intros h' i'. by rewrite T2, Hq.
  - intros h' i' Hx. rewrite Hn. by eapply T5.
Qed.

Lemma task_ok_add m i delay n0 n1 n2 n3 n4 :
  task_ok m -> task_next_id (im_sched m) + 1 < 2 ^ 64 ->
  let r := task_add_deferred (lit "irc_recon_") TASK_THREAD 100 delay n0 n1 n2 n3 n4 (im_sched m) in
  task_ok (set_tasks r.1 ((r.2, i) :: im_armed m) ((r.2, i) :: im_issued m) m) /\ r.2 <> TASK_HANDLE_NONE.
Proof.
  intros [T1 T2 T3 T4 T5] Hl. cbn zeta.
  destruct (deferred_law (lit "irc_recon_") TASK_THREAD 100 delay n0 n1 n2 n3 n4 (im_sched m) 0) as (D1 & D2 & D3 & D4).
  { destruct T1 as [R1 R2 R3]. split; [done..|lia]. }
  set (r := task_add_deferred _ _ _ _ _ _ _ _ _ _) in *. clearbody r.
  assert (Hpos : 0 < task_next_id (im_sched m)) by (destruct T1 as [_ _ []]; lia).
  assert (Hnew : forall h' i', (h', i') ∈ im_issued m -> h' <> r.2) by (intros h' i' Hx; apply T5 in Hx; lia).
  split; [|rewrite D2; unfold TASK_HANDLE_NONE; lia].
  split; cbn [im_sched im_armed im_issued set_tasks map fst]; [done| | | |].
  - intros h' i'. rewrite !elem_of_cons, T2. unfold queued in *. rewrite D4, <- D2. split.
    + intros [[= -> ->]|[Hx Hq]]; auto.
    + intros [[Ex|Hx] [Eh|Hq]]; [by left|by left|by destruct (Hnew _ _ Hx)|by right].
  - apply list.NoDup_cons. split; [|done]. intros (x & Ex & Hx)%list_elem_of_fmap. destruct x as [h' i']. cbn in Ex.
    apply T2 in Hx as [Hx _]. by destruct (Hnew _ _ Hx).
  - apply list.NoDup_cons. split; [|done]. intros (x & Ex & Hx)%list_elem_of_fmap. destruct x as [h' i']. cbn in Ex.
    by destruct (Hnew _ _ Hx).
  - intros h' i'. rewrite elem_of_cons, D3. intros [[= -> ->]|Hx]; [lia|]. apply T5 in Hx. lia.
Qed.

Lemma own_tasks c armed issued m : mem_own (set_tasks c armed issued m) = mem_own m.
Proof. done. Qed.

(** Arming gives the task the thread's reference. *)
Lemma add_reconnect_ok t i delay :
  WP (add_reconnect i delay) (fun h t' => h <> TASK_HANDLE_NONE /\ t' = TUser (u_issued h i) :: t) (TUser (UData i) :: t).
Proof.
  apply act_mem. intros a m hs U Hm Hh. cbn [users omap list_omap app] in Hm. fold (users t) in Hm.
  cbn zeta. destruct (2 ^ 64 <=? task_next_id (im_sched m) + 1) eqn:El; [done|]. breflect.
  destruct (task_ok_add m i (wrap 32 (delay * 1000)) (a_now a) (a_now a) (a_now a) (a_now a) (a_now a)) as [Ht Hn]; [apply Hm|lia|].
  destruct (task_add_deferred _ _ _ _ _ _ _ _ _ _) as [c h]. cbn [fst snd] in *.
  exists (TUser (u_issued h i) :: t). split_and!; [done..| |done].
  cbn [users omap list_omap app]. fold (users t). apply mem_neutral; [done|]. split; [|by left].
  eapply mem_tasks; [exact Hm|done|by intros x Hx; right| | |].
  - intros i'. rewrite !count_cons. unfold armed_is at 1. cbn [is_data snd]. lia.
  - intros f Hf. by rewrite count_cons, Hf.
  - intros u Hu. left. by right.
Qed.

(** The tokens of a thread that found [h] in a driver's task slot. *)
Definition slot (t : list stok) (h : Z) (i : nat) : list stok :=
  if h =? TASK_HANDLE_NONE then t else TUser (u_issued h i) :: t.

Lemma mem_slot hs m t h i U : mem_inv hs m (users (slot t h i) ++ U) ->
  mem_inv hs m (users t ++ U) /\ (h <> TASK_HANDLE_NONE -> (h, i) ∈ im_issued m).
Proof.
  unfold slot. destruct (Z.eqb_spec h TASK_HANDLE_NONE) as [->|Hne]; [done|].
  cbn [users omap list_omap app]. intros [Hm Hf]%mem_neutral; [|done]. done.
Qed.

Lemma issued_unique m h i i' : task_ok m -> (h, i) ∈ im_issued m -> (h, i') ∈ im_issued m -> i = i'.
Proof.
  intros H [a Hx]%list_elem_of_lookup [b Hy]%list_elem_of_lookup.
  assert (a = b) as <-; [|congruence].
  eapply (proj1 (NoDup_alt _) (to_issued _ H) a b h); change (map fst ?l) with (fst <$> l);
    rewrite list_lookup_fmap; [by rewrite Hx|by rewrite Hy].
Qed.

(** Cancelling takes the task's reference back, when it had not begun. *)
Lemma cancel_task_ok t i h :
  WP (cancel_task h) (fun c t' => t' = if c : bool then TUser (UData i) :: t else t) (slot t h i).
Proof.
  apply act_mem. intros a m hs U Hm Hh. apply mem_slot in Hm as [Hm Hi].
  destruct (Z.eqb_spec h TASK_HANDLE_NONE) as [->|Hne].
  - cbn. exists t. split_and!; [done| |done]. assert (Ht := mv_tasks _ _ _ Hm).
    eapply mem_tasks; [exact Hm|apply task_keep; done || apply Ht|done|done|done|by auto].
  - assert (Ht := mv_tasks _ _ _ Hm). destruct (task_cancel_queues h (im_sched m) 0) as (C1 & C2 & C3 & C4); [apply Ht|done|].
    assert (Hs : socks (slot t h i) = socks t) by (unfold slot; by case_match).
    destruct (task_cancel h (im_sched m)) as [c b]. cbn [fst snd] in *. fold (gone h (im_armed m)).
    destruct b.
    + exists (TUser (UData i) :: t). split_and!; [done| |by rewrite Hs].
      cbn [users omap list_omap app]. fold (users t).
      assert (Hin : (h, i) ∈ im_armed m) by (apply (to_armed _ Ht); split; [auto|by apply C2]).
      assert (Hc := armed_for_spec h (im_armed m) (to_nodup _ Ht)).
      destruct (armed_for h (im_armed m)) as [i'|]; [|destruct Hc; apply list_elem_of_fmap; by exists (h, i)].
      destruct Hc as [Hin' Hc].
      assert (i' = i) as -> by (apply (to_armed _ Ht) in Hin as [? _], Hin' as [? _]; by eapply issued_unique).
      eapply mem_tasks; [exact Hm|by apply task_remove|done| | |].
      * intros i'. rewrite count_cons, Hc. cbn [is_data]. lia.
      * intros f Hf. by rewrite count_cons, Hf.
      * intros u [->|Hu]%elem_of_cons; eauto.
    + exists t. split_and!; [done| |by rewrite Hs].
      eapply mem_tasks; [exact Hm| |done|done|done|by auto].
      apply task_keep; try done. intros h'. unfold queued. rewrite C3. split; [tauto|]. intros Hq. split; [|done].
      intros ->. by apply C2 in Hq.
Qed.

(** An access to a driver's state that moves references. *)
Lemma on_irc_mem {B} t i (f : irc_t -> irc_t * B) Q :
  live_irc t i ->
  (forall m hs U r, mem_inv hs m (users t ++ U) -> get_irc i m = Some r -> r_refs r <> 0 ->
     exists t', Q (f r).2 t' /\ mem_inv hs (put_irc i (f r).1 m) (users t' ++ U) /\
       socks t' = socks t /\ r_session (f r).1 = r_session r) ->
  WP (on_irc i f) Q t.
Proof.
  intros Hl H. apply act_mem. intros a m hs U Hm Hh. destruct (live_alive _ _ _ _ _ Hm Hh Hl) as (r & E & Hr).
  rewrite E. destruct (H m hs U r Hm E Hr) as (t' & HQ & Hm' & Hs & Es). exists t'. split_and!; [done..|].
  by rewrite Hs, own_put_same.
Qed.

Lemma mem_task hs m U i r h arming :
  mem_inv hs m U -> get_irc i m = Some r -> (h <> TASK_HANDLE_NONE -> (h, i) ∈ im_issued m) ->
  mem_inv hs (put_irc i (with_task h arming r) m) U.
Proof.
  intros Hm E Hh. assert (Hi := mv_irc _ _ _ Hm i). unfold irc_ok in Hi. rewrite E in Hi.
  eapply mem_write; try done. apply Hi.
Qed.

Lemma arm_keeps t i : live_irc t i -> keeps t (irc_arm_reconnect i).
Proof.
  intros Hl. eapply wp_seq with (Q' := fun (go : option Z) t' => t' = match go with Some _ => TUser (UData i) :: t | None => t end).
  { apply on_irc_mem; [done|]. intros m hs U r Hm E Hr. assert (Hi := mv_irc _ _ _ Hm i). unfold irc_ok in Hi. rewrite E in Hi.
    destruct (_ || _) eqn:Eb; cbn [fst snd].
    - exists t. split_and!; try done. eapply mem_write; try done; apply Hi.
    - exists (TUser (UData i) :: t). split_and!; try done. pose proof (hold_step _ _ _ _ _ Hm E Hr) as H.
      apply (mem_task _ _ _ i (with_refs (r_refs r + 1) r) (r_task r) true) in H; [rewrite put_put_irc in H; exact H| |apply Hi].
      rewrite (get_put_irc _ _ _ _ _ E). by rewrite decide_True. }
  intros [delay|] t' ->; [|done]. eapply wp_seq; [apply add_reconnect_ok|]. intros h t' [Hn ->].
  eapply wp_seq with (Q' := fun (wanted : bool) t' => t' = if wanted then t else TUser (u_issued h i) :: t).
  { apply on_irc_mem; [by apply live_irc_cons|]. intros m hs U r Hm E Hr. cbn [fst snd].
    cbn [users omap list_omap app] in Hm. fold (users t) in Hm. pose proof Hm as [Hm' Hf]%mem_neutral; [|done].
    assert (Hi := mv_irc _ _ _ Hm i). unfold irc_ok in Hi. rewrite E in Hi. destruct Hi as (_ & _ & _ & I4).
    destruct (r_arming r); [exists t|exists (TUser (u_issued h i) :: t)]; (split_and!; [done| |done|done]).
    - by apply mem_task.
    - cbn [users omap list_omap app]. fold (users t). by apply mem_task. }
  intros wanted t' ->. rewrite (proj2 (Z.eqb_neq _ _) Hn). destruct wanted; [done|]. cbn [negb].
  assert (Es : TUser (u_issued h i) :: t = slot t h i) by (unfold slot; by rewrite (proj2 (Z.eqb_neq _ _) Hn)).
  rewrite Es. eapply wp_seq; [apply cancel_task_ok|]. intros [] t' ->; [apply release_irc_ok|done].
Qed.

Lemma cancel_keeps t i : live_irc t i -> keeps t (irc_cancel_reconnect i).
Proof.
  intros Hl. eapply wp_seq with (Q' := fun h t' => t' = slot t h i).
  { apply on_irc_mem; [done|]. intros m hs U r Hm E Hr. cbn [fst snd]. exists (slot t (r_task r) i).
    assert (Hi := mv_irc _ _ _ Hm i). unfold irc_ok in Hi. rewrite E in Hi. destruct Hi as (_ & _ & _ & I4).
    assert (Hm' := mem_task _ _ _ _ _ TASK_HANDLE_NONE false Hm E ltac:(done)).
    unfold slot. destruct (Z.eqb_spec (r_task r) TASK_HANDLE_NONE); (split_and!; [done| |done|done]); [done|].
    cbn [users omap list_omap app]. fold (users t). apply mem_neutral; [done|]. split; [done|]. by apply I4. }
  intros h t' ->. eapply wp_seq; [apply cancel_task_ok|]. intros [] t' ->; [apply release_irc_ok|done].
Qed.

(** ** Sending *)

Lemma keeps_answer {B} t (f : answer -> B) : keeps (C := irc_mem) t (act (fun a w => Ok (w, f a))).
Proof. apply wp_act. intros a w R Hw. by exists t. Qed.

Lemma got_release t i s : WP (sock_release irc_sock_done s) (fun _ t' => t' = t) (got t i (Some s)).
Proof. apply (release_ok irc_sock_done). intros d u. apply release_irc_ok. Qed.

Lemma send_raw_keeps t i line : live_irc t i -> keeps t (irc_send_raw i line).
Proof.
  intros Hl. eapply wp_then; [by apply ird_keeps|]. intros c. destruct (negb c); [done|].
  eapply wp_seq; [by apply session_ref_ok|]. intros [s|] t' ->; [|done].
  eapply wp_then; [by apply send_keeps, live_head|]. intros rc.
  eapply wp_seq; [apply got_release|]. by intros _ t' ->.
Qed.

Lemma send_lines_keeps t i ls : live_irc t i -> keeps t (send_lines i ls).
Proof.
  intros Hl. induction ls as [|l ls IH]; [done|]. eapply wp_then; [by apply send_raw_keeps|done].
Qed.

(** ** The instance of a driver *)

Definition of_tok (i : nat) (j : option nat) : list stok :=
  match j with Some j => [TUser (u_of j i)] | None => [] end.

Lemma ird_inst_ok t i : live_irc t i -> WP (ird i r_inst) (fun j t' => t' = of_tok i j ++ t) t.
Proof.
  intros Hl. apply on_irc_mem; [done|]. intros m hs U r Hm E Hr. cbn [fst snd].
  assert (Hm' : mem_inv hs (put_irc i r m) (users t ++ U)).
  { assert (Hi := mv_irc _ _ _ Hm i). unfold irc_ok in Hi. rewrite E in Hi. eapply mem_write; try done; apply Hi. }
  exists (of_tok i (r_inst r) ++ t). split_and!; [done| |by destruct (r_inst r)|done].
  destruct (r_inst r) as [j|] eqn:Ej; [|done]. cbn [of_tok users omap list_omap app]. fold (users t).
  apply mem_neutral; [done|]. split; [done|]. cbn [fact_ok].
  split; [rewrite states_length; by eapply lookup_lt_Some, get_irc_in|].
  intros x. rewrite (get_put_irc _ _ _ _ _ E), decide_True by done. intros [= <-] _. by rewrite Nat2Z.id.
Qed.

Lemma has_inst_alive hs m U j i r :
  mem_inv hs m U -> get_irc i m = Some r -> r_refs r <> 0 -> r_inst r = Some j -> exists x, get_inst j m = Some x.
Proof.
  intros H E Hr Hj. pose proof (mv_inst _ _ _ H j) as Hc. unfold inst_ok, mi_count in Hc.
  destruct (get_inst j m) as [x|]; [by exists x|]. assert (1 <= count (has_inst j) (im_states m)).
  { eapply count_pos; [by apply get_irc_in|]. unfold has_inst. rewrite bool_decide_true by done.
    by rewrite (proj2 (Z.eqb_neq _ _) Hr). }
  pose proof (count_range (is_inst j) U). pose proof (count_range (Nat.eqb j) (im_list m)).
  lia.
Qed.

Lemma set_state_ok t i j st : live_irc t i ->
  WP (method_set_state j st) (fun _ t' => t' = t) (of_tok i j ++ t).
Proof.
  intros Hl. destruct j as [j|]; [|done]. cbn [of_tok app method_set_state].
  apply act_mem. intros a m hs U Hm Hh. cbn [users omap list_omap app] in Hm. fold (users t) in Hm.
  apply mem_neutral in Hm as [Hm Hf]; [|done].
  destruct (live_alive hs m t U i) as (r & E & Hr); [done| |done|].
  { intros s d Hs. apply Hh. by right. }
  destruct Hf as [_ Hf]. rewrite Nat2Z.id in Hf. destruct (has_inst_alive _ _ _ j i r Hm E Hr) as [x Ex]; [by apply Hf|].
  rewrite Ex. cbn [fst snd]. exists t. split_and!; [done|by apply mem_inst_state|done].
Qed.

(** ** What a driver does with an event *)

Lemma handle_line_keeps t i : live_irc t i -> keeps t (handle_line i).
Proof.
  intros Hl. eapply wp_then; [apply keeps_answer|]. intros [h ls].
  eapply wp_then; [|intros _; by apply send_lines_keeps].
  destruct h; [done| |by apply iwr_keeps]. eapply wp_then; [by apply iwr_keeps|]. intros _.
  eapply wp_seq; [by apply ird_inst_ok|]. intros j t' ->. by apply set_state_ok.
Qed.

Lemma handle_lines_keeps t i n : live_irc t i -> keeps t (handle_lines n i).
Proof.
  intros Hl. induction n as [|n IH]; [done|]. eapply wp_then; [by apply ird_keeps|]. intros dead.
  destruct dead; [done|]. eapply wp_then; [by apply handle_line_keeps|done].
Qed.

Lemma link_down_keeps t i : live_irc t i -> keeps t (irc_link_down i).
Proof.
  intros Hl. eapply wp_then; [by apply iwr_keeps|]. intros _.
  eapply wp_seq; [by apply ird_inst_ok|]. intros j t' ->. eapply wp_seq; [by apply set_state_ok|]. intros _ t' ->.
  eapply wp_then; [apply keeps_answer|]. intros down. destruct down; [done|].
  eapply wp_then; [by apply ird_keeps|]. intros sh. apply keeps_when. by apply arm_keeps.
Qed.

Lemma sock_cb_keeps t i ev : THeld (ev_session ev) (Some i) ∈ t -> keeps t (irc_sock_cb i ev).
Proof.
  intros Ht. assert (Hl : live_irc t i) by (right; left; eauto).
  eapply wp_then; [by apply ird_keeps|]. intros dead. destruct dead; [done|].
  destruct (ev_type ev); [| |by apply link_down_keeps|by apply link_down_keeps].
  - eapply wp_then; [by apply iwr_keeps|]. intros _. eapply wp_seq; [by apply ird_inst_ok|]. intros j t' ->.
    eapply wp_seq; [by apply set_state_ok|]. intros _ t' ->.
    eapply wp_then; [apply keeps_answer|]. intros ls. by apply send_lines_keeps.
  - eapply wp_then; [apply keeps_answer|]. intros n. by apply handle_lines_keeps.
Qed.

(** ** Connecting *)

Lemma load_config_keeps t i : live_irc t i -> keeps t (config_snapshot i).
Proof.
  intros Hl. apply act_mem. intros a m hs U Hm Hh. destruct (live_alive _ _ _ _ _ Hm Hh Hl) as (r & E & _). rewrite E.
  destruct (negb (a_err a =? 0)); [by exists t|]. cbn zeta. exists t.
  assert (Hi := mv_irc _ _ _ Hm i). unfold irc_ok in Hi. rewrite E in Hi.
  split_and!; [done| |by rewrite own_put_same]. eapply mem_write; try done; apply Hi.
Qed.

Lemma attempt_connect_keeps t i : live_irc t i -> keeps t (irc_attempt_connect i).
Proof.
  intros Hl. eapply wp_then; [apply keeps_answer|]. intros down. eapply wp_then; [by apply ird_keeps|]. intros sh.
  eapply wp_then; [by apply ird_keeps|]. intros dead. destruct (_ || _ || _); [done|].
  eapply wp_then; [by apply load_config_keeps|]. intros ok. destruct (negb ok); [by apply arm_keeps|].
  eapply wp_seq; [by apply session_open_ok|]. intros [s|] t' ->; [|by apply arm_keeps].
  assert (Hl' : live_irc (got t i (Some s)) i) by (by apply live_irc_cons).
  eapply wp_then; [by apply ird_keeps|]. intros tls. eapply wp_then.
  { apply keeps_when. eapply wp_then; [by apply set_tls_keeps, live_head|done]. }
  intros _. eapply wp_then; [by apply ird_keeps|]. intros addr.
  eapply wp_then; [apply (sock_connect_keeps irc_sock_done); [intros d u; apply release_irc_ok|exists i; by left]|]. intros ok'.
  eapply wp_seq; [apply got_release|]. intros _ t' ->. apply keeps_when. by apply arm_keeps.
Qed.

Lemma session_destroy_ok t s :
  WP (match s with Some s => sock_destroy irc_sock_done s | None => skip end) (fun _ t' => t' = t)
    (match s with Some s => TOwn s :: t | None => t end).
Proof. destruct s as [s|]; [|done]. apply (destroy_ok irc_sock_done). intros d u. apply release_irc_ok. Qed.

Lemma clear_task_keeps t i : live_irc t i -> keeps t (iwr i (with_task TASK_HANDLE_NONE false)).
Proof.
  intros Hl. apply on_irc_mem; [done|]. intros m hs U r Hm E Hr. exists t. split_and!; try done. by apply mem_task.
Qed.

Lemma reconnect_task_ok t i : WP (irc_reconnect_task i) (fun _ t' => t' = t) (TUser (UData i) :: t).
Proof.
  assert (Hl : live_irc (TUser (UData i) :: t) i) by (left; by left).
  eapply wp_then; [by apply clear_task_keeps|]. intros _. eapply wp_then; [by apply ird_keeps|]. intros dead.
  eapply wp_then; [by apply ird_keeps|]. intros sh. eapply wp_then; [apply keeps_answer|]. intros down.
  destruct (_ || _ || _); [apply release_irc_ok|].
  eapply wp_seq; [by apply session_take_ok|]. intros old t' ->. eapply wp_seq; [apply session_destroy_ok|]. intros _ t' ->.
  eapply wp_then; [by apply attempt_connect_keeps|]. intros _. apply release_irc_ok.
Qed.

Lemma run_task_keeps t type bg : keeps t (run_task type bg).
Proof.
  eapply wp_seq with (Q' := fun o t' => t' = match o with Some i => TUser (UData i) :: t | None => t end).
  2: { intros [i|] t' ->; [apply reconnect_task_ok|done]. }
  apply act_mem. intros a m hs U Hm Hh. assert (Ht := mv_tasks _ _ _ Hm).
  destruct (assign_queues (a_now a) (a_now a) type bg (im_sched m) 0 (to_room _ Ht)) as [Q1 Q2].
  pose proof (assign_next (a_now a) (a_now a) type bg (im_sched m)) as Q3.
  destruct (task_assign _ _ _ _ _) as [c [x|]]; cbn [fst snd] in *.
  - destruct Q2 as [Q4 Q5]. fold (gone (t_id x) (im_armed m)).
    assert (Hr : task_ok (set_tasks c (gone (t_id x) (im_armed m)) (im_issued m) m)) by (by apply task_remove).
    assert (Hc := armed_for_spec (t_id x) (im_armed m) (to_nodup _ Ht)).
    destruct (armed_for (t_id x) (im_armed m)) as [i|].
    + exists (TUser (UData i) :: t). split_and!; [done| |done]. cbn [users omap list_omap app]. fold (users t).
      eapply mem_tasks; [exact Hm|done|done| | |].
      * intros i'. rewrite count_cons, (proj2 Hc). cbn [is_data]. lia.
      * intros f Hf. by rewrite count_cons, Hf.
      * intros u [->|Hu]%elem_of_cons; eauto.
    + rewrite gone_id in * by done. exists t. split_and!; [done| |done]. eapply mem_tasks; [exact Hm|done..|by auto].
  - exists t. split_and!; [done| |done]. eapply mem_tasks; [exact Hm|by apply task_keep|done..|by auto].
Qed.

(** What the socket service asks of its consumer. *)
Lemma irc_done_ok d t : WP (irc_sock_done d) (fun _ t' => t' = t) (TUser (UData d) :: t).
Proof. apply release_irc_ok. Qed.

Lemma irc_cb_ok d ev t : THeld (ev_session ev) (Some d) ∈ t -> keeps t (irc_sock_cb d ev).
Proof. apply sock_cb_keeps. Qed.

(** ** The method driver *)

Lemma mark_dead_ok t i : live_irc t i -> WP (irc_mark_dead i) (fun _ t' => t' = TUser (u_dead i) :: t) t.
Proof.
  intros Hl. apply on_irc_mem; [done|]. intros m hs U r Hm E Hr. cbn [fst snd]. exists (TUser (u_dead i) :: t).
  split_and!; [done| |done|done]. cbn [users omap list_omap app]. fold (users t). apply mem_neutral; [done|].
  assert (Hi := mv_irc _ _ _ Hm i). unfold irc_ok in Hi. rewrite E in Hi. split.
  - eapply mem_write; try done; apply Hi.
  - cbn [fact_ok]. split; [rewrite states_length; by eapply lookup_lt_Some, get_irc_in|].
    intros x. rewrite (get_put_irc _ _ _ _ _ E), decide_True by done. by intros [= <-].
Qed.

Lemma mark_dead_keeps t i : live_irc t i -> keeps t (irc_mark_dead i).
Proof.
  intros Hl. apply on_irc_mem; [done|]. intros m hs U r Hm E Hr. cbn [fst snd]. exists t.
  split_and!; try done. assert (Hi := mv_irc _ _ _ Hm i). unfold irc_ok in Hi. rewrite E in Hi.
  eapply mem_write; try done; apply Hi.
Qed.

Lemma disconnect_keeps t i reason : live_irc t i -> keeps t (irc_disconnect i reason).
Proof.
  intros Hl. eapply wp_then; [by apply iwr_keeps|]. intros _. eapply wp_then; [by apply mark_dead_keeps|]. intros _.
  eapply wp_then; [by apply cancel_keeps|]. intros _. eapply wp_seq; [by apply session_ref_ok|].
  intros [s|] t' ->; [|done]. assert (Hl' : live_irc (got t i (Some s)) i) by (by apply live_irc_cons).
  eapply wp_then; [by apply ird_keeps|]. intros c. eapply wp_then.
  { apply keeps_when. eapply wp_then; [by apply send_raw_keeps|done]. }
  intros _. eapply wp_then; [|intros _; apply got_release].
  apply (sock_close_keeps _ irc_done_ok _ irc_cb_ok). exists i. by left.
Qed.

(** Whose duty it is to take the session of a dead driver is rid of it then. *)
Lemma last_take_ok t i :
  WP (irc_session_take i) (fun s t' => t' = match s with Some s => TOwn s :: TUser (UData i) :: t | None => TUser (UData i) :: t end)
    (TUser (u_dead i) :: TUser (UData i) :: TUser (u_kill i) :: t).
Proof.
  apply act_mem. intros a m hs U Hm Hh.
  destruct (live_alive _ _ _ _ i Hm Hh) as (r & E & Hr); [left; right; by left|]. rewrite E. cbn [fst snd].
  cbn [users omap list_omap app] in Hm. fold (users t) in Hm. apply mem_neutral in Hm as [Hm [_ Hd]]; [|done].
  assert (Hi := mv_irc _ _ _ Hm i). unfold irc_ok in Hi. rewrite E in Hi. destruct Hi as (_ & I2 & _ & I4).
  assert (Hm' : mem_inv hs (put_irc i (with_session None r) m) (UData i :: users t ++ U)).
  { rewrite !count_cons in I2. cbn [is_last Z.b2z] in I2. eapply mem_put; [exact Hm|done|..]; try done.
    - intros i'. cnt. cbn [with_session r_refs]. case_decide; lia.
    - intros i'. cnt. case_decide; [subst; exact I2|lia].
    - intros j. cnt. unfold has_inst. cbn [with_session r_inst r_refs]. lia.
    - intros i' Hne. cnt. rewrite eqb_other by done. cbn [Z.b2z]. lia.
    - intros _. split; [exact (Hd r E)|done].
    - intros u Hu. eapply facts_put; [done..|]. apply Hm. apply elem_of_cons in Hu as [->|Hu]; [by left|right; by right]. }
  exists (match r_session r with Some s => TOwn s :: TUser (UData i) :: t | None => TUser (UData i) :: t end).
  split_and!; [done|by destruct (r_session r)|].
  pose proof (own_put m i r (with_session None r) E) as Hp. cbn [own_session with_session r_session] in Hp.
  rewrite app_nil_r in Hp. rewrite <- Hp. destruct (r_session r) as [s|]; cbn [socks List.filter is_sock]; fold (socks t).
  - solve_Permutation.
  - by rewrite app_nil_r.
Qed.

Lemma destroy_irc_ok t i : WP (irc_destroy i) (fun _ t' => t' = t) (TUser (UData i) :: TUser (u_kill i) :: t).
Proof.
  assert (Hl : forall t, live_irc (TUser (UData i) :: t) i) by (intros u; left; by left).
  eapply wp_seq; [by apply mark_dead_ok|]. intros _ t' ->. eapply wp_seq; [apply last_take_ok|]. intros s t' ->.
  eapply wp_then; [apply cancel_keeps; destruct s; [by apply live_irc_cons|done]|]. intros _.
  eapply wp_seq; [apply session_destroy_ok|]. intros _ t' ->. apply release_irc_ok.
Qed.

(** ** The instances *)

Lemma find_inst_ok hs m U name l :
  mem_inv hs m U -> (forall j, j ∈ l -> 1 <= mi_count m U j) ->
  match find_inst name m l with
  | Ok (Some (j, x)) => j ∈ l /\ get_inst j m = Some x /\ mi_refs x <> 0
  | Ok None => True
  | _ => False
  end.
Proof.
  intros H. induction l as [|j l IH]; intros Hl; [done|]. cbn [find_inst].
  assert (Hj := mv_inst _ _ _ H j). assert (Hc := Hl j ltac:(by left)). unfold inst_ok in Hj.
  destruct (get_inst j m) as [x|] eqn:E; [|lia]. destruct (strncaseeq _ _ _).
  - split_and!; [by left|done|]. destruct Hj as (-> & _). lia.
  - specialize (IH ltac:(intros j' Hj'; apply Hl; by right)). destruct (find_inst name m l) as [[[j' x']|]| |]; try done.
    destruct IH as (? & ? & ?). split_and!; [by right|done..].
Qed.

Lemma mi_count_list m U j : j ∈ im_list m -> 1 <= mi_count m U j.
Proof.
  intros [n Hn]%list_elem_of_lookup. unfold mi_count. pose proof (count_pos (Nat.eqb j) _ _ _ Hn (Nat.eqb_refl j)).
  pose proof (count_range (is_inst j) U).
  pose proof (count_range (has_inst j) (im_states m)). lia.
Qed.

Definition found_tok (t : list stok) (j : option nat) : list stok :=
  match j with Some j => TUser (u_inst j) :: t | None => t end.

Lemma find_ok t name : WP (method_find name) (fun j t' => t' = found_tok t j) t.
Proof.
  destruct name as [|c name]; [done|]. cbn [method_find]. set (n := c :: name). clearbody n.
  apply act_mem. intros a m hs U Hm Hh. pose proof (find_inst_ok _ _ _ n (im_list m) Hm ltac:(intros j; apply mi_count_list)) as Hf.
  destruct (find_inst n m (im_list m)) as [[[j x]|]| |]; try done; [|by exists t].
  destruct Hf as (_ & E & Hr). exists (found_tok t (Some j)). split_and!; [done|by apply inst_hold|done].
Qed.

(** ** Notes *)

(** One thread at a time takes notes. *)
Lemma life_only hs m U u v : mem_inv hs m (u :: U) -> is_life u = true -> v ∈ U -> is_life v = false.
Proof.
  intros Hm Hu Hv. pose proof (mv_life _ _ _ Hm) as H. rewrite count_cons, Hu in H.
  destruct (is_life v) eqn:Ev; [|done]. assert (1 <= count is_life U) by (by eapply count_member). cbn [Z.b2z] in H. lia.
Qed.

Lemma mem_notes hs m U l l' :
  mem_inv hs m (u_life l :: U) -> (Forall (note_ok m) l -> Forall (note_ok m) l') -> mem_inv hs m (u_life l' :: U).
Proof.
  intros [H1 H2 H3 H4 H5 H6 H7] Hl. split; try done.
  intros u [->|Hu]%elem_of_cons; [apply Hl, (H4 (u_life l)); by left|apply H4; by right].
Qed.

Lemma notes_of hs m U l n : mem_inv hs m (u_life l :: U) -> n ∈ l -> note_ok m n.
Proof.
  intros H Hn. pose proof (mv_facts _ _ _ H (u_life l) ltac:(by left)) as Hf.
  by eapply (proj1 (List.Forall_forall _ _) Hf), list_elem_of_In.
Qed.

(** ** Subscribers *)

Lemma subs_keeps {B} t j (f : minst -> list method_sub_t * B) :
  TUser (u_inst j) ∈ t -> keeps t (on_inst j (fun x => (with_subs (f x).1 x, (f x).2))).
Proof.
  intros Ht. apply act_mem. intros a m hs U Hm Hh.
  destruct (inst_alive _ _ _ j Hm) as [x E]; [apply elem_of_app; left; by apply users_in|]. rewrite E. cbn [fst snd].
  exists t. split_and!; [done|by apply mem_inst_state|done].
Qed.

Lemma subscribe_keeps t j name data : TUser (u_inst j) ∈ t -> keeps t (method_subscribe j name data).
Proof.
  intros Ht. destruct name as [|c name]; [done|]. cbn [method_subscribe]. set (n := c :: name). clearbody n.
  apply act_mem. intros a m hs U Hm Hh.
  destruct (inst_alive _ _ _ j Hm) as [x E]; [apply elem_of_app; left; by apply users_in|]. rewrite E.
  exists t. destruct (_ || _); cbn [fst snd]; split_and!; try done; [|by apply mem_inst_state].
  pose proof (mem_inst_state _ _ _ _ _ (mi_state x) (mi_subs x) Hm E) as H. by destruct x.
Qed.

Lemma unsubscribe_keeps t j name : TUser (u_inst j) ∈ t -> keeps t (method_unsubscribe j name).
Proof.
  intros Ht. destruct name as [|c name]; [done|]. cbn [method_unsubscribe]. set (n := c :: name). clearbody n.
  by apply (subs_keeps t j (fun x => (drop_sub n (mi_subs x), existsb (sub_is n) (mi_subs x)))).
Qed.

Lemma snapshot_ok t j : TUser (u_inst j) ∈ t -> WP (deliver_snapshot j) (fun _ t' => t' = TUser (u_inst j) :: t) t.
Proof.
  intros Ht. apply act_mem. intros a m hs U Hm Hh.
  assert (Hj : u_inst j ∈ users t ++ U) by (apply elem_of_app; left; by apply users_in).
  destruct (inst_alive _ _ _ j Hm Hj) as [x E]. rewrite E. cbn [fst snd]. exists (TUser (u_inst j) :: t).
  split_and!; [done| |done]. cbn [users omap list_omap app]. fold (users t). apply inst_hold; [done..|].
  assert (Hx := mv_inst _ _ _ Hm j). unfold inst_ok in Hx. rewrite E in Hx. destruct Hx as (-> & _). unfold mi_count.
  assert (1 <= count (is_inst j) (users t ++ U)) by (eapply count_member; [done|apply Nat.eqb_refl]).
  pose proof (count_range (Nat.eqb j) (im_list m)). pose proof (count_range (has_inst j) (im_states m)). lia.
Qed.

(** ** A new driver *)

Definition new_inst (name : cstr) (i : nat) : minst := mk_minst name (Some i) METHOD_ENABLED 2 [].
Definition new_irc (name : cstr) : irc_t :=
  mk_irc name None 1 false None TASK_HANDLE_NONE false false false false [] 0 false false 30.

Definition registered (name : cstr) (m : irc_mem) : irc_mem :=
  set_mlist (length (im_insts m) :: im_list m)
    (set_insts (im_insts m ++ [Some (new_inst name (length (im_states m)))])
       (set_states (im_states m ++ [Some (new_irc name)]) m)).

Lemma lookup_snoc {A} (l : list (option A)) x n :
  mjoin ((l ++ [Some x]) !! n) = if decide (n = length l) then Some x else mjoin (l !! n).
Proof.
  case_decide as E; [subst; by rewrite list_lookup_middle|].
  destruct (decide (n < length l)%nat); [by rewrite lookup_app_l|].
  rewrite !lookup_ge_None_2; [done|lia|rewrite length_app; cbn; lia].
Qed.

Lemma get_new_irc name m i :
  get_irc i (registered name m) = if decide (i = length (im_states m)) then Some (new_irc name) else get_irc i m.
Proof. apply lookup_snoc. Qed.

Lemma get_new_inst name m j :
  get_inst j (registered name m) =
  if decide (j = length (im_insts m)) then Some (new_inst name (length (im_states m))) else get_inst j m.
Proof. apply lookup_snoc. Qed.

Lemma fresh_irc m : get_irc (length (im_states m)) m = None.
Proof. unfold get_irc. by rewrite lookup_ge_None_2. Qed.

Lemma fresh_inst m : get_inst (length (im_insts m)) m = None.
Proof. unfold get_inst. by rewrite lookup_ge_None_2. Qed.

(** Nothing is held of what is not there. *)
Lemma absent_irc hs m U i : mem_inv hs m U -> get_irc i m = None ->
  count (is_data i) U = 0 /\ count (hook_is i) hs = 0 /\ count (armed_is i) (im_armed m) = 0 /\
  count (handle_is i) (im_insts m) = 0 /\ count (is_last i) U = 0.
Proof.
  intros H E. assert (Hi := mv_irc _ _ _ H i). unfold irc_ok, irc_refs in Hi. rewrite E in Hi.
  pose proof (count_range (is_data i) U). pose proof (count_range (hook_is i) hs).
  pose proof (count_range (armed_is i) (im_armed m)). pose proof (count_range (handle_is i) (im_insts m)). lia.
Qed.

Lemma absent_inst hs m U j : mem_inv hs m U -> get_inst j m = None ->
  count (is_inst j) U = 0 /\ count (Nat.eqb j) (im_list m) = 0 /\
  count (has_inst j) (im_states m) = 0 /\ count (is_inst_last j) U = 0.
Proof.
  intros H E. assert (Hj := mv_inst _ _ _ H j). unfold inst_ok, mi_count in Hj. rewrite E in Hj.
  pose proof (count_range (is_inst j) U). pose proof (count_range (Nat.eqb j) (im_list m)).
  pose proof (count_range (has_inst j) (im_states m)). lia.
Qed.

Lemma lent_register hs m U j i name : mem_inv hs m U -> lent_ok m j i -> lent_ok (registered name m) j i.
Proof.
  intros H (x & E & Hx). exists x. rewrite get_new_inst. case_decide as Ej; [|done].
  rewrite Ej, fresh_inst in E. done.
Qed.

Lemma fact_register hs m U u name :
  mem_inv hs m U -> u ∈ U -> fact_ok (registered name m) u.
Proof.
  intros H Hu. assert (Hf := mv_facts _ _ _ H u Hu).
  assert (Hn := absent_irc _ _ _ _ H (fresh_irc m)). destruct Hn as (_ & _ & _ & _ & Hn).
  destruct u as [d|k z b|l]; [done|destruct k as [|[|[|[|[|[|[|[|[|[|k]]]]]]]]]]|]; cbn [fact_ok] in *; try done.
  - intros x. rewrite get_new_irc. case_decide; [subst|apply Hf]. exfalso.
    assert (1 <= count (is_last (length (im_states m))) U) by (eapply count_member; [exact Hu|apply Nat.eqb_refl]). lia.
  - destruct Hf as [Hb Hf]. split; [cbn [registered im_states set_mlist set_insts set_states]; rewrite length_app; lia|].
    intros x. rewrite get_new_irc. case_decide; [lia|apply Hf].
  - destruct Hf as [Hb Hf]. split; [cbn [registered im_states set_mlist set_insts set_states]; rewrite length_app; lia|].
    intros x. rewrite get_new_irc. case_decide; [lia|apply Hf].
  - revert Hf. apply List.Forall_impl. intros n [Hl Hr]. split; [by eapply lent_register|]. intros Ht x.
    rewrite get_new_irc. case_decide; [by intros [= <-]|by apply Hr].
Qed.

Lemma handle_new name m i : handle_is i (Some (new_inst name (length (im_states m)))) = (i =? length (im_states m))%nat.
Proof.
  cbn. destruct (Nat.eqb_spec i (length (im_states m))) as [->|Hne]; [by apply bool_decide_eq_true|].
  apply bool_decide_eq_false. congruence.
Qed.

Lemma mem_register hs m U name :
  mem_inv hs m U -> mem_inv hs (registered name m) (u_inst (length (im_insts m)) :: U).
Proof.
  intros H. set (j := length (im_insts m)). set (i := length (im_states m)).
  assert (Ni := absent_irc _ _ _ i H (fresh_irc m)). assert (Nj := absent_inst _ _ _ j H (fresh_inst m)).
  cbn [is_data is_last is_inst is_inst_last Z.b2z] in *.
  assert (Hlist : j ∉ im_list m).
  { intros [n Hn]%list_elem_of_lookup. pose proof (count_pos (Nat.eqb j) _ _ _ Hn (Nat.eqb_refl j)). lia. }
  split.
  - intros i'. assert (Hi := mv_irc _ _ _ H i'). unfold irc_ok, irc_refs in *.
    rewrite get_new_irc. rewrite !count_cons in *. cbn [is_data is_last Z.b2z im_armed im_insts im_issued registered set_mlist set_insts set_states] in *.
    rewrite count_app, (count_cons (handle_is i')), count_nil, handle_new. fold i. case_decide as Ei.
    + subst i'. rewrite Nat.eqb_refl. cbn. split_and!; [lia|lia|done|done].
    + rewrite (proj2 (Nat.eqb_neq i' i) Ei). cbn [Z.b2z]. rewrite !Z.add_0_r. exact Hi.
  - intros j'. assert (Hj := mv_inst _ _ _ H j'). unfold inst_ok, mi_count in *.
    rewrite get_new_inst. rewrite !count_cons in *. cbn [is_inst is_inst_last im_list im_states registered set_mlist set_insts set_states] in *.
    rewrite count_app, !count_cons, count_nil. fold j. change (has_inst j' (Some (new_irc name))) with false.
    rewrite (Nat.eqb_sym j' j). case_decide as Ej.
    + subst j'. rewrite Nat.eqb_refl. cbn [Z.b2z new_inst mi_refs mi_handle]. split_and!; [lia|cbn; lia|intros _; by left].
    + rewrite eqb_other by done. cbn [Z.b2z] in *. rewrite !Z.add_0_r, !Z.add_0_l.
      destruct (get_inst j' m); [|done]. destruct Hj as (B1 & B2 & B3). split_and!; [done..|]. intros Hx. right. by apply B3.
  - apply list.NoDup_cons. split; [done|apply H].
  - intros u [->|Hu]%elem_of_cons; [done|by eapply fact_register].
  - rewrite count_cons. apply H.
  - destruct (mv_tasks _ _ _ H). by split.
  - intros i'. assert (Hd := mv_dead _ _ _ H i'). unfold dead_ok in *. rewrite get_new_irc.
    rewrite !count_cons in *. cbn [is_kill Z.b2z im_insts registered set_mlist set_insts set_states] in *.
    rewrite count_app, count_cons, count_nil, handle_new. fold i. case_decide as Ei.
    + subst i'. rewrite Nat.eqb_refl. cbn [Z.b2z]. pose proof (count_range (is_kill i) U). pose proof (count_range (handle_is i) (im_insts m)). lia.
    + rewrite (proj2 (Nat.eqb_neq i' i) Ei). cbn [Z.b2z]. rewrite !Z.add_0_r, ?Z.add_0_l. exact Hd.
Qed.

Lemma own_registered name m : mem_own (registered name m) = mem_own m.
Proof. unfold mem_own. cbn [registered im_states set_mlist set_insts set_states]. rewrite flat_map_app. cbn. by rewrite app_nil_r. Qed.

Lemma register_ok t name l :
  WP (method_register name)
    (fun r t' => match r with
                 | Some j => exists i, t' = TUser (u_inst j) :: TUser (u_life ((j, i, false) :: l)) :: t
                 | None => t' = TUser (u_life l) :: t
                 end)
    (TUser (u_life l) :: t).
Proof.
  destruct name as [|c name]; [done|]. cbn [method_register]. set (n := c :: name). clearbody n.
  apply act_mem. intros a m hs U Hm Hh. cbn [users omap list_omap app] in Hm. fold (users t) in Hm.
  pose proof (find_inst_ok _ _ _ n (im_list m) Hm ltac:(intros j; apply mi_count_list)) as Hf.
  destruct (find_inst n m (im_list m)) as [[[j x]|]| |]; try done; [by eexists|]. cbn zeta.
  fold (new_inst (strlcpy METHOD_NAME_SZ n) (length (im_states m))) (new_irc (strlcpy METHOD_NAME_SZ n)).
  fold (registered (strlcpy METHOD_NAME_SZ n) m). set (j := length (im_insts m)). set (i := length (im_states m)).
  exists (TUser (u_inst j) :: TUser (u_life ((j, i, false) :: l)) :: t). split_and!; [by eexists| |by rewrite own_registered].
  cbn [users omap list_omap app]. fold (users t). eapply mem_inv_perm; [apply perm_swap|]. eapply mem_notes.
  - eapply mem_inv_perm; [apply perm_swap|]. by apply mem_register.
  - intros Hl. apply List.Forall_cons; [|done]. split; [|done]. exists (new_inst (strlcpy METHOD_NAME_SZ n) i).
    by rewrite get_new_inst, decide_True.
Qed.

(** ** Taking an instance out of the registry *)

Lemma mem_mlist hs m U j x :
  mem_inv hs m U -> j ∈ im_list m -> get_inst j m = Some x -> mi_handle x = None ->
  mem_inv hs (set_mlist (unlink j (im_list m)) m) (u_inst j :: U).
Proof.
  intros [H1 H2 H3 H4 H5 H6 H7] Hj E Hn. split; try done.
  - intros j'. specialize (H2 j'). unfold inst_ok, mi_count in *. rewrite (count_unlink _ _ _ Hj) in H2.
    change (get_inst j' (set_mlist _ m)) with (get_inst j' m). cbn [im_list im_states set_mlist].
    rewrite !count_cons. cbn [is_inst is_inst_last Z.b2z]. rewrite (Nat.eqb_sym j' j) in H2.
    destruct (get_inst j' m) as [y|] eqn:Ey; [|lia]. destruct H2 as (B1 & B2 & B3).
    split_and!; [lia|lia|]. intros Hy. apply unlink_in; [done|]. split; [by apply B3|]. intros ->. congruence.
  - by apply unlink_still_nodup.
  - intros u [->|Hu]%elem_of_cons; [done|by apply H4].
  - destruct H6. by split.
Qed.

Definition data_tok (h : option nat) : list uref := match h with Some i => [UData i; u_kill i] | None => [] end.

Lemma mem_unhandle hs m U j x :
  mem_inv hs m (u_life [] :: U) -> get_inst j m = Some x ->
  mem_inv hs (put_inst j (mk_minst (mi_name x) None METHOD_ENABLED (mi_refs x) []) m) (data_tok (mi_handle x) ++ u_life [] :: U).
Proof.
  intros H E. assert (Hj := mv_inst _ _ _ H j). unfold inst_ok in Hj. rewrite E in Hj.
  assert (Hc : forall f : uref -> bool, (forall i, f (UData i) = false) -> (forall i, f (u_kill i) = false) ->
    count f (data_tok (mi_handle x) ++ u_life [] :: U) = count f (u_life [] :: U)).
  { intros f Hf Hk. rewrite count_app. destruct (mi_handle x) as [i|]; cbn [data_tok]; rewrite ?count_cons, ?count_nil, ?Hf, ?Hk; done. }
  assert (Hh : forall i, Z.b2z (handle_is i (Some x)) = count (is_data i) (data_tok (mi_handle x)) /\
                Z.b2z (handle_is i (Some x)) = count (is_kill i) (data_tok (mi_handle x))).
  { intros i. cbn [handle_is]. destruct (mi_handle x) as [i'|]; cbn [data_tok]; rewrite ?count_cons, ?count_nil; cbn [is_data is_kill Z.b2z];
      [|by rewrite bool_decide_eq_false_2].
    destruct (Nat.eqb_spec i' i) as [->|Hne]; [by rewrite bool_decide_eq_true_2|by rewrite bool_decide_eq_false_2 by congruence]. }
  assert (H0 : forall i, handle_is i (Some (mk_minst (mi_name x) None METHOD_ENABLED (mi_refs x) [])) = false)
    by (intros i; by apply bool_decide_eq_false).
  eapply mem_put_inst; try done; cbn [mi_refs mi_handle].
  - intros j'. rewrite Hc by done. case_decide; lia.
  - intros j'. rewrite Hc by done. case_decide; [|done]. subst. apply Hj.
  - intros i. rewrite count_app, H0. destruct (Hh i) as [-> _]. cbn [Z.b2z]. lia.
  - intros i. by rewrite Hc.
  - by rewrite Hc.
  - intros i. rewrite count_app, H0. destruct (Hh i) as [_ ->]. cbn [Z.b2z]. lia.
  - intros u. rewrite elem_of_app, elem_of_cons. intros [Hu|[->|Hu]]; [|by apply List.Forall_nil|].
    + destruct (mi_handle x) as [i|]; [|by apply elem_of_nil in Hu]. apply elem_of_cons in Hu as [->|Hu]; [done|].
      by apply list_elem_of_singleton in Hu as ->.
    + assert (Hf : fact_ok m u) by (apply H; by right). pose proof (life_only _ _ _ _ _ H eq_refl Hu) as Hl.
      destruct u as [d|k z b|l]; [done| |done]. by destruct k as [|[|[|[|[|[|[|[|[|[|k]]]]]]]]]].
Qed.

Definition retired (t : list stok) (r : option (nat * option nat * bool)) : list stok :=
  match r with
  | Some (j, h, _) => map TUser (data_tok h) ++ TUser (u_inst j) :: TUser (u_life []) :: t
  | None => TUser (u_life []) :: t
  end.

Lemma users_datas h t : users (map TUser (data_tok h) ++ t) = data_tok h ++ users t.
Proof. by destruct h. Qed.

Lemma retire_ok t name l : WP (method_retire name) (fun r t' => t' = retired t r) (TUser (u_life l) :: t).
Proof.
  apply act_mem. intros a m hs U Hm Hh. cbn [users omap list_omap app] in Hm. fold (users t) in Hm.
  apply (mem_notes _ _ _ _ []) in Hm; [|intros _; constructor].
  pose proof (find_inst_ok _ _ _ name (im_list m) Hm ltac:(intros j; apply mi_count_list)) as Hf.
  destruct (find_inst name m (im_list m)) as [[[j x]|]| |]; try done; [|by eexists]. cbn zeta.
  destruct Hf as (Hj & E & _). eexists. split_and!; [done| |].
  - cbn [retired]. rewrite users_datas, <- app_assoc. cbn [users omap list_omap app]. fold (users t).
    pose proof (mem_unhandle _ _ _ _ _ Hm E) as H.
    pose proof (get_put_inst j m x (mk_minst (mi_name x) None METHOD_ENABLED (mi_refs x) []) j E) as G.
    rewrite decide_True in G by done. pose proof (mem_mlist _ _ _ _ _ H Hj G eq_refl) as H'.
    eapply mem_inv_perm; [|exact H']. apply Permutation_middle.
  - cbn [retired]. by destruct (mi_handle x).
Qed.

(** Whoever unregisters an instance forgets what was noted. *)
Lemma inst_unregister_ok t name reason l :
  WP (method_unregister name reason) (fun _ t' => exists l', t' = TUser (u_life l') :: t) (TUser (u_life l) :: t).
Proof.
  destruct name as [|c name]; [by eexists|]. cbn [method_unregister]. set (n := c :: name). clearbody n.
  eapply wp_seq; [apply retire_ok|]. intros [[[j h] up]|] t' ->; [|by eexists]. cbn [retired].
  eapply wp_seq with (Q' := fun _ t' => t' = TUser (u_inst j) :: TUser (u_life []) :: t).
  2: { intros _ t' ->. eapply wp_seq; [apply method_release_ok|]. intros _ t' ->. by eexists. }
  destruct h as [i|]; [|done]. cbn [data_tok map app].
  eapply wp_then; [apply keeps_when; apply disconnect_keeps; left; by left|]. intros _. apply destroy_irc_ok.
Qed.

(** ** Connecting a driver *)

(** The same instances with the same handles are noted. *)
Definition notes_le (l l' : list (nat * nat * bool)) : Prop :=
  forall j i f, (j, i, f) ∈ l -> exists f', (j, i, f') ∈ l'.

Lemma notes_le_refl l : notes_le l l.
Proof. intros j i f H. by exists f. Qed.

Lemma notes_le_trans l l' l'' : notes_le l l' -> notes_le l' l'' -> notes_le l l''.
Proof. intros H H' j i f Hn. destruct (H _ _ _ Hn) as [f' Hf]. by apply H' in Hf. Qed.

Lemma notes_le_cons n l : notes_le l (n :: l).
Proof. intros j i f H. exists f. by right. Qed.

Lemma live_noted t l j i f : (j, i, f) ∈ l -> live_irc (TUser (u_life l) :: t) i.
Proof. intros H. do 2 right. exists j, f, l. split; [by left|done]. Qed.

Lemma first_inst_ok t l j i f : (j, i, f) ∈ l ->
  WP (ird i r_inst)
    (fun o t' => exists l', t' = TUser (u_life l') :: t /\ notes_le l l' /\ (o = None -> (j, i, true) ∈ l'))
    (TUser (u_life l) :: t).
Proof.
  intros Hn. apply on_irc_mem; [by eapply live_noted|]. intros m hs U r Hm E Hr. cbn [fst snd].
  cbn [users omap list_omap app] in Hm. fold (users t) in Hm.
  assert (Hw : forall l', mem_inv hs m (u_life l' :: users t ++ U) -> mem_inv hs (put_irc i r m) (u_life l' :: users t ++ U)).
  { intros l' H. assert (Hi := mv_irc _ _ _ H i). unfold irc_ok in Hi. rewrite E in Hi. eapply mem_write; try done; apply Hi. }
  destruct (r_inst r) as [j'|] eqn:Ei.
  - exists (TUser (u_life l) :: t). split_and!; [exists l; split_and!; [done|apply notes_le_refl|done]| |done|done]. by apply Hw.
  - exists (TUser (u_life ((j, i, true) :: l)) :: t).
    split_and!; [exists ((j, i, true) :: l); split_and!; [done|apply notes_le_cons|by left]| |done|done].
    cbn [users omap list_omap app]. fold (users t). apply Hw. eapply mem_notes; [exact Hm|]. intros Hl.
    apply List.Forall_cons; [|done]. split; [by apply (notes_of _ _ _ _ _ Hm Hn)|]. cbn [fst snd]. intros _ x. congruence.
Qed.

Definition looked_up (i : nat) (n : nat * nat * bool) : nat * nat * bool :=
  (n.1, if (n.1.2 =? i)%nat then false else n.2).

Lemma looked_up_le i l : notes_le l (map (looked_up i) l).
Proof.
  intros j i' f H. exists (if (i' =? i)%nat then false else f). apply list_elem_of_fmap. by exists (j, i', f).
Qed.

Lemma facts_set_inst hs m X U i r l o :
  mem_inv hs m (u_life l :: X ++ U) -> get_irc i m = Some r -> r_refs r <> 0 -> r_inst r = None -> count (is_last i) U = 0 ->
  forall u, u ∈ u_life (map (looked_up i) l) :: U -> fact_ok (put_irc i (with_inst o r) m) u.
Proof.
  intros H E Hr Hn I2. assert (G := fun i' => get_put_irc i m r (with_inst o r) i' E).
  intros u [->|Hu]%elem_of_cons.
  - cbn [fact_ok]. apply List.Forall_forall. intros n Hin%list_elem_of_In.
    apply list_elem_of_fmap in Hin as (n' & -> & Hin). destruct (notes_of _ _ _ _ _ H Hin) as [Hl Hb].
    split; [exact Hl|]. unfold looked_up. cbn [fst snd]. destruct (Nat.eqb_spec n'.1.2 i) as [->|Hne]; [done|].
    intros Ht x. rewrite G, decide_False by done. by apply Hb.
  - assert (Hu' : u ∈ X ++ U) by (apply elem_of_app; by right).
    assert (Hf : fact_ok m u) by (apply H; by right). pose proof (life_only _ _ _ _ _ H eq_refl Hu') as Hll.
    destruct u as [d|k z b|l']; [done|destruct k as [|[|[|[|[|[|[|[|[|[|k]]]]]]]]]]|done]; cbn [fact_ok] in *; try done.
    + intros x. rewrite G. case_decide; [|apply Hf]. subst b. exfalso.
      assert (1 <= count (is_last i) U) by (eapply count_member; [exact Hu|apply Nat.eqb_refl]). lia.
    + destruct Hf as [Hb Hf]. split; [by rewrite states_length|]. intros x. rewrite G. case_decide; [|apply Hf].
      subst b. specialize (Hf _ E Hr). congruence.
    + destruct Hf as [Hb Hf]. split; [by rewrite states_length|]. intros x. rewrite G. case_decide; [|apply Hf].
      intros [= <-]. subst b. exact (Hf r E).
Qed.

Lemma mem_set_inst hs m U i r l j o :
  mem_inv hs m (users (found_tok [] o) ++ u_life l :: U) -> (j, i, true) ∈ l ->
  get_irc i m = Some r -> r_refs r <> 0 ->
  mem_inv hs (put_irc i (with_inst o r) m) (u_life (map (looked_up i) l) :: U).
Proof.
  intros H Hj E Hr.
  assert (Hp : mem_inv hs m (u_life l :: users (found_tok [] o) ++ U)).
  { eapply mem_inv_perm; [|exact H]. symmetry. apply Permutation_middle. }
  assert (Hn' : r_inst r = None) by (apply (notes_of _ _ _ _ _ Hp Hj); done).
  assert (Hi := mv_irc _ _ _ H i). unfold irc_ok in Hi. rewrite E in Hi. destruct Hi as (_ & I2 & I3 & I4).
  assert (Hc : forall f : uref -> bool, (forall j, f (u_inst j) = false) -> count f (users (found_tok [] o) ++ u_life l :: U) = count f (u_life l :: U)).
  { intros f Hx. rewrite count_app. destruct o; cbn [found_tok users omap list_omap]; rewrite ?count_cons, ?count_nil, ?Hx; done. }
  eapply (mem_put _ _ _ _ _ _ _ H); try done; cbn [with_inst r_refs].
  - intros i'. rewrite Hc by done. cnt. case_decide; lia.
  - intros i'. rewrite Hc by done. cnt. case_decide; [subst|done]. rewrite <- I2, Hc by done. cnt. done.
  - intros j'. rewrite count_app. cnt. unfold has_inst. cbn [with_inst r_inst r_refs]. rewrite Hn', (proj2 (Z.eqb_neq _ _) Hr).
    rewrite (bool_decide_eq_false_2 (None = Some j')) by done. cbn [negb andb Z.b2z]. rewrite andb_true_r.
    destruct o as [o|]; cbn [found_tok users omap list_omap]; cnt; rewrite ?count_nil; [|rewrite bool_decide_eq_false_2 by done; cbn [Z.b2z]; lia].
    destruct (Nat.eqb_spec o j') as [->|]; [rewrite bool_decide_eq_true_2 by done|rewrite bool_decide_eq_false_2 by congruence]; cbn [Z.b2z]; lia.
  - intros j'. rewrite Hc by done. cnt. done.
  - rewrite Hc by done. cnt. done.
  - intros i' _. rewrite Hc by done. cnt. done.
  - eapply dead_same; [exact H|done| |done|done]. rewrite Hc by done. cnt. done.
  - rewrite Hc in I2 by done. rewrite (proj2 (Z.eqb_neq _ _) Hr), count_cons in I2. cbn [is_last Z.b2z] in I2.
    eapply facts_set_inst; [exact Hp|done..|lia].
Qed.

Lemma set_inst_ok t l j i o : (j, i, true) ∈ l ->
  WP (iwr i (with_inst o)) (fun _ t' => t' = TUser (u_life (map (looked_up i) l)) :: t)
    (found_tok (TUser (u_life l) :: t) o).
Proof.
  intros Hn. apply on_irc_mem.
  { pose proof (live_noted t _ _ _ _ Hn) as Hl. destruct o; [by apply live_irc_cons|done]. }
  intros m hs U r Hm E Hr. cbn [fst snd]. exists (TUser (u_life (map (looked_up i) l)) :: t).
  split_and!; [done| |by destruct o|done]. cbn [users omap list_omap app]. fold (users t).
  eapply mem_set_inst; [|done..]. by destruct o.
Qed.

(** A thread that keeps [t] and what it has noted. *)
Definition noting (t : list stok) (l : list (nat * nat * bool)) (t' : list stok) : Prop :=
  exists l', t' = TUser (u_life l') :: t /\ notes_le l l'.

Lemma irc_connect_ok t l j i f : (j, i, f) ∈ l ->
  WP (irc_connect i) (fun _ t' => noting t l t') (TUser (u_life l) :: t).
Proof.
  intros Hn. eapply wp_seq; [by eapply first_inst_ok|]. intros o t' (l1 & -> & Hle & Ho).
  destruct (Hle _ _ _ Hn) as [f1 Hn1].
  eapply wp_seq with (Q' := fun _ t' => noting t l t').
  - destruct o as [j'|]; [by exists l1|]. specialize (Ho eq_refl).
    eapply wp_then; [by apply ird_keeps, (live_noted _ _ _ _ _ Hn1)|]. intros name. eapply wp_seq; [apply find_ok|]. intros o t' ->.
    eapply wp_mono; [|by eapply set_inst_ok]. intros _ t' ->. exists (map (looked_up i) l1). split; [done|].
    eapply notes_le_trans; [exact Hle|apply looked_up_le].
  - intros _ t' (l2 & -> & Hle2). destruct (Hle2 _ _ _ Hn) as [f2 Hn2].
    assert (Hl : live_irc (TUser (u_life l2) :: t) i) by (by eapply live_noted).
    eapply wp_then; [by apply ird_keeps|]. intros [j'|]; [|by exists l2].
    eapply wp_then; [by apply attempt_connect_keeps|]. intros _. by exists l2.
Qed.

Lemma noted_handle_ok t l j i f : (j, i, f) ∈ l ->
  WP (on_inst j (fun x => (x, mi_handle x))) (fun h t' => h = Some i /\ t' = TUser (u_life l) :: t)
    (TUser (u_life l) :: t).
Proof.
  intros Hn. apply act_mem. intros a m hs U Hm Hh. cbn [users omap list_omap app] in Hm. fold (users t) in Hm.
  destruct (notes_of _ _ _ _ _ Hm Hn) as [(x & E & Ex) _]. cbn [fst snd] in E. rewrite E. cbn [fst snd].
  exists (TUser (u_life l) :: t). split_and!; [done|done| |done].
  assert (Ep : put_inst j x m = m); [|by rewrite Ep].
  unfold put_inst. apply get_inst_in in E. rewrite list_insert_id by done. by destruct m.
Qed.

Lemma method_connect_ok t l j i f : (j, i, f) ∈ l ->
  WP (method_connect j) (fun _ t' => noting t l t') (TUser (u_life l) :: t).
Proof.
  intros Hn. eapply wp_seq; [by eapply noted_handle_ok|]. intros h t' [-> ->]. by eapply irc_connect_ok.
Qed.

(** Everything but a reply through an instance that somebody may be stopping. *)
Definition no_reply (r : root) : Prop := match r with R_reply _ _ => False | _ => True end.

Lemma code_keeps r : no_reply r -> keeps [] (code r).
Proof.
  destruct r as [r|type bg|name line]; intros Hr; cbn [code]; [| |done].
  - apply (sock_code_ok _ irc_done_ok _ irc_cb_ok).
  - apply run_task_keeps.
Qed.
