(* ===== verification/Bot.v ===== *)
(** * Bots: core/bot.c

    A bot has a driver (a vtable in a plugin's mapping, and the state the driver made for
    it) and bindings to method instances. Lifecycle operations run one at a time under
    bot_life_mutex; messages are delivered beside them, and what a delivery uses is counted.
    Here are the operations and the delivery, as programs of [Conc] over the method
    instances of [IrcLife], and what a plugin reload does to bots. A pointer to a bot is its
    index in [bo_insts], to a vtable or a driver's state its index in [bo_vtables] or
    [bo_handles]; to go through one that is freed, destroyed or unmapped is a [Fault]. *)

From S2P Require Import Prelude Task Conc Sock IrcLife.

(** ** Data: bot.h *)

Inductive bot_state_t := BOT_CREATED | BOT_RUNNING | BOT_STOPPING.

#[export] Instance bot_state_eq_dec : EqDecision bot_state_t.
Proof. solve_decision. Defined.

(** A vtable: its name, and which functions it has. *)
Record bot_driver_t := mk_driver {
  dv_name : cstr;
  dv_create : bool; dv_destroy : bool; dv_start : bool; dv_stop : bool; dv_on_message : bool
}.

Record bot_method_t := mk_bm {
  bm_name : cstr; bm_kind : cstr;
  bm_inst : option nat; bm_subscribed : bool; bm_created : bool
}.

Record bot_suspend_t := mk_susp {
  su_driver : bool; su_method : bool; su_was_running : bool;
  su_driver_name : cstr; su_method_kind : cstr
}.

Definition susp_none : bot_suspend_t := mk_susp false false false [] [].

(** What only lifecycle operations write, and what deliveries write too. *)
Record bot_part := mk_part {
  p_name : cstr; p_id : Z;
  p_driver : option nat; p_handle : option nat;
  p_state : bot_state_t;
  p_methods : list bot_method_t;
  p_susp : bot_suspend_t;
  p_doomed : bool
}.

Record bot_inst_t := mk_bot {
  b_part : bot_part;
  b_refs : Z;
  b_dying : option (nat * option nat * bool)
}.

Definition with_attached (d h : option nat) (p : bot_part) : bot_part :=
  mk_part (p_name p) (p_id p) d h (p_state p) (p_methods p) (p_susp p) (p_doomed p).
Definition with_pstate (st : bot_state_t) (p : bot_part) : bot_part :=
  mk_part (p_name p) (p_id p) (p_driver p) (p_handle p) st (p_methods p) (p_susp p) (p_doomed p).
Definition with_methods (ms : list bot_method_t) (p : bot_part) : bot_part :=
  mk_part (p_name p) (p_id p) (p_driver p) (p_handle p) (p_state p) ms (p_susp p) (p_doomed p).
Definition with_susp (s : bot_suspend_t) (p : bot_part) : bot_part :=
  mk_part (p_name p) (p_id p) (p_driver p) (p_handle p) (p_state p) (p_methods p) s (p_doomed p).
Definition with_doomed (p : bot_part) : bot_part :=
  mk_part (p_name p) (p_id p) (p_driver p) (p_handle p) (p_state p) [] (p_susp p) true.

Definition with_bm_inst (x : option nat) (m : bot_method_t) : bot_method_t :=
  mk_bm (bm_name m) (bm_kind m) x (bm_subscribed m) (bm_created m).
Definition with_subscribed (x : bool) (m : bot_method_t) : bot_method_t :=
  mk_bm (bm_name m) (bm_kind m) (bm_inst m) x (bm_created m).
Definition with_created (x : bool) (m : bot_method_t) : bot_method_t :=
  mk_bm (bm_name m) (bm_kind m) (bm_inst m) (bm_subscribed m) x.

(** The statics of bot.c, the vtables of the loaded plugins, and the drivers' states with
    the bot each was made for. *)
Record bots := mk_bots {
  bo_insts : list (option bot_inst_t);
  bo_list : list nat;
  bo_count : Z;
  bo_next_id : Z;
  bo_deferred : Z;
  bo_max_methods : Z;
  bo_life : bool;
  bo_vtables : list (option bot_driver_t);
  bo_handles : list (option nat)
}.

Definition set_bots x k := mk_bots x (bo_list k) (bo_count k) (bo_next_id k) (bo_deferred k) (bo_max_methods k) (bo_life k) (bo_vtables k) (bo_handles k).
Definition set_blist x n k := mk_bots (bo_insts k) x n (bo_next_id k) (bo_deferred k) (bo_max_methods k) (bo_life k) (bo_vtables k) (bo_handles k).
Definition set_next_id x k := mk_bots (bo_insts k) (bo_list k) (bo_count k) x (bo_deferred k) (bo_max_methods k) (bo_life k) (bo_vtables k) (bo_handles k).
Definition set_deferred x k := mk_bots (bo_insts k) (bo_list k) (bo_count k) (bo_next_id k) x (bo_max_methods k) (bo_life k) (bo_vtables k) (bo_handles k).
Definition set_life x k := mk_bots (bo_insts k) (bo_list k) (bo_count k) (bo_next_id k) (bo_deferred k) (bo_max_methods k) x (bo_vtables k) (bo_handles k).
Definition set_vtables x k := mk_bots (bo_insts k) (bo_list k) (bo_count k) (bo_next_id k) (bo_deferred k) (bo_max_methods k) (bo_life k) x (bo_handles k).
Definition set_handles x k := mk_bots (bo_insts k) (bo_list k) (bo_count k) (bo_next_id k) (bo_deferred k) (bo_max_methods k) (bo_life k) (bo_vtables k) x.

Definition BOT_NAME_SZ : nat := 64.
Definition PLUGIN_NAME_SZ : nat := 64.
Definition BOT_SUSPEND_MAX : nat := 64.
Definition BOT_EXIT_DRAIN_MS : nat := 500.
Definition BOT_EXIT_DRAIN_STEP : nat := 10.

(** The memory of the program: bots above sockets and methods. *)
Record bot_world := mk_bw { bw_low : world irc_mem; bw_bots : bots }.

Notation P := (prog bot_world answer).

Definition low {R} (p : prog (world irc_mem) answer R) : P R :=
  lift bw_low (fun x w => mk_bw x (bw_bots w)) p.

Definition on_bots {B} (f : answer -> bots -> outcome (bots * B)) : answer -> bot_world -> outcome (bot_world * B) :=
  fun a w => match f a (bw_bots w) with
             | Ok (k, b) => Ok (mk_bw (bw_low w) k, b)
             | Blocked => Blocked
             | Fault => Fault
             end.

Definition get_bot (b : nat) (k : bots) : option bot_inst_t := mjoin (bo_insts k !! b).
Definition put_bot (b : nat) (x : bot_inst_t) (k : bots) : bots := set_bots (<[b := Some x]> (bo_insts k)) k.

Definition on_bot {B} (b : nat) (f : bot_inst_t -> bot_inst_t * B) : P B :=
  act (on_bots (fun _ k => match get_bot b k with
                           | Some x => Ok (put_bot b (f x).1 k, (f x).2)
                           | None => Fault
                           end)).

(** Reading and writing what a lifecycle operation owns. *)
Definition rdb {B} (b : nat) (f : bot_part -> B) : P B := on_bot b (fun x => (x, f (b_part x))).
Definition wrb (b : nat) (f : bot_part -> bot_part) : P unit :=
  on_bot b (fun x => (mk_bot (f (b_part x)) (b_refs x) (b_dying x), tt)).

(** What the environment says. *)
Definition says_so : P bool := act (fun a w => Ok (w, a_err a =? 0)).
Definition a_number : P nat := act (fun a w => Ok (w, Z.to_nat (a_n a))).

(** ** Calls into a driver *)

Definition vtable (d : nat) (k : bots) : option bot_driver_t := mjoin (bo_vtables k !! d).

(** Whether the driver has a function. *)
Definition hook (d : nat) (f : bot_driver_t -> bool) : P bool :=
  act (on_bots (fun _ k => match vtable d k with Some v => Ok (k, f v) | None => Fault end)).

(** A call, if there is such a function: it uses the driver's state, if there is one. *)
Definition call (d : nat) (f : bot_driver_t -> bool) (h : option nat) : P bool :=
  act (on_bots (fun a k =>
    match vtable d k with
    | None => Fault
    | Some v =>
        if negb (f v) then Ok (k, true)
        else match h with
             | None => Ok (k, a_err a =? 0)
             | Some h => match mjoin (bo_handles k !! h) with Some _ => Ok (k, a_err a =? 0) | None => Fault end
             end
    end)).

(** create(): None when it failed, otherwise the new state, if the driver makes one. *)
Definition call_create (d b : nat) : P (option (option nat)) :=
  act (on_bots (fun a k =>
    match vtable d k with
    | None => Fault
    | Some v =>
        if negb (dv_create v) then Ok (k, Some None)
        else if a_err a =? 0 then Ok (set_handles (bo_handles k ++ [Some b]) k, Some (Some (length (bo_handles k))))
        else Ok (k, None)
    end)).

Definition call_destroy (d : nat) (h : option nat) : P unit :=
  act (on_bots (fun _ k =>
    match vtable d k with
    | None => Fault
    | Some v =>
        match h with
        | Some h =>
            if negb (dv_destroy v) then Ok (k, tt)
            else match mjoin (bo_handles k !! h) with
                 | Some _ => Ok (set_handles (<[h := None]> (bo_handles k)) k, tt)
                 | None => Fault
                 end
        | None => Ok (k, tt)
        end
    end)).

Definition bot_driver_teardown (d : nat) (h : option nat) (stop : bool) : P unit :=
  _ ← when stop (_ ← call d dv_stop h; skip);
  call_destroy d h.

(** ** The driver reference *)

(** The walk of bot_list for a bot with that id and a driver. *)
Fixpoint find_id (id : Z) (k : bots) (l : list nat) : outcome (option (nat * bot_inst_t * nat)) :=
  match l with
  | [] => Ok None
  | b :: l' =>
      match get_bot b k with
      | None => Fault
      | Some x =>
          match p_driver (b_part x) with
          | Some d => if p_id (b_part x) =? id then Ok (Some (b, x, d)) else find_id id k l'
          | None => find_id id k l'
          end
      end
  end.

Definition bot_driver_acquire (id : Z) : P (option (nat * nat * option nat)) :=
  act (on_bots (fun _ k =>
    match find_id id k (bo_list k) with
    | Ok (Some (b, x, d)) =>
        Ok (put_bot b (mk_bot (b_part x) (b_refs x + 1) (b_dying x)) k, Some (b, d, p_handle (b_part x)))
    | Ok None => Ok (k, None)
    | Blocked => Blocked
    | Fault => Fault
    end)).

Definition free_bot (b : nat) : P unit :=
  act (on_bots (fun _ k => match get_bot b k with
                           | Some _ => Ok (set_bots (<[b := None]> (bo_insts k)) k, tt)
                           | None => Fault
                           end)).

Definition bot_release (b : nat) : P unit :=
  owed ← on_bot b (fun x =>
    if b_refs x =? 1 then (mk_bot (b_part x) (b_refs x) None, b_dying x) else (x, None));
  _ ← match owed with Some (d, h, stop) => bot_driver_teardown d h stop | None => skip end;
  doomed ← act (on_bots (fun _ k =>
    match get_bot b k with
    | None => Fault
    | Some x =>
        let doomed := (b_refs x - 1 =? 0) && p_doomed (b_part x) in
        let k := put_bot b (mk_bot (b_part x) (b_refs x - 1) (b_dying x)) k in
        Ok (if doomed then set_deferred (wrap 32 (bo_deferred k - 1)) k else k, doomed)
    end));
  when doomed (free_bot b).

Definition bot_driver_detach (b : nat) (stop : bool) : P unit :=
  now ← on_bot b (fun x =>
    let p := b_part x in
    let p' := with_attached None None p in
    match p_driver p with
    | None => (mk_bot p' (b_refs x) (b_dying x), None)
    | Some d =>
        if b_refs x =? 0 then (mk_bot p' (b_refs x) (b_dying x), Some (d, p_handle p))
        else (mk_bot p' (b_refs x) (Some (d, p_handle p, stop)), None)
    end);
  match now with Some (d, h) => bot_driver_teardown d h stop | None => skip end.

(** bot_driver_inflight_owned(), for the mapping of one vtable. *)
Fixpoint bot_driver_inflight (d : nat) (k : bots) (l : list nat) : outcome nat :=
  match l with
  | [] => Ok 0%nat
  | b :: l' =>
      match get_bot b k, bot_driver_inflight d k l' with
      | Some x, Ok n =>
          let named := match p_driver (b_part x) with Some d' => Some d' | None => (fun y => y.1.1) <$> b_dying x end in
          Ok (if negb (b_refs x =? 0) && bool_decide (named = Some d) then S n else n)
      | _, _ => Fault
      end
  end.

Definition bot_driver_inflight_owned (d : nat) : P nat :=
  act (on_bots (fun _ k => match bot_driver_inflight d k (bo_list k) with
                           | Ok n => Ok (k, n)
                           | Blocked => Blocked
                           | Fault => Fault
                           end)).

(** ** A message *)

(** on_message() runs for a while: each action uses the driver's code and its state. *)
Fixpoint on_message (n d : nat) (h : option nat) : P unit :=
  match n with
  | O => skip
  | S n' => _ ← call d dv_on_message h; on_message n' d h
  end.

(** Whether a filter drops the message is the environment's to say. *)
Definition bot_msg_handler (id : Z) : P unit :=
  r ← bot_driver_acquire id;
  match r with
  | None => skip
  | Some (b, d, h) =>
      on ← hook d dv_on_message;
      if negb on then bot_release b
      else
        _ ← rdb b p_name;
        pass ← says_so;
        _ ← when pass (n ← a_number; on_message n d h);
        bot_release b
  end.

Fixpoint deliver_all (ids : list Z) : P unit :=
  match ids with
  | [] => skip
  | id :: ids' => _ ← bot_msg_handler id; deliver_all ids'
  end.

Definition method_deliver (j : nat) : P unit :=
  ids ← low (deliver_snapshot j);
  _ ← deliver_all ids;
  low (method_release j).

(** ** Bindings *)

Definition life_lock : P unit :=
  act (on_bots (fun _ k => if bo_life k then Blocked else Ok (set_life true k, tt))).
Definition life_unlock : P unit := act (on_bots (fun _ k => Ok (set_life false k, tt))).

Definition rd_bm {B} (b i : nat) (f : bot_method_t -> B) : P B :=
  act (on_bots (fun _ k => match get_bot b k with
                           | Some x => match p_methods (b_part x) !! i with Some m => Ok (k, f m) | None => Fault end
                           | None => Fault
                           end)).

Definition wr_bm (b i : nat) (f : bot_method_t -> bot_method_t) : P unit :=
  wrb b (fun p => with_methods (alter f i (p_methods p)) p).

(** [old = m->inst; m->inst = NULL] *)
Definition take_bm_inst (b i : nat) : P (option nat) :=
  on_bot b (fun x =>
    (mk_bot (with_methods (alter (with_bm_inst None) i (p_methods (b_part x))) (b_part x)) (b_refs x) (b_dying x),
     match p_methods (b_part x) !! i with Some m => bm_inst m | None => None end)).

(** What sig_shutdown_reason() says. *)
Definition shutdown_reason : P (list ascii) := act (fun a w => Ok (w, a_bytes a)).

(** The [n] bindings from the [i]-th on. *)
Fixpoint bot_methods_down (b i n : nat) : P unit :=
  match n with
  | O => skip
  | S n' =>
      m ← rd_bm b i id;
      _ ← match bm_inst m with
          | Some j =>
              when (bm_subscribed m) (
                name ← rdb b p_name;
                _ ← low (method_unsubscribe j name);
                wr_bm b i (with_subscribed false))
          | None => skip
          end;
      created ← rd_bm b i bm_created;
      _ ← when created (
            reason ← shutdown_reason;
            _ ← low (method_unregister (bm_name m) reason);
            wr_bm b i (with_created false));
      old ← take_bm_inst b i;
      _ ← match old with Some j => low (method_release j) | None => skip end;
      bot_methods_down b (S i) n'
  end.

Definition bot_methods_down_all (b : nat) : P unit :=
  n ← rdb b (fun p => length (p_methods p));
  bot_methods_down b 0 n.

(** The instance of a binding: one that is there, or a new one if its plugin is loaded. *)
Definition bot_resolve (b i : nat) : P (option nat) :=
  m ← rd_bm b i id;
  mi ← low (method_find (bm_name m));
  match mi, bm_kind m with
  | None, _ :: _ =>
      pd ← says_so;
      if pd : bool then
        mi ← low (method_register (bm_name m));
        match mi with
        | Some j => _ ← wr_bm b i (with_created true); Ret (Some j)
        | None => Ret None
        end
      else Ret None
  | _, _ => Ret mi
  end.

(** Resolve and subscribe to the bindings; the first failure takes down what is up. *)
Fixpoint bot_methods_up (b i n : nat) : P bool :=
  match n with
  | O => Ret true
  | S n' =>
      mi ← bot_resolve b i;
      _ ← wr_bm b i (with_bm_inst mi);
      match mi with
      | None => _ ← bot_methods_down b 0 (S i); Ret false
      | Some j =>
          who ← rdb b (fun p => (p_name p, p_id p));
          ok ← low (method_subscribe j who.1 who.2);
          if negb ok then _ ← bot_methods_down b 0 (S i); Ret false
          else _ ← wr_bm b i (with_subscribed true); bot_methods_up b (S i) n'
      end
  end.

Fixpoint bot_connect_created (b i n : nat) : P unit :=
  match n with
  | O => skip
  | S n' =>
      m ← rd_bm b i id;
      _ ← when (bm_created m) match bm_inst m with
          | Some j => _ ← low (method_connect j); skip
          | None => skip
          end;
      bot_connect_created b (S i) n'
  end.

(** ** The lifecycle *)

(** bot_life_mutex is recursive: these run with it held. *)
Definition bot_start_held (b : nat) : P bool :=
  st ← rdb b p_state;
  if negb (bool_decide (st = BOT_CREATED)) then Ret false
  else
    at_ ← rdb b (fun p => (p_driver p, p_handle p));
    match at_.1 with
    | None => Ret false
    | Some d =>
        n ← rdb b (fun p => length (p_methods p));
        up ← bot_methods_up b 0 n;
        if negb up then Ret false
        else
          ok ← call d dv_start at_.2;
          if negb ok then _ ← bot_methods_down_all b; Ret false
          else
            _ ← wrb b (with_pstate BOT_RUNNING);
            _ ← bot_connect_created b 0 n;
            Ret true
    end.

(** What the log says after the unlock has the bot's name. *)
Definition log_name (b : nat) : P unit := _ ← rdb b p_name; skip.

Definition bot_start (b : nat) : P bool :=
  _ ← life_lock;
  rc ← bot_start_held b;
  _ ← life_unlock;
  _ ← log_name b;
  Ret rc.

(** The driver's stop(), then the bindings; NULL while a reload holds the driver. *)
Definition bot_take_down (b : nat) : P unit :=
  _ ← wrb b (with_pstate BOT_STOPPING);
  at_ ← rdb b (fun p => (p_driver p, p_handle p));
  _ ← match at_.1 with Some d => _ ← call d dv_stop at_.2; skip | None => skip end;
  _ ← bot_methods_down_all b;
  wrb b (with_pstate BOT_CREATED).

Definition bot_stop_held (b : nat) : P bool :=
  st ← rdb b p_state;
  if negb (bool_decide (st = BOT_RUNNING)) then Ret false
  else _ ← bot_take_down b; Ret true.

Definition bot_stop (b : nat) : P bool :=
  _ ← life_lock;
  rc ← bot_stop_held b;
  _ ← life_unlock;
  _ ← log_name b;
  Ret rc.

(** The walk of bot_list for a name. *)
Fixpoint find_name (name : cstr) (k : bots) (l : list nat) : outcome (option nat) :=
  match l with
  | [] => Ok None
  | b :: l' =>
      match get_bot b k with
      | None => Fault
      | Some x => if strncaseeq BOT_NAME_SZ (p_name (b_part x)) name then Ok (Some b) else find_name name k l'
      end
  end.

Definition bot_find (name : cstr) : P (option nat) :=
  match name with
  | [] => Ret None
  | _ => act (on_bots (fun _ k => match find_name name k (bo_list k) with
                                  | Ok r => Ok (k, r)
                                  | Blocked => Blocked
                                  | Fault => Fault
                                  end))
  end.

Definition new_bot (d : nat) (name : cstr) (id : Z) : bot_inst_t :=
  mk_bot (mk_part (strlcpy BOT_NAME_SZ name) id (Some d) None BOT_CREATED [] susp_none false) 0 None.

(** The instance is not on the list while create() runs. *)
Definition bot_create (d : nat) (name : cstr) : P (option nat) :=
  match name with
  | [] => Ret None
  | _ =>
      _ ← life_lock;
      dup ← bot_find name;
      match dup with
      | Some _ => _ ← life_unlock; Ret None
      | None =>
          b ← act (on_bots (fun _ k =>
                let id := wrap 64 (bo_next_id k + 1) in
                Ok (set_next_id id (set_bots (bo_insts k ++ [Some (new_bot d name id)]) k), length (bo_insts k))));
          h ← call_create d b;
          match h with
          | None => _ ← life_unlock; _ ← free_bot b; Ret None
          | Some h =>
              _ ← wrb b (with_attached (Some d) h);
              _ ← act (on_bots (fun _ k => Ok (set_blist (b :: bo_list k) (wrap 32 (bo_count k + 1)) k, tt)));
              _ ← life_unlock;
              Ret (Some b)
          end
      end
  end.

(** The bindings go, the bot leaves the list, and whoever has the last reference frees. *)
Definition bot_doom (b : nat) : P bool :=
  act (on_bots (fun _ k =>
    match get_bot b k with
    | None => Fault
    | Some x =>
        let k := put_bot b (mk_bot (with_doomed (b_part x)) (b_refs x) (b_dying x)) k in
        let k := if bool_decide (b ∈ bo_list k) then set_blist (unlink b (bo_list k)) (wrap 32 (bo_count k - 1)) k else k in
        let free_now := b_refs x =? 0 in
        Ok (if free_now then k else set_deferred (wrap 32 (bo_deferred k + 1)) k, free_now)
    end)).

Definition bot_destroy (name : cstr) : P bool :=
  match name with
  | [] => Ret false
  | _ =>
      _ ← life_lock;
      found ← bot_find name;
      match found with
      | None => _ ← life_unlock; Ret false
      | Some b =>
          st ← rdb b p_state;
          _ ← when (bool_decide (st = BOT_RUNNING)) (bot_take_down b);
          _ ← bot_driver_detach b false;
          free_now ← bot_doom b;
          _ ← life_unlock;
          _ ← when free_now (free_bot b);
          Ret true
      end
  end.

Definition bm_is (name : cstr) (m : bot_method_t) : bool := strncaseeq METHOD_NAME_SZ (bm_name m) name.

(** [kind] is NULL or a string. *)
Definition bot_bind_method (b : nat) (name : cstr) (kind : option cstr) : P bool :=
  match name with
  | [] => Ret false
  | _ =>
      _ ← life_lock;
      ok ← act (on_bots (fun _ k =>
            match get_bot b k with
            | None => Fault
            | Some x =>
                let p := b_part x in
                if negb (bool_decide (p_state p = BOT_CREATED)) || (bo_max_methods k <=? Z.of_nat (length (p_methods p)))
                   || existsb (bm_is name) (p_methods p)
                then Ok (k, false)
                else
                  let m := mk_bm (strlcpy METHOD_NAME_SZ name)
                             match kind with Some s => strlcpy PLUGIN_NAME_SZ s | None => [] end None false false in
                  Ok (put_bot b (mk_bot (with_methods (m :: p_methods p) p) (b_refs x) (b_dying x)) k, true)
            end));
      _ ← life_unlock;
      _ ← log_name b;
      Ret ok
  end.

(** Without the first binding of that name. *)
Fixpoint drop_bm (name : cstr) (l : list bot_method_t) : list bot_method_t :=
  match l with
  | [] => []
  | m :: l' => if bm_is name m then l' else m :: drop_bm name l'
  end.

Definition bot_unbind_method (b : nat) (name : cstr) : P bool :=
  match name with
  | [] => Ret false
  | _ =>
      _ ← life_lock;
      ok ← on_bot b (fun x =>
            let p := b_part x in
            if negb (bool_decide (p_state p = BOT_CREATED)) then (x, false)
            else (mk_bot (with_methods (drop_bm name (p_methods p)) p) (b_refs x) (b_dying x),
                  existsb (bm_is name) (p_methods p)));
      _ ← life_unlock;
      _ ← log_name b;
      Ret ok
  end.

(** ** A plugin reload *)

Definition susp_driver (name : cstr) (p : bot_part) : bot_part :=
  with_susp (mk_susp true false (bool_decide (p_state p = BOT_RUNNING)) (take (BOT_NAME_SZ - 1) name) []) p.

Definition susp_method (kind : cstr) (p : bot_part) : bot_part :=
  with_susp (mk_susp false true (bool_decide (p_state p = BOT_RUNNING)) [] (take (PLUGIN_NAME_SZ - 1) kind)) p.

Definition put_part (b : nat) (x : bot_inst_t) (p : bot_part) (k : bots) : bots :=
  put_bot b (mk_bot p (b_refs x) (b_dying x)) k.

(** The walk of bot_suspend_driver(): [n] more bots fit the arrays. Bots whose driver has
    that name are marked, and returned with whether they ran. *)
Fixpoint mark_driver (name : cstr) (n : nat) (l : list nat) (k : bots) : outcome (bots * list (nat * bool)) :=
  match n, l with
  | O, _ | _, [] => Ok (k, [])
  | S n', b :: l' =>
      match get_bot b k with
      | None => Fault
      | Some x =>
          let p := b_part x in
          match p_driver p with
          | None => mark_driver name n l' k
          | Some d =>
              match vtable d k with
              | None => Fault
              | Some v =>
                  if seqb (dv_name v) name then
                    match mark_driver name n' l' (put_part b x (susp_driver name p) k) with
                    | Ok (k', r) => Ok (k', (b, bool_decide (p_state p = BOT_RUNNING)) :: r)
                    | Blocked => Blocked
                    | Fault => Fault
                    end
                  else mark_driver name n l' k
              end
          end
      end
  end.

Fixpoint detach_all (det : list (nat * bool)) : P unit :=
  match det with
  | [] => skip
  | (b, running) :: det' => _ ← bot_driver_detach b running; detach_all det'
  end.

Definition bot_suspend_driver (name : cstr) : P nat :=
  match name with
  | [] => Ret 0%nat
  | _ =>
      _ ← life_lock;
      det ← act (on_bots (fun _ k => mark_driver name BOT_SUSPEND_MAX (bo_list k) k));
      _ ← detach_all det;
      _ ← life_unlock;
      Ret (length det)
  end.

(** The names of the bots [f] says, as many as fit. *)
Fixpoint collect_names (f : bot_suspend_t -> bool) (n : nat) (k : bots) (l : list nat) : outcome (list cstr) :=
  match n, l with
  | O, _ | _, [] => Ok []
  | S n', b :: l' =>
      match get_bot b k with
      | None => Fault
      | Some x =>
          if f (p_susp (b_part x)) then
            match collect_names f n' k l' with
            | Ok r => Ok (p_name (b_part x) :: r)
            | Blocked => Blocked
            | Fault => Fault
            end
          else collect_names f n k l'
      end
  end.

Definition suspended_names (f : bots -> bot_suspend_t -> bool) : P (list cstr) :=
  act (on_bots (fun _ k => match collect_names (f k) BOT_SUSPEND_MAX k (bo_list k) with
                           | Ok r => Ok (k, r)
                           | Blocked => Blocked
                           | Fault => Fault
                           end)).

(** Attach a bot again, and clear the mark, which says whether to start the driver. *)
Definition reattach (b d : nat) (h : option nat) : P bool :=
  on_bot b (fun x =>
    (mk_bot (with_susp susp_none (with_attached (Some d) h (b_part x))) (b_refs x) (b_dying x),
     su_was_running (p_susp (b_part x)))).

Fixpoint resume_drivers (d : nat) (names : list cstr) : P nat :=
  match names with
  | [] => Ret 0%nat
  | name :: names' =>
      found ← bot_find name;
      one ← match found with
            | None => Ret 0%nat
            | Some b =>
                h ← call_create d b;
                match h with
                | None => Ret 0%nat
                | Some h =>
                    start ← reattach b d h;
                    _ ← when start (_ ← call d dv_start h; skip);
                    Ret 1%nat
                end
            end;
      more ← resume_drivers d names';
      Ret (one + more)%nat
  end.

Definition driver_name (d : nat) : P cstr :=
  act (on_bots (fun _ k => match vtable d k with Some v => Ok (k, dv_name v) | None => Fault end)).

Definition bot_resume_driver (d : nat) : P nat :=
  name ← driver_name d;
  _ ← life_lock;
  names ← suspended_names (fun _ s => su_driver s && seqb (su_driver_name s) name);
  n ← resume_drivers d names;
  _ ← life_unlock;
  Ret n.

Definition kind_is (kind : cstr) (m : bot_method_t) : bool := strncaseeq PLUGIN_NAME_SZ (bm_kind m) kind.

(** The walk of bot_suspend_method(): every bot with a binding of that kind is marked. *)
Fixpoint mark_method (kind : cstr) (n : nat) (l : list nat) (k : bots) : outcome (bots * list cstr) :=
  match n, l with
  | O, _ | _, [] => Ok (k, [])
  | S n', b :: l' =>
      match get_bot b k with
      | None => Fault
      | Some x =>
          let p := b_part x in
          if existsb (kind_is kind) (p_methods p) then
            match mark_method kind n' l' (put_part b x (susp_method kind p) k) with
            | Ok (k', r) => Ok (k', p_name p :: r)
            | Blocked => Blocked
            | Fault => Fault
            end
          else mark_method kind n l' k
      end
  end.

Fixpoint suspend_methods (names : list cstr) : P nat :=
  match names with
  | [] => Ret 0%nat
  | name :: names' =>
      found ← bot_find name;
      one ← match found with
            | None => Ret 0%nat
            | Some b =>
                ran ← rdb b (fun p => su_was_running (p_susp p));
                if negb ran then Ret 1%nat
                else
                  ok ← bot_stop_held b;
                  if ok : bool then Ret 1%nat else _ ← wrb b (with_susp susp_none); Ret 0%nat
            end;
      more ← suspend_methods names';
      Ret (one + more)%nat
  end.

Definition bot_suspend_method (kind : cstr) : P nat :=
  match kind with
  | [] => Ret 0%nat
  | _ =>
      _ ← life_lock;
      names ← act (on_bots (fun _ k => mark_method kind BOT_SUSPEND_MAX (bo_list k) k));
      n ← suspend_methods names;
      _ ← life_unlock;
      Ret n
  end.

Fixpoint resume_methods (names : list cstr) : P nat :=
  match names with
  | [] => Ret 0%nat
  | name :: names' =>
      found ← bot_find name;
      one ← match found with
            | None => Ret 0%nat
            | Some b =>
                start ← on_bot b (fun x => (mk_bot (with_susp susp_none (b_part x)) (b_refs x) (b_dying x),
                                            su_was_running (p_susp (b_part x))));
                if start : bool then ok ← bot_start_held b; Ret (if ok : bool then 1%nat else 0%nat) else Ret 1%nat
            end;
      more ← resume_methods names';
      Ret (one + more)%nat
  end.

Definition bot_resume_method (kind : cstr) : P nat :=
  match kind with
  | [] => Ret 0%nat
  | _ =>
      _ ← life_lock;
      names ← suspended_names (fun _ s => su_method s && strncaseeq PLUGIN_NAME_SZ (su_method_kind s) kind);
      n ← resume_methods names;
      _ ← life_unlock;
      Ret n
  end.

(** ** The end *)

(** The rounds that remain; false when there is still somebody. *)
Fixpoint bot_exit_drain (n : nat) : P bool :=
  match n with
  | O => Ret false
  | S n' =>
      left ← act (on_bots (fun _ k => Ok (k, bo_deferred k)));
      if left =? 0 then Ret true else bot_exit_drain n'
  end.

(** ** Entry points *)

(** A plugin's vtable, if it is loaded. *)
Definition find_driver (d : nat) : P bool :=
  act (on_bots (fun _ k => Ok (k, match vtable d k with Some _ => true | None => false end))).

Definition with_bot (name : cstr) (p : nat -> P bool) : P unit :=
  b ← bot_find name;
  match b with Some b => _ ← p b; skip | None => skip end.

(** Unloading waits for the deliveries it can see, then unmaps. *)
Definition unload_driver (d : nat) : P unit :=
  n ← bot_driver_inflight_owned d;
  when (n =? 0)%nat (act (on_bots (fun _ k => Ok (set_vtables (<[d := None]> (bo_vtables k)) k, tt)))).

Definition load_driver (v : bot_driver_t) : P unit :=
  act (on_bots (fun _ k => Ok (set_vtables (bo_vtables k ++ [Some v]) k, tt))).

Inductive bot_root :=
| B_low (r : root)
| B_create (d : nat) (name : cstr)
| B_destroy (name : cstr)
| B_bind (bot name : cstr) (kind : option cstr)
| B_unbind (bot name : cstr)
| B_start (name : cstr)
| B_stop (name : cstr)
| B_message (id : Z)
| B_deliver (name : cstr)
| B_suspend_driver (name : cstr)
| B_resume_driver (d : nat)
| B_suspend_method (kind : cstr)
| B_resume_method (kind : cstr)
| B_load (v : bot_driver_t)
| B_unload (d : nat)
| B_drain.

Definition bot_code (r : bot_root) : P unit :=
  match r with
  | B_low r => low (code r)
  | B_create d name => ok ← find_driver d; if ok : bool then _ ← bot_create d name; skip else skip
  | B_destroy name => _ ← bot_destroy name; skip
  | B_bind bot name kind => with_bot bot (fun b => bot_bind_method b name kind)
  | B_unbind bot name => with_bot bot (fun b => bot_unbind_method b name)
  | B_start name => with_bot name bot_start
  | B_stop name => with_bot name bot_stop
  | B_message id => bot_msg_handler id
  | B_deliver name =>
      j ← low (method_find name);
      match j with Some j => _ ← method_deliver j; low (method_release j) | None => skip end
  | B_suspend_driver name => _ ← bot_suspend_driver name; skip
  | B_resume_driver d => ok ← find_driver d; if ok : bool then _ ← bot_resume_driver d; skip else skip
  | B_suspend_method kind => _ ← bot_suspend_method kind; skip
  | B_resume_method kind => _ ← bot_resume_method kind; skip
  | B_load v => load_driver v
  | B_unload d => unload_driver d
  | B_drain => _ ← bot_exit_drain (BOT_EXIT_DRAIN_MS / BOT_EXIT_DRAIN_STEP); skip
  end.
