(* ===== verification/BotOk.v ===== *)
(** * What bots and their drivers promise each other

    The references to bots and the rights to drivers' states as tokens, the invariant of
    [Bot]'s memory that ties them to the counts of the code, and what each kind of write
    does to it. *)

From S2P Require Import Prelude Task Conc Sock SockOk IrcLife Bot.

(** ** Tokens *)

(** A delivery inside a bot's driver, with the vtable and the state it lifted; one on its
    way out; the duty to tear a driver's state down; the right to free a bot; a bot that
    is not on the list yet; bot_life_mutex, with the bots whose fields its holder knows; a
    vtable that is mapped; a bot that is on the list, in a program that destroys none. *)
Inductive btok :=
| BRef (b d : nat) (h : option nat)
| BLeave (b : nat)
| BOwe (d b : nat) (h : option nat)
| BLast (b : nat)
| BNew (b : nat) (p : bot_part)
| BLife (K : gmap nat bot_part)
| BVt (d : nat)
| BSeen (b : nat).

Definition is_ref (b : nat) (u : btok) : bool := match u with BRef b' _ _ | BLeave b' => (b' =? b)%nat | _ => false end.
Definition is_owe (h : nat) (u : btok) : bool := match u with BOwe _ _ (Some h') => (h' =? h)%nat | _ => false end.
Definition is_gone (b : nat) (u : btok) : bool := match u with BLast b' => (b' =? b)%nat | _ => false end.
Definition is_new (b : nat) (u : btok) : bool := match u with BNew b' _ => (b' =? b)%nat | _ => false end.
Definition is_held (u : btok) : bool := match u with BLife _ => true | _ => false end.

(** ** The invariant *)

(** Whether a bot does or owes something with a driver's state, or waits for its last delivery. *)
Definition has_handle (h : nat) (o : option bot_inst_t) : bool :=
  match o with Some x => bool_decide (p_handle (b_part x) = Some h) | None => false end.
Definition has_dying (h : nat) (o : option bot_inst_t) : bool :=
  match o with
  | Some x => match b_dying x with Some (_, Some h', _) => (h' =? h)%nat | _ => false end
  | None => false
  end.
Definition waits (o : option bot_inst_t) : bool :=
  match o with Some x => p_doomed (b_part x) && negb (b_refs x =? 0) | None => false end.

Definition valid (d : nat) (k : bots) : Prop := is_Some (vtable d k).
Definition handle_of (h : nat) (k : bots) : option nat := mjoin (bo_handles k !! h).

(** A binding that is down, and one that is up. *)
Definition bm_down (m : bot_method_t) : Prop := bm_inst m = None /\ bm_subscribed m = false /\ bm_created m = false.
Definition bm_up (m : bot_method_t) : Prop := is_Some (bm_inst m) /\ bm_subscribed m = true.

(** What a bot is like when no lifecycle operation is at it. *)
Definition settled (p : bot_part) : Prop :=
  match p_state p with
  | BOT_CREATED => Forall bm_down (p_methods p)
  | BOT_RUNNING => Forall bm_up (p_methods p)
  | BOT_STOPPING => False
  end.

Record part_ok (k : bots) (b : nat) (x : bot_inst_t) : Prop := {
  po_driver d : p_driver (b_part x) = Some d -> valid d k;
  po_handle h : p_handle (b_part x) = Some h -> handle_of h k = Some b;
  po_dying d h st : b_dying x = Some (d, h, st) -> valid d k /\ forall h', h = Some h' -> handle_of h' k = Some b;
  po_doomed : p_doomed (b_part x) = true -> p_methods (b_part x) = []
}.

Definition counts_ok (l : list nat) (T : list btok) (b : nat) (x : bot_inst_t) : Prop :=
  b_refs x = count (is_ref b) T /\
  count (is_gone b) T = Z.b2z (p_doomed (b_part x) && (b_refs x =? 0)) /\
  count (Nat.eqb b) l + count (is_new b) T = Z.b2z (negb (p_doomed (b_part x))).

Definition bot_ok (k : bots) (T : list btok) (b : nat) : Prop :=
  match get_bot b k with
  | Some x => counts_ok (bo_list k) T b x /\ part_ok k b x
  | None => count (is_ref b) T = 0 /\ count (is_gone b) T = 0 /\ count (Nat.eqb b) (bo_list k) + count (is_new b) T = 0
  end.

Ltac bcnt := rewrite ?count_cons in *; cbn [is_ref is_owe is_gone is_new is_held Z.b2z] in *; rewrite ?Nat.eqb_refl in *;
  cbn [Z.b2z] in *.

Section destroys.
(** Whether the program destroys bots. *)
Variable destroys : bool.

Definition bfact (k : bots) (u : btok) : Prop :=
  match u with
  | BRef b d h | BOwe d b h => valid d k /\ forall h', h = Some h' -> handle_of h' k = Some b
  | BNew b p => exists x, get_bot b k = Some x /\ b_part x = p /\ b_refs x = 0
  | BLife K => forall b p, K !! b = Some p -> b ∈ bo_list k /\ exists x, get_bot b k = Some x /\ b_part x = p
  | BVt d => valid d k
  | BSeen b => destroys = false /\ b ∈ bo_list k
  | _ => True
  end.

Record bot_inv (k : bots) (T : list btok) : Prop := {
  bv_bots b : bot_ok k T b;
  bv_count : bo_count k = wrap 32 (Z.of_nat (length (bo_list k)));
  bv_deferred : bo_deferred k = wrap 32 (count waits (bo_insts k));
  bv_owner h : count (has_handle h) (bo_insts k) + count (has_dying h) (bo_insts k) + count (is_owe h) T <= 1;
  bv_clear b d h : BRef b d (Some h) ∈ T -> count (is_owe h) T = 0;
  bv_life : count is_held T = Z.b2z (bo_life k);
  bv_facts u : u ∈ T -> bfact k u;
  bv_settled b x : get_bot b k = Some x -> settled (b_part x) \/ exists K, BLife K ∈ T /\ is_Some (K !! b)
}.

Lemma bot_inv_perm k T T' : T ≡ₚ T' -> bot_inv k T -> bot_inv k T'.
Proof.
  intros Hp [H1 H2 H3 H4 H5 H6 H7 H8].
  assert (Hc : forall f : btok -> bool, count f T' = count f T) by (intros f; symmetry; by apply count_perm).
  split; try done.
  - intros b. specialize (H1 b). unfold bot_ok, counts_ok in *. by rewrite !Hc.
  - intros h. by rewrite Hc.
  - intros b d h. rewrite Hc, <- Hp. apply H5.
  - by rewrite Hc.
  - intros u. rewrite <- Hp. apply H7.
  - intros b x E. destruct (H8 b x E) as [Hs|(K & HK & Hb)]; [by left|right]. exists K. by rewrite <- Hp.
Qed.

(** ** Writing a bot *)

Lemma get_bot_in b k x : get_bot b k = Some x -> bo_insts k !! b = Some (Some x).
Proof. unfold get_bot. destruct (bo_insts k !! b) as [o|]; [|done]. by intros <-. Qed.

Lemma get_put_bot b k x x' b' :
  get_bot b k = Some x -> get_bot b' (put_bot b x' k) = if decide (b' = b) then Some x' else get_bot b' k.
Proof.
  intros E%get_bot_in. unfold get_bot, put_bot. cbn [bo_insts set_bots]. apply lookup_lt_Some in E.
  case_decide; [subst; by rewrite list_lookup_insert_eq|by rewrite list_lookup_insert_ne].
Qed.

Lemma part_ok_mono k k' b x :
  (forall d, valid d k -> valid d k') -> (forall h, handle_of h k = Some b -> handle_of h k' = Some b) ->
  part_ok k b x -> part_ok k' b x.
Proof.
  intros Hv Hh [H1 H2 H3 H4]. split; [eauto..| |done]. intros d h st E. destruct (H3 d h st E) as [G1 G2]. eauto.
Qed.

(** What a write of one bot has to show; [f] is what it does to the count of deferred frees. *)
Record put_ok (k : bots) (T T' : list btok) (b : nat) (x x' : bot_inst_t) : Prop := {
  pk_other b' : b' <> b -> count (is_ref b') T' = count (is_ref b') T /\
    count (is_gone b') T' = count (is_gone b') T /\ count (is_new b') T' = count (is_new b') T;
  pk_refs : counts_ok (bo_list k) T' b x';
  pk_part : part_ok k b x';
  pk_owner h : Z.b2z (has_handle h (Some x')) + Z.b2z (has_dying h (Some x')) + count (is_owe h) T' <=
               Z.b2z (has_handle h (Some x)) + Z.b2z (has_dying h (Some x)) + count (is_owe h) T;
  pk_clear b' d h : BRef b' d (Some h) ∈ T' -> count (is_owe h) T' = 0;
  pk_life : count is_held T' = count is_held T;
  pk_facts u : u ∈ T' -> bfact (put_bot b x' k) u;
  pk_settled : settled (b_part x') \/ exists K, BLife K ∈ T' /\ is_Some (K !! b);
  pk_known K b' : BLife K ∈ T -> b' <> b -> is_Some (K !! b') -> exists K', BLife K' ∈ T' /\ is_Some (K' !! b')
}.

Lemma bot_inv_put k T T' b x x' n :
  bot_inv k T -> get_bot b k = Some x -> put_ok k T T' b x x' ->
  n = wrap 32 (bo_deferred k + Z.b2z (waits (Some x')) - Z.b2z (waits (Some x))) ->
  bot_inv (set_deferred n (put_bot b x' k)) T'.
Proof.
  intros [H1 H2 H3 H4 H5 H6 H7 H8] E [P1 P2 P3 P4 P5 P6 P7 P8 P9] Hn.
  assert (G := fun b' => get_put_bot b k x x' b' E).
  split; cbn [bo_list bo_count bo_insts bo_deferred bo_life set_deferred put_bot set_bots].
  - intros b'. unfold bot_ok. change (get_bot b' (set_deferred n ?k')) with (get_bot b' k'). rewrite G. case_decide; [subst|].
    + split; [exact P2|]. eapply part_ok_mono; [| |exact P3]; done.
    + specialize (H1 b'). unfold bot_ok, counts_ok in *. destruct (P1 b' ltac:(done)) as (-> & -> & ->).
      destruct (get_bot b' k); [|exact H1]. destruct H1 as [R1 R2]. split; [exact R1|]. by eapply part_ok_mono; [| |exact R2].
  - exact H2.
  - rewrite Hn, H3, (count_insert _ _ _ _ _ (get_bot_in _ _ _ E)), <- Z.add_sub_assoc, wrap_add. f_equal. lia.
  - intros h. specialize (H4 h). specialize (P4 h). rewrite !(count_insert _ _ _ _ _ (get_bot_in _ _ _ E)). lia.
  - exact P5.
  - by rewrite P6.
  - intros u Hu. specialize (P7 u Hu). by destruct u.
  - intros b' y. change (get_bot b' (set_deferred n ?k')) with (get_bot b' k'). rewrite G. case_decide; [by intros [= <-]; subst|].
    intros Ey. destruct (H8 b' y Ey) as [Hs|(K & HK & Hb)]; [by left|right; by eapply P9].
Qed.

Lemma set_deferred_id k : set_deferred (bo_deferred k) k = k.
Proof. by destruct k. Qed.

Lemma inv_put_same k T T' b x x' :
  bot_inv k T -> get_bot b k = Some x -> put_ok k T T' b x x' -> waits (Some x') = waits (Some x) ->
  bot_inv (put_bot b x' k) T'.
Proof.
  intros H E P W. rewrite <- (set_deferred_id (put_bot b x' k)). eapply bot_inv_put; [done..|]. rewrite W.
  cbn [bo_deferred put_bot set_bots]. rewrite (bv_deferred _ _ H). replace (_ + _ - _) with (wrap 32 (count waits (bo_insts k)) + 0) by lia.
  rewrite wrap_add. f_equal. lia.
Qed.

(** *** Tokens and counts *)

Lemma counted (f : btok -> bool) u T : u ∈ T -> f u = true -> 1 <= count f T.
Proof. intros [i Hi]%list_elem_of_lookup Hf. by eapply count_pos. Qed.

Lemma uncounted (f : btok -> bool) u T : count f T = 0 -> u ∈ T -> f u = false.
Proof. intros H Hu. destruct (f u) eqn:E; [|done]. pose proof (counted f u T Hu E). lia. Qed.

Lemma listed k T b : bot_inv k T -> b ∈ bo_list k ->
  exists x, get_bot b k = Some x /\ p_doomed (b_part x) = false /\ count (is_new b) T = 0 /\ count (Nat.eqb b) (bo_list k) = 1.
Proof.
  intros H [i Hi]%list_elem_of_lookup. pose proof (count_pos (Nat.eqb b) _ _ _ Hi (Nat.eqb_refl b)).
  pose proof (bv_bots _ _ H b) as Hb. unfold bot_ok, counts_ok in Hb. pose proof (count_range (is_new b) T).
  destruct (get_bot b k) as [x|]; [|lia]. destruct Hb as [(_ & _ & Hc) _]. exists x.
  destruct (p_doomed (b_part x)); cbn [negb Z.b2z] in Hc; [lia|]. split_and!; [done|done|lia|lia].
Qed.

Lemma alive_ok k T b x : bot_inv k T -> get_bot b k = Some x -> counts_ok (bo_list k) T b x /\ part_ok k b x.
Proof. intros H E. pose proof (bv_bots _ _ H b) as Hb. unfold bot_ok in Hb. by rewrite E in Hb. Qed.

Lemma ref_alive k T b : bot_inv k T -> 1 <= count (is_ref b) T -> exists x, get_bot b k = Some x.
Proof.
  intros H Hc. pose proof (bv_bots _ _ H b) as Hb. unfold bot_ok in Hb.
  destruct (get_bot b k) as [x|]; [by exists x|lia].
Qed.

(** A state that a bot has, or has to be torn down for it, nobody tears down. *)
Lemma owned_clear k T b x h : bot_inv k T -> get_bot b k = Some x ->
  has_handle h (Some x) = true \/ has_dying h (Some x) = true -> count (is_owe h) T = 0.
Proof.
  intros H E Ho. pose proof (bv_owner _ _ H h) as Hc. pose proof (count_range (is_owe h) T).
  pose proof (count_range (has_handle h) (bo_insts k)). pose proof (count_range (has_dying h) (bo_insts k)).
  destruct Ho as [Ho|Ho]; pose proof (count_pos _ _ _ _ (get_bot_in _ _ _ E) Ho); lia.
Qed.

(** A fact about a bot survives a write that leaves what it says. *)
Lemma bfact_put k u b x x' :
  get_bot b k = Some x ->
  (forall p, u = BNew b p -> b_part x' = p /\ b_refs x' = 0) ->
  (forall K p, u = BLife K -> K !! b = Some p -> b_part x' = p) ->
  bfact k u -> bfact (put_bot b x' k) u.
Proof.
  intros E Hn Hl. assert (G := fun b' => get_put_bot b k x x' b' E). destruct u; cbn [bfact]; try done.
  - intros (y & Ey & Hy). rewrite G. case_decide; [subst|by exists y]. destruct (Hn p eq_refl). by exists x'.
  - intros H b' p Hp. destruct (H b' p Hp) as [Hi (y & Ey & Hy)]. split; [exact Hi|]. rewrite G.
    case_decide; [subst|by exists y]. exists x'. split; [done|]. by eapply Hl.
Qed.

Lemma new_elem b p T : BNew b p ∈ T -> 1 <= count (is_new b) T.
Proof. intros H. eapply counted; [exact H|apply Nat.eqb_refl]. Qed.

(** One thread has bot_life_mutex. *)
Lemma held_one k K U u : bot_inv k (BLife K :: U) -> u ∈ U -> is_held u = false.
Proof.
  intros H Hu. pose proof (bv_life _ _ H) as Hl. rewrite count_cons in Hl. cbn [is_held] in Hl.
  destruct (is_held u) eqn:Eu; [|done]. pose proof (counted is_held u U Hu Eu). destruct (bo_life k); cbn [Z.b2z] in Hl; lia.
Qed.

(** *** The driver reference *)

(** A write that leaves what lifecycle operations own, and trades the tokens [u] for [c]. *)
Lemma put_counts k u c T b x x' :
  bot_inv k (u ++ T) -> get_bot b k = Some x -> b_part x' = b_part x ->
  count is_held u = 0 -> count is_held c = 0 -> count (is_new b) (u ++ T) = 0 -> count (is_new b) (c ++ T) = 0 ->
  (forall b', b' <> b -> count (is_ref b') c = count (is_ref b') u /\ count (is_gone b') c = count (is_gone b') u /\
     count (is_new b') c = count (is_new b') u) ->
  counts_ok (bo_list k) (c ++ T) b x' -> part_ok k b x' ->
  (forall h, Z.b2z (has_dying h (Some x')) + count (is_owe h) c <= Z.b2z (has_dying h (Some x)) + count (is_owe h) u) ->
  (forall b' d h, BRef b' d (Some h) ∈ c ++ T -> count (is_owe h) (c ++ T) = 0) ->
  (forall v, v ∈ c -> bfact k v) ->
  put_ok k (u ++ T) (c ++ T) b x x'.
Proof.
  intros H E Ep Hu Hc Nu Nc Ho HC HP Hw Hcl Hf. split; try done.
  - intros b' Hb'. rewrite !count_app. destruct (Ho b' Hb') as (-> & -> & ->). done.
  - intros h. rewrite !count_app. specialize (Hw h). cbn [has_handle] in *. rewrite Ep. lia.
  - rewrite !count_app. lia.
  - intros v Hv. apply (bfact_put k v b x x' E).
    + intros p ->. pose proof (new_elem _ _ _ Hv). lia.
    + intros K p -> HK. apply elem_of_app in Hv as [Hv|Hv]; [by pose proof (uncounted _ _ _ Hc Hv)|].
      destruct (bv_facts _ _ H (BLife K) ltac:(set_solver) b p HK) as [_ (y & Ey & Hy)]. by simplify_eq.
    + apply elem_of_app in Hv as [Hv|Hv]; [by apply Hf|]. apply (bv_facts _ _ H). set_solver.
  - rewrite Ep. destruct (bv_settled _ _ H b x E) as [Hs|(K & HK & Hb)]; [by left|right]. exists K.
    apply elem_of_app in HK as [HK|HK]; [by pose proof (uncounted _ _ _ Hu HK)|]. set_solver.
  - intros K b' HK _ HKb. exists K. apply elem_of_app in HK as [HK|HK]; [by pose proof (uncounted _ _ _ Hu HK)|]. set_solver.
Qed.

Lemma step_acquire k T b x d :
  bot_inv k T -> b ∈ bo_list k -> get_bot b k = Some x -> p_driver (b_part x) = Some d ->
  bot_inv (put_bot b (mk_bot (b_part x) (b_refs x + 1) (b_dying x)) k) (BRef b d (p_handle (b_part x)) :: T).
Proof.
  intros H Hl E Ed. destruct (listed _ _ _ H Hl) as (x0 & E0 & Hd & Hn & _). simplify_eq.
  destruct (alive_ok _ _ _ _ H E) as [(C1 & C2 & C3) Hp].
  eapply inv_put_same; [exact H|exact E| |by unfold waits; cbn [b_part]; rewrite Hd].
  apply (put_counts k [] [BRef b d (p_handle (b_part x))] T b x _); try done; cbn [app b_part b_refs b_dying].
  - intros b' Hb'. bcnt. rewrite !count_nil, (proj2 (Nat.eqb_neq b b')) by done. done.
  - unfold counts_ok. bcnt. cbn [b_part b_refs]. rewrite Hd in *. cbn [andb negb Z.b2z] in *. lia.
  - destruct Hp. by split.
  - intros b' d' h. bcnt. intros [[= -> -> Eh]|Hu]%elem_of_cons; [|by rewrite (bv_clear _ _ H _ _ _ Hu)].
    rewrite (owned_clear k T b x h H E); [done|]. left. cbn. by apply bool_decide_eq_true.
  - intros u ->%list_elem_of_singleton. split; [by apply Hp|]. intros h' Eh. by apply (po_handle _ _ _ Hp).
Qed.

(** What the last delivery of a bot takes with it. *)
Definition claimed (x : bot_inst_t) : option (nat * option nat * bool) := if b_refs x =? 1 then b_dying x else None.
Definition owe_tok (b : nat) (o : option (nat * option nat * bool)) : list btok :=
  match o with Some (d, h, _) => [BOwe d b h] | None => [] end.

Lemma owe_counts b o : (forall b', count (is_ref b') (owe_tok b o) = 0 /\ count (is_gone b') (owe_tok b o) = 0 /\
  count (is_new b') (owe_tok b o) = 0) /\ count is_held (owe_tok b o) = 0.
Proof. destruct o as [[[d h] st]|]; [|done]. split; [intros b'|]; cbn; repeat split. Qed.

Lemma owe_count b o h : count (is_owe h) (owe_tok b o) = Z.b2z (has_dying h (Some (mk_bot (mk_part [] 0 None None BOT_CREATED [] susp_none false) 0 o))).
Proof. destruct o as [[[d [h'|]] st]|]; [|done..]. cbn [owe_tok has_dying b_dying]. rewrite count_cons, count_nil. cbn [is_owe]. lia. Qed.

(** Nobody has a reference to a bot that is not on the list yet. *)
Lemma used_not_new k T b x : bot_inv k T -> get_bot b k = Some x -> b_refs x <> 0 -> count (is_new b) T = 0.
Proof.
  intros H E Hr. apply count_none. intros u Hu. destruct u as [| | | |b' p| | |]; try done. cbn [is_new].
  apply Nat.eqb_neq. intros ->. destruct (bv_facts _ _ H _ Hu) as (y & Ey & _ & Hy). simplify_eq.
Qed.

Lemma refs_count k T b x : bot_inv k T -> get_bot b k = Some x -> b_refs x = count (is_ref b) T.
Proof. intros H E. by destruct (alive_ok _ _ _ _ H E) as [(C1 & _) _]. Qed.

Lemma ref_of k b d h T : BRef b d h ∈ T -> bot_inv k T -> forall h', h = Some h' -> handle_of h' k = Some b.
Proof. intros Hu H. by destruct (bv_facts _ _ H _ Hu). Qed.

Lemma step_leave k T b d h x :
  bot_inv k (BRef b d h :: T) -> get_bot b k = Some x ->
  bot_inv (put_bot b (if b_refs x =? 1 then mk_bot (b_part x) (b_refs x) None else x) k)
    (BLeave b :: owe_tok b (claimed x) ++ T).
Proof.
  intros H E. destruct (alive_ok _ _ _ _ H E) as [(C1 & C2 & C3) Hp]. pose proof (count_range (is_ref b) T) as Hr.
  rewrite count_cons in C1. cbn [is_ref] in C1. rewrite Nat.eqb_refl in C1. cbn [Z.b2z] in C1.
  assert (Hn : count (is_new b) (BRef b d h :: T) = 0) by (eapply used_not_new; [exact H|exact E|lia]).
  destruct (owe_counts b (claimed x)) as [Ho Hol].
  set (x' := if _ =? 1 then _ else _). assert (Ex : b_part x' = b_part x /\ b_refs x' = b_refs x) by (subst x'; by case_match).
  destruct Ex as [Ex Er].
  eapply inv_put_same; [exact H|exact E| |by unfold waits; rewrite Ex, Er].
  assert (Hk : count (is_new b) (BLeave b :: owe_tok b (claimed x) ++ T) = 0).
  { bcnt. rewrite count_app. destruct (Ho b) as (_ & _ & ->). lia. }
  apply (put_counts k [BRef b d h] (BLeave b :: owe_tok b (claimed x)) T b x x' H E Ex); cbn [app]; try done.
  - intros b' Hb'. bcnt. rewrite !count_nil. destruct (Ho b') as (-> & -> & ->).
    rewrite (proj2 (Nat.eqb_neq b b')) by done. done.
  - unfold counts_ok. rewrite Ex, Er. bcnt. rewrite !count_app. destruct (Ho b) as (-> & -> & ->). lia.
  - subst x'. case_match; [|done]. destruct Hp. by split.
  - intros h'. bcnt. rewrite count_nil, owe_count. subst x'. unfold claimed. case_match; cbn; lia.
  - intros b' d' h'. bcnt. rewrite count_app, owe_count.
    intros [?|[Hu|Hu]%elem_of_app]%elem_of_cons; [done|by destruct (claimed x) as [[[? ?] ?]|]; [apply list_elem_of_singleton in Hu|apply elem_of_nil in Hu]|].
    pose proof (bv_clear _ _ H b' d' h' ltac:(by right)) as H0. rewrite count_cons in H0. cbn [is_owe Z.b2z] in H0. rewrite Z.add_0_l in *. rewrite H0.
    destruct (has_dying _ _) eqn:Hdy; [|done]. exfalso. unfold claimed in Hdy. destruct (Z.eqb_spec (b_refs x) 1) as [E1|]; [|done].
    cbn [has_dying b_dying] in Hdy. destruct (b_dying x) as [[[d2 [h2|]] st]|] eqn:Edy; try done. apply Nat.eqb_eq in Hdy. subst h2.
    pose proof (proj2 (po_dying _ _ _ Hp _ _ _ Edy) h' eq_refl) as G.
    pose proof (ref_of k b' d' (Some h') (BRef b d h :: T) ltac:(by right) H h' eq_refl) as G'. rewrite G in G'. injection G' as <-.
    pose proof (counted (is_ref b) _ _ Hu (Nat.eqb_refl b)). lia.
  - intros v [->|Hv]%elem_of_cons; [done|]. unfold claimed in Hv. case_match; [|by apply elem_of_nil in Hv].
    destruct (b_dying x) as [[[d2 h2] st]|] eqn:Edy; [|by apply elem_of_nil in Hv]. apply list_elem_of_singleton in Hv as ->.
    by apply (po_dying _ _ _ Hp _ _ _ Edy).
Qed.

Definition last_tok (b : nat) (x : bot_inst_t) : list btok :=
  if (b_refs x - 1 =? 0) && p_doomed (b_part x) then [BLast b] else [].

Lemma step_drop k T b x :
  bot_inv k (BLeave b :: T) -> get_bot b k = Some x ->
  let k' := put_bot b (mk_bot (b_part x) (b_refs x - 1) (b_dying x)) k in
  bot_inv (if (b_refs x - 1 =? 0) && p_doomed (b_part x) then set_deferred (wrap 32 (bo_deferred k - 1)) k' else k')
    (last_tok b x ++ T).
Proof.
  intros H E. destruct (alive_ok _ _ _ _ H E) as [(C1 & C2 & C3) Hp]. pose proof (count_range (is_ref b) T) as Hr.
  rewrite count_cons in C1. cbn [is_ref] in C1. rewrite Nat.eqb_refl in C1. cbn [Z.b2z] in C1.
  assert (Hn : count (is_new b) (BLeave b :: T) = 0) by (eapply used_not_new; [exact H|exact E|lia]).
  set (x' := mk_bot (b_part x) (b_refs x - 1) (b_dying x)). cbn zeta.
  assert (HP : put_ok k (BLeave b :: T) (last_tok b x ++ T) b x x').
  { apply (put_counts k [BLeave b] (last_tok b x) T b x x' H E); try done.
    - unfold last_tok. by case_match.
    - rewrite count_app. bcnt. unfold last_tok. case_match; bcnt; rewrite ?count_nil; lia.
    - intros b' Hb'. unfold last_tok. case_match; bcnt; rewrite ?count_nil, ?(proj2 (Nat.eqb_neq b b')) by done; done.
    - unfold counts_ok, last_tok. rewrite !count_app. cbn [x' b_part b_refs]. bcnt.
      destruct (p_doomed (b_part x)), (b_refs x - 1 =? 0) eqn:Ez; cbn [andb] in *; bcnt; rewrite ?count_nil in *;
        cbn [Z.b2z negb andb] in *; rewrite ?andb_false_r in *; try lia.
      all: rewrite (proj2 (Z.eqb_neq _ _)) in C2 by lia; cbn [andb Z.b2z] in C2; lia.
    - destruct Hp. by split.
    - intros h. unfold last_tok. case_match; bcnt; cbn; lia.
    - intros b' d' h'. unfold last_tok. rewrite count_app. intros Hu.
      pose proof (bv_clear _ _ H b' d' h') as H0. bcnt.
      case_match; bcnt; rewrite ?count_nil, ?Z.add_0_l; apply H0; apply elem_of_app in Hu as [Hu|Hu]; try (by right);
        [by apply list_elem_of_singleton in Hu|by apply elem_of_nil in Hu].
    - unfold last_tok. case_match; intros v Hv; [by apply list_elem_of_singleton in Hv as ->|by apply elem_of_nil in Hv]. }
  destruct (_ && p_doomed _) eqn:Ed.
  - eapply bot_inv_put; [exact H|exact E|exact HP|]. f_equal. cbn [waits x' b_part b_refs]. breflect.
    rewrite (proj2 (Z.eqb_eq (b_refs x - 1) 0)), (proj2 (Z.eqb_neq (b_refs x) 0)), H1 by lia. cbn. lia.
  - eapply inv_put_same; [exact H|exact E|exact HP|]. cbn [waits x' b_part b_refs].
    destruct (p_doomed (b_part x)); [|done]. rewrite andb_true_r in Ed. by rewrite Ed, (proj2 (Z.eqb_neq (b_refs x) 0)) by lia.
Qed.

(** *** What a lifecycle operation writes *)

Definition owes (u : list btok) : Prop := Forall (fun v => exists d b h, v = BOwe d b h) u.

Lemma owes_counts u : owes u ->
  (forall b, count (is_ref b) u = 0 /\ count (is_gone b) u = 0 /\ count (is_new b) u = 0) /\ count is_held u = 0.
Proof.
  induction 1 as [|v u (d & b & h & ->) _ IH]; [done|]. destruct IH as [I1 I2].
  split; [intros b'; destruct (I1 b') as (J1 & J2 & J3)|]; bcnt; lia.
Qed.

Lemma owes_not u v : owes u -> v ∈ u -> exists d b h, v = BOwe d b h.
Proof. intros H Hv. by apply (proj1 (List.Forall_forall _ _) H), list_elem_of_In. Qed.

Lemma owes_ref u b d h : owes u -> BRef b d h ∉ u.
Proof. intros H Hv. by destruct (owes_not _ _ H Hv) as (? & ? & ? & ?). Qed.

Lemma owes_held u K : owes u -> BLife K ∉ u.
Proof. intros H Hv. by destruct (owes_not _ _ H Hv) as (? & ? & ? & ?). Qed.

Lemma known k K T b p : bot_inv k (BLife K :: T) -> K !! b = Some p ->
  b ∈ bo_list k /\ exists x, get_bot b k = Some x /\ b_part x = p /\ p_doomed p = false /\ count (is_new b) T = 0.
Proof.
  intros H Hb. destruct (bv_facts _ _ H (BLife K) ltac:(by left) b p Hb) as [Hl (x & E & Ex)]. split; [exact Hl|].
  destruct (listed _ _ _ H Hl) as (y & Ey & Hd & Hn & _). simplify_eq. exists x. bcnt. split_and!; try done; lia.
Qed.

(** Under bot_life_mutex a bot that is known is written, but for its references. *)
Lemma step_part k K u c T b p x x' :
  bot_inv k (BLife K :: u ++ T) -> K !! b = Some p -> get_bot b k = Some x ->
  b_refs x' = b_refs x -> p_doomed (b_part x') = p_doomed p -> owes u -> owes c -> part_ok k b x' ->
  (forall h, Z.b2z (has_handle h (Some x')) + Z.b2z (has_dying h (Some x')) + count (is_owe h) c <=
             Z.b2z (has_handle h (Some x)) + Z.b2z (has_dying h (Some x)) + count (is_owe h) u) ->
  (forall b' d h, BRef b' d (Some h) ∈ T -> count (is_owe h) c = 0) ->
  (forall v, v ∈ c -> bfact k v) ->
  bot_inv (put_bot b x' k) (BLife (<[b := b_part x']> K) :: c ++ T).
Proof.
  intros H Hb E Er Ed Hu Hc HP Hw Hcl Hf. destruct (known _ _ _ _ _ H Hb) as (Hl & x0 & E0 & Ep & Hd & Hn). simplify_eq.
  destruct (owes_counts _ Hu) as [Cu Cuh]. destruct (owes_counts _ Hc) as [Cc Cch].
  assert (HL : forall K', BLife K' ∉ T).
  { intros K' HK. pose proof (held_one _ _ _ _ H ltac:(apply elem_of_app; by right)) as Hx. done. }
  eapply inv_put_same; [exact H|exact E| |by cbn [waits]; rewrite Ed, Er]. split; try done.
  - intros b' Hb'. bcnt. rewrite !count_app. destruct (Cu b') as (-> & -> & ->), (Cc b') as (-> & -> & ->). done.
  - destruct (alive_ok _ _ _ _ H E) as [(C1 & C2 & C3) _]. unfold counts_ok. rewrite Er, Ed. bcnt. rewrite !count_app in *.
    destruct (Cu b) as (U1 & U2 & U3), (Cc b) as (D1 & D2 & D3). lia.
  - intros h. bcnt. rewrite !count_app. specialize (Hw h). lia.
  - intros b' d h. bcnt. rewrite count_app. intros [?|[Hv|Hv]%elem_of_app]%elem_of_cons; [done|by destruct (owes_ref c b' d (Some h))|].
    rewrite (Hcl _ _ _ Hv). pose proof (bv_clear _ _ H b' d h ltac:(set_solver)) as H0. bcnt. rewrite count_app in H0.
    pose proof (count_range (is_owe h) u). pose proof (count_range (is_owe h) T). lia.
  - bcnt. rewrite !count_app. lia.
  - assert (G := fun b' => get_put_bot b k x x' b' E). intros v [->|Hv]%elem_of_cons.
    + cbn [bfact]. intros b' q. rewrite lookup_insert. case_decide as Hbb.
      * intros [= <-]. subst b'. split; [exact Hl|]. rewrite G, decide_True by done. by exists x'.
      * intros Hq. destruct (bv_facts _ _ H (BLife K) ltac:(by left) b' q Hq) as [Hl' Hx]. split; [exact Hl'|].
        by rewrite G, decide_False by done.
    + apply (bfact_put k v b x x' E).
      * intros q ->. apply elem_of_app in Hv as [Hv|Hv]; [by destruct (owes_not _ _ Hc Hv) as (? & ? & ? & ?)|].
        pose proof (new_elem _ _ _ Hv). rewrite count_app in Hn. pose proof (count_range (is_new b) u). lia.
      * intros K' q -> _. apply elem_of_app in Hv as [Hv|Hv]; [by destruct (owes_held c K')|by destruct (HL K')].
      * apply elem_of_app in Hv as [Hv|Hv]; [by apply Hf|]. apply (bv_facts _ _ H). set_solver.
  - right. eexists. split; [by left|]. rewrite lookup_insert_eq. by eexists.
  - intros K' b' HK' Hne Hb'. eexists. split; [by left|]. rewrite lookup_insert_ne by done.
    apply elem_of_cons in HK' as [[= ->]|HK']; [done|]. apply elem_of_app in HK' as [HK'|HK']; [by destruct (owes_held u K')|by destruct (HL K')].
Qed.

Definition same_driver (p p' : bot_part) : Prop :=
  p_driver p' = p_driver p /\ p_handle p' = p_handle p /\ p_doomed p' = p_doomed p.

Lemma step_write k K T b p x p' :
  bot_inv k (BLife K :: T) -> K !! b = Some p -> get_bot b k = Some x -> same_driver p p' ->
  bot_inv (put_part b x p' k) (BLife (<[b := p']> K) :: T).
Proof.
  intros H Hb E (S1 & S2 & S3). destruct (known _ _ _ _ _ H Hb) as (_ & x0 & E0 & Ep & Hd & _). simplify_eq.
  destruct (alive_ok _ _ _ _ H E) as [_ [P1 P2 P3 P4]].
  apply (step_part k K [] [] T b (b_part x) x (mk_bot p' (b_refs x) (b_dying x)) H Hb E); try done; [by constructor|by constructor|..].
  - split; cbn [b_part b_dying]; rewrite ?S1, ?S2, ?S3; try done. congruence.
  - intros h. cbn [has_handle has_dying b_part b_dying]. rewrite S2, !count_nil. lia.
  - intros v Hv. by apply elem_of_nil in Hv.
Qed.

(** The state of the driver that a bot gives up. *)
Definition detached (stop : bool) (x : bot_inst_t) : bot_inst_t :=
  mk_bot (with_attached None None (b_part x)) (b_refs x)
    (match p_driver (b_part x) with
     | Some d => if b_refs x =? 0 then b_dying x else Some (d, p_handle (b_part x), stop)
     | None => b_dying x
     end).
Definition detach_now (x : bot_inst_t) : option (nat * option nat) :=
  match p_driver (b_part x) with
  | Some d => if b_refs x =? 0 then Some (d, p_handle (b_part x)) else None
  | None => None
  end.
Definition now_tok (b : nat) (o : option (nat * option nat)) : list btok :=
  match o with Some (d, h) => [BOwe d b h] | None => [] end.

Lemma now_owes b o : owes (now_tok b o).
Proof. destruct o as [[d h]|]; repeat constructor. by do 3 eexists. Qed.

Lemma step_detach k K T b p x stop :
  bot_inv k (BLife K :: T) -> K !! b = Some p -> get_bot b k = Some x ->
  bot_inv (put_bot b (detached stop x) k)
    (BLife (<[b := with_attached None None p]> K) :: now_tok b (detach_now x) ++ T).
Proof.
  intros H Hb E. destruct (known _ _ _ _ _ H Hb) as (_ & x0 & E0 & Ep & Hd & _). simplify_eq.
  destruct (alive_ok _ _ _ _ H E) as [_ [P1 P2 P3 P4]].
  apply (step_part k K [] (now_tok b (detach_now x)) T b (b_part x) x (detached stop x) H Hb E); try done; [by constructor|apply now_owes|..].
  - split; cbn [detached b_part b_dying with_attached p_driver p_handle p_doomed p_methods]; try done.
    intros d h st. destruct (p_driver (b_part x)) as [d0|] eqn:Edr; [|apply P3].
    case_match; [apply P3|]. intros [= <- <- <-]. split; [by apply P1|]. intros h'. apply P2.
  - intros h. unfold detach_now. cbn [detached has_handle has_dying b_part b_dying with_attached p_handle].
    rewrite (bool_decide_eq_false_2 (None = Some h)) by done. cbn [Z.b2z]. rewrite count_nil.
    pose proof (bool_decide_reflect (p_handle (b_part x) = Some h)) as Hbd.
    assert (Hz : 0 <= Z.b2z (bool_decide (p_handle (b_part x) = Some h))) by (destruct (bool_decide _); cbn; lia).
    destruct (p_driver (b_part x)) as [d0|]; [|cbn [now_tok]; rewrite count_nil; lia].
    destruct (b_refs x =? 0); cbn [now_tok]; rewrite ?count_cons, ?count_nil; cbn [is_owe].
    + destruct (p_handle (b_part x)) as [h'|]; [|cbn [Z.b2z]; lia]. destruct (Nat.eqb_spec h' h) as [->|]; [|cbn [Z.b2z]; lia].
      rewrite (bool_decide_eq_true_2 (Some h = Some h)) by done. cbn [Z.b2z]. lia.
    + destruct (p_handle (b_part x)) as [h'|]; [|cbn [Z.b2z]; destruct (match b_dying x with Some (_, Some _, _) => _ | _ => _ end); cbn; lia].
      destruct (Nat.eqb_spec h' h) as [->|]; [|cbn [Z.b2z]; destruct (match b_dying x with Some (_, Some _, _) => _ | _ => _ end); cbn; lia].
      rewrite (bool_decide_eq_true_2 (Some h = Some h)) by done. cbn [Z.b2z]. destruct (match b_dying x with Some (_, Some _, _) => _ | _ => _ end); cbn; lia.
  - intros b' d h Hu. unfold detach_now. destruct (p_driver (b_part x)) as [d0|]; [|done]. destruct (Z.eqb_spec (b_refs x) 0) as [Hz|]; [|done].
    cbn [now_tok]. rewrite count_cons, count_nil. cbn [is_owe]. destruct (p_handle (b_part x)) as [h'|] eqn:Eh; [|done].
    destruct (Nat.eqb_spec h' h) as [->|]; [exfalso|done]. specialize (P2 h eq_refl).
    pose proof (ref_of k b' d (Some h) _ ltac:(right; exact Hu) H h eq_refl) as G. rewrite P2 in G. injection G as <-.
    pose proof (counted (is_ref b) _ _ Hu (Nat.eqb_refl b)). rewrite (refs_count _ _ _ _ H E) in Hz. bcnt. lia.
  - intros v Hv. unfold detach_now in Hv. destruct (p_driver (b_part x)) as [d0|]; [|by apply elem_of_nil in Hv].
    case_match; [|by apply elem_of_nil in Hv]. apply list_elem_of_singleton in Hv as ->. split; [by apply P1|]. intros h'. apply P2.
Qed.

Definition with_driver (d : nat) (h : option nat) (p : bot_part) : bot_part := with_susp susp_none (with_attached (Some d) h p).

Lemma owe_fact k T d b h : bot_inv k T -> BOwe d b h ∈ T -> valid d k /\ forall h', h = Some h' -> handle_of h' k = Some b.
Proof. intros H Hu. apply (bv_facts _ _ H _ Hu). Qed.

(** The state that create() made becomes the bot's. *)
Lemma step_reattach k K T b p x d h :
  bot_inv k (BLife K :: BOwe d b h :: T) -> K !! b = Some p -> get_bot b k = Some x ->
  bot_inv (put_part b x (with_driver d h p) k) (BLife (<[b := with_driver d h p]> K) :: T).
Proof.
  intros H Hb E. destruct (known _ _ _ _ _ H Hb) as (_ & x0 & E0 & Ep & Hd & _). simplify_eq.
  destruct (alive_ok _ _ _ _ H E) as [_ [P1 P2 P3 P4]]. destruct (owe_fact _ _ d b h H ltac:(set_solver)) as [F1 F2].
  apply (step_part k K [BOwe d b h] [] T b (b_part x) x (mk_bot (with_driver d h (b_part x)) (b_refs x) (b_dying x)) H Hb E); try done.
  - repeat constructor. by do 3 eexists.
  - by constructor.
  - split; cbn [b_part b_dying with_driver with_susp with_attached p_driver p_handle p_doomed p_methods]; [congruence|exact F2|exact P3|exact P4].
  - intros h'. cbn [has_handle has_dying b_part b_dying with_driver with_susp with_attached p_handle]. bcnt. rewrite !count_nil. cbn [is_owe].
    destruct h as [h|]; [|rewrite (bool_decide_eq_false_2 (None = Some h')) by done; cbn [Z.b2z]; destruct (bool_decide _); cbn; lia].
    destruct (Nat.eqb_spec h h') as [->|Hne]; [rewrite (bool_decide_eq_true_2 (Some h' = Some h')) by done|rewrite (bool_decide_eq_false_2 (Some h = Some h')) by congruence];
      cbn [Z.b2z]; destruct (bool_decide _); cbn [Z.b2z]; lia.
  - intros v Hv. by apply elem_of_nil in Hv.
Qed.

(** A bot that is known to the holder of bot_life_mutex. *)
Lemma step_know k K T b :
  bot_inv k (BLife K :: T) -> b ∈ bo_list k ->
  exists x, get_bot b k = Some x /\ bot_inv k (BLife (<[b := b_part x]> K) :: T) /\ (K !! b = None -> settled (b_part x)) /\
    (forall p, K !! b = Some p -> b_part x = p).
Proof.
  intros H Hl. destruct (listed _ _ _ H Hl) as (x & E & Hd & Hn & _). exists x.
  assert (HK : forall p, K !! b = Some p -> b_part x = p).
  { intros p Hp. destruct (bv_facts _ _ H (BLife K) ltac:(by left) b p Hp) as [_ (y & Ey & Hy)]. by simplify_eq. }
  split_and!; [done| | |done].
  - assert (Hp := H). destruct H as [H1 H2 H3 H4 H5 H6 H7 H8].
    assert (Hc : forall f : btok -> bool, (forall K', f (BLife K') = f (BLife K)) -> count f (BLife (<[b:=b_part x]> K) :: T) = count f (BLife K :: T))
      by (intros f Hf; rewrite !count_cons; by rewrite Hf).
    split; try done.
    + intros b' d h [?|Hv]%elem_of_cons; [done|]. rewrite Hc by done. apply (H5 b' d h). by right.
    + intros u [->|Hu]%elem_of_cons; [|apply H7; by right]. cbn [bfact]. intros b' q. rewrite lookup_insert. case_decide as Hbb.
      * intros [= <-]. subst b'. split; [done|by exists x].
      * intros Hq. by apply (H7 (BLife K) ltac:(by left)).
    + intros b' y Ey. destruct (H8 b' y Ey) as [?|(K' & [[= ->]|HK']%elem_of_cons & Hb')]; [by left|right|right].
      * eexists. split; [by left|]. rewrite lookup_insert. case_decide; [by eexists|done].
      * exists K'. split; [by right|done].
  - intros Hb. destruct (bv_settled _ _ H b x E) as [Hs|(K' & [[= ->]|HK']%elem_of_cons & Hb')]; [done| |].
    + rewrite Hb in Hb'. by destruct Hb'.
    + by pose proof (held_one _ _ _ _ H HK').
Qed.

(** *** Freeing *)

Lemma get_free_bot b k b' : get_bot b' (set_bots (<[b := None]> (bo_insts k)) k) = if decide (b' = b) then None else get_bot b' k.
Proof.
  unfold get_bot. cbn [bo_insts set_bots]. case_decide; [subst|by rewrite list_lookup_insert_ne].
  destruct (decide (b < length (bo_insts k))%nat); [by rewrite list_lookup_insert_eq|].
  rewrite list_insert_ge by lia. by rewrite lookup_ge_None_2 by lia.
Qed.

Definition may_free (b : nat) (u : btok) : Prop := u = BLast b \/ exists p, u = BNew b p.

Lemma step_free k T b u : bot_inv k (u :: T) -> may_free b u ->
  exists x, get_bot b k = Some x /\ (u = BLast b -> p_methods (b_part x) = []) /\ (forall p, u = BNew b p -> b_part x = p) /\
    bot_inv (set_bots (<[b := None]> (bo_insts k)) k) T.
Proof.
  intros H Hu. assert (Hb := bv_bots _ _ H b). unfold bot_ok in Hb.
  pose proof (count_range (is_gone b) T) as Z1. pose proof (count_range (is_new b) T) as Z2.
  pose proof (count_range (is_ref b) T) as Z3. pose proof (count_range (Nat.eqb b) (bo_list k)) as Z4.
  destruct (get_bot b k) as [x|] eqn:E.
  2: { exfalso. destruct Hu as [->|[p ->]]; bcnt; lia. }
  destruct Hb as [(C1 & C2 & C3) HP]. exists x. split; [done|].
  assert (Hf : count (is_ref b) T = 0 /\ count (is_gone b) T = 0 /\ count (is_new b) T = 0 /\ count (Nat.eqb b) (bo_list k) = 0 /\ waits (Some x) = false /\
    (u = BLast b -> p_doomed (b_part x) = true)).
  { cbn [waits]. destruct Hu as [->|[p ->]].
    - bcnt. destruct (p_doomed (b_part x)); cbn [andb negb Z.b2z] in *; [|lia]. destruct (Z.eqb_spec (b_refs x) 0); cbn [Z.b2z negb] in *; [|lia].
      split_and!; try lia; done.
    - destruct (bv_facts _ _ H _ ltac:(by left)) as (y & Ey & _ & Hy). simplify_eq. bcnt. rewrite Hy in *.
      destruct (p_doomed (b_part x)); cbn [andb negb Z.b2z] in *; [lia|]. split_and!; try lia; done. }
  destruct Hf as (F1 & F2 & F3 & F4 & F5 & F6). split_and!.
  { intros Hl. by apply (po_doomed _ _ _ HP), F6. }
  { intros p ->. destruct (bv_facts _ _ H _ ltac:(by left)) as (y & Ey & Hy & _). by simplify_eq. }
  assert (Hown : forall f : btok -> bool, (forall b' p, f (BNew b' p) = false) -> (forall b', f (BLast b') = false) -> count f (u :: T) = count f T).
  { intros f Hf1 Hf2. rewrite count_cons. destruct Hu as [->|[p ->]]; by rewrite ?Hf1, ?Hf2. }
  assert (Hoth : forall b', b' <> b -> count (is_gone b') (u :: T) = count (is_gone b') T /\ count (is_new b') (u :: T) = count (is_new b') T).
  { intros b' Hne. rewrite !count_cons. destruct Hu as [->|[p ->]]; cbn [is_gone is_new]; rewrite ?(proj2 (Nat.eqb_neq b b')) by done; done. }
  assert (HO := get_bot_in _ _ _ E). destruct H as [H1 H2 H3 H4 H5 H6 H7 H8].
  split; cbn [bo_insts bo_list bo_count bo_deferred bo_life set_bots].
  - intros b'. unfold bot_ok. rewrite get_free_bot. case_decide as Hbb; [subst b'; cbn [bo_list set_bots]; lia|]. specialize (H1 b'). unfold bot_ok, counts_ok in *.
    destruct (Hoth b' Hbb) as [G1 G2]. rewrite G1, G2, (Hown (is_ref b')) in H1 by done. destruct (get_bot b' k); [|exact H1].
    destruct H1 as [R1 R2]. split; [exact R1|]. by eapply part_ok_mono; [| |exact R2].
  - done.
  - rewrite (count_insert _ _ _ _ _ HO), F5. cbn [waits Z.b2z]. by rewrite H3, Z.sub_0_r, Z.add_0_r.
  - intros h. rewrite !(count_insert _ _ _ _ _ HO). specialize (H4 h). rewrite Hown in H4 by done. cbn [has_handle has_dying Z.b2z].
    destruct (bool_decide (p_handle (b_part x) = Some h)), (match b_dying x with Some (_, Some _, _) => _ | _ => _ end); cbn [Z.b2z]; lia.
  - intros b' d h Hv. rewrite <- (Hown (is_owe h)) by done. apply (H5 b' d h). by right.
  - rewrite <- (Hown is_held) by done. done.
  - intros v Hv. assert (Hbv := H7 v ltac:(by right)). destruct v as [| | | |b' p'|K'| |]; cbn [bfact] in *; try done.
    + destruct Hbv as (y & Ey & Hy). rewrite get_free_bot. case_decide; [subst|by exists y]. pose proof (new_elem _ _ _ Hv). lia.
    + intros b' p' Hp'. destruct (Hbv b' p' Hp') as [Hi (y & Ey & Hy)]. split; [exact Hi|]. rewrite get_free_bot.
      case_decide; [subst|by exists y]. apply list_elem_of_lookup in Hi as [i Hi].
      pose proof (count_pos (Nat.eqb b) _ _ _ Hi (Nat.eqb_refl b)). lia.
  - intros b' y. rewrite get_free_bot. case_decide; [done|]. intros Ey. destruct (H8 b' y Ey) as [?|(K' & [HK|HK]%elem_of_cons & Hb')]; [by left|right|right].
    + destruct Hu as [->|[p ->]]; done.
    + by exists K'.
Qed.

(** *** Vtables, drivers' states and the statics *)

Definition inert (u : btok) : bool := match u with BVt _ | BSeen _ | BOwe _ _ None => true | _ => false end.

Lemma inert_none u : inert u = true ->
  (forall b, is_ref b u = false /\ is_gone b u = false /\ is_new b u = false) /\ is_held u = false /\ forall h, is_owe h u = false.
Proof. by destruct u as [|? |? ? [?|]| | | | |]. Qed.

Lemma inv_inert k u T : inert u = true -> bfact k u -> bot_inv k T -> bot_inv k (u :: T).
Proof.
  intros Hi Hf [H1 H2 H3 H4 H5 H6 H7 H8]. destruct (inert_none u Hi) as (N1 & N2 & N3). split; try done.
  - intros b. specialize (H1 b). unfold bot_ok, counts_ok in *. rewrite !count_cons. destruct (N1 b) as (-> & -> & ->). cbn [Z.b2z].
    by rewrite !Z.add_0_l.
  - intros h. rewrite count_cons, N3. cbn [Z.b2z]. specialize (H4 h). lia.
  - intros b d h. rewrite count_cons, N3. intros [<-|Hv]%elem_of_cons; [done|]. by rewrite (H5 b d h Hv).
  - by rewrite count_cons, N2.
  - intros v [->|Hv]%elem_of_cons; [done|by apply H7].
  - intros b x E. destruct (H8 b x E) as [?|(K & HK & Hb)]; [by left|right]. exists K. split; [by right|done].
Qed.

Lemma inv_forget k u T : (inert u = true \/ exists d b h, u = BOwe d b h) -> bot_inv k (u :: T) -> bot_inv k T.
Proof.
  intros Hi [H1 H2 H3 H4 H5 H6 H7 H8].
  assert (N : (forall b, is_ref b u = false /\ is_gone b u = false /\ is_new b u = false) /\ is_held u = false).
  { destruct Hi as [Hi|(d & b & h & ->)]; [|done]. by destruct (inert_none u Hi) as (N1 & N2 & N3). }
  destruct N as [N1 N2]. split; try done.
  - intros b. specialize (H1 b). unfold bot_ok, counts_ok in *. rewrite !count_cons in H1. destruct (N1 b) as (E1 & E2 & E3).
    rewrite E1, E2, E3 in H1. cbn [Z.b2z] in H1. by rewrite !Z.add_0_l in H1.
  - intros h. specialize (H4 h). rewrite count_cons in H4. destruct (is_owe h u); cbn [Z.b2z] in H4; lia.
  - intros b d h Hv. specialize (H5 b d h ltac:(by right)). rewrite count_cons in H5. pose proof (count_range (is_owe h) T).
    destruct (is_owe h u); cbn [Z.b2z] in H5; lia.
  - by rewrite count_cons, N2 in H6.
  - intros v Hv. apply H7. by right.
  - intros b x E. destruct (H8 b x E) as [?|(K & [<-|HK]%elem_of_cons & Hb)]; [by left|done|right]. by exists K.
Qed.

Record same_bots (k k' : bots) : Prop := {
  sb_insts : bo_insts k' = bo_insts k; sb_list : bo_list k' = bo_list k; sb_count : bo_count k' = bo_count k;
  sb_deferred : bo_deferred k' = bo_deferred k; sb_life : bo_life k' = bo_life k;
  sb_valid d : valid d k -> valid d k'
}.

Lemma inv_mono k k' T : same_bots k k' -> (forall h b, handle_of h k = Some b -> handle_of h k' = Some b) -> bot_inv k T -> bot_inv k' T.
Proof.
  intros [E1 E2 E3 E4 E5 Hv] Hh [H1 H2 H3 H4 H5 H6 H7 H8].
  assert (G : forall b, get_bot b k' = get_bot b k) by (intros b; unfold get_bot; by rewrite E1).
  split; rewrite ?E1, ?E2, ?E3, ?E4, ?E5; try done.
  - intros b. specialize (H1 b). unfold bot_ok in *. rewrite G, E2. destruct (get_bot b k); [|done].
    destruct H1 as [R1 R2]. split; [done|]. eapply part_ok_mono; [exact Hv| |exact R2]. intros h. apply Hh.
  - intros u Hu. specialize (H7 u Hu). destruct u; cbn [bfact] in *; rewrite ?G, ?E2; eauto.
    + destruct H7 as [F1 F2]. split; [by apply Hv|]. intros h' ->. by apply Hh, F2.
    + destruct H7 as [F1 F2]. split; [by apply Hv|]. intros h' ->. by apply Hh, F2.
    + intros b p Hb. rewrite G. by apply H7.
  - intros b x. rewrite G. apply H8.
Qed.

Lemma lookup_snoc_some {A} (l : list (option A)) x i y : mjoin (l !! i) = Some y -> mjoin ((l ++ [x]) !! i) = Some y.
Proof. intros H. destruct (l !! i) as [o|] eqn:E; [|done]. by rewrite (lookup_app_l_Some _ _ _ _ E). Qed.

Lemma step_load k T v : bot_inv k T -> bot_inv (set_vtables (bo_vtables k ++ [Some v]) k) T.
Proof. apply inv_mono; [|done]. split; try done. intros d [v' Hv]. exists v'. by apply lookup_snoc_some. Qed.

Lemma step_next_id k T n : bot_inv k T -> bot_inv (set_next_id n k) T.
Proof. by apply inv_mono. Qed.

(** A fresh state is nobody's yet. *)
Lemma fresh_handle k T h b : bot_inv k T -> handle_of h k = None ->
  count (has_handle h) (bo_insts k) = 0 /\ count (has_dying h) (bo_insts k) = 0 /\ count (is_owe h) T = 0 /\ forall d, BRef b d (Some h) ∉ T.
Proof.
  intros H Hn.
  assert (Hbot : forall o, o ∈ bo_insts k -> has_handle h o = false /\ has_dying h o = false).
  { intros o [i Hi]%list_elem_of_lookup. destruct o as [x|]; [|done].
    assert (E : get_bot i k = Some x) by (unfold get_bot; by rewrite Hi). destruct (alive_ok _ _ _ _ H E) as [_ HP].
    cbn [has_handle has_dying]. split.
    - apply bool_decide_eq_false. intros Eh. pose proof (po_handle _ _ _ HP _ Eh). congruence.
    - destruct (b_dying x) as [[[d [h'|]] st]|] eqn:Ed; try done. apply Nat.eqb_neq. intros ->.
      pose proof (proj2 (po_dying _ _ _ HP _ _ _ Ed) h eq_refl). congruence. }
  split_and!.
  - apply count_none. intros o Ho. by apply Hbot.
  - apply count_none. intros o Ho. by apply Hbot.
  - apply count_none. intros u Hu. destruct u as [| |d b' [h'|]| | | | |]; try done. apply Nat.eqb_neq. intros ->.
    pose proof (proj2 (owe_fact _ _ _ _ _ H Hu) h eq_refl). congruence.
  - intros d Hu. pose proof (ref_of _ _ _ _ _ Hu H h eq_refl). congruence.
Qed.

Lemma step_create k T d b : bot_inv k T -> valid d k ->
  bot_inv (set_handles (bo_handles k ++ [Some b]) k) (BOwe d b (Some (length (bo_handles k))) :: T).
Proof.
  intros H Hv. set (h := length (bo_handles k)). set (k' := set_handles _ k).
  assert (Hn : handle_of h k = None) by (unfold handle_of; by rewrite lookup_ge_None_2 by (subst h; lia)).
  assert (Hm : forall h b, handle_of h k = Some b -> handle_of h k' = Some b) by (intros ? ?; apply lookup_snoc_some).
  assert (Hnew : handle_of h k' = Some b) by (unfold handle_of; cbn [k' bo_handles set_handles]; by rewrite lookup_app_r, Nat.sub_diag by (subst h; lia)).
  assert (Hk : bot_inv k' T) by (by eapply inv_mono; [| |exact H]).
  destruct (fresh_handle k T h b H Hn) as (F1 & F2 & F3 & F4). destruct Hk as [H1 H2 H3 H4 H5 H6 H7 H8]. split; try done.
  - intros h'. specialize (H4 h'). bcnt. destruct (Nat.eqb_spec h h') as [<-|]; cbn [Z.b2z]; [|lia].
    change (bo_insts k') with (bo_insts k). lia.
  - intros b' d' h' [?|Hu]%elem_of_cons; [done|]. bcnt. rewrite (H5 _ _ _ Hu). destruct (Nat.eqb_spec h h') as [<-|]; [exfalso|done].
    destruct (fresh_handle k T h b' H Hn) as (_ & _ & _ & F). by apply (F d').
  - intros v [->|Hu]%elem_of_cons; [|by apply H7]. split; [done|]. by intros h' [= <-].
  - intros b' x E. destruct (H8 b' x E) as [?|(K & HK & Hb)]; [by left|right]. exists K. split; [by right|done].
Qed.

Lemma step_destroy k T d b h : bot_inv k (BOwe d b (Some h) :: T) -> bot_inv (set_handles (<[h := None]> (bo_handles k)) k) T.
Proof.
  intros H. assert (HT := inv_forget _ _ _ ltac:(right; by do 3 eexists) H).
  assert (Hx := bv_owner _ _ H h). bcnt. pose proof (count_range (has_handle h) (bo_insts k)) as Z1.
  pose proof (count_range (has_dying h) (bo_insts k)) as Z2. pose proof (count_range (is_owe h) T) as Z3.
  set (k' := set_handles _ k). assert (Hm : forall h' b', h' <> h -> handle_of h' k = Some b' -> handle_of h' k' = Some b').
  { intros h' b' Hne. unfold handle_of. cbn [k' bo_handles set_handles]. by rewrite list_lookup_insert_ne. }
  destruct HT as [H1 H2 H3 H4 H5 H6 H7 H8]. split; try done.
  - intros b'. specialize (H1 b'). unfold bot_ok in *. change (get_bot b' k') with (get_bot b' k).
    destruct (get_bot b' k) as [x|] eqn:E; [|done]. destruct H1 as [R1 [P1 P2 P3 P4]]. split; [done|].
    split; [done| | |done].
    + intros h' Eh. apply Hm; [|by apply P2]. intros ->.
      pose proof (count_pos (has_handle h) _ _ _ (get_bot_in _ _ _ E) ltac:(by apply bool_decide_eq_true)). lia.
    + intros d' h0 st Ed. destruct (P3 _ _ _ Ed) as [F1 F2]. split; [done|]. intros h' ->. apply Hm; [|by apply F2]. intros ->.
      pose proof (count_pos (has_dying h) _ _ _ (get_bot_in _ _ _ E) ltac:(cbn; rewrite Ed; apply Nat.eqb_refl)). lia.
  - intros u Hu. specialize (H7 u Hu). destruct u; cbn [bfact] in *; try done.
    + destruct H7 as [F1 F2]. split; [done|]. intros h' ->. apply Hm; [|by apply F2]. intros ->.
      pose proof (bv_clear _ _ H b0 d0 h ltac:(by right)) as H0. bcnt. lia.
    + destruct H7 as [F1 F2]. split; [done|]. intros h' ->. apply Hm; [|by apply F2]. intros ->.
      pose proof (counted (is_owe h) _ _ Hu (Nat.eqb_refl h)). lia.
Qed.

(** *** A new bot, and a bot's end *)

Lemma get_alloc_bot x k b' : get_bot b' (set_bots (bo_insts k ++ [Some x]) k) = if decide (b' = length (bo_insts k)) then Some x else get_bot b' k.
Proof.
  unfold get_bot. cbn [bo_insts set_bots]. case_decide; [subst; by rewrite lookup_app_r, Nat.sub_diag by lia|].
  destruct (decide (b' < length (bo_insts k))%nat); [by rewrite lookup_app_l by lia|].
  rewrite !lookup_ge_None_2; [done|lia|]. rewrite length_app. cbn [length]. lia.
Qed.

Lemma fresh_bot k : get_bot (length (bo_insts k)) k = None.
Proof. unfold get_bot. by rewrite lookup_ge_None_2 by lia. Qed.

Lemma step_alloc k T d name id : bot_inv k T -> valid d k ->
  let b := length (bo_insts k) in
  bot_inv (set_bots (bo_insts k ++ [Some (new_bot d name id)]) k) (BNew b (b_part (new_bot d name id)) :: T).
Proof.
  intros H Hv b. set (x := new_bot d name id). assert (G := fun b' => get_alloc_bot x k b').
  assert (Hb := bv_bots _ _ H b). unfold bot_ok in Hb. rewrite (fresh_bot k : get_bot b k = None) in Hb. destruct Hb as (B1 & B2 & B3).
  pose proof (count_range (Nat.eqb b) (bo_list k)) as Z1. pose proof (count_range (is_new b) T) as Z2.
  destruct H as [H1 H2 H3 H4 H5 H6 H7 H8]. split; cbn [bo_insts bo_list bo_count bo_deferred bo_life set_bots].
  - intros b'. unfold bot_ok. rewrite G. unfold counts_ok. bcnt. cbn [is_ref is_gone is_new]. case_decide as Hbb.
    + change (b' = b) in Hbb. rewrite Hbb, Nat.eqb_refl. cbn [x new_bot b_part b_refs p_doomed andb negb Z.b2z bo_list set_bots]. split; [lia|].
      split; try done. cbn [b_part p_driver]. by intros d' [= <-].
    + rewrite (proj2 (Nat.eqb_neq b b')) by done. cbn [Z.b2z]. rewrite !Z.add_0_l. specialize (H1 b'). unfold bot_ok, counts_ok in H1.
      destruct (get_bot b' k); [|exact H1]. destruct H1 as [R1 R2]. split; [exact R1|]. by eapply part_ok_mono; [| |exact R2].
  - done.
  - rewrite count_app, count_cons, count_nil. cbn [waits x new_bot b_part p_doomed andb Z.b2z]. by rewrite !Z.add_0_r.
  - intros h. rewrite !count_app, !count_cons, !count_nil. cbn [is_owe has_handle has_dying x new_bot b_part b_dying p_handle].
    rewrite (bool_decide_eq_false_2 (None = Some h)) by done. cbn [Z.b2z]. specialize (H4 h). lia.
  - intros b' d' h [?|Hu]%elem_of_cons; [done|]. bcnt. by rewrite (H5 _ _ _ Hu).
  - bcnt. lia.
  - intros u [->|Hu]%elem_of_cons; [cbn [bfact]; rewrite G, decide_True by done; by exists x|].
    specialize (H7 u Hu). destruct u as [| | | |b' p'|K'| |]; cbn [bfact] in *; try done.
    + destruct H7 as (y & Ey & Hy). rewrite G. case_decide as Hbb; [by rewrite Hbb, fresh_bot in Ey|by exists y].
    + intros b' p' Hp'. destruct (H7 b' p' Hp') as [Hl (y & Ey & Hy)]. split; [done|]. rewrite G.
      case_decide as Hbb; [by rewrite Hbb, fresh_bot in Ey|by exists y].
  - intros b' y. rewrite G. case_decide; [intros [= <-]; left; constructor|]. intros Ey.
    destruct (H8 b' y Ey) as [?|(K & HK & Hb)]; [by left|right]. exists K. split; [by right|done].
Qed.

(** The new bot gets the state that create() made. *)
Lemma step_new_part k T b p d h : bot_inv k (BNew b p :: BOwe d b h :: T) -> settled p -> p_doomed p = false -> p_handle p = None ->
  exists x, get_bot b k = Some x /\ b_part x = p /\
    bot_inv (put_part b x (with_attached (Some d) h p) k) (BNew b (with_attached (Some d) h p) :: T).
Proof.
  intros H Hs Hd Hh. destruct (bv_facts _ _ H (BNew b p) ltac:(by left)) as (x & E & Ex & Er). exists x. split_and!; [done..|].
  destruct (owe_fact _ _ d b h H ltac:(set_solver)) as [F1 F2]. destruct (alive_ok _ _ _ _ H E) as [(C1 & C2 & C3) [P1 P2 P3 P4]].
  subst p. rewrite Hd in *. bcnt. cbn [andb negb Z.b2z] in *. pose proof (count_range (is_new b) T). pose proof (count_range (Nat.eqb b) (bo_list k)).
  unfold put_part. eapply inv_put_same; [exact H|exact E| |by cbn [waits b_part with_attached p_doomed b_refs]].
  assert (G := fun b' => get_put_bot b k x (mk_bot (with_attached (Some d) h (b_part x)) (b_refs x) (b_dying x)) b' E).
  split; cbn [b_part b_refs b_dying with_attached p_doomed p_handle].
  - intros b' Hne. bcnt. done.
  - unfold counts_ok. bcnt. cbn [b_part b_refs with_attached p_doomed]. rewrite Hd. cbn [andb negb Z.b2z]. lia.
  - split; cbn [b_part b_dying with_attached p_driver p_handle p_doomed p_methods]; [congruence|exact F2|exact P3|by rewrite Hd].
  - intros h'. bcnt. cbn [has_handle has_dying b_part b_dying with_attached p_handle]. rewrite Hh.
    rewrite (bool_decide_eq_false_2 (None = Some h')) by done. cbn [is_owe]. destruct h as [h|]; [|rewrite (bool_decide_eq_false_2 (None = Some h')) by done; cbn [Z.b2z]; lia].
    destruct (Nat.eqb_spec h h') as [->|]; [rewrite (bool_decide_eq_true_2 (Some h' = Some h')) by done|rewrite (bool_decide_eq_false_2 (Some h = Some h')) by congruence]; cbn [Z.b2z]; lia.
  - intros b' d' h' [?|Hu]%elem_of_cons; [done|]. pose proof (bv_clear _ _ H b' d' h' ltac:(by do 2 right)) as Hz. rewrite !count_cons in *.
    pose proof (count_range (is_owe h') T). destruct (is_owe h' (BOwe d b h)); cbn [is_owe Z.b2z] in *; lia.
  - bcnt. lia.
  - intros v [->|Hv]%elem_of_cons; [cbn [bfact]; rewrite G, decide_True by done; by eexists|].
    apply (bfact_put k v b x _ E); [| |apply (bv_facts _ _ H); by do 2 right].
    + intros q ->. pose proof (new_elem _ _ _ Hv). lia.
    + intros K q -> HK. destruct (bv_facts _ _ H (BLife K) ltac:(by do 2 right) b q HK) as [Hl _].
      apply list_elem_of_lookup in Hl as [i Hi]. pose proof (count_pos (Nat.eqb b) _ _ _ Hi (Nat.eqb_refl b)). lia.
  - left. done.
  - intros K b' [?|[?|HK]%elem_of_cons]%elem_of_cons _ Hb'; [done|done|]. exists K. split; [by right|done].
Qed.

Lemma step_list k T b p : bot_inv k (BNew b p :: T) -> bot_inv (set_blist (b :: bo_list k) (wrap 32 (bo_count k + 1)) k) T.
Proof.
  intros [H1 H2 H3 H4 H5 H6 H7 H8]. set (k' := set_blist _ _ k). split; try done.
  - intros b'. specialize (H1 b'). unfold bot_ok, counts_ok in *. change (get_bot b' k') with (get_bot b' k).
    cbn [k' bo_list set_blist]. bcnt. rewrite (Nat.eqb_sym b' b). destruct (get_bot b' k); [|lia]. destruct H1 as [R1 [P1 P2 P3 P4]].
    split; [lia|]. by split.
  - cbn [k' bo_list bo_count set_blist length]. rewrite H2, wrap_add. f_equal. lia.
  - intros b' d h Hu. specialize (H5 b' d h ltac:(by right)). by bcnt.
  - intros u Hu. specialize (H7 u ltac:(by right)). destruct u as [| | | |b' p'|K'| |]; cbn [bfact] in *; try done.
    + intros b' q Hq. destruct (H7 b' q Hq) as [Hl Hx]. split; [by right|done].
    + destruct H7. split; [done|by right].
  - intros b' x E. destruct (H8 b' x E) as [?|(K & [?|HK]%elem_of_cons & Hb)]; [by left|done|right]. by exists K.
Qed.

(** *** bot_life_mutex *)

Definition all_settled (K : gmap nat bot_part) : Prop := forall b p, K !! b = Some p -> settled p.

Lemma step_lock k T : bot_inv k T -> bo_life k = false -> bot_inv (set_life true k) (BLife ∅ :: T).
Proof.
  intros [H1 H2 H3 H4 H5 H6 H7 H8] Hl. rewrite Hl in H6. split; try done.
  - intros b. specialize (H1 b). unfold bot_ok, counts_ok in *. bcnt. rewrite !Z.add_0_l.
    change (get_bot b (set_life true k)) with (get_bot b k). destruct (get_bot b k); [|done].
    destruct H1 as [R1 R2]. split; [exact R1|]. by eapply part_ok_mono; [| |exact R2].
  - intros b' d h [?|Hu]%elem_of_cons; [done|]. bcnt. by rewrite (H5 _ _ _ Hu).
  - bcnt. cbn [bo_life set_life Z.b2z]. lia.
  - intros u [->|Hu]%elem_of_cons; [done|]. specialize (H7 u Hu). by destruct u.
  - intros b x E. destruct (H8 b x E) as [?|(K & HK & Hb)]; [by left|right]. exists K. split; [by right|done].
Qed.

Lemma step_unlock k K T : bot_inv k (BLife K :: T) -> all_settled K -> bot_inv (set_life false k) T.
Proof.
  intros H HK. assert (HT : count is_held T = 0).
  { apply count_none. intros u Hu. by apply (held_one _ _ _ _ H). }
  destruct H as [H1 H2 H3 H4 H5 H6 H7 H8]. split; try done.
  - intros b. specialize (H1 b). unfold bot_ok, counts_ok in *. bcnt. rewrite !Z.add_0_l in H1.
    change (get_bot b (set_life false k)) with (get_bot b k). destruct (get_bot b k); [|done].
    destruct H1 as [R1 R2]. split; [exact R1|]. by eapply part_ok_mono; [| |exact R2].
  - intros b' d h Hu. specialize (H5 b' d h ltac:(by right)). by bcnt.
  - intros u Hu. specialize (H7 u ltac:(by right)). by destruct u.
  - intros b x E. change (get_bot b (set_life false k)) with (get_bot b k) in E.
    destruct (H8 b x E) as [?|(K' & [[= ->]|HK']%elem_of_cons & Hb)]; [by left| |by pose proof (uncounted _ _ _ HT HK')].
    left. destruct Hb as [p Hp]. destruct (H7 (BLife K) ltac:(by left) b p Hp) as [_ (y & Ey & Hy)]. simplify_eq. by eapply HK.
Qed.

(** What bot_destroy() does to a bot it knows. *)
Definition doomed_bot (x : bot_inst_t) : bot_inst_t := mk_bot (with_doomed (b_part x)) (b_refs x) (b_dying x).
Definition doom (b : nat) (x : bot_inst_t) (k : bots) : bots :=
  let k' := set_blist (unlink b (bo_list k)) (wrap 32 (bo_count k - 1)) (put_bot b (doomed_bot x) k) in
  if b_refs x =? 0 then k' else set_deferred (wrap 32 (bo_deferred k + 1)) k'.
Definition doom_tok (b : nat) (x : bot_inst_t) : list btok := if b_refs x =? 0 then [BLast b] else [].

Lemma doom_facts k K T b x v :
  destroys = true -> bot_inv k (BLife K :: T) -> b ∈ bo_list k -> get_bot b k = Some x ->
  v ∈ BLife (delete b K) :: doom_tok b x ++ T -> bfact (doom b x k) v.
Proof.
  intros Hds H Hl E Hv. destruct (listed _ _ _ H Hl) as (y & Ey & _ & Hn & _). simplify_eq.
  assert (G : forall b', get_bot b' (doom b x k) = if decide (b' = b) then Some (doomed_bot x) else get_bot b' k).
  { intros b'. rewrite <- (get_put_bot b k x (doomed_bot x) b' E). unfold doom. by case_match. }
  assert (L : forall b', b' ∈ bo_list k -> b' <> b -> b' ∈ bo_list (doom b x k)).
  { intros b' Hb' Hne. replace (bo_list (doom b x k)) with (unlink b (bo_list k)) by (unfold doom; by case_match).
    rewrite (unlink_perm b _ Hl) in Hb'. by apply elem_of_cons in Hb' as [->|Hb']. }
  assert (V : forall d, valid d k -> valid d (doom b x k)) by (intros d; unfold doom; by case_match).
  assert (N : forall h c, handle_of h k = Some c -> handle_of h (doom b x k) = Some c) by (intros h c; unfold doom; by case_match).
  apply elem_of_cons in Hv as [->|[Hv|Hv]%elem_of_app]; cbn [bfact].
  - intros b' p. rewrite lookup_delete. case_decide; [done|]. intros Hp.
    destruct (bv_facts _ _ H (BLife K) ltac:(by left) b' p Hp) as [Hl' Hx]. rewrite G, decide_False by done. split; [by apply L|done].
  - unfold doom_tok in Hv. case_match; [by apply list_elem_of_singleton in Hv as ->|by apply elem_of_nil in Hv].
  - assert (Hf := bv_facts _ _ H v ltac:(by right)). pose proof (held_one _ _ _ _ H Hv) as Hh.
    destruct v as [| | | |b' p'| | |]; cbn [bfact] in *; try done.
    + destruct Hf as [F1 F2]. split; [by apply V|]. intros h' Eh. by apply N, F2.
    + destruct Hf as [F1 F2]. split; [by apply V|]. intros h' Eh. by apply N, F2.
    + destruct Hf as (y & Ey' & Hy). rewrite G. case_decide; [subst b'|by exists y]. pose proof (new_elem _ _ _ Hv). bcnt. lia.
    + by apply V.
    + destruct Hf. congruence.
Qed.

Lemma step_doom k K T b p x :
  destroys = true -> bot_inv k (BLife K :: T) -> K !! b = Some p -> get_bot b k = Some x -> p_state p <> BOT_STOPPING ->
  bot_inv (doom b x k) (BLife (delete b K) :: doom_tok b x ++ T).
Proof.
  intros Hds H Hb E Hst. destruct (known _ _ _ _ _ H Hb) as (Hl & x0 & E0 & Ep & Hd & Hn). simplify_eq.
  assert (HF := fun v => doom_facts k K T b x v Hds H Hl E). assert (HH := fun u => held_one k K T u H).
  assert (G : forall b', get_bot b' (doom b x k) = if decide (b' = b) then Some (doomed_bot x) else get_bot b' k).
  { intros b'. rewrite <- (get_put_bot b k x (doomed_bot x) b' E). unfold doom. by case_match. }
  assert (EL : bo_list (doom b x k) = unlink b (bo_list k)) by (unfold doom; by case_match).
  assert (EI : bo_insts (doom b x k) = <[b := Some (doomed_bot x)]> (bo_insts k)) by (unfold doom; by case_match).
  assert (Hc : forall f : btok -> bool, (forall b', f (BLast b') = false) -> (forall K, f (BLife K) = false) ->
    count f (BLife (delete b K) :: doom_tok b x ++ T) = count f (BLife K :: T)).
  { intros f Hf HK. rewrite !count_cons, count_app, !HK. unfold doom_tok. case_match; rewrite ?count_cons, ?count_nil, ?Hf; cbn [Z.b2z]; lia. }
  assert (HG : forall b', count (is_gone b') (doom_tok b x) = Z.b2z ((b =? b')%nat && (b_refs x =? 0))).
  { intros b'. unfold doom_tok. case_match; rewrite ?count_cons, ?count_nil; cbn [is_gone]; rewrite ?andb_true_r, ?andb_false_r; cbn [Z.b2z]; lia. }
  destruct (alive_ok _ _ _ _ H E) as [(C1 & C2 & C3) HP]. rewrite Hd in C2, C3. cbn [andb negb Z.b2z] in C2, C3.
  assert (HI := get_bot_in _ _ _ E). destruct H as [H1 H2 H3 H4 H5 H6 H7 H8]. split.
  - intros b'. specialize (H1 b'). unfold bot_ok, counts_ok in *. rewrite G, EL, !(Hc (is_ref b')), !(Hc (is_new b')) by done.
    assert (EG : count (is_gone b') (BLife (delete b K) :: doom_tok b x ++ T) = count (is_gone b') (BLife K :: T) + Z.b2z ((b =? b')%nat && (b_refs x =? 0)))
      by (rewrite !count_cons, count_app, HG; cbn [is_gone Z.b2z]; lia). rewrite EG. rewrite (count_unlink _ _ _ Hl) in H1.
    rewrite (Nat.eqb_sym b' b) in H1. assert (PM : forall z c, part_ok k c z -> part_ok (doom b x k) c z).
    { intros z c. unfold doom. destruct (b_refs x =? 0); by apply part_ok_mono. }
    case_decide as Hbb.
    + subst b'. rewrite Nat.eqb_refl in *. rewrite E in H1. cbn [doomed_bot b_part b_refs with_doomed p_doomed andb negb Z.b2z] in *.
      rewrite Hd in H1. cbn [negb Z.b2z andb] in H1. destruct H1 as [(R1 & R2 & R3) _]. split; [lia|].
      apply PM. destruct HP as [P1 P2 P3 P4]. by split.
    + rewrite (proj2 (Nat.eqb_neq b b')) in * by done. cbn [andb Z.b2z] in *. rewrite !Z.add_0_l, ?Z.add_0_r in *.
      destruct (get_bot b' k); [|done]. destruct H1 as [R1 R2]. split; [exact R1|by apply PM].
  - rewrite EL. replace (bo_count (doom b x k)) with (wrap 32 (bo_count k - 1)) by (unfold doom; by case_match).
    rewrite H2, <- Z.add_opp_r, wrap_add. f_equal. pose proof (unlink_length b _ Hl). lia.
  - rewrite EI, (count_insert _ _ _ _ _ HI). cbn [waits doomed_bot b_part b_refs with_doomed p_doomed]. rewrite Hd. cbn [andb Z.b2z].
    unfold doom. destruct (b_refs x =? 0); cbn [bo_deferred set_deferred set_blist put_bot set_bots negb Z.b2z]; rewrite H3; [f_equal; lia|].
    rewrite wrap_add. f_equal. lia.
  - intros h. rewrite EI, !(count_insert _ _ _ _ _ HI), (Hc (is_owe h)) by done. specialize (H4 h).
    change (has_handle h (Some (doomed_bot x))) with (has_handle h (Some x)). change (has_dying h (Some (doomed_bot x))) with (has_dying h (Some x)). lia.
  - intros b' d h Hv. rewrite (Hc (is_owe h)) by done. apply (H5 b' d h). apply elem_of_cons in Hv as [?|[Hv|Hv]%elem_of_app]; [done| |by right].
    unfold doom_tok in Hv. case_match; [by apply list_elem_of_singleton in Hv|by apply elem_of_nil in Hv].
  - bcnt. rewrite count_app. replace (bo_life (doom b x k)) with (bo_life k) by (unfold doom; by case_match). unfold doom_tok. case_match; bcnt; rewrite ?count_nil; lia.
  - exact HF.
  - intros b' y. rewrite G. case_decide as Hbb.
    + intros [= <-]. left. unfold settled. cbn [doomed_bot b_part with_doomed p_state p_methods]. by destruct (p_state (b_part x)); try constructor.
    + intros Ey. destruct (H8 b' y Ey) as [?|(K' & [[= ->]|HK']%elem_of_cons & Hb')]; [by left|right|].
      * eexists. split; [by left|]. by rewrite lookup_delete_ne.
      * by specialize (HH _ HK').
Qed.
End destroys.
