(* ===== verification/BotSafe.v ===== *)
(** * Bots never touch what is gone

    The tokens of [IrcSafe] and of [BotOk] together, the invariant of the whole memory, and
    a rule for every function of [Bot]: whatever deliveries, lifecycle operations, sockets
    and reconnect tasks do in between, it uses no freed bot, no method instance that is
    gone, no vtable that is not mapped and no driver's state that was destroyed, and leaves
    every bot as [settled] says. *)

From S2P Require Import Prelude Task Conc Sock SockOk SockSafe IrcLife IrcSafe Bot BotOk.

(** ** All tokens *)

Notation tok := (stok + btok)%type.

Definition lows (T : list tok) : list stok := omap (fun x => match x with inl u => Some u | inr _ => None end) T.
Definition bts (T : list tok) : list btok := omap (fun x => match x with inr u => Some u | inl _ => None end) T.
Definition toks (L : list stok) (B : list btok) : list tok := map inl L ++ map inr B.

Lemma lows_app T T' : lows (T ++ T') = lows T ++ lows T'.
Proof. apply omap_app. Qed.

Lemma bts_app T T' : bts (T ++ T') = bts T ++ bts T'.
Proof. apply omap_app. Qed.

Lemma lows_inl L : lows (map inl L) = L.
Proof. induction L as [|x L IH]; [done|]. cbn. by f_equal. Qed.

Lemma lows_inr B : lows (map inr B) = [].
Proof. by induction B. Qed.

Lemma bts_inl L : bts (map inl L) = [].
Proof. by induction L. Qed.

Lemma bts_inr B : bts (map inr B) = B.
Proof. induction B as [|x B IH]; [done|]. cbn. by f_equal. Qed.

Lemma lows_toks L B : lows (toks L B) = L.
Proof. unfold toks. by rewrite lows_app, lows_inl, lows_inr, app_nil_r. Qed.

Lemma bts_toks L B : bts (toks L B) = B.
Proof. unfold toks. by rewrite bts_app, bts_inl, bts_inr. Qed.

#[export] Instance lows_perm : Proper (Permutation ==> Permutation) lows.
Proof. intros T T' H. unfold lows. by rewrite H. Qed.

#[export] Instance bts_perm : Proper (Permutation ==> Permutation) bts.
Proof. intros T T' H. unfold bts. by rewrite H. Qed.

Lemma toks_perm L L' B B' : L ≡ₚ L' -> B ≡ₚ B' -> toks L B ≡ₚ toks L' B'.
Proof. intros H1 H2. unfold toks. by rewrite H1, H2. Qed.

(** ** The invariant *)

(** A binding has a reference to its instance, and bot_life_mutex, when nobody has it, the
    notes about instances. *)
Definition insts_of (p : bot_part) : list nat := omap bm_inst (p_methods p).
Definition part_tok (p : bot_part) : list stok := map (fun j => TUser (u_inst j)) (insts_of p).
Definition own_bot (o : option bot_inst_t) : list stok := match o with Some x => part_tok (b_part x) | None => [] end.
Definition free_tok (k : bots) : list stok := if bo_life k then [] else [TUser (u_life [])].
Definition bot_own (k : bots) : list stok := free_tok k ++ flat_map own_bot (bo_insts k).

(** ** Bindings as the walks of bot.c leave them *)

Definition down_bm (m : bot_method_t) : bot_method_t := mk_bm (bm_name m) (bm_kind m) None false false.

(** A subscription goes through an instance. *)
Definition bm_sane (m : bot_method_t) : Prop := bm_inst m = None -> bm_subscribed m = false.

Lemma down_is_down m : bm_down (down_bm m).
Proof. done. Qed.

Lemma down_sane m : bm_down m -> bm_sane m.
Proof. intros (_ & H & _) _. exact H. Qed.

Lemma up_sane m : bm_up m -> bm_sane m.
Proof. intros [[j H] _] H0. congruence. Qed.

Lemma down_id m : bm_down m -> down_bm m = m.
Proof. intros (H1 & H2 & H3). destruct m. cbn in *. by subst. Qed.

(** The [n] bindings from the [i]-th on taken down. *)
Definition downs (i n : nat) (ms : list bot_method_t) : list bot_method_t :=
  take i ms ++ map down_bm (take n (drop i ms)) ++ drop (i + n) ms.

Lemma alter_at {A} (f : A -> A) (l : list A) i x : l !! i = Some x -> alter f i l = take i l ++ f x :: drop (S i) l.
Proof.
  revert i. induction l as [|y l IH]; intros i H; [done|]. destruct i as [|i]; [by injection H as ->|].
  change (alter f (S i) (y :: l)) with (y :: alter f i l). by rewrite (IH i H).
Qed.

Lemma alter_same {A} (f : A -> A) (l : list A) i x : l !! i = Some x -> f x = x -> alter f i l = l.
Proof. intros H Hf. rewrite (alter_at f l i x H), Hf. by apply take_drop_middle. Qed.

Lemma downs_step i n ms : (i < length ms)%nat -> downs (S i) n (alter down_bm i ms) = downs i (S n) ms.
Proof.
  intros Hi. destruct (lookup_lt_is_Some_2 ms i Hi) as [m Em]. unfold downs.
  assert (E := alter_at down_bm ms i m Em).
  assert (L : length (take i ms) = i) by (rewrite length_take; lia).
  rewrite E, (drop_S ms m i Em). cbn [take map]. rewrite take_app. rewrite L.
  replace (S i - i)%nat with 1%nat by lia. rewrite take_ge by (rewrite length_take; lia). cbn [take app].
  rewrite !drop_app, !L, (drop_ge (take i ms) (S i)) by lia. replace (S i - i)%nat with 1%nat by lia. cbn [drop app].
  rewrite (drop_ge (take i ms) (S i + n)) by lia. replace (S i + n - i)%nat with (S n) by lia. cbn [drop app].
  rewrite !drop_drop, Nat.add_0_r, take_0. replace (i + S n)%nat with (S i + n)%nat by lia. by rewrite <- app_assoc.
Qed.

Lemma downs_length i n ms : (i + n <= length ms)%nat -> length (downs i n ms) = length ms.
Proof. intros H. unfold downs. rewrite !length_app, length_map, length_take, length_take, !length_drop. lia. Qed.

Lemma downs_all ms : downs 0 (length ms) ms = map down_bm ms.
Proof. unfold downs. by rewrite take_0, drop_0, firstn_all, drop_ge, app_nil_r by lia. Qed.

Lemma alter_split {A} (f : A -> A) (l : list A) i x : l !! i = Some x ->
  take (S i) (alter f i l) = take i l ++ [f x] /\ drop (S i) (alter f i l) = drop (S i) l.
Proof.
  intros H. rewrite (alter_at f l i x H). apply lookup_lt_Some in H.
  assert (L : length (take i l) = i) by (rewrite length_take; lia).
  rewrite take_app, drop_app, L, (take_ge (take i l)), (drop_ge (take i l)) by lia.
  replace (S i - i)%nat with 1%nat by lia. done.
Qed.

(** Taking down the bindings that are up takes down all. *)
Lemma downs_up i ms : (i <= length ms)%nat -> Forall bm_down (drop i ms) -> Forall bm_down (downs 0 i ms).
Proof.
  intros Hi H. unfold downs. rewrite take_0, drop_0. cbn [app Nat.add]. apply Forall_app. split; [|done].
  apply Forall_fmap. by apply Forall_true.
Qed.

Lemma downs_none ms : Forall bm_down ms -> omap bm_inst ms = [].
Proof. induction 1 as [|m ms (H & _) _ IH]; [done|]. cbn. by rewrite H. Qed.

Lemma drop_down name ms : Forall bm_down ms -> Forall bm_down (drop_bm name ms).
Proof. induction 1 as [|m ms H Hms IH]; [constructor|]. cbn [drop_bm]. destruct (bm_is name m); [done|by constructor]. Qed.

Section rules.
Variable destroys : bool.
Notation binv := (bot_inv destroys).

Definition inv2 (w : bot_world) (T : list tok) : Prop :=
  world_inv (bw_low w) (lows T ++ bot_own (bw_bots w)) /\ binv (bw_bots w) (bts T).

Lemma inv2_perm w T T' : T ≡ₚ T' -> inv2 w T -> inv2 w T'.
Proof.
  intros Hp [H1 H2]. split; [eapply world_inv_perm; [|exact H1]; by rewrite Hp|eapply bot_inv_perm; [|exact H2]; by rewrite Hp].
Qed.

(** [p], with the tokens [L] of sockets and methods and [B] of bots. *)
Definition BP {R} (p : P R) (Q : R -> list stok -> list btok -> Prop) (L : list stok) (B : list btok) : Prop :=
  wp inv2 p (fun r t => exists L' B', t ≡ₚ toks L' B' /\ Q r L' B') (toks L B).

Lemma bp_ret {R} (r : R) (Q : R -> list stok -> list btok -> Prop) L B : Q r L B -> BP (Ret r) Q L B.
Proof. intros H. by exists L, B. Qed.

Lemma bp_mono {R} (p : P R) (Q Q' : R -> list stok -> list btok -> Prop) L B :
  (forall r L' B', Q r L' B' -> Q' r L' B') -> BP p Q L B -> BP p Q' L B.
Proof. intros HQ. apply wp_mono. intros r t (L' & B' & Ht & H). exists L', B'. split; [done|by apply HQ]. Qed.

Lemma bp_perm {R} (p : P R) (Q : R -> list stok -> list btok -> Prop) L L' B B' :
  L ≡ₚ L' -> B ≡ₚ B' -> BP p Q L B -> BP p Q L' B'.
Proof.
  intros HL HB. apply (wp_perm inv2 inv2_perm); [|by apply toks_perm].
  intros r u u' Hu (L1 & B1 & Hp & HQ). exists L1, B1. by rewrite <- Hu.
Qed.

Lemma bp_seq {R R'} (p : P R) (f : R -> P R') (Q : R' -> list stok -> list btok -> Prop) Q' L B :
  BP p Q' L B -> (forall r L' B', Q' r L' B' -> BP (f r) Q L' B') -> BP (p ≫= f) Q L B.
Proof.
  intros H1 H2. apply wp_bind. eapply wp_mono; [|exact H1]. intros r t (L' & B' & Ht & HQ).
  eapply (wp_perm inv2 inv2_perm); [|symmetry; exact Ht|by apply H2].
  intros r' u u' Hu (L1 & B1 & Hp & HQ1). exists L1, B1. by rewrite <- Hu.
Qed.

Lemma prog_assoc {W A R1 R2 R3} (p : prog W A R1) (f : R1 -> prog W A R2) (g : R2 -> prog W A R3) (inv : W -> list tok -> Prop) Q t :
  wp inv ((p ≫= f) ≫= g) Q t -> wp inv (p ≫= (fun r => f r ≫= g)) Q t.
Proof.
  revert t. induction p as [r|A0 h k IH]; intros t H; [exact H|]. cbn [wp mbind prog_mbind prog_bind] in *.
  eapply act_ok_mono; [|exact H]. intros b t'. apply IH.
Qed.

(** What gives back what it was given. *)
Definition same {R} (L : list stok) (B : list btok) : R -> list stok -> list btok -> Prop := fun _ L' B' => L' = L /\ B' = B.

Lemma bp_then {R R'} (p : P R) (f : R -> P R') (Q : R' -> list stok -> list btok -> Prop) L B :
  BP p (same L B) L B -> (forall r, BP (f r) Q L B) -> BP (p ≫= f) Q L B.
Proof. intros H1 H2. eapply bp_seq; [exact H1|]. by intros r L' B' [-> ->]. Qed.

Lemma bp_when b (p : P unit) L B : BP p (same L B) L B -> BP (when b p) (same L B) L B.
Proof. destruct b; [done|]. intros _. by apply bp_ret. Qed.

(** *** Actions on bots *)

Lemma bp_bots {A} (f : answer -> bots -> outcome (bots * A)) (Q : A -> list stok -> list btok -> Prop) L B :
  (forall a k T, binv k (B ++ T) ->
     match f a k with
     | Ok (k', r) => exists L' B', Q r L' B' /\ binv k' (B' ++ T) /\
         forall w R, world_inv w ((L ++ bot_own k) ++ R) -> world_inv w ((L' ++ bot_own k') ++ R)
     | Blocked => True
     | Fault => False
     end) -> BP (act (on_bots f)) Q L B.
Proof.
  intros H. apply wp_act. intros a w R [Hw Hb]. rewrite bts_app, bts_toks in Hb. specialize (H a (bw_bots w) _ Hb).
  unfold on_bots. destruct (f a (bw_bots w)) as [[k' r]| |]; [|done..].
  destruct H as (L' & B' & HQ & Hb' & Hl). exists (toks L' B'). split; [by exists L', B'|]. split; cbn [bw_low bw_bots].
  - rewrite lows_app, lows_toks in *. eapply world_inv_perm; [|apply (Hl _ (lows R)); eapply world_inv_perm; [|exact Hw]]; solve_Permutation.
  - by rewrite bts_app, bts_toks.
Qed.

(** References go from hand to hand. *)
Lemma trade L L' k k' : L ++ bot_own k ≡ₚ L' ++ bot_own k' ->
  forall w R, world_inv w ((L ++ bot_own k) ++ R) -> world_inv w ((L' ++ bot_own k') ++ R).
Proof. intros Hp w R. apply world_inv_perm. by rewrite Hp. Qed.

(** An action that leaves the bots' memory, or the references in it, alone. *)
Lemma bp_look {A} (f : bots -> A) (Q : A -> list stok -> list btok -> Prop) L B :
  (forall k T, binv k (B ++ T) -> Q (f k) L B) -> BP (act (on_bots (fun _ k => Ok (k, f k)))) Q L B.
Proof.
  intros H. apply bp_bots. intros a k T Hk. exists L, B. split_and!; [by eapply H|done|done].
Qed.

Lemma bot_put_own k b x x' : get_bot b k = Some x ->
  part_tok (b_part x') ++ bot_own k ≡ₚ part_tok (b_part x) ++ bot_own (put_bot b x' k).
Proof.
  intros E. apply get_bot_in in E. unfold bot_own, put_bot. cbn [bo_insts bo_life set_bots].
  change (free_tok (set_bots _ k)) with (free_tok k).
  rewrite <- (take_drop_middle _ _ _ E) at 1. rewrite insert_take_drop by (by eapply lookup_lt_Some).
  rewrite !flat_map_app. cbn [flat_map own_bot]. solve_Permutation.
Qed.

Lemma bot_put_same k b x x' : get_bot b k = Some x -> insts_of (b_part x') = insts_of (b_part x) ->
  bot_own k ≡ₚ bot_own (put_bot b x' k).
Proof.
  intros E Hi. pose proof (bot_put_own k b x x' E) as H. unfold part_tok in H. rewrite Hi in H. by apply Permutation_app_inv_l in H.
Qed.

(** *** The layers below *)

Lemma layered w t R : inv2 w (map inl t ++ R) ->
  exists F, world_inv (bw_low w) (t ++ F) /\ forall x t', world_inv x (t' ++ F) -> inv2 (mk_bw x (bw_bots w)) (map inl t' ++ R).
Proof.
  intros [H1 H2]. rewrite lows_app, lows_inl, <- app_assoc in H1. rewrite bts_app, bts_inl in H2.
  exists (lows R ++ bot_own (bw_bots w)). split; [exact H1|]. intros x t' Hx. split; cbn [bw_low bw_bots].
  - by rewrite lows_app, lows_inl, <- app_assoc.
  - by rewrite bts_app, bts_inl.
Qed.

Lemma bp_low {R} (p : prog (world irc_mem) answer R) Q L B :
  WP p Q L -> BP (low p) (fun r L' B' => Q r L' /\ B' = B) L B.
Proof.
  intros H. unfold BP, low, toks. pose proof (wp_lift _ _ _ _ _ layered p Q L H) as Hp.
  eapply wp_mono; [|eapply wp_frame; exact Hp]. intros r u (t' & -> & L' & -> & HQ). by exists L', B.
Qed.

Lemma bp_low_keeps {R} (p : prog (world irc_mem) answer R) L B : keeps L p -> BP (low p) (same L B) L B.
Proof. intros H. eapply bp_mono; [|by apply bp_low]. by intros r L' B' [-> ->]. Qed.

(** *** bot_life_mutex *)

(** A thread that has bot_life_mutex, the notes [l], and knows the bots [K]. *)
Definition held (l : list (nat * nat * bool)) : list stok := [TUser (u_life l)].

Definition HP {R} (p : P R) (Q : R -> list (nat * nat * bool) -> gmap nat bot_part -> Prop) l K Br : Prop :=
  BP p (fun r L' B' => exists l' K', L' = held l' /\ B' = BLife K' :: Br /\ Q r l' K') (held l) (BLife K :: Br).

Lemma hp_ret {R} (r : R) (Q : R -> _ -> _ -> Prop) l K Br : Q r l K -> HP (Ret r) Q l K Br.
Proof. intros H. apply bp_ret. by exists l, K. Qed.

Lemma hp_mono {R} (p : P R) (Q Q' : R -> _ -> _ -> Prop) l K Br :
  (forall r l' K', Q r l' K' -> Q' r l' K') -> HP p Q l K Br -> HP p Q' l K Br.
Proof. intros HQ. apply bp_mono. intros r L' B' (l' & K' & -> & -> & H). exists l', K'. auto. Qed.

Lemma hp_seq {R R'} (p : P R) (f : R -> P R') (Q : R' -> _ -> _ -> Prop) Q' l K Br :
  HP p Q' l K Br -> (forall r l' K', Q' r l' K' -> HP (f r) Q l' K' Br) -> HP (p ≫= f) Q l K Br.
Proof. intros H1 H2. eapply bp_seq; [exact H1|]. intros r L' B' (l' & K' & -> & -> & H). by apply H2. Qed.

(** A step that only says something. *)
Definition told {R} (S : R -> Prop) (l : list (nat * nat * bool)) (K : gmap nat bot_part) : R -> _ -> _ -> Prop :=
  fun r l' K' => S r /\ l' = l /\ K' = K.

Lemma hp_told {R R'} (p : P R) (f : R -> P R') (Q : R' -> _ -> _ -> Prop) S l K Br :
  HP p (told S l K) l K Br -> (forall r, S r -> HP (f r) Q l K Br) -> HP (p ≫= f) Q l K Br.
Proof. intros H1 H2. eapply hp_seq; [exact H1|]. intros r l' K' (HS & -> & ->). by apply H2. Qed.

(** It may have more in its hands. *)
Lemma hp_frame {R} (p : P R) (Q : R -> _ -> _ -> Prop) l K Br L : HP p Q l K Br ->
  BP p (fun r L' B' => exists l' K', L' = L ++ held l' /\ B' = BLife K' :: Br /\ Q r l' K') (L ++ held l) (BLife K :: Br).
Proof.
  intros H. eapply (wp_perm inv2 inv2_perm).
  3: { eapply wp_mono; [|apply wp_frame; exact H]. intros r u (t & -> & L' & B' & Ht & l' & K' & -> & -> & HQ).
       exists (L ++ held l'), (BLife K' :: Br). split; [|by exists l', K'].
       rewrite Ht. instantiate (1 := map inl L). unfold toks. rewrite map_app. solve_Permutation. }
  - intros r u u' Hu (L1 & B1 & Hp & HQ). exists L1, B1. by rewrite <- Hu.
  - unfold toks. rewrite map_app. solve_Permutation.
Qed.

(** What the environment says. *)
Lemma bp_answer {A} (f : answer -> A) L B : BP (act (fun a w => Ok (w, f a))) (same L B) L B.
Proof. apply wp_act. intros a w R H. exists (toks L B). split; [by exists L, B|done]. Qed.

Lemma hp_answer {A} (f : answer -> A) l K Br : HP (act (fun a w => Ok (w, f a))) (told (fun _ => True) l K) l K Br.
Proof. eapply bp_mono; [|apply bp_answer]. intros r L' B' [-> ->]. by exists l, K. Qed.

Lemma hp_low {R} (p : prog (world irc_mem) answer R) l K Br :
  keeps (held l) p -> HP (low p) (told (fun _ => True) l K) l K Br.
Proof. intros H. eapply bp_mono; [|by apply bp_low]. intros r L' B' [-> ->]. by exists l, K. Qed.

(** *** A bot that is known *)

Lemma put_back k b x : get_bot b k = Some x -> put_bot b x k = k.
Proof. intros E%get_bot_in. unfold put_bot. rewrite list_insert_id by done. by destruct k. Qed.

Lemma mk_bot_eta x : mk_bot (b_part x) (b_refs x) (b_dying x) = x.
Proof. by destruct x. Qed.

Lemma hp_rdb {A} b (f : bot_part -> A) p l K Br : K !! b = Some p -> HP (rdb b f) (told (fun r => r = f p) l K) l K Br.
Proof.
  intros Hb. apply bp_bots. intros _ k T Hk. cbn [app] in Hk.
  destruct (known _ _ _ _ _ _ Hk Hb) as (_ & x & E & Ep & _). rewrite E. cbn [fst snd]. rewrite (put_back _ _ _ E).
  exists (held l), (BLife K :: Br). split_and!; [exists l, K; by subst p|done|done].
Qed.

(** The writes of a lifecycle operation, and the references they move between a bot's
    bindings and its hands. *)
Lemma bp_wrb b f p L L' K Br :
  K !! b = Some p -> same_driver p (f p) -> part_tok (f p) ++ L' ≡ₚ part_tok p ++ L ->
  BP (wrb b f) (fun _ L1 B1 => L1 = L' /\ B1 = BLife (<[b := f p]> K) :: Br) L (BLife K :: Br).
Proof.
  intros Hb Hs Hp. apply bp_bots. intros _ k T Hk. cbn [app] in Hk.
  destruct (known _ _ _ _ _ _ Hk Hb) as (_ & x & E & Ep & _). rewrite E. subst p. cbn [fst snd].
  exists L', (BLife (<[b := f (b_part x)]> K) :: Br). split_and!; [done..|by apply (step_write _ k K (Br ++ T) b (b_part x) x (f (b_part x)))|].
  apply trade. pose proof (bot_put_own k b x (mk_bot (f (b_part x)) (b_refs x) (b_dying x)) E) as Ho. cbn [b_part] in Ho.
  apply (Permutation_app_inv_l (part_tok (f (b_part x)))). transitivity (part_tok (b_part x) ++ L ++ bot_own (put_bot b (mk_bot (f (b_part x)) (b_refs x) (b_dying x)) k)).
  - rewrite (Permutation_app_comm L (bot_own k)), app_assoc, Ho. solve_Permutation.
  - rewrite !app_assoc, Hp. done.
Qed.

Lemma hp_wrb b f p l K Br : K !! b = Some p -> same_driver p (f p) -> insts_of (f p) = insts_of p ->
  HP (wrb b f) (told (fun _ => True) l (<[b := f p]> K)) l K Br.
Proof.
  intros Hb Hs Hi. eapply bp_mono; [|apply (bp_wrb b f p (held l) (held l) K Br Hb Hs)].
  - intros r L' B' [-> ->]. by exists l, (<[b := f p]> K).
  - unfold part_tok. by rewrite Hi.
Qed.

Lemma hp_call b d f p l K Br : K !! b = Some p -> p_driver p = Some d ->
  HP (call d f (p_handle p)) (told (fun _ => True) l K) l K Br.
Proof.
  intros Hb Ed. apply bp_bots. intros a k T Hk. cbn [app] in Hk.
  destruct (known _ _ _ _ _ _ Hk Hb) as (_ & x & E & Ep & _). subst p. destruct (alive_ok _ _ _ _ _ Hk E) as [_ HP].
  destruct (po_driver _ _ _ HP d Ed) as [v Ev]. rewrite Ev.
  assert (G : forall r : bool, exists L' B', (exists l' K', L' = held l' /\ B' = BLife K' :: Br /\ told (fun _ : bool => True) l K r l' K') /\
    binv k (B' ++ T) /\ forall w R, world_inv w ((held l ++ bot_own k) ++ R) -> world_inv w ((L' ++ bot_own k) ++ R)).
  { intros r. exists (held l), (BLife K :: Br). split_and!; [by exists l, K|done|done]. }
  destruct (f v); cbn [negb]; [|apply G]. destruct (p_handle (b_part x)) as [h|] eqn:Eh; [|apply G].
  pose proof (po_handle _ _ _ HP h Eh) as Hh. unfold handle_of in Hh. rewrite Hh. apply G.
Qed.

Lemma own_has k b x i m j : get_bot b k = Some x -> p_methods (b_part x) !! i = Some m -> bm_inst m = Some j ->
  exists F, bot_own k ≡ₚ TUser (u_inst j) :: F.
Proof.
  intros E Hm Hj. apply elem_of_Permutation. apply elem_of_app. right. apply list_elem_of_In, in_flat_map.
  exists (Some x). split; [by eapply list_elem_of_In, list_elem_of_lookup_2, get_bot_in|]. apply list_elem_of_In. cbn [own_bot].
  unfold part_tok. apply list_elem_of_fmap. exists j. split; [done|]. apply list_elem_of_omap. exists m.
  split; [by eapply list_elem_of_lookup_2|done].
Qed.

(** An action on an instance with the reference that a binding has. *)
Lemma hp_borrow {A} (f : answer -> world irc_mem -> outcome (world irc_mem * A)) b p i m j l K Br :
  K !! b = Some p -> p_methods p !! i = Some m -> bm_inst m = Some j ->
  keeps (TUser (u_inst j) :: held l) (act f) -> HP (low (act f)) (told (fun _ => True) l K) l K Br.
Proof.
  intros Hb Hm Hj Hk. unfold low. cbn [act lift]. intros a w R [Hw Hi]. rewrite bts_app, bts_toks in Hi. cbn [app] in Hi.
  destruct (known _ _ _ _ _ _ Hi Hb) as (_ & x & E & Ep & _). subst p.
  destruct (own_has (bw_bots w) b x i m j E Hm Hj) as [F HF].
  rewrite lows_app, lows_toks in Hw. specialize (Hk a (bw_low w) (lows R ++ F)). unfold lift_act.
  destruct (f a (bw_low w)) as [[w' r]| |]; [|done|].
  2: { apply Hk. eapply world_inv_perm; [|exact Hw]. rewrite HF. solve_Permutation. }
  destruct Hk as (t' & Ht & Hw'); [eapply world_inv_perm; [|exact Hw]; rewrite HF; solve_Permutation|]. cbn [wp] in Ht. subst t'.
  exists (toks (held l) (BLife K :: Br)). split.
  { exists (held l), (BLife K :: Br). split; [done|]. by exists l, K. }
  split; cbn [bw_low bw_bots]; [|by rewrite bts_app, bts_toks]. rewrite lows_app, lows_toks.
  eapply world_inv_perm; [|exact Hw']. rewrite HF. solve_Permutation.
Qed.

(** *** Bindings *)

Lemma hp_rd_bm {A} b i (f : bot_method_t -> A) p m l K Br : K !! b = Some p -> p_methods p !! i = Some m ->
  HP (rd_bm b i f) (told (fun r => r = f m) l K) l K Br.
Proof.
  intros Hb Hm. apply bp_bots. intros _ k T Hk. cbn [app] in Hk.
  destruct (known _ _ _ _ _ _ Hk Hb) as (_ & x & E & Ep & _). rewrite E, Ep, Hm.
  exists (held l), (BLife K :: Br). split_and!; [by exists l, K|done|done].
Qed.

Lemma insts_alter (f : bot_method_t -> bot_method_t) i p m :
  p_methods p !! i = Some m -> bm_inst (f m) = bm_inst m -> insts_of (with_methods (alter f i (p_methods p)) p) = insts_of p.
Proof.
  intros Hm Hf. unfold insts_of. cbn [with_methods p_methods]. rewrite (alter_at _ _ _ m Hm). rewrite <- (take_drop_middle _ _ _ Hm) at 3.
  unfold omap. rewrite !omap_app. cbn [omap list_omap]. by rewrite Hf.
Qed.

Lemma hp_wr_bm b i f p m l K Br : K !! b = Some p -> p_methods p !! i = Some m -> bm_inst (f m) = bm_inst m ->
  HP (wr_bm b i f) (told (fun _ => True) l (<[b := with_methods (alter f i (p_methods p)) p]> K)) l K Br.
Proof.
  intros Hb Hm Hf. apply (hp_wrb b (fun p => with_methods (alter f i (p_methods p)) p) p); [done|done|by eapply insts_alter].
Qed.

(** An instance enters an empty binding, and leaves one. *)
Lemma tok_set_inst i p m o : p_methods p !! i = Some m -> bm_inst m = None ->
  part_tok (with_methods (alter (with_bm_inst o) i (p_methods p)) p) ≡ₚ found_tok (part_tok p) o.
Proof.
  intros Hm Hn. unfold part_tok, insts_of. cbn [with_methods p_methods]. rewrite (alter_at _ _ _ m Hm). rewrite <- (take_drop_middle _ _ _ Hm) at 3.
  unfold omap. rewrite !omap_app. cbn [omap list_omap]. rewrite Hn. cbn [with_bm_inst bm_inst].
  destruct o as [j|]; [|done]. cbn [found_tok]. rewrite !map_app. cbn [map]. by rewrite <- Permutation_middle.
Qed.

Lemma tok_take_inst i p m : p_methods p !! i = Some m ->
  found_tok (part_tok (with_methods (alter (with_bm_inst None) i (p_methods p)) p)) (bm_inst m) ≡ₚ part_tok p.
Proof.
  intros Hm. set (p' := with_methods _ p).
  pose proof (tok_set_inst i p' (with_bm_inst None m) (bm_inst m)) as H. cbn [p' with_methods p_methods] in H.
  rewrite list_lookup_alter_eq, Hm in H. specialize (H eq_refl eq_refl). rewrite <- H.
  rewrite list_alter_alter_eq, (alter_same _ _ _ m); [by destruct p|done|by destruct m].
Qed.

Lemma with_same_methods p : with_methods (p_methods p) p = p.
Proof. by destruct p. Qed.

(** What is known of a bot whose bindings are [ms], but that its [i]-th is changed. *)
Definition bind_at (K : gmap nat bot_part) (b : nat) (p : bot_part) (ms : list bot_method_t) : gmap nat bot_part :=
  <[b := with_methods ms p]> K.

Lemma bind_known K b p ms : bind_at K b p ms !! b = Some (with_methods ms p).
Proof. apply lookup_insert_eq. Qed.

Lemma bind_bind K b p ms ms' : bind_at (bind_at K b p ms) b (with_methods ms p) ms' = bind_at K b p ms'.
Proof. unfold bind_at. by rewrite insert_insert_eq. Qed.

Lemma bind_id K b p : K !! b = Some p -> bind_at K b p (p_methods p) = K.
Proof. intros H. unfold bind_at. rewrite with_same_methods. by apply insert_id. Qed.

Lemma hp_rdb_at {A} b (f : bot_part -> A) p ms l K Br :
  HP (rdb b f) (told (fun r => r = f (with_methods ms p)) l (bind_at K b p ms)) l (bind_at K b p ms) Br.
Proof. apply hp_rdb, bind_known. Qed.

Lemma hp_rd_at {A} b i (f : bot_method_t -> A) p ms m l K Br : ms !! i = Some m ->
  HP (rd_bm b i f) (told (fun r => r = f m) l (bind_at K b p ms)) l (bind_at K b p ms) Br.
Proof. intros Hm. by eapply hp_rd_bm; [apply bind_known|]. Qed.

Lemma hp_wr_at b i f p ms m l K Br : ms !! i = Some m -> bm_inst (f m) = bm_inst m ->
  HP (wr_bm b i f) (told (fun _ => True) l (bind_at K b p (alter f i ms))) l (bind_at K b p ms) Br.
Proof.
  intros Hm Hf. rewrite <- (bind_bind K b p ms). eapply hp_wr_bm; [apply bind_known|exact Hm|exact Hf].
Qed.

Lemma hp_unsubscribe b i p m j name l K Br : K !! b = Some p -> p_methods p !! i = Some m -> bm_inst m = Some j ->
  HP (low (method_unsubscribe j name)) (told (fun _ => True) l K) l K Br.
Proof.
  intros Hb Hm Hj. pose proof (unsubscribe_keeps (TUser (u_inst j) :: held l) j name ltac:(by left)) as Hk.
  destruct name as [|c name]; [by apply hp_ret|]. by eapply hp_borrow.
Qed.

Lemma hp_subscribe b i p m j name id l K Br : K !! b = Some p -> p_methods p !! i = Some m -> bm_inst m = Some j ->
  HP (low (method_subscribe j name id)) (told (fun _ => True) l K) l K Br.
Proof.
  intros Hb Hm Hj. pose proof (subscribe_keeps (TUser (u_inst j) :: held l) j name id ltac:(by left)) as Hk.
  destruct name as [|c name]; [by apply hp_ret|]. by eapply hp_borrow.
Qed.

Lemma hp_unregister name reason l K Br :
  HP (low (method_unregister name reason)) (fun _ l' K' => K' = K) l K Br.
Proof.
  eapply bp_mono; [|apply bp_low, inst_unregister_ok]. intros r L' B' [(l' & ->) ->]. by exists l', K.
Qed.

(** The binding's reference to its instance is given back. *)
Lemma hp_take_release b i p ms m l K Br : ms !! i = Some m ->
  HP (old ← take_bm_inst b i; match old with Some j => low (method_release j) | None => skip end)
    (told (fun _ => True) l (bind_at K b p (alter (with_bm_inst None) i ms))) l (bind_at K b p ms) Br.
Proof.
  intros Hm. set (p0 := with_methods ms p). set (p' := with_methods (alter (with_bm_inst None) i ms) p).
  apply bp_seq with (Q' := fun old L' B' => old = bm_inst m /\ L' = found_tok (held l) old /\ B' = BLife (bind_at K b p (alter (with_bm_inst None) i ms)) :: Br).
  2: { intros old L' B' (-> & -> & ->). destruct (bm_inst m) as [j|]; [|by apply hp_ret].
       eapply bp_mono; [|apply bp_low, method_release_ok]. intros r L' B' [-> ->]. by eexists _, _. }
  apply bp_bots. intros _ k T Hk. cbn [app] in Hk. assert (Hb := bind_known K b p ms).
  destruct (known _ _ _ _ _ _ Hk Hb) as (_ & x & E & Ep & _). rewrite E. cbn [fst snd].
  assert (Em : p_methods (b_part x) !! i = Some m) by (by rewrite Ep). rewrite Em.
  exists (found_tok (held l) (bm_inst m)), (BLife (bind_at K b p (alter (with_bm_inst None) i ms)) :: Br). split_and!; [done..| |].
  - cbn [app]. rewrite Ep. change (with_methods (alter (with_bm_inst None) i (p_methods p0)) p0) with p'.
    pose proof (step_write _ k _ _ b p0 x p' Hk Hb E ltac:(done)) as H. unfold bind_at in H. by rewrite insert_insert_eq in H.
  - apply trade. pose proof (bot_put_own k b x (mk_bot (with_methods (alter (with_bm_inst None) i (p_methods (b_part x))) (b_part x)) (b_refs x) (b_dying x)) E) as Ho.
    cbn [b_part] in Ho. pose proof (tok_take_inst i _ m Em) as Ht. rewrite <- Ht in Ho.
    destruct (bm_inst m) as [j|]; cbn [found_tok] in *.
    + apply (Permutation_app_inv_l (part_tok (with_methods (alter (with_bm_inst None) i (p_methods (b_part x))) (b_part x)))).
      rewrite (Permutation_app_comm (held l)), app_assoc, Ho. solve_Permutation.
    + apply Permutation_app_inv_l in Ho. by rewrite Ho.
Qed.

Lemma hp_methods_down b n : forall i p ms l K Br, Forall bm_sane ms -> (i + n <= length ms)%nat ->
  HP (bot_methods_down b i n) (fun _ l' K' => K' = bind_at K b p (downs i n ms)) l (bind_at K b p ms) Br.
Proof.
  induction n as [|n IH]; intros i p ms l K Br Hs Hi.
  { apply hp_ret. unfold downs. rewrite take_0, Nat.add_0_r. cbn [map app]. by rewrite take_drop. }
  destruct (lookup_lt_is_Some_2 ms i ltac:(lia)) as [m Em]. cbn [bot_methods_down].
  eapply hp_told; [by eapply hp_rd_at|]. intros m' ->. cbn [id].
  set (m1 := with_subscribed false m). set (ms1 := alter (with_subscribed false) i ms).
  assert (Em1 : ms1 !! i = Some m1) by (subst ms1; by rewrite list_lookup_alter_eq, Em).
  assert (Hsub : bm_subscribed m = false -> ms1 = ms) by (intros Hf; apply (alter_same _ _ _ m Em); destruct m; cbn in *; by subst).
  eapply hp_seq with (Q' := told (fun _ => True) l (bind_at K b p ms1)).
  { destruct (bm_inst m) as [j|] eqn:Ej.
    - destruct (bm_subscribed m) eqn:Esub; cbn [when]; [|apply hp_ret; split_and!; [done..|by rewrite Hsub]].
      eapply hp_told; [apply hp_rdb_at|]. intros name _.
      eapply hp_told; [eapply hp_unsubscribe; [apply bind_known|exact Em|exact Ej]|]. intros _ _. by eapply hp_wr_at.
    - apply hp_ret. split_and!; [done..|]. rewrite Hsub; [done|].
      by apply (Forall_lookup_1 _ _ _ _ Hs Em). }
  intros _ l1 K1 (_ & -> & ->). eapply hp_told; [by eapply hp_rd_at|]. intros c ->.
  set (m2 := with_created false m1). set (ms2 := alter (with_created false) i ms1).
  assert (Em2 : ms2 !! i = Some m2) by (subst ms2; by rewrite list_lookup_alter_eq, Em1).
  eapply hp_seq with (Q' := fun _ l' K' => K' = bind_at K b p ms2).
  { destruct (bm_created m1) eqn:Ec; cbn [when].
    - eapply hp_told; [apply hp_answer|]. intros reason _.
      eapply hp_seq; [apply hp_unregister|]. intros _ l' K' ->.
      eapply hp_mono; [|by eapply hp_wr_at]. by intros _ l'' K' (_ & _ & ->).
    - apply hp_ret. unfold ms2. rewrite (alter_same _ _ _ m1); [done|done|]. destruct m; cbn in *; by subst. }
  intros _ l' K1 ->.
  apply prog_assoc. eapply hp_seq; [by eapply hp_take_release|]. intros _ l1 K1 (_ & -> & ->).
  replace (alter (with_bm_inst None) i ms2) with (alter down_bm i ms).
  2: { subst ms2 ms1. rewrite !list_alter_alter_eq. by apply list_alter_ext. }
  eapply hp_mono; [|apply IH; rewrite ?length_alter; [|lia]].
  - intros _ l'' K' ->. f_equal. apply downs_step. lia.
  - by apply Forall_alter.
Qed.

Lemma hp_methods_down_all b p ms l K Br : Forall bm_sane ms ->
  HP (bot_methods_down_all b) (fun _ l' K' => K' = bind_at K b p (map down_bm ms)) l (bind_at K b p ms) Br.
Proof.
  intros Hs. eapply hp_told; [apply hp_rdb_at|]. intros n ->. cbn [with_methods p_methods]. rewrite <- downs_all.
  apply hp_methods_down; [done|lia].
Qed.

(** The created bindings of [ms] are noted, so their instances can be connected. *)
Definition noted (l : list (nat * nat * bool)) (ms : list bot_method_t) : Prop :=
  forall m j, m ∈ ms -> bm_created m = true -> bm_inst m = Some j -> exists i f, (j, i, f) ∈ l.

Lemma noted_le l l' ms : notes_le l l' -> noted l ms -> noted l' ms.
Proof. intros Hl H m j Hm Hc Hj. destruct (H m j Hm Hc Hj) as (i & f & Hn). destruct (Hl _ _ _ Hn) as [f' Hf]. by exists i, f'. Qed.

Lemma noted_down l ms : Forall bm_down ms -> noted l ms.
Proof.
  intros H m j Hm Hc. pose proof (proj1 (List.Forall_forall _ _) H m ltac:(by apply list_elem_of_In)) as (_ & _ & Hd). congruence.
Qed.

(** A resolved instance: in the thread's hand, and noted if it was made for the binding. *)
Definition resolved b p ms i K Br : option nat -> list stok -> list btok -> list (nat * nat * bool) -> Prop :=
  fun mi L' B' l => exists l' c, L' = found_tok (held l') mi /\ B' = BLife (bind_at K b p (alter (with_created c) i ms)) :: Br /\
    notes_le l l' /\ (c = true -> exists j i' f, mi = Some j /\ (j, i', f) ∈ l').

Lemma bp_resolve b p ms i m l K Br : ms !! i = Some m -> bm_created m = false ->
  BP (bot_resolve b i) (fun mi L' B' => resolved b p ms i K Br mi L' B' l) (held l) (BLife (bind_at K b p ms) :: Br).
Proof.
  intros Em Hc. assert (E : alter (with_created false) i ms = ms) by (apply (alter_same _ _ _ m Em); destruct m; cbn in *; by subst).
  eapply bp_seq; [by eapply (hp_rd_at b i id)|]. intros m' L' B' (l1 & K1 & -> & -> & -> & -> & ->). cbn [id].
  eapply bp_seq; [apply bp_low, find_ok|]. intros mi L' B' [-> ->].
  assert (Hplain : resolved b p ms i K Br mi (found_tok (held l) mi) (BLife (bind_at K b p ms) :: Br) l).
  { exists l, false. rewrite E. split_and!; try done. apply notes_le_refl. }
  destruct mi as [j|]; [by apply bp_ret|]. destruct (bm_kind m) as [|c kind]; [by apply bp_ret|]. cbn [found_tok].
  eapply bp_then; [apply bp_answer|]. intros [|]; [|by apply bp_ret].
  eapply bp_seq; [apply bp_low, register_ok|]. intros [j|] L' B' [Hr ->]; [|subst L'; by apply bp_ret].
  destruct Hr as (i' & ->).
  eapply bp_seq; [exact (hp_frame _ _ _ _ _ [TUser (u_inst j)] (hp_wr_at b i (with_created true) p ms m _ K Br Em eq_refl))|].
  intros _ L' B' (l1 & K1 & -> & -> & _ & -> & ->). apply bp_ret. exists ((j, i', false) :: l), true.
  split_and!; [done|done|apply notes_le_cons|]. intros _. exists j, i', false. split; [done|by left].
Qed.

Lemma bp_set_inst b p ms i m mi l K Br : ms !! i = Some m -> bm_inst m = None ->
  BP (wr_bm b i (with_bm_inst mi)) (fun _ L' B' => L' = held l /\ B' = BLife (bind_at K b p (alter (with_bm_inst mi) i ms)) :: Br)
    (found_tok (held l) mi) (BLife (bind_at K b p ms) :: Br).
Proof.
  intros Em Hn. rewrite <- (bind_bind K b p ms). set (q := with_methods ms p).
  apply (bp_wrb b (fun p => with_methods (alter (with_bm_inst mi) i (p_methods p)) p) q); [apply bind_known|done|].
  cbn beta. rewrite (tok_set_inst i q m mi Em Hn). destruct mi as [j|]; [|done]. cbn [found_tok]. solve_Permutation.
Qed.

(** The bindings before [i] are up, the others down. *)
Record half_up (l : list (nat * nat * bool)) (i : nat) (ms : list bot_method_t) : Prop := {
  hu_up : Forall bm_up (take i ms);
  hu_noted : noted l (take i ms);
  hu_down : Forall bm_down (drop i ms)
}.

Lemma half_at l i ms m : half_up l i ms -> ms !! i = Some m -> bm_down m /\ Forall bm_down (drop (S i) ms).
Proof. intros [_ _ H] Hm. rewrite (drop_S ms m i Hm) in H. by apply List.Forall_cons_iff in H. Qed.

(** One that could not be bound takes the others down. *)
Lemma hp_give_up b p ms f i m l l0 K Br : half_up l0 i ms -> ms !! i = Some m -> bm_sane (f m) ->
  HP (bot_methods_down b 0 (S i)) (fun _ l' K' => exists ms', K' = bind_at K b p ms' /\ length ms' = length ms /\ Forall bm_down ms') l (bind_at K b p (alter f i ms)) Br.
Proof.
  intros Hh Em Hf. destruct (half_at _ _ _ _ Hh Em) as [_ Hd]. destruct (alter_split f ms i m Em) as [Et Ed].
  apply lookup_lt_Some in Em as Hlt. eapply hp_mono; [|apply hp_methods_down; [|rewrite length_alter; lia]].
  - intros _ l' K' ->. exists (downs 0 (S i) (alter f i ms)). split; [done|].
    split; [rewrite downs_length; rewrite length_alter; [done|lia]|]. apply downs_up; [rewrite length_alter; lia|]. by rewrite Ed.
  - rewrite <- (take_drop (S i) (alter f i ms)), Et, Ed. apply Forall_app. split; [apply Forall_app; split|].
    + eapply List.Forall_impl; [exact up_sane|apply Hh].
    + by constructor.
    + eapply List.Forall_impl; [exact down_sane|exact Hd].
Qed.

Definition up_or_down (n b : nat) (p : bot_part) (K : gmap nat bot_part) : bool -> list (nat * nat * bool) -> gmap nat bot_part -> Prop :=
  fun r l' K' => exists ms', K' = bind_at K b p ms' /\ length ms' = n /\ if r then Forall bm_up ms' /\ noted l' ms' else Forall bm_down ms'.

Lemma hp_methods_up b n : forall i p ms l K Br, (i + n = length ms)%nat -> half_up l i ms ->
  HP (bot_methods_up b i n) (up_or_down (length ms) b p K) l (bind_at K b p ms) Br.
Proof.
  induction n as [|n IH]; intros i p ms l K Br Hi Hh.
  { apply hp_ret. exists ms. split; [done|]. split; [done|]. destruct Hh as [H1 H2 _]. by rewrite take_ge in H1, H2 by lia. }
  destruct (lookup_lt_is_Some_2 ms i ltac:(lia)) as [m Em]. destruct (half_at _ _ _ _ Hh Em) as [(D1 & D2 & D3) Hd].
  cbn [bot_methods_up]. eapply bp_seq; [by eapply bp_resolve|]. intros mi L B (l1 & c & -> & -> & Hle & Hc).
  eapply bp_seq; [eapply bp_set_inst; [by rewrite list_lookup_alter_eq, Em|done]|]. intros _ L B [-> ->].
  rewrite list_alter_alter_eq.
  assert (Hdown : forall f, bm_sane (f m) -> HP (_ ← bot_methods_down b 0 (S i); Ret false) (up_or_down (length ms) b p K) l1 (bind_at K b p (alter f i ms)) Br).
  { intros f Hf. eapply hp_seq; [by eapply hp_give_up|]. intros _ l2 K2 (ms' & -> & Hms). apply hp_ret. by exists ms'. }
  destruct mi as [j|]; [|apply Hdown; by intros _].
  eapply hp_told; [apply hp_rdb_at|]. intros who _.
  eapply hp_told; [eapply hp_subscribe; [apply bind_known|by cbn [with_methods p_methods]; rewrite list_lookup_alter_eq, Em|done]|].
  intros [|] _; cbn [negb]; [|apply Hdown; by intros].
  eapply hp_seq; [eapply hp_wr_at; [by rewrite list_lookup_alter_eq, Em|done]|]. intros _ l2 K2 (_ & -> & ->).
  rewrite list_alter_alter_eq. set (f := compose (with_subscribed true) _). destruct (alter_split f ms i m Em) as [Et Ed].
  rewrite <- (length_alter f ms i). apply IH; [rewrite length_alter; lia|]. split; rewrite ?Et, ?Ed; [| |done].
  - apply Forall_app. split; [apply Hh|]. repeat constructor. by exists j.
  - intros m' j' [Hm|Hm]%elem_of_app Hcr Hj; [by apply (noted_le _ _ _ Hle (hu_noted _ _ _ Hh) m' j')|].
    apply list_elem_of_singleton in Hm as ->. cbn in Hcr, Hj. injection Hj as <-. destruct (Hc Hcr) as (j0 & i0 & f0 & [= <-] & Hn). by exists i0, f0.
Qed.

(** *** Starting and stopping *)

Lemma hp_connect_created b n : forall i p ms l K Br, (i + n <= length ms)%nat -> noted l ms ->
  HP (bot_connect_created b i n) (fun _ l' K' => K' = bind_at K b p ms) l (bind_at K b p ms) Br.
Proof.
  induction n as [|n IH]; intros i p ms l K Br Hi Hn; [by apply hp_ret|].
  destruct (lookup_lt_is_Some_2 ms i ltac:(lia)) as [m Em]. cbn [bot_connect_created].
  eapply hp_told; [by eapply hp_rd_at|]. intros m' ->. cbn [id].
  eapply hp_seq with (Q' := fun _ l' K' => notes_le l l' /\ K' = bind_at K b p ms).
  - destruct (bm_created m) eqn:Ec; [|apply hp_ret; split; [apply notes_le_refl|done]].
    destruct (bm_inst m) as [j|] eqn:Ej; [|apply hp_ret; split; [apply notes_le_refl|done]]. cbn [when].
    destruct (Hn m j ltac:(by eapply list_elem_of_lookup_2) Ec Ej) as (i' & f & Hin).
    eapply hp_seq with (Q' := fun _ l' K' => notes_le l l' /\ K' = bind_at K b p ms); [|intros _ l' K' H; by apply hp_ret].
    eapply bp_mono; [|apply bp_low, (method_connect_ok [] l j i' f Hin)]. intros r L' B' [(l' & -> & Hle) ->].
    by exists l', (bind_at K b p ms).
  - intros _ l' K' [Hle ->]. apply IH; [lia|by eapply noted_le].
Qed.

(** What starting makes of a bot: it runs and every binding is up, or it is as it was, or
    every binding is down. *)
Definition start_result (p : bot_part) (r : bool) (p' : bot_part) : Prop :=
  if r then p_state p = BOT_CREATED /\ exists ms, p' = with_pstate BOT_RUNNING (with_methods ms p) /\ Forall bm_up ms
  else p' = p \/ p_state p = BOT_CREATED /\ exists ms, p' = with_methods ms p /\ Forall bm_down ms.

Lemma start_settled p r p' : settled p -> start_result p r p' -> settled p' /\ same_driver p p'.
Proof.
  unfold settled. destruct r; cbn [start_result].
  - by intros _ (_ & ms & -> & H).
  - intros Hs [->|(E & ms & -> & H)]; [done|]. cbn [with_methods p_state p_methods]. by rewrite E.
Qed.

Definition changed (b : nat) (K : gmap nat bot_part) (S : bot_part -> Prop) (K' : gmap nat bot_part) : Prop :=
  exists p', K' = <[b := p']> K /\ S p'.

Lemma hp_start b p l K Br : K !! b = Some p -> settled p ->
  HP (bot_start_held b) (fun r l' K' => changed b K (start_result p r) K') l K Br.
Proof.
  intros Hb Hs. assert (Hno : HP (Ret false) (fun r l' K' => changed b K (start_result p r) K') l K Br).
  { apply hp_ret. exists p. split; [by rewrite insert_id|by left]. }
  eapply hp_told; [by eapply hp_rdb|]. intros st ->. destruct (decide (p_state p = BOT_CREATED)) as [Ec|Ec].
  2: { by rewrite bool_decide_eq_false_2. }
  rewrite bool_decide_eq_true_2 by done. cbn [negb].
  eapply hp_told; [by eapply hp_rdb|]. intros at_ ->. cbn [fst snd]. destruct (p_driver p) as [d|] eqn:Ed; [|done].
  eapply hp_told; [by eapply hp_rdb|]. intros n ->. rewrite <- (bind_id K b p Hb) at 1.
  eapply hp_seq. { apply (hp_methods_up b (length (p_methods p)) 0 p (p_methods p)); [done|].
    split; [constructor|by intros m j Hm%elem_of_nil|]. rewrite drop_0. unfold settled in Hs. by rewrite Ec in Hs. }
  intros [|] l1 K1 (ms & -> & Elen & Hms); cbn [negb].
  2: { apply hp_ret. exists (with_methods ms p). split; [done|]. right. split; [done|]. by exists ms. }
  destruct Hms as [Hup Hn].
  eapply hp_told; [eapply (hp_call b d dv_start (with_methods ms p)); [apply bind_known|done]|]. intros [|] _; cbn [negb].
  - eapply hp_seq; [apply hp_wrb; [apply bind_known|done..]|]. intros _ l2 K2 (_ & -> & ->).
    unfold bind_at. rewrite insert_insert_eq. set (p' := with_pstate _ _).
    assert (EK : <[b := p']> K = bind_at K b p' ms) by done. rewrite EK.
    eapply hp_seq; [apply hp_connect_created; [lia|done]|]. intros _ l3 K3 ->. apply hp_ret. exists p'. split; [done|].
    split; [done|]. by exists ms.
  - eapply hp_seq; [apply hp_methods_down_all|].
    + eapply List.Forall_impl; [exact up_sane|done].
    + intros _ l2 K2 ->. apply hp_ret. exists (with_methods (map down_bm ms) p). split; [done|]. right. split; [done|].
      eexists. split; [done|]. apply Forall_fmap. by apply Forall_true.
Qed.

(** A bot that was taken down. *)
Definition at_rest (p : bot_part) : bot_part := with_pstate BOT_CREATED (with_methods (map down_bm (p_methods p)) p).

Lemma rest_settled p : settled (at_rest p).
Proof. unfold settled. cbn [at_rest with_pstate with_methods p_state p_methods]. apply Forall_fmap. by apply Forall_true. Qed.

Lemma settled_sane p : settled p -> Forall bm_sane (p_methods p).
Proof.
  unfold settled. destruct (p_state p); [|apply List.Forall_impl, up_sane|done]. apply List.Forall_impl, down_sane.
Qed.

Lemma hp_take_down b p l K Br : K !! b = Some p -> settled p ->
  HP (bot_take_down b) (fun _ l' K' => K' = <[b := at_rest p]> K) l K Br.
Proof.
  intros Hb Hs. eapply hp_seq; [apply hp_wrb; [exact Hb|done..]|]. intros _ l1 K1 (_ & -> & ->).
  set (p1 := with_pstate BOT_STOPPING p). assert (Hb1 : <[b := p1]> K !! b = Some p1) by apply lookup_insert_eq.
  eapply hp_told; [by eapply hp_rdb|]. intros at_ ->. cbn [fst snd].
  eapply hp_seq with (Q' := told (fun _ => True) l (<[b := p1]> K)).
  { destruct (p_driver p1) as [d|] eqn:Ed; [|by apply hp_ret]. eapply hp_told; [by eapply hp_call|]. intros r _. by apply hp_ret. }
  intros _ l1 K1 (_ & -> & ->). rewrite <- (bind_id (<[b := p1]> K) b p1 Hb1) at 1.
  eapply hp_seq; [apply hp_methods_down_all; by apply (settled_sane p)|]. intros _ l2 K2 ->.
  eapply hp_mono; [|apply hp_wrb; [apply bind_known|done..]]. intros _ l3 K3 (_ & _ & ->).
  unfold bind_at. rewrite !insert_insert_eq. done.
Qed.

Lemma hp_stop b p l K Br : K !! b = Some p -> settled p ->
  HP (bot_stop_held b) (fun r l' K' => r = bool_decide (p_state p = BOT_RUNNING) /\ K' = <[b := if r then at_rest p else p]> K) l K Br.
Proof.
  intros Hb Hs. eapply hp_told; [by eapply hp_rdb|]. intros st ->. destruct (decide (p_state p = BOT_RUNNING)) as [Er|Er].
  - rewrite bool_decide_eq_true_2 by done. cbn [negb]. eapply hp_seq; [by apply hp_take_down|]. intros _ l1 K1 ->. by apply hp_ret.
  - rewrite bool_decide_eq_false_2 by done. cbn [negb]. apply hp_ret. by rewrite insert_id.
Qed.

(** *** The driver's state *)

(** A call through a vtable with a state that is the caller's for the call. *)
Lemma bp_call d f h L B :
  (forall k T, binv k (B ++ T) -> valid d k /\ forall h', h = Some h' -> is_Some (handle_of h' k)) ->
  BP (call d f h) (same L B) L B.
Proof.
  intros H. apply bp_bots. intros a k T Hk. destruct (H k T Hk) as [[v Ev] Hh]. rewrite Ev.
  assert (G : forall r : bool, exists L' B', same L B r L' B' /\ binv k (B' ++ T) /\
    forall w R, world_inv w ((L ++ bot_own k) ++ R) -> world_inv w ((L' ++ bot_own k) ++ R)) by (intros r; by exists L, B).
  destruct (f v); cbn [negb]; [|apply G]. destruct h as [h|]; [|apply G].
  destruct (Hh h eq_refl) as [c Ec]. unfold handle_of in Ec. rewrite Ec. apply G.
Qed.

Lemma owe_uses d b h k B T : BOwe d b h ∈ B -> binv k (B ++ T) -> valid d k /\ forall h', h = Some h' -> is_Some (handle_of h' k).
Proof.
  intros Hin H. destruct (owe_fact _ _ _ d b h H ltac:(apply elem_of_app; by left)) as [F1 F2]. split; [done|].
  intros h' Eh. exists b. by apply F2.
Qed.

Lemma ref_uses d b h k B T : BRef b d h ∈ B -> binv k (B ++ T) -> valid d k /\ forall h', h = Some h' -> is_Some (handle_of h' k).
Proof.
  intros Hin H. destruct (bv_facts _ _ _ H (BRef b d h) ltac:(apply elem_of_app; by left)) as [F1 F2]. split; [done|].
  intros h' Eh. exists b. by apply F2.
Qed.

Lemma bp_destroy d b h L Br : BP (call_destroy d h) (same L Br) L (BOwe d b h :: Br).
Proof.
  apply bp_bots. intros a k T Hk. destruct (owe_uses d b h k _ _ ltac:(by left) Hk) as [[v Ev] Hh]. rewrite Ev. cbn [app] in Hk.
  assert (Hf : binv k (Br ++ T)) by (eapply inv_forget; [right; by do 3 eexists|exact Hk]).
  destruct h as [h|]; [|by exists L, Br]. destruct (dv_destroy v); cbn [negb]; [|by exists L, Br].
  destruct (Hh h eq_refl) as [c Ec]. unfold handle_of in Ec. rewrite Ec. exists L, Br.
  split_and!; [done|by eapply step_destroy|]. by apply trade.
Qed.

Lemma bp_teardown d b h stop L Br : BP (bot_driver_teardown d h stop) (same L Br) L (BOwe d b h :: Br).
Proof.
  eapply bp_then; [|intros _; apply bp_destroy]. apply bp_when.
  eapply bp_then; [|intros r; by apply bp_ret]. apply bp_call. intros k T. apply (owe_uses d b). by left.
Qed.

Lemma hp_detach b p stop l K Br : K !! b = Some p ->
  HP (bot_driver_detach b stop) (told (fun _ => True) l (<[b := with_attached None None p]> K)) l K Br.
Proof.
  intros Hb. set (K' := <[b := with_attached None None p]> K).
  apply bp_seq with (Q' := fun now L' B' => L' = held l /\ B' = BLife K' :: now_tok b now ++ Br).
  - apply bp_bots. intros _ k T Hk. cbn [app] in Hk. destruct (known _ _ _ _ _ _ Hk Hb) as (_ & x & E & Ep & _). rewrite E.
    exists (held l), (BLife K' :: now_tok b (detach_now x) ++ Br).
    assert (EQ : (match p_driver (b_part x) with
      | None => (mk_bot (with_attached None None (b_part x)) (b_refs x) (b_dying x), None)
      | Some d => if b_refs x =? 0 then (mk_bot (with_attached None None (b_part x)) (b_refs x) (b_dying x), Some (d, p_handle (b_part x)))
                  else (mk_bot (with_attached None None (b_part x)) (b_refs x) (Some (d, p_handle (b_part x), stop)), None)
      end) = (detached stop x, detach_now x)).
    { unfold detached, detach_now. destruct (p_driver (b_part x)); [|done]. by destruct (b_refs x =? 0). }
    cbn zeta. rewrite EQ. cbn [fst snd]. split_and!; [done..| |].
    + cbn [app]. rewrite <- app_assoc. by apply step_detach.
    + apply trade. by rewrite (bot_put_same k b x (detached stop x)).
  - intros [[d h]|] L' B' [-> ->]; cbn [now_tok app]; [|by apply hp_ret].
    eapply bp_mono; [|eapply bp_perm; [reflexivity|apply perm_swap|apply (bp_teardown d b h)]].
    intros r L' B' [-> ->]. by exists l, K'.
Qed.

(** *** Deliveries *)

Lemma bp_free b u L Br : may_free b u -> (forall p, u = BNew b p -> p_methods p = []) -> BP (free_bot b) (same L Br) L (u :: Br).
Proof.
  intros Hu Hm. apply bp_bots. intros _ k T Hk. cbn [app] in Hk. destruct (step_free _ k _ b u Hk Hu) as (x & E & H1 & H2 & H3). rewrite E.
  exists L, Br. split_and!; [done..|]. apply trade. f_equiv. unfold bot_own. change (free_tok (set_bots _ k)) with (free_tok k). f_equiv.
  cbn [bo_insts set_bots]. apply get_bot_in in E. rewrite <- (take_drop_middle _ _ _ E) at 1.
  rewrite insert_take_drop by (by eapply lookup_lt_Some). rewrite !flat_map_app. cbn [flat_map own_bot].
  assert (EM : p_methods (b_part x) = []). { destruct Hu as [->|[p ->]]; [by apply H1|]. rewrite (H2 p eq_refl). by apply Hm. }
  unfold part_tok, insts_of. by rewrite EM.
Qed.

Lemma bp_release b d h L Br : BP (bot_release b) (same L Br) L (BRef b d h :: Br).
Proof.
  apply bp_seq with (Q' := fun o L' B' => L' = L /\ B' = BLeave b :: owe_tok b o ++ Br).
  { apply bp_bots. intros _ k T Hk. cbn [app] in Hk. destruct (ref_alive _ k _ b Hk) as [x E].
    { rewrite count_cons. cbn [is_ref]. rewrite Nat.eqb_refl. pose proof (count_range (is_ref b) (Br ++ T)). cbn [Z.b2z]. lia. }
    rewrite E. exists L, (BLeave b :: owe_tok b (claimed x) ++ Br).
    assert (EQ : (if b_refs x =? 1 then (mk_bot (b_part x) (b_refs x) None, b_dying x) else (x, None)) =
      (if b_refs x =? 1 then mk_bot (b_part x) (b_refs x) None else x, claimed x)) by (unfold claimed; by destruct (_ =? 1)).
    rewrite EQ. cbn [fst snd]. split_and!; [done..| |].
    - cbn [app]. rewrite <- app_assoc. by eapply step_leave.
    - apply trade. rewrite (bot_put_same k b x); [done|done|]. by case_match. }
  intros o L' B' [-> ->]. apply bp_seq with (Q' := same L (BLeave b :: Br)).
  { destruct o as [[[d' h'] stop]|]; cbn [owe_tok app]; [|by apply bp_ret].
    eapply bp_perm; [reflexivity|apply perm_swap|]. apply (bp_teardown d' b). }
  intros _ L' B' [-> ->]. apply bp_seq with (Q' := fun r L' B' => L' = L /\ B' = (if (r : bool) then [BLast b] else []) ++ Br).
  { apply bp_bots. intros _ k T Hk. cbn [app] in Hk. destruct (ref_alive _ k _ b Hk) as [x E].
    { rewrite count_cons. cbn [is_ref]. rewrite Nat.eqb_refl. pose proof (count_range (is_ref b) (Br ++ T)). cbn [Z.b2z]. lia. }
    rewrite E. cbn zeta. pose proof (step_drop _ k _ b x Hk E) as Hd. cbn zeta in Hd. unfold last_tok in Hd.
    exists L, ((if (b_refs x - 1 =? 0) && p_doomed (b_part x) then [BLast b] else []) ++ Br). split_and!; [done..|rewrite <- app_assoc; exact Hd|]. apply trade.
    transitivity (L ++ bot_own (put_bot b (mk_bot (b_part x) (b_refs x - 1) (b_dying x)) k)); [|by case_match].
    f_equiv. by apply (bot_put_same k b x). }
  intros r L' B' [-> ->]. destruct r; cbn [when app]; [|by apply bp_ret]. apply bp_free; [by left|done].
Qed.

Lemma listed_get k T b : binv k T -> b ∈ bo_list k -> exists x, get_bot b k = Some x.
Proof. intros H Hl. destruct (listed _ _ _ _ H Hl) as (x & E & _). by exists x. Qed.

Lemma find_id_ok id k T l : binv k T -> l ⊆ bo_list k ->
  match find_id id k l with
  | Ok (Some (b, x, d)) => b ∈ bo_list k /\ get_bot b k = Some x /\ p_driver (b_part x) = Some d
  | Ok None => True
  | _ => False
  end.
Proof.
  intros H. induction l as [|b l IH]; intros Hl; [done|]. cbn [find_id].
  destruct (listed_get k T b H ltac:(apply Hl; by left)) as [x E]. rewrite E.
  assert (Hl' : l ⊆ bo_list k) by (intros y Hy; apply Hl; by right). specialize (IH Hl').
  destruct (p_driver (b_part x)) as [d|] eqn:Ed; [|exact IH]. destruct (_ =? id); [|exact IH].
  split_and!; [apply Hl; by left|done..].
Qed.

Definition acquired (B : list btok) (r : option (nat * nat * option nat)) : list btok :=
  match r with Some (b, d, h) => BRef b d h :: B | None => B end.

Lemma bp_acquire id L B : BP (bot_driver_acquire id) (fun r L' B' => L' = L /\ B' = acquired B r) L B.
Proof.
  apply bp_bots. intros _ k T Hk. pose proof (find_id_ok id k _ (bo_list k) Hk ltac:(done)) as Hf.
  destruct (find_id id k (bo_list k)) as [[[[b x] d]|]| |]; try done; [|by exists L, B].
  destruct Hf as (Hl & E & Ed). exists L, (acquired B (Some (b, d, p_handle (b_part x)))). split_and!; [done..|by apply step_acquire|].
  apply trade. f_equiv. by apply (bot_put_same k b x).
Qed.

Lemma bp_on_message n d b h L Br : BP (on_message n d h) (same L (BRef b d h :: Br)) L (BRef b d h :: Br).
Proof.
  induction n as [|n IH]; cbn [on_message]; [by apply bp_ret|]. eapply bp_then; [|intros _; exact IH].
  apply bp_call. intros k T. apply (ref_uses d b). by left.
Qed.

Lemma bp_hook d f L B : (forall k T, binv k (B ++ T) -> valid d k) -> BP (hook d f) (same L B) L B.
Proof. intros H. apply bp_bots. intros a k T Hk. destruct (H k T Hk) as [v Ev]. rewrite Ev. by exists L, B. Qed.

(** A bot that the thread may look at. *)
Lemma bp_rdb {A} b (f : bot_part -> A) L B : (forall k T, binv k (B ++ T) -> exists x, get_bot b k = Some x) ->
  BP (rdb b f) (same L B) L B.
Proof.
  intros H. apply bp_bots. intros a k T Hk. destruct (H k T Hk) as [x E]. rewrite E. cbn [fst snd]. rewrite (put_back _ _ _ E). by exists L, B.
Qed.

Lemma bp_msg_handler id L B : BP (bot_msg_handler id) (same L B) L B.
Proof.
  eapply bp_seq; [apply bp_acquire|]. intros [[[b d] h]|] L' B' [-> ->]; cbn [acquired]; [|by apply bp_ret].
  eapply bp_then. { apply bp_hook. intros k T Hk. by destruct (ref_uses d b h k _ _ ltac:(by left) Hk). }
  intros [|]; cbn [negb]; [|apply bp_release].
  eapply bp_then. { apply bp_rdb. intros k T Hk. cbn [app] in Hk. eapply ref_alive; [exact Hk|].
    rewrite count_cons. cbn [is_ref]. rewrite Nat.eqb_refl. pose proof (count_range (is_ref b) (B ++ T)). cbn [Z.b2z]. lia. }
  intros _. eapply bp_then; [apply bp_answer|]. intros pass. eapply bp_then; [|intros _; apply bp_release].
  apply bp_when. eapply bp_then; [apply bp_answer|]. intros n. apply bp_on_message.
Qed.

Lemma bp_deliver_all ids L B : BP (deliver_all ids) (same L B) L B.
Proof.
  induction ids as [|id ids IH]; cbn [deliver_all]; [by apply bp_ret|]. eapply bp_then; [apply bp_msg_handler|]. intros _. exact IH.
Qed.

Lemma bp_method_release j L B : BP (low (method_release j)) (same L B) (TUser (u_inst j) :: L) B.
Proof. eapply bp_mono; [|apply bp_low, method_release_ok]. intros r L' B' [-> ->]. done. Qed.

Lemma bp_deliver j L B : TUser (u_inst j) ∈ L -> BP (method_deliver j) (same L B) L B.
Proof.
  intros Hj. eapply bp_seq; [by apply bp_low, snapshot_ok|]. intros ids L' B' [-> ->].
  eapply bp_then; [apply bp_deliver_all|]. intros _. apply bp_method_release.
Qed.

(** *** Taking and giving up bot_life_mutex *)

Lemma bp_lock Br : BP life_lock (fun _ L' B' => L' = held [] /\ B' = BLife ∅ :: Br) [] Br.
Proof.
  apply bp_bots. intros a k T Hk. destruct (bo_life k) eqn:El; [done|]. exists (held []), (BLife ∅ :: Br).
  split_and!; [done..|by apply step_lock|]. apply trade. unfold bot_own, free_tok. rewrite El. cbn [bo_life set_life bo_insts app held]. done.
Qed.

Lemma world_forget w l R : world_inv w (TUser (u_life l) :: R) -> world_inv w (TUser (u_life []) :: R).
Proof.
  intros [H1 H2]. split.
  - apply (sock_inv_socks _ (TUser (u_life l) :: R ++ legs_tok (w_sock w) ++ cl_own (w_user w))); [done|exact H1].
  - cbn [users omap list_omap] in *. eapply mem_notes; [exact H2|]. intros _. constructor.
Qed.

Lemma bp_unlock l K Br : all_settled K -> BP life_unlock (same [] Br) (held l) (BLife K :: Br).
Proof.
  intros HK. apply bp_bots. intros a k T Hk. cbn [app] in Hk.
  assert (El : bo_life k = true).
  { pose proof (bv_life _ _ _ Hk) as Hl. rewrite count_cons in Hl. cbn [is_held Z.b2z] in Hl.
    pose proof (count_range is_held (Br ++ T)). destruct (bo_life k); [done|cbn [Z.b2z] in Hl; lia]. }
  exists [], Br. split_and!; [done|by eapply step_unlock|].
  intros w R. unfold bot_own, free_tok. rewrite El. cbn [bo_life set_life bo_insts app held]. apply world_forget.
Qed.

(** *** Finding a bot *)

Lemma find_name_ok name k T l : binv k T -> l ⊆ bo_list k ->
  match find_name name k l with
  | Ok (Some b) => b ∈ bo_list k
  | Ok None => True
  | _ => False
  end.
Proof.
  intros H. induction l as [|b l IH]; intros Hl; [done|]. cbn [find_name].
  destruct (listed_get k T b H ltac:(apply Hl; by left)) as [x E]. rewrite E.
  destruct (strncaseeq _ _ _); [apply Hl; by left|]. apply IH. intros y Hy. apply Hl. by right.
Qed.

(** Whoever has bot_life_mutex knows what it finds. *)
Definition learned (K : gmap nat bot_part) (b : nat) (K' : gmap nat bot_part) : Prop :=
  exists p, K' = <[b := p]> K /\ (K !! b = None -> settled p) /\ forall q, K !! b = Some q -> p = q.

Lemma learned_settled K b K' : all_settled K -> learned K b K' -> all_settled K' /\ exists p, K' !! b = Some p /\ settled p.
Proof.
  intros HK (p & -> & Hn & Hq). assert (Hp : settled p).
  { destruct (K !! b) as [q|] eqn:E; [rewrite (Hq q eq_refl); by eapply HK|by apply Hn]. }
  split; [|exists p; split; [apply lookup_insert_eq|done]].
  intros b' p'. rewrite lookup_insert. case_decide; [by intros [= <-]|apply HK].
Qed.

Lemma learn k K T b : binv k (BLife K :: T) -> b ∈ bo_list k -> exists K', learned K b K' /\ binv k (BLife K' :: T).
Proof.
  intros H Hl. destruct (step_know _ _ _ _ _ H Hl) as (x & _ & H' & Hn & Hq). exists (<[b := b_part x]> K).
  split; [by exists (b_part x)|done].
Qed.

Lemma hp_find name l K Br :
  HP (bot_find name) (fun r l' K' => l' = l /\ match r with Some b => learned K b K' | None => K' = K end) l K Br.
Proof.
  destruct name as [|c name]; [by apply hp_ret|]. cbn [bot_find]. set (n := c :: name). clearbody n.
  apply bp_bots. intros _ k T Hk. cbn [app] in Hk. pose proof (find_name_ok n k _ (bo_list k) Hk ltac:(done)) as Hf.
  destruct (find_name n k (bo_list k)) as [[b|]| |]; try done.
  - destruct (learn _ _ _ _ Hk Hf) as (K' & HL & Hk'). exists (held l), (BLife K' :: Br). split_and!; [by exists l, K'|done|done].
  - exists (held l), (BLife K :: Br). split_and!; [by exists l, K|done|done].
Qed.

(** *** The lifecycle *)

(** What runs under bot_life_mutex, and leaves every bot settled. *)
Definition settles {R} : R -> list (nat * nat * bool) -> gmap nat bot_part -> Prop := fun _ _ K' => all_settled K'.

Lemma bp_locked {R R'} (p : P R) (f : R -> P R') (Q : R' -> list stok -> list btok -> Prop) Br :
  HP p settles [] ∅ Br -> (forall r, BP (f r) Q [] Br) -> BP (_ ← life_lock; r ← p; _ ← life_unlock; f r) Q [] Br.
Proof.
  intros Hp Hf. eapply bp_seq; [apply bp_lock|]. intros _ L B [-> ->].
  eapply bp_seq; [exact Hp|]. intros r L B (l & K & -> & -> & HK).
  eapply bp_seq; [by apply bp_unlock|]. intros _ L B [-> ->]. apply Hf.
Qed.

Lemma settled_update K b p : all_settled K -> settled p -> all_settled (<[b := p]> K).
Proof. intros HK Hp b' p'. rewrite lookup_insert. case_decide; [by intros [= <-]|apply HK]. Qed.

Lemma empty_settled : all_settled ∅.
Proof. intros b p. by rewrite lookup_empty. Qed.

Lemma seen_alive k T B b : BSeen b ∈ B -> binv k (B ++ T) -> exists x, get_bot b k = Some x.
Proof.
  intros Hb Hk. destruct (bv_facts _ _ _ Hk (BSeen b) ltac:(apply elem_of_app; by left)) as [_ Hl]. by eapply listed_get.
Qed.

(** A bot that is there for good may be named after the unlock. *)
Lemma bp_log_name b L B : BSeen b ∈ B -> BP (log_name b) (same L B) L B.
Proof. intros Hb. eapply bp_then; [apply bp_rdb; intros k T; by apply seen_alive|]. intros r. by apply bp_ret. Qed.

(** Before an action a thread may come to know more. *)
Lemma hp_learn {R} (p : P R) Q l K Br :
  acts p -> (forall k T, binv k (BLife K :: Br ++ T) -> exists K', HP p Q l K' Br /\ binv k (BLife K' :: Br ++ T)) ->
  HP p Q l K Br.
Proof.
  intros Ha H. destruct p as [|A f c]; [done|]. intros a w F [Hw Hb]. rewrite bts_app, bts_toks in Hb.
  destruct (H _ _ Hb) as (K' & Hp & Hb'). apply Hp. split; [by rewrite lows_app, lows_toks in *|]. by rewrite bts_app, bts_toks.
Qed.

(** The first look under the mutex at a bot that is there for good. *)
Lemma hp_look {R} (p : P R) b l K Br : acts p -> BSeen b ∈ Br -> all_settled K ->
  (forall K' q, all_settled K' -> K' !! b = Some q -> settled q -> HP p settles l K' Br) -> HP p settles l K Br.
Proof.
  intros Ha Hb HK H. apply hp_learn; [done|]. intros k T Hk.
  destruct (bv_facts _ _ _ Hk (BSeen b) ltac:(set_solver)) as [_ Hl].
  destruct (learn _ _ _ _ Hk Hl) as (K' & HL & Hk'). destruct (learned_settled _ _ _ HK HL) as [HK' (q & Eq & Hq)].
  exists K'. split; [by eapply H|done].
Qed.

Lemma bp_start b L : BP (bot_start b) (same [] (BSeen b :: L)) [] (BSeen b :: L).
Proof.
  apply bp_locked.
  - apply (hp_look _ b); [done|by left|apply empty_settled|]. intros K' q HK Hb Hq.
    eapply hp_mono; [|by apply hp_start]. intros r l' K1 (p' & -> & Hr). apply settled_update; [done|]. by eapply start_settled.
  - intros rc. eapply bp_then; [apply bp_log_name; by left|]. intros _. by apply bp_ret.
Qed.

Lemma bp_stop b L : BP (bot_stop b) (same [] (BSeen b :: L)) [] (BSeen b :: L).
Proof.
  apply bp_locked.
  - apply (hp_look _ b); [done|by left|apply empty_settled|]. intros K' q HK Hb Hq.
    eapply hp_mono; [|by apply hp_stop]. intros r l' K1 (_ & ->). apply settled_update; [done|].
    destruct r; [apply rest_settled|done].
  - intros rc. eapply bp_then; [apply bp_log_name; by left|]. intros _. by apply bp_ret.
Qed.

(** One action that changes what a bot that is known owns, but for its instances. *)
Lemma hp_edit {A} b (f : bot_inst_t -> bot_inst_t * A) p l K Br :
  K !! b = Some p ->
  (forall x, b_part x = p -> exists p', (f x).1 = mk_bot p' (b_refs x) (b_dying x) /\ same_driver p p' /\ insts_of p' = insts_of p /\ (settled p -> settled p')) ->
  HP (on_bot b f) (fun _ l' K' => l' = l /\ changed b K (fun p' => settled p -> settled p') K') l K Br.
Proof.
  intros Hb Hf. apply bp_bots. intros _ k T Hk. cbn [app] in Hk.
  destruct (known _ _ _ _ _ _ Hk Hb) as (_ & x & E & Ep & _). rewrite E.
  destruct (Hf x Ep) as (p' & Ef & Hs & Hi & Hst). rewrite Ef. exists (held l), (BLife (<[b := p']> K) :: Br).
  split_and!; [by exists l, (<[b := p']> K); split_and!; [..|exists p']|by apply (step_write _ k K _ b p x p')|].
  apply trade. f_equiv. apply (bot_put_same k b x); [done|]. cbn [b_part]. by rewrite Hi, Ep.
Qed.

Lemma bp_unbind b name L : BP (bot_unbind_method b name) (same [] (BSeen b :: L)) [] (BSeen b :: L).
Proof.
  destruct name as [|c name]; [by apply bp_ret|]. cbn [bot_unbind_method]. set (n := c :: name). clearbody n.
  apply bp_locked.
  - apply (hp_look _ b); [done|by left|apply empty_settled|]. intros K' q HK Hb Hq.
    eapply hp_mono; [|apply (hp_edit b _ q); [done|]].
    + intros r l' K1 (_ & p' & -> & Hp). apply settled_update; auto.
    + intros x Ex. cbn zeta. rewrite Ex. destruct (decide (p_state q = BOT_CREATED)) as [Ec|Ec].
      2: { rewrite bool_decide_eq_false_2 by done. exists q. cbn [negb fst]. rewrite <- Ex, mk_bot_eta. done. }
      rewrite bool_decide_eq_true_2 by done. cbn [negb fst]. eexists. split; [done|].
      unfold settled in Hq. rewrite Ec in Hq. pose proof (drop_down n (p_methods q) Hq) as D.
      split; [done|]. split; [unfold insts_of; cbn [with_methods p_methods]; by rewrite !downs_none|].
      intros _. unfold settled. cbn [with_methods p_state p_methods]. by rewrite Ec.
  - intros rc. eapply bp_then; [apply bp_log_name; by left|]. intros _. by apply bp_ret.
Qed.

Lemma bp_bind b name kind L : BP (bot_bind_method b name kind) (same [] (BSeen b :: L)) [] (BSeen b :: L).
Proof.
  destruct name as [|c name]; [by apply bp_ret|]. cbn [bot_bind_method]. set (n := c :: name). clearbody n.
  apply bp_locked.
  - apply (hp_look _ b); [done|by left|apply empty_settled|]. intros K' q HK Hb Hq.
    apply bp_bots. intros _ k T Hk. cbn [app] in Hk. destruct (known _ _ _ _ _ _ Hk Hb) as (_ & x & E & Ep & _). rewrite E. cbn zeta.
    destruct (decide (p_state q = BOT_CREATED)) as [Ec|Ec].
    2: { rewrite Ep, bool_decide_eq_false_2 by done. cbn [negb orb]. exists (held []), (BLife K' :: BSeen b :: L). split_and!; [by exists [], K'|done|done]. }
    rewrite Ep, bool_decide_eq_true_2 by done. cbn [negb orb]. destruct (_ || existsb _ _).
    { exists (held []), (BLife K' :: BSeen b :: L). split_and!; [by exists [], K'|done|done]. }
    set (m := mk_bm _ _ None false false). set (q' := with_methods (m :: p_methods q) q).
    exists (held []), (BLife (<[b := q']> K') :: BSeen b :: L). split_and!.
    + exists [], (<[b := q']> K'). split_and!; [done..|]. apply settled_update; [done|]. unfold settled in *.
      cbn [q' with_methods p_state p_methods]. rewrite Ec in *. by constructor.
    + by apply (step_write _ k K' _ b q x q').
    + apply trade. f_equiv. apply (bot_put_same k b x); [done|]. by rewrite Ep.
  - intros rc. eapply bp_then; [apply bp_log_name; by left|]. intros _. by apply bp_ret.
Qed.

(** *** A new bot *)

Lemma bp_call_create d b L B : BVt d ∈ B ->
  BP (call_create d b) (fun r L' B' => L' = L /\ B' = match r with Some h => BOwe d b h :: B | None => B end) L B.
Proof.
  intros Hd. apply bp_bots. intros a k T Hk.
  destruct (bv_facts _ _ _ Hk (BVt d) ltac:(apply elem_of_app; by left)) as [v Ev]. rewrite Ev.
  destruct (dv_create v); cbn [negb].
  - destruct (a_err a =? 0); [|by exists L, B]. eexists L, _. split_and!; [done..|apply step_create; [done|by exists v]|]. by apply trade.
  - eexists L, _. split_and!; [done..|apply inv_inert; [done| |exact Hk]|done]. split; [by exists v|done].
Qed.

Lemma bp_new d name L B : BVt d ∈ B ->
  BP (act (on_bots (fun _ k =>
        let id := wrap 64 (bo_next_id k + 1) in
        Ok (set_next_id id (set_bots (bo_insts k ++ [Some (new_bot d name id)]) k), length (bo_insts k)))))
    (fun b L' B' => L' = L /\ exists id, B' = BNew b (b_part (new_bot d name id)) :: B) L B.
Proof.
  intros Hd. apply bp_bots. intros a k T Hk. assert (Hv := bv_facts _ _ _ Hk (BVt d) ltac:(apply elem_of_app; by left)). cbn zeta.
  set (id := wrap 64 (bo_next_id k + 1)). exists L, (BNew (length (bo_insts k)) (b_part (new_bot d name id)) :: B).
  split_and!; [done|by exists id|by apply step_next_id, step_alloc|]. apply trade. f_equiv. unfold bot_own.
  cbn [bo_insts set_next_id set_bots]. rewrite flat_map_app. cbn [flat_map own_bot]. by rewrite app_nil_r.
Qed.

Lemma bp_attach_new b p d h L B : settled p -> p_doomed p = false -> p_handle p = None ->
  BP (wrb b (with_attached (Some d) h)) (same L (BNew b (with_attached (Some d) h p) :: B)) L (BNew b p :: BOwe d b h :: B).
Proof.
  intros H1 H2 H3. apply bp_bots. intros a k T Hk. cbn [app] in Hk.
  destruct (step_new_part _ k _ b p d h Hk H1 H2 H3) as (x & E & Ep & Hk'). rewrite E, Ep. cbn [fst snd].
  exists L, (BNew b (with_attached (Some d) h p) :: B). split_and!; [done|exact Hk'|].
  apply trade. f_equiv. apply (bot_put_same k b x); [done|]. by rewrite Ep.
Qed.

Lemma bp_create d name B : BVt d ∈ B -> BP (bot_create d name) (same [] B) [] B.
Proof.
  intros Hd. destruct name as [|c name]; [by apply bp_ret|]. cbn [bot_create]. set (n := c :: name). clearbody n.
  eapply bp_seq; [apply bp_lock|]. intros _ L B' [-> ->].
  eapply bp_seq; [apply hp_find|]. intros dup L B' (l & K & -> & -> & -> & HK).
  assert (HS : all_settled K).
  { destruct dup; [by eapply learned_settled; [apply empty_settled|]|subst K; apply empty_settled]. }
  destruct dup as [b|].
  { eapply bp_seq; [by apply bp_unlock|]. intros _ L B' [-> ->]. by apply bp_ret. }
  eapply bp_seq; [apply (bp_new d); by right|]. intros b L B' [-> [id ->]]. set (p := b_part (new_bot d n id)).
  eapply bp_seq; [apply bp_call_create; by do 2 right|]. intros [h|] L B' [-> ->].
  - eapply bp_seq.
    { eapply bp_perm; [reflexivity|apply perm_swap|]. apply (bp_attach_new b p d h); [constructor|done|done]. }
    intros _ L B' [-> ->]. set (p' := with_attached (Some d) h p).
    eapply bp_seq with (Q' := same (held []) (BLife K :: B)).
    { apply bp_bots. intros a k T Hk. cbn [app] in Hk. exists (held []), (BLife K :: B). split_and!; [done|by eapply step_list|by apply trade]. }
    intros _ L B' [-> ->]. eapply bp_seq; [by apply bp_unlock|]. intros _ L B' [-> ->]. by apply bp_ret.
  - eapply bp_seq; [eapply bp_perm; [reflexivity|apply perm_swap|by apply bp_unlock]|]. intros _ L B' [-> ->].
    eapply bp_seq; [apply bp_free; [right; by eexists|by intros ? [= <-]]|]. intros _ L B' [-> ->]. by apply bp_ret.
Qed.

(** *** The end of a bot *)

Lemma bp_doom b p l K B : destroys = true -> K !! b = Some p -> p_state p <> BOT_STOPPING -> insts_of p = [] ->
  BP (bot_doom b) (fun r L' B' => L' = held l /\ B' = BLife (delete b K) :: (if r : bool then [BLast b] else []) ++ B) (held l) (BLife K :: B).
Proof.
  intros Hds Hb Hst Hi. apply bp_bots. intros _ k T Hk. cbn [app] in Hk.
  destruct (known _ _ _ _ _ _ Hk Hb) as (Hl & x & E & Ep & _). rewrite E. cbn zeta.
  rewrite bool_decide_eq_true_2 by done. exists (held l), (BLife (delete b K) :: doom_tok b x ++ B). split_and!; [done..| |].
  - cbn [app]. rewrite <- app_assoc. pose proof (step_doom _ k K _ b p x Hds Hk Hb E Hst) as H. exact H.
  - apply trade. f_equiv. transitivity (bot_own (put_bot b (doomed_bot x) k)); [|by case_match].
    apply (bot_put_same k b x); [done|]. rewrite Ep, Hi. done.
Qed.

Lemma rest_insts p : insts_of (at_rest p) = [].
Proof. unfold insts_of. cbn [at_rest with_pstate with_methods p_methods]. apply downs_none, Forall_fmap. by apply Forall_true. Qed.

Lemma bp_destroy_bot name B : destroys = true -> BP (bot_destroy name) (same [] B) [] B.
Proof.
  intros Hds. destruct name as [|c name]; [by apply bp_ret|]. cbn [bot_destroy]. set (n := c :: name). clearbody n.
  eapply bp_seq; [apply bp_lock|]. intros _ L B' [-> ->].
  eapply bp_seq; [apply hp_find|]. intros found L B' (l & K & -> & -> & -> & HK).
  destruct found as [b|].
  2: { eapply bp_seq; [apply bp_unlock; by subst K|]. intros _ L B' [-> ->]. by apply bp_ret. }
  destruct (learned_settled _ _ _ empty_settled HK) as [HS (p & Hb & Hp)].
  eapply bp_seq; [by eapply hp_rdb|]. intros st L B' (l1 & K1 & -> & -> & -> & -> & ->).
  eapply bp_seq with (Q' := fun _ L' B' => exists l' p', L' = held l' /\ B' = BLife (<[b := p']> K) :: B /\
    settled p' /\ p_state p' <> BOT_RUNNING).
  { destruct (decide (p_state p = BOT_RUNNING)) as [Er|Er].
    - rewrite bool_decide_eq_true_2 by done. eapply bp_mono; [|by apply hp_take_down].
      intros _ L' B' (l' & K' & -> & -> & ->). exists l', (at_rest p). split_and!; [done..|apply rest_settled|done].
    - rewrite bool_decide_eq_false_2 by done. apply bp_ret. exists [], p. by rewrite insert_id. }
  intros _ L B' (l' & p' & -> & -> & Hp' & Hr).
  eapply bp_seq; [apply hp_detach, lookup_insert_eq|]. intros _ L B' (l1 & K1 & -> & -> & _ & -> & ->). rewrite insert_insert_eq.
  eapply bp_seq; [apply (bp_doom b (with_attached None None p')); [done|apply lookup_insert_eq|..]|].
  - cbn [with_attached p_state]. unfold settled in Hp'. by destruct (p_state p').
  - unfold insts_of. cbn [with_attached p_methods]. unfold settled in Hp'. destruct (p_state p'); [by apply downs_none|done..].
  - intros fr L B' [-> ->]. rewrite delete_insert_eq. eapply bp_seq; [apply bp_unlock|].
    + intros b' q. rewrite lookup_delete. case_decide; [done|apply HS].
    + intros _ L B' [-> ->]. eapply bp_seq with (Q' := same [] B); [|intros _ L B' [-> ->]; by apply bp_ret].
      destruct fr; cbn [when app]; [|by apply bp_ret]. apply bp_free; [by left|done].
Qed.

(** *** A reload *)

Lemma learn_write k K T b (f : bot_part -> bot_part) x :
  binv k (BLife K :: T) -> all_settled K -> b ∈ bo_list k -> get_bot b k = Some x ->
  (forall p, same_driver p (f p) /\ insts_of (f p) = insts_of p /\ (settled p -> settled (f p))) ->
  exists K', all_settled K' /\ is_Some (K' !! b) /\ (forall b', is_Some (K !! b') -> is_Some (K' !! b')) /\
    binv (put_part b x (f (b_part x)) k) (BLife K' :: T) /\ bot_own k ≡ₚ bot_own (put_part b x (f (b_part x)) k).
Proof.
  intros H HK Hl E Hf. destruct (learn _ _ _ _ H Hl) as (K1 & HL & H1). destruct (learned_settled _ _ _ HK HL) as [HS (p & Hb & Hp)].
  destruct (known _ _ _ _ _ _ H1 Hb) as (_ & y & Ey & Eyp & _). simplify_eq. destruct (Hf (b_part x)) as (F1 & F2 & F3).
  exists (<[b := f (b_part x)]> K1). split_and!.
  - apply settled_update; auto.
  - rewrite lookup_insert_eq. by eexists.
  - intros b' Hb'. rewrite lookup_insert. case_decide; [by eexists|]. destruct HL as (q & -> & _). rewrite lookup_insert. by case_decide.
  - by apply (step_write _ k K1 T b (b_part x)).
  - by apply (bot_put_same k b x).
Qed.

Lemma susp_ok s p : same_driver p (with_susp s p) /\ insts_of (with_susp s p) = insts_of p /\ (settled p -> settled (with_susp s p)).
Proof. done. Qed.

(** What the walks that mark bots leave. *)
Definition marked (K : gmap nat bot_part) T k k' (bs : list nat) : Prop :=
  exists K', all_settled K' /\ (forall b, is_Some (K !! b) -> is_Some (K' !! b)) /\ (forall b, b ∈ bs -> is_Some (K' !! b)) /\
    binv k' (BLife K' :: T) /\ bot_own k ≡ₚ bot_own k' /\ bo_list k' = bo_list k.

Lemma marked_refl K T k : binv k (BLife K :: T) -> all_settled K -> marked K T k k [].
Proof. intros H HK. exists K. split_and!; try done. by intros b Hb%elem_of_nil. Qed.

Lemma mark_driver_ok name T : forall n l k K, binv k (BLife K :: T) -> all_settled K -> l ⊆ bo_list k ->
  match mark_driver name n l k with Ok (k', r) => marked K T k k' (map fst r) | _ => False end.
Proof.
  induction n as [|n IHn]; intros l; [intros k K Hk HK _; destruct l; by apply marked_refl|].
  induction l as [|b l IHl]; intros k K Hk HK Hl; [by apply marked_refl|]. cbn [mark_driver].
  assert (Hb : b ∈ bo_list k) by (apply Hl; by left). assert (Hl' : l ⊆ bo_list k) by (intros y Hy; apply Hl; by right).
  destruct (listed_get k _ b Hk Hb) as [x E]. rewrite E. destruct (p_driver (b_part x)) as [d|] eqn:Ed; [|by apply IHl].
  destruct (alive_ok _ _ _ _ _ Hk E) as [_ HP]. destruct (po_driver _ _ _ HP d Ed) as [v Ev]. rewrite Ev.
  destruct (seqb _ _); [|by apply IHl].
  destruct (learn_write k K T b (susp_driver name) x Hk HK Hb E ltac:(intros q; apply susp_ok)) as (K1 & HS & Hb1 & Hm & Hk1 & Ho).
  specialize (IHn l _ K1 Hk1 HS Hl'). destruct (mark_driver name n l _) as [[k' r]| |]; [|done..].
  destruct IHn as (K2 & HS2 & Hm2 & Hr & Hk2 & Ho2 & El). exists K2. split_and!; [done|auto| |done|by rewrite Ho|exact El].
  intros b' [->|Hb']%elem_of_cons; auto.
Qed.

Lemma mark_method_ok kind T : forall n l k K, binv k (BLife K :: T) -> all_settled K -> l ⊆ bo_list k ->
  match mark_method kind n l k with Ok (k', r) => marked K T k k' [] | _ => False end.
Proof.
  induction n as [|n IHn]; intros l; [intros k K Hk HK _; destruct l; by apply marked_refl|].
  induction l as [|b l IHl]; intros k K Hk HK Hl; [by apply marked_refl|]. cbn [mark_method].
  assert (Hb : b ∈ bo_list k) by (apply Hl; by left). assert (Hl' : l ⊆ bo_list k) by (intros y Hy; apply Hl; by right).
  destruct (listed_get k _ b Hk Hb) as [x E]. rewrite E. cbn zeta. destruct (existsb _ _); [|by apply IHl].
  destruct (learn_write k K T b (susp_method kind) x Hk HK Hb E ltac:(intros q; apply susp_ok)) as (K1 & HS & Hb1 & Hm & Hk1 & Ho).
  specialize (IHn l _ K1 Hk1 HS Hl'). destruct (mark_method kind n l _) as [[k' r]| |]; [|done..].
  destruct IHn as (K2 & HS2 & Hm2 & Hr & Hk2 & Ho2 & El). exists K2. split_and!; [done|auto|done|done|by rewrite Ho|exact El].
Qed.

Lemma hp_detach_all det : forall l K Br, all_settled K -> (forall b, b ∈ map fst det -> is_Some (K !! b)) ->
  HP (detach_all det) settles l K Br.
Proof.
  induction det as [|[b running] det IH]; intros l K Br HK Hd; [by apply hp_ret|]. cbn [detach_all].
  destruct (Hd b ltac:(by left)) as [p Hb]. eapply hp_seq; [by apply hp_detach|]. intros _ l' K' (_ & -> & ->).
  apply IH; [apply settled_update; [done|]; by apply (HK b p)|]. intros b' Hb'. rewrite lookup_insert.
  case_decide; [by eexists|]. apply Hd. by right.
Qed.

Lemma bp_suspend_driver name B : BP (bot_suspend_driver name) (same [] B) [] B.
Proof.
  destruct name as [|c name]; [by apply bp_ret|]. cbn [bot_suspend_driver]. set (n := c :: name). clearbody n.
  eapply bp_seq; [apply bp_lock|]. intros _ L B' [-> ->].
  eapply bp_seq with (Q' := fun det L' B' => exists K, L' = held [] /\ B' = BLife K :: B /\ all_settled K /\ forall b, b ∈ map fst det -> is_Some (K !! b)).
  { apply bp_bots. intros _ k T Hk. cbn [app] in Hk.
    pose proof (mark_driver_ok n (B ++ T) BOT_SUSPEND_MAX (bo_list k) k ∅ Hk empty_settled ltac:(done)) as Hm.
    destruct (mark_driver _ _ _ k) as [[k' r]| |]; [|done..]. destruct Hm as (K & HS & _ & Hr & Hk' & Ho & _).
    exists (held []), (BLife K :: B). split_and!; [by exists K|done|]. apply trade. by rewrite Ho. }
  intros det L B' (K & -> & -> & HK & Hd). eapply bp_seq; [by apply hp_detach_all|]. intros u L B' (l & K' & -> & -> & HK').
  eapply bp_seq; [by apply bp_unlock|]. intros _ L B' [-> ->]. by apply bp_ret.
Qed.

Lemma collect_names_ok f k T : forall n l, binv k T -> l ⊆ bo_list k -> exists r, collect_names f n k l = Ok r.
Proof.
  induction n as [|n IHn]; intros l; [intros _ _; destruct l; by eexists|].
  induction l as [|b l IHl]; intros Hk Hl; [by eexists|]. cbn [collect_names].
  assert (Hl' : l ⊆ bo_list k) by (intros y Hy; apply Hl; by right).
  destruct (listed_get k T b Hk ltac:(apply Hl; by left)) as [x E]. rewrite E. destruct (f _); [|by apply IHl].
  destruct (IHn l Hk Hl') as [r ->]. by eexists.
Qed.

Lemma hp_suspended f l K Br : HP (suspended_names f) (told (fun _ => True) l K) l K Br.
Proof.
  apply bp_bots. intros _ k T Hk. destruct (collect_names_ok (f k) k _ BOT_SUSPEND_MAX (bo_list k) Hk ltac:(done)) as [r ->].
  exists (held l), (BLife K :: Br). split_and!; [by exists l, K|done|done].
Qed.

Lemma hp_reattach b p d h l K Br : K !! b = Some p ->
  BP (reattach b d h) (fun _ L' B' => L' = held l /\ B' = BLife (<[b := with_driver d h p]> K) :: Br) (held l) (BOwe d b h :: BLife K :: Br).
Proof.
  intros Hb. eapply bp_perm; [reflexivity|apply perm_swap|]. apply bp_bots. intros _ k T Hk. cbn [app] in Hk.
  destruct (known _ _ _ _ _ _ Hk Hb) as (_ & x & E & Ep & _). rewrite E. cbn [fst snd].
  exists (held l), (BLife (<[b := with_driver d h p]> K) :: Br). split_and!; [done..| |].
  - cbn [app]. pose proof (step_reattach _ k K (Br ++ T) b p x d h Hk Hb E) as H. by rewrite Ep.
  - apply trade. f_equiv. apply (bot_put_same k b x); [done|]. by rewrite Ep.
Qed.

Lemma hp_resume_drivers d names : forall l K Br, BVt d ∈ Br -> all_settled K -> HP (resume_drivers d names) settles l K Br.
Proof.
  induction names as [|name names IH]; intros l K Br Hd HK; [by apply hp_ret|]. cbn [resume_drivers].
  eapply hp_seq; [apply hp_find|]. intros found l' K1 [-> HL].
  eapply hp_seq with (Q' := settles).
  2: { intros one l1 K2 HK2. eapply hp_seq; [by apply IH|]. intros more l2 K3 HK3. by apply hp_ret. }
  destruct found as [b|]; [|apply hp_ret; by subst K1]. destruct (learned_settled _ _ _ HK HL) as [HS (p & Hb & Hp)].
  eapply bp_seq; [apply (bp_call_create d b (held l) (BLife K1 :: Br)); by right|]. intros [h|] L B [-> ->]; [|by apply hp_ret].
  eapply bp_seq; [by apply hp_reattach|]. intros start L B [-> ->].
  assert (HK' : all_settled (<[b := with_driver d h p]> K1)) by (by apply settled_update).
  assert (Hb' : <[b := with_driver d h p]> K1 !! b = Some (with_driver d h p)) by apply lookup_insert_eq.
  eapply hp_seq with (Q' := settles); [|intros u l1 K2 HK2; by apply hp_ret]. destruct start; cbn [when]; [|by apply hp_ret].
  eapply hp_told; [exact (hp_call b d dv_start _ l _ Br Hb' eq_refl)|]. intros r _. by apply hp_ret.
Qed.

Lemma bp_resume_driver d B : BVt d ∈ B -> BP (bot_resume_driver d) (same [] B) [] B.
Proof.
  intros Hd. eapply bp_seq with (Q' := same [] B).
  { apply bp_bots. intros a k T Hk. destruct (bv_facts _ _ _ Hk (BVt d) ltac:(apply elem_of_app; by left)) as [v Ev]. rewrite Ev. by exists [], B. }
  intros name L B' [-> ->]. eapply bp_seq; [apply bp_lock|]. intros _ L B' [-> ->].
  eapply bp_seq; [apply hp_suspended|]. intros names L B' (l & K & -> & -> & _ & -> & ->).
  eapply bp_seq; [apply hp_resume_drivers; [done|apply empty_settled]|]. intros n L B' (l & K & -> & -> & HK).
  eapply bp_seq; [by apply bp_unlock|]. intros _ L B' [-> ->]. by apply bp_ret.
Qed.

Lemma hp_suspend_methods names : forall l K Br, all_settled K -> HP (suspend_methods names) settles l K Br.
Proof.
  induction names as [|name names IH]; intros l K Br HK; [by apply hp_ret|]. cbn [suspend_methods].
  eapply hp_seq; [apply hp_find|]. intros found l' K1 [-> HL].
  eapply hp_seq with (Q' := settles).
  2: { intros one l1 K2 HK2. eapply hp_seq; [by apply IH|]. intros more l2 K3 HK3. by apply hp_ret. }
  destruct found as [b|]; [|apply hp_ret; by subst K1]. destruct (learned_settled _ _ _ HK HL) as [HS (p & Hb & Hp)].
  eapply hp_told; [by eapply hp_rdb|]. intros [|] _; cbn [negb]; [|by apply hp_ret].
  eapply hp_seq; [by apply hp_stop|]. intros ok l1 K2 (_ & ->). destruct ok.
  - apply hp_ret. apply settled_update; [done|apply rest_settled].
  - eapply hp_seq; [apply hp_wrb; [apply lookup_insert_eq|done..]|]. intros _ l2 K3 (_ & -> & ->). apply hp_ret.
    rewrite insert_insert_eq. by apply settled_update.
Qed.

Lemma bp_suspend_method kind B : BP (bot_suspend_method kind) (same [] B) [] B.
Proof.
  destruct kind as [|c kind]; [by apply bp_ret|]. cbn [bot_suspend_method]. set (n := c :: kind). clearbody n.
  eapply bp_seq; [apply bp_lock|]. intros _ L B' [-> ->].
  eapply bp_seq with (Q' := fun det L' B' => exists K, L' = held [] /\ B' = BLife K :: B /\ all_settled K).
  { apply bp_bots. intros _ k T Hk. cbn [app] in Hk.
    pose proof (mark_method_ok n (B ++ T) BOT_SUSPEND_MAX (bo_list k) k ∅ Hk empty_settled ltac:(done)) as Hm.
    destruct (mark_method _ _ _ k) as [[k' r]| |]; [|done..]. destruct Hm as (K & HS & _ & _ & Hk' & Ho & _).
    exists (held []), (BLife K :: B). split_and!; [by exists K|done|]. apply trade. by rewrite Ho. }
  intros names L B' (K & -> & -> & HK). eapply bp_seq; [by apply hp_suspend_methods|]. intros u L B' (l & K' & -> & -> & HK').
  eapply bp_seq; [by apply bp_unlock|]. intros _ L B' [-> ->]. by apply bp_ret.
Qed.

Lemma hp_resume_methods names : forall l K Br, all_settled K -> HP (resume_methods names) settles l K Br.
Proof.
  induction names as [|name names IH]; intros l K Br HK; [by apply hp_ret|]. cbn [resume_methods].
  eapply hp_seq; [apply hp_find|]. intros found l' K1 [-> HL].
  eapply hp_seq with (Q' := settles).
  2: { intros one l1 K2 HK2. eapply hp_seq; [by apply IH|]. intros more l2 K3 HK3. by apply hp_ret. }
  destruct found as [b|]; [|apply hp_ret; by subst K1]. destruct (learned_settled _ _ _ HK HL) as [HS (p & Hb & Hp)].
  eapply hp_seq with (Q' := fun _ l' K' => K' = <[b := with_susp susp_none p]> K1).
  { apply bp_bots. intros _ k T Hk. cbn [app] in Hk. destruct (known _ _ _ _ _ _ Hk Hb) as (_ & x & E & Ep & _). rewrite E. cbn [fst snd].
    exists (held l), (BLife (<[b := with_susp susp_none p]> K1) :: Br). split_and!; [by exists l, (<[b := with_susp susp_none p]> K1)| |].
    - rewrite Ep. by apply (step_write _ k K1 (Br ++ T) b p x).
    - apply trade. f_equiv. apply (bot_put_same k b x); [done|]. by rewrite Ep. }
  intros start l1 K2 ->. assert (HS' : all_settled (<[b := with_susp susp_none p]> K1)) by (by apply settled_update).
  destruct start; [|by apply hp_ret]. eapply hp_seq; [apply hp_start; [apply lookup_insert_eq|done]|].
  intros ok l2 K3 (p' & -> & Hr). apply hp_ret. apply settled_update; [done|]. by apply (start_settled (with_susp susp_none p) ok).
Qed.

Lemma bp_resume_method kind B : BP (bot_resume_method kind) (same [] B) [] B.
Proof.
  destruct kind as [|c kind]; [by apply bp_ret|]. cbn [bot_resume_method]. set (n := c :: kind). clearbody n.
  eapply bp_seq; [apply bp_lock|]. intros _ L B' [-> ->].
  eapply bp_seq; [apply hp_suspended|]. intros names L B' (l & K & -> & -> & _ & -> & ->).
  eapply bp_seq; [apply hp_resume_methods, empty_settled|]. intros r L B' (l & K & -> & -> & HK).
  eapply bp_seq; [by apply bp_unlock|]. intros _ L B' [-> ->]. by apply bp_ret.
Qed.

(** *** Entry points *)

Lemma bp_drain n B : BP (bot_exit_drain n) (same [] B) [] B.
Proof.
  induction n as [|n IH]; [by apply bp_ret|]. cbn [bot_exit_drain]. eapply bp_then; [by apply bp_look|].
  intros left_. destruct (left_ =? 0); [by apply bp_ret|exact IH].
Qed.

(** What is only known may be forgotten at the end. *)
Lemma inv2_inert w B1 L B F : Forall (fun u => inert u = true) B1 -> inv2 w (toks L (B1 ++ B) ++ F) -> inv2 w (toks L B ++ F).
Proof.
  intros HB [H1 H2]. split; [by rewrite lows_app, lows_toks in *|]. rewrite bts_app, bts_toks in *. rewrite <- app_assoc in H2.
  clear H1. induction HB as [|u B1 Hu HB IH]; [done|]. apply IH. eapply inv_forget; [left; exact Hu|exact H2].
Qed.

Lemma bp_forget {R} (p : P R) L B : acts p ->
  BP p (fun _ L' B' => L' = L /\ exists B1, Forall (fun u => inert u = true) B1 /\ B' = B1 ++ B) L B -> BP p (same L B) L B.
Proof.
  intros Ha. apply wp_forget; [|done]. intros r u (L' & B' & Hu & -> & B1 & HB & ->). exists (toks L B).
  split; [by exists L, B|]. intros w F Hw. eapply inv2_inert; [exact HB|]. eapply inv2_perm; [|exact Hw]. by rewrite Hu.
Qed.

Lemma seen_inert b : Forall (fun u => inert u = true) [BSeen b].
Proof. by repeat constructor. Qed.

Lemma bp_with_bot name (p : nat -> P bool) : destroys = false ->
  (forall b, BP (p b) (same [] [BSeen b]) [] [BSeen b]) -> BP (with_bot name p) (same [] []) [] [].
Proof.
  intros Hds Hp. destruct name as [|c name]; [by apply bp_ret|]. apply bp_forget; [done|].
  eapply bp_seq with (Q' := fun r L' B' => L' = [] /\ B' = match r with Some b => [BSeen b] | None => [] end).
  - cbn [bot_find]. set (n := c :: name). clearbody n.
    apply bp_bots. intros _ k T Hk. cbn [app] in Hk. pose proof (find_name_ok n k _ (bo_list k) Hk ltac:(done)) as Hf.
    destruct (find_name n k (bo_list k)) as [[b|]| |]; try done.
    + exists [], [BSeen b]. split_and!; [done..|by apply inv_inert|done].
    + by exists [], [].
  - intros [b|] L B [-> ->]; [|apply bp_ret; split; [done|exists []; by split; [constructor|]]].
    eapply bp_then; [apply Hp|]. intros _. apply bp_ret. split; [done|]. exists [BSeen b]. split; [apply seen_inert|done].
Qed.

Lemma bp_with_driver d (p : P unit) : (forall B, BVt d ∈ B -> BP p (same [] B) [] B) ->
  BP (ok ← find_driver d; if ok : bool then p else skip) (same [] []) [] [].
Proof.
  intros Hp. apply bp_forget; [done|].
  eapply bp_seq with (Q' := fun r L' B' => L' = [] /\ B' = if (r : bool) then [BVt d] else []).
  - apply bp_bots. intros _ k T Hk. cbn [app] in Hk. destruct (vtable d k) as [v|] eqn:Ev.
    + exists [], [BVt d]. split_and!; [done..|apply inv_inert; [done|by exists v|done]|done].
    + by exists [], [].
  - intros [|] L B [-> ->]; [|apply bp_ret; split; [done|exists []; by split; [constructor|]]].
    eapply bp_mono; [|apply Hp; by left]. intros _ L B [-> ->]. split; [done|]. exists [BVt d]. by repeat constructor.
Qed.

(** The entry points that are used: no reply through an instance that somebody may be
    stopping and no unmapping of a plugin; and by name, either bots are destroyed, or they are
    started, stopped and bound, as bot_find() gives no reference. *)
Definition bot_used (r : bot_root) : Prop :=
  match r with
  | B_low r => no_reply r
  | B_destroy _ => destroys = true
  | B_start _ | B_stop _ | B_bind _ _ _ | B_unbind _ _ => destroys = false
  | B_unload _ => False
  | _ => True
  end.

Lemma bp_skip {R} (p : P R) L B : BP p (same L B) L B -> BP (_ ← p; skip) (same L B) L B.
Proof. intros H. eapply bp_then; [exact H|]. intros r. by apply bp_ret. Qed.

Lemma bot_code_bp r : bot_used r -> BP (bot_code r) (same [] []) [] [].
Proof.
  destruct r as [r|d name|name|bot name kind|bot name|name|name|id|name|name|d|kind|kind|v|d|]; cbn [bot_used bot_code]; intros Hu; try done.
  - by apply bp_low_keeps, code_keeps.
  - apply bp_with_driver. intros B Hd. by apply bp_skip, bp_create.
  - by apply bp_skip, bp_destroy_bot.
  - apply bp_with_bot; [done|]. intros b. apply bp_bind.
  - apply bp_with_bot; [done|]. intros b. apply bp_unbind.
  - apply bp_with_bot; [done|]. intros b. apply bp_start.
  - apply bp_with_bot; [done|]. intros b. apply bp_stop.
  - apply bp_msg_handler.
  - eapply bp_seq; [apply bp_low, find_ok|]. intros [j|] L B [-> ->]; cbn [found_tok]; [|by apply bp_ret].
    eapply bp_then; [apply bp_deliver; by left|]. intros _. apply bp_method_release.
  - apply bp_skip, bp_suspend_driver.
  - apply bp_with_driver. intros B Hd. by apply bp_skip, bp_resume_driver.
  - apply bp_skip, bp_suspend_method.
  - apply bp_skip, bp_resume_method.
  - apply bp_bots. intros a k T Hk. exists [], []. split_and!; [done|by apply step_load|done].
  - apply bp_skip, bp_drain.
Qed.

Lemma bot_code_ok r : bot_used r -> wp inv2 (bot_code r) (fun _ t => t = []) [].
Proof.
  intros Hu. eapply wp_mono; [|apply (bot_code_bp r Hu)]. intros _ t (L & B & Ht & -> & ->).
  by apply Permutation_nil.
Qed.
End rules.
