(* ===== verification/IrcRuns.v ===== *)
(** * Runs of the program

    What the invariants of [SockOk], [IrcSafe] and [BotOk] say about whole runs of the
    machine of [Conc] with the entry points of [Bot], from a program that has just started:
    what holds of sockets, drivers and method instances. Bots are in [BotRuns]. *)

From S2P Require Import Prelude Task Conc Sock SockOk SockSafe IrcLife IrcSafe Bot BotOk BotSafe.

(** ** The start *)

(** No session, no driver, no task, no bot, and no plugin's vtable. *)
Definition boot_low (cfg : sock_cfg_t) (workers : nat) : world irc_mem :=
  mk_world
    (mk_sock [] [] 0 1 0 workers true cfg (mk_totals 0 0 0 0) [] [] ∅ false)
    (mk_mem [] [] [] task_statics [] []).

Definition boot (cfg : sock_cfg_t) (workers : nat) (max_methods : Z) : bot_world :=
  mk_bw (boot_low cfg workers) (mk_bots [] [] 0 0 0 max_methods false [] []).

Lemma boot_low_inv cfg workers : world_inv (boot_low cfg workers) [TUser (u_life [])].
Proof.
  split; [split; split|split]; cbn; try done.
  - intros x id [->|Hx]%elem_of_cons; [done|by apply elem_of_nil in Hx].
  - intros f [?|Hx]%elem_of_cons; [done|by apply elem_of_nil in Hx].
  - constructor.
  - intros id. split; [intros Hx; by apply elem_of_nil in Hx|intros (s & [=] & _)].
  - constructor.
  - intros u [->|Hx]%elem_of_cons; [constructor|by apply elem_of_nil in Hx].
  - split; cbn; try by constructor.
    + split; [constructor|intros h Hx; by apply elem_of_nil in Hx|done].
    + intros h i. split; [intros Hx|intros [Hx _]]; by apply elem_of_nil in Hx.
    + intros h i Hx. by apply elem_of_nil in Hx.
Qed.

Lemma boot_inv destroys cfg workers n : inv2 destroys (boot cfg workers n) [].
Proof.
  split; [apply boot_low_inv|]. split; try done; cbn.
  by intros u Hx%elem_of_nil.
Qed.

(** ** All runs *)

(** A run is a sequence of phases; in a phase with [true] bots may be destroyed, in one
    with [false] they are started, stopped and bound by name. Threads end with their phase,
    but those of the last need not. *)
Definition phase : Type := bool * list (mevent (Root := bot_root) (A := answer)).

Definition is_ret {W} (p : prog W answer unit) : bool := match p with Ret _ => true | Act _ _ => false end.

Fixpoint run (phs : list phase) (w : bot_world) : outcome (mstate (W := bot_world) (A := answer)) :=
  match phs with
  | [] => Ok (w, [])
  | ph :: phs' =>
      match mrun bot_code ph.2 (w, []) with
      | Ok (w', ps) => match phs' with
                       | [] => Ok (w', ps)
                       | _ => if forallb is_ret ps then run phs' w' else Blocked
                       end
      | Blocked => Blocked
      | Fault => Fault
      end
  end.

Definition phase_ok (ph : phase) : Prop := Forall (only_used (bot_used ph.1)) ph.2.
Notation uses := (Forall phase_ok).

Definition ended (ps : list (prog bot_world answer unit)) : Prop := Forall (fun p => exists r, p = Ret r) ps.

Lemma all_ret_ended ps : forallb is_ret ps = true -> ended ps.
Proof.
  induction ps as [|p ps IH]; intros H; [constructor|]. cbn in H. apply andb_true_iff in H as [Hp Hps].
  constructor; [destruct p as [r|]; [by exists r|done]|by apply IH].
Qed.

(** Between phases nobody holds anything. *)
Lemma inv2_other d d' w : inv2 d w [] -> inv2 d' w [].
Proof.
  intros [H1 [B1 B2 B3 B4 B5 B6 B7 B8]]. split; [exact H1|]. split; try done.
  intros u Hu. by apply elem_of_nil in Hu.
Qed.

Definition all_ok (m : mstate (W := bot_world) (A := answer)) : Prop := exists d, machine_ok (inv2 d) m.

Lemma runs_ok phs : forall w, uses phs -> inv2 true w [] ->
  match run phs w with Ok m => all_ok m | Blocked => True | Fault => False end.
Proof.
  induction phs as [|[d es] phs IH]; intros w Hu Hw.
  { exists true, []. split; [constructor|exact Hw]. }
  cbn [run fst snd]. pose proof (mrun_ok _ (inv2_perm d) bot_code _ (bot_code_ok d) es (w, []) (Forall_inv Hu)) as H.
  destruct (mrun bot_code es (w, [])) as [[w' ps]| |]; [|done|].
  - assert (Hm : machine_ok (inv2 d) (w', ps)).
    { apply H. exists []. split; [constructor|by apply (inv2_other true)]. }
    destruct phs as [|ph phs]; [by exists d|]. destruct (forallb is_ret ps) eqn:Er; [|done].
    apply IH; [by apply Forall_inv_tail in Hu|]. apply (inv2_other d).
    by apply (machine_ended (inv2 d) (w', ps) Hm), all_ret_ended.
  - apply H. exists []. split; [constructor|by apply (inv2_other true)].
Qed.

Section booted.
Context (cfg : sock_cfg_t) (workers : nat) (n : Z) (phs : list phase).
Hypothesis Hu : uses phs.

Lemma run_world w ps : run phs (boot cfg workers n) = Ok (w, ps) -> exists d T, inv2 d w T.
Proof.
  intros Hr. pose proof (runs_ok phs (boot cfg workers n) Hu (boot_inv _ _ _ _)) as H. rewrite Hr in H.
  destruct H as (d & ts & _ & H). by exists d, (concat ts).
Qed.

Lemma run_low w ps : run phs (boot cfg workers n) = Ok (w, ps) -> exists T, world_inv (bw_low w) T.
Proof. intros Hr. destruct (run_world w ps Hr) as (d & T & H & _). by eexists. Qed.

Lemma run_quiet w ps : run phs (boot cfg workers n) = Ok (w, ps) -> ended ps -> inv2 true w [].
Proof.
  intros Hr He. pose proof (runs_ok phs (boot cfg workers n) Hu (boot_inv _ _ _ _)) as H. rewrite Hr in H.
  destruct H as (d & H). apply (inv2_other d). by apply (machine_ended (inv2 d) _ H).
Qed.
End booted.


(** *** When every thread has ended *)

(** What bots hold of what is below them: references to instances, and the notes. *)
Lemma own_users (f : uref -> bool) k : (forall j, f (u_inst j) = false) -> (forall l, f (u_life l) = false) ->
  count f (users (bot_own k)) = 0.
Proof.
  intros Hi Hl. apply count_none. intros u Hu%users_in. unfold bot_own in Hu. apply elem_of_app in Hu as [Hu|Hu].
  - unfold free_tok in Hu. destruct (bo_life k); [by apply elem_of_nil in Hu|]. apply list_elem_of_singleton in Hu as [= ->]. apply Hl.
  - apply list_elem_of_In, in_flat_map in Hu as (o & _ & Hu). destruct o as [x|]; [|done]. apply list_elem_of_In in Hu.
    unfold own_bot, part_tok in Hu. apply list_elem_of_fmap in Hu as (j & [= ->] & _). apply Hi.
Qed.

Lemma quiet_mem w : inv2 true w [] ->
  mem_inv (hooks (w_sock (bw_low w))) (w_user (bw_low w)) (users (bot_own (bw_bots w))).
Proof. by intros [[_ H] _]. Qed.

Lemma quiet_insts hs m U j x : mem_inv hs m U -> im_list m = [] -> get_inst j m = Some x -> mi_handle x = None.
Proof.
  intros H El E. pose proof (mv_inst _ _ _ H j) as Hj. unfold inst_ok in Hj. rewrite E in Hj. destruct Hj as (_ & _ & Hj).
  destruct (mi_handle x); [|done]. rewrite El in Hj. by destruct (proj1 (elem_of_nil j) (Hj ltac:(done))).
Qed.

Lemma quiet_handles hs m U i : mem_inv hs m U -> im_list m = [] -> count (handle_is i) (im_insts m) = 0.
Proof.
  intros H El. apply count_none. intros o [j Hj]%list_elem_of_lookup. destruct o as [x|]; [|done]. cbn.
  apply bool_decide_eq_false_2. assert (E : get_inst j m = Some x) by (unfold get_inst; by rewrite Hj).
  by rewrite (quiet_insts _ _ _ _ _ H El E).
Qed.

Lemma quiet_own hs m U : mem_inv hs m U -> (forall i, count (is_kill i) U = 0) -> im_list m = [] -> mem_own m = [].
Proof.
  intros H Hk El. destruct (mem_own m) as [|x l] eqn:Eo; [done|]. exfalso.
  assert (Hx : x ∈ mem_own m) by (rewrite Eo; by left).
  unfold mem_own in Hx. apply list_elem_of_In, in_flat_map in Hx as (o & Ho & Hx). apply list_elem_of_In in Ho as Ho.
  apply list_elem_of_lookup in Ho as [i Hi]. destruct o as [r|]; [|done]. cbn in Hx.
  assert (E : get_irc i m = Some r) by (unfold get_irc; by rewrite Hi).
  pose proof (mv_dead _ _ _ H i) as Hd. unfold dead_ok in Hd. rewrite E, (quiet_handles _ _ _ _ H El), Hk in Hd.
  destruct (Hd eq_refl) as [_ Hs]. by rewrite Hs in Hx.
Qed.

(** A bot that nobody uses and that is on no list is freed. *)
Lemma quiet_bot k b x : bot_inv true k [] -> get_bot b k = Some x ->
  b ∈ bo_list k /\ b_refs x = 0 /\ p_doomed (b_part x) = false.
Proof.
  intros H E. destruct (alive_ok _ _ _ _ _ H E) as [(C1 & C2 & C3) _]. rewrite !count_nil in *. rewrite C1 in *.
  destruct (p_doomed (b_part x)); cbn [andb negb Z.b2z] in *; [done|]. split_and!; [|done|done].
  destruct (decide (b ∈ bo_list k)) as [Hb|Hb]; [done|]. exfalso. rewrite count_none in C3; [done|].
  intros y Hy. apply Nat.eqb_neq. by intros ->.
Qed.

Lemma quiet_no_bots k : bot_inv true k [] -> bo_list k = [] -> bot_own k = [TUser (u_life [])] /\ forall b, get_bot b k = None.
Proof.
  intros H El. assert (Hn : forall b, get_bot b k = None).
  { intros b. destruct (get_bot b k) as [x|] eqn:E; [|done]. destruct (quiet_bot _ _ _ H E) as [Hb _]. rewrite El in Hb. by apply elem_of_nil in Hb. }
  split; [|done]. pose proof (bv_life _ _ _ H) as Hl. unfold bot_own, free_tok. destruct (bo_life k); [done|].
  assert (E : flat_map own_bot (bo_insts k) = []); [|by rewrite E].
  assert (Ho : forall o, o ∈ bo_insts k -> o = None).
  { intros o [b Hb]%list_elem_of_lookup. specialize (Hn b). unfold get_bot in Hn. by rewrite Hb in Hn. }
  clear -Ho. induction (bo_insts k) as [|o l IH]; [done|]. cbn [flat_map]. rewrite (Ho o) by (by left). apply IH.
  intros o' Hi. apply Ho. by right.
Qed.

Lemma nothing_left w :
  inv2 true w [] -> sk_legs (w_sock (bw_low w)) = [] -> im_armed (w_user (bw_low w)) = [] ->
  im_list (w_user (bw_low w)) = [] -> bo_list (bw_bots w) = [] ->
  (forall id, get_session id (w_sock (bw_low w)) = None) /\ (forall i, get_irc i (w_user (bw_low w)) = None) /\
  (forall j, get_inst j (w_user (bw_low w)) = None) /\ (forall b, get_bot b (bw_bots w) = None).
Proof.
  intros Hw Hl Ha Hm Hb. assert (Hu := quiet_mem w Hw). destruct Hw as [[Hk _] Hbots].
  destruct (quiet_no_bots _ Hbots Hb) as [Eo Hn]. rewrite Eo in *. cbn [cl_own irc_client lows omap list_omap app] in Hk.
  rewrite (quiet_own _ _ _ Hu ltac:(done) Hm) in Hk. unfold legs_tok in Hk. rewrite Hl in Hk. cbn [map app] in Hk.
  set (k := w_sock (bw_low w)) in *. set (m := w_user (bw_low w)) in *.
  assert (Hs : forall id, get_session id k = None).
  { intros id. destruct (get_session id k) as [s|] eqn:E; [|done].
    destruct (si_sess _ _ (proj1 Hk) _ _ E) as [G1 _ G3 _ _ _]. rewrite !count_cons, !count_nil in G1, G3. cbn in G1, G3. by rewrite G1 in G3. }
  assert (Hi : forall i, get_irc i m = None).
  { intros i. destruct (get_irc i m) as [r|] eqn:E; [|done]. pose proof (mv_irc _ _ _ Hu i) as Hi.
    unfold irc_ok, irc_refs in Hi. rewrite E, (quiet_handles _ _ _ _ Hu Hm), Ha in Hi.
    cbn [users omap list_omap] in Hi. rewrite !count_cons, !count_nil in Hi. cbn [is_data is_last Z.b2z] in Hi. destruct Hi as (I1 & I2 & _).
    rewrite (count_none (hook_is i)) in I1; [by rewrite I1 in I2|]. intros o [id Ho]%list_elem_of_lookup.
    unfold hooks in Ho. change (map ?f ?l) with (f <$> l) in Ho. rewrite list_lookup_fmap in Ho. specialize (Hs id).
    unfold get_session in Hs. destruct (sk_sessions k !! id) as [[s|]|]; try done. by injection Ho as <-. }
  split_and!; [done..| |done]. intros j. destruct (get_inst j m) as [x|] eqn:E; [|done]. pose proof (mv_inst _ _ _ Hu j) as Hj.
  unfold inst_ok, mi_count in Hj. rewrite E, Hm in Hj. cbn [users omap list_omap] in Hj. rewrite !count_cons, !count_nil in Hj.
  cbn [is_inst is_inst_last Z.b2z] in Hj. destruct Hj as (J1 & J2 & _).
  rewrite (count_none (has_inst j)) in J1; [by rewrite J1 in J2|]. intros o [i Ho]%list_elem_of_lookup. specialize (Hi i).
  unfold get_irc in Hi. rewrite Ho in Hi. cbn in Hi. by subst o.
Qed.


(** C20: In every run the bytes the kernel took of a session are the first of those
    sock_send() accepted, in order; the others are in its queue, and the counter says how
    many, modulo its width. *)
Theorem sock_bytes_in_order (cfg : sock_cfg_t) (workers : nat) (n : Z) (phs : list phase) (w : bot_world)
    (ps : list (prog bot_world answer unit)) (id : nat) (s : sock_session_t)
    (Hu : uses phs) (Hr : run phs (boot cfg workers n) = Ok (w, ps)) (Es : get_session id (w_sock (bw_low w)) = Some s) :
  o_wire (s_out s) ++ pending (o_queue (s_out s)) = o_accepted (s_out s) /\
  o_queued (s_out s) = wrap 32 (Z.of_nat (length (pending (o_queue (s_out s))))) /\
  o_bytes_out (s_out s) = wrap 64 (Z.of_nat (length (o_wire (s_out s)))).
Proof.
  destruct (run_low cfg workers n phs Hu w ps Hr) as [T [[H _] _]]. by destruct (so_out _ _ _ (si_sess _ _ H _ _ Es)).
Qed.

(** C23: In every run the descriptor of a session is open and no other session's, and the
    list of sessions holds exactly those whose owner has not destroyed them. *)
Theorem sock_sessions_sound (cfg : sock_cfg_t) (workers : nat) (n : Z) (phs : list phase) (w : bot_world)
    (ps : list (prog bot_world answer unit)) (Hu : uses phs) (Hr : run phs (boot cfg workers n) = Ok (w, ps)) :
  let k := w_sock (bw_low w) in
  (forall id s f, get_session id k = Some s -> s_fd s = Some f ->
     is_Some (sk_fds k !! f) /\ forall id' s', get_session id' k = Some s' -> s_fd s' = Some f -> id' = id) /\
  NoDup (sk_list k) /\ sk_count k = wrap 32 (Z.of_nat (length (sk_list k))) /\
  forall id, id ∈ sk_list k <-> exists s, get_session id k = Some s /\ l_detached (s_life s) = false.
Proof.
  destruct (run_low cfg workers n phs Hu w ps Hr) as [T [[H L] _]]. cbn zeta. split_and!; [|apply L..].
  intros id s f E F. split; [by eapply (si_open _ _ H)|]. intros id' s' E' F'. by eapply (si_one _ _ H).
Qed.


(** ** Runs in particular *)

Definition sample_cfg : sock_cfg_t := mk_cfg 10 4096 65536 0 256.
Definition irc : cstr := lit "irc".
Definition bob : cstr := lit "bob".

(** A driver that has every function. *)
Definition cmd_driver : bot_driver_t := mk_driver (lit "cmd") true true true true true.

(** What the environment answers: all goes well (and the configuration names the host h);
    the configuration asks for TLS; a line came; an error, or a late one. *)
Definition fine : answer := mk_answer 5 0 0 7 [100; 100; 100; 100] (lit "h") [lit "NICK x"; lit "USER y"].
Definition quiet_ok : answer := mk_answer 5 0 0 7 [] (lit "h") [].
Definition tls_wanted : answer := mk_answer 5 0 1 7 [] (lit "h") [].
Definition says (err n : Z) (now : Z) : answer := mk_answer now err n 7 [] [] [].

(** [n] actions of thread [i]. *)
Definition go (i n : nat) (a : answer) : list (mevent (Root := bot_root)) := replicate n (Step i a).
Definition spawn (r : root) : mevent (Root := bot_root) (A := answer) := Spawn (B_low r).

(** The run ends with every thread, in a memory such that [P]. *)
Definition ends (phs : list phase) (P : bot_world -> Prop) : Prop :=
  match run phs (boot sample_cfg 1 8) with
  | Ok (w, ps) => forallb is_ret ps = true /\ P w
  | _ => False
  end.

Definition sock_of (w : bot_world) : sock := w_sock (bw_low w).
Definition mem_of (w : bot_world) : irc_mem := w_user (bw_low w).

(** A plugin is loaded, and a bot of its driver is made and bound to a new instance. *)
Definition set_up : list mevent :=
  Spawn (B_load cmd_driver) :: go 0 1 fine ++ Spawn (B_create 0 bob) :: go 1 8 fine ++
  Spawn (B_bind bob irc (Some irc)) :: go 2 5 fine.

(** It starts, and its instance connects. *)
Definition start_up (regs : answer) : list mevent :=
  set_up ++ Spawn (B_start bob) :: go 3 46 fine ++
  spawn (R_sock (R_resolved 0 true [RESOLVE_A])) :: go 4 (if (length (a_lines regs) =? 0)%nat then 18 else 32) regs.

(** It registers, what it sent goes out, the bot is stopped, and then destroyed. *)
Definition whole_life : list phase :=
  [(false, start_up fine ++ spawn (R_sock (R_wake 0)) :: go 5 2 (says 0 0 5) ++
           spawn (R_sock (R_event 8 1 EPOLLOUT)) :: go 6 9 fine ++ Spawn (B_stop bob) :: go 7 56 fine);
   (true, Spawn (B_destroy bob) :: go 0 8 fine)].

Lemma whole_life_uses : uses whole_life.
Proof. vm_compute. repeat constructor. Qed.



(** Half of it: the driver is connected, and what it sent to register is queued. *)
Definition connected : list phase := [(false, start_up fine)].

Lemma connected_uses : uses connected.
Proof. vm_compute. repeat constructor. Qed.

Lemma sock_bytes_in_order_witness : exists w ps s,
  run connected (boot sample_cfg 1 8) = Ok (w, ps) /\ get_session 0 (w_sock (bw_low w)) = Some s /\
  o_wire (s_out s) ++ pending (o_queue (s_out s)) = lit "NICK xUSER y".
Proof.
  eexists _, _, _. split; [vm_compute; reflexivity|]. split; [reflexivity|].
  destruct (sock_bytes_in_order sample_cfg 1 8 connected _ _ 0%nat _ connected_uses
    ltac:(vm_compute; reflexivity) eq_refl) as [H _].
  rewrite H. reflexivity.
Defined.

Lemma sock_sessions_sound_witness : exists w ps,
  run connected (boot sample_cfg 1 8) = Ok (w, ps) /\ NoDup (sk_list (w_sock (bw_low w))) /\ sk_list (w_sock (bw_low w)) = [0%nat].
Proof.
  eexists _, _. split; [vm_compute; reflexivity|]. split; [|reflexivity].
  apply (sock_sessions_sound sample_cfg 1 8 connected _ _ connected_uses ltac:(vm_compute; reflexivity)).
Defined.


(** ** What the code does not exclude *)

(** It is registered with the server: the first line was the welcome. *)
Definition registered_up : list mevent :=
  start_up quiet_ok ++ spawn (R_sock (R_event 8 1 EPOLLIN)) ::
  go 5 13 (mk_answer 5 0 0 7 [] (lit "x") []) ++ go 5 2 (says 0 1 5) ++ go 5 1 (says 1 0 5) ++ go 5 7 (says EAGAIN (-1) 5).

(** The epoll worker finds the queue of a session empty; before it has told epoll to
    stop watching for room, another thread queues bytes, sees the flag still up and wakes
    nobody; then the worker clears the flag. The bytes were accepted, but nothing is left
    that would send them: no event of the descriptor, no wake, no thread. *)
Theorem sock_send_lost_wake :
  ends [(false, registered_up ++
        spawn (R_reply irc (lit "one")) :: go 6 13 quiet_ok ++ spawn (R_sock (R_wake 0)) :: go 7 2 (says 0 0 5) ++
        spawn (R_sock (R_event 8 1 EPOLLOUT)) :: go 8 5 fine ++
        spawn (R_reply irc (lit "two")) :: go 9 11 fine ++ go 8 4 fine)]
    (fun w => exists s, get_session 0 (sock_of w) = Some s /\
       s_state s = SOCK_STATE_CONNECTED /\ o_accepted (s_out s) = lit "onetwo" /\ o_wire (s_out s) = lit "one" /\
       s_fd s = Some 7%nat /\ sk_fds (sock_of w) !! 7%nat = Some (EPOLLIN + EPOLLET) /\
       s_epollout_armed s = false /\ sk_wake (sock_of w) = []).
Proof. vm_compute. split; [done|]. eexists. repeat split. Qed.

(** A connect leg that got its connection hands the descriptor to a session that was
    destroyed in the meantime: the session is freed, the descriptor stays open. *)
Theorem sock_adopt_leaks :
  ends [(false, set_up ++ Spawn (B_start bob) :: go 3 46 fine ++ spawn (R_sock (R_resolved 0 true [RESOLVE_A])) :: go 4 5 fine ++
        Spawn (B_stop bob) :: go 5 29 fine ++ go 4 16 fine)]
    (fun w => get_session 0 (sock_of w) = None /\ sk_legs (sock_of w) = [] /\ is_Some (sk_fds (sock_of w) !! 7%nat)).
Proof. vm_compute. split; [done|]. repeat split. by eexists. Qed.

(** The same leg on a TLS session: its SSL object is gone when it is given the descriptor. *)
Theorem sock_tls_null :
  ends [(false, set_up ++ Spawn (B_start bob) :: go 3 26 fine ++ go 3 1 tls_wanted ++ go 3 22 fine ++
        spawn (R_sock (R_resolved 0 true [RESOLVE_A])) :: go 4 6 fine ++ Spawn (B_stop bob) :: go 5 29 fine ++ go 4 12 fine)]
    (fun w => sk_null (sock_of w) = true).
Proof. vm_compute. by split. Qed.

(** A backoff that fires before the thread that armed it has stored its handle, and
    arms the next one itself: the first thread finds the flag up again and stores the handle
    of the task that has run; the second gives its task up. The driver is alive, has no
    session and believes that a reconnect waits, but none does, so none is ever armed. *)
Theorem irc_reconnect_lost :
  ends [(false, start_up quiet_ok ++ spawn (R_sock (R_event 8 1 EPOLLHUP)) :: go 5 15 quiet_ok ++
        spawn (R_task TASK_THREAD true) :: go 6 13 (says 1 0 500) ++ go 5 4 (says 0 0 500) ++ go 6 5 (says 1 0 500))]
    (fun w => exists r, get_irc 0 (mem_of w) = Some r /\ r_dead r = false /\ r_shutdown r = false /\ r_session r = None /\
       r_task r <> TASK_HANDLE_NONE /\ im_armed (mem_of w) = [] /\ sk_legs (sock_of w) = [] /\
       ready_head (im_sched (mem_of w)) = [] /\ timer_head (im_sched (mem_of w)) = []).
Proof. vm_compute. split; [done|]. eexists. repeat split. done. Qed.

(** method_send() looks at the state of an instance and then uses its handle; when the
    instance is unregistered in between, the handle is NULL or the driver's state freed. *)
Theorem method_send_race (k : nat) (Hk : k = 2%nat \/ k = 3%nat) :
  run [(false, registered_up ++ spawn (R_reply irc (lit "x")) :: go 6 k fine ++ Spawn (B_stop bob) :: go 7 55 fine ++ go 6 2 fine)]
    (boot sample_cfg 1 8) = Fault.
Proof. destruct Hk as [->| ->]; vm_compute; reflexivity. Qed.

Lemma method_send_race_witness : 2%nat = 2%nat /\
  run [(false, registered_up ++ spawn (R_reply irc (lit "x")) :: go 6 2 fine ++ Spawn (B_stop bob) :: go 7 55 fine ++ go 6 2 fine)]
    (boot sample_cfg 1 8) = Fault.
Proof. split; [reflexivity|]. apply (method_send_race 2%nat). left. reflexivity. Defined.
