(* ===== verification/BotRuns.v ===== *)
(** * Runs with bots

    What [BotOk]'s invariant says of bots in whole runs of the program, what starting and
    stopping a bot does, and runs that show what the code does not exclude. *)

From S2P Require Import Prelude Task Conc Sock SockOk SockSafe IrcLife IrcSafe Bot BotOk BotSafe IrcRuns.

(** ** All runs *)

Lemma count_nodup l : (forall b, count (Nat.eqb b) l <= 1) -> NoDup l.
Proof.
  induction l as [|y l IH]; intros H; [constructor|]. constructor.
  - intros [i Hi]%list_elem_of_lookup. specialize (H y). rewrite count_cons, Nat.eqb_refl in H.
    pose proof (count_pos (Nat.eqb y) _ _ _ Hi (Nat.eqb_refl y)). cbn [Z.b2z] in H. lia.
  - apply IH. intros b. specialize (H b). rewrite count_cons in H. destruct (b =? y)%nat; cbn [Z.b2z] in H; lia.
Qed.

Lemma run_bots cfg workers n phs w ps : uses phs -> run phs (boot cfg workers n) = Ok (w, ps) ->
  exists d T, bot_inv d (bw_bots w) T.
Proof. intros Hu Hr. destruct (run_world cfg workers n phs Hu w ps Hr) as (d & T & _ & H). by exists d, (bts T). Qed.

(** C5: In every run, while nobody has bot_life_mutex, a bot is at rest with every binding
    down, or runs with every binding resolved and subscribed; none is half way. *)
Theorem bots_settled (cfg : sock_cfg_t) (workers : nat) (n : Z) (phs : list phase) (w : bot_world)
    (ps : list (prog bot_world answer unit)) (b : nat) (x : bot_inst_t)
    (Hu : uses phs) (Hr : run phs (boot cfg workers n) = Ok (w, ps))
    (Hl : bo_life (bw_bots w) = false) (Eb : get_bot b (bw_bots w) = Some x) :
  match p_state (b_part x) with
  | BOT_CREATED => Forall (fun m => bm_inst m = None /\ bm_subscribed m = false /\ bm_created m = false) (p_methods (b_part x))
  | BOT_RUNNING => Forall (fun m => is_Some (bm_inst m) /\ bm_subscribed m = true) (p_methods (b_part x))
  | BOT_STOPPING => False
  end.
Proof.
  destruct (run_bots cfg workers n phs w ps Hu Hr) as (d & T & H).
  destruct (bv_settled _ _ _ H b x Eb) as [Hs|(K & HK & _)]; [exact Hs|]. exfalso.
  pose proof (counted is_held _ _ HK eq_refl) as Hc. rewrite (bv_life _ _ _ H), Hl in Hc. by cbn in Hc.
Qed.

Lemma one_owner k d T h b b' x x' : bot_inv d k T -> get_bot b k = Some x -> get_bot b' k = Some x' ->
  has_handle h (Some x) = true \/ has_dying h (Some x) = true -> has_handle h (Some x') = true \/ has_dying h (Some x') = true -> b = b'.
Proof.
  intros H E E' Ho Ho'. assert (G : forall c y, get_bot c k = Some y -> has_handle h (Some y) = true \/ has_dying h (Some y) = true -> handle_of h k = Some c).
  { intros c y Ey Hy. destruct (alive_ok _ _ _ _ _ H Ey) as [_ HP]. cbn [has_handle has_dying] in Hy. destruct Hy as [Hy|Hy].
    - apply bool_decide_eq_true in Hy. by apply HP.
    - destruct (b_dying y) as [[[d0 [h0|]] st]|] eqn:Ed; try done. apply Nat.eqb_eq in Hy. subst h0.
      by apply (proj2 (po_dying _ _ _ HP _ _ _ Ed)). }
  pose proof (G b x E Ho) as G1. pose proof (G b' x' E' Ho') as G2. congruence.
Qed.


(** C13: In every run the count that bot_exit() drains is that of destroyed bots with a
    delivery still inside, modulo its width; when every thread has ended it is zero, a bot
    that is in memory is on the list once and is not doomed, and bot_count() is their number. *)
Theorem bot_drain_count (cfg : sock_cfg_t) (workers : nat) (n : Z) (phs : list phase) (w : bot_world)
    (ps : list (prog bot_world answer unit)) (Hu : uses phs) (Hr : run phs (boot cfg workers n) = Ok (w, ps)) :
  bo_deferred (bw_bots w) = wrap 32 (count waits (bo_insts (bw_bots w))) /\
  bo_count (bw_bots w) = wrap 32 (Z.of_nat (length (bo_list (bw_bots w)))) /\
  (ended ps -> bo_deferred (bw_bots w) = 0 /\ NoDup (bo_list (bw_bots w)) /\
     forall b, b ∈ bo_list (bw_bots w) <-> exists x, get_bot b (bw_bots w) = Some x /\ p_doomed (b_part x) = false /\ b_refs x = 0).
Proof.
  destruct (run_bots cfg workers n phs w ps Hu Hr) as (ds & T & H). split_and!; [apply H..|]. intros He.
  destruct (run_quiet cfg workers n phs Hu w ps Hr He) as [_ Hq]. set (k := bw_bots w) in *. split_and!.
  - rewrite (bv_deferred _ _ _ Hq), count_none; [done|]. intros o [b Hb]%list_elem_of_lookup. destruct o as [x|]; [|done].
    destruct (quiet_bot k b x Hq ltac:(unfold get_bot; by rewrite Hb)) as (_ & _ & Hd). cbn [waits]. by rewrite Hd.
  - apply count_nodup. intros b. destruct (decide (b ∈ bo_list k)) as [Hb|Hb].
    + destruct (listed _ _ _ _ Hq Hb) as (x & _ & _ & _ & ->). done.
    + rewrite count_none; [done|]. intros y Hy. apply Nat.eqb_neq. by intros ->.
  - intros b. split.
    + intros Hb. destruct (listed _ _ _ _ Hq Hb) as (x & E & Hd & _). exists x. split_and!; [done..|]. by apply (quiet_bot k b x Hq E).
    + intros (x & E & _). by apply (quiet_bot k b x Hq E).
Qed.

(** ** What a lifecycle operation does *)


(** In the same way bot_stop() says whether the bot ran; then it is at rest, with the
    same bindings all down, and otherwise it is as it was. *)
Theorem bot_stop_spec (destroys : bool) (b : nat) (p : bot_part) (l : list (nat * nat * bool)) (K : gmap nat bot_part)
    (T : list btok) (Hb : K !! b = Some p) (Hp : settled p) :
  HP destroys (bot_stop_held b) (fun ok _ K' => ok = bool_decide (p_state p = BOT_RUNNING) /\
    K' = <[b := if ok : bool then with_pstate BOT_CREATED (with_methods (map down_bm (p_methods p)) p) else p]> K) l K T.
Proof. apply (hp_stop destroys b p l K T Hb Hp). Qed.

(** ** Runs in particular *)

(** A bot without bindings runs. *)
Definition bot_up : list mevent :=
  Spawn (B_load cmd_driver) :: go 0 1 fine ++ Spawn (B_create 0 bob) :: go 1 8 fine ++ Spawn (B_start bob) :: go 2 9 fine.

Definition cmd : cstr := lit "cmd".

(** A message is being delivered while the bot is stopped and its driver taken away for a
    reload; the delivery tears the driver's state down on its way out, and the bot gets a new
    one. Then it is destroyed with another delivery inside, which frees it. *)
Definition reloaded : list phase :=
  [(false, bot_up ++ Spawn (B_message 1) :: go 3 1 fine ++ Spawn (B_suspend_driver cmd) :: go 4 4 fine ++ go 3 8 fine ++
           Spawn (B_load cmd_driver) :: go 5 1 fine ++ Spawn (B_resume_driver 1) :: go 6 9 fine);
   (true, Spawn (B_message 1) :: go 0 1 fine ++ Spawn (B_destroy bob) :: go 1 11 fine)].

Lemma reloaded_uses : uses reloaded.
Proof. vm_compute. repeat constructor. Qed.

Lemma bots_settled_witness : exists w ps x,
  run connected (boot sample_cfg 1 8) = Ok (w, ps) /\ get_bot 0 (bw_bots w) = Some x /\ p_state (b_part x) = BOT_RUNNING /\
  Forall (fun m => is_Some (bm_inst m) /\ bm_subscribed m = true) (p_methods (b_part x)).
Proof.
  eexists _, _, _. split; [vm_compute; reflexivity|]. split; [reflexivity|]. split; [reflexivity|].
  exact (bots_settled sample_cfg 1 8 connected _ _ 0%nat _ connected_uses ltac:(vm_compute; reflexivity) eq_refl eq_refl).
Defined.


(** The driver's states and the deferred frees of a run's end. *)
Definition end_of (phs : list phase) : option (Z * list (option nat)) :=
  match run phs (boot sample_cfg 1 8) with
  | Ok (w, _) => Some (bo_deferred (bw_bots w), bo_handles (bw_bots w))
  | _ => None
  end.

Lemma end_of_run phs r : end_of phs = Some r -> exists w ps,
  run phs (boot sample_cfg 1 8) = Ok (w, ps) /\ r = (bo_deferred (bw_bots w), bo_handles (bw_bots w)).
Proof.
  unfold end_of. destruct (run phs (boot sample_cfg 1 8)) as [[w ps]| |]; [|done..]. intros [= <-]. by exists w, ps.
Qed.

Lemma reloaded_end : end_of reloaded = Some (1, [None; Some 0%nat]).
Proof. vm_compute. reflexivity. Qed.

Lemma bot_drain_count_witness : exists w ps,
  run reloaded (boot sample_cfg 1 8) = Ok (w, ps) /\ bo_deferred (bw_bots w) = wrap 32 (count waits (bo_insts (bw_bots w))) /\
  (1, [None; Some 0%nat]) = (bo_deferred (bw_bots w), bo_handles (bw_bots w)).
Proof.
  destruct (end_of_run reloaded _ reloaded_end) as (w & ps & E & H). exists w, ps. split; [exact E|]. split; [|exact H].
  apply (bot_drain_count sample_cfg 1 8 reloaded w ps reloaded_uses E).
Defined.

Definition idle_part : bot_part := b_part (new_bot 0 bob 1).


Lemma bot_stop_spec_witness :
  HP true (bot_stop_held 0) (fun ok _ K' => ok = bool_decide (p_state idle_part = BOT_RUNNING) /\
    K' = <[0%nat := if ok : bool then with_pstate BOT_CREATED (with_methods (map down_bm (p_methods idle_part)) idle_part) else idle_part]> {[0%nat := idle_part]})
    [] {[0%nat := idle_part]} [].
Proof. apply (bot_stop_spec true 0 idle_part [] {[0%nat := idle_part]} []); [reflexivity|constructor]. Defined.

(** ** What the code does not exclude *)

(** Two deliveries are inside when the driver is detached, and leave together: each sees two
    references when it looks for what it owes, so neither tears the driver's state down. It
    stays, and the bot stays in its debt. *)
Definition both_leave : list mevent :=
  bot_up ++ Spawn (B_message 1) :: go 3 1 fine ++ Spawn (B_message 1) :: go 4 1 fine ++
  Spawn (B_suspend_driver cmd) :: go 5 4 fine ++ go 3 5 fine ++ go 4 5 fine ++ go 3 1 fine ++ go 4 1 fine.

Theorem bot_teardown_lost :
  ends [(false, both_leave)]
    (fun w => exists x, get_bot 0 (bw_bots w) = Some x /\ b_refs x = 0 /\ p_driver (b_part x) = None /\
       b_dying x = Some (0%nat, Some 0%nat, true) /\ bo_handles (bw_bots w) = [Some 0%nat]).
Proof. vm_compute. split; [done|]. eexists. repeat split. Qed.

(** The reload goes on: nothing is counted inside the old mapping, it goes, the driver comes
    back, and the next delivery pays the debt through the old vtable. *)
Theorem bot_teardown_late :
  run [(false, both_leave ++ Spawn (B_unload 0) :: go 6 2 fine ++ Spawn (B_load cmd_driver) :: go 7 1 fine ++
        Spawn (B_resume_driver 1) :: go 8 9 fine ++ Spawn (B_message 1) :: go 9 7 fine)]
    (boot sample_cfg 1 8) = Fault.
Proof. vm_compute. reflexivity. Qed.

(** The last delivery takes what is owed and clears it before it runs stop() and destroy();
    in between bot_driver_inflight_owned() does not count it, and the mapping goes. *)
Theorem bot_inflight_early :
  run [(false, bot_up ++ Spawn (B_message 1) :: go 3 1 fine ++ Spawn (B_suspend_driver cmd) :: go 4 4 fine ++ go 3 5 fine ++
        Spawn (B_unload 0) :: go 5 2 fine ++ go 3 1 fine)]
    (boot sample_cfg 1 8) = Fault.
Proof. vm_compute. reflexivity. Qed.

(** A delivery inside a bot that was destroyed is not counted either: the walk is over
    bot_list, which the bot has left. *)
Theorem bot_inflight_doomed :
  run [(true, bot_up ++ Spawn (B_message 1) :: go 3 1 fine ++ Spawn (B_destroy bob) :: go 4 11 fine ++
        Spawn (B_unload 0) :: go 5 2 fine ++ go 3 1 fine)]
    (boot sample_cfg 1 8) = Fault.
Proof. vm_compute. reflexivity. Qed.

(** bot_find() gives no reference: the bot it found is destroyed before it is stopped. *)
Theorem bot_find_race :
  run [(true, bot_up ++ Spawn (B_stop bob) :: go 3 1 fine ++ Spawn (B_destroy bob) :: go 4 13 fine ++ go 3 2 fine)]
    (boot sample_cfg 1 8) = Fault.
Proof. vm_compute. reflexivity. Qed.

(** A reload whose closure holds the driver of a bot and a method it is bound to suspends the
    bot twice; the second mark takes the place of the first, so the driver is not given
    back, and the bot, without a driver, is not started. *)
Theorem bot_reload_both :
  ends [(false, set_up ++ Spawn (B_start bob) :: go 3 46 fine ++ Spawn (B_suspend_driver cmd) :: go 4 6 fine ++
         Spawn (B_suspend_method irc) :: go 5 29 fine ++ Spawn (B_resume_method irc) :: go 6 7 fine ++
         Spawn (B_resume_driver 0) :: go 7 5 fine)]
    (fun w => exists x, get_bot 0 (bw_bots w) = Some x /\ p_driver (b_part x) = None /\ p_state (b_part x) = BOT_CREATED /\
       p_susp (b_part x) = susp_none).
Proof. vm_compute. split; [done|]. eexists. repeat split. Qed.
