(* ===== verification/Mfa.v ===== *)
(** * Patterns that say who a sender is: core/userns_mfa.c, core/userns_cache.c

    A user of a namespace has patterns of the form handle!user@host; a sender whose
    identity matches one is taken for that user. Here are the check of a pattern before it
    is stored, the split of an identity into its parts, the cache of all patterns of a
    namespace and the match of an identity against it. The C library's fnmatch() is a
    parameter, [Fnmatch]; what is assumed of it is what POSIX says of patterns made of
    ordinary characters, stars, question marks and sets of ordinary characters. *)

From S2P Require Import Prelude Util.

#[local] Open Scope c_scope.

(** ** fnmatch *)

Inductive glob_item := G_char (c : ascii) | G_one | G_any | G_set (cs : cstr).

Definition special_in_set (c : ascii) : bool :=
  ceqb c "[" || ceqb c "]" || ceqb c "!" || ceqb c "^" || ceqb c "-" || ceqb c "\".

(** The items of a pattern, when it has no others; [set] holds what a set has so far. *)
Fixpoint glob_items (set : option cstr) (p : cstr) : option (list glob_item) :=
  match p, set with
  | [], None => Some []
  | [], Some _ => None
  | c :: p', None =>
      if ceqb c "\" then None
      else if ceqb c "[" then glob_items (Some []) p'
      else cons (if ceqb c "*" then G_any else if ceqb c "?" then G_one else G_char c) <$> glob_items None p'
  | c :: p', Some cs =>
      if ceqb c "]" && negb (bool_decide (cs = [])) then cons (G_set cs) <$> glob_items None p'
      else if special_in_set c then None
      else glob_items (Some (cs ++ [c])) p'
  end.

Definition same_char (c x : ascii) : bool := ceqb (tolower c) (tolower x).

Fixpoint glob (p : list glob_item) : cstr -> bool :=
  match p with
  | [] => fun s => match s with [] => true | _ => false end
  | G_char c :: p' => fun s => match s with x :: s' => same_char c x && glob p' s' | [] => false end
  | G_one :: p' => fun s => match s with _ :: s' => glob p' s' | [] => false end
  | G_set cs :: p' => fun s => match s with x :: s' => existsb (same_char x) cs && glob p' s' | [] => false end
  | G_any :: p' => fix any (s : cstr) : bool := glob p' s || match s with [] => false | _ :: s' => any s' end
  end.

(** fnmatch() with FNM_CASEFOLD says whether the string matches. *)
Class Fnmatch := {
  fnmatch : cstr -> cstr -> bool;
  fnmatch_glob : forall p s g, glob_items None p = Some g -> fnmatch p s = glob g s
}.

(** ** Patterns *)

Definition USERNS_USER_SZ : nat := 31.
Definition USERNS_MFA_PATTERN_SZ : nat := 201.
Definition USERNS_UUID_SZ : nat := 37.
Definition MFA_CACHE_BUCKETS : nat := 64.

Definition non_glob (c : ascii) : bool := negb (ceqb c "*") && negb (ceqb c "?").

Definition non_globs (s : cstr) : nat := length (List.filter non_glob s).

(** Where the separators are. *)
Definition mfa_split (str : cstr) : option (nat * nat) :=
  match strchr str "!" with
  | None | Some O => None
  | Some bang =>
      match strchr (str +> S bang) "@" with
      | None | Some O => None
      | Some at_ => match str +> (bang + at_ + 2) with [] => None | _ => Some (bang, at_) end
      end
  end.

Definition validate_mfa_pattern (pattern : cstr) : bool :=
  match pattern with
  | [] => false
  | _ =>
      if (USERNS_MFA_PATTERN_SZ <=? length pattern)%nat then false
      else match mfa_split pattern with
           | None => false
           | Some (bang, at_) =>
               if (non_globs (take bang pattern) <? 3)%nat then false
               else negb (non_globs (pattern +> (bang + at_ + 2)) <? 6)%nat
           end
  end.

Record mfa_parts_t := mk_parts { mp_handle : cstr; mp_user : cstr; mp_host : cstr }.

Definition parse_mfa_string (str : cstr) : option mfa_parts_t :=
  match mfa_split str with
  | None => None
  | Some (bang, at_) =>
      let handle := take bang str in
      let user := take at_ (str +> S bang) in
      let host := str +> (bang + at_ + 2) in
      if (USERNS_MFA_PATTERN_SZ <=? length handle)%nat || (USERNS_MFA_PATTERN_SZ <=? length user)%nat
         || (USERNS_MFA_PATTERN_SZ <=? length host)%nat
      then None
      else Some (mk_parts handle user host)
  end.

(** ** The cache *)

Record mfa_cache_entry_t := mk_mce { ce_pattern : cstr; ce_username : cstr; ce_uuid : cstr }.

(** The chains of the buckets; the first of a chain was added last. *)
Record userns_cache_t := mk_cache { uc_buckets : list (list mfa_cache_entry_t); uc_count : Z }.

Definition userns_cache_clear : userns_cache_t := mk_cache (replicate MFA_CACHE_BUCKETS []) 0.

(** A row of the query: uuid, user name, pattern. *)
Definition mfa_row : Type := (cstr * cstr * cstr)%type.

Definition cache_entry (r : mfa_row) : mfa_cache_entry_t :=
  let '(uuid, username, pattern) := r in
  mk_mce (strlcpy USERNS_MFA_PATTERN_SZ pattern) (strlcpy USERNS_USER_SZ username) (strlcpy USERNS_UUID_SZ uuid).

Definition mfa_bucket (r : mfa_row) : nat := Z.to_nat (util_fnv1a_ci r.2 mod Z.of_nat MFA_CACHE_BUCKETS).

Definition cache_add (c : userns_cache_t) (r : mfa_row) : userns_cache_t :=
  mk_cache (alter (cons (cache_entry r)) (mfa_bucket r) (uc_buckets c)) (wrap 32 (uc_count c + 1)).

(** The rows are None when the query failed. *)
Definition userns_cache_populate (rows : option (list mfa_row)) : userns_cache_t :=
  match rows with
  | None => userns_cache_clear
  | Some rows => fold_left cache_add rows userns_cache_clear
  end.

(** ** The match *)

Section match_mfa.
Context `{Fnmatch}.

Definition match_entry (e : mfa_cache_entry_t) (inp : mfa_parts_t) : bool :=
  match parse_mfa_string (ce_pattern e) with
  | None => false
  | Some pat =>
      if negb (fnmatch (mp_handle pat) (mp_handle inp)) then false
      else if negb (fnmatch (mp_user pat) (mp_user inp)) then false
      else fnmatch (mp_host pat) (mp_host inp)
  end.

(** The scan of the buckets, for the first that matches. *)
Fixpoint mfa_scan (p : mfa_cache_entry_t -> bool) (bs : list (list mfa_cache_entry_t)) : option mfa_cache_entry_t :=
  match bs with
  | [] => None
  | b :: bs' => match List.find p b with Some e => Some e | None => mfa_scan p bs' end
  end.

Definition userns_mfa_match (c : userns_cache_t) (mfa_string : cstr) : option cstr :=
  match mfa_string with
  | [] => None
  | _ =>
      match parse_mfa_string mfa_string with
      | None => None
      | Some inp => strlcpy USERNS_USER_SZ ∘ ce_username <$> mfa_scan (fun e => match_entry e inp) (uc_buckets c)
      end
  end.

Definition userns_user_mfa_match (c : userns_cache_t) (username mfa_string : cstr) : bool :=
  match mfa_string with
  | [] => false
  | _ =>
      match parse_mfa_string mfa_string with
      | None => false
      | Some inp =>
          match mfa_scan (fun e => strcaseeq (ce_username e) username && match_entry e inp) (uc_buckets c) with
          | Some _ => true
          | None => false
          end
      end
  end.
End match_mfa.

(** ** Names *)

Definition name_char (c : ascii) : bool := islower c || isupper c || isdigit c.

Definition validate_username (username : cstr) : bool :=
  match username with
  | [] => false
  | _ => forallb name_char username && (length username <? USERNS_USER_SZ)%nat
  end.

(** The name bot_discover_user() makes of a sender's handle. *)
Definition discovered_name (mfa_string : cstr) : option cstr :=
  match strchr mfa_string "!" with
  | None | Some O => None
  | Some bang =>
      let hlen := if (USERNS_USER_SZ <=? bang)%nat then (USERNS_USER_SZ - 1)%nat else bang in
      match take (USERNS_USER_SZ - 1) (List.filter name_char (take hlen mfa_string)) with
      | [] => None
      | name => Some name
      end
  end.

(** The name with a number: [snprintf("%.*s%u")]. *)
Definition numbered (name : cstr) (suffix : Z) : cstr :=
  strlcpy USERNS_USER_SZ (take (USERNS_USER_SZ - 5) name ++ dec suffix).

(** ** Lemmas *)

(** A pattern without sets and escapes. *)
Definition plain_char (c : ascii) : bool := negb (ceqb c "[") && negb (ceqb c "\").
Definition plain (p : cstr) : Prop := forallb plain_char p = true.

Definition plain_item (c : ascii) : glob_item := if ceqb c "*" then G_any else if ceqb c "?" then G_one else G_char c.

Lemma plain_items p : plain p -> glob_items None p = Some (map plain_item p).
Proof.
  unfold plain. induction p as [|c p IH]; intros Hp; [done|]. cbn [forallb] in Hp. apply andb_true_iff in Hp as [Hc Hp].
  apply andb_true_iff in Hc as [Hb He]. apply negb_true_iff in Hb, He. cbn [glob_items]. by rewrite He, Hb, (IH Hp).
Qed.

Lemma plain_app p q : plain (p ++ q) <-> plain p /\ plain q.
Proof. unfold plain. by rewrite forallb_app, andb_true_iff. Qed.

Lemma glob_any_cons g s : glob (G_any :: g) s = glob g s || match s with [] => false | _ :: s' => glob (G_any :: g) s' end.
Proof. by destruct s. Qed.

(** What a star stands for. *)
Lemma glob_any g s : glob (G_any :: g) s = true <-> exists k, glob g (drop k s) = true.
Proof.
  induction s as [|c s IH]; rewrite glob_any_cons, orb_true_iff.
  - split; [intros [H|[=]]; by exists 0%nat|intros [k Hk]; left; by rewrite drop_nil in Hk].
  - rewrite IH. split.
    + intros [H|[k Hk]]; [by exists 0%nat|by exists (S k)].
    + intros [[|k] Hk]; [by left|right; by exists k].
Qed.

Lemma sublist_drop {A} k (l s : list A) : sublist l (drop k s) -> sublist l s.
Proof. intros H. rewrite <- (take_drop k s). by apply sublist_inserts_l. Qed.

(** What matches has the characters of the pattern in order. *)
Lemma glob_literals p : forall s, glob (map plain_item p) s = true ->
  sublist (map tolower (List.filter non_glob p)) (map tolower s).
Proof.
  induction p as [|c p IH]; intros s Hg; [apply sublist_nil_l|]. cbn [map List.filter] in *. unfold non_glob.
  unfold plain_item in Hg at 1. destruct (ceqb c "*") eqn:E1; cbn [negb andb] in *.
  { apply glob_any in Hg as [k Hk]. apply (sublist_drop k). rewrite skipn_map. by apply IH. }
  destruct (ceqb c "?") eqn:E2; cbn [negb] in *.
  { destruct s as [|x s]; [done|]. cbn [glob] in Hg. apply sublist_cons. by apply IH. }
  destruct s as [|x s]; [done|]. cbn [glob] in Hg. apply andb_true_iff in Hg as [Hc Hg].
  unfold same_char in Hc. creflect. cbn [map]. rewrite Hc. apply sublist_skip. by apply IH.
Qed.

(** A plain pattern matches itself. *)
Lemma glob_self p : glob (map plain_item p) p = true.
Proof.
  induction p as [|c p IH]; [done|]. cbn [map]. unfold plain_item at 1.
  destruct (ceqb c "*"); [apply glob_any; by exists 1%nat|].
  destruct (ceqb c "?"); [exact IH|]. cbn [glob]. unfold same_char. by rewrite ceqb_refl.
Qed.

Lemma plain_take n p : plain p -> plain (take n p).
Proof. intros Hp. rewrite <- (take_drop n p) in Hp. by apply plain_app in Hp as [? ?]. Qed.

Lemma plain_drop n p : plain p -> plain (p +> n).
Proof. intros Hp. rewrite <- (take_drop n p) in Hp. by apply plain_app in Hp as [? ?]. Qed.

(** An accepted pattern has three parts. *)
Lemma validated_parse pattern : validate_mfa_pattern pattern = true ->
  exists pat, parse_mfa_string pattern = Some pat /\ (3 <= non_globs (mp_handle pat))%nat /\ (6 <= non_globs (mp_host pat))%nat /\
    (length pattern < USERNS_MFA_PATTERN_SZ)%nat /\
    (plain pattern -> plain (mp_handle pat) /\ plain (mp_user pat) /\ plain (mp_host pat)).
Proof.
  unfold validate_mfa_pattern, parse_mfa_string. intros Hv. destruct pattern as [|c p]; [done|]. set (pattern := c :: p) in *.
  destruct (USERNS_MFA_PATTERN_SZ <=? length pattern)%nat eqn:El; [done|]. apply Nat.leb_gt in El.
  destruct (mfa_split pattern) as [[bang at_]|]; [|done].
  destruct (non_globs (take bang pattern) <? 3)%nat eqn:E3; [done|]. apply Nat.ltb_ge in E3. apply negb_true_iff, Nat.ltb_ge in Hv.
  exists (mk_parts (take bang pattern) (take at_ (pattern +> S bang)) (pattern +> (bang + at_ + 2))).
  rewrite !(proj2 (Nat.leb_gt _ _)) by (rewrite ?length_take, ?length_drop; lia). cbn [orb mp_handle mp_user mp_host].
  split_and!; [done..|]. intros Hp. by split_and!; eauto using plain_take, plain_drop.
Qed.

Section match_facts.
Context `{Fnmatch}.

Lemma fnmatch_plain p s : plain p -> fnmatch p s = glob (map plain_item p) s.
Proof. intros Hp. by apply fnmatch_glob, plain_items. Qed.

Lemma match_entry_iff e inp : match_entry e inp = true <->
  exists pat, parse_mfa_string (ce_pattern e) = Some pat /\ fnmatch (mp_handle pat) (mp_handle inp) = true /\
    fnmatch (mp_user pat) (mp_user inp) = true /\ fnmatch (mp_host pat) (mp_host inp) = true.
Proof.
  unfold match_entry. destruct (parse_mfa_string (ce_pattern e)) as [pat|]; [|by split; [|intros (? & [=] & _)]].
  split.
  - destruct (fnmatch (mp_handle pat) _) eqn:E1; [|done]. destruct (fnmatch (mp_user pat) _) eqn:E2; [|done].
    intros E3. by exists pat.
  - intros (pat' & [= <-] & -> & -> & E3). done.
Qed.

(** *** The cache is the table *)

Lemma mfa_bucket_lt r : (mfa_bucket r < MFA_CACHE_BUCKETS)%nat.
Proof. unfold mfa_bucket, MFA_CACHE_BUCKETS. pose proof (Z.mod_pos_bound (util_fnv1a_ci r.2) 64 ltac:(lia)). lia. Qed.

Lemma concat_alter_cons {A} (x : A) (bs : list (list A)) i : (i < length bs)%nat -> concat (alter (cons x) i bs) ≡ₚ x :: concat bs.
Proof.
  revert i. induction bs as [|b bs IH]; intros [|i] Hi; cbn [length] in *; try lia; [done|].
  change (alter (cons x) (S i) (b :: bs)) with (b :: alter (cons x) i bs). cbn [concat].
  rewrite IH by lia. by rewrite Permutation_middle.
Qed.

Lemma cache_add_all rows : forall c, length (uc_buckets c) = MFA_CACHE_BUCKETS ->
  let c' := fold_left cache_add rows c in
  length (uc_buckets c') = MFA_CACHE_BUCKETS /\ concat (uc_buckets c') ≡ₚ map cache_entry rows ++ concat (uc_buckets c) /\
  uc_count c' = fold_left (fun n _ => wrap 32 (n + 1)) rows (uc_count c).
Proof.
  induction rows as [|r rows IH]; intros c Hl; [done|]. cbn [fold_left map app] in *.
  destruct (IH (cache_add c r)) as (H1 & H2 & H3); [cbn; by rewrite length_alter|].
  split_and!; [done| |done]. rewrite H2. cbn [cache_add uc_buckets].
  rewrite concat_alter_cons by (rewrite Hl; apply mfa_bucket_lt). by rewrite Permutation_middle.
Qed.

Lemma populated rows : concat (uc_buckets (userns_cache_populate (Some rows))) ≡ₚ map cache_entry rows.
Proof.
  destruct (cache_add_all rows userns_cache_clear) as (_ & H2 & _); [by apply length_replicate|].
  cbn [userns_cache_populate]. rewrite H2. replace (concat (uc_buckets userns_cache_clear)) with (@nil mfa_cache_entry_t) by reflexivity.
  by rewrite app_nil_r.
Qed.

Lemma mfa_scan_concat p bs : mfa_scan p bs = List.find p (concat bs).
Proof.
  induction bs as [|b bs IH]; [done|]. cbn [mfa_scan concat]. rewrite IH. clear IH.
  induction b as [|e b IH]; [done|]. cbn [List.find app]. by destruct (p e).
Qed.

Lemma scan_some p rows e : mfa_scan p (uc_buckets (userns_cache_populate (Some rows))) = Some e ->
  exists r, r ∈ rows /\ e = cache_entry r /\ p e = true.
Proof.
  rewrite mfa_scan_concat. intros Hf. apply List.find_some in Hf as [Hin Hp]. apply list_elem_of_In in Hin.
  rewrite populated in Hin. apply list_elem_of_fmap in Hin as (r & -> & Hr). by exists r.
Qed.

Lemma scan_none p rows : mfa_scan p (uc_buckets (userns_cache_populate (Some rows))) = None ->
  forall r, r ∈ rows -> p (cache_entry r) = false.
Proof.
  rewrite mfa_scan_concat. intros Hf r Hr. apply (List.find_none _ _ Hf), list_elem_of_In. rewrite populated.
  by apply list_elem_of_fmap_2.
Qed.
End match_facts.

(** ** What a pattern lets in *)

(** An accepted pattern without sets and escapes identifies only senders whose nick has
    the pattern's ordinary characters in that order, three or more, and whose host has
    those of its host part, six or more; there is no wildcard for everybody. *)
Theorem mfa_pattern_strength `{Fnmatch} (e : mfa_cache_entry_t) (inp : mfa_parts_t)
    (Hv : validate_mfa_pattern (ce_pattern e) = true) (Hp : plain (ce_pattern e)) (Hm : match_entry e inp = true) :
  exists pat, parse_mfa_string (ce_pattern e) = Some pat /\
    sublist (map tolower (List.filter non_glob (mp_handle pat))) (map tolower (mp_handle inp)) /\
    sublist (map tolower (List.filter non_glob (mp_host pat))) (map tolower (mp_host inp)) /\
    (3 <= length (mp_handle inp))%nat /\ (6 <= length (mp_host inp))%nat.
Proof.
  destruct (validated_parse _ Hv) as (pat & E & H3 & H6 & _ & Hpl). destruct (Hpl Hp) as (P1 & _ & P3).
  apply match_entry_iff in Hm as (pat' & E' & M1 & _ & M3). rewrite E in E'. injection E' as <-.
  rewrite fnmatch_plain in M1, M3 by done. apply glob_literals in M1, M3. exists pat.
  pose proof (sublist_length _ _ M1) as L1. pose proof (sublist_length _ _ M3) as L3.
  rewrite !length_map in L1, L3. unfold non_globs in H3, H6. split_and!; try done; lia.
Qed.

Definition row_matches `{Fnmatch} (r : mfa_row) (inp : mfa_parts_t) : Prop :=
  exists pat, parse_mfa_string r.2 = Some pat /\ fnmatch (mp_handle pat) (mp_handle inp) = true /\
    fnmatch (mp_user pat) (mp_user inp) = true /\ fnmatch (mp_host pat) (mp_host inp) = true.

(** What the checks on names and patterns leave in the table. *)
Definition row_fits (r : mfa_row) : Prop := (length r.2 < USERNS_MFA_PATTERN_SZ)%nat /\ (length r.1.2 < USERNS_USER_SZ)%nat.

Lemma entry_of_row r : row_fits r -> ce_pattern (cache_entry r) = r.2 /\ ce_username (cache_entry r) = r.1.2.
Proof. destruct r as [[u n] p]. intros [H1 H2]. cbn [fst snd cache_entry ce_pattern ce_username] in *. by rewrite !strlcpy_fits. Qed.

Lemma match_row `{Fnmatch} r inp : row_fits r -> match_entry (cache_entry r) inp = true <-> row_matches r inp.
Proof. intros Hr. rewrite match_entry_iff. unfold row_matches. by rewrite (proj1 (entry_of_row r Hr)). Qed.


(** The pattern a discovered user gets identifies that user again. *)
Lemma own_pattern `{Fnmatch} mfa u uuid : plain mfa -> validate_mfa_pattern mfa = true ->
  exists inp, parse_mfa_string mfa = Some inp /\ match_entry (mk_mce mfa u uuid) inp = true.
Proof.
  intros Hp Hv. destruct (validated_parse mfa Hv) as (pat & E & _ & _ & _ & Hpl). destruct (Hpl Hp) as (P1 & P2 & P3).
  exists pat. split; [done|]. apply match_entry_iff. exists pat. rewrite !fnmatch_plain by done. by rewrite !glob_self.
Qed.

(** *** What the check does not see *)

Definition alnums : cstr := lit "abcdefghijklmnopqrstuvwxyz0123456789".
Definition set_of (cs : cstr) : cstr := lit "[" ++ cs ++ lit "]*".
Definition everybody : cstr := set_of alnums ++ lit "!*@" ++ set_of alnums.

Definition begins_alnum (s : cstr) : Prop := match s with c :: _ => isalnum c = true | [] => False end.

Lemma glob_rest s : glob [G_any] s = true.
Proof. apply glob_any. exists (length s). by rewrite drop_all. Qed.

Lemma set_matches `{Fnmatch} s : begins_alnum s -> fnmatch (set_of alnums) s = true.
Proof.
  intros Hs. rewrite (fnmatch_glob _ _ [G_set alnums; G_any]) by (vm_compute; reflexivity).
  destruct s as [|c s]; [done|]. change (existsb (same_char c) alnums && glob [G_any] s = true). rewrite glob_rest, andb_true_r.
  cbn [begins_alnum] in Hs. revert Hs.
  assert (Hc : negb (isalnum c) || existsb (same_char c) alnums = true) by by_chars (fun c => negb (isalnum c) || existsb (same_char c) alnums) c.
  intros Hs. by rewrite Hs in Hc.
Qed.

(** Characters in a set count as ordinary ones, so a pattern of sets that matches every
    nick and every host is accepted. *)
Theorem mfa_brackets_pass `{Fnmatch} :
  validate_mfa_pattern everybody = true /\
  forall u uuid inp, begins_alnum (mp_handle inp) -> begins_alnum (mp_host inp) -> match_entry (mk_mce everybody u uuid) inp = true.
Proof.
  split; [vm_compute; reflexivity|]. intros u uuid inp H1 H3. apply match_entry_iff.
  exists (mk_parts (set_of alnums) (lit "*") (set_of alnums)). split; [vm_compute; reflexivity|]. cbn [mp_handle mp_user mp_host].
  split_and!; [by apply set_matches| |by apply set_matches].
  rewrite (fnmatch_glob _ _ [G_any]) by reflexivity. apply glob_rest.
Qed.

(** The user part is matched as a pattern too, and it may be a lone star. *)
Theorem mfa_user_globs `{Fnmatch} : exists p,
  validate_mfa_pattern p = true /\
  forall u uuid user, match_entry (mk_mce p u uuid) (mk_parts (lit "bob") user (lit "a.host")) = true.
Proof.
  exists (lit "bob!*@a.host"). split; [reflexivity|]. intros u uuid user. apply match_entry_iff.
  exists (mk_parts (lit "bob") (lit "*") (lit "a.host")). split; [reflexivity|]. cbn [mp_handle mp_user mp_host].
  rewrite !(fnmatch_plain (lit "bob")), !(fnmatch_plain (lit "a.host")), (fnmatch_plain (lit "*")) by done.
  split_and!; [apply glob_self|apply glob_rest|apply glob_self].
Qed.

(** ** Witnesses *)

Definition posix_fnmatch : Fnmatch.
Proof.
  refine {| fnmatch p s := match glob_items None p with Some g => glob g s | None => false end |}.
  by intros p s g ->.
Defined.

Definition bob_row : mfa_row := (lit "0-1", lit "bob", lit "bob*!*@*.example.org").
Definition bob_mfa : cstr := lit "BobAway!b@pc.example.org".

Lemma mfa_pattern_strength_witness : exists inp pat,
  parse_mfa_string bob_mfa = Some inp /\ parse_mfa_string (ce_pattern (cache_entry bob_row)) = Some pat /\
  (3 <= length (mp_handle inp))%nat.
Proof.
  eexists. destruct (@mfa_pattern_strength posix_fnmatch (cache_entry bob_row) (mk_parts (lit "BobAway") (lit "b") (lit "pc.example.org"))) as (pat & E & _ & _ & H3 & _).
  - vm_compute. reflexivity.
  - vm_compute. reflexivity.
  - vm_compute. reflexivity.
  - exists pat. split; [vm_compute; reflexivity|]. split; [exact E|exact H3].
Defined.

