(* ===== verification/Logins.v ===== *)
(** * Who a message acts as: core/userns.c, core/userns_tmfa.c, core/bot.c

    Two things make a sender a user: a login, which !identify mints after a password and
    which is bound to the part of the sender's identity that lasts as long as the
    connection, and a pattern of [Mfa]. Logins idle out, end with the connection, can be
    dropped, and are kept in a table across restarts. Here are the functions that mint,
    look up, refresh and end logins, those that create users and grant patterns, and the
    question bot.c asks for every message, as programs of [Conc] over the tables of one
    namespace and its two caches.

    An action is a critical section under a cache's lock, one statement of SQL, or one call
    out. The text of the statements is in the source, and what they do to the tables is
    written out; whether the database answers is up to the environment. The time between
    the clock and the lock is a step of its own. *)

From S2P Require Import Prelude Conc Mfa.

#[local] Open Scope c_scope.

(** ** Data *)

Definition USERNS_TMFA_MAX : nat := 8.
Definition USERNS_TMFA_PERSIST_SEC : Z := 60.
Definition USERNS_TMFA_SWEEP_SEC : Z := 300.
Definition USERNS_TMFA_BOT_SZ : nat := 64.
Definition USERNS_TMFA_KIND_SZ : nat := 64.
Definition METHOD_META_SZ : nat := 512.

(** Rows of userns_user and of user_mfa_temp. *)
Record user_row := mk_user { us_id : Z; us_name : cstr; us_uuid : cstr; us_hash : cstr; us_auto : bool }.
Record temp_row := mk_temp { tr_user : Z; tr_key : cstr; tr_bot : cstr; tr_kind : cstr; tr_created : Z; tr_seen : Z }.

Record tmfa_entry_t := mk_tmfa_entry {
  te_user : Z; te_username : cstr; te_key : cstr; te_bot : cstr; te_kind : cstr;
  te_created : Z; te_seen : Z; te_persisted : Z
}.

Record tmfa_cache_t := mk_tmfa { tc_entries : list tmfa_entry_t; tc_count : Z; tc_last_sweep : Z }.

Inductive tmfa_result_t := TMFA_NONE | TMFA_OK | TMFA_EXPIRED.
Inductive tmfa_presence_t := TMFA_ABSENT | TMFA_PRESENT | TMFA_ORPHAN.
Inductive userns_auth_t := USERNS_AUTH_OK | USERNS_AUTH_BAD_USER | USERNS_AUTH_BAD_PASS | USERNS_AUTH_NO_HASH | USERNS_AUTH_ERR.

#[export] Instance tmfa_presence_eq_dec : EqDecision tmfa_presence_t.
Proof. solve_decision. Defined.

(** A method instance: its kind, and its driver's identity_key() if it has one. *)
Record method := mk_method { mt_kind : cstr; mt_identity_key : option (cstr -> nat -> option cstr) }.

(** What has happened, the latest first: a history the code does not keep. A login is
    minted, renewed, active and ended for a user, a method kind and a key; a user has
    proved a password, or is answered for a login or for a pattern; a command is run as a user,
    for a message that came when [since] things had happened; and the end of a connection
    that was reported then has been dealt with. *)
Inductive happening :=
| H_user (id : Z) (name : cstr)
| H_granted (id : Z) (pattern : cstr)
| H_proved (name : cstr)
| H_loaded (id : Z) (name bot kind key : cstr) (t : Z)
| H_minted (id : Z) (name bot kind key : cstr) (t : Z)
| H_renewed (id : Z) (name bot kind key : cstr) (t : Z)
| H_active (id : Z) (kind key : cstr) (t : Z)
| H_ended (id : Z) (kind key : cstr)
| H_login (id : Z) (name kind key : cstr) (t timeout : Z)
| H_matched (name mfa : cstr)
| H_acts (since : nat) (name : cstr) (m : method) (metadata : cstr)
| H_gone (since : nat) (m : method) (metadata : cstr).

(** The tables of one namespace, its caches, and the history. *)
Record lmem := mk_lmem {
  m_users : list user_row;
  m_next : Z;
  m_mfa : list (Z * cstr);
  m_temp : list temp_row;
  m_cache : userns_cache_t;
  m_tmfa : option tmfa_cache_t;
  m_log : list happening
}.

Definition set_users x n m := mk_lmem x n (m_mfa m) (m_temp m) (m_cache m) (m_tmfa m) (m_log m).
Definition set_mfa x m := mk_lmem (m_users m) (m_next m) x (m_temp m) (m_cache m) (m_tmfa m) (m_log m).
Definition set_temp x m := mk_lmem (m_users m) (m_next m) (m_mfa m) x (m_cache m) (m_tmfa m) (m_log m).
Definition set_cache x m := mk_lmem (m_users m) (m_next m) (m_mfa m) (m_temp m) x (m_tmfa m) (m_log m).
Definition set_tmfa x m := mk_lmem (m_users m) (m_next m) (m_mfa m) (m_temp m) (m_cache m) x (m_log m).
Definition add_log hs m := mk_lmem (m_users m) (m_next m) (m_mfa m) (m_temp m) (m_cache m) (m_tmfa m) (hs ++ m_log m).

(** A statement is executed or not; when the connection breaks, it may have been executed
    although db_query() fails. *)
Inductive db_answer := Db_ok | Db_failed | Db_lost.

Record reply := mk_reply {
  rp_db : db_answer; rp_now : Z; rp_timeout : cstr -> cstr -> Z; rp_n : Z; rp_text : cstr
}.

Notation P := (prog lmem reply).

(** [f] is the statement and the answer to it, [fail] what the caller makes of a failure;
    db_escape() failing has the same outcome. *)
Definition query {B} (fail : B) (f : reply -> lmem -> lmem * B) : P B :=
  act (fun a m => match rp_db a with
                  | Db_ok => Ok (f a m)
                  | Db_failed => Ok (m, fail)
                  | Db_lost => Ok ((f a m).1, fail)
                  end).

Definition the_time : P Z := act (fun a m => Ok (m, rp_now a)).
Definition a_number : P Z := act (fun a m => Ok (m, rp_n a)).
Definition a_yes : P bool := act (fun a m => Ok (m, negb (rp_n a =? 0))).
Definition a_text : P cstr := act (fun a m => Ok (m, rp_text a)).
Definition note (h : happening) : P unit := act (fun _ m => Ok (add_log [h] m, tt)).
Definition so_far : P nat := act (fun _ m => Ok (m, length (m_log m))).

(** A critical section on the cache of logins. *)
Definition on_tmfa {B} (f : reply -> tmfa_cache_t -> tmfa_cache_t * list happening * B) : P B :=
  act (fun a m => match m_tmfa m with
                  | None => Fault
                  | Some c => let '(c', hs, b) := f a c in Ok (set_tmfa (Some c') (add_log hs m), b)
                  end).

Definition has_tmfa : P bool := act (fun _ m => Ok (m, match m_tmfa m with Some _ => true | None => false end)).

(** ** Users *)

Definition has_name (name : cstr) (u : user_row) : bool := seqb (us_name u) name.

Definition userns_get_user_id (name : cstr) : P Z :=
  query 0 (fun _ m => (m, match List.find (has_name name) (m_users m) with Some u => us_id u | None => 0 end)).

Definition userns_user_exists (name : cstr) : P bool :=
  query false (fun _ m => (m, existsb (has_name name) (m_users m))).

Definition userns_user_get_autoidentify (name : cstr) : P bool :=
  query false (fun _ m => (m, match List.find (has_name name) (m_users m) with Some u => us_auto u | None => false end)).

(** Users in the order of their ids, each with its patterns in order. *)
Definition patterns_of (m : lmem) (u : user_row) : list mfa_row :=
  map (fun r => (us_uuid u, us_name u, r.2)) (List.filter (fun r => r.1 =? us_id u) (m_mfa m)).

Definition mfa_rows (m : lmem) : list mfa_row := flat_map (patterns_of m) (m_users m).

Definition userns_cache_invalidate : P unit :=
  act (fun a m =>
    Ok (set_cache (userns_cache_populate (match rp_db a with Db_ok => Some (mfa_rows m) | _ => None end)) m, tt)).

(** [INSERT INTO userns_user], whose names are unique. *)
Definition insert_user (name hash : cstr) (a : reply) (m : lmem) : lmem * bool :=
  if existsb (has_name name) (m_users m) then (m, false)
  else (add_log [H_user (m_next m) name]
          (set_users (m_users m ++ [mk_user (m_next m) name (rp_text a) hash false]) (m_next m + 1) m), true).

(** The memberships in the built-in groups are not modelled. *)
Definition userns_user_create_nopass (name : cstr) : P bool :=
  if negb (validate_username name) then Ret false
  else
    ok ← query false (insert_user name []);
    if negb ok then Ret false else _ ← userns_cache_invalidate; Ret true.

(** The password policy and argon2 are the environment's. *)
Definition userns_user_create (name : cstr) : P bool :=
  if negb (validate_username name) then Ret false
  else
    policy ← a_yes;
    if negb policy then Ret false
    else
      hash ← a_text;
      ok ← query false (insert_user name hash);
      if negb ok then Ret false else _ ← userns_cache_invalidate; Ret true.

(** Whether the password is that of the stored hash is the environment's too. *)
Definition userns_auth (name : cstr) : P userns_auth_t :=
  r ← query None (fun _ m => (m, Some (List.find (has_name name) (m_users m))));
  match r with
  | None => Ret USERNS_AUTH_ERR
  | Some None => Ret USERNS_AUTH_BAD_USER
  | Some (Some u) =>
      match us_hash u with
      | [] => Ret USERNS_AUTH_NO_HASH
      | _ =>
          verified ← a_yes;
          if negb verified then Ret USERNS_AUTH_BAD_PASS else _ ← note (H_proved name); Ret USERNS_AUTH_OK
      end
  end.

(** ** Patterns *)

Definition userns_user_add_mfa (name pattern : cstr) : P bool :=
  if negb (validate_mfa_pattern pattern) then Ret false
  else
    id ← userns_get_user_id name;
    if id =? 0 then Ret false
    else
      max_mfa ← a_number;
      full ← query false (fun _ m => (m, max_mfa <=? wrap 32 (count (fun r => r.1 =? id) (m_mfa m))));
      if full : bool then Ret false
      else
        ok ← query false (fun _ m =>
               if negb (existsb (fun u => us_id u =? id) (m_users m)) || existsb (fun r => (r.1 =? id) && seqb r.2 pattern) (m_mfa m)
               then (m, false)
               else (add_log [H_granted id pattern] (set_mfa (m_mfa m ++ [(id, pattern)]) m), true));
        if negb ok then Ret false else _ ← userns_cache_invalidate; Ret true.

Definition userns_user_remove_mfa (name pattern : cstr) : P bool :=
  id ← userns_get_user_id name;
  if id =? 0 then Ret false
  else
    let gone (r : Z * cstr) := (r.1 =? id) && seqb r.2 pattern in
    removed ← query false (fun _ m => (set_mfa (List.filter (negb ∘ gone) (m_mfa m)) m, existsb gone (m_mfa m)));
    if negb removed then Ret false else _ ← userns_cache_invalidate; Ret true.

(** ** Logins: statements *)

Definition row_at (id : Z) (key : cstr) (r : temp_row) : bool := (tr_user r =? id) && seqb (tr_key r) key.

(** [INSERT ... ON CONFLICT (user_id, metadata) DO UPDATE]; the user must exist. *)
Definition tmfa_db_upsert (id : Z) (bot kind key : cstr) : P unit :=
  query tt (fun a m =>
    if negb (existsb (fun u => us_id u =? id) (m_users m)) then (m, tt)
    else if existsb (row_at id key) (m_temp m)
    then (set_temp (map (fun r => if row_at id key r then mk_temp id key bot kind (tr_created r) (rp_now a) else r) (m_temp m)) m, tt)
    else (set_temp (m_temp m ++ [mk_temp id key bot kind (rp_now a) (rp_now a)]) m, tt)).

Definition tmfa_db_delete (id : Z) (key : cstr) : P unit :=
  query tt (fun _ m => (set_temp (List.filter (negb ∘ row_at id key) (m_temp m)) m, tt)).

Definition tmfa_db_touch (id : Z) (key : cstr) (last_seen : Z) : P unit :=
  query tt (fun _ m =>
    (set_temp (map (fun r => if row_at id key r then mk_temp id (tr_key r) (tr_bot r) (tr_kind r) (tr_created r) last_seen else r) (m_temp m)) m, tt)).

(** ** Logins: the entries *)

Definition tmfa_idled_out (timeout : cstr -> cstr -> Z) (bot kind : cstr) (last_seen now : Z) : bool :=
  let t := wrap 32 (timeout bot kind) in negb (t =? 0) && (t <? now - last_seen).

Definition tmfa_matches (kind key : cstr) (e : tmfa_entry_t) : bool :=
  strcaseeq (te_kind e) kind && strncaseeq USERNS_MFA_PATTERN_SZ (te_key e) key.

Definition seen_at (now : Z) (e : tmfa_entry_t) : tmfa_entry_t :=
  mk_tmfa_entry (te_user e) (te_username e) (te_key e) (te_bot e) (te_kind e) (te_created e) now (te_persisted e).

(** The stamp, and whether it is to be written. *)
Definition tmfa_stamp (now : Z) (e : tmfa_entry_t) : tmfa_entry_t * bool :=
  if now - te_persisted e <? USERNS_TMFA_PERSIST_SEC then (seen_at now e, false)
  else (mk_tmfa_entry (te_user e) (te_username e) (te_key e) (te_bot e) (te_kind e) (te_created e) now now, true).

Definition active (now : Z) (e : tmfa_entry_t) : happening := H_active (te_user e) (te_kind e) (te_key e) now.
Definition ended (e : tmfa_entry_t) : happening := H_ended (te_user e) (te_kind e) (te_key e).

(** The entries before the first that [p] says, that entry, and those after it. *)
Fixpoint split_at (p : tmfa_entry_t -> bool) (l : list tmfa_entry_t) : option (list tmfa_entry_t * tmfa_entry_t * list tmfa_entry_t) :=
  match l with
  | [] => None
  | e :: l' =>
      if p e then Some ([], e, l')
      else match split_at p l' with Some (pre, x, post) => Some (e :: pre, x, post) | None => None end
  end.

Definition with_entries (l : list tmfa_entry_t) (c : tmfa_cache_t) : tmfa_cache_t := mk_tmfa l (tc_count c) (tc_last_sweep c).

(** The list without an entry that was unlinked. *)
Definition unlinked (l : list tmfa_entry_t) (c : tmfa_cache_t) : tmfa_cache_t := mk_tmfa l (wrap 32 (tc_count c - 1)) (tc_last_sweep c).

(** ** Loading *)

Definition loaded_entry (u : user_row) (r : temp_row) : tmfa_entry_t :=
  mk_tmfa_entry (us_id u) (strlcpy USERNS_USER_SZ (us_name u)) (strlcpy USERNS_MFA_PATTERN_SZ (tr_key r))
    (strlcpy USERNS_TMFA_BOT_SZ (tr_bot r)) (strlcpy USERNS_TMFA_KIND_SZ (tr_kind r)) (tr_created r) (tr_seen r) (tr_seen r).

(** [FROM user_mfa_temp t JOIN userns_user u], in the order of the rows. *)
Definition temp_rows (m : lmem) : list (user_row * temp_row) :=
  flat_map (fun r => map (fun u => (u, r)) (List.filter (fun u => us_id u =? tr_user r) (m_users m))) (m_temp m).

Definition loaded (e : tmfa_entry_t) : happening := H_loaded (te_user e) (te_username e) (te_bot e) (te_kind e) (te_key e) (te_seen e).

Definition userns_tmfa_ensure : P unit :=
  act (fun a m =>
    match m_tmfa m with
    | Some _ => Ok (m, tt)
    | None =>
        let es := match rp_db a with Db_ok => rev (map (fun ur => loaded_entry ur.1 ur.2) (temp_rows m)) | _ => [] end in
        Ok (set_tmfa (Some (mk_tmfa es (wrap 32 (Z.of_nat (length es))) 0)) (add_log (map loaded es) m), tt)
    end).

(** ** Minting *)

Definition held_by (id : Z) (e : tmfa_entry_t) : bool := te_user e =? id.

(** The place of the user's entry that was seen longest ago, the first of them; [best] is
    the best so far and [i] the place of the list's head. *)
Fixpoint stalest (id : Z) (i : nat) (best : option (nat * Z)) (l : list tmfa_entry_t) : option nat :=
  match l with
  | [] => fst <$> best
  | e :: l' =>
      let best' :=
        if negb (held_by id e) then best
        else match best with
             | Some (_, t) => if te_seen e <? t then Some (i, te_seen e) else best
             | None => Some (i, te_seen e)
             end in
      stalest id (S i) best' l'
  end.

Definition login_entry (id : Z) (name bot kind key : cstr) (now : Z) : tmfa_entry_t :=
  mk_tmfa_entry id (strlcpy USERNS_USER_SZ name) (strlcpy USERNS_MFA_PATTERN_SZ key)
    (strlcpy USERNS_TMFA_BOT_SZ bot) (strlcpy USERNS_TMFA_KIND_SZ kind) now now now.

Definition renew (bot : cstr) (now : Z) (e : tmfa_entry_t) : tmfa_entry_t :=
  mk_tmfa_entry (te_user e) (te_username e) (te_key e) (strlcpy USERNS_TMFA_BOT_SZ bot) (te_kind e) (te_created e) now now.

Definition minted (e : tmfa_entry_t) : happening := H_minted (te_user e) (te_username e) (te_bot e) (te_kind e) (te_key e) (te_seen e).
Definition renewed (e : tmfa_entry_t) : happening := H_renewed (te_user e) (te_username e) (te_bot e) (te_kind e) (te_key e) (te_seen e).

(** Without the user's stalest entry, when it has all it may have. *)
Definition evict (id : Z) (c : tmfa_cache_t) : tmfa_cache_t * option tmfa_entry_t :=
  if (Z.of_nat USERNS_TMFA_MAX <=? count (held_by id) (tc_entries c)) then
    match stalest id 0 None (tc_entries c) with
    | Some i => (unlinked (delete i (tc_entries c)) c, tc_entries c !! i)
    | None => (c, None)
    end
  else (c, None).

(** The critical section of userns_tmfa_add(): renewed, or what was evicted. *)
Definition tmfa_add_locked (id : Z) (name bot kind key : cstr) (now : Z) (c : tmfa_cache_t)
    : tmfa_cache_t * list happening * (bool * option (Z * cstr)) :=
  match split_at (fun e => held_by id e && tmfa_matches kind key e) (tc_entries c) with
  | Some (pre, e, post) =>
      (with_entries (pre ++ renew bot now e :: post) c, [renewed (renew bot now e)], (true, None))
  | None =>
      let e := login_entry id name bot kind key now in
      let '(c', out) := evict id c in
      (mk_tmfa (e :: tc_entries c') (wrap 32 (tc_count c' + 1)) (tc_last_sweep c'),
       minted e :: match out with Some x => [ended x] | None => [] end,
       (false, (fun x => (te_user x, te_key x)) <$> out))
  end.

Definition userns_tmfa_add (name bot kind key : cstr) : P bool :=
  match key with
  | [] => Ret false
  | _ =>
      if (USERNS_MFA_PATTERN_SZ <=? length key)%nat || (USERNS_TMFA_BOT_SZ <=? length bot)%nat
         || (USERNS_TMFA_KIND_SZ <=? length kind)%nat
      then Ret false
      else
        id ← userns_get_user_id name;
        if id =? 0 then Ret false
        else
          _ ← userns_tmfa_ensure;
          now ← the_time;
          r ← on_tmfa (fun _ c => tmfa_add_locked id name bot kind key now c);
          let '(old, out) := r : bool * option (Z * cstr) in
          if old : bool then _ ← tmfa_db_upsert id bot kind key; Ret true
          else
            _ ← match out with Some (i, k) => tmfa_db_delete i k | None => skip end;
            _ ← tmfa_db_upsert id bot kind key;
            Ret true
  end.

(** ** Looking up, refreshing, ending *)

(** What is owed to the table: nothing, a deletion, a stamp. *)
Definition tmfa_resolve_locked (kind key : cstr) (now : Z) (a : reply) (c : tmfa_cache_t)
    : tmfa_cache_t * list happening * (tmfa_result_t * option (tmfa_entry_t * bool)) :=
  match split_at (tmfa_matches kind key) (tc_entries c) with
  | None => (c, [], (TMFA_NONE, None))
  | Some (pre, e, post) =>
      if tmfa_idled_out (rp_timeout a) (te_bot e) (te_kind e) (te_seen e) now
      then (unlinked (pre ++ post) c, [ended e], (TMFA_EXPIRED, Some (e, true)))
      else
        let '(e', touch) := tmfa_stamp now e in
        (with_entries (pre ++ e' :: post) c,
         [active now e; H_login (te_user e) (te_username e) kind key now (wrap 32 (rp_timeout a (te_bot e) (te_kind e)))],
         (TMFA_OK, Some (e, touch)))
  end.

Definition userns_tmfa_resolve (kind key : cstr) (user_sz : nat) : P (tmfa_result_t * cstr) :=
  there ← has_tmfa;
  match key with
  | [] => Ret (TMFA_NONE, [])
  | _ =>
      if negb there then Ret (TMFA_NONE, [])
      else
        now ← the_time;
        r ← on_tmfa (tmfa_resolve_locked kind key now);
        match r with
        | (res, Some (e, owed)) =>
            _ ← match res with
                | TMFA_EXPIRED => tmfa_db_delete (te_user e) (te_key e)
                | _ => when owed (tmfa_db_touch (te_user e) (te_key e) now)
                end;
            Ret (res, strlcpy user_sz (te_username e))
        | (res, None) => Ret (res, [])
        end
  end.

(** The walk of userns_tmfa_seen(); [n] stamps more fit the array. *)
Fixpoint seen_walk (timeout : cstr -> cstr -> Z) (kind key : cstr) (now : Z) (n : nat) (l : list tmfa_entry_t)
    : list tmfa_entry_t * list happening * list (Z * cstr) :=
  match l with
  | [] => ([], [], [])
  | e :: l' =>
      if negb (tmfa_matches kind key e) || tmfa_idled_out timeout (te_bot e) (te_kind e) (te_seen e) now
      then let '(r, hs, ts) := seen_walk timeout kind key now n l' in (e :: r, hs, ts)
      else match n with
           | O => let '(r, hs, ts) := seen_walk timeout kind key now O l' in (seen_at now e :: r, active now e :: hs, ts)
           | S n' =>
               let '(e', touch) := tmfa_stamp now e in
               let '(r, hs, ts) := seen_walk timeout kind key now (if touch : bool then n' else n) l' in
               (e' :: r, active now e :: hs, if touch then (te_user e, te_key e) :: ts else ts)
           end
  end.

Fixpoint touch_all (now : Z) (ts : list (Z * cstr)) : P unit :=
  match ts with
  | [] => skip
  | (id, key) :: ts' => _ ← tmfa_db_touch id key now; touch_all now ts'
  end.

Definition userns_tmfa_seen (kind key : cstr) : P unit :=
  there ← has_tmfa;
  match key with
  | [] => skip
  | _ =>
      if negb there then skip
      else
        now ← the_time;
        ts ← on_tmfa (fun a c =>
               let '(r, hs, ts) := seen_walk (rp_timeout a) kind key now USERNS_TMFA_MAX (tc_entries c) in
               (with_entries r c, hs, ts));
        touch_all now ts
  end.

(** One round of userns_tmfa_drop(). *)
Definition tmfa_drop_locked (kind key : cstr) (c : tmfa_cache_t) : tmfa_cache_t * list happening * option (Z * cstr) :=
  match split_at (tmfa_matches kind key) (tc_entries c) with
  | None => (c, [], None)
  | Some (pre, e, post) => (unlinked (pre ++ post) c, [ended e], Some (te_user e, te_key e))
  end.

Fixpoint drop_rounds (n : nat) (kind key : cstr) : P Z :=
  match n with
  | O => act (fun _ _ => Blocked)
  | S n' =>
      r ← on_tmfa (fun _ => tmfa_drop_locked kind key);
      match r with
      | None => Ret 0
      | Some (id, stored) =>
          _ ← tmfa_db_delete id stored;
          more ← drop_rounds n' kind key;
          Ret (wrap 32 (more + 1))
      end
  end.

Definition userns_tmfa_drop (kind key : cstr) : P Z :=
  there ← has_tmfa;
  match key with
  | [] => Ret 0
  | _ => if negb there then Ret 0 else rounds ← a_number; drop_rounds (Z.to_nat rounds) kind key
  end.

(** Which entries of the user the key says; all of them without one. *)
Definition del_entry (id : Z) (key : option cstr) (e : tmfa_entry_t) : bool :=
  held_by id e && match key with Some k => strncaseeq USERNS_MFA_PATTERN_SZ (te_key e) k | None => true end.

Fixpoint delete_all (id : Z) (keys : list cstr) : P unit :=
  match keys with
  | [] => skip
  | k :: keys' => _ ← tmfa_db_delete id k; delete_all id keys'
  end.

Definition tmfa_del_locked (id : Z) (key : option cstr) (c : tmfa_cache_t) : tmfa_cache_t * list happening * list cstr :=
  let out := List.filter (del_entry id key) (tc_entries c) in
  (mk_tmfa (List.filter (negb ∘ del_entry id key) (tc_entries c)) (wrap 32 (tc_count c - Z.of_nat (length out))) (tc_last_sweep c),
   map ended out, map te_key out).

Definition userns_tmfa_del (name : cstr) (key : option cstr) : P Z :=
  there ← has_tmfa;
  if negb there then Ret 0
  else
    id ← userns_get_user_id name;
    if id =? 0 then Ret 0
    else
      keys ← on_tmfa (fun _ => tmfa_del_locked id key);
      _ ← delete_all id (take USERNS_TMFA_MAX keys);
      Ret (wrap 32 (Z.of_nat (length keys))).

(** ** The sweep *)

Definition userns_tmfa_sweep_due : P bool :=
  there ← has_tmfa;
  if negb there then Ret false
  else
    now ← the_time;
    last ← on_tmfa (fun _ c => (c, [], tc_last_sweep c));
    if now - last <? USERNS_TMFA_SWEEP_SEC then Ret false
    else on_tmfa (fun _ c =>
           if tc_last_sweep c =? last then (mk_tmfa (tc_entries c) (tc_count c) now, [], true) else (c, [], false)).

Definition the_presence : P tmfa_presence_t :=
  act (fun a m => Ok (m, if rp_n a =? 0 then TMFA_ABSENT else if rp_n a =? 1 then TMFA_PRESENT else TMFA_ORPHAN)).

Definition still_idle (s : tmfa_entry_t) (now : Z) : P bool :=
  act (fun a m => Ok (m, tmfa_idled_out (rp_timeout a) (te_bot s) (te_kind s) (te_seen s) now)).

(** The live entry of a snapshot's: ended, stamped, or left; and whether it is dead or owes
    a stamp to the table. *)
Definition tmfa_sweep_locked (s : tmfa_entry_t) (p : tmfa_presence_t) (now : Z) (a : reply) (c : tmfa_cache_t)
    : tmfa_cache_t * list happening * (bool * bool) :=
  match split_at (fun e => held_by (te_user s) e && seqb (te_key e) (te_key s)) (tc_entries c) with
  | None => (c, [], (false, false))
  | Some (pre, e, post) =>
      if bool_decide (p = TMFA_ORPHAN) || tmfa_idled_out (rp_timeout a) (te_bot e) (te_kind e) (te_seen e) now
      then (unlinked (pre ++ post) c, [ended e], (true, false))
      else if bool_decide (p = TMFA_PRESENT)
      then let '(e', touch) := tmfa_stamp now e in (with_entries (pre ++ e' :: post) c, [active now e], (false, touch))
      else (c, [], (false, false))
  end.

Definition sweep_one (s : tmfa_entry_t) : P unit :=
  now ← the_time;
  idle ← still_idle s now;
  p ← (if idle : bool then Ret TMFA_ABSENT else the_presence);
  if negb idle && bool_decide (p = TMFA_ABSENT) then skip
  else
    r ← on_tmfa (tmfa_sweep_locked s p now);
    if r.1 : bool then tmfa_db_delete (te_user s) (te_key s)
    else when r.2 (tmfa_db_touch (te_user s) (te_key s) now).

Fixpoint sweep_all (snap : list tmfa_entry_t) : P unit :=
  match snap with
  | [] => skip
  | s :: snap' => _ ← sweep_one s; sweep_all snap'
  end.

Definition userns_tmfa_sweep : P unit :=
  there ← has_tmfa;
  if negb there then skip
  else
    snap ← on_tmfa (fun _ c => (c, [], take (Z.to_nat (tc_count c)) (tc_entries c)));
    sweep_all snap.

Definition userns_user_delete (name : cstr) : P bool :=
  _ ← userns_tmfa_del name None;
  deleted ← query false (fun _ m =>
    match List.find (has_name name) (m_users m) with
    | None => (m, false)
    | Some u =>
        (set_users (List.filter (negb ∘ has_name name) (m_users m)) (m_next m)
           (set_mfa (List.filter (fun r => negb (r.1 =? us_id u)) (m_mfa m))
              (set_temp (List.filter (fun r => negb (tr_user r =? us_id u)) (m_temp m)) m)), true)
    end);
  if negb deleted then Ret false else _ ← userns_cache_invalidate; Ret true.

(** ** Identity: core/bot.c *)

Definition method_identity_key (m : method) (metadata : cstr) (key_sz : nat) : option cstr :=
  match metadata with
  | [] => None
  | _ =>
      match mt_identity_key m with
      | Some f => f metadata key_sz
      | None => if (length metadata <? key_sz)%nat then Some (strlcpy key_sz metadata) else None
      end
  end.

Section identity.
Context `{Fnmatch}.

(** The cache of patterns is read under its lock. *)
Definition mfa_match (mfa : cstr) : P (option cstr) :=
  act (fun _ m =>
    let r := userns_mfa_match (m_cache m) mfa in
    Ok (match r with Some u => add_log [H_matched u mfa] m | None => m end, r)).

Definition bot_identity_sweep_maybe : P unit :=
  due ← userns_tmfa_sweep_due;
  when due (_ ← a_yes; skip).   (* task_add() *)

(** The sender's identity: the message's, or what the method knows of the nick. *)
Definition identity_meta (method : option method) (sender metadata : cstr) : P cstr :=
  match metadata, method, sender with
  | _ :: _, _, _ => Ret (strlcpy METHOD_META_SZ metadata)
  | [], Some _, _ :: _ =>
      known ← a_yes;
      host ← a_text;
      match host with
      | [] => Ret []
      | _ =>
          if (known : bool) then
            let s := sender ++ lit "!" ++ host in
            Ret (if (METHOD_META_SZ <=? length s)%nat then [] else s)
          else Ret []
      end
  | _, _, _ => Ret []
  end.

Definition bot_identity_resolve (method : option method) (sender metadata : cstr) (user_sz : nat) : P (option cstr) :=
  if (user_sz =? 0)%nat then Ret None
  else
    meta ← identity_meta method sender metadata;
    match meta with
    | [] => Ret None
    | _ =>
        _ ← bot_identity_sweep_maybe;
        login ← match method with
                | Some m =>
                    match method_identity_key m meta USERNS_MFA_PATTERN_SZ with
                    | Some key => userns_tmfa_resolve (mt_kind m) key USERNS_USER_SZ
                    | None => Ret (TMFA_NONE, [])
                    end
                | None => Ret (TMFA_NONE, [])
                end;
        match login with
        | (TMFA_OK, user) => Ret (Some (strlcpy user_sz user))
        | _ =>   (* a sender whose login has just expired is told so *)
            matched ← mfa_match meta;
            match matched with
            | None => Ret None
            | Some u =>
                auto ← userns_user_get_autoidentify u;
                Ret (if auto : bool then Some (strlcpy user_sz u) else None)
            end
        end
    end.

Definition bot_identity_seen (m : method) (metadata : cstr) : P unit :=
  _ ← match method_identity_key m metadata USERNS_MFA_PATTERN_SZ with
      | Some key => userns_tmfa_seen (mt_kind m) key
      | None => skip
      end;
  bot_identity_sweep_maybe.

Definition bot_identity_gone (m : method) (metadata : cstr) : P unit :=
  _ ← match method_identity_key m metadata USERNS_MFA_PATTERN_SZ with
      | Some key => _ ← userns_tmfa_drop (mt_kind m) key; skip
      | None => skip
      end;
  bot_identity_sweep_maybe.

(** The loop over numbers: [n] more are tried. *)
Fixpoint free_name (n : nat) (suffix : Z) (name candidate : cstr) : P cstr :=
  taken ← userns_user_exists candidate;
  match n with
  | O => Ret candidate
  | S n' => if taken : bool then free_name n' (suffix + 1) name (numbered name suffix) else Ret candidate
  end.

Definition bot_discover_user (mfa_string : cstr) : P (option cstr) :=
  match mfa_string with
  | [] => Ret None
  | _ =>
      enabled ← a_yes;
      if negb enabled then Ret None
      else
        known ← mfa_match mfa_string;
        match known, discovered_name mfa_string with
        | None, Some name =>
            candidate ← free_name 999 1 name (strlcpy USERNS_USER_SZ name);
            taken ← userns_user_exists candidate;
            if taken : bool then Ret None
            else
              ok ← userns_user_create_nopass candidate;
              if negb ok then Ret None
              else _ ← userns_user_add_mfa candidate mfa_string; Ret (Some candidate)
        | _, _ => Ret None
        end
  end.

(** ** Commands of the chat bot: dispatch.c *)

Definition cmd_identify (m : method) (bot metadata username : cstr) : P unit :=
  match method_identity_key m metadata USERNS_MFA_PATTERN_SZ with
  | None => skip
  | Some key =>
      result ← userns_auth username;
      match result with
      | USERNS_AUTH_OK => _ ← userns_tmfa_add username bot (mt_kind m) key; skip
      | _ => skip
      end
  end.

Definition cmd_deauth (m : method) (metadata username : cstr) : P unit :=
  match method_identity_key m metadata USERNS_MFA_PATTERN_SZ with
  | None => skip
  | Some key => _ ← userns_tmfa_del username (Some key); skip
  end.

(** ** Entry points *)

(** A command is run as the user its sender is taken for. *)
Inductive login_root :=
| L_message (m : method) (sender metadata : cstr)
| L_identify (m : method) (bot sender metadata username : cstr)
| L_deauth (m : method) (sender metadata : cstr)
| L_seen (m : method) (metadata : cstr)
| L_gone (m : method) (metadata : cstr)
| L_discover (metadata : cstr)
| L_sweep
| L_user_add (name : cstr)
| L_user_del (name : cstr)
| L_add_mfa (name pattern : cstr)
| L_remove_mfa (name pattern : cstr).

Definition login_code (r : login_root) : P unit :=
  match r with
  | L_message m sender metadata =>
      since ← so_far;
      who ← bot_identity_resolve (Some m) sender metadata USERNS_USER_SZ;
      match who with Some u => note (H_acts since u m metadata) | None => skip end
  | L_identify m bot sender metadata username =>
      who ← bot_identity_resolve (Some m) sender metadata USERNS_USER_SZ;
      match who with Some _ => skip | None => cmd_identify m bot metadata username end
  | L_deauth m sender metadata =>
      who ← bot_identity_resolve (Some m) sender metadata USERNS_USER_SZ;
      match who with Some u => cmd_deauth m metadata u | None => skip end
  | L_seen m metadata => bot_identity_seen m metadata
  | L_gone m metadata => since ← so_far; _ ← bot_identity_gone m metadata; note (H_gone since m metadata)
  | L_discover metadata => _ ← bot_discover_user metadata; skip
  | L_sweep => userns_tmfa_sweep
  | L_user_add name => _ ← userns_user_create name; skip
  | L_user_del name => _ ← userns_user_delete name; skip
  | L_add_mfa name pattern => _ ← userns_user_add_mfa name pattern; skip
  | L_remove_mfa name pattern => _ ← userns_user_remove_mfa name pattern; skip
  end.
End identity.
