(* ===== verification/LoginsOk.v ===== *)
(** * The logins are what the history says

    The history of [Logins] read as a specification: who is logged in under which key, and
    since when nobody saw them. The invariant ties the cache to it, the facts a thread has
    learnt are kept as tokens, and each function of [Logins] has a rule. *)

From S2P Require Import Prelude Conc Mfa Logins.

(** ** The history *)

(** A login's identity: the user, and the kind and key as tmfa_matches() compares them. *)
Definition ident : Type := (Z * cstr * cstr)%type.
Definition ident_of (id : Z) (kind key : cstr) : ident := (id, map tolower kind, map tolower (take USERNS_MFA_PATTERN_SZ key)).
Definition te_ident (e : tmfa_entry_t) : ident := ident_of (te_user e) (te_kind e) (te_key e).

(** Whether the login stands after that history, with whose name, which bot's window, and
    when it was seen. *)
Fixpoint standing (x : ident) (l : list happening) : option (cstr * cstr * Z) :=
  match l with
  | [] => None
  | h :: l' =>
      match h with
      | H_loaded id n b k y t | H_minted id n b k y t | H_renewed id n b k y t =>
          if bool_decide (x = ident_of id k y) then Some (n, b, t) else standing x l'
      | H_active id k y t =>
          if bool_decide (x = ident_of id k y) then (fun s => (s.1, t)) <$> standing x l' else standing x l'
      | H_ended id k y => if bool_decide (x = ident_of id k y) then None else standing x l'
      | _ => standing x l'
      end
  end.

Definition state_of (e : tmfa_entry_t) : cstr * cstr * Z := (te_username e, te_bot e, te_seen e).

(** What a happening presupposes of what came before it. *)
Definition justified `{Fnmatch} (h : happening) (l : list happening) : Prop :=
  match h with
  | H_user id name => 0 < id /\ (length name < USERNS_USER_SZ)%nat /\ forall name', H_user id name' ∉ l
  | H_granted _ pattern => validate_mfa_pattern pattern = true
  | H_minted id name _ _ _ _ | H_renewed id name _ _ _ _ => H_proved name ∈ l
  | H_login id name kind key t timeout =>
      exists bot t0, standing (ident_of id kind key) l = Some (name, bot, t0) /\ (timeout = 0 \/ t - t0 <= timeout)
  | H_matched name mfa =>
      exists id pattern uuid inp, H_user id name ∈ l /\ H_granted id pattern ∈ l /\
        parse_mfa_string mfa = Some inp /\ match_entry (mk_mce pattern name uuid) inp = true
  | H_acts since name m metadata =>
      exists meta, (metadata <> [] -> meta = strlcpy METHOD_META_SZ metadata) /\ exists l1 h' l2, l = l1 ++ h' :: l2 /\ (since <= length l2)%nat /\
        ((exists id key t timeout, h' = H_login id name (mt_kind m) key t timeout /\ method_identity_key m meta USERNS_MFA_PATTERN_SZ = Some key) \/
         h' = H_matched name meta)
  | H_gone since m metadata =>
      forall key, method_identity_key m metadata USERNS_MFA_PATTERN_SZ = Some key -> key <> [] ->
      exists l1 l2, l = l1 ++ l2 /\ (since <= length l2)%nat /\ forall id, standing (ident_of id (mt_kind m) key) l2 = None
  | _ => True
  end.

Fixpoint log_ok `{Fnmatch} (l : list happening) : Prop :=
  match l with [] => True | h :: l' => justified h l' /\ log_ok l' end.

Lemma log_ok_app `{Fnmatch} hs l : log_ok (hs ++ l) -> log_ok l.
Proof. induction hs as [|h hs IH]; [done|]. cbn [app log_ok]. intros [_ Hl]. by apply IH. Qed.

Lemma log_ok_at `{Fnmatch} l l1 h l2 : log_ok l -> l = l1 ++ h :: l2 -> justified h l2.
Proof. intros Hl ->. by apply log_ok_app in Hl as [Hj _]. Qed.

(** A user keeps its name. *)
Lemma user_name `{Fnmatch} l id n n' : log_ok l -> H_user id n ∈ l -> H_user id n' ∈ l -> n = n'.
Proof.
  induction l as [|h l IH]; intros Hl H1 H2; [by apply elem_of_nil in H1|]. destruct Hl as [Hj Hl].
  apply elem_of_cons in H1 as [<-|H1]; apply elem_of_cons in H2 as [H2|H2]; [by injection H2|by destruct Hj as (_ & _ & Hn); destruct (Hn n')| |by apply IH].
  subst h. destruct Hj as (_ & _ & Hn). by destruct (Hn n).
Qed.

(** Everything in the history was justified when it happened. *)
Lemma log_ok_in `{Fnmatch} l h : log_ok l -> h ∈ l -> exists l2, justified h l2 /\ exists l1, l = l1 ++ h :: l2.
Proof.
  intros Hl [i Hi]%list_elem_of_lookup. apply take_drop_middle in Hi. symmetry in Hi.
  exists (drop (S i) l). split; [by apply (log_ok_at l _ _ _ Hl Hi)|by exists (take i l)].
Qed.

Lemma user_sane `{Fnmatch} l id n : log_ok l -> H_user id n ∈ l -> 0 < id /\ (length n < USERNS_USER_SZ)%nat.
Proof. intros Hl Hi. destruct (log_ok_in _ _ Hl Hi) as (l2 & (H1 & H2 & _) & _). done. Qed.

Lemma granted_valid `{Fnmatch} l id p : log_ok l -> H_granted id p ∈ l -> validate_mfa_pattern p = true.
Proof. intros Hl Hi. by destruct (log_ok_in _ _ Hl Hi) as (l2 & Hj & _). Qed.

(** ** Entries *)

Definition find_entry (x : ident) (l : list tmfa_entry_t) : option tmfa_entry_t :=
  List.find (fun e => bool_decide (te_ident e = x)) l.

Lemma matches_ident kind key e : tmfa_matches kind key e = true <-> te_ident e = ident_of (te_user e) kind key.
Proof.
  unfold tmfa_matches, strcaseeq, strncaseeq, te_ident, ident_of. rewrite andb_true_iff, !seqb_true.
  split; [by intros [-> ->]|by intros [=]].
Qed.

Lemma held_ident id e : held_by id e = true <-> te_user e = id.
Proof. unfold held_by. by rewrite Z.eqb_eq. Qed.

Lemma split_at_some p l pre e post : split_at p l = Some (pre, e, post) ->
  l = pre ++ e :: post /\ p e = true /\ Forall (fun x => p x = false) pre.
Proof.
  revert pre. induction l as [|x l IH]; intros pre; [done|]. cbn [split_at]. destruct (p x) eqn:E.
  - intros [= <- <- <-]. done.
  - destruct (split_at p l) as [[[pre' e'] post']|]; [|done]. intros [= <- <- <-].
    destruct (IH pre' eq_refl) as (-> & H1 & H2). split_and!; [done..|by constructor].
Qed.

Lemma split_at_none p l : split_at p l = None -> forall e, e ∈ l -> p e = false.
Proof.
  induction l as [|x l IH]; intros Hs e He; [by apply elem_of_nil in He|]. cbn [split_at] in Hs. destruct (p x) eqn:E; [done|].
  destruct (split_at p l) as [[[? ?] ?]|]; [done|]. apply elem_of_cons in He as [->|He]; [done|by apply IH].
Qed.

Lemma find_some x l e : find_entry x l = Some e -> e ∈ l /\ te_ident e = x.
Proof. intros Hf. apply List.find_some in Hf as [H1 H2]. apply bool_decide_eq_true in H2. by rewrite list_elem_of_In. Qed.

Lemma find_none x l : find_entry x l = None <-> x ∉ map te_ident l.
Proof.
  unfold find_entry. induction l as [|e l IH]; cbn [List.find map]; [split; [intros _; apply not_elem_of_nil|done]|].
  rewrite elem_of_cons. case_bool_decide as E; [split; [done|intros Hn; destruct Hn; by left]|].
  rewrite IH. split; [intros Hn [He|He]; [by destruct E|done]|]. intros Hn He. apply Hn. by right.
Qed.

Lemma find_in l e : NoDup (map te_ident l) -> e ∈ l -> find_entry (te_ident e) l = Some e.
Proof.
  unfold find_entry. induction l as [|y l IH]; intros Hn He; [by apply elem_of_nil in He|]. cbn [List.find map] in *.
  apply list.NoDup_cons in Hn as [Hy Hn]. case_bool_decide as E.
  - apply elem_of_cons in He as [->|He]; [done|]. destruct Hy. rewrite E. by apply list_elem_of_fmap_2.
  - apply elem_of_cons in He as [->|He]; [done|by apply IH].
Qed.

Lemma find_app x a b : find_entry x (a ++ b) = match find_entry x a with Some e => Some e | None => find_entry x b end.
Proof. unfold find_entry. induction a as [|e a IH]; [done|]. cbn [app List.find]. by case_bool_decide. Qed.

(** One entry among the others. *)
Lemma nodup_mid pre e post : NoDup (map te_ident (pre ++ e :: post)) ->
  NoDup (map te_ident (pre ++ post)) /\ find_entry (te_ident e) (pre ++ post) = None.
Proof.
  rewrite find_none, !map_app. cbn [map]. intros Hn. rewrite <- Permutation_middle in Hn. by apply list.NoDup_cons in Hn as [? ?].
Qed.

Lemma find_mid x pre e post : NoDup (map te_ident (pre ++ e :: post)) ->
  find_entry x (pre ++ e :: post) = if bool_decide (x = te_ident e) then Some e else find_entry x (pre ++ post).
Proof.
  intros Hn. destruct (nodup_mid _ _ _ Hn) as [_ He]. rewrite find_app in He. rewrite !find_app.
  change (find_entry x (e :: post)) with (if bool_decide (te_ident e = x) then Some e else find_entry x post).
  destruct (decide (x = te_ident e)) as [->|E].
  - rewrite !bool_decide_eq_true_2 by done. by destruct (find_entry (te_ident e) pre).
  - by rewrite !bool_decide_eq_false_2 by congruence.
Qed.

Lemma map_ident_swap pre e e' post : te_ident e' = te_ident e -> map te_ident (pre ++ e' :: post) = map te_ident (pre ++ e :: post).
Proof. intros He. rewrite !map_app. cbn [map]. by rewrite He. Qed.

Lemma count_mid {A} (f : A -> bool) pre e post : count f (pre ++ e :: post) = Z.b2z (f e) + count f (pre ++ post).
Proof. rewrite !count_app, count_cons. lia. Qed.

(** ** The cache agrees with the history *)

Record entries_ok (es : list tmfa_entry_t) (l : list happening) : Prop := {
  eo_uniq : NoDup (map te_ident es);
  eo_cap : forall id, count (held_by id) es <= Z.of_nat USERNS_TMFA_MAX;
  eo_hist : forall x, standing x l = state_of <$> find_entry x es;
  eo_user : forall e, e ∈ es -> H_user (te_user e) (te_username e) ∈ l
}.

Definition logins_ok (c : tmfa_cache_t) (l : list happening) : Prop :=
  tc_count c = wrap 32 (Z.of_nat (length (tc_entries c))) /\ entries_ok (tc_entries c) l.

(** The entry a section stamps or renews. *)
Lemma swap_ok l pre e e' post h :
  entries_ok (pre ++ e :: post) l -> te_ident e' = te_ident e -> te_username e' = te_username e ->
  (forall x, standing x (h :: l) = if bool_decide (x = te_ident e) then Some (state_of e') else standing x l) ->
  entries_ok (pre ++ e' :: post) (h :: l).
Proof.
  intros [L2 L3 L4 L5] Ei En Hh. assert (Eu : te_user e' = te_user e) by (by injection Ei). split.
  - by rewrite (map_ident_swap _ e).
  - intros id. rewrite count_mid. specialize (L3 id). rewrite count_mid in L3. unfold held_by in *. by rewrite Eu.
  - intros x. rewrite Hh, find_mid by (by rewrite (map_ident_swap _ e)). rewrite Ei. case_bool_decide as E; [done|].
    rewrite L4, find_mid by done. by rewrite bool_decide_eq_false_2.
  - intros y Hy. right. apply elem_of_app in Hy as [Hy|[->|Hy]%elem_of_cons]; [apply L5; set_solver| |apply L5; set_solver].
    rewrite Eu, En. apply L5. set_solver.
Qed.

Lemma hist_at l pre e post : entries_ok (pre ++ e :: post) l -> standing (te_ident e) l = Some (state_of e).
Proof. intros [L2 _ L4 _]. by rewrite L4, find_mid, bool_decide_eq_true_2. Qed.

Lemma active_ok l pre e e' post now :
  entries_ok (pre ++ e :: post) l -> te_ident e' = te_ident e -> te_username e' = te_username e ->
  te_bot e' = te_bot e -> te_seen e' = now -> entries_ok (pre ++ e' :: post) (active now e :: l).
Proof.
  intros H Ei En Eb Es. apply (swap_ok _ _ e); [done..|]. intros x. cbn [standing active]. fold (te_ident e).
  case_bool_decide as E; [|done]. subst x. rewrite (hist_at _ _ _ _ H). unfold state_of. cbn. by rewrite En, Eb, Es.
Qed.

(** An entry that is unlinked. *)
Lemma unlink_ok l pre e post : entries_ok (pre ++ e :: post) l -> entries_ok (pre ++ post) (ended e :: l).
Proof.
  intros [L2 L3 L4 L5]. destruct (nodup_mid _ _ _ L2) as [N1 N2]. split; [done|..].
  - intros id. specialize (L3 id). rewrite count_mid in L3. pose proof (count_range (held_by id) (pre ++ post)).
    destruct (held_by id e); cbn [Z.b2z] in L3; lia.
  - intros x. cbn [standing ended]. fold (te_ident e). case_bool_decide as E; [by subst x; rewrite N2|].
    rewrite L4, find_mid by done. by rewrite bool_decide_eq_false_2.
  - intros y Hy. right. apply L5. set_solver.
Qed.

(** An entry that is new. *)
Lemma insert_ok l e es : entries_ok es l -> find_entry (te_ident e) es = None ->
  count (held_by (te_user e)) es < Z.of_nat USERNS_TMFA_MAX -> H_user (te_user e) (te_username e) ∈ l ->
  entries_ok (e :: es) (minted e :: l).
Proof.
  intros [L2 L3 L4 L5] Hf Hc Hu. split.
  - cbn [map]. apply list.NoDup_cons. split; [by apply find_none|done].
  - intros id. rewrite count_cons. specialize (L3 id). destruct (held_by id e) eqn:E; cbn [Z.b2z]; [|lia].
    apply held_ident in E. subst id. lia.
  - intros x. cbn [standing minted]. fold (te_ident e).
    change (find_entry x (e :: es)) with (if bool_decide (te_ident e = x) then Some e else find_entry x es).
    destruct (decide (x = te_ident e)) as [->|E]; [by rewrite !bool_decide_eq_true_2 by done|].
    by rewrite !bool_decide_eq_false_2 by congruence.
  - intros y [->|Hy]%elem_of_cons; right; [done|by apply L5].
Qed.

(** Things that say nothing about logins. *)
Definition aside (h : happening) : Prop :=
  match h with H_loaded _ _ _ _ _ _ | H_minted _ _ _ _ _ _ | H_renewed _ _ _ _ _ _ | H_active _ _ _ _ | H_ended _ _ _ => False | _ => True end.

Lemma aside_ok es h l : aside h -> entries_ok es l -> entries_ok es (h :: l).
Proof.
  intros Ha [L2 L3 L4 L5]. split; try done.
  - intros x. rewrite <- L4. by destruct h.
  - intros e He. right. by apply L5.
Qed.

(** *** Each section *)

Lemma stamp_same now e : let e' := (tmfa_stamp now e).1 in
  te_ident e' = te_ident e /\ te_username e' = te_username e /\ te_bot e' = te_bot e /\ te_seen e' = now.
Proof. unfold tmfa_stamp. by destruct (now - te_persisted e <? USERNS_TMFA_PERSIST_SEC). Qed.

Lemma stamped_ok l pre e post now : entries_ok (pre ++ e :: post) l ->
  entries_ok (pre ++ (tmfa_stamp now e).1 :: post) (active now e :: l).
Proof. destruct (stamp_same now e) as (H1 & H2 & H3 & H4). intros H. by apply active_ok. Qed.

Lemma not_idled timeout e now : tmfa_idled_out timeout (te_bot e) (te_kind e) (te_seen e) now = false ->
  let t := wrap 32 (timeout (te_bot e) (te_kind e)) in t = 0 \/ now - te_seen e <= t.
Proof.
  unfold tmfa_idled_out. cbn zeta. intros H. apply andb_false_iff in H as [H|H].
  - left. by apply negb_false_iff, Z.eqb_eq in H.
  - right. by apply Z.ltb_ge in H.
Qed.

Lemma resolve_ok `{Fnmatch} kind key now a c l : logins_ok c l -> log_ok l ->
  let '(c', hs, r) := tmfa_resolve_locked kind key now a c in
  logins_ok c' (hs ++ l) /\ log_ok (hs ++ l) /\
  match r with
  | (TMFA_OK, Some (e, _)) => exists id timeout, hs = [active now e; H_login id (te_username e) kind key now timeout]
  | (TMFA_OK, None) => False
  | _ => True
  end.
Proof.
  intros [L1 L] Hl. unfold tmfa_resolve_locked. destruct (split_at _ _) as [[[pre e] post]|] eqn:Es; [|done].
  apply split_at_some in Es as (El & Em & _). apply matches_ident in Em. rewrite El in L.
  destruct (tmfa_idled_out _ _ _ _ _) eqn:Ei.
  - split_and!; [|done..]. split; [|by apply (unlink_ok _ _ e)]. cbn [unlinked tc_count tc_entries].
    rewrite L1, El, !length_app. cbn [length]. unfold Z.sub. rewrite wrap_add. f_equal. lia.
  - apply not_idled in Ei. pose proof (hist_at _ _ _ _ L) as Hs.
    assert (Hok : entries_ok (pre ++ (tmfa_stamp now e).1 :: post)
      (active now e :: H_login (te_user e) (te_username e) kind key now (wrap 32 (rp_timeout a (te_bot e) (te_kind e))) :: l))
      by (by apply stamped_ok, aside_ok).
    destruct (tmfa_stamp now e) as [e' touch] eqn:Est. split_and!.
    + split; [|exact Hok]. cbn [with_entries tc_count tc_entries]. by rewrite L1, El, !length_app.
    + split; [done|]. split; [|done]. rewrite Em in Hs. by exists (te_bot e), (te_seen e).
    + by eexists _, _.
Qed.

(** What an unlink does to the count. *)
Lemma unlinked_ok c l pre e post : logins_ok c l -> tc_entries c = pre ++ e :: post ->
  logins_ok (unlinked (pre ++ post) c) (ended e :: l).
Proof.
  intros [L1 L] El. rewrite El in L1, L. split; [|by apply (unlink_ok _ _ e)]. cbn [unlinked tc_count tc_entries].
  rewrite L1, !length_app. cbn [length]. unfold Z.sub. rewrite wrap_add. f_equal. lia.
Qed.

Lemma drop_ok `{Fnmatch} kind key c l : logins_ok c l -> log_ok l ->
  let '(c', hs, r) := tmfa_drop_locked kind key c in
  logins_ok c' (hs ++ l) /\ log_ok (hs ++ l) /\ (r = None -> forall id, standing (ident_of id kind key) l = None).
Proof.
  intros L Hl. unfold tmfa_drop_locked. destruct (split_at _ _) as [[[pre e] post]|] eqn:Es.
  - apply split_at_some in Es as (El & _). split_and!; [by apply (unlinked_ok _ _ _ e)|done..].
  - split_and!; [done..|]. intros _ id. rewrite (eo_hist _ _ (proj2 L)).
    destruct (find_entry _ _) as [e|] eqn:Ef; [|done]. apply find_some in Ef as [He Hi]. exfalso.
    pose proof (split_at_none _ _ Es e He) as Hn. rewrite (proj2 (matches_ident kind key e)) in Hn; [done|].
    rewrite Hi. by injection Hi as ->.
Qed.

Lemma sweep_ok `{Fnmatch} s p now a c l : logins_ok c l -> log_ok l ->
  let '(c', hs, _) := tmfa_sweep_locked s p now a c in logins_ok c' (hs ++ l) /\ log_ok (hs ++ l).
Proof.
  intros L Hl. unfold tmfa_sweep_locked. destruct (split_at _ _) as [[[pre e] post]|] eqn:Es; [|done].
  apply split_at_some in Es as (El & _). destruct (_ || _); [by split; [apply (unlinked_ok _ _ _ e)|]|].
  case_bool_decide; [|done]. destruct L as [L1 L]. rewrite El in L. pose proof (stamped_ok _ _ _ _ now L) as Hok.
  destruct (tmfa_stamp now e) as [e' touch]. split; [|done]. split; [|exact Hok].
  cbn [with_entries tc_count tc_entries]. by rewrite L1, El, !length_app.
Qed.

(** The last of the list is done first: the latest happening is the first's. *)
Lemma seen_walk_ok `{Fnmatch} timeout kind key now es : forall n pre l,
  entries_ok (pre ++ es) l -> log_ok l ->
  let '(r, hs, ts) := seen_walk timeout kind key now n es in
  entries_ok (pre ++ r) (hs ++ l) /\ log_ok (hs ++ l) /\ length r = length es.
Proof.
  induction es as [|e es IH]; intros n pre l L Hl; [done|]. cbn [seen_walk].
  assert (G : forall n, let '(r, hs, _) := seen_walk timeout kind key now n es in
    entries_ok (pre ++ e :: r) (hs ++ l) /\ log_ok (hs ++ l) /\ length r = length es).
  { intros n'. specialize (IH n' (pre ++ [e]) l). destruct (seen_walk _ _ _ _ n' es) as [[r hs] ts].
    rewrite <- !app_assoc in IH. by apply IH. }
  destruct (_ || _).
  { specialize (G n). destruct (seen_walk _ _ _ _ n es) as [[r hs] ts]. destruct G as (G1 & G2 & G3). split_and!; [done..|]. cbn [length]. by rewrite G3. }
  destruct n as [|n].
  { specialize (G O). destruct (seen_walk _ _ _ _ O es) as [[r hs] ts]. destruct G as (G1 & G2 & G3).
    split_and!; [by apply (active_ok _ _ e)|done|]. cbn [length]. by rewrite G3. }
  pose proof (stamp_same now e) as Hs. destruct (tmfa_stamp now e) as [e' touch] eqn:Est. cbn [fst] in Hs.
  specialize (G (if touch then n else S n)). destruct (seen_walk _ _ _ _ _ es) as [[r hs] ts]. destruct G as (G1 & G2 & G3).
  destruct Hs as (S1 & S2 & S3 & S4). split_and!; [by apply (active_ok _ _ e)|done|]. cbn [length]. by rewrite G3.
Qed.

Lemma del_walk_ok `{Fnmatch} p es : forall pre l, entries_ok (pre ++ es) l -> log_ok l ->
  let hs := map ended (List.filter p es) in
  entries_ok (pre ++ List.filter (negb ∘ p) es) (hs ++ l) /\ log_ok (hs ++ l).
Proof.
  induction es as [|e es IH]; intros pre l L Hl; [done|]. cbn zeta in *.
  destruct (IH (pre ++ [e]) l) as [G1 G2]; [by rewrite <- app_assoc|done|]. rewrite <- app_assoc in G1. cbn [app] in G1.
  cbn [List.filter compose]. destruct (p e); cbn [negb map app]; [|done].
  split; [by apply (unlink_ok _ _ e)|done].
Qed.

Lemma filter_length {A} (p : A -> bool) l : (length (List.filter p l) + length (List.filter (negb ∘ p) l) = length l)%nat.
Proof. induction l as [|x l IH]; [done|]. cbn [List.filter compose length]. destruct (p x); cbn [negb length]; lia. Qed.

Lemma del_ok `{Fnmatch} id key c l : logins_ok c l -> log_ok l ->
  let '(c', hs, _) := tmfa_del_locked id key c in logins_ok c' (hs ++ l) /\ log_ok (hs ++ l).
Proof.
  intros [L1 L] Hl. unfold tmfa_del_locked. destruct (del_walk_ok (del_entry id key) (tc_entries c) [] l L Hl) as [G1 G2].
  split; [split; [|exact G1]|exact G2]. cbn [tc_count tc_entries].
  pose proof (filter_length (del_entry id key) (tc_entries c)). rewrite L1. unfold Z.sub. rewrite wrap_add. f_equal. lia.
Qed.

(** *** Minting *)

(** The place that is evicted is one of the user's, and there is one if the user has any. *)
Lemma stalest_held id l : forall i best, (forall k t, best = Some (k, t) -> (k < i)%nat) ->
  match stalest id i best l with
  | Some k => (exists t, best = Some (k, t)) \/ (i <= k)%nat /\ exists e, l !! (k - i)%nat = Some e /\ held_by id e = true
  | None => best = None /\ count (held_by id) l = 0
  end.
Proof.
  induction l as [|e l IH]; intros i best Hb.
  { cbn [stalest]. destruct best as [[k t]|]; cbn; [left; by exists t|done]. }
  cbn [stalest]. set (best' := if negb (held_by id e) then best else _).
  assert (Hb' : forall k t, best' = Some (k, t) -> best = Some (k, t) \/ k = i /\ held_by id e = true).
  { unfold best'. intros k t. destruct (held_by id e); cbn [negb]; [|by left]. destruct best as [[k' t']|]; [destruct (te_seen e <? t')|];
      intros [= <- <-]; [by right|by left|by right]. }
  specialize (IH (S i) best'). destruct (stalest id (S i) best' l) as [k|].
  - destruct IH as [[t E]|(Hk & e' & E & Hh)].
    + intros k0 t0 E0. destruct (Hb' _ _ E0) as [E'|[-> _]]; [specialize (Hb _ _ E'); lia|lia].
    + destruct (Hb' _ _ E) as [E'|[-> Hh]]; [left; by exists t|right]. split; [lia|]. exists e. by rewrite Nat.sub_diag.
    + right. split; [lia|]. exists e'. by replace (k - i)%nat with (S (k - S i)) by lia.
  - destruct IH as [E Hc].
    + intros k0 t0 E0. destruct (Hb' _ _ E0) as [E'|[-> _]]; [specialize (Hb _ _ E'); lia|lia].
    + unfold best' in E. destruct (held_by id e) eqn:Ee; cbn [negb] in E; [destruct best as [[? ?]|]; [case_match|]; done|].
      split; [done|]. by rewrite count_cons, Ee.
Qed.

Lemma evict_ok `{Fnmatch} id c l : logins_ok c l -> log_ok l ->
  let '(c', out) := evict id c in
  let hs := match out with Some x => [ended x] | None => [] end in
  logins_ok c' (hs ++ l) /\ log_ok (hs ++ l) /\ count (held_by id) (tc_entries c') < Z.of_nat USERNS_TMFA_MAX /\
  (forall e, e ∈ tc_entries c' -> e ∈ tc_entries c) /\
  (forall x, out = Some x -> te_user x = id /\ x ∈ tc_entries c).
Proof.
  intros L Hl. unfold evict. destruct (Z.of_nat USERNS_TMFA_MAX <=? count (held_by id) (tc_entries c)) eqn:Ec.
  2:{ apply Z.leb_gt in Ec. by split_and!. }
  apply Z.leb_le in Ec. pose proof (stalest_held id (tc_entries c) 0 None ltac:(done)) as Hs.
  destruct (stalest _ _ _ _) as [i|]; [|by destruct Hs as [_ Hs]; unfold USERNS_TMFA_MAX in Ec; lia].
  destruct Hs as [[t [=]]|(_ & e & He & Hh)]. rewrite Nat.sub_0_r in He. rewrite He. pose proof (take_drop_middle _ _ _ He) as El.
  symmetry in El. rewrite (delete_take_drop (tc_entries c)). split_and!.
  - by apply (unlinked_ok _ _ _ e).
  - done.
  - cbn [unlinked tc_entries]. destruct L as [_ L]. pose proof (eo_cap _ _ L id) as Hc. rewrite El, count_mid, Hh in Hc. cbn [Z.b2z] in Hc. lia.
  - intros y Hy. rewrite El. cbn [unlinked tc_entries] in Hy. set_solver.
  - intros x [= <-]. split; [by apply held_ident|by eapply list_elem_of_lookup_2].
Qed.

Lemma new_ident id name bot kind key now : (length key < USERNS_MFA_PATTERN_SZ)%nat -> (length kind < USERNS_TMFA_KIND_SZ)%nat ->
  te_ident (login_entry id name bot kind key now) = ident_of id kind key.
Proof. intros H1 H2. unfold te_ident, login_entry. cbn [te_user te_kind te_key]. by rewrite !strlcpy_fits. Qed.

Lemma renew_ok `{Fnmatch} id name bot kind key now c l pre e post : logins_ok c l -> log_ok l ->
  H_proved name ∈ l -> H_user id name ∈ l -> tc_entries c = pre ++ e :: post -> held_by id e = true ->
  tmfa_matches kind key e = true ->
  logins_ok (with_entries (pre ++ renew bot now e :: post) c) (renewed (renew bot now e) :: l) /\
  log_ok (renewed (renew bot now e) :: l).
Proof.
  intros [L1 L] Hl Hp Hu El Eh Em. rewrite El in L. apply held_ident in Eh.
  assert (En : te_username e = name).
  { apply (user_name l id); [done| |done]. rewrite <- Eh. apply (eo_user _ _ L). set_solver. }
  split; [split|].
  - cbn [with_entries tc_count tc_entries]. by rewrite L1, El, !length_app.
  - apply (swap_ok _ _ e); [done..|]. intros x. cbn [standing renewed]. fold (te_ident (renew bot now e)).
    replace (te_ident (renew bot now e)) with (te_ident e) by done. by case_bool_decide.
  - split; [|done]. cbn [justified renewed renew te_username]. by rewrite En.
Qed.

Lemma mint_ok `{Fnmatch} id name bot kind key now c l : logins_ok c l -> log_ok l ->
  H_proved name ∈ l -> H_user id name ∈ l ->
  (length key < USERNS_MFA_PATTERN_SZ)%nat -> (length kind < USERNS_TMFA_KIND_SZ)%nat ->
  let '(c', hs, _) := tmfa_add_locked id name bot kind key now c in logins_ok c' (hs ++ l) /\ log_ok (hs ++ l).
Proof.
  intros L Hl Hp Hu F1 F2. unfold tmfa_add_locked. destruct (split_at _ _) as [[[pre e] post]|] eqn:Es.
  { apply split_at_some in Es as (El & Em & _). apply andb_true_iff in Em as [Eh Em]. by apply (renew_ok id name bot kind key). }
  pose proof (evict_ok id c l L Hl) as He. destruct (evict id c) as [c' out]. destruct He as (L' & Hl' & Hc & Hin & _).
  set (hs := match out with Some x => [ended x] | None => [] end) in *. set (e := login_entry id name bot kind key now).
  pose proof (new_ident id name bot kind key now F1 F2) as Ei. destruct (user_sane _ _ _ Hl Hu) as [_ Hn].
  assert (En : te_username e = name) by (by apply strlcpy_fits).
  assert (Hu' : H_user (te_user e) (te_username e) ∈ hs ++ l) by (rewrite En; apply elem_of_app; by right).
  split; [split|].
  - destruct L' as [L1 _]. cbn [tc_count tc_entries length]. rewrite L1, wrap_add. f_equal. lia.
  - apply insert_ok; [apply L'| |done|done]. destruct (find_entry _ _) as [y|] eqn:Ef; [|done]. exfalso.
    apply find_some in Ef as [Hy Hy']. pose proof (split_at_none _ _ Es y (Hin _ Hy)) as Hz. cbn beta in Hz.
    fold e in Ei. rewrite Ei in Hy'. assert (Eu : te_user y = id) by (by injection Hy').
    rewrite (proj2 (held_ident id y) Eu), (proj2 (matches_ident kind key y)) in Hz; [done|]. by rewrite Eu.
  - split; [|done]. cbn [justified minted]. rewrite En. apply elem_of_app. by right.
Qed.

(** ** The invariant *)

Section rules.
Context `{Fnmatch}.

Record good (w : lmem) : Prop := {
  gd_log : log_ok (m_log w);
  gd_next : 0 < m_next w /\ forall id name, H_user id name ∈ m_log w -> id < m_next w;
  gd_users : forall u, u ∈ m_users w -> H_user (us_id u) (us_name u) ∈ m_log w;
  gd_mfa : forall r, r ∈ m_mfa w -> H_granted r.1 r.2 ∈ m_log w;
  gd_cache : forall e, e ∈ concat (uc_buckets (m_cache w)) ->
    exists id, H_user id (ce_username e) ∈ m_log w /\ H_granted id (ce_pattern e) ∈ m_log w;
  gd_tmfa : exists c, m_tmfa w = Some c /\ logins_ok c (m_log w)
}.

(** What a thread has learnt stays true: it is about the history. *)
Record fact := mk_fact { says :> list happening -> Prop; says_on : forall hs l, says l -> says (hs ++ l) }.

Definition linv (w : lmem) (t : list fact) : Prop := good w /\ Forall (fun f : fact => f (m_log w)) t.

Lemma linv_perm w t t' : t ≡ₚ t' -> linv w t -> linv w t'.
Proof. intros Hp [G F]. split; [done|]. by rewrite <- Hp. Qed.

Program Definition nothing : fact := mk_fact (fun _ => True) _.
Next Obligation. done. Qed.

Program Definition noted (h : happening) : fact := mk_fact (fun l => h ∈ l) _.
Next Obligation. intros h hs l Hh. apply elem_of_app. by right. Qed.

Program Definition pure (Q : Prop) : fact := mk_fact (fun _ => Q) _.
Next Obligation. done. Qed.

Program Definition also (f g : fact) : fact := mk_fact (fun l => f l /\ g l) _.
Next Obligation. intros f g hs l [Hf Hg]. split; by apply says_on. Qed.

Program Definition given (Q : Prop) (f : fact) : fact := mk_fact (fun l => Q -> f l) _.
Next Obligation. intros Q f hs l Hf HQ. apply says_on. by apply Hf. Qed.

(** A happening after the first [since]. *)
Program Definition known_since (since : nat) (h : happening) : fact :=
  mk_fact (fun l => exists l1 l2, l = l1 ++ h :: l2 /\ (since <= length l2)%nat) _.
Next Obligation. intros since h hs l (l1 & l2 & -> & Hs). exists (hs ++ l1), l2. by rewrite <- app_assoc. Qed.

Program Definition so_long (since : nat) : fact := mk_fact (fun l => (since <= length l)%nat) _.
Next Obligation. intros since hs l Hs. cbn in *. rewrite length_app. lia. Qed.

Program Definition some_fact {A} (f : A -> fact) : fact := mk_fact (fun l => exists x, f x l) _.
Next Obligation. intros A f hs l [x Hx]. exists x. by apply says_on. Qed.

(** [sp p f g]: started knowing [f], the program keeps the invariant and ends knowing [g]. *)
Definition sp {R} (p : P R) (f : fact) (g : R -> fact) : Prop :=
  wp linv p (fun r t => forall l, Forall (fun f : fact => f l) t -> g r l) [f].

(** *** Rules *)

Definition entails (t t' : list fact) : Prop := forall l, Forall (fun f : fact => f l) t -> Forall (fun f : fact => f l) t'.

Lemma wp_entail {R} (p : P R) Q t t' : entails t t' ->
  (forall r u u', entails u u' -> Q r u' -> Q r u) -> wp linv p Q t' -> wp linv p Q t.
Proof.
  intros He HQ Hp. destruct p as [r|B φ k]; [by apply (HQ _ _ t')|]. intros a w F [G Hf]. apply Hp.
  split; [done|]. apply Forall_app in Hf as [F1 F2]. apply Forall_app. split; [by apply He|done].
Qed.

Lemma sp_pre {R} (p : P R) (f f' : fact) g : (forall l, f' l -> f l) -> sp p f g -> sp p f' g.
Proof.
  intros Hf Hp. eapply wp_entail; [|shelve|exact Hp]. Unshelve.
  - intros l Hl. constructor; [apply Hf, (Forall_inv Hl)|constructor].
  - intros r u u' He HQ l Hl. by apply HQ, He.
Qed.

Lemma sp_post {R} (p : P R) f (g g' : R -> fact) : (forall r l, g r l -> g' r l) -> sp p f g -> sp p f g'.
Proof. intros Hg Hp. eapply wp_mono; [|exact Hp]. intros r t HQ l Hl. by apply Hg, HQ. Qed.

Lemma sp_ret {R} (r : R) (f : fact) (g : R -> fact) : (forall l, f l -> g r l) -> sp (Ret r) f g.
Proof. intros Hg l Hl. apply Hg, (Forall_inv Hl). Qed.

Lemma sp_bind {R R'} (p : P R) (k : R -> P R') f g h : sp p f g -> (forall r, sp (k r) (g r) h) -> sp (p ≫= k) f h.
Proof.
  intros Hp Hk. apply wp_bind. eapply wp_mono; [|exact Hp]. intros r t Ht.
  eapply wp_entail; [|shelve|apply (Hk r)]. Unshelve.
  - intros l Hl. constructor; [by apply Ht|constructor].
  - intros r' u u' He HQ l Hl. by apply HQ, He.
Qed.

Lemma sp_act {B} (φ : reply -> lmem -> outcome (lmem * B)) (f : fact) (g : B -> fact) :
  (forall a w, good w -> f (m_log w) ->
    match φ a w with
    | Ok (w', b) => good w' /\ (exists hs, m_log w' = hs ++ m_log w) /\ g b (m_log w')
    | Blocked => True
    | Fault => False
    end) -> sp (act φ) f g.
Proof.
  intros Hφ a w F [G Hf]. specialize (Hφ a w G (Forall_inv Hf)). destruct (φ a w) as [[w' b]| |]; [|done..].
  destruct Hφ as (G' & [hs El] & Hg). exists [g b]. split; [intros l Hl; apply (Forall_inv Hl)|]. split; [done|].
  constructor; [done|]. apply Forall_inv_tail in Hf. rewrite El. eapply Forall_impl; [|exact Hf]. intros q. apply says_on.
Qed.

Lemma sp_frame {R} (p : P R) f g k : sp p f g -> sp p (also f k) (fun r => also (g r) k).
Proof.
  intros Hp. apply (wp_frame linv p _ [f] [k]) in Hp. eapply wp_entail; [|shelve|eapply wp_mono; [|exact Hp]]. Unshelve.
  - intros l Hl. destruct (Forall_inv Hl) as [? ?]. by repeat constructor.
  - intros r t (t' & -> & HQ) l Hl. apply Forall_app in Hl as [H1 H2]. split; [by apply HQ|apply (Forall_inv H2)].
  - intros r u u' He HQ l Hl. by apply HQ, He.
Qed.

Definition keeps {R} (p : P R) : Prop := sp p nothing (fun _ => nothing).

(** Such a program may be run by whoever knows something. *)
Lemma sp_keeps {R} (p : P R) f : keeps p -> sp p f (fun _ => f).
Proof.
  intros Hp. apply (sp_frame _ _ _ f) in Hp. eapply sp_pre; [|eapply sp_post; [|exact Hp]]; [by intros l Hl|by intros r l [_ Hl]].
Qed.

Lemma keeps_bind {R R'} (p : P R) (k : R -> P R') : keeps p -> (forall r, keeps (k r)) -> keeps (p ≫= k).
Proof. intros Hp Hk. by eapply sp_bind. Qed.

Lemma sp_keeps_ret {R} (r : R) : keeps (Ret r).
Proof. by apply sp_ret. Qed.

Lemma sp_keeps_bind {R R'} (p : P R) (k : R -> P R') f g : keeps p -> (forall r, sp (k r) f g) -> sp (p ≫= k) f g.
Proof. intros Hp Hk. eapply sp_bind; [by apply (sp_keeps p f)|done]. Qed.

Lemma sp_keeps_when b (p : P unit) : keeps p -> keeps (when b p).
Proof. intros Hp. destruct b; [done|by apply sp_keeps_ret]. Qed.

(** What only asks. *)
Lemma keeps_asks {B} (φ : reply -> lmem -> B) : keeps (act (fun a m => Ok (m, φ a m))).
Proof. apply sp_act. intros a w G _. split_and!; [done|by exists []|done]. Qed.

Lemma good_log w hs : good w -> log_ok (hs ++ m_log w) -> Forall aside hs -> (forall id n, H_user id n ∉ hs) -> good (add_log hs w).
Proof.
  intros [G1 [G2 G2'] G3 G4 G5 (c & Ec & Lc)] Hl Ha Hu. split; cbn [add_log m_log m_next m_users m_mfa m_cache m_tmfa].
  - done.
  - split; [done|]. intros id n [Hi|Hi]%elem_of_app; [by destruct (Hu id n)|by eapply G2'].
  - intros u Hin. apply elem_of_app. right. by apply G3.
  - intros r Hr. apply elem_of_app. right. by apply G4.
  - intros e He. destruct (G5 e He) as (id & H1 & H2). exists id. split; apply elem_of_app; by right.
  - exists c. split; [done|]. destruct Lc as [L1 Lc]. split; [done|]. clear -Ha Lc. induction hs as [|h hs IH]; [done|].
    apply aside_ok; [by apply Forall_inv in Ha|]. apply IH. by apply Forall_inv_tail in Ha.
Qed.

Definition not_user (h : happening) : Prop := match h with H_user _ _ => False | _ => True end.

Lemma no_users hs : Forall not_user hs -> forall id n, H_user id n ∉ hs.
Proof. intros Hf id n Hi. apply list_elem_of_In in Hi. exact (proj1 (List.Forall_forall _ _) Hf _ Hi). Qed.

Lemma sp_tmfa {B} (φ : reply -> tmfa_cache_t -> tmfa_cache_t * list happening * B) (f : fact) (g : B -> fact) :
  (forall a c l, logins_ok c l -> log_ok l -> f l ->
    let '(c', hs, b) := φ a c in (logins_ok c' (hs ++ l) /\ log_ok (hs ++ l)) /\ Forall not_user hs /\ g b (hs ++ l)) ->
  sp (on_tmfa φ) f g.
Proof.
  intros Hφ. apply sp_act. intros a w [G1 [G2 G2'] G3 G4 G5 (c & Ec & Lc)] Hf. rewrite Ec.
  specialize (Hφ a c (m_log w) Lc G1 Hf). destruct (φ a c) as [[c' hs] b]. destruct Hφ as ([L' Hl'] & Hu & Hg).
  split_and!; [|by exists hs|done]. split; cbn [set_tmfa add_log m_log m_next m_users m_mfa m_cache m_tmfa].
  - done.
  - split; [done|]. intros id n [Hi|Hi]%elem_of_app; [by destruct (no_users hs Hu id n)|by eapply G2'].
  - intros u Hin. apply elem_of_app. right. by apply G3.
  - intros r Hr. apply elem_of_app. right. by apply G4.
  - intros e He. destruct (G5 e He) as (id & H1 & H2). exists id. split; apply elem_of_app; by right.
  - by exists c'.
Qed.

Lemma sp_query {B} (fail : B) (q : reply -> lmem -> lmem * B) (f : fact) (g : B -> fact) :
  (forall l, f l -> g fail l) ->
  (forall a w, good w -> f (m_log w) -> good (q a w).1 /\ (exists hs, m_log (q a w).1 = hs ++ m_log w) /\ g (q a w).2 (m_log (q a w).1)) ->
  sp (query fail q) f g.
Proof.
  intros Hfail Hq. apply sp_act. intros a w G Hf. destruct (Hq a w G Hf) as (Q1 & [hs Q2] & Q3).
  destruct (rp_db a).
  - destruct (q a w) as [w' b]. split_and!; [done|by exists hs|done].
  - split_and!; [done|by exists []|by apply Hfail].
  - split_and!; [done|by exists hs|]. rewrite Q2. by apply says_on, Hfail.
Qed.

(** A statement that changes only the table of logins, or nothing. *)
Lemma keeps_temp {B} (fail : B) (q : reply -> lmem -> lmem * B) :
  (forall a w, exists x, (q a w).1 = set_temp x w) -> keeps (query fail q).
Proof.
  intros Hq. apply sp_query; [done|]. intros a w [G1 G2 G3 G4 G5 G6] _. destruct (Hq a w) as [x ->]. split_and!; [by split|by exists []|done].
Qed.

Lemma keeps_select {B} (fail : B) (q : reply -> lmem -> B) : keeps (query fail (fun a m => (m, q a m))).
Proof. apply sp_query; [done|]. intros a w G _. split_and!; [done|by exists []|done]. Qed.

Lemma good_cache w c : good w -> 
  (forall e, e ∈ concat (uc_buckets c) -> exists id, H_user id (ce_username e) ∈ m_log w /\ H_granted id (ce_pattern e) ∈ m_log w) ->
  good (set_cache c w).
Proof. intros [G1 G2 G3 G4 G5 G6] Hc. by split. Qed.

Lemma sp_note h (f : fact) : aside h -> not_user h -> (forall l, log_ok l -> f l -> justified h l) ->
  sp (note h) f (fun _ => also f (noted h)).
Proof.
  intros Ha Hn Hj. apply sp_act. intros a w G Hf. split_and!.
  - apply good_log; [done| |by constructor|by apply no_users; constructor]. split; [by apply Hj, Hf; apply G|by apply G].
  - by exists [h].
  - split; [by apply (says_on f [h])|by left].
Qed.

Lemma sp_so_far : sp so_far nothing so_long.
Proof. apply sp_act. intros a w G _. split_and!; [done|by exists []|]. cbn. lia. Qed.

Lemma sp_pure {R} (Q : Prop) (p : P R) (f : fact) g : (Q -> sp p f g) -> sp p (also (pure Q) f) g.
Proof.
  intros Hp. destruct p as [r|B φ k].
  - intros l Hl. destruct (Forall_inv Hl) as [HQ Hf]. apply Hp; [done|by constructor].
  - intros a w F [G Hf]. destruct (Forall_inv Hf) as [HQ Hf']. apply Hp; [done|]. split; [done|]. constructor; [done|by apply Forall_inv_tail in Hf].
Qed.

(** *** Users and patterns *)

Lemma find_named name l u : List.find (has_name name) l = Some u -> u ∈ l /\ us_name u = name.
Proof. intros Hf. apply List.find_some in Hf as [H1 H2]. unfold has_name in H2. by rewrite list_elem_of_In, seqb_true in *. Qed.

Lemma sp_get_user_id name : sp (userns_get_user_id name) nothing (fun id => given (id <> 0) (noted (H_user id name))).
Proof.
  apply sp_query; [by intros l _ Hn|]. intros a w G _. split_and!; [done|by exists []|]. cbn. intros Hn.
  destruct (List.find _ _) as [u|] eqn:Ef; [|done]. apply find_named in Ef as [Hu <-]. by apply (gd_users _ G).
Qed.

(** Each entry of a cache that is filled from the tables is a pattern that was granted. *)
Lemma filled_cache w rows e : log_ok (m_log w) -> (forall u, u ∈ m_users w -> H_user (us_id u) (us_name u) ∈ m_log w) ->
  (forall r, r ∈ m_mfa w -> H_granted r.1 r.2 ∈ m_log w) -> rows = Some (mfa_rows w) \/ rows = None ->
  e ∈ concat (uc_buckets (userns_cache_populate rows)) ->
  exists id, H_user id (ce_username e) ∈ m_log w /\ H_granted id (ce_pattern e) ∈ m_log w.
Proof.
  intros Hl Gu Gm [-> | ->] He; [|by vm_compute in He; apply elem_of_nil in He].
  rewrite populated in He. apply list_elem_of_fmap in He as (r & -> & Hr). unfold mfa_rows, patterns_of in Hr.
  apply list_elem_of_In, in_flat_map in Hr as (u & Hu & Hr). apply in_map_iff in Hr as ([id p] & <- & Hr).
  apply filter_In in Hr as [Hr Hi]. apply list_elem_of_In in Hu, Hr. apply Z.eqb_eq in Hi. cbn [fst snd] in *. subst id.
  pose proof (Gu u Hu) as Hu'. pose proof (Gm _ Hr) as Hg. exists (us_id u). cbn [cache_entry ce_username ce_pattern].
  destruct (user_sane _ _ _ Hl Hu') as [_ Hn]. pose proof (granted_valid _ _ _ Hl Hg) as Hv.
  apply validated_parse in Hv as (_ & _ & _ & _ & Hp & _). by rewrite !strlcpy_fits.
Qed.

Lemma keeps_invalidate : keeps userns_cache_invalidate.
Proof.
  apply sp_act. intros a w G _. split_and!; [|by exists []|done]. apply good_cache; [done|]. intros e He.
  eapply filled_cache; [apply G..| |exact He]. destruct (rp_db a); auto.
Qed.

Lemma keeps_insert_user name hash : validate_username name = true -> keeps (query false (insert_user name hash)).
Proof.
  intros Hv. apply sp_query; [done|]. intros a w G _. unfold insert_user.
  destruct (existsb _ _); [by split_and!; [|exists []|]|]. split_and!; [|by exists [H_user (m_next w) name]|done].
  destruct G as [G1 [G2 G2'] G3 G4 G5 (c & Ec & [Lc Le])]. split; cbn [fst add_log set_users m_log m_next m_users m_mfa m_cache m_tmfa app].
  - split; [|done]. split_and!; [done| |intros n Hn; specialize (G2' _ _ Hn); lia].
    destruct name as [|x name]; [done|]. unfold validate_username in Hv. apply andb_true_iff in Hv as [_ Hv]. by apply Nat.ltb_lt in Hv.
  - split; [lia|]. intros id n [ [= -> ->]|Hi]%elem_of_cons; [lia|]. specialize (G2' _ _ Hi). lia.
  - intros u [Hu| ->%list_elem_of_singleton]%elem_of_app; [right; by apply G3|by left].
  - intros r Hr. right. by apply G4.
  - intros e He. destruct (G5 e He) as (id & H1 & H2). exists id. split; by right.
  - exists c. split; [done|]. split; [done|]. by apply aside_ok.
Qed.

Lemma keeps_create_nopass name : keeps (userns_user_create_nopass name).
Proof.
  unfold userns_user_create_nopass. destruct (validate_username name) eqn:Hv; [|by apply sp_keeps_ret]. cbn [negb].
  apply keeps_bind; [by apply keeps_insert_user|]. intros [|]; [|by apply sp_keeps_ret].
  apply keeps_bind; [apply keeps_invalidate|]. intros _. by apply sp_keeps_ret.
Qed.

Lemma keeps_create name : keeps (userns_user_create name).
Proof.
  unfold userns_user_create. destruct (validate_username name) eqn:Hv; [|by apply sp_keeps_ret]. cbn [negb].
  apply keeps_bind; [apply keeps_asks|]. intros [|]; [|by apply sp_keeps_ret]. cbn [negb].
  apply keeps_bind; [apply keeps_asks|]. intros hash. apply keeps_bind; [by apply keeps_insert_user|]. intros [|]; [|by apply sp_keeps_ret].
  apply keeps_bind; [apply keeps_invalidate|]. intros _. by apply sp_keeps_ret.
Qed.

Lemma sp_auth name : sp (userns_auth name) nothing (fun r => given (r = USERNS_AUTH_OK) (noted (H_proved name))).
Proof.
  unfold userns_auth. apply sp_keeps_bind; [apply keeps_select|]. intros [[u|]|]; [|by apply sp_ret..].
  destruct (us_hash u); [by apply sp_ret|]. apply sp_keeps_bind; [apply keeps_asks|]. intros [|]; [|by apply sp_ret]. cbn [negb].
  eapply sp_bind; [by apply sp_note|]. intros []. apply sp_ret. by intros l' [_ Hl] _.
Qed.

Lemma sp_case_bind {R R'} (p : P R) (k : R -> P R') (f g : fact) h : sp p f (fun _ => g) -> (forall r, sp (k r) g h) -> sp (p ≫= k) f h.
Proof. intros Hp Hk. by eapply sp_bind. Qed.

(** The row is granted to a user that is in the table. *)
Lemma keeps_grant id pattern : validate_mfa_pattern pattern = true ->
  keeps (query false (fun _ m =>
    if negb (existsb (fun u => us_id u =? id) (m_users m)) || existsb (fun r => (r.1 =? id) && seqb r.2 pattern) (m_mfa m)
    then (m, false)
    else (add_log [H_granted id pattern] (set_mfa (m_mfa m ++ [(id, pattern)]) m), true))).
Proof.
  intros Hv. apply sp_query; [done|]. intros a w G _. destruct (_ || _); [by split_and!; [|exists []|]|].
  split_and!; [|by exists [H_granted id pattern]|done].
  destruct G as [G1 [G2 G2'] G3 G4 G5 (c & Ec & [Lc Le])]. split; cbn [fst add_log set_mfa m_log m_next m_users m_mfa m_cache m_tmfa app].
  - done.
  - split; [done|]. intros id' n [ [=]|Hi]%elem_of_cons. by eapply G2'.
  - intros u Hu. right. by apply G3.
  - intros r [Hr| ->%list_elem_of_singleton]%elem_of_app; [right; by apply G4|by left].
  - intros e He. destruct (G5 e He) as (i & H1 & H2). exists i. split; by right.
  - exists c. split; [done|]. split; [done|]. by apply aside_ok.
Qed.

Lemma keeps_get_user_id name : keeps (userns_get_user_id name).
Proof. apply keeps_select. Qed.

Lemma keeps_add_mfa name pattern : keeps (userns_user_add_mfa name pattern).
Proof.
  unfold userns_user_add_mfa. destruct (validate_mfa_pattern pattern) eqn:Hv; [|by apply sp_keeps_ret]. cbn [negb].
  apply keeps_bind; [apply keeps_get_user_id|]. intros id. destruct (id =? 0); [by apply sp_keeps_ret|].
  apply keeps_bind; [apply keeps_asks|]. intros n. apply keeps_bind; [apply keeps_select|]. intros [|]; [by apply sp_keeps_ret|].
  apply keeps_bind; [by apply keeps_grant|]. intros [|]; [|by apply sp_keeps_ret].
  apply keeps_bind; [apply keeps_invalidate|]. intros _. by apply sp_keeps_ret.
Qed.

Lemma keeps_remove_mfa name pattern : keeps (userns_user_remove_mfa name pattern).
Proof.
  unfold userns_user_remove_mfa. apply keeps_bind; [apply keeps_get_user_id|]. intros id. destruct (id =? 0); [by apply sp_keeps_ret|].
  apply keeps_bind.
  - apply sp_query; [done|]. intros a w [G1 G2 G3 G4 G5 G6] _. split_and!; [|by exists []|done]. split; try done.
    intros r Hr. apply list_elem_of_In, filter_In in Hr as [Hr _]. by apply G4, list_elem_of_In.
  - intros [|]; [|by apply sp_keeps_ret]. apply keeps_bind; [apply keeps_invalidate|]. intros _. by apply sp_keeps_ret.
Qed.

(** *** Logins *)

Lemma keeps_upsert id bot kind key : keeps (tmfa_db_upsert id bot kind key).
Proof.
  apply keeps_temp. intros a w. destruct (negb _); [by exists (m_temp w); destruct w|]. by destruct (existsb _ (m_temp w)); eexists.
Qed.

Lemma keeps_db_delete id key : keeps (tmfa_db_delete id key).
Proof. apply keeps_temp. intros a w. by eexists. Qed.

Lemma keeps_touch id key t : keeps (tmfa_db_touch id key t).
Proof. apply keeps_temp. intros a w. by eexists. Qed.

Lemma keeps_tmfa {B} (φ : reply -> tmfa_cache_t -> tmfa_cache_t * list happening * B) :
  (forall a c l, logins_ok c l -> log_ok l ->
    let '(c', hs, b) := φ a c in (logins_ok c' (hs ++ l) /\ log_ok (hs ++ l)) /\ Forall not_user hs) ->
  keeps (on_tmfa φ).
Proof.
  intros Hφ. apply sp_tmfa. intros a c l L Hl _. specialize (Hφ a c l L Hl). destruct (φ a c) as [[c' hs] b]. by destruct Hφ.
Qed.

Ltac section_ok := split; [first [assumption | split; assumption]|by repeat constructor].

Lemma keeps_ensure : keeps userns_tmfa_ensure.
Proof. apply sp_act. intros a w G _. destruct (gd_tmfa _ G) as (c & -> & _). by split_and!; [|exists []|]. Qed.

Lemma not_users_add id name bot kind key now c : let '(_, hs, _) := tmfa_add_locked id name bot kind key now c in Forall not_user hs.
Proof.
  unfold tmfa_add_locked. destruct (split_at _ _) as [[[pre e] post]|]; [by repeat constructor|].
  destruct (evict id c) as [c' [x|]]; by repeat constructor.
Qed.

Lemma sp_tmfa_add name bot kind key : sp (userns_tmfa_add name bot kind key) (noted (H_proved name)) (fun _ => nothing).
Proof.
  unfold userns_tmfa_add. destruct key as [|x key]; [by apply sp_ret|]. set (k := x :: key).
  destruct (_ || _) eqn:El; [by apply sp_ret|]. apply orb_false_iff in El as [El F2]. apply orb_false_iff in El as [F1 _].
  apply Nat.leb_gt in F1, F2.
  eapply sp_bind. { eapply sp_pre; [|apply sp_frame, (sp_get_user_id name)]. intros l Hl. split; [done|exact Hl]. }
  intros id. destruct (id =? 0) eqn:Ei; [by apply sp_ret|]. apply Z.eqb_neq in Ei.
  apply sp_keeps_bind; [apply keeps_ensure|]. intros _. apply sp_keeps_bind; [apply keeps_asks|]. intros now.
  eapply (sp_bind _ _ _ (fun _ => nothing)).
  - apply sp_tmfa. intros a c l L Hl [Hu Hp]. pose proof (mint_ok id name bot kind k now c l L Hl Hp (Hu Ei) F1 F2) as Hm.
    pose proof (not_users_add id name bot kind k now c) as Hn. by destruct (tmfa_add_locked _ _ _ _ _ _ _) as [[c' hs] b].
  - intros [[|] out]; [apply keeps_bind; [apply keeps_upsert|]; intros _; by apply sp_keeps_ret|].
    apply keeps_bind; [destruct out as [[i k']|]; [apply keeps_db_delete|by apply sp_keeps_ret]|]. intros _.
    apply keeps_bind; [apply keeps_upsert|]. intros _. by apply sp_keeps_ret.
Qed.

Lemma keeps_has_tmfa : keeps has_tmfa.
Proof. apply keeps_asks. Qed.

(** The answer of a look-up. *)
Definition logged_in (since : nat) (kind key name : cstr) : fact :=
  some_fact (fun id => some_fact (fun t => some_fact (fun timeout => known_since since (H_login id name kind key t timeout)))).

Lemma resolve_learns since kind key now a c l : logins_ok c l -> log_ok l -> so_long since l ->
  let '(c', hs, r) := tmfa_resolve_locked kind key now a c in
  (logins_ok c' (hs ++ l) /\ log_ok (hs ++ l)) /\ Forall not_user hs /\
  match r with
  | (TMFA_OK, Some (e, _)) => logged_in since kind key (te_username e) (hs ++ l) /\ (length (te_username e) < USERNS_USER_SZ)%nat
  | (TMFA_OK, None) => False
  | _ => True
  end.
Proof.
  intros L Hl Hs. pose proof (resolve_ok kind key now a c l L Hl) as Hr. unfold tmfa_resolve_locked in *.
  destruct (split_at _ _) as [[[pre e] post]|] eqn:Es; [|by split_and!].
  destruct (tmfa_idled_out _ _ _ _ _); [destruct Hr as (? & ? & _); by split_and!; [..|repeat constructor|]|].
  destruct (tmfa_stamp now e) as [e' touch]. destruct Hr as (H1 & H2 & _). split_and!; [done..|by repeat constructor| |].
  - eexists _, _, _, [active now e], l. by split.
  - apply split_at_some in Es as (El & _). eapply user_sane; [exact Hl|]. apply (eo_user _ _ (proj2 L)). rewrite El. set_solver.
Qed.

Lemma sp_resolve since kind key : sp (userns_tmfa_resolve kind key USERNS_USER_SZ) (so_long since)
  (fun r => given (r.1 = TMFA_OK) (also (logged_in since kind key r.2) (pure (length r.2 < USERNS_USER_SZ)%nat))).
Proof.
  unfold userns_tmfa_resolve. apply sp_keeps_bind; [apply keeps_has_tmfa|]. intros there. destruct key as [|x key]; [by apply sp_ret|].
  set (k := x :: key). destruct (negb there); [by apply sp_ret|]. apply sp_keeps_bind; [apply keeps_asks|]. intros now.
  eapply (sp_bind _ _ _ (fun r => match r with
    | (TMFA_OK, Some (e, _)) => also (logged_in since kind k (te_username e)) (pure (length (te_username e) < USERNS_USER_SZ)%nat)
    | (TMFA_OK, None) => pure False
    | _ => nothing end)).
  - apply sp_tmfa. intros a c l L Hl Hs. pose proof (resolve_learns since kind k now a c l L Hl Hs) as Hr.
    destruct (tmfa_resolve_locked kind k now a c) as [[c' hs] [res out]]. destruct Hr as (H1 & H2 & Hr). split_and!; [apply H1..|done|].
    by destruct res; [done|destruct out as [[e owed]|]; exact Hr|].
  - intros [res [[e owed]|]].
    + apply sp_keeps_bind. { destruct res; [apply sp_keeps_when, keeps_touch|apply sp_keeps_when, keeps_touch|apply keeps_db_delete]. }
      intros _. apply sp_ret. destruct res; [done| |done]. intros l [Hl Hn] _. cbn [snd]. by rewrite (strlcpy_fits _ _ Hn).
    + apply sp_ret. by destruct res.
Qed.

Lemma keeps_touch_all now ts : keeps (touch_all now ts).
Proof.
  induction ts as [|[id key] ts IH]; [by apply sp_keeps_ret|]. cbn [touch_all]. apply keeps_bind; [apply keeps_touch|]. by intros _.
Qed.

Lemma not_users_walk timeout kind key now es : forall n, Forall not_user (seen_walk timeout kind key now n es).1.2.
Proof.
  induction es as [|e es IH]; intros n; [by constructor|]. cbn [seen_walk].
  destruct (_ || _); [specialize (IH n); by destruct (seen_walk _ _ _ _ n es) as [[? ?] ?]|].
  destruct n as [|n]; [specialize (IH O); destruct (seen_walk _ _ _ _ O es) as [[? ?] ?]; by constructor|].
  destruct (tmfa_stamp now e) as [e' touch]. specialize (IH (if touch then n else S n)).
  destruct (seen_walk _ _ _ _ _ es) as [[? ?] ?]. by constructor.
Qed.

Lemma keeps_seen kind key : keeps (userns_tmfa_seen kind key).
Proof.
  unfold userns_tmfa_seen. apply keeps_bind; [apply keeps_has_tmfa|]. intros there. destruct key as [|x key]; [by apply sp_keeps_ret|].
  destruct (negb there); [by apply sp_keeps_ret|]. apply keeps_bind; [apply keeps_asks|]. intros now.
  apply keeps_bind; [|intros ts; apply keeps_touch_all]. apply keeps_tmfa. intros a c l [Lc L] Hl.
  pose proof (seen_walk_ok (rp_timeout a) kind (x :: key) now (tc_entries c) USERNS_TMFA_MAX [] l L Hl) as Hw.
  pose proof (not_users_walk (rp_timeout a) kind (x :: key) now (tc_entries c) USERNS_TMFA_MAX) as Hn.
  destruct (seen_walk _ _ _ _ _ _) as [[r hs] ts]. destruct Hw as (W1 & W2 & W3). split; [|done]. split; [|done].
  split; [|exact W1]. cbn [with_entries tc_count tc_entries]. by rewrite W3.
Qed.

(** No login stood under that key, once [since] things had happened. *)
Program Definition dropped (since : nat) (kind key : cstr) : fact :=
  mk_fact (fun l => exists l1 l2, l = l1 ++ l2 /\ (since <= length l2)%nat /\ forall id, standing (ident_of id kind key) l2 = None) _.
Next Obligation. intros since kind key hs l (l1 & l2 & -> & Hs). exists (hs ++ l1), l2. by rewrite <- app_assoc. Qed.

Lemma sp_drop_rounds since n kind key : sp (drop_rounds n kind key) (so_long since) (fun _ => dropped since kind key).
Proof.
  induction n as [|n IH]; [by apply sp_act|]. cbn [drop_rounds].
  apply (sp_bind _ _ _ (fun r => match r with None => dropped since kind key | Some _ => so_long since end)).
  - apply sp_tmfa. intros a c l L Hl Hs. pose proof (drop_ok kind key c l L Hl) as Hd. unfold tmfa_drop_locked in *.
    destruct (split_at _ _) as [[[pre e] post]|]; destruct Hd as (H1 & H2 & H3); (split; [by split|]).
    + split; [by repeat constructor|]. by apply (says_on (so_long since) [ended e]).
    + split; [by constructor|]. exists [], l. by split_and!; [|exact Hs|apply H3].
  - intros [[id stored]|]; [|by apply sp_ret]. apply sp_keeps_bind; [apply keeps_db_delete|]. intros _.
    eapply sp_bind; [exact IH|]. intros more. by apply sp_ret.
Qed.

Lemma sp_has_tmfa f : sp has_tmfa f (fun there => also (pure (there = true)) f).
Proof. apply sp_act. intros a w G Hf. destruct (gd_tmfa _ G) as (c & -> & _). by split_and!; [|exists []|split]. Qed.

Lemma sp_drop since kind key : sp (userns_tmfa_drop kind key) (so_long since) (fun _ => given (key <> []) (dropped since kind key)).
Proof.
  unfold userns_tmfa_drop. eapply sp_bind; [apply sp_has_tmfa|]. intros there. apply sp_pure. intros ->.
  destruct key as [|x key]; [apply sp_ret; by intros l _ Hn|]. cbn [negb]. apply sp_keeps_bind; [apply keeps_asks|]. intros n.
  eapply sp_post; [|apply sp_drop_rounds]. by intros r l Hl _.
Qed.

Lemma keeps_delete_all id keys : keeps (delete_all id keys).
Proof.
  induction keys as [|k keys IH]; [by apply sp_keeps_ret|]. cbn [delete_all]. apply keeps_bind; [apply keeps_db_delete|]. by intros _.
Qed.

Lemma not_users_ended es : Forall not_user (map ended es).
Proof. induction es; by constructor. Qed.

Lemma keeps_del name key : keeps (userns_tmfa_del name key).
Proof.
  unfold userns_tmfa_del. apply keeps_bind; [apply keeps_has_tmfa|]. intros [|]; [|by apply sp_keeps_ret]. cbn [negb].
  apply keeps_bind; [apply keeps_get_user_id|]. intros id. destruct (id =? 0); [by apply sp_keeps_ret|].
  apply keeps_bind; [|intros keys; apply keeps_bind; [apply keeps_delete_all|]; intros _; by apply sp_keeps_ret].
  apply keeps_tmfa. intros a c l L Hl. split; [by apply (del_ok id key c l L Hl)|apply not_users_ended].
Qed.

Lemma keeps_look {B} (φ : tmfa_cache_t -> B) : keeps (on_tmfa (fun _ c => (c, [], φ c))).
Proof. apply keeps_tmfa. intros a c l L Hl. by section_ok. Qed.

Lemma keeps_sweep_due : keeps userns_tmfa_sweep_due.
Proof.
  unfold userns_tmfa_sweep_due. apply keeps_bind; [apply keeps_has_tmfa|]. intros [|]; [|by apply sp_keeps_ret]. cbn [negb].
  apply keeps_bind; [apply keeps_asks|]. intros now. apply keeps_bind; [apply keeps_look|]. intros last.
  destruct (_ <? _); [by apply sp_keeps_ret|]. apply keeps_tmfa. intros a c l L Hl. by destruct (_ =? _); section_ok.
Qed.

Lemma keeps_sweep_one s : keeps (sweep_one s).
Proof.
  unfold sweep_one. apply keeps_bind; [apply keeps_asks|]. intros now. apply keeps_bind; [apply keeps_asks|]. intros idle.
  apply keeps_bind; [destruct idle; [by apply sp_keeps_ret|apply keeps_asks]|]. intros p.
  destruct (_ && _); [by apply sp_keeps_ret|]. apply keeps_bind.
  - apply keeps_tmfa. intros a c l L Hl. pose proof (sweep_ok s p now a c l L Hl) as Hs. unfold tmfa_sweep_locked in *.
    destruct (split_at _ _) as [[[pre e] post]|]; [|by section_ok]. destruct (_ || _); [by section_ok|].
    case_bool_decide; [|by section_ok]. destruct (tmfa_stamp now e). by section_ok.
  - intros [[|] touch]; [apply keeps_db_delete|apply sp_keeps_when, keeps_touch].
Qed.

Lemma keeps_sweep : keeps userns_tmfa_sweep.
Proof.
  unfold userns_tmfa_sweep. apply keeps_bind; [apply keeps_has_tmfa|]. intros [|]; [|by apply sp_keeps_ret]. cbn [negb].
  apply keeps_bind; [apply keeps_look|]. intros snap. induction snap as [|s snap IH]; [by apply sp_keeps_ret|]. cbn [sweep_all].
  apply keeps_bind; [apply keeps_sweep_one|]. by intros _.
Qed.

Lemma keeps_user_delete name : keeps (userns_user_delete name).
Proof.
  unfold userns_user_delete. apply keeps_bind; [apply keeps_del|]. intros _. apply keeps_bind.
  - apply sp_query; [done|]. intros a w [G1 G2 G3 G4 G5 G6] _. destruct (List.find _ _) as [u|]; [|by split_and!; [|exists []|]].
    split_and!; [|by exists []|done]. split; try done; cbn [fst set_users set_mfa set_temp m_users m_mfa].
    + intros u' Hu. apply list_elem_of_In, filter_In in Hu as [Hu _]. by apply G3, list_elem_of_In.
    + intros r Hr. apply list_elem_of_In, filter_In in Hr as [Hr _]. by apply G4, list_elem_of_In.
  - intros [|]; [|by apply sp_keeps_ret]. apply keeps_bind; [apply keeps_invalidate|]. intros _. by apply sp_keeps_ret.
Qed.

(** *** Who a sender is *)

Lemma sp_mfa_match since mfa : sp (mfa_match mfa) (so_long since)
  (fun r => match r with Some u => also (known_since since (H_matched u mfa)) (pure (length u < USERNS_USER_SZ)%nat) | None => so_long since end).
Proof.
  apply sp_act. intros a w G Hs. destruct (userns_mfa_match (m_cache w) mfa) as [u|] eqn:Em; [|by split_and!; [|exists []|]].
  assert (Hj : justified (H_matched u mfa) (m_log w) /\ (length u < USERNS_USER_SZ)%nat).
  2:{ destruct Hj as [Hj Hn]. split_and!; [|by exists [H_matched u mfa]|split; [by exists [], (m_log w)|done]].
    apply good_log; [done|split; [done|by apply G]|by repeat constructor|by apply no_users; repeat constructor]. }
  unfold userns_mfa_match in Em. destruct mfa as [|x mfa]; [done|]. destruct (parse_mfa_string (x :: mfa)) as [inp|] eqn:Ei; [|done].
  rewrite mfa_scan_concat in Em. destruct (List.find _ _) as [e|] eqn:Ef; [|done]. injection Em as <-.
  apply List.find_some in Ef as [He Hm]. apply list_elem_of_In in He. destruct (gd_cache _ G e He) as (id & H1 & H2).
  destruct (user_sane _ _ _ (gd_log _ G) H1) as [_ Hn]. unfold compose. rewrite (strlcpy_fits _ _ Hn). split; [|done].
  exists id, (ce_pattern e), (ce_uuid e), inp. split_and!; [done..|]. by destruct e.
Qed.

Lemma sp_identity_meta method sender metadata : sp (identity_meta method sender metadata) nothing
  (fun meta => pure (metadata <> [] -> meta = strlcpy METHOD_META_SZ metadata)).
Proof.
  unfold identity_meta. destruct metadata as [|x metadata]; [|by apply sp_ret]. destruct method as [m|]; [|by apply sp_ret].
  destruct sender as [|y sender]; [by apply sp_ret|]. apply sp_keeps_bind; [apply keeps_asks|]. intros known.
  apply sp_keeps_bind; [apply keeps_asks|]. intros host. destruct host, known; apply sp_ret; by intros l _ Hn.
Qed.

Lemma keeps_sweep_maybe : keeps bot_identity_sweep_maybe.
Proof.
  unfold bot_identity_sweep_maybe. apply keeps_bind; [apply keeps_sweep_due|]. intros due. apply sp_keeps_when.
  apply keeps_bind; [apply keeps_asks|]. intros _. by apply sp_keeps_ret.
Qed.

(** What backs the answer. *)
Definition backed (since : nat) (m : method) (metadata u : cstr) : fact :=
  some_fact (fun meta => also (pure (metadata <> [] -> meta = strlcpy METHOD_META_SZ metadata)) (some_fact (fun h => also (known_since since h)
    (pure ((exists id key t timeout, h = H_login id u (mt_kind m) key t timeout /\ method_identity_key m meta USERNS_MFA_PATTERN_SZ = Some key) \/
           h = H_matched u meta))))).

Lemma keeps_autoidentify u : keeps (userns_user_get_autoidentify u).
Proof. apply keeps_select. Qed.

Lemma sp_by_pattern since m metadata meta : (metadata <> [] -> meta = strlcpy METHOD_META_SZ metadata) ->
  sp (matched ← mfa_match meta;
      match matched with
      | None => Ret None
      | Some u => auto ← userns_user_get_autoidentify u; Ret (if auto : bool then Some (strlcpy USERNS_USER_SZ u) else None)
      end) (so_long since) (fun who => match who with Some u => backed since m metadata u | None => nothing end).
Proof.
  intros Hm. eapply sp_bind; [apply sp_mfa_match|]. intros [u|]; [|by apply sp_ret].
  apply sp_keeps_bind; [apply keeps_autoidentify|]. intros [|]; [|by apply sp_ret]. apply sp_ret. intros l [Hs Hn].
  cbn in Hn. rewrite (strlcpy_fits _ _ Hn). exists meta. split; [done|]. exists (H_matched u meta). split; [done|]. by right.
Qed.

Lemma sp_identity since m sender metadata : sp (bot_identity_resolve (Some m) sender metadata USERNS_USER_SZ) (so_long since)
  (fun who => match who with Some u => backed since m metadata u | None => nothing end).
Proof.
  unfold bot_identity_resolve. change (USERNS_USER_SZ =? 0)%nat with false. cbn iota.
  apply (sp_bind _ _ _ (fun meta => also (pure (metadata <> [] -> meta = strlcpy METHOD_META_SZ metadata)) (so_long since))).
  { eapply sp_pre; [|eapply (sp_frame _ _ _ (so_long since)), sp_identity_meta]. intros l Hl. split; [done|exact Hl]. }
  intros meta. destruct meta as [|x meta]; [by apply sp_ret|]. set (mt := x :: meta). apply sp_pure. intros Hm.
  apply sp_keeps_bind; [apply keeps_sweep_maybe|]. intros _.
  eapply (sp_bind _ _ _ (fun login => match login with (TMFA_OK, u) => also (backed since m metadata u) (pure (length u < USERNS_USER_SZ)%nat) | _ => so_long since end)).
  - destruct (method_identity_key m mt USERNS_MFA_PATTERN_SZ) as [key|] eqn:Ek; [|by apply sp_ret].
    eapply sp_post; [|eapply sp_pre; [|eapply (sp_frame _ _ _ (so_long since)), sp_resolve]]; [|by intros l Hl].
    intros [res u] l [Hr Hs]. destruct res; [done| |done]. destruct (Hr eq_refl) as [(id & t & timeout & Hk) Hn].
    split; [|done]. exists mt. split; [done|]. eexists. split; [exact Hk|]. left. by eexists _, _, _, _.
  - intros [res u]. destruct res; [by apply sp_by_pattern| |by apply sp_by_pattern]. apply sp_ret. intros l [Hb Hn].
    cbn in Hn. by rewrite (strlcpy_fits _ _ Hn).
Qed.

Lemma keeps_identity m sender metadata : keeps (bot_identity_resolve (Some m) sender metadata USERNS_USER_SZ).
Proof. eapply sp_pre; [|eapply sp_post; [|apply (sp_identity 0)]]; [intros l _; cbn; lia|done]. Qed.

Lemma keeps_identity_seen m metadata : keeps (bot_identity_seen m metadata).
Proof.
  unfold bot_identity_seen. apply keeps_bind; [|intros _; apply keeps_sweep_maybe].
  destruct (method_identity_key _ _ _); [apply keeps_seen|by apply sp_keeps_ret].
Qed.

Lemma sp_identity_gone since m metadata : sp (bot_identity_gone m metadata) (so_long since)
  (fun _ => match method_identity_key m metadata USERNS_MFA_PATTERN_SZ with
            | Some key => given (key <> []) (dropped since (mt_kind m) key) | None => nothing end).
Proof.
  unfold bot_identity_gone. destruct (method_identity_key _ _ _) as [key|].
  - eapply sp_case_bind; [|intros _; apply sp_keeps, keeps_sweep_maybe]. eapply sp_bind; [apply sp_drop|]. intros n. by apply sp_ret.
  - apply sp_keeps_bind; [by apply sp_keeps_ret|]. intros _. eapply sp_post; [|apply sp_keeps, keeps_sweep_maybe]. done.
Qed.

Lemma keeps_gone m metadata : keeps (since ← so_far; _ ← bot_identity_gone m metadata; note (H_gone since m metadata)).
Proof.
  eapply sp_bind; [apply sp_so_far|]. intros since. eapply sp_bind; [apply sp_identity_gone|]. intros [].
  eapply sp_post; [|apply sp_note]; [done|done|done|]. intros l Hl Hd key Ek Hk. rewrite Ek in Hd. by apply Hd.
Qed.

Lemma keeps_exists name : keeps (userns_user_exists name).
Proof. apply keeps_select. Qed.

Lemma keeps_free_name n : forall i name candidate, keeps (free_name n i name candidate).
Proof.
  induction n as [|n IH]; intros i name candidate; cbn [free_name]; (apply keeps_bind; [apply keeps_exists|]); [intros _; by apply sp_keeps_ret|].
  intros [|]; [apply IH|by apply sp_keeps_ret].
Qed.

Lemma keeps_mfa_match mfa : keeps (mfa_match mfa).
Proof. eapply sp_pre; [|eapply sp_post; [|apply (sp_mfa_match 0)]]; [intros l _; cbn; lia|done]. Qed.

Lemma keeps_discover mfa : keeps (bot_discover_user mfa).
Proof.
  unfold bot_discover_user. destruct mfa as [|x mfa]; [by apply sp_keeps_ret|]. set (s := x :: mfa).
  apply keeps_bind; [apply keeps_asks|]. intros [|]; [|by apply sp_keeps_ret]. cbn [negb].
  apply keeps_bind; [apply keeps_mfa_match|]. intros [u|]; [by apply sp_keeps_ret|]. destruct (discovered_name s) as [name|]; [|by apply sp_keeps_ret].
  apply keeps_bind; [apply keeps_free_name|]. intros candidate. apply keeps_bind; [apply keeps_exists|]. intros [|]; [by apply sp_keeps_ret|].
  apply keeps_bind; [apply keeps_create_nopass|]. intros [|]; [|by apply sp_keeps_ret]. cbn [negb].
  apply keeps_bind; [apply keeps_add_mfa|]. intros _. by apply sp_keeps_ret.
Qed.

Lemma keeps_identify m bot metadata username : keeps (cmd_identify m bot metadata username).
Proof.
  unfold cmd_identify. destruct (method_identity_key _ _ _) as [key|]; [|by apply sp_keeps_ret].
  eapply sp_bind; [apply sp_auth|]. intros r. destruct r; [|by apply sp_ret..].
  apply sp_case_bind with nothing.
  { eapply sp_pre; [|apply sp_tmfa_add]. intros l Hl. by apply Hl. }
  intros _. by apply sp_keeps_ret.
Qed.

Lemma keeps_deauth m metadata username : keeps (cmd_deauth m metadata username).
Proof.
  unfold cmd_deauth. destruct (method_identity_key _ _ _) as [key|]; [|by apply sp_keeps_ret].
  apply keeps_bind; [apply keeps_del|]. intros _. by apply sp_keeps_ret.
Qed.

Lemma keeps_message m sender metadata : keeps (login_code (L_message m sender metadata)).
Proof.
  cbn [login_code]. eapply sp_bind; [apply sp_so_far|]. intros since. eapply sp_bind; [apply sp_identity|].
  intros [u|]; [|by apply sp_ret]. eapply sp_post; [|apply sp_note]; [done|done|done|].
  intros l Hl (meta & Hm & h & (l1 & l2 & El & Hs) & Hh). exists meta. split; [done|]. by exists l1, h, l2.
Qed.

Lemma keeps_unit {R} (p : P R) : keeps p -> keeps (_ ← p; skip).
Proof. intros Hp. apply keeps_bind; [done|]. intros _. by apply sp_keeps_ret. Qed.

Lemma login_keeps r : keeps (login_code r).
Proof.
  destruct r; cbn [login_code]; eauto using keeps_unit, keeps_identity_seen, keeps_gone, keeps_discover, keeps_sweep,
    keeps_create, keeps_user_delete, keeps_add_mfa, keeps_remove_mfa.
  - apply keeps_message.
  - apply keeps_bind; [apply keeps_identity|]. intros [u|]; [by apply sp_keeps_ret|apply keeps_identify].
  - apply keeps_bind; [apply keeps_identity|]. intros [u|]; [apply keeps_deauth|by apply sp_keeps_ret].
Qed.
End rules.
