(* ===== verification/LoginRuns.v ===== *)
(** * A namespace, from its tables to what its users do

    What holds of a namespace that is opened on tables which make sense, whatever threads
    then enter [Logins] in whatever order: whom a message acts as, where logins come from,
    when they end, how many there are; and what may go wrong nevertheless. *)

From S2P Require Import Prelude Conc Mfa Logins LoginsOk.

#[local] Open Scope c_scope.

(** ** Opening a namespace *)

Record tables := mk_tables { tb_users : list user_row; tb_next : Z; tb_mfa : list (Z * cstr); tb_temp : list temp_row }.

(** Users and patterns that are in the tables are history. *)
Definition history (T : tables) : list happening :=
  map (fun r => H_granted r.1 r.2) (tb_mfa T) ++ map (fun u => H_user (us_id u) (us_name u)) (tb_users T).

Definition at_rest (T : tables) : lmem :=
  mk_lmem (tb_users T) (tb_next T) (tb_mfa T) (tb_temp T) userns_cache_clear None (history T).

(** The caches are filled, which the database may refuse, and then published. *)
Definition userns_open : P unit := _ ← userns_cache_invalidate; userns_tmfa_ensure.

Section runs.
Context `{Fnmatch}.

Definition login_run (T : tables) (a1 a2 : reply) (es : list (mevent (A := reply))) : outcome (mstate (W := lmem) (A := reply)) :=
  match mrun login_code [Step 0 a1; Step 0 a2] (at_rest T, [userns_open]) with
  | Ok (m, _) => mrun login_code es (m, [])
  | Blocked => Blocked
  | Fault => Fault
  end.

(** ** Tables that make sense *)

Definition row_ident (r : temp_row) : ident := ident_of (tr_user r) (tr_kind r) (tr_key r).

Definition row_short (r : temp_row) : Prop :=
  (length (tr_key r) < USERNS_MFA_PATTERN_SZ)%nat /\ (length (tr_bot r) < USERNS_TMFA_BOT_SZ)%nat /\ (length (tr_kind r) < USERNS_TMFA_KIND_SZ)%nat.

Record tables_ok (T : tables) : Prop := {
  to_ids : NoDup (map us_id (tb_users T));
  to_user : Forall (fun u => 0 < us_id u < tb_next T /\ validate_username (us_name u) = true) (tb_users T);
  to_mfa : Forall (fun r => validate_mfa_pattern r.2 = true) (tb_mfa T);
  to_next : 0 < tb_next T;
  to_short : Forall row_short (tb_temp T);
  to_logins : NoDup (map row_ident (tb_temp T));
  to_cap : forall id, count (fun r => tr_user r =? id) (tb_temp T) <= Z.of_nat USERNS_TMFA_MAX
}.

Lemma history_ok T : tables_ok T -> log_ok (history T).
Proof.
  intros [H1 H2 H3 _ _ _ _]. unfold history. induction (tb_mfa T) as [|r rs IH]; cbn [map app log_ok].
  2:{ split; [by apply Forall_inv in H3|]. apply IH. by apply Forall_inv_tail in H3. }
  clear H3. induction (tb_users T) as [|u us IH]; [done|]. cbn [map log_ok] in *. apply list.NoDup_cons in H1 as [Hn H1].
  destruct (Forall_inv H2) as [[Hp _] Hv]. split; [|apply IH; [done|by apply Forall_inv_tail in H2]]. cbn [justified]. split_and!; [done| |].
  - unfold validate_username in Hv. destruct (us_name u); [done|]. apply andb_true_iff in Hv as [_ Hv]. by apply Nat.ltb_lt.
  - intros n Hi. apply Hn. apply list_elem_of_fmap in Hi as (u' & [= -> _] & Hu). by apply list_elem_of_fmap_2.
Qed.

Lemma history_users T id n : H_user id n ∈ history T <-> exists u, u ∈ tb_users T /\ us_id u = id /\ us_name u = n.
Proof.
  unfold history. rewrite elem_of_app, !list_elem_of_fmap. split.
  - intros [(r & [=] & _)|(u & [= -> ->] & Hu)]. by exists u.
  - intros (u & Hu & <- & <-). right. by exists u.
Qed.

(** Nothing of it is about logins. *)
Lemma history_aside T x : standing x (history T) = None.
Proof.
  unfold history. induction (tb_mfa T) as [|r rs IH]; [|exact IH]. cbn [map app]. by induction (tb_users T).
Qed.

(** ** The load *)

Lemma one_user us id : NoDup (map us_id us) ->
  List.filter (fun u => us_id u =? id) us = match List.find (fun u => us_id u =? id) us with Some u => [u] | None => [] end.
Proof.
  induction us as [|u us IH]; intros Hn; [done|]. cbn [map List.filter List.find] in *. apply list.NoDup_cons in Hn as [Hu Hn].
  destruct (us_id u =? id) eqn:E; [|by apply IH]. apply Z.eqb_eq in E. f_equal. rewrite IH by done.
  destruct (List.find _ us) as [u'|] eqn:Ef; [|done]. apply List.find_some in Ef as [Hi Ei]. apply Z.eqb_eq in Ei. destruct Hu.
  rewrite E, <- Ei. by apply list_elem_of_fmap_2, list_elem_of_In.
Qed.

Lemma temp_rows_sub m : NoDup (map us_id (m_users m)) -> sublist (map snd (temp_rows m)) (m_temp m) /\
  forall u r, (u, r) ∈ temp_rows m -> u ∈ m_users m /\ us_id u = tr_user r.
Proof.
  intros Hn. unfold temp_rows. induction (m_temp m) as [|r rs [IH1 IH2]]; [by split; [|intros u r Hi%elem_of_nil]|].
  cbn [flat_map]. rewrite one_user by done. destruct (List.find _ _) as [u|] eqn:Ef; cbn [map app].
  - apply List.find_some in Ef as [Hi Ei]. apply Z.eqb_eq in Ei. split; [by apply sublist_skip|].
    intros u' r' [ [= -> ->]|Hr]%elem_of_cons; [by rewrite list_elem_of_In|by apply IH2].
  - split; [by apply sublist_cons|exact IH2].
Qed.

Lemma sublist_map {A B} (f : A -> B) l k : sublist l k -> sublist (map f l) (map f k).
Proof. induction 1; cbn [map]; by constructor. Qed.

Lemma count_sublist {A} (f : A -> bool) l k : sublist l k -> count f l <= count f k.
Proof. induction 1 as [|x l k _ IH|x l k _ IH]; [done|rewrite !count_cons; lia|]. rewrite count_cons. destruct (f x); cbn [Z.b2z]; lia. Qed.

Lemma count_rev {A} (f : A -> bool) l : count f (rev l) = count f l.
Proof. induction l as [|x l IH]; [done|]. cbn [rev]. rewrite count_app, count_cons, IH, count_cons, count_nil. lia. Qed.

Lemma count_map {A B} (f : B -> bool) (g : A -> B) l : count f (map g l) = count (fun x => f (g x)) l.
Proof. induction l as [|x l IH]; [done|]. cbn [map]. by rewrite !count_cons, IH. Qed.

Definition stored_rows (T : tables) : list (user_row * temp_row) := temp_rows (at_rest T).
Definition load_one (ur : user_row * temp_row) : tmfa_entry_t := loaded_entry ur.1 ur.2.

(** A row and its user make an entry for the row's login. *)
Lemma loaded_row T u r : tables_ok T -> (u, r) ∈ stored_rows T ->
  te_ident (load_one (u, r)) = row_ident r /\ te_user (load_one (u, r)) = tr_user r /\ H_user (te_user (load_one (u, r))) (te_username (load_one (u, r))) ∈ history T.
Proof.
  intros HT Hi. destruct (temp_rows_sub (at_rest T) (to_ids T HT)) as [Hs Hu]. destruct (Hu u r Hi) as [H1 H2].
  assert (Hr : r ∈ tb_temp T) by (eapply sublist_subseteq; [exact Hs|]; by apply (list_elem_of_fmap_2 snd _ (u, r))).
  destruct (proj1 (List.Forall_forall _ _) (to_short T HT) r) as (F1 & _ & F2); [by apply list_elem_of_In|].
  unfold te_ident, row_ident, load_one, loaded_entry. cbn [fst snd te_user te_kind te_key te_username].
  rewrite !strlcpy_fits by done. rewrite H2. split_and!; [done..|]. apply history_users. exists u. split_and!; [done..|].
  symmetry. apply strlcpy_fits. eapply user_sane; [by apply history_ok|]. apply history_users. by exists u.
Qed.

Lemma load_idents T : tables_ok T -> map te_ident (map load_one (stored_rows T)) = map row_ident (map snd (stored_rows T)).
Proof.
  intros HT. rewrite !map_map. apply map_ext_in. intros [u r] Hi. apply list_elem_of_In in Hi. by apply (loaded_row T).
Qed.

Lemma standing_loaded x es T : standing x (map loaded es ++ history T) = state_of <$> find_entry x es.
Proof.
  unfold find_entry. induction es as [|e es IH]; [apply history_aside|]. cbn [map app standing loaded List.find]. fold (te_ident e).
  destruct (decide (x = te_ident e)) as [->|E]; [by rewrite !bool_decide_eq_true_2 by done|].
  by rewrite !bool_decide_eq_false_2 by congruence.
Qed.

Lemma load_ok T : tables_ok T -> let es := rev (map load_one (stored_rows T)) in entries_ok es (map loaded es ++ history T).
Proof.
  intros HT es. destruct (temp_rows_sub (at_rest T) (to_ids T HT)) as [Hs _]. fold (stored_rows T) in Hs. split.
  - unfold es. rewrite map_rev, load_idents by done. rewrite <- Permutation_rev.
    eapply sublist_NoDup; [exact (to_logins T HT)|]. by apply sublist_map.
  - intros id. unfold es. rewrite count_rev, count_map. pose proof (count_sublist (fun r => tr_user r =? id) _ _ Hs) as Hc.
    rewrite count_map in Hc. pose proof (to_cap T HT id) as Hcap. cbn [at_rest m_temp] in Hc.
    enough (count (fun x => held_by id (load_one x)) (stored_rows T) <= count (fun x => tr_user x.2 =? id) (stored_rows T)) by lia.
    clear Hs Hc. assert (Hall : forall ur, ur ∈ stored_rows T -> held_by id (load_one ur) = (tr_user ur.2 =? id)).
    { intros [u r] Hi. unfold held_by. by destruct (loaded_row T u r HT Hi) as (_ & -> & _). }
    induction (stored_rows T) as [|ur rows IH]; [done|]. rewrite !count_cons, Hall by left.
    specialize (IH ltac:(intros ur' Hi; apply Hall; by right)). lia.
  - intros x. apply standing_loaded.
  - intros e He. apply elem_of_app. right. unfold es in He. apply list_elem_of_In, in_rev, list_elem_of_In, list_elem_of_fmap in He as ([u r] & -> & Hi).
    by apply (loaded_row T).
Qed.

Lemma log_loaded es l : log_ok l -> log_ok (map loaded es ++ l).
Proof. intros Hl. by induction es. Qed.

Lemma not_user_loaded id n es : H_user id n ∉ map loaded es.
Proof. intros Hi. apply list_elem_of_fmap in Hi as (e & [=] & _). Qed.

(** An open namespace is good. *)
Lemma opened_good T c es : tables_ok T -> (forall e, e ∈ concat (uc_buckets c) -> exists id, H_user id (ce_username e) ∈ history T /\ H_granted id (ce_pattern e) ∈ history T) ->
  entries_ok es (map loaded es ++ history T) ->
  good (set_tmfa (Some (mk_tmfa es (wrap 32 (Z.of_nat (length es))) 0)) (add_log (map loaded es) (set_cache c (at_rest T)))).
Proof.
  intros HT Hc He. split; cbn [set_tmfa add_log set_cache at_rest m_log m_next m_users m_mfa m_cache m_tmfa].
  - by apply log_loaded, history_ok.
  - split; [apply (to_next T HT)|]. intros id n [Hi|Hi]%elem_of_app; [by apply not_user_loaded in Hi|].
    apply history_users in Hi as (u & Hu & <- & _). apply list_elem_of_In in Hu. apply (proj1 (List.Forall_forall _ _) (to_user T HT)) in Hu. lia.
  - intros u Hu. apply elem_of_app. right. apply history_users. by exists u.
  - intros r Hr. apply elem_of_app. right. unfold history. apply elem_of_app. left. by apply (list_elem_of_fmap_2 (fun r => H_granted r.1 r.2)).
  - intros e Hi. destruct (Hc e Hi) as (id & H1 & H2). exists id. split; apply elem_of_app; by right.
  - eexists. split; [done|]. by split.
Qed.

Lemma empty_ok l : (forall x, standing x l = None) -> entries_ok [] l.
Proof. intros Hs. split; [constructor|by intros id|exact Hs|by intros e He%elem_of_nil]. Qed.

Lemma open_good T a1 a2 : tables_ok T ->
  exists m, mrun login_code [Step 0 a1; Step 0 a2] (at_rest T, [userns_open]) = Ok (m, [Ret tt]) /\ good m.
Proof.
  intros HT. eexists. split; [reflexivity|]. apply opened_good; [done| |].
  - intros e He. eapply (filled_cache (at_rest T)); [by apply history_ok| | | |exact He].
    + intros u Hu. apply history_users. by exists u.
    + intros r Hr. unfold history. apply elem_of_app. left. by apply (list_elem_of_fmap_2 (fun r => H_granted r.1 r.2)).
    + destruct (rp_db a1); auto.
  - pose proof (load_ok T HT) as Hl. destruct (rp_db a2); [exact Hl|apply empty_ok, history_aside..].
Qed.

Lemma login_threads r : wp linv (login_code r) (fun _ t => t = []) [].
Proof.
  pose proof (login_keeps r) as Hk. apply (wp_entail _ _ []) in Hk; [|by repeat constructor|].
  2:{ intros r0 u u' He HQ l Hl. by apply HQ, He. }
  destruct (login_code r) as [[]|B f k]; [done|]. revert Hk. apply wp_forget; [|done]. intros r0 u _. exists []. split; [done|].
  intros w F [Hg HF]. split; [done|]. apply Forall_app in HF. by destruct HF.
Qed.

Lemma run_good T a1 a2 es : tables_ok T ->
  match login_run T a1 a2 es with Ok (m, _) => good m | Blocked => True | Fault => False end.
Proof.
  intros HT. unfold login_run. destruct (open_good T a1 a2 HT) as (m & -> & Hg).
  assert (Hm : machine_ok linv (W := lmem) (A := reply) (m, [])) by (exists []; split; [constructor|by split; [|constructor]]).
  pose proof (mrun_ok linv linv_perm login_code (fun _ => True) (fun r _ => login_threads r) es (m, [])) as Hr.
  assert (Hu : Forall (only_used (fun _ : login_root => True)) es) by (clear; induction es as [|[r|i a] es IH]; by constructor).
  specialize (Hr Hu Hm). destruct (mrun login_code es (m, [])) as [[m' ts]| |]; [|done..].
  destruct Hr as (us & _ & [Hg' _]). exact Hg'.
Qed.

(** ** What holds *)

(** C7: Opened on tables that make sense, a namespace never faults, whatever threads enter
    in whatever order; and whenever a message is acted on as a user, then, after the
    message came, either a login of that user under the message's kind and key stood and
    was within its window, or a pattern that was granted to that user matched the
    message's identity. *)
Theorem message_identity (T : tables) (a1 a2 : reply) (es : list (mevent (A := reply))) (HT : tables_ok T) :
  match login_run T a1 a2 es with
  | Ok (w, _) => forall l1 since u m metadata l2, m_log w = l1 ++ H_acts since u m metadata :: l2 ->
      exists meta l3 h l4, (metadata <> [] -> meta = strlcpy METHOD_META_SZ metadata) /\ l2 = l3 ++ h :: l4 /\ (since <= length l4)%nat /\
      ((exists id key t timeout bot t0, method_identity_key m meta USERNS_MFA_PATTERN_SZ = Some key /\
          h = H_login id u (mt_kind m) key t timeout /\ standing (ident_of id (mt_kind m) key) l4 = Some (u, bot, t0) /\ (timeout = 0 \/ t - t0 <= timeout)) \/
       (exists id pattern uuid inp, h = H_matched u meta /\ H_user id u ∈ l4 /\ H_granted id pattern ∈ l4 /\
          parse_mfa_string meta = Some inp /\ match_entry (mk_mce pattern u uuid) inp = true))
  | Blocked => True
  | Fault => False
  end.
Proof.
  pose proof (run_good T a1 a2 es HT) as Hg. destruct (login_run T a1 a2 es) as [[w ts]| |]; [|done..].
  intros l1 since u m metadata l2 El. pose proof (log_ok_at _ _ _ _ (gd_log _ Hg) El) as (meta & Hm & l3 & h & l4 & E2 & Hs & Hh).
  assert (E4 : m_log w = (l1 ++ H_acts since u m metadata :: l3) ++ h :: l4) by (rewrite El, E2; by rewrite <- app_assoc).
  pose proof (log_ok_at _ _ _ _ (gd_log _ Hg) E4) as Hj. exists meta, l3, h, l4. split_and!; [done..|].
  destruct Hh as [(id & key & t & timeout & -> & Hk)| ->]; [left|right].
  - destruct Hj as (bot & t0 & J1 & J2). by exists id, key, t, timeout, bot, t0.
  - destruct Hj as (id & pattern & uuid & inp & J). by exists id, pattern, uuid, inp.
Qed.


(** What stands was brought about. *)
Lemma standing_origin x l n b t : standing x l = Some (n, b, t) -> exists l1 h l2, l = l1 ++ h :: l2 /\
  (forall id k y, H_ended id k y ∈ l1 -> ident_of id k y <> x) /\
  (exists id k y t0, ident_of id k y = x /\ (h = H_minted id n b k y t0 \/ h = H_renewed id n b k y t0 \/ h = H_loaded id n b k y t0)).
Proof.
  revert t. induction l as [|h l IH]; intros t Hs; [done|].
  assert (G : (forall id k y, h = H_ended id k y -> ident_of id k y <> x) -> (exists t', standing x l = Some (n, b, t')) ->
    exists l1 h0 l2, h :: l = l1 ++ h0 :: l2 /\ (forall id k y, H_ended id k y ∈ l1 -> ident_of id k y <> x) /\
      (exists id k y t0, ident_of id k y = x /\ (h0 = H_minted id n b k y t0 \/ h0 = H_renewed id n b k y t0 \/ h0 = H_loaded id n b k y t0))).
  { intros Hh [t' Ht]. destruct (IH t' Ht) as (l1 & h0 & l2 & -> & He & Ho). exists (h :: l1), h0, l2. split_and!; [done| |done].
    intros id k y [E|Hi]%elem_of_cons; [by apply Hh|by apply He]. }
  destruct h; cbn [standing] in Hs; try (apply G; [done|by exists t]);
    case_bool_decide as E; try (apply G; [|by exists t]; intros ? ? ? [=]; congruence); try done.
  1-3: injection Hs as -> -> ->; eexists [], _, l; split_and!; [done|by intros ? ? ? Hi%elem_of_nil|]; eexists _, _, _, _; split; [by symmetry|auto].
  apply G; [done|]. destruct (standing x l) as [[[n' b'] t']|]; [|done]. cbn in Hs. injection Hs as -> -> _. by exists t'.
Qed.


(** C10: When the end of a connection has been dealt with, there was a moment after it was
    reported at which nobody was logged in under its key. *)
Theorem gone_ends_logins (T : tables) (a1 a2 : reply) (es : list (mevent (A := reply))) (HT : tables_ok T) :
  match login_run T a1 a2 es with
  | Ok (w, _) => forall l1 since m metadata l2 key, m_log w = l1 ++ H_gone since m metadata :: l2 ->
      method_identity_key m metadata USERNS_MFA_PATTERN_SZ = Some key -> key <> [] ->
      exists l3 l4, l2 = l3 ++ l4 /\ (since <= length l4)%nat /\ forall id, standing (ident_of id (mt_kind m) key) l4 = None
  | _ => True
  end.
Proof.
  pose proof (run_good T a1 a2 es HT) as Hg. destruct (login_run T a1 a2 es) as [[w ts]| |]; [|done..].
  intros l1 since m metadata l2 key El. apply (log_ok_at _ _ _ _ (gd_log _ Hg) El).
Qed.
End runs.

(** ** Runs *)

#[local] Existing Instance posix_fnmatch.

(** A database that answers, the time, no idle limit, and a number. *)
Definition answers (t n : Z) : reply := mk_reply Db_ok t (fun _ _ => 0) n (lit "x").

Definition steps (i : nat) (t n : Z) (k : nat) : list (mevent (Root := login_root) (A := reply)) := replicate k (Step i (answers t n)).

Definition bob : user_row := mk_user 1 (lit "bob") (lit "0-1") (lit "$argon2id$") true.
Definition of_bob : tables := mk_tables [bob] 2 [(1, lit "bob!*@*.example.org")] [].
Definition bob_run (es : list (mevent (Root := login_root) (A := reply))) : outcome (mstate (W := lmem) (A := reply)) :=
  login_run of_bob (answers 0 1) (answers 0 1) es.

(** Where a run leads. *)
Definition memory_of (o : outcome (mstate (W := lmem) (A := reply))) : option lmem :=
  match o with Ok (w, ts) => Some w | _ => None end.
Definition all_ended (o : outcome (mstate (W := lmem) (A := reply))) : bool :=
  match o with Ok (_, ts) => forallb (fun p => match p with Ret _ => true | Act _ _ => false end) ts | _ => false end.

Definition irc : method := mk_method (lit "irc") None.
Definition reachy : method := mk_method (lit "reachy") None.
Definition al : cstr := lit "al!u@home.net".
Definition as_bob (m : method) : login_root := L_identify m (lit "bot") (lit "al") al (lit "bob").

Lemma of_bob_ok : tables_ok of_bob.
Proof.
  split; cbn [of_bob tb_users tb_next tb_mfa tb_temp map]; try (by constructor); try lia.
  - apply NoDup_singleton.
  - intros id. by vm_compute.
Qed.

(** A sender whose nick is too short for a pattern is discovered again with every line: the
    user is made before the pattern is refused, and the refusal is ignored. *)
Theorem discovery_repeats :
  let o := bob_run (Spawn (L_discover (lit "ab!u@pc.example.org")) :: steps 0 10 1 6 ++ Spawn (L_discover (lit "ab!u@pc.example.org")) :: steps 1 20 1 7) in
  all_ended o = true /\
  exists w, memory_of o = Some w /\ map us_name (m_users w) = [lit "bob"; lit "ab"; lit "ab1"] /\ m_mfa w = tb_mfa of_bob.
Proof. split; [vm_compute; reflexivity|]. eexists. split; [vm_compute; reflexivity|]. by vm_compute. Qed.

(** A quit that comes while a password is checked does not end the login that is about to
    be minted; one that comes between the mint and its row leaves the row, and the login is
    back when the namespace is opened next. *)
Theorem login_after_quit :
  (let o := bob_run (Spawn (as_bob irc) :: steps 0 10 1 12 ++ Spawn (L_gone irc al) :: steps 1 10 2 8 ++ steps 0 10 1 3) in
   all_ended o = true /\
   exists w, memory_of o = Some w /\ existsb (fun h => match h with H_gone _ _ _ => true | _ => false end) (m_log w) = true /\
     standing (ident_of 1 (lit "irc") al) (m_log w) = Some (lit "bob", lit "bot", 10)) /\
  (let o := bob_run (Spawn (as_bob irc) :: steps 0 10 1 14 ++ Spawn (L_gone irc al) :: steps 1 10 2 10 ++ steps 0 10 1 1) in
   all_ended o = true /\
   exists w, memory_of o = Some w /\ standing (ident_of 1 (lit "irc") al) (m_log w) = None /\
     exists w', memory_of (login_run (mk_tables (m_users w) (m_next w) (m_mfa w) (m_temp w)) (answers 0 1) (answers 0 1) []) = Some w' /\
       standing (ident_of 1 (lit "irc") al) (m_log w') = Some (lit "bob", lit "bot", 10)).
Proof.
  split; (split; [vm_compute; reflexivity|]); eexists; (split; [vm_compute; reflexivity|]); (split; [vm_compute; reflexivity|]); [by vm_compute|].
  eexists. split; vm_compute; reflexivity.
Qed.

(** A login that is minted while its user is deleted stands after the user is gone, and a
    message is acted on as that user. *)
Theorem deleted_user_acts :
  let o := bob_run (Spawn (as_bob irc) :: steps 0 10 1 13 ++ Spawn (L_user_del (lit "bob")) :: steps 1 10 1 3 ++ steps 0 10 1 2 ++ steps 1 10 1 2 ++
    Spawn (L_message irc (lit "al") al) :: steps 2 20 1 8) in
  all_ended o = true /\ exists w since l, memory_of o = Some w /\ m_users w = [] /\ m_log w = H_acts since (lit "bob") irc al :: l.
Proof. split; [vm_compute; reflexivity|]. eexists _, _, _. split; [vm_compute; reflexivity|]. split; reflexivity. Qed.

(** The sweep takes the first login of the user with the key for the one it asked about: the
    login of a bot that is gone stays, and that of another method whose sender is present
    is ended. *)
Theorem sweep_ends_the_wrong_login :
  let o := bob_run (Spawn (as_bob irc) :: steps 0 10 1 15 ++ Spawn (as_bob reachy) :: steps 1 10 1 15 ++ Spawn L_sweep :: steps 2 20 1 6 ++ steps 2 20 2 5) in
  all_ended o = true /\ exists w, memory_of o = Some w /\ standing (ident_of 1 (lit "reachy") al) (m_log w) = None /\
    standing (ident_of 1 (lit "irc") al) (m_log w) = Some (lit "bob", lit "bot", 10).
Proof. split; [vm_compute; reflexivity|]. eexists. split; [vm_compute; reflexivity|]. by vm_compute. Qed.

(** ** Witnesses *)

(** Bob identifies as al, speaks under both identities, and al quits. *)
Definition bob_day : list (mevent (Root := login_root) (A := reply)) :=
  Spawn (as_bob irc) :: steps 0 10 1 15 ++ Spawn (L_message irc (lit "bob") (lit "bob!b@pc.example.org")) :: steps 1 20 1 10 ++
  Spawn (L_message irc (lit "al") al) :: steps 2 30 1 8.

Definition bob_memory : lmem := default (at_rest of_bob) (memory_of (bob_run bob_day)).

Lemma bob_day_ends : exists ts, login_run of_bob (answers 0 1) (answers 0 1) bob_day = Ok (bob_memory, ts).
Proof. eexists. vm_compute. reflexivity. Qed.

Definition bob_gone : lmem := default (at_rest of_bob) (memory_of (bob_run (bob_day ++ Spawn (L_gone irc al) :: steps 3 40 2 10))).

Lemma bob_gone_ends : exists ts, login_run of_bob (answers 0 1) (answers 0 1) (bob_day ++ Spawn (L_gone irc al) :: steps 3 40 2 10) = Ok (bob_gone, ts).
Proof. eexists. vm_compute. reflexivity. Qed.

Lemma message_identity_witness : exists since l2 meta l3 h l4,
  m_log bob_memory = H_acts since (lit "bob") irc al :: l2 /\ meta = strlcpy METHOD_META_SZ al /\ l2 = l3 ++ h :: l4 /\ (since <= length l4)%nat.
Proof.
  destruct bob_day_ends as [ts E]. pose proof (message_identity of_bob (answers 0 1) (answers 0 1) bob_day of_bob_ok) as Hm.
  rewrite E in Hm.
  assert (El : exists since l2, m_log bob_memory = [] ++ H_acts since (lit "bob") irc al :: l2) by (eexists _, _; vm_compute; reflexivity).
  destruct El as (since & l2 & El). destruct (Hm [] since _ _ _ l2 El) as (meta & l3 & h & l4 & H1 & H2 & H3 & _).
  exists since, l2, meta, l3, h, l4. split; [exact El|]. split; [by apply H1|]. by split.
Defined.



Lemma gone_ends_logins_witness : exists l3 l4, standing (ident_of 1 (lit "irc") al) (l3 ++ l4) = None /\
  standing (ident_of 1 (lit "irc") al) l4 = None /\ (9 <= length l4)%nat.
Proof.
  destruct bob_gone_ends as [ts E].
  pose proof (gone_ends_logins of_bob (answers 0 1) (answers 0 1) (bob_day ++ Spawn (L_gone irc al) :: steps 3 40 2 10) of_bob_ok) as Hm.
  rewrite E in Hm.
  assert (El : exists l2, m_log bob_gone = [] ++ H_gone 9 irc al :: l2 /\ standing (ident_of 1 (lit "irc") al) l2 = None)
    by (eexists; split; [vm_compute; reflexivity|vm_compute; reflexivity]).
  destruct El as (l2 & El & Es). destruct (Hm [] 9%nat irc al l2 al El) as (l3 & l4 & E2 & Hl & Hn); [vm_compute; reflexivity|done|].
  exists l3, l4. split; [by rewrite <- E2|]. split; [apply Hn|exact Hl].
Defined.
