(* ===== verification/When.v ===== *)
(** * The moment a person asks for: plugins/bot/chat/when.c

    The grammar of the remind and in commands: delays, times of day, days, zones and
    repeats, read off the head of a line, and a stored repeat put back into words. The
    words of the person are a C string, and a pointer into them the suffix it points at.
    The text of a refusal is part of the result. *)

From S2P Require Import Prelude.

#[local] Open Scope c_scope.

(** ** Data *)

Definition WHEN_TZ_SZ : nat := 64.
Definition WHEN_DAYS_ALL : Z := 127.
Definition WHEN_DURATION_MAX : Z := 10 * 365 * 86400.

Inductive when_kind_t := WHEN_DELAY | WHEN_BACK | WHEN_CLOCK | WHEN_EVERY | WHEN_WEEKLY.

Record when_t := mk_when {
  wh_kind : when_kind_t; wh_secs : Z; wh_days : Z; wh_lo : Z; wh_hi : Z;
  wh_minute : Z; wh_tz_named : bool; wh_tz : cstr
}.

(** [memset(out, 0, ...)] *)
Definition when_zero : when_t := mk_when WHEN_DELAY 0 0 0 0 0 false [].

Definition with_kind x w := mk_when x (wh_secs w) (wh_days w) (wh_lo w) (wh_hi w) (wh_minute w) (wh_tz_named w) (wh_tz w).
Definition with_secs x w := mk_when (wh_kind w) x (wh_days w) (wh_lo w) (wh_hi w) (wh_minute w) (wh_tz_named w) (wh_tz w).
Definition with_days x lo hi w := mk_when (wh_kind w) (wh_secs w) x lo hi (wh_minute w) (wh_tz_named w) (wh_tz w).
Definition with_minute x w := mk_when (wh_kind w) (wh_secs w) (wh_days w) (wh_lo w) (wh_hi w) x (wh_tz_named w) (wh_tz w).
Definition with_tz x named w := mk_when (wh_kind w) (wh_secs w) (wh_days w) (wh_lo w) (wh_hi w) (wh_minute w) named x.

Record when_word_t := mk_word { ww_end : cstr; ww_long : bool; ww_raw : cstr; ww_norm : cstr }.

(** [why] is None until something goes wrong. *)
Record when_cur_t := mk_cur { cu_p : cstr; cu_local : option cstr; cu_out : when_t; cu_why : option cstr }.

Definition cur_to (p : cstr) (c : when_cur_t) : when_cur_t := mk_cur p (cu_local c) (cu_out c) (cu_why c).
Definition cur_out (f : when_t -> when_t) (c : when_cur_t) : when_cur_t := mk_cur (cu_p c) (cu_local c) (f (cu_out c)) (cu_why c).
Definition cur_why (s : string) (c : when_cur_t) : when_cur_t := mk_cur (cu_p c) (cu_local c) (cu_out c) (Some (lit s)).

Inductive when_part_t := WHEN_PART_FOUND | WHEN_PART_NONE | WHEN_PART_ERROR.

Definition when_weekdays : list (cstr * Z) :=
  [(lit "sun", 0); (lit "sunday", 0); (lit "sundays", 0);
   (lit "mon", 1); (lit "monday", 1); (lit "mondays", 1);
   (lit "tue", 2); (lit "tues", 2); (lit "tuesday", 2); (lit "tuesdays", 2);
   (lit "wed", 3); (lit "weds", 3); (lit "wednesday", 3); (lit "wednesdays", 3);
   (lit "thu", 4); (lit "thur", 4); (lit "thurs", 4); (lit "thursday", 4);
   (lit "thursdays", 4);
   (lit "fri", 5); (lit "friday", 5); (lit "fridays", 5);
   (lit "sat", 6); (lit "saturday", 6); (lit "saturdays", 6)].

Definition when_day_names : list cstr :=
  [lit "Sunday"; lit "Monday"; lit "Tuesday"; lit "Wednesday"; lit "Thursday"; lit "Friday"; lit "Saturday"].

Definition when_units : list (cstr * Z) :=
  [(lit "s", 1); (lit "sec", 1); (lit "secs", 1); (lit "second", 1); (lit "seconds", 1);
   (lit "m", 60); (lit "min", 60); (lit "mins", 60); (lit "minute", 60); (lit "minutes", 60);
   (lit "h", 3600); (lit "hr", 3600); (lit "hrs", 3600); (lit "hour", 3600); (lit "hours", 3600);
   (lit "d", 86400); (lit "day", 86400); (lit "days", 86400);
   (lit "w", 604800); (lit "wk", 604800); (lit "wks", 604800); (lit "week", 604800); (lit "weeks", 604800)].

Definition when_zones : list (cstr * cstr) :=
  [(lit "est", lit "America/New_York"); (lit "edt", lit "America/New_York");
   (lit "et", lit "America/New_York"); (lit "eastern", lit "America/New_York");
   (lit "cst", lit "America/Chicago"); (lit "cdt", lit "America/Chicago");
   (lit "ct", lit "America/Chicago"); (lit "central", lit "America/Chicago");
   (lit "mst", lit "America/Denver"); (lit "mdt", lit "America/Denver");
   (lit "mt", lit "America/Denver"); (lit "mountain", lit "America/Denver");
   (lit "pst", lit "America/Los_Angeles"); (lit "pdt", lit "America/Los_Angeles");
   (lit "pt", lit "America/Los_Angeles"); (lit "pacific", lit "America/Los_Angeles");
   (lit "akst", lit "America/Anchorage"); (lit "akdt", lit "America/Anchorage");
   (lit "alaska", lit "America/Anchorage");
   (lit "hst", lit "Pacific/Honolulu"); (lit "hawaii", lit "Pacific/Honolulu");
   (lit "utc", lit "UTC"); (lit "gmt", lit "UTC")].

(** The first row of a table under that name. *)
Definition table_row {A} (name : cstr) (t : list (cstr * A)) : option A := snd <$> List.find (fun r => seqb name r.1) t.

(** ** Words *)

Definition blank (c : ascii) : bool := ceqb c " " || ceqb c (chr 9).
Definition not_blank (c : ascii) : bool := negb (blank c).
Definition ends_word (c : ascii) : bool := match strchr (lit ",;.!?") c with Some _ => true | None => false end.

(** Without the punctuation at the end. *)
Definition trim_end (s : cstr) : cstr := rev (skip_while ends_word (rev s)).

Definition when_next_word (p : cstr) : option when_word_t :=
  match skip_while blank p with
  | [] => None
  | start =>
      let n := trim_end (span not_blank start) in
      let long := (WHEN_TZ_SZ <=? length n)%nat in
      let raw := if long then [] else n in
      Some (mk_word (skip_while not_blank start) long raw (map tolower raw))
  end.

Definition when_is (w : when_word_t) (s : string) : bool := seqb (ww_norm w) (lit s).

Definition when_all_digits (s : cstr) : bool := match s with [] => false | _ => forallb isdigit s end.

Definition zone_char (c : ascii) : bool :=
  islower c || isupper c || isdigit c || match strchr (lit "/_+-") c with Some _ => true | None => false end.

Definition when_zone_valid (s : cstr) : bool :=
  match s with
  | [] => false
  | c :: _ => if ceqb c "/" || match strstr s (lit "..") with Some _ => true | None => false end then false else forallb zone_char s
  end.

Definition when_weekday (norm : cstr) : Z := default (-1) (table_row norm when_weekdays).

(** The loop over the pieces between commas. *)
Fixpoint weekday_pieces (n : nat) (mask : Z) (p : cstr) : Z :=
  match n with
  | O => 0
  | S n' =>
      let piece := match strchr p "," with Some i => take i p | None => p end in
      if (length piece =? 0)%nat || (16 <=? length piece)%nat then 0
      else
        let dow := when_weekday piece in
        if dow <? 0 then 0
        else
          let mask' := Z.lor mask (wrap 8 (Z.shiftl 1 dow)) in
          match strchr p "," with Some i => weekday_pieces n' mask' (p +> S i) | None => mask' end
  end.

Definition when_weekday_list (norm : cstr) : Z := weekday_pieces (S (length norm)) 0 norm.

Definition when_unit (s : cstr) : Z := default 0 (table_row s when_units).

Definition when_ampm (s : cstr) : Z :=
  if seqb s (lit "am") || seqb s (lit "a.m") then 0
  else if seqb s (lit "pm") || seqb s (lit "p.m") then 12
  else -1.

(** ** Durations *)

(** Digits onto a number; None when it passes the bound. *)
Fixpoint read_number (n : Z) (p : cstr) : option (Z * cstr) :=
  match p with
  | c :: p' =>
      if isdigit c then
        let n' := wrap 64 (n * 10 + digit_val c) in
        if WHEN_DURATION_MAX <? n' then None else read_number n' p'
      else Some (n, p)
  | [] => Some (n, [])
  end.

(** [unit] has sixteen places, one for the NUL. *)
Fixpoint read_unit (unit : cstr) (p : cstr) : option (cstr * cstr) :=
  match p with
  | c :: p' =>
      if isdigit c then Some (unit, p)
      else if (16 <=? length unit + 1)%nat then None
      else read_unit (unit ++ [tolower c]) p'
  | [] => Some (unit, [])
  end.

Fixpoint duration_pairs (fuel : nat) (total : Z) (p : cstr) : Z :=
  match fuel with
  | O => 0
  | S fuel' =>
      match p with
      | [] => total
      | c :: _ =>
          if negb (isdigit c) then 0
          else match read_number 0 p with
               | None => 0
               | Some (n, p1) =>
                   match read_unit [] p1 with
                   | None => 0
                   | Some (unit, p2) =>
                       let mult := when_unit unit in
                       if mult =? 0 then 0
                       else
                         let total' := wrap 64 (total + wrap 64 (n * mult)) in
                         if WHEN_DURATION_MAX <? total' then 0 else duration_pairs fuel' total' p2
                   end
               end
      end
  end.

Definition when_parse_duration (tok : cstr) : Z :=
  match tok with
  | [] => 0
  | _ =>
      if when_all_digits tok then match read_number 0 tok with Some (n, _) => n | None => 0 end
      else duration_pairs (S (length tok)) 0 tok
  end.

Definition when_try_duration (c : when_cur_t) : option when_cur_t :=
  match when_next_word (cu_p c) with
  | None => None
  | Some w =>
      if ww_long w then None
      else
        let nx := when_next_word (ww_end w) in
        let more := match nx with Some x => negb (ww_long x) | None => false end in
        let secs := when_parse_duration (ww_norm w) in
        let norm := match nx with Some x => ww_norm x | None => [] end in
        let wordy := when_all_digits (ww_norm w) && more in
        if wordy && (0 <=? when_ampm norm) then None
        else
          let unit := wordy && negb (when_unit norm =? 0) in
          let secs' := if unit then wrap 64 (secs * when_unit norm) else secs in
          let e := if unit then match nx with Some x => ww_end x | None => ww_end w end else ww_end w in
          if (secs' =? 0) || (WHEN_DURATION_MAX <? secs') then None
          else Some (cur_to e (cur_out (with_secs secs') c))
  end.

(** ** The parts of a clock *)

(** The first digits of a word, [nd] so far and three at most. *)
Fixpoint clock_digits (nd : nat) (h : Z) (s : cstr) : nat * Z * cstr :=
  match s with
  | c :: s' => if isdigit c && (nd <? 3)%nat then clock_digits (S nd) (h * 10 + digit_val c) s' else (nd, h, s)
  | [] => (nd, h, [])
  end.

(** What is after the digits: minutes, whether there is a colon, and what remains; None
    for a colon that two digits do not follow. *)
Definition clock_minutes (s : cstr) : option (Z * bool * cstr) :=
  if ceqb *[s] ":" then
    if isdigit *[s +> 1] && isdigit *[s +> 2] then Some (digit_val *[s +> 1] * 10 + digit_val *[s +> 2], true, s +> 3) else None
  else Some (0, false, s).

(** AM or PM, glued to the digits or as a word of its own, and where the time ends; None
    when something else is glued to them. *)
Definition clock_ampm (w : when_word_t) (s : cstr) : option (Z * cstr) :=
  match s with
  | _ :: _ => if when_ampm s <? 0 then None else Some (when_ampm s, ww_end w)
  | [] =>
      match when_next_word (ww_end w) with
      | Some nx => Some (when_ampm (ww_norm nx), if 0 <=? when_ampm (ww_norm nx) then ww_end nx else ww_end w)
      | None => Some (-1, ww_end w)
      end
  end.

(** The hour of the day, or what is wrong with it. *)
Definition clock_hour (h m ampm : Z) (colon : bool) : Z + string :=
  if 59 <? m then inr "minutes run 00 to 59"%string
  else if 0 <=? ampm then
    if (h <? 1) || (12 <? h) then inr "with AM or PM the hour runs 1 to 12"%string else inl (h mod 12 + ampm)
  else if negb colon && (h <=? 12) then inr "is that AM or PM? (say 3pm, or 15:00)"%string
  else if 23 <? h then inr "the hour runs 0 to 23"%string
  else inl h.

Definition when_try_time (c : when_cur_t) (after_at : bool) : when_part_t * when_cur_t :=
  match when_next_word (cu_p c) with
  | None => (WHEN_PART_NONE, c)
  | Some w =>
      if ww_long w then (WHEN_PART_NONE, c)
      else if when_is w "noon" || when_is w "midnight"
      then (WHEN_PART_FOUND, cur_to (ww_end w) (cur_out (with_minute (if when_is w "noon" then 720 else 0)) c))
      else
        let '(nd, h, s) := clock_digits 0 0 (ww_norm w) in
        if (nd =? 0)%nat || (2 <? nd)%nat then (WHEN_PART_NONE, c)
        else match clock_minutes s with
             | None => (WHEN_PART_NONE, c)
             | Some (m, colon, s') =>
                 match clock_ampm w s' with
                 | None => (WHEN_PART_NONE, c)
                 | Some (ampm, e) =>
                     if (ampm <? 0) && negb colon && negb after_at then (WHEN_PART_NONE, c)
                     else match clock_hour h m ampm colon with
                          | inr why => (WHEN_PART_ERROR, cur_why why c)
                          | inl h' => (WHEN_PART_FOUND, cur_to e (cur_out (with_minute (wrap 16 (h' * 60 + m))) c))
                          end
                 end
             end
  end.

Definition when_try_at_time (c : when_cur_t) : when_part_t * when_cur_t :=
  match when_next_word (cu_p c) with
  | Some w =>
      if when_is w "at" then
        match when_try_time (cur_to (ww_end w) c) true with
        | (WHEN_PART_NONE, c') => (WHEN_PART_ERROR, cur_why "at what time?" (cur_to (cu_p c) c'))
        | r => r
        end
      else when_try_time c false
  | None => when_try_time c false
  end.

Definition starts_alpha (s : cstr) : bool := isupper *[s] || islower *[s].

Definition zone_of (w : when_word_t) : option cstr :=
  let named := table_row (ww_norm w) when_zones in
  let named := if (length (ww_raw w) =? 2)%nat && negb (forallb isupper (ww_raw w)) then None else named in
  match named with
  | Some z => Some z
  | None =>
      if match strchr (ww_raw w) "/" with Some _ => true | None => false end && when_zone_valid (ww_raw w) && starts_alpha (ww_raw w)
      then Some (ww_raw w) else None
  end.

Definition when_try_zone (c : when_cur_t) : option when_cur_t :=
  match when_next_word (cu_p c) with
  | None => None
  | Some w =>
      if ww_long w then None
      else match zone_of w with
           | None => None
           | Some zone =>
               let c' := cur_to (ww_end w) (cur_out (with_tz (strlcpy WHEN_TZ_SZ zone) true) c) in
               match when_next_word (ww_end w) with
               | Some nx => Some (if when_is nx "time" then cur_to (ww_end nx) c' else c')
               | None => Some c'
               end
           end
  end.

(** The further days of a list; [p] is where it ends so far. *)
Fixpoint more_days (fuel : nat) (mask : Z) (p : cstr) : Z * cstr :=
  match fuel with
  | O => (mask, p)
  | S fuel' =>
      match when_next_word p with
      | None => (mask, p)
      | Some nx =>
          if ww_long nx then (mask, p)
          else if when_is nx "and" || when_is nx "&" then
            match when_next_word (ww_end nx) with
            | None => (mask, p)
            | Some day =>
                let more := when_weekday_list (ww_norm day) in
                if more =? 0 then (mask, p) else more_days fuel' (Z.lor mask more) (ww_end day)
            end
          else
            let more := when_weekday_list (ww_norm nx) in
            if more =? 0 then (mask, p) else more_days fuel' (Z.lor mask more) (ww_end nx)
      end
  end.

(** 0 when there is no day, with the cursor where it was. *)
Definition when_try_days (c : when_cur_t) : Z * when_cur_t :=
  match when_next_word (cu_p c) with
  | None => (0, c)
  | Some w =>
      if ww_long w then (0, c)
      else
        let mask :=
          if when_is w "day" || when_is w "days" then WHEN_DAYS_ALL
          else if when_is w "weekday" || when_is w "weekdays" then 62
          else if when_is w "weekend" || when_is w "weekends" then 65
          else when_weekday_list (ww_norm w) in
        if mask =? 0 then (0, c)
        else let '(mask', p) := more_days (length (ww_end w)) mask (ww_end w) in (mask', cur_to p c)
  end.

Definition when_try_dayword (c : when_cur_t) : option when_cur_t :=
  match when_next_word (cu_p c) with
  | None => None
  | Some w =>
      if ww_long w then None
      else if when_is w "today" || when_is w "tomorrow" then
        let lo := if when_is w "tomorrow" then 1 else 0 in
        Some (cur_to (ww_end w) (cur_out (with_days WHEN_DAYS_ALL lo lo) c))
      else
        let dow := when_weekday (ww_norm w) in
        if 0 <=? dow then Some (cur_to (ww_end w) (cur_out (with_days (wrap 8 (Z.shiftl 1 dow)) 0 7) c)) else None
  end.

Definition when_finish_zone (c : when_cur_t) : bool * when_cur_t :=
  if wh_tz_named (cu_out c) then (true, c)
  else
    let lost := "I can't tell what timezone I'm in — name one (e.g. 3pm America/New_York)"%string in
    match cu_local c with
    | Some tz =>
        if negb (when_zone_valid tz) then (false, cur_why lost c)
        else
          let c' := cur_out (with_tz (strlcpy WHEN_TZ_SZ tz) (wh_tz_named (cu_out c))) c in
          if (WHEN_TZ_SZ <=? length tz)%nat then (false, cur_why lost c') else (true, c')
    | None => (false, cur_why lost c)
    end.

(** ** The two clock grammars *)

(** Whether a part was found, so far. *)
Record parts := mk_parts { pt_day : bool; pt_time : bool; pt_zone : bool }.

(** A loop over parts: it goes on, it leaves, or the phrase is refused. *)
Inductive turn := Again (h : parts) (c : when_cur_t) | Leave (h : parts) (c : when_cur_t) | Refuse (c : when_cur_t).

(** The time and the zone, which both grammars look for in the same order. *)
Definition time_and_zone (h : parts) (c : when_cur_t) : turn :=
  let zone (c : when_cur_t) :=
    if pt_time h && negb (pt_zone h) then
      match when_try_zone c with
      | Some c' => Again (mk_parts (pt_day h) (pt_time h) true) c'
      | None => Leave h c
      end
    else Leave h c in
  if negb (pt_time h) then
    match when_try_at_time c with
    | (WHEN_PART_ERROR, c') => Refuse c'
    | (WHEN_PART_FOUND, c') => Again (mk_parts (pt_day h) true (pt_zone h)) c'
    | (WHEN_PART_NONE, c') => zone c'
    end
  else zone c.

Fixpoint every_loop (fuel : nat) (h : parts) (c : when_cur_t) : turn :=
  match fuel with
  | O => Leave h c
  | S fuel' =>
      match when_next_word (cu_p c) with
      | None => Leave h c
      | Some _ => match time_and_zone h c with Again h' c' => every_loop fuel' h' c' | t => t end
      end
  end.

Definition when_parse_every (c : when_cur_t) (daily : bool) : bool * when_cur_t :=
  let '(days, c1) := if daily then (WHEN_DAYS_ALL, c) else when_try_days c in
  let c1 := cur_out (fun w => with_days days (wh_lo w) (wh_hi w) w) c1 in
  if days =? 0 then
    match when_try_duration c1 with
    | Some c2 => (true, cur_out (with_kind WHEN_EVERY) c2)
    | None => (false, cur_why "every what? — try every 2h, every day at 9am, or every monday at 3pm" c1)
    end
  else
    match every_loop 3 (mk_parts false false false) (cur_out (with_kind WHEN_WEEKLY) c1) with
    | Refuse c2 => (false, c2)
    | Leave h c2 | Again h c2 =>
        if negb (pt_time h) then (false, cur_why "at what time? (e.g. every monday at 3pm)" c2) else when_finish_zone c2
    end.

(** One turn of the loop of when_parse_clock(). *)
Definition clock_turn (w : when_word_t) (h : parts) (c : when_cur_t) : turn :=
  let found c' := Again (mk_parts true (pt_time h) (pt_zone h)) c' in
  if negb (pt_day h) && when_is w "on" then
    match when_try_dayword (cur_to (ww_end w) c) with
    | Some c' => found c'
    | None => if pt_time h then Leave h c else Refuse (cur_why "on which day?" c)
    end
  else
    match (if negb (pt_day h) then when_try_dayword c else None) with
    | Some c' => found c'
    | None => time_and_zone h c
    end.

Fixpoint clock_loop (fuel : nat) (h : parts) (c : when_cur_t) : turn :=
  match fuel with
  | O => Leave h c
  | S fuel' =>
      match when_next_word (cu_p c) with
      | None => Leave h c
      | Some w => match clock_turn w h c with Again h' c' => clock_loop fuel' h' c' | t => t end
      end
  end.

Definition when_parse_clock (c : when_cur_t) : bool * when_cur_t :=
  let c1 := cur_out (fun w => with_days WHEN_DAYS_ALL 0 1 (with_kind WHEN_CLOCK w)) c in
  match clock_loop 4 (mk_parts false false false) c1 with
  | Refuse c2 => (false, c2)
  | Leave h c2 | Again h c2 =>
      if negb (pt_time h)
      then (false, cur_why (if pt_day h then "at what time? (e.g. tomorrow at 9am)"
                            else "I can't tell when you mean — try 20m, at 3pm, tomorrow at 9am, every monday at 3pm, or back") c2)
      else when_finish_zone c2
  end.

(** ** The whole phrase *)

(** The moment and the rest of the line, or why not. *)
Definition when_parse (text : option cstr) (local_tz : option cstr) : (when_t * cstr) + option cstr :=
  let c := mk_cur (default [] text) local_tz when_zero None in
  match when_next_word (cu_p c) with
  | None => inr (Some (lit "tell me when — e.g. 20m, at 3pm, every monday at 3pm, or back"))
  | Some w =>
      let '(ok, c') :=
        if when_is w "back" then (true, cur_to (ww_end w) (cur_out (with_kind WHEN_BACK) c))
        else if when_is w "every" || when_is w "daily" then when_parse_every (cur_to (ww_end w) c) (when_is w "daily")
        else if when_is w "in" then
          match when_try_duration (cur_to (ww_end w) c) with
          | Some c' => (true, c')
          | None => (false, cur_why "in how long? (e.g. in 20m)" (cur_to (ww_end w) c))
          end
        else match when_try_duration c with
             | Some c' => (true, c')
             | None => when_parse_clock c
             end in
      if ok : bool then inl (cu_out c', skip_while blank (cu_p c')) else inr (cu_why c')
  end.

Definition when_repeat_restore (secs days minute : Z) (tz : option cstr) : option when_t :=
  if negb (days =? 0) then
    if (days <? 0) || (WHEN_DAYS_ALL <? days) || (minute <? 0) || (1440 <=? minute) then None
    else match tz with
         | Some z =>
             if negb (when_zone_valid z) || (WHEN_TZ_SZ <=? length z)%nat then None
             else Some (mk_when WHEN_WEEKLY 0 (wrap 8 days) 0 0 (wrap 16 minute) true (strlcpy WHEN_TZ_SZ z))
         | None => None
         end
  else if (secs =? 0) || (WHEN_DURATION_MAX <? secs) then None
  else Some (mk_when WHEN_EVERY secs 0 0 0 0 false []).

Definition when_zoneinfo_tail (path : cstr) : option cstr :=
  match strstr path (lit "zoneinfo/") with Some i => Some (path +> (i + length (lit "zoneinfo/"))) | None => None end.

(** The value of TZ and the target of /etc/localtime are the environment's. *)
Definition when_local_zone (env link : option cstr) (cap : nat) : option cstr :=
  let name :=
    match env with
    | Some ((c :: e') as e) =>
        let e := if ceqb c ":" then e' else e in
        if ceqb *[e] "/" then when_zoneinfo_tail e else Some e
    | _ =>
        match link with
        | Some ((_ :: _) as l) => when_zoneinfo_tail (take 255 l)
        | _ => None
        end
    end in
  match name with
  | Some z => if negb (when_zone_valid z) || (cap <=? length z)%nat then None else Some (strlcpy cap z)
  | None => None
  end.

(** ** In words *)

(** [%02u] *)
Definition two_digits (n : Z) : cstr := if n <? 10 then lit "0" ++ dec n else dec n.

Definition when_fmt_minute (minute : Z) (cap : nat) : cstr :=
  let h := (minute / 60) mod 24 in
  let h12 := if h mod 12 =? 0 then 12 else h mod 12 in
  strlcpy cap (dec h12 ++ lit ":" ++ two_digits (minute mod 60) ++ lit " " ++ (if h <? 12 then lit "AM" else lit "PM")).

Definition strlcat (cap : nat) (dst src : cstr) : cstr := dst ++ strlcpy (cap - length dst) src.

Definition day_order : list nat := [1; 2; 3; 4; 5; 6; 0]%nat.
Definition has_day (days : Z) (i : nat) : bool := Z.testbit days (Z.of_nat i).

Fixpoint describe_loop (days : Z) (total seen : nat) (cap : nat) (dst : cstr) (order : list nat) : cstr :=
  match order with
  | [] => dst
  | i :: order' =>
      if negb (has_day days i) then describe_loop days total seen cap dst order'
      else
        let dst := if (0 <? seen)%nat then strlcat cap dst (if (seen + 1 =? total)%nat then lit " and " else lit ", ") else dst in
        describe_loop days total (S seen) cap (strlcat cap dst (default [] (when_day_names !! i))) order'
  end.

Definition when_describe_days (days : Z) (cap : nat) : cstr :=
  if days =? WHEN_DAYS_ALL then strlcpy cap (lit "day")
  else if days =? 62 then strlcpy cap (lit "weekday")
  else describe_loop days (length (List.filter (has_day days) day_order)) 0 cap [] day_order.

Definition fmt_parts : list (Z * ascii) := [(86400, "d"%char); (3600, "h"%char); (60, "m"%char); (1, "s"%char)].

Fixpoint fmt_loop (used pos : nat) (secs : Z) (cap : nat) (dst : cstr) (ps : list (Z * ascii)) : cstr :=
  match ps with
  | [] => dst
  | (unit, u) :: ps' =>
      if (2 <=? used)%nat || (cap <=? pos)%nat then dst
      else
        let n := secs / unit in
        if n =? 0 then if (0 <? used)%nat then dst else fmt_loop used pos secs cap dst ps'
        else
          let part := dec n ++ [u] in
          fmt_loop (S used) (pos + length part) (secs - n * unit) cap (take pos dst ++ strlcpy (cap - pos) part) ps'
  end.

Definition when_fmt_secs (secs : Z) (cap : nat) : cstr := fmt_loop 0 0 secs cap [] fmt_parts.

Definition when_describe_repeat (w : when_t) (local_tz : option cstr) (cap : nat) : cstr :=
  match wh_kind w with
  | WHEN_EVERY => strlcpy cap (lit "every " ++ when_fmt_secs (wh_secs w) 32)
  | WHEN_WEEKLY =>
      let days := when_describe_days (wh_days w) 96 in
      let clock := when_fmt_minute (wh_minute w) 16 in
      if match local_tz with Some z => seqb (wh_tz w) z | None => false end
      then strlcpy cap (lit "every " ++ days ++ lit " at " ++ clock)
      else strlcpy cap (lit "every " ++ days ++ lit " at " ++ clock ++ lit " (" ++ wh_tz w ++ lit ")")
  | _ => []
  end.
