(* ===== verification/WhenOk.v ===== *)
(** * What a phrase means, and what is said of it

    A moment that [When] reads is one of the forms its users rely on; a duration is read
    exactly when it is one; and what is said of a repeat reads back as that repeat. The
    cases of tests/test_when.c are evaluated along the way. *)

From S2P Require Import Prelude When.

#[local] Open Scope c_scope.

(** ** The cases of tests/test_when.c *)

Definition new_york : cstr := lit "America/New_York".
Definition clock_ny (days lo hi m : Z) : when_t := mk_when WHEN_CLOCK 0 days lo hi m false new_york.
Definition weekly_ny (days m : Z) : when_t := mk_when WHEN_WEEKLY 0 days 0 0 m false new_york.
Definition secs_of (k : when_kind_t) (s : Z) : when_t := mk_when k s 0 0 0 0 false [].

Definition reads (local : option cstr) (text : string) (w : when_t) (rest : string) : Prop :=
  when_parse (Some (lit text)) local = inl (w, lit rest).
Definition refused (local : option cstr) (text : string) : Prop :=
  match when_parse (Some (lit text)) local with inr (Some (_ :: _)) => True | _ => False end.

Example delay_cases : let r := reads (Some new_york) in
  r "15m water" (secs_of WHEN_DELAY 900) "water" /\ r "1h30m call mom" (secs_of WHEN_DELAY 5400) "call mom" /\
  r "15 minutes to stretch" (secs_of WHEN_DELAY 900) "to stretch" /\ r "in 2 hours laundry" (secs_of WHEN_DELAY 7200) "laundry" /\
  r "5 things to buy" (secs_of WHEN_DELAY 5) "things to buy" /\ r "back look at the PR" (secs_of WHEN_BACK 0) "look at the PR" /\
  r "every 2h stretch" (secs_of WHEN_EVERY 7200) "stretch" /\ reads None "20m call" (secs_of WHEN_DELAY 1200) "call".
Proof. cbv zeta. split_and!; vm_compute; reflexivity. Qed.

Example clock_cases : let r := reads (Some new_york) in
  r "at 3pm call" (clock_ny 127 0 1 900) "call" /\ r "3 p.m. call" (clock_ny 127 0 1 900) "call" /\
  r "tomorrow at 9am dentist" (clock_ny 127 1 1 540) "dentist" /\ r "9am tomorrow dentist" (clock_ny 127 1 1 540) "dentist" /\
  r "friday 15:00 standup" (clock_ny 32 0 7 900) "standup" /\
  r "at 3pm on monday EST prep" (mk_when WHEN_CLOCK 0 2 0 7 900 true new_york) "prep" /\
  r "at 3pm on the call" (clock_ny 127 0 1 900) "on the call" /\
  r "at 3pm eastern time meeting" (mk_when WHEN_CLOCK 0 127 0 1 900 true new_york) "meeting" /\
  r "at 3pm America/Chicago call" (mk_when WHEN_CLOCK 0 127 0 1 900 true (lit "America/Chicago")) "call" /\
  r "at 3pm 50/50 split" (clock_ny 127 0 1 900) "50/50 split" /\ r "at 3pm pt session" (clock_ny 127 0 1 900) "pt session" /\
  r "at 15 call" (clock_ny 127 0 1 900) "call" /\ r "at 12am x" (clock_ny 127 0 1 0) "x" /\ r "at 12pm x" (clock_ny 127 0 1 720) "x" /\
  reads None "at 3pm UTC call" (mk_when WHEN_CLOCK 0 127 0 1 900 true (lit "UTC")) "call".
Proof. cbv zeta. split_and!; vm_compute; reflexivity. Qed.

Example weekly_cases : let r := reads (Some new_york) in
  r "every monday at 3:00 PM EST water the plants" (mk_when WHEN_WEEKLY 0 2 0 0 900 true new_york) "water the plants" /\
  r "every weekday at 8:30 weather 45069" (weekly_ny 62 510) "weather 45069" /\
  r "every mon,wed,fri at 9am gym" (weekly_ny 42 540) "gym" /\
  r "every monday and thursday at 7pm PT trash" (mk_when WHEN_WEEKLY 0 18 0 0 1140 true (lit "America/Los_Angeles")) "trash" /\
  r "daily at noon lunch" (weekly_ny 127 720) "lunch".
Proof. cbv zeta. split_and!; vm_compute; reflexivity. Qed.

Example refused_cases : Forall (refused (Some new_york))
  ["1mo pay rent"; "at 3 call"; "at 13pm call"; "at the store"; "every monday water"; "tomorrow water"; "every so often";
   "water the plants"; ""]%string /\ refused None "at 3pm call".
Proof. split; [|vm_compute; exact I]. repeat (apply List.Forall_cons; [vm_compute; exact I|]). apply List.Forall_nil. Qed.

Example describe_cases : let said w := when_describe_repeat w (Some new_york) 256 in
  said (weekly_ny 2 900) = lit "every Monday at 3:00 PM" /\ said (weekly_ny 18 1140) = lit "every Monday and Thursday at 7:00 PM" /\
  said (weekly_ny 42 540) = lit "every Monday, Wednesday and Friday at 9:00 AM" /\ said (weekly_ny 62 510) = lit "every weekday at 8:30 AM" /\
  said (weekly_ny 65 0) = lit "every Saturday and Sunday at 12:00 AM" /\ said (weekly_ny 127 720) = lit "every day at 12:00 PM" /\
  said (mk_when WHEN_WEEKLY 0 2 0 0 900 false (lit "America/Los_Angeles")) = lit "every Monday at 3:00 PM (America/Los_Angeles)" /\
  said (secs_of WHEN_EVERY 5400) = lit "every 1h30m" /\ said (clock_ny 127 0 1 900) = [].
Proof. cbv zeta. split_and!; vm_compute; reflexivity. Qed.

(** ** What the parts do *)

Lemma skip_suffix P s : skip_while P s `suffix_of` s.
Proof. exists (span P s). symmetry. apply span_skip. Qed.

Lemma suffix_len (s t : cstr) : s `suffix_of` t -> (length s <= length t)%nat.
Proof. intros [k ->]. rewrite length_app. lia. Qed.

Lemma word_end p w : when_next_word p = Some w -> ww_end w `suffix_of` p /\ (length (ww_end w) < length p)%nat.
Proof.
  unfold when_next_word. pose proof (skip_suffix blank p) as Hb. destruct (skip_while blank p) as [|c s] eqn:E; [done|]. intros [= <-].
  cbn [ww_end]. apply skip_while_head in E. assert (En : not_blank c = true) by (unfold not_blank; by rewrite E).
  cbn [skip_while]. rewrite En. pose proof (skip_suffix not_blank s) as Hs. split.
  - etrans; [exact Hs|]. etrans; [|exact Hb]. by exists [c].
  - apply suffix_len in Hs, Hb. cbn [length] in Hb. lia.
Qed.

Lemma word_raw p w : when_next_word p = Some w -> (length (ww_raw w) < WHEN_TZ_SZ)%nat.
Proof.
  unfold when_next_word. destruct (skip_while blank p) as [|c s]; [done|]. set (n := trim_end _). remember WHEN_TZ_SZ as sz eqn:Esz.
  intros [= <-]. cbn [ww_raw]. destruct (sz <=? length n)%nat eqn:E; [subst sz; by apply Nat.ltb_lt|by apply Nat.leb_gt in E].
Qed.

Lemma lor_days a b : 0 <= a <= 127 -> 0 <= b <= 127 -> 0 <= Z.lor a b <= 127.
Proof.
  intros Ha Hb. split; [apply Z.lor_nonneg; lia|]. destruct (decide (Z.lor a b = 0)) as [->|Hn]; [lia|].
  assert (Z.lor a b < 2 ^ 7); [|lia]. apply Z.log2_lt_pow2; [pose proof (proj2 (Z.lor_nonneg a b)); lia|]. rewrite Z.log2_lor by lia.
  apply Z.max_lub_lt; [destruct (decide (a = 0)) as [->|]|destruct (decide (b = 0)) as [->|]]; try done; apply Z.log2_lt_pow2; lia.
Qed.

Lemma lor_nonzero a b : 0 < a -> 0 <= b -> 0 < Z.lor a b.
Proof. intros Ha Hb. pose proof (proj2 (Z.lor_nonneg a b)). assert (Z.lor a b <> 0); [|lia]. intros [? ?]%Z.lor_eq_0_iff. lia. Qed.

Definition mask_ok (m : Z) : Prop := 0 < m <= WHEN_DAYS_ALL.

(** What every row of a table has. *)
Lemma row_of_forall {A} (Q : A -> bool) name (t : list (cstr * A)) x : forallb (fun r => Q r.2) t = true -> table_row name t = Some x -> Q x = true.
Proof.
  unfold table_row. intros Ht Hx. destruct (List.find _ t) as [r|] eqn:E; [|done]. injection Hx as <-. apply List.find_some in E as [Hi _].
  by apply (proj1 (forallb_forall _ _) Ht) in Hi.
Qed.

Lemma weekday_range s : -1 <= when_weekday s <= 6.
Proof.
  unfold when_weekday. destruct (table_row s when_weekdays) as [d|] eqn:E; [|cbn; lia].
  apply (row_of_forall (in_range 0 6)) in E; [|reflexivity]. apply in_range_iff in E. cbn. lia.
Qed.

Lemma day_mask d : 0 <= d <= 6 -> mask_ok (wrap 8 (Z.shiftl 1 d)).
Proof. intros Hd. assert (d = 0 \/ d = 1 \/ d = 2 \/ d = 3 \/ d = 4 \/ d = 5 \/ d = 6) as Hc by lia. unfold mask_ok. by repeat destruct Hc as [->|Hc]; [..|subst d]. Qed.

Lemma pieces_ok n : forall mask p, 0 <= mask <= 127 -> weekday_pieces n mask p = 0 \/ mask_ok (weekday_pieces n mask p).
Proof.
  induction n as [|n IH]; intros mask p Hm; [by left|]. cbn [weekday_pieces]. destruct (_ || _); [by left|].
  pose proof (weekday_range (match strchr p "," with Some i => take i p | None => p end)) as Hd.
  destruct (when_weekday _ <? 0) eqn:E; [by left|]. apply Z.ltb_ge in E. destruct (day_mask _ (conj E (proj2 Hd))) as [D1 D2].
  unfold WHEN_DAYS_ALL in D2. pose proof (lor_days mask _ Hm (conj (Z.lt_le_incl _ _ D1) D2)) as Hl.
  destruct (strchr p ","); [by apply IH|]. right. split; [|apply Hl]. rewrite Z.lor_comm. apply lor_nonzero; lia.
Qed.

Lemma weekdays_ok norm : when_weekday_list norm = 0 \/ mask_ok (when_weekday_list norm).
Proof. apply pieces_ok. lia. Qed.

Lemma more_days_ok fuel : forall mask p, mask_ok mask -> let '(m, e) := more_days fuel mask p in mask_ok m /\ e `suffix_of` p.
Proof.
  induction fuel as [|fuel IH]; intros mask p Hm; [done|]. cbn [more_days]. destruct (when_next_word p) as [nx|] eqn:En; [|done].
  destruct (ww_long nx); [done|]. apply word_end in En as [Hs _].
  assert (G : forall more e, more = 0 \/ mask_ok more -> e `suffix_of` p ->
    let '(m, e') := if more =? 0 then (mask, p) else more_days fuel (Z.lor mask more) e in mask_ok m /\ e' `suffix_of` p).
  { intros more e Hmore He. destruct (more =? 0) eqn:E; [done|]. apply Z.eqb_neq in E. destruct Hmore as [?|[H1 H2]]; [done|].
    destruct Hm as [M1 M2]. specialize (IH (Z.lor mask more) e). destruct (more_days _ _ _) as [m e']. unfold WHEN_DAYS_ALL in *.
    destruct IH as [I1 I2]; [|split; [done|by etrans]]. split; [apply lor_nonzero; lia|]. unfold WHEN_DAYS_ALL. apply lor_days; lia. }
  destruct (_ || _); [|by apply G; [apply weekdays_ok|]].
  destruct (when_next_word (ww_end nx)) as [day|] eqn:Ed; [|done]. apply word_end in Ed as [Hd _]. apply G; [apply weekdays_ok|by etrans].
Qed.

Lemma try_days_ok c : let '(m, c') := when_try_days c in
  m = 0 /\ c' = c \/ mask_ok m /\ exists p, c' = cur_to p c /\ p `suffix_of` cu_p c.
Proof.
  unfold when_try_days. destruct (when_next_word (cu_p c)) as [w|] eqn:Ew; [|by left]. destruct (ww_long w); [by left|].
  apply word_end in Ew as [Hs _]. set (mask := if _ || _ then WHEN_DAYS_ALL else _).
  assert (Hm : mask = 0 \/ mask_ok mask).
  { unfold mask. destruct (_ || _); [by right|]. destruct (_ || _); [by right|]. destruct (_ || _); [by right|]. apply weekdays_ok. }
  destruct (mask =? 0) eqn:E; [by left|]. apply Z.eqb_neq in E. destruct Hm as [?|Hm]; [done|].
  pose proof (more_days_ok (length (ww_end w)) mask (ww_end w) Hm) as Hd. destruct (more_days _ _ _) as [m p]. destruct Hd as [D1 D2].
  right. split; [done|]. exists p. split; [done|by etrans].
Qed.

Lemma try_dayword_ok c c' : when_try_dayword c = Some c' -> exists p d lo hi,
  c' = cur_to p (cur_out (with_days d lo hi) c) /\ mask_ok d /\ 0 <= lo <= hi /\ hi <= 7 /\ p `suffix_of` cu_p c.
Proof.
  unfold when_try_dayword. destruct (when_next_word (cu_p c)) as [w|] eqn:Ew; [|done]. destruct (ww_long w); [done|].
  apply word_end in Ew as [Hs _]. destruct (_ || _).
  - intros [= <-]. eexists _, _, _, _. split; [done|]. by destruct (when_is w "tomorrow").
  - destruct (0 <=? when_weekday (ww_norm w)) eqn:E; [|done]. apply Z.leb_le in E. intros [= <-].
    eexists _, _, _, _. split; [done|]. pose proof (weekday_range (ww_norm w)). split; [by apply day_mask; lia|]. split_and!; [lia..|done].
Qed.

(** *** Zones *)

Definition zone_ok (z : cstr) : Prop := when_zone_valid z = true /\ (length z < WHEN_TZ_SZ)%nat.

Lemma table_zone s z : table_row s when_zones = Some z -> zone_ok z.
Proof.
  intros Hz. apply (row_of_forall (fun z => when_zone_valid z && (length z <? WHEN_TZ_SZ)%nat)) in Hz; [|vm_compute; reflexivity].
  apply andb_true_iff in Hz as [H1 H2]. split; [done|by apply Nat.ltb_lt].
Qed.

Lemma zone_of_ok p w z : when_next_word p = Some w -> zone_of w = Some z -> zone_ok z.
Proof.
  unfold zone_of. intros Hw. apply word_raw in Hw.
  assert (G : (if match strchr (ww_raw w) "/" with Some _ => true | None => false end && when_zone_valid (ww_raw w) && starts_alpha (ww_raw w)
    then Some (ww_raw w) else None) = Some z -> zone_ok z).
  { destruct (_ && _) eqn:E; [|done]. intros [= <-]. apply andb_true_iff in E as [E _]. apply andb_true_iff in E as [_ E]. done. }
  destruct (_ && negb _); [exact G|]. destruct (table_row _ when_zones) as [x|] eqn:E; [|exact G]. intros [= <-]. by apply table_zone in E.
Qed.

Lemma try_zone_ok c c' : when_try_zone c = Some c' -> exists p z,
  c' = cur_to p (cur_out (with_tz z true) c) /\ zone_ok z /\ p `suffix_of` cu_p c.
Proof.
  unfold when_try_zone. destruct (when_next_word (cu_p c)) as [w|] eqn:Ew; [|done]. destruct (ww_long w); [done|].
  destruct (zone_of w) as [z|] eqn:Ez; [|done]. pose proof (zone_of_ok _ _ _ Ew Ez) as Hz. apply word_end in Ew as [Hs _].
  rewrite (strlcpy_fits _ z) by apply Hz. destruct (when_next_word (ww_end w)) as [nx|] eqn:En.
  - apply word_end in En as [Hn _]. intros [= <-]. destruct (when_is nx "time"); eexists _, z; (split; [done|]); by split; [|etrans].
  - intros [= <-]. by eexists _, z.
Qed.

(** *** Times of day *)

Definition told (c : when_cur_t) : Prop := exists s, cu_why c = Some s /\ s <> [].

Lemma told_why s c : lit s <> [] -> told (cur_why s c).
Proof. intros Hs. by exists (lit s). Qed.

Lemma digit_range c : isdigit c = true -> 0 <= digit_val c <= 9.
Proof. unfold isdigit, digit_val. intros H%in_range_iff. lia. Qed.

Lemma clock_digits_ok s : forall nd h nd' h' s', (nd <= 3)%nat -> 0 <= h < 10 ^ Z.of_nat nd -> clock_digits nd h s = (nd', h', s') ->
  0 <= h' < 10 ^ Z.of_nat nd'.
Proof.
  induction s as [|c s IH]; intros nd h nd' h' s' Hn Hh; cbn [clock_digits]; [by intros [= <- <- <-]|].
  destruct (isdigit c && (nd <? 3)%nat) eqn:E; [|by intros [= <- <- <-]]. apply andb_true_iff in E as [E1 E2]. apply Nat.ltb_lt in E2.
  apply digit_range in E1. apply IH; [lia|]. rewrite Nat2Z.inj_succ, Z.pow_succ_r by lia. lia.
Qed.

Lemma clock_minutes_ok s m colon s' : clock_minutes s = Some (m, colon, s') -> 0 <= m.
Proof.
  unfold clock_minutes. destruct (ceqb _ _); [|by intros [= <- <- <-]]. destruct (_ && _) eqn:E; [|done].
  apply andb_true_iff in E as [E1 E2]. apply digit_range in E1, E2. intros [= <- <- <-]. lia.
Qed.

Lemma ampm_values s : when_ampm s = 0 \/ when_ampm s = 12 \/ when_ampm s = -1.
Proof. unfold when_ampm. destruct (_ || _); [by left|]. destruct (_ || _); auto. Qed.

Lemma clock_ampm_ok w s ampm e : clock_ampm w s = Some (ampm, e) ->
  (ampm = 0 \/ ampm = 12 \/ ampm = -1) /\ e `suffix_of` ww_end w.
Proof.
  unfold clock_ampm. destruct s as [|c s].
  - destruct (when_next_word (ww_end w)) as [nx|] eqn:En; intros [= <- <-]; [|by auto]. apply word_end in En as [Hs _].
    split; [apply ampm_values|]. by destruct (0 <=? when_ampm (ww_norm nx)).
  - destruct (when_ampm (c :: s) <? 0); [done|]. intros [= <- <-]. split; [apply ampm_values|done].
Qed.

Lemma clock_hour_ok h m ampm colon : 0 <= h -> 0 <= m -> ampm = 0 \/ ampm = 12 \/ ampm = -1 ->
  match clock_hour h m ampm colon with inl h' => 0 <= h' <= 23 /\ m <= 59 | inr s => lit s <> [] end.
Proof.
  intros Hh Hm Ha. unfold clock_hour. destruct (59 <? m) eqn:E; [done|]. apply Z.ltb_ge in E.
  destruct (0 <=? ampm) eqn:E1.
  - apply Z.leb_le in E1. destruct (_ || _); [done|]. pose proof (Z.mod_pos_bound h 12 ltac:(lia)). lia.
  - destruct (_ && _); [done|]. destruct (23 <? h) eqn:E2; [done|]. apply Z.ltb_ge in E2. lia.
Qed.

(** Found, it is a minute of the day and the cursor is past it; otherwise nothing moved,
    or there is something to say. *)
Definition time_found (c : when_cur_t) (r : when_part_t * when_cur_t) : Prop :=
  match r with
  | (WHEN_PART_FOUND, c') => exists p m, c' = cur_to p (cur_out (with_minute m) c) /\ 0 <= m < 1440 /\ p `suffix_of` cu_p c
  | (WHEN_PART_NONE, c') => c' = c
  | (WHEN_PART_ERROR, c') => told c'
  end.

Lemma try_time_ok c after_at : time_found c (when_try_time c after_at).
Proof.
  unfold when_try_time. destruct (when_next_word (cu_p c)) as [w|] eqn:Ew; [|done]. destruct (ww_long w); [done|].
  apply word_end in Ew as [Hs _]. destruct (_ || _).
  { eexists _, _. split; [done|]. split; [by destruct (when_is w "noon")|done]. }
  destruct (clock_digits 0 0 (ww_norm w)) as [[nd h] s] eqn:Ed. apply clock_digits_ok in Ed; [|lia|cbn; lia].
  destruct (_ || _); [done|]. destruct (clock_minutes s) as [[[m colon] s']|] eqn:Em; [|done]. apply clock_minutes_ok in Em.
  destruct (clock_ampm w s') as [[ampm e]|] eqn:Ea; [|done]. apply clock_ampm_ok in Ea as [Ha He].
  destruct (_ && negb after_at); [done|]. pose proof (clock_hour_ok h m ampm colon (proj1 Ed) Em Ha) as Hh.
  destruct (clock_hour h m ampm colon) as [h'|why]; [|by apply told_why].
  eexists _, _. split; [done|]. rewrite wrap_small by lia. split; [lia|by etrans].
Qed.

Lemma cur_to_to p q c : cur_to p (cur_to q c) = cur_to p c.
Proof. done. Qed.

Lemma try_at_time_ok c : time_found c (when_try_at_time c).
Proof.
  unfold when_try_at_time. destruct (when_next_word (cu_p c)) as [w|] eqn:Ew; [|apply try_time_ok].
  destruct (when_is w "at"); [|apply try_time_ok]. pose proof (try_time_ok (cur_to (ww_end w) c) true) as Ht.
  apply word_end in Ew as [Hs _]. destruct (when_try_time _ true) as [[| |] c']; cbn [time_found] in *; [|by apply told_why|done].
  destruct Ht as (p & m & -> & Hm & Hp). exists p, m. split; [done|]. split; [done|by etrans].
Qed.

(** *** Durations *)

Definition span_ok (s : Z) : Prop := 0 < s <= WHEN_DURATION_MAX.

Lemma unit_values s : when_unit s = 0 \/ 1 <= when_unit s <= 604800.
Proof.
  unfold when_unit. destruct (table_row s when_units) as [u|] eqn:E; [|by left].
  apply (row_of_forall (in_range 1 604800)) in E; [|reflexivity]. apply in_range_iff in E. by right.
Qed.

Lemma read_number_ok p : forall n n' q, 0 <= n <= WHEN_DURATION_MAX -> read_number n p = Some (n', q) -> 0 <= n' <= WHEN_DURATION_MAX.
Proof.
  induction p as [|c p IH]; intros n n' q Hn; cbn [read_number]; [by intros [= <- <-]|].
  destruct (isdigit c) eqn:Ec; [|by intros [= <- <-]]. destruct (WHEN_DURATION_MAX <? _) eqn:E; [done|]. apply Z.ltb_ge in E.
  apply IH. split; [apply wrap_range; lia|done].
Qed.

Lemma pairs_range fuel : forall total p, 0 <= total <= WHEN_DURATION_MAX -> 0 <= duration_pairs fuel total p <= WHEN_DURATION_MAX.
Proof.
  induction fuel as [|fuel IH]; intros total p Ht; [done|]. cbn [duration_pairs]. destruct p as [|c p]; [done|].
  destruct (negb _); [done|]. destruct (read_number 0 (c :: p)) as [[n p1]|]; [|done]. destruct (read_unit [] p1) as [[unit p2]|]; [|done].
  destruct (when_unit unit =? 0); [done|]. destruct (WHEN_DURATION_MAX <? _) eqn:E; [done|]. apply Z.ltb_ge in E. apply IH.
  split; [apply wrap_range; lia|done].
Qed.

Lemma duration_range tok : 0 <= when_parse_duration tok <= WHEN_DURATION_MAX.
Proof.
  unfold when_parse_duration. destruct tok as [|c tok]; [done|]. destruct (when_all_digits _); [|by apply pairs_range].
  destruct (read_number 0 (c :: tok)) as [[n q]|] eqn:E; [|done]. by apply read_number_ok in E.
Qed.

Lemma try_duration_ok c c' : when_try_duration c = Some c' -> exists p s,
  c' = cur_to p (cur_out (with_secs s) c) /\ span_ok s /\ p `suffix_of` cu_p c.
Proof.
  unfold when_try_duration. destruct (when_next_word (cu_p c)) as [w|] eqn:Ew; [|done]. destruct (ww_long w); [done|].
  apply word_end in Ew as [Hs _]. set (nx := when_next_word (ww_end w)). destruct (_ && (0 <=? _)); [done|].
  set (unit := _ && negb _). set (norm := match nx with Some x => ww_norm x | None => [] end).
  set (secs := when_parse_duration (ww_norm w)). destruct (_ || _) eqn:E; [done|]. intros [= <-]. eexists _, _. split; [done|].
  apply orb_false_iff in E as [E1 E2]. apply Z.eqb_neq in E1. apply Z.ltb_ge in E2. split.
  - pose proof (duration_range (ww_norm w)) as Hd. fold secs in Hd. split; [|exact E2].
    destruct unit; [|lia]. pose proof (wrap_range 64 (secs * when_unit norm) ltac:(lia)). lia.
  - destruct unit; [|done]. destruct nx as [x|] eqn:En; [|done]. apply word_end in En as [Hn _]. by etrans.
Qed.

(** ** The moments *)

(** What the users of the grammar rely on: the forms a moment has. *)
Inductive moment (local : option cstr) : when_t -> Prop :=
| M_delay s : span_ok s -> moment local (mk_when WHEN_DELAY s 0 0 0 0 false [])
| M_back : moment local (mk_when WHEN_BACK 0 0 0 0 0 false [])
| M_every s : span_ok s -> moment local (mk_when WHEN_EVERY s 0 0 0 0 false [])
| M_clock d lo hi m named z : mask_ok d -> 0 <= lo <= hi -> hi <= 7 -> 0 <= m < 1440 -> zone_ok z -> (named = false -> local = Some z) ->
    moment local (mk_when WHEN_CLOCK 0 d lo hi m named z)
| M_weekly d m named z : mask_ok d -> 0 <= m < 1440 -> zone_ok z -> (named = false -> local = Some z) ->
    moment local (mk_when WHEN_WEEKLY 0 d 0 0 m named z).

(** A clock form while it is read. *)
Record going (k : when_kind_t) (text : cstr) (local : option cstr) (h : parts) (c : when_cur_t) : Prop := {
  go_p : cu_p c `suffix_of` text;
  go_local : cu_local c = local;
  go_kind : wh_kind (cu_out c) = k;
  go_secs : wh_secs (cu_out c) = 0;
  go_days : mask_ok (wh_days (cu_out c));
  go_range : 0 <= wh_lo (cu_out c) <= wh_hi (cu_out c) /\ wh_hi (cu_out c) <= 7;
  go_weekly : k = WHEN_WEEKLY -> wh_lo (cu_out c) = 0 /\ wh_hi (cu_out c) = 0;
  go_minute : 0 <= wh_minute (cu_out c) < 1440;
  go_zone : wh_tz_named (cu_out c) = true -> zone_ok (wh_tz (cu_out c))
}.

Definition turn_ok k text local (t : turn) : Prop :=
  match t with Again h c | Leave h c => going k text local h c | Refuse c => told c end.

Lemma going_any k text local h h' c : going k text local h c -> going k text local h' c.
Proof. by intros []. Qed.

Lemma going_minute k text local h h' c p m : going k text local h c -> p `suffix_of` cu_p c -> 0 <= m < 1440 ->
  going k text local h' (cur_to p (cur_out (with_minute m) c)).
Proof. intros [] Hp Hm. split; try done. by etrans. Qed.

Lemma going_tz k text local h h' c p z : going k text local h c -> p `suffix_of` cu_p c -> zone_ok z ->
  going k text local h' (cur_to p (cur_out (with_tz z true) c)).
Proof. intros [] Hp Hm. split; try done. by etrans. Qed.

Lemma time_and_zone_ok k text local h c : going k text local h c -> turn_ok k text local (time_and_zone h c).
Proof.
  intros Hg. unfold time_and_zone.
  assert (Hz : turn_ok k text local (if pt_time h && negb (pt_zone h) then
      match when_try_zone c with Some c' => Again (mk_parts (pt_day h) (pt_time h) true) c' | None => Leave h c end else Leave h c)).
  { destruct (_ && _); [|done]. destruct (when_try_zone c) as [c'|] eqn:E; [|done]. apply try_zone_ok in E as (p & z & -> & Hz & Hp).
    by apply (going_tz _ _ _ h). }
  destruct (negb (pt_time h)); [|done]. pose proof (try_at_time_ok c) as Ht. destruct (when_try_at_time c) as [[| |] c']; cbn [time_found] in Ht.
  - destruct Ht as (p & m & -> & Hm & Hp). by apply (going_minute _ _ _ h).
  - by subst c'.
  - done.
Qed.

Lemma every_loop_ok fuel : forall h c text local, going WHEN_WEEKLY text local h c -> turn_ok WHEN_WEEKLY text local (every_loop fuel h c).
Proof.
  induction fuel as [|fuel IH]; intros h c text local Hg; [done|]. cbn [every_loop]. destruct (when_next_word (cu_p c)); [|done].
  pose proof (time_and_zone_ok _ _ _ _ _ Hg) as Ht. destruct (time_and_zone h c); [by apply IH|done..].
Qed.

Lemma going_day text local h h' c p d lo hi : going WHEN_CLOCK text local h c -> p `suffix_of` cu_p c -> mask_ok d -> 0 <= lo <= hi -> hi <= 7 ->
  going WHEN_CLOCK text local h' (cur_to p (cur_out (with_days d lo hi) c)).
Proof. intros [] Hp Hd Hl Hh. split; try done. by etrans. Qed.

Lemma clock_turn_ok w h c text local : when_next_word (cu_p c) = Some w -> going WHEN_CLOCK text local h c -> turn_ok WHEN_CLOCK text local (clock_turn w h c).
Proof.
  intros Hw Hg. apply word_end in Hw as [Hs _]. unfold clock_turn. destruct (negb (pt_day h) && when_is w "on").
  - destruct (when_try_dayword _) as [c'|] eqn:E; [|by destruct (pt_time h); [|apply told_why]].
    apply try_dayword_ok in E as (p & d & lo & hi & -> & Hd & Hl & Hh & Hp). apply (going_day _ _ h _ c); [done| |done..]. by etrans.
  - destruct (negb (pt_day h)); [|by apply time_and_zone_ok]. destruct (when_try_dayword c) as [c'|] eqn:E; [|by apply time_and_zone_ok].
    apply try_dayword_ok in E as (p & d & lo & hi & -> & Hd & Hl & Hh & Hp). by apply (going_day _ _ h _ c).
Qed.

Lemma clock_loop_ok fuel : forall h c text local, going WHEN_CLOCK text local h c -> turn_ok WHEN_CLOCK text local (clock_loop fuel h c).
Proof.
  induction fuel as [|fuel IH]; intros h c text local Hg; [done|]. cbn [clock_loop]. destruct (when_next_word (cu_p c)) as [w|] eqn:Ew; [|done].
  pose proof (clock_turn_ok _ _ _ _ _ Ew Hg) as Ht. destruct (clock_turn w h c); [by apply IH|done..].
Qed.

(** What a part of the grammar leaves. *)
Definition read_ok (text : cstr) (local : option cstr) (r : bool * when_cur_t) : Prop :=
  let '(ok, c) := r in if ok : bool then moment local (cu_out c) /\ cu_p c `suffix_of` text else told c.

Lemma finish_ok k text local h c : k = WHEN_WEEKLY \/ k = WHEN_CLOCK -> going k text local h c -> read_ok text local (when_finish_zone c).
Proof.
  intros Hk [G1 G2 G3 G4 G5 G6 G7 G8 G9]. unfold when_finish_zone. destruct c as [p l [kd s d lo hi m named z] y].
  cbn [cu_p cu_local cu_out wh_kind wh_secs wh_days wh_lo wh_hi wh_minute wh_tz_named wh_tz] in *. subst.
  assert (Gm : forall z, zone_ok z -> (named = false -> local = Some z) -> moment local (mk_when k 0 d lo hi m named z)).
  { intros x Hx Hl. destruct Hk as [->| ->]; [destruct (G7 eq_refl) as [-> ->]; by constructor|destruct G6; by constructor]. }
  destruct named; [by split; [apply Gm; auto|]|]. destruct local as [x|]; [|by apply told_why].
  destruct (when_zone_valid x) eqn:Ev; [|by apply told_why]. cbn [negb]. destruct (WHEN_TZ_SZ <=? length x)%nat eqn:El; [by apply told_why|].
  apply Nat.leb_gt in El. split; [|done]. cbn [cur_out with_tz cu_out wh_kind wh_secs wh_days wh_lo wh_hi wh_minute].
  rewrite strlcpy_fits by done. by apply Gm.
Qed.

Lemma every_ok text local p : p `suffix_of` text -> forall daily, read_ok text local (when_parse_every (mk_cur p local when_zero None) daily).
Proof.
  intros Hp daily. unfold when_parse_every.
  assert (Hd : let '(d, c) := if daily then (WHEN_DAYS_ALL, mk_cur p local when_zero None) else when_try_days (mk_cur p local when_zero None) in
    d = 0 /\ c = mk_cur p local when_zero None \/ mask_ok d /\ exists q, c = mk_cur q local when_zero None /\ q `suffix_of` p).
  { destruct daily; [right; split; [done|by exists p]|]. pose proof (try_days_ok (mk_cur p local when_zero None)) as Ht.
    destruct (when_try_days _) as [d c]. destruct Ht as [[-> ->]|(Hd & q & -> & Hq)]; [by left|right; split; [done|by exists q]]. }
  destruct (if daily then _ else _) as [d c]. destruct Hd as [[-> ->]|(Hd & q & -> & Hq)].
  - cbn [Z.eqb]. destruct (when_try_duration _) as [c|] eqn:E; [|by apply told_why].
    apply try_duration_ok in E as (q & s & -> & Hs & Hq). split; [by apply M_every|]. cbn. by etrans.
  - destruct (d =? 0) eqn:E; [apply Z.eqb_eq in E; unfold mask_ok in Hd; lia|].
    assert (Hg : going WHEN_WEEKLY text local (mk_parts false false false)
      (cur_out (with_kind WHEN_WEEKLY) (cur_out (fun w => with_days d (wh_lo w) (wh_hi w) w) (mk_cur q local when_zero None)))).
    { split; cbn; try done. by etrans. }
    pose proof (every_loop_ok 3 _ _ _ _ Hg) as Hl. destruct (every_loop 3 _ _) as [h c|h c|c]; [| |done];
      (destruct (negb (pt_time h)); [by apply told_why|]; apply (finish_ok WHEN_WEEKLY _ _ h); [by left|done]).
Qed.

Lemma clock_ok text local p : p `suffix_of` text -> read_ok text local (when_parse_clock (mk_cur p local when_zero None)).
Proof.
  intros Hp. unfold when_parse_clock.
  assert (Hg : going WHEN_CLOCK text local (mk_parts false false false)
    (cur_out (fun w => with_days WHEN_DAYS_ALL 0 1 (with_kind WHEN_CLOCK w)) (mk_cur p local when_zero None))) by (split; cbn; done).
  pose proof (clock_loop_ok 4 _ _ _ _ Hg) as Hl. destruct (clock_loop 4 _ _) as [h c|h c|c]; [| |done];
    (destruct (negb (pt_time h)); [destruct (pt_day h); by apply told_why|]; apply (finish_ok WHEN_CLOCK _ _ h); [by right|done]).
Qed.

(** The whole phrase. *)
Lemma when_parse_read text local :
  match when_parse text local with
  | inl (w, rest) => moment local w /\ rest `suffix_of` default [] text /\ (forall c s, rest = c :: s -> blank c = false)
  | inr why => exists s, why = Some s /\ s <> []
  end.
Proof.
  unfold when_parse. cbn [cu_p]. set (t := default [] text). destruct (when_next_word t) as [w|] eqn:Ew; [|by eexists].
  apply word_end in Ew as [Hs _].
  set (r := if when_is w "back" then _ else _). assert (Hr : read_ok t local r).
  { unfold r. destruct (when_is w "back"); [by split; [apply M_back|]|].
    destruct (_ || _); [by apply every_ok|].
    destruct (when_is w "in").
    - destruct (when_try_duration _) as [c|] eqn:E; [|by apply told_why]. apply try_duration_ok in E as (q & s & -> & Hq & Hp).
      split; [by apply M_delay|]. cbn in *. by etrans.
    - destruct (when_try_duration _) as [c|] eqn:E; [|by apply clock_ok]. apply try_duration_ok in E as (q & s & -> & Hq & Hp). split; [by apply M_delay|done]. }
  destruct r as [[|] c]; [|exact Hr]. destruct Hr as [H1 H2]. split; [done|]. split.
  - etrans; [apply skip_suffix|done].
  - intros x s E. by apply skip_while_head in E.
Qed.

Lemma when_parse_forms text local : match when_parse text local with inl (w, _) => moment local w | inr _ => True end.
Proof. pose proof (when_parse_read text local) as H. destruct (when_parse text local) as [[w rest]|]; [apply H|done]. Qed.

(** C15: Whatever is typed, a moment that is read has one of the forms its users rely on:
    a span above zero and at most ten years, a set of days that is not empty, a minute of
    the day, and a zone that is named or the daemon's own and is made of letters, digits
    and four more characters, so that it can be quoted; the rest is a suffix of the line
    without blanks before it; and a refusal has words. *)
Theorem when_parse_sound (text local : option cstr) :
  match when_parse text local with
  | inl (w, rest) => moment local w /\ rest `suffix_of` default [] text /\ (forall c s, rest = c :: s -> blank c = false)
  | inr why => exists s, why = Some s /\ s <> []
  end.
Proof. apply when_parse_read. Qed.

(** ** Which words are durations *)

Definition nondigit (c : ascii) : bool := negb (isdigit c).

(** Numbers and units in turn, and the seconds they come to. *)
Inductive duration : cstr -> Z -> Prop :=
| D_end : duration [] 0
| D_pair ds unit rest m v : ds <> [] -> Forall (fun c => isdigit c = true) ds -> Forall (fun c => nondigit c = true) unit ->
    table_row (map tolower unit) when_units = Some m -> duration rest v -> duration (ds ++ unit ++ rest) (digits_val ds * m + v).

(** A number of seconds, or numbers and units. *)
Definition spans (tok : cstr) (v : Z) : Prop :=
  when_all_digits tok = true /\ v = digits_val tok \/ tok <> [] /\ duration tok v.

Definition number_from (n : Z) (ds : cstr) : Z := fold_left (fun a c => 10 * a + digit_val c) ds n.

Lemma number_grows ds : forall n, 0 <= n -> Forall (fun c => isdigit c = true) ds -> n <= number_from n ds.
Proof.
  induction ds as [|c ds IH]; intros n Hn Hd; [done|]. pose proof (Forall_inv Hd) as Hc. apply Forall_inv_tail in Hd. apply digit_range in Hc.
  unfold number_from in *. cbn [fold_left]. specialize (IH (10 * n + digit_val c) ltac:(lia) Hd). lia.
Qed.

Lemma read_number_spec ds q : Forall (fun c => isdigit c = true) ds -> (match q with [] => True | c :: _ => isdigit c = false end) ->
  forall n, 0 <= n <= WHEN_DURATION_MAX ->
  read_number n (ds ++ q) = if WHEN_DURATION_MAX <? number_from n ds then None else Some (number_from n ds, q).
Proof.
  intros Hd Hq. induction Hd as [|c ds Hc Hd IH]; intros n Hn.
  - cbn [app number_from fold_left]. rewrite (proj2 (Z.ltb_ge _ _)) by lia. destruct q as [|c q]; [done|]. cbn [read_number]. by rewrite Hq.
  - cbn [app read_number]. rewrite Hc. pose proof (digit_range _ Hc). unfold WHEN_DURATION_MAX in *. rewrite wrap_small by lia.
    replace (n * 10 + digit_val c) with (10 * n + digit_val c) by lia. unfold number_from in *. cbn [fold_left].
    pose proof (number_grows ds (10 * n + digit_val c) ltac:(lia) Hd) as Hg. unfold number_from in Hg.
    destruct (_ <? 10 * n + digit_val c) eqn:E.
    + apply Z.ltb_lt in E. by rewrite (proj2 (Z.ltb_lt _ _)) by lia.
    + apply Z.ltb_ge in E. by rewrite IH by lia.
Qed.

Lemma read_unit_spec us q : Forall (fun c => nondigit c = true) us -> (match q with [] => True | c :: _ => isdigit c = true end) ->
  forall u, (length u < 16)%nat ->
  read_unit u (us ++ q) = if (16 <=? length u + length us)%nat then None else Some (u ++ map tolower us, q).
Proof.
  intros Hd Hq. induction Hd as [|c us Hc Hd IH]; intros u Hu.
  - cbn [app length map]. rewrite Nat.add_0_r, (proj2 (Nat.leb_gt _ _)), app_nil_r by done. destruct q as [|c q]; [done|]. cbn [read_unit]. by rewrite Hq.
  - cbn [app read_unit length map]. unfold nondigit in Hc. apply negb_true_iff in Hc. rewrite Hc.
    destruct (16 <=? length u + 1)%nat eqn:E; [apply Nat.leb_le in E; by rewrite (proj2 (Nat.leb_le _ _)) by lia|]. apply Nat.leb_gt in E.
    rewrite IH by (rewrite length_app; cbn [length]; lia). rewrite length_app, <- app_assoc. cbn [length app].
    by replace (length u + 1 + length us)%nat with (length u + S (length us))%nat by lia.
Qed.

(** The split of a text that the loop makes. *)
Lemma pair_split p : exists ds us rest, p = ds ++ us ++ rest /\ ds = span isdigit p /\
  Forall (fun c => isdigit c = true) ds /\ Forall (fun c => nondigit c = true) us /\
  (match rest with [] => True | c :: _ => isdigit c = true end) /\
  (match us ++ rest with [] => True | c :: _ => isdigit c = false end).
Proof.
  exists (span isdigit p), (span nondigit (skip_while isdigit p)), (skip_while nondigit (skip_while isdigit p)).
  rewrite !span_skip. assert (Hr : match skip_while isdigit p with [] => True | c :: _ => isdigit c = false end).
  { destruct (skip_while isdigit p) as [|c s] eqn:E; [done|]. by apply skip_while_head in E. }
  split_and!; [done|done| | | |done].
  - apply List.Forall_forall. intros c Hc. apply (span_all isdigit p). by apply list_elem_of_In.
  - apply List.Forall_forall. intros c Hc. apply (span_all nondigit (skip_while isdigit p)). by apply list_elem_of_In.
  - destruct (skip_while nondigit _) as [|c s] eqn:E; [done|]. apply skip_while_head in E. unfold nondigit in E. by apply negb_false_iff in E.
Qed.

Lemma duration_head p v : duration p v -> match p with [] => True | c :: _ => isdigit c = true end.
Proof. intros Hd. destruct Hd as [|[|c ds] unit rest m v Hn Hd _ _ _]; [done|done|]. by apply Forall_inv in Hd. Qed.

Lemma unit_short s m : table_row s when_units = Some m -> (length s < 16)%nat.
Proof.
  unfold table_row. destruct (List.find _ when_units) as [r|] eqn:E; [|done]. intros _. apply List.find_some in E as [Hi Hs]. apply seqb_true in Hs. subst s.
  assert (Ht : forallb (fun r : cstr * Z => (length r.1 <? 16)%nat) when_units = true) by (vm_compute; reflexivity).
  apply (proj1 (forallb_forall _ _) Ht) in Hi. by apply Nat.ltb_lt.
Qed.

Lemma unit_table s m : table_row s when_units = Some m <-> when_unit s = m /\ m <> 0.
Proof.
  unfold when_unit. destruct (table_row s when_units) as [u|] eqn:E; unfold default, from_option, id; [|by split; [|intros [<- ?]]].
  apply (row_of_forall (in_range 1 604800)) in E; [|reflexivity]. apply in_range_iff in E. split; [by intros [= <-]; split; [|lia]|by intros [-> _]].
Qed.

(** One turn on a pair. *)
Lemma pairs_turn fuel total ds us rest m : 0 <= total <= WHEN_DURATION_MAX -> ds <> [] ->
  Forall (fun c => isdigit c = true) ds -> Forall (fun c => nondigit c = true) us ->
  (match rest with [] => True | c :: _ => isdigit c = true end) -> table_row (map tolower us) when_units = Some m ->
  duration_pairs (S fuel) total (ds ++ us ++ rest) =
  if WHEN_DURATION_MAX <? total + digits_val ds * m then 0 else duration_pairs fuel (total + digits_val ds * m) rest.
Proof.
  intros Ht Hn Hd Hu Hr Hm. pose proof (unit_short _ _ Hm) as Hl. rewrite length_map in Hl. apply unit_table in Hm as [Em Hm].
  pose proof (unit_values (map tolower us)) as Hv. rewrite Em in Hv. pose proof (number_grows ds 0 ltac:(lia) Hd) as Hg.
  destruct ds as [|c ds]; [done|]. cbn [app duration_pairs]. rewrite (Forall_inv Hd). cbn [negb].
  change (c :: ds ++ us ++ rest) with ((c :: ds) ++ us ++ rest). rewrite read_number_spec; [|done| |done].
  2:{ destruct us as [|x us]; [by vm_compute in Em; subst m|]. apply Forall_inv in Hu. by apply negb_true_iff in Hu. }
  change (number_from 0 (c :: ds)) with (digits_val (c :: ds)) in *. set (n := digits_val (c :: ds)) in *. unfold WHEN_DURATION_MAX in *.
  destruct (_ <? n) eqn:En; [apply Z.ltb_lt in En; by rewrite (proj2 (Z.ltb_lt _ _)) by nia|]. apply Z.ltb_ge in En.
  rewrite (read_unit_spec us rest Hu Hr []) by (cbn; lia). cbn [length Nat.add app]. rewrite (proj2 (Nat.leb_gt _ _)) by done.
  rewrite Em, (proj2 (Z.eqb_neq _ _)) by done. rewrite (wrap_small 64 (n * m)) by nia. by rewrite wrap_small by nia.
Qed.

Lemma duration_nonneg p v : duration p v -> 0 <= v.
Proof.
  induction 1 as [|ds us rest m v Hn Hd _ Hm _ IH]; [done|]. pose proof (number_grows ds 0 ltac:(lia) Hd).
  change (number_from 0 ds) with (digits_val ds) in *. apply unit_table in Hm as [Em Hm]. pose proof (unit_values (map tolower us)). nia.
Qed.

Lemma pairs_complete p v : duration p v -> forall fuel total, (length p < fuel)%nat -> 0 <= total -> total + v <= WHEN_DURATION_MAX ->
  duration_pairs fuel total p = total + v.
Proof.
  induction 1 as [|ds us rest m v Hn Hd Hu Hm Hr IH]; intros [|fuel] total Hf Ht Hs; [by apply Nat.nlt_0_r in Hf|cbn; lia|lia|].
  pose proof (duration_nonneg _ _ Hr) as Hv. pose proof (number_grows ds 0 ltac:(lia) Hd) as Hg. change (number_from 0 ds) with (digits_val ds) in Hg.
  pose proof (unit_values (map tolower us)) as Hw. pose proof (proj1 (unit_table _ _) Hm) as [Em Hm0]. rewrite Em in Hw.
  assert (Hp : 0 <= digits_val ds * m) by nia.
  rewrite (pairs_turn fuel total ds us rest m); [|lia|done..|by apply duration_head in Hr|done]. rewrite (proj2 (Z.ltb_ge _ _)) by lia.
  rewrite IH; [lia| |lia|lia]. rewrite !length_app in Hf. destruct ds as [|c ds]; [done|]. cbn [length] in Hf. lia.
Qed.

Lemma pairs_sound fuel : forall total p, 0 <= total <= WHEN_DURATION_MAX -> duration_pairs fuel total p <> 0 ->
  exists v, duration p v /\ duration_pairs fuel total p = total + v.
Proof.
  induction fuel as [|fuel IH]; intros total p Ht Hp; [done|]. destruct (pair_split p) as (ds & us & rest & Ep & Es & Hd & Hu & Hr & Hq).
  destruct p as [|c p]; [exists 0; split; [constructor|cbn; lia]|].
  assert (Hn : ds <> []). { cbn [duration_pairs] in Hp. cbn [span] in Es. destruct (isdigit c); [by subst ds|done]. }
  destruct (table_row (map tolower us) when_units) as [m|] eqn:Em.
  - rewrite Ep in Hp |- *. rewrite (pairs_turn fuel total ds us rest m) in Hp |- * by done. destruct (WHEN_DURATION_MAX <? _) eqn:E; [done|].
    apply Z.ltb_ge in E. destruct (IH (total + digits_val ds * m) rest) as (v & Hv & ->); [|done|].
    + pose proof (number_grows ds 0 ltac:(lia) Hd) as Hg. change (number_from 0 ds) with (digits_val ds) in Hg.
      pose proof (unit_values (map tolower us)) as Hw. apply unit_table in Em as [Em _]. rewrite Em in Hw. nia.
    + exists (digits_val ds * m + v). split; [by apply D_pair|lia].
  - destruct Hp. cbn [duration_pairs]. destruct (negb (isdigit c)); [done|]. rewrite Ep, read_number_spec by done.
    destruct (_ <? number_from 0 ds); [done|]. rewrite (read_unit_spec us rest Hu Hr []) by (cbn; lia).
    destruct (_ <=? _)%nat; [done|]. cbn [app]. unfold when_unit. by rewrite Em.
Qed.

(** Digits alone are no pairs. *)
Lemma digits_no_pair t v : t <> [] -> Forall (fun c => isdigit c = true) t -> ~ duration t v.
Proof.
  intros Hn Hd Hv. destruct Hv as [|ds us rest m v _ _ Hu Hm _]; [done|]. apply Forall_app in Hd as [_ Hd]. apply Forall_app in Hd as [Hd _].
  destruct us as [|c us]; [by vm_compute in Hm|]. apply Forall_inv in Hd, Hu. unfold nondigit in Hu. by rewrite Hd in Hu.
Qed.

(** C17: A word is read as a number of seconds above zero exactly when it is a plain number
    of them, or numbers and known units in turn that come to them, and they are no more
    than ten years; every other word is none, and no sum wraps on the way. *)
Theorem when_parse_duration_exact (tok : cstr) (v : Z) (Hv : 0 < v) :
  when_parse_duration tok = v <-> spans tok v /\ v <= WHEN_DURATION_MAX.
Proof.
  unfold when_parse_duration, spans. destruct tok as [|c tok].
  { split; [lia|]. intros [[[? _]|[? _]] _]; done. }
  set (t := c :: tok). destruct (when_all_digits t) eqn:Ed.
  - assert (Hd : Forall (fun c => isdigit c = true) t) by (by apply List.Forall_forall; intros x Hx; apply (proj1 (forallb_forall _ _) Ed)).
    pose proof (read_number_spec t [] Hd I 0 ltac:(done)) as Hr. rewrite app_nil_r in Hr. rewrite Hr. change (number_from 0 t) with (digits_val t).
    destruct (WHEN_DURATION_MAX <? digits_val t) eqn:E; [apply Z.ltb_lt in E|apply Z.ltb_ge in E].
    + split; [lia|]. intros [[[_ ->]|[_ Hx]] Hm]; [lia|]. exfalso. by apply (digits_no_pair t v).
    + split; [intros <-; split; [by left|done]|]. intros [[[_ ->]|[_ Hx]] Hm]; [done|]. exfalso. by apply (digits_no_pair t v).
  - split.
    + intros Hp. destruct (pairs_sound (S (length t)) 0 t) as (v' & Hd & E); [done|by rewrite Hp; lia|]. rewrite Hp in E. replace v' with v in Hd by lia.
      split; [right; by split|]. pose proof (pairs_range (S (length t)) 0 t ltac:(done)). lia.
    + intros [[[? _]|[_ Hd]] Hm]; [done|]. rewrite (pairs_complete t v Hd) by lia. lia.
Qed.

(** ** In words and back *)

Definition up_to (lo n : nat) : list Z := map Z.of_nat (seq lo n).

Lemma up_to_in lo n z : Z.of_nat lo <= z < Z.of_nat (lo + n) -> In z (up_to lo n).
Proof. intros Hz. apply in_map_iff. exists (Z.to_nat z). split; [lia|]. apply in_seq. lia. Qed.

(** Two functions that agree on a whole range, seen at once. *)
Lemma map_eq_at {A B} (f g : A -> B) l x : map f l = map g l -> In x l -> f x = g x.
Proof. intros Hm. by apply map_ext_in_iff. Qed.

Lemma said_days d l w y tail : mask_ok d ->
  when_try_days (mk_cur (lit " " ++ when_describe_days d 96 ++ lit " at " ++ tail) l w y) = (d, mk_cur (lit " at " ++ tail) l w y).
Proof.
  intros [H1 H2]. unfold WHEN_DAYS_ALL in H2.
  apply (map_eq_at (fun d => when_try_days (mk_cur (lit " " ++ when_describe_days d 96 ++ lit " at " ++ tail) l w y))
    (fun d => (d, mk_cur (lit " at " ++ tail) l w y)) (up_to 1 127)); [vm_compute; reflexivity|apply up_to_in; lia].
Qed.

Lemma said_minute m l w y : 0 <= m < 1440 ->
  when_try_at_time (mk_cur (lit " at " ++ when_fmt_minute m 16) l w y) = (WHEN_PART_FOUND, mk_cur [] l (with_minute m w) y).
Proof.
  intros Hm. apply (map_eq_at (fun m => when_try_at_time (mk_cur (lit " at " ++ when_fmt_minute m 16) l w y))
    (fun m => (WHEN_PART_FOUND, mk_cur [] l (with_minute m w) y)) (up_to 0 1440)); [vm_compute; reflexivity|apply up_to_in; lia].
Qed.

Lemma said_short d m : mask_ok d -> 0 <= m < 1440 ->
  (length (lit "every " ++ when_describe_days d 96 ++ lit " at " ++ when_fmt_minute m 16) < 80)%nat.
Proof.
  intros [H1 H2] Hm. unfold WHEN_DAYS_ALL in H2. rewrite !length_app.
  assert (Hd : forallb (fun d => (length (when_describe_days d 96) <=? 60)%nat) (up_to 1 127) = true) by (vm_compute; reflexivity).
  assert (Hc : forallb (fun m => (length (when_fmt_minute m 16) <=? 8)%nat) (up_to 0 1440) = true) by (vm_compute; reflexivity).
  pose proof (proj1 (forallb_forall _ _) Hd d (up_to_in 1 127 d ltac:(lia))) as L1. apply Nat.leb_le in L1.
  pose proof (proj1 (forallb_forall _ _) Hc m (up_to_in 0 1440 m ltac:(lia))) as L2. apply Nat.leb_le in L2.
  change (length (lit "every ")) with 6%nat. change (length (lit " at ")) with 4%nat. lia.
Qed.

(** The first word of what is said of a repeat. *)
Lemma parse_every_word s local :
  when_parse (Some (lit "every " ++ s)) local =
  let '(ok, c) := when_parse_every (mk_cur (lit " " ++ s) local when_zero None) false in
  if ok : bool then inl (cu_out c, skip_while blank (cu_p c)) else inr (cu_why c).
Proof. reflexivity. Qed.

Lemma at_word s : exists w, when_next_word (lit " at " ++ s) = Some w.
Proof. by eexists. Qed.

(** The loop finds the time that is said, and the line is at its end. *)
Lemma every_said m l w y : 0 <= m < 1440 ->
  every_loop 3 (mk_parts false false false) (mk_cur (lit " at " ++ when_fmt_minute m 16) l w y) =
  Leave (mk_parts false true false) (mk_cur [] l (with_minute m w) y).
Proof.
  intros Hm. cbn [every_loop cu_p]. destruct (at_word (when_fmt_minute m 16)) as [x Hx]. rewrite Hx.
  unfold time_and_zone. cbn [pt_time negb]. by rewrite said_minute.
Qed.

(** C16: What is said of a weekly repeat in the daemon's own zone reads back as that repeat:
    the same days, the same minute, nothing left over. *)
Theorem when_weekly_reads_back (d m : Z) (named : bool) (z : cstr) (cap : nat)
    (Hd : mask_ok d) (Hm : 0 <= m < 1440) (Hz : zone_ok z) (Hc : (80 <= cap)%nat) :
  when_parse (Some (when_describe_repeat (mk_when WHEN_WEEKLY 0 d 0 0 m named z) (Some z) cap)) (Some z) =
  inl (mk_when WHEN_WEEKLY 0 d 0 0 m false z, []).
Proof.
  pose proof (said_short d m Hd Hm) as Hs. unfold when_describe_repeat. cbn [wh_kind wh_days wh_minute wh_tz]. rewrite seqb_refl.
  rewrite strlcpy_fits by lia. rewrite parse_every_word. unfold when_parse_every. rewrite said_days by done.
  destruct (d =? 0) eqn:E; [apply Z.eqb_eq in E; unfold mask_ok in Hd; lia|]. unfold cur_out. cbn [cu_p cu_local cu_out cu_why].
  rewrite every_said by done. cbn [pt_time negb]. unfold when_finish_zone. cbn [cu_out with_minute with_kind with_days when_zero wh_tz_named cu_local].
  destruct Hz as [Hv Hl]. rewrite Hv. cbn [negb]. rewrite (proj2 (Nat.leb_gt _ _) Hl), strlcpy_fits by done. reflexivity.
Qed.

(** *** Intervals *)

(** The interval that is said: to the second below an hour, to the minute below a day,
    and to the hour above. *)
Definition said_secs (s : Z) : Z := if 86400 <=? s then s - s mod 3600 else if 3600 <=? s then s - s mod 60 else s.

Definition two_parts (n1 : Z) (u1 : ascii) (n2 : Z) (u2 : ascii) : cstr :=
  dec n1 ++ [u1] ++ (if n2 =? 0 then [] else dec n2 ++ [u2]).

Lemma dec_short n : 0 <= n <= 3650 -> (1 <= length (dec n) <= 4)%nat /\ Forall (fun c => isdigit c = true) (dec n) /\ digits_val (dec n) = n.
Proof.
  intros Hn. unfold dec. rewrite (proj2 (Z.ltb_ge _ _)) by lia. destruct (dec_nat_spec n ltac:(lia)) as (H1 & H2 & H3). split; [|by split].
  assert (Hl : forallb (fun n => (length (dec_nat n) <=? 4)%nat) (up_to 0 3651) = true) by (vm_compute; reflexivity).
  pose proof (proj1 (forallb_forall _ _) Hl n (up_to_in 0 3651 n ltac:(lia))) as L. apply Nat.leb_le in L. clear Hl.
  destruct (dec_nat n); [done|]. cbn [length] in *. lia.
Qed.

(** One turn of the loop that writes them. *)
Lemma fmt_step used pos secs cap dst unit u ps : (used < 2)%nat -> (pos < cap)%nat ->
  fmt_loop used pos secs cap dst ((unit, u) :: ps) =
  if secs / unit =? 0 then if (0 <? used)%nat then dst else fmt_loop used pos secs cap dst ps
  else fmt_loop (S used) (pos + length (dec (secs / unit) ++ [u])) (secs - secs / unit * unit) cap
         (take pos dst ++ strlcpy (cap - pos) (dec (secs / unit) ++ [u])) ps.
Proof. intros Hu Hp. cbn [fmt_loop]. by rewrite !(proj2 (Nat.leb_gt _ _)) by done. Qed.

Lemma fmt_full pos secs cap dst ps : fmt_loop 2 pos secs cap dst ps = dst.
Proof. by destruct ps as [|[? ?] ?]. Qed.

(** The text of the two parts. *)
Lemma fmt_two s unit1 u1 unit2 u2 ps : 0 < unit1 -> 0 < unit2 -> 1 <= s / unit1 <= 3650 -> (s - s / unit1 * unit1) / unit2 <= 3650 -> 0 <= s ->
  fmt_loop 0 0 s 32 [] ((unit1, u1) :: (unit2, u2) :: ps) = two_parts (s / unit1) u1 ((s - s / unit1 * unit1) / unit2) u2.
Proof.
  intros H1 H2 Hn Hm Hs. set (n := s / unit1) in *. set (k := (s - n * unit1) / unit2) in *.
  assert (Hk : 0 <= k) by (apply Z.div_pos; [pose proof (Z.mul_div_le s unit1 H1); lia|done]).
  destruct (dec_short n ltac:(lia)) as (Ln & _). destruct (dec_short k ltac:(lia)) as (Lk & _).
  rewrite fmt_step by lia. fold n. rewrite (proj2 (Z.eqb_neq n 0)) by lia. set (part := dec n ++ [u1]).
  assert (Lp : (length part <= 5)%nat) by (unfold part; rewrite length_app; cbn [length]; lia).
  rewrite (strlcpy_fits (32 - 0) part) by lia. rewrite fmt_step by lia. fold k. unfold two_parts.
  destruct (k =? 0) eqn:E; [unfold part; by rewrite app_nil_r|]. set (part2 := dec k ++ [u2]).
  assert (Lq : (length part2 <= 5)%nat) by (unfold part2; rewrite length_app; cbn [length]; lia).
  rewrite fmt_full, strlcpy_fits by lia. change (take 0 [] ++ part) with part. rewrite take_ge by lia. unfold part, part2. by rewrite <- app_assoc.
Qed.

(** The parts of an interval that is said. *)
Definition said_parts (s : Z) : Z * ascii * Z * (Z * ascii * Z) :=
  if 86400 <=? s then (s / 86400, "d"%char, 86400, (s mod 86400 / 3600, "h"%char, 3600))
  else if 3600 <=? s then (s / 3600, "h"%char, 3600, (s mod 3600 / 60, "m"%char, 60))
  else if 60 <=? s then (s / 60, "m"%char, 60, (s mod 60, "s"%char, 1))
  else (s, "s"%char, 1, (0, "s"%char, 1)).

Lemma sub_mod s u : s - s / u * u = s mod u.
Proof. pose proof (Z.div_mod s u). destruct (decide (u = 0)) as [->|]; [by rewrite Z.mod_0_r_ext, Z.mul_0_r, Z.sub_0_r|lia]. Qed.

Lemma fmt_secs_text s : span_ok s ->
  let '(n1, u1, _, (n2, u2, _)) := said_parts s in when_fmt_secs s 32 = two_parts n1 u1 n2 u2 /\ 1 <= n1 <= 3650 /\ 0 <= n2 <= 59.
Proof.
  intros [H1 H2]. unfold WHEN_DURATION_MAX in H2. unfold said_parts, when_fmt_secs, fmt_parts.
  destruct (86400 <=? s) eqn:E1; [apply Z.leb_le in E1|apply Z.leb_gt in E1].
  { rewrite <- sub_mod. split; [apply fmt_two; try lia; Z.div_mod_to_equations; lia|split; Z.div_mod_to_equations; lia]. }
  rewrite fmt_step by lia. rewrite (Z.div_small s 86400) by lia. cbn [Z.eqb Nat.ltb Nat.leb].
  destruct (3600 <=? s) eqn:E2; [apply Z.leb_le in E2|apply Z.leb_gt in E2].
  { rewrite <- sub_mod. split; [apply fmt_two; try lia; Z.div_mod_to_equations; lia|split; Z.div_mod_to_equations; lia]. }
  rewrite fmt_step by lia. rewrite (Z.div_small s 3600) by lia. cbn [Z.eqb Nat.ltb Nat.leb].
  destruct (60 <=? s) eqn:E3; [apply Z.leb_le in E3|apply Z.leb_gt in E3].
  { rewrite <- sub_mod. replace (s - s / 60 * 60) with ((s - s / 60 * 60) / 1) by apply Z.div_1_r.
    split; [apply fmt_two; try lia; Z.div_mod_to_equations; lia|split; Z.div_mod_to_equations; lia]. }
  rewrite fmt_step by lia. rewrite (Z.div_small s 60) by lia. cbn [Z.eqb Nat.ltb Nat.leb]. rewrite fmt_step by lia.
  rewrite Z.div_1_r, (proj2 (Z.eqb_neq s 0)) by lia. split; [|lia]. cbn [fmt_loop]. unfold two_parts. cbn [Z.eqb].
  destruct (dec_short s ltac:(lia)) as (Ln & _). rewrite app_nil_r, strlcpy_fits; [done|]. rewrite length_app. cbn [length]. lia.
Qed.

(** A word that is said: digits and small letters, a letter at the end. *)
Definition said_char (c : ascii) : bool := isdigit c || islower c.

Lemma said_char_plain c : said_char c = true -> not_blank c = true /\ blank c = false /\ ends_word c = false /\ tolower c = c /\ ceqb c "," = false.
Proof.
  assert (Hc : negb (said_char c) || (not_blank c && negb (blank c) && negb (ends_word c) && ceqb (tolower c) c && negb (ceqb c ",")) = true)
    by by_chars (fun c => negb (said_char c) || (not_blank c && negb (blank c) && negb (ends_word c) && ceqb (tolower c) c && negb (ceqb c ","))) c.
  intros Hs. rewrite Hs in Hc. cbn [negb orb] in Hc. rewrite !andb_true_iff, !negb_true_iff in Hc. destruct Hc as [[[[H1 H2] H3] H4] H5].
  apply ceqb_true in H4. done.
Qed.

Lemma said_word t : t <> [] -> Forall (fun c => said_char c = true) t -> (length t < WHEN_TZ_SZ)%nat ->
  when_next_word (" "%char :: t) = Some (mk_word [] false t t).
Proof.
  intros Hn Ht Hl. unfold when_next_word. change (skip_while blank (" "%char :: t)) with (skip_while blank t).
  assert (Hb : skip_while blank t = t).
  { destruct t as [|c t]; [done|]. apply skip_while_stop. by apply said_char_plain, (Forall_inv Ht). }
  rewrite Hb. assert (Hs : span not_blank t = t /\ skip_while not_blank t = []).
  { assert (Hf : Forall (fun c => not_blank c = true) t) by (eapply Forall_impl; [|exact Ht]; intros c Hc; by apply said_char_plain).
    pose proof (span_app_stop not_blank t [] Hf I) as Hx. by rewrite app_nil_r in Hx. }
  destruct Hs as [H1 H2]. assert (Hr : trim_end t = t).
  { unfold trim_end. destruct (rev t) as [|c r] eqn:E; [by rewrite <- (rev_involutive t), E|]. rewrite skip_while_stop; [by rewrite <- E, rev_involutive|].
    apply said_char_plain. apply (proj1 (List.Forall_forall _ _) Ht). apply in_rev. rewrite E. by left. }
  assert (Hm : map tolower t = t); [|destruct t as [|c0 t0]; [done|]; set (t := c0 :: t0) in *;
    rewrite H1, H2, Hr, (proj2 (Nat.leb_gt _ _)) by done; by rewrite Hm].
  clear -Ht. induction Ht as [|x l Hx Hl IH]; [done|].
  cbn [map]. f_equal; [by apply said_char_plain|exact IH].
Qed.

Lemma two_parts_text n1 u1 n2 u2 : 1 <= n1 <= 3650 -> 0 <= n2 <= 59 -> islower u1 = true -> islower u2 = true ->
  let t := two_parts n1 u1 n2 u2 in
  (length t < 16)%nat /\ Forall (fun c => said_char c = true) t /\ (exists c s, t = c :: s /\ isdigit c = true) /\ when_all_digits t = false.
Proof.
  intros H1 H2 L1 L2. cbn zeta. unfold two_parts. destruct (dec_short n1 ltac:(lia)) as (Ln & Dn & _). destruct (dec_short n2 ltac:(lia)) as (Lk & Dk & _).
  assert (Hd : forall s, Forall (fun c => isdigit c = true) s -> Forall (fun c => said_char c = true) s).
  { intros s Hs. eapply Forall_impl; [|exact Hs]. intros c Hc. cbn. unfold said_char. by rewrite Hc. }
  assert (Hu : forall u, islower u = true -> said_char u = true) by (intros u Hu; unfold said_char; rewrite Hu; apply orb_true_r).
  assert (Hnd : isdigit u1 = false).
  { assert (Hc : negb (islower u1) || negb (isdigit u1) = true) by by_chars (fun c => negb (islower c) || negb (isdigit c)) u1. rewrite L1 in Hc. by apply negb_true_iff in Hc. }
  split_and!.
  - rewrite !length_app. cbn [length]. destruct (n2 =? 0); [cbn [length]; lia|]. rewrite length_app. cbn [length]. lia.
  - apply Forall_app. split; [by apply Hd|]. apply Forall_app. split; [by repeat constructor; apply Hu|]. destruct (n2 =? 0); [constructor|].
    apply Forall_app. split; [by apply Hd|by repeat constructor; apply Hu].
  - destruct (dec n1) as [|c s]; [cbn in Ln; lia|]. exists c, (s ++ [u1] ++ (if n2 =? 0 then [] else dec n2 ++ [u2])). split; [done|by apply Forall_inv in Dn].
  - unfold when_all_digits. destruct (dec n1 ++ _) eqn:E; [done|]. rewrite <- E, !forallb_app. cbn [forallb]. rewrite Hnd. cbn [andb]. apply andb_false_r.
Qed.

Lemma row_of_head {A} (t : list (cstr * A)) c s : forallb (fun r => match r.1 with x :: _ => negb (isdigit x) | [] => false end) t = true ->
  isdigit c = true -> table_row (c :: s) t = None.
Proof.
  intros Ht Hc. unfold table_row. destruct (List.find _ t) as [r|] eqn:E; [|done]. apply List.find_some in E as [Hi Hs]. apply seqb_true in Hs.
  apply (proj1 (forallb_forall _ _) Ht) in Hi. rewrite <- Hs in Hi. by rewrite Hc in Hi.
Qed.

Lemma digit_word c s w : isdigit c = true -> ww_norm w = c :: s -> forall x (l : string), isdigit x = false -> when_is w (String x l) = false.
Proof. intros Hc Hw x l Hx. unfold when_is. rewrite Hw. apply seqb_false. intros [= -> _]. congruence. Qed.

(** Such a word is no day, and the duration it is. *)
Lemma said_no_days t l w y : Forall (fun c => said_char c = true) t -> (length t < 16)%nat -> (exists c s, t = c :: s /\ isdigit c = true) ->
  when_try_days (mk_cur (" "%char :: t) l w y) = (0, mk_cur (" "%char :: t) l w y).
Proof.
  intros Ht Hl (c & s & E & Hc). unfold when_try_days. cbn [cu_p]. rewrite said_word; [|by rewrite E|done|unfold WHEN_TZ_SZ; lia]. cbn [ww_long].
  rewrite !(digit_word c s (mk_word [] false t t)) by done. cbn [orb ww_norm].
  assert (Hw : when_weekday_list t = 0); [|by rewrite Hw].
  unfold when_weekday_list. cbn [weekday_pieces]. assert (Hs : strchr t "," = None).
  { apply strchr_None. intros Hi. apply list_elem_of_In in Hi. apply (proj1 (List.Forall_forall _ _) Ht) in Hi. by vm_compute in Hi. }
  rewrite Hs, (proj2 (Nat.leb_gt _ _)) by lia. rewrite E. cbn [length Nat.eqb orb]. unfold when_weekday. by rewrite row_of_head.
Qed.

Lemma said_duration t v l w y : Forall (fun c => said_char c = true) t -> (length t < 16)%nat -> t <> [] -> when_all_digits t = false ->
  duration t v -> span_ok v ->
  when_try_duration (mk_cur (" "%char :: t) l w y) = Some (mk_cur [] l (with_secs v w) y).
Proof.
  intros Ht Hl Hn Ha Hd [V1 V2]. unfold when_try_duration. cbn [cu_p]. rewrite said_word by (try done; unfold WHEN_TZ_SZ; lia).
  cbn [ww_long ww_end ww_norm when_next_word skip_while]. rewrite Ha. cbn [andb].
  rewrite (proj2 (when_parse_duration_exact t v V1)) by (split; [right; by split|done]).
  rewrite (proj2 (Z.eqb_neq v 0)), (proj2 (Z.ltb_ge _ _)) by lia. reflexivity.
Qed.

Lemma two_parts_duration n1 u1 m1 n2 u2 m2 : 1 <= n1 <= 3650 -> 0 <= n2 <= 59 -> isdigit u1 = false -> isdigit u2 = false ->
  table_row [tolower u1] when_units = Some m1 -> table_row [tolower u2] when_units = Some m2 ->
  duration (two_parts n1 u1 n2 u2) (n1 * m1 + n2 * m2).
Proof.
  intros H1 H2 U1 U2 R1 R2. destruct (dec_short n1 ltac:(lia)) as (Ln & Dn & En). destruct (dec_short n2 ltac:(lia)) as (Lk & Dk & Ek).
  assert (G : forall n u m rest v, (1 <= length (dec n))%nat -> Forall (fun c => isdigit c = true) (dec n) -> digits_val (dec n) = n -> isdigit u = false ->
    table_row [tolower u] when_units = Some m -> duration rest v -> duration (dec n ++ [u] ++ rest) (n * m + v)).
  { intros n u m rest v L D E U R Hr. rewrite <- E at 2. apply D_pair; [by destruct (dec n); [cbn in L; lia|]|done| |done|done].
    constructor; [unfold nondigit; by rewrite U|constructor]. }
  unfold two_parts. apply G; [lia|done..|]. destruct (n2 =? 0) eqn:E; [apply Z.eqb_eq in E; subst n2; constructor|].
  rewrite <- (Z.add_0_r (n2 * m2)). rewrite <- (app_nil_r [u2]). apply G; [lia|done..|constructor].
Qed.

(** What is said of an interval reads back as an interval that is never longer: the
    same below an hour, without the seconds below a day, without the minutes above. *)
Theorem when_every_reads_back (s : Z) (local : option cstr) (cap : nat) (Hs : span_ok s) (Hc : (32 <= cap)%nat) :
  when_parse (Some (when_describe_repeat (mk_when WHEN_EVERY s 0 0 0 0 false []) local cap)) local =
    inl (mk_when WHEN_EVERY (said_secs s) 0 0 0 0 false [], []) /\
  0 < said_secs s <= s /\ (s < 3600 -> said_secs s = s).
Proof.
  pose proof (fmt_secs_text s Hs) as Hf. assert (Hv : 0 < said_secs s <= s /\ (s < 3600 -> said_secs s = s)).
  { destruct Hs as [S1 S2]. unfold said_secs. destruct (86400 <=? s) eqn:E1; [apply Z.leb_le in E1; Z.div_mod_to_equations; lia|].
    destruct (3600 <=? s) eqn:E2; [apply Z.leb_le in E2; Z.div_mod_to_equations; lia|lia]. }
  split; [|done].
  assert (Hp : let '(n1, u1, m1, (n2, u2, m2)) := said_parts s in n1 * m1 + n2 * m2 = said_secs s /\ islower u1 = true /\ islower u2 = true /\
    isdigit u1 = false /\ isdigit u2 = false /\ table_row [tolower u1] when_units = Some m1 /\ table_row [tolower u2] when_units = Some m2).
  { destruct Hs as [S1 S2]. unfold said_parts, said_secs. destruct (86400 <=? s); [split; [Z.div_mod_to_equations; lia|done]|].
    destruct (3600 <=? s); [split; [Z.div_mod_to_equations; lia|done]|]. destruct (60 <=? s); split; try done; Z.div_mod_to_equations; lia. }
  destruct (said_parts s) as [[[n1 u1] m1] [[n2 u2] m2]]. destruct Hf as (Hf & N1 & N2). destruct Hp as (Ev & L1 & L2 & U1 & U2 & R1 & R2).
  pose proof (two_parts_duration n1 u1 m1 n2 u2 m2 N1 N2 U1 U2 R1 R2) as Hd. rewrite Ev in Hd.
  destruct (two_parts_text n1 u1 n2 u2 N1 N2 L1 L2) as (T1 & T2 & T3 & T4). rewrite <- Hf in Hd, T1, T2, T3, T4. set (t := when_fmt_secs s 32) in *.
  cbn [when_describe_repeat wh_kind wh_secs]. fold t. rewrite strlcpy_fits by (rewrite length_app; change (length (lit "every ")) with 6%nat; lia).
  rewrite parse_every_word. change (lit " " ++ t) with (" "%char :: t). unfold when_parse_every. rewrite said_no_days by done. cbn [Z.eqb].
  unfold cur_out. cbn [cu_p cu_local cu_out cu_why]. rewrite (said_duration t (said_secs s)); [reflexivity|done|done| |done|done|].
  - by destruct T3 as (? & ? & -> & _).
  - destruct Hs. unfold span_ok. lia.
Qed.

(** A repeat that was read and is stored by its columns comes back as it was, but for
    who named the zone, which is not stored; and a row that makes no repeat comes back as
    none: what is restored has a form its users rely on. *)
Theorem when_restore_exact :
  (forall text local, match when_parse text local with
   | inl (w, _) =>
       let restored := when_repeat_restore (wh_secs w) (wh_days w) (wh_minute w) (Some (wh_tz w)) in
       match wh_kind w with
       | WHEN_WEEKLY => restored = Some (with_tz (wh_tz w) true w)
       | WHEN_EVERY => restored = Some w
       | _ => True
       end
   | inr _ => True
   end) /\
  (forall secs days minute tz w, 0 <= secs -> when_repeat_restore secs days minute tz = Some w -> moment None w).
Proof.
  split.
  - intros text local. pose proof (when_parse_forms text local) as Hp. destruct (when_parse text local) as [[w rest]|]; [|done].
    destruct Hp as [s Hs|Hs|s [S1 S2]|d lo hi m named z|d m named z [D1 D2] Hm [Z1 Z2] _]; cbn [wh_kind]; try done;
      unfold when_repeat_restore; cbn [wh_secs wh_days wh_minute wh_tz].
    + cbn [Z.eqb negb]. by rewrite (proj2 (Z.eqb_neq s 0)), (proj2 (Z.ltb_ge _ _)) by lia.
    + unfold WHEN_DAYS_ALL in *. rewrite (proj2 (Z.eqb_neq d 0)), !(proj2 (Z.ltb_ge _ _)), (proj2 (Z.leb_gt _ _)) by lia. cbn [negb orb].
      rewrite Z1, (proj2 (Nat.leb_gt _ _) Z2), strlcpy_fits, !wrap_small by (done || lia). reflexivity.
  - intros secs days minute tz w Hs. unfold when_repeat_restore. destruct (days =? 0) eqn:E; cbn [negb].
    + destruct (_ || _) eqn:Eb; [done|]. apply orb_false_iff in Eb as [E1 E2]. apply Z.eqb_neq in E1. apply Z.ltb_ge in E2. intros [= <-].
      apply M_every. unfold span_ok. lia.
    + apply Z.eqb_neq in E. destruct (_ || (1440 <=? minute)) eqn:Eb; [done|]. apply orb_false_iff in Eb as [Eb E4].
      apply orb_false_iff in Eb as [Eb E3]. apply orb_false_iff in Eb as [E1 E2]. apply Z.ltb_ge in E1, E2, E3. apply Z.leb_gt in E4. unfold WHEN_DAYS_ALL in E2.
      destruct tz as [z|]; [|done]. destruct (when_zone_valid z) eqn:Ez; [|done]. cbn [negb orb].
      destruct (WHEN_TZ_SZ <=? length z)%nat eqn:El; [done|]. apply Nat.leb_gt in El. intros Ew. injection Ew as <-.
      rewrite !wrap_small, strlcpy_fits by (done || lia). apply M_weekly; [unfold mask_ok, WHEN_DAYS_ALL; lia|lia|done|done].
Qed.

(** The daemon's own zone is one that a clock form may take. *)
Lemma local_zone_ok env link z : when_local_zone env link WHEN_TZ_SZ = Some z -> zone_ok z.
Proof.
  unfold when_local_zone. destruct (match env with Some _ => _ | None => _ end) as [x|]; [|done]. destruct (when_zone_valid x) eqn:Ev; [|done].
  cbn [negb orb]. destruct (WHEN_TZ_SZ <=? length x)%nat eqn:El; [done|]. apply Nat.leb_gt in El. intros E. injection E as <-.
  by rewrite strlcpy_fits.
Qed.

(** *** What the grammar does not expect *)

(** A word with a slash is taken for a zone, although no area is named like it. *)
Theorem when_slash_is_a_zone :
  when_parse (Some (lit "at 3pm w/ bob")) (Some new_york) = inl (mk_when WHEN_CLOCK 0 127 0 1 900 true (lit "w/"), lit "bob") /\
  when_parse (Some (lit "daily at noon lunch and/or gym")) (Some new_york) = inl (weekly_ny 127 720, lit "lunch and/or gym") /\
  when_parse (Some (lit "daily at noon and/or gym")) (Some new_york) =
    inl (mk_when WHEN_WEEKLY 0 127 0 0 720 true (lit "and/or"), lit "gym").
Proof. split_and!; vm_compute; reflexivity. Qed.

(** Ninety seconds are said to be a minute and a half. *)
Theorem when_ninety_seconds : when_fmt_secs 90 32 = lit "1m30s".
Proof. vm_compute. reflexivity. Qed.

(** ** Witnesses *)

Lemma when_parse_duration_exact_witness : when_parse_duration (lit "1h30m") = 5400 /\ spans (lit "1h30m") 5400 /\ 5400 <= WHEN_DURATION_MAX.
Proof.
  assert (E : when_parse_duration (lit "1h30m") = 5400) by (vm_compute; reflexivity). split; [exact E|].
  apply (when_parse_duration_exact (lit "1h30m") 5400); [reflexivity|exact E].
Defined.

Lemma when_weekly_reads_back_witness :
  when_parse (Some (lit "every Monday, Wednesday and Friday at 9:00 AM")) (Some new_york) = inl (mk_when WHEN_WEEKLY 0 42 0 0 540 false new_york, []).
Proof.
  change (lit "every Monday, Wednesday and Friday at 9:00 AM") with (when_describe_repeat (mk_when WHEN_WEEKLY 0 42 0 0 540 true new_york) (Some new_york) 80).
  apply when_weekly_reads_back; [split; reflexivity || discriminate|split; [discriminate|reflexivity]|split; [reflexivity|apply Nat.ltb_lt; reflexivity]|apply le_n].
Defined.

Lemma when_every_reads_back_witness :
  when_parse (Some (lit "every 1d1h")) None = inl (mk_when WHEN_EVERY 90000 0 0 0 0 false [], []).
Proof.
  change (lit "every 1d1h") with (when_describe_repeat (mk_when WHEN_EVERY 90061 0 0 0 0 false []) None 32).
  apply (when_every_reads_back 90061 None 32); [split; [reflexivity|discriminate]|apply le_n].
Defined.

Lemma when_restore_exact_witness :
  when_repeat_restore 0 42 540 (Some new_york) = Some (mk_when WHEN_WEEKLY 0 42 0 0 540 true new_york) /\
  moment None (mk_when WHEN_WEEKLY 0 42 0 0 540 true new_york).
Proof.
  pose proof (proj1 when_restore_exact (Some (lit "every mon,wed,fri at 9am gym")) (Some new_york)) as H.
  assert (E : when_parse (Some (lit "every mon,wed,fri at 9am gym")) (Some new_york) = inl (weekly_ny 42 540, lit "gym")) by (vm_compute; reflexivity).
  rewrite E in H. cbn [weekly_ny wh_kind wh_secs wh_days wh_minute wh_tz] in H. split; [exact H|].
  apply (proj2 when_restore_exact 0 42 540 (Some new_york)); [discriminate|exact H].
Defined.
